(* ===== verification/_CoqProject ===== *)
-Q . S2P
Prelude.v
Riscv.v
Mem.v
Spinlock.v
Kalloc.v
Vm.v
VmTable.v
VmWalk.v
VmUser.v
VmCopy.v
VmFree.v
VmExamples.v
Sleeplock.v
Bio.v
BioSpec.v
Bytes.v
Log.v
LogSpec.v
LogOps.v
ProcData.v
Fs.v
FsTx.v
FsAlloc.v
FsFile.v
FsGrow.v
FsWrite.v
FsDir.v
FsTrunc.v
FsPath.v
FsOp.v
FsDurable.v
Ring.v
Pipe.v
File.v
FileWrite.v
Proc.v
ProcSpec.v
ProcMem.v
Fork.v
Wait.v
Exec.v
ExecMem.v
Grow.v
ExecLoad.v
ExecStack.v
ExecSpec.v
SysFile.v
SysProc.v
Csr.v
Trap.v
Console.v
Printf.v
Virtio.v
VirtioSpec.v
Mkfs.v
MkfsSpec.v
Umalloc.v
Grep.v
Ulib.v
Uprintf.v
Sh.v
ShRun.v
Tools.v
Find.v
Usys.v
UserCmds.v
Rand.v
Primes.v
Pingpong.v
WlanCfg.v
Boot.v
Sched.v
