(* ===== verification/Prelude.v ===== *)
(** * Verification of xv6 for RISC-V: overview and prelude

    xv6 is a Unix-like teaching kernel for RISC-V multiprocessors, written in C,
    with a file system image and a few user programs.  This library translates
    the C functions into Rocq functions and proves what they are meant to do.

    ** The program and its parts

    Physical memory is a free list of pages ([kernel/kalloc.c]) from which page
    tables, user memory, pipes and kernel stacks are taken ([kernel/vm.c]).
    Spin locks ([kernel/spinlock.c]) protect short critical sections; sleep locks
    ([kernel/sleeplock.c]) and [sleep]/[wakeup] ([kernel/proc.c]) let a process
    wait.  The file system ([kernel/fs.c]) works on blocks in a cache
    ([kernel/bio.c]) through a write-ahead log ([kernel/log.c]) over a disk
    driver ([kernel/virtio_disk.c]).  Files, pipes and devices are reached through
    [kernel/file.c]; system calls decode their arguments and call these parts.
    Traps ([kernel/trap.c]) enter the kernel, [scheduler] and [sched] switch
    between processes.  The console is [kernel/console.c] over [kernel/uart.c].
    [kernel/main.c] starts these parts.  The disk image is built on the host by
    [mkfs/mkfs.c].  User programs ([user/]) use a small library ([ulib.c],
    [printf.c], [umalloc.c]) and the system calls.

    ** How C is translated

    A function that works on a state [S] and returns an [A] is a term of
    [M S A := S -> outcome S A] (below): it returns with a new state, panics,
    sleeps on a channel, or does not stop within its loop bound.  [zoom] runs a
    function of a component on its part of a larger state.  Machine integers are
    [Z] with the wrap-around of their width written out ([u8], [u16], [u32],
    [u64], [s32], [s16]); addresses are [Z]; structs are records; arrays are
    lists or finite maps; physical memory is a map of bytes, so that page tables
    and the free list live in memory as they do in the code.  A loop that is not
    structural takes a bound [fuel]; the definitions pass one that is large
    enough, and the theorems, which say that the result is [Ok], show that it is:
    the number of pages or blocks of a range, the length of a buffer plus one,
    the number of table entries, twice the number of blocks a heap can hold.
    Concurrency is a step machine: each process or hart has a program counter,
    a step is one memory access (spin locks, scheduler), or one critical section
    under a lock that the step itself takes and releases (sleep locks, log, pipe,
    UART, disk), and theorems hold for every interleaving, by induction on
    [star].

    ** Files

    - [Riscv], [Mem], [Bytes], [Ring]: constants and address macros of
      [riscv.h], [memlayout.h], [param.h], [fcntl.h]; bytes of memory and
      [string.c]; integers in blocks; ring buffers with wrapping indices, shared
      by pipes, console, UART and disk queues.
    - [Spinlock], [Sleeplock]: mutual exclusion; [holding] is exact; no lost
      wakeup of a sleep lock.
    - [Kalloc]: [kalloc] and [kfree] refine a set of free pages.
    - [Vm] is the code of [vm.c]; [VmTable] the abstract page table (a map from
      virtual pages to words, [view]); [VmWalk], [VmUser], [VmCopy], [VmFree] the
      theorems: walking and mapping, growing and shrinking, copying in and out,
      copying a whole space for [fork], freeing; every failure path gives back
      what it took.  [VmExamples] holds a concrete memory for their witnesses.
    - [Bio], [BioSpec]: the cache is a map of block contents; the list of buffers
      stays in order of use.
    - [Log], [LogSpec], [LogOps]: a crash at any write during [commit] leaves,
      after recovery, all of the transaction or none of it; recovery can be
      interrupted and repeated; concurrent operations are admitted safely.
    - [Virtio], [VirtioSpec]: the driver with its descriptors and rings, and a
      device that completes requests in any order; concurrent calls of
      [virtio_disk_rw] have the effect that [Bio] assumes, nothing panics, no
      completion is lost.
    - [Fs] is the code of [fs.c]; [FsTx] gives rules for code that works on blocks
      in a transaction; [FsAlloc] proves the free map; [FsFile] reading of files,
      directory lookup, the inode table and path names; [FsGrow] and [FsWrite]
      that [bmap] and [writei] change the file they work on and no other;
      [FsDir] that a linked name is found again; [FsTrunc] that [iput] of the last
      reference to an unlinked inode frees exactly its blocks and the inode;
      [FsPath] that [namei] and [nameiparent] resolve paths as the directories on
      the disk say; [FsOp] has the rules for [begin_op] and [end_op] around an
      operation, with and without a commit; [FsDurable] that what [writei] wrote is
      in the file after the commit.
    - [Mkfs], [MkfsSpec]: the image builder, and that the image has the layout the
      kernel reads, with every file under its name in the root directory.
    - [ProcData], [Proc], [ProcSpec]: the process table and life cycle.  [ProcMem]
      proves what is built and freed for the address space of a process; [Fork]
      that [fork] makes a child with a copy of the caller's memory and files, or
      changes nothing; [Wait] that [wait] reports a child that has exited and
      gives back all of its pages and its entry; [Grow] that [growproc] resizes the
      memory of a process and keeps what is in it.  [Sched] is the context switch
      protocol of [scheduler], [sched], [yield], [sleep], [wakeup] and [exit] on
      several harts.
    - [Exec] is the code of [exec.c]; [ExecMem], [ExecLoad], [ExecStack] and
      [ExecSpec] prove that [exec] gives the process the memory and registers that
      the ELF file and the arguments determine, or leaves it as it was, for a
      stated reason.
    - [Pipe], [File], [SysFile], [SysProc]: pipes as queues of bytes, open files,
      and the system calls.  [FileWrite] follows [filewrite] from the memory of the
      process to the disk, with a crash at any moment.
    - [Csr], [Trap], [Boot]: control registers, traps, interrupts, start-up; the
      round trip between user and kernel mode; the order in which [main]
      initialises the kernel on several harts.
    - [Console], [Printf]: line editing, the transmit buffer of the UART,
      formatted output.
    - [Umalloc], [Ulib], [Uprintf]: the user library: the allocator, strings and
      memory, formatted output.
    - [Sh], [ShRun]: the parser of the shell; the processes and descriptors with
      which it runs a command, and that all of them end.
    - [Grep], [Tools] (cat, wc, echo), [Find], [Primes], [Pingpong], [WlanCfg]: user
      programs that compute; for any way in which the kernel delivers their input.
    - [Usys], [UserCmds]: user programs that are sequences of system calls (rm, mkdir,
      ln, kill, sleep, zombie, xargs, ls, init), over a class of system calls; with an
      arbitrary kernel, which calls they make: [init] has one shell at a time, [ls]
      closes what it opens.
    - [Rand]: the random numbers of the stress test grind.

    Interfaces are type classes: [Layout] (the symbols of the linker), [Devsw]
    (the device switch), [Handlers] (what the trap code expects of the device
    interrupt handlers), [Sys] (the system calls of a user program),
    [Forkret] and [Vectors] (addresses of code).

    ** What the theorems found

    Most theorems say that the code does what it means to.  These show that it
    does not: [log_overcommit_panics] (the log area is one block smaller than
    [begin_op] assumes), [piperead_loses_byte], [pipewrite_killed_no_wakeup],
    [printf_u_overflows], [kill_zero_dooms_next], [malloc_huge_corrupts].  Others
    state the limits of the code: [grep_prints_matching] which lines are never
    searched, [mkfs_builds_image] how the size of the root directory is rounded
    up, [wlan_cfg_initialised] that the strings lie outside the block allocated
    for them, [find_prints_matches] the lengths for which the buffers suffice.

    ** Not modelled

    Assembly ([entry.S], [swtch.S], [trampoline.S], [kernelvec.S], [initcode.S]):
    the effect of [uservec], [userret] and [sret] on the registers that C code
    relies on is in [Csr] and [Trap], a context switch is a step of [Sched].
    The test programs ([usertests], [forktest], [stressfs] and, apart from its random
    numbers, [grind]) are left out.  The C memory model is sequentially
    consistent here: [__sync_synchronize] has no effect.  The file system
    operations are proved for one transaction at a time; the interleaving of
    transactions is the subject of [LogOps] alone.  [exit] (apart from its
    part in the protocol of [Sched]), [create], [userinit] and the
    functions of the system calls are translated in full, but have no theorem of
    their own yet. *)

From stdpp Require Import base list gmap strings list_numbers.
From Stdlib Require Export ZArith Lia.

Open Scope Z_scope.

(** ** Outcomes and the kernel monad

    A C function that runs in the kernel is a function of the state it works
    on.  It returns ([Ok]), calls [panic(msg)] ([Panic]), has to give up the CPU
    in [sleep(chan, lk)] ([Sleep]), or does not stop within the loop bound
    ([Diverge]). *)
Inductive outcome (S A : Type) : Type :=
| Ok (a : A) (s : S)
| Panic (msg : string)
| Sleep (chan : string)
| Diverge.
Arguments Ok {S A} a s.
Arguments Panic {S A} msg.
Arguments Sleep {S A} chan.
Arguments Diverge {S A}.

Definition M (S A : Type) : Type := S -> outcome S A.

Definition mret' {S A} (a : A) : M S A := fun s => Ok a s.

Definition bind {S A B} (m : M S A) (k : A -> M S B) : M S B :=
  fun s => match m s with
           | Ok a s' => k a s'
           | Panic msg => Panic msg
           | Sleep c => Sleep c
           | Diverge => Diverge
           end.

Definition panic {S A} (msg : string) : M S A := fun _ => Panic msg.
Definition sleeps {S A} (chan : string) : M S A := fun _ => Sleep chan.
Definition get {S} : M S S := fun s => Ok s s.
Definition gets {S A} (f : S -> A) : M S A := fun s => Ok (f s) s.
Definition modify {S} (f : S -> S) : M S unit := fun s => Ok tt (f s).

(** Run a computation of a component on its part of a larger state. *)
Definition zoom {S T A} (view : S -> T) (put : T -> S -> S) (m : M T A) : M S A :=
  fun s => match m (view s) with
           | Ok a t => Ok a (put t s)
           | Panic msg => Panic msg
           | Sleep c => Sleep c
           | Diverge => Diverge
           end.

Declare Scope xv6_scope.
Delimit Scope xv6_scope with xv6.
Notation "'do' x <- m ; k" := (bind m (fun x => k))
  (at level 10, x name, m at level 100, k at level 200) : xv6_scope.
Notation "'do' ' p <- m ; k" := (bind m (fun p => k))
  (at level 10, p pattern, m at level 100, k at level 200, only parsing) : xv6_scope.
Notation "m ;;; k" := (bind m (fun _ => k))
  (at level 199, right associativity) : xv6_scope.
Notation "'return' a" := (mret' a) (at level 99) : xv6_scope.
Open Scope xv6_scope.

(** The loop [for(i = from; i < from + n; i++) body]. *)
Fixpoint for_range {S} (n : nat) (i : Z) (body : Z -> M S unit) : M S unit :=
  match n with
  | O => mret' tt
  | S n' => body i ;;; for_range n' (i + 1) body
  end.

Section bind_lemmas.
Context {S A B : Type}.
Implicit Types (m : M S A) (k : A -> M S B).

Lemma bind_Ok m k s a s' : m s = Ok a s' -> bind m k s = k a s'.
Proof. intros H. unfold bind. by rewrite H. Qed.

Lemma bind_Panic m k s msg : m s = Panic msg -> bind m k s = Panic msg.
Proof. intros H. unfold bind. by rewrite H. Qed.

Lemma bind_inv m k s b s' :
  bind m k s = Ok b s' -> exists a s1, m s = Ok a s1 /\ k a s1 = Ok b s'.
Proof. unfold bind. destruct (m s) eqn:E; intros; simplify_eq; eauto. Qed.

Lemma bind_gets (f : S -> A) k s : bind (gets f) k s = k (f s) s.
Proof. done. Qed.

Lemma bind_ret (a : A) k s : bind (mret' a) k s = k a s.
Proof. done. Qed.

Lemma zoom_Ok {T} (view : S -> T) put (m : M T A) s a t :
  m (view s) = Ok a t -> zoom view put m s = Ok a (put t s).
Proof. intros H. unfold zoom. by rewrite H. Qed.

Lemma zoom_inv {T} (view : S -> T) put (m : M T A) s a s' :
  zoom view put m s = Ok a s' -> exists t, m (view s) = Ok a t /\ s' = put t s.
Proof. unfold zoom. destruct (m (view s)) eqn:E; intros; simplify_eq; eauto. Qed.
End bind_lemmas.

Lemma bind_modify {S B} (f : S -> S) (k : unit -> M S B) s : bind (modify f) k s = k tt (f s).
Proof. done. Qed.

(** A loop invariant indexed by the loop counter. *)
Lemma for_range_inv {S} (I : Z -> S -> Prop) (n : nat) (i : Z) (body : Z -> M S unit) s :
  (forall j s, i <= j < i + Z.of_nat n -> I j s -> exists s', body j s = Ok tt s' /\ I (j + 1) s') ->
  I i s -> exists s', for_range n i body s = Ok tt s' /\ I (i + Z.of_nat n) s'.
Proof.
  revert i s. induction n as [|n IH]; intros i s Hstep HI; cbn [for_range].
  - exists s. rewrite Z.add_0_r. done.
  - destruct (Hstep i s ltac:(lia) HI) as (s1 & H1 & HI1). rewrite (bind_Ok _ _ _ _ _ H1).
    destruct (IH (i + 1) s1) as (s' & H2 & HI2); [|done|].
    + intros j s2 Hj. apply Hstep. lia.
    + exists s'. split; [done|]. by replace (i + Z.of_nat (Datatypes.S n)) with (i + 1 + Z.of_nat n) by lia.
Qed.

(** ** Total correctness of a computation *)

Definition wp {S A} (m : M S A) (Q : A -> S -> Prop) (s : S) : Prop :=
  match m s with Ok a s' => Q a s' | _ => False end.

Section wp.
Context {S A B : Type}.
Implicit Types (m : M S A) (k : A -> M S B) (s : S).

Lemma wp_bind m k Q s : wp m (fun a s' => wp (k a) Q s') s -> wp (bind m k) Q s.
Proof. unfold wp, bind. by destruct (m s). Qed.
Lemma wp_mono m (Q Q' : A -> S -> Prop) s : (forall a s', Q a s' -> Q' a s') -> wp m Q s -> wp m Q' s.
Proof. unfold wp. destruct (m s); auto. Qed.
Lemma wp_ret (a : A) (Q : A -> S -> Prop) s : Q a s -> wp (return a) Q s.
Proof. done. Qed.
Lemma wp_gets (f : S -> A) Q s : Q (f s) s -> wp (gets f) Q s.
Proof. done. Qed.
Lemma wp_Ok m (Q : A -> S -> Prop) s : wp m Q s -> exists a s', m s = Ok a s' /\ Q a s'.
Proof. unfold wp. destruct (m s) as [a s'| | |]; [|done..]. by exists a, s'. Qed.
Lemma wp_run m (Q : A -> S -> Prop) s a s' : m s = Ok a s' -> Q a s' -> wp m Q s.
Proof. unfold wp. by intros ->. Qed.
End wp.

Lemma wp_modify {S} (f : S -> S) (Q : unit -> S -> Prop) s : Q tt (f s) -> wp (modify f) Q s.
Proof. done. Qed.
Lemma wp_zoom {S T A} (view : S -> T) (put : T -> S -> S) (m : M T A) (Q : A -> S -> Prop) s :
  wp m (fun a t => Q a (put t s)) (view s) -> wp (zoom view put m) Q s.
Proof. unfold wp, zoom. by destruct (m (view s)). Qed.

(** ** Tactics *)

(** Open every bind of a hypothesis that says a computation returned. *)
Ltac inv_bind H :=
  repeat match type of H with
  | bind _ _ _ = Ok _ _ =>
      let a := fresh "a" in let s := fresh "s" in
      let H1 := fresh "Hm" in
      apply bind_inv in H as (a & s & H1 & H)
  end.

(** Split a boolean comparison of the code into the proposition it decides. *)
Ltac case_Z :=
  match goal with
  | |- context [?x <? ?y] => destruct (Z.ltb_spec x y)
  | |- context [?x <=? ?y] => destruct (Z.leb_spec x y)
  | |- context [?x =? ?y] => destruct (Z.eqb_spec x y)
  | |- context [?x >=? ?y] => rewrite (Z.geb_leb x y); destruct (Z.leb_spec y x)
  | |- context [?x >? ?y] => rewrite (Z.gtb_ltb x y); destruct (Z.ltb_spec y x)
  end; try lia.

Ltac case_Z_in H :=
  match type of H with
  | context [?x <? ?y] => destruct (Z.ltb_spec x y)
  | context [?x <=? ?y] => destruct (Z.leb_spec x y)
  | context [?x =? ?y] => destruct (Z.eqb_spec x y)
  | context [?x >=? ?y] => rewrite (Z.geb_leb x y) in H; destruct (Z.leb_spec y x)
  | context [?x >? ?y] => rewrite (Z.gtb_ltb x y) in H; destruct (Z.ltb_spec y x)
  end; try lia.

Create HintDb xv6.

(** ** Machine integers *)

Definition u8 (x : Z) : Z := x mod 2 ^ 8.
Definition u16 (x : Z) : Z := x mod 2 ^ 16.
Definition u32 (x : Z) : Z := x mod 2 ^ 32.
Definition u64 (x : Z) : Z := x mod 2 ^ 64.

(** The value of a C [int] (32 bits, two's complement). *)
Definition s32 (x : Z) : Z := (x + 2 ^ 31) mod 2 ^ 32 - 2 ^ 31.
Definition s16 (x : Z) : Z := (x + 2 ^ 15) mod 2 ^ 16 - 2 ^ 15.

Lemma s32_small x : - 2 ^ 31 <= x < 2 ^ 31 -> s32 x = x.
Proof. intros. unfold s32. rewrite Z.mod_small; lia. Qed.

Lemma u32_range x : 0 <= u32 x < 2 ^ 32.
Proof. apply Z.mod_pos_bound. lia. Qed.
Lemma u32_small x : 0 <= x < 2 ^ 32 -> u32 x = x.
Proof. apply Z.mod_small. Qed.

Lemma u64_small x : 0 <= x < 2 ^ 64 -> u64 x = x.
Proof. apply Z.mod_small. Qed.

(** Clearing the low [k] bits is rounding down to a multiple of [2^k]. *)
Lemma land_lnot_ones x k :
  0 <= k -> Z.land x (Z.lnot (Z.ones k)) = x - x mod 2 ^ k.
Proof.
  intros Hk. rewrite <- Z.ldiff_land, Z.ldiff_ones_r by done.
  rewrite Z.shiftl_mul_pow2, Z.shiftr_div_pow2 by done.
  pose proof (Z.div_mod x (2 ^ k) ltac:(lia)). lia.
Qed.

(** Testing one bit with a mask. *)
Lemma land_bit x k : 0 <= k -> (Z.land x (Z.shiftl 1 k) =? 0) = negb (Z.testbit x k).
Proof.
  intros Hk. rewrite Z.shiftl_1_l. destruct (Z.testbit x k) eqn:E; cbn.
  - apply Z.eqb_neq. intros H0. assert (Z.testbit (Z.land x (2 ^ k)) k = true) as Ht.
    { rewrite Z.land_spec, E, Z.pow2_bits_eqb by lia. by rewrite Z.eqb_refl. }
    by rewrite H0, Z.testbit_0_l in Ht.
  - apply Z.eqb_eq, Z.bits_inj'. intros n Hn. rewrite Z.land_spec, Z.pow2_bits_eqb, Z.testbit_0_l by lia.
    destruct (Z.eqb_spec k n) as [->|]; [by rewrite E|by rewrite andb_false_r].
Qed.
(** ** Lengths as integers *)

Definition lenZ {A} (l : list A) : Z := Z.of_nat (length l).

Lemma lenZ_cons {A} (x : A) l : lenZ (x :: l) = lenZ l + 1.
Proof. unfold lenZ. cbn. lia. Qed.
Lemma lenZ_app {A} (l l' : list A) : lenZ (l ++ l') = lenZ l + lenZ l'.
Proof. unfold lenZ. rewrite length_app. lia. Qed.
Lemma lenZ_nonneg {A} (l : list A) : 0 <= lenZ l.
Proof. unfold lenZ. lia. Qed.

(** ** Little-endian words in byte sequences *)

Fixpoint le_bytes (n : nat) (v : Z) : list Z :=
  match n with
  | O => []
  | S n' => v mod 256 :: le_bytes n' (v / 256)
  end.

Fixpoint le_value (bs : list Z) : Z :=
  match bs with
  | [] => 0
  | b :: r => b + 256 * le_value r
  end.

Definition is_byte (b : Z) : Prop := 0 <= b < 256.

Lemma le_bytes_length n v : length (le_bytes n v) = n.
Proof. revert v. induction n; intros; simpl; auto. Qed.

Lemma le_value_bytes n v :
  le_value (le_bytes n v) = v mod 256 ^ Z.of_nat n.
Proof.
  revert v. induction n as [|n IH]; intros v.
  { change (256 ^ Z.of_nat 0) with 1. by rewrite Z.mod_1_r. }
  cbn [le_bytes le_value]. rewrite IH.
  rewrite Nat2Z.inj_succ, Z.pow_succ_r by lia.
  rewrite Z.rem_mul_r by lia. lia.
Qed.

Lemma le_bytes_value bs :
  Forall is_byte bs -> le_bytes (length bs) (le_value bs) = bs.
Proof.
  unfold is_byte. induction 1 as [|b r Hb _ IH]; [done|]. cbn [length le_bytes le_value].
  replace ((b + 256 * le_value r) mod 256) with b.
  2:{ rewrite Z.mul_comm, Z_mod_plus_full. symmetry. by apply Z.mod_small. }
  replace ((b + 256 * le_value r) / 256) with (le_value r).
  2:{ rewrite Z.add_comm, Z.mul_comm, Z.div_add_l by lia. rewrite Z.div_small; lia. }
  by rewrite IH.
Qed.

Lemma le_bytes_are_bytes n v : Forall is_byte (le_bytes n v).
Proof.
  revert v. induction n; intros v; constructor; [|done].
  apply Z.mod_pos_bound. lia.
Qed.

Lemma le_value_bound bs :
  Forall is_byte bs -> 0 <= le_value bs < 256 ^ Z.of_nat (length bs).
Proof.
  unfold is_byte. induction 1 as [|b r Hb _ IH]; [cbn; lia|]. cbn [le_value length].
  rewrite Nat2Z.inj_succ, Z.pow_succ_r by lia. lia.
Qed.

#[export] Hint Resolve le_bytes_length le_bytes_are_bytes : xv6.

(** ** Overwriting part of a byte sequence

    [memmove(l + n, bs, length bs)] on an array held as a list; bytes that do
    not fit are dropped. *)
Definition splice {A} (n : nat) (bs l : list A) : list A :=
  take n l ++ take (length l - n) bs ++ drop (n + length bs) l.

Section splice_lemmas.
Context {A : Type}.
Implicit Types (l bs : list A).

Lemma length_splice n bs l :
  (n + length bs <= length l)%nat -> length (splice n bs l) = length l.
Proof.
  intros. unfold splice.
  rewrite !length_app, !length_take, length_drop. lia.
Qed.

Lemma lookup_splice_in n bs l (i : nat) :
  (n + length bs <= length l)%nat -> (n <= i < n + length bs)%nat ->
  splice n bs l !! i = bs !! (i - n)%nat.
Proof.
  intros. unfold splice.
  rewrite lookup_app_r; rewrite length_take; [|lia].
  rewrite lookup_app_l; [|rewrite length_take; lia].
  rewrite lookup_take_lt by lia. f_equal. lia.
Qed.

Lemma lookup_splice_out n bs l (i : nat) :
  (n + length bs <= length l)%nat -> (i < n \/ n + length bs <= i)%nat ->
  splice n bs l !! i = l !! i.
Proof.
  intros Hlen [Hi|Hi]; unfold splice.
  - rewrite lookup_app_l by (rewrite length_take; lia). by rewrite lookup_take_lt.
  - rewrite lookup_app_r; rewrite length_take; [|lia].
    rewrite lookup_app_r; rewrite length_take; [|lia].
    rewrite lookup_drop. f_equal. lia.
Qed.

Lemma take_drop_splice n bs l :
  (n + length bs <= length l)%nat ->
  take (length bs) (drop n (splice n bs l)) = bs.
Proof.
  intros H. apply list_eq. intros i.
  destruct (decide (i < length bs)%nat) as [Hi|Hi].
  - rewrite lookup_take_lt, lookup_drop by lia.
    rewrite lookup_splice_in by lia. f_equal. lia.
  - rewrite !lookup_ge_None_2; [done|lia|]. rewrite length_take. lia.
Qed.

Lemma take_drop_splice_out n m k bs l :
  (n + length bs <= length l)%nat ->
  (m + k <= n \/ n + length bs <= m)%nat ->
  take k (drop m (splice n bs l)) = take k (drop m l).
Proof.
  intros H Hd. apply list_eq. intros i.
  destruct (decide (i < k)%nat) as [Hi|Hi].
  - rewrite !lookup_take_lt, !lookup_drop by lia. apply lookup_splice_out; lia.
  - rewrite !lookup_take_ge by lia. done.
Qed.
End splice_lemmas.

(** ** Transition systems *)

Section star.
Context {S : Type} (R : S -> S -> Prop).

Inductive star : S -> S -> Prop :=
| star_refl s : star s s
| star_next s1 s2 s3 : R s1 s2 -> star s2 s3 -> star s1 s3.

(** An inductive invariant holds in every reachable state. *)
Lemma star_invariant (I : S -> Prop) :
  (forall s s', I s -> R s s' -> I s') -> forall s s', star s s' -> I s -> I s'.
Proof. intros HI. induction 1; eauto. Qed.
Lemma star_trans s1 s2 s3 : star s1 s2 -> star s2 s3 -> star s1 s3.
Proof. induction 1; [done|]. intros. eapply star_next; eauto. Qed.
End star.
