(* ===== verification/Riscv.v ===== *)
(** * Constants and macros of the machine and of the kernel's address layout

    [kernel/param.h], [kernel/memlayout.h] and the page-table macros of
    [kernel/riscv.h], with the arithmetic facts about addresses and page-table
    entries that the memory components share. *)

From stdpp Require Import base list gmap strings.
From S2P Require Import Prelude.

(** ** param.h *)
Definition NPROC : Z := 64.
Definition NCPU : Z := 8.
Definition NOFILE : Z := 16.
Definition NFILE : Z := 100.
Definition NINODE : Z := 50.
Definition NDEV : Z := 10.
Definition ROOTDEV : Z := 1.
Definition MAXARG : Z := 32.
Definition MAXOPBLOCKS : Z := 10.
Definition LOGSIZE : Z := MAXOPBLOCKS * 3.
Definition NBUF : Z := MAXOPBLOCKS * 3.
Definition FSSIZE : Z := 2000.
Definition MAXPATH : Z := 128.
Definition USERSTACK : Z := 1.

(** ** riscv.h: pages and page-table entries *)
Definition PGSIZE : Z := 4096.
Definition PGSHIFT : Z := 12.
Definition PGROUNDUP (sz : Z) : Z := Z.land (u64 (sz + PGSIZE - 1)) (Z.lnot (PGSIZE - 1)).
Definition PGROUNDDOWN (a : Z) : Z := Z.land a (Z.lnot (PGSIZE - 1)).

Definition PTE_V : Z := Z.shiftl 1 0.
Definition PTE_R : Z := Z.shiftl 1 1.
Definition PTE_W : Z := Z.shiftl 1 2.
Definition PTE_X : Z := Z.shiftl 1 3.
Definition PTE_U : Z := Z.shiftl 1 4.

Definition PA2PTE (pa : Z) : Z := Z.shiftl (Z.shiftr pa 12) 10.
Definition PTE2PA (pte : Z) : Z := u64 (Z.shiftl (Z.shiftr pte 10) 12).
Definition PTE_FLAGS (pte : Z) : Z := Z.land pte 1023.

Definition PXMASK : Z := 511.
Definition PXSHIFT (level : Z) : Z := PGSHIFT + 9 * level.
Definition PX (level va : Z) : Z := Z.land (Z.shiftr va (PXSHIFT level)) PXMASK.

Definition MAXVA : Z := Z.shiftl 1 (9 + 9 + 9 + 12 - 1).

(** The C condition [pte & f]. *)
Definition flag (pte f : Z) : bool := negb (Z.land pte f =? 0).

Definition SATP_SV39 : Z := Z.shiftl 8 60.
Definition MAKE_SATP (pagetable : Z) : Z := Z.lor SATP_SV39 (Z.shiftr pagetable 12).

(** ** memlayout.h *)
Definition UART0 : Z := 0x10000000.
Definition UART0_IRQ : Z := 10.
Definition VIRTIO0 : Z := 0x10001000.
Definition VIRTIO0_IRQ : Z := 1.
Definition PLIC : Z := 0x0c000000.
Definition PLIC_SENABLE (hart : Z) : Z := PLIC + 0x2080 + hart * 0x100.
Definition PLIC_SPRIORITY (hart : Z) : Z := PLIC + 0x201000 + hart * 0x2000.
Definition PLIC_SCLAIM (hart : Z) : Z := PLIC + 0x201004 + hart * 0x2000.
Definition KERNBASE : Z := 0x80000000.
Definition PHYSTOP : Z := KERNBASE + 128 * 1024 * 1024.
Definition TRAMPOLINE : Z := MAXVA - PGSIZE.
Definition KSTACK (p : Z) : Z := TRAMPOLINE - (p + 1) * 2 * PGSIZE.
Definition TRAPFRAME : Z := TRAMPOLINE - PGSIZE.

(** The addresses the linker script [kernel.ld] provides, and what it
    guarantees of them: the text section starts at [KERNBASE], the trampoline
    is its last page, [etext] is the page boundary after it, and the kernel
    image ends below the physical memory limit. *)
Class Layout := {
  etext : Z;
  kend : Z; (* the symbol [end] *)
  trampoline : Z;
  etext_aligned : etext mod PGSIZE = 0;
  trampoline_etext : trampoline = etext - PGSIZE;
  trampoline_low : KERNBASE <= trampoline;
  etext_end : etext <= kend;
  end_low : kend <= PHYSTOP
}.

(** Only their values matter: none of these constants is unfolded by [simpl]. *)
Arguments PGSIZE : simpl never.
Arguments PHYSTOP : simpl never.
Arguments KERNBASE : simpl never.
Arguments MAXVA : simpl never.
Arguments PX : simpl never.
Arguments PTE2PA : simpl never.
Arguments PA2PTE : simpl never.
Arguments flag : simpl never.
Arguments PGROUNDUP : simpl never.
Arguments PGROUNDDOWN : simpl never.

(** ** Rounding to pages *)

(** ** Open modes: [kernel/fcntl.h] *)
Definition O_RDONLY : Z := 0x000.
Definition O_WRONLY : Z := 0x001.
Definition O_RDWR : Z := 0x002.
Definition O_CREATE : Z := 0x200.
Definition O_TRUNC : Z := 0x400.

Lemma PGROUNDDOWN_eq a : PGROUNDDOWN a = a - a mod PGSIZE.
Proof. apply (land_lnot_ones a 12). lia. Qed.

Lemma PGROUNDUP_eq sz :
  0 <= sz -> sz + PGSIZE - 1 < 2 ^ 64 ->
  PGROUNDUP sz = (sz + PGSIZE - 1) / PGSIZE * PGSIZE.
Proof.
  intros H1 H2. unfold PGROUNDUP. rewrite u64_small by (unfold PGSIZE in *; lia).
  change (Z.lnot (PGSIZE - 1)) with (Z.lnot (Z.ones 12)).
  rewrite land_lnot_ones by lia. change (2 ^ 12) with PGSIZE.
  pose proof (Z.div_mod (sz + PGSIZE - 1) PGSIZE ltac:(done)). lia.
Qed.

Lemma PGROUNDDOWN_aligned a : PGROUNDDOWN a mod PGSIZE = 0.
Proof.
  rewrite PGROUNDDOWN_eq, Zminus_mod_idemp_r, Z.sub_diag. done.
Qed.

Lemma PGROUNDDOWN_bounds a : PGROUNDDOWN a <= a < PGROUNDDOWN a + PGSIZE.
Proof.
  rewrite PGROUNDDOWN_eq. pose proof (Z.mod_pos_bound a PGSIZE ltac:(done)). lia.
Qed.

Lemma PGROUNDDOWN_nonneg a : 0 <= a -> 0 <= PGROUNDDOWN a.
Proof.
  rewrite PGROUNDDOWN_eq. intros. pose proof (Z.mod_le a PGSIZE). unfold PGSIZE in *. lia.
Qed.

Lemma PGROUNDUP_bounds sz :
  0 <= sz -> sz + PGSIZE - 1 < 2 ^ 64 ->
  sz <= PGROUNDUP sz < sz + PGSIZE /\ PGROUNDUP sz mod PGSIZE = 0.
Proof.
  intros H1 H2. rewrite PGROUNDUP_eq by done. split; [|apply Z_mod_mult].
  pose proof (Z.div_mod (sz + PGSIZE - 1) PGSIZE ltac:(done)).
  pose proof (Z.mod_pos_bound (sz + PGSIZE - 1) PGSIZE ltac:(done)). lia.
Qed.

Lemma PGROUNDUP_aligned sz :
  0 <= sz -> sz + PGSIZE - 1 < 2 ^ 64 -> sz mod PGSIZE = 0 -> PGROUNDUP sz = sz.
Proof.
  intros H1 H2 Hm. rewrite PGROUNDUP_eq by done.
  apply Z.mod_divide in Hm as [k ->]; [|done].
  replace (k * PGSIZE + PGSIZE - 1) with (k * PGSIZE + (PGSIZE - 1)) by lia.
  rewrite Z.div_add_l by done. rewrite (Z.div_small (PGSIZE - 1)) by (unfold PGSIZE; lia). lia.
Qed.

(** ** Page-table entries *)

Lemma PX_eq level va :
  0 <= level -> PX level va = (va / 2 ^ (12 + 9 * level)) mod 512.
Proof.
  intros. unfold PX, PXSHIFT, PGSHIFT. change PXMASK with (Z.ones 9).
  rewrite Z.land_ones, Z.shiftr_div_pow2 by lia. done.
Qed.

Lemma PX_range level va : 0 <= level -> 0 <= PX level va < 512.
Proof. intros. rewrite PX_eq by done. by apply Z.mod_pos_bound. Qed.

(** Two user pages with the same three indices are the same page. *)
Lemma PX_inj va1 va2 :
  0 <= va1 < 2 ^ 39 -> 0 <= va2 < 2 ^ 39 ->
  PX 2 va1 = PX 2 va2 -> PX 1 va1 = PX 1 va2 -> PX 0 va1 = PX 0 va2 ->
  PGROUNDDOWN va1 = PGROUNDDOWN va2.
Proof.
  intros H1 H2. rewrite !PX_eq by lia. rewrite !PGROUNDDOWN_eq.
  change (2 ^ (12 + 9 * 2)) with (4096 * 512 * 512).
  change (2 ^ (12 + 9 * 1)) with (4096 * 512).
  change (2 ^ (12 + 9 * 0)) with 4096.
  change (2 ^ 39) with (4096 * 512 * 512 * 512) in *.
  unfold PGSIZE. rewrite <- !Z.div_div by lia. intros E2 E1 E0.
  assert (forall v, 0 <= v < 4096 * 512 * 512 * 512 -> v - v mod 4096 =
    4096 * ((v / 4096) mod 512 + 512 * ((v / 4096 / 512) mod 512 + 512 *
            ((v / 4096 / 512 / 512) mod 512)))) as Hdec.
  { intros v Hv.
    pose proof (Z.div_mod v 4096). pose proof (Z.div_mod (v / 4096) 512).
    pose proof (Z.div_mod (v / 4096 / 512) 512).
    assert (v / 4096 / 512 / 512 < 512).
    { rewrite !Z.div_div by lia. apply Z.div_lt_upper_bound; lia. }
    assert (0 <= v / 4096 / 512 / 512).
    { rewrite !Z.div_div by lia. apply Z.div_pos; lia. }
    rewrite (Z.mod_small (v / 4096 / 512 / 512) 512) by lia. lia. }
  rewrite (Hdec va1), (Hdec va2) by done. rewrite E0, E1, E2. done.
Qed.

Lemma PX_page level va : 0 <= level -> PX level (PGROUNDDOWN va) = PX level va.
Proof.
  intros. rewrite !PX_eq by done. f_equal.
  rewrite Z.pow_add_r by lia. change (2 ^ 12) with PGSIZE.
  pose proof (Z.pow_pos_nonneg 2 (9 * level) ltac:(done) ltac:(lia)).
  rewrite <- !Z.div_div by (unfold PGSIZE; lia). f_equal.
  pose proof (PGROUNDDOWN_bounds va). pose proof (PGROUNDDOWN_aligned va) as Ha.
  apply Z.mod_divide in Ha as [k Hk]; [|done]. rewrite Hk in *.
  rewrite Z.div_mul by done.
  apply Z.div_unique with (va - k * PGSIZE); [left|]; lia.
Qed.

Lemma flag_lor a b f : flag (Z.lor a b) f = flag a f || flag b f.
Proof.
  unfold flag. rewrite Z.land_lor_distr_l.
  destruct (Z.eqb_spec (Z.land a f) 0) as [->|Ha]; [done|].
  destruct (Z.eqb_spec (Z.lor (Z.land a f) (Z.land b f)) 0) as [H|]; [|done].
  apply Z.lor_eq_0_iff in H as [? _]. done.
Qed.

Lemma PA2PTE_eq pa : PA2PTE pa = pa / 4096 * 1024.
Proof. unfold PA2PTE. by rewrite Z.shiftl_mul_pow2, Z.shiftr_div_pow2 by lia. Qed.

Lemma testbit_high b k n : 0 <= k <= n -> 0 <= b < 2 ^ k -> Z.testbit b n = false.
Proof. intros Hk Hb. rewrite <- (Z.mod_small b (2 ^ k)) by done. by apply Z.mod_pow2_bits_high. Qed.

(** A number whose low [k] bits are clear has no bit in common with one below [2^k]. *)
Lemma land_low a b k : 0 <= k -> 0 <= b < 2 ^ k -> Z.land (Z.shiftl a k) b = 0.
Proof.
  intros Hk Hb. apply Z.bits_inj_0. intros n. rewrite Z.land_spec.
  destruct (Z.ltb_spec n k); [by rewrite Z.shiftl_spec_low|].
  rewrite (testbit_high b k n) by lia. apply andb_false_r.
Qed.

Lemma flag_PA2PTE pa f : 0 <= f < 1024 -> flag (PA2PTE pa) f = false.
Proof. intros Hf. unfold flag, PA2PTE. by rewrite land_low. Qed.

Lemma lor_low a b k : 0 <= k -> 0 <= b < 2 ^ k -> Z.lor (a * 2 ^ k) b = a * 2 ^ k + b.
Proof.
  intros Hk Hb. rewrite <- Z.shiftl_mul_pow2 by done.
  rewrite Z.add_nocarry_lxor, Z.lxor_lor by (by apply land_low). done.
Qed.

(** The word the kernel stores in a PTE: physical address and flag bits. *)
Lemma pte_word pa f : 0 <= f < 1024 -> Z.lor (PA2PTE pa) f = pa / 4096 * 1024 + f.
Proof. intros. rewrite PA2PTE_eq. by apply (lor_low _ _ 10). Qed.

Lemma pte_word_bound pa f :
  0 <= pa < 2 ^ 56 -> 0 <= f < 1024 -> 0 <= Z.lor (PA2PTE pa) f < 2 ^ 64.
Proof.
  intros. rewrite pte_word by done.
  assert (0 <= pa / 4096) by (apply Z.div_pos; lia).
  assert (pa / 4096 < 2 ^ 44) by (apply Z.div_lt_upper_bound; lia). lia.
Qed.

Lemma PTE2PA_word pa f :
  pa mod PGSIZE = 0 -> 0 <= pa < 2 ^ 56 -> 0 <= f < 1024 ->
  PTE2PA (Z.lor (PA2PTE pa) f) = pa.
Proof.
  intros Ha Hpa Hf. unfold PTE2PA. rewrite pte_word by done.
  rewrite Z.shiftl_mul_pow2, Z.shiftr_div_pow2 by lia. change (2 ^ 10) with 1024.
  rewrite Z.div_add_l, (Z.div_small f) by lia.
  apply Z.mod_divide in Ha as [k ->]; [|done]. unfold PGSIZE in *.
  rewrite Z.div_mul by lia. change (2 ^ 12) with 4096. rewrite Z.add_0_r.
  apply u64_small. lia.
Qed.

Lemma PTE_FLAGS_word pa f :
  0 <= f < 1024 -> PTE_FLAGS (Z.lor (PA2PTE pa) f) = f.
Proof.
  intros Hf. unfold PTE_FLAGS. change 1023 with (Z.ones 10).
  rewrite Z.land_ones, pte_word by lia. change (2 ^ 10) with 1024.
  rewrite Z.add_comm, Z_mod_plus_full. by apply Z.mod_small.
Qed.

(** Every address a PTE can hold is page aligned. *)
Lemma PTE2PA_aligned pte : PTE2PA pte mod PGSIZE = 0.
Proof.
  unfold PTE2PA, u64. rewrite Z.shiftl_mul_pow2 by lia.
  change (2 ^ 64) with (2 ^ 12 * 2 ^ 52). rewrite Z.mul_comm.
  rewrite Z.mul_mod_distr_l by done. rewrite Z.mul_comm. apply Z_mod_mult.
Qed.

Lemma lor_bound a b k :
  0 <= k -> 0 <= a < 2 ^ k -> 0 <= b < 2 ^ k -> 0 <= Z.lor a b < 2 ^ k.
Proof.
  intros Hk Ha Hb.
  rewrite <- (Z.mod_small a (2 ^ k)), <- (Z.mod_small b (2 ^ k)) by done.
  rewrite <- !Z.land_ones, <- Z.land_lor_distr_l, Z.land_ones by done.
  apply Z.mod_pos_bound. lia.
Qed.

Lemma MAXVA_eq : MAXVA = 2 ^ 38.
Proof. done. Qed.

(** The values of the flag bits. *)
Lemma pte_bits : PTE_V = 1 /\ PTE_R = 2 /\ PTE_W = 4 /\ PTE_X = 8 /\ PTE_U = 16.
Proof. done. Qed.

(** The other files use these macros through the lemmas above. *)
#[global] Opaque PTE2PA PA2PTE PTE_FLAGS PX PGROUNDUP PGROUNDDOWN flag.
