(* ===== verification/Mem.v ===== *)
(** * Physical memory and [kernel/string.c]

    Memory is a finite map from addresses to bytes; an address that was never
    written reads as zero.  The memory functions of string.c work on addresses;
    its string functions work on the C arrays they are given, as lists of
    bytes. *)

From stdpp Require Import base list gmap strings.
From S2P Require Import Prelude Riscv.

Abbreviation memory := (gmap Z Z).

Definition ld8 (m : memory) (a : Z) : Z := default 0 (m !! a).
Definition st8 (m : memory) (a v : Z) : memory := <[a := v mod 256]> m.

Fixpoint ldn (m : memory) (a : Z) (n : nat) : list Z :=
  match n with
  | O => []
  | S n' => ld8 m a :: ldn m (a + 1) n'
  end.

Fixpoint stn (m : memory) (a : Z) (bs : list Z) : memory :=
  match bs with
  | [] => m
  | b :: r => stn (st8 m a b) (a + 1) r
  end.

Definition ld64 (m : memory) (a : Z) : Z := le_value (ldn m a 8).
Definition st64 (m : memory) (a v : Z) : memory := stn m a (le_bytes 8 v).

(** ** string.c on memory *)

(** [memset]: the loop [for(i = 0; i < n; i++) cdst[i] = c]. *)
Fixpoint memset_loop (m : memory) (dst c : Z) (n : nat) : memory :=
  match n with
  | O => m
  | S n' => memset_loop (st8 m dst c) (dst + 1) c n'
  end.
Definition memset (m : memory) (dst c n : Z) : memory := memset_loop m dst c (Z.to_nat n).

(** [memmove]: [while(n-- > 0) *d++ = *s++] or, when the destination starts
    inside the source, [while(n-- > 0) *--d = *--s] from the end. *)
Fixpoint move_up (m : memory) (d s : Z) (n : nat) : memory :=
  match n with
  | O => m
  | S n' => move_up (st8 m d (ld8 m s)) (d + 1) (s + 1) n'
  end.
Fixpoint move_down (m : memory) (d s : Z) (n : nat) : memory :=
  match n with
  | O => m
  | S n' => move_down (st8 m (d - 1) (ld8 m (s - 1))) (d - 1) (s - 1) n'
  end.
Definition memmove (m : memory) (dst src n : Z) : memory :=
  if n =? 0 then m
  else if (src <? dst) && (src + n >? dst)
  then move_down m (dst + n) (src + n) (Z.to_nat n)
  else move_up m dst src (Z.to_nat n).
Definition memcpy (m : memory) (dst src n : Z) : memory := memmove m dst src n.

(** [memcmp] on two byte arrays. *)
Fixpoint memcmp (s1 s2 : list Z) (n : nat) : Z :=
  match n with
  | O => 0
  | S n' => if negb (hd 0 s1 =? hd 0 s2) then hd 0 s1 - hd 0 s2
            else memcmp (tail s1) (tail s2) n'
  end.

(** ** string.c on character arrays *)

Fixpoint strncmp (p q : list Z) (n : nat) : Z :=
  match n with
  | O => 0
  | S n' =>
      if negb (hd 0 p =? 0) && (hd 0 p =? hd 0 q) then strncmp (tail p) (tail q) n'
      else u8 (hd 0 p) - u8 (hd 0 q)
  end.

(** The [n] bytes [strncpy(s, t, n)] stores at [s]. *)
Fixpoint strncpy_bytes (t : list Z) (n : nat) : list Z :=
  match n with
  | O => []
  | S n' => if hd 0 t =? 0 then replicate n 0
            else hd 0 t :: strncpy_bytes (tail t) n'
  end.
Definition strncpy (s t : list Z) (n : Z) : list Z := splice 0 (strncpy_bytes t (Z.to_nat n)) s.

(** The bytes [safestrcpy(s, t, n)] stores at [s]; [k] is [n - 1], the number of
    iterations its loop can do before it stores the final NUL. *)
Fixpoint safestrcpy_bytes (t : list Z) (k : nat) : list Z :=
  match k with
  | O => [0]
  | S k' => if hd 0 t =? 0 then [0; 0]
            else hd 0 t :: safestrcpy_bytes (tail t) k'
  end.
Definition safestrcpy (s t : list Z) (n : Z) : list Z :=
  if n <=? 0 then s else splice 0 (safestrcpy_bytes t (Z.to_nat (n - 1))) s.

(** [strlen] counts up to the NUL, or to the end of the array when it has none. *)
Fixpoint strlen (s : list Z) : Z :=
  match s with
  | [] => 0
  | c :: r => if c =? 0 then 0 else 1 + strlen r
  end.

(** The string a character array holds: the bytes before the first NUL. *)
Fixpoint cstr (s : list Z) : list Z :=
  match s with
  | [] => []
  | c :: r => if c =? 0 then [] else c :: cstr r
  end.

Arguments ld8 : simpl never.
Arguments st8 : simpl never.
Arguments ld64 : simpl never.
Arguments st64 : simpl never.
Arguments memset : simpl never.
Arguments memmove : simpl never.

(** ** Loads and stores *)

Lemma ld8_st8 m a v a' : ld8 (st8 m a v) a' = if decide (a = a') then v mod 256 else ld8 m a'.
Proof. unfold ld8, st8. rewrite lookup_insert. by case_decide. Qed.

Lemma ldn_length m a n : length (ldn m a n) = n.
Proof. revert a. induction n; intros; simpl; auto. Qed.

Lemma lookup_ldn m a n (i : nat) :
  (i < n)%nat -> ldn m a n !! i = Some (ld8 m (a + Z.of_nat i)).
Proof.
  revert a i. induction n as [|n IH]; intros a i Hi; [lia|].
  destruct i as [|i]; simpl.
  - by rewrite Z.add_0_r.
  - rewrite IH by lia. do 2 f_equal. lia.
Qed.

Lemma ldn_ext m m' a n :
  (forall i, 0 <= i < Z.of_nat n -> ld8 m (a + i) = ld8 m' (a + i)) -> ldn m a n = ldn m' a n.
Proof.
  revert a. induction n as [|n IH]; intros a H; simpl; [done|]. f_equal.
  - specialize (H 0). rewrite Z.add_0_r in H. apply H. lia.
  - apply IH. intros i Hi. replace (a + 1 + i) with (a + (1 + i)) by lia. apply H. lia.
Qed.

Lemma ldn_app m a n k : ldn m a (n + k) = ldn m a n ++ ldn m (a + Z.of_nat n) k.
Proof.
  revert a. induction n as [|n IH]; intros a; simpl.
  - by rewrite Z.add_0_r.
  - rewrite IH. do 3 f_equal. lia.
Qed.

Lemma ld8_stn m a bs a' :
  Forall is_byte bs ->
  ld8 (stn m a bs) a' =
    if decide (a <= a' < a + Z.of_nat (length bs)) then bs !!! Z.to_nat (a' - a) else ld8 m a'.
Proof.
  intros Hb. revert m a. induction Hb as [|b r Hb _ IH]; intros m a; cbn [stn length].
  - case_decide; [lia|done].
  - rewrite IH, ld8_st8. unfold is_byte in Hb.
    rewrite (Z.mod_small b 256) by lia.
    repeat case_decide; try lia; try done.
    + replace (Z.to_nat (a' - a)) with (S (Z.to_nat (a' - (a + 1)))) by lia. done.
    + subst. by rewrite Z.sub_diag.
Qed.

Lemma ldn_stn_same m a bs :
  Forall is_byte bs -> ldn (stn m a bs) a (length bs) = bs.
Proof.
  intros Hb. apply list_eq. intros i.
  destruct (decide (i < length bs)%nat) as [Hi|Hi].
  - rewrite lookup_ldn by done. rewrite ld8_stn by done. case_decide; [|lia].
    rewrite list_lookup_lookup_total_lt by done. do 2 f_equal. lia.
  - rewrite !lookup_ge_None_2; [done|lia|]. rewrite ldn_length. lia.
Qed.

Lemma ldn_stn_other m a bs a' n :
  Forall is_byte bs ->
  (a' + Z.of_nat n <= a \/ a + Z.of_nat (length bs) <= a') ->
  ldn (stn m a bs) a' n = ldn m a' n.
Proof.
  intros Hb Hd. apply ldn_ext. intros i Hi. rewrite ld8_stn by done.
  case_decide; [lia|done].
Qed.

Lemma ld64_st64_mod m a v : ld64 (st64 m a v) a = u64 v.
Proof.
  unfold ld64, st64.
  pose proof (ldn_stn_same m a (le_bytes 8 v) (le_bytes_are_bytes _ _)) as H.
  rewrite le_bytes_length in H. by rewrite H, le_value_bytes.
Qed.
Lemma ld64_st64 m a v : 0 <= v < 2 ^ 64 -> ld64 (st64 m a v) a = v.
Proof. intros Hv. rewrite ld64_st64_mod. by apply u64_small. Qed.

Lemma ld64_st64_other m a v a' :
  (a' + 8 <= a \/ a + 8 <= a') -> ld64 (st64 m a v) a' = ld64 m a'.
Proof.
  intros H. unfold ld64, st64. f_equal. apply ldn_stn_other; [auto with xv6|].
  rewrite le_bytes_length. lia.
Qed.

Lemma ld8_st64_other m a v a' :
  (a' < a \/ a + 8 <= a') -> ld8 (st64 m a v) a' = ld8 m a'.
Proof.
  intros H. unfold st64. rewrite ld8_stn by auto with xv6. rewrite le_bytes_length.
  case_decide; [lia|done].
Qed.

Lemma ld64_ext m m' a :
  (forall i, 0 <= i < 8 -> ld8 m (a + i) = ld8 m' (a + i)) -> ld64 m a = ld64 m' a.
Proof. intros H. unfold ld64. f_equal. by apply ldn_ext. Qed.

(** ** memset and memmove *)

Lemma ld8_memset m dst c n a :
  ld8 (memset m dst c n) a = if decide (dst <= a < dst + n) then c mod 256 else ld8 m a.
Proof.
  unfold memset. destruct (decide (0 <= n)) as [Hn|Hn].
  2:{ replace (Z.to_nat n) with 0%nat by lia. cbn. case_decide; [lia|done]. }
  remember (Z.to_nat n) as k eqn:Hk. revert m dst n Hn Hk.
  induction k as [|k IH]; intros m dst n Hn Hk; cbn [memset_loop].
  - case_decide; [lia|done].
  - rewrite (IH _ _ (n - 1)) by lia. rewrite ld8_st8. repeat case_decide; try lia; done.
Qed.

Lemma ld8_move_up m d s n a :
  (d <= s \/ s + Z.of_nat n <= d) ->
  (forall i, 0 <= i < Z.of_nat n -> is_byte (ld8 m (s + i))) ->
  ld8 (move_up m d s n) a =
    if decide (d <= a < d + Z.of_nat n) then ld8 m (s + (a - d)) else ld8 m a.
Proof.
  unfold is_byte. revert m d s. induction n as [|n IH]; intros m d s Hov Hb; cbn [move_up].
  - case_decide; [lia|done].
  - pose proof (Hb 0 ltac:(lia)) as Hb0. rewrite Z.add_0_r in Hb0.
    rewrite IH; [|lia|].
    + rewrite !ld8_st8, (Z.mod_small (ld8 m s)) by lia.
      repeat case_decide; try lia; try done.
      all: f_equal; lia.
    + intros i Hi. rewrite ld8_st8. case_decide.
      * apply Z.mod_pos_bound. lia.
      * replace (s + 1 + i) with (s + (1 + i)) by lia. apply Hb. lia.
Qed.

Lemma ld8_move_down m d s n a :
  s <= d ->
  (forall i, 0 <= i < Z.of_nat n -> is_byte (ld8 m (s - 1 - i))) ->
  ld8 (move_down m d s n) a =
    if decide (d - Z.of_nat n <= a < d) then ld8 m (s + (a - d)) else ld8 m a.
Proof.
  unfold is_byte. revert m d s. induction n as [|n IH]; intros m d s Hov Hb; cbn [move_down].
  - case_decide; [lia|done].
  - pose proof (Hb 0 ltac:(lia)) as Hb0. rewrite Z.sub_0_r in Hb0.
    rewrite IH; [|lia|].
    + rewrite !ld8_st8, (Z.mod_small (ld8 m (s - 1))) by lia.
      repeat case_decide; try lia; try done.
      all: f_equal; lia.
    + intros i Hi. rewrite ld8_st8. case_decide.
      * apply Z.mod_pos_bound. lia.
      * replace (s - 1 - 1 - i) with (s - 1 - (1 + i)) by lia. apply Hb. lia.
Qed.

(** What [memmove] leaves in memory, overlapping or not. *)
Lemma ld8_memmove m dst src n a :
  0 <= n -> (forall i, 0 <= i < n -> is_byte (ld8 m (src + i))) ->
  ld8 (memmove m dst src n) a =
    if decide (dst <= a < dst + n) then ld8 m (src + (a - dst)) else ld8 m a.
Proof.
  intros Hn Hb. unfold memmove.
  destruct (Z.eqb_spec n 0) as [->|Hn0]; [case_decide; [lia|done]|].
  destruct (Z.ltb_spec src dst) as [Hlt|Hge]; cbn [andb];
    [rewrite Z.gtb_ltb; destruct (Z.ltb_spec dst (src + n)) as [Hin|Hout]|].
  - rewrite ld8_move_down; [|lia|].
    + replace (dst + n - Z.of_nat (Z.to_nat n)) with dst by lia.
      case_decide; [f_equal; lia|done].
    + intros i Hi. replace (src + n - 1 - i) with (src + (n - 1 - i)) by lia. apply Hb. lia.
  - rewrite ld8_move_up; [by rewrite Z2Nat.id|lia|]. intros i Hi. apply Hb. lia.
  - rewrite ld8_move_up; [by rewrite Z2Nat.id|lia|]. intros i Hi. apply Hb. lia.
Qed.

(** Every byte of memory is a byte. *)
Definition mem_ok (m : memory) : Prop := forall a, is_byte (ld8 m a).

Lemma mem_ok_st8 m a v : mem_ok m -> mem_ok (st8 m a v).
Proof.
  intros H a'. rewrite ld8_st8. case_decide; [|apply H].
  apply Z.mod_pos_bound. lia.
Qed.

Lemma mem_ok_stn m a bs : mem_ok m -> mem_ok (stn m a bs).
Proof. revert m a. induction bs; intros; simpl; auto using mem_ok_st8. Qed.

Lemma mem_ok_st64 m a v : mem_ok m -> mem_ok (st64 m a v).
Proof. apply mem_ok_stn. Qed.

Lemma mem_ok_memset m dst c n : mem_ok m -> mem_ok (memset m dst c n).
Proof.
  intros H a. rewrite ld8_memset. case_decide; [|apply H]. apply Z.mod_pos_bound. lia.
Qed.

Lemma mem_ok_memmove m dst src n : 0 <= n -> mem_ok m -> mem_ok (memmove m dst src n).
Proof. intros Hn H a. rewrite ld8_memmove by (auto || (intros; apply H)). case_decide; apply H. Qed.

Lemma mem_ok_empty : mem_ok ∅.
Proof. intros a. unfold ld8. rewrite lookup_empty. unfold is_byte. cbn. lia. Qed.

Lemma mem_ok_ldn m a n : mem_ok m -> Forall is_byte (ldn m a n).
Proof. intros H. revert a. induction n; intros; simpl; constructor; auto. Qed.

Lemma ld64_bound m a : mem_ok m -> 0 <= ld64 m a < 2 ^ 64.
Proof.
  intros H. pose proof (le_value_bound (ldn m a 8) (mem_ok_ldn m a 8 H)) as Hb.
  rewrite ldn_length in Hb. exact Hb.
Qed.

#[export] Hint Resolve mem_ok_st8 mem_ok_stn mem_ok_st64 mem_ok_memset mem_ok_empty mem_ok_ldn : xv6.

Lemma ld64_memset_in m dst n a :
  dst <= a -> a + 8 <= dst + n -> ld64 (memset m dst 0 n) a = 0.
Proof.
  intros H1 H2. unfold ld64.
  assert (ldn (memset m dst 0 n) a 8 = replicate 8 0) as ->; [|done].
  apply list_eq. intros i. destruct (decide (i < 8)%nat) as [Hi|Hi].
  - rewrite lookup_ldn, lookup_replicate_2 by done. rewrite ld8_memset.
    case_decide; [done|lia].
  - rewrite !lookup_ge_None_2; [done| |rewrite ldn_length; lia].
    rewrite length_replicate. lia.
Qed.

(** Reason with the lemmas above, not by running the loops. *)
#[global] Opaque ld64 st64 memset memmove.

(** ** Strings *)

Section strings.
Implicit Types (s t p q : list Z).

Lemma strlen_cstr s : strlen s = Z.of_nat (length (cstr s)).
Proof. induction s as [|c r IH]; [done|]. cbn [strlen cstr]. case_Z; [done|]. cbn [length]. lia. Qed.

Lemma strncpy_bytes_length t n : length (strncpy_bytes t n) = n.
Proof.
  revert t. induction n as [|n IH]; intros t; [done|]. cbn [strncpy_bytes].
  case_Z; [by rewrite length_replicate|]. cbn [length]. by rewrite IH.
Qed.

Lemma cstr_replicate_0 n : cstr (replicate n 0) = [].
Proof. by destruct n. Qed.

Lemma cstr_strncpy_bytes t n : cstr (strncpy_bytes t n) = take n (cstr t).
Proof.
  revert t. induction n as [|n IH]; intros t; [by rewrite take_0|].
  cbn [strncpy_bytes]. case_Z.
  - rewrite cstr_replicate_0. destruct t as [|c r]; [done|]. cbn in *. subst. done.
  - destruct t as [|c r]; [done|]. cbn [hd tail cstr] in *.
    destruct (Z.eqb_spec c 0); [done|]. cbn [take]. by rewrite IH.
Qed.

Lemma strncmp_zero p q n :
  Forall is_byte p -> Forall is_byte q ->
  strncmp p q n = 0 <-> take n (cstr p) = take n (cstr q).
Proof.
  intros Hp Hq. revert p q Hp Hq. induction n as [|n IH]; intros p q Hp Hq; [by rewrite !take_0|].
  assert (is_byte 0) as H0 by (unfold is_byte; lia).
  assert (is_byte (hd 0 p)) as Hcp by (destruct Hp; done).
  assert (is_byte (hd 0 q)) as Hcq by (destruct Hq; done).
  assert (Forall is_byte (tail p)) as Htp by (destruct Hp; done).
  assert (Forall is_byte (tail q)) as Htq by (destruct Hq; done).
  assert (forall x, take (S n) (cstr x) =
            if hd 0 x =? 0 then [] else hd 0 x :: take n (cstr (tail x))) as Hc.
  { intros [|c r]; [done|]. cbn. by case_Z. }
  rewrite !Hc. unfold is_byte in *. cbn [strncmp]. unfold u8.
  rewrite !Z.mod_small by lia.
  destruct (Z.eqb_spec (hd 0 p) 0) as [Hz|Hnz]; cbn [negb andb].
  - destruct (Z.eqb_spec (hd 0 q) 0); split; intros; try done; lia.
  - destruct (Z.eqb_spec (hd 0 p) (hd 0 q)) as [He|Hne].
    + rewrite IH by done. rewrite <- He. case_Z.
      split; [by intros ->|by intros [= ->]].
    + split; [lia|]. case_Z; intros; simplify_eq.
Qed.

(** [safestrcpy] stores at most [n] bytes, and they hold the string it was
    given, cut to [n - 1] characters and terminated. *)
Lemma safestrcpy_bytes_spec t k :
  (length (safestrcpy_bytes t k) <= S k)%nat /\
  cstr (safestrcpy_bytes t k) = take k (cstr t) /\
  0 ∈ safestrcpy_bytes t k.
Proof.
  revert t. induction k as [|k IH]; intros t; cbn [safestrcpy_bytes].
  { rewrite take_0. repeat split; [cbn; lia|]. by constructor. }
  destruct t as [|c r]; cbn [hd tail cstr].
  { cbn. repeat split; [lia|]. by constructor. }
  case_Z; cbn.
  { repeat split; [lia|]. by constructor. }
  destruct (IH r) as (H1 & H2 & H3). case_Z. repeat split; [lia| |by constructor].
  by rewrite H2.
Qed.
End strings.
