(* ===== verification/Spinlock.v ===== *)
(** * Spin locks: [kernel/spinlock.c]

    The operations on one lock and on the interrupt state of one hart, then the
    machine in which several harts run [acquire] and [release] on a shared lock,
    one access to the lock at a time. *)

From stdpp Require Import base list gmap strings.
From S2P Require Import Prelude Riscv.

(** [struct spinlock]; [lcpu] is the hart whose [struct cpu] the field points to. *)
Record spinlock := mkSpinlock { locked : Z; lcpu : option nat }.

(** [noff] and [intena] of [struct cpu], and the bit SIE of the hart's [sstatus]. *)
Record cpu := mkCpu { noff : Z; intena : bool; sie : bool }.

#[export] Instance spinlock_eq_dec : EqDecision spinlock.
Proof. solve_decision. Defined.
#[export] Instance cpu_eq_dec : EqDecision cpu.
Proof. solve_decision. Defined.

Definition initlock : spinlock := {| locked := 0; lcpu := None |}.

(** [lk->locked && lk->cpu == mycpu()] *)
Definition holding (h : nat) (lk : spinlock) : bool :=
  negb (locked lk =? 0) && bool_decide (lcpu lk = Some h).

(** ** Interrupt nesting *)

Definition intr_get (c : cpu) : bool := sie c.
Definition intr_off (c : cpu) : cpu := {| noff := noff c; intena := intena c; sie := false |}.
Definition intr_on (c : cpu) : cpu := {| noff := noff c; intena := intena c; sie := true |}.

Definition push_off : M cpu unit := fun c =>
  let old := intr_get c in
  let c := intr_off c in
  let c := if noff c =? 0 then {| noff := noff c; intena := old; sie := sie c |} else c in
  Ok tt {| noff := noff c + 1; intena := intena c; sie := sie c |}.

Definition pop_off : M cpu unit := fun c =>
  if intr_get c then Panic "pop_off - interruptible"
  else if noff c <? 1 then Panic "pop_off"
  else let c := {| noff := noff c - 1; intena := intena c; sie := sie c |} in
       Ok tt (if (noff c =? 0) && intena c then intr_on c else c).

(** ** The lock word

    What [acquire] and [release] do to the lock itself.  In a state that no
    other hart is changing, the atomic swap of [acquire] finds the lock free, or
    spins for as long as another hart holds it. *)
Definition acquire_word (h : nat) : M spinlock unit := fun lk =>
  if holding h lk then Panic "acquire"
  else if locked lk =? 0 then Ok tt {| locked := 1; lcpu := Some h |}
  else Diverge.

Definition release_word (h : nat) : M spinlock unit := fun lk =>
  if negb (holding h lk) then Panic "release"
  else Ok tt {| locked := 0; lcpu := None |}.

(** The whole of [acquire] and [release] for hart [h]. *)
Definition acquire (h : nat) : M (cpu * spinlock) unit :=
  zoom fst (fun c s => (c, snd s)) push_off ;;;
  zoom snd (fun lk s => (fst s, lk)) (acquire_word h).

Definition release (h : nat) : M (cpu * spinlock) unit :=
  zoom snd (fun lk s => (fst s, lk)) (release_word h) ;;;
  zoom fst (fun c s => (c, snd s)) pop_off.

(** The other components run on one hart at a time and keep a [spinlock] in
    their state, as the C structures do. *)
Definition this_cpu : nat := 0.
Definition lk_acquire : M spinlock unit := acquire_word this_cpu.
Definition lk_release : M spinlock unit := release_word this_cpu.
Definition held_lock : spinlock := {| locked := 1; lcpu := Some this_cpu |}.

Lemma lk_acquire_free : lk_acquire initlock = Ok tt held_lock.
Proof. done. Qed.
Lemma lk_release_held : lk_release held_lock = Ok tt initlock.
Proof. done. Qed.

(** ** Balanced [push_off] and [pop_off] *)

Fixpoint push_n (n : nat) : M cpu unit :=
  match n with O => mret' tt | S n' => push_off ;;; push_n n' end.
Fixpoint pop_n (n : nat) : M cpu unit :=
  match n with O => mret' tt | S n' => pop_off ;;; pop_n n' end.

(** What [n > 0] nested [push_off]s leave behind. *)
Definition pushed (n : nat) (c : cpu) : cpu :=
  match n with
  | O => c
  | _ => {| noff := noff c + Z.of_nat n;
            intena := if noff c =? 0 then sie c else intena c; sie := false |}
  end.

Lemma push_off_pushed n c :
  0 <= noff c -> push_off (pushed n c) = Ok tt (pushed (S n) c).
Proof.
  intros Hc. destruct n as [|n]; unfold push_off, pushed; cbn.
  - by destruct (noff c =? 0).
  - destruct (Z.eqb_spec (noff c + Z.of_nat (S n)) 0); [lia|]. cbn. do 2 f_equal. lia.
Qed.

Lemma push_n_pushed n k c :
  0 <= noff c -> push_n n (pushed k c) = Ok tt (pushed (n + k) c).
Proof.
  intros Hc. revert k. induction n as [|n IH]; intros k; [done|].
  cbn [push_n]. erewrite bind_Ok by (by apply push_off_pushed).
  rewrite IH. do 2 f_equal. lia.
Qed.

(** The state after the last [pop_off]: the one before the first [push_off],
    except that [intena] remembers the interrupt state when nothing was nested. *)
Definition popped (c : cpu) : cpu :=
  {| noff := noff c; intena := if noff c =? 0 then sie c else intena c; sie := sie c |}.

Lemma pop_off_pushed n c :
  0 <= noff c -> (noff c <> 0 -> sie c = false) ->
  pop_off (pushed (S n) c) = Ok tt (match n with O => popped c | _ => pushed n c end).
Proof.
  intros Hc Hs. destruct c as [no ie si]. unfold pop_off, pushed, popped; cbn [intr_get noff intena sie] in *.
  destruct (Z.ltb_spec (no + Z.of_nat (S n)) 1); [lia|].
  destruct n as [|n].
  - replace (no + Z.of_nat 1 - 1) with no by lia.
    destruct (Z.eqb_spec no 0) as [->|Hno]; cbn; [by destruct si|by rewrite Hs].
  - replace (no + Z.of_nat (S (S n)) - 1) with (no + Z.of_nat (S n)) by lia.
    destruct (Z.eqb_spec (no + Z.of_nat (S n)) 0); [lia|]. done.
Qed.

Lemma pop_n_pushed n c :
  0 <= noff c -> (noff c <> 0 -> sie c = false) ->
  pop_n (S n) (pushed (S n) c) = Ok tt (popped c).
Proof.
  intros Hc Hs. induction n as [|n IH].
  - cbn [pop_n]. by erewrite bind_Ok by (by apply pop_off_pushed).
  - change (pop_n (S (S n))) with (pop_off ;;; pop_n (S n)).
    erewrite bind_Ok by (by apply pop_off_pushed). exact IH.
Qed.

(** ** Several harts and one lock

    The program counter of a hart with respect to the lock.  Every load, store and
    atomic swap of the lock is a step of its own: [acquire] is [push_off], the two loads of
    [holding], a sequence of atomic swaps and the store of [lk->cpu]; [release] is the two
    loads of [holding], the store [lk->cpu = 0], the atomic store of [locked = 0] and
    [pop_off].  [push_off] and [pop_off] access only the hart's own [struct cpu].  Memory is
    sequentially consistent, which is what the fences of the code are for. *)
Inductive pc :=
| PIdle     (* does not hold the lock *)
| PTest     (* in [acquire], [holding] about to load [lk->locked] *)
| PWho      (* [lk->locked] was not 0, about to load [lk->cpu] *)
| PSpin     (* in the loop of test-and-set *)
| PGot      (* the swap returned 0, [lk->cpu] not yet stored *)
| PCrit     (* after [acquire] *)
| PHeld     (* in [release], [lk->locked] was not 0, about to load [lk->cpu] *)
| PMine     (* [lk->cpu] was this hart, about to clear it *)
| PRel      (* [lk->cpu] cleared, [locked] still 1 *)
| PUnl      (* [locked] cleared, [pop_off] not yet done *)
| PPanic.   (* called [panic] *)

#[export] Instance pc_eq_dec : EqDecision pc.
Proof. solve_decision. Defined.

Record machine := mkMachine { lock : spinlock; pcs : nat -> pc; cpus : nat -> cpu }.

Definition set_pc (h : nat) (p : pc) (f : nat -> pc) : nat -> pc :=
  fun h' => if decide (h' = h) then p else f h'.
Definition set_cpu (h : nat) (c : cpu) (f : nat -> cpu) : nat -> cpu :=
  fun h' => if decide (h' = h) then c else f h'.

(** [__sync_lock_test_and_set(&lk->locked, 1)]: the old value and the new lock. *)
Definition test_and_set (lk : spinlock) : Z * spinlock :=
  (locked lk, {| locked := 1; lcpu := lcpu lk |}).

Definition run (m : M cpu unit) (ok : pc) (c : cpu) : pc * cpu :=
  match m c with Ok _ c' => (ok, c') | _ => (PPanic, c) end.

(** One step of hart [h]: its next program counter, the lock and its [struct cpu]. *)
Definition hart_next (h : nat) (p : pc) (lk : spinlock) (c : cpu) : pc * spinlock * cpu :=
  match p with
  | PIdle => let (p', c') := run push_off PTest c in (p', lk, c')
  | PTest => (if locked lk =? 0 then PSpin else PWho, lk, c)
  | PWho => (if bool_decide (lcpu lk = Some h) then PPanic else PSpin, lk, c)
  | PSpin =>
      let (old, lk') := test_and_set lk in
      (if old =? 0 then PGot else PSpin, lk', c)
  | PGot => (PCrit, {| locked := locked lk; lcpu := Some h |}, c)
  | PCrit => (if locked lk =? 0 then PPanic else PHeld, lk, c)
  | PHeld => (if bool_decide (lcpu lk = Some h) then PMine else PPanic, lk, c)
  | PMine => (PRel, {| locked := locked lk; lcpu := None |}, c)
  | PRel => (PUnl, {| locked := 0; lcpu := lcpu lk |}, c)
  | PUnl => let (p', c') := run pop_off PIdle c in (p', lk, c')
  | PPanic => (PPanic, lk, c)
  end.

Definition hart_step (h : nat) (s : machine) : machine :=
  let '(p, lk, c) := hart_next h (pcs s h) (lock s) (cpus s h) in
  {| lock := lk; pcs := set_pc h p (pcs s); cpus := set_cpu h c (cpus s) |}.

Inductive mstep : machine -> machine -> Prop :=
| mstep_hart h s : mstep s (hart_step h s).

Definition machine_init (c : nat -> cpu) : machine :=
  {| lock := initlock; pcs := fun _ => PIdle; cpus := c |}.

(** The hart is between its successful swap and its store of [locked = 0]. *)
Definition owns (p : pc) : bool :=
  match p with PGot | PCrit | PHeld | PMine | PRel => true | _ => false end.
(** The hart has stored itself in [lk->cpu] and not yet cleared it. *)
Definition recorded (p : pc) : bool :=
  match p with PCrit | PHeld | PMine => true | _ => false end.
(** The hart has interrupts disabled by [acquire]'s [push_off]. *)
Definition inside (p : pc) : bool :=
  match p with PIdle | PPanic => false | _ => true end.

Definition cpu_ok (p : pc) (c : cpu) : Prop :=
  0 <= noff c /\ (inside p = true -> 1 <= noff c /\ sie c = false).

Record minv (s : machine) : Prop := {
  inv_word : locked (lock s) = 0 \/ locked (lock s) = 1;
  inv_free : locked (lock s) = 0 -> forall h, owns (pcs s h) = false;
  inv_held : locked (lock s) = 1 -> exists h, owns (pcs s h) = true;
  inv_one : forall h1 h2, owns (pcs s h1) = true -> owns (pcs s h2) = true -> h1 = h2;
  inv_cpu : forall h, lcpu (lock s) = Some h <-> recorded (pcs s h) = true;
  inv_off : forall h, cpu_ok (pcs s h) (cpus s h);
  inv_calm : forall h, pcs s h <> PPanic
}.

Lemma minv_init c : (forall h, 0 <= noff (c h)) -> minv (machine_init c).
Proof. intros Hc. split; cbn; try done; auto. Qed.

Lemma recorded_owns p : recorded p = true -> owns p = true.
Proof. by destruct p. Qed.

Lemma holding_inv s h : minv s -> holding h (lock s) = recorded (pcs s h).
Proof.
  intros I. unfold holding. destruct (inv_cpu s I h) as [I1 I2]. destruct (recorded (pcs s h)) eqn:E.
  - rewrite bool_decide_true by auto. destruct (inv_word s I) as [Hw|Hw]; rewrite Hw; [|done].
    pose proof (inv_free s I Hw h) as Hf. by rewrite (recorded_owns _ E) in Hf.
  - rewrite bool_decide_false; [apply andb_false_r|]. intros Hc. specialize (I1 Hc). congruence.
Qed.

Ltac hart_cases :=
  unfold set_pc, set_cpu;
  repeat match goal with |- context [decide ?P] => destruct (decide P) end;
  subst; cbn; try done.

(** A step of hart [h] preserves the invariant if it takes the lock only when
    nobody has it, gives it back only when it has it, and keeps [lk->cpu] equal
    to itself exactly while it is recorded there. *)
Lemma minv_move s h p lk c :
  minv s ->
  (if owns p then locked lk = 1 /\ (owns (pcs s h) = true \/ locked (lock s) = 0)
   else locked lk = if owns (pcs s h) then 0 else locked (lock s)) ->
  lcpu lk = (if recorded p then Some h else if recorded (pcs s h) then None else lcpu (lock s)) ->
  cpu_ok p c -> p <> PPanic ->
  minv {| lock := lk; pcs := set_pc h p (pcs s); cpus := set_cpu h c (cpus s) |}.
Proof.
  intros [I1 I2 I3 I4 I5 I6 I7] Hw Hc Hok Hp.
  assert (owns (pcs s h) = true -> locked (lock s) = 1) as Hown.
  { intros Ho. destruct I1 as [E|]; [|done]. by rewrite I2 in Ho. }
  assert (forall h', h' <> h -> owns p = true -> owns (pcs s h') = false) as Hoth.
  { intros h' Hn Ho. rewrite Ho in Hw. destruct Hw as [_ [Hw|Hw]]; [|by apply I2].
    destruct (owns (pcs s h')) eqn:E; [|done]. exfalso. eauto. }
  split; cbn.
  - destruct (owns p); [intuition|]. destruct (owns (pcs s h)); [by left|]. by rewrite Hw.
  - intros E h'. destruct (owns p) eqn:Ho; [lia|]. hart_cases.
    destruct (owns (pcs s h)) eqn:Hh; [|by apply I2; congruence].
    destruct (owns (pcs s h')) eqn:E'; [|done]. exfalso. eauto.
  - intros E. destruct (owns p) eqn:Ho; [exists h; by hart_cases|].
    destruct (owns (pcs s h)) eqn:Hh; [lia|]. destruct I3 as [h' H']; [congruence|].
    exists h'. hart_cases. congruence.
  - intros h1 h2. hart_cases; intros E1 E2; eauto.
    + rewrite Hoth in E2; done.
    + rewrite Hoth in E1; done.
  - intros h'. rewrite Hc. unfold set_pc. destruct (decide (h' = h)) as [->|Hne].
    + destruct (recorded p) eqn:Ep; [done|]. destruct (recorded (pcs s h)) eqn:Eh; [done|]. rewrite I5, Eh. done.
    + destruct (recorded p) eqn:Ep.
      { split; [congruence|]. intros E%recorded_owns. rewrite (Hoth h' Hne (recorded_owns _ Ep)) in E. done. }
      destruct (recorded (pcs s h)) eqn:Eh; [|apply I5]. split; [done|]. intros E%recorded_owns. destruct Hne. by apply I4, recorded_owns.
  - intros h'. hart_cases; eauto.
  - intros h'. hart_cases; eauto.
Qed.

Lemma minv_step s s' : minv s -> mstep s s' -> minv s'.
Proof.
  intros I Hs. destruct Hs as [h s0]. pose proof (holding_inv s0 h I) as Hh.
  pose proof (inv_off s0 I h) as [Hn Hin]. pose proof (inv_word s0 I) as Hw.
  pose proof (inv_free s0 I) as Hf. pose proof (inv_calm s0 I h) as Hcalm.
  assert (owns (pcs s0 h) = true -> locked (lock s0) = 1) as Hown.
  { intros Ho. destruct Hw as [E|]; [|done]. by rewrite (Hf E) in Ho. }
  pose proof (inv_cpu s0 I h) as Hcpu. clear Hh. unfold hart_step, hart_next.
  destruct (pcs s0 h) eqn:Hp; cbn [inside owns recorded test_and_set] in *;
    try (assert (locked (lock s0) = 1) as Hl by auto; rewrite Hl in * );
    repeat match goal with
    | |- context [bool_decide (lcpu (lock s0) = Some h)] =>
        first [rewrite (bool_decide_true (lcpu (lock s0) = Some h)) by (by apply Hcpu)
              |rewrite (bool_decide_false (lcpu (lock s0) = Some h)) by (intros E; by apply Hcpu in E)]
    end.
  - unfold run, push_off. apply minv_move; rewrite ?Hp; try done.
    unfold cpu_ok; cbn. case_Z; cbn; split; lia || done.
  - apply minv_move; rewrite ?Hp; cbn; destruct Hw as [Hw|Hw]; rewrite ?Hw; cbn; auto; done || by split.
  - apply minv_move; rewrite ?Hp; cbn; auto; done || by split.
  - apply minv_move; rewrite ?Hp; cbn; destruct Hw as [Hw|Hw]; rewrite ?Hw; cbn; auto; done || by split.
  - apply minv_move; rewrite ?Hp; cbn; auto; done || by split.
  - cbn [Z.eqb]. apply minv_move; rewrite ?Hp; cbn; auto; first [by apply Hcpu|done|by split].
  - apply minv_move; rewrite ?Hp; cbn; auto; first [by apply Hcpu|done|by split].
  - apply minv_move; rewrite ?Hp; cbn; auto; done || by split.
  - apply minv_move; rewrite ?Hp; cbn; auto; done || by split.
  - destruct (Hin eq_refl) as [Hn1 Hs]. unfold run, pop_off, intr_get. rewrite Hs.
    destruct (Z.ltb_spec (noff (cpus s0 h)) 1); [lia|].
    apply minv_move; rewrite ?Hp; try done.
    unfold cpu_ok; cbn. destruct (_ && _); cbn; split; lia || done.
  - done.
Qed.

Lemma minv_reachable c s :
  (forall h, 0 <= noff (c h)) -> star mstep (machine_init c) s -> minv s.
Proof. intros Hc Hs. eapply star_invariant; eauto using minv_step, minv_init. Qed.

(** ** Theorems *)

(** C18: in every state that any number of harts can reach by running [acquire]
    and [release] on a lock, interleaved at every load, store and swap of the lock, at
    most one hart is between the swap that took the lock and the store that releases it,
    [lk->locked] is 1 exactly if there is one, [holding] answers true for exactly the
    hart that has stored itself in [lk->cpu], no hart has panicked, and every hart that is
    in [acquire] or holds the lock has interrupts disabled. *)
Theorem spinlock_mutual_exclusion (c : nat -> cpu) (s : machine) :
  (forall h, 0 <= noff (c h)) ->
  star mstep (machine_init c) s ->
  (forall h1 h2, owns (pcs s h1) = true -> owns (pcs s h2) = true -> h1 = h2) /\
  (locked (lock s) = 1 <-> exists h, owns (pcs s h) = true) /\
  (forall h, holding h (lock s) = recorded (pcs s h)) /\
  (forall h, pcs s h <> PPanic) /\
  (forall h, inside (pcs s h) = true -> intr_get (cpus s h) = false).
Proof.
  intros Hc Hs. pose proof (minv_reachable c s Hc Hs) as I. split; [apply (inv_one s I)|]. split; [|split; [|split]].
  - split; [apply (inv_held s I)|]. intros [h Ho]. destruct (inv_word s I) as [Hw|]; [|done]. by rewrite (inv_free s I Hw h) in Ho.
  - intros h. by apply holding_inv.
  - apply (inv_calm s I).
  - intros h Hi. by apply (inv_off s I h).
Qed.

Definition two_harts (h : nat) : cpu := {| noff := 0; intena := false; sie := true |}.
(** Hart 0 takes the lock while hart 1 is between the two loads of [holding]. *)
Definition contended : machine :=
  foldl (fun s h => hart_step h s) (machine_init two_harts) [0; 0; 0; 1; 1; 0; 1; 1]%nat.

Lemma spinlock_mutual_exclusion_witness :
  pcs contended 0 = PCrit /\ pcs contended 1 = PSpin /\ holding 0 (lock contended) = true /\
  (forall h1 h2, owns (pcs contended h1) = true -> owns (pcs contended h2) = true -> h1 = h2).
Proof.
  split; [reflexivity|]. split; [reflexivity|]. split; [reflexivity|].
  apply (spinlock_mutual_exclusion two_harts contended).
  - intros h. simpl. lia.
  - unfold contended. cbn [foldl].
    do 8 (eapply star_next; [apply mstep_hart|]). apply star_refl.
Defined.

(** Any number of nested [push_off] calls followed by as many [pop_off]
    calls never panics, keeps interrupts off in between, and gives back the
    nesting depth and the interrupt state of before. *)
Theorem push_pop_balanced (n : nat) (c : cpu) :
  0 <= noff c -> (noff c <> 0 -> sie c = false) ->
  exists c1 c2, push_n (S n) c = Ok tt c1 /\ intr_get c1 = false /\
    pop_n (S n) c1 = Ok tt c2 /\ noff c2 = noff c /\ intr_get c2 = intr_get c.
Proof.
  intros Hc Hs. exists (pushed (S n) c), (popped c).
  pose proof (push_n_pushed (S n) 0 c Hc) as Hp. rewrite Nat.add_0_r in Hp.
  split; [exact Hp|]. split; [done|]. split; [by apply pop_n_pushed|]. done.
Qed.

Lemma push_pop_balanced_witness :
  exists c1 c2, push_n 3 (two_harts 0) = Ok tt c1 /\ intr_get c1 = false /\
    pop_n 3 c1 = Ok tt c2 /\ noff c2 = 0 /\ intr_get c2 = true.
Proof. apply (push_pop_balanced 2 (two_harts 0)); simpl; [lia|done]. Defined.
