(* ===== verification/Kalloc.v ===== *)
(** * The physical page allocator: [kernel/kalloc.c]

    The free list is threaded through the free pages themselves: the first word
    of a free page points to the next one.  The theorems relate that list in
    memory to the abstract list of free pages. *)

From stdpp Require Import base list gmap strings.
From S2P Require Import Prelude Riscv Mem Spinlock.

(** [kmem]; the state of the memory components is physical memory and [kmem]. *)
Record kmem := mkKmem { klock : spinlock; freelist : Z }.
Record kst := mkKst { mem : memory; km : kmem }.

Definition set_mem (m : memory) (s : kst) : kst := {| mem := m; km := km s |}.
Definition set_km (k : kmem) (s : kst) : kst := {| mem := mem s; km := k |}.
Definition set_freelist (r : Z) (s : kst) : kst :=
  set_km {| klock := klock (km s); freelist := r |} s.
Definition kmem_lock : M spinlock unit -> M kst unit :=
  zoom (fun s => klock (km s)) (fun lk s => set_km {| klock := lk; freelist := freelist (km s) |} s).

Definition load64 (a : Z) : M kst Z := gets (fun s => ld64 (mem s) a).
Definition store64 (a v : Z) : M kst unit := modify (fun s => set_mem (st64 (mem s) a v) s).
Definition mem_set (dst c n : Z) : M kst unit := modify (fun s => set_mem (memset (mem s) dst c n) s).
Definition mem_move (dst src n : Z) : M kst unit := modify (fun s => set_mem (memmove (mem s) dst src n) s).

Section kalloc.
Context `{Layout}.

Definition kfree (pa : Z) : M kst unit :=
  if negb (pa mod PGSIZE =? 0) || (pa <? kend) || (pa >=? PHYSTOP) then panic "kfree"
  else
    mem_set pa 1 PGSIZE ;;;
    kmem_lock lk_acquire ;;;
    do r <- gets (fun s => freelist (km s));
    store64 pa r ;;;
    modify (set_freelist pa) ;;;
    kmem_lock lk_release.

Definition kalloc : M kst Z :=
  kmem_lock lk_acquire ;;;
  do r <- gets (fun s => freelist (km s));
  (if negb (r =? 0) then (do n <- load64 r; modify (set_freelist n)) else return tt) ;;;
  kmem_lock lk_release ;;;
  (if negb (r =? 0) then mem_set r 5 PGSIZE else return tt) ;;;
  return r.

(** [for(; p + PGSIZE <= pa_end; p += PGSIZE) kfree(p)] *)
Fixpoint freerange_loop (fuel : nat) (p pa_end : Z) : M kst unit :=
  if p + PGSIZE <=? pa_end then
    match fuel with
    | O => fun _ => Diverge
    | S f => kfree p ;;; freerange_loop f (p + PGSIZE) pa_end
    end
  else return tt.
Definition freerange (pa_start pa_end : Z) : M kst unit :=
  freerange_loop (Z.to_nat (pa_end / PGSIZE)) (PGROUNDUP pa_start) pa_end.

Definition kinit : M kst unit :=
  kmem_lock (fun _ => Ok tt initlock) ;;;
  freerange kend PHYSTOP.

(** ** The abstract free list *)

Definition page_ok (p : Z) : Prop := p mod PGSIZE = 0 /\ kend <= p < PHYSTOP.

Lemma kend_pos : 0 < kend.
Proof.
  pose proof etext_end. pose proof trampoline_low. pose proof trampoline_etext.
  unfold KERNBASE, PGSIZE in *. lia.
Qed.

Lemma page_ok_range p : page_ok p -> p mod PGSIZE = 0 /\ 0 < p /\ p + PGSIZE <= PHYSTOP.
Proof.
  intros [Ha Hr]. pose proof kend_pos. split; [done|]. split; [lia|].
  apply Z.mod_divide in Ha as [k ->]; [|done].
  assert (PHYSTOP = 34816 * 16 * PGSIZE + (PHYSTOP - 34816 * 16 * PGSIZE)) as E by lia.
  unfold PHYSTOP, KERNBASE, PGSIZE in *. lia.
Qed.

Lemma pages_disjoint p q :
  p mod PGSIZE = 0 -> q mod PGSIZE = 0 -> p <> q -> p + PGSIZE <= q \/ q + PGSIZE <= p.
Proof.
  intros Hp Hq Hne. apply Z.mod_divide in Hp as [i ->]; [|done].
  apply Z.mod_divide in Hq as [j ->]; [|done]. unfold PGSIZE in *. lia.
Qed.

(** Memory [m] holds the free list [l] starting at address [r]. *)
Fixpoint flist (m : memory) (r : Z) (l : list Z) : Prop :=
  match l with
  | [] => r = 0
  | p :: l' => r = p /\ page_ok p /\ flist m (ld64 m p) l'
  end.

Record kinv (s : kst) (l : list Z) : Prop := {
  kinv_lock : klock (km s) = initlock;
  kinv_mem : mem_ok (mem s);
  kinv_nodup : NoDup l;
  kinv_list : flist (mem s) (freelist (km s)) l
}.

Lemma flist_pages m r l : flist m r l -> Forall page_ok l.
Proof. revert r. induction l; intros r; cbn; [done|]. intros (_ & ? & ?). eauto. Qed.

(** The list only depends on the first words of its pages. *)
Lemma flist_frame m m' r l :
  (forall p, p ∈ l -> ld64 m' p = ld64 m p) -> flist m r l -> flist m' r l.
Proof.
  revert r. induction l as [|p l IH]; intros r Hf; cbn; [done|].
  intros (-> & Hp & Hl). split; [done|]. split; [done|].
  rewrite Hf by set_solver. apply IH; [|done]. set_solver.
Qed.

(** A change of memory inside page [p] leaves a word of another page alone. *)
Lemma ld64_off_page m m' p q :
  (forall a, ~ p <= a < p + PGSIZE -> ld8 m' a = ld8 m a) ->
  p mod PGSIZE = 0 -> q mod PGSIZE = 0 -> p <> q -> ld64 m' q = ld64 m q.
Proof.
  intros Hf Hp Hq Hne. apply ld64_ext. intros i Hi. apply Hf.
  destruct (pages_disjoint p q Hp Hq Hne); unfold PGSIZE in *; lia.
Qed.

Lemma ld8_st64_off_page m p v a :
  ~ p <= a < p + PGSIZE -> ld8 (st64 m p v) a = ld8 m a.
Proof. intros. apply ld8_st64_other. unfold PGSIZE in *. lia. Qed.

Lemma ld8_memset_off_page m p c a :
  ~ p <= a < p + PGSIZE -> ld8 (memset m p c PGSIZE) a = ld8 m a.
Proof. intros. rewrite ld8_memset. case_decide; [lia|done]. Qed.

Lemma page_ok_kfree pa :
  page_ok pa <-> negb (pa mod PGSIZE =? 0) || (pa <? kend) || (pa >=? PHYSTOP) = false.
Proof.
  unfold page_ok. rewrite Z.geb_leb. rewrite !orb_false_iff, negb_false_iff, Z.eqb_eq.
  rewrite Z.ltb_ge, Z.leb_gt. tauto.
Qed.

(** What [kfree] leaves in memory. *)
Definition freed (m : memory) (pa r : Z) : memory := st64 (memset m pa 1 PGSIZE) pa r.

Lemma kfree_run s l pa :
  kinv s l -> page_ok pa -> pa ∉ l ->
  exists s', kfree pa s = Ok tt s' /\ kinv s' (pa :: l) /\
    (forall a, ~ pa <= a < pa + PGSIZE -> ld8 (mem s') a = ld8 (mem s) a).
Proof.
  intros [Hk Hm Hn Hl] Hpa Hnin. destruct s as [m [lk r]]; cbn in *. subst lk.
  exists {| mem := freed m pa r; km := {| klock := initlock; freelist := pa |} |}.
  unfold kfree. rewrite (proj1 (page_ok_kfree pa) Hpa). split; [done|].
  assert (forall a, ~ pa <= a < pa + PGSIZE -> ld8 (freed m pa r) a = ld8 m a) as Hoff.
  { intros a Ha. unfold freed. by rewrite ld8_st64_off_page, ld8_memset_off_page. }
  split; [|done]. split; cbn; [done| | |].
  - unfold freed. auto with xv6.
  - by constructor.
  - split; [done|]. split; [done|]. unfold freed.
    rewrite ld64_st64.
    + eapply flist_frame; [|done]. intros q Hq. eapply ld64_off_page; [apply Hoff|..].
      * apply Hpa.
      * apply flist_pages in Hl. rewrite Forall_forall in Hl. by apply Hl.
      * set_solver.
    + destruct l as [|q l]; cbn in Hl; [lia|]. destruct Hl as (-> & Hq & _).
      apply page_ok_range in Hq. unfold PHYSTOP, KERNBASE, PGSIZE in *. lia.
Qed.

Lemma kalloc_run s l :
  kinv s l ->
  exists s', kalloc s = Ok (hd 0 l) s' /\ kinv s' (tail l) /\
    (forall a, ~ (exists p, head l = Some p /\ p <= a < p + PGSIZE) -> ld8 (mem s') a = ld8 (mem s) a) /\
    (forall p a, head l = Some p -> p <= a < p + PGSIZE -> ld8 (mem s') a = 5) /\
    (l = [] -> s' = s).
Proof.
  intros [Hk Hm Hn Hl]. destruct s as [m [lk r]]; cbn in *. subst lk.
  destruct l as [|p l]; cbn in Hl.
  { subst r. exists {| mem := m; km := {| klock := initlock; freelist := 0 |} |}.
    split; [done|]. split; [by split|]. done. }
  destruct Hl as (-> & Hp & Hl). pose proof (page_ok_range p Hp) as (Ha & Hpos & _).
  exists {| mem := memset m p 5 PGSIZE; km := {| klock := initlock; freelist := ld64 m p |} |}.
  split; [|split; [|split; [|split]]].
  - unfold kalloc. cbn. destruct (Z.eqb_spec p 0); [lia|]. cbn. by destruct (Z.eqb_spec p 0).
  - apply NoDup_cons in Hn as [Hnin Hn]. split; cbn; auto with xv6.
    eapply flist_frame; [|done]. intros q Hq.
    eapply ld64_off_page; [apply ld8_memset_off_page|done| |set_solver].
    apply flist_pages in Hl. rewrite Forall_forall in Hl. by apply Hl.
  - cbn. intros a Hna. apply ld8_memset_off_page. naive_solver.
  - cbn. intros p' a [= ->] Hin. rewrite ld8_memset. by case_decide.
  - done.
Qed.

(** ** Freeing a range *)

(** The pages [p, p + PGSIZE, ...], [n] of them. *)
Fixpoint pages_from (p : Z) (n : nat) : list Z :=
  match n with O => [] | S n' => p :: pages_from (p + PGSIZE) n' end.

Lemma elem_pages_from p n q :
  q ∈ pages_from p n <-> exists i, 0 <= i < Z.of_nat n /\ q = p + i * PGSIZE.
Proof.
  revert p. induction n as [|n IH]; intros p; cbn.
  - split; [by intros ?%not_elem_of_nil|]. intros (i & Hi & _). lia.
  - rewrite elem_of_cons, IH. split.
    + intros [->|(i & Hi & ->)]; [exists 0|exists (i + 1)]; lia.
    + intros (i & Hi & ->). destruct (Z.eq_dec i 0) as [->|]; [left; lia|].
      right. exists (i - 1). lia.
Qed.

Lemma freerange_run (n : nat) fuel s l p pa_end :
  kinv s l -> p mod PGSIZE = 0 -> kend <= p -> pa_end <= PHYSTOP ->
  (n <= fuel)%nat -> p + Z.of_nat n * PGSIZE <= pa_end < p + (Z.of_nat n + 1) * PGSIZE ->
  (forall q, q ∈ l -> q < p \/ pa_end <= q) ->
  exists s', freerange_loop fuel p pa_end s = Ok tt s' /\
    kinv s' (rev (pages_from p n) ++ l).
Proof.
  revert fuel s l p. induction n as [|n IH]; intros fuel s l p Hk Ha Hlo Hhi Hf Hn Hd.
  { exists s. destruct fuel; cbn; case_Z; done. }
  destruct fuel as [|fuel]; [lia|]. cbn [freerange_loop pages_from rev].
  assert (page_ok p) as Hp by (split; [done|]; unfold PGSIZE in *; lia).
  destruct (kfree_run s l p Hk Hp) as (s1 & H1 & Hk1 & _).
  { intros Hin. destruct (Hd p Hin); unfold PGSIZE in *; lia. }
  case_Z; [|unfold PGSIZE in *; lia].
  rewrite (bind_Ok _ _ _ _ _ H1). rewrite <- app_assoc. cbn.
  apply IH; try done; try (unfold PGSIZE in *; lia).
  - rewrite <- Ha. by rewrite <- (Z_mod_plus_full p 1 PGSIZE).
  - intros q [->|Hq]%elem_of_cons; [unfold PGSIZE; lia|].
    destruct (Hd q Hq); unfold PGSIZE in *; lia.
Qed.

(** ** Theorems *)

(** [kfree] of an aligned page between [end] and [PHYSTOP] that is not
    already free returns, puts the page at the head of the free list held in
    memory, and writes nowhere outside that page; every other address makes it
    panic. *)
Theorem kfree_refines (s : kst) (l : list Z) (pa : Z) :
  kinv s l ->
  (page_ok pa -> pa ∉ l ->
     exists s', kfree pa s = Ok tt s' /\ kinv s' (pa :: l) /\
       forall a, ~ pa <= a < pa + PGSIZE -> ld8 (mem s') a = ld8 (mem s) a) /\
  (~ page_ok pa -> kfree pa s = Panic "kfree").
Proof.
  intros Hk. split; [by apply kfree_run|]. intros Hpa.
  unfold kfree. destruct (_ || _) eqn:E; [done|]. by apply page_ok_kfree in E.
Qed.

(** C21: [kalloc] returns 0 exactly when no page is free; otherwise it returns
    the head of the free list, an aligned page between [end] and [PHYSTOP] that
    is no longer in the list, filled with the byte 5, and leaves the rest of
    memory alone. *)
Theorem kalloc_refines (s : kst) (l : list Z) :
  kinv s l ->
  exists s' r, kalloc s = Ok r s' /\ kinv s' (tail l) /\
    (r = 0 <-> l = []) /\
    (r <> 0 -> l = r :: tail l /\ page_ok r /\ r ∉ tail l /\
       (forall a, r <= a < r + PGSIZE -> ld8 (mem s') a = 5)) /\
    (forall a, ~ (r <> 0 /\ r <= a < r + PGSIZE) -> ld8 (mem s') a = ld8 (mem s) a).
Proof.
  intros Hk. destruct (kalloc_run s l Hk) as (s' & H1 & H2 & H3 & H4 & _).
  exists s', (hd 0 l). split; [done|]. split; [done|].
  destruct Hk as [Hlk Hm Hn Hl]. destruct l as [|p l]; cbn in *.
  { split; [done|]. split; [done|]. intros a _. apply H3. by intros (? & ? & _). }
  destruct Hl as (Hr & Hp & Hl). pose proof (page_ok_range p Hp) as (_ & Hpos & _).
  apply NoDup_cons in Hn as [Hnin _].
  split; [split; [lia|done]|]. split; [|intros a Ha; apply H3; intros (q & [= ->] & Hq); lia].
  intros _. split; [done|]. split; [done|]. split; [done|]. intros a Ha.
  by apply (H4 p a).
Qed.

(** [kinit] returns, and the free list it builds in memory holds every
    aligned page between [end] and [PHYSTOP] exactly once. *)
Theorem kinit_frees_all (s : kst) :
  mem_ok (mem s) -> freelist (km s) = 0 ->
  exists s' l, kinit s = Ok tt s' /\ kinv s' l /\ forall p, p ∈ l <-> page_ok p.
Proof.
  intros Hm Hf. destruct s as [m [lk r]]. cbn in *. subst r.
  pose proof kend_pos as Hpos. pose proof end_low as Hlow.
  destruct (PGROUNDUP_bounds kend) as [Hup Hal]; [lia|unfold PHYSTOP, KERNBASE, PGSIZE in *; lia|].
  set (p0 := PGROUNDUP kend) in *. set (n := (PHYSTOP - p0) / PGSIZE).
  assert (p0 <= PHYSTOP) as Hp0.
  { apply Z.mod_divide in Hal as [k Hk]; [|done]. unfold PHYSTOP, KERNBASE, PGSIZE in *. lia. }
  pose proof (Z.div_mod (PHYSTOP - p0) PGSIZE ltac:(done)) as Hdm.
  pose proof (Z.mod_pos_bound (PHYSTOP - p0) PGSIZE ltac:(done)) as Hmb.
  assert (0 <= n) as Hn by (apply Z.div_pos; [lia|done]).
  edestruct (freerange_run (Z.to_nat n) (Z.to_nat (PHYSTOP / PGSIZE))
    {| mem := m; km := {| klock := initlock; freelist := 0 |} |} [] p0 PHYSTOP) as (s' & H1 & H2).
  - split; cbn; try done. constructor.
  - done.
  - lia.
  - done.
  - apply Z2Nat.inj_le; [done|done|]. apply Z.div_le_mono; [done|]. lia.
  - rewrite Z2Nat.id by done. unfold n. lia.
  - set_solver.
  - exists s', (rev (pages_from p0 (Z.to_nat n)) ++ []). split; [exact H1|]. split; [done|].
    intros p. rewrite app_nil_r, list_elem_of_In, <- in_rev, <- list_elem_of_In, elem_pages_from.
    rewrite Z2Nat.id by done. unfold page_ok. split.
    + intros (i & Hi & ->). split; [by rewrite Z_mod_plus_full|].
      unfold n, PGSIZE in *. lia.
    + intros [Hp Hr]. apply Z.mod_divide in Hp as [k ->]; [|done].
      apply Z.mod_divide in Hal as [k0 Hk0]; [|done].
      exists (k - k0). unfold n, PHYSTOP, KERNBASE, PGSIZE in *. lia.
Qed.
End kalloc.

(** A concrete layout: two pages of free memory below [PHYSTOP]. *)
#[local] Program Instance small_layout : Layout :=
  {| etext := PHYSTOP - 4 * PGSIZE; kend := PHYSTOP - 2 * PGSIZE;
     trampoline := PHYSTOP - 5 * PGSIZE |}.
Solve Obligations with (vm_compute; congruence).

Definition boot : kst := {| mem := ∅; km := {| klock := initlock; freelist := 0 |} |}.
Definition page1 : Z := PHYSTOP - PGSIZE.
Lemma kinv_boot : kinv boot [].
Proof. split; [done|apply mem_ok_empty|constructor|done]. Qed.

Lemma kfree_refines_witness :
  exists s', kfree page1 boot = Ok tt s' /\ kinv s' [page1].
Proof.
  destruct (kfree_refines boot [] page1 kinv_boot) as [H _].
  destruct H as (s' & H1 & H2 & _); [split; vm_compute; intuition congruence|set_solver|].
  by exists s'.
Defined.

Lemma kalloc_refines_witness :
  exists s' r, kalloc boot = Ok r s' /\ r = 0.
Proof.
  destruct (kalloc_refines boot [] kinv_boot) as (s' & r & H1 & _ & H2 & _).
  exists s', r. split; [done|]. by apply H2.
Defined.

Lemma kinit_frees_all_witness :
  exists s' l, kinit boot = Ok tt s' /\ kinv s' l /\ page1 ∈ l.
Proof.
  destruct (kinit_frees_all boot mem_ok_empty eq_refl) as (s' & l & H1 & H2 & H3).
  exists s', l. split; [done|]. split; [done|]. apply H3. split; vm_compute; intuition congruence.
Defined.
