(* ===== verification/Vm.v ===== *)
(** * Page tables and user memory: [kernel/vm.c]

    The operations on the three-level Sv39 page tables the kernel keeps in
    physical memory, translated function by function.  Page-table pages are
    read and written word by word in the memory of [Kalloc]; a buffer of the
    kernel that is copied to or from user memory is the list of its bytes. *)

From stdpp Require Import base list gmap strings.
From S2P Require Import Prelude Riscv Mem Spinlock Kalloc.

Section vm.
Context `{Layout}.

(** ** walk *)

(** The loop over the levels: [pagetable] is the page of the current level. *)
Fixpoint walk_loop (level : nat) (pagetable va : Z) (alloc : bool) : M kst Z :=
  match level with
  | O => return (pagetable + 8 * PX 0 va)
  | S l =>
      let pte := pagetable + 8 * PX (Z.of_nat level) va in
      do e <- load64 pte;
      if flag e PTE_V then walk_loop l (PTE2PA e) va alloc
      else if negb alloc then return 0
      else
        do pg <- kalloc;
        if pg =? 0 then return 0
        else
          mem_set pg 0 PGSIZE ;;;
          store64 pte (Z.lor (PA2PTE pg) PTE_V) ;;;
          walk_loop l pg va alloc
  end.

Definition walk (pagetable va : Z) (alloc : bool) : M kst Z :=
  if va >=? MAXVA then panic "walk" else walk_loop 2 pagetable va alloc.

Definition walkaddr (pagetable va : Z) : M kst Z :=
  if va >=? MAXVA then return 0
  else
    do pte <- walk pagetable va false;
    if pte =? 0 then return 0
    else
      do e <- load64 pte;
      if negb (flag e PTE_V) then return 0
      else if negb (flag e PTE_U) then return 0
      else return (PTE2PA e).

(** ** Mapping and unmapping *)

Fixpoint mappages_loop (fuel : nat) (pagetable a last pa perm : Z) : M kst Z :=
  match fuel with
  | O => fun _ => Diverge
  | S f =>
      do pte <- walk pagetable a true;
      if pte =? 0 then return (-1)
      else
        do e <- load64 pte;
        if flag e PTE_V then panic "mappages: remap"
        else
          store64 pte (Z.lor (Z.lor (PA2PTE pa) perm) PTE_V) ;;;
          if a =? last then return 0
          else mappages_loop f pagetable (u64 (a + PGSIZE)) last (u64 (pa + PGSIZE)) perm
  end.

Definition mappages (pagetable va size pa perm : Z) : M kst Z :=
  if negb (va mod PGSIZE =? 0) then panic "mappages: va not aligned"
  else if negb (size mod PGSIZE =? 0) then panic "mappages: size not aligned"
  else if size =? 0 then panic "mappages: size"
  else mappages_loop (Z.to_nat (size / PGSIZE)) pagetable va (u64 (va + size - PGSIZE)) pa perm.

Definition kvmmap (kpgtbl va pa sz perm : Z) : M kst unit :=
  do r <- mappages kpgtbl va sz pa perm;
  if negb (r =? 0) then panic "kvmmap" else return tt.

Fixpoint uvmunmap_loop (fuel : nat) (pagetable a stop : Z) (do_free : bool) : M kst unit :=
  if a <? stop then
    match fuel with
    | O => fun _ => Diverge
    | S f =>
        do pte <- walk pagetable a false;
        if pte =? 0 then panic "uvmunmap: walk"
        else
          do e <- load64 pte;
          if negb (flag e PTE_V) then panic "uvmunmap: not mapped"
          else if PTE_FLAGS e =? PTE_V then panic "uvmunmap: not a leaf"
          else
            (if do_free then kfree (PTE2PA e) else return tt) ;;;
            store64 pte 0 ;;;
            uvmunmap_loop f pagetable (u64 (a + PGSIZE)) stop do_free
    end
  else return tt.

Definition uvmunmap (pagetable va npages : Z) (do_free : bool) : M kst unit :=
  if negb (va mod PGSIZE =? 0) then panic "uvmunmap: not aligned"
  else uvmunmap_loop (Z.to_nat npages) pagetable va (u64 (va + npages * PGSIZE)) do_free.

Definition uvmcreate : M kst Z :=
  do pagetable <- kalloc;
  if pagetable =? 0 then return 0
  else mem_set pagetable 0 PGSIZE ;;; return pagetable.

(** [memmove] from a kernel buffer to physical memory. *)
Definition mem_write (pa : Z) (bs : list Z) : M kst unit :=
  modify (fun s => set_mem (stn (mem s) pa bs) s).
(** [memmove] from physical memory to a kernel buffer. *)
Definition mem_read (pa n : Z) : M kst (list Z) :=
  gets (fun s => ldn (mem s) pa (Z.to_nat n)).

Definition uvmfirst (pagetable : Z) (src : list Z) : M kst unit :=
  let sz := Z.of_nat (length src) in
  if sz >=? PGSIZE then panic "uvmfirst: more than a page"
  else
    do mem <- kalloc;
    mem_set mem 0 PGSIZE ;;;
    mappages pagetable 0 PGSIZE mem (Z.lor (Z.lor (Z.lor PTE_W PTE_R) PTE_X) PTE_U) ;;;
    mem_write mem src.

(** ** Growing and shrinking *)

Definition uvmdealloc (pagetable oldsz newsz : Z) : M kst Z :=
  if newsz >=? oldsz then return oldsz
  else
    (if PGROUNDUP newsz <? PGROUNDUP oldsz then
       let npages := s32 ((PGROUNDUP oldsz - PGROUNDUP newsz) / PGSIZE) in
       uvmunmap pagetable (PGROUNDUP newsz) (u64 npages) true
     else return tt) ;;;
    return newsz.

Fixpoint uvmalloc_loop (fuel : nat) (pagetable a oldsz newsz xperm : Z) : M kst Z :=
  if a <? newsz then
    match fuel with
    | O => fun _ => Diverge
    | S f =>
        do mem <- kalloc;
        if mem =? 0 then uvmdealloc pagetable a oldsz ;;; return 0
        else
          mem_set mem 0 PGSIZE ;;;
          do r <- mappages pagetable a PGSIZE mem (Z.lor (Z.lor PTE_R PTE_U) xperm);
          if negb (r =? 0) then
            kfree mem ;;; uvmdealloc pagetable a oldsz ;;; return 0
          else uvmalloc_loop f pagetable (u64 (a + PGSIZE)) oldsz newsz xperm
    end
  else return newsz.

Definition uvmalloc (pagetable oldsz newsz xperm : Z) : M kst Z :=
  if newsz <? oldsz then return oldsz
  else
    let oldsz := PGROUNDUP oldsz in
    uvmalloc_loop (Z.to_nat ((newsz - oldsz) / PGSIZE + 1)) pagetable oldsz oldsz newsz xperm.

(** ** Freeing *)

(** [depth] bounds the depth of the recursion: page tables have three levels. *)
Fixpoint freewalk_depth (depth : nat) (pagetable : Z) : M kst unit :=
  match depth with
  | O => fun _ => Diverge
  | S d =>
      for_range 512 0 (fun i =>
        do pte <- load64 (pagetable + 8 * i);
        if flag pte PTE_V && negb (flag pte (Z.lor (Z.lor PTE_R PTE_W) PTE_X)) then
          freewalk_depth d (PTE2PA pte) ;;;
          store64 (pagetable + 8 * i) 0
        else if flag pte PTE_V then panic "freewalk: leaf"
        else return tt) ;;;
      kfree pagetable
  end.
Definition freewalk (pagetable : Z) : M kst unit := freewalk_depth 3 pagetable.

Definition uvmfree (pagetable sz : Z) : M kst unit :=
  (if sz >? 0 then uvmunmap pagetable 0 (PGROUNDUP sz / PGSIZE) true else return tt) ;;;
  freewalk pagetable.

(** ** Copying a process's memory *)

Fixpoint uvmcopy_loop (fuel : nat) (old new i sz : Z) : M kst Z :=
  if i <? sz then
    match fuel with
    | O => fun _ => Diverge
    | S f =>
        do pte <- walk old i false;
        if pte =? 0 then panic "uvmcopy: pte should exist"
        else
          do e <- load64 pte;
          if negb (flag e PTE_V) then panic "uvmcopy: page not present"
          else
            let pa := PTE2PA e in
            let flags := PTE_FLAGS e in
            let err := uvmunmap new 0 (i / PGSIZE) true ;;; return (-1) in
            do mem <- kalloc;
            if mem =? 0 then err
            else
              mem_move mem pa PGSIZE ;;;
              do r <- mappages new i PGSIZE mem flags;
              if negb (r =? 0) then kfree mem ;;; err
              else uvmcopy_loop f old new (u64 (i + PGSIZE)) sz
    end
  else return 0.

Definition uvmcopy (old new sz : Z) : M kst Z :=
  uvmcopy_loop (Z.to_nat (sz / PGSIZE + 1)) old new 0 sz.

Definition uvmclear (pagetable va : Z) : M kst unit :=
  do pte <- walk pagetable va false;
  if pte =? 0 then panic "uvmclear"
  else do e <- load64 pte; store64 pte (Z.land e (Z.lnot PTE_U)).

(** ** Copying between kernel and user *)

Fixpoint copyout_loop (fuel : nat) (pagetable dstva : Z) (src : list Z) : M kst Z :=
  let len := Z.of_nat (length src) in
  if len >? 0 then
    match fuel with
    | O => fun _ => Diverge
    | S f =>
        let va0 := PGROUNDDOWN dstva in
        if va0 >=? MAXVA then return (-1)
        else
          do pte <- walk pagetable va0 false;
          if pte =? 0 then return (-1)
          else
            do e <- load64 pte;
            if negb (flag e PTE_V) || negb (flag e PTE_U) || negb (flag e PTE_W)
            then return (-1)
            else
              let pa0 := PTE2PA e in
              let n := PGSIZE - (dstva - va0) in
              let n := if n >? len then len else n in
              mem_write (pa0 + (dstva - va0)) (take (Z.to_nat n) src) ;;;
              copyout_loop f pagetable (u64 (va0 + PGSIZE)) (drop (Z.to_nat n) src)
    end
  else return 0.

(** [copyout(pagetable, dstva, src, len)], [src] being the [len] bytes to copy. *)
Definition copyout (pagetable dstva : Z) (src : list Z) : M kst Z :=
  copyout_loop (length src) pagetable dstva src.

(** [copyin] returns its result and the bytes it stored at [dst]. *)
Fixpoint copyin_loop (fuel : nat) (pagetable srcva len : Z) : M kst (Z * list Z) :=
  if len >? 0 then
    match fuel with
    | O => fun _ => Diverge
    | S f =>
        let va0 := PGROUNDDOWN srcva in
        do pa0 <- walkaddr pagetable va0;
        if pa0 =? 0 then return (-1, [])
        else
          let n := PGSIZE - (srcva - va0) in
          let n := if n >? len then len else n in
          do bs <- mem_read (pa0 + (srcva - va0)) n;
          do '(r, rest) <- copyin_loop f pagetable (u64 (va0 + PGSIZE)) (len - n);
          return (r, bs ++ rest)
    end
  else return (0, []).

Definition copyin (pagetable srcva len : Z) : M kst (Z * list Z) :=
  copyin_loop (Z.to_nat len) pagetable srcva len.

(** The inner loop of [copyinstr]: copy up to [n] bytes from physical address
    [p] until a NUL; whether it was found, and the bytes stored at [dst]. *)
Fixpoint copystr_loop (n : nat) (p : Z) : M kst (bool * list Z) :=
  match n with
  | O => return (false, [])
  | S n' =>
      do c <- gets (fun s => ld8 (mem s) p);
      if c =? 0 then return (true, [0])
      else
        do '(got, bs) <- copystr_loop n' (p + 1);
        return (got, c :: bs)
  end.

Fixpoint copyinstr_loop (fuel : nat) (pagetable srcva max : Z) : M kst (Z * list Z) :=
  if max >? 0 then
    match fuel with
    | O => fun _ => Diverge
    | S f =>
        let va0 := PGROUNDDOWN srcva in
        do pa0 <- walkaddr pagetable va0;
        if pa0 =? 0 then return (-1, [])
        else
          let n := PGSIZE - (srcva - va0) in
          let n := if n >? max then max else n in
          do '(got_null, bs) <- copystr_loop (Z.to_nat n) (pa0 + (srcva - va0));
          if got_null then return (0, bs)
          else
            do '(r, rest) <- copyinstr_loop f pagetable (u64 (va0 + PGSIZE)) (max - n);
            return (r, bs ++ rest)
    end
  else return (-1, []).

Definition copyinstr (pagetable srcva max : Z) : M kst (Z * list Z) :=
  copyinstr_loop (Z.to_nat max) pagetable srcva max.

(** ** The kernel's page table *)

(** [proc_mapstacks] of proc.c: a mapped kernel stack for every process. *)
Definition proc_mapstacks (kpgtbl : Z) : M kst unit :=
  for_range (Z.to_nat NPROC) 0 (fun p =>
    do pa <- kalloc;
    if pa =? 0 then panic "kalloc"
    else kvmmap kpgtbl (KSTACK p) pa PGSIZE (Z.lor PTE_R PTE_W)).

Definition kvmmake : M kst Z :=
  do kpgtbl <- kalloc;
  mem_set kpgtbl 0 PGSIZE ;;;
  kvmmap kpgtbl UART0 UART0 PGSIZE (Z.lor PTE_R PTE_W) ;;;
  kvmmap kpgtbl VIRTIO0 VIRTIO0 PGSIZE (Z.lor PTE_R PTE_W) ;;;
  kvmmap kpgtbl PLIC PLIC 0x4000000 (Z.lor PTE_R PTE_W) ;;;
  kvmmap kpgtbl KERNBASE KERNBASE (etext - KERNBASE) (Z.lor PTE_R PTE_X) ;;;
  kvmmap kpgtbl etext etext (PHYSTOP - etext) (Z.lor PTE_R PTE_W) ;;;
  kvmmap kpgtbl TRAMPOLINE trampoline PGSIZE (Z.lor PTE_R PTE_X) ;;;
  proc_mapstacks kpgtbl ;;;
  return kpgtbl.

(** The value of the variable [kernel_pagetable] after [kvminit]. *)
Definition kvminit : M kst Z := kvmmake.
End vm.
