(* ===== verification/VmTable.v ===== *)
(** * Page tables as trees of typed pages

    The abstract view of the page tables in memory.  [T] gives the level (2, 1,
    0) of every page-table page, and [E p i] is entry [i] of page [p].  The
    invariant [ptinv] says that valid entries of level-2 and level-1 pages point
    to pages of the next level, each from one place only.  Under it every table
    is a tree, and a store to one entry changes the translation of one page. *)

From stdpp Require Import base list gmap strings.
From S2P Require Import Prelude Riscv Mem Spinlock Kalloc Vm.

Section table.
Implicit Types (E : Z -> Z -> Z) (T : gmap Z nat).

(** Where the walk for [va] from a page of level [k] ends: a level-0 page and
    the index of the entry in it. *)
Fixpoint pwalk E (k : nat) (pt va : Z) : option (Z * Z) :=
  match k with
  | O => Some (pt, PX 0 va)
  | S l =>
      let e := E pt (PX (Z.of_nat k) va) in
      if flag e PTE_V then pwalk E l (PTE2PA e) va else None
  end.

(** The page-table entry that translates [va] from the root, 0 if there is none. *)
Definition view E (root va : Z) : Z :=
  match pwalk E 2 root va with Some (p, i) => E p i | None => 0 end.

Record ptinv E T : Prop := {
  pt_level : forall p k, T !! p = Some k -> (k <= 2)%nat;
  pt_child : forall p k i, T !! p = Some (S k) -> 0 <= i < 512 ->
    flag (E p i) PTE_V = true -> T !! PTE2PA (E p i) = Some k;
  pt_once : forall p q k k' i j, T !! p = Some (S k) -> T !! q = Some (S k') ->
    0 <= i < 512 -> 0 <= j < 512 ->
    flag (E p i) PTE_V = true -> flag (E q j) PTE_V = true ->
    PTE2PA (E p i) = PTE2PA (E q j) -> p = q /\ i = j;
  pt_dir : forall p k i, T !! p = Some (S k) -> 0 <= i < 512 ->
    flag (E p i) PTE_V = true -> flag (E p i) (Z.lor (Z.lor PTE_R PTE_W) PTE_X) = false;
  pt_held : forall p k, T !! p = Some k -> k = 2%nat \/
    exists q i, T !! q = Some (S k) /\ 0 <= i < 512 /\ flag (E q i) PTE_V = true /\ PTE2PA (E q i) = p
}.

Lemma PX_nat (k : nat) va : 0 <= PX (Z.of_nat k) va < 512.
Proof. apply PX_range. lia. Qed.

Lemma pwalk_typed E T k pt va p i :
  ptinv E T -> T !! pt = Some k -> pwalk E k pt va = Some (p, i) ->
  T !! p = Some 0%nat /\ i = PX 0 va.
Proof.
  intros I. revert pt. induction k as [|k IH]; intros pt Hpt; cbn [pwalk].
  - by intros [= <- <-].
  - destruct (flag _ _) eqn:Hv; [|done]. apply IH.
    eapply pt_child; eauto using PX_nat.
Qed.

(** Two walks that end in the same page started in the same page and used the
    same indices. *)
Lemma pwalk_inj E T k pt1 pt2 va1 va2 p i1 i2 :
  ptinv E T -> T !! pt1 = Some k -> T !! pt2 = Some k ->
  pwalk E k pt1 va1 = Some (p, i1) -> pwalk E k pt2 va2 = Some (p, i2) ->
  pt1 = pt2 /\ forall j, (1 <= j <= k)%nat -> PX (Z.of_nat j) va1 = PX (Z.of_nat j) va2.
Proof.
  intros I. revert pt1 pt2. induction k as [|k IH]; intros pt1 pt2 H1 H2; cbn [pwalk].
  - intros [= -> _] [= -> _]. split; [done|]. intros j Hj. lia.
  - destruct (flag (E pt1 _) _) eqn:Hv1; [|done].
    destruct (flag (E pt2 _) _) eqn:Hv2; [|done]. intros W1 W2.
    destruct (IH _ _ (pt_child _ _ I _ _ _ H1 (PX_nat _ _) Hv1)
                     (pt_child _ _ I _ _ _ H2 (PX_nat _ _) Hv2) W1 W2) as [Hc Hj].
    destruct (pt_once _ _ I _ _ _ _ _ _ H1 H2 (PX_nat _ _) (PX_nat _ _) Hv1 Hv2 Hc) as [-> Hi].
    split; [done|]. intros j Hjk. destruct (decide (j = S k)) as [->|]; [done|].
    apply Hj. lia.
Qed.

Lemma pwalk_same_page E T r1 r2 va1 va2 p i :
  ptinv E T -> T !! r1 = Some 2%nat -> T !! r2 = Some 2%nat ->
  0 <= va1 < 2 ^ 39 -> 0 <= va2 < 2 ^ 39 ->
  pwalk E 2 r1 va1 = Some (p, i) -> pwalk E 2 r2 va2 = Some (p, i) ->
  r1 = r2 /\ PGROUNDDOWN va1 = PGROUNDDOWN va2.
Proof.
  intros I H1 H2 Hv1 Hv2 W1 W2.
  destruct (pwalk_inj _ _ _ _ _ _ _ _ _ _ I H1 H2 W1 W2) as [-> Hj].
  apply (pwalk_typed _ _ _ _ _ _ _ I H1) in W1 as [_ E1].
  apply (pwalk_typed _ _ _ _ _ _ _ I H2) in W2 as [_ E2].
  split; [done|]. apply PX_inj; try done.
  - apply (Hj 2%nat). lia.
  - apply (Hj 1%nat). lia.
  - congruence.
Qed.

Lemma pwalk_page E k pt va : pwalk E k pt (PGROUNDDOWN va) = pwalk E k pt va.
Proof.
  revert pt. induction k as [|k IH]; intros pt; cbn [pwalk].
  - by rewrite PX_page.
  - rewrite PX_page by lia. by rewrite IH.
Qed.

Lemma view_page E root va : view E root (PGROUNDDOWN va) = view E root va.
Proof. unfold view. by rewrite pwalk_page. Qed.

(** ** Storing a leaf entry *)

Lemma pwalk_ext E E' T k pt va :
  ptinv E T -> T !! pt = Some k ->
  (forall q j l, T !! q = Some (S l) -> 0 <= j < 512 -> E' q j = E q j) ->
  pwalk E' k pt va = pwalk E k pt va.
Proof.
  intros I. revert pt. induction k as [|k IH]; intros pt Hpt HE; cbn [pwalk]; [done|].
  rewrite (HE pt _ k Hpt (PX_nat _ _)). destruct (flag _ _) eqn:Hv; [|done].
  apply IH; [|done]. eapply pt_child; eauto using PX_nat.
Qed.

(** Entries of level-0 pages are not constrained. *)
Lemma ptinv_ext E E' T :
  ptinv E T ->
  (forall q j l, T !! q = Some (S l) -> 0 <= j < 512 -> E' q j = E q j) -> ptinv E' T.
Proof.
  intros I HE. split.
  - apply (pt_level _ _ I).
  - intros p k i Hp Hi. rewrite (HE _ _ _ Hp Hi). by apply (pt_child _ _ I).
  - intros p q k k' i j Hp Hq Hi Hj. rewrite (HE _ _ _ Hp Hi), (HE _ _ _ Hq Hj).
    by apply (pt_once _ _ I _ _ k k').
  - intros p k i Hp Hi. rewrite (HE _ _ _ Hp Hi). by apply (pt_dir _ _ I _ k).
  - intros p k Hp. destruct (pt_held _ _ I p k Hp) as [?|(q & i & Hq & Hi & Hv)]; [by left|right].
    exists q, i. by rewrite (HE _ _ _ Hq Hi).
Qed.

(** ** The pages of a table *)

(** Page [p] belongs to the table at page [pt] of level [k]. *)
Fixpoint in_pt E (k : nat) (pt p : Z) : Prop :=
  p = pt \/
  match k with
  | O => False
  | S k => exists i, 0 <= i < 512 /\ flag (E pt i) PTE_V = true /\ in_pt E k (PTE2PA (E pt i)) p
  end.
(** Page [p] belongs to the page table with the given root. *)
Definition tree E (root p : Z) : Prop := in_pt E 2 root p.

Lemma in_pt_self E k pt : in_pt E k pt pt.
Proof. destruct k; by left. Qed.
Lemma in_pt_typed E T k pt p :
  ptinv E T -> T !! pt = Some k -> in_pt E k pt p -> exists j, T !! p = Some j /\ (j <= k)%nat /\ (j = k -> p = pt).
Proof.
  intros I. revert pt. induction k as [|k IH]; intros pt Hpt [->|Hc]; [by eexists|done|by eexists|].
  destruct Hc as (i & Hi & Hv & Hc). destruct (IH _ (pt_child _ _ I _ _ _ Hpt Hi Hv) Hc) as (j & Hj & Hle & _).
  exists j. split; [done|]. split; [lia|]. intros ->. lia.
Qed.
(** Tables at the same level share no page. *)
Lemma in_pt_inj E T k c1 c2 p :
  ptinv E T -> T !! c1 = Some k -> T !! c2 = Some k -> in_pt E k c1 p -> in_pt E k c2 p -> c1 = c2.
Proof.
  intros I. revert c1 c2. induction k as [|k IH]; intros c1 c2 H1 H2 Hp1 Hp2.
  - destruct Hp1 as [->|[]], Hp2 as [->|[]]. done.
  - pose proof Hp1 as Hq1. pose proof Hp2 as Hq2. destruct Hp1 as [->|(i & Hi & Hv & Hp1)].
    { destruct (in_pt_typed _ _ _ _ _ I H2 Hq2) as (j & Hj & _ & He). apply He. congruence. }
    destruct Hp2 as [->|(i' & Hi' & Hv' & Hp2)].
    { destruct (in_pt_typed _ _ _ _ _ I H1 Hq1) as (j & Hj & _ & He). symmetry. apply He. congruence. }
    apply (pt_once _ _ I _ _ k k i i'); try done.
    apply IH; [by apply (pt_child _ _ I _ _ _ H1)|by apply (pt_child _ _ I _ _ _ H2)|done|done].
Qed.
(** The child of a page of a table belongs to it. *)
Lemma in_pt_child E T n c k pt i :
  ptinv E T -> T !! c = Some n -> in_pt E n c pt -> T !! pt = Some (S k) -> 0 <= i < 512 -> flag (E pt i) PTE_V = true ->
  in_pt E n c (PTE2PA (E pt i)).
Proof.
  intros I. revert c. induction n as [|n IH]; intros c Hc Hin Hpt Hi Hv; destruct Hin as [->|Hin]; [congruence|done| |].
  - right. exists i. split; [done|]. split; [done|]. apply in_pt_self.
  - destruct Hin as (i' & Hi' & Hv' & Hin). right. exists i'. split; [done|]. split; [done|].
    apply IH; [by apply (pt_child _ _ I _ _ _ Hc)|done..].
Qed.
(** Every page-table page belongs to a table. *)
Lemma tree_of E T p k : ptinv E T -> T !! p = Some k -> exists r, T !! r = Some 2%nat /\ tree E r p.
Proof.
  intros I. assert (forall n p k, (k + n = 2)%nat -> T !! p = Some k -> exists r, T !! r = Some 2%nat /\ tree E r p) as H.
  { induction n as [|n IH]; intros p' k' Hk Hp.
    - assert (k' = 2%nat) as -> by lia. exists p'. split; [done|apply in_pt_self].
    - destruct (pt_held _ _ I _ _ Hp) as [->|(q & i & Hq & Hi & Hv & <-)]; [lia|].
      destruct (IH q (S k')) as (r & Hr & Ht); [lia|done|]. exists r. split; [done|]. by eapply in_pt_child. }
  intros Hp. pose proof (pt_level _ _ I _ _ Hp). apply (H (2 - k)%nat p k); [lia|done].
Qed.
(** Valid entries that stay keep the pages; equal entries above the last level keep the tables. *)
Lemma in_pt_mono E E' T k pt p : ptinv E T -> T !! pt = Some k ->
  (forall q l j, T !! q = Some (S l) -> 0 <= j < 512 -> flag (E q j) PTE_V = true -> E' q j = E q j) ->
  in_pt E k pt p -> in_pt E' k pt p.
Proof.
  intros I. revert pt. induction k as [|k IH]; intros pt Hpt HE [->|Hc]; [by left|done|by left|].
  destruct Hc as (i & Hi & Hv & Hc). right. exists i. rewrite (HE _ _ _ Hpt Hi Hv). split; [done|]. split; [done|].
  apply IH; [by eapply pt_child|done|done].
Qed.
Lemma tree_dirs E E' T r p : ptinv E T -> T !! r = Some 2%nat ->
  (forall q j l, T !! q = Some (S l) -> 0 <= j < 512 -> E' q j = E q j) -> tree E' r p <-> tree E r p.
Proof.
  intros I Hr HE. split; apply (in_pt_mono _ _ T); try done; [by eapply ptinv_ext|..]; intros q l j Hq Hj _.
  - symmetry. by eapply HE.
  - by eapply HE.
Qed.

(** Storing the entry found by the walk for [va] changes the view at the page
    of [va] in that table, and nowhere else. *)
Lemma view_store E E' T root va p i :
  ptinv E T -> T !! root = Some 2%nat -> 0 <= va < 2 ^ 39 ->
  pwalk E 2 root va = Some (p, i) ->
  (forall q j l, T !! q = Some l -> 0 <= j < 512 -> (q, j) <> (p, i) -> E' q j = E q j) ->
  ptinv E' T /\
  (forall r a, T !! r = Some 2%nat -> 0 <= a < 2 ^ 39 ->
     view E' r a = if decide (r = root /\ PGROUNDDOWN a = PGROUNDDOWN va) then E' p i else view E r a).
Proof.
  intros I Hr Hva W HE.
  destruct (pwalk_typed _ _ _ _ _ _ _ I Hr W) as [Hp ->].
  assert (forall q j l, T !! q = Some (S l) -> 0 <= j < 512 -> E' q j = E q j) as HE'.
  { intros q j l Hq Hj. eapply HE; eauto. intros [= -> ->]. congruence. }
  split; [by eapply ptinv_ext|]. intros r a Hr' Ha. unfold view.
  rewrite (pwalk_ext E E' T 2 r a) by done.
  destruct (pwalk E 2 r a) as [[q j]|] eqn:W'.
  - destruct (pwalk_typed _ _ _ _ _ _ _ I Hr' W') as [Hq ->].
    case_decide as Hd.
    + destruct Hd as [-> Hd]. rewrite <- pwalk_page, Hd, pwalk_page in W'. congruence.
    + eapply HE; [done|apply (PX_nat 0)|]. intros [= -> Hpx]. apply Hd.
      rewrite Hpx in W'. by apply (pwalk_same_page E T r root a va p (PX 0 va)).
  - case_decide as Hd; [|done].
    destruct Hd as [-> Hd]. rewrite <- pwalk_page, Hd, pwalk_page in W'. congruence.
Qed.

(** ** Adding an empty page-table page *)

(** The walk reaches the new page only through the entry that was stored. *)
Lemma view_grow_aux E E' T k pt0 i0 pg :
  ptinv E T -> T !! pt0 = Some (S k) -> 0 <= i0 < 512 ->
  flag (E pt0 i0) PTE_V = false -> T !! pg = None ->
  (forall q j l, T !! q = Some l -> 0 <= j < 512 -> (q, j) <> (pt0, i0) -> E' q j = E q j) ->
  PTE2PA (E' pt0 i0) = pg -> (forall j, 0 <= j < 512 -> E' pg j = 0) ->
  forall n pt va, T !! pt = Some n ->
    match pwalk E n pt va with Some (p, i) => E p i | None => 0 end =
    match pwalk E' n pt va with Some (p, i) => E' p i | None => 0 end.
Proof.
  intros I H0 Hi0 Hv Hpg HE Hpa Hz.
  induction n as [|n IH]; intros pt va Hpt; cbn [pwalk].
  { symmetry. eapply HE; [done| |]. { apply (PX_nat 0). }
    intros [= ->]. congruence. }
  destruct (decide ((pt, PX (Z.of_nat (S n)) va) = (pt0, i0))) as [[= -> Hi]|Hne].
  - rewrite Hi, Hv. destruct (flag (E' pt0 i0) PTE_V); [|done]. rewrite Hpa.
    destruct n as [|n]; cbn [pwalk].
    + rewrite Hz; [done|]. apply (PX_nat 0).
    + rewrite Hz by apply PX_nat. done.
  - rewrite (HE _ _ _ Hpt (PX_nat _ _) Hne).
    destruct (flag (E pt (PX (Z.of_nat (S n)) va)) PTE_V) eqn:Hf; [|done].
    apply IH. eapply pt_child; eauto using PX_nat.
Qed.

(** Hooking a zeroed page [pg] under an invalid entry of [pt0] keeps the
    invariant, with [pg] one level below, and every translation. *)
Lemma view_grow E E' T k pt0 i0 pg :
  ptinv E T -> T !! pt0 = Some (S k) -> 0 <= i0 < 512 ->
  flag (E pt0 i0) PTE_V = false -> T !! pg = None ->
  (forall q j l, T !! q = Some l -> 0 <= j < 512 -> (q, j) <> (pt0, i0) -> E' q j = E q j) ->
  PTE2PA (E' pt0 i0) = pg -> flag (E' pt0 i0) PTE_V = true -> flag (E' pt0 i0) (Z.lor (Z.lor PTE_R PTE_W) PTE_X) = false ->
  (forall j, 0 <= j < 512 -> E' pg j = 0) ->
  ptinv E' (<[pg := k]> T) /\
  (forall r a, T !! r = Some 2%nat -> view E' r a = view E r a) /\
  (forall r p, T !! r = Some 2%nat -> ~ tree E r pt0 -> tree E' r p <-> tree E r p).
Proof.
  intros I H0 Hi0 Hv Hpg HE Hpa Hval Hdir Hz.
  assert (forall q j l, <[pg:=k]> T !! q = Some (S l) -> 0 <= j < 512 -> flag (E' q j) PTE_V = true ->
     T !! q = Some (S l) /\ ((q, j) = (pt0, i0) \/ E' q j = E q j)) as Hcase.
  { intros q j l Hq Hj Hf. destruct (decide (q = pg)) as [->|Hqp].
    - by rewrite Hz in Hf.
    - rewrite lookup_insert_ne in Hq by done. split; [done|].
      destruct (decide ((q, j) = (pt0, i0))); [by left|right]. eauto. }
  split; [split|split].
  - intros p l. destruct (decide (p = pg)) as [->|].
    + rewrite lookup_insert_eq. intros [= <-]. pose proof (pt_level _ _ I _ _ H0). lia.
    + rewrite lookup_insert_ne by done. apply (pt_level _ _ I).
  - intros p l i Hp Hi Hf. destruct (Hcase _ _ _ Hp Hi Hf) as [Hp' [[= -> ->]|He]].
    + rewrite Hpa, lookup_insert_eq. congruence.
    + rewrite He in *. pose proof (pt_child _ _ I _ _ _ Hp' Hi Hf) as Hc.
      rewrite lookup_insert_ne; [done|]. intros ->. congruence.
  - intros p q l l' i j Hp Hq Hi Hj Hf Hg Heq.
    destruct (Hcase _ _ _ Hp Hi Hf) as [Hp' [[= -> ->]|Hep]];
    destruct (Hcase _ _ _ Hq Hj Hg) as [Hq' [[= -> ->]|Heq']]; [done| | |].
    + rewrite Heq' in *. pose proof (pt_child _ _ I _ _ _ Hq' Hj Hg). congruence.
    + rewrite Hep in *. pose proof (pt_child _ _ I _ _ _ Hp' Hi Hf). congruence.
    + rewrite Hep, Heq' in *. by apply (pt_once _ _ I _ _ l l').
  - intros p l i Hp Hi Hf. destruct (Hcase _ _ _ Hp Hi Hf) as [Hp' [[= -> ->]|He]]; [done|].
    rewrite He in *. by apply (pt_dir _ _ I _ l).
  - assert (forall q i, (q, i) <> (pt0, i0) -> forall l, T !! q = Some l -> 0 <= i < 512 -> E' q i = E q i) as HE1 by eauto.
    intros p l. destruct (decide (p = pg)) as [->|Hne].
    + rewrite lookup_insert_eq. intros [= <-]. right. exists pt0, i0. rewrite lookup_insert_ne by congruence. done.
    + rewrite lookup_insert_ne by done. intros Hp. destruct (pt_held _ _ I _ _ Hp) as [?|(q & i & Hq & Hi & Hf & He)]; [by left|right].
      exists q, i. rewrite lookup_insert_ne by congruence. rewrite (HE1 q i) with (l := S l); [done| |done|done]. intros [= -> ->]. congruence.
  - intros r a Hr. unfold view. symmetry. by apply (view_grow_aux E E' T k pt0 i0 pg).
  - intros r p Hr Hn. unfold tree in *. assert (forall n c, T !! c = Some n -> ~ in_pt E n c pt0 -> in_pt E' n c p <-> in_pt E n c p) as H.
    { induction n as [|n IH]; intros c Hc Hnc; [done|]. assert (c <> pt0) as Hne by (intros ->; apply Hnc, in_pt_self).
      cbn [in_pt]. assert (forall i, 0 <= i < 512 -> E' c i = E c i) as Ec by (intros i Hi; eapply HE; [done|done|congruence]).
      assert (forall i, 0 <= i < 512 -> flag (E c i) PTE_V = true -> in_pt E' n (PTE2PA (E c i)) p <-> in_pt E n (PTE2PA (E c i)) p) as Hi'.
      { intros i Hi Hf. apply IH; [by eapply pt_child|]. intros Hin. apply Hnc. right. by exists i. }
      split; (intros [?|(i & Hi & Hf & Hin)]; [by left|right; exists i]).
      - rewrite Ec in Hf, Hin by done. split; [done|]. split; [done|]. by apply Hi'.
      - rewrite Ec by done. split; [done|]. split; [done|]. by apply Hi'. }
    by apply H.
Qed.
End table.
