(* ===== verification/VmWalk.v ===== *)
(** * [walk] and [mappages] against the abstract page tables

    The invariant [vinv] ties the memory of the kernel to the page-table pages
    [T] and the free list [l].  [grows] is what [walk] may do to it on the way to
    an entry: take free pages for the table at [root] without changing a translation. *)

From stdpp Require Import base list gmap strings.
From S2P Require Import Prelude Riscv Mem Spinlock Kalloc Vm VmTable.

(** Entry [i] of page-table page [p] in memory [m]. *)
Definition entries (m : memory) (p i : Z) : Z := ld64 m (p + 8 * i).
Arguments entries : simpl never.

Section walk.
Context `{Layout}.

Record vinv (s : kst) (T : gmap Z nat) (l : list Z) : Prop := {
  v_k : kinv s l;
  v_pt : ptinv (entries (mem s)) T;
  v_ok : forall p k, T !! p = Some k -> page_ok p;
  v_free : forall p k, T !! p = Some k -> p ∉ l
}.

(** The address is in no page-table page and in no free page. *)
Definition outside (T : gmap Z nat) (l : list Z) (a : Z) : Prop :=
  forall p, is_Some (T !! p) \/ p ∈ l -> ~ p <= a < p + PGSIZE.

Record grows (root : Z) (s : kst) T l (s' : kst) T' l' : Prop := {
  g_inv : vinv s' T' l';
  g_sub : T ⊆ T';
  g_valid : forall q k j, T !! q = Some (S k) -> 0 <= j < 512 ->
    flag (entries (mem s) q j) PTE_V = true -> entries (mem s') q j = entries (mem s) q j;
  g_view : forall r a, T !! r = Some 2%nat ->
    view (entries (mem s')) r a = view (entries (mem s)) r a;
  g_pages : forall p, is_Some (T' !! p) \/ p ∈ l' <-> is_Some (T !! p) \/ p ∈ l;
  g_root : forall p, T' !! p = Some 2%nat -> T !! p = Some 2%nat;
  g_trees : forall r p, r <> root -> T !! r = Some 2%nat ->
    tree (entries (mem s')) r p <-> tree (entries (mem s)) r p;
  g_mem : forall a, outside T l a -> ld8 (mem s') a = ld8 (mem s) a
}.

Lemma grows_refl root s T l : vinv s T l -> grows root s T l s T l.
Proof. by split. Qed.

Lemma grows_trans root s T l s1 T1 l1 s2 T2 l2 :
  grows root s T l s1 T1 l1 -> grows root s1 T1 l1 s2 T2 l2 -> grows root s T l s2 T2 l2.
Proof.
  intros A B. split.
  - apply (g_inv _ _ _ _ _ _ _ B).
  - etrans; [apply (g_sub _ _ _ _ _ _ _ A)|apply (g_sub _ _ _ _ _ _ _ B)].
  - intros q k j Hq Hj Hv. pose proof (g_valid _ _ _ _ _ _ _ A _ _ _ Hq Hj Hv) as E.
    rewrite <- E. apply (g_valid _ _ _ _ _ _ _ B _ k); rewrite ?E; try done.
    eapply lookup_weaken; [done|]. apply (g_sub _ _ _ _ _ _ _ A).
  - intros r a Hr. rewrite (g_view _ _ _ _ _ _ _ B), (g_view _ _ _ _ _ _ _ A); try done.
    eapply lookup_weaken; [done|]. apply (g_sub _ _ _ _ _ _ _ A).
  - intros p. rewrite (g_pages _ _ _ _ _ _ _ B). apply (g_pages _ _ _ _ _ _ _ A).
  - intros p Hp. apply (g_root _ _ _ _ _ _ _ A), (g_root _ _ _ _ _ _ _ B), Hp.
  - intros r p Hne Hr. rewrite (g_trees _ _ _ _ _ _ _ B); [by apply (g_trees _ _ _ _ _ _ _ A)|done|].
    eapply lookup_weaken; [done|]. apply (g_sub _ _ _ _ _ _ _ A).
  - intros a Ha. rewrite (g_mem _ _ _ _ _ _ _ B), (g_mem _ _ _ _ _ _ _ A); try done.
    intros p Hp. apply Ha. by apply (g_pages _ _ _ _ _ _ _ A).
Qed.

(** ** Words of page-table pages *)

Lemma words_apart p q i j :
  p mod PGSIZE = 0 -> q mod PGSIZE = 0 -> 0 <= i < 512 -> 0 <= j < 512 ->
  (p, i) <> (q, j) -> p + 8 * i + 8 <= q + 8 * j \/ q + 8 * j + 8 <= p + 8 * i.
Proof.
  intros Hp Hq Hi Hj Hne. destruct (decide (p = q)) as [->|Hpq].
  - assert (i <> j) by congruence. lia.
  - destruct (pages_disjoint p q Hp Hq Hpq); unfold PGSIZE in *; lia.
Qed.

Lemma entries_store m p i v q j :
  p mod PGSIZE = 0 -> q mod PGSIZE = 0 -> 0 <= i < 512 -> 0 <= j < 512 ->
  0 <= v < 2 ^ 64 ->
  entries (st64 m (p + 8 * i) v) q j = if decide ((q, j) = (p, i)) then v else entries m q j.
Proof.
  intros Hp Hq Hi Hj Hv. unfold entries. case_decide as Hd.
  - injection Hd as -> ->. by apply ld64_st64.
  - apply ld64_st64_other. by apply words_apart.
Qed.

(** A change of memory that leaves page [q] alone leaves its entries alone. *)
Lemma entries_frame m m' q j :
  0 <= j < 512 -> (forall a, q <= a < q + PGSIZE -> ld8 m' a = ld8 m a) ->
  entries m' q j = entries m q j.
Proof.
  intros Hj Hf. apply ld64_ext. intros i Hi. apply Hf. unfold PGSIZE. lia.
Qed.

Lemma kinv_frame s s' l :
  kinv s l -> km s' = km s -> mem_ok (mem s') ->
  (forall p a, p ∈ l -> p <= a < p + PGSIZE -> ld8 (mem s') a = ld8 (mem s) a) -> kinv s' l.
Proof.
  intros [Hk Hm Hn Hl] Hkm Hm' Hf. split; rewrite ?Hkm; try done.
  eapply flist_frame; [|done]. intros p Hp. apply ld64_ext. intros i Hi.
  apply (Hf p); [done|]. unfold PGSIZE. lia.
Qed.

(** ** walk without allocation *)

(** The address [walk] returns for the place where a walk ends. *)
Definition slot (w : option (Z * Z)) : Z :=
  match w with Some (p, i) => p + 8 * i | None => 0 end.

Lemma walk_loop_noalloc k pt va s :
  walk_loop k pt va false s = Ok (slot (pwalk (entries (mem s)) k pt va)) s.
Proof.
  revert pt. induction k as [|k IH]; intros pt; cbn [walk_loop pwalk]; [done|].
  unfold load64. rewrite bind_gets. fold (entries (mem s) pt (PX (Z.of_nat (S k)) va)).
  destruct (flag _ _); [apply IH|done].
Qed.

Lemma walk_noalloc root va s :
  va < MAXVA -> walk root va false s = Ok (slot (pwalk (entries (mem s)) 2 root va)) s.
Proof. intros Hva. unfold walk. case_Z. apply walk_loop_noalloc. Qed.

Lemma slot_pos s T l k pt va p i :
  vinv s T l -> T !! pt = Some k -> pwalk (entries (mem s)) k pt va = Some (p, i) ->
  0 < p + 8 * i /\ T !! p = Some 0%nat /\ 0 <= i < 512 /\ p mod PGSIZE = 0.
Proof.
  intros I Hpt W. destruct (pwalk_typed _ _ _ _ _ _ _ (v_pt _ _ _ I) Hpt W) as [Hp ->].
  pose proof (page_ok_range p (v_ok _ _ _ I _ _ Hp)) as (? & ? & ?).
  pose proof (PX_range 0 va ltac:(lia)). repeat split; try done; lia.
Qed.

(** ** walk with allocation *)

Lemma page_ok_word p : page_ok p -> 0 <= Z.lor (PA2PTE p) PTE_V < 2 ^ 64 /\
  PTE2PA (Z.lor (PA2PTE p) PTE_V) = p /\ flag (Z.lor (PA2PTE p) PTE_V) PTE_V = true /\
  flag (Z.lor (PA2PTE p) PTE_V) (Z.lor (Z.lor PTE_R PTE_W) PTE_X) = false.
Proof.
  intros Hp. pose proof (page_ok_range p Hp) as (Ha & H0 & H1).
  unfold PHYSTOP, KERNBASE, PGSIZE in H1.
  assert (0 <= PTE_V < 1024) by (destruct pte_bits as [-> _]; lia).
  split; [apply pte_word_bound; lia|]. split; [apply PTE2PA_word; done || lia|].
  rewrite !flag_lor, !flag_PA2PTE by (cbv; done || lia). done.
Qed.

(** The state after taking page [pg] for a page table and storing its PTE. *)
Lemma grow_step root s T l1 pt k i pg s1 :
  T !! root = Some 2%nat -> tree (entries (mem s)) root pt ->
  vinv s T (pg :: l1) -> kalloc s = Ok pg s1 -> kinv s1 l1 ->
  (forall a, ~ pg <= a < pg + PGSIZE -> ld8 (mem s1) a = ld8 (mem s) a) ->
  T !! pt = Some (S k) -> 0 <= i < 512 -> flag (entries (mem s) pt i) PTE_V = false ->
  let m2 := st64 (memset (mem s1) pg 0 PGSIZE) (pt + 8 * i) (Z.lor (PA2PTE pg) PTE_V) in
  grows root s T (pg :: l1) (set_mem m2 s1) (<[pg := k]> T) l1 /\
  entries m2 pt i = Z.lor (PA2PTE pg) PTE_V.
Proof.
  intros Hroot Htree I Hkal Hk1 Hf Hpt Hi Hv m2.
  assert (page_ok pg) as Hpg.
  { pose proof (flist_pages _ _ _ (kinv_list _ _ (v_k _ _ _ I))) as Hall. by apply Forall_cons in Hall as [? _]. }
  destruct (page_ok_word pg Hpg) as (Hw & Hpa & Hfl & Hdir). destruct Hpg as [Hpga Hpgr].
  assert (T !! pg = None) as Hnew.
  { destruct (T !! pg) eqn:E; [|done]. apply (v_free _ _ _ I) in E. set_solver. }
  assert (forall q k', T !! q = Some k' -> q mod PGSIZE = 0 /\ q <> pg /\ q ∉ l1) as HT.
  { intros q k' Hq. pose proof (v_ok _ _ _ I _ _ Hq) as [? _]. split; [done|].
    pose proof (v_free _ _ _ I _ _ Hq). set_solver. }
  destruct (HT _ _ Hpt) as (Hpta & Hptn & _).
  assert (forall a, ~ pg <= a < pg + PGSIZE -> ~ pt <= a < pt + PGSIZE -> ld8 m2 a = ld8 (mem s) a) as Hm2.
  { intros a H1 H2. unfold m2. rewrite ld8_st64_other by (unfold PGSIZE in *; lia).
    rewrite ld8_memset_off_page by done. by apply Hf. }
  assert (forall q j l, T !! q = Some l -> 0 <= j < 512 -> (q, j) <> (pt, i) ->
            entries m2 q j = entries (mem s) q j) as HE.
  { intros q j l Hq Hj Hne. destruct (HT _ _ Hq) as (Hqa & Hqn & _). unfold m2.
    rewrite (entries_store _ _ _ _ _ _ Hpta Hqa Hi Hj Hw), decide_False by done.
    apply entries_frame; [done|]. intros a Ha.
    destruct (pages_disjoint q pg Hqa Hpga Hqn);
      rewrite ld8_memset_off_page, Hf by lia; done. }
  assert (entries m2 pt i = Z.lor (PA2PTE pg) PTE_V) as Hent.
  { unfold m2. by rewrite (entries_store _ _ _ _ _ _ Hpta Hpta Hi Hi Hw), decide_True. }
  assert (forall j, 0 <= j < 512 -> entries m2 pg j = 0) as Hzero.
  { intros j Hj. unfold m2.
    rewrite (entries_store _ _ _ _ _ _ Hpta Hpga Hi Hj Hw), decide_False by congruence.
    apply ld64_memset_in; unfold PGSIZE; lia. }
  assert (mem_ok m2) as Hok by (unfold m2; destruct Hk1; auto with xv6).
  clearbody m2.
  edestruct (view_grow (entries (mem s)) (entries m2) T k pt i pg) as (HI & HV & HTr);
    [apply I|exact Hpt|exact Hi|exact Hv|exact Hnew|exact HE|by rewrite Hent|by rewrite Hent|by rewrite Hent|exact Hzero|].
  split; [|done]. pose proof (kinv_nodup _ _ (v_k _ _ _ I)) as [Hpl Hnd]%NoDup_cons.
  split; cbn [set_mem mem].
  - split; cbn [set_mem mem]; [|done| |].
    + apply (kinv_frame s1); [done|done|done|]. cbn [set_mem mem]. intros p a Hp Ha.
      pose proof (flist_pages _ _ _ (kinv_list _ _ Hk1)) as Hall.
      rewrite Forall_forall in Hall. destruct (Hall p Hp) as [Hpal _].
      assert (p <> pg) as Hp1 by (intros ->; done).
      assert (p <> pt) as Hp2 by (intros ->; by destruct (HT _ _ Hpt) as (_ & _ & ?)).
      destruct (pages_disjoint p pg Hpal Hpga Hp1), (pages_disjoint p pt Hpal Hpta Hp2);
        rewrite Hm2, Hf by lia; done.
    + intros p k'. destruct (decide (p = pg)) as [->|]; [by split|].
      rewrite lookup_insert_ne by done. apply (v_ok _ _ _ I).
    + intros p k'. destruct (decide (p = pg)) as [->|]; [done|].
      rewrite lookup_insert_ne by done. intros Hp. by destruct (HT _ _ Hp) as (_ & _ & ?).
  - by apply insert_subseteq.
  - intros q k' j Hq Hj Hv'. eapply HE; [done..|]. intros [= -> ->]. congruence.
  - intros r a Hr. by apply HV.
  - intros p. destruct (decide (p = pg)) as [->|].
    + rewrite lookup_insert_eq. split; [set_solver|eauto].
    + rewrite lookup_insert_ne by done. set_solver.
  - intros p. destruct (decide (p = pg)) as [->|]; [|by rewrite lookup_insert_ne].
    rewrite lookup_insert_eq. pose proof (pt_level _ _ (v_pt _ _ _ I) _ _ Hpt). intros [= ->]. lia.
  - intros r p Hne Hr. apply HTr; [done|]. intros Hin. apply Hne. by eapply (in_pt_inj _ _ _ r root), Htree; [apply I|..].
  - intros a Ha. apply Hm2; apply Ha; [set_solver|eauto].
Qed.

(** The page hooked under a page of the table belongs to the table. *)
Lemma grows_child root s T l s' T' l' pt k i pg :
  vinv s T l -> grows root s T l s' T' l' -> T !! root = Some 2%nat -> tree (entries (mem s)) root pt ->
  T !! pt = Some (S k) -> 0 <= i < 512 -> entries (mem s') pt i = Z.lor (PA2PTE pg) PTE_V -> page_ok pg ->
  tree (entries (mem s')) root pg.
Proof.
  intros I G Hr Ht Hpt Hi He Hpg. pose proof (page_ok_word pg Hpg) as (_ & Hpa & Hfl & _).
  pose proof (g_sub _ _ _ _ _ _ _ G) as Hsub. unfold tree. rewrite <- Hpa, <- He.
  eapply in_pt_child; [apply G|by eapply lookup_weaken| |by eapply lookup_weaken|done|by rewrite He].
  eapply in_pt_mono; [apply I|exact Hr|apply (g_valid _ _ _ _ _ _ _ G)|exact Ht].
Qed.

Lemma walk_loop_alloc root k pt va s T l :
  vinv s T l -> T !! root = Some 2%nat -> tree (entries (mem s)) root pt -> T !! pt = Some k ->
  exists a s' T' l', walk_loop k pt va true s = Ok a s' /\ grows root s T l s' T' l' /\
    ((a = 0 /\ l' = [] /\ lenZ l < Z.of_nat k) \/
     (a <> 0 /\ lenZ l <= lenZ l' + Z.of_nat k /\ exists p i, pwalk (entries (mem s')) k pt va = Some (p, i) /\ a = p + 8 * i)).
Proof.
  revert pt s T l. induction k as [|k IH]; intros pt s T l I Hroot Htree Hpt; cbn [walk_loop].
  { exists (pt + 8 * PX 0 va), s, T, l. split; [done|]. split; [by apply grows_refl|]. right.
    destruct (slot_pos s T l 0 pt va pt (PX 0 va) I Hpt eq_refl) as [? _].
    split; [lia|]. split; [lia|]. by exists pt, (PX 0 va). }
  unfold load64. rewrite bind_gets.
  fold (entries (mem s) pt (PX (Z.of_nat (S k)) va)).
  destruct (flag (entries (mem s) pt (PX (Z.of_nat (S k)) va)) PTE_V) eqn:Hv.
  - pose proof (pt_child _ _ (v_pt _ _ _ I) _ _ _ Hpt (PX_nat _ _) Hv) as Hc.
    destruct (IH _ _ _ _ I Hroot (in_pt_child _ _ _ _ _ _ _ (v_pt _ _ _ I) Hroot Htree Hpt (PX_nat _ _) Hv) Hc) as (a & s' & T' & l' & H1 & G & H2).
    exists a, s', T', l'. split; [done|]. split; [done|]. destruct H2 as [(? & ? & ?)|(Ha & Hl & p & i & W & ->)]; [left; repeat split; lia || done|].
    right. split; [done|]. split; [lia|]. exists p, i. split; [|done]. cbn [pwalk].
    rewrite (g_valid _ _ _ _ _ _ _ G _ _ _ Hpt (PX_nat _ _) Hv), Hv. done.
  - destruct (kalloc_run s l (v_k _ _ _ I)) as (s1 & Hkal & Hk1 & Hf & _ & He0).
    cbn [negb]. rewrite (bind_Ok _ _ _ _ _ Hkal). destruct l as [|pg l1]; cbn [hd tail] in *.
    { rewrite He0 in * by done. exists 0, s, T, []. split; [done|]. split; [by apply grows_refl|left]. change (lenZ []) with 0. repeat split; lia. }
    assert (page_ok pg) as Hpgok.
    { pose proof (flist_pages _ _ _ (kinv_list _ _ (v_k _ _ _ I))) as Hall. by apply Forall_cons in Hall as [? _]. }
    assert (pg <> 0) as Hpg0 by (apply page_ok_range in Hpgok; lia).
    destruct (Z.eqb_spec pg 0); [done|]. unfold mem_set, store64. rewrite !bind_modify.
    edestruct (grow_step root s T l1 pt k (PX (Z.of_nat (S k)) va) pg s1) as [G1 He];
      [exact Hroot|exact Htree|exact I|exact Hkal|exact Hk1| |exact Hpt|apply PX_nat|exact Hv|].
    { intros a Ha. apply Hf. intros (q & [= ->] & ?). done. }
    cbn [set_mem mem] in *.
    pose proof (lookup_weaken _ _ _ _ Hroot (g_sub _ _ _ _ _ _ _ G1)) as Hroot1.
    pose proof (grows_child _ _ _ _ _ _ _ _ _ _ _ I G1 Hroot Htree Hpt (PX_nat _ _) He Hpgok) as Htree1.
    destruct (IH pg _ _ _ (g_inv _ _ _ _ _ _ _ G1) Hroot1 Htree1 (lookup_insert_eq _ _ _))
      as (a & s' & T' & l' & H1 & G2 & H2).
    exists a, s', T', l'. split; [done|]. split; [by eapply grows_trans|].
    rewrite lenZ_cons.
    destruct H2 as [(? & ? & ?)|(Ha & Hl & p & i & W & ->)]; [left; repeat split; lia || done|]. right. split; [done|]. split; [lia|].
    exists p, i. split; [|done]. cbn [pwalk].
    rewrite (g_valid _ _ _ _ _ _ _ G2 _ k); cbn [mem set_mem]; [|by eapply lookup_weaken, G1|apply PX_nat|];
      rewrite He; apply page_ok_word in Hpgok as (_ & Hpa & Hfl & _); [|done].
    by rewrite Hfl, Hpa.
Qed.

Lemma walk_alloc root va s T l :
  vinv s T l -> T !! root = Some 2%nat -> va < MAXVA ->
  exists a s' T' l', walk root va true s = Ok a s' /\ grows root s T l s' T' l' /\
    ((a = 0 /\ l' = [] /\ lenZ l < 2) \/
     (a <> 0 /\ lenZ l <= lenZ l' + 2 /\ exists p i, pwalk (entries (mem s')) 2 root va = Some (p, i) /\ a = p + 8 * i)).
Proof. intros I Hr Hva. unfold walk. case_Z. apply walk_loop_alloc; try done. apply in_pt_self. Qed.

(** ** What the mapping operations may change

    [evolves] forgets the translations: page-table pages stay page-table pages,
    the set of page-table and free pages stays the same, the pages of the tables
    other than the one at [root] stay the same, and no other memory is written. *)
Record evolves (root : Z) (s : kst) (T : gmap Z nat) (l : list Z) (s' : kst) T' l' : Prop := {
  e_inv : vinv s' T' l';
  e_sub : T ⊆ T';
  e_pages : forall p, is_Some (T' !! p) \/ p ∈ l' <-> is_Some (T !! p) \/ p ∈ l;
  e_root : forall p, T' !! p = Some 2%nat -> T !! p = Some 2%nat;
  e_trees : forall r p, r <> root -> T !! r = Some 2%nat ->
    tree (entries (mem s')) r p <-> tree (entries (mem s)) r p;
  e_mem : forall a, outside T l a -> ld8 (mem s') a = ld8 (mem s) a
}.

Lemma grows_evolves root s T l s' T' l' : grows root s T l s' T' l' -> evolves root s T l s' T' l'.
Proof. by intros []. Qed.

Lemma evolves_trans root s T l s1 T1 l1 s2 T2 l2 :
  evolves root s T l s1 T1 l1 -> evolves root s1 T1 l1 s2 T2 l2 -> evolves root s T l s2 T2 l2.
Proof.
  intros [A1 A2 A3 A4 A5 A6] [B1 B2 B3 B4 B5 B6]. split; [done|by etrans| |auto| |].
  - intros p. by rewrite B3.
  - intros r p Hne Hr. rewrite B5; [by apply A5|done|by eapply lookup_weaken].
  - intros a Ha. rewrite B6; [by apply A6|]. intros p Hp. apply Ha. by apply A3.
Qed.

(** Storing a leaf entry. *)
Lemma store_leaf s T l root va p i v :
  vinv s T l -> T !! root = Some 2%nat -> 0 <= va < 2 ^ 39 ->
  pwalk (entries (mem s)) 2 root va = Some (p, i) -> 0 <= v < 2 ^ 64 ->
  let s' := set_mem (st64 (mem s) (p + 8 * i) v) s in
  evolves root s T l s' T l /\
  (forall r a, T !! r = Some 2%nat -> 0 <= a < 2 ^ 39 ->
     view (entries (mem s')) r a =
       if decide (r = root /\ PGROUNDDOWN a = PGROUNDDOWN va) then v else view (entries (mem s)) r a).
Proof.
  intros I Hr Hva W Hv s'.
  destruct (slot_pos _ _ _ _ _ _ _ _ I Hr W) as (Hpos & Hp & Hi & Hpa).
  assert (forall a, ~ p <= a < p + PGSIZE -> ld8 (mem s') a = ld8 (mem s) a) as Hf.
  { intros a Ha. apply ld8_st64_other. unfold PGSIZE in *. lia. }
  assert (forall q j k, T !! q = Some k -> 0 <= j < 512 ->
    entries (mem s') q j = if decide ((q, j) = (p, i)) then v else entries (mem s) q j) as HE.
  { intros q j k Hq Hj. apply entries_store; try done. by apply (v_ok _ _ _ I _ _ Hq). }
  assert (mem_ok (mem s')) as Hok by (apply mem_ok_st64, I).
  assert (km s' = km s) as Hkm by done. clearbody s'.
  destruct (view_store (entries (mem s)) (entries (mem s')) T root va p i (v_pt _ _ _ I) Hr Hva W)
    as [HI HV].
  { intros q j k Hq Hj Hne. by rewrite (HE _ _ _ Hq Hj), decide_False. }
  split.
  - split; [|done|done|done| |].
    + split; [|done|apply I|apply I]. apply (kinv_frame s); [apply I|done|done|].
      intros q a Hq Ha. apply Hf. pose proof (flist_pages _ _ _ (kinv_list _ _ (v_k _ _ _ I))) as Hall.
      rewrite Forall_forall in Hall. destruct (Hall q Hq) as [Hqa _].
      destruct (pages_disjoint p q Hpa Hqa); [|lia|lia]. intros ->. by apply (v_free _ _ _ I q 0%nat).
    + intros r q _ Hr'. eapply tree_dirs; [apply I|done|]. intros q' j k Hq' Hj.
      rewrite (HE _ _ _ Hq' Hj), decide_False by congruence. done.
    + intros a Ha. apply Hf. apply Ha. left. by exists 0%nat.
  - assert (entries (mem s') p i = v) as <- by (by rewrite (HE _ _ _ Hp Hi), decide_True).
    exact HV.
Qed.

(** The PTE that [mappages] stores. *)
Definition map_word (pa perm : Z) : Z := Z.lor (Z.lor (PA2PTE pa) perm) PTE_V.

Lemma map_word_eq pa perm : map_word pa perm = Z.lor (PA2PTE pa) (Z.lor perm PTE_V).
Proof. unfold map_word. by rewrite Z.lor_assoc. Qed.

Lemma perm_range perm : 0 <= perm < 1024 -> 0 <= Z.lor perm PTE_V < 1024.
Proof.
  intros Hp. destruct pte_bits as [-> _]. apply (lor_bound _ _ 10); lia.
Qed.

Lemma map_word_bound pa perm :
  0 <= pa < 2 ^ 56 -> 0 <= perm < 1024 -> 0 <= map_word pa perm < 2 ^ 64.
Proof. intros. rewrite map_word_eq. apply pte_word_bound; [done|]. by apply perm_range. Qed.

Lemma map_word_valid pa perm : flag (map_word pa perm) PTE_V = true.
Proof. unfold map_word. rewrite flag_lor. apply orb_true_r. Qed.

Lemma view_walk E root va p i : pwalk E 2 root va = Some (p, i) -> view E root va = E p i.
Proof. intros W. unfold view. by rewrite W. Qed.

Lemma view_none E root va : pwalk E 2 root va = None -> view E root va = 0.
Proof. intros W. unfold view. by rewrite W. Qed.

Lemma load64_entries p i s : load64 (p + 8 * i) s = Ok (entries (mem s) p i) s.
Proof. done. Qed.

(** One page: [walk], the test for a remap, and the store. *)
Lemma map_one root va s T l pa perm :
  vinv s T l -> T !! root = Some 2%nat -> 0 <= va < MAXVA ->
  0 <= pa < 2 ^ 56 -> 0 <= perm < 1024 ->
  flag (view (entries (mem s)) root va) PTE_V = false ->
  (exists s', walk root va true s = Ok 0 s' /\ lenZ l < 2 /\ exists T', grows root s T l s' T' []) \/
  (exists pte s1 s2 T' l', walk root va true s = Ok pte s1 /\ pte <> 0 /\
     ld64 (mem s1) pte = view (entries (mem s)) root va /\
     store64 pte (map_word pa perm) s1 = Ok tt s2 /\ evolves root s T l s2 T' l' /\ lenZ l <= lenZ l' + 2 /\
     forall r a, T !! r = Some 2%nat -> 0 <= a < 2 ^ 39 ->
       view (entries (mem s2)) r a =
         if decide (r = root /\ PGROUNDDOWN a = PGROUNDDOWN va) then map_word pa perm
         else view (entries (mem s)) r a).
Proof.
  intros I Hr Hva Hpa Hperm Hinv. pose proof MAXVA_eq.
  destruct (walk_alloc root va s T l I Hr ltac:(lia)) as (a & s1 & T' & l' & W & G & [(-> & -> & ?)|Hok]).
  { left. eauto. }
  destruct Hok as (Ha & Hl & p & i & Wp & ->). right.
  assert (T' !! root = Some 2%nat) as Hr' by (eapply lookup_weaken; [done|apply G]).
  destruct (store_leaf s1 T' l' root va p i (map_word pa perm) (g_inv _ _ _ _ _ _ _ G) Hr' ltac:(lia) Wp)
    as [Ev HV]; [by apply map_word_bound|].
  eexists _, s1, _, T', l'. split; [done|]. split; [done|]. split.
  { rewrite <- (g_view _ _ _ _ _ _ _ G) by done. by rewrite (view_walk _ _ _ _ _ Wp). }
  split; [done|]. split; [eapply evolves_trans; [by apply grows_evolves|done]|]. split; [done|].
  intros r b Hrb Hb. rewrite HV; [|eapply lookup_weaken; [done|apply G]|done].
  by rewrite (g_view _ _ _ _ _ _ _ G).
Qed.

(** Pages and multiples of the page size. *)
Lemma page_index a va :
  a mod PGSIZE = 0 ->
  a <= va < a + PGSIZE <-> PGROUNDDOWN va = PGROUNDDOWN a.
Proof.
  intros Ha. pose proof (PGROUNDDOWN_bounds va). rewrite !PGROUNDDOWN_eq in *. rewrite Ha.
  rewrite Z.sub_0_r. split; [|intros; unfold PGSIZE in *; lia].
  intros Hr. apply Z.mod_divide in Ha as [k ->]; [|done].
  rewrite <- (Z.mod_unique_pos va PGSIZE k (va - k * PGSIZE)); lia.
Qed.

(** The translation of [va] after [k] pages from [a] were mapped to [pa]. *)
Definition mapped_view (V : Z -> Z -> Z) (root a pa perm k r va : Z) : Z :=
  if decide (r = root /\ a <= va < a + k * PGSIZE)
  then map_word (pa + (va - a) / PGSIZE * PGSIZE) perm else V r va.

Lemma mappages_run (n : nat) s T l root a pa perm :
  vinv s T l -> T !! root = Some 2%nat -> (0 < n)%nat ->
  a mod PGSIZE = 0 -> 0 <= a -> a + Z.of_nat n * PGSIZE <= MAXVA ->
  0 <= pa -> pa + Z.of_nat n * PGSIZE <= 2 ^ 56 -> 0 <= perm < 1024 ->
  (forall va, a <= va < a + Z.of_nat n * PGSIZE -> flag (view (entries (mem s)) root va) PTE_V = false) ->
  exists r k s' T' l',
    mappages_loop n root a (a + Z.of_nat n * PGSIZE - PGSIZE) pa perm s = Ok r s' /\
    evolves root s T l s' T' l' /\
    ((r = 0 /\ k = Z.of_nat n /\ lenZ l <= lenZ l' + 2 * Z.of_nat n) \/ (r = -1 /\ 0 <= k < Z.of_nat n /\ l' = [] /\ lenZ l < 2 * Z.of_nat n)) /\
    (forall rt va, T !! rt = Some 2%nat -> 0 <= va < 2 ^ 39 ->
       view (entries (mem s')) rt va = mapped_view (view (entries (mem s))) root a pa perm k rt va).
Proof.
  revert s T l a pa. induction n as [|n IH]; intros s T l a pa I Hr Hn Ha Ha0 Hmax Hpa0 Hpam Hperm Hfree; [lia|].
  cbn [mappages_loop].
  assert (0 <= a < MAXVA) as Hva by (unfold PGSIZE in *; lia).
  destruct (map_one root a s T l pa perm I Hr Hva ltac:(unfold PGSIZE in *; lia) Hperm)
    as [(s' & W & Hl & T' & G)|(pte & s1 & s2 & T' & l' & W & Hpte & Hld & Hst & Ev & Hl & HV)].
  { apply Hfree. unfold PGSIZE in *. lia. }
  { rewrite (bind_Ok _ _ _ _ _ W). exists (-1), 0, s', T', []. split; [done|].
    split; [by apply grows_evolves|]. split; [right; split; [done|]; split; [lia|]; split; [done|lia]|].
    intros rt va Hrt Hva'. unfold mapped_view. rewrite decide_False by lia.
    by apply (g_view _ _ _ _ _ _ _ G). }
  rewrite (bind_Ok _ _ _ _ _ W). destruct (Z.eqb_spec pte 0); [done|].
  unfold load64 at 1. rewrite bind_gets, Hld, Hfree by (unfold PGSIZE in *; lia).
  fold (map_word pa perm). rewrite (bind_Ok _ _ _ _ _ Hst).
  assert (forall rt va, T !! rt = Some 2%nat -> 0 <= va < 2 ^ 39 ->
    view (entries (mem s2)) rt va = mapped_view (view (entries (mem s))) root a pa perm 1 rt va) as HV1.
  { intros rt va Hrt Hva'. rewrite HV by done. unfold mapped_view.
    rewrite Z.mul_1_l. pose proof (page_index a va Ha) as Hpi.
    repeat case_decide; try tauto.
    rewrite (Z.div_small (va - a)) by lia. f_equal. lia. }
  destruct (Z.eqb_spec a (a + Z.of_nat (S n) * PGSIZE - PGSIZE)) as [He|Hne].
  - exists 0, 1, s2, T', l'. split; [done|]. split; [done|]. split; [|done].
    left. unfold PGSIZE in *. lia.
  - assert (0 < n)%nat as Hn' by (destruct n; [unfold PGSIZE in *; lia|lia]).
    pose proof (e_sub _ _ _ _ _ _ _ Ev) as Hsub.
    assert (forall rt, T !! rt = Some 2%nat -> T' !! rt = Some 2%nat) as Hup
      by (intros; by eapply lookup_weaken).
    pose proof MAXVA_eq. rewrite !u64_small by (unfold PGSIZE in *; lia).
    replace (a + Z.of_nat (S n) * PGSIZE - PGSIZE) with (a + PGSIZE + Z.of_nat n * PGSIZE - PGSIZE) by lia.
    destruct (IH s2 T' l' (a + PGSIZE) (pa + PGSIZE)) as (r & k & s' & T'' & l'' & Hrun & Ev' & Hcase & HV');
      try (unfold PGSIZE in *; lia); [apply Ev|by apply Hup| | |].
    + rewrite <- Ha. by rewrite <- (Z_mod_plus_full a 1 PGSIZE).
    + intros va Hv. rewrite HV1 by (done || (unfold PGSIZE in *; lia)). unfold mapped_view.
      rewrite decide_False by lia. apply Hfree. unfold PGSIZE in *. lia.
    + exists r, (k + 1), s', T'', l''. split; [done|]. split; [by eapply evolves_trans|].
      split; [destruct Hcase as [(-> & -> & ?)|(-> & Hk & -> & ?)]; [left|right]; repeat split; lia || done|].
      intros rt va Hrt Hv. rewrite HV' by auto. unfold mapped_view at 1.
      rewrite HV1 by done. unfold mapped_view.
      repeat case_decide; try (exfalso; unfold PGSIZE in *; lia); try done.
      f_equal. replace (va - a) with (va - (a + PGSIZE) + 1 * PGSIZE) by lia.
      rewrite Z.div_add by done. lia.
Qed.

(** ** walkaddr *)

Lemma walkaddr_view root va s T l :
  vinv s T l -> T !! root = Some 2%nat -> 0 <= va ->
  walkaddr root va s =
    Ok (let e := view (entries (mem s)) root va in
        if (va <? MAXVA) && flag e PTE_V && flag e PTE_U then PTE2PA e else 0) s.
Proof.
  intros I Hr Hva. unfold walkaddr. rewrite Z.geb_leb, Z.leb_antisym.
  destruct (Z.ltb_spec va MAXVA); cbn [negb andb]; [|done].
  rewrite (bind_Ok _ _ _ _ _ (walk_noalloc root va s ltac:(done))).
  destruct (pwalk (entries (mem s)) 2 root va) as [[p i]|] eqn:W; cbn [slot].
  - rewrite (view_walk _ _ _ _ _ W). destruct (slot_pos _ _ _ _ _ _ _ _ I Hr W) as [Hp _].
    destruct (Z.eqb_spec (p + 8 * i) 0); [lia|].
    rewrite (bind_Ok _ _ _ _ _ (load64_entries p i s)).
    by destruct (flag _ PTE_V), (flag _ PTE_U).
  - by rewrite (view_none _ _ _ W).
Qed.

(** ** Theorems *)

(** [walk] without allocation changes nothing and returns the address of
    the entry at which the Sv39 translation of [va] ends (0 if an upper level is
    not mapped).  With allocation it either runs out of memory, or returns that
    address after taking page-table pages from the free list; in both cases
    no translation of any address in any page table changes, and no memory
    outside page tables and free pages is written.  At or above [MAXVA] it
    panics. *)
Theorem walk_preserves_translations (s : kst) (T : gmap Z nat) (l : list Z) (root va : Z) :
  vinv s T l -> T !! root = Some 2%nat -> 0 <= va ->
  (va < MAXVA ->
     walk root va false s = Ok (slot (pwalk (entries (mem s)) 2 root va)) s /\
     exists a s' T' l', walk root va true s = Ok a s' /\ vinv s' T' l' /\
       (forall r v, T !! r = Some 2%nat ->
          view (entries (mem s')) r v = view (entries (mem s)) r v) /\
       (forall b, outside T l b -> ld8 (mem s') b = ld8 (mem s) b) /\
       ((a = 0 /\ l' = []) \/
        (a <> 0 /\ a = slot (pwalk (entries (mem s')) 2 root va) /\
         ld64 (mem s') a = view (entries (mem s)) root va))) /\
  (MAXVA <= va -> forall alloc, walk root va alloc s = Panic "walk").
Proof.
  intros I Hr Hva. split.
  - intros Hlt. split; [by apply walk_noalloc|].
    destruct (walk_alloc root va s T l I Hr Hlt) as (a & s' & T' & l' & W & G & Hc).
    exists a, s', T', l'. split; [done|]. split; [apply G|].
    split; [apply (g_view _ _ _ _ _ _ _ G)|]. split; [apply (g_mem _ _ _ _ _ _ _ G)|].
    destruct Hc as [(-> & -> & _)|(Ha & _ & p & i & Wp & ->)]; [by left|]. right. split; [done|].
    rewrite Wp. split; [done|]. rewrite <- (g_view _ _ _ _ _ _ _ G) by done.
    by rewrite (view_walk _ _ _ _ _ Wp).
  - intros Hge alloc. unfold walk. by case_Z.
Qed.

(** C6: [mappages] on an unmapped, page-aligned range below [MAXVA] either
    maps the whole range, page after page, to the physical range and returns 0,
    or runs out of free pages and returns -1 with a prefix of the range mapped, for
    which fewer than two pages were free for each page of the range;
    it changes no other translation and writes only page tables and free
    pages.  After success [walkaddr] finds the physical page of every user page
    of the range. *)
Theorem mappages_maps (s : kst) (T : gmap Z nat) (l : list Z) (root va size pa perm : Z) :
  vinv s T l -> T !! root = Some 2%nat ->
  va mod PGSIZE = 0 -> size mod PGSIZE = 0 -> 0 <= va -> 0 < size -> va + size <= MAXVA ->
  pa mod PGSIZE = 0 -> 0 <= pa -> pa + size <= 2 ^ 56 -> 0 <= perm < 1024 ->
  (forall a, va <= a < va + size -> flag (view (entries (mem s)) root a) PTE_V = false) ->
  exists r k s' T' l', mappages root va size pa perm s = Ok r s' /\ evolves root s T l s' T' l' /\
    ((r = 0 /\ k * PGSIZE = size) \/ (r = -1 /\ 0 <= k * PGSIZE < size /\ l' = [] /\ lenZ l * PGSIZE < 2 * size)) /\
    (forall rt a, T !! rt = Some 2%nat -> 0 <= a < 2 ^ 39 ->
       view (entries (mem s')) rt a = mapped_view (view (entries (mem s))) root va pa perm k rt a) /\
    (r = 0 -> flag perm PTE_U = true -> forall a, va <= a < va + size -> a mod PGSIZE = 0 ->
       walkaddr root a s' = Ok (pa + (a - va)) s').
Proof.
  intros I Hr Ha Hs Ha0 Hs0 Hmax Hpa Hpa0 Hpm Hperm Hfree.
  pose proof MAXVA_eq as HM. apply Z.mod_divide in Hs as [n ->]; [|done].
  assert (0 < n) as Hn by (unfold PGSIZE in *; lia).
  destruct (mappages_run (Z.to_nat n) s T l root va pa perm I Hr) as
    (r & k & s' & T' & l' & Hrun & Ev & Hcase & HV);
    rewrite ?Z2Nat.id in * by lia; try done; try lia.
  exists r, k, s', T', l'. split; [|split; [done|split]].
  - unfold mappages. rewrite Ha, Z_mod_mult, Z.div_mul by done. cbn [Z.eqb negb].
    destruct (Z.eqb_spec (n * PGSIZE) 0); [unfold PGSIZE in *; lia|].
    by rewrite u64_small by (unfold PGSIZE in *; lia).
  - destruct Hcase as [(-> & -> & _)|(-> & Hk & -> & Hl)]; [by left|right]. unfold PGSIZE. lia || (repeat split; lia || done).
  - split; [done|]. intros -> HU a Har Haa. destruct Hcase as [(_ & -> & _)|]; [|lia].
    assert (T' !! root = Some 2%nat) as Hr' by (eapply lookup_weaken; [done|apply Ev]).
    rewrite (walkaddr_view root a s' T' l') by (apply Ev || done || lia). cbv zeta.
    rewrite (HV root a Hr ltac:(lia)). unfold mapped_view. rewrite decide_True by done.
    rewrite map_word_valid. destruct (Z.ltb_spec a MAXVA); [|lia]. cbn [andb].
    assert ((a - va) / PGSIZE * PGSIZE = a - va) as Hdiv.
    { apply Z.mod_divide in Haa as [i ->]; [|done]. apply Z.mod_divide in Ha as [j ->]; [|done].
      rewrite <- Z.mul_sub_distr_r, Z.div_mul by done. done. }
    rewrite Hdiv, map_word_eq. rewrite !flag_lor, HU, orb_true_r. cbn [orb].
    rewrite PTE2PA_word; [done| |unfold PGSIZE in *; lia|by apply perm_range].
    rewrite Z.add_mod, Hpa by done. apply Z.mod_divide in Haa as [i ->]; [|done].
    apply Z.mod_divide in Ha as [j ->]; [|done]. rewrite <- Z.mul_sub_distr_r, Z_mod_mult. done.
Qed.
End walk.
