(* ===== verification/VmUser.v ===== *)
(** * User address spaces

    [uspace] is the invariant of a user page table: the pages of the process,
    from address 0 up, are pages of the allocator that are neither free nor
    page-table pages and are mapped once.  The file shows what the functions of
    [vm.c] that grow, shrink, copy and free an address space do to it. *)

From stdpp Require Import base list gmap strings.
From S2P Require Import Prelude Riscv Mem Spinlock Kalloc Vm VmTable VmWalk.

Section user.
Context `{Layout}.

(** A change of memory outside the page-table pages keeps the translations. *)
Lemma vinv_frame s s' T l l' :
  vinv s T l -> kinv s' l' -> (forall p k, T !! p = Some k -> p ∉ l') ->
  (forall p k a, T !! p = Some k -> p <= a < p + PGSIZE -> ld8 (mem s') a = ld8 (mem s) a) ->
  vinv s' T l' /\
  (forall r a, T !! r = Some 2%nat -> view (entries (mem s')) r a = view (entries (mem s)) r a) /\
  (forall r p, T !! r = Some 2%nat -> tree (entries (mem s')) r p <-> tree (entries (mem s)) r p).
Proof.
  intros I K Hl Hf.
  assert (forall q j k, T !! q = Some k -> 0 <= j < 512 -> entries (mem s') q j = entries (mem s) q j) as HE.
  { intros q j k Hq Hj. apply entries_frame; eauto. }
  split; [split; [done| |apply I|done]|split].
  - eapply ptinv_ext; [apply I|]. intros. eapply HE; eauto.
  - intros r a Hr. unfold view. rewrite (pwalk_ext (entries (mem s)) (entries (mem s')) T 2 r a);
      [|apply I|done|intros; eapply HE; eauto].
    destruct (pwalk _ _ _ _) as [[p i]|] eqn:W; [|done].
    destruct (pwalk_typed _ _ _ _ _ _ _ (v_pt _ _ _ I) Hr W) as [Hp ->].
    eapply HE; [done|]. apply (PX_nat 0).
  - intros r p Hr. apply (tree_dirs _ _ T); [apply I|done|]. intros. by eapply HE.
Qed.

Lemma free_page s T l p : vinv s T l -> p ∈ l -> page_ok p /\ T !! p = None.
Proof.
  intros I Hp. split.
  - pose proof (flist_pages _ _ _ (kinv_list _ _ (v_k _ _ _ I))) as Hall.
    rewrite Forall_forall in Hall. by apply Hall.
  - destruct (T !! p) eqn:E; [|done]. by apply (v_free _ _ _ I) in E.
Qed.

(** Two different pages of the allocator share no byte. *)
Lemma off_page p q a :
  page_ok p -> page_ok q -> p <> q -> p <= a < p + PGSIZE -> ~ q <= a < q + PGSIZE.
Proof. intros [Hp _] [Hq _] Hne Ha. destruct (pages_disjoint p q Hp Hq Hne); lia. Qed.

Lemma vinv_kfree s T l p :
  vinv s T l -> page_ok p -> p ∉ l -> T !! p = None ->
  exists s', kfree p s = Ok tt s' /\ vinv s' T (p :: l) /\
    (forall r a, T !! r = Some 2%nat -> view (entries (mem s')) r a = view (entries (mem s)) r a) /\
    (forall a, ~ p <= a < p + PGSIZE -> ld8 (mem s') a = ld8 (mem s) a) /\
    (forall r q, T !! r = Some 2%nat -> tree (entries (mem s')) r q <-> tree (entries (mem s)) r q).
Proof.
  intros I Hp Hl HT. destruct (kfree_run s l p (v_k _ _ _ I) Hp Hl) as (s' & Hk & K & Hf).
  exists s'. split; [done|].
  destruct (vinv_frame s s' T l (p :: l) I K) as (I' & HV & HT'); [| |done].
  - intros q k Hq. pose proof (v_free _ _ _ I _ _ Hq). intros [->|?]%elem_of_cons; congruence.
  - intros q k a Hq Ha. apply Hf. apply (off_page q p); [by eapply v_ok|done| |done]. congruence.
Qed.

Lemma vinv_kalloc s T l :
  vinv s T l ->
  exists s', kalloc s = Ok (hd 0 l) s' /\ vinv s' T (tail l) /\
    (forall r a, T !! r = Some 2%nat -> view (entries (mem s')) r a = view (entries (mem s)) r a) /\
    (forall a, ~ (exists p, head l = Some p /\ p <= a < p + PGSIZE) -> ld8 (mem s') a = ld8 (mem s) a) /\
    (l = [] -> s' = s) /\
    (forall r q, T !! r = Some 2%nat -> tree (entries (mem s')) r q <-> tree (entries (mem s)) r q).
Proof.
  intros I. destruct (kalloc_run s l (v_k _ _ _ I)) as (s' & Hk & K & Hf & _ & He).
  exists s'. split; [done|].
  destruct (vinv_frame s s' T l (tail l) I K) as (I' & HV & HT'); [| |done].
  - intros q k Hq. pose proof (v_free _ _ _ I _ _ Hq). destruct l; [done|]. set_solver.
  - intros q k a Hq Ha. apply Hf. intros (p & Hp & Hpa).
    assert (p ∈ l) as Hin by (destruct l; [done|]; injection Hp as ->; set_solver).
    destruct (free_page _ _ _ _ I Hin). revert Hpa.
    apply (off_page q p); [by eapply v_ok|done| |done]. congruence.
Qed.

(** ** Mapped ranges *)

Definition leaf (e : Z) : Prop := flag e PTE_V = true /\ PTE_FLAGS e <> PTE_V.

(** The pages from [a] up are mapped by leaf entries to the pages [P]. *)
Fixpoint maps (V : Z -> Z) (a : Z) (P : list Z) : Prop :=
  match P with
  | [] => True
  | p :: P' => leaf (V a) /\ PTE2PA (V a) = p /\ maps V (a + PGSIZE) P'
  end.

Lemma maps_ext V V' a P :
  (forall va, a <= va < a + lenZ P * PGSIZE -> V' va = V va) -> maps V a P -> maps V' a P.
Proof.
  revert a. induction P as [|p P IH]; intros a Hv; cbn; [done|]. rewrite lenZ_cons in Hv.
  pose proof (lenZ_nonneg P). intros (HL & HP & HM).
  rewrite Hv by (unfold PGSIZE in *; lia). split; [done|]. split; [done|].
  apply IH; [|done]. intros va Hva. apply Hv. unfold PGSIZE in *. lia.
Qed.

Lemma maps_app V a P Q : maps V a (P ++ Q) <-> maps V a P /\ maps V (a + lenZ P * PGSIZE) Q.
Proof.
  revert a. induction P as [|p P IH]; intros a; cbn [maps app].
  - change (lenZ (@nil Z)) with 0. rewrite Z.mul_0_l, Z.add_0_r. tauto.
  - rewrite IH, lenZ_cons. replace (a + PGSIZE + lenZ P * PGSIZE) with (a + (lenZ P + 1) * PGSIZE) by lia.
    tauto.
Qed.

Lemma maps_lookup V a P (j : nat) p :
  maps V a P -> P !! j = Some p ->
  leaf (V (a + Z.of_nat j * PGSIZE)) /\ PTE2PA (V (a + Z.of_nat j * PGSIZE)) = p.
Proof.
  revert a j. induction P as [|q P IH]; intros a j; [done|]. cbn [maps]. intros (HL & HP & HM) Hj.
  destruct j as [|j]; cbn in Hj.
  - injection Hj as ->. by rewrite Z.mul_0_l, Z.add_0_r.
  - destruct (IH _ _ HM Hj) as [H1 H2].
    replace (a + Z.of_nat (S j) * PGSIZE) with (a + PGSIZE + Z.of_nat j * PGSIZE) by lia. done.
Qed.

(** Pages of the allocator that are neither free nor page-table pages. *)
Definition owned (T : gmap Z nat) (l P : list Z) : Prop :=
  NoDup P /\ Forall (fun p => page_ok p /\ p ∉ l /\ T !! p = None) P.

(** ** uvmunmap *)

Definition unmapped_view (V : Z -> Z -> Z) (root a n r va : Z) : Z :=
  if decide (r = root /\ a <= va < a + n * PGSIZE) then 0 else V r va.

(** Unmapping one page, and freeing it if [do_free]. *)
Lemma unmap_one s T l root a p (do_free : bool) :
  vinv s T l -> T !! root = Some 2%nat -> a mod PGSIZE = 0 -> 0 <= a < MAXVA ->
  leaf (view (entries (mem s)) root a) -> PTE2PA (view (entries (mem s)) root a) = p ->
  (do_free = true -> page_ok p /\ p ∉ l /\ T !! p = None) ->
  exists q i s1 s2, pwalk (entries (mem s)) 2 root a = Some (q, i) /\ 0 < q + 8 * i /\
    (if do_free then kfree p else return tt) s = Ok tt s1 /\
    store64 (q + 8 * i) 0 s1 = Ok tt s2 /\
    vinv s2 T (if do_free then p :: l else l) /\
    (forall r va, T !! r = Some 2%nat -> 0 <= va < 2 ^ 39 ->
       view (entries (mem s2)) r va = unmapped_view (view (entries (mem s))) root a 1 r va) /\
    (forall x, outside T (if do_free then p :: l else l) x -> ld8 (mem s2) x = ld8 (mem s) x) /\
    (forall q j k, T !! q = Some (S k) -> 0 <= j < 512 -> entries (mem s2) q j = entries (mem s) q j).
Proof.
  intros I Hr Ha Hva [HV Hfl] Hp Hfree. pose proof MAXVA_eq.
  destruct (pwalk (entries (mem s)) 2 root a) as [[q i]|] eqn:W;
    [|by rewrite (view_none _ _ _ W) in HV].
  destruct (slot_pos _ _ _ _ _ _ _ _ I Hr W) as (Hpos & Hq & Hi & Hqa).
  assert (exists s1, (if do_free then kfree p else return tt) s = Ok tt s1 /\
    vinv s1 T (if do_free then p :: l else l) /\
    (forall q j k, T !! q = Some k -> 0 <= j < 512 -> entries (mem s1) q j = entries (mem s) q j) /\
    (forall x, outside T (if do_free then p :: l else l) x -> ld8 (mem s1) x = ld8 (mem s) x))
    as (s1 & H1 & I1 & HE1 & F1).
  { destruct do_free; [|by exists s]. destruct Hfree as (Hok & Hnl & HnT); [done|].
    destruct (vinv_kfree s T l p I Hok Hnl HnT) as (s1 & H1 & I1 & _ & F1 & _).
    exists s1. split; [done|]. split; [done|]. split.
    - intros q' j k Hq' Hj. apply entries_frame; [done|]. intros x Hx. apply F1.
      apply (off_page q' p); [by eapply v_ok|done|congruence|done].
    - intros x Hx. apply F1. apply Hx. right. set_solver. }
  assert (pwalk (entries (mem s1)) 2 root a = Some (q, i)) as W1.
  { rewrite (pwalk_ext (entries (mem s)) _ T); [done|apply I|done|eauto]. }
  destruct (store_leaf s1 T _ root a q i 0 I1 Hr ltac:(lia) W1 ltac:(lia)) as [Ev HV'].
  eexists q, i, s1, _. do 3 (split; [done|]). split; [reflexivity|].
  split; [apply Ev|]. split.
  - intros r va Hr' Hva'. rewrite HV' by done. unfold unmapped_view. rewrite Z.mul_1_l.
    pose proof (page_index a va Ha) as Hpi.
    rewrite (decide_ext _ (r = root /\ a <= va < a + PGSIZE)) by tauto.
    case_decide; [done|]. unfold view.
    rewrite (pwalk_ext (entries (mem s)) (entries (mem s1)) T 2 r va) by (apply I || eauto).
    destruct (pwalk _ _ _ va) as [[q' i']|] eqn:W'; [|done].
    destruct (pwalk_typed _ _ _ _ _ _ _ (v_pt _ _ _ I) Hr' W') as [? ->].
    eapply HE1; [done|]. apply (PX_nat 0).
  - split; [intros x Hx; rewrite (e_mem _ _ _ _ _ _ _ Ev) by done; by apply F1|].
    intros q' j k Hq' Hj. rewrite <- (HE1 q' j _ Hq' Hj). cbn.
    rewrite entries_store by (done || lia || apply (v_ok _ _ _ I _ _ Hq')).
    rewrite decide_False; [done|]. intros [= -> ->]. congruence.
Qed.

Lemma aligned_next a : a mod PGSIZE = 0 -> (a + PGSIZE) mod PGSIZE = 0.
Proof. intros <-. by rewrite <- (Z_mod_plus_full a 1 PGSIZE). Qed.

Lemma owned_cons T l p P :
  owned T l (p :: P) -> (page_ok p /\ p ∉ l /\ T !! p = None) /\ p ∉ P /\ owned T (p :: l) P.
Proof.
  intros [[Hn HN]%NoDup_cons [Hp HP]%Forall_cons]. split; [done|]. split; [done|].
  split; [done|]. rewrite Forall_forall in *. intros q Hq. destruct (HP q Hq) as (? & ? & ?).
  split; [done|]. split; [|done]. intros [->|?]%elem_of_cons; done.
Qed.

Lemma uvmunmap_run P s T l root a (do_free : bool) :
  vinv s T l -> T !! root = Some 2%nat -> a mod PGSIZE = 0 -> 0 <= a ->
  a + lenZ P * PGSIZE <= MAXVA ->
  maps (view (entries (mem s)) root) a P -> (do_free = true -> owned T l P) ->
  let l' := if do_free then rev P ++ l else l in
  exists s', uvmunmap_loop (length P) root a (a + lenZ P * PGSIZE) do_free s = Ok tt s' /\
    vinv s' T l' /\
    (forall r va, T !! r = Some 2%nat -> 0 <= va < 2 ^ 39 ->
       view (entries (mem s')) r va = unmapped_view (view (entries (mem s))) root a (lenZ P) r va) /\
    (forall x, outside T l' x -> ld8 (mem s') x = ld8 (mem s) x) /\
    (forall q j k, T !! q = Some (S k) -> 0 <= j < 512 -> entries (mem s') q j = entries (mem s) q j).
Proof.
  cbv zeta. pose proof MAXVA_eq as HMAX.
  revert s l a. induction P as [|p P IH]; intros s l a I Hr Ha Ha0 Hmax HM Hown.
  { exists s. cbn [uvmunmap_loop length rev app]. change (lenZ (@nil Z)) with 0.
    rewrite Z.mul_0_l, Z.add_0_r, Z.ltb_irrefl. split; [done|]. split; [by destruct do_free|].
    split; [|done]. intros r va _ _. unfold unmapped_view. by rewrite decide_False by lia. }
  rewrite lenZ_cons in *. pose proof (lenZ_nonneg P). destruct HM as (HL & Hp & HM).
  destruct (unmap_one s T l root a p do_free I Hr Ha) as
    (q & i & s1 & s2 & W & Hpos & H1 & H2 & I2 & V2 & F2 & E2); [unfold PGSIZE in *; lia|done|done| |].
  { intros Ht. by destruct (owned_cons _ _ _ _ (Hown Ht)) as [? _]. }
  destruct (IH s2 (if do_free then p :: l else l) (a + PGSIZE)) as (s' & Hrun & I' & V' & F' & E');
    [done|done|by apply aligned_next|unfold PGSIZE in *; lia|unfold PGSIZE in *; lia| | |].
  { revert HM. apply maps_ext. intros va Hva. rewrite V2 by (done || unfold PGSIZE in *; lia).
    unfold unmapped_view. rewrite decide_False by lia. done. }
  { intros ->. by apply owned_cons, Hown. }
  exists s'. split.
  - cbn [uvmunmap_loop length]. destruct (Z.ltb_spec a (a + (lenZ P + 1) * PGSIZE)); [|unfold PGSIZE in *; lia].
    rewrite (bind_Ok _ _ _ _ _ (walk_noalloc root a s ltac:(unfold PGSIZE in *; lia))).
    rewrite W. cbn [slot]. destruct (Z.eqb_spec (q + 8 * i) 0); [lia|].
    rewrite (bind_Ok _ _ _ _ _ (load64_entries q i s)). rewrite (view_walk _ _ _ _ _ W) in HL, Hp.
    destruct HL as [HV Hfl]. rewrite HV, (proj2 (Z.eqb_neq _ _) Hfl), Hp. cbn [negb].
    rewrite (bind_Ok _ _ _ _ _ H1), (bind_Ok _ _ _ _ _ H2). rewrite u64_small by (unfold PGSIZE in *; lia).
    replace (a + (lenZ P + 1) * PGSIZE) with (a + PGSIZE + lenZ P * PGSIZE) by lia. exact Hrun.
  - assert ((if do_free then rev (p :: P) ++ l else l) =
      (if do_free then rev P ++ (if do_free then p :: l else l) else (if do_free then p :: l else l))) as ->.
    { destruct do_free; [|done]. cbn [rev]. by rewrite <- app_assoc. }
    split; [done|]. split.
    + intros r va Hr' Hva. rewrite V' by done. unfold unmapped_view at 1. rewrite V2 by done. unfold unmapped_view.
      repeat case_decide; try done; unfold PGSIZE in *; lia.
    + split; [|intros q' j k Hq' Hj; by rewrite (E' _ _ _ Hq' Hj), (E2 _ _ _ Hq' Hj)].
      intros x Hx. rewrite F' by done. apply F2. intros y Hy. apply Hx.
      destruct Hy as [Hy|Hy]; [by left|right]. destruct do_free; [|done].
      apply elem_of_app. by right.
Qed.

(** ** The invariant of a user address space *)

Record uspace (s : kst) (T : gmap Z nat) (l : list Z) (root : Z) (P : list Z) : Prop := {
  us_inv : vinv s T l;
  us_root : T !! root = Some 2%nat;
  us_maps : maps (view (entries (mem s)) root) 0 P;
  us_owned : owned T l P;
  us_size : lenZ P * PGSIZE <= TRAPFRAME;
  us_free : forall va, lenZ P * PGSIZE <= va < TRAPFRAME ->
    flag (view (entries (mem s)) root va) PTE_V = false;
  us_top : forall va, TRAPFRAME <= va < MAXVA -> flag (view (entries (mem s)) root va) PTE_U = false
}.

Lemma TRAPFRAME_eq : TRAPFRAME = 2 ^ 38 - 2 * 4096.
Proof. unfold TRAPFRAME, TRAMPOLINE. rewrite MAXVA_eq. done. Qed.

Lemma owned_app T l P Q : owned T l (P ++ Q) <-> owned T l P /\ owned T l Q /\ (forall p, p ∈ P -> p ∉ Q).
Proof. unfold owned. rewrite NoDup_app, Forall_app. tauto. Qed.

(** Giving the pages [Q] back to the free list. *)
Lemma owned_free T l P Q : owned T l (P ++ Q) -> owned T (rev Q ++ l) P.
Proof.
  intros ([HN HP] & _ & Hd)%owned_app. split; [done|]. rewrite Forall_forall in *.
  intros p Hp. destruct (HP p Hp) as (? & ? & ?). split; [done|]. split; [|done].
  intros [Hq|?]%elem_of_app; [|done]. apply (Hd p Hp). apply list_elem_of_In, in_rev. by apply list_elem_of_In.
Qed.

(** [uvmdealloc] from [P ++ Q] to [P]. *)
Lemma shrink_run s T l root P Q oldsz newsz :
  uspace s T l root (P ++ Q) ->
  0 <= newsz < oldsz -> PGROUNDUP oldsz = lenZ (P ++ Q) * PGSIZE -> PGROUNDUP newsz = lenZ P * PGSIZE ->
  lenZ Q < 2 ^ 31 ->
  exists s', uvmdealloc root oldsz newsz s = Ok newsz s' /\ uspace s' T (rev Q ++ l) root P /\
    (forall r va, T !! r = Some 2%nat -> 0 <= va < 2 ^ 39 ->
       view (entries (mem s')) r va =
       unmapped_view (view (entries (mem s))) root (lenZ P * PGSIZE) (lenZ Q) r va) /\
    (forall x, outside T (rev Q ++ l) x -> ld8 (mem s') x = ld8 (mem s) x) /\
    (forall r p, T !! r = Some 2%nat -> tree (entries (mem s')) r p <-> tree (entries (mem s)) r p).
Proof.
  intros U Hsz Hold Hnew Hlen. pose proof (us_maps _ _ _ _ _ U) as [HMP HMQ]%maps_app.
  pose proof (us_size _ _ _ _ _ U) as Hs. rewrite lenZ_app in *. rewrite Z.add_0_l in HMQ.
  pose proof TRAPFRAME_eq. pose proof MAXVA_eq. pose proof (lenZ_nonneg P). pose proof (lenZ_nonneg Q).
  destruct (uvmunmap_run Q s T l root (lenZ P * PGSIZE) true) as (s' & Hrun & I' & V' & F' & E');
    [apply U|apply U|apply Z_mod_mult|unfold PGSIZE in *; lia|unfold PGSIZE in *; lia|done| |].
  { intros _. by destruct (proj1 (owned_app _ _ _ _) (us_owned _ _ _ _ _ U)) as (_ & ? & _). }
  exists s'. split; [|split; [|split; [done|split; [done|]]]].
  - unfold uvmdealloc. destruct (Z.geb_spec newsz oldsz); [lia|]. rewrite Hold, Hnew.
    destruct (Z.ltb_spec (lenZ P * PGSIZE) ((lenZ P + lenZ Q) * PGSIZE)).
    + replace ((lenZ P + lenZ Q) * PGSIZE - lenZ P * PGSIZE) with (lenZ Q * PGSIZE) by lia.
      rewrite Z.div_mul, s32_small by (done || lia).
      unfold uvmunmap. rewrite Z_mod_mult. cbn [Z.eqb negb].
      rewrite !u64_small by (unfold PGSIZE in *; lia). unfold lenZ at 1. rewrite Nat2Z.id.
      by rewrite (bind_Ok _ _ _ _ _ Hrun).
    + assert (Q = []) as -> by (destruct Q; [done|]; unfold lenZ, PGSIZE in *; cbn in *; lia).
      rewrite bind_ret. cbn [length uvmunmap_loop] in Hrun. change (lenZ (@nil Z)) with 0 in Hrun.
      rewrite Z.mul_0_l, Z.add_0_r, Z.ltb_irrefl in Hrun. by injection Hrun as ->.
  - split; [done|apply U| | | | |].
    + revert HMP. apply maps_ext. intros va Hva. rewrite V' by (apply U || unfold PGSIZE in *; lia).
      unfold unmapped_view. rewrite decide_False by lia. done.
    + apply owned_free, U.
    + unfold PGSIZE in *; lia.
    + intros va Hva. rewrite V' by (apply U || unfold PGSIZE in *; lia). unfold unmapped_view.
      case_decide; [done|]. apply (us_free _ _ _ _ _ U). rewrite lenZ_app. unfold PGSIZE in *; lia.
    + intros va Hva. rewrite V' by (apply U || unfold PGSIZE in *; lia). unfold unmapped_view.
      case_decide; [done|]. by apply (us_top _ _ _ _ _ U).
  - intros r p Hr. apply (tree_dirs _ _ T); [apply U|done|done].
Qed.

(** ** Growing *)

(** From a state to a later one: page-table pages stay, the pages [Q] and the
    new page-table pages come from the free list, no page is lost, the tables other
    than the one at [root] keep their pages, and nothing but page tables, free pages
    and [Q] is written. *)
Record moves (root : Z) (s : kst) (T : gmap Z nat) (l : list Z) (s' : kst) T' (l' Q : list Z) : Prop := {
  mv_sub : T ⊆ T';
  mv_root : forall p, T' !! p = Some 2%nat -> T !! p = Some 2%nat;
  mv_pages : forall p, is_Some (T' !! p) \/ p ∈ l' \/ p ∈ Q <-> is_Some (T !! p) \/ p ∈ l;
  mv_trees : forall r p, r <> root -> T !! r = Some 2%nat ->
    tree (entries (mem s')) r p <-> tree (entries (mem s)) r p;
  mv_mem : forall a, outside T l a -> ld8 (mem s') a = ld8 (mem s) a
}.

Lemma moves_refl root s T l : moves root s T l s T l [].
Proof. split; [done|done| |done|done]. intros p. set_solver. Qed.

Lemma moves_trans root s T l s1 T1 l1 Q1 s2 T2 l2 Q2 :
  moves root s T l s1 T1 l1 Q1 -> moves root s1 T1 l1 s2 T2 l2 Q2 -> moves root s T l s2 T2 l2 (Q1 ++ Q2).
Proof.
  intros [A1 A2 A3 A5 A4] [B1 B2 B3 B5 B4]. split; [by etrans|auto| | |].
  - intros p. rewrite <- A3, elem_of_app.
    transitivity ((is_Some (T1 !! p) \/ p ∈ l1) \/ p ∈ Q1); [rewrite <- B3; clear; tauto|clear; tauto].
  - intros r p Hne Hr. rewrite B5; [by apply A5|done|by eapply lookup_weaken].
  - intros x Hx. rewrite B4; [by apply A4|]. intros p Hp. apply Hx. apply A3. tauto.
Qed.

(** Putting the pages [Q] back into the free list. *)
Lemma moves_undo root s T l s1 T1 l1 Q s2 :
  moves root s T l s1 T1 l1 Q -> (forall x, outside T1 (rev Q ++ l1) x -> ld8 (mem s2) x = ld8 (mem s1) x) ->
  (forall r p, T1 !! r = Some 2%nat -> tree (entries (mem s2)) r p <-> tree (entries (mem s1)) r p) ->
  moves root s T l s2 T1 (rev Q ++ l1) [].
Proof.
  intros [A1 A2 A3 A5 A4] Hm Ht.
  assert (forall p, p ∈ rev Q ++ l1 <-> p ∈ l1 \/ p ∈ Q) as Hrev.
  { intros p. rewrite elem_of_app, !list_elem_of_In, <- in_rev. tauto. }
  split; [done|done| | |].
  - intros p. rewrite Hrev, <- A3. set_solver.
  - intros r p Hne Hr. rewrite Ht by (by eapply lookup_weaken). by apply A5.
  - intros x Hx. rewrite Hm; [by apply A4|]. intros p Hp. apply Hx. apply A3. rewrite Hrev in Hp. tauto.
Qed.

Lemma evolves_moves root s T l s' T' l' : evolves root s T l s' T' l' -> moves root s T l s' T' l' [].
Proof. intros [A1 A2 A3 A4 A6 A5]. split; [done|done| |done|done]. intros p. rewrite <- A3. set_solver. Qed.

(** Freeing a page that was taken, [s1] being a state after it was taken. *)
Lemma uspace_ext s T l root P s' T' l' :
  uspace s T l root P -> vinv s' T' l' -> T ⊆ T' -> owned T' l' P ->
  (forall va, 0 <= va < 2 ^ 39 -> view (entries (mem s')) root va = view (entries (mem s)) root va) ->
  uspace s' T' l' root P.
Proof.
  intros [A1 A2 A3 A4 A5 A6 A7] I Hs Ho HV. pose proof TRAPFRAME_eq. pose proof MAXVA_eq.
  pose proof (lenZ_nonneg P). split; [done|by eapply lookup_weaken| |done|done| |].
  - revert A3. apply maps_ext. intros va Hva. apply HV. unfold PGSIZE in *; lia.
  - intros va Hva. rewrite HV by (unfold PGSIZE in *; lia). by apply A6.
  - intros va Hva. rewrite HV by lia. by apply A7.
Qed.

(** Pages that are still neither free nor page tables. *)
Lemma owned_moves root s T l s' T' l' Q P :
  owned T l P -> moves root s T l s' T' l' Q -> owned T' l' P.
Proof.
  intros [HN HP] Mv. split; [done|]. rewrite Forall_forall in *. intros p Hp.
  destruct (HP p Hp) as (Hok & Hl & HT). split; [done|].
  assert (~ (is_Some (T' !! p) \/ p ∈ l' \/ p ∈ Q)) as Hn.
  { rewrite (mv_pages _ _ _ _ _ _ _ _ Mv p). intros [[? ?]|?]; congruence. }
  split; [tauto|]. destruct (T' !! p) eqn:E; [|done]. exfalso. apply Hn. left. eauto.
Qed.

(** No page is lost: the free pages, the pages taken and the pages of the table at
    [root] are those that were free or in the table. *)
Lemma moves_tables root s T l s' T' l' Q p :
  vinv s T l -> vinv s' T' l' -> T !! root = Some 2%nat -> moves root s T l s' T' l' Q -> owned T' l' Q ->
  p ∈ l' \/ p ∈ Q \/ tree (entries (mem s')) root p <-> p ∈ l \/ tree (entries (mem s)) root p.
Proof.
  intros I I' Hr [Hs Hroot Hp Ht _] [_ HQ]. rewrite Forall_forall in HQ. pose proof (lookup_weaken _ _ _ _ Hr Hs) as Hr'.
  specialize (Hp p). pose proof (fun k => v_free _ _ _ I p k) as Hf. pose proof (fun k => v_free _ _ _ I' p k) as Hf'. split.
  - intros Hc. destruct (proj1 Hp) as [[k Hk]|?]; [|destruct (tree_of _ _ _ _ (v_pt _ _ _ I) Hk) as (r & Hr1 & Htr)|by left].
    { destruct Hc as [?|[?|Hc]]; [tauto|tauto|left]. destruct (in_pt_typed _ _ _ _ _ (v_pt _ _ _ I') Hr' Hc) as (j & Hj & _). eauto. }
    right. destruct (decide (r = root)) as [->|Hne]; [done|]. exfalso. apply Ht in Htr; [|done|done].
    pose proof (lookup_weaken _ _ _ _ Hr1 Hs) as Hr1'. destruct Hc as [Hc|[Hc|Hc]].
    + by apply (Hf' k); [eapply lookup_weaken|].
    + destruct (HQ p Hc) as (_ & _ & Hn). by rewrite (lookup_weaken _ _ _ _ Hk Hs) in Hn.
    + apply Hne. by eapply in_pt_inj; [apply I'|exact Hr1'|exact Hr'|..].
  - intros Hc. destruct (proj2 Hp) as [[k Hk]|?]; [|destruct (tree_of _ _ _ _ (v_pt _ _ _ I') Hk) as (r & Hr1 & Htr)|tauto].
    { destruct Hc as [?|Hc]; [tauto|left]. destruct (in_pt_typed _ _ _ _ _ (v_pt _ _ _ I) Hr Hc) as (j & Hj & _). eauto. }
    right; right. destruct (decide (r = root)) as [->|Hne]; [done|]. exfalso. apply Ht in Htr; [|done|by apply Hroot].
    pose proof (Hroot _ Hr1) as Hr2. destruct Hc as [Hc|Hc].
    + destruct (in_pt_typed _ _ _ _ _ (v_pt _ _ _ I) Hr2 Htr) as (j & Hj & _). by apply (Hf j).
    + apply Hne. by eapply in_pt_inj; [apply I|exact Hr2|exact Hr|..].
Qed.

(** The permissions with which a user page is mapped. *)
Definition leaf_perm (perm : Z) : Prop := 0 <= perm < 1024 /\ Z.lor perm PTE_V <> PTE_V.

Lemma map_word_leaf pa perm :
  pa mod PGSIZE = 0 -> 0 <= pa < 2 ^ 56 -> leaf_perm perm ->
  leaf (map_word pa perm) /\ PTE2PA (map_word pa perm) = pa /\
  PTE_FLAGS (map_word pa perm) = Z.lor perm PTE_V.
Proof.
  intros Ha Hpa [Hp Hne]. pose proof (perm_range _ Hp) as Hr.
  assert (PTE_FLAGS (map_word pa perm) = Z.lor perm PTE_V) as Hf.
  { rewrite map_word_eq. by apply PTE_FLAGS_word. }
  split; [split; [apply map_word_valid|by rewrite Hf]|]. split; [|done].
  rewrite map_word_eq. by apply PTE2PA_word.
Qed.

Lemma mappages_one root a p perm s :
  a mod PGSIZE = 0 -> 0 <= a -> a + PGSIZE <= MAXVA ->
  mappages root a PGSIZE p perm s = mappages_loop 1 root a (a + Z.of_nat 1 * PGSIZE - PGSIZE) p perm s.
Proof.
  intros Ha H0 HM. pose proof MAXVA_eq. unfold mappages. rewrite Ha. cbn [Z.eqb negb].
  change (PGSIZE mod PGSIZE =? 0) with true. change (PGSIZE =? 0) with false. cbn [negb].
  change (PGSIZE / PGSIZE) with 1. rewrite u64_small by (unfold PGSIZE in *; lia).
  f_equal; lia.
Qed.

(** The address space with one more page. *)
Lemma uspace_snoc s T l1 p root P perm s2 T2 l2 :
  let a := lenZ P * PGSIZE in
  uspace s T (p :: l1) root P -> vinv s2 T2 l2 -> moves root s T (p :: l1) s2 T2 l2 [p] ->
  T2 !! p = None -> p ∉ l2 -> (lenZ P + 1) * PGSIZE <= TRAPFRAME -> leaf_perm perm ->
  (forall va, 0 <= va < 2 ^ 39 -> view (entries (mem s2)) root va =
     if decide (root = root /\ a <= va < a + PGSIZE) then map_word p perm
     else view (entries (mem s)) root va) ->
  uspace s2 T2 l2 root (P ++ [p]).
Proof.
  intros a U I2 Mv HpT2 Hpl2 Hsz Hperm V.
  pose proof TRAPFRAME_eq. pose proof MAXVA_eq. pose proof (lenZ_nonneg P).
  destruct (free_page s T (p :: l1) p (us_inv _ _ _ _ _ U) ltac:(set_solver)) as [Hok HpT].
  pose proof (page_ok_range p Hok) as (Hpal & Hp0 & Hp1). unfold PHYSTOP, KERNBASE in Hp1.
  destruct (map_word_leaf p perm Hpal ltac:(unfold PGSIZE in *; lia) Hperm) as (HL & HPA & _).
  assert (lenZ (P ++ [p]) = lenZ P + 1) as Hlen by (rewrite lenZ_app; done).
  split; [done|eapply lookup_weaken; [apply U|apply Mv]| | | | |]; rewrite ?Hlen.
  - apply maps_app. split.
    { pose proof (us_maps _ _ _ _ _ U) as HM. revert HM. apply maps_ext. intros va Hva.
      rewrite V by (unfold a, PGSIZE in *; lia). rewrite decide_False by (unfold a; lia). done. }
    cbn [maps]. rewrite Z.add_0_l. fold a. rewrite V by (unfold a, PGSIZE in *; lia).
    rewrite decide_True by (unfold PGSIZE; lia). done.
  - apply owned_app. split; [eapply owned_moves; [apply U|exact Mv]|]. split.
    { split; [apply NoDup_singleton|]. by apply Forall_singleton. }
    intros q Hq ->%list_elem_of_singleton. pose proof (us_owned _ _ _ _ _ U) as [_ HF].
    rewrite Forall_forall in HF. destruct (HF p Hq) as (_ & ? & _). set_solver.
  - done.
  - intros va Hva. rewrite V by (unfold a, PGSIZE in *; lia).
    rewrite decide_False by (unfold a, PGSIZE in *; lia).
    apply (us_free _ _ _ _ _ U). unfold PGSIZE in *; lia.
  - intros va Hva. rewrite V by lia. rewrite decide_False by (unfold a, PGSIZE in *; lia).
    by apply (us_top _ _ _ _ _ U).
Qed.

(** Mapping the page [p], taken from the free list and filled in state [s1], at
    the end of the address space; when there is no memory for page tables, the
    page is freed again. *)
Lemma map_new_page s T l1 p root P perm s1 :
  uspace s T (p :: l1) root P -> vinv s1 T l1 ->
  (forall r va, T !! r = Some 2%nat -> view (entries (mem s1)) r va = view (entries (mem s)) r va) ->
  (forall x, ~ p <= x < p + PGSIZE -> ld8 (mem s1) x = ld8 (mem s) x) ->
  (forall r q, T !! r = Some 2%nat -> tree (entries (mem s1)) r q <-> tree (entries (mem s)) r q) ->
  (lenZ P + 1) * PGSIZE <= TRAPFRAME -> leaf_perm perm ->
  let a := lenZ P * PGSIZE in
  (exists s2 s3 T', mappages root a PGSIZE p perm s1 = Ok (-1) s2 /\ kfree p s2 = Ok tt s3 /\ lenZ (p :: l1) < 3 /\
     uspace s3 T' [p] root P /\ moves root s T (p :: l1) s3 T' [p] [] /\
     forall r va, T !! r = Some 2%nat -> 0 <= va < 2 ^ 39 ->
       view (entries (mem s3)) r va = view (entries (mem s)) r va) \/
  (exists s2 T' l', mappages root a PGSIZE p perm s1 = Ok 0 s2 /\ lenZ (p :: l1) <= lenZ l' + 3 /\
     uspace s2 T' l' root (P ++ [p]) /\ moves root s T (p :: l1) s2 T' l' [p] /\
     (forall r va, T !! r = Some 2%nat -> 0 <= va < 2 ^ 39 ->
       view (entries (mem s2)) r va =
       if decide (r = root /\ a <= va < a + PGSIZE) then map_word p perm
       else view (entries (mem s)) r va) /\
     (forall x, p <= x < p + PGSIZE -> ld8 (mem s2) x = ld8 (mem s1) x)).
Proof.
  intros U I1 V1 F1 Ht1 Hsz Hperm a. pose proof TRAPFRAME_eq. pose proof MAXVA_eq. pose proof (lenZ_nonneg P).
  pose proof (us_inv _ _ _ _ _ U) as I. pose proof (us_root _ _ _ _ _ U) as Hr.
  destruct (free_page s T (p :: l1) p I ltac:(set_solver)) as [Hok HpT].
  pose proof (page_ok_range p Hok) as (Hpal & Hp0 & Hp1). unfold PHYSTOP, KERNBASE in Hp1.
  assert (p ∉ l1) as Hpl by (pose proof (kinv_nodup _ _ (v_k _ _ _ I)) as [? _]%NoDup_cons; done).
  assert (a mod PGSIZE = 0) as Ha by apply Z_mod_mult.
  assert (0 <= a /\ a + PGSIZE <= TRAPFRAME) as [Ha0 Ham] by (unfold a, PGSIZE in *; lia).
  rewrite mappages_one by lia.
  destruct (mappages_run 1 s1 T l1 root a p perm I1 Hr) as (r & k & s2 & T2 & l2 & Hrun & Ev & Hc & V2);
    [lia|done|lia|lia|lia|unfold PGSIZE in *; lia|apply Hperm| |].
  { intros va Hva. rewrite V1 by done. apply (us_free _ _ _ _ _ U). unfold a in *. lia. }
  assert (forall x, outside T (p :: l1) x -> ld8 (mem s2) x = ld8 (mem s) x) as F2.
  { intros x Hx. rewrite (e_mem _ _ _ _ _ _ _ Ev); [apply F1; apply Hx; set_solver|].
    intros q Hq. apply Hx. set_solver. }
  assert (T2 !! p = None /\ p ∉ l2) as [HpT2 Hpl2].
  { pose proof (e_pages _ _ _ _ _ _ _ Ev p) as HP. destruct (T2 !! p) eqn:E.
    - exfalso. destruct (proj1 HP) as [[? ?]|?]; [by left|congruence|done].
    - split; [done|]. intros Hin. destruct (proj1 HP) as [[? ?]|?]; [by right|congruence|done]. }
  pose proof (e_pages _ _ _ _ _ _ _ Ev) as HP2.
  rewrite lenZ_cons. destruct Hc as [(-> & -> & Hl)|(-> & Hk & -> & Hl)].
  - right. exists s2, T2, l2. split; [done|]. split; [lia|].
    assert (moves root s T (p :: l1) s2 T2 l2 [p]) as Mv.
    { split; [apply Ev|apply Ev| |intros r q Hne Hr'; rewrite (e_trees _ _ _ _ _ _ _ Ev) by done; by apply Ht1|done].
      intros q. specialize (HP2 q). rewrite list_elem_of_singleton, elem_of_cons. clear -HP2. tauto. }
    assert (forall r va, T !! r = Some 2%nat -> 0 <= va < 2 ^ 39 ->
       view (entries (mem s2)) r va =
       if decide (r = root /\ a <= va < a + PGSIZE) then map_word p perm
       else view (entries (mem s)) r va) as V.
    { intros r va Hr' Hva. rewrite V2 by done. unfold mapped_view. rewrite V1 by done.
      change (Z.of_nat 1) with 1. rewrite Z.mul_1_l.
      case_decide as Hd; [|done]. rewrite Z.div_small by lia. f_equal. lia. }
    split; [|split; [done|split; [done|]]].
    + eapply uspace_snoc; [exact U|apply Ev|exact Mv|done|done|done|exact Hperm|].
      intros va Hva. by apply V.
    + intros x Hx. apply (e_mem _ _ _ _ _ _ _ Ev). intros q Hq Hqx. revert Hx.
      assert (page_ok q /\ q <> p) as [Hqok Hqp].
      { destruct Hq as [[j Hj]|Hq].
        - split; [by eapply v_ok|]. congruence.
        - split; [by apply (free_page s1 T l1)|]. congruence. }
      by apply (off_page q p).
  - left.
    destruct (vinv_kfree s2 T2 [] p (e_inv _ _ _ _ _ _ _ Ev) Hok Hpl2 HpT2) as (s3 & Hk3 & I3 & V3 & F3 & Ht3).
    exists s2, s3, T2. split; [done|]. split; [done|]. split; [lia|].
    assert (moves root s T (p :: l1) s3 T2 [p] []) as Mv.
    { split; [apply Ev|apply Ev| | |].
      - intros q. specialize (HP2 q). rewrite list_elem_of_singleton, elem_of_cons, elem_of_nil in *.
        clear -HP2. tauto.
      - intros r q Hne Hr'. rewrite Ht3 by (by eapply lookup_weaken, Ev). rewrite (e_trees _ _ _ _ _ _ _ Ev) by done. by apply Ht1.
      - intros x Hx. rewrite F3; [by apply F2|]. apply Hx. set_solver. }
    assert (forall r va, T !! r = Some 2%nat -> 0 <= va < 2 ^ 39 ->
       view (entries (mem s3)) r va = view (entries (mem s)) r va) as V.
    { intros r va Hr' Hva. rewrite V3 by (by eapply lookup_weaken, Ev). rewrite V2 by done.
      unfold mapped_view. rewrite decide_False by (unfold PGSIZE in *; lia). by apply V1. }
    split; [|split; done].
    eapply uspace_ext; [exact U|exact I3|apply Ev|eapply owned_moves; [apply U|exact Mv]|].
    intros va Hva. by apply V.
Qed.

Lemma PGROUNDUP_page n : 0 <= n * PGSIZE <= TRAPFRAME -> PGROUNDUP (n * PGSIZE) = n * PGSIZE.
Proof.
  intros Hn. pose proof TRAPFRAME_eq.
  destruct (PGROUNDUP_bounds (n * PGSIZE)) as [Hb Ha]; [lia|unfold PGSIZE in *; lia|].
  apply Z.mod_divide in Ha as [k Hk]; [|done]. rewrite Hk in *. unfold PGSIZE in *. lia.
Qed.

Lemma dealloc_back s T l root P Q :
  uspace s T l root (P ++ Q) ->
  exists s', uvmdealloc root (lenZ (P ++ Q) * PGSIZE) (lenZ P * PGSIZE) s = Ok (lenZ P * PGSIZE) s' /\
    uspace s' T (rev Q ++ l) root P /\
    (forall r va, T !! r = Some 2%nat -> 0 <= va < 2 ^ 39 ->
       view (entries (mem s')) r va =
       unmapped_view (view (entries (mem s))) root (lenZ P * PGSIZE) (lenZ Q) r va) /\
    (forall x, outside T (rev Q ++ l) x -> ld8 (mem s') x = ld8 (mem s) x) /\
    (forall r p, T !! r = Some 2%nat -> tree (entries (mem s')) r p <-> tree (entries (mem s)) r p).
Proof.
  intros U. pose proof (us_size _ _ _ _ _ U) as Hs. rewrite lenZ_app in Hs. pose proof TRAPFRAME_eq.
  pose proof (lenZ_nonneg P). pose proof (lenZ_nonneg Q). destruct Q as [|q Q].
  - exists s. rewrite !app_nil_r in *. unfold uvmdealloc. rewrite Z.geb_leb, Z.leb_refl.
    split; [done|]. split; [done|]. split; [|done].
    intros r va _ _. unfold unmapped_view. rewrite decide_False by (change (lenZ (@nil Z)) with 0; lia). done.
  - rewrite lenZ_cons in Hs. pose proof (lenZ_nonneg Q). apply shrink_run; [done| | | |]; rewrite ?lenZ_app, ?lenZ_cons.
    + unfold PGSIZE in *; lia.
    + apply PGROUNDUP_page. unfold PGSIZE in *; lia.
    + apply PGROUNDUP_page. unfold PGSIZE in *; lia.
    + unfold PGSIZE in *; lia.
Qed.

(** A page that holds only zero bytes. *)
Definition zero_page (m : memory) (p : Z) : Prop := forall x, p <= x < p + PGSIZE -> ld8 m x = 0.

(** The state of [uvmalloc] after the pages [Q] were added to [P], [s0] being
    the state it started in. *)
Record alloc_inv (s0 : kst) T0 l0 root P perm (s : kst) T l Q : Prop := {
  al_space : uspace s T l root (P ++ Q);
  al_moves : moves root s0 T0 l0 s T l Q;
  al_zero : forall p, p ∈ Q -> zero_page (mem s) p;
  al_view : forall rt va, T0 !! rt = Some 2%nat -> 0 <= va < 2 ^ 39 ->
    rt <> root \/ va < lenZ P * PGSIZE \/ lenZ (P ++ Q) * PGSIZE <= va ->
    view (entries (mem s)) rt va = view (entries (mem s0)) rt va;
  al_perm : forall va, lenZ P * PGSIZE <= va < lenZ (P ++ Q) * PGSIZE ->
    PTE_FLAGS (view (entries (mem s)) root va) = Z.lor perm PTE_V
}.

(** Giving up: the pages [Q] are unmapped and freed. *)
Lemma alloc_undo s0 T0 l0 root P perm s T l Q :
  uspace s0 T0 l0 root P -> alloc_inv s0 T0 l0 root P perm s T l Q ->
  exists s', uvmdealloc root (lenZ (P ++ Q) * PGSIZE) (lenZ P * PGSIZE) s = Ok (lenZ P * PGSIZE) s' /\
    uspace s' T (rev Q ++ l) root P /\ moves root s0 T0 l0 s' T (rev Q ++ l) [] /\
    (forall rt va, T0 !! rt = Some 2%nat -> 0 <= va < 2 ^ 39 ->
       flag (view (entries (mem s')) rt va) PTE_V = flag (view (entries (mem s0)) rt va) PTE_V /\
       (flag (view (entries (mem s0)) rt va) PTE_V = true \/ rt <> root \/ TRAPFRAME <= va ->
          view (entries (mem s')) rt va = view (entries (mem s0)) rt va)).
Proof.
  intros U0 [U Mv _ V _]. destruct (dealloc_back s T l root P Q U) as (s' & Hrun & U' & V' & F' & Ht').
  exists s'. split; [done|]. split; [done|]. split; [by eapply moves_undo|].
  intros rt va Hrt Hva. rewrite V' by (done || by eapply lookup_weaken, Mv). unfold unmapped_view.
  case_decide as Hd.
  - destruct Hd as [-> Hd]. pose proof (us_size _ _ _ _ _ U). rewrite lenZ_app in *.
    rewrite (us_free _ _ _ _ _ U0) by lia. split; [done|]. intros [?|[?|?]]; [done|done|lia].
  - rewrite V; [done|done|done|]. rewrite lenZ_app. destruct (decide (rt = root)); [|by left].
    right. destruct (decide (va < lenZ P * PGSIZE)); [by left|]. right. lia.
Qed.

(** Taking a page off the free list and filling it. *)
Lemma alloc_fill s T l :
  vinv s T l -> (l = [] /\ kalloc s = Ok 0 s) \/
  exists p l1 s1, l = p :: l1 /\ kalloc s = Ok p s1 /\ p <> 0 /\ mem_ok (mem s1) /\
    (forall x, ~ p <= x < p + PGSIZE -> ld8 (mem s1) x = ld8 (mem s) x) /\
    forall m2, mem_ok m2 -> (forall x, ~ p <= x < p + PGSIZE -> ld8 m2 x = ld8 (mem s1) x) ->
      let s2 := set_mem m2 s1 in vinv s2 T l1 /\
      (forall r va, T !! r = Some 2%nat -> view (entries (mem s2)) r va = view (entries (mem s)) r va) /\
      (forall x, ~ p <= x < p + PGSIZE -> ld8 (mem s2) x = ld8 (mem s) x) /\
      (forall r q, T !! r = Some 2%nat -> tree (entries (mem s2)) r q <-> tree (entries (mem s)) r q).
Proof.
  intros I. destruct (vinv_kalloc s T l I) as (s1 & Hk & I1 & V1 & F1 & He & _).
  destruct l as [|p l1]; cbn [hd tail] in *; [left; by rewrite He in Hk|right].
  destruct (free_page s T (p :: l1) p I ltac:(set_solver)) as [Hok HpT].
  exists p, l1, s1. split; [done|]. split; [done|]. split; [apply page_ok_range in Hok; lia|].
  assert (forall x, ~ p <= x < p + PGSIZE -> ld8 (mem s1) x = ld8 (mem s) x) as F1'.
  { intros x Hx. apply F1. by intros (? & [= <-] & ?). }
  split; [apply I1|]. split; [done|].
  intros m2 Hm2 F2. set (s2 := set_mem m2 s1).
  assert (forall x, ~ p <= x < p + PGSIZE -> ld8 (mem s2) x = ld8 (mem s) x) as F.
  { intros x Hx. cbn [s2 mem set_mem]. rewrite F2 by done. by apply F1'. }
  assert (kinv s2 l1) as K2.
  { apply (kinv_frame s1); [apply I1|done|done|]. intros q x Hq Hx. apply F2.
    apply (off_page q p); [by apply (free_page s1 T l1)|done| |done].
    intros ->. by pose proof (kinv_nodup _ _ (v_k _ _ _ I)) as [? _]%NoDup_cons. }
  destruct (vinv_frame s s2 T (p :: l1) l1 I K2) as (I2 & V2 & Ht2); [| |done].
  - intros q k Hq. apply (v_free _ _ _ I1 _ _ Hq).
  - intros q k x Hq Hx. apply F. apply (off_page q p); [by eapply v_ok|done|congruence|done].
Qed.

(** Pages of an address space are not written when it grows. *)
Lemma owned_outside s T l P p x :
  vinv s T l -> owned T l P -> p ∈ P -> p <= x < p + PGSIZE -> outside T l x.
Proof.
  intros I [_ HP] Hp Hx. rewrite Forall_forall in HP. destruct (HP p Hp) as (Hok & Hl & HT).
  intros q Hq. apply (off_page p q); [done| | |done].
  - destruct Hq as [[k Hq]|Hq]; [by eapply v_ok|by apply (free_page s T l)].
  - intros ->. destruct Hq as [[k Hq]|Hq]; congruence.
Qed.

(** One round of the loop of [uvmalloc]. *)
Lemma alloc_step s0 T0 l0 root P perm s T l Q :
  alloc_inv s0 T0 l0 root P perm s T l Q -> leaf_perm perm ->
  (lenZ (P ++ Q) + 1) * PGSIZE <= TRAPFRAME ->
  (l = [] /\ kalloc s = Ok 0 s) \/
  exists p s1, kalloc s = Ok p s1 /\ p <> 0 /\
    let s2 := set_mem (memset (mem s1) p 0 PGSIZE) s1 in
    (exists s3 s4 T', mappages root (lenZ (P ++ Q) * PGSIZE) PGSIZE p perm s2 = Ok (-1) s3 /\
      kfree p s3 = Ok tt s4 /\ lenZ l < 3 /\ alloc_inv s0 T0 l0 root P perm s4 T' [p] Q) \/
    (exists s3 T' l', mappages root (lenZ (P ++ Q) * PGSIZE) PGSIZE p perm s2 = Ok 0 s3 /\ lenZ l <= lenZ l' + 3 /\
      alloc_inv s0 T0 l0 root P perm s3 T' l' (Q ++ [p])).
Proof.
  intros A Hperm Hsz. pose proof (al_space _ _ _ _ _ _ _ _ _ _ A) as U.
  pose proof (us_inv _ _ _ _ _ U) as I. pose proof TRAPFRAME_eq. pose proof MAXVA_eq.
  pose proof (lenZ_nonneg P). pose proof (lenZ_nonneg Q).
  destruct (alloc_fill s T l I) as [[-> Hk]|(p & l1 & s1 & -> & Hk & Hp & Hm1 & F1 & Hfill)]; [by left|right].
  exists p, s1. split; [done|]. split; [done|]. intros s2.
  destruct (Hfill (memset (mem s1) p 0 PGSIZE)) as (I2 & V2 & F2 & Ht2);
    [by apply mem_ok_memset|apply ld8_memset_off_page|]. fold s2 in I2, V2, F2, Ht2.
  assert (zero_page (mem s2) p) as Hz.
  { intros x Hx. unfold s2. cbn [mem set_mem]. rewrite ld8_memset. by case_decide. }
  clearbody s2.
  assert (forall p' s' T' l' Q', p' ∈ Q -> moves root s T (p :: l1) s' T' l' Q' -> zero_page (mem s') p') as Hzero.
  { intros p' s' T' l' Q' Hp' Mv x Hx. rewrite (mv_mem _ _ _ _ _ _ _ _ Mv).
    - by apply (al_zero _ _ _ _ _ _ _ _ _ _ A p').
    - eapply owned_outside; [exact I|apply U| |exact Hx]. set_solver. }
  assert (forall rt, T0 !! rt = Some 2%nat -> T !! rt = Some 2%nat) as Hup
    by (intros; by eapply lookup_weaken, (mv_sub _ _ _ _ _ _ _ _ (al_moves _ _ _ _ _ _ _ _ _ _ A))).
  destruct (map_new_page s T l1 p root (P ++ Q) perm s2 U I2 V2 F2 Ht2 Hsz Hperm) as
    [(s3 & s4 & T' & Hm & Hf & Hl & U4 & Mv & V)|(s3 & T' & l' & Hm & Hl & U3 & Mv & V & Fp)].
  - left. exists s3, s4, T'. split; [done|]. split; [done|]. split; [done|]. split; [done| | | |].
    + rewrite <- (app_nil_r Q). eapply moves_trans; [apply A|exact Mv].
    + intros p' Hp'. by eapply Hzero.
    + intros rt va Hrt Hva Hc. rewrite V by auto. by apply A.
    + intros va Hva. rewrite V by (apply U || (unfold PGSIZE in *; lia)). by apply A.
  - right. exists s3, T', l'. split; [done|]. split; [done|]. rewrite lenZ_app in *.
    split; rewrite ?app_assoc, ?lenZ_app in *; change (lenZ [p]) with 1 in *; [done| | | |].
    + eapply moves_trans; [apply A|exact Mv].
    + intros p' [Hp'| ->%list_elem_of_singleton]%elem_of_app; [by eapply Hzero|].
      intros x Hx. rewrite Fp by done. by apply Hz.
    + intros rt va Hrt Hva Hc. rewrite V by auto. rewrite decide_False by (unfold PGSIZE in *; lia).
      apply A; [done|done|]. rewrite lenZ_app. unfold PGSIZE in *. lia.
    + intros va Hva. rewrite V by (apply U || (unfold PGSIZE in *; lia)).
      case_decide as Hd.
      * destruct (free_page s T (p :: l1) p I ltac:(set_solver)) as [Hok _].
        apply page_ok_range in Hok as (? & ? & ?). apply map_word_leaf; [done| |done].
        unfold PHYSTOP, KERNBASE, PGSIZE in *. lia.
      * apply A. rewrite lenZ_app. unfold PGSIZE in *. lia.
Qed.

(** What a failed [uvmalloc] leaves: the translations and pages it started with; for
    each of the [n] pages it was asked for, fewer than three were free. *)
Record alloc_undone (s0 : kst) T0 l0 root P (n : Z) (s : kst) T l : Prop := {
  un_space : uspace s T l root P;
  un_short : lenZ l0 < 3 * n;
  un_moves : moves root s0 T0 l0 s T l [];
  un_view : forall rt va, T0 !! rt = Some 2%nat -> 0 <= va < 2 ^ 39 ->
    flag (view (entries (mem s)) rt va) PTE_V = flag (view (entries (mem s0)) rt va) PTE_V /\
    (flag (view (entries (mem s0)) rt va) PTE_V = true \/ rt <> root \/ TRAPFRAME <= va ->
       view (entries (mem s)) rt va = view (entries (mem s0)) rt va)
}.

Lemma uvmalloc_run (n fuel : nat) s0 T0 l0 root P s T l Q newsz xperm :
  let perm := Z.lor (Z.lor PTE_R PTE_U) xperm in
  uspace s0 T0 l0 root P -> alloc_inv s0 T0 l0 root P perm s T l Q -> leaf_perm perm -> lenZ l0 <= lenZ l + 3 * lenZ Q ->
  let a := lenZ (P ++ Q) * PGSIZE in
  (n <= fuel)%nat -> newsz <= a + Z.of_nat n * PGSIZE < newsz + PGSIZE ->
  a + Z.of_nat n * PGSIZE <= TRAPFRAME ->
  exists r s' T' l', uvmalloc_loop fuel root a (lenZ P * PGSIZE) newsz xperm s = Ok r s' /\
    ((r = newsz /\ exists Q', length Q' = (length Q + n)%nat /\ alloc_inv s0 T0 l0 root P perm s' T' l' Q' /\ lenZ l0 <= lenZ l' + 3 * lenZ Q') \/
     (r = 0 /\ alloc_undone s0 T0 l0 root P (lenZ Q + Z.of_nat n) s' T' l')).
Proof.
  intros perm U0. revert fuel s T l Q. induction n as [|n IH]; intros fuel s T l Q A Hperm Hcost a Hf Hn Htop.
  { exists newsz, s, T, l. split; [destruct fuel; cbn [uvmalloc_loop]; by case_Z|].
    left. split; [done|]. exists Q. split; [lia|]. by split. }
  assert (a < newsz) as Hlt by (unfold PGSIZE in *; lia).
  destruct fuel as [|fuel]; [lia|]. cbn [uvmalloc_loop]. destruct (Z.ltb_spec a newsz); [|lia].
  fold perm. destruct (alloc_step s0 T0 l0 root P perm s T l Q A Hperm) as
    [[-> Hk]|(p & s1 & Hk & Hp & [(s3 & s4 & T' & Hm & Hkf & Hl & A')|(s3 & T' & l' & Hm & Hl & A')])].
  { unfold a, PGSIZE in *; lia. }
  - rewrite (bind_Ok _ _ _ _ _ Hk). cbn [Z.eqb].
    destruct (alloc_undo s0 T0 l0 root P perm s T [] Q U0 A) as (s' & Hd & U' & Mv & V).
    exists 0, s', T, (rev Q ++ []). fold a in Hd. rewrite (bind_Ok _ _ _ _ _ Hd). split; [done|]. right. split; [done|].
    split; [done| |done|done]. change (lenZ []) with 0 in Hcost. lia.
  - rewrite (bind_Ok _ _ _ _ _ Hk). destruct (Z.eqb_spec p 0); [done|].
    unfold mem_set. rewrite bind_modify. fold a in Hm. rewrite (bind_Ok _ _ _ _ _ Hm). cbn [Z.eqb negb].
    rewrite (bind_Ok _ _ _ _ _ Hkf).
    destruct (alloc_undo s0 T0 l0 root P perm s4 T' [p] Q U0 A') as (s' & Hd & U' & Mv & V).
    exists 0, s', T', (rev Q ++ [p]). fold a in Hd. rewrite (bind_Ok _ _ _ _ _ Hd). split; [done|]. right. split; [done|].
    split; [done| |done|done]. lia.
  - rewrite (bind_Ok _ _ _ _ _ Hk). destruct (Z.eqb_spec p 0); [done|].
    unfold mem_set. rewrite bind_modify. fold a in Hm. rewrite (bind_Ok _ _ _ _ _ Hm). cbn [Z.eqb negb].
    assert (lenZ (P ++ Q ++ [p]) * PGSIZE = a + PGSIZE) as Ha.
    { unfold a. rewrite !lenZ_app. change (lenZ [p]) with 1. lia. }
    pose proof TRAPFRAME_eq. pose proof (lenZ_nonneg (P ++ Q)).
    rewrite u64_small by (unfold a, PGSIZE in *; lia). rewrite <- Ha.
    destruct (IH fuel s3 T' l' (Q ++ [p]) A' Hperm) as (r & s' & T'' & l'' & Hrun & Hc);
      rewrite ?Ha; try (unfold PGSIZE in *; lia); [rewrite lenZ_app; change (lenZ [p]) with 1; lia|].
    rewrite Ha in Hrun. exists r, s', T'', l''. split; [done|].
    destruct Hc as [(-> & Q' & HQ & A'')|[-> Hc]]; [left|right; split; [done|]; rewrite lenZ_app in Hc; change (lenZ [p]) with 1 in Hc;
      by replace (lenZ Q + Z.of_nat (S n)) with (lenZ Q + 1 + Z.of_nat n) by lia].
    split; [done|]. exists Q'. rewrite length_app in HQ. cbn in HQ. split; [lia|done].
Qed.

Lemma uvmalloc_ok (s : kst) (T : gmap Z nat) (l : list Z) (root oldsz newsz xperm : Z) (P : list Z) :
  uspace s T l root P -> PGROUNDUP oldsz = lenZ P * PGSIZE ->
  0 <= oldsz <= newsz -> newsz <= TRAPFRAME -> 0 <= xperm < 1024 ->
  exists r s' T' l', uvmalloc root oldsz newsz xperm s = Ok r s' /\
    ((r = newsz /\ exists Q, lenZ (P ++ Q) * PGSIZE = Z.max (PGROUNDUP newsz) (PGROUNDUP oldsz) /\
        alloc_inv s T l root P (Z.lor (Z.lor PTE_R PTE_U) xperm) s' T' l' Q /\ lenZ l <= lenZ l' + 3 * lenZ Q) \/
     (r = 0 /\ alloc_undone s T l root P ((PGROUNDUP newsz - PGROUNDUP oldsz) / PGSIZE) s' T' l')).
Proof.
  intros U Hold Ho Hn Hx. pose proof TRAPFRAME_eq. pose proof (us_size _ _ _ _ _ U) as Hsize.
  assert (leaf_perm (Z.lor (Z.lor PTE_R PTE_U) xperm)) as Hperm.
  { destruct pte_bits as (Hv & -> & _ & _ & ->). 
    split; [apply (lor_bound _ _ 10); change (Z.lor 2 16) with 18; lia|].
    intros He. apply (f_equal (fun z => Z.testbit z 1)) in He. revert He.
    rewrite Hv, !Z.lor_spec. done. }
  assert (alloc_inv s T l root P (Z.lor (Z.lor PTE_R PTE_U) xperm) s T l []) as A.
  { split; rewrite ?app_nil_r; [done|apply moves_refl|set_solver|done|lia]. }
  destruct (PGROUNDUP_bounds newsz) as [Hb Ha]; [lia|unfold PGSIZE; lia|].
  destruct (PGROUNDUP_bounds oldsz) as [Hbo _]; [lia|unfold PGSIZE; lia|].
  apply Z.mod_divide in Ha as [k Hk]; [|done]. rewrite Hold, Hk in *.
  pose proof (lenZ_nonneg P). unfold uvmalloc. destruct (Z.ltb_spec newsz oldsz); [lia|].
  cbv zeta. rewrite Hold.
  assert (lenZ P <= k) as Hle by (unfold PGSIZE in *; lia).
  edestruct (uvmalloc_run (Z.to_nat (k - lenZ P)) (Z.to_nat ((newsz - lenZ P * PGSIZE) / PGSIZE + 1))
    s T l root P s T l [] newsz xperm U A Hperm ltac:(change (lenZ []) with 0; lia)) as (r & s' & T' & l' & Hrun & Hc).
  - apply Z2Nat.inj_le; [lia| |].
    + assert (-1 <= (newsz - lenZ P * PGSIZE) / PGSIZE); [|lia]. apply Z.div_le_lower_bound; unfold PGSIZE in *; lia.
    + assert (k - lenZ P - 1 <= (newsz - lenZ P * PGSIZE) / PGSIZE); [|lia].
      apply Z.div_le_lower_bound; unfold PGSIZE in *; lia.
  - rewrite app_nil_r, Z2Nat.id by lia. unfold PGSIZE in *; lia.
  - rewrite app_nil_r, Z2Nat.id by lia. rewrite TRAPFRAME_eq in *. unfold PGSIZE in *; lia.
  - rewrite app_nil_r in Hrun. exists r, s', T', l'. split; [done|].
    destruct Hc as [(-> & Q & HQ & A')|[-> Hc]]; [left|right; split; [done|]].
    2: { change (lenZ []) with 0 in Hc. rewrite Z2Nat.id in Hc by lia. replace (k * PGSIZE - lenZ P * PGSIZE) with ((k - lenZ P) * PGSIZE) by lia. by rewrite Z.div_mul. }
    split; [done|]. exists Q. split; [|done].
    rewrite lenZ_app. unfold lenZ at 2. rewrite HQ. cbn [length]. rewrite Nat.add_0_l, Z2Nat.id by lia.
    unfold PGSIZE in *; lia.
Qed.

(** ** Theorems *)

(** [uvmalloc], asked to grow an address space below the trapframe, either
    succeeds - the process has its old pages and fresh zeroed ones up to the new
    size, mapped readable by the user with the extra permissions - or returns 0 and
    has undone its work: the same pages and the same valid translations as
    before; it fails only when fewer than three pages are free for each page
    it was asked for, and takes no more.  In both cases page-table pages, free pages and user pages stay
    separate, no page is lost, and no other page (of this or another process) is
    written. *)
Theorem uvmalloc_grows_or_undoes (s : kst) (T : gmap Z nat) (l : list Z) (root oldsz newsz xperm : Z) (P : list Z) :
  uspace s T l root P -> PGROUNDUP oldsz = lenZ P * PGSIZE ->
  0 <= oldsz <= newsz -> newsz <= TRAPFRAME -> 0 <= xperm < 1024 ->
  exists r s' T' l', uvmalloc root oldsz newsz xperm s = Ok r s' /\
    ((r = newsz /\ exists Q, lenZ (P ++ Q) * PGSIZE = Z.max (PGROUNDUP newsz) (PGROUNDUP oldsz) /\
        alloc_inv s T l root P (Z.lor (Z.lor PTE_R PTE_U) xperm) s' T' l' Q /\ lenZ l <= lenZ l' + 3 * lenZ Q) \/
     (r = 0 /\ alloc_undone s T l root P ((PGROUNDUP newsz - PGROUNDUP oldsz) / PGSIZE) s' T' l')).
Proof. apply uvmalloc_ok. Qed.

(** [uvmdealloc] from [oldsz] to a smaller [newsz] unmaps exactly the pages
    above the new size, gives each of them back to the free list once, and
    returns [newsz]; every other translation and all other memory stay. *)
Theorem uvmdealloc_shrinks (s : kst) (T : gmap Z nat) (l : list Z) (root oldsz newsz : Z) (P Q : list Z) :
  uspace s T l root (P ++ Q) -> 0 <= newsz < oldsz ->
  PGROUNDUP oldsz = lenZ (P ++ Q) * PGSIZE -> PGROUNDUP newsz = lenZ P * PGSIZE ->
  exists s', uvmdealloc root oldsz newsz s = Ok newsz s' /\ uspace s' T (rev Q ++ l) root P /\
    (forall r va, T !! r = Some 2%nat -> 0 <= va < 2 ^ 39 ->
       view (entries (mem s')) r va =
       if decide (r = root /\ lenZ P * PGSIZE <= va < lenZ (P ++ Q) * PGSIZE) then 0
       else view (entries (mem s)) r va) /\
    (forall p x, p ∈ P -> p <= x < p + PGSIZE -> ld8 (mem s') x = ld8 (mem s) x).
Proof.
  intros U Hsz Ho Hn. pose proof TRAPFRAME_eq. pose proof (us_size _ _ _ _ _ U) as Hs.
  rewrite lenZ_app in *. pose proof (lenZ_nonneg P). pose proof (lenZ_nonneg Q).
  destruct (shrink_run s T l root P Q oldsz newsz) as (s' & Hrun & U' & V' & F' & _);
    rewrite ?lenZ_app; try done; [unfold PGSIZE in *; lia|].
  exists s'. split; [done|]. split; [done|]. split.
  - intros r va Hr Hva. rewrite V' by done. unfold unmapped_view.
    by rewrite <- Z.mul_add_distr_r.
  - intros p x Hp Hx. apply F'. eapply (owned_outside s'); [apply U'|apply U'|exact Hp|done].
Qed.
End user.
