(* ===== verification/VmCopy.v ===== *)
(** * Copying between the kernel and user memory

    User memory is what the page table of the process lets the user reach;
    [copyin], [copyinstr] and [copyout] are shown to read and write that memory
    and nothing else, whatever address the user passes. *)

From stdpp Require Import base list gmap strings.
From S2P Require Import Prelude Riscv Mem Spinlock Kalloc Vm VmTable VmWalk VmUser.

(** ** User memory as the user sees it *)

(** The physical address behind user address [va], if the user may access it
    with the permissions [perm]. *)
Definition user_addr (s : kst) (root perm va : Z) : option Z :=
  let e := view (entries (mem s)) root va in
  if (0 <=? va) && (va <? MAXVA) && flag e PTE_V && flag e PTE_U && ((perm =? 0) || flag e perm)
  then Some (PTE2PA e + va mod PGSIZE) else None.

Definition user_byte (s : kst) (root va : Z) : option Z := ld8 (mem s) <$> user_addr s root 0 va.

(** Reading [n] bytes, all of which must be readable. *)
Fixpoint read_bytes (f : Z -> option Z) (va : Z) (n : nat) : option (list Z) :=
  match n with
  | O => Some []
  | S n' => c ← f va; cs ← read_bytes f (va + 1) n'; Some (c :: cs)
  end.

(** Reading up to [n] bytes until a NUL. *)
Fixpoint read_str (f : Z -> option Z) (va : Z) (n : nat) : option (list Z) :=
  match n with
  | O => None
  | S n' => c ← f va; if c =? 0 then Some [0] else (cs ← read_str f (va + 1) n'; Some (c :: cs))
  end.

Lemma read_bytes_app f va n k :
  read_bytes f va (n + k) =
    (bs ← read_bytes f va n; cs ← read_bytes f (va + Z.of_nat n) k; Some (bs ++ cs)).
Proof.
  revert va. induction n as [|n IH]; intros va; cbn [read_bytes Nat.add].
  - rewrite Z.add_0_r. cbn. by destruct (read_bytes f va k).
  - destruct (f va); cbn; [|done]. rewrite IH.
    replace (va + 1 + Z.of_nat n) with (va + Z.of_nat (S n)) by lia.
    destruct (read_bytes f (va + 1) n); cbn; [|done]. by destruct (read_bytes f (va + Z.of_nat (S n)) k).
Qed.

Lemma read_bytes_mem f m va pa n :
  (forall i, 0 <= i < Z.of_nat n -> f (va + i) = Some (ld8 m (pa + i))) ->
  read_bytes f va n = Some (ldn m pa n).
Proof.
  revert va pa. induction n as [|n IH]; intros va pa Hf; cbn [read_bytes ldn]; [done|].
  pose proof (Hf 0 ltac:(lia)) as H0. rewrite !Z.add_0_r in H0. rewrite H0. cbn.
  rewrite (IH (va + 1) (pa + 1)); [done|]. intros i Hi. rewrite <- !Z.add_assoc. apply Hf. lia.
Qed.

Lemma read_str_app f va n k :
  read_str f va (n + k) =
    match read_str f va n with
    | Some bs => Some bs
    | None => bs ← read_bytes f va n; cs ← read_str f (va + Z.of_nat n) k; Some (bs ++ cs)
    end.
Proof.
  revert va. induction n as [|n IH]; intros va; cbn [read_str read_bytes Nat.add].
  - rewrite Z.add_0_r. cbn. by destruct (read_str f va k).
  - destruct (f va) as [c|]; cbn; [|done]. destruct (c =? 0); [done|]. rewrite IH.
    replace (va + 1 + Z.of_nat n) with (va + Z.of_nat (S n)) by lia.
    destruct (read_str f (va + 1) n); cbn; [done|].
    destruct (read_bytes f (va + 1) n); cbn; [|done]. by destruct (read_str f (va + Z.of_nat (S n)) k).
Qed.

Section copy.
Context `{Layout}.

(** What the invariant says of a page the user can reach. *)
Lemma user_page s T l root P perm va x :
  uspace s T l root P -> user_addr s root perm va = Some x ->
  0 <= va < lenZ P * PGSIZE /\ P !! Z.to_nat (va / PGSIZE) = Some (x - va mod PGSIZE).
Proof.
  intros U. unfold user_addr. destruct (_ && _) eqn:E; [|done]. intros [= <-].
  rewrite !andb_true_iff, Z.leb_le, Z.ltb_lt in E. destruct E as ((((H0 & H1) & HV) & HU) & _).
  pose proof TRAPFRAME_eq. pose proof MAXVA_eq.
  assert (va < lenZ P * PGSIZE) as Hlt.
  { destruct (decide (va < TRAPFRAME)).
    - destruct (decide (va < lenZ P * PGSIZE)); [done|]. by rewrite (us_free _ _ _ _ _ U) in HV by lia.
    - by rewrite (us_top _ _ _ _ _ U) in HU by lia. }
  split; [lia|]. replace (_ + _ - _) with (PTE2PA (view (entries (mem s)) root va)) by lia.
  pose proof (Z.div_mod va PGSIZE ltac:(done)) as Hdm. pose proof (Z.mod_pos_bound va PGSIZE ltac:(done)).
  assert (0 <= va / PGSIZE < lenZ P) as Hj by (unfold PGSIZE in *; lia).
  destruct (P !! Z.to_nat (va / PGSIZE)) as [p|] eqn:Hp.
  - destruct (maps_lookup _ _ _ _ _ (us_maps _ _ _ _ _ U) Hp) as [_ <-].
    rewrite Z2Nat.id by lia. rewrite <- (view_page _ root va), PGROUNDDOWN_eq.
    do 3 f_equal. lia.
  - apply lookup_ge_None_1 in Hp. unfold lenZ in Hj. lia.
Qed.

Lemma user_page_ok s T l root P perm va x :
  uspace s T l root P -> user_addr s root perm va = Some x ->
  exists p, p ∈ P /\ page_ok p /\ x = p + va mod PGSIZE /\ p <= x < p + PGSIZE.
Proof.
  intros U Hx. destruct (user_page _ _ _ _ _ _ _ _ U Hx) as [_ Hp].
  pose proof (Z.mod_pos_bound va PGSIZE ltac:(done)).
  exists (x - va mod PGSIZE). pose proof (list_elem_of_lookup_2 _ _ _ Hp) as Hin.
  split; [done|]. pose proof (us_owned _ _ _ _ _ U) as [_ HF]. rewrite Forall_forall in HF.
  split; [apply (HF _ Hin)|]. lia.
Qed.

(** Different user addresses are different bytes of physical memory. *)
Lemma user_addr_inj s T l root P perm perm' va va' x :
  uspace s T l root P -> user_addr s root perm va = Some x -> user_addr s root perm' va' = Some x -> va = va'.
Proof.
  intros U H1 H2. destruct (user_page _ _ _ _ _ _ _ _ U H1) as [Hr1 Hp1].
  destruct (user_page _ _ _ _ _ _ _ _ U H2) as [Hr2 Hp2].
  destruct (user_page_ok _ _ _ _ _ _ _ _ U H1) as (p1 & Hin1 & [Ha1 _] & Hx1 & Hb1).
  destruct (user_page_ok _ _ _ _ _ _ _ _ U H2) as (p2 & Hin2 & [Ha2 _] & Hx2 & Hb2).
  assert (p1 = p2) as <-. { destruct (decide (p1 = p2)); [done|]. destruct (pages_disjoint p1 p2); lia. }
  pose proof (Z.div_mod va PGSIZE ltac:(done)). pose proof (Z.div_mod va' PGSIZE ltac:(done)).
  assert (0 <= va / PGSIZE) by (apply Z.div_pos; [lia|done]).
  assert (0 <= va' / PGSIZE) by (apply Z.div_pos; [lia|done]).
  replace (x - va mod PGSIZE) with p1 in Hp1 by lia. replace (x - va' mod PGSIZE) with p1 in Hp2 by lia.
  pose proof (us_owned _ _ _ _ _ U) as [HN _].
  pose proof (NoDup_lookup _ _ _ _ HN Hp1 Hp2) as He. assert (va / PGSIZE = va' / PGSIZE) by lia. lia.
Qed.

(** All addresses of the page of [va] behave alike. *)
Lemma user_addr_page s root perm va i :
  PGROUNDDOWN va = PGROUNDDOWN i -> 0 <= va -> 0 <= i -> va < MAXVA -> i < MAXVA ->
  user_addr s root perm i = (fun x => x + (i - va)) <$> user_addr s root perm va.
Proof.
  intros Hpg Hva Hi Hvm Him. unfold user_addr. rewrite <- (view_page _ root i), <- Hpg, view_page.
  rewrite !PGROUNDDOWN_eq in Hpg.
  destruct (Z.leb_spec 0 i), (Z.leb_spec 0 va), (Z.ltb_spec i MAXVA), (Z.ltb_spec va MAXVA); try lia.
  cbn [andb]. destruct (_ && _); cbn; [|done]. f_equal. lia.
Qed.

(** ** Copying page by page *)

(** The number of bytes the loops copy in one round. *)
Definition chunk (va len : Z) : Z :=
  let n := PGSIZE - (va - PGROUNDDOWN va) in if n >? len then len else n.

Lemma PGROUNDDOWN_same va w :
  PGROUNDDOWN va <= w < PGROUNDDOWN va + PGSIZE -> PGROUNDDOWN va = PGROUNDDOWN w.
Proof.
  intros Hw. pose proof (PGROUNDDOWN_bounds va) as Hb. pose proof (PGROUNDDOWN_aligned va) as Ha.
  apply (page_index _ _ Ha) in Hw. apply (page_index _ _ Ha) in Hb. congruence.
Qed.

Lemma chunk_spec va len :
  0 < len -> 0 < chunk va len <= len /\
  (forall i, 0 <= i < chunk va len -> PGROUNDDOWN va = PGROUNDDOWN (va + i)) /\
  (chunk va len < len -> PGROUNDDOWN va + PGSIZE = va + chunk va len).
Proof.
  intros Hl. pose proof (PGROUNDDOWN_bounds va) as Hb. unfold chunk. rewrite Z.gtb_ltb.
  destruct (Z.ltb_spec len (PGSIZE - (va - PGROUNDDOWN va))); (split; [lia|]); (split; [|lia]);
    intros i Hi; apply PGROUNDDOWN_same; lia.
Qed.

Lemma PGROUNDDOWN_MAXVA va : PGROUNDDOWN va < MAXVA <-> va < MAXVA.
Proof.
  pose proof (PGROUNDDOWN_bounds va). pose proof (PGROUNDDOWN_aligned va) as Ha.
  apply Z.mod_divide in Ha as [k Hk]; [|done]. rewrite MAXVA_eq. unfold PGSIZE in *. lia.
Qed.

Lemma walkaddr_user s T l root P va :
  uspace s T l root P -> 0 <= va ->
  walkaddr root (PGROUNDDOWN va) s =
    Ok (match user_addr s root 0 va with Some x => x - va mod PGSIZE | None => 0 end) s.
Proof.
  intros U Hva. rewrite (walkaddr_view root _ s T l) by (apply U || by apply PGROUNDDOWN_nonneg).
  f_equal. cbv zeta. rewrite view_page. unfold user_addr.
  pose proof (PGROUNDDOWN_MAXVA va).
  destruct (Z.leb_spec 0 va), (Z.ltb_spec (PGROUNDDOWN va) MAXVA), (Z.ltb_spec va MAXVA); try lia; cbn [andb]; [|done].
  rewrite Z.eqb_refl. cbn [orb]. rewrite andb_true_r. destruct (_ && _); [lia|done].
Qed.

(** One round of a reading loop. *)
Lemma read_chunk s T l root P va len :
  uspace s T l root P -> 0 <= va -> 0 < len ->
  (exists x, user_addr s root 0 va = Some x /\ va < MAXVA /\ 0 < x - va mod PGSIZE /\
     forall i, 0 <= i < chunk va len -> user_byte s root (va + i) = Some (ld8 (mem s) (x + i))) \/
  (user_addr s root 0 va = None /\ user_byte s root va = None).
Proof.
  intros U Hva Hlen. pose proof (chunk_spec va len Hlen) as (Hn & Hpg & _).
  destruct (user_addr s root 0 va) as [x|] eqn:E; [left|right; unfold user_byte; by rewrite E].
  exists x. split; [done|].
  assert (va < MAXVA) as Hm.
  { unfold user_addr in E. destruct (Z.ltb_spec va MAXVA); [done|]. by rewrite andb_false_r in E. }
  destruct (user_page_ok _ _ _ _ _ _ _ _ U E) as (p & _ & Hok%page_ok_range & Hx & _).
  split; [done|]. split; [lia|]. intros i Hi. unfold user_byte.
  rewrite (user_addr_page s root 0 va (va + i)); [|by apply Hpg|lia|lia|done|].
  - rewrite E. cbn. do 2 f_equal. lia.
  - apply PGROUNDDOWN_MAXVA. rewrite <- Hpg by lia. by apply PGROUNDDOWN_MAXVA.
Qed.

Lemma copyin_run fuel s T l root P va len :
  uspace s T l root P -> 0 <= va < 2 ^ 64 -> len <= Z.of_nat fuel ->
  match read_bytes (user_byte s root) va (Z.to_nat len) with
  | Some bs => copyin_loop fuel root va len s = Ok (0, bs) s
  | None => exists bs, copyin_loop fuel root va len s = Ok (-1, bs) s
  end.
Proof.
  intros U. revert va len. induction fuel as [|f IH]; intros va len Hva Hf.
  { replace (Z.to_nat len) with O by lia. cbn. case_Z; done. }
  destruct (decide (0 < len)) as [Hlen|Hlen].
  2:{ replace (Z.to_nat len) with O by lia. cbn. case_Z; done. }
  cbn [copyin_loop]. rewrite Z.gtb_ltb. destruct (Z.ltb_spec 0 len); [|lia].
  rewrite (bind_Ok _ _ _ _ _ (walkaddr_user s T l root P va U ltac:(lia))). fold (chunk va len).
  pose proof (chunk_spec va len Hlen) as (Hn & Hpg & Hnext). pose proof MAXVA_eq.
  destruct (read_chunk s T l root P va len U ltac:(lia) Hlen) as [(x & -> & Hm & Hx & Hb)|(-> & Hb)].
  2:{ cbn [Z.eqb]. destruct (Z.to_nat len) eqn:E; [lia|]. cbn. rewrite Hb. cbn. by exists []. }
  destruct (Z.eqb_spec (x - va mod PGSIZE) 0); [lia|]. unfold mem_read. rewrite bind_gets.
  replace (Z.to_nat len) with (Z.to_nat (chunk va len) + Z.to_nat (len - chunk va len))%nat by lia.
  rewrite read_bytes_app. 
  assert (x - va mod PGSIZE + (va - PGROUNDDOWN va) = x) as -> by (rewrite PGROUNDDOWN_eq; lia).
  rewrite (read_bytes_mem _ (mem s) va x) by (intros i Hi; apply Hb; lia). cbn.
  rewrite Z2Nat.id by lia. pose proof (PGROUNDDOWN_bounds va). pose proof (PGROUNDDOWN_nonneg va).
  destruct (decide (chunk va len < len)) as [Hlt|Hge].
  - rewrite u64_small by (unfold PGSIZE in *; lia). rewrite Hnext by done.
    specialize (IH (va + chunk va len) (len - chunk va len) ltac:(unfold PGSIZE in *; lia) ltac:(lia)).
    destruct (read_bytes _ (va + chunk va len) _).
    + by rewrite (bind_Ok _ _ _ _ _ IH).
    + destruct IH as [bs Hbs]. rewrite (bind_Ok _ _ _ _ _ Hbs). cbn. by eexists.
  - replace (len - chunk va len) with 0 by lia. cbn.
    rewrite (bind_Ok _ _ s (0, []) s) by (by destruct f). done.
Qed.

(** [copyin] never changes memory, whatever address it is given.  It returns
    0 exactly when the user may read every byte of the range, and then the bytes
    copied are the user's bytes at these addresses. *)
Theorem copyin_reads_user (s : kst) (T : gmap Z nat) (l : list Z) (root srcva len : Z) (P : list Z) :
  uspace s T l root P -> 0 <= srcva < 2 ^ 64 ->
  match read_bytes (user_byte s root) srcva (Z.to_nat len) with
  | Some bs => copyin root srcva len s = Ok (0, bs) s
  | None => exists bs, copyin root srcva len s = Ok (-1, bs) s
  end.
Proof. intros U Hva. unfold copyin. eapply copyin_run; [exact U|done|lia]. Qed.

(** The inner loop of [copyinstr] on one page. *)
Lemma copystr_run f s va pa (n : nat) :
  (forall i, 0 <= i < Z.of_nat n -> f (va + i) = Some (ld8 (mem s) (pa + i))) ->
  copystr_loop n pa s =
    Ok (match read_str f va n with Some bs => (true, bs) | None => (false, ldn (mem s) pa n) end) s.
Proof.
  revert va pa. induction n as [|n IH]; intros va pa Hf; cbn [copystr_loop read_str ldn]; [done|].
  pose proof (Hf 0 ltac:(lia)) as H0. rewrite !Z.add_0_r in H0. rewrite H0, bind_gets. cbn.
  destruct (ld8 (mem s) pa =? 0); [done|].
  rewrite (bind_Ok _ _ _ _ _ (IH (va + 1) (pa + 1) ltac:(intros i Hi; rewrite <- !Z.add_assoc; apply Hf; lia))).
  by destruct (read_str f (va + 1) n).
Qed.

Lemma copyinstr_run fuel s T l root P va max :
  uspace s T l root P -> 0 <= va < 2 ^ 64 -> max <= Z.of_nat fuel ->
  match read_str (user_byte s root) va (Z.to_nat max) with
  | Some bs => copyinstr_loop fuel root va max s = Ok (0, bs) s
  | None => exists bs, copyinstr_loop fuel root va max s = Ok (-1, bs) s
  end.
Proof.
  intros U. revert va max. induction fuel as [|f IH]; intros va max Hva Hf.
  { replace (Z.to_nat max) with O by lia. cbn. exists []. case_Z; done. }
  destruct (decide (0 < max)) as [Hlen|Hlen].
  2:{ replace (Z.to_nat max) with O by lia. cbn. exists []. case_Z; done. }
  cbn [copyinstr_loop]. rewrite Z.gtb_ltb. destruct (Z.ltb_spec 0 max); [|lia].
  rewrite (bind_Ok _ _ _ _ _ (walkaddr_user s T l root P va U ltac:(lia))). fold (chunk va max).
  pose proof (chunk_spec va max Hlen) as (Hn & Hpg & Hnext). pose proof MAXVA_eq.
  destruct (read_chunk s T l root P va max U ltac:(lia) Hlen) as [(x & -> & Hm & Hx & Hb)|(-> & Hb)].
  2:{ cbn [Z.eqb]. destruct (Z.to_nat max) eqn:E; [lia|]. cbn. rewrite Hb. cbn. by exists []. }
  destruct (Z.eqb_spec (x - va mod PGSIZE) 0); [lia|].
  assert (x - va mod PGSIZE + (va - PGROUNDDOWN va) = x) as -> by (rewrite PGROUNDDOWN_eq; lia).
  rewrite (bind_Ok _ _ _ _ _ (copystr_run (user_byte s root) s va x (Z.to_nat (chunk va max))
    ltac:(intros i Hi; apply Hb; lia))).
  replace (Z.to_nat max) with (Z.to_nat (chunk va max) + Z.to_nat (max - chunk va max))%nat by lia.
  rewrite read_str_app. destruct (read_str _ va _); [done|].
  rewrite (read_bytes_mem _ (mem s) va x) by (intros i Hi; apply Hb; lia). cbn.
  rewrite Z2Nat.id by lia. pose proof (PGROUNDDOWN_bounds va). pose proof (PGROUNDDOWN_nonneg va).
  destruct (decide (chunk va max < max)) as [Hlt|Hge].
  - rewrite u64_small by (unfold PGSIZE in *; lia). rewrite Hnext by done.
    specialize (IH (va + chunk va max) (max - chunk va max) ltac:(unfold PGSIZE in *; lia) ltac:(lia)).
    destruct (read_str _ (va + chunk va max) _).
    + by rewrite (bind_Ok _ _ _ _ _ IH).
    + destruct IH as [bs Hbs]. rewrite (bind_Ok _ _ _ _ _ Hbs). cbn. by eexists.
  - replace (max - chunk va max) with 0 by lia. cbn.
    rewrite (bind_Ok _ _ s (-1, []) s) by (by destruct f). by eexists.
Qed.

(** [copyinstr] never changes memory.  It returns 0 exactly when the user's
    memory holds a NUL-terminated string of fewer than [max] bytes at the address,
    all of it readable, and then it has copied that string with its NUL. *)
Theorem copyinstr_reads_string (s : kst) (T : gmap Z nat) (l : list Z) (root srcva max : Z) (P : list Z) :
  uspace s T l root P -> 0 <= srcva < 2 ^ 64 ->
  match read_str (user_byte s root) srcva (Z.to_nat max) with
  | Some bs => copyinstr root srcva max s = Ok (0, bs) s
  | None => exists bs, copyinstr root srcva max s = Ok (-1, bs) s
  end.
Proof. intros U Hva. unfold copyinstr. eapply copyinstr_run; [exact U|done|lia]. Qed.

(** ** copyout *)

(** A write into the pages of a process keeps its address space. *)
Lemma uspace_write s T l root P perm m :
  uspace s T l root P -> mem_ok m ->
  (forall x, ~ (exists va, user_addr s root perm va = Some x) -> ld8 m x = ld8 (mem s) x) ->
  let s' := set_mem m s in uspace s' T l root P /\
  (forall r va, T !! r = Some 2%nat -> view (entries (mem s')) r va = view (entries (mem s)) r va).
Proof.
  intros U Hm Hf s'. pose proof (us_inv _ _ _ _ _ U) as I.
  assert (forall q x, is_Some (T !! q) \/ q ∈ l -> q <= x < q + PGSIZE -> ld8 (mem s') x = ld8 (mem s) x) as Hout.
  { intros q x Hq Hx. apply Hf. intros (va & Hva).
    destruct (user_page_ok _ _ _ _ _ _ _ _ U Hva) as (p & Hp & _ & _ & Hpx).
    by apply (owned_outside s T l P p x I (us_owned _ _ _ _ _ U) Hp Hpx q). }
  destruct (vinv_frame s s' T l l I) as (I' & V' & _).
  - apply (kinv_frame s); [apply I|done|done|]. intros q x Hq. apply Hout. by right.
  - apply I.
  - intros q k x Hq. apply Hout. left. eauto.
  - split; [|done]. eapply uspace_ext; [exact U|done|done|apply U|]. intros va _. apply V'. apply U.
Qed.

(** [user_addr] only depends on the translation. *)
Lemma user_addr_ext s s' root perm va :
  view (entries (mem s')) root va = view (entries (mem s)) root va ->
  user_addr s' root perm va = user_addr s root perm va.
Proof. intros Hv. unfold user_addr. by rewrite Hv. Qed.

(** The addresses of one round of [copyout]. *)
Lemma write_chunk s T l root P va len :
  uspace s T l root P -> 0 <= va -> 0 < len ->
  match user_addr s root PTE_W va with
  | Some x => va < MAXVA /\ x = PTE2PA (view (entries (mem s)) root va) + (va - PGROUNDDOWN va) /\
      forall i, 0 <= i < chunk va len -> user_addr s root PTE_W (va + i) = Some (x + i)
  | None => True
  end.
Proof.
  intros U Hva Hlen. pose proof (chunk_spec va len Hlen) as (Hn & Hpg & _).
  destruct (user_addr s root PTE_W va) as [x|] eqn:E; [|done].
  assert (va < MAXVA) as Hm.
  { unfold user_addr in E. destruct (Z.ltb_spec va MAXVA); [done|]. by rewrite andb_false_r in E. }
  split; [done|]. split.
  { unfold user_addr in E. rewrite PGROUNDDOWN_eq. destruct (_ && _); [|done]. injection E as <-. lia. }
  intros i Hi. rewrite (user_addr_page s root PTE_W va (va + i)); [|by apply Hpg|lia|lia|done|].
  - rewrite E. cbn. f_equal. lia.
  - apply PGROUNDDOWN_MAXVA. rewrite <- Hpg by lia. by apply PGROUNDDOWN_MAXVA.
Qed.

(** The test [copyout] makes on the page of [va]. *)
Lemma copyout_test s T l root P va {A} (k : Z -> M kst A) (err : M kst A) :
  uspace s T l root P -> 0 <= va ->
  (let va0 := PGROUNDDOWN va in
   if va0 >=? MAXVA then err
   else
     do pte <- walk root va0 false;
     if pte =? 0 then err
     else
       do e <- load64 pte;
       if negb (flag e PTE_V) || negb (flag e PTE_U) || negb (flag e PTE_W) then err
       else k e) s =
  (match user_addr s root PTE_W va with
   | Some _ => k (view (entries (mem s)) root va) | None => err end) s.
Proof.
  intros U Hva. cbv zeta. pose proof (PGROUNDDOWN_MAXVA va). unfold user_addr.
  rewrite Z.geb_leb. destruct (Z.leb_spec MAXVA (PGROUNDDOWN va)), (Z.leb_spec 0 va), (Z.ltb_spec va MAXVA);
    try lia; cbn [andb]; [done|].
  rewrite (bind_Ok _ _ _ _ _ (walk_noalloc root (PGROUNDDOWN va) s ltac:(done))). rewrite pwalk_page.
  destruct (pwalk (entries (mem s)) 2 root va) as [[p i]|] eqn:W; cbn [slot].
  - rewrite (view_walk _ _ _ _ _ W).
    destruct (slot_pos _ _ _ _ _ _ _ _ (us_inv _ _ _ _ _ U) (us_root _ _ _ _ _ U) W) as [Hp _].
    destruct (Z.eqb_spec (p + 8 * i) 0); [lia|].
    rewrite (bind_Ok _ _ _ _ _ (load64_entries p i s)).
    by destruct (flag _ PTE_V), (flag _ PTE_U), (flag _ PTE_W).
  - by rewrite (view_none _ _ _ W).
Qed.

(** [s'] is [s] with the first [k] bytes of [src] at [va]; nothing else is changed. *)
Definition wrote (s s' : kst) (root va : Z) (src : list Z) (k : nat) : Prop :=
  (forall (i : nat) c, (i < k)%nat -> src !! i = Some c ->
     exists x, user_addr s root PTE_W (va + Z.of_nat i) = Some x /\ ld8 (mem s') x = c) /\
  (forall x, ~ (exists v, va <= v < va + Z.of_nat k /\ user_addr s root PTE_W v = Some x) -> ld8 (mem s') x = ld8 (mem s) x).

Lemma copied_nil s root va src : wrote s s root va src 0.
Proof. split; [lia|done]. Qed.
(** A piece, and the rest after it. *)
Lemma wrote_app s T l P s1 s' root va src (n k : nat) :
  uspace s T l root P -> (forall v, user_addr s1 root PTE_W v = user_addr s root PTE_W v) ->
  wrote s s1 root va src n -> wrote s1 s' root (va + Z.of_nat n) (drop n src) k -> wrote s s' root va src (n + k).
Proof.
  intros U HA [W1 F1] [W2 F2]. split.
  - intros i c Hi Hc. destruct (decide (i < n)%nat) as [Hlt|Hge].
    + destruct (W1 i c Hlt Hc) as (x & Hx & Hxc). exists x. split; [done|]. rewrite F2; [done|].
      intros (v & Hv & Hvx). rewrite HA in Hvx. assert (va + Z.of_nat i = v); [|lia]. by eapply user_addr_inj; [exact U|exact Hx|].
    + destruct (W2 (i - n)%nat c) as (x & Hx & Hxc); [lia|rewrite lookup_drop; by replace (n + (i - n))%nat with i by lia|].
      exists x. rewrite HA in Hx. split; [|done]. rewrite <- Hx. f_equal. lia.
  - intros x Hx. rewrite F2, F1; [done|..]; intros (v & Hv & Hvx); apply Hx; exists v; rewrite ?HA in Hvx; (split; [lia|done]).
Qed.

Lemma copyout_prefix fuel s T l root P va src :
  uspace s T l root P -> Forall is_byte src -> 0 <= va < 2 ^ 64 -> (length src <= fuel)%nat ->
  exists r s' k, copyout_loop fuel root va src s = Ok r s' /\ uspace s' T l root P /\ km s' = km s /\
    (forall rt v, T !! rt = Some 2%nat -> view (entries (mem s')) rt v = view (entries (mem s)) rt v) /\
    wrote s s' root va src k /\
    ((r = 0 /\ k = length src) \/ (r = -1 /\ (k < length src)%nat /\ user_addr s root PTE_W (va + Z.of_nat k) = None)).
Proof.
  revert s va src. induction fuel as [|f IH]; intros s va src U Hby Hva Hf.
  { destruct src; [|cbn in Hf; lia]. exists 0, s, 0%nat. do 4 (split; [done|]). split; [apply copied_nil|by left]. }
  destruct src as [|c0 src0].
  { exists 0, s, 0%nat. do 4 (split; [done|]). split; [apply copied_nil|by left]. }
  set (src := c0 :: src0) in *. assert (0 < lenZ src) as Hlen by (unfold src, lenZ; cbn; lia).
  cbn [copyout_loop]. fold (lenZ src). rewrite Z.gtb_ltb. destruct (Z.ltb_spec 0 (lenZ src)); [|lia].
  rewrite (copyout_test s T l root P va _ _ U ltac:(lia)). fold (chunk va (lenZ src)).
  pose proof (chunk_spec va (lenZ src) Hlen) as (Hn & Hpg & Hnext). pose proof MAXVA_eq.
  pose proof (write_chunk s T l root P va (lenZ src) U ltac:(lia) Hlen) as Hw.
  destruct (user_addr s root PTE_W va) as [x|] eqn:E.
  2:{ exists (-1), s, 0%nat. do 4 (split; [done|]). split; [apply copied_nil|right]. split; [done|]. rewrite Z.add_0_r. split; [cbn; lia|done]. }
  destruct Hw as (Hm & <- & Hx). set (n := chunk va (lenZ src)) in *. unfold mem_write. rewrite bind_modify.
  set (bs := take (Z.to_nat n) src). set (s1 := set_mem (stn (mem s) x bs) s).
  assert (Z.of_nat (length bs) = n) as Hbs by (unfold bs; rewrite length_take; unfold lenZ in *; lia).
  assert (Forall is_byte bs) as Hbb by (by apply Forall_take).
  assert (forall y, ~ (exists v, va <= v < va + n /\ user_addr s root PTE_W v = Some y) ->
    ld8 (mem s1) y = ld8 (mem s) y) as F1.
  { intros y Hy. cbn. rewrite ld8_stn by done. case_decide as Hd; [|done]. exfalso. apply Hy.
    exists (va + (y - x)). split; [lia|]. rewrite Hx by lia. f_equal. lia. }
  destruct (uspace_write s T l root P PTE_W (stn (mem s) x bs) U) as [U1 V1].
  { apply mem_ok_stn, U. } { intros y Hy. apply F1. intros (v & _ & Hv). apply Hy. by exists v. }
  fold s1 in U1, V1.
  assert (forall v, user_addr s1 root PTE_W v = user_addr s root PTE_W v) as HA.
  { intros v. apply user_addr_ext, V1, U. }
  assert (forall (i : nat) c, bs !! i = Some c -> ld8 (mem s1) (x + Z.of_nat i) = c) as Hin.
  { intros i c Hi. pose proof (lookup_lt_Some _ _ _ Hi). cbn. rewrite ld8_stn by done.
    rewrite decide_True by lia. apply list_lookup_total_correct. by replace (Z.to_nat _) with i by lia. }
  assert (km s1 = km s) as Hk1 by done. clearbody s1.
  pose proof (PGROUNDDOWN_bounds va). pose proof (PGROUNDDOWN_nonneg va).
  assert (n <= PGSIZE) as Hnp by (unfold n, chunk in *; destruct (_ >? _) eqn:?; lia).
  assert (copyout_loop f root (u64 (PGROUNDDOWN va + PGSIZE)) (drop (Z.to_nat n) src) s1 =
          copyout_loop f root (va + n) (drop (Z.to_nat n) src) s1) as ->.
  { destruct (decide (n < lenZ src)) as [Hlt|].
    - rewrite Hnext by done. by rewrite u64_small by (unfold PGSIZE in *; lia).
    - rewrite drop_ge by (unfold lenZ in *; lia). by destruct f. }
  assert (lenZ (drop (Z.to_nat n) src) = lenZ src - n) as Hdrop by (unfold lenZ in *; rewrite length_drop; lia).
  assert (wrote s s1 root va src (Z.to_nat n)) as W1.
  { split; [|rewrite Z2Nat.id by lia; exact F1]. intros i c Hi Hc. exists (x + Z.of_nat i). split; [apply Hx; lia|].
    apply Hin. unfold bs. by rewrite lookup_take_lt by lia. }
  destruct (IH s1 (va + n) (drop (Z.to_nat n) src)) as (r & s' & k & Hrun & U' & Hk & V' & W' & Hc);
    [done|by apply Forall_drop|unfold PGSIZE in *; lia|rewrite length_drop; unfold lenZ in *; lia|].
  exists r, s', (Z.to_nat n + k)%nat. split; [done|]. split; [done|]. split; [by rewrite Hk, Hk1|]. split; [|split].
  - intros rt v Hrt. by rewrite V', V1.
  - eapply wrote_app; [exact U|exact HA|exact W1|by rewrite Z2Nat.id by lia].
  - rewrite length_drop in Hc. unfold lenZ in *. destruct Hc as [[-> ->]|(-> & Hlt & Hn0)]; [left; split; [done|lia]|right].
    split; [done|]. split; [lia|]. rewrite HA in Hn0. rewrite <- Hn0. f_equal. lia.
Qed.
Lemma copyout_run fuel s T l root P va src :
  uspace s T l root P -> Forall is_byte src -> 0 <= va < 2 ^ 64 -> (length src <= fuel)%nat ->
  exists r s', copyout_loop fuel root va src s = Ok r s' /\ uspace s' T l root P /\ km s' = km s /\
    (forall rt v, T !! rt = Some 2%nat -> view (entries (mem s')) rt v = view (entries (mem s)) rt v) /\
    (forall x, ~ (exists v, va <= v < va + lenZ src /\ user_addr s root PTE_W v = Some x) ->
       ld8 (mem s') x = ld8 (mem s) x) /\
    ((r = 0 /\ forall (i : nat) c, src !! i = Some c ->
        exists x, user_addr s root PTE_W (va + Z.of_nat i) = Some x /\ ld8 (mem s') x = c) \/
     (r = -1 /\ exists v, va <= v < va + lenZ src /\ user_addr s root PTE_W v = None)).
Proof.
  intros U Hb Hva Hf. destruct (copyout_prefix fuel s T l root P va src U Hb Hva Hf) as (r & s' & k & Hrun & U' & Hk & V & [W F] & Hc).
  assert (k <= length src)%nat as Hkl by (destruct Hc as [[_ ->]|(_ & ? & _)]; lia).
  exists r, s'. repeat (split; [done|]). split.
  - intros x Hx. apply F. intros (v & Hv & Hvx). apply Hx. exists v. unfold lenZ. split; [lia|done].
  - destruct Hc as [[-> ->]|(-> & Hlt & Hn)]; [left|right]; (split; [done|]).
    + intros i c Hi. apply W; [by eapply lookup_lt_Some|done].
    + exists (va + Z.of_nat k). unfold lenZ. split; [lia|done].
Qed.

(** C12: [copyout], whatever address it is given, returns 0 with the whole source written,
    or -1 at the first byte of the range that the user may not write, with exactly
    the bytes before it written.  Every other byte of memory keeps its contents: page
    tables, free pages, other processes, read-only pages and the range after the failure;
    no translation changes. *)
Theorem copyout_writes_user (s : kst) (T : gmap Z nat) (l : list Z) (root dstva : Z) (src P : list Z) :
  uspace s T l root P -> Forall is_byte src -> 0 <= dstva < 2 ^ 64 ->
  exists r s' k, copyout root dstva src s = Ok r s' /\ uspace s' T l root P /\ km s' = km s /\
    (forall rt v, T !! rt = Some 2%nat -> view (entries (mem s')) rt v = view (entries (mem s)) rt v) /\
    (forall (i : nat) c, (i < k)%nat -> src !! i = Some c ->
       exists x, user_addr s root PTE_W (dstva + Z.of_nat i) = Some x /\ ld8 (mem s') x = c) /\
    (forall x, ~ (exists v, dstva <= v < dstva + Z.of_nat k /\ user_addr s root PTE_W v = Some x) ->
       ld8 (mem s') x = ld8 (mem s) x) /\
    ((r = 0 /\ k = length src) \/
     (r = -1 /\ (k < length src)%nat /\ user_addr s root PTE_W (dstva + Z.of_nat k) = None)).
Proof.
  intros U Hb Hd. destruct (copyout_prefix (length src) s T l root P dstva src U Hb Hd) as (r & s' & k & H1 & H2 & H3 & H4 & [H5 H6] & H7); [done|].
  by exists r, s', k.
Qed.

(** ** uvmcopy *)

(** The state of [uvmcopy] after the pages [Q] were made, [s0] being the state it
    started in. *)
Record copy_inv (s0 : kst) T0 l0 old new P (s : kst) T l Q : Prop := {
  cp_new : uspace s T l new Q;
  cp_old : uspace s T l old P;
  cp_apart : forall p, p ∈ P -> p ∉ Q;
  cp_moves : moves new s0 T0 l0 s T l Q;
  cp_view : forall rt va, T0 !! rt = Some 2%nat -> 0 <= va < 2 ^ 39 ->
    rt <> new \/ lenZ Q * PGSIZE <= va -> view (entries (mem s)) rt va = view (entries (mem s0)) rt va;
  cp_perm : forall va, 0 <= va < lenZ Q * PGSIZE ->
    PTE_FLAGS (view (entries (mem s)) new va) = PTE_FLAGS (view (entries (mem s0)) old va);
  cp_data : forall (j : nat) q p x, Q !! j = Some q -> P !! j = Some p -> 0 <= x < PGSIZE ->
    ld8 (mem s) (q + x) = ld8 (mem s0) (p + x)
}.

Lemma flags_valid e : flag e PTE_V = true -> Z.lor (PTE_FLAGS e) PTE_V = PTE_FLAGS e.
Proof.
  intros Hv. destruct pte_bits as [E _]. rewrite E in *. apply Z.bits_inj. intros i. rewrite Z.lor_spec.
  destruct (Z.testbit 1 i) eqn:Hi; [|apply orb_false_r].
  destruct (decide (i < 0)); [by rewrite Z.testbit_neg_r in Hi by lia|].
  assert (i = 0) as ->. { destruct (decide (i = 0)); [done|]. rewrite (testbit_high 1 1 i) in Hi by lia. done. }
  with_strategy transparent [PTE_FLAGS flag] (unfold PTE_FLAGS; unfold flag in Hv).
  rewrite Z.land_spec, orb_true_r. change (Z.testbit 1023 0) with true. rewrite andb_true_r.
  destruct (Z.eqb_spec (Z.land e 1) 0) as [|Hne]; [done|].
  change 1 with (Z.ones 1) in Hne. rewrite Z.land_ones in Hne by lia. change (2 ^ 1) with 2 in Hne.
  rewrite Z.bit0_odd, Zodd_mod. rewrite Zmod_odd in *. by destruct (Z.odd e).
Qed.

Lemma flags_range e : 0 <= PTE_FLAGS e < 1024.
Proof.
  with_strategy transparent [PTE_FLAGS] (unfold PTE_FLAGS). change 1023 with (Z.ones 10).
  rewrite Z.land_ones by lia. apply Z.mod_pos_bound. lia.
Qed.

(** Giving up: the copies made so far are unmapped and freed. *)
Lemma copy_undo s0 T0 l0 old new P s T l Q :
  copy_inv s0 T0 l0 old new P s T l Q -> old <> new ->
  exists s', uvmunmap new 0 (lenZ Q) true s = Ok tt s' /\
    uspace s' T (rev Q ++ l) new [] /\ uspace s' T (rev Q ++ l) old P /\
    moves new s0 T0 l0 s' T (rev Q ++ l) [] /\
    (forall rt va, T0 !! rt = Some 2%nat -> 0 <= va < 2 ^ 39 -> rt <> new \/ TRAPFRAME <= va ->
       view (entries (mem s')) rt va = view (entries (mem s0)) rt va).
Proof.
  intros [Un Uo Hap Mv V _ _] Hne. pose proof (us_size _ _ _ _ _ Un) as Hs. pose proof TRAPFRAME_eq.
  pose proof MAXVA_eq. pose proof (lenZ_nonneg Q).
  destruct (uvmunmap_run Q s T l new 0 true) as (s' & Hrun & I' & V' & F' & E');
    [apply Un|apply Un|done|done|lia|apply Un|intros _; apply Un|]. rewrite Z.add_0_l in Hrun.
  exists s'. split.
  { unfold uvmunmap. rewrite Zmod_0_l. cbn [Z.eqb negb]. rewrite Z.add_0_l.
    rewrite u64_small by (unfold PGSIZE in *; lia). unfold lenZ at 1. by rewrite Nat2Z.id. }
  assert (forall rt va, T !! rt = Some 2%nat -> 0 <= va < 2 ^ 39 -> rt <> new \/ TRAPFRAME <= va ->
    view (entries (mem s')) rt va = view (entries (mem s)) rt va) as V1.
  { intros rt va Hrt Hva Hn. rewrite V' by done. unfold unmapped_view. rewrite decide_False; [done|]. lia. }
  split; [|split; [|split]].
  - split; [done|apply Un|done| |change (lenZ (@nil Z)) with 0; lia| |].
    + split; [constructor|by apply Forall_nil].
    + intros va Hva. change (lenZ (@nil Z)) with 0 in Hva. rewrite V' by (apply Un || lia).
      unfold unmapped_view. case_decide; [done|]. apply (us_free _ _ _ _ _ Un). lia.
    + intros va Hva. rewrite V' by (apply Un || lia). unfold unmapped_view. case_decide; [done|].
      by apply (us_top _ _ _ _ _ Un).
  - eapply uspace_ext; [exact Uo|done|done| |].
    + apply owned_free. apply owned_app. split; [apply Uo|]. split; [apply Un|done].
    + intros va Hva. apply V1; [apply Uo|done|by left].
  - eapply moves_undo; [exact Mv|done|]. intros r p Hr. apply (tree_dirs _ _ T); [apply Un|done|done].
  - intros rt va Hrt Hva Hn. rewrite V1 by (done || by eapply lookup_weaken, Mv). apply V; [done|done|]. lia.
Qed.

(** What stays when a page is added to the copy or not ([R] is the pages added). *)
Lemma copy_keep s0 T0 l0 old new P s T l Q s' T' l' R :
  uspace s0 T0 l0 old P -> copy_inv s0 T0 l0 old new P s T l Q -> old <> new ->
  vinv s' T' l' -> moves new s T l s' T' l' R ->
  (forall va, 0 <= va < 2 ^ 39 -> view (entries (mem s')) old va = view (entries (mem s)) old va) ->
  uspace s' T' l' old P /\ moves new s0 T0 l0 s' T' l' (Q ++ R) /\
  (forall p x, p ∈ P -> 0 <= x < PGSIZE -> ld8 (mem s) (p + x) = ld8 (mem s0) (p + x)) /\
  (forall q x, q ∈ Q -> 0 <= x < PGSIZE -> ld8 (mem s') (q + x) = ld8 (mem s) (q + x)).
Proof.
  intros U0 [Un Uo Hap Mv V _ _] Hne I' Mv' Hv. split; [|split; [|split]].
  - eapply uspace_ext; [exact Uo|done|apply Mv'|eapply owned_moves; [apply Uo|exact Mv']|done].
  - by eapply moves_trans.
  - intros p x Hp Hx. apply (mv_mem _ _ _ _ _ _ _ _ Mv).
    eapply owned_outside; [apply U0|apply U0|exact Hp|lia].
  - intros q x Hq Hx. apply (mv_mem _ _ _ _ _ _ _ _ Mv').
    eapply owned_outside; [apply Un|apply Un|exact Hq|lia].
Qed.

(** The page table entry of the page to copy. *)
Lemma copy_entry s0 T0 l0 old new P s T l Q p :
  uspace s0 T0 l0 old P -> copy_inv s0 T0 l0 old new P s T l Q -> old <> new -> P !! length Q = Some p ->
  let i := lenZ Q * PGSIZE in
  let e := view (entries (mem s)) old i in
  (exists pte i0, pwalk (entries (mem s)) 2 old i = Some (pte, i0) /\ 0 < pte + 8 * i0) /\
  (lenZ Q + 1) * PGSIZE <= TRAPFRAME /\ flag e PTE_V = true /\ PTE2PA e = p /\ leaf_perm (PTE_FLAGS e) /\
  e = view (entries (mem s0)) old i.
Proof.
  intros U0 C Hne Hp i e. pose proof (cp_old _ _ _ _ _ _ _ _ _ _ C) as Uo.
  pose proof TRAPFRAME_eq. pose proof MAXVA_eq. pose proof (lenZ_nonneg Q).
  pose proof (us_size _ _ _ _ _ Uo) as HsP. pose proof (lookup_lt_Some _ _ _ Hp) as HltP.
  assert ((lenZ Q + 1) * PGSIZE <= TRAPFRAME) as Hsz by (unfold lenZ, PGSIZE in *; lia).
  destruct (maps_lookup _ _ _ _ _ (us_maps _ _ _ _ _ Uo) Hp) as [[HV Hfl] HPA].
  rewrite Z.add_0_l in HV, Hfl, HPA. fold (lenZ Q) i e in HV, Hfl, HPA.
  destruct (pwalk (entries (mem s)) 2 old i) as [[pte i0]|] eqn:W;
    [|unfold e in HV; by rewrite (view_none _ _ _ W) in HV].
  destruct (slot_pos _ _ _ _ _ _ _ _ (us_inv _ _ _ _ _ Uo) (us_root _ _ _ _ _ Uo) W) as (Hpos & _).
  split; [by exists pte, i0|]. do 3 (split; [done|]). split.
  { split; [apply flags_range|]. by rewrite flags_valid. }
  apply (cp_view _ _ _ _ _ _ _ _ _ _ C); [apply U0|unfold i, PGSIZE in *; lia|by left].
Qed.

(** One round of the loop of [uvmcopy]. *)
Lemma copy_step s0 T0 l0 old new P s T l Q p :
  uspace s0 T0 l0 old P -> copy_inv s0 T0 l0 old new P s T l Q -> old <> new -> P !! length Q = Some p ->
  let i := lenZ Q * PGSIZE in
  let e := view (entries (mem s)) old i in
  (l = [] /\ kalloc s = Ok 0 s) \/
  exists q s1, kalloc s = Ok q s1 /\ q <> 0 /\
    let s2 := set_mem (memmove (mem s1) q p PGSIZE) s1 in
    (exists s3 s4 T' l', mappages new i PGSIZE q (PTE_FLAGS e) s2 = Ok (-1) s3 /\
       kfree q s3 = Ok tt s4 /\ lenZ l < 3 /\ copy_inv s0 T0 l0 old new P s4 T' l' Q) \/
    (exists s3 T' l', mappages new i PGSIZE q (PTE_FLAGS e) s2 = Ok 0 s3 /\ lenZ l <= lenZ l' + 3 /\
       copy_inv s0 T0 l0 old new P s3 T' l' (Q ++ [q])).
Proof.
  intros U0 C Hne Hp i e. destruct (copy_entry _ _ _ _ _ _ _ _ _ _ _ U0 C Hne Hp) as (_ & Hsz & HV & HPA & Hperm & He).
  fold i e in HV, HPA, Hperm, He. pose proof C as [Un Uo Hap Mv0 V0 Hpm Hdata].
  pose proof (us_inv _ _ _ _ _ Un) as I. pose proof TRAPFRAME_eq. pose proof MAXVA_eq. pose proof (lenZ_nonneg Q).
  destruct (alloc_fill s T l I) as [[-> Hk]|(q & l1 & s1 & -> & Hk & Hq & Hm1 & F1 & Hfill)]; [by left|right].
  exists q, s1. split; [done|]. split; [done|]. set (s2 := set_mem (memmove (mem s1) q p PGSIZE) s1).
  destruct (Hfill (memmove (mem s1) q p PGSIZE)) as (I2 & V2 & F2 & Ht2); [by apply mem_ok_memmove| |].
  { intros x Hx. rewrite ld8_memmove by done. case_decide; [lia|done]. }
  fold s2 in I2, V2, F2, Ht2.
  assert (forall rt, T0 !! rt = Some 2%nat -> T !! rt = Some 2%nat) as Hup
    by (intros; by eapply lookup_weaken, (mv_sub _ _ _ _ _ _ _ _ Mv0)).
  assert (q ∉ P) as HqP.
  { intros Hin. pose proof (us_owned _ _ _ _ _ Uo) as [_ HF]. rewrite Forall_forall in HF.
    destruct (HF q Hin) as (_ & Hn & _). set_solver. }
  destruct (map_new_page s T l1 q new Q (PTE_FLAGS e) s2 Un I2 V2 F2 Ht2 Hsz Hperm) as
    [(s3 & s4 & T' & Hm & Hf & Hl & U4 & Mv & V)|(s3 & T' & l' & Hm & Hl & U3 & Mv & V & Fp)]; fold i in Hm.
  - left. exists s3, s4, T', [q]. split; [done|]. split; [done|]. split; [done|].
    destruct (copy_keep _ _ _ _ _ _ _ _ _ _ s4 T' [q] [] U0 C Hne (us_inv _ _ _ _ _ U4) Mv) as (Uo' & Mv' & HP & HQ).
    { intros va Hva. apply V; [apply Uo|done]. }
    rewrite app_nil_r in Mv'. split; [done|done|done|done| | |].
    + intros rt va Hrt Hva Hc. rewrite V by auto. by apply V0.
    + intros va Hva. rewrite V by (apply Un || unfold PGSIZE in *; lia). by apply Hpm.
    + intros j q' p' x Hq' Hp' Hx. rewrite HQ by (done || by eapply list_elem_of_lookup_2). by eapply Hdata.
  - right. exists s3, T', l'. split; [done|]. split; [done|].
    destruct (copy_keep _ _ _ _ _ _ _ _ _ _ s3 T' l' [q] U0 C Hne (us_inv _ _ _ _ _ U3) Mv) as (Uo' & Mv' & HP & HQ).
    { intros va Hva. rewrite V by (done || apply Uo). by rewrite decide_False by naive_solver. }
    assert (lenZ (Q ++ [q]) = lenZ Q + 1) as Hlen by (by rewrite lenZ_app).
    split; [done|done|set_solver|done| | |]; rewrite ?Hlen.
    + intros rt va Hrt Hva Hc. rewrite V by auto. rewrite decide_False by (unfold i, PGSIZE in *; lia).
      apply V0; [done|done|]. unfold PGSIZE in *. lia.
    + intros va Hva. rewrite V by (apply Un || unfold PGSIZE in *; lia). case_decide as Hd.
      * destruct (free_page s T (q :: l1) q I ltac:(set_solver)) as [(Hqa & Hq0 & Hq1)%page_ok_range _].
        destruct (map_word_leaf q (PTE_FLAGS e) Hqa ltac:(unfold PHYSTOP, KERNBASE, PGSIZE in *; lia) Hperm) as (_ & _ & ->).
        rewrite flags_valid by done. rewrite He, <- (view_page _ old va), <- (view_page _ old i).
        by rewrite (proj1 (page_index i va (Z_mod_mult _ _)) (proj2 Hd)).
      * apply Hpm. unfold i in *. lia.
    + intros j q' p' x Hq' Hp' Hx. apply lookup_app_Some in Hq' as [Hq'|[Hj Hq']].
      { rewrite HQ by (done || by eapply list_elem_of_lookup_2). by eapply Hdata. }
      apply list_lookup_singleton_Some in Hq' as [Hj0 <-]. assert (j = length Q) as -> by lia.
      rewrite Hp in Hp'. injection Hp' as <-. rewrite Fp by lia. unfold s2. cbn [mem set_mem].
      rewrite ld8_memmove by done. rewrite decide_True by lia. replace (p + (q + x - q)) with (p + x) by lia.
      rewrite F1; [apply HP; [by eapply list_elem_of_lookup_2|done]|].
      pose proof (list_elem_of_lookup_2 _ _ _ Hp) as Hin.
      pose proof (us_owned _ _ _ _ _ Uo) as [_ HF]. rewrite Forall_forall in HF. destruct (HF p Hin) as (Hpok & _ & _).
      apply (off_page p q); [done|by apply (free_page s T (q :: l1) q I); set_solver|congruence|lia].
Qed.

(** What a failed [uvmcopy] leaves; for each page of the parent, fewer than three were free. *)
Record copy_undone (s0 : kst) T0 l0 old new P (s : kst) T l : Prop := {
  cu_new : uspace s T l new [];
  cu_old : uspace s T l old P;
  cu_short : lenZ l0 < 3 * lenZ P;
  cu_moves : moves new s0 T0 l0 s T l [];
  cu_view : forall rt va, T0 !! rt = Some 2%nat -> 0 <= va < 2 ^ 39 -> rt <> new \/ TRAPFRAME <= va ->
    view (entries (mem s)) rt va = view (entries (mem s0)) rt va
}.

Lemma uvmcopy_run (n fuel : nat) s0 T0 l0 old new P s T l Q sz :
  uspace s0 T0 l0 old P -> copy_inv s0 T0 l0 old new P s T l Q -> old <> new -> lenZ l0 <= lenZ l + 3 * lenZ Q ->
  (length Q + n = length P)%nat -> (n <= fuel)%nat -> sz <= lenZ P * PGSIZE < sz + PGSIZE ->
  exists r s' T' l', uvmcopy_loop fuel old new (lenZ Q * PGSIZE) sz s = Ok r s' /\
    ((r = 0 /\ exists Q', length Q' = length P /\ copy_inv s0 T0 l0 old new P s' T' l' Q' /\ lenZ l0 <= lenZ l' + 3 * lenZ Q') \/
     (r = -1 /\ copy_undone s0 T0 l0 old new P s' T' l')).
Proof.
  intros U0. revert fuel s T l Q. induction n as [|n IH]; intros fuel s T l Q C Hne Hcost Hn Hf Hsz.
  { exists 0, s, T, l. split; [|left; split; [done|]; exists Q; split; [lia|by split]].
    assert (sz <= lenZ Q * PGSIZE) by (unfold lenZ in *; lia). destruct fuel; cbn [uvmcopy_loop]; by case_Z. }
  assert (lenZ Q * PGSIZE < sz) as Hlt by (unfold lenZ, PGSIZE in *; lia).
  destruct fuel as [|fuel]; [lia|]. cbn [uvmcopy_loop]. destruct (Z.ltb_spec (lenZ Q * PGSIZE) sz); [|lia].
  destruct (lookup_lt_is_Some_2 P (length Q)) as [p Hp]; [lia|].
  destruct (copy_entry _ _ _ _ _ _ _ _ _ _ _ U0 C Hne Hp) as ((pte & i0 & W & Hpos) & Htop & HV & HPA & _).
  pose proof TRAPFRAME_eq. pose proof MAXVA_eq. pose proof (lenZ_nonneg Q).
  rewrite (bind_Ok _ _ _ _ _ (walk_noalloc old (lenZ Q * PGSIZE) s ltac:(unfold PGSIZE in *; lia))). rewrite W. cbn [slot].
  destruct (Z.eqb_spec (pte + 8 * i0) 0); [lia|]. rewrite (bind_Ok _ _ _ _ _ (load64_entries pte i0 s)).
  rewrite <- (view_walk _ _ _ _ _ W), HV, HPA. cbn [negb]. rewrite Z.div_mul by done.
  assert (lenZ l < 3 -> forall s1 T1 l1, copy_inv s0 T0 l0 old new P s1 T1 l1 Q ->
    exists r s' T' l', (uvmunmap new 0 (lenZ Q) true ;;; return (-1)) s1 = Ok r s' /\
    ((r = 0 /\ exists Q', length Q' = length P /\ copy_inv s0 T0 l0 old new P s' T' l' Q' /\ lenZ l0 <= lenZ l' + 3 * lenZ Q') \/
     (r = -1 /\ copy_undone s0 T0 l0 old new P s' T' l'))) as Herr.
  { intros Hl s1 T1 l1 C1. destruct (copy_undo _ _ _ _ _ _ _ _ _ _ C1 Hne) as (s' & Hu & HA1 & HA2 & HA3 & HA4).
    exists (-1), s', T1, (rev Q ++ l1). rewrite (bind_Ok _ _ _ _ _ Hu). split; [done|]. right. split; [done|].
    split; [done|done|unfold lenZ in *; lia|done|done]. }
  destruct (copy_step _ _ _ _ _ _ _ _ _ _ _ U0 C Hne Hp) as
    [[-> Hk]|(q & s1 & Hk & Hq & [(s3 & s4 & T' & l' & Hm & Hkf & Hl & C')|(s3 & T' & l' & Hm & Hl & C')])].
  - rewrite (bind_Ok _ _ _ _ _ Hk). cbn [Z.eqb]. by eapply Herr.
  - rewrite (bind_Ok _ _ _ _ _ Hk). destruct (Z.eqb_spec q 0); [done|]. unfold mem_move. rewrite bind_modify.
    rewrite (bind_Ok _ _ _ _ _ Hm). cbn [Z.eqb negb]. rewrite (bind_Ok _ _ _ _ _ Hkf). by eapply Herr.
  - rewrite (bind_Ok _ _ _ _ _ Hk). destruct (Z.eqb_spec q 0); [done|]. unfold mem_move. rewrite bind_modify.
    rewrite (bind_Ok _ _ _ _ _ Hm). cbn [Z.eqb negb].
    assert (lenZ (Q ++ [q]) * PGSIZE = lenZ Q * PGSIZE + PGSIZE) as HQ.
    { rewrite lenZ_app. change (lenZ [q]) with 1. lia. }
    rewrite u64_small, <- HQ by (unfold PGSIZE in *; lia).
    eapply IH; [exact C'|done|rewrite lenZ_app; change (lenZ [q]) with 1; lia|rewrite length_app; cbn; lia|lia|done].
Qed.

Lemma uvmcopy_ok (s : kst) (T : gmap Z nat) (l : list Z) (old new sz : Z) (P : list Z) :
  uspace s T l old P -> uspace s T l new [] -> old <> new -> 0 <= sz -> PGROUNDUP sz = lenZ P * PGSIZE ->
  sz <= TRAPFRAME ->
  exists r s' T' l', uvmcopy old new sz s = Ok r s' /\
    ((r = 0 /\ exists Q, length Q = length P /\ copy_inv s T l old new P s' T' l' Q /\ lenZ l <= lenZ l' + 3 * lenZ Q) \/
     (r = -1 /\ copy_undone s T l old new P s' T' l')).
Proof.
  intros Uo Un Hne H0 Hsz Htop. pose proof TRAPFRAME_eq.
  destruct (PGROUNDUP_bounds sz) as [Hb _]; [lia|unfold PGSIZE; lia|]. rewrite Hsz in Hb.
  unfold uvmcopy. change 0 with (lenZ (@nil Z) * PGSIZE). apply (uvmcopy_run (length P) _ s T l old new P s T l [] sz Uo); [|done|unfold lenZ; cbn; lia|done| |done].
  - split; [exact Un|exact Uo|set_solver|apply moves_refl|done|intros va Hva; exfalso; change (lenZ (@nil Z) * PGSIZE) with 0 in Hva; lia|done].
  - change (lenZ (@nil Z) * PGSIZE) with 0 in *. apply Nat2Z.inj_le. fold (lenZ P).
    assert (lenZ P - 1 <= sz / PGSIZE); [|rewrite Z2Nat.id; [lia|]]; [|].
    + apply Z.div_le_lower_bound; unfold PGSIZE in *; lia.
    + pose proof (Z.div_pos sz PGSIZE H0 ltac:(done)). lia.
Qed.

(** C22: [uvmcopy] of a parent's address space into an empty child space either
    succeeds - the child has as many pages, each a fresh page of its own with the
    bytes and the permissions of the parent's page - or returns -1, leaving the child
    empty, which happens only if fewer than three pages were free for each page of the
    parent.  Every page that was free is then free again or serves the child's page table;
    after success it may also be one of the child's pages.  The parent's space and every
    other page table, with its pages, are unchanged. *)
Theorem uvmcopy_copies_or_undoes (s : kst) (T : gmap Z nat) (l : list Z) (old new sz : Z) (P : list Z) :
  uspace s T l old P -> uspace s T l new [] -> old <> new -> 0 <= sz -> PGROUNDUP sz = lenZ P * PGSIZE ->
  sz <= TRAPFRAME ->
  exists r s' T' l' Q, uvmcopy old new sz s = Ok r s' /\
    ((r = 0 /\ length Q = length P /\ copy_inv s T l old new P s' T' l' Q /\ lenZ l <= lenZ l' + 3 * lenZ Q) \/
     (r = -1 /\ Q = [] /\ copy_undone s T l old new P s' T' l')) /\
    (forall p, p ∈ l' \/ p ∈ Q \/ tree (entries (mem s')) new p <-> p ∈ l \/ tree (entries (mem s)) new p) /\
    (forall r p, T !! r = Some 2%nat -> r <> new -> tree (entries (mem s')) r p <-> tree (entries (mem s)) r p).
Proof.
  intros Uo Un Hne H0 Hsz Htop.
  destruct (uvmcopy_ok s T l old new sz P Uo Un Hne H0 Hsz Htop) as (r & s' & T' & l' & Hrun & [(-> & Q & HQ & C & Hl)|(-> & C)]).
  - exists 0, s', T', l', Q. pose proof (cp_new _ _ _ _ _ _ _ _ _ _ C) as U. pose proof (cp_moves _ _ _ _ _ _ _ _ _ _ C) as Mv.
    split; [done|]. split; [by left|]. split; [|intros; by apply (mv_trees _ _ _ _ _ _ _ _ Mv)].
    intros p. eapply moves_tables; [apply Un|apply U|apply Un|exact Mv|apply U].
  - exists (-1), s', T', l', []. pose proof (cu_new _ _ _ _ _ _ _ _ _ C) as U. pose proof (cu_moves _ _ _ _ _ _ _ _ _ C) as Mv.
    split; [done|]. split; [by right|]. split; [|intros; by apply (mv_trees _ _ _ _ _ _ _ _ Mv)].
    intros p. eapply moves_tables; [apply Un|apply U|apply Un|exact Mv|apply U].
Qed.
End copy.
