(* ===== verification/VmFree.v ===== *)
(** * Freeing a page table: [freewalk] and [uvmfree]

    [subtree] lists the pages of a page table.  Freeing a table that maps
    nothing gives exactly these pages back to the allocator. *)

From stdpp Require Import base list gmap strings list_numbers.
From S2P Require Import Prelude Riscv Mem Spinlock Kalloc Vm VmTable VmWalk VmUser.

Definition RWX : Z := Z.lor (Z.lor PTE_R PTE_W) PTE_X.

(** The indices of a page-table page. *)
Definition slots : list Z := seqZ 0 512.

(** The pages of the table at page [pt] of level [k]. *)
Fixpoint subtree (E : Z -> Z -> Z) (k : nat) (pt : Z) : list Z :=
  pt :: match k with
        | O => []
        | S k' => mjoin ((fun i => if flag (E pt i) PTE_V then subtree E k' (PTE2PA (E pt i)) else [])
                          <$> slots)
        end.
(** The pages below entry [i] of a page one level above [k]. *)
Definition kids (E : Z -> Z -> Z) (k : nat) (pt i : Z) : list Z :=
  if flag (E pt i) PTE_V then subtree E k (PTE2PA (E pt i)) else [].

(** The table maps no page. *)
Fixpoint empty_tree (E : Z -> Z -> Z) (k : nat) (pt : Z) : Prop :=
  forall i, 0 <= i < 512 ->
  match k with
  | O => flag (E pt i) PTE_V = false
  | S k' => flag (E pt i) PTE_V = true -> flag (E pt i) RWX = false /\ empty_tree E k' (PTE2PA (E pt i))
  end.

(** The pages below the entries from [0] to [i]. *)
Definition kids_upto (E : Z -> Z -> Z) (k : nat) (pt i : Z) : list Z := mjoin (kids E k pt <$> seqZ 0 i).

Lemma subtree_S E k pt : subtree E (S k) pt = pt :: kids_upto E k pt 512.
Proof. reflexivity. Qed.
#[global] Opaque slots kids_upto.

Lemma kids_upto_next E k pt i : 0 <= i -> kids_upto E k pt (i + 1) = kids_upto E k pt i ++ kids E k pt i.
Proof.
  intros Hi. with_strategy transparent [kids_upto] (unfold kids_upto). rewrite seqZ_app by lia. rewrite fmap_app, join_app. f_equal.
  replace (seqZ (0 + i) 1) with [i] by (rewrite seqZ_cons by lia; done).
  cbn. by rewrite app_nil_r.
Qed.

Lemma elem_kids_upto E k pt n p : p ∈ kids_upto E k pt n <-> exists i, 0 <= i < n /\ p ∈ kids E k pt i.
Proof.
  with_strategy transparent [kids_upto] (unfold kids_upto). rewrite list_elem_of_join. split.
  - intros (l & Hp & (i & -> & Hi%elem_of_seqZ)%list_elem_of_fmap). exists i. split; [lia|done].
  - intros (i & Hi & Hp). exists (kids E k pt i). split; [done|]. apply list_elem_of_fmap.
    exists i. split; [done|]. apply elem_of_seqZ. lia.
Qed.

Lemma subtree_self E k pt : pt ∈ subtree E k pt.
Proof. destruct k; apply elem_of_cons; by left. Qed.

(** The pages and the emptiness of a table only depend on its own entries. *)
Lemma subtree_ext E E' k pt :
  (forall p i, p ∈ subtree E k pt -> 0 <= i < 512 -> E' p i = E p i) ->
  subtree E' k pt = subtree E k pt /\ (empty_tree E k pt -> empty_tree E' k pt).
Proof.
  revert pt. induction k as [|k IH]; intros pt HE.
  - split; [done|]. cbn. intros He i Hi. rewrite HE; [by apply He|apply (subtree_self _ 0)|done].
  - assert (forall i, 0 <= i < 512 -> E' pt i = E pt i) as Hpt by (intros; apply HE; [apply subtree_self|done]).
    assert (forall i, 0 <= i < 512 -> flag (E pt i) PTE_V = true ->
      subtree E' k (PTE2PA (E pt i)) = subtree E k (PTE2PA (E pt i)) /\
      (empty_tree E k (PTE2PA (E pt i)) -> empty_tree E' k (PTE2PA (E pt i)))) as Hk.
    { intros i Hi Hv. apply IH. intros p j Hp Hj. apply HE; [|done]. rewrite subtree_S.
      apply elem_of_cons. right. apply elem_kids_upto. exists i. split; [done|]. unfold kids. by rewrite Hv. }
    split.
    + rewrite !subtree_S. f_equal. with_strategy transparent [kids_upto] (unfold kids_upto). f_equal. apply list_fmap_ext. intros j i Hji.
      apply list_elem_of_lookup_2, elem_of_seqZ in Hji. unfold kids. rewrite Hpt by lia.
      destruct (flag (E pt i) PTE_V) eqn:Hv; [|done]. apply Hk; [lia|done].
    + cbn. intros He i Hi. rewrite Hpt by done. intros Hv. destruct (He i Hi Hv) as [HR Hs].
      split; [done|]. by apply Hk.
Qed.

Lemma kids_upto_NoDup E k pt i n : 0 <= i <= n -> NoDup (kids_upto E k pt n) -> NoDup (kids_upto E k pt i).
Proof.
  intros Hi. with_strategy transparent [kids_upto] (unfold kids_upto). replace n with (i + (n - i)) by lia.
  rewrite seqZ_app, fmap_app, join_app by lia. by intros [? _]%NoDup_app.
Qed.

Section free.
Context `{Layout}.

(** The body of the loop of [freewalk] whose recursive calls have depth [d]. *)
Definition fw_body (d : nat) (pt i : Z) : M kst unit :=
  do pte <- load64 (pt + 8 * i);
  if flag pte PTE_V && negb (flag pte RWX) then
    freewalk_depth d (PTE2PA pte) ;;; store64 (pt + 8 * i) 0
  else if flag pte PTE_V then panic "freewalk: leaf" else return tt.

Lemma freewalk_S d pt : freewalk_depth (S d) pt = (for_range 512 0 (fw_body d pt) ;;; kfree pt).
Proof. reflexivity. Qed.

(** The state in the middle of [freewalk] of page [pt]: the tables below the
    first [i] entries are free. *)
Record fw_inv (s0 : kst) (l : list Z) (k : nat) (pt i : Z) (s : kst) : Prop := {
  fw_free : exists l', kinv s l' /\ l' ≡ₚ kids_upto (entries (mem s0)) k pt i ++ l;
  fw_rest : forall j, i <= j < 512 -> entries (mem s) pt j = entries (mem s0) pt j;
  fw_mem : forall x, (forall p, p ∈ pt :: kids_upto (entries (mem s0)) k pt i -> ~ p <= x < p + PGSIZE) ->
    ld8 (mem s) x = ld8 (mem s0) x
}.

(** The pages of the table can be freed. *)
Definition freeable (E : Z -> Z -> Z) (l : list Z) (k : nat) (pt : Z) : Prop :=
  NoDup (subtree E k pt) /\ Forall (fun p => page_ok p /\ p ∉ l) (subtree E k pt) /\ empty_tree E k pt.

(** Storing 0 in an entry of a page that is not free. *)
Lemma clear_entry s l pt i :
  kinv s l -> page_ok pt -> pt ∉ l -> 0 <= i < 512 ->
  exists s', store64 (pt + 8 * i) 0 s = Ok tt s' /\ kinv s' l /\
    (forall j, 0 <= j < 512 -> j <> i -> entries (mem s') pt j = entries (mem s) pt j) /\
    (forall x, ~ pt <= x < pt + PGSIZE -> ld8 (mem s') x = ld8 (mem s) x).
Proof.
  intros K Hok Hpt Hi. eexists. split; [reflexivity|].
  set (s' := set_mem (st64 (mem s) (pt + 8 * i) 0) s).
  assert (forall x, ~ pt <= x < pt + PGSIZE -> ld8 (mem s') x = ld8 (mem s) x) as F.
  { intros x Hx. apply ld8_st64_other. unfold PGSIZE in *. lia. }
  split; [|split; [|done]].
  - apply (kinv_frame s); [done|done|apply mem_ok_st64, K|]. intros p x Hp Hx. apply F.
    pose proof (flist_pages _ _ _ (kinv_list _ _ K)) as Hall. rewrite Forall_forall in Hall.
    apply (off_page p pt); [by apply Hall|done| |done]. congruence.
  - intros j Hj Hji. cbn. destruct Hok as [Ha _]. rewrite entries_store by (done || lia).
    rewrite decide_False by congruence. done.
Qed.

(** One round of the loop of [freewalk]. *)
Lemma freewalk_step k s0 l pt i s :
  (forall s l pt, kinv s l -> freeable (entries (mem s)) l k pt ->
     exists s' l', freewalk_depth (S k) pt s = Ok tt s' /\ kinv s' l' /\
       l' ≡ₚ subtree (entries (mem s)) k pt ++ l /\
       (forall x, (forall p, p ∈ subtree (entries (mem s)) k pt -> ~ p <= x < p + PGSIZE) ->
          ld8 (mem s') x = ld8 (mem s) x)) ->
  freeable (entries (mem s0)) l (S k) pt -> 0 <= i < 512 -> fw_inv s0 l k pt i s ->
  exists s', fw_body (S k) pt i s = Ok tt s' /\
    fw_inv s0 l k pt (i + 1) s'.
Proof.
  intros IH (HN & HF & He) Hi [(l1 & K & Hl1) Hrest Hmem].
  unfold fw_body. rewrite (bind_Ok _ _ _ _ _ (load64_entries pt i s)), Hrest by lia.
  set (E := entries (mem s0)) in *. rewrite subtree_S in HN, HF. apply NoDup_cons in HN as [Hpt HN].
  apply Forall_cons in HF as [[Hok Hptl] HF]. rewrite Forall_forall in HF.
  destruct (flag (E pt i) PTE_V) eqn:Hv; cbn [andb].
  2:{ exists s. split; [done|]. assert (kids_upto E k pt (i + 1) = kids_upto E k pt i) as Hk.
      { rewrite kids_upto_next by lia. unfold kids. rewrite Hv. apply app_nil_r. }
      split; fold E; rewrite ?Hk; [by exists l1| |done]. intros j Hj. apply Hrest. lia. }
  cbn in He. destruct (He i Hi Hv) as [HR Hsub]. rewrite HR. cbn [negb].
  set (c := PTE2PA (E pt i)) in *.
  assert (kids E k pt i = subtree E k c) as Hkid by (unfold kids; by rewrite Hv).
  assert (forall p, p ∈ subtree E k c -> p ∈ kids_upto E k pt 512) as Hin.
  { intros p Hp. apply elem_kids_upto. exists i. by rewrite Hkid. }
  assert (NoDup (kids_upto E k pt i ++ subtree E k c)) as HN'.
  { rewrite <- Hkid, <- kids_upto_next by lia. apply (kids_upto_NoDup _ _ _ _ 512); [lia|done]. }
  apply NoDup_app in HN' as (_ & Hdis & HNc).
  assert (forall p j, p ∈ subtree E k c -> 0 <= j < 512 -> entries (mem s) p j = E p j) as HE.
  { intros p j Hp Hj. apply entries_frame; [done|]. intros x Hx. apply Hmem.
    intros q Hq. apply (off_page p q); [apply HF; auto| | |done].
    - apply elem_of_cons in Hq as [->|(i' & Hi' & Hq)%elem_kids_upto]; [done|]. apply HF.
      apply elem_kids_upto. exists i'. split; [lia|done].
    - intros ->. apply elem_of_cons in Hq as [->|Hq]; [by apply Hpt, Hin|]. by apply (Hdis q). }
  destruct (subtree_ext E (entries (mem s)) k c HE) as [Hst Hemp].
  destruct (IH s l1 c K) as (s1 & l2 & H1 & K1 & Hl2 & F1).
  { split; [by rewrite Hst|]. rewrite Hst. split; [|by apply Hemp]. apply Forall_forall. intros p Hp.
    destruct (HF p (Hin p Hp)) as [? Hpl]. split; [done|]. rewrite Hl1, elem_of_app.
    intros [?|?]; [by apply (Hdis p)|done]. }
  rewrite Hst in Hl2, F1. rewrite (bind_Ok _ _ _ _ _ H1).
  destruct (clear_entry s1 l2 pt i K1 Hok) as (s2 & H2 & K2 & E2 & F2); [|done|].
  { rewrite Hl2, Hl1, !elem_of_app. intros [?|[(i' & Hi' & Hq)%elem_kids_upto|?]]; [by apply Hpt, Hin| |done].
    apply Hpt. apply elem_kids_upto. exists i'. split; [lia|done]. }
  exists s2. split; [done|]. split; fold E.
  - exists l2. split; [done|]. rewrite Hl2, Hl1, kids_upto_next, Hkid by lia.
    rewrite app_assoc. f_equiv. apply Permutation_app_comm.
  - intros j Hj. rewrite E2 by lia. rewrite <- Hrest by lia. apply entries_frame; [lia|].
    intros x Hx. apply F1. intros p Hp. apply (off_page pt p); [done|apply HF; auto| |done].
    intros ->. by apply Hpt, Hin.
  - intros x Hx. rewrite kids_upto_next, Hkid in Hx by lia. rewrite F2 by (apply Hx; apply elem_of_cons; by left).
    rewrite F1; [apply Hmem|]; intros p Hp; apply Hx; apply elem_of_cons.
    + apply elem_of_cons in Hp as [?|?]; [by left|right]. apply elem_of_app. by left.
    + right. apply elem_of_app. by right.
Qed.

Lemma freewalk_run k s l pt :
  kinv s l -> freeable (entries (mem s)) l k pt ->
  exists s' l', freewalk_depth (S k) pt s = Ok tt s' /\ kinv s' l' /\
    l' ≡ₚ subtree (entries (mem s)) k pt ++ l /\
    (forall x, (forall p, p ∈ subtree (entries (mem s)) k pt -> ~ p <= x < p + PGSIZE) ->
       ld8 (mem s') x = ld8 (mem s) x).
Proof.
  revert s l pt. induction k as [|k IH]; intros s l pt K Hfr; rewrite freewalk_S.
  - destruct Hfr as (_ & HF & He). cbn [subtree] in HF. apply Forall_cons in HF as [[Hok Hptl] _].
    destruct (for_range_inv (fun _ s' => s' = s) 512 0 (fw_body 0 pt) s) as (s' & Hloop & ->); [|done|].
    { intros j s' Hj ->. exists s. split; [|done]. unfold fw_body.
      rewrite (bind_Ok _ _ _ _ _ (load64_entries pt j s)). by rewrite (He j) by lia. }
    destruct (kfree_run s l pt K Hok Hptl) as (s' & Hk & K' & F). exists s', (pt :: l).
    rewrite (bind_Ok _ _ _ _ _ Hloop). split; [done|split; [done|split; [done|]]].
    intros x Hx. apply F. apply Hx. apply elem_of_cons. by left.
  - assert (forall j s', 0 <= j < 0 + Z.of_nat 512 -> fw_inv s l k pt j s' ->
      exists s'', fw_body (S k) pt j s' = Ok tt s'' /\ fw_inv s l k pt (j + 1) s'') as Hstep.
    { intros j s' Hj Hw. apply (freewalk_step k s l pt j s' IH Hfr); [lia|done]. }
    destruct (for_range_inv (fw_inv s l k pt) 512 0 _ s Hstep) as (s1 & Hloop & [(l1 & K1 & Hl1) _ F1]).
    { split; [by exists l|done|done]. }
    change (0 + Z.of_nat 512) with 512 in *.
    destruct Hfr as (HN & HF & _). rewrite subtree_S in *. apply NoDup_cons in HN as [Hpt _].
    apply Forall_cons in HF as [[Hok Hptl] _].
    destruct (kfree_run s1 l1 pt K1 Hok) as (s' & Hk & K' & F).
    { rewrite Hl1, elem_of_app. tauto. }
    exists s', (pt :: l1). rewrite (bind_Ok _ _ _ _ _ Hloop). split; [done|split; [done|split]].
    + by rewrite Hl1.
    + intros x Hx. rewrite F by (apply Hx; apply elem_of_cons; by left). by apply F1.
Qed.

(** ** The pages of a table of the kernel's page tables *)

Section typed.
Context (E : Z -> Z -> Z) (T : gmap Z nat) (I : ptinv E T).

Lemma elem_subtree_S k pt p :
  p ∈ subtree E (S k) pt <-> p = pt \/
    exists i, 0 <= i < 512 /\ flag (E pt i) PTE_V = true /\ p ∈ subtree E k (PTE2PA (E pt i)).
Proof.
  rewrite subtree_S, elem_of_cons, elem_kids_upto. split.
  - intros [?|(i & Hi & Hp)]; [by left|right]. exists i. unfold kids in Hp.
    destruct (flag (E pt i) PTE_V); [done|]. by apply not_elem_of_nil in Hp.
  - intros [?|(i & Hi & Hv & Hp)]; [by left|right]. exists i. unfold kids. by rewrite Hv.
Qed.

Lemma elem_subtree_tree k pt p : p ∈ subtree E k pt <-> in_pt E k pt p.
Proof.
  revert pt. induction k as [|k IH]; intros pt.
  - cbn. rewrite list_elem_of_singleton. tauto.
  - rewrite elem_subtree_S. cbn. by setoid_rewrite IH.
Qed.

Lemma subtree_typed k pt p :
  T !! pt = Some k -> p ∈ subtree E k pt -> exists j, T !! p = Some j /\ (j <= k)%nat /\ (j = k -> p = pt).
Proof. intros Hpt Hp%elem_subtree_tree. by apply (in_pt_typed E T k pt). Qed.

(** A page of a table is its root or hangs below a page of the table. *)
Lemma subtree_parent k pt p :
  T !! pt = Some k -> p ∈ subtree E k pt -> p = pt \/
  exists q j i, q ∈ subtree E k pt /\ T !! q = Some (S j) /\ 0 <= i < 512 /\
    flag (E q i) PTE_V = true /\ PTE2PA (E q i) = p.
Proof.
  revert pt. induction k as [|k IH]; intros pt Hpt.
  - cbn. intros ->%list_elem_of_singleton. by left.
  - rewrite elem_subtree_S. intros [->|(i & Hi & Hv & Hp)]; [by left|right].
    destruct (IH _ (pt_child _ _ I _ _ _ Hpt Hi Hv) Hp) as [->|(q & j & i' & Hq & HT & Hi' & Hv' & He)].
    + exists pt, k, i. split; [apply elem_subtree_S; by left|done].
    + exists q, j, i'. split; [|done]. apply elem_subtree_S. right. eauto.
Qed.

Lemma subtree_inj k c1 c2 p :
  T !! c1 = Some k -> T !! c2 = Some k -> p ∈ subtree E k c1 -> p ∈ subtree E k c2 -> c1 = c2.
Proof. intros H1 H2 Hp1%elem_subtree_tree Hp2%elem_subtree_tree. by apply (in_pt_inj E T k c1 c2 p). Qed.

Lemma subtree_NoDup k pt : T !! pt = Some k -> NoDup (subtree E k pt).
Proof.
  revert pt. induction k as [|k IH]; intros pt Hpt; [apply NoDup_singleton|].
  rewrite subtree_S. apply NoDup_cons. split.
  { intros (i & Hi & Hp)%elem_kids_upto. unfold kids in Hp.
    destruct (flag (E pt i) PTE_V) eqn:Hv; [|by apply not_elem_of_nil in Hp].
    destruct (subtree_typed k _ pt (pt_child _ _ I _ _ _ Hpt Hi Hv) Hp) as (j & Hj & Hle & _).
    rewrite Hpt in Hj. injection Hj as <-. lia. }
  assert (forall n : nat, (n <= 512)%nat -> NoDup (kids_upto E k pt (Z.of_nat n))) as Hall;
    [|by apply (Hall 512%nat)].
  induction n as [|n IHn]; intros Hn; [constructor|].
  replace (Z.of_nat (S n)) with (Z.of_nat n + 1) by lia. rewrite kids_upto_next by lia.
  apply NoDup_app. split; [apply IHn; lia|]. split.
  - intros p (i & Hi & Hp)%elem_kids_upto Hp'. unfold kids in Hp, Hp'.
    destruct (flag (E pt i) PTE_V) eqn:Hv; [|by apply not_elem_of_nil in Hp].
    destruct (flag (E pt (Z.of_nat n)) PTE_V) eqn:Hv'; [|by apply not_elem_of_nil in Hp'].
    assert (PTE2PA (E pt i) = PTE2PA (E pt (Z.of_nat n))) as Hc.
    { eapply subtree_inj; [..|exact Hp|exact Hp']; eapply (pt_child _ _ I); eauto; lia. }
    destruct (pt_once _ _ I pt pt k k i (Z.of_nat n) Hpt Hpt ltac:(lia) ltac:(lia) Hv Hv' Hc). lia.
  - unfold kids. destruct (flag (E pt (Z.of_nat n)) PTE_V) eqn:Hv; [|constructor].
    apply IH. eapply (pt_child _ _ I); eauto. lia.
Qed.

(** The pages of a table do not depend on its last level. *)
Lemma subtree_dirs E' k pt :
  T !! pt = Some k -> (forall q j l, T !! q = Some (S l) -> 0 <= j < 512 -> E' q j = E q j) ->
  subtree E' k pt = subtree E k pt.
Proof.
  intros Hpt HE. revert pt Hpt. induction k as [|k IH]; intros pt Hpt; [done|].
  rewrite !subtree_S. f_equal. with_strategy transparent [kids_upto] (unfold kids_upto).
  f_equal. apply list_fmap_ext. intros j i Hji. apply list_elem_of_lookup_2, elem_of_seqZ in Hji.
  unfold kids. rewrite (HE _ _ _ Hpt) by lia. destruct (flag (E pt i) PTE_V) eqn:Hv; [|done].
  apply IH. eapply (pt_child _ _ I); eauto.
Qed.

(** The other tables, when the table at [root] is removed. *)
Definition prune (root : Z) : gmap Z nat := filter (fun '(p, _) => p ∉ subtree E 2 root) T.

Lemma prune_lookup root p k : prune root !! p = Some k <-> T !! p = Some k /\ p ∉ subtree E 2 root.
Proof. unfold prune. by rewrite map_lookup_filter_Some. Qed.

Lemma ptinv_prune root : T !! root = Some 2%nat -> ptinv E (prune root).
Proof.
  intros Hr. split.
  - intros p k [Hp _]%prune_lookup. by eapply pt_level.
  - intros p k i [Hp Hn]%prune_lookup Hi Hv. apply prune_lookup.
    pose proof (pt_child _ _ I _ _ _ Hp Hi Hv) as Hc. split; [done|]. intros Hin.
    destruct (subtree_parent 2 root _ Hr Hin) as [He|(q & j & i' & Hq & HT & Hi' & Hv' & He)].
    + rewrite He, Hr in Hc. injection Hc as <-. pose proof (pt_level _ _ I _ _ Hp). lia.
    + destruct (pt_once _ _ I _ _ _ _ _ _ HT Hp Hi' Hi Hv' Hv He) as [-> _]. done.
  - intros p q k k' i j [Hp _]%prune_lookup [Hq _]%prune_lookup. by apply (pt_once _ _ I _ _ k k').
  - intros p k i [Hp _]%prune_lookup. by apply (pt_dir _ _ I _ k).
  - intros p k [Hp Hn]%prune_lookup. destruct (pt_held _ _ I _ _ Hp) as [?|(q & i & Hq & Hi & Hv & <-)]; [by left|right].
    exists q, i. split; [|done]. apply prune_lookup. split; [done|]. intros Hin. apply Hn. apply elem_subtree_tree.
    eapply in_pt_child; [exact I|done| |exact Hq|done|done]. by apply elem_subtree_tree.
Qed.

(** A table all of whose translations are invalid maps no page. *)
Lemma PX_digits i2 i1 i0 :
  0 <= i2 < 512 -> 0 <= i1 < 512 -> 0 <= i0 < 512 ->
  let va := ((i2 * 512 + i1) * 512 + i0) * 4096 in
  PX 2 va = i2 /\ PX 1 va = i1 /\ PX 0 va = i0 /\ 0 <= va < 2 ^ 39.
Proof.
  intros H2 H1 H0 va. rewrite !PX_eq by lia.
  change (2 ^ (12 + 9 * 2)) with (4096 * 512 * 512). change (2 ^ (12 + 9 * 1)) with (4096 * 512).
  change (2 ^ (12 + 9 * 0)) with 4096.
  assert (va / (4096 * 512 * 512) = i2) as ->.
  { symmetry. apply (Z.div_unique_pos _ _ _ ((i1 * 512 + i0) * 4096)); unfold va; lia. }
  assert (va / (4096 * 512) = i2 * 512 + i1) as ->.
  { symmetry. apply (Z.div_unique_pos _ _ _ (i0 * 4096)); unfold va; lia. }
  assert (va / 4096 = (i2 * 512 + i1) * 512 + i0) as -> by (unfold va; by rewrite Z.div_mul by lia).
  split; [by apply Z.mod_small|]. split; [|split; [|unfold va; lia]].
  - rewrite Z.add_comm, Z_mod_plus_full. by apply Z.mod_small.
  - rewrite Z.add_comm, Z_mod_plus_full. by apply Z.mod_small.
Qed.

Lemma invalid_empty root :
  T !! root = Some 2%nat -> (forall va, 0 <= va < 2 ^ 39 -> flag (view E root va) PTE_V = false) ->
  empty_tree E 2 root.
Proof.
  intros Hr Hall i2 Hi2 Hv2. split; [by apply (pt_dir _ _ I root 1)|].
  pose proof (pt_child _ _ I _ _ _ Hr Hi2 Hv2) as H1. intros i1 Hi1 Hv1.
  split; [by apply (pt_dir _ _ I _ 0 _ H1)|]. intros i0 Hi0.
  destruct (PX_digits i2 i1 i0 Hi2 Hi1 Hi0) as (E2 & E1 & E0 & Hva).
  specialize (Hall _ Hva). unfold view in Hall. cbn [pwalk] in Hall.
  change (Z.of_nat 2) with 2 in Hall. change (Z.of_nat 1) with 1 in Hall.
  by rewrite E2, Hv2, E1, Hv1, E0 in Hall.
Qed.
End typed.

Lemma uvmfree_run (s : kst) (T : gmap Z nat) (l : list Z) (root sz : Z) (P : list Z) :
  uspace s T l root P -> 0 <= sz <= TRAPFRAME -> PGROUNDUP sz = lenZ P * PGSIZE ->
  (forall va, TRAPFRAME <= va < 2 ^ 39 -> flag (view (entries (mem s)) root va) PTE_V = false) ->
  let D := subtree (entries (mem s)) 2 root in
  exists s' l', uvmfree root sz s = Ok tt s' /\ l' ≡ₚ D ++ P ++ l /\
    vinv s' (prune (entries (mem s)) T root) l' /\
    (forall r va, T !! r = Some 2%nat -> r <> root -> 0 <= va < 2 ^ 39 ->
       view (entries (mem s')) r va = view (entries (mem s)) r va) /\
    (forall x, outside T (P ++ l) x -> ld8 (mem s') x = ld8 (mem s) x) /\
    (forall r p, T !! r = Some 2%nat -> r <> root -> tree (entries (mem s')) r p <-> tree (entries (mem s)) r p).
Proof.
  intros U Hsz Hup Htop D. pose proof TRAPFRAME_eq. pose proof (us_size _ _ _ _ _ U) as Hs.
  pose proof MAXVA_eq. pose proof (lenZ_nonneg P). pose proof (us_inv _ _ _ _ _ U) as I0.
  pose proof (us_root _ _ _ _ _ U) as Hr.
  destruct (uvmunmap_run P s T l root 0 true) as (s1 & Hrun & I1 & V1 & F1 & E1);
    [done|done|done|done|lia|apply U|intros _; apply U|]. rewrite Z.add_0_l in Hrun.
  assert ((if sz >? 0 then uvmunmap root 0 (PGROUNDUP sz / PGSIZE) true else return tt) s = Ok tt s1) as Hum.
  { rewrite Hup, Z.div_mul by done. rewrite Z.gtb_ltb. destruct (Z.ltb_spec 0 sz).
    - unfold uvmunmap. rewrite Zmod_0_l. cbn [Z.eqb negb]. rewrite Z.add_0_l.
      rewrite u64_small by (unfold PGSIZE in *; lia). unfold lenZ at 1. by rewrite Nat2Z.id.
    - destruct (PGROUNDUP_bounds sz) as [Hb _]; [lia|unfold PGSIZE; lia|].
      assert (P = []) as -> by (destruct P; [done|]; rewrite lenZ_cons in *; pose proof (lenZ_nonneg P); unfold PGSIZE in *; lia).
      change (lenZ (@nil Z) * PGSIZE) with 0 in Hrun. cbn in Hrun. exact Hrun. }
  assert (subtree (entries (mem s1)) 2 root = D) as HD by (apply (subtree_dirs _ T); [apply I0|done|done]).
  destruct (freewalk_run 2 s1 (rev P ++ l) root (v_k _ _ _ I1)) as (s' & l' & Hfw & K' & Hl' & F2).
  { split; [eapply subtree_NoDup; [apply I1|done]|]. split.
    - apply Forall_forall. intros p Hp. destruct (subtree_typed _ _ (v_pt _ _ _ I1) 2 root p Hr Hp) as (j & Hj & _).
      split; [by eapply v_ok|by eapply v_free].
    - apply (invalid_empty _ T (v_pt _ _ _ I1) root Hr). intros va Hva. rewrite V1 by done. unfold unmapped_view.
      case_decide; [done|]. destruct (decide (va < TRAPFRAME)); [|apply Htop; lia].
      apply (us_free _ _ _ _ _ U). lia. }
  rewrite HD in Hl', F2. set (T' := prune (entries (mem s)) T root).
  assert (forall p k, T' !! p = Some k <-> T !! p = Some k /\ p ∉ D) as HT' by (intros; apply prune_lookup).
  assert (vinv s1 T' (rev P ++ l)) as I1'.
  { split; [apply I1| |intros p k [Hp _]%HT'; by eapply v_ok|intros p k [Hp _]%HT'; by eapply v_free].
    replace T' with (prune (entries (mem s1)) T root) by (unfold T', prune; by rewrite HD).
    apply ptinv_prune; [apply I1|done]. }
  destruct (vinv_frame s1 s' T' (rev P ++ l) l' I1' K') as (I' & V2 & Ht2).
  { intros p k [Hp HnD]%HT'. rewrite Hl', elem_of_app. intros [?|?]; [done|]. by apply (v_free _ _ _ I1 _ _ Hp). }
  { intros p k x [Hp HnD]%HT' Hx. apply F2. intros q Hq.
    rewrite <- HD in Hq. destruct (subtree_typed _ _ (v_pt _ _ _ I1) 2 root q Hr Hq) as (j & Hj & _).
    apply (off_page p q); [apply (v_ok _ _ _ I1 _ _ Hp)|apply (v_ok _ _ _ I1 _ _ Hj)| |done]. intros ->. by rewrite HD in Hq. }
  exists s', l'. split; [unfold uvmfree; by rewrite (bind_Ok _ _ _ _ _ Hum)|].
  split; [rewrite Hl', <- (Permutation_rev P); done|]. split; [done|].
  assert (forall r, T !! r = Some 2%nat -> r <> root -> T' !! r = Some 2%nat) as Hother.
  { intros r Hr' Hne. apply HT'. split; [done|]. rewrite <- HD. intros Hin.
    destruct (subtree_typed _ _ (v_pt _ _ _ I1) 2 root r Hr Hin) as (j & Hj & _ & He).
    apply Hne, He. congruence. }
  split; [|split].
  - intros r va Hr' Hne Hva. rewrite V2 by auto. rewrite V1 by done. unfold unmapped_view. by rewrite decide_False by tauto.
  - intros x Hx. rewrite F2, F1; [done| |].
    + intros p [Hp|Hp]; apply Hx; [by left|right]. rewrite elem_of_app in *.
      destruct Hp as [Hp|?]; [left|by right]. by rewrite <- (Permutation_rev P) in Hp.
    + intros p Hp. apply Hx. left. rewrite <- HD in Hp.
      destruct (subtree_typed _ _ (v_pt _ _ _ I1) 2 root p Hr Hp) as (j & Hj & _). eauto.
  - intros r p Hr' Hne. rewrite Ht2 by auto. apply (tree_dirs _ _ T); [apply I0|done|done].
Qed.

(** [uvmfree] of an address space with nothing mapped above its size gives
    back every page of the process and every page of its page table, each exactly
    once, and nothing else; the other page tables keep their pages and their
    translations, and no other page is written. *)
Theorem uvmfree_frees_all (s : kst) (T : gmap Z nat) (l : list Z) (root sz : Z) (P : list Z) :
  uspace s T l root P -> 0 <= sz <= TRAPFRAME -> PGROUNDUP sz = lenZ P * PGSIZE ->
  (forall va, TRAPFRAME <= va < 2 ^ 39 -> flag (view (entries (mem s)) root va) PTE_V = false) ->
  let D := subtree (entries (mem s)) 2 root in
  exists s' l', uvmfree root sz s = Ok tt s' /\ l' ≡ₚ D ++ P ++ l /\
    vinv s' (prune (entries (mem s)) T root) l' /\
    (forall r va, T !! r = Some 2%nat -> r <> root -> 0 <= va < 2 ^ 39 ->
       view (entries (mem s')) r va = view (entries (mem s)) r va) /\
    (forall x, outside T (P ++ l) x -> ld8 (mem s') x = ld8 (mem s) x) /\
    (forall r p, T !! r = Some 2%nat -> r <> root -> tree (entries (mem s')) r p <-> tree (entries (mem s)) r p).
Proof. apply uvmfree_run. Qed.
End free.
