(* ===== verification/VmExamples.v ===== *)
(** * A concrete machine state for the theorems of the virtual memory files

    A process of one page, an empty address space, and two free pages. *)

From stdpp Require Import base list gmap strings list_numbers.
From S2P Require Import Prelude Riscv Mem Spinlock Kalloc Vm VmTable VmWalk VmUser VmCopy VmFree.

#[local] Program Instance ex_layout : Layout :=
  {| etext := PHYSTOP - 16 * PGSIZE; kend := PHYSTOP - 8 * PGSIZE; trampoline := PHYSTOP - 17 * PGSIZE |}.
Solve Obligations with (vm_compute; congruence).

(** Page [k] below the end of memory: 1 to 3 are the page table of the process,
    4 its page, 5 and 6 are free, 7 is an empty page table. *)
Definition pg (k : Z) : Z := PHYSTOP - k * PGSIZE.
Definition ex_words : list (Z * Z) :=
  [(pg 1, Z.lor (PA2PTE (pg 2)) PTE_V); (pg 2, Z.lor (PA2PTE (pg 3)) PTE_V);
   (pg 3, map_word (pg 4) (Z.lor (Z.lor PTE_R PTE_W) PTE_U)); (pg 5, pg 6)].
Definition ex_mem : memory := foldr (fun '(a, v) m => st64 m a v) ∅ ex_words.
Definition ex : kst := {| mem := ex_mem; km := {| klock := initlock; freelist := pg 5 |} |}.
Definition exT : gmap Z nat := {[pg 1 := 2%nat; pg 2 := 1%nat; pg 3 := 0%nat; pg 7 := 2%nat]}.

Lemma pg_ok k : 1 <= k <= 8 -> page_ok (pg k).
Proof.
  intros Hk. unfold page_ok, pg. split.
  - replace (PHYSTOP - k * PGSIZE) with ((557056 - k) * PGSIZE) by (unfold PHYSTOP, KERNBASE, PGSIZE; lia).
    apply Z_mod_mult.
  - cbn [kend ex_layout]. unfold PGSIZE. lia.
Qed.

Lemma pg_inj i j : pg i = pg j -> i = j.
Proof. unfold pg, PGSIZE. lia. Qed.

Lemma ex_word_ok w : w ∈ ex_words -> (exists k, 1 <= k <= 8 /\ w.1 = pg k) /\ 0 <= w.2 < 2 ^ 64.
Proof.
  assert (forall k, 1 <= k <= 8 -> 0 <= pg k < 2 ^ 56) as Hpg.
  { intros k Hk. unfold pg, PHYSTOP, KERNBASE, PGSIZE. lia. }
  unfold ex_words. rewrite !elem_of_cons, elem_of_nil. intros [->|[->|[->|[->|[]]]]]; cbn [fst snd]; split;
    try (by eexists; split; [|reflexivity]; lia).
  - apply (page_ok_word (pg 2)), pg_ok. lia.
  - apply (page_ok_word (pg 3)), pg_ok. lia.
  - apply map_word_bound; [apply Hpg; lia|vm_compute; split; congruence].
  - specialize (Hpg 6). lia.
Qed.

(** Every word of a page of the example. *)
Lemma ex_entries k i :
  1 <= k <= 8 -> 0 <= i < 512 ->
  entries ex_mem (pg k) i = if decide (i = 0) then
     (if decide (k = 1) then Z.lor (PA2PTE (pg 2)) PTE_V else
      if decide (k = 2) then Z.lor (PA2PTE (pg 3)) PTE_V else
      if decide (k = 3) then map_word (pg 4) (Z.lor (Z.lor PTE_R PTE_W) PTE_U) else
      if decide (k = 5) then pg 6 else 0) else 0.
Proof.
  intros Hk Hi.
  assert (forall m j v, (pg j, v) ∈ ex_words -> 1 <= j <= 8 -> entries (st64 m (pg j) v) (pg k) i =
    if decide (i = 0 /\ k = j) then v else entries m (pg k) i) as Hst.
  { intros m j v Hin Hj. destruct (ex_word_ok _ Hin) as (_ & Hv). cbn in Hv.
    replace (pg j) with (pg j + 8 * 0) at 1 by lia.
    rewrite entries_store by ((by apply pg_ok) || done || lia). apply decide_ext.
    split; [intros [= Hp%pg_inj ->]; done|intros [-> ->]; done]. }
  unfold ex_mem, ex_words. cbn [foldr]. rewrite !Hst by (lia || set_solver).
  assert (entries ∅ (pg k) i = 0) as -> by done.
  repeat case_decide; done || lia.
Qed.

Lemma exT_lookup p n : exT !! p = Some n <->
  (p = pg 1 /\ n = 2%nat) \/ (p = pg 2 /\ n = 1%nat) \/ (p = pg 3 /\ n = 0%nat) \/ (p = pg 7 /\ n = 2%nat).
Proof.
  unfold exT. rewrite !lookup_insert_Some, lookup_singleton_Some.
  assert (forall i j, i <> j -> pg i <> pg j) as Hne by (intros i j Hij ?%pg_inj; done).
  pose proof (Hne 1 2 ltac:(lia)). pose proof (Hne 1 3 ltac:(lia)). pose proof (Hne 1 7 ltac:(lia)).
  pose proof (Hne 2 3 ltac:(lia)). pose proof (Hne 2 7 ltac:(lia)). pose proof (Hne 3 7 ltac:(lia)).
  split; [naive_solver|]. intros [[-> ->]|[[-> ->]|[[-> ->]|[-> ->]]]]; naive_solver.
Qed.

Lemma ex_kinv : kinv ex [pg 5; pg 6].
Proof.
  split; [done| | |].
  - unfold ex, ex_mem, ex_words. cbn [mem foldr]. auto 6 using mem_ok_st64, mem_ok_empty.
  - apply NoDup_cons. split; [|apply NoDup_singleton]. intros ?%list_elem_of_singleton%pg_inj. lia.
  - cbn [flist]. split; [done|]. split; [apply pg_ok; lia|].
    assert (ld64 (mem ex) (pg 5) = pg 6) as ->.
    { pose proof (ex_entries 5 0 ltac:(lia) ltac:(lia)) as E. unfold entries in E.
      by rewrite Z.mul_0_r, Z.add_0_r in E. }
    split; [done|]. split; [apply pg_ok; lia|].
    pose proof (ex_entries 6 0 ltac:(lia) ltac:(lia)) as E. unfold entries in E.
    by rewrite Z.mul_0_r, Z.add_0_r in E.
Qed.

(** The entries of the upper levels that are valid. *)
Lemma ex_dirs p k i :
  exT !! p = Some (S k) -> 0 <= i < 512 -> flag (entries ex_mem p i) PTE_V = true ->
  i = 0 /\ exists j, (j = 1 /\ k = 1%nat \/ j = 2 /\ k = 0%nat) /\ p = pg j /\
    entries ex_mem p i = Z.lor (PA2PTE (pg (j + 1))) PTE_V.
Proof.
  intros Hp Hi Hv. apply exT_lookup in Hp as [[-> Hk]|[[-> Hk]|[[-> Hk]|[-> Hk]]]];
    try done; injection Hk as ->; rewrite ex_entries in * by lia;
    (destruct (decide (i = 0)) as [->|]; [|done]); (split; [done|]).
  - exists 1. split; [by left|done].
  - exists 2. split; [by right|done].
  - done.
Qed.

Lemma ex_vinv : vinv ex exT [pg 5; pg 6].
Proof.
  assert (forall j, 1 <= j <= 7 -> PTE2PA (Z.lor (PA2PTE (pg j)) PTE_V) = pg j) as Hpa.
  { intros j Hj. apply page_ok_word, pg_ok. lia. }
  split; [apply ex_kinv| | |].
  - split; cbn [mem ex].
    + intros p k. rewrite exT_lookup. intros [[_ ->]|[[_ ->]|[[_ ->]|[_ ->]]]]; lia.
    + intros p k i Hp Hi Hv. destruct (ex_dirs _ _ _ Hp Hi Hv) as (-> & j & Hj & -> & ->).
      rewrite Hpa by lia. apply exT_lookup. destruct Hj as [[-> ->]|[-> ->]]; tauto.
    + intros p q k k' i i' Hp Hq Hi Hi' Hv Hv'.
      destruct (ex_dirs _ _ _ Hp Hi Hv) as (-> & j & Hj & -> & ->).
      destruct (ex_dirs _ _ _ Hq Hi' Hv') as (-> & j' & Hj' & -> & ->).
      rewrite !Hpa by lia. intros He%pg_inj. split; [f_equal; lia|done].
    + intros p k i Hp Hi Hv. destruct (ex_dirs _ _ _ Hp Hi Hv) as (-> & j & Hj & -> & ->).
      apply page_ok_word, pg_ok. lia.
    + assert (forall j, 1 <= j <= 7 -> flag (Z.lor (PA2PTE (pg j)) PTE_V) PTE_V = true) as Hva.
      { intros j Hj. apply page_ok_word, pg_ok. lia. }
      intros p k. rewrite exT_lookup. intros [[_ ->]|[[-> ->]|[[-> ->]|[_ ->]]]]; [by left| | |by left]; right.
      * exists (pg 1), 0. rewrite exT_lookup, ex_entries by lia. rewrite !decide_True by lia. rewrite Hva, Hpa by lia. split; [tauto|]. split; [lia|done].
      * exists (pg 2), 0. rewrite exT_lookup, ex_entries by lia. rewrite decide_True, decide_False, decide_True by lia. rewrite Hva, Hpa by lia. split; [tauto|]. split; [lia|done].
  - intros p k Hp. apply exT_lookup in Hp as [[-> _]|[[-> _]|[[-> _]|[-> _]]]]; apply pg_ok; lia.
  - intros p k Hp. apply exT_lookup in Hp as [[-> _]|[[-> _]|[[-> _]|[-> _]]]];
      rewrite !elem_of_cons, elem_of_nil; intros [E%pg_inj|[E%pg_inj|[]]]; lia.
Qed.

(** The translations of the two address spaces. *)
Definition ex_pte : Z := map_word (pg 4) (Z.lor (Z.lor PTE_R PTE_W) PTE_U).

Lemma ex_view va :
  0 <= va < 2 ^ 39 -> view (entries ex_mem) (pg 1) va = if decide (va < PGSIZE) then ex_pte else 0.
Proof.
  intros Hva. assert (forall j, 1 <= j <= 7 -> flag (Z.lor (PA2PTE (pg j)) PTE_V) PTE_V = true /\
    PTE2PA (Z.lor (PA2PTE (pg j)) PTE_V) = pg j) as Hpa.
  { intros j Hj. split; apply page_ok_word, pg_ok; lia. }
  assert (va < PGSIZE <-> PX 2 va = 0 /\ PX 1 va = 0 /\ PX 0 va = 0) as Hpx.
  { split.
    - intros Hlt. rewrite <- !(PX_page _ va) by lia. rewrite PGROUNDDOWN_eq, Z.mod_small by lia.
      rewrite Z.sub_diag. done.
    - intros (H2 & H1 & H0). assert (PGROUNDDOWN va = PGROUNDDOWN 0) as E by (apply PX_inj; done || lia).
      pose proof (PGROUNDDOWN_bounds va). rewrite E, (PGROUNDDOWN_eq 0) in *. rewrite Zmod_0_l in *. lia. }
  rewrite (decide_ext _ _ _ _ Hpx). unfold view. cbn [pwalk].
  change (Z.of_nat 2) with 2. change (Z.of_nat 1) with 1.
  pose proof (PX_range 2 va ltac:(lia)). pose proof (PX_range 1 va ltac:(lia)). pose proof (PX_range 0 va ltac:(lia)).
  rewrite (ex_entries 1) by lia. destruct (decide (PX 2 va = 0)) as [E2|]; [|by case_decide; [naive_solver|]].
  rewrite decide_True by done. destruct (Hpa 2 ltac:(lia)) as [-> ->].
  rewrite (ex_entries 2) by lia. destruct (decide (PX 1 va = 0)) as [E1|]; [|by case_decide; [naive_solver|]].
  rewrite decide_False, decide_True by lia. destruct (Hpa 3 ltac:(lia)) as [-> ->].
  rewrite (ex_entries 3) by lia. destruct (decide (PX 0 va = 0)) as [E0|]; [|by case_decide; [naive_solver|]].
  rewrite !decide_False, !decide_True by (lia || done). done.
Qed.

Lemma ex_view2 va : view (entries ex_mem) (pg 7) va = 0.
Proof.
  unfold view. cbn [pwalk]. pose proof (PX_nat 2 va). rewrite (ex_entries 7) by lia. by case_decide.
Qed.

Lemma ex_uspace : uspace ex exT [pg 5; pg 6] (pg 1) [pg 4].
Proof.
  pose proof TRAPFRAME_eq. pose proof MAXVA_eq.
  split; cbn [mem ex]; change (lenZ [pg 4]) with 1; [apply ex_vinv|apply exT_lookup; by left| | |unfold PGSIZE; lia| |].
  - cbn [maps]. rewrite ex_view by lia. rewrite decide_True by (unfold PGSIZE; lia).
    destruct (pg_ok 4 ltac:(lia)) as [Ha _]. unfold ex_pte.
    destruct (map_word_leaf (pg 4) (Z.lor (Z.lor PTE_R PTE_W) PTE_U) Ha) as (HL & HPA & _);
      [unfold pg, PHYSTOP, KERNBASE, PGSIZE; lia|split; vm_compute; intuition congruence|]. done.
  - split; [apply NoDup_singleton|]. apply Forall_singleton. split; [apply pg_ok; lia|]. split.
    + rewrite !elem_of_cons, elem_of_nil. intros [E%pg_inj|[E%pg_inj|[]]]; lia.
    + apply eq_None_not_Some. intros [k Hk]. apply exT_lookup in Hk.
      destruct Hk as [[E%pg_inj _]|[[E%pg_inj _]|[[E%pg_inj _]|[E%pg_inj _]]]]; lia.
  - intros va Hva. rewrite ex_view by (unfold PGSIZE in *; lia). rewrite decide_False by lia. done.
  - intros va Hva. rewrite ex_view by (unfold PGSIZE in *; lia). rewrite decide_False by (unfold PGSIZE; lia). done.
Qed.

Lemma ex_uspace2 : uspace ex exT [pg 5; pg 6] (pg 7) [].
Proof.
  pose proof TRAPFRAME_eq. split; cbn [mem ex]; [apply ex_vinv|apply exT_lookup; tauto|done| |change (lenZ (@nil Z)) with 0; lia| |].
  - split; [constructor|by apply Forall_nil].
  - intros va _. by rewrite ex_view2.
  - intros va _. by rewrite ex_view2.
Qed.

(** ** The theorems at this state *)

Lemma ex_root : exT !! pg 1 = Some 2%nat.
Proof. apply exT_lookup. by left. Qed.
Lemma ex_root2 : exT !! pg 7 = Some 2%nat.
Proof. apply exT_lookup. tauto. Qed.
#[local] Opaque ex_mem exT pg.

Lemma walk_preserves_translations_witness :
  exists a s' T' l', walk (pg 7) 4096 true ex = Ok a s' /\ vinv s' T' l' /\
    view (entries (mem s')) (pg 1) 0 = ex_pte.
Proof.
  destruct (walk_preserves_translations ex exT [pg 5; pg 6] (pg 7) 4096 ex_vinv) as [Hlow _];
    [exact ex_root2|lia|].
  destruct Hlow as (_ & a & s' & T' & l' & H1 & H2 & H3 & _); [by rewrite MAXVA_eq|].
  exists a, s', T', l'. split; [exact H1|]. split; [exact H2|]. rewrite (H3 (pg 1) 0 ex_root). apply (ex_view 0). lia.
Defined.

Lemma mappages_maps_witness :
  exists r k s' T' l', mappages (pg 1) 4096 4096 (pg 6) (Z.lor PTE_R PTE_U) ex = Ok r s' /\
    evolves (pg 1) ex exT [pg 5; pg 6] s' T' l' /\ (r = 0 /\ k * PGSIZE = 4096 \/ r = -1 /\ 0 <= k * PGSIZE < 4096 /\ l' = [] /\ lenZ [pg 5; pg 6] * PGSIZE < 2 * 4096).
Proof.
  destruct (mappages_maps ex exT [pg 5; pg 6] (pg 1) 4096 4096 (pg 6) (Z.lor PTE_R PTE_U) ex_vinv)
    as (r & k & s' & T' & l' & H1 & H2 & H3 & _);
    [exact ex_root|reflexivity|reflexivity|lia|lia|by rewrite MAXVA_eq|apply pg_ok; lia|vm_compute; congruence
    |vm_compute; congruence|vm_compute; split; congruence| |exists r, k, s', T', l'; split; [exact H1|split; [exact H2|exact H3]]].
  intros a Ha. cbn [mem ex]. rewrite ex_view by lia. rewrite decide_False by (unfold PGSIZE; lia). done.
Defined.

Lemma uvmalloc_grows_or_undoes_witness :
  exists r s' T' l', uvmalloc (pg 1) 100 5000 PTE_W ex = Ok r s' /\
    ((r = 5000 /\ exists Q, lenZ ([pg 4] ++ Q) * PGSIZE = 8192) \/
     (r = 0 /\ alloc_undone ex exT [pg 5; pg 6] (pg 1) [pg 4] 1 s' T' l')).
Proof.
  destruct (uvmalloc_grows_or_undoes ex exT [pg 5; pg 6] (pg 1) 100 5000 PTE_W [pg 4] ex_uspace)
    as (r & s' & T' & l' & H1 & H2); [reflexivity|lia|by rewrite TRAPFRAME_eq|vm_compute; split; congruence|].
  exists r, s', T', l'. split; [exact H1|]. destruct H2 as [(Hr & Q & HQ & _)|Hr]; [left|right; exact Hr].
  split; [exact Hr|]. exists Q. exact HQ.
Defined.

Lemma uvmdealloc_shrinks_witness :
  exists s', uvmdealloc (pg 1) 100 0 ex = Ok 0 s' /\ uspace s' exT (rev [pg 4] ++ [pg 5; pg 6]) (pg 1) [].
Proof.
  destruct (uvmdealloc_shrinks ex exT [pg 5; pg 6] (pg 1) 100 0 [] [pg 4] ex_uspace) as (s' & H1 & H2 & _);
    [lia|reflexivity|reflexivity|]. exists s'. split; [exact H1|exact H2].
Defined.

(** The last bytes of the page of the process. *)
Lemma ex_zeros : read_bytes (user_byte ex (pg 1)) 4090 6 = Some [0; 0; 0; 0; 0; 0].
Proof.
  assert (forall va, 4090 <= va < 4096 -> user_byte ex (pg 1) va = Some 0) as Hb.
  { intros va Hva. assert (va = 4090 \/ va = 4091 \/ va = 4092 \/ va = 4093 \/ va = 4094 \/ va = 4095) as Hc by lia.
    unfold user_byte, user_addr. cbn [mem ex]. rewrite ex_view, decide_True by (unfold PGSIZE; lia).
    destruct Hc as [->|[->|[->|[->|[->| ->]]]]]; vm_compute; reflexivity. }
  cbn [read_bytes]. rewrite !Hb by lia. reflexivity.
Qed.
Lemma copyin_reads_user_witness : copyin (pg 1) 4090 6 ex = Ok (0, [0; 0; 0; 0; 0; 0]) ex /\
  exists bs, copyin (pg 1) 4090 7 ex = Ok (-1, bs) ex.
Proof.
  pose proof (copyin_reads_user ex exT [pg 5; pg 6] (pg 1) 4090 6 [pg 4] ex_uspace ltac:(lia)) as H6.
  pose proof (copyin_reads_user ex exT [pg 5; pg 6] (pg 1) 4090 7 [pg 4] ex_uspace ltac:(lia)) as H7.
  assert (user_byte ex (pg 1) 4096 = None) as Hn.
  { unfold user_byte, user_addr. cbn [mem ex]. rewrite ex_view, decide_False by (unfold PGSIZE; lia).
    by rewrite MAXVA_eq. }
  pose proof ex_zeros as Hr.
  change (Z.to_nat 6) with 6%nat in H6. change (Z.to_nat 7) with (6 + 1)%nat in H7.
  rewrite Hr in H6. rewrite read_bytes_app, Hr in H7. cbn [mbind option_bind read_bytes] in H7.
  change (4090 + Z.of_nat 6) with 4096 in H7. rewrite Hn in H7. split; [exact H6|exact H7].
Defined.

Lemma copyinstr_reads_string_witness : copyinstr (pg 1) 4095 9 ex = Ok (0, [0]) ex.
Proof.
  pose proof (copyinstr_reads_string ex exT [pg 5; pg 6] (pg 1) 4095 9 [pg 4] ex_uspace ltac:(lia)) as H9.
  assert (user_byte ex (pg 1) 4095 = Some 0) as Hb.
  { unfold user_byte, user_addr. cbn [mem ex]. rewrite ex_view, decide_True by (unfold PGSIZE; lia).
    vm_compute. reflexivity. }
  change (Z.to_nat 9) with 9%nat in H9. cbn [read_str] in H9. rewrite Hb in H9. exact H9.
Defined.

(** One byte fits before the end of the memory of the process, two do not; the first of
    them is written all the same. *)
Lemma copyout_writes_user_witness :
  (exists s', copyout (pg 1) 4095 [7] ex = Ok 0 s' /\ ld8 (mem s') (pg 4 + 4095) = 7) /\
  (exists s', copyout (pg 1) 4095 [7; 8] ex = Ok (-1) s' /\ ld8 (mem s') (pg 4 + 4095) = 7).
Proof.
  assert (user_addr ex (pg 1) PTE_W 4095 = Some (pg 4 + 4095)) as Ha.
  { unfold user_addr. cbn [mem ex]. rewrite ex_view, decide_True by (unfold PGSIZE; lia). vm_compute. reflexivity. }
  assert (user_addr ex (pg 1) PTE_W 4096 = None) as Hn.
  { unfold user_addr. cbn [mem ex]. rewrite ex_view, decide_False by (unfold PGSIZE; lia). by rewrite MAXVA_eq. }
  split.
  - destruct (copyout_writes_user ex exT [pg 5; pg 6] (pg 1) 4095 [7] [pg 4] ex_uspace) as
      (r & s' & k & H1 & _ & _ & _ & H2 & _ & H3); [repeat constructor; lia|lia|]. exists s'.
    destruct H3 as [(-> & ->)|(_ & Hk & H3)].
    + split; [exact H1|]. destruct (H2 0%nat 7 ltac:(cbn; lia) eq_refl) as (x & Hx & Hc).
      change (4095 + Z.of_nat 0) with 4095 in Hx. rewrite Ha in Hx. injection Hx as <-. exact Hc.
    + exfalso. cbn in Hk. assert (k = 0%nat) as -> by lia. change (4095 + Z.of_nat 0) with 4095 in H3. rewrite Ha in H3. discriminate H3.
  - destruct (copyout_writes_user ex exT [pg 5; pg 6] (pg 1) 4095 [7; 8] [pg 4] ex_uspace) as
      (r & s' & k & H1 & _ & _ & _ & H2 & _ & H3); [repeat constructor; lia|lia|]. exists s'.
    destruct H3 as [(-> & ->)|(-> & Hk & H3)].
    + exfalso. destruct (H2 1%nat 8 ltac:(cbn; lia) eq_refl) as (x & Hx & _). change (4095 + Z.of_nat 1) with 4096 in Hx. rewrite Hn in Hx. discriminate Hx.
    + split; [exact H1|]. cbn in Hk. destruct k as [|k].
      * exfalso. change (4095 + Z.of_nat 0) with 4095 in H3. rewrite Ha in H3. discriminate H3.
      * destruct (H2 0%nat 7 ltac:(lia) eq_refl) as (x & Hx & Hc). change (4095 + Z.of_nat 0) with 4095 in Hx. rewrite Ha in Hx. injection Hx as <-. exact Hc.
Defined.

Lemma uvmcopy_copies_or_undoes_witness :
  exists r s' T' l' Q, uvmcopy (pg 1) (pg 7) 100 ex = Ok r s' /\
    ((r = 0 /\ length Q = 1%nat /\ copy_inv ex exT [pg 5; pg 6] (pg 1) (pg 7) [pg 4] s' T' l' Q /\ 2 <= lenZ l' + 3 * lenZ Q) \/
     (r = -1 /\ Q = [] /\ copy_undone ex exT [pg 5; pg 6] (pg 1) (pg 7) [pg 4] s' T' l')) /\
    (forall p, p ∈ l' \/ p ∈ Q \/ tree (entries (mem s')) (pg 7) p <-> p ∈ [pg 5; pg 6] \/ tree (entries (mem ex)) (pg 7) p) /\
    (forall r p, exT !! r = Some 2%nat -> r <> pg 7 -> tree (entries (mem s')) r p <-> tree (entries (mem ex)) r p).
Proof.
  apply (uvmcopy_copies_or_undoes ex exT [pg 5; pg 6] (pg 1) (pg 7) 100 [pg 4] ex_uspace ex_uspace2);
    [intros ?%pg_inj; lia|lia|reflexivity|by rewrite TRAPFRAME_eq].
Defined.

Lemma uvmfree_frees_all_witness :
  exists s' (l' : list Z), uvmfree (pg 1) 100 ex = Ok tt s' /\ pg 4 ∈ l' /\ pg 1 ∈ l'.
Proof.
  destruct (uvmfree_frees_all ex exT [pg 5; pg 6] (pg 1) 100 [pg 4] ex_uspace) as (s' & l' & H1 & H2 & _).
  - rewrite TRAPFRAME_eq. lia.
  - reflexivity.
  - intros va Hva. rewrite TRAPFRAME_eq in Hva. cbn [mem ex]. rewrite ex_view by lia.
    rewrite decide_False by (unfold PGSIZE; lia). done.
  - exists s', l'. split; [exact H1|]. rewrite H2, !elem_of_app. split; [right; left; apply elem_of_cons; left; reflexivity|].
    left. apply subtree_self.
Defined.
