(* ===== verification/Sleeplock.v ===== *)
(** * Sleep locks: [kernel/sleeplock.c]

    The operations of one process, and the machine in which several processes
    acquire and release one sleep lock.  A step of the machine is what a process
    does while it holds the spin lock [lk->lk], up to the point where it
    releases it: at the end of the operation or inside [sleep]. *)

From stdpp Require Import base list gmap strings.
From S2P Require Import Prelude Spinlock.

Record sleeplock := mkSleeplock { sl_locked : Z; sl_lk : spinlock; sl_pid : Z }.

#[export] Instance sleeplock_inhabited : Inhabited sleeplock := populate (mkSleeplock 0 initlock 0).

Definition initsleeplock : sleeplock := {| sl_locked := 0; sl_lk := initlock; sl_pid := 0 |}.

Definition sl_spin : M spinlock unit -> M sleeplock unit :=
  zoom sl_lk (fun lk s => {| sl_locked := sl_locked s; sl_lk := lk; sl_pid := sl_pid s |}).

(** [while(lk->locked) sleep(lk, &lk->lk)] gives up the CPU at the first test
    that fails; the process runs the function again from there when woken. *)
Definition acquiresleep (pid : Z) : M sleeplock unit :=
  sl_spin lk_acquire ;;;
  do l <- gets sl_locked;
  if negb (l =? 0) then sleeps "sleep lock"
  else
    modify (fun s => {| sl_locked := 1; sl_lk := sl_lk s; sl_pid := pid |}) ;;;
    sl_spin lk_release.

(** The calls of [wakeup] change the process table, not the lock. *)
Definition releasesleep : M sleeplock unit :=
  sl_spin lk_acquire ;;;
  modify (fun s => {| sl_locked := 0; sl_lk := sl_lk s; sl_pid := 0 |}) ;;;
  sl_spin lk_release.

Definition holdingsleep (pid : Z) : M sleeplock bool :=
  sl_spin lk_acquire ;;;
  do r <- gets (fun s => negb (sl_locked s =? 0) && (sl_pid s =? pid));
  sl_spin lk_release ;;;
  return r.

(** A lock held by process [pid]. *)
Definition sl_held (pid : Z) : sleeplock := {| sl_locked := 1; sl_lk := initlock; sl_pid := pid |}.

Lemma acquiresleep_free pid : acquiresleep pid initsleeplock = Ok tt (sl_held pid).
Proof. done. Qed.
Lemma acquiresleep_busy pid q : acquiresleep pid (sl_held q) = Sleep "sleep lock".
Proof. done. Qed.
Lemma releasesleep_held pid : releasesleep (sl_held pid) = Ok tt initsleeplock.
Proof. done. Qed.
Lemma holdingsleep_held pid q : holdingsleep pid (sl_held q) = Ok (q =? pid) (sl_held q).
Proof. done. Qed.
Lemma holdingsleep_free pid : holdingsleep pid initsleeplock = Ok false initsleeplock.
Proof. done. Qed.

(** ** Several processes and one sleep lock *)

(** Where a process is: outside, asleep on the lock, woken but not yet
    running, or between [acquiresleep] and [releasesleep]. *)
Inductive ppc := Outside | Asleep | Woken | Inside.

#[export] Instance ppc_eq_dec : EqDecision ppc.
Proof. solve_decision. Defined.

Record smachine := mkSm { sm_lock : sleeplock; sm_pc : Z -> ppc }.

Definition set_pc (f : Z -> ppc) (p : Z) (c : ppc) : Z -> ppc := fun q => if q =? p then c else f q.

(** [wakeup(lk)]: every process asleep on the lock becomes runnable. *)
Definition wake_all (f : Z -> ppc) : Z -> ppc :=
  fun q => match f q with Asleep => Woken | c => c end.

(** Process [p] (its pid is positive) runs up to the next release of [lk->lk];
    [None] if it is asleep or the code panics. *)
Definition sm_next (p : Z) (m : smachine) : option smachine :=
  match sm_pc m p with
  | Outside | Woken =>
      match acquiresleep p (sm_lock m) with
      | Ok _ lk => Some {| sm_lock := lk; sm_pc := set_pc (sm_pc m) p Inside |}
      | Sleep _ => Some {| sm_lock := sm_lock m; sm_pc := set_pc (sm_pc m) p Asleep |}
      | _ => None
      end
  | Inside =>
      match releasesleep (sm_lock m) with
      | Ok _ lk => Some {| sm_lock := lk; sm_pc := wake_all (set_pc (sm_pc m) p Outside) |}
      | _ => None
      end
  | Asleep => None
  end.

Inductive sm_step : smachine -> smachine -> Prop :=
| sm_run p m m' : 0 < p -> sm_next p m = Some m' -> sm_step m m'.

Definition sm_init : smachine := {| sm_lock := initsleeplock; sm_pc := fun _ => Outside |}.

(** Either the lock is free, nobody is inside and nobody sleeps, or one process
    holds it. *)
Definition sm_inv (m : smachine) : Prop :=
  (sm_lock m = initsleeplock /\ forall q, sm_pc m q <> Inside /\ sm_pc m q <> Asleep) \/
  (exists p, 0 < p /\ sm_lock m = sl_held p /\ forall q, sm_pc m q = Inside <-> q = p).

Lemma sm_inv_step m m' : sm_inv m -> sm_step m m' -> sm_inv m'.
Proof.
  intros I Hs. destruct Hs as [p m m' Hp Hn]. unfold sm_next in Hn.
  destruct I as [[HL HQ]|(h & Hh & HL & HQ)].
  - rewrite HL, acquiresleep_free in Hn. destruct (HQ p) as [Hi Ha].
    assert (m' = {| sm_lock := sl_held p; sm_pc := set_pc (sm_pc m) p Inside |}) as ->
      by (destruct (sm_pc m p); congruence).
    right. exists p. split; [done|]. split; [done|]. intros q. cbn. unfold set_pc.
    destruct (Z.eqb_spec q p); [done|]. split; [|done]. intros ?. by destruct (HQ q).
  - rewrite HL, acquiresleep_busy, releasesleep_held in Hn. destruct (decide (p = h)) as [->|Hne].
    + rewrite (proj2 (HQ h) eq_refl) in Hn. injection Hn as <-. left. split; [done|]. intros q. cbn.
      unfold wake_all, set_pc. destruct (Z.eqb_spec q h); [done|].
      assert (sm_pc m q <> Inside) by (intros ?%HQ; done). by destruct (sm_pc m q).
    + assert (sm_pc m p <> Inside) as Hi by (intros ?%HQ; done).
      assert (m' = {| sm_lock := sl_held h; sm_pc := set_pc (sm_pc m) p Asleep |}) as ->
        by (destruct (sm_pc m p); congruence).
      right. exists h. split; [done|]. split; [done|]. intros q. cbn. unfold set_pc.
      destruct (Z.eqb_spec q p) as [->|]; [|apply HQ]. split; [done|]. intros ->. done.
Qed.

(** C26: processes that acquire and release one sleep lock, in any order, are
    never inside together; [holdingsleep] is true exactly for the process
    inside; no process sleeps while the lock is free, so no wakeup is lost; and
    some process can always take a step. *)
Theorem sleeplock_safe_and_live (m : smachine) :
  star sm_step sm_init m ->
  (forall p q, sm_pc m p = Inside -> sm_pc m q = Inside -> p = q) /\
  (forall p, 0 < p -> holdingsleep p (sm_lock m) = Ok (bool_decide (sm_pc m p = Inside)) (sm_lock m)) /\
  (sl_locked (sm_lock m) = 0 -> forall p, sm_pc m p <> Asleep) /\
  (exists p m', 0 < p /\ sm_next p m = Some m').
Proof.
  intros Hs. assert (sm_inv m) as I.
  { eapply star_invariant; [apply sm_inv_step|exact Hs|]. left. done. }
  destruct I as [[HL HQ]|(h & Hh & HL & HQ)]; rewrite HL.
  - split; [intros p q Hp; by destruct (HQ p)|]. split; [|split].
    + intros p _. rewrite holdingsleep_free. rewrite bool_decide_eq_false_2 by apply HQ. done.
    + intros _ p. apply HQ.
    + exists 1. eexists. split; [done|]. unfold sm_next. rewrite HL, acquiresleep_free.
      destruct (HQ 1). by destruct (sm_pc m 1).
  - split; [intros p q ->%HQ ->%HQ; done|]. split; [|split].
    + intros p _. rewrite holdingsleep_held. do 2 f_equal.
      destruct (Z.eqb_spec h p) as [->|Hne].
      * symmetry. by apply bool_decide_eq_true_2, HQ.
      * symmetry. apply bool_decide_eq_false_2. intros ?%HQ. done.
    + done.
    + exists h. eexists. split; [done|]. unfold sm_next. rewrite (proj2 (HQ h) eq_refl), HL, releasesleep_held. done.
Qed.

(** Process 1 takes the lock, process 2 goes to sleep on it, process 1 releases. *)
Lemma sleeplock_safe_and_live_witness :
  exists m, star sm_step sm_init m /\ sm_pc m 2 = Woken /\ exists p m', 0 < p /\ sm_next p m = Some m'.
Proof.
  assert (exists m, star sm_step sm_init m /\ sm_pc m 2 = Woken) as (m & Hs & Hw).
  { eexists. split.
    - eapply star_next; [apply (sm_run 1); [lia|reflexivity]|].
      eapply star_next; [apply (sm_run 2); [lia|reflexivity]|].
      eapply star_next; [apply (sm_run 1); [lia|reflexivity]|]. apply star_refl.
    - reflexivity. }
  exists m. split; [exact Hs|]. split; [exact Hw|].
  destruct (sleeplock_safe_and_live _ Hs) as (_ & _ & _ & Hlive). exact Hlive.
Defined.
