(* ===== verification/Bio.v ===== *)
(** * The buffer cache: [kernel/bio.c]

    [bcache] with its doubly linked list threaded through the buffers, and the
    disk below it.  A pointer to a buffer is its index in [bcache.buf]; [HEAD] is
    [&bcache.head].  The disk is the contents of its blocks and the sequence of
    the writes made so far. *)

From stdpp Require Import base list gmap strings.
From S2P Require Import Prelude Riscv Spinlock Sleeplock.

Definition BSIZE : Z := 1024.

(** [struct buf] *)
Record buf := mkBuf {
  b_valid : Z; b_disk : Z; b_dev : Z; b_blockno : Z; b_lock : sleeplock; b_refcnt : Z;
  b_prev : Z; b_next : Z; b_data : list Z
}.

Definition zero_block : list Z := replicate (Z.to_nat BSIZE) 0.

#[export] Instance buf_inhabited : Inhabited buf :=
  populate (mkBuf 0 0 0 0 (mkSleeplock 0 initlock 0) 0 0 0 zero_block).

Definition HEAD : Z := NBUF.

(** [bcache]; a buffer that was never written is as the loader leaves it, zero. *)
Record bcache := mkBcache { bc_lock : spinlock; bc_buf : gmap Z buf }.

(** The disk: block contents and the writes made, oldest first. *)
Record disk := mkDisk { platter : gmap Z (list Z); writes : list (Z * list Z) }.
Definition disk_read (p : gmap Z (list Z)) (n : Z) : list Z := default zero_block (p !! n).

(** The state: cache, disk, and the pid of the running process. *)
Record bst := mkBst { bc : bcache; dk : disk; me : Z }.

Definition buf_at (s : bst) (b : Z) : buf := bc_buf (bc s) !!! b.
Definition set_bufs (B : gmap Z buf) (s : bst) : bst :=
  {| bc := {| bc_lock := bc_lock (bc s); bc_buf := B |}; dk := dk s; me := me s |}.
Definition upd_buf (b : Z) (f : buf -> buf) : M bst unit :=
  modify (fun s => set_bufs (<[b := f (buf_at s b)]> (bc_buf (bc s))) s).
Definition get_buf (b : Z) : M bst buf := gets (fun s => buf_at s b).

Definition bc_spin : M spinlock unit -> M bst unit :=
  zoom (fun s => bc_lock (bc s))
       (fun lk s => {| bc := {| bc_lock := lk; bc_buf := bc_buf (bc s) |}; dk := dk s; me := me s |}).
Definition with_sleeplock {A} (b : Z) (m : Z -> M sleeplock A) : M bst A :=
  fun s => zoom (fun s => b_lock (buf_at s b))
    (fun lk s => let x := buf_at s b in
       set_bufs (<[b := mkBuf (b_valid x) (b_disk x) (b_dev x) (b_blockno x) lk (b_refcnt x)
                          (b_prev x) (b_next x) (b_data x)]> (bc_buf (bc s))) s) (m (me s)) s.

(** Field assignments. *)
Definition set_next (v : Z) (x : buf) : buf :=
  mkBuf (b_valid x) (b_disk x) (b_dev x) (b_blockno x) (b_lock x) (b_refcnt x) (b_prev x) v (b_data x).
Definition set_prev (v : Z) (x : buf) : buf :=
  mkBuf (b_valid x) (b_disk x) (b_dev x) (b_blockno x) (b_lock x) (b_refcnt x) v (b_next x) (b_data x).
Definition set_refcnt (v : Z) (x : buf) : buf :=
  mkBuf (b_valid x) (b_disk x) (b_dev x) (b_blockno x) (b_lock x) v (b_prev x) (b_next x) (b_data x).
Definition set_valid (v : Z) (x : buf) : buf :=
  mkBuf v (b_disk x) (b_dev x) (b_blockno x) (b_lock x) (b_refcnt x) (b_prev x) (b_next x) (b_data x).
Definition set_data (d : list Z) (x : buf) : buf :=
  mkBuf (b_valid x) (b_disk x) (b_dev x) (b_blockno x) (b_lock x) (b_refcnt x) (b_prev x) (b_next x) d.
Definition set_key (dev blockno : Z) (x : buf) : buf :=
  mkBuf (b_valid x) (b_disk x) dev blockno (b_lock x) (b_refcnt x) (b_prev x) (b_next x) (b_data x).
Definition set_block_lock (lk : sleeplock) (x : buf) : buf :=
  mkBuf (b_valid x) (b_disk x) (b_dev x) (b_blockno x) lk (b_refcnt x) (b_prev x) (b_next x) (b_data x).

(** ** The disk driver

    What a completed [virtio_disk_rw] does to the buffer and to the disk. *)
Definition virtio_disk_rw (b : Z) (write : bool) : M bst unit :=
  do x <- get_buf b;
  if write then
    modify (fun s => {| bc := bc s; me := me s;
      dk := {| platter := <[b_blockno x := b_data x]> (platter (dk s));
               writes := writes (dk s) ++ [(b_blockno x, b_data x)] |} |})
  else
    do d <- gets (fun s => disk_read (platter (dk s)) (b_blockno x));
    upd_buf b (set_data d).

(** ** bio.c *)

(** Move [b] to the front: the two assignments of [binit] and [brelse] to the
    neighbours and the two to [b] itself. *)
Definition push_front (b : Z) : M bst unit :=
  do h <- get_buf HEAD;
  upd_buf b (set_next (b_next h)) ;;;
  upd_buf b (set_prev HEAD) ;;;
  do h <- get_buf HEAD;
  upd_buf (b_next h) (set_prev b) ;;;
  upd_buf HEAD (set_next b).

(** The body of the loop of [binit]. *)
Definition binit_body (b : Z) : M bst unit :=
  do h <- get_buf HEAD;
  upd_buf b (set_next (b_next h)) ;;;
  upd_buf b (set_prev HEAD) ;;;
  upd_buf b (set_block_lock initsleeplock) ;;;
  do h <- get_buf HEAD;
  upd_buf (b_next h) (set_prev b) ;;;
  upd_buf HEAD (set_next b).

Definition binit : M bst unit :=
  bc_spin (fun _ => Ok tt initlock) ;;;
  upd_buf HEAD (set_prev HEAD) ;;;
  upd_buf HEAD (set_next HEAD) ;;;
  for_range (Z.to_nat NBUF) 0 binit_body.

(** The first loop of [bget], from [b] on. *)
Fixpoint bget_find (fuel : nat) (b dev blockno : Z) : M bst (option Z) :=
  if b =? HEAD then return None
  else
    match fuel with
    | O => fun _ => Diverge
    | S f =>
        do x <- get_buf b;
        if (b_dev x =? dev) && (b_blockno x =? blockno) then return (Some b)
        else bget_find f (b_next x) dev blockno
    end.
(** The second loop: the least recently used buffer that is not in use. *)
Fixpoint bget_lru (fuel : nat) (b : Z) : M bst (option Z) :=
  if b =? HEAD then return None
  else
    match fuel with
    | O => fun _ => Diverge
    | S f =>
        do x <- get_buf b;
        if b_refcnt x =? 0 then return (Some b) else bget_lru f (b_prev x)
    end.

Definition bget (dev blockno : Z) : M bst Z :=
  bc_spin lk_acquire ;;;
  do h <- get_buf HEAD;
  do r <- bget_find (Z.to_nat NBUF) (b_next h) dev blockno;
  match r with
  | Some b =>
      do x <- get_buf b;
      upd_buf b (set_refcnt (u32 (b_refcnt x + 1))) ;;;
      bc_spin lk_release ;;;
      with_sleeplock b acquiresleep ;;;
      return b
  | None =>
      do h <- get_buf HEAD;
      do r <- bget_lru (Z.to_nat NBUF) (b_prev h);
      match r with
      | Some b =>
          upd_buf b (set_key dev blockno) ;;;
          upd_buf b (set_valid 0) ;;;
          upd_buf b (set_refcnt 1) ;;;
          bc_spin lk_release ;;;
          with_sleeplock b acquiresleep ;;;
          return b
      | None => panic "bget: no buffers"
      end
  end.

Definition bread (dev blockno : Z) : M bst Z :=
  do b <- bget dev blockno;
  do x <- get_buf b;
  (if b_valid x =? 0 then virtio_disk_rw b false ;;; upd_buf b (set_valid 1) else return tt) ;;;
  return b.

Definition bwrite (b : Z) : M bst unit :=
  do h <- with_sleeplock b holdingsleep;
  if negb h then panic "bwrite" else virtio_disk_rw b true.

Definition brelse (b : Z) : M bst unit :=
  do h <- with_sleeplock b holdingsleep;
  if negb h then panic "brelse"
  else
    with_sleeplock b (fun _ => releasesleep) ;;;
    bc_spin lk_acquire ;;;
    do x <- get_buf b;
    upd_buf b (set_refcnt (u32 (b_refcnt x - 1))) ;;;
    do x <- get_buf b;
    (if b_refcnt x =? 0 then
       upd_buf (b_next x) (set_prev (b_prev x)) ;;;
       do x <- get_buf b;
       upd_buf (b_prev x) (set_next (b_next x)) ;;;
       push_front b
     else return tt) ;;;
    bc_spin lk_release.

Definition bpin (b : Z) : M bst unit :=
  bc_spin lk_acquire ;;;
  do x <- get_buf b;
  upd_buf b (set_refcnt (u32 (b_refcnt x + 1))) ;;;
  bc_spin lk_release.

Definition bunpin (b : Z) : M bst unit :=
  bc_spin lk_acquire ;;;
  do x <- get_buf b;
  upd_buf b (set_refcnt (u32 (b_refcnt x - 1))) ;;;
  bc_spin lk_release.

(** [memmove(b->data + off, bs, n)] by the holder of the buffer. *)
Definition buf_write (b : Z) (f : list Z -> list Z) : M bst unit :=
  upd_buf b (fun x => set_data (f (b_data x)) x).
Definition buf_data (b : Z) : M bst (list Z) := gets (fun s => b_data (buf_at s b)).
