(* ===== verification/BioSpec.v ===== *)
(** * The buffer cache as a map of block contents

    [binv] is the invariant of the cache: the linked list is a ring through all
    buffers, a block has at most one buffer, and a buffer that nobody holds or
    pins is a clean copy of its block.  [C] gives the current contents of every
    block of the disk, in the cache or not. *)

From stdpp Require Import base gmap strings list_numbers fin_sets functions list.
From S2P Require Import Prelude Riscv Spinlock Sleeplock Bio.

(** ** Doubly linked lists *)

(** The nodes [L] follow [x] and precede [y]. *)
Fixpoint lseg (nx pv : Z -> Z) (x : Z) (L : list Z) (y : Z) : Prop :=
  match L with
  | [] => nx x = y /\ pv y = x
  | z :: L' => nx x = z /\ pv z = x /\ lseg nx pv z L' y
  end.

Definition fupd (f : Z -> Z) (k v : Z) : Z -> Z := fun i => if i =? k then v else f i.

Section lists.
Implicit Types (nx pv : Z -> Z).

Lemma lseg_app nx pv x L1 b L2 y :
  lseg nx pv x (L1 ++ b :: L2) y <-> lseg nx pv x L1 b /\ lseg nx pv b L2 y.
Proof. revert x. induction L1 as [|z L1 IH]; intros x; cbn; [tauto|]. rewrite IH. tauto. Qed.

Lemma lseg_ext nx pv nx' pv' x L y :
  (forall i, i ∈ x :: L -> nx' i = nx i) -> (forall i, i ∈ L ++ [y] -> pv' i = pv i) ->
  lseg nx pv x L y -> lseg nx' pv' x L y.
Proof.
  revert x. induction L as [|z L IH]; intros x Hn Hp; cbn.
  - intros [H1 H2]. rewrite (Hn x), (Hp y) by set_solver. done.
  - intros (H1 & Hz & Hl). rewrite (Hn x), (Hp z) by set_solver. split; [done|]. split; [done|].
    apply IH; [| |done]; intros i Hi; [apply Hn|apply Hp]; set_solver.
Qed.

(** The first node and the last node of a segment. *)
Definition first (L : list Z) (y : Z) : Z := hd y L.
Definition final (x : Z) (L : list Z) : Z := default x (last L).

Lemma final_cons x z L : final x (z :: L) = final z L.
Proof. unfold final. destruct L as [|w L]; [done|]. rewrite last_cons_cons, last_cons. by destruct (last L). Qed.

Lemma lseg_ends nx pv x L y : lseg nx pv x L y -> nx x = first L y /\ pv y = final x L.
Proof.
  revert x. induction L as [|z L IH]; intros x; cbn [lseg]; [done|].
  intros (Hn & Hp & Hl). split; [done|]. rewrite final_cons. by apply IH.
Qed.

Lemma final_elem x L : final x L ∈ x :: L.
Proof.
  revert x. induction L as [|z L IH]; intros x; [set_solver|]. rewrite final_cons. specialize (IH z). set_solver.
Qed.

(** Making the end of a segment point somewhere else. *)
Lemma lseg_retarget nx pv x L y y' :
  lseg nx pv x L y -> NoDup (x :: L) -> y' ∉ L ->
  lseg (fupd nx (final x L) y') (fupd pv y' (final x L)) x L y'.
Proof.
  revert x. induction L as [|z L IH]; intros x; cbn [lseg].
  - intros _ _ _. unfold fupd, final. cbn. by rewrite !Z.eqb_refl.
  - intros (Hn & Hp & Hl) [Hx HN]%NoDup_cons Hy. rewrite final_cons. pose proof (final_elem z L) as Hf.
    unfold fupd at 1 2. destruct (Z.eqb_spec x (final z L)) as [E|_]; [rewrite E in Hx; done|].
    destruct (Z.eqb_spec z y') as [E|_]; [set_solver|]. split; [done|]. split; [done|].
    apply IH; [done|done|set_solver].
Qed.

(** Taking node [b] out of the ring through [h]. *)
Lemma ring_unlink nx pv h L1 b L2 :
  lseg nx pv h (L1 ++ b :: L2) h -> NoDup (h :: L1 ++ b :: L2) ->
  lseg (fupd nx (pv b) (nx b)) (fupd pv (nx b) (pv b)) h (L1 ++ L2) h.
Proof.
  intros [H1 H2]%lseg_app HN. rewrite NoDup_cons, NoDup_app, NoDup_cons in HN.
  destruct HN as (Hh & HN1 & Hd & Hb & HN2). rewrite elem_of_app, elem_of_cons in Hh.
  destruct (lseg_ends _ _ _ _ _ H1) as [_ ->]. destruct (lseg_ends _ _ _ _ _ H2) as [-> _].
  pose proof (final_elem h L1) as Hf.
  assert (NoDup (h :: L1)) as HN1' by (apply NoDup_cons; tauto).
  destruct L2 as [|z L2]; cbn [first hd].
  - rewrite app_nil_r. eapply lseg_retarget; [exact H1|done|tauto].
  - apply lseg_app. cbn [lseg] in H2. destruct H2 as (_ & _ & H2). split.
    + eapply lseg_retarget; [exact H1|done|]. intros Hz. apply (Hd z Hz). set_solver.
    + revert H2. apply lseg_ext; intros i Hi; unfold fupd.
      * destruct (Z.eqb_spec i (final h L1)) as [->|]; [|done]. exfalso.
        apply elem_of_cons in Hf as [Hf|Hf]; [rewrite Hf in Hi; tauto|]. apply (Hd _ Hf). set_solver.
      * destruct (Z.eqb_spec i z) as [->|]; [|done]. exfalso.
        rewrite NoDup_cons in HN2. rewrite elem_of_app, list_elem_of_singleton in Hi.
        destruct Hi as [Hi|Hi]; [tauto|]. apply Hh. right. right. set_solver.
Qed.

(** Putting node [b] at the front of the ring through [h]. *)
Lemma ring_push nx pv h L b :
  lseg nx pv h L h -> b ∉ h :: L -> NoDup (h :: L) ->
  lseg (fupd (fupd nx b (nx h)) h b) (fupd (fupd pv b h) (nx h) b) h (b :: L) h.
Proof.
  intros Hl Hb HN. destruct (lseg_ends _ _ _ _ _ Hl) as [Hf _]. rewrite Hf. cbn [lseg].
  assert (h <> b) as Hhb by set_solver. rewrite NoDup_cons in HN.
  assert (first L h <> b) as Hfb by (destruct L; cbn; set_solver).
  unfold fupd at 1. rewrite Z.eqb_refl. split; [done|]. split.
  { unfold fupd. destruct (Z.eqb_spec b (first L h)); [congruence|]. by rewrite Z.eqb_refl. }
  destruct L as [|z L]; cbn [first hd lseg] in *.
  - unfold fupd. destruct (Z.eqb_spec b h); [congruence|]. by rewrite !Z.eqb_refl.
  - destruct Hl as (_ & _ & Hl). unfold fupd at 1 2 3. destruct (Z.eqb_spec b h); [congruence|].
    rewrite !Z.eqb_refl. split; [done|]. split; [done|]. revert Hl.
    destruct HN as [Hh [Hz HN]%NoDup_cons].
    apply lseg_ext; intros i Hi; unfold fupd.
    + destruct (Z.eqb_spec i h), (Z.eqb_spec i b); try done; set_solver.
    + destruct (Z.eqb_spec i z) as [->|]; [exfalso; set_solver|].
      destruct (Z.eqb_spec i b) as [->|]; [exfalso; set_solver|done].
Qed.
End lists.

(** ** The invariant *)

Definition nxt (s : bst) (i : Z) : Z := b_next (buf_at s i).
Definition prv (s : bst) (i : Z) : Z := b_prev (buf_at s i).

(** What a buffer holds when [held] and [pins] are the blocks that are locked by
    the running process and pinned by the log. *)
Definition bufok (me : Z) (C : Z -> list Z) (held pins : gset Z) (x : buf) : Prop :=
  if decide (b_dev x = ROOTDEV) then
    b_valid x = 1 /\ b_data x = C (b_blockno x) /\
    b_refcnt x = Z.b2z (bool_decide (b_blockno x ∈ held)) + Z.b2z (bool_decide (b_blockno x ∈ pins)) /\
    b_lock x = if decide (b_blockno x ∈ held) then sl_held me else initsleeplock
  else b_refcnt x = 0 /\ b_lock x = initsleeplock.

(** Buffer [b] is the buffer of block [y]. *)
Definition at_buf (s : bst) (b y : Z) : Prop :=
  0 <= b < NBUF /\ b_dev (buf_at s b) = ROOTDEV /\ b_blockno (buf_at s b) = y.

Record binv (s : bst) (L : list Z) (C : Z -> list Z) (held pins : gset Z) : Prop := {
  bi_spin : bc_lock (bc s) = initlock;
  bi_ring : lseg (nxt s) (prv s) HEAD L HEAD;
  bi_nodup : NoDup (HEAD :: L);
  bi_all : forall i, i ∈ L <-> 0 <= i < NBUF;
  bi_buf : forall i, 0 <= i < NBUF -> bufok (me s) C held pins (buf_at s i);
  bi_key : forall i j y, at_buf s i y -> at_buf s j y -> i = j;
  bi_cached : forall y, y ∈ held ∪ pins -> exists i, at_buf s i y;
  bi_clean : forall y, y ∉ held -> y ∉ pins -> C y = disk_read (platter (dk s)) y
}.

(** The contents matter only pointwise. *)
Lemma binv_ext s L C C' held pins :
  (forall y, C' y = C y) -> binv s L C held pins -> binv s L C' held pins.
Proof.
  intros HC [H1 H2 H3 H4 H5 H6 H7 H8]. split; try done.
  - intros i Hi. specialize (H5 i Hi). unfold bufok in *. by rewrite HC.
  - intros y Hh Hp. rewrite HC. by apply H8.
Qed.

Lemma buf_at_set B s b x i :
  buf_at (set_bufs (<[b := x]> B) s) i = if decide (i = b) then x else B !!! i.
Proof.
  unfold buf_at, set_bufs. cbn. case_decide as E; [subst; by rewrite lookup_total_insert_eq|].
  by rewrite lookup_total_insert_ne.
Qed.

(** A state that differs from [s] in the fields of one buffer. *)
Definition with_buf (b : Z) (x : buf) (s : bst) : bst := set_bufs (<[b := x]> (bc_buf (bc s))) s.

Lemma buf_at_with b x s i : buf_at (with_buf b x s) i = if decide (i = b) then x else buf_at s i.
Proof. apply buf_at_set. Qed.

Lemma upd_buf_run b f s : upd_buf b f s = Ok tt (with_buf b (f (buf_at s b)) s).
Proof. done. Qed.

Lemma with_with b x y s : with_buf b y (with_buf b x s) = with_buf b y s.
Proof. unfold with_buf, set_bufs. cbn. by rewrite insert_insert_eq. Qed.

(** ** Scanning the list *)

Lemma bget_find_run L fuel s p dev y :
  lseg (nxt s) (prv s) p L HEAD -> HEAD ∉ L -> (length L <= fuel)%nat ->
  exists r, bget_find fuel (nxt s p) dev y s = Ok r s /\
    match r with
    | Some b => b ∈ L /\ b_dev (buf_at s b) = dev /\ b_blockno (buf_at s b) = y
    | None => forall i, i ∈ L -> ~ (b_dev (buf_at s i) = dev /\ b_blockno (buf_at s i) = y)
    end.
Proof.
  revert fuel p. induction L as [|z L IH]; intros fuel p Hl Hh Hf; cbn [lseg] in Hl.
  { destruct Hl as [-> _]. exists None. split; [|set_solver]. destruct fuel; cbn; by rewrite Z.eqb_refl. }
  destruct Hl as (-> & _ & Hl). destruct fuel as [|fuel]; [cbn in Hf; lia|]. cbn [bget_find].
  destruct (Z.eqb_spec z HEAD); [set_solver|]. unfold get_buf. rewrite bind_gets.
  destruct (Z.eqb_spec (b_dev (buf_at s z)) dev) as [Hd|Hd]; cbn [andb].
  - destruct (Z.eqb_spec (b_blockno (buf_at s z)) y) as [Hy|Hy].
    + exists (Some z). split; [done|]. set_solver.
    + destruct (IH fuel z Hl) as (r & Hr & Hc); [set_solver|cbn in Hf; lia|]. exists r. split; [done|].
      destruct r as [b|]; [set_solver|]. intros i [->|Hi]%elem_of_cons; [tauto|by apply Hc].
  - destruct (IH fuel z Hl) as (r & Hr & Hc); [set_solver|cbn in Hf; lia|]. exists r. split; [done|].
    destruct r as [b|]; [set_solver|]. intros i [->|Hi]%elem_of_cons; [tauto|by apply Hc].
Qed.

Lemma bget_lru_run L fuel s y :
  lseg (nxt s) (prv s) HEAD L y -> HEAD ∉ L -> (length L <= fuel)%nat ->
  exists r, bget_lru fuel (prv s y) s = Ok r s /\
    match r with
    | Some b => exists L1 L2, L = L1 ++ b :: L2 /\ b_refcnt (buf_at s b) = 0 /\
        forall i, i ∈ L2 -> b_refcnt (buf_at s i) <> 0
    | None => forall i, i ∈ L -> b_refcnt (buf_at s i) <> 0
    end.
Proof.
  revert fuel y. induction L as [|z L IH] using rev_ind; intros fuel y Hl Hh Hf.
  { cbn [lseg] in Hl. destruct Hl as [_ ->]. exists None. split; [|set_solver].
    destruct fuel; cbn; by rewrite Z.eqb_refl. }
  apply lseg_app in Hl as [Hl [_ ->]]. rewrite length_app in Hf. cbn in Hf.
  destruct fuel as [|fuel]; [lia|]. cbn [bget_lru]. destruct (Z.eqb_spec z HEAD); [set_solver|].
  unfold get_buf. rewrite bind_gets. destruct (Z.eqb_spec (b_refcnt (buf_at s z)) 0) as [Hr|Hr].
  - exists (Some z). split; [done|]. exists L, []. split; [done|]. split; [done|set_solver].
  - destruct (IH fuel z Hl) as (r & Hrun & Hc); [set_solver|lia|]. exists r. split; [done|].
    destruct r as [b|].
    + destruct Hc as (L1 & L2 & -> & H0 & Hn). exists L1, (L2 ++ [z]). split; [by rewrite <- app_assoc|].
      split; [done|]. intros i [Hi| ->%list_elem_of_singleton]%elem_of_app; [by apply Hn|done].
    + intros i [Hi| ->%list_elem_of_singleton]%elem_of_app; [by apply Hc|done].
Qed.

(** There is a buffer that is not in use. *)
Lemma free_buf_exists s L C held pins :
  binv s L C held pins -> Z.of_nat (size held + size pins) < NBUF ->
  exists i, i ∈ L /\ b_refcnt (buf_at s i) = 0.
Proof.
  intros I Hsz. destruct (decide (Exists (fun i => b_refcnt (buf_at s i) = 0) L)) as [He|Hn].
  { apply Exists_exists in He as (i & Hi & Hr). eauto. }
  exfalso. apply not_Exists_Forall in Hn; [|intros; apply _]. rewrite Forall_forall in Hn.
  assert (forall i, i ∈ L -> b_dev (buf_at s i) = ROOTDEV /\ b_blockno (buf_at s i) ∈ held ∪ pins) as Hin.
  { intros i Hi. pose proof (Hn i Hi) as Hr. cbn in Hr. apply (bi_all _ _ _ _ _ I) in Hi.
    pose proof (bi_buf _ _ _ _ _ I i Hi) as Hb. unfold bufok in Hb. case_decide; [|tauto].
    split; [done|]. destruct Hb as (_ & _ & Hb & _). rewrite Hb in Hr. rewrite elem_of_union.
    destruct (bool_decide (b_blockno (buf_at s i) ∈ held)) eqn:E; [left; by apply bool_decide_eq_true in E|].
    destruct (bool_decide (b_blockno (buf_at s i) ∈ pins)) eqn:E'; [right; by apply bool_decide_eq_true in E'|].
    done. }
  assert (length L = Z.to_nat NBUF) as HL.
  { assert (L ≡ₚ seqZ 0 NBUF) as ->; [|by rewrite length_seqZ].
    pose proof (bi_nodup _ _ _ _ _ I) as [_ HN]%NoDup_cons.
    apply NoDup_Permutation; [done|apply NoDup_seqZ|]. intros i. rewrite (bi_all _ _ _ _ _ I), elem_of_seqZ. lia. }
  assert (size (list_to_set ((fun i => b_blockno (buf_at s i)) <$> L) : gset Z) = length L) as HS.
  { rewrite size_list_to_set, length_fmap; [done|]. apply NoDup_fmap_2_strong;
      [|by pose proof (bi_nodup _ _ _ _ _ I) as [_ HN]%NoDup_cons].
    intros i j Hi Hj Heq. destruct (Hin i Hi), (Hin j Hj).
    apply (bi_key _ _ _ _ _ I i j (b_blockno (buf_at s j))); repeat split; try done; by apply (bi_all _ _ _ _ _ I). }
  assert (size (held ∪ pins) <= size held + size pins)%nat by (rewrite size_union_alt; pose proof (subseteq_size (pins ∖ held) pins ltac:(set_solver)); lia).
  assert (length L <= size (held ∪ pins))%nat; [|unfold NBUF, MAXOPBLOCKS in *; lia].
  rewrite <- HS. apply subseteq_size. intros y Hy. apply elem_of_list_to_set, list_elem_of_fmap in Hy as (i & -> & Hi).
  by apply Hin.
Qed.

(** ** Running the operations *)

Definition set_spin (lk : spinlock) (s : bst) : bst :=
  {| bc := {| bc_lock := lk; bc_buf := bc_buf (bc s) |}; dk := dk s; me := me s |}.

Lemma buf_at_spin lk s i : buf_at (set_spin lk s) i = buf_at s i.
Proof. done. Qed.
Lemma with_spin lk b x s : with_buf b x (set_spin lk s) = set_spin lk (with_buf b x s).
Proof. done. Qed.
Lemma spin_spin lk lk' s : set_spin lk (set_spin lk' s) = set_spin lk s.
Proof. done. Qed.
Lemma spin_id s : bc_lock (bc s) = initlock -> set_spin initlock s = s.
Proof. intros Hs. destruct s as [[lk B] d m]. cbn in Hs. by subst lk. Qed.
Lemma buf_at_with_eq b x s : buf_at (with_buf b x s) b = x.
Proof. rewrite buf_at_with. by rewrite decide_True. Qed.

Lemma bc_acquire_run s : bc_lock (bc s) = initlock -> bc_spin lk_acquire s = Ok tt (set_spin held_lock s).
Proof. intros Hs. unfold bc_spin, zoom. by rewrite Hs. Qed.
Lemma bc_release_run s : bc_spin lk_release (set_spin held_lock s) = Ok tt (set_spin initlock s).
Proof. done. Qed.

Lemma with_sleeplock_run {A} b (m : Z -> M sleeplock A) s a lk :
  m (me s) (b_lock (buf_at s b)) = Ok a lk ->
  with_sleeplock b m s = Ok a (with_buf b (set_block_lock lk (buf_at s b)) s).
Proof. intros Hm. unfold with_sleeplock, zoom. by rewrite Hm. Qed.

Lemma holdingsleep_run b s p :
  b_lock (buf_at s b) = sl_held p ->
  with_sleeplock b holdingsleep s = Ok (p =? me s) (with_buf b (buf_at s b) s).
Proof.
  intros Hl. rewrite (with_sleeplock_run b holdingsleep s (p =? me s) (sl_held p)).
  - rewrite <- Hl. by destruct (buf_at s b).
  - by rewrite Hl.
Qed.

(** Replacing the contents of one buffer, links apart. *)
Lemma binv_with s L C held pins b x C' held' pins' :
  binv s L C held pins -> 0 <= b < NBUF ->
  b_next x = b_next (buf_at s b) -> b_prev x = b_prev (buf_at s b) ->
  bufok (me s) C' held' pins' x ->
  (forall i, 0 <= i < NBUF -> i <> b -> bufok (me s) C' held' pins' (buf_at s i)) ->
  (forall i y, i <> b -> at_buf s i y -> b_dev x = ROOTDEV -> b_blockno x <> y) ->
  (forall y, y ∈ held' ∪ pins' -> (exists i, i <> b /\ at_buf s i y) \/ (b_dev x = ROOTDEV /\ b_blockno x = y)) ->
  (forall y, y ∉ held' -> y ∉ pins' -> C' y = disk_read (platter (dk s)) y) ->
  binv (with_buf b x s) L C' held' pins'.
Proof.
  intros I Hb Hn Hp Hx Ho Hk Hc Hcl.
  assert (forall i y, at_buf (with_buf b x s) i y <->
    (i <> b /\ at_buf s i y) \/ (i = b /\ b_dev x = ROOTDEV /\ b_blockno x = y)) as Hat.
  { intros i y. unfold at_buf. rewrite buf_at_with. destruct (decide (i = b)) as [->|]; tauto. }
  split; [apply I| |apply I|apply I| | | |done].
  - eapply lseg_ext; [..|apply (bi_ring _ _ _ _ _ I)]; intros i _; unfold nxt, prv; rewrite buf_at_with;
      case_decide; subst; done.
  - intros i Hi. rewrite buf_at_with. case_decide; [done|]. by apply Ho.
  - intros i j y [[Hi Hai]|(-> & Hd & Hy)]%Hat [[Hj Haj]|(-> & Hd' & Hy')]%Hat.
    + by apply (bi_key _ _ _ _ _ I i j y).
    + exfalso. by apply (Hk i y).
    + exfalso. by apply (Hk j y).
    + done.
  - intros y Hy. destruct (Hc y Hy) as [(i & Hi & Ha)|[Hd Hy']].
    + exists i. apply Hat. by left.
    + exists b. apply Hat. by right.
Qed.

(** The buffer of a cached block. *)
Lemma bufok_at s L C held pins b y :
  binv s L C held pins -> at_buf s b y ->
  b_valid (buf_at s b) = 1 /\ b_data (buf_at s b) = C y /\
  b_refcnt (buf_at s b) = Z.b2z (bool_decide (y ∈ held)) + Z.b2z (bool_decide (y ∈ pins)) /\
  b_lock (buf_at s b) = if decide (y ∈ held) then sl_held (me s) else initsleeplock.
Proof.
  intros I (Hb & Hd & Hy). pose proof (bi_buf _ _ _ _ _ I b Hb) as Hok. unfold bufok in Hok.
  rewrite decide_True in Hok by done. by rewrite Hy in Hok.
Qed.

(** The other buffers do not notice that [held], [pins] and [C] change at [y]. *)
Lemma bufok_other s L C held pins b y C' held' pins' i :
  binv s L C held pins -> at_buf s b y -> i <> b -> 0 <= i < NBUF ->
  (forall z, z <> y -> C' z = C z /\ (z ∈ held' <-> z ∈ held) /\ (z ∈ pins' <-> z ∈ pins)) ->
  bufok (me s) C' held' pins' (buf_at s i).
Proof.
  intros I Hb Hi Hr Hz. pose proof (bi_buf _ _ _ _ _ I i Hr) as Hok. unfold bufok in *.
  case_decide as Hd; [|done].
  assert (b_blockno (buf_at s i) <> y) as Hne.
  { intros He. apply Hi. by apply (bi_key _ _ _ _ _ I i b y). }
  destruct (Hz _ Hne) as (-> & Hh & Hp). destruct Hok as (H1 & H2 & H3 & H4).
  split; [done|]. split; [done|]. split.
  - rewrite H3. f_equal; f_equal; by apply bool_decide_ext.
  - rewrite H4. by apply decide_ext.
Qed.

(** Changing the buffer of block [y], which stays its buffer. *)
Lemma binv_at s L C held pins b y x C' held' pins' :
  binv s L C held pins -> at_buf s b y ->
  b_next x = b_next (buf_at s b) -> b_prev x = b_prev (buf_at s b) ->
  b_dev x = ROOTDEV -> b_blockno x = y ->
  b_valid x = 1 -> b_data x = C' y ->
  b_refcnt x = Z.b2z (bool_decide (y ∈ held')) + Z.b2z (bool_decide (y ∈ pins')) ->
  b_lock x = (if decide (y ∈ held') then sl_held (me s) else initsleeplock) ->
  (forall z, z <> y -> C' z = C z /\ (z ∈ held' <-> z ∈ held) /\ (z ∈ pins' <-> z ∈ pins)) ->
  (y ∉ held' -> y ∉ pins' -> C' y = disk_read (platter (dk s)) y) ->
  binv (with_buf b x s) L C' held' pins' /\ (forall i z, at_buf (with_buf b x s) i z <-> at_buf s i z).
Proof.
  intros I Hb Hn Hp Hd Hy Hv Hda Hr Hl Hz Hcl. pose proof Hb as (Hbr & Hbd & Hby).
  assert (forall i z, at_buf (with_buf b x s) i z <-> at_buf s i z) as Hat.
  { intros i z. unfold at_buf. rewrite buf_at_with. destruct (decide (i = b)) as [->|]; [|tauto]. by rewrite Hd, Hy, Hbd, Hby. }
  split; [|done]. eapply binv_with; [exact I|done|done|done| | | | |].
  - unfold bufok. rewrite decide_True by done. by rewrite Hy.
  - intros i Hi Hib. by eapply bufok_other.
  - intros i z Hib Ha _ Hyz. apply Hib. rewrite Hy in Hyz. subst z. by apply (bi_key _ _ _ _ _ I i b y).
  - intros z Hin. destruct (decide (z = y)) as [->|Hzy]; [by right|left].
    destruct (Hz z Hzy) as (_ & Hh & Hpn). destruct (bi_cached _ _ _ _ _ I z) as (i & Ha); [set_solver|].
    exists i. split; [|done]. intros ->. destruct Ha as (_ & _ & Ha). congruence.
  - intros z Hh Hpn. destruct (decide (z = y)) as [->|Hzy]; [by apply Hcl|].
    destruct (Hz z Hzy) as (-> & Hh' & Hp'). apply (bi_clean _ _ _ _ _ I); tauto.
Qed.

Lemma u32_ref a b : u32 (Z.b2z a + Z.b2z b + 1) = Z.b2z a + Z.b2z b + 1.
Proof. by destruct a, b. Qed.

Lemma bpin_run s L C held pins b y :
  binv s L C held pins -> at_buf s b y -> y ∉ pins ->
  exists s', bpin b s = Ok tt s' /\ binv s' L C held ({[y]} ∪ pins) /\ dk s' = dk s /\ me s' = me s /\
    (forall i z, at_buf s' i z <-> at_buf s i z).
Proof.
  intros I Hb Hy. pose proof (bi_spin _ _ _ _ _ I) as Hs.
  destruct (bufok_at _ _ _ _ _ _ _ I Hb) as (Hv & Hd & Hr & Hl). pose proof Hb as (_ & Hbd & Hby).
  eexists. split.
  { unfold bpin. rewrite (bind_Ok _ _ _ _ _ (bc_acquire_run s Hs)). unfold get_buf. rewrite bind_gets.
    rewrite (bind_Ok _ _ _ _ _ (upd_buf_run _ _ _)), with_spin. apply bc_release_run. }
  rewrite spin_id by done. rewrite !buf_at_spin.
  destruct (binv_at s L C held pins b y (set_refcnt (u32 (b_refcnt (buf_at s b) + 1)) (buf_at s b))
    C held ({[y]} ∪ pins) I Hb) as [I' Hat]; cbn; try done.
  - rewrite Hr, u32_ref. rewrite (bool_decide_eq_false_2 (y ∈ pins)) by done.
    rewrite (bool_decide_eq_true_2 (y ∈ {[y]} ∪ pins)) by set_solver. cbn. lia.
  - intros z Hz. set_solver.
  - set_solver.
Qed.

Lemma bunpin_run s L C held pins b y :
  binv s L C held pins -> at_buf s b y -> y ∈ pins ->
  (y ∈ held \/ C y = disk_read (platter (dk s)) y) ->
  exists s', bunpin b s = Ok tt s' /\ binv s' L C held (pins ∖ {[y]}) /\ dk s' = dk s /\ me s' = me s /\
    (forall i z, at_buf s' i z <-> at_buf s i z).
Proof.
  intros I Hb Hy Hc. pose proof (bi_spin _ _ _ _ _ I) as Hs.
  destruct (bufok_at _ _ _ _ _ _ _ I Hb) as (Hv & Hd & Hr & Hl). pose proof Hb as (_ & Hbd & Hby).
  eexists. split.
  { unfold bunpin. rewrite (bind_Ok _ _ _ _ _ (bc_acquire_run s Hs)). unfold get_buf. rewrite bind_gets.
    rewrite (bind_Ok _ _ _ _ _ (upd_buf_run _ _ _)), with_spin. apply bc_release_run. }
  rewrite spin_id by done. rewrite !buf_at_spin.
  destruct (binv_at s L C held pins b y (set_refcnt (u32 (b_refcnt (buf_at s b) - 1)) (buf_at s b))
    C held (pins ∖ {[y]}) I Hb) as [I' Hat]; cbn; try done.
  - rewrite Hr. rewrite (bool_decide_eq_true_2 (y ∈ pins)) by done.
    rewrite (bool_decide_eq_false_2 (y ∈ pins ∖ {[y]})) by set_solver. by destruct (bool_decide (y ∈ held)).
  - intros z Hz. set_solver.
  - intros Hh _. destruct Hc; [done|done].
Qed.

Lemma buf_write_run s L C held pins b y f :
  binv s L C held pins -> at_buf s b y -> y ∈ held ->
  exists s', buf_write b f s = Ok tt s' /\ binv s' L (<[y := f (C y)]> C) held pins /\ dk s' = dk s /\ me s' = me s /\
    (forall i z, at_buf s' i z <-> at_buf s i z).
Proof.
  intros I Hb Hy. destruct (bufok_at _ _ _ _ _ _ _ I Hb) as (Hv & Hd & Hr & Hl). pose proof Hb as (_ & Hbd & Hby).
  eexists. split; [reflexivity|]. fold (with_buf b (set_data (f (b_data (buf_at s b))) (buf_at s b)) s).
  destruct (binv_at s L C held pins b y (set_data (f (b_data (buf_at s b))) (buf_at s b))
    (<[y := f (C y)]> C) held pins I Hb) as [I' Hat]; cbn; try done.
  - by rewrite fn_lookup_insert, Hd.
  - intros z Hz. by rewrite fn_lookup_insert_ne.
Qed.

Lemma bwrite_run s L C held pins b y :
  binv s L C held pins -> at_buf s b y -> y ∈ held ->
  exists s', bwrite b s = Ok tt s' /\ binv s' L C held pins /\ me s' = me s /\
    dk s' = {| platter := <[y := C y]> (platter (dk s)); writes := writes (dk s) ++ [(y, C y)] |} /\
    (forall i z, at_buf s' i z <-> at_buf s i z).
Proof.
  intros I Hb Hy. destruct (bufok_at _ _ _ _ _ _ _ I Hb) as (Hv & Hd & Hr & Hl). pose proof Hb as (Hbr & Hbd & Hby).
  rewrite decide_True in Hl by done. eexists. split.
  { unfold bwrite. rewrite (bind_Ok _ _ _ _ _ (holdingsleep_run b s _ Hl)). rewrite Z.eqb_refl. cbn [negb].
    unfold virtio_disk_rw, get_buf. rewrite bind_gets, buf_at_with_eq, Hby, Hd. reflexivity. }
  assert (forall i, buf_at (with_buf b (buf_at s b) s) i = buf_at s i) as Hsame.
  { intros i. rewrite buf_at_with. by destruct (decide (i = b)) as [->|]. }
  split; [|split; [done|split; [done|]]].
  - split; [apply I| |apply I|apply I| | | |].
    + eapply lseg_ext; [..|apply (bi_ring _ _ _ _ _ I)]; intros i _; unfold nxt, prv, buf_at; cbn;
        f_equal; apply Hsame.
    + intros i Hi. pose proof (bi_buf _ _ _ _ _ I i Hi) as Hok. rewrite <- Hsame in Hok. exact Hok.
    + intros i j z Hi Hj. apply (bi_key _ _ _ _ _ I i j z); unfold at_buf in *; [rewrite <- (Hsame i)|rewrite <- (Hsame j)]; done.
    + intros z Hz. destruct (bi_cached _ _ _ _ _ I z Hz) as (i & Hi). exists i. unfold at_buf in *. rewrite <- (Hsame i) in Hi. done.
    + intros z Hh Hp. cbn. unfold disk_read. rewrite lookup_insert_ne by (intros ->; done).
      by apply (bi_clean _ _ _ _ _ I).
  - intros i z. unfold at_buf. rewrite <- (Hsame i). done.
Qed.

Lemma virtio_read_run b s :
  virtio_disk_rw b false s =
    Ok tt (with_buf b (set_data (disk_read (platter (dk s)) (b_blockno (buf_at s b))) (buf_at s b)) s).
Proof. done. Qed.

Lemma bread_found s L C held pins b y :
  binv s L C held pins -> at_buf s b y -> y ∉ held ->
  bget_find (Z.to_nat NBUF) (nxt s HEAD) ROOTDEV y (set_spin held_lock s) = Ok (Some b) (set_spin held_lock s) ->
  exists s', bread ROOTDEV y s = Ok b s' /\ binv s' L C ({[y]} ∪ held) pins /\ dk s' = dk s /\ me s' = me s /\
    (forall i z, at_buf s' i z <-> at_buf s i z).
Proof.
  intros I Hb Hy Hfind. pose proof (bi_spin _ _ _ _ _ I) as Hs.
  destruct (bufok_at _ _ _ _ _ _ _ I Hb) as (Hv & Hd & Hr & Hl). pose proof Hb as (_ & Hbd & Hby).
  rewrite decide_False in Hl by done.
  set (x1 := set_refcnt (u32 (b_refcnt (buf_at s b) + 1)) (buf_at s b)).
  set (x2 := set_block_lock (sl_held (me s)) x1).
  exists (with_buf b x2 s). split.
  { unfold bread, bget. rewrite (bind_Ok _ _ s b (with_buf b x2 s)).
    - unfold get_buf. rewrite bind_gets, buf_at_with_eq. cbn [x2 x1 set_block_lock set_refcnt b_valid].
      rewrite Hv. done.
    - rewrite (bind_Ok _ _ _ _ _ (bc_acquire_run s Hs)). unfold get_buf. rewrite bind_gets.
      change (b_next (buf_at (set_spin held_lock s) HEAD)) with (nxt s HEAD).
      rewrite (bind_Ok _ _ _ _ _ Hfind). cbv beta iota. rewrite bind_gets.
      rewrite (bind_Ok _ _ _ _ _ (upd_buf_run _ _ _)), with_spin.
      rewrite (bind_Ok _ _ _ _ _ (bc_release_run _)), buf_at_spin. fold x1. rewrite spin_id by done.
      rewrite (bind_Ok _ _ _ _ _ (with_sleeplock_run b acquiresleep (with_buf b x1 s) tt (sl_held (me s))
        ltac:(rewrite buf_at_with_eq; unfold x1; cbn [set_refcnt b_lock]; rewrite Hl; apply acquiresleep_free))).
      rewrite buf_at_with_eq, with_with. done. }
  destruct (binv_at s L C held pins b y x2 C ({[y]} ∪ held) pins I Hb) as [I' Hat]; cbn; try done.
  - rewrite Hr, u32_ref. rewrite (bool_decide_eq_false_2 (y ∈ held)) by done.
    rewrite (bool_decide_eq_true_2 (y ∈ {[y]} ∪ held)) by set_solver. cbn. lia.
  - by rewrite decide_True by set_solver.
  - intros z Hz. set_solver.
  - set_solver.
Qed.

Lemma bread_miss s L C held pins b y :
  binv s L C held pins -> y ∉ held -> y ∉ pins -> 0 <= b < NBUF -> b_refcnt (buf_at s b) = 0 ->
  (forall i, ~ at_buf s i y) ->
  bget_find (Z.to_nat NBUF) (nxt s HEAD) ROOTDEV y (set_spin held_lock s) = Ok None (set_spin held_lock s) ->
  bget_lru (Z.to_nat NBUF) (prv s HEAD) (set_spin held_lock s) = Ok (Some b) (set_spin held_lock s) ->
  exists s', bread ROOTDEV y s = Ok b s' /\ binv s' L C ({[y]} ∪ held) pins /\ dk s' = dk s /\ me s' = me s /\
    at_buf s' b y /\ (forall i z, z ∈ held ∪ pins -> at_buf s i z -> at_buf s' i z).
Proof.
  intros I Hy Hyp Hb Hr Hno Hfind Hlru. pose proof (bi_spin _ _ _ _ _ I) as Hs.
  assert (b_lock (buf_at s b) = initsleeplock /\ forall z, at_buf s b z -> z ∉ held /\ z ∉ pins) as [Hl Hz].
  { destruct (decide (b_dev (buf_at s b) = ROOTDEV)) as [Hd|Hd].
    - destruct (bufok_at s L C held pins b (b_blockno (buf_at s b)) I) as (_ & _ & Hr' & Hl); [done|].
      rewrite Hr in Hr'.
      destruct (decide (b_blockno (buf_at s b) ∈ held)) as [Hh|Hh];
        [rewrite (bool_decide_eq_true_2 _ Hh) in Hr'; by destruct (bool_decide (_ ∈ pins))|].
      destruct (decide (b_blockno (buf_at s b) ∈ pins)) as [Hp|Hp];
        [rewrite (bool_decide_eq_false_2 _ Hh), (bool_decide_eq_true_2 _ Hp) in Hr'; done|].
      split; [done|]. intros z (_ & _ & <-). done.
    - pose proof (bi_buf _ _ _ _ _ I b Hb) as Hok. unfold bufok in Hok. rewrite decide_False in Hok by done.
      split; [tauto|]. intros z (_ & ? & _). done. }
  set (x0 := set_refcnt 1 (set_valid 0 (set_key ROOTDEV y (buf_at s b)))).
  set (x1 := set_block_lock (sl_held (me s)) x0).
  set (d := disk_read (platter (dk s)) y). set (x2 := set_valid 1 (set_data d x1)).
  exists (with_buf b x2 s). split.
  { unfold bread. rewrite (bind_Ok _ _ s b (with_buf b x1 s)).
    - unfold get_buf. rewrite bind_gets, buf_at_with_eq. change (b_valid x1 =? 0) with true. cbv iota.
      rewrite (bind_Ok _ _ (with_buf b x1 s) tt (with_buf b x2 s)); [done|].
      rewrite (bind_Ok _ _ _ _ _ (virtio_read_run _ _)), buf_at_with_eq, with_with.
      by rewrite upd_buf_run, buf_at_with_eq, with_with.
    - unfold bget. rewrite (bind_Ok _ _ _ _ _ (bc_acquire_run s Hs)). unfold get_buf. rewrite bind_gets.
      change (b_next (buf_at (set_spin held_lock s) HEAD)) with (nxt s HEAD).
      rewrite (bind_Ok _ _ _ _ _ Hfind). cbv beta iota. rewrite bind_gets.
      change (b_prev (buf_at (set_spin held_lock s) HEAD)) with (prv s HEAD).
      rewrite (bind_Ok _ _ _ _ _ Hlru). cbv beta iota.
      rewrite !(bind_Ok _ _ _ _ _ (upd_buf_run _ _ _)), !buf_at_with_eq, !with_with, with_spin, buf_at_spin.
      fold x0. rewrite (bind_Ok _ _ _ _ _ (bc_release_run _)), spin_id by done.
      rewrite (bind_Ok _ _ _ _ _ (with_sleeplock_run b acquiresleep (with_buf b x0 s) tt (sl_held (me s))
        ltac:(rewrite buf_at_with_eq; unfold x0; cbn [set_refcnt set_valid set_key b_lock]; rewrite Hl; apply acquiresleep_free))).
      rewrite buf_at_with_eq, with_with. done. }
  split; [|split; [done|split; [done|split]]].
  - eapply binv_with; [exact I|done|done|done| | | | |]; cbn.
    + unfold bufok. rewrite decide_True by done. cbn. split; [done|]. split; [symmetry; by apply (bi_clean _ _ _ _ _ I)|].
      rewrite (bool_decide_eq_true_2 (y ∈ {[y]} ∪ held)), (bool_decide_eq_false_2 (y ∈ pins)), decide_True by set_solver. done.
    + intros i Hi Hib. pose proof (bi_buf _ _ _ _ _ I i Hi) as Hok. unfold bufok in *.
      case_decide as Hd; [|done]. assert (b_blockno (buf_at s i) <> y) as Hne by (intros He; by apply (Hno i)).
      destruct Hok as (H1 & H2 & H3 & H4). split; [done|]. split; [done|]. rewrite H3, H4. split.
      * f_equal; f_equal; apply bool_decide_ext; set_solver.
      * apply decide_ext. set_solver.
    + intros i z Hib Ha _ <-. by apply (Hno i).
    + intros z Hin. destruct (decide (z = y)) as [->|Hzy]; [by right|left].
      destruct (bi_cached _ _ _ _ _ I z) as (i & Ha); [set_solver|]. exists i. split; [|done].
      intros ->. destruct (Hz z Ha). set_solver.
    + intros z Hh Hp. apply (bi_clean _ _ _ _ _ I); set_solver.
  - unfold at_buf. by rewrite buf_at_with_eq.
  - intros i z Hin Ha. unfold at_buf. rewrite buf_at_with. destruct (decide (i = b)) as [->|]; [|done].
    destruct (Hz z Ha). set_solver.
Qed.

Lemma bread_run s L C held pins y :
  binv s L C held pins -> y ∉ held -> y ∈ pins \/ Z.of_nat (size held + size pins) < NBUF ->
  exists b s', bread ROOTDEV y s = Ok b s' /\ binv s' L C ({[y]} ∪ held) pins /\ dk s' = dk s /\ me s' = me s /\
    at_buf s' b y /\ (forall i z, z ∈ held ∪ pins -> at_buf s i z -> at_buf s' i z) /\
    (at_buf s b y \/ ((forall i, ~ at_buf s i y) /\ exists L1 L2, L = L1 ++ b :: L2 /\ b_refcnt (buf_at s b) = 0 /\
       forall i, i ∈ L2 -> b_refcnt (buf_at s i) <> 0)).
Proof.
  intros I Hy Hroom. pose proof (bi_nodup _ _ _ _ _ I) as [HH HN]%NoDup_cons.
  assert (length L = Z.to_nat NBUF) as HL.
  { assert (L ≡ₚ seqZ 0 NBUF) as ->; [|by rewrite length_seqZ].
    apply NoDup_Permutation; [done|apply NoDup_seqZ|]. intros i. rewrite (bi_all _ _ _ _ _ I), elem_of_seqZ. lia. }
  destruct (bget_find_run L (Z.to_nat NBUF) (set_spin held_lock s) HEAD ROOTDEV y
    (bi_ring _ _ _ _ _ I) HH ltac:(lia)) as ([b|] & Hfind & Hc).
  - destruct Hc as (Hb & Hbd & Hby). apply (bi_all _ _ _ _ _ I) in Hb.
    destruct (bread_found s L C held pins b y I) as (s' & Hrun & I' & Hdk & Hme & Hat); [done|done|done|].
    exists b, s'. do 4 (split; [done|]). assert (at_buf s b y) as Hab by done.
    split; [by apply Hat|]. split; [intros i z _ ?; by apply Hat|by left].
  - assert (forall i, ~ at_buf s i y) as Hno.
    { intros i (Hi & Hd & Hy'). apply (Hc i); [by apply (bi_all _ _ _ _ _ I)|done]. }
    assert (y ∉ pins) as Hyp by (intros Hp; destruct (bi_cached _ _ _ _ _ I y) as (i & Hi); [set_solver|by apply (Hno i)]).
    destruct Hroom as [?|Hroom]; [done|].
    destruct (bget_lru_run L (Z.to_nat NBUF) (set_spin held_lock s) HEAD (bi_ring _ _ _ _ _ I) HH ltac:(lia))
      as ([b|] & Hlru & Hl).
    + destruct Hl as (L1 & L2 & HLb & Hr & Hn).
      assert (0 <= b < NBUF) as Hb by (apply (bi_all _ _ _ _ _ I); rewrite HLb; set_solver).
      destruct (bread_miss s L C held pins b y I Hy Hyp Hb Hr Hno Hfind Hlru) as (s' & Hrun & I' & Hdk & Hme & Hat & Hk).
      exists b, s'. do 6 (split; [done|]). right. split; [done|]. by exists L1, L2.
    + exfalso. destruct (free_buf_exists s L C held pins I Hroom) as (i & Hi & Hr). by apply (Hl i Hi).
Qed.

(** ** Releasing a buffer *)

(** A buffer without its links. *)
Definition core (x : buf) : buf := set_next 0 (set_prev 0 x).

(** Two states that differ only in the links. *)
Record same_core (s s' : bst) : Prop := {
  sc_buf : forall i, core (buf_at s' i) = core (buf_at s i);
  sc_spin : bc_lock (bc s') = bc_lock (bc s);
  sc_dk : dk s' = dk s;
  sc_me : me s' = me s
}.

Lemma core_fields x y : core x = core y ->
  b_dev x = b_dev y /\ b_blockno x = b_blockno y /\ b_refcnt x = b_refcnt y /\
  b_valid x = b_valid y /\ b_data x = b_data y /\ b_lock x = b_lock y.
Proof. destruct x, y. unfold core, set_next, set_prev. cbn. by intros [=]. Qed.

Lemma binv_core s s' L L' C held pins :
  binv s L C held pins -> same_core s s' -> lseg (nxt s') (prv s') HEAD L' HEAD -> L' ≡ₚ L ->
  binv s' L' C held pins /\ (forall i z, at_buf s' i z <-> at_buf s i z).
Proof.
  intros I [Hc Hs Hd Hm] Hl HL.
  assert (forall i z, at_buf s' i z <-> at_buf s i z) as Hat.
  { intros i z. destruct (core_fields _ _ (Hc i)) as (Hdev & Hno & _). unfold at_buf. by rewrite Hdev, Hno. }
  split; [|done]. split; [by rewrite Hs; apply I|done| | | | | |].
  - rewrite HL. apply I.
  - intros i. rewrite HL. apply I.
  - intros i Hi. pose proof (bi_buf _ _ _ _ _ I i Hi) as Hok. unfold bufok in *.
    destruct (core_fields _ _ (Hc i)) as (-> & -> & -> & -> & -> & ->). by rewrite Hm.
  - intros i j z Hi%Hat Hj%Hat. by apply (bi_key _ _ _ _ _ I i j z).
  - intros z Hz. destruct (bi_cached _ _ _ _ _ I z Hz) as (i & Hi). exists i. by apply Hat.
  - intros z. rewrite Hd. apply I.
Qed.

Lemma upd_next_run j v s :
  exists s', upd_buf j (set_next v) s = Ok tt s' /\ same_core s s' /\
    (forall i, nxt s' i = fupd (nxt s) j v i) /\ (forall i, prv s' i = prv s i).
Proof.
  eexists. split; [apply upd_buf_run|]. split; [split; [|done|done|done]|split]; intros i;
    unfold nxt, prv, fupd; rewrite buf_at_with; (destruct (decide (i = j)) as [->|]; [|by try destruct (Z.eqb_spec i j)]);
    rewrite ?Z.eqb_refl; done.
Qed.
Lemma upd_prev_run j v s :
  exists s', upd_buf j (set_prev v) s = Ok tt s' /\ same_core s s' /\
    (forall i, nxt s' i = nxt s i) /\ (forall i, prv s' i = fupd (prv s) j v i).
Proof.
  eexists. split; [apply upd_buf_run|]. split; [split; [|done|done|done]|split]; intros i;
    unfold nxt, prv, fupd; rewrite buf_at_with; (destruct (decide (i = j)) as [->|]; [|by try destruct (Z.eqb_spec i j)]);
    rewrite ?Z.eqb_refl; done.
Qed.

Lemma same_core_trans s1 s2 s3 : same_core s1 s2 -> same_core s2 s3 -> same_core s1 s3.
Proof. intros [A1 A2 A3 A4] [B1 B2 B3 B4]. split; [intros i; by rewrite B1|congruence..]. Qed.

Lemma lseg_fun nx pv nx' pv' x L y :
  (forall i, nx' i = nx i) -> (forall i, pv' i = pv i) -> lseg nx pv x L y -> lseg nx' pv' x L y.
Proof. intros Hn Hp. apply lseg_ext; auto. Qed.

(** [push_front] of a buffer that is not linked. *)
Lemma push_front_run s L b :
  lseg (nxt s) (prv s) HEAD L HEAD -> NoDup (HEAD :: L) -> b ∉ HEAD :: L ->
  exists s', push_front b s = Ok tt s' /\ same_core s s' /\ lseg (nxt s') (prv s') HEAD (b :: L) HEAD.
Proof.
  intros Hl HN Hb. unfold push_front, get_buf. rewrite bind_gets. fold (nxt s HEAD).
  destruct (upd_next_run b (nxt s HEAD) s) as (s1 & H1 & C1 & N1 & P1). rewrite (bind_Ok _ _ _ _ _ H1).
  destruct (upd_prev_run b HEAD s1) as (s2 & H2 & C2 & N2 & P2). rewrite (bind_Ok _ _ _ _ _ H2), bind_gets.
  fold (nxt s2 HEAD).
  assert (nxt s2 HEAD = nxt s HEAD) as ->.
  { rewrite N2, N1. unfold fupd. destruct (Z.eqb_spec HEAD b); [set_solver|done]. }
  destruct (upd_prev_run (nxt s HEAD) b s2) as (s3 & H3 & C3 & N3 & P3). rewrite (bind_Ok _ _ _ _ _ H3).
  destruct (upd_next_run HEAD b s3) as (s4 & H4 & C4 & N4 & P4).
  exists s4. split; [done|]. split; [eauto using same_core_trans|].
  eapply lseg_fun; [..|apply (ring_push _ _ _ _ _ Hl Hb HN)].
  - intros i. rewrite N4. unfold fupd. destruct (i =? HEAD); [done|]. rewrite N3, N2, N1. done.
  - intros i. rewrite P4, P3. unfold fupd. destruct (i =? nxt s HEAD); [done|]. rewrite P2. unfold fupd.
    destruct (i =? b); [done|]. by rewrite P1.
Qed.

(** Unlinking and relinking at the front. *)
Lemma move_front_run s L1 b L2 :
  lseg (nxt s) (prv s) HEAD (L1 ++ b :: L2) HEAD -> NoDup (HEAD :: L1 ++ b :: L2) ->
  exists s', (do x <- get_buf b;
     upd_buf (b_next x) (set_prev (b_prev x)) ;;;
     do x <- get_buf b;
     upd_buf (b_prev x) (set_next (b_next x)) ;;;
     push_front b) s = Ok tt s' /\ same_core s s' /\ lseg (nxt s') (prv s') HEAD (b :: L1 ++ L2) HEAD.
Proof.
  intros Hl HN. unfold get_buf. rewrite bind_gets. fold (nxt s b) (prv s b).
  destruct (upd_prev_run (nxt s b) (prv s b) s) as (s1 & H1 & C1 & N1 & P1). rewrite (bind_Ok _ _ _ _ _ H1), bind_gets.
  fold (nxt s1 b) (prv s1 b). rewrite N1.
  assert (nxt s b <> b) as Hnb.
  { apply lseg_app in Hl as [_ Hl]. destruct (lseg_ends _ _ _ _ _ Hl) as [-> _].
    rewrite NoDup_cons, NoDup_app, NoDup_cons, elem_of_app, elem_of_cons in HN. destruct L2; cbn; set_solver. }
  assert (prv s1 b = prv s b) as ->.
  { rewrite P1. unfold fupd. destruct (Z.eqb_spec b (nxt s b)); [congruence|done]. }
  destruct (upd_next_run (prv s b) (nxt s b) s1) as (s2 & H2 & C2 & N2 & P2). rewrite (bind_Ok _ _ _ _ _ H2).
  pose proof (ring_unlink _ _ _ _ _ _ Hl HN) as Hr.
  assert (lseg (nxt s2) (prv s2) HEAD (L1 ++ L2) HEAD) as Hr2.
  { eapply lseg_fun; [..|exact Hr]; intros i.
    - rewrite N2. unfold fupd. destruct (i =? prv s b); [done|apply N1].
    - rewrite P2. apply P1. }
  rewrite NoDup_cons, NoDup_app, NoDup_cons, elem_of_app, elem_of_cons in HN.
  destruct (push_front_run s2 (L1 ++ L2) b Hr2) as (s' & H3 & C3 & L3).
  - rewrite NoDup_cons, NoDup_app, elem_of_app. set_solver.
  - rewrite elem_of_cons, elem_of_app. set_solver.
  - exists s'. split; [done|]. split; [eauto using same_core_trans|done].
Qed.

(** The state after dropping one reference and the lock, before relinking. *)
Lemma brelse_drop s L C held pins b y :
  binv s L C held pins -> at_buf s b y -> y ∈ held ->
  y ∈ pins \/ C y = disk_read (platter (dk s)) y ->
  let x := set_refcnt (Z.b2z (bool_decide (y ∈ pins))) (set_block_lock initsleeplock (buf_at s b)) in
  binv (with_buf b x s) L C (held ∖ {[y]}) pins /\
  (forall i z, at_buf (with_buf b x s) i z <-> at_buf s i z).
Proof.
  intros I Hb Hy Hc x. destruct (bufok_at _ _ _ _ _ _ _ I Hb) as (Hv & Hd & Hr & Hl). pose proof Hb as (_ & Hbd & Hby).
  apply (binv_at s L C held pins b y x C (held ∖ {[y]}) pins I Hb); cbn; try done.
  - by rewrite (bool_decide_eq_false_2 (y ∈ held ∖ {[y]})) by set_solver.
  - by rewrite decide_False by set_solver.
  - intros z Hz. set_solver.
  - intros _ Hp. destruct Hc; [done|done].
Qed.

Lemma brelse_run s L C held pins b y :
  binv s L C held pins -> at_buf s b y -> y ∈ held ->
  y ∈ pins \/ C y = disk_read (platter (dk s)) y ->
  exists s' L', brelse b s = Ok tt s' /\ binv s' L' C (held ∖ {[y]}) pins /\ dk s' = dk s /\ me s' = me s /\
    (forall i z, at_buf s' i z <-> at_buf s i z) /\
    (y ∈ pins -> L' = L) /\
    (y ∉ pins -> exists L1 L2, L = L1 ++ b :: L2 /\ L' = b :: L1 ++ L2).
Proof.
  intros I Hb Hy Hc. pose proof (bi_spin _ _ _ _ _ I) as Hs.
  destruct (bufok_at _ _ _ _ _ _ _ I Hb) as (Hv & Hd & Hr & Hl). rewrite decide_True in Hl by done.
  destruct (brelse_drop s L C held pins b y I Hb Hy Hc) as [I1 Hat1].
  set (x := set_refcnt (Z.b2z (bool_decide (y ∈ pins))) (set_block_lock initsleeplock (buf_at s b))) in *.
  assert (forall k, (exists s2, (do x <- get_buf b;
      (if b_refcnt x =? 0 then
         upd_buf (b_next x) (set_prev (b_prev x)) ;;;
         do x <- get_buf b;
         upd_buf (b_prev x) (set_next (b_next x)) ;;; push_front b
       else return tt)) (set_spin held_lock (with_buf b x s)) = Ok tt s2 /\ k = bc_spin lk_release s2) ->
    brelse b s = k) as Hrun.
  { intros k (s2 & H2 & ->). unfold brelse.
    rewrite (bind_Ok _ _ _ _ _ (holdingsleep_run b s _ Hl)). rewrite Z.eqb_refl. cbn [negb].
    rewrite (bind_Ok _ _ _ _ _ (with_sleeplock_run b (fun _ => releasesleep) _ tt initsleeplock
      ltac:(rewrite buf_at_with_eq, Hl; apply releasesleep_held))).
    rewrite buf_at_with_eq, with_with. rewrite (bind_Ok _ _ _ _ _ (bc_acquire_run (with_buf b (set_block_lock initsleeplock (buf_at s b)) s) Hs)).
    unfold get_buf at 1. rewrite bind_gets. rewrite (bind_Ok _ _ _ _ _ (upd_buf_run _ _ _)), with_spin, buf_at_spin.
    rewrite buf_at_with_eq, with_with. cbn [b_refcnt set_block_lock].
    assert (u32 (b_refcnt (buf_at s b) - 1) = Z.b2z (bool_decide (y ∈ pins))) as ->.
    { rewrite Hr, (bool_decide_eq_true_2 (y ∈ held)) by done. by destruct (bool_decide (y ∈ pins)). }
    fold x. revert H2. unfold get_buf. rewrite !bind_gets. intros H2. by rewrite (bind_Ok _ _ _ _ _ H2). }
  assert (b_refcnt (buf_at (set_spin held_lock (with_buf b x s)) b) = Z.b2z (bool_decide (y ∈ pins))) as Hrx.
  { rewrite buf_at_spin, buf_at_with_eq. done. }
  destruct (decide (y ∈ pins)) as [Hp|Hp].
  - exists (with_buf b x s), L. split.
    { rewrite (Hrun _ ltac:(exists (set_spin held_lock (with_buf b x s)); split; [|reflexivity];
        unfold get_buf; rewrite bind_gets, Hrx; by rewrite (bool_decide_eq_true_2 (y ∈ pins)))).
      rewrite bc_release_run, spin_id; done. }
    do 3 (split; [done|]). split; [done|]. split; [done|]. done.
  - assert (b ∈ L) as HbL by (apply (bi_all _ _ _ _ _ I), Hb).
    apply list_elem_of_split in HbL as (L1 & L2 & HL).
    destruct (move_front_run (set_spin held_lock (with_buf b x s)) L1 b L2) as (s2 & H2 & C2 & R2).
    { rewrite <- HL. apply (bi_ring _ _ _ _ _ I1). } { rewrite <- HL. apply (bi_nodup _ _ _ _ _ I1). }
    exists (set_spin initlock s2), (b :: L1 ++ L2). split.
    { rewrite (Hrun (bc_spin lk_release s2)).
      - pose proof (sc_spin _ _ C2) as Hsp. cbn in Hsp. unfold bc_spin, zoom. by rewrite Hsp.
      - exists s2. split; [|done]. revert H2. unfold get_buf. rewrite !bind_gets, Hrx.
        by rewrite (bool_decide_eq_false_2 (y ∈ pins)) by done. }
    assert (same_core (with_buf b x s) (set_spin initlock s2)) as SC.
    { destruct C2 as [A1 A2 A3 A4]. split; [apply A1|done|done|done]. }
    destruct (binv_core (with_buf b x s) (set_spin initlock s2) L (b :: L1 ++ L2) C (held ∖ {[y]}) pins I1 SC R2)
      as [I2 Hat2]. { rewrite HL. apply Permutation_middle. }
    split; [done|]. split; [apply (sc_dk _ _ SC)|]. split; [apply (sc_me _ _ SC)|]. split.
    { intros i z. by rewrite Hat2, Hat1. }
    split; [done|]. intros _. by exists L1, L2.
Qed.

(** ** Initialisation *)

(** The state in the middle of [binit]: buffers [0] to [j - 1] are linked. *)
Record init_inv (d : disk) (m : Z) (j : Z) (s : bst) : Prop := {
  in_ring : lseg (nxt s) (prv s) HEAD (rev (seqZ 0 j)) HEAD;
  in_free : forall i, b_dev (buf_at s i) = 0 /\ b_refcnt (buf_at s i) = 0;
  in_lock : forall i, 0 <= i < j -> b_lock (buf_at s i) = initsleeplock;
  in_spin : bc_lock (bc s) = initlock;
  in_dk : dk s = d;
  in_me : me s = m
}.

Lemma upd_lock_run j lk s :
  exists s', upd_buf j (set_block_lock lk) s = Ok tt s' /\
    (forall i, nxt s' i = nxt s i) /\ (forall i, prv s' i = prv s i) /\
    (forall i, b_dev (buf_at s' i) = b_dev (buf_at s i) /\ b_refcnt (buf_at s' i) = b_refcnt (buf_at s i) /\
       b_lock (buf_at s' i) = if decide (i = j) then lk else b_lock (buf_at s i)) /\
    bc_lock (bc s') = bc_lock (bc s) /\ dk s' = dk s /\ me s' = me s.
Proof.
  eexists. split; [apply upd_buf_run|]. unfold nxt, prv.
  split; [|split; [|split; [|done]]]; intros i; rewrite buf_at_with; by destruct (decide (i = j)) as [->|].
Qed.

Lemma binit_step d m j s :
  0 <= j < NBUF -> init_inv d m j s ->
  exists s', binit_body j s = Ok tt s' /\ init_inv d m (j + 1) s'.
Proof.
  intros Hj [Hr Hf Hl Hs Hd Hm]. unfold binit_body, get_buf. rewrite bind_gets. fold (nxt s HEAD).
  destruct (upd_next_run j (nxt s HEAD) s) as (s1 & H1 & C1 & N1 & P1). rewrite (bind_Ok _ _ _ _ _ H1).
  destruct (upd_prev_run j HEAD s1) as (s2 & H2 & C2 & N2 & P2). rewrite (bind_Ok _ _ _ _ _ H2).
  destruct (upd_lock_run j initsleeplock s2) as (s3 & H3 & N3 & P3 & F3 & S3 & D3 & M3).
  rewrite (bind_Ok _ _ _ _ _ H3), bind_gets. fold (nxt s3 HEAD).
  assert (nxt s3 HEAD = nxt s HEAD) as ->.
  { rewrite N3, N2, N1. unfold fupd. destruct (Z.eqb_spec HEAD j); [unfold HEAD in *; lia|done]. }
  destruct (upd_prev_run (nxt s HEAD) j s3) as (s4 & H4 & C4 & N4 & P4). rewrite (bind_Ok _ _ _ _ _ H4).
  destruct (upd_next_run HEAD j s4) as (s5 & H5 & C5 & N5 & P5). exists s5. split; [done|].
  pose proof (same_core_trans _ _ _ C1 C2) as [A1 A2 A3 A4]. pose proof (same_core_trans _ _ _ C4 C5) as [B1 B2 B3 B4].
  assert (forall i, b_dev (buf_at s5 i) = b_dev (buf_at s i) /\ b_refcnt (buf_at s5 i) = b_refcnt (buf_at s i) /\
     b_lock (buf_at s5 i) = if decide (i = j) then initsleeplock else b_lock (buf_at s i)) as HF.
  { intros i. destruct (core_fields _ _ (A1 i)) as (E1 & _ & E2 & _ & _ & E3).
    destruct (core_fields _ _ (B1 i)) as (-> & _ & -> & _ & _ & ->). destruct (F3 i) as (-> & -> & ->). by rewrite E1, E2, E3. }
  split; [| | | congruence..].
  - replace (rev (seqZ 0 (j + 1))) with (j :: rev (seqZ 0 j)).
    2:{ rewrite (seqZ_app 0 j 1), rev_app_distr by lia. by rewrite (seqZ_cons (0 + j) 1) by lia. }
    eapply lseg_fun; [..|apply (ring_push _ _ _ _ _ Hr)].
    + intros i. rewrite N5. unfold fupd. destruct (i =? HEAD); [done|]. rewrite N4, N3, N2, N1. done.
    + intros i. rewrite P5, P4. unfold fupd. destruct (i =? nxt s HEAD); [done|]. rewrite P3, P2. unfold fupd.
      destruct (i =? j); [done|]. by rewrite P1.
    + rewrite elem_of_cons, <- Permutation_rev, elem_of_seqZ. unfold HEAD in *. lia.
    + apply NoDup_cons. rewrite <- Permutation_rev, elem_of_seqZ. split; [unfold HEAD in *; lia|apply NoDup_seqZ].
  - intros i. destruct (HF i) as (-> & -> & _). apply Hf.
  - intros i Hi. destruct (HF i) as (_ & _ & ->). case_decide; [done|]. apply Hl. lia.
Qed.

(** The disk after boot, before the log is recovered: nothing is cached. *)
Definition boot_bst (p : gmap Z (list Z)) (pid : Z) : bst :=
  {| bc := {| bc_lock := initlock; bc_buf := ∅ |}; dk := {| platter := p; writes := [] |}; me := pid |}.

Lemma binit_run p pid :
  exists s' L, binit (boot_bst p pid) = Ok tt s' /\ binv s' L (disk_read p) ∅ ∅ /\
    dk s' = {| platter := p; writes := [] |} /\ me s' = pid.
Proof.
  set (s0 := boot_bst p pid). unfold binit.
  destruct (upd_prev_run HEAD HEAD s0) as (s1 & H1 & C1 & N1 & P1).
  destruct (upd_next_run HEAD HEAD s1) as (s2 & H2 & C2 & N2 & P2).
  destruct (same_core_trans _ _ _ C1 C2) as [A1 A2 A3 A4].
  edestruct (for_range_inv (init_inv {| platter := p; writes := [] |} pid) (Z.to_nat NBUF) 0 binit_body s2) as (s' & Hloop & I).
  - intros j s Hj. apply binit_step. lia.
  - split; [|intros i|lia|done|done|done].
    + change (nxt s2 HEAD = HEAD /\ prv s2 HEAD = HEAD). rewrite N2, P2, P1. unfold fupd. by rewrite !Z.eqb_refl.
    + destruct (core_fields _ _ (A1 i)) as (-> & _ & -> & _). done.
  - exists s', (rev (seqZ 0 NBUF)). split.
    { rewrite (bind_Ok _ _ s0 tt s0) by done. rewrite (bind_Ok _ _ _ _ _ H1), (bind_Ok _ _ _ _ _ H2). exact Hloop. }
    rewrite Z.add_0_l, Z2Nat.id in I by done. destruct I as [Hr Hf Hl Hs Hd Hm].
    assert (forall i y, ~ at_buf s' i y) as Hno.
    { intros i y (_ & Hdev & _). destruct (Hf i) as [E _]. rewrite E in Hdev. done. }
    split; [|exact (conj Hd Hm)]. split; [exact Hs|exact Hr| | | | | |].
    + apply NoDup_cons. rewrite <- Permutation_rev, elem_of_seqZ. split; [unfold HEAD; lia|apply NoDup_seqZ].
    + intros i. rewrite <- Permutation_rev, elem_of_seqZ. lia.
    + intros i Hi. unfold bufok. destruct (Hf i) as [-> ->]. rewrite decide_False by done. split; [done|by apply Hl].
    + intros i j y Hi. by destruct (Hno i y).
    + intros y [Hy|Hy]%elem_of_union; destruct (not_elem_of_empty y Hy).
    + intros y _ _. rewrite Hd. reflexivity.
Qed.

(** ** Theorems *)

(** C20: [bread] of a block that the process does not already hold returns the
    locked buffer of that block with the current contents of the block.  It
    uses the buffer that caches the block if there is one, and otherwise the
    least recently used buffer that nobody holds or pins, after reading the
    disk; it writes nothing to the disk and changes no block's contents.  It
    panics only when every buffer is in use. *)
Theorem bread_returns_block (s : bst) (L : list Z) (C : Z -> list Z) (held pins : gset Z) (y : Z) :
  binv s L C held pins -> y ∉ held -> y ∈ pins \/ Z.of_nat (size held + size pins) < NBUF ->
  exists b s', bread ROOTDEV y s = Ok b s' /\ binv s' L C ({[y]} ∪ held) pins /\ dk s' = dk s /\
    b_data (buf_at s' b) = C y /\ b_blockno (buf_at s' b) = y /\ holdingsleep (me s) (b_lock (buf_at s' b)) =
      Ok true (b_lock (buf_at s' b)) /\
    (at_buf s b y \/ ((forall i, ~ at_buf s i y) /\ exists L1 L2, L = L1 ++ b :: L2 /\ b_refcnt (buf_at s b) = 0 /\
       forall i, i ∈ L2 -> b_refcnt (buf_at s i) <> 0)).
Proof.
  intros I Hy Hr. destruct (bread_run s L C held pins y I Hy Hr) as (b & s' & H1 & I' & Hd & Hm & Ha & _ & Hc).
  exists b, s'. do 3 (split; [done|]). destruct (bufok_at _ _ _ _ _ _ _ I' Ha) as (_ & -> & _ & ->).
  split; [done|]. split; [apply Ha|]. split; [|done]. rewrite decide_True by set_solver.
  rewrite holdingsleep_held, Hm, Z.eqb_refl. done.
Qed.

(** [brelse] by the holder gives up the lock and one reference.  If nothing
    else refers to the buffer it becomes the most recently used one (first in the
    list, the order of the others unchanged); a pinned buffer keeps its place.
    Neither the disk nor the contents of a block change. *)
Theorem brelse_moves_to_front (s : bst) (L : list Z) (C : Z -> list Z) (held pins : gset Z) (b y : Z) :
  binv s L C held pins -> at_buf s b y -> y ∈ held ->
  y ∈ pins \/ C y = disk_read (platter (dk s)) y ->
  exists s' L', brelse b s = Ok tt s' /\ binv s' L' C (held ∖ {[y]}) pins /\ dk s' = dk s /\
    (y ∈ pins -> L' = L) /\ (y ∉ pins -> exists L1 L2, L = L1 ++ b :: L2 /\ L' = b :: L1 ++ L2).
Proof.
  intros I Hb Hy Hc. destruct (brelse_run s L C held pins b y I Hb Hy Hc) as (s' & L' & H1 & I' & Hd & _ & _ & H2 & H3).
  by exists s', L'.
Qed.

(** A cache just after boot, on an empty disk, reads block 7 and releases it. *)
Definition empty_platter : gmap Z (list Z) := ∅.
Lemma single_diff : ({[7]} ∪ ∅) ∖ {[7]} = (∅ : gset Z).
Proof. set_solver. Qed.

Lemma bread_returns_block_witness :
  exists s b s', binit (boot_bst empty_platter 1) = Ok tt s /\ bread ROOTDEV 7 s = Ok b s' /\
    b_data (buf_at s' b) = zero_block.
Proof.
  destruct (binit_run empty_platter 1) as (s & L & H0 & I & _).
  destruct (bread_returns_block s L (disk_read empty_platter) ∅ ∅ 7 I) as (b & s' & H1 & _ & _ & H2 & _);
    [apply not_elem_of_empty|right; rewrite !size_empty; reflexivity|].
  exists s, b, s'. split; [exact H0|]. split; [exact H1|]. exact H2.
Defined.

Lemma brelse_moves_to_front_witness :
  exists s b s1 s2 L', binit (boot_bst empty_platter 1) = Ok tt s /\ bread ROOTDEV 7 s = Ok b s1 /\
    brelse b s1 = Ok tt s2 /\ binv s2 (b :: L') (disk_read empty_platter) ∅ ∅.
Proof.
  destruct (binit_run empty_platter 1) as (s & L & H0 & I & Hdk & _).
  destruct (bread_run s L (disk_read empty_platter) ∅ ∅ 7 I) as (b & s1 & H1 & I1 & Hd & _ & Ha & _);
    [apply not_elem_of_empty|right; rewrite !size_empty; reflexivity|].
  destruct (brelse_moves_to_front s1 L (disk_read empty_platter) ({[7]} ∪ ∅) ∅ b 7 I1 Ha) as (s2 & L' & H2 & I2 & _ & _ & H3);
    [apply elem_of_union_l, elem_of_singleton; reflexivity|right; rewrite Hd, Hdk; reflexivity|].
  destruct H3 as (L1 & L2 & _ & ->); [apply not_elem_of_empty|].
  exists s, b, s1, s2, (L1 ++ L2). split; [exact H0|]. split; [exact H1|]. split; [exact H2|].
  rewrite single_diff in I2. exact I2.
Defined.
