(* ===== verification/Bytes.v ===== *)
(** * Integers in blocks of bytes

    The C code overlays structures on the byte arrays of disk blocks; these are
    the loads and stores of little-endian fields it makes. *)

From stdpp Require Import base list gmap strings.
From S2P Require Import Prelude.

Definition get16 (d : list Z) (off : Z) : Z := le_value (take 2 (drop (Z.to_nat off) d)).
Definition get32 (d : list Z) (off : Z) : Z := le_value (take 4 (drop (Z.to_nat off) d)).
Definition put16 (off v : Z) (d : list Z) : list Z := splice (Z.to_nat off) (le_bytes 2 v) d.
Definition put32 (off v : Z) (d : list Z) : list Z := splice (Z.to_nat off) (le_bytes 4 v) d.

(** A block of [n] bytes. *)
Definition bytes_ok (n : Z) (d : list Z) : Prop := length d = Z.to_nat n /\ Forall is_byte d.

Lemma bytes_splice n off bs d :
  bytes_ok n d -> Forall is_byte bs -> 0 <= off -> off + Z.of_nat (length bs) <= n ->
  bytes_ok n (splice (Z.to_nat off) bs d).
Proof.
  intros [Hl Hb] Hbs H0 Hn. split; [rewrite length_splice; lia|].
  unfold splice. rewrite !Forall_app. auto using Forall_take, Forall_drop.
Qed.

Lemma bytes_put16 n off v d : bytes_ok n d -> 0 <= off -> off + 2 <= n -> bytes_ok n (put16 off v d).
Proof. intros. apply bytes_splice; try done. apply le_bytes_are_bytes. Qed.
Lemma bytes_put32 n off v d : bytes_ok n d -> 0 <= off -> off + 4 <= n -> bytes_ok n (put32 off v d).
Proof. intros. apply bytes_splice; try done. apply le_bytes_are_bytes. Qed.

Lemma get32_put32 n off v d :
  bytes_ok n d -> 0 <= off -> off + 4 <= n -> get32 (put32 off v d) off = u32 v.
Proof.
  intros [Hl _] H0 Hn. unfold get32, put32.
  pose proof (take_drop_splice (Z.to_nat off) (le_bytes 4 v) d) as Ht. rewrite le_bytes_length in Ht.
  rewrite Ht by lia. rewrite le_value_bytes. done.
Qed.
Lemma get16_put16 n off v d :
  bytes_ok n d -> 0 <= off -> off + 2 <= n -> get16 (put16 off v d) off = u16 v.
Proof.
  intros [Hl _] H0 Hn. unfold get16, put16.
  pose proof (take_drop_splice (Z.to_nat off) (le_bytes 2 v) d) as Ht. rewrite le_bytes_length in Ht.
  rewrite Ht by lia. rewrite le_value_bytes. done.
Qed.

(** A store does not change the fields beside it. *)
Lemma get32_splice_other n off bs d off' :
  bytes_ok n d -> 0 <= off -> off + Z.of_nat (length bs) <= n -> 0 <= off' ->
  off' + 4 <= off \/ off + Z.of_nat (length bs) <= off' -> get32 (splice (Z.to_nat off) bs d) off' = get32 d off'.
Proof. intros [Hl _] H0 Hn H0' Ho. unfold get32. rewrite take_drop_splice_out; [done|lia|lia]. Qed.
Lemma get16_splice_other n off bs d off' :
  bytes_ok n d -> 0 <= off -> off + Z.of_nat (length bs) <= n -> 0 <= off' ->
  off' + 2 <= off \/ off + Z.of_nat (length bs) <= off' -> get16 (splice (Z.to_nat off) bs d) off' = get16 d off'.
Proof. intros [Hl _] H0 Hn H0' Ho. unfold get16. rewrite take_drop_splice_out; [done|lia|lia]. Qed.

Lemma get32_put32_other n off v d off' :
  bytes_ok n d -> 0 <= off -> off + 4 <= n -> 0 <= off' -> off' + 4 <= off \/ off + 4 <= off' ->
  get32 (put32 off v d) off' = get32 d off'.
Proof. intros. by apply (get32_splice_other n). Qed.

Lemma get32_range n d off : bytes_ok n d -> 0 <= off -> off + 4 <= n -> 0 <= get32 d off < 2 ^ 32.
Proof.
  intros [Hl Hb] H0 Hn. unfold get32.
  pose proof (le_value_bound (take 4 (drop (Z.to_nat off) d)) ltac:(auto using Forall_take, Forall_drop)) as Hr.
  rewrite length_take, length_drop, Nat.min_l in Hr by lia. exact Hr.
Qed.

Lemma bytes_zero n : 0 <= n -> bytes_ok n (replicate (Z.to_nat n) 0).
Proof.
  intros Hn. split; [by rewrite length_replicate|]. apply Forall_replicate. unfold is_byte. lia.
Qed.
