(* ===== verification/Log.v ===== *)
(** * The log: [kernel/log.c]

    [struct log] over the buffer cache.  The header block on disk is the C
    structure [logheader]: the count at offset 0 and the block numbers after it,
    as little-endian 32-bit integers. *)

From stdpp Require Import base list gmap strings.
From S2P Require Import Prelude Riscv Spinlock Sleeplock Bytes Bio.

(** [struct log], its [lh] included. *)
Record log := mkLog {
  l_lock : spinlock; l_start : Z; l_size : Z; l_outstanding : Z; l_committing : Z; l_dev : Z;
  lh_n : Z; lh_block : list Z
}.
Record lst := mkLst { lb : bst; lg : log }.

Definition zb {A} : M bst A -> M lst A := zoom lb (fun b s => {| lb := b; lg := lg s |}).
Definition log_spin : M spinlock unit -> M lst unit :=
  zoom (fun s => l_lock (lg s))
    (fun lk s => {| lb := lb s; lg := mkLog lk (l_start (lg s)) (l_size (lg s)) (l_outstanding (lg s))
       (l_committing (lg s)) (l_dev (lg s)) (lh_n (lg s)) (lh_block (lg s)) |}).
Definition upd_log (f : log -> log) : M lst unit := modify (fun s => {| lb := lb s; lg := f (lg s) |}).
Definition get_log : M lst log := gets lg.
Definition zl {A} : M log A -> M lst A := zoom lg (fun l s => {| lb := lb s; lg := l |}).

(** Field assignments. *)
Definition set_lock (lk : spinlock) (l : log) : log :=
  mkLog lk (l_start l) (l_size l) (l_outstanding l) (l_committing l) (l_dev l) (lh_n l) (lh_block l).
Definition set_outstanding (v : Z) (l : log) : log :=
  mkLog (l_lock l) (l_start l) (l_size l) v (l_committing l) (l_dev l) (lh_n l) (lh_block l).
Definition set_committing (v : Z) (l : log) : log :=
  mkLog (l_lock l) (l_start l) (l_size l) (l_outstanding l) v (l_dev l) (lh_n l) (lh_block l).
Definition set_n (v : Z) (l : log) : log :=
  mkLog (l_lock l) (l_start l) (l_size l) (l_outstanding l) (l_committing l) (l_dev l) v (lh_block l).
Definition set_block (i v : Z) (l : log) : log :=
  mkLog (l_lock l) (l_start l) (l_size l) (l_outstanding l) (l_committing l) (l_dev l) (lh_n l)
    (<[Z.to_nat i := v]> (lh_block l)).
Definition l_spin : M spinlock unit -> M log unit := zoom l_lock set_lock.
Definition block (l : log) (i : Z) : Z := nth (Z.to_nat i) (lh_block l) 0.

(** [install_trans]: one round of the loop, and the loop. *)
Definition install_one (recovering : bool) (tail : Z) : M lst unit :=
  do l <- get_log;
  do lbuf <- zb (bread (l_dev l) (l_start l + tail + 1));
  do dbuf <- zb (bread (l_dev l) (u32 (block l tail)));
  do d <- zb (buf_data lbuf);
  zb (buf_write dbuf (fun _ => d)) ;;;
  zb (bwrite dbuf) ;;;
  (if recovering then return tt else zb (bunpin dbuf)) ;;;
  zb (brelse lbuf) ;;;
  zb (brelse dbuf).
Definition install_trans (recovering : bool) : M lst unit :=
  do l <- get_log; for_range (Z.to_nat (lh_n l)) 0 (install_one recovering).

Definition read_head : M lst unit :=
  do l <- get_log;
  do b <- zb (bread (l_dev l) (l_start l));
  do d <- zb (buf_data b);
  upd_log (set_n (s32 (get32 d 0))) ;;;
  do l <- get_log;
  for_range (Z.to_nat (lh_n l)) 0 (fun i => upd_log (set_block i (s32 (get32 d (4 + 4 * i))))) ;;;
  zb (brelse b).

Definition write_head : M lst unit :=
  do l <- get_log;
  do b <- zb (bread (l_dev l) (l_start l));
  zb (buf_write b (put32 0 (lh_n l))) ;;;
  for_range (Z.to_nat (lh_n l)) 0 (fun i => zb (buf_write b (put32 (4 + 4 * i) (block l i)))) ;;;
  zb (bwrite b) ;;;
  zb (brelse b).

Definition recover_from_log : M lst unit :=
  read_head ;;;
  install_trans true ;;;
  upd_log (set_n 0) ;;;
  write_head.

(** [sizeof(struct logheader)] is [4 + 4 * LOGSIZE]. *)
Definition initlog (dev logstart nlog : Z) : M lst unit :=
  if 4 + 4 * LOGSIZE >=? BSIZE then panic "initlog: too big logheader"
  else
    log_spin (fun _ => Ok tt initlock) ;;;
    upd_log (fun l => mkLog (l_lock l) logstart nlog (l_outstanding l) (l_committing l) dev (lh_n l) (lh_block l)) ;;;
    recover_from_log.

(** [begin_op] gives up the CPU when the log is committing or might overflow. *)
Definition begin_op_log : M log unit :=
  l_spin lk_acquire ;;;
  do l <- get;
  if negb (l_committing l =? 0) then sleeps "log"
  else if lh_n l + (l_outstanding l + 1) * MAXOPBLOCKS >? LOGSIZE then sleeps "log"
  else
    modify (set_outstanding (l_outstanding l + 1)) ;;;
    l_spin lk_release.
Definition begin_op : M lst unit := zl begin_op_log.

Definition write_log_one (tail : Z) : M lst unit :=
  do l <- get_log;
  do to <- zb (bread (l_dev l) (l_start l + tail + 1));
  do from <- zb (bread (l_dev l) (u32 (block l tail)));
  do d <- zb (buf_data from);
  zb (buf_write to (fun _ => d)) ;;;
  zb (bwrite to) ;;;
  zb (brelse from) ;;;
  zb (brelse to).
Definition write_log : M lst unit :=
  do l <- get_log; for_range (Z.to_nat (lh_n l)) 0 write_log_one.

Definition commit : M lst unit :=
  do l <- get_log;
  if lh_n l >? 0 then
    write_log ;;;
    write_head ;;;
    install_trans false ;;;
    upd_log (set_n 0) ;;;
    write_head
  else return tt.

(** [end_op] up to the first release of the lock, with [do_commit] as result, and
    after [commit].  The calls of [wakeup(&log)] change the process table only. *)
Definition end_op_enter : M log bool :=
  l_spin lk_acquire ;;;
  do l <- get;
  modify (set_outstanding (l_outstanding l - 1)) ;;;
  do l <- get;
  if negb (l_committing l =? 0) then panic "log.committing"
  else
    do do_commit <- (if l_outstanding l =? 0 then modify (set_committing 1) ;;; return true else return false);
    l_spin lk_release ;;;
    return do_commit.
Definition end_op_leave : M log unit :=
  l_spin lk_acquire ;;;
  modify (set_committing 0) ;;;
  l_spin lk_release.

Definition end_op : M lst unit :=
  do do_commit <- zl end_op_enter;
  if (do_commit : bool) then commit ;;; zl end_op_leave else return tt.

(** The index of block [bno] in the first [n] entries from [i] on, or [n]. *)
Fixpoint log_find (fuel : nat) (i : Z) (l : log) (bno : Z) : Z :=
  match fuel with
  | O => i
  | S f => if i <? lh_n l then (if u32 (block l i) =? bno then i else log_find f (i + 1) l bno) else i
  end.

(** The checks of [log_write] and its search for a slot; true for a new slot. *)
Definition log_slot (bno : Z) : M log bool :=
  do l <- get;
  if (lh_n l >=? LOGSIZE) || (lh_n l >=? l_size l - 1) then panic "too big a transaction"
  else if l_outstanding l <? 1 then panic "log_write outside of trans"
  else
    let i := log_find (Z.to_nat LOGSIZE) 0 l bno in
    modify (set_block i (s32 bno)) ;;;
    return (i =? lh_n l).

Definition log_write (b : Z) : M lst unit :=
  log_spin lk_acquire ;;;
  do x <- zb (get_buf b);
  do fresh <- zl (log_slot (b_blockno x));
  (if (fresh : bool) then zb (bpin b) ;;; upd_log (fun l => set_n (lh_n l + 1) l) else return tt) ;;;
  log_spin lk_release.
