(* ===== verification/LogSpec.v ===== *)
(** * What the log does to the disk

    The trace of writes of [commit], and recovery from every prefix of it. *)

From stdpp Require Import base gmap strings list_numbers fin_sets functions list.
From S2P Require Import Prelude Riscv Spinlock Sleeplock Bytes Bio BioSpec Log.

Definition with_bst (b : bst) (s : lst) : lst := {| lb := b; lg := lg s |}.

Lemma zb_Ok {A} (m : M bst A) s a b : m (lb s) = Ok a b -> zb m s = Ok a (with_bst b s).
Proof. apply zoom_Ok. Qed.

Lemma disk_read_insert p x d y :
  disk_read (<[x := d]> p) y = if decide (y = x) then d else disk_read p y.
Proof.
  unfold disk_read. case_decide; subst; [by rewrite lookup_insert_eq|by rewrite lookup_insert_ne].
Qed.

(** ** Reading, changing and writing one block *)

(** [bread] two blocks, copy the second into the first and write it, release both:
    the round of [write_log]; [x] is not cached dirty, [y] is pinned. *)
Lemma copy_out_run b L C pins x y :
  binv b L C ∅ pins -> x ∉ pins -> y ∈ pins -> Z.of_nat (size pins) < NBUF ->
  exists b' L', (do to <- bread ROOTDEV x; do from <- bread ROOTDEV y; do d <- buf_data from;
      buf_write to (fun _ => d) ;;; bwrite to ;;; brelse from ;;; brelse to) b = Ok tt b' /\
    binv b' L' (<[x := C y]> C) ∅ pins /\ me b' = me b /\
    dk b' = {| platter := <[x := C y]> (platter (dk b)); writes := writes (dk b) ++ [(x, C y)] |}.
Proof.
  intros I Hx Hy Hsz. assert (x <> y) as Hxy by (intros ->; done).
  destruct (bread_run b L C ∅ pins x I) as (to & b1 & H1 & I1 & D1 & M1 & A1 & _); [set_solver|by right|].
  rewrite (bind_Ok _ _ _ _ _ H1).
  destruct (bread_run b1 L C _ pins y I1) as (from & b2 & H2 & I2 & D2 & M2 & A2 & K2 & _); [set_solver|by left|].
  rewrite (bind_Ok _ _ _ _ _ H2). unfold buf_data. rewrite bind_gets.
  destruct (bufok_at _ _ _ _ _ _ _ I2 A2) as (_ & -> & _).
  assert (at_buf b2 to x) as A2x by (apply K2; [set_solver|done]).
  destruct (buf_write_run b2 L C _ pins to x (fun _ => C y) I2 A2x) as (b3 & H3 & I3 & D3 & M3 & K3); [set_solver|].
  rewrite (bind_Ok _ _ _ _ _ H3).
  destruct (bwrite_run b3 L _ _ pins to x I3) as (b4 & H4 & I4 & M4 & D4 & K4); [by apply K3|set_solver|].
  rewrite (bind_Ok _ _ _ _ _ H4). rewrite fn_lookup_insert in D4.
  destruct (brelse_run b4 L _ _ pins from y I4) as (b5 & L5 & H5 & I5 & D5 & M5 & K5 & _);
    [by apply K4, K3|set_solver|by left|]. rewrite (bind_Ok _ _ _ _ _ H5).
  destruct (brelse_run b5 L5 _ _ pins to x I5) as (b6 & L6 & H6 & I6 & D6 & M6 & K6 & _);
    [by apply K5, K4, K3|set_solver| |].
  { right. rewrite D5, D4, fn_lookup_insert. cbn. rewrite disk_read_insert. by rewrite decide_True. }
  exists b6, L6. split; [done|]. rewrite D6, D5, D4, D3, D2, D1. split; [|split; [congruence|done]].
  replace (_ ∖ {[x]}) with (∅ : gset Z) in I6 by set_solver. done.
Qed.

(** The round of [install_trans]: [x] is the log block and [y] its home. *)
Lemma install_run (recovering : bool) b L C pins x y :
  binv b L C ∅ pins -> x ∉ pins -> x <> y -> Z.of_nat (size pins) + 1 < NBUF \/ (y ∈ pins /\ Z.of_nat (size pins) < NBUF) ->
  (recovering = false -> y ∈ pins) ->
  exists b' L', (do lbuf <- bread ROOTDEV x; do dbuf <- bread ROOTDEV y; do d <- buf_data lbuf;
      buf_write dbuf (fun _ => d) ;;; bwrite dbuf ;;;
      (if recovering then return tt else bunpin dbuf) ;;; brelse lbuf ;;; brelse dbuf) b = Ok tt b' /\
    binv b' L' (<[y := C x]> C) ∅ (if recovering then pins else pins ∖ {[y]}) /\ me b' = me b /\
    dk b' = {| platter := <[y := C x]> (platter (dk b)); writes := writes (dk b) ++ [(y, C x)] |}.
Proof.
  intros I Hx Hxy Hsz Hrec.
  destruct (bread_run b L C ∅ pins x I) as (lbuf & b1 & H1 & I1 & D1 & M1 & A1 & _);
    [set_solver|right; rewrite size_empty; lia|]. rewrite (bind_Ok _ _ _ _ _ H1).
  destruct (bread_run b1 L C _ pins y I1) as (dbuf & b2 & H2 & I2 & D2 & M2 & A2 & K2 & _); [set_solver| |].
  { destruct Hsz as [Hsz|[? _]]; [right|by left]. rewrite size_union, size_singleton, size_empty by set_solver. lia. }
  rewrite (bind_Ok _ _ _ _ _ H2). unfold buf_data. rewrite bind_gets.
  assert (at_buf b2 lbuf x) as A2x by (apply K2; [set_solver|done]).
  destruct (bufok_at _ _ _ _ _ _ _ I2 A2x) as (_ & -> & _).
  destruct (buf_write_run b2 L C _ pins dbuf y (fun _ => C x) I2 A2) as (b3 & H3 & I3 & D3 & M3 & K3); [set_solver|].
  rewrite (bind_Ok _ _ _ _ _ H3).
  destruct (bwrite_run b3 L _ _ pins dbuf y I3) as (b4 & H4 & I4 & M4 & D4 & K4); [by apply K3|set_solver|].
  rewrite (bind_Ok _ _ _ _ _ H4). rewrite fn_lookup_insert in D4.
  set (C' := <[y := C x]> C) in *. set (pins' := if recovering then pins else pins ∖ {[y]}).
  assert (exists b5, (if recovering then return tt else bunpin dbuf) b4 = Ok tt b5 /\
    binv b5 L C' ({[y]} ∪ ({[x]} ∪ ∅)) pins' /\ dk b5 = dk b4 /\ me b5 = me b4 /\
    (forall i z, at_buf b5 i z <-> at_buf b4 i z)) as (b5 & H5 & I5 & D5 & M5 & K5).
  { unfold pins'. destruct recovering; [by exists b4|].
    apply (bunpin_run b4 L C' _ pins dbuf y I4); [by apply K4, K3|by apply Hrec|left; set_solver]. }
  rewrite (bind_Ok _ _ _ _ _ H5).
  assert (platter (dk b5) = <[y := C x]> (platter (dk b))) as P5.
  { rewrite D5, D4. cbn. by rewrite D3, D2, D1. }
  destruct (brelse_run b5 L C' _ pins' lbuf x I5) as (b6 & L6 & H6 & I6 & D6 & M6 & K6 & _);
    [by apply K5, K4, K3|set_solver| |].
  { right. unfold C'. rewrite fn_lookup_insert_ne by done. rewrite P5, disk_read_insert, decide_False by done.
    apply (bi_clean _ _ _ _ _ I); set_solver. }
  rewrite (bind_Ok _ _ _ _ _ H6).
  destruct (brelse_run b6 L6 C' _ pins' dbuf y I6) as (b7 & L7 & H7 & I7 & D7 & M7 & K7 & _);
    [by apply K6, K5, K4, K3|set_solver| |].
  { right. unfold C'. rewrite fn_lookup_insert, D6, P5, disk_read_insert. by rewrite decide_True. }
  exists b7, L7. split; [done|]. rewrite D7, D6, D5, D4, D3, D2, D1. split; [|split; [congruence|done]].
  replace (_ ∖ {[y]}) with (∅ : gset Z) in I7 by set_solver. done.
Qed.

(** ** Sequences of writes *)

Definition fapply (C : Z -> list Z) (ws : list (Z * list Z)) : Z -> list Z :=
  foldl (fun C '(x, d) => <[x := d]> C) C ws.
Definition papply (p : gmap Z (list Z)) (ws : list (Z * list Z)) : gmap Z (list Z) :=
  foldl (fun p '(x, d) => <[x := d]> p) p ws.

Lemma fapply_app C ws ws' : fapply C (ws ++ ws') = fapply (fapply C ws) ws'.
Proof. apply foldl_app. Qed.
Lemma papply_app p ws ws' : papply p (ws ++ ws') = papply (papply p ws) ws'.
Proof. apply foldl_app. Qed.

Lemma disk_read_papply p ws x : disk_read (papply p ws) x = fapply (disk_read p) ws x.
Proof.
  assert (forall C, (forall z, disk_read p z = C z) -> disk_read (papply p ws) x = fapply C ws x) as Hgen; [|by apply Hgen].
  revert p. induction ws as [|[y d] ws IH]; intros p C HC; cbn; [done|].
  apply IH. intros z. rewrite disk_read_insert. case_decide; subst; [by rewrite fn_lookup_insert|].
  by rewrite fn_lookup_insert_ne.
Qed.

Lemma fapply_other C ws x : x ∉ ws.*1 -> fapply C ws x = C x.
Proof.
  revert C. induction ws as [|[y d] ws IH]; intros C Hx; cbn; [done|]. cbn in Hx.
  rewrite IH by set_solver. by rewrite fn_lookup_insert_ne by set_solver.
Qed.

(** The last write to a block wins; here every block is written once. *)
Lemma fapply_in C ws x d : NoDup (ws.*1) -> (x, d) ∈ ws -> fapply C ws x = d.
Proof.
  revert C. induction ws as [|[y e] ws IH]; intros C HN Hx; cbn in *; [set_solver|].
  apply NoDup_cons in HN as [Hy HN]. apply elem_of_cons in Hx as [[= -> ->]|Hx]; [|by apply IH].
  rewrite fapply_other by done. apply fn_lookup_insert.
Qed.

(** Writing what is there already. *)
Lemma fapply_same C ws x : (forall y d, (y, d) ∈ ws -> C y = d) -> fapply C ws x = C x.
Proof.
  revert C. induction ws as [|[y d] ws IH]; intros C Hs; cbn; [done|].
  rewrite IH.
  - destruct (decide (x = y)) as [->|]; [|by rewrite fn_lookup_insert_ne].
    rewrite fn_lookup_insert. symmetry. apply Hs. set_solver.
  - intros z e Hz. destruct (decide (z = y)) as [->|]; [|rewrite fn_lookup_insert_ne by done; apply Hs; set_solver].
    rewrite fn_lookup_insert. rewrite <- (Hs y d) by set_solver. apply Hs. set_solver.
Qed.

(** The writes of [write_log] and of [install_trans]. *)
Definition wlog (start : Z) (C : Z -> list Z) (bs : list Z) : list (Z * list Z) :=
  imap (fun i y => (start + 1 + Z.of_nat i, C y)) bs.
Definition whome (C : Z -> list Z) (bs : list Z) : list (Z * list Z) := (fun y => (y, C y)) <$> bs.

Lemma wlog_lookup start C bs i : wlog start C bs !! i = (fun y => (start + 1 + Z.of_nat i, C y)) <$> bs !! i.
Proof. apply list_lookup_imap. Qed.

Lemma wlog_keys start C bs x : x ∈ (wlog start C bs).*1 <-> start + 1 <= x < start + 1 + Z.of_nat (length bs).
Proof.
  rewrite list_elem_of_fmap. split.
  - intros ([z d] & -> & [i Hi]%list_elem_of_lookup). rewrite wlog_lookup in Hi.
    destruct (bs !! i) eqn:E; [|done]. injection Hi as <- _. apply lookup_lt_Some in E. cbn. lia.
  - intros Hx. destruct (lookup_lt_is_Some_2 bs (Z.to_nat (x - start - 1))) as [y Hy]; [lia|].
    exists (x, C y). split; [done|]. apply list_elem_of_lookup. exists (Z.to_nat (x - start - 1)).
    rewrite wlog_lookup, Hy. cbn. do 2 f_equal. lia.
Qed.

Lemma wlog_nodup start C bs : NoDup ((wlog start C bs).*1).
Proof.
  apply NoDup_alt. intros i j x Hi Hj. rewrite list_lookup_fmap, wlog_lookup in Hi, Hj.
  destruct (bs !! i); [|done]. destruct (bs !! j); [|done]. cbn in *. injection Hi as <-. injection Hj as ?. lia.
Qed.

Lemma fapply_wlog start C C0 bs (i : nat) y :
  bs !! i = Some y -> fapply C (wlog start C0 bs) (start + 1 + Z.of_nat i) = C0 y.
Proof.
  intros Hi. apply fapply_in; [apply wlog_nodup|]. apply list_elem_of_lookup. exists i.
  by rewrite wlog_lookup, Hi.
Qed.

(** ** The state of the log *)

(** The log [l] holds the blocks [bs], none of them in the log area. *)
Record lgok (l : log) (bs : list Z) : Prop := {
  li_dev : l_dev l = ROOTDEV;
  li_n : lh_n l = Z.of_nat (length bs);
  li_blocks : forall (i : nat) y, bs !! i = Some y -> nth i (lh_block l) 0 = y;
  li_cap : length (lh_block l) = Z.to_nat LOGSIZE;
  li_geom : 0 <= l_start l /\ l_start l + l_size l < 2 ^ 31 /\ 1 < l_size l <= LOGSIZE;
  li_nodup : NoDup bs;
  li_home : forall y, y ∈ bs -> 0 <= y < 2 ^ 31 /\ ~ l_start l <= y < l_start l + l_size l;
  li_room : Z.of_nat (length bs) < l_size l
}.

Record lginv (s : lst) (L : list Z) (C : Z -> list Z) (held : gset Z) (bs : list Z) : Prop := {
  li_bio : binv (lb s) L C held (list_to_set bs);
  li_ok : lgok (lg s) bs;
  li_lock : l_lock (lg s) = initlock;
  li_bytes : forall y, bytes_ok BSIZE (C y)
}.

Lemma zb_seq {A B} (m : M bst A) (K : A -> M lst B) (k : A -> M bst B) s :
  (forall a s', K a s' = zb (k a) s') -> bind (zb m) K s = zb (bind m k) s.
Proof.
  intros HK. unfold bind, zb at 1 2, zoom. destruct (m (lb s)) as [a b| | |]; [|done..].
  rewrite HK. unfold zb, zoom. cbn. by destruct (k a b).
Qed.

Lemma zb_ret {A} (a : A) s : (return a) s = zb (return a) s.
Proof. unfold zb, zoom, mret'. by destruct s. Qed.

Lemma write_log_one_zb tail s :
  write_log_one tail s =
    zb (do to <- bread (l_dev (lg s)) (l_start (lg s) + tail + 1);
        do from <- bread (l_dev (lg s)) (u32 (block (lg s) tail)); do d <- buf_data from;
        buf_write to (fun _ => d) ;;; bwrite to ;;; brelse from ;;; brelse to) s.
Proof.
  unfold write_log_one, get_log. rewrite bind_gets.
  repeat (apply zb_seq; intros ? ?). done.
Qed.

Lemma install_one_zb recovering tail s :
  install_one recovering tail s =
    zb (do lbuf <- bread (l_dev (lg s)) (l_start (lg s) + tail + 1);
        do dbuf <- bread (l_dev (lg s)) (u32 (block (lg s) tail)); do d <- buf_data lbuf;
        buf_write dbuf (fun _ => d) ;;; bwrite dbuf ;;;
        (if recovering then return tt else bunpin dbuf) ;;; brelse lbuf ;;; brelse dbuf) s.
Proof.
  unfold install_one, get_log. rewrite bind_gets. do 5 (apply zb_seq; intros ? ?).
  destruct recovering; [|repeat (apply zb_seq; intros ? ?); done].
  rewrite !bind_ret. assert (forall (m : M bst unit) s0, zb (bind (return tt) (fun _ => m)) s0 = zb m s0) as -> by done.
  apply zb_seq. intros ? ?. done.
Qed.

Lemma size_list_le (bs : list Z) : (size (list_to_set bs : gset Z) <= length bs)%nat.
Proof.
  induction bs as [|b bs IH]; cbn; [by rewrite size_empty|].
  pose proof (size_union_alt ({[b]} : gset Z) (list_to_set bs)) as E. rewrite E, size_singleton.
  pose proof (subseteq_size (list_to_set bs ∖ {[b]} : gset Z) (list_to_set bs) ltac:(set_solver)). lia.
Qed.

Lemma li_small l bs : lgok l bs -> Z.of_nat (size (list_to_set bs : gset Z)) < NBUF.
Proof.
  intros I. pose proof (size_list_le bs). pose proof (li_room _ _ I). pose proof (li_geom _ _ I).
  unfold LOGSIZE, NBUF, MAXOPBLOCKS in *. lia.
Qed.

Lemma li_block l bs (i : nat) y : lgok l bs -> bs !! i = Some y -> u32 (block l (Z.of_nat i)) = y.
Proof.
  intros I Hi. unfold block. rewrite Nat2Z.id, (li_blocks _ _ I i y Hi).
  pose proof (li_home _ _ I y ltac:(by eapply list_elem_of_lookup_2)). apply u32_small. lia.
Qed.

Lemma li_blockZ l bs j y : lgok l bs -> 0 <= j -> bs !! Z.to_nat j = Some y -> u32 (block l j) = y.
Proof. intros I Hj Hy. rewrite <- (Z2Nat.id j) by done. by eapply li_block. Qed.

Lemma take_keys {A} (ws : list (Z * A)) n x : x ∈ (take n ws).*1 -> x ∈ ws.*1.
Proof. rewrite <- (take_drop n ws) at 2. rewrite fmap_app, elem_of_app. by left. Qed.

(** The writes of a loop that makes the writes [ws] one after another. *)
Record written (s0 : lst) (C : Z -> list Z) (ws : list (Z * list Z)) (L : list Z) (pins : gset Z) (s : lst) : Prop := {
  wr_lg : lg s = lg s0;
  wr_bio : binv (lb s) L (fapply C ws) ∅ pins;
  wr_dk : dk (lb s) = {| platter := papply (platter (dk (lb s0))) ws; writes := writes (dk (lb s0)) ++ ws |};
  wr_me : me (lb s) = me (lb s0)
}.

Lemma written_nil s C L pins : binv (lb s) L C ∅ pins -> written s C [] L pins s.
Proof. intros I. split; [done|done| |done]. cbn. rewrite app_nil_r. by destruct (dk (lb s)). Qed.

Lemma write_log_run s L C bs :
  binv (lb s) L C ∅ (list_to_set bs) -> lgok (lg s) bs ->
  exists s' L', write_log s = Ok tt s' /\ written s C (wlog (l_start (lg s)) C bs) L' (list_to_set bs) s'.
Proof.
  intros Ib I. set (ws := wlog (l_start (lg s)) C bs). pose proof (li_geom _ _ I) as (Hg0 & Hg1 & Hg2).
  pose proof (li_room _ _ I) as Hroom.
  assert (length ws = length bs) as Hlen by apply length_imap.
  destruct (for_range_inv (fun i s1 => exists L1, written s C (take (Z.to_nat i) ws) L1 (list_to_set bs) s1)
    (length bs) 0 write_log_one s) as (s' & Hrun & L' & Hw).
  - intros j s1 Hj (L1 & [W1 W2 W3 W4]).
    destruct (lookup_lt_is_Some_2 bs (Z.to_nat j)) as [y Hy]; [lia|].
    assert (y ∈ bs) as Hyb by (by eapply list_elem_of_lookup_2).
    destruct (li_home _ _ I y Hyb) as [Hy0 Hyl].
    assert (fapply C (take (Z.to_nat j) ws) y = C y) as HCy.
    { apply fapply_other. intros Hin. apply Hyl. apply take_keys, wlog_keys in Hin. lia. }
    destruct (copy_out_run (lb s1) L1 _ (list_to_set bs) (l_start (lg s) + j + 1) y W2) as (b' & L2 & H2 & I2 & M2 & D2).
    { rewrite elem_of_list_to_set. intros Hin. destruct (li_home _ _ I _ Hin) as [_ Hn]. lia. }
    { by rewrite elem_of_list_to_set. }
    { by eapply li_small. }
    exists (with_bst b' s1). split.
    { rewrite write_log_one_zb, W1, (li_dev _ _ I), (li_blockZ _ _ j y I ltac:(lia) Hy). by apply zb_Ok. }
    exists L2. replace (Z.to_nat (j + 1)) with (S (Z.to_nat j)) by lia.
    assert (ws !! Z.to_nat j = Some (l_start (lg s) + j + 1, C y)) as Hws.
    { unfold ws. rewrite wlog_lookup, Hy. cbn. do 2 f_equal. lia. }
    rewrite (take_S_r _ _ _ Hws). rewrite HCy in *. split; [done|by rewrite fapply_app| |by cbn; rewrite M2].
    cbn. rewrite D2, W3, papply_app. cbn. by rewrite app_assoc.
  - exists L. rewrite take_0. by apply written_nil.
  - exists s', L'. split.
    + unfold write_log, get_log. rewrite bind_gets, (li_n _ _ I), Nat2Z.id. exact Hrun.
    + rewrite Z.add_0_l, Nat2Z.id, take_ge in Hw by lia. exact Hw.
Qed.

(** ** The header block *)

(** The header block after [write_head] stored the first [i] block numbers. *)
Fixpoint head_upto (l : log) (d : list Z) (i : nat) : list Z :=
  match i with
  | O => put32 0 (lh_n l) d
  | S i' => put32 (4 + 4 * Z.of_nat i') (block l (Z.of_nat i')) (head_upto l d i')
  end.
Definition head_bytes (l : log) (d : list Z) : list Z := head_upto l d (Z.to_nat (lh_n l)).

Lemma head_upto_spec l d i :
  bytes_ok BSIZE d -> (i <= Z.to_nat LOGSIZE)%nat ->
  bytes_ok BSIZE (head_upto l d i) /\ get32 (head_upto l d i) 0 = u32 (lh_n l) /\
  forall j, 0 <= j < Z.of_nat i -> get32 (head_upto l d i) (4 + 4 * j) = u32 (block l j).
Proof.
  intros Hd. unfold LOGSIZE, MAXOPBLOCKS. induction i as [|i IH]; intros Hi; cbn [head_upto].
  - split; [apply bytes_put32; done || (unfold BSIZE; lia)|]. split; [by apply (get32_put32 BSIZE)|lia].
  - destruct IH as (Hb & H0 & Hj); [lia|].
    split; [apply bytes_put32; [done|lia|unfold BSIZE; lia]|]. split.
    + rewrite (get32_put32_other BSIZE); [done|done|lia|unfold BSIZE; lia|lia|lia].
    + intros j Hlt. destruct (decide (j = Z.of_nat i)) as [->|].
      * apply (get32_put32 BSIZE); [done|lia|unfold BSIZE; lia].
      * rewrite (get32_put32_other BSIZE); [apply Hj; lia|done|lia|unfold BSIZE; lia|lia|lia].
Qed.

Lemma write_head_run s L C pins :
  binv (lb s) L C ∅ pins -> l_dev (lg s) = ROOTDEV -> l_start (lg s) ∉ pins -> Z.of_nat (size pins) < NBUF ->
  exists s' L', write_head s = Ok tt s' /\
    written s C [(l_start (lg s), head_bytes (lg s) (C (l_start (lg s))))] L' pins s'.
Proof.
  intros I Hdev Hst Hsz. set (st := l_start (lg s)) in *. set (l := lg s) in *.
  destruct (bread_run (lb s) L C ∅ pins st I) as (b & b1 & H1 & I1 & D1 & M1 & A1 & _);
    [set_solver|right; rewrite size_empty; lia|].
  destruct (buf_write_run b1 L C _ pins b st (put32 0 (lh_n l)) I1 A1) as (b2 & H2 & I2 & D2 & M2 & K2); [set_solver|].
  destruct (for_range_inv (fun i s1 => lg s1 = l /\ binv (lb s1) L (<[st := head_upto l (C st) (Z.to_nat i)]> C) ({[st]} ∪ ∅) pins /\
      dk (lb s1) = dk (lb s) /\ me (lb s1) = me (lb s) /\ at_buf (lb s1) b st)
    (Z.to_nat (lh_n l)) 0 (fun i => zb (buf_write b (put32 (4 + 4 * i) (block l i)))) (with_bst b2 s))
    as (s3 & H3 & W3 & I3 & D3 & M3 & A3).
  - intros j s1 Hj (W & I' & D' & M' & A').
    destruct (buf_write_run (lb s1) L _ _ pins b st (put32 (4 + 4 * j) (block l j)) I' A') as (b' & Hw & Iw & Dw & Mw & Kw); [set_solver|].
    exists (with_bst b' s1). split; [by apply zb_Ok|]. split; [done|]. split; [|split; [by cbn; rewrite Dw|split; [by cbn; rewrite Mw|by apply Kw]]].
    replace (Z.to_nat (j + 1)) with (S (Z.to_nat j)) by lia. cbn [head_upto]. rewrite Z2Nat.id by lia.
    rewrite fn_lookup_insert in Iw. cbn [lb with_bst]. eapply binv_ext; [|exact Iw]. intros y.
    destruct (decide (y = st)) as [->|]; [by rewrite !fn_lookup_insert|by rewrite !fn_lookup_insert_ne].
  - cbn. by rewrite D2, D1, M2, M1, K2.
  - rewrite Z.add_0_l, Nat2Z.id in I3. fold (head_bytes l (C st)) in I3. set (h := head_bytes l (C st)) in *.
    destruct (bwrite_run (lb s3) L _ _ pins b st I3 A3) as (b4 & H4 & I4 & M4 & D4 & K4); [set_solver|].
    rewrite fn_lookup_insert in D4.
    destruct (brelse_run b4 L _ _ pins b st I4) as (b5 & L5 & H5 & I5 & D5 & M5 & K5 & _); [by apply K4|set_solver| |].
    { right. rewrite D4, fn_lookup_insert. cbn. rewrite disk_read_insert. by rewrite decide_True. }
    exists (with_bst b5 (with_bst b4 s3)), L5. split.
    { unfold write_head, get_log. rewrite bind_gets. fold l st. rewrite Hdev.
      rewrite (bind_Ok _ _ _ _ _ (zb_Ok _ s _ _ H1)), (bind_Ok _ _ _ _ _ (zb_Ok _ (with_bst b1 s) _ _ H2)).
      change (with_bst b2 (with_bst b1 s)) with (with_bst b2 s).
      rewrite (bind_Ok _ _ _ _ _ H3), (bind_Ok _ _ _ _ _ (zb_Ok _ s3 _ _ H4)). by apply zb_Ok. }
    split; [done| |cbn; rewrite D5, D4, D3; done|cbn; rewrite M5, M4; done].
    cbn. replace (_ ∖ {[st]}) with (∅ : gset Z) in I5 by set_solver. done.
Qed.

(** The writes that install the log blocks. *)
Definition winst (start : Z) (C : Z -> list Z) (bs : list Z) : list (Z * list Z) :=
  imap (fun i y => (y, C (start + 1 + Z.of_nat i))) bs.

Lemma winst_keys start C bs : (winst start C bs).*1 = bs.
Proof.
  apply list_eq. intros i. rewrite list_lookup_fmap. unfold winst. rewrite list_lookup_imap. by destruct (bs !! i).
Qed.

Lemma install_trans_run (recovering : bool) s L C bs :
  lgok (lg s) bs -> binv (lb s) L C ∅ (if recovering then ∅ else list_to_set bs) ->
  exists s' L', install_trans recovering s = Ok tt s' /\ written s C (winst (l_start (lg s)) C bs) L' ∅ s'.
Proof.
  intros I Ib. set (ws := winst (l_start (lg s)) C bs). pose proof (li_geom _ _ I) as (Hg0 & Hg1 & Hg2).
  pose proof (li_room _ _ I) as Hroom. pose proof (li_small _ _ I) as Hsm.
  assert (length ws = length bs) as Hlen by apply length_imap.
  set (pins := fun i => if recovering then ∅ else list_to_set (drop i bs) : gset Z).
  assert (forall i, Z.of_nat (size (pins i)) < NBUF) as Hpins.
  { intros i. unfold pins. destruct recovering; [by rewrite size_empty|].
    assert ((list_to_set (drop i bs) : gset Z) ⊆ list_to_set bs) as Hs%subseteq_size; [|lia].
    intros y. rewrite !elem_of_list_to_set. intros Hin. rewrite <- (take_drop i bs). set_solver. }
  destruct (for_range_inv (fun i s1 => exists L1, written s C (take (Z.to_nat i) ws) L1 (pins (Z.to_nat i)) s1)
    (length bs) 0 (install_one recovering) s) as (s' & Hrun & L' & Hw).
  - intros j s1 Hj (L1 & [W1 W2 W3 W4]).
    destruct (lookup_lt_is_Some_2 bs (Z.to_nat j)) as [y Hy]; [lia|].
    assert (y ∈ bs) as Hyb by (by eapply list_elem_of_lookup_2).
    destruct (li_home _ _ I y Hyb) as [Hy0 Hyl]. set (x := l_start (lg s) + j + 1) in *.
    assert (forall z, z ∈ bs -> z <> x) as Hx.
    { intros z Hz ->. destruct (li_home _ _ I x Hz) as [_ Hn]. unfold x in *. lia. }
    assert (fapply C (take (Z.to_nat j) ws) x = C x) as HCx.
    { apply fapply_other. intros Hin. apply take_keys in Hin. unfold ws in Hin. rewrite winst_keys in Hin. by apply (Hx x). }
    assert (recovering = false -> y ∈ pins (Z.to_nat j)) as Hyp.
    { intros ->. unfold pins. rewrite elem_of_list_to_set, (drop_S _ _ _ Hy). set_solver. }
    destruct (install_run recovering (lb s1) L1 _ (pins (Z.to_nat j)) x y W2) as (b' & L2 & H2 & I2 & M2 & D2).
    { unfold pins. destruct recovering; [set_solver|]. rewrite elem_of_list_to_set. intros Hin.
      apply (Hx x); [|done]. rewrite <- (take_drop (Z.to_nat j) bs). set_solver. }
    { intros ->. by apply (Hx y). }
    { destruct recovering eqn:E; [left; unfold pins; by rewrite size_empty|right]. split; [by apply Hyp|apply Hpins]. }
    { done. }
    exists (with_bst b' s1). split.
    { rewrite install_one_zb, W1, (li_dev _ _ I), (li_blockZ _ _ j y I ltac:(lia) Hy). by apply zb_Ok. }
    exists L2. replace (Z.to_nat (j + 1)) with (S (Z.to_nat j)) by lia.
    assert (ws !! Z.to_nat j = Some (y, C x)) as Hws.
    { unfold ws, winst. rewrite list_lookup_imap, Hy. cbn. do 3 f_equal. unfold x. lia. }
    rewrite (take_S_r _ _ _ Hws). rewrite HCx in *. split; [done| | |by cbn; rewrite M2].
    + rewrite fapply_app. cbn. replace (pins (S (Z.to_nat j))) with (if recovering then pins (Z.to_nat j) else pins (Z.to_nat j) ∖ {[y]});
        [done|]. unfold pins. destruct recovering; [done|]. rewrite (drop_S _ _ _ Hy). cbn.
      pose proof (li_nodup _ _ I) as HN. rewrite <- (take_drop_middle _ _ _ Hy), NoDup_app, NoDup_cons in HN. set_solver.
    + cbn. rewrite D2, W3, papply_app. cbn. by rewrite app_assoc.
  - exists L. rewrite take_0. apply written_nil. unfold pins. rewrite drop_0. exact Ib.
  - exists s', L'. split.
    + unfold install_trans, get_log. rewrite bind_gets, (li_n _ _ I), Nat2Z.id. exact Hrun.
    + rewrite Z.add_0_l, Nat2Z.id, take_ge in Hw by lia. unfold pins in Hw. rewrite drop_all in Hw.
      by destruct recovering.
Qed.

Lemma written_trans s C ws L pins s1 ws2 L2 pins2 s2 :
  written s C ws L pins s1 -> written s1 (fapply C ws) ws2 L2 pins2 s2 -> written s C (ws ++ ws2) L2 pins2 s2.
Proof.
  intros [A1 A2 A3 A4] [B1 B2 B3 B4]. split; [congruence|by rewrite fapply_app| |congruence].
  rewrite B3, A3. cbn. by rewrite papply_app, app_assoc.
Qed.

(** ** commit *)

(** The trace of a commit: log blocks, header, home blocks, empty header. *)
Definition commit_writes (l : log) (C : Z -> list Z) (bs : list Z) : list (Z * list Z) :=
  let h := head_bytes l (C (l_start l)) in
  wlog (l_start l) C bs ++ [(l_start l, h)] ++ whome C bs ++ [(l_start l, put32 0 0 h)].

Lemma winst_eq start C C' bs :
  (forall (i : nat) y, bs !! i = Some y -> C' (start + 1 + Z.of_nat i) = C y) -> winst start C' bs = whome C bs.
Proof.
  intros Heq. apply list_eq. intros i. unfold winst, whome. rewrite list_lookup_imap, list_lookup_fmap.
  destruct (bs !! i) as [y|] eqn:E; [|done]. cbn. by rewrite (Heq i y E).
Qed.

Lemma start_not_logged l bs C : lgok l bs -> l_start l ∉ (wlog (l_start l) C bs).*1 /\ l_start l ∉ bs.
Proof.
  intros I. pose proof (li_geom _ _ I). split; [rewrite wlog_keys; lia|].
  intros Hin. destruct (li_home _ _ I _ Hin). lia.
Qed.

Lemma commit_run s L C bs :
  lgok (lg s) bs -> binv (lb s) L C ∅ (list_to_set bs) -> bs <> [] ->
  exists s' L', let ws := commit_writes (lg s) C bs in
    commit s = Ok tt s' /\ lg s' = set_n 0 (lg s) /\ binv (lb s') L' (fapply C ws) ∅ ∅ /\
    dk (lb s') = {| platter := papply (platter (dk (lb s))) ws; writes := writes (dk (lb s)) ++ ws |} /\
    me (lb s') = me (lb s).
Proof.
  intros I Ib Hne.
  destruct (start_not_logged (lg s) bs C I) as [Hs1 Hs2]. pose proof (li_geom _ _ I) as Hg.
  assert (Z.of_nat (length bs) > 0) as Hn by (destruct bs; [done|cbn; lia]).
  destruct (write_log_run s L C bs Ib I) as (s1 & L1 & H1 & W1).
  set (ws1 := wlog (l_start (lg s)) C bs) in *.
  destruct (write_head_run s1 L1 (fapply C ws1) (list_to_set bs) (wr_bio _ _ _ _ _ _ W1)) as (s2 & L2 & H2 & W2);
    [rewrite (wr_lg _ _ _ _ _ _ W1); apply I|rewrite (wr_lg _ _ _ _ _ _ W1), elem_of_list_to_set; done|by eapply li_small|].
  rewrite (wr_lg _ _ _ _ _ _ W1), (fapply_other C ws1 (l_start (lg s)) Hs1) in W2.
  set (h := head_bytes (lg s) (C (l_start (lg s)))) in *.
  pose proof (written_trans _ _ _ _ _ _ _ _ _ _ W1 W2) as W12.
  destruct (install_trans_run false s2 L2 (fapply C (ws1 ++ [(l_start (lg s), h)])) bs) as (s3 & L3 & H3 & W3);
    [by rewrite (wr_lg _ _ _ _ _ _ W12)|apply W12|].
  rewrite (wr_lg _ _ _ _ _ _ W12) in W3.
  rewrite (winst_eq _ C) in W3.
  2:{ intros i y Hi. rewrite fapply_app. cbn. rewrite fn_lookup_insert_ne by lia. by apply fapply_wlog. }
  pose proof (written_trans _ _ _ _ _ _ _ _ _ _ W12 W3) as W123. clear W1 W2 W12 W3.
  set (ws2 := (ws1 ++ [(l_start (lg s), h)]) ++ whome C bs) in *. destruct W123 as [G3 I3 D3 M3].
  assert (fapply C ws2 (l_start (lg s)) = h) as Hh.
  { unfold ws2. rewrite fapply_app, fapply_other.
    - rewrite fapply_app. cbn. apply fn_lookup_insert.
    - unfold whome. rewrite <- list_fmap_compose. cbn. rewrite list_fmap_id. done. }
  set (s3' := {| lb := lb s3; lg := set_n 0 (lg s3) |}).
  destruct (write_head_run s3' L3 (fapply C ws2) ∅ I3) as (s4 & L4 & H4 & [G4 I4 D4 M4]);
    [cbn; rewrite G3; apply I|set_solver|by rewrite size_empty|].
  cbn in G4, I4, D4, M4. rewrite G3 in G4, I4, D4. cbn in I4, D4. rewrite Hh in I4, D4.
  exists s4, L4. split.
  { unfold commit, get_log. rewrite bind_gets, (li_n _ _ I), Z.gtb_ltb. destruct (Z.ltb_spec 0 (Z.of_nat (length bs))); [|lia].
    rewrite (bind_Ok _ _ _ _ _ H1), (bind_Ok _ _ _ _ _ H2), (bind_Ok _ _ _ _ _ H3).
    unfold upd_log. rewrite bind_modify. exact H4. }
  split; [done|].
  assert (commit_writes (lg s) C bs = ws2 ++ [(l_start (lg s), put32 0 0 h)]) as ->.
  { unfold commit_writes, ws2. by rewrite <- !app_assoc. }
  split; [|split; [|congruence]].
  - rewrite fapply_app. exact I4.
  - rewrite D4, D3. cbn. by rewrite papply_app, app_assoc.
Qed.

(** ** Recovery *)

(** The header block [d] lists the blocks [bs]. *)
Definition head_says (d : list Z) (bs : list Z) : Prop :=
  get32 d 0 = Z.of_nat (length bs) /\ forall (i : nat) y, bs !! i = Some y -> get32 d (4 + 4 * Z.of_nat i) = y.

(** A log area [start, start + size) and blocks [bs] outside it. *)
Record log_area (start size : Z) (bs : list Z) : Prop := {
  la_geom : 0 <= start /\ start + size < 2 ^ 31 /\ 1 < size <= LOGSIZE;
  la_nodup : NoDup bs;
  la_home : forall y, y ∈ bs -> 0 <= y < 2 ^ 31 /\ ~ start <= y < start + size;
  la_room : Z.of_nat (length bs) < size
}.

Lemma lgok_area l bs : lgok l bs -> log_area (l_start l) (l_size l) bs.
Proof. intros []. by split. Qed.

Lemma area_nil start size bs : log_area start size bs -> log_area start size [].
Proof. intros [Hg _ _ _]. split; [done|constructor|set_solver|cbn; lia]. Qed.

Lemma s32_nonneg x : 0 <= x < 2 ^ 31 -> s32 x = x.
Proof. intros. apply s32_small. lia. Qed.

Lemma read_head_run s L C bs :
  binv (lb s) L C ∅ ∅ -> l_dev (lg s) = ROOTDEV -> length (lh_block (lg s)) = Z.to_nat LOGSIZE ->
  log_area (l_start (lg s)) (l_size (lg s)) bs -> head_says (C (l_start (lg s))) bs ->
  exists s' L', read_head s = Ok tt s' /\ binv (lb s') L' C ∅ ∅ /\ dk (lb s') = dk (lb s) /\ me (lb s') = me (lb s) /\
    lgok (lg s') bs /\ l_start (lg s') = l_start (lg s) /\ l_size (lg s') = l_size (lg s) /\
    l_lock (lg s') = l_lock (lg s) /\ l_outstanding (lg s') = l_outstanding (lg s) /\ l_committing (lg s') = l_committing (lg s).
Proof.
  intros Ib Hdev Hcap [Hg HN Hh Hroom] [Hs0 Hsi]. set (st := l_start (lg s)) in *. set (d := C st) in *.
  destruct (bread_run (lb s) L C ∅ ∅ st Ib) as (b & b1 & H1 & I1 & D1 & M1 & A1 & _);
    [set_solver|right; by rewrite !size_empty|].
  destruct (bufok_at _ _ _ _ _ _ _ I1 A1) as (_ & Hd & _).
  assert (Z.of_nat (length bs) < 30) as Hlen by (unfold LOGSIZE, MAXOPBLOCKS in *; lia).
  set (l1 := set_n (Z.of_nat (length bs)) (lg s)).
  set (body := fun i => upd_log (set_block i (s32 (get32 d (4 + 4 * i))))).
  destruct (for_range_inv (fun i s1 => lb s1 = b1 /\ exists blk, length blk = Z.to_nat LOGSIZE /\
      lg s1 = mkLog (l_lock (lg s)) st (l_size (lg s)) (l_outstanding (lg s)) (l_committing (lg s)) ROOTDEV
                (Z.of_nat (length bs)) blk /\
      forall (j : nat) y, Z.of_nat j < i -> bs !! j = Some y -> nth j blk 0 = y)
    (length bs) 0 body {| lb := b1; lg := l1 |}) as (s2 & H2 & B2 & blk & Hblk & G2 & N2).
  - intros j s1 Hj (B & blk & Hblk & G & N). eexists. split; [reflexivity|]. split; [done|].
    destruct (lookup_lt_is_Some_2 bs (Z.to_nat j)) as [y Hy]; [lia|].
    exists (<[Z.to_nat j := y]> blk). split; [by rewrite length_insert|]. split.
    + cbn. rewrite G. unfold set_block. cbn. pose proof (Hsi _ _ Hy) as Hyv. rewrite Z2Nat.id in Hyv by lia.
      rewrite Hyv, s32_nonneg; [done|]. apply Hh. by eapply list_elem_of_lookup_2.
    + intros k z Hk Hz. destruct (decide (k = Z.to_nat j)) as [->|Hkj].
      * rewrite Hy in Hz. injection Hz as ->. apply nth_lookup_Some.
        apply list_lookup_insert_eq. unfold LOGSIZE, MAXOPBLOCKS in *; lia.
      * rewrite nth_lookup, list_lookup_insert_ne by done. rewrite <- nth_lookup. apply N; [lia|done].
  - split; [done|]. exists (lh_block (lg s)). split; [done|]. split; [unfold l1, set_n; by rewrite Hdev|lia].
  - destruct (brelse_run b1 L C _ ∅ b st I1 A1) as (b3 & L3 & H3 & I3 & D3 & M3 & _); [set_solver| |].
    { right. rewrite D1. apply (bi_clean _ _ _ _ _ Ib); set_solver. }
    exists (with_bst b3 s2), L3. split.
    { unfold read_head, get_log. rewrite bind_gets, Hdev. fold st. rewrite (bind_Ok _ _ _ _ _ (zb_Ok _ s _ _ H1)).
      rewrite (bind_Ok _ _ (with_bst b1 s) d (with_bst b1 s)) by (unfold zb, zoom, buf_data, gets; cbn; by rewrite Hd).
      unfold upd_log. rewrite bind_modify, bind_gets. cbn [lg with_bst lb]. rewrite Hs0, s32_nonneg by lia.
      fold l1. cbn [lh_n set_n l1]. rewrite Nat2Z.id. fold body in H2. rewrite (bind_Ok _ _ _ _ _ H2).
      apply zb_Ok. by rewrite B2. }
    cbn. split; [|split; [congruence|split; [congruence|]]].
    { replace (_ ∖ {[st]}) with (∅ : gset Z) in I3 by set_solver. done. }
    rewrite G2. cbn. split; [|done]. split; cbn; try done. intros i y Hy. apply N2; [|done].
    apply lookup_lt_Some in Hy. lia.
Qed.

(** The writes of a recovery from a disk whose log lists [bs]. *)
Definition recover_writes (start : Z) (C : Z -> list Z) (bs : list Z) : list (Z * list Z) :=
  winst start C bs ++ [(start, put32 0 0 (C start))].

Lemma recover_run s L C bs :
  binv (lb s) L C ∅ ∅ -> l_dev (lg s) = ROOTDEV -> length (lh_block (lg s)) = Z.to_nat LOGSIZE ->
  log_area (l_start (lg s)) (l_size (lg s)) bs -> head_says (C (l_start (lg s))) bs ->
  let ws := recover_writes (l_start (lg s)) C bs in
  exists s' L', recover_from_log s = Ok tt s' /\ binv (lb s') L' (fapply C ws) ∅ ∅ /\
    dk (lb s') = {| platter := papply (platter (dk (lb s))) ws; writes := writes (dk (lb s)) ++ ws |} /\
    me (lb s') = me (lb s) /\ lgok (lg s') [] /\ l_start (lg s') = l_start (lg s) /\ l_size (lg s') = l_size (lg s) /\
    l_lock (lg s') = l_lock (lg s) /\ l_outstanding (lg s') = l_outstanding (lg s) /\ l_committing (lg s') = l_committing (lg s).
Proof.
  intros Ib Hdev Hcap Ha Hs ws.
  destruct (read_head_run s L C bs Ib Hdev Hcap Ha Hs) as (s1 & L1 & H1 & I1 & D1 & M1 & G1 & F1 & F2 & F3 & F4 & F5).
  destruct (install_trans_run true s1 L1 C bs G1 I1) as (s2 & L2 & H2 & [W2 I2 D2 M2]).
  rewrite F1 in I2, D2. set (ws1 := winst (l_start (lg s)) C bs) in *.
  assert (fapply C ws1 (l_start (lg s)) = C (l_start (lg s))) as Hst.
  { apply fapply_other. unfold ws1. rewrite winst_keys, <- F1. by apply (start_not_logged _ _ C G1). }
  set (s2' := {| lb := lb s2; lg := set_n 0 (lg s2) |}).
  destruct (write_head_run s2' L2 (fapply C ws1) ∅ I2) as (s3 & L3 & H3 & [W3 I3 D3 M3]);
    [cbn; rewrite W2; apply G1|set_solver|by rewrite size_empty|].
  cbn in W3, I3, D3, M3. rewrite W2 in W3, I3, D3. rewrite F1 in I3, D3. cbn in I3, D3. rewrite Hst in I3, D3.
  exists s3, L3. split.
  { unfold recover_from_log. rewrite (bind_Ok _ _ _ _ _ H1), (bind_Ok _ _ _ _ _ H2). unfold upd_log. rewrite bind_modify. exact H3. }
  unfold ws, recover_writes. fold ws1. rewrite fapply_app. split; [exact I3|]. split.
  { rewrite D3, D2, D1. cbn. by rewrite papply_app, app_assoc. }
  split; [congruence|]. rewrite W3. cbn. split; [|done].
  destruct G1 as [A1 A2 A3 A4 A5 A6 A7 A8]. split; cbn; try done; [constructor|set_solver|lia].
Qed.

(** ** Crashes *)

(** The machine starts with disk [p]: the cache is empty, [struct log] is zero. *)
Definition boot_lst (p : gmap Z (list Z)) (pid : Z) : lst :=
  {| lb := boot_bst p pid; lg := mkLog initlock 0 0 0 0 0 0 (replicate (Z.to_nat LOGSIZE) 0) |}.
Definition boot_recover (p : gmap Z (list Z)) (pid start size : Z) : outcome lst unit :=
  (zb binit ;;; initlog ROOTDEV start size) (boot_lst p pid).

Lemma boot_recover_run p pid start size bs :
  log_area start size bs -> head_says (disk_read p start) bs ->
  let ws := recover_writes start (disk_read p) bs in
  exists s' L', boot_recover p pid start size = Ok tt s' /\ binv (lb s') L' (fapply (disk_read p) ws) ∅ ∅ /\
    dk (lb s') = {| platter := papply p ws; writes := ws |} /\ lgok (lg s') [] /\ l_lock (lg s') = initlock /\
    l_start (lg s') = start /\ l_size (lg s') = size /\ l_outstanding (lg s') = 0 /\ l_committing (lg s') = 0.
Proof.
  intros Ha Hs ws. destruct (binit_run p pid) as (b & L & Hb & Ib & Db & Mb).
  set (s0 := {| lb := b; lg := mkLog initlock start size 0 0 ROOTDEV 0 (replicate (Z.to_nat LOGSIZE) 0) |}).
  destruct (recover_run s0 L (disk_read p) bs Ib eq_refl) as (s' & L' & H1 & I1 & D1 & M1 & G1 & F1 & F2 & F3 & F4 & F5);
    [cbn; by rewrite length_replicate|done|done|].
  exists s', L'. split.
  { unfold boot_recover. rewrite (bind_Ok _ _ _ _ _ (zb_Ok binit (boot_lst p pid) _ _ Hb)). exact H1. }
  split; [exact I1|]. split; [rewrite D1; cbn [lb s0]; rewrite Db; reflexivity|].
  exact (conj G1 (conj F3 (conj F1 (conj F2 (conj F4 F5))))).
Qed.

#[global] Opaque boot_recover.

(** What recovery leaves in a home block: the logged contents if the log lists the
    block, and the block itself otherwise. *)
Lemma recovered_home start size C bs y :
  log_area start size bs -> ~ start <= y < start + size ->
  (forall i : nat, bs !! i = Some y -> fapply C (recover_writes start C bs) y = C (start + 1 + Z.of_nat i)) /\
  (y ∉ bs -> fapply C (recover_writes start C bs) y = C y).
Proof.
  intros [Hg HN Hh Hr] Hy. unfold recover_writes. rewrite fapply_app. cbn. rewrite fn_lookup_insert_ne by lia. split.
  - intros i Hi. apply fapply_in; [by rewrite winst_keys|]. apply list_elem_of_lookup. exists i.
    unfold winst. by rewrite list_lookup_imap, Hi.
  - intros Hn. apply fapply_other. by rewrite winst_keys.
Qed.

Lemma head_says_nil d : get32 d 0 = 0 -> head_says d [].
Proof. intros H0. split; [done|]. intros i y Hi. done. Qed.

Lemma head_bytes_says l d bs : bytes_ok BSIZE d -> lgok l bs -> head_says (head_bytes l d) bs.
Proof.
  intros Hd G. pose proof (li_room _ _ G). pose proof (li_geom _ _ G). pose proof (li_n _ _ G) as Hn.
  unfold LOGSIZE, MAXOPBLOCKS in *.
  destruct (head_upto_spec l d (length bs) Hd ltac:(unfold LOGSIZE, MAXOPBLOCKS; lia)) as (_ & Hh0 & Hi).
  unfold head_bytes. rewrite Hn, Nat2Z.id. split.
  - rewrite Hh0, Hn. apply u32_small. lia.
  - intros i y Hy. rewrite Hi by (apply lookup_lt_Some in Hy; lia). by eapply li_block.
Qed.

(** The three kinds of prefix of the trace of a commit. *)
Lemma commit_prefix l C bs (k : nat) :
  let h := head_bytes l (C (l_start l)) in
  (k <= length bs)%nat /\ take k (commit_writes l C bs) = take k (wlog (l_start l) C bs) \/
  (exists j, (length bs < k)%nat /\
     take k (commit_writes l C bs) = wlog (l_start l) C bs ++ [(l_start l, h)] ++ take j (whome C bs)) \/
  (length bs < k)%nat /\ take k (commit_writes l C bs) = commit_writes l C bs.
Proof.
  cbv zeta. unfold commit_writes. set (h := head_bytes l (C (l_start l))).
  assert (length (wlog (l_start l) C bs) = length bs) as Hl by apply length_imap.
  destruct (decide (k <= length bs)%nat) as [Hk|Hk].
  { left. split; [done|]. rewrite take_app_le by lia. done. }
  right. destruct (decide (k <= length bs + 1 + length bs)%nat) as [Hk2|Hk2].
  - left. exists (k - length bs - 1)%nat. split; [lia|]. rewrite take_app_ge by lia. rewrite Hl.
    replace (k - length bs)%nat with (S (k - length bs - 1)) by lia. cbn. do 2 f_equal.
    rewrite take_app_le by (unfold whome; rewrite length_fmap; lia). f_equal; lia.
  - right. split; [lia|]. apply take_ge. rewrite !length_app, Hl. unfold whome. rewrite length_fmap. cbn. lia.
Qed.

Lemma whome_keys C bs : (whome C bs).*1 = bs.
Proof. unfold whome. rewrite <- list_fmap_compose. cbn. apply list_fmap_id. Qed.

(** The contents a crash leaves, before and after the header is written. *)
Lemma crash_before l C bs old k y :
  lgok l bs -> ~ l_start l < y < l_start l + l_size l -> fapply old (take k (wlog (l_start l) C bs)) y = old y.
Proof.
  intros G Hy. pose proof (li_room _ _ G). apply fapply_other. intros Hin%take_keys. apply wlog_keys in Hin. lia.
Qed.

Lemma crash_after l C bs old j :
  lgok l bs ->
  let h := head_bytes l (C (l_start l)) in
  let C' := fapply old (wlog (l_start l) C bs ++ [(l_start l, h)] ++ take j (whome C bs)) in
  C' (l_start l) = h /\
  (forall (i : nat) y, bs !! i = Some y -> C' (l_start l + 1 + Z.of_nat i) = C y) /\
  (forall y, ~ l_start l <= y < l_start l + l_size l -> y ∉ bs -> C' y = old y).
Proof.
  intros G h C'. destruct (start_not_logged l bs C G) as [Hs1 Hs2]. pose proof (li_room _ _ G).
  assert (forall y, y ∉ bs -> C' y = (<[l_start l := h]> (fapply old (wlog (l_start l) C bs)) : Z -> list Z) y) as HC'.
  { intros y Hy. unfold C'. rewrite app_assoc, fapply_app, fapply_other.
    - by rewrite fapply_app.
    - intros Hin%take_keys. by rewrite whome_keys in Hin. }
  split; [by rewrite HC', fn_lookup_insert|]. split.
  - intros i y Hi. pose proof (lookup_lt_Some _ _ _ Hi). rewrite HC'.
    + rewrite fn_lookup_insert_ne by lia. by apply fapply_wlog.
    + intros Hin. destruct (li_home _ _ G _ Hin). lia.
  - intros y Hy Hn. rewrite HC' by done. rewrite fn_lookup_insert_ne by lia. apply fapply_other.
    rewrite wlog_keys. lia.
Qed.

(** After a commit the home blocks are as the transaction left them. *)
Lemma commit_home l C bs old y : lgok l bs -> (forall y, y ∉ bs -> C y = old y) -> ~ l_start l <= y < l_start l + l_size l ->
  fapply old (commit_writes l C bs) y = C y.
Proof.
  intros G Hclean Hy. pose proof (li_geom _ _ G). unfold commit_writes. rewrite !app_assoc, fapply_app. cbn. rewrite fn_lookup_insert_ne by lia.
  rewrite fapply_app. destruct (decide (y ∈ bs)) as [Hin|Hn].
  - apply fapply_in; [rewrite whome_keys; apply G|]. apply list_elem_of_fmap. by exists y.
  - rewrite fapply_other by (by rewrite whome_keys). rewrite fapply_app. cbn. rewrite fn_lookup_insert_ne by lia.
    rewrite fapply_other by (rewrite wlog_keys; pose proof (li_room _ _ G); lia). symmetry. by apply Hclean.
Qed.

(** The disk after any number of the writes of a commit, and a recovery. *)
Lemma commit_recovers (s : lst) (L : list Z) (C : Z -> list Z) (bs : list Z) :
  lginv s L C ∅ bs ->
  let start := l_start (lg s) in let size := l_size (lg s) in
  let old := disk_read (platter (dk (lb s))) in
  let ws := commit_writes (lg s) C bs in
  get32 (old start) 0 = 0 ->
  forall (k : nat) (pid : Z), exists r,
    boot_recover (papply (platter (dk (lb s))) (take k ws)) pid start size = Ok tt r /\
    get32 (disk_read (platter (dk (lb r))) start) 0 = 0 /\
    ((k <= length bs)%nat -> forall y, ~ start <= y < start + size -> disk_read (platter (dk (lb r))) y = old y) /\
    ((length bs < k)%nat -> forall y, ~ start <= y < start + size -> disk_read (platter (dk (lb r))) y = C y).
Proof.
  intros [Ib G _ Hby] start size old ws Hold k pid.
  pose proof (lgok_area _ _ G) as Ha. set (p := papply (platter (dk (lb s))) (take k ws)).
  assert (forall y, disk_read p y = fapply old (take k ws) y) as Hp by (intros; apply disk_read_papply).
  destruct (start_not_logged (lg s) bs C G) as [_ Hstart]. pose proof (li_geom _ _ G) as Hg.
  assert (forall y, y ∉ bs -> C y = old y) as Hclean.
  { intros y Hy. apply (bi_clean _ _ _ _ _ Ib); [set_solver|by rewrite elem_of_list_to_set]. }
  assert (bytes_ok BSIZE (disk_read p start) /\ exists bs', log_area start size bs' /\ head_says (disk_read p start) bs' /\
    ((k <= length bs)%nat -> forall y, ~ start <= y < start + size -> fapply (disk_read p) (recover_writes start (disk_read p) bs') y = old y) /\
    ((length bs < k)%nat -> forall y, ~ start <= y < start + size -> fapply (disk_read p) (recover_writes start (disk_read p) bs') y = C y))
    as (Hpb & bs' & Ha' & Hs' & Hk1 & Hk2).
  { destruct (commit_prefix (lg s) C bs k) as [[Hk Hw]|[(j & Hk & Hw)|[Hk Hw]]]; fold ws start in Hw; rewrite Hw in Hp.
    - assert (disk_read p start = old start) as Hps by (rewrite Hp; apply (crash_before (lg s)); [done|lia]).
      split; [rewrite Hps, <- Hclean by done; apply Hby|]. exists []. split; [by eapply area_nil|].
      split; [apply head_says_nil; by rewrite Hps|]. split; [|lia]. intros _ y Hy.
      destruct (recovered_home start size (disk_read p) [] y (area_nil _ _ _ Ha) Hy) as [_ ->]; [|set_solver].
      rewrite Hp. apply (crash_before (lg s)); [done|lia].
    - destruct (crash_after (lg s) C bs old j G) as (Hc1 & Hc2 & Hc3). fold start in Hc1, Hc2, Hc3.
      assert (disk_read p start = head_bytes (lg s) (C start)) as Hps by (by rewrite Hp).
      split; [rewrite Hps; apply head_upto_spec; [apply Hby|rewrite (li_n _ _ G), Nat2Z.id; pose proof (li_room _ _ G); lia]|].
      exists bs. split; [done|]. split; [rewrite Hps; by apply head_bytes_says|]. split; [lia|]. intros _ y Hy.
      destruct (recovered_home start size (disk_read p) bs y Ha Hy) as [Hin Hout].
      destruct (decide (y ∈ bs)) as [[i Hi]%list_elem_of_lookup|Hn].
      + rewrite (Hin i Hi), Hp. by apply Hc2.
      + rewrite (Hout Hn), Hp, Hc3 by done. symmetry. by apply Hclean.
    - assert (disk_read p start = put32 0 0 (head_bytes (lg s) (C start))) as Hps.
      { rewrite Hp. unfold ws, commit_writes. rewrite !app_assoc, fapply_app. cbn. apply fn_lookup_insert. }
      assert (bytes_ok BSIZE (head_bytes (lg s) (C start))) as Hhb.
      { apply head_upto_spec; [apply Hby|rewrite (li_n _ _ G), Nat2Z.id; pose proof (li_room _ _ G); lia]. }
      split; [rewrite Hps; apply bytes_put32; done|]. exists []. split; [by eapply area_nil|].
      split; [apply head_says_nil; rewrite Hps; by apply (get32_put32 BSIZE)|]. split; [lia|]. intros _ y Hy.
      destruct (recovered_home start size (disk_read p) [] y (area_nil _ _ _ Ha) Hy) as [_ ->]; [|set_solver].
      rewrite Hp. by apply commit_home. }
  destruct (boot_recover_run p pid start size bs' Ha' Hs') as (r & L2 & Hr & Ir & Dr & _).
  exists r. split; [exact Hr|]. rewrite Dr. cbn [platter].
  split; [|split; intros Hk y Hy; rewrite disk_read_papply; auto].
  rewrite disk_read_papply. unfold recover_writes. rewrite fapply_app. cbn. rewrite fn_lookup_insert.
  by apply (get32_put32 BSIZE).
Qed.

(** C1: a crash at any point of a commit is atomic.  [commit] makes a fixed
    sequence of block writes.  If the machine stops after any number [k] of them
    and boots again, recovery finishes with an empty log, and the blocks outside
    the log area are all as before the transaction if the header had not been
    written, and all as the transaction left them if it had. *)
Theorem commit_crash_atomic (s : lst) (L : list Z) (C : Z -> list Z) (bs : list Z) :
  lginv s L C ∅ bs -> bs <> [] ->
  let start := l_start (lg s) in let size := l_size (lg s) in
  let old := disk_read (platter (dk (lb s))) in
  get32 (old start) 0 = 0 ->
  exists s' ws, commit s = Ok tt s' /\
    dk (lb s') = {| platter := papply (platter (dk (lb s))) ws; writes := writes (dk (lb s)) ++ ws |} /\
    forall (k : nat) (pid : Z), exists r,
      boot_recover (papply (platter (dk (lb s))) (take k ws)) pid start size = Ok tt r /\
      get32 (disk_read (platter (dk (lb r))) start) 0 = 0 /\
      ((k <= length bs)%nat -> forall y, ~ start <= y < start + size -> disk_read (platter (dk (lb r))) y = old y) /\
      ((length bs < k)%nat -> forall y, ~ start <= y < start + size -> disk_read (platter (dk (lb r))) y = C y).
Proof.
  intros I Hne start size old Hold. destruct I as [Ib G Hl Hby] eqn:E. clear E.
  destruct (commit_run s L C bs G Ib Hne) as (s' & L' & H1 & G1 & I1 & D1 & M1).
  exists s', (commit_writes (lg s) C bs). split; [done|]. split; [done|]. by apply (commit_recovers s L C bs).
Qed.

(** C23: recovery may itself be interrupted.  If the machine stops after any
    number of the writes that recovery makes and boots again, the second recovery
    leaves the same contents in every block outside the log area. *)
Theorem recovery_idempotent (p : gmap Z (list Z)) (pid start size : Z) (bs : list Z) :
  log_area start size bs -> head_says (disk_read p start) bs -> bytes_ok BSIZE (disk_read p start) ->
  exists r ws, boot_recover p pid start size = Ok tt r /\
    dk (lb r) = {| platter := papply p ws; writes := ws |} /\
    forall (k : nat) (pid' : Z), exists r', boot_recover (papply p (take k ws)) pid' start size = Ok tt r' /\
      forall y, ~ start <= y < start + size ->
        disk_read (platter (dk (lb r'))) y = disk_read (platter (dk (lb r))) y.
Proof.
  intros Ha Hs Hb. destruct (boot_recover_run p pid start size bs Ha Hs) as (r & L & Hr & _ & Dr & _).
  set (old := disk_read p) in *. set (ws := recover_writes start old bs) in *.
  exists r, ws. split; [exact Hr|]. split; [exact Dr|]. intros k pid'. rewrite Dr. cbn [platter]. clear Hr Dr r L.
  pose proof (la_geom _ _ _ Ha) as Hg. pose proof (la_room _ _ _ Ha) as Hroom.
  assert (length (winst start old bs) = length bs) as Hlen by apply length_imap.
  destruct (decide (k <= length bs)%nat) as [Hk|Hk].
  - assert (take k ws = take k (winst start old bs)) as -> by (unfold ws, recover_writes; rewrite take_app_le by lia; done).
    set (p' := papply p (take k (winst start old bs))).
    assert (forall x, x ∉ bs -> disk_read p' x = old x) as Hsame.
    { intros x Hx. unfold p'. rewrite disk_read_papply. apply fapply_other. intros Hin%take_keys. rewrite winst_keys in Hin. exact (Hx Hin). }
    assert (forall x, start <= x < start + size -> disk_read p' x = old x) as Hlog.
    { intros x Hx. apply Hsame. intros Hin. by destruct (la_home _ _ _ Ha x Hin). }
    destruct (boot_recover_run p' pid' start size bs Ha) as (r' & L' & Hr' & _ & Dr' & _);
      [rewrite Hlog by lia; done|]. exists r'. split; [exact Hr'|]. intros y Hy. rewrite Dr'. cbn [platter].
    rewrite !disk_read_papply. fold old.
    destruct (recovered_home start size (disk_read p') bs y Ha Hy) as [Hin Hout].
    destruct (recovered_home start size old bs y Ha Hy) as [Hin' Hout'].
    destruct (decide (y ∈ bs)) as [[i Hi]%list_elem_of_lookup|Hn].
    + pose proof (lookup_lt_Some _ _ _ Hi). rewrite (Hin i Hi). unfold ws. rewrite (Hin' i Hi). apply Hlog. lia.
    + rewrite (Hout Hn). unfold ws. rewrite (Hout' Hn). by apply Hsame.
  - assert (take k ws = ws) as -> by (apply take_ge; unfold ws, recover_writes; rewrite length_app; cbn; lia).
    set (p' := papply p ws).
    assert (disk_read p' start = put32 0 0 (old start)) as Hst.
    { unfold p'. rewrite disk_read_papply. unfold ws, recover_writes. rewrite fapply_app. cbn. apply fn_lookup_insert. }
    destruct (boot_recover_run p' pid' start size [] (area_nil _ _ _ Ha)) as (r' & L' & Hr' & _ & Dr' & _).
    { apply head_says_nil. rewrite Hst. by apply (get32_put32 BSIZE). }
    exists r'. split; [exact Hr'|]. intros y Hy. rewrite Dr'. cbn [platter]. rewrite disk_read_papply.
    destruct (recovered_home start size (disk_read p') [] y (area_nil _ _ _ Ha) Hy) as [_ ->]; [|apply not_elem_of_nil].
    reflexivity.
Qed.

(** ** log_write *)

Lemma log_find_spec l bs y (i : nat) fuel :
  lgok l bs -> (i + fuel >= length bs)%nat -> (i <= length bs)%nat -> (forall j, (j < i)%nat -> bs !! j <> Some y) ->
  exists k, log_find fuel (Z.of_nat i) l y = Z.of_nat k /\
    ((bs !! k = Some y) \/ (k = length bs /\ y ∉ bs)).
Proof.
  intros G. revert i. induction fuel as [|f IH]; intros i Hf Hi Hj; cbn [log_find].
  { exists i. split; [done|]. right. split; [lia|]. intros [j Hjy]%list_elem_of_lookup.
    apply (Hj j); [apply lookup_lt_Some in Hjy; lia|done]. }
  rewrite (li_n _ _ G). destruct (Z.ltb_spec (Z.of_nat i) (Z.of_nat (length bs))) as [Hlt|Hge].
  - destruct (lookup_lt_is_Some_2 bs i) as [z Hz]; [lia|]. rewrite (li_block _ _ _ _ G Hz).
    destruct (Z.eqb_spec z y) as [->|Hne]; [exists i; by split; [|left]|].
    replace (Z.of_nat i + 1) with (Z.of_nat (S i)) by lia. apply IH; [lia|lia|].
    intros j Hjs. destruct (decide (j = i)) as [->|]; [congruence|apply Hj; lia].
  - exists i. split; [done|]. right. split; [lia|]. intros [j Hjy]%list_elem_of_lookup.
    apply (Hj j); [apply lookup_lt_Some in Hjy; lia|done].
Qed.

(** The transaction after logging block [y]. *)
Definition add_block (y : Z) (bs : list Z) : list Z := if decide (y ∈ bs) then bs else bs ++ [y].

Lemma lgok_set_block l bs (k : nat) y :
  lgok l bs -> bs !! k = Some y -> lgok (set_block (Z.of_nat k) y l) bs.
Proof.
  intros [A1 A2 A3 A4 A5 A6 A7 A8] Hk. split; cbn; try done; [|by rewrite length_insert].
  intros i z Hi. rewrite Nat2Z.id, nth_lookup. destruct (decide (i = k)) as [->|].
  - rewrite Hk in Hi. injection Hi as <-. pose proof (lookup_lt_Some _ _ _ Hk).
    rewrite list_lookup_insert_eq; [done|]. unfold LOGSIZE, MAXOPBLOCKS in *. lia.
  - rewrite list_lookup_insert_ne by done. rewrite <- nth_lookup. by apply A3.
Qed.

Lemma lgok_append l bs y :
  lgok l bs -> y ∉ bs -> 0 <= y < 2 ^ 31 -> ~ l_start l <= y < l_start l + l_size l ->
  Z.of_nat (length bs) < l_size l - 1 ->
  lgok (set_n (lh_n l + 1) (set_block (Z.of_nat (length bs)) y l)) (bs ++ [y]).
Proof.
  intros [A1 A2 A3 A4 A5 A6 A7 A8] Hn Hy0 Hyl Hr. split; cbn; try done.
  - rewrite A2, length_app. cbn. lia.
  - intros i z Hi. rewrite Nat2Z.id, nth_lookup. apply lookup_app_Some in Hi as [Hi|[Hi Hz]].
    + pose proof (lookup_lt_Some _ _ _ Hi). rewrite list_lookup_insert_ne by lia. rewrite <- nth_lookup. by apply A3.
    + apply list_lookup_singleton_Some in Hz as [Hi0 <-]. assert (i = length bs) as -> by lia.
      rewrite list_lookup_insert_eq; [done|]. unfold LOGSIZE, MAXOPBLOCKS in *. lia.
  - by rewrite length_insert.
  - apply NoDup_app. split; [done|]. split; [set_solver|apply NoDup_singleton].
  - intros z [Hz| ->%list_elem_of_singleton]%elem_of_app; [by apply A7|done].
  - rewrite length_app. cbn. lia.
Qed.

Lemma lgok_lock lk l bs : lgok l bs -> lgok (set_lock lk l) bs.
Proof. by intros []. Qed.
Lemma log_find_lock fuel i lk l y : log_find fuel i (set_lock lk l) y = log_find fuel i l y.
Proof. revert i. induction fuel as [|f IH]; intros i; cbn; [done|]. by rewrite IH. Qed.

Lemma log_slot_run l bs y :
  lgok l bs -> 1 <= l_outstanding l -> Z.of_nat (length bs) < l_size l - 1 ->
  let i := log_find (Z.to_nat LOGSIZE) 0 l y in
  log_slot y l = Ok (i =? lh_n l) (set_block i (s32 y) l).
Proof.
  intros G Ho Hroom i. pose proof (li_geom _ _ G) as Hg. unfold log_slot. cbn [bind get]. rewrite (li_n _ _ G), !Z.geb_leb.
  destruct (Z.leb_spec LOGSIZE (Z.of_nat (length bs))); [lia|].
  destruct (Z.leb_spec (l_size l - 1) (Z.of_nat (length bs))); [lia|]. cbn [orb].
  destruct (Z.ltb_spec (l_outstanding l) 1); [lia|]. unfold bind. cbn. done.
Qed.

Lemma log_write_run s L C held bs b y :
  lginv s L C held bs -> 1 <= l_outstanding (lg s) -> at_buf (lb s) b y -> y ∈ held ->
  0 <= y < 2 ^ 31 -> ~ l_start (lg s) <= y < l_start (lg s) + l_size (lg s) ->
  Z.of_nat (length bs) < l_size (lg s) - 1 ->
  exists s', log_write b s = Ok tt s' /\ lginv s' L C held (add_block y bs) /\
    dk (lb s') = dk (lb s) /\ me (lb s') = me (lb s) /\ (forall i z, at_buf (lb s') i z <-> at_buf (lb s) i z) /\
    l_start (lg s') = l_start (lg s) /\ l_size (lg s') = l_size (lg s) /\
    l_outstanding (lg s') = l_outstanding (lg s) /\ l_committing (lg s') = l_committing (lg s).
Proof.
  intros [Ib G Hlk Hby] Hout Hb Hy Hy0 Hyl Hroom. pose proof (li_geom _ _ G) as Hg.
  pose proof Hb as (_ & _ & Hbn).
  destruct (log_find_spec (lg s) bs y 0 (Z.to_nat LOGSIZE) G) as (k & Hk & Hc);
    [unfold LOGSIZE, MAXOPBLOCKS in *; lia|lia|lia|].
  change (Z.of_nat 0) with 0 in Hk.
  set (s1 := {| lb := lb s; lg := set_lock held_lock (lg s) |}).
  assert (lgok (lg s1) bs) as G1 by (by apply lgok_lock).
  assert (log_find (Z.to_nat LOGSIZE) 0 (lg s1) y = Z.of_nat k) as Hk1 by (rewrite <- Hk; apply log_find_lock).
  assert (s32 y = y) as Hs32 by (apply s32_nonneg; done).
  assert (forall k', (do fresh <- (fun s => Ok (Z.of_nat k =? lh_n (lg s)) {| lb := lb s; lg := set_block (Z.of_nat k) y (lg s) |});
      (if (fresh : bool) then zb (bpin b) ;;; upd_log (fun l => set_n (lh_n l + 1) l) else return tt) ;;;
      log_spin lk_release) s1 = k' -> log_write b s = k') as Hrun.
  { intros k' <-. unfold log_write. rewrite (bind_Ok _ _ s tt s1) by (unfold log_spin, zoom; by rewrite Hlk).
    rewrite (bind_Ok _ _ s1 (buf_at (lb s) b) s1) by done. rewrite Hbn. unfold bind at 1. unfold bind at 2.
    unfold zl at 1, zoom at 1. rewrite (log_slot_run (lg s1) bs y) by (done || cbn; lia). by rewrite Hk1, Hs32. }
  unfold add_block. destruct (decide (y ∈ bs)) as [Hin|Hnin].
  - assert (bs !! k = Some y) as Hky by (destruct Hc as [?|[_ ?]]; done).
    pose proof (lookup_lt_Some _ _ _ Hky). pose proof (lgok_set_block _ _ _ _ G Hky) as G2.
    exists {| lb := lb s; lg := set_block (Z.of_nat k) y (lg s) |}. split.
    { apply Hrun. unfold bind at 1.
      cbn [s1 lg lb set_lock lh_n]. rewrite (li_n _ _ G).
      destruct (Z.eqb_spec (Z.of_nat k) (Z.of_nat (length bs))); [lia|]. rewrite bind_ret.
      unfold log_spin, zoom, set_n, set_block. cbn. by rewrite Hlk. }
    split; [|done]. split; [done|done|done|done].
  - destruct Hc as [Hky|[-> _]]; [by exfalso; apply Hnin; eapply list_elem_of_lookup_2|].
    destruct (bpin_run (lb s) L C held (list_to_set bs) b y Ib Hb) as (b' & Hp & Ip & Dp & Mp & Kp);
      [by rewrite elem_of_list_to_set|].
    pose proof (lgok_append _ _ y G Hnin Hy0 Hyl Hroom) as G2.
    exists {| lb := b'; lg := set_n (lh_n (lg s) + 1) (set_block (Z.of_nat (length bs)) y (lg s)) |}. split.
    { apply Hrun. unfold bind at 1.
      cbn [s1 lg lb set_lock lh_n]. rewrite (li_n _ _ G), Z.eqb_refl.
      rewrite (bind_Ok _ _ _ tt {| lb := b'; lg := set_n (lh_n (lg s) + 1) (set_block (Z.of_nat (length bs)) y (set_lock held_lock (lg s))) |}).
      - unfold log_spin, zoom, set_n, set_block. cbn. by rewrite Hlk, (li_n _ _ G).
      - unfold bind, zb, zoom. cbn [lb]. rewrite Hp. cbn. reflexivity. }
    cbn. split; [|done]. split; cbn; [|done|done|done].
    replace (list_to_set (bs ++ [y]) : gset Z) with ({[y]} ∪ list_to_set bs : gset Z) by set_solver. done.
Qed.

(** ** begin_op and end_op *)

Lemma begin_op_log_Ok l :
  l_lock l = initlock -> l_committing l = 0 -> lh_n l + (l_outstanding l + 1) * MAXOPBLOCKS <= LOGSIZE ->
  begin_op_log l = Ok tt (set_outstanding (l_outstanding l + 1) l).
Proof.
  intros Hlk Hc Hroom. unfold begin_op_log, l_spin, zoom, bind. rewrite Hlk. cbn -[MAXOPBLOCKS LOGSIZE Z.gtb].
  rewrite Hc, Z.gtb_ltb. cbn -[MAXOPBLOCKS LOGSIZE].
  destruct (Z.ltb_spec LOGSIZE (lh_n l + (l_outstanding l + 1) * MAXOPBLOCKS)); [lia|].
  cbn. unfold set_lock, set_outstanding. cbn. by rewrite Hlk.
Qed.

Lemma begin_op_run s L C held bs :
  lginv s L C held bs -> l_committing (lg s) = 0 -> 
  Z.of_nat (length bs) + (l_outstanding (lg s) + 1) * MAXOPBLOCKS <= LOGSIZE ->
  let s' := {| lb := lb s; lg := set_outstanding (l_outstanding (lg s) + 1) (lg s) |} in
  begin_op s = Ok tt s' /\ lginv s' L C held bs.
Proof.
  intros [Ib G Hlk Hby] Hc Hroom s'. split.
  - unfold begin_op, zl, zoom. by rewrite begin_op_log_Ok by (done || by rewrite (li_n _ _ G)).
  - split; [done| |done|done]. by destruct G.
Qed.

(** ** Examples *)

(** A boot from an empty disk, and one block written in a transaction. *)
Definition log_one (y : Z) (f : list Z -> list Z) : M lst unit :=
  begin_op ;;;
  do b <- zb (bread ROOTDEV y);
  zb (buf_write b f) ;;;
  log_write b ;;;
  zb (brelse b).

Lemma fresh_log_run : exists r L C,
  boot_recover ∅ 1 2 LOGSIZE = Ok tt r /\ lginv r L C ∅ [] /\ (forall y, C y = zero_block) /\
  (forall y, disk_read (platter (dk (lb r))) y = zero_block) /\
  l_start (lg r) = 2 /\ l_size (lg r) = LOGSIZE /\ l_outstanding (lg r) = 0 /\ l_committing (lg r) = 0.
Proof.
  destruct (boot_recover_run ∅ 1 2 LOGSIZE []) as (r & L & Hr & Ir & Dr & Gr & Kr & Sr & Zr & Or & Cr).
  { split; [unfold LOGSIZE, MAXOPBLOCKS; lia|constructor|intros y []%not_elem_of_nil|done]. }
  { by apply head_says_nil. }
  exists r, L. eexists. split; [exact Hr|]. clear Hr.
  assert (forall y, fapply (disk_read ∅) (recover_writes 2 (disk_read ∅) []) y = zero_block) as HC0.
  { intros y. unfold recover_writes. cbn. destruct (decide (y = 2)) as [->|];
      [by rewrite fn_lookup_insert|by rewrite fn_lookup_insert_ne]. }
  split; [|split; [exact HC0|]].
  - split; [exact Ir|exact Gr|exact Kr|]. intros y. rewrite HC0. by apply bytes_zero.
  - split; [|done]. intros y. rewrite Dr. cbn [platter]. rewrite disk_read_papply. apply HC0.
Qed.

Lemma log_one_run : exists s L C,
  (match boot_recover ∅ 1 2 LOGSIZE with Ok _ r => log_one 100 (put32 0 7) r | _ => Diverge end) = Ok tt s /\
  lginv s L C ∅ [100] /\ l_start (lg s) = 2 /\ l_size (lg s) = LOGSIZE /\
  get32 (disk_read (platter (dk (lb s))) 2) 0 = 0 /\
  disk_read (platter (dk (lb s))) 100 = zero_block /\ C 100 = put32 0 7 zero_block.
Proof.
  destruct fresh_log_run as (r & L & C0 & Hr & I0 & HC0 & Hd0 & Sr & Zr & Or & Cr). rewrite Hr. clear Hr.
  destruct (begin_op_run _ _ _ _ _ I0 Cr) as [H1 I1]; [rewrite Or; done|]. rewrite Or in H1, I1.
  set (s1 := {| lb := lb r; lg := _ |}) in H1, I1.
  destruct (bread_run (lb s1) L C0 ∅ ∅ 100 (li_bio _ _ _ _ _ I1)) as (b & b2 & H2 & I2 & D2 & M2 & A2 & _);
    [apply not_elem_of_empty|right; by rewrite !size_empty|].
  destruct (buf_write_run b2 L C0 _ _ b 100 (put32 0 7) I2 A2) as (b3 & H3 & I3 & D3 & M3 & A3); [set_solver|].
  set (s3 := {| lb := b3; lg := lg s1 |}). set (C3 := <[100 := _]> C0) in I3.
  assert (lginv s3 L C3 ({[100]} ∪ ∅) []) as I3'.
  { split; [exact I3|apply I1|apply I1|]. intros y. unfold C3. destruct (decide (y = 100)) as [->|].
    - rewrite fn_lookup_insert, HC0. apply bytes_put32; [by apply bytes_zero|lia|unfold BSIZE; lia].
    - rewrite fn_lookup_insert_ne by done. rewrite HC0. by apply bytes_zero. }
  destruct (log_write_run s3 L C3 _ [] b 100 I3') as (s4 & H4 & I4 & D4 & M4 & A4 & S4 & Z4 & _ & _);
    [cbn; lia|by apply A3|set_solver|lia|cbn; rewrite Sr, Zr; unfold LOGSIZE, MAXOPBLOCKS; lia|
     cbn; rewrite Zr; unfold LOGSIZE, MAXOPBLOCKS; lia|].
  change (add_block 100 []) with [100] in I4.
  destruct (brelse_run (lb s4) L C3 _ _ b 100 (li_bio _ _ _ _ _ I4)) as (b5 & L5 & H5 & I5 & D5 & M5 & A5 & _);
    [by apply A4, A3|set_solver|left; set_solver|].
  exists {| lb := b5; lg := lg s4 |}, L5, C3. split.
  { unfold log_one. rewrite (bind_Ok _ _ _ _ _ H1). rewrite (bind_Ok _ _ _ b {| lb := b2; lg := lg s1 |}) by (unfold zb, zoom; by rewrite H2).
    rewrite (bind_Ok _ _ _ tt s3) by (unfold zb, zoom; cbn [lb]; by rewrite H3). rewrite (bind_Ok _ _ _ _ _ H4).
    unfold zb, zoom. by rewrite H5. }
  split. { split; [|apply I4|apply I4|apply I4]. cbn [lb]. replace (∅ : gset Z) with (({[100]} ∪ ∅) ∖ {[100]} : gset Z) by set_solver. exact I5. }
  cbn [lb lg]. split; [by rewrite S4|]. split; [by rewrite Z4|].
  rewrite D5, D4. change (dk (lb s3)) with (dk b3). rewrite D3, D2. change (lb s1) with (lb r). rewrite !Hd0.
  split; [done|]. split; [done|]. unfold C3. by rewrite fn_lookup_insert, HC0.
Qed.

Lemma commit_crash_atomic_witness : exists s s' ws,
  l_start (lg s) = 2 /\ l_size (lg s) = LOGSIZE /\ commit s = Ok tt s' /\
  disk_read (platter (dk (lb s))) 100 = zero_block /\
  forall (k : nat) (pid : Z), exists r,
    boot_recover (papply (platter (dk (lb s))) (take k ws)) pid 2 LOGSIZE = Ok tt r /\
    ((k <= 1)%nat -> disk_read (platter (dk (lb r))) 100 = zero_block) /\
    ((1 < k)%nat -> disk_read (platter (dk (lb r))) 100 = put32 0 7 zero_block).
Proof.
  destruct log_one_run as (s & L & C & _ & I & Hs & Hz & H0 & Hd & HC).
  destruct (commit_crash_atomic s L C [100] I ltac:(done)) as (s' & ws & H1 & _ & H2); [by rewrite Hs|].
  rewrite Hs, Hz in H2. exists s, s', ws. split; [exact Hs|]. split; [exact Hz|]. split; [exact H1|].
  split; [exact Hd|]. intros k pid. destruct (H2 k pid) as (r & Hr & _ & Hb & Ha).
  exists r. split; [exact Hr|]. split; intros Hk.
  - rewrite (Hb Hk); [exact Hd|unfold LOGSIZE, MAXOPBLOCKS; lia].
  - rewrite (Ha Hk); [exact HC|unfold LOGSIZE, MAXOPBLOCKS; lia].
Defined.

(** A disk that crashed between the header and the installation of block 100. *)
Definition torn : gmap Z (list Z) :=
  <[2 := put32 4 100 (put32 0 1 zero_block)]> (<[3 := put32 0 7 zero_block]> ∅).

Lemma recovery_idempotent_witness : exists r ws,
  boot_recover torn 1 2 LOGSIZE = Ok tt r /\
  forall (k : nat) (pid' : Z), exists r', boot_recover (papply torn (take k ws)) pid' 2 LOGSIZE = Ok tt r' /\
    disk_read (platter (dk (lb r'))) 100 = disk_read (platter (dk (lb r))) 100.
Proof.
  destruct (recovery_idempotent torn 1 2 LOGSIZE [100]) as (r & ws & H1 & _ & H2).
  - split; [unfold LOGSIZE, MAXOPBLOCKS; lia|apply NoDup_singleton| |done].
    intros y ->%list_elem_of_singleton. unfold LOGSIZE, MAXOPBLOCKS. lia.
  - split; [vm_compute; reflexivity|]. intros [|i] y Hi; [|done]. injection Hi as <-. vm_compute. reflexivity.
  - change (disk_read torn 2) with (put32 4 100 (put32 0 1 zero_block)).
    repeat apply bytes_put32; try (unfold BSIZE; lia). by apply bytes_zero.
  - exists r, ws. split; [exact H1|]. intros k pid'. destruct (H2 k pid') as (r' & Hr' & Hy).
    exists r'. split; [exact Hr'|]. apply Hy. unfold LOGSIZE, MAXOPBLOCKS. lia.
Defined.
