(* ===== verification/LogOps.v ===== *)
(** * Concurrent operations on the log: [begin_op], [log_write] and [end_op]

    Several processes run file system calls at once.  A step runs one process up
    to the next point where it gives up [log.lock]. *)

From stdpp Require Import base list gmap strings.
From S2P Require Import Prelude Riscv Spinlock Bytes Bio BioSpec Log LogSpec.

(** ** The machine *)

(** [log_write] as the log sees it: the pin is a matter of the buffer cache. *)
Definition log_write_log (bno : Z) : M log bool :=
  l_spin lk_acquire ;;;
  do fresh <- log_slot bno;
  (if (fresh : bool) then modify (fun l => set_n (lh_n l + 1) l) else return tt) ;;;
  l_spin lk_release ;;;
  return fresh.

(** Where a process is: outside an operation, asleep on [&log], woken, in an
    operation that has logged [k] new blocks, or in [commit]. *)
Inductive opc := OutOp | OpAsleep | OpWoken | InOp (k : nat) | Committing.
#[export] Instance opc_eq_dec : EqDecision opc.
Proof. solve_decision. Defined.
Inductive act := Go | Write (bno : Z).
Record lmachine := mkLm { lm_log : log; lm_pc : list opc }.

(** [wakeup(&log)] *)
Definition wake_op (c : opc) : opc := match c with OpAsleep => OpWoken | c => c end.

(** Process [p] runs.  An operation logs at most [MAXOPBLOCKS] new blocks, as
    [begin_op] assumes.  [Diverge] if the process cannot do that. *)
Definition op_next (p : nat) (a : act) : M lmachine unit := fun m =>
  let '{| lm_log := l; lm_pc := pcs |} := m in
  match pcs !! p, a with
  | Some (OutOp | OpWoken), Go =>
      match begin_op_log l with
      | Ok _ l' => Ok tt {| lm_log := l'; lm_pc := <[p := InOp 0]> pcs |}
      | Sleep _ => Ok tt {| lm_log := l; lm_pc := <[p := OpAsleep]> pcs |}
      | Panic msg => Panic msg
      | Diverge => Diverge
      end
  | Some (InOp k), Write bno =>
      if Z.of_nat k <? MAXOPBLOCKS then
        match log_write_log bno l with
        | Ok fresh l' => Ok tt {| lm_log := l'; lm_pc := <[p := InOp (if (fresh : bool) then S k else k)]> pcs |}
        | Panic msg => Panic msg
        | Sleep _ | Diverge => Diverge
        end
      else Diverge
  | Some (InOp k), Go =>
      match end_op_enter l with
      | Ok true l' => Ok tt {| lm_log := l'; lm_pc := <[p := Committing]> pcs |}
      | Ok false l' => Ok tt {| lm_log := l'; lm_pc := wake_op <$> <[p := OutOp]> pcs |}
      | Panic msg => Panic msg
      | Sleep _ | Diverge => Diverge
      end
  | Some Committing, Go =>
      match end_op_leave (set_n 0 l) with
      | Ok _ l' => Ok tt {| lm_log := l'; lm_pc := wake_op <$> <[p := OutOp]> pcs |}
      | Panic msg => Panic msg
      | Sleep _ | Diverge => Diverge
      end
  | _, _ => Diverge
  end.

Inductive op_step : lmachine -> lmachine -> Prop :=
| op_run p a m m' : op_next p a m = Ok tt m' -> op_step m m'.

(** [n] processes, none of them in an operation, and an empty log of [size] blocks. *)
Definition lm_init (n : nat) (start size : Z) : lmachine :=
  {| lm_log := mkLog initlock start size 0 0 ROOTDEV 0 (replicate (Z.to_nat LOGSIZE) 0); lm_pc := replicate n OutOp |}.

(** ** Counting processes *)

Fixpoint total (f : opc -> Z) (pcs : list opc) : Z :=
  match pcs with [] => 0 | c :: r => f c + total f r end.

Lemma total_insert f pcs p c c' : pcs !! p = Some c -> total f (<[p := c']> pcs) = total f pcs + f c' - f c.
Proof.
  revert p. induction pcs as [|x pcs IH]; intros p Hp; [done|]. destruct p as [|p]; cbn in Hp.
  - injection Hp as ->. cbn. lia.
  - change (f x + total f (<[p := c']> pcs) = f x + total f pcs + f c' - f c). rewrite (IH p Hp). lia.
Qed.
Lemma total_wake f pcs : f OpAsleep = f OpWoken -> total f (wake_op <$> pcs) = total f pcs.
Proof. intros Hf. induction pcs as [|x pcs IH]; [done|]. rewrite fmap_cons. cbn [total]. rewrite IH. by destruct x; cbn; rewrite ?Hf. Qed.
Lemma total_pos f pcs : (forall c, 0 <= f c) -> 0 <= total f pcs.
Proof. intros Hf. induction pcs as [|x pcs IH]; cbn; [done|]. specialize (Hf x). lia. Qed.
Lemma total_ge f pcs p c : (forall c, 0 <= f c) -> pcs !! p = Some c -> f c <= total f pcs.
Proof.
  intros Hf. revert p. induction pcs as [|x pcs IH]; intros p Hp; [done|]. destruct p as [|p]; cbn in *.
  - injection Hp as ->. pose proof (total_pos f pcs Hf). lia.
  - specialize (IH p Hp). specialize (Hf x). lia.
Qed.
Lemma total_two f pcs p q c d : (forall c, 0 <= f c) -> pcs !! p = Some c -> pcs !! q = Some d -> p <> q ->
  f c + f d <= total f pcs.
Proof.
  intros Hf. revert p q. induction pcs as [|x pcs IH]; intros p q Hp Hq Hpq; [done|].
  destruct p as [|p], q as [|q]; cbn in *; try done.
  - injection Hp as ->. pose proof (total_ge f pcs q d Hf Hq). lia.
  - injection Hq as ->. pose proof (total_ge f pcs p c Hf Hp). lia.
  - specialize (IH p q Hp Hq ltac:(lia)). specialize (Hf x). lia.
Qed.
Lemma total_find f pcs : (forall c, 0 <= f c) -> 0 < total f pcs -> exists p c, pcs !! p = Some c /\ 0 < f c.
Proof.
  intros Hf. induction pcs as [|x pcs IH]; cbn; [lia|]. intros H.
  destruct (decide (0 < f x)); [by exists 0%nat, x|]. destruct IH as (p & c & Hp & Hc); [lia|]. by exists (S p), c.
Qed.

Definition in_op (c : opc) : Z := match c with InOp _ => 1 | _ => 0 end.
Definition reserved (c : opc) : Z := match c with InOp k => Z.max 0 (MAXOPBLOCKS - Z.of_nat k) | _ => 0 end.
Definition committer (c : opc) : Z := match c with Committing => 1 | _ => 0 end.

Lemma in_op_pos c : 0 <= in_op c.
Proof. destruct c; cbn; lia. Qed.
Lemma reserved_pos c : 0 <= reserved c.
Proof. destruct c; cbn -[MAXOPBLOCKS]; lia. Qed.
Lemma total_le f g pcs : (forall c, f c <= g c) -> total f pcs <= total g pcs.
Proof. intros Hf. induction pcs as [|x pcs IH]; cbn; [done|]. specialize (Hf x). lia. Qed.
Lemma total_mul k f pcs : total (fun c => k * f c) pcs = k * total f pcs.
Proof. induction pcs as [|x pcs IH]; cbn; [lia|]. rewrite IH. lia. Qed.
Lemma reserved_le pcs : total reserved pcs <= MAXOPBLOCKS * total in_op pcs.
Proof. rewrite <- total_mul. apply total_le. intros []; cbn -[Z.mul]; unfold MAXOPBLOCKS; lia. Qed.
Lemma committer_pos c : 0 <= committer c.
Proof. destruct c; cbn; lia. Qed.

(** ** The invariant *)

Definition must_wait (l : log) : Prop :=
  l_committing l <> 0 \/ LOGSIZE < lh_n l + (l_outstanding l + 1) * MAXOPBLOCKS.

Record lm_inv (size : Z) (m : lmachine) : Prop := {
  lm_lock : l_lock (lm_log m) = initlock;
  lm_size : l_size (lm_log m) = size;
  lm_n : 0 <= lh_n (lm_log m);
  lm_out : l_outstanding (lm_log m) = total in_op (lm_pc m);
  lm_com : l_committing (lm_log m) = total committer (lm_pc m);
  lm_one : total committer (lm_pc m) <= 1;
  lm_excl : total committer (lm_pc m) = 1 -> total in_op (lm_pc m) = 0;
  lm_idle : total in_op (lm_pc m) = 0 -> total committer (lm_pc m) = 0 -> lh_n (lm_log m) = 0;
  lm_room : lh_n (lm_log m) + total reserved (lm_pc m) <= LOGSIZE;
  lm_wait : forall p, lm_pc m !! p = Some OpAsleep -> must_wait (lm_log m)
}.

(** The operations on a free lock. *)
Lemma begin_op_log_eq l : l_lock l = initlock ->
  (must_wait l /\ begin_op_log l = Sleep "log") \/
  (~ must_wait l /\ begin_op_log l = Ok tt (set_outstanding (l_outstanding l + 1) l)).
Proof.
  intros Hlk. destruct (decide (l_committing l = 0)) as [Hc|Hc].
  - destruct (decide (lh_n l + (l_outstanding l + 1) * MAXOPBLOCKS <= LOGSIZE)) as [Hr|Hr].
    + right. split; [unfold must_wait; lia|]. by apply begin_op_log_Ok.
    + left. split; [unfold must_wait; lia|]. unfold begin_op_log, l_spin, zoom, bind. rewrite Hlk.
      cbn -[MAXOPBLOCKS LOGSIZE Z.gtb]. rewrite Hc, Z.gtb_ltb. cbn -[MAXOPBLOCKS LOGSIZE].
      destruct (Z.ltb_spec LOGSIZE (lh_n l + (l_outstanding l + 1) * MAXOPBLOCKS)); [done|lia].
  - left. split; [by left|]. unfold begin_op_log, l_spin, zoom, bind. rewrite Hlk. cbn -[MAXOPBLOCKS LOGSIZE Z.gtb].
    destruct (Z.eqb_spec (l_committing l) 0); done.
Qed.

Lemma end_op_enter_eq l : l_lock l = initlock -> l_committing l = 0 ->
  end_op_enter l = (let o := l_outstanding l - 1 in
    if o =? 0 then Ok true (set_committing 1 (set_outstanding o l)) else Ok false (set_outstanding o l)).
Proof.
  intros Hlk Hc. unfold end_op_enter, l_spin, zoom, bind. rewrite Hlk. cbn. rewrite Hc. cbn.
  destruct (l_outstanding l - 1 =? 0); cbn; unfold set_lock, set_committing, set_outstanding; cbn; by rewrite Hlk, ?Hc.
Qed.

Lemma end_op_leave_eq l : l_lock l = initlock -> end_op_leave l = Ok tt (set_committing 0 l).
Proof.
  intros Hlk. unfold end_op_leave, l_spin, zoom, bind. rewrite Hlk. cbn.
  unfold set_lock, set_committing. cbn. by rewrite Hlk.
Qed.

Lemma log_write_log_eq l bno : l_lock l = initlock -> lh_n l < LOGSIZE -> lh_n l < l_size l - 1 -> 1 <= l_outstanding l ->
  exists i, log_write_log bno l = 
    (if i =? lh_n l then Ok true (set_n (lh_n l + 1) (set_block i (s32 bno) l)) else Ok false (set_block i (s32 bno) l)).
Proof.
  intros Hlk Hn Hs Ho. exists (log_find (Z.to_nat LOGSIZE) 0 l bno).
  unfold log_write_log, l_spin, zoom. unfold bind at 1. rewrite Hlk. cbn [lk_acquire acquire_word holding].
  unfold bind at 1, log_slot. cbn -[LOGSIZE log_find Z.geb Z.to_nat].
  rewrite !Z.geb_leb. destruct (Z.leb_spec LOGSIZE (lh_n l)); [lia|].
  destruct (Z.leb_spec (l_size l - 1) (lh_n l)); [lia|]. cbn -[LOGSIZE log_find Z.to_nat].
  destruct (Z.ltb_spec (l_outstanding l) 1); [lia|]. unfold bind. cbn -[LOGSIZE log_find Z.to_nat].
  fold (set_lock held_lock l). rewrite log_find_lock.
  destruct (Z.eqb_spec (log_find (Z.to_nat LOGSIZE) 0 l bno) (lh_n l)) as [->|];
    cbn -[LOGSIZE log_find Z.to_nat]; unfold set_lock, set_n, set_block; cbn -[LOGSIZE log_find Z.to_nat]; by rewrite Hlk.
Qed.

Lemma log_write_log_big l bno : l_lock l = initlock -> l_size l - 1 <= lh_n l -> log_write_log bno l = Panic "too big a transaction".
Proof.
  intros Hlk Hn. unfold log_write_log, l_spin, zoom. unfold bind at 1. rewrite Hlk. cbn [lk_acquire acquire_word holding].
  unfold bind at 1, log_slot. cbn -[LOGSIZE log_find Z.geb Z.to_nat].
  rewrite !Z.geb_leb. destruct (Z.leb_spec (l_size l - 1) (lh_n l)); [|lia]. by rewrite orb_true_r.
Qed.

(** ** The invariant is preserved *)

Lemma wake_none (pcs : list opc) q : (wake_op <$> pcs) !! q <> Some OpAsleep.
Proof. intros (c & Hk & _)%list_lookup_fmap_Some_1. by destruct c. Qed.

(** Fields of an updated log, and the counts after process [p] moved. *)
Ltac lm_simpl :=
  cbn [lm_log lm_pc lh_n l_lock l_size l_outstanding l_committing set_outstanding set_committing set_n set_block];
  rewrite ?total_wake by done.

Section moves.
Context (size : Z) (l : log) (pcs : list opc) (p : nat) (c : opc).
Hypothesis (I : lm_inv size {| lm_log := l; lm_pc := pcs |}) (Hp : pcs !! p = Some c).

Let T c' g : total g (<[p := c']> pcs) = total g pcs + g c' - g c.
Proof. by apply total_insert. Qed.

Lemma begin_inv : c = OutOp \/ c = OpWoken ->
  lm_inv size (match begin_op_log l with
          | Ok _ l' => {| lm_log := l'; lm_pc := <[p := InOp 0]> pcs |}
          | _ => {| lm_log := l; lm_pc := <[p := OpAsleep]> pcs |} end).
Proof using I Hp T.
  intros Hc. destruct I as [A1 A2 A3 A4 A5 A6 A7 A8 A9 A10]. cbn [lm_log lm_pc] in *.
  assert (in_op c = 0 /\ committer c = 0 /\ reserved c = 0) as (Z1 & Z2 & Z3) by (by destruct Hc as [-> | ->]).
  destruct (begin_op_log_eq l A1) as [[Hw ->]|[Hw ->]].
  - split; lm_simpl; rewrite ?T, ?Z1, ?Z2, ?Z3; cbn; rewrite ?Z.sub_0_r, ?Z.add_0_r; done.
  - pose proof (total_pos committer pcs committer_pos). pose proof (total_pos in_op pcs in_op_pos).
    pose proof (reserved_le pcs). unfold must_wait in Hw. assert (total committer pcs = 0) by lia.
    split; lm_simpl; rewrite ?T, ?Z1, ?Z2, ?Z3; cbn -[MAXOPBLOCKS LOGSIZE]; try done; try lia.
    intros q [(_ & ? & _)|[_ Hq]]%list_lookup_insert_Some; [done|]. exfalso. apply Hw. by eapply A10.
Qed.

Lemma write_inv k bno : c = InOp k -> Z.of_nat k < MAXOPBLOCKS ->
  (size <= LOGSIZE /\ size - 1 <= lh_n l /\ log_write_log bno l = Panic "too big a transaction") \/
  exists fresh l', log_write_log bno l = Ok fresh l' /\
    lm_inv size {| lm_log := l'; lm_pc := <[p := InOp (if fresh : bool then S k else k)]> pcs |}.
Proof using I Hp T.
  intros Hc Hk. destruct I as [A1 A2 A3 A4 A5 A6 A7 A8 A9 A10]. cbn [lm_log lm_pc] in *.
  pose proof (total_ge in_op _ p _ in_op_pos Hp) as G1. pose proof (total_ge reserved _ p _ reserved_pos Hp) as G2.
  rewrite Hc in G1, G2. cbn -[MAXOPBLOCKS] in G1, G2.
  destruct (decide (size - 1 <= lh_n l)) as [Hb|Hb]; [left; split; [lia|]; split; [done|]; apply log_write_log_big; [done|lia]|right].
  destruct (log_write_log_eq l bno A1) as (i & ->); [lia|lia|lia|].
  destruct (Z.eqb_spec i (lh_n l)) as [->|Hi]; do 2 eexists; (split; [reflexivity|]);
    (split; lm_simpl; rewrite ?T, ?Hc; cbn -[MAXOPBLOCKS LOGSIZE]; try done; try lia).
  all: intros q [(_ & ? & _)|[_ Hq]]%list_lookup_insert_Some; [done|]; specialize (A10 q Hq);
    unfold must_wait in *; cbn -[MAXOPBLOCKS LOGSIZE]; lia.
Qed.

Lemma end_inv k : c = InOp k -> exists do_commit l', end_op_enter l = Ok do_commit l' /\
  lm_inv size (if do_commit : bool then {| lm_log := l'; lm_pc := <[p := Committing]> pcs |}
          else {| lm_log := l'; lm_pc := wake_op <$> <[p := OutOp]> pcs |}).
Proof using I Hp T.
  intros Hc. destruct I as [A1 A2 A3 A4 A5 A6 A7 A8 A9 A10]. cbn [lm_log lm_pc] in *.
  pose proof (total_ge in_op _ p _ in_op_pos Hp) as G1. pose proof (total_pos committer pcs committer_pos).
  pose proof (reserved_pos c) as G2. rewrite Hc in G1, G2. cbn -[MAXOPBLOCKS] in G1, G2.
  rewrite (end_op_enter_eq l A1) by lia. cbv zeta.
  destruct (Z.eqb_spec (l_outstanding l - 1) 0) as [Ho|Ho]; do 2 eexists; (split; [reflexivity|]); cbn [negb];
    (split; lm_simpl; rewrite ?T, ?Hc; cbn -[MAXOPBLOCKS LOGSIZE]; try done; try lia).
  - intros q _. left. cbn. lia.
  - intros q Hq. by apply wake_none in Hq.
Qed.

Lemma leave_inv : c = Committing -> exists l', end_op_leave (set_n 0 l) = Ok tt l' /\
  lm_inv size {| lm_log := l'; lm_pc := wake_op <$> <[p := OutOp]> pcs |}.
Proof using I Hp T.
  intros Hc. destruct I as [A1 A2 A3 A4 A5 A6 A7 A8 A9 A10]. cbn [lm_log lm_pc] in *.
  pose proof (total_ge committer _ p _ committer_pos Hp) as G1. rewrite Hc in G1. cbn in G1.
  rewrite end_op_leave_eq by done. eexists. split; [reflexivity|].
  split; lm_simpl; rewrite ?T, ?Hc; cbn -[MAXOPBLOCKS LOGSIZE]; try done; try lia.
  intros q Hq. by apply wake_none in Hq.
Qed.
End moves.

Lemma op_next_inv size p a m : lm_inv size m ->
  match op_next p a m with
  | Ok _ m' => lm_inv size m'
  | Diverge => True
  | Panic msg => msg = "too big a transaction" /\ size <= LOGSIZE /\ size - 1 <= lh_n (lm_log m)
  | Sleep _ => False
  end.
Proof.
  destruct m as [l pcs]. intros I. unfold op_next. destruct (pcs !! p) as [c|] eqn:Hp; [|done].
  destruct c as [| | |k|], a as [|bno]; try done.
  1, 2: pose proof (begin_inv size l pcs p _ I Hp ltac:(auto)) as B;
    destruct (begin_op_log_eq l (lm_lock _ _ I)) as [[_ H]|[_ H]]; cbn [lm_log] in H; by rewrite H in *.
  - destruct (end_inv size l pcs p _ I Hp k eq_refl) as (d & l' & -> & B). by destruct d.
  - destruct (Z.ltb_spec (Z.of_nat k) MAXOPBLOCKS); [|done].
    by destruct (write_inv size l pcs p _ I Hp k bno eq_refl) as [(H1 & H2 & ->)|(f & l' & -> & B)].
  - by destruct (leave_inv size l pcs p _ I Hp eq_refl) as (l' & -> & B).
Qed.

Lemma total_replicate f n : f OutOp = 0 -> total f (replicate n OutOp) = 0.
Proof. intros Hf. induction n as [|n IH]; cbn; lia. Qed.

Lemma lm_inv_init n start size : lm_inv size (lm_init n start size).
Proof.
  split; cbn [lm_init lm_log lm_pc l_lock l_size lh_n l_outstanding l_committing];
    rewrite ?total_replicate by done; try done.
  intros p [? _]%lookup_replicate. done.
Qed.

Lemma lm_waker size m p : lm_inv size m -> lm_pc m !! p = Some OpAsleep ->
  exists q, lm_pc m !! q = Some Committing \/ exists k, lm_pc m !! q = Some (InOp k).
Proof.
  intros I Hp. pose proof (lm_wait _ _ I p Hp) as Hw. pose proof (total_pos committer (lm_pc m) committer_pos).
  pose proof (total_pos in_op (lm_pc m) in_op_pos). pose proof (lm_out _ _ I). pose proof (lm_com _ _ I).
  destruct (decide (total committer (lm_pc m) = 0)) as [E1|].
  - destruct (decide (total in_op (lm_pc m) = 0)) as [E2|].
    + pose proof (lm_idle _ _ I E2 E1) as E3. unfold must_wait in Hw. exfalso. unfold LOGSIZE, MAXOPBLOCKS in *. lia.
    + destruct (total_find in_op (lm_pc m) in_op_pos ltac:(lia)) as (q & c & Hq & Hc). exists q. right. destruct c; eauto; done.
  - destruct (total_find committer (lm_pc m) committer_pos ltac:(lia)) as (q & c & Hq & Hc). exists q. left. by destruct c.
Qed.

Lemma lm_can_step size m p c : lm_inv size m -> lm_pc m !! p = Some c -> c <> OpAsleep -> exists m', op_next p Go m = Ok tt m'.
Proof.
  destruct m as [l pcs]. cbn [lm_pc]. intros I Hp Hc. pose proof (lm_lock _ _ I) as Hlk. cbn in Hlk.
  unfold op_next. rewrite Hp. destruct c; try done.
  1, 2: destruct (begin_op_log_eq l Hlk) as [[_ H']|[_ H']]; rewrite H'; eauto.
  - destruct (end_inv size l pcs p _ I Hp k eq_refl) as ([] & l' & -> & _); eauto.
  - destruct (leave_inv size l pcs p _ I Hp eq_refl) as (l' & -> & _). eauto.
Qed.


(** ** Schedules *)

Fixpoint op_runs (sched : list (nat * act)) : M lmachine unit :=
  match sched with
  | [] => return tt
  | (p, a) :: r => op_next p a ;;; op_runs r
  end.

Lemma op_runs_star sched m m' : op_runs sched m = Ok tt m' -> star op_step m m'.
Proof.
  revert m. induction sched as [|[p a] r IH]; intros m H; cbn in H.
  - injection H as <-. apply star_refl.
  - apply bind_inv in H as ([] & m1 & H1 & H2). eapply star_next; [by eapply op_run|by apply IH].
Qed.

(** Four processes begin; the fourth has to sleep. *)
Definition four_begin : list (nat * act) := [(0, Go); (1, Go); (2, Go); (3, Go)]%nat.


(** The blocks an operation logs: [MAXOPBLOCKS] of them from [b] on. *)
Definition full_op (p : nat) (b : Z) : list (nat * act) :=
  (fun i => (p, Write (b + Z.of_nat i))) <$> seq 0 (Z.to_nat MAXOPBLOCKS).

(** C40: with the log area that mkfs makes, of [LOGSIZE] blocks header included,
    three operations that each stay within [MAXOPBLOCKS] blocks are admitted
    together by [begin_op], and the last block of the third one makes
    [log_write] panic. *)
Theorem log_overcommit_panics (start : Z) : exists m,
  star op_step (lm_init 3 start LOGSIZE) m /\
  lm_pc m !! 2%nat = Some (InOp (Z.to_nat MAXOPBLOCKS - 1)) /\
  op_next 2 (Write 129) m = Panic "too big a transaction".
Proof.
  pose (sched := [(0, Go); (1, Go); (2, Go)]%nat ++ full_op 0 100 ++ full_op 1 110 ++ take 9 (full_op 2 120)).
  assert (match op_runs sched (lm_init 3 start LOGSIZE) with
    | Ok _ m => lm_pc m !! 2%nat = Some (InOp 9) /\ op_next 2 (Write 129) m = Panic "too big a transaction"
    | _ => False end) as H by (vm_compute; split; reflexivity).
  destruct (op_runs sched (lm_init 3 start LOGSIZE)) as [[] m| | |] eqn:Hr; [|destruct H..].
  exists m. split; [eapply op_runs_star; exact Hr|exact H].
Qed.

(** [log_write] does to the log what the machine assumes. *)
Lemma log_write_is_log_write_log b s s' : log_write b s = Ok tt s' ->
  exists fresh, log_write_log (b_blockno (buf_at (lb s) b)) (lg s) = Ok fresh (lg s').
Proof.
  unfold log_write, log_write_log, log_spin, l_spin, zl, zb, upd_log, zoom. unfold bind. cbn -[log_slot].
  destruct (lk_acquire (l_lock (lg s))) as [[] lk| | |]; try done. cbn -[log_slot]. fold (set_lock lk (lg s)).
  destruct (log_slot (b_blockno (buf_at (lb s) b)) (set_lock lk (lg s))) as [[] l| | |]; try done; cbn -[log_slot].
  - destruct (bpin b (lb s)) as [[] b'| | |]; try done. cbn -[log_slot].
    destruct (lk_release (l_lock l)) as [[] lk'| | |]; try done. intros H. injection H as <-. cbn -[log_slot]. eauto.
  - destruct (lk_release (l_lock l)) as [[] lk'| | |]; try done. intros H. injection H as <-. cbn -[log_slot]. eauto.
Qed.
