(* ===== verification/ProcData.v ===== *)
(** * The process table: [kernel/proc.h], and the functions of [kernel/proc.c] on it

    The data of proc.h that the file system, the system calls and proc.c share,
    and the functions of proc.c that read or change the table only. *)

From stdpp Require Import base list gmap strings.
From S2P Require Import Prelude Riscv Mem Spinlock Kalloc.

(** [enum procstate] *)
Inductive procstate := UNUSED | USED | SLEEPING | RUNNABLE | RUNNING | ZOMBIE.
#[export] Instance procstate_eq_dec : EqDecision procstate.
Proof. solve_decision. Defined.

(** [struct context]: [ra], [sp] and the twelve registers [s0] to [s11]. *)
Record context := mkContext { c_ra : Z; c_sp : Z; c_s : list Z }.
Definition context0 : context := mkContext 0 0 (replicate 12 0).

(** Channels of [sleep]: the address of an object of the kernel. *)
Inductive channel := ChanProc (p : Z) | ChanTicks | ChanLog | ChanBuf (b : Z) | ChanInode (ip : Z)
| ChanPipeRead (pi : Z) | ChanPipeWrite (pi : Z) | ChanCons | ChanUart | ChanDisk | ChanDiskBuf (b : Z).
#[export] Instance channel_eq_dec : EqDecision channel.
Proof. solve_decision. Defined.

(** [struct proc].  A pointer to a process is its index in [proc]; the pointers
    that can be null are options. *)
Record proc := mkProc {
  p_lock : spinlock; p_state : procstate; p_chan : option channel; p_killed : Z; p_xstate : Z; p_pid : Z;
  p_parent : option Z; p_kstack : Z; p_sz : Z; p_pagetable : Z; p_trapframe : Z; p_context : context;
  p_ofile : list (option Z); p_cwd : option Z; p_name : list Z
}.
#[export] Instance proc_inhabited : Inhabited proc :=
  populate (mkProc initlock UNUSED None 0 0 0 None 0 0 0 0 context0 (replicate (Z.to_nat NOFILE) None) None
    (replicate 16 0)).

(** The array [proc] and the process that runs on this CPU. *)
Record ptable := mkPtable { procs : gmap Z proc; cur : Z }.
Definition proc_at (t : ptable) (p : Z) : proc := procs t !!! p.

(** Field assignments. *)
Definition set_plock v (x : proc) : proc :=
  mkProc v (p_state x) (p_chan x) (p_killed x) (p_xstate x) (p_pid x) (p_parent x) (p_kstack x) (p_sz x) (p_pagetable x)
    (p_trapframe x) (p_context x) (p_ofile x) (p_cwd x) (p_name x).
Definition set_state v (x : proc) : proc :=
  mkProc (p_lock x) v (p_chan x) (p_killed x) (p_xstate x) (p_pid x) (p_parent x) (p_kstack x) (p_sz x) (p_pagetable x)
    (p_trapframe x) (p_context x) (p_ofile x) (p_cwd x) (p_name x).
Definition set_chan v (x : proc) : proc :=
  mkProc (p_lock x) (p_state x) v (p_killed x) (p_xstate x) (p_pid x) (p_parent x) (p_kstack x) (p_sz x) (p_pagetable x)
    (p_trapframe x) (p_context x) (p_ofile x) (p_cwd x) (p_name x).
Definition set_killed v (x : proc) : proc :=
  mkProc (p_lock x) (p_state x) (p_chan x) v (p_xstate x) (p_pid x) (p_parent x) (p_kstack x) (p_sz x) (p_pagetable x)
    (p_trapframe x) (p_context x) (p_ofile x) (p_cwd x) (p_name x).
Definition set_xstate v (x : proc) : proc :=
  mkProc (p_lock x) (p_state x) (p_chan x) (p_killed x) v (p_pid x) (p_parent x) (p_kstack x) (p_sz x) (p_pagetable x)
    (p_trapframe x) (p_context x) (p_ofile x) (p_cwd x) (p_name x).
Definition set_pid v (x : proc) : proc :=
  mkProc (p_lock x) (p_state x) (p_chan x) (p_killed x) (p_xstate x) v (p_parent x) (p_kstack x) (p_sz x) (p_pagetable x)
    (p_trapframe x) (p_context x) (p_ofile x) (p_cwd x) (p_name x).
Definition set_parent v (x : proc) : proc :=
  mkProc (p_lock x) (p_state x) (p_chan x) (p_killed x) (p_xstate x) (p_pid x) v (p_kstack x) (p_sz x) (p_pagetable x)
    (p_trapframe x) (p_context x) (p_ofile x) (p_cwd x) (p_name x).
Definition set_kstack v (x : proc) : proc :=
  mkProc (p_lock x) (p_state x) (p_chan x) (p_killed x) (p_xstate x) (p_pid x) (p_parent x) v (p_sz x) (p_pagetable x)
    (p_trapframe x) (p_context x) (p_ofile x) (p_cwd x) (p_name x).
Definition set_sz v (x : proc) : proc :=
  mkProc (p_lock x) (p_state x) (p_chan x) (p_killed x) (p_xstate x) (p_pid x) (p_parent x) (p_kstack x) v (p_pagetable x)
    (p_trapframe x) (p_context x) (p_ofile x) (p_cwd x) (p_name x).
Definition set_pagetable v (x : proc) : proc :=
  mkProc (p_lock x) (p_state x) (p_chan x) (p_killed x) (p_xstate x) (p_pid x) (p_parent x) (p_kstack x) (p_sz x) v
    (p_trapframe x) (p_context x) (p_ofile x) (p_cwd x) (p_name x).
Definition set_trapframe v (x : proc) : proc :=
  mkProc (p_lock x) (p_state x) (p_chan x) (p_killed x) (p_xstate x) (p_pid x) (p_parent x) (p_kstack x) (p_sz x) (p_pagetable x)
    v (p_context x) (p_ofile x) (p_cwd x) (p_name x).
Definition set_context v (x : proc) : proc :=
  mkProc (p_lock x) (p_state x) (p_chan x) (p_killed x) (p_xstate x) (p_pid x) (p_parent x) (p_kstack x) (p_sz x) (p_pagetable x)
    (p_trapframe x) v (p_ofile x) (p_cwd x) (p_name x).
Definition set_ofile (fd : Z) v (x : proc) : proc :=
  mkProc (p_lock x) (p_state x) (p_chan x) (p_killed x) (p_xstate x) (p_pid x) (p_parent x) (p_kstack x) (p_sz x) (p_pagetable x)
    (p_trapframe x) (p_context x) (<[Z.to_nat fd := v]> (p_ofile x)) (p_cwd x) (p_name x).
Definition set_cwd v (x : proc) : proc :=
  mkProc (p_lock x) (p_state x) (p_chan x) (p_killed x) (p_xstate x) (p_pid x) (p_parent x) (p_kstack x) (p_sz x) (p_pagetable x)
    (p_trapframe x) (p_context x) (p_ofile x) v (p_name x).
Definition set_name v (x : proc) : proc :=
  mkProc (p_lock x) (p_state x) (p_chan x) (p_killed x) (p_xstate x) (p_pid x) (p_parent x) (p_kstack x) (p_sz x) (p_pagetable x)
    (p_trapframe x) (p_context x) (p_ofile x) (p_cwd x) v.

(** [struct trapframe]: offsets in the trapframe page. *)
Definition TF_kernel_satp : Z := 0.
Definition TF_kernel_sp : Z := 8.
Definition TF_kernel_trap : Z := 16.
Definition TF_epc : Z := 24.
Definition TF_kernel_hartid : Z := 32.
Definition TF_sp : Z := 48.
Definition TF_a (n : Z) : Z := 112 + 8 * n.
Definition sizeof_trapframe : Z := 288.

(** ** Functions on the table *)

Definition upd_p (p : Z) (f : proc -> proc) : M ptable unit :=
  modify (fun t => mkPtable (<[p := f (proc_at t p)]> (procs t)) (cur t)).
Definition get_p (p : Z) : M ptable proc := gets (fun t => proc_at t p).
(** An operation on [p->lock]. *)
Definition p_spin (p : Z) : M spinlock unit -> M ptable unit :=
  zoom (fun t => p_lock (proc_at t p))
    (fun lk t => mkPtable (<[p := set_plock lk (proc_at t p)]> (procs t)) (cur t)).

Definition wakeup (chan : channel) : M ptable unit :=
  for_range (Z.to_nat NPROC) 0 (fun p =>
    do me <- gets cur;
    if negb (p =? me) then
      p_spin p lk_acquire ;;;
      do x <- get_p p;
      (if bool_decide (p_state x = SLEEPING) && bool_decide (p_chan x = Some chan)
       then upd_p p (set_state RUNNABLE) else return tt) ;;;
      p_spin p lk_release
    else return tt).

(** The loop of [kill], from process [p] on. *)
Fixpoint kill_loop (fuel : nat) (p pid : Z) : M ptable Z :=
  match fuel with
  | O => return (-1)
  | S f =>
      p_spin p lk_acquire ;;;
      do x <- get_p p;
      if p_pid x =? pid then
        upd_p p (set_killed 1) ;;;
        (if bool_decide (p_state x = SLEEPING) then upd_p p (set_state RUNNABLE) else return tt) ;;;
        p_spin p lk_release ;;;
        return 0
      else
        p_spin p lk_release ;;;
        kill_loop f (p + 1) pid
  end.
Definition kill (pid : Z) : M ptable Z := kill_loop (Z.to_nat NPROC) 0 pid.

Definition setkilled (p : Z) : M ptable unit :=
  p_spin p lk_acquire ;;; upd_p p (set_killed 1) ;;; p_spin p lk_release.

Definition killed (p : Z) : M ptable Z :=
  p_spin p lk_acquire ;;; do x <- get_p p; p_spin p lk_release ;;; return (p_killed x).

(** Children of [p] pass to [init]. *)
Definition reparent (p initproc : Z) : M ptable unit :=
  for_range (Z.to_nat NPROC) 0 (fun pp =>
    do x <- get_p pp;
    if bool_decide (p_parent x = Some p) then
      upd_p pp (set_parent (Some initproc)) ;;; wakeup (ChanProc initproc)
    else return tt).

(** What [yield] and [sleep] do to the running process before [sched]. *)
Definition yield_enter : M ptable unit :=
  do me <- gets cur; p_spin me lk_acquire ;;; upd_p me (set_state RUNNABLE).
Definition sleep_enter (chan : channel) : M ptable unit :=
  do me <- gets cur;
  p_spin me lk_acquire ;;;
  upd_p me (set_chan (Some chan)) ;;;
  upd_p me (set_state SLEEPING).
Definition sleep_leave : M ptable unit :=
  do me <- gets cur; upd_p me (set_chan None) ;;; p_spin me lk_release.
