(* ===== verification/Fs.v ===== *)
(** * The file system: [kernel/fs.c]

    Blocks, inodes, directories and paths over the log, and [either_copyout] and
    [either_copyin] of proc.c.  A pointer to an inode is its index in
    [itable.inode]; a null pointer is [None].  Messages printed on the console
    are left out. *)

From stdpp Require Import base list gmap strings.
From S2P Require Import Prelude Riscv Mem Spinlock Kalloc Vm Sleeplock ProcData Bytes Bio Log.

(** ** fs.h, file.h, stat.h *)
Definition ROOTINO : Z := 1.
Definition FSMAGIC : Z := 0x10203040.
Definition NDIRECT : Z := 12.
Definition NINDIRECT : Z := BSIZE / 4.
Definition MAXFILE : Z := NDIRECT + NINDIRECT.
Definition IPB : Z := BSIZE / 64.
Definition BPB : Z := BSIZE * 8.
Definition DIRSIZ : Z := 14.
Definition T_DIR : Z := 1.
Definition T_FILE : Z := 2.
Definition T_DEVICE : Z := 3.

Record superblock := mkSb {
  sb_magic : Z; sb_size : Z; sb_nblocks : Z; sb_ninodes : Z; sb_nlog : Z;
  sb_logstart : Z; sb_inodestart : Z; sb_bmapstart : Z
}.
Definition IBLOCK (i : Z) (sb : superblock) : Z := u32 (i / IPB + sb_inodestart sb).
Definition BBLOCK (b : Z) (sb : superblock) : Z := u32 (b / BPB + sb_bmapstart sb).

(** [struct inode]; [i_addrs] has [NDIRECT + 1] entries. *)
Record inode := mkInode {
  i_dev : Z; i_inum : Z; i_ref : Z; i_lock : sleeplock; i_valid : Z;
  i_type : Z; i_major : Z; i_minor : Z; i_nlink : Z; i_size : Z; i_addrs : list Z
}.
#[export] Instance inode_inhabited : Inhabited inode :=
  populate (mkInode 0 0 0 (mkSleeplock 0 initlock 0) 0 0 0 0 0 0 (replicate 13 0)).

(** [itable]; an entry that was never written is zero. *)
Record itable := mkItable { it_lock : spinlock; it_inode : gmap Z inode }.

(** The state: log and disk, [sb], [itable], memory, the process table. *)
Record fsst := mkFsst { fl : lst; fsb : superblock; fit : itable; fk : kst; fp : ptable }.

Definition set_fl (l : lst) (s : fsst) : fsst := mkFsst l (fsb s) (fit s) (fk s) (fp s).
Definition set_fit (t : itable) (s : fsst) : fsst := mkFsst (fl s) (fsb s) t (fk s) (fp s).
Definition set_fk (k : kst) (s : fsst) : fsst := mkFsst (fl s) (fsb s) (fit s) k (fp s).
Definition zf {A} : M lst A -> M fsst A := zoom fl set_fl.
Definition zk {A} : M kst A -> M fsst A := zoom fk set_fk.
Definition zbb {A} (m : M bst A) : M fsst A := zf (zb m).

(** [myproc()] *)
Definition myproc (s : fsst) : proc := proc_at (fp s) (cur (fp s)).
Definition upd_proc (p : Z) (f : proc -> proc) : M fsst unit :=
  modify (fun s => mkFsst (fl s) (fsb s) (fit s) (fk s)
    (mkPtable (<[p := f (proc_at (fp s) p)]> (procs (fp s))) (cur (fp s)))).

Definition inode_at (s : fsst) (ip : Z) : inode := it_inode (fit s) !!! ip.
Definition get_inode (ip : Z) : M fsst inode := gets (fun s => inode_at s ip).
Definition upd_inode (ip : Z) (f : inode -> inode) : M fsst unit :=
  modify (fun s => set_fit (mkItable (it_lock (fit s)) (<[ip := f (inode_at s ip)]> (it_inode (fit s)))) s).
Definition it_spin : M spinlock unit -> M fsst unit :=
  zoom (fun s => it_lock (fit s)) (fun lk s => set_fit (mkItable lk (it_inode (fit s))) s).
Definition set_ilock (lk : sleeplock) (x : inode) : inode :=
  mkInode (i_dev x) (i_inum x) (i_ref x) lk (i_valid x) (i_type x) (i_major x) (i_minor x) (i_nlink x) (i_size x) (i_addrs x).
(** An operation on [ip->lock] by the running process. *)
Definition with_ilock {A} (ip : Z) (m : Z -> M sleeplock A) : M fsst A :=
  fun s => zoom (fun s => i_lock (inode_at s ip))
    (fun lk s => set_fit (mkItable (it_lock (fit s)) (<[ip := set_ilock lk (inode_at s ip)]> (it_inode (fit s)))) s)
    (m (me (lb (fl s)))) s.

(** Field assignments. *)
Definition set_iref (v : Z) (x : inode) : inode :=
  mkInode (i_dev x) (i_inum x) v (i_lock x) (i_valid x) (i_type x) (i_major x) (i_minor x) (i_nlink x) (i_size x) (i_addrs x).
Definition set_ivalid (v : Z) (x : inode) : inode :=
  mkInode (i_dev x) (i_inum x) (i_ref x) (i_lock x) v (i_type x) (i_major x) (i_minor x) (i_nlink x) (i_size x) (i_addrs x).
Definition set_itype (v : Z) (x : inode) : inode :=
  mkInode (i_dev x) (i_inum x) (i_ref x) (i_lock x) (i_valid x) v (i_major x) (i_minor x) (i_nlink x) (i_size x) (i_addrs x).
Definition set_inlink (v : Z) (x : inode) : inode :=
  mkInode (i_dev x) (i_inum x) (i_ref x) (i_lock x) (i_valid x) (i_type x) (i_major x) (i_minor x) v (i_size x) (i_addrs x).
Definition set_imajmin (ma mi : Z) (x : inode) : inode :=
  mkInode (i_dev x) (i_inum x) (i_ref x) (i_lock x) (i_valid x) (i_type x) ma mi (i_nlink x) (i_size x) (i_addrs x).
Definition set_isize (v : Z) (x : inode) : inode :=
  mkInode (i_dev x) (i_inum x) (i_ref x) (i_lock x) (i_valid x) (i_type x) (i_major x) (i_minor x) (i_nlink x) v (i_addrs x).
Definition set_iaddr (k v : Z) (x : inode) : inode :=
  mkInode (i_dev x) (i_inum x) (i_ref x) (i_lock x) (i_valid x) (i_type x) (i_major x) (i_minor x) (i_nlink x) (i_size x)
    (<[Z.to_nat k := v]> (i_addrs x)).
Definition set_ikey (dev inum : Z) (x : inode) : inode :=
  mkInode dev inum (i_ref x) (i_lock x) (i_valid x) (i_type x) (i_major x) (i_minor x) (i_nlink x) (i_size x) (i_addrs x).
Definition addr_at (x : inode) (k : Z) : Z := nth (Z.to_nat k) (i_addrs x) 0.

(** ** The on-disk structures *)

(** [memmove(sb, bp->data, sizeof sb)] *)
Definition sb_of (d : list Z) : superblock :=
  mkSb (get32 d 0) (get32 d 4) (get32 d 8) (get32 d 12) (get32 d 16) (get32 d 20) (get32 d 24) (get32 d 28).

(** Offset in its block of the dinode of inode [inum]. *)
Definition dinode_off (inum : Z) : Z := 64 * (inum mod IPB).
Definition dinode_addrs (d : list Z) (off : Z) : list Z :=
  (fun i => get32 d (off + 12 + 4 * Z.of_nat i)) <$> seq 0 13.
(** The copy of a dinode into an inode, and back. *)
Definition load_dinode (d : list Z) (off : Z) (x : inode) : inode :=
  mkInode (i_dev x) (i_inum x) (i_ref x) (i_lock x) (i_valid x)
    (s16 (get16 d off)) (s16 (get16 d (off + 2))) (s16 (get16 d (off + 4))) (s16 (get16 d (off + 6)))
    (get32 d (off + 8)) (dinode_addrs d off).
Definition put_addrs (off : Z) (a : list Z) (d : list Z) : list Z :=
  splice (Z.to_nat off) (concat (le_bytes 4 <$> a)) d.
Definition store_dinode (off : Z) (x : inode) (d : list Z) : list Z :=
  put_addrs (off + 12) (i_addrs x)
   (put32 (off + 8) (i_size x) (put16 (off + 6) (i_nlink x) (put16 (off + 4) (i_minor x)
     (put16 (off + 2) (i_major x) (put16 off (i_type x) d))))).

(** ** Blocks *)

Definition readsb (dev : Z) : M fsst unit :=
  do bp <- zbb (bread dev 1);
  do d <- zbb (buf_data bp);
  modify (fun s => mkFsst (fl s) (sb_of d) (fit s) (fk s) (fp s)) ;;;
  zbb (brelse bp).

Definition fsinit (dev : Z) : M fsst unit :=
  readsb dev ;;;
  do sb <- gets fsb;
  if negb (sb_magic sb =? FSMAGIC) then panic "invalid file system"
  else zf (initlog dev (sb_logstart sb) (sb_nlog sb)).

Definition bzero (dev bno : Z) : M fsst unit :=
  do bp <- zbb (bread dev bno);
  zbb (buf_write bp (fun _ => zero_block)) ;;;
  zf (log_write bp) ;;;
  zbb (brelse bp).

(** [m = 1 << (bi % 8)] and the byte of a bitmap block it applies to. *)
Definition bit_mask (bi : Z) : Z := Z.shiftl 1 (bi mod 8).
Definition bit_byte (d : list Z) (bi : Z) : Z := nth (Z.to_nat (bi / 8)) d 0.
Definition set_byte (bi v : Z) (d : list Z) : list Z := <[Z.to_nat (bi / 8) := v]> d.

(** The inner loop of [balloc]: the first clear bit of the bitmap block [d] from
    [bi] on, the block standing for the [BPB] disk blocks from [b] on. *)
Fixpoint balloc_scan (fuel : nat) (d : list Z) (b bi size : Z) : option Z :=
  match fuel with
  | O => None
  | S f =>
      if (bi <? BPB) && (b + bi <? size) then
        if Z.land (bit_byte d bi) (bit_mask bi) =? 0 then Some bi else balloc_scan f d b (bi + 1) size
      else None
  end.

Fixpoint balloc_loop (fuel : nat) (dev b : Z) : M fsst Z :=
  do sb <- gets fsb;
  if b <? sb_size sb then
    match fuel with
    | O => fun _ => Diverge
    | S f =>
        do bp <- zbb (bread dev (BBLOCK b sb));
        do d <- zbb (buf_data bp);
        match balloc_scan (Z.to_nat BPB) d b 0 (sb_size sb) with
        | Some bi =>
            zbb (buf_write bp (set_byte bi (Z.lor (bit_byte d bi) (bit_mask bi)))) ;;;
            zf (log_write bp) ;;;
            zbb (brelse bp) ;;;
            bzero dev (b + bi) ;;;
            return (b + bi)
        | None =>
            zbb (brelse bp) ;;;
            balloc_loop f dev (b + BPB)
        end
    end
  else return 0.
Definition balloc (dev : Z) : M fsst Z :=
  do sb <- gets fsb; balloc_loop (Z.to_nat (sb_size sb / BPB + 1)) dev 0.

Definition bfree (dev b : Z) : M fsst unit :=
  do sb <- gets fsb;
  do bp <- zbb (bread dev (BBLOCK b sb));
  let bi := b mod BPB in
  do d <- zbb (buf_data bp);
  if Z.land (bit_byte d bi) (bit_mask bi) =? 0 then panic "freeing free block"
  else
    zbb (buf_write bp (set_byte bi (Z.land (bit_byte d bi) (Z.lnot (bit_mask bi))))) ;;;
    zf (log_write bp) ;;;
    zbb (brelse bp).

(** ** Inodes *)

Definition iinit : M fsst unit :=
  it_spin (fun _ => Ok tt initlock) ;;;
  for_range (Z.to_nat NINODE) 0 (fun i => upd_inode i (set_ilock initsleeplock)).

(** The loop of [iget]: the entry for the inode, or the first empty entry. *)
Fixpoint iget_find (fuel : nat) (ip : Z) (empty : option Z) (dev inum : Z) (t : gmap Z inode) : Z + option Z :=
  match fuel with
  | O => inr empty
  | S f =>
      let x := t !!! ip in
      if (i_ref x >? 0) && (i_dev x =? dev) && (i_inum x =? inum) then inl ip
      else
        iget_find f (ip + 1)
          (match empty with Some e => Some e | None => if i_ref x =? 0 then Some ip else None end) dev inum t
  end.

Definition iget (dev inum : Z) : M fsst Z :=
  it_spin lk_acquire ;;;
  do t <- gets (fun s => it_inode (fit s));
  match iget_find (Z.to_nat NINODE) 0 None dev inum t with
  | inl ip =>
      upd_inode ip (fun x => set_iref (i_ref x + 1) x) ;;;
      it_spin lk_release ;;;
      return ip
  | inr None => panic "iget: no inodes"
  | inr (Some ip) =>
      upd_inode ip (set_ikey dev inum) ;;;
      upd_inode ip (set_iref 1) ;;;
      upd_inode ip (set_ivalid 0) ;;;
      it_spin lk_release ;;;
      return ip
  end.

Fixpoint ialloc_loop (fuel : nat) (dev type inum : Z) : M fsst (option Z) :=
  do sb <- gets fsb;
  if inum <? sb_ninodes sb then
    match fuel with
    | O => fun _ => Diverge
    | S f =>
        do bp <- zbb (bread dev (IBLOCK inum sb));
        do d <- zbb (buf_data bp);
        if get16 d (dinode_off inum) =? 0 then
          zbb (buf_write bp (splice (Z.to_nat (dinode_off inum)) (replicate 64 0))) ;;;
          zbb (buf_write bp (put16 (dinode_off inum) type)) ;;;
          zf (log_write bp) ;;;
          zbb (brelse bp) ;;;
          do ip <- iget dev inum;
          return (Some ip)
        else
          zbb (brelse bp) ;;;
          ialloc_loop f dev type (inum + 1)
    end
  else return None.
Definition ialloc (dev type : Z) : M fsst (option Z) :=
  do sb <- gets fsb; ialloc_loop (Z.to_nat (sb_ninodes sb)) dev type 1.

Definition iupdate (ip : Z) : M fsst unit :=
  do sb <- gets fsb;
  do x <- get_inode ip;
  do bp <- zbb (bread (i_dev x) (IBLOCK (i_inum x) sb));
  zbb (buf_write bp (store_dinode (dinode_off (i_inum x)) x)) ;;;
  zf (log_write bp) ;;;
  zbb (brelse bp).

Definition idup (ip : Z) : M fsst Z :=
  it_spin lk_acquire ;;;
  upd_inode ip (fun x => set_iref (i_ref x + 1) x) ;;;
  it_spin lk_release ;;;
  return ip.

Definition ilock (ip : Z) : M fsst unit :=
  do x <- get_inode ip;
  if i_ref x <? 1 then panic "ilock"
  else
    with_ilock ip acquiresleep ;;;
    do x <- get_inode ip;
    if i_valid x =? 0 then
      do sb <- gets fsb;
      do bp <- zbb (bread (i_dev x) (IBLOCK (i_inum x) sb));
      do d <- zbb (buf_data bp);
      upd_inode ip (load_dinode d (dinode_off (i_inum x))) ;;;
      zbb (brelse bp) ;;;
      upd_inode ip (set_ivalid 1) ;;;
      do x <- get_inode ip;
      if i_type x =? 0 then panic "ilock: no type" else return tt
    else return tt.

Definition iunlock (ip : Z) : M fsst unit :=
  do h <- with_ilock ip holdingsleep;
  do x <- get_inode ip;
  if negb h || (i_ref x <? 1) then panic "iunlock"
  else with_ilock ip (fun _ => releasesleep).

(** ** Inode content *)

Definition bmap (ip bn : Z) : M fsst Z :=
  do x <- get_inode ip;
  if bn <? NDIRECT then
    if addr_at x bn =? 0 then
      do addr <- balloc (i_dev x);
      if addr =? 0 then return 0
      else upd_inode ip (set_iaddr bn addr) ;;; return addr
    else return (addr_at x bn)
  else
    let bn := bn - NDIRECT in
    if bn <? NINDIRECT then
      do addr <- (if addr_at x NDIRECT =? 0 then
                    do addr <- balloc (i_dev x);
                    if addr =? 0 then return 0
                    else upd_inode ip (set_iaddr NDIRECT addr) ;;; return addr
                  else return (addr_at x NDIRECT));
      if addr =? 0 then return 0
      else
        do bp <- zbb (bread (i_dev x) addr);
        do d <- zbb (buf_data bp);
        do addr <- (if get32 d (4 * bn) =? 0 then
                      do addr <- balloc (i_dev x);
                      (if negb (addr =? 0) then
                         zbb (buf_write bp (put32 (4 * bn) addr)) ;;; zf (log_write bp)
                       else return tt) ;;;
                      return addr
                    else return (get32 d (4 * bn)));
        zbb (brelse bp) ;;;
        return addr
    else panic "bmap: out of range".

Definition itrunc (ip : Z) : M fsst unit :=
  for_range (Z.to_nat NDIRECT) 0 (fun i =>
    do x <- get_inode ip;
    if negb (addr_at x i =? 0) then
      bfree (i_dev x) (addr_at x i) ;;; upd_inode ip (set_iaddr i 0)
    else return tt) ;;;
  do x <- get_inode ip;
  (if negb (addr_at x NDIRECT =? 0) then
     do bp <- zbb (bread (i_dev x) (addr_at x NDIRECT));
     do d <- zbb (buf_data bp);
     for_range (Z.to_nat NINDIRECT) 0 (fun j =>
       if negb (get32 d (4 * j) =? 0) then bfree (i_dev x) (get32 d (4 * j)) else return tt) ;;;
     zbb (brelse bp) ;;;
     bfree (i_dev x) (addr_at x NDIRECT) ;;;
     upd_inode ip (set_iaddr NDIRECT 0)
   else return tt) ;;;
  upd_inode ip (set_isize 0) ;;;
  iupdate ip.

Definition iput (ip : Z) : M fsst unit :=
  it_spin lk_acquire ;;;
  do x <- get_inode ip;
  (if (i_ref x =? 1) && negb (i_valid x =? 0) && (i_nlink x =? 0) then
     with_ilock ip acquiresleep ;;;
     it_spin lk_release ;;;
     itrunc ip ;;;
     upd_inode ip (set_itype 0) ;;;
     iupdate ip ;;;
     upd_inode ip (set_ivalid 0) ;;;
     with_ilock ip (fun _ => releasesleep) ;;;
     it_spin lk_acquire
   else return tt) ;;;
  upd_inode ip (fun x => set_iref (i_ref x - 1) x) ;;;
  it_spin lk_release.

Definition iunlockput (ip : Z) : M fsst unit := iunlock ip ;;; iput ip.

(** [struct stat] *)
Record stat := mkStat { st_dev : Z; st_ino : Z; st_type : Z; st_nlink : Z; st_size : Z }.
Definition stati (x : inode) : stat := mkStat (i_dev x) (i_inum x) (i_type x) (i_nlink x) (i_size x).

(** Where [readi] copies to: a user address, a kernel address, or a variable of
    the caller (the bytes are in the result).  Where [writei] copies from. *)
Inductive dest := ToUser (va : Z) | ToKernel (pa : Z) | ToVar.
Inductive src := FromUser (va : Z) | FromVar (bs : list Z).
Definition dest_add (d : dest) (m : Z) : dest :=
  match d with ToUser va => ToUser (u64 (va + m)) | ToKernel pa => ToKernel (pa + m) | ToVar => ToVar end.
Definition src_add (x : src) (m : Z) : src :=
  match x with FromUser va => FromUser (u64 (va + m)) | FromVar bs => FromVar (drop (Z.to_nat m) bs) end.

Section copy.
Context `{Layout}.

Definition either_copyout (d : dest) (bs : list Z) : M fsst Z :=
  do p <- gets myproc;
  match d with
  | ToUser va => zk (copyout (p_pagetable p) va bs)
  | ToKernel pa => zk (mem_write pa bs) ;;; return 0
  | ToVar => return 0
  end.

(** The result of [either_copyin] and the bytes it stored. *)
Definition either_copyin (x : src) (n : Z) : M fsst (Z * list Z) :=
  do p <- gets myproc;
  match x with
  | FromUser va => zk (copyin (p_pagetable p) va n)
  | FromVar bs => return (0, take (Z.to_nat n) bs)
  end.

(** [readi]: the result, and the bytes copied to [dst]. *)
Fixpoint readi_loop (fuel : nat) (ip : Z) (dst : dest) (off n tot : Z) (got : list Z) : M fsst (Z * list Z) :=
  if tot <? n then
    match fuel with
    | O => fun _ => Diverge
    | S f =>
        do addr <- bmap ip (off / BSIZE);
        if addr =? 0 then return (tot, got)
        else
          do x <- get_inode ip;
          do bp <- zbb (bread (i_dev x) addr);
          let m := Z.min (n - tot) (BSIZE - off mod BSIZE) in
          do d <- zbb (buf_data bp);
          let bs := take (Z.to_nat m) (drop (Z.to_nat (off mod BSIZE)) d) in
          do r <- either_copyout dst bs;
          if r =? -1 then zbb (brelse bp) ;;; return (-1, got)
          else
            zbb (brelse bp) ;;;
            readi_loop f ip (dest_add dst m) (off + m) n (tot + m) (got ++ bs)
    end
  else return (tot, got).
Definition readi (ip : Z) (dst : dest) (off n : Z) : M fsst (Z * list Z) :=
  do x <- get_inode ip;
  if (off >? i_size x) || (u32 (off + n) <? off) then return (0, [])
  else
    let n := if off + n >? i_size x then i_size x - off else n in
    readi_loop (Z.to_nat (n / BSIZE + 2)) ip dst off n 0 [].

(** The loop of [writei]; the result is [tot] and the final [off]. *)
Fixpoint writei_loop (fuel : nat) (ip : Z) (from : src) (off n tot : Z) : M fsst (Z * Z) :=
  if tot <? n then
    match fuel with
    | O => fun _ => Diverge
    | S f =>
        do addr <- bmap ip (off / BSIZE);
        if addr =? 0 then return (tot, off)
        else
          do x <- get_inode ip;
          do bp <- zbb (bread (i_dev x) addr);
          let m := Z.min (n - tot) (BSIZE - off mod BSIZE) in
          do '(r, bs) <- either_copyin from m;
          zbb (buf_write bp (splice (Z.to_nat (off mod BSIZE)) bs)) ;;;
          if r =? -1 then zbb (brelse bp) ;;; return (tot, off)
          else
            zf (log_write bp) ;;;
            zbb (brelse bp) ;;;
            writei_loop f ip (src_add from m) (off + m) n (tot + m)
    end
  else return (tot, off).
Definition writei (ip : Z) (from : src) (off n : Z) : M fsst Z :=
  do x <- get_inode ip;
  if (off >? i_size x) || (u32 (off + n) <? off) then return (-1)
  else if off + n >? MAXFILE * BSIZE then return (-1)
  else
    do '(tot, off) <- writei_loop (Z.to_nat (n / BSIZE + 2)) ip from off n 0;
    do x <- get_inode ip;
    (if off >? i_size x then upd_inode ip (set_isize off) else return tt) ;;;
    iupdate ip ;;;
    return tot.

(** ** Directories *)

Definition namecmp (s t : list Z) : Z := strncmp s t (Z.to_nat DIRSIZ).

(** [struct dirent] as [readi] and [writei] copy it. *)
Definition de_inum (de : list Z) : Z := get16 de 0.
Definition de_name (de : list Z) : list Z := take (Z.to_nat DIRSIZ) (drop 2 de).
Definition sizeof_dirent : Z := 16.

Fixpoint dirlookup_loop (fuel : nat) (dp : Z) (name : list Z) (off : Z) : M fsst (option (Z * Z)) :=
  do x <- get_inode dp;
  if off <? i_size x then
    match fuel with
    | O => fun _ => Diverge
    | S f =>
        do '(r, de) <- readi dp ToVar off sizeof_dirent;
        if negb (r =? sizeof_dirent) then panic "dirlookup read"
        else if de_inum de =? 0 then dirlookup_loop f dp name (off + sizeof_dirent)
        else if namecmp name (de_name de) =? 0 then
          do ip <- iget (i_dev x) (de_inum de);
          return (Some (ip, off))
        else dirlookup_loop f dp name (off + sizeof_dirent)
    end
  else return None.
(** The inode and the value stored at [poff]. *)
Definition dirlookup (dp : Z) (name : list Z) : M fsst (option (Z * Z)) :=
  do x <- get_inode dp;
  if negb (i_type x =? T_DIR) then panic "dirlookup not DIR"
  else dirlookup_loop (Z.to_nat (i_size x / sizeof_dirent + 1)) dp name 0.

(** The offset of the first empty entry, or the end of the directory. *)
Fixpoint dirlink_loop (fuel : nat) (dp off : Z) : M fsst Z :=
  do x <- get_inode dp;
  if off <? i_size x then
    match fuel with
    | O => fun _ => Diverge
    | S f =>
        do '(r, de) <- readi dp ToVar off sizeof_dirent;
        if negb (r =? sizeof_dirent) then panic "dirlink read"
        else if de_inum de =? 0 then return off
        else dirlink_loop f dp (off + sizeof_dirent)
    end
  else return off.
Definition dirlink (dp : Z) (name : list Z) (inum : Z) : M fsst Z :=
  do r <- dirlookup dp name;
  match r with
  | Some (ip, _) => iput ip ;;; return (-1)
  | None =>
      do x <- get_inode dp;
      do off <- dirlink_loop (Z.to_nat (i_size x / sizeof_dirent + 1)) dp 0;
      let de := le_bytes 2 inum ++ strncpy_bytes name (Z.to_nat DIRSIZ) in
      do r <- writei dp (FromVar de) off sizeof_dirent;
      if negb (r =? sizeof_dirent) then return (-1) else return 0
  end.

(** ** Paths: character arrays that end at the first NUL or at the end of the list *)

Definition SLASH : Z := 47.

(** [while( *path == '/') path++] *)
Fixpoint skip_slashes (path : list Z) : list Z :=
  match path with
  | c :: r => if c =? SLASH then skip_slashes r else path
  | [] => []
  end.
(** [while( *path != '/' && *path != 0) path++]: the element and the rest. *)
Fixpoint take_elem (path : list Z) : list Z * list Z :=
  match path with
  | c :: r => if (c =? SLASH) || (c =? 0) then ([], path) else let '(e, rest) := take_elem r in (c :: e, rest)
  | [] => ([], [])
  end.

(** [skipelem(path, name)]: the rest of the path, and the array [name] after it. *)
Definition skipelem (path name : list Z) : option (list Z * list Z) :=
  let path := skip_slashes path in
  if hd 0 path =? 0 then None
  else
    let '(e, path) := take_elem path in
    let len := Z.of_nat (length e) in
    let name := if len >=? DIRSIZ then splice 0 (take (Z.to_nat DIRSIZ) e) name
                else splice (length e) [0] (splice 0 e name) in
    Some (skip_slashes path, name).

Fixpoint namex_loop (fuel : nat) (ip : Z) (path : list Z) (nameiparent : bool) (name : list Z) :
  M fsst (option Z * list Z) :=
  match skipelem path name with
  | None =>
      if nameiparent then iput ip ;;; return (None, name) else return (Some ip, name)
  | Some (path, name) =>
      match fuel with
      | O => fun _ => Diverge
      | S f =>
          ilock ip ;;;
          do x <- get_inode ip;
          if negb (i_type x =? T_DIR) then iunlockput ip ;;; return (None, name)
          else if nameiparent && (hd 0 path =? 0) then iunlock ip ;;; return (Some ip, name)
          else
            do next <- dirlookup ip name;
            match next with
            | None => iunlockput ip ;;; return (None, name)
            | Some (next, _) => iunlockput ip ;;; namex_loop f next path nameiparent name
            end
      end
  end.
(** The inode and the array [name]. *)
Definition namex (path : list Z) (nameiparent : bool) (name : list Z) : M fsst (option Z * list Z) :=
  do ip <- (if hd 0 path =? SLASH then iget ROOTDEV ROOTINO else do p <- gets myproc; idup (default 0 (p_cwd p)));
  namex_loop (length path) ip path nameiparent name.

(** The array [name] of [namei] is not read before [skipelem] stores to it. *)
Definition namei (path : list Z) : M fsst (option Z) :=
  do '(ip, _) <- namex path false (replicate (Z.to_nat DIRSIZ) 0);
  return ip.
Definition nameiparent (path name : list Z) : M fsst (option Z * list Z) := namex path true name.
End copy.
