(* ===== verification/FsTx.v ===== *)
(** * Blocks in a transaction

    What the file system relies on below it: inside [begin_op]/[end_op] the
    buffer cache and the log behave as an array of blocks [C] that can be read,
    changed through [log_write], and released.  The operations of fs.c are
    verified against the rules of this file; the rules are proved from the
    specifications of the buffer cache and of the log. *)

From stdpp Require Import base gmap strings fin_sets functions list.
From S2P Require Import Prelude Riscv Mem Spinlock Kalloc Vm Sleeplock ProcData Bytes Bio BioSpec Log LogSpec Fs.

(** ** The transaction *)

(** Block [y] can be logged. *)
Definition home (s : fsst) (y : Z) : Prop :=
  0 <= y < 2 ^ 31 /\ ~ l_start (lg (fl s)) <= y < l_start (lg (fl s)) + l_size (lg (fl s)).
(** [n] more blocks can be logged (none outside a transaction). *)
Definition room (s : fsst) (bs : list Z) (n : Z) : Prop :=
  (0 < n -> 1 <= l_outstanding (lg (fl s))) /\ Z.of_nat (length bs) + n <= l_size (lg (fl s)) - 1.

(** The blocks hold [C]; the process has locked the buffers of [held]; the
    blocks of [bs] are in the log, and the others are as on the disk. *)
Record tx (s : fsst) (C : Z -> list Z) (held : gset Z) (bs : list Z) : Prop := {
  tx_inv : exists L, lginv (fl s) L C held bs;
  tx_clean : forall y, y ∉ bs -> C y = disk_read (platter (dk (lb (fl s)))) y
}.

(** Nothing changed but buffers and log. *)
Record same (s s' : fsst) : Prop := {
  sm_sb : fsb s' = fsb s; sm_it : fit s' = fit s; sm_k : fk s' = fk s; sm_p : fp s' = fp s;
  sm_dk : dk (lb (fl s')) = dk (lb (fl s)); sm_me : me (lb (fl s')) = me (lb (fl s));
  sm_start : l_start (lg (fl s')) = l_start (lg (fl s)); sm_size : l_size (lg (fl s')) = l_size (lg (fl s));
  sm_out : l_outstanding (lg (fl s')) = l_outstanding (lg (fl s)); sm_com : l_committing (lg (fl s')) = l_committing (lg (fl s))
}.
#[export] Instance same_refl : Reflexive same.
Proof. by intros s. Qed.
#[export] Instance same_trans : Transitive same.
Proof. intros s1 s2 s3 [] []. split; congruence. Qed.

Lemma home_same s s' y : same s s' -> home s y -> home s' y.
Proof. intros [] ?. unfold home. by rewrite sm_start0, sm_size0. Qed.
Lemma room_same s s' bs n : same s s' -> room s bs n -> room s' bs n.
Proof. intros [] ?. unfold room. by rewrite sm_size0, sm_out0. Qed.
Lemma room_le s bs n m : room s bs n -> m <= n -> room s bs m.
Proof. unfold room. lia. Qed.
Lemma inode_at_same s s' ip : same s s' -> inode_at s' ip = inode_at s ip.
Proof. intros []. unfold inode_at. by rewrite sm_it0. Qed.
#[export] Hint Resolve home_same room_same : xv6.

(** The buffer that holds the locked block [y]. *)
Definition buf_of (s : fsst) (b y : Z) : Prop := at_buf (lb (fl s)) b y.

Lemma tx_bytes s C held bs y : tx s C held bs -> bytes_ok BSIZE (C y).
Proof. intros [[L [_ _ _ Hb]] _]. apply Hb. Qed.

Lemma room_nbuf s C held bs (n k : Z) : tx s C held bs -> room s bs n -> Z.of_nat (size held) <= n ->
  Z.of_nat (size held + size (list_to_set bs : gset Z)) < NBUF.
Proof.
  intros [[L I] _] [_ Hr] Hh. pose proof (li_geom _ _ (li_ok _ _ _ _ _ I)) as (_ & _ & Hg). pose proof (size_list_le bs).
  unfold NBUF, LOGSIZE, MAXOPBLOCKS in *. lia.
Qed.

Section rules.
Context (s : fsst) (C : Z -> list Z) (held : gset Z) (bs : list Z).
Context (I : tx s C held bs).

Lemma zbb_run {A} (m : M bst A) a b : m (lb (fl s)) = Ok a b -> zbb m s = Ok a (set_fl (with_bst b (fl s)) s).
Proof using. intros H. unfold zbb, zf, zb, zoom. rewrite H. done. Qed.

(** [bread]: the block is locked. *)
Lemma wp_bread y n (Q : Z -> fsst -> Prop) :
  y ∉ held -> room s bs n -> Z.of_nat (size held) <= n ->
  (forall b s', tx s' C ({[y]} ∪ held) bs -> same s s' -> buf_of s' b y ->
     (forall i z, z ∈ held -> buf_of s i z -> buf_of s' i z) -> Q b s') ->
  wp (zbb (bread ROOTDEV y)) Q s.
Proof using I.
  intros Hy Hr Hh HQ. pose proof (room_nbuf s C held bs n 0 I Hr Hh) as Hsz. destruct I as [[L [Ib G Hlk Hby]] Hc].
  destruct (bread_run (lb (fl s)) L C held (list_to_set bs) y Ib Hy (or_intror Hsz)) as (b & b' & H1 & I1 & D1 & M1 & A1 & K1 & _).
  eapply wp_run; [by apply zbb_run|]. apply HQ.
  - split; [by exists L|]. intros z Hz. cbn. rewrite D1. by apply Hc.
  - by split; cbn.
  - done.
  - intros i z Hz Hiz. apply K1; [set_solver|done].
Qed.

Lemma wp_data b y (Q : list Z -> fsst -> Prop) : buf_of s b y -> Q (C y) s -> wp (zbb (buf_data b)) Q s.
Proof using I.
  intros Hb HQ. destruct I as [[L [Ib G Hlk Hby]] Hc]. destruct (bufok_at _ _ _ _ _ _ _ Ib Hb) as (_ & Hd & _).
  eapply wp_run; [|exact HQ]. unfold zbb, zf, zb, zoom, buf_data, gets. rewrite Hd. by destruct s as [[] ? ? ? ?].
Qed.

(** [brelse] *)
Lemma wp_brelse b y (Q : unit -> fsst -> Prop) :
  buf_of s b y -> y ∈ held ->
  (forall s', tx s' C (held ∖ {[y]}) bs -> same s s' -> (forall i z, buf_of s i z -> buf_of s' i z) -> Q tt s') ->
  wp (zbb (brelse b)) Q s.
Proof using I.
  intros Hb Hy HQ. destruct I as [[L [Ib G Hlk Hby]] Hc].
  destruct (brelse_run (lb (fl s)) L C held (list_to_set bs) b y Ib Hb Hy) as (b' & L' & H1 & I1 & D1 & M1 & A1 & _).
  { rewrite elem_of_list_to_set. destruct (decide (y ∈ bs)); [by left|right; by apply Hc]. }
  eapply wp_run; [by apply zbb_run|]. apply HQ.
  - split; [by exists L'|]. intros z Hz. cbn. rewrite D1. by apply Hc.
  - by split; cbn.
  - intros i z. apply A1.
Qed.

(** A change of the block followed by [log_write]. *)
Lemma wp_update {A} b y f (K : M fsst A) (Q : A -> fsst -> Prop) :
  buf_of s b y -> y ∈ held -> home s y -> room s bs 1 -> bytes_ok BSIZE (f (C y)) ->
  (forall s', tx s' (<[y := f (C y)]> C) held (add_block y bs) -> same s s' -> (forall i z, buf_of s i z -> buf_of s' i z) -> wp K Q s') ->
  wp (zbb (buf_write b f) ;;; zf (log_write b) ;;; K) Q s.
Proof using I.
  intros Hb Hy Hh Hr Hf HQ. destruct I as [[L [Ib G Hlk Hby]] Hc].
  destruct (buf_write_run (lb (fl s)) L C held (list_to_set bs) b y f Ib Hb Hy) as (b1 & H1 & I1 & D1 & M1 & A1).
  set (s1 := set_fl (with_bst b1 (fl s)) s). apply wp_bind. apply (wp_run _ _ _ tt s1); [by apply zbb_run|].
  assert (lginv (fl s1) L (<[y := f (C y)]> C) held bs) as Ig.
  { split; [done|done|done|]. intros z. destruct (decide (z = y)) as [->|]; [by rewrite fn_lookup_insert|].
    by rewrite fn_lookup_insert_ne. }
  destruct Hh as [Hy0 Hyl]. destruct Hr as [Ho Hr]. specialize (Ho ltac:(lia)).
  destruct (log_write_run (fl s1) L _ held bs b y Ig Ho) as (l2 & H2 & I2 & D2 & M2 & A2 & S2 & Z2 & O2 & Cm2);
    [by apply A1|done|done|done|cbn; lia|].
  apply wp_bind. apply (wp_run _ _ _ tt (set_fl l2 s1)); [by apply zoom_Ok|]. apply HQ.
  - split; [by exists L|]. intros z Hz. cbn. rewrite D2. cbn. rewrite D1.
    unfold add_block in Hz. case_decide as Hin.
    + rewrite fn_lookup_insert_ne by congruence. by apply Hc.
    + rewrite not_elem_of_app in Hz. rewrite fn_lookup_insert_ne by set_solver. apply Hc, Hz.
  - split; cbn; rewrite ?D2, ?M2; done.
  - intros i z Hz. apply A2, A1, Hz.
Qed.
End rules.

(** How the list of logged blocks grows. *)
Lemma add_block_length y bs : (length (add_block y bs) <= S (length bs))%nat.
Proof. unfold add_block. case_decide; [lia|]. rewrite length_app. cbn. lia. Qed.
Lemma add_block_in y bs : y ∈ bs -> add_block y bs = bs.
Proof. intros. unfold add_block. by rewrite decide_True. Qed.
Lemma room_add s y bs n : room s bs n -> room s (add_block y bs) (n - 1).
Proof. unfold room. pose proof (add_block_length y bs). lia. Qed.
Lemma room_0 s C held bs : tx s C held bs -> room s bs 0.
Proof. intros [[L I] _]. pose proof (li_room _ _ (li_ok _ _ _ _ _ I)). unfold room. lia. Qed.

(** ** A transaction exists

    Boot from a disk whose log is empty, then [begin_op]. *)
Definition begin_boot (p : gmap Z (list Z)) (pid : Z) (sb : superblock) (t : itable) (k : kst) (pt : ptable) : outcome fsst unit :=
  match boot_recover p pid 2 LOGSIZE with
  | Ok _ r => zf begin_op (mkFsst r sb t k pt)
  | _ => Diverge
  end.

Lemma begin_boot_run p pid sb t k pt :
  p !! 2 = None -> (forall y, bytes_ok BSIZE (disk_read p y)) ->
  exists s C, begin_boot p pid sb t k pt = Ok tt s /\ tx s C ∅ [] /\ (forall y, C y = disk_read p y) /\
    fsb s = sb /\ fit s = t /\ fk s = k /\ fp s = pt /\ l_start (lg (fl s)) = 2 /\ l_outstanding (lg (fl s)) = 1 /\
    l_size (lg (fl s)) = LOGSIZE /\ l_committing (lg (fl s)) = 0.
Proof.
  intros H2 Hp. assert (disk_read p 2 = zero_block) as E2 by (unfold disk_read; by rewrite H2).
  destruct (boot_recover_run p pid 2 LOGSIZE []) as (r & L & Hr & Ir & Dr & Gr & Kr & Sr & Zr & Or & Cr).
  { split; [unfold LOGSIZE, MAXOPBLOCKS; lia|constructor|intros y []%not_elem_of_nil|reflexivity]. }
  { apply head_says_nil. rewrite E2. reflexivity. }
  assert (forall y, fapply (disk_read p) (recover_writes 2 (disk_read p) []) y = disk_read p y) as HC.
  { intros y. unfold recover_writes. cbn. destruct (decide (y = 2)) as [->|]; [|by rewrite fn_lookup_insert_ne].
    rewrite fn_lookup_insert, E2. vm_compute. reflexivity. }
  assert (lginv r L (fapply (disk_read p) (recover_writes 2 (disk_read p) [])) ∅ []) as I0.
  { split; [exact Ir|exact Gr|exact Kr|]. intros y. rewrite HC. apply Hp. }
  destruct (begin_op_run _ _ _ _ _ I0 Cr) as [H1 I1]; [rewrite Or; vm_compute; intros [=]|]. rewrite Or in H1, I1.
  set (s1 := {| lb := lb r; lg := _ |}) in H1, I1.
  exists (mkFsst s1 sb t k pt), (fapply (disk_read p) (recover_writes 2 (disk_read p) [])). split.
  { unfold begin_boot. rewrite Hr. unfold zf, zoom. cbn [fl]. by rewrite H1. }
  split; [|repeat (split; [exact HC || reflexivity || exact Sr|]); split; [exact Zr|exact Cr]].
  split; [exists L; exact I1|]. intros y _. cbn [fl s1 lb]. rewrite Dr. cbn [platter]. symmetry. apply disk_read_papply.
Qed.
