(* ===== verification/FsAlloc.v ===== *)
(** * The free map: [balloc], [bfree] and [bzero] of [kernel/fs.c]

    One bit per disk block says whether it is in use.  The theorems give the
    effect of allocation and freeing on the blocks of a transaction. *)

From stdpp Require Import base gmap strings fin_sets functions list.
From S2P Require Import Prelude Riscv Mem Spinlock Kalloc Vm Sleeplock ProcData Bytes Bio BioSpec Log LogSpec Fs FsTx.

(** ** Bits of a block *)

Definition bit_at (d : list Z) (bi : Z) : bool := Z.testbit (bit_byte d bi) (bi mod 8).
Definition used (C : Z -> list Z) (sb : superblock) (b : Z) : bool := bit_at (C (BBLOCK b sb)) (b mod BPB).

Lemma land_mask d bi : (Z.land (bit_byte d bi) (bit_mask bi) =? 0) = negb (bit_at d bi).
Proof. apply land_bit. apply Z.mod_pos_bound. lia. Qed.

Definition set_bit (bi : Z) (d : list Z) : list Z := set_byte bi (Z.lor (bit_byte d bi) (bit_mask bi)) d.
Definition clear_bit (bi : Z) (d : list Z) : list Z := set_byte bi (Z.land (bit_byte d bi) (Z.lnot (bit_mask bi))) d.

Lemma BPB_bytes bi : 0 <= bi < BPB -> 0 <= bi / 8 < BSIZE.
Proof. unfold BPB. intros. split; [apply Z.div_pos; lia|apply Z.div_lt_upper_bound; lia]. Qed.

Lemma bit_byte_set bi v d bj : bytes_ok BSIZE d -> 0 <= bi < BPB -> 0 <= bj < BPB ->
  bit_byte (set_byte bi v d) bj = if decide (bj / 8 = bi / 8) then v else bit_byte d bj.
Proof.
  intros [Hl _] Hi Hj. pose proof (BPB_bytes _ Hi). pose proof (BPB_bytes _ Hj). unfold bit_byte, set_byte. rewrite !nth_lookup.
  case_decide as E.
  - rewrite E, list_lookup_insert_eq by lia. done.
  - rewrite list_lookup_insert_ne; [done|]. lia.
Qed.

Lemma bit_byte_range d bi : bytes_ok BSIZE d -> 0 <= bit_byte d bi < 2 ^ 8.
Proof.
  intros [Hl Hb]. unfold bit_byte. rewrite nth_lookup. destruct (d !! _) eqn:E; [|cbn; lia].
  eapply Forall_lookup_1 in E; [|done]. done.
Qed.

Lemma byte_bits x : (forall n, 8 <= n -> Z.testbit x n = false) -> 0 <= x -> 0 <= x < 2 ^ 8.
Proof.
  intros Hx H0. split; [done|]. destruct (Z.eq_dec x 0) as [->|]; [lia|].
  apply Z.log2_lt_pow2; [lia|]. destruct (Z.lt_ge_cases (Z.log2 x) 8) as [|Hge]; [done|].
  specialize (Hx (Z.log2 x) Hge). rewrite Z.bit_log2 in Hx by lia. done.
Qed.
Lemma byte_testbit x n : 0 <= x < 2 ^ 8 -> 8 <= n -> Z.testbit x n = false.
Proof. intros. apply Z.bits_above_log2; [lia|]. destruct (Z.eq_dec x 0) as [->|]; [cbn; lia|].
  assert (Z.log2 x < 8); [apply Z.log2_lt_pow2; lia|lia]. Qed.

Lemma mask_bit bi n : 0 <= n -> Z.testbit (bit_mask bi) n = (bi mod 8 =? n).
Proof.
  intros. unfold bit_mask. rewrite Z.shiftl_1_l, Z.pow2_bits_eqb; [done|]. apply Z.mod_pos_bound. lia.
Qed.

Lemma bytes_set_byte bi v d : bytes_ok BSIZE d -> 0 <= v < 2 ^ 8 -> bytes_ok BSIZE (set_byte bi v d).
Proof.
  intros [Hl Hb] Hv. split; [by rewrite <- Hl; apply length_insert|]. by apply Forall_insert.
Qed.
Lemma bytes_set_bit bi d : bytes_ok BSIZE d -> bytes_ok BSIZE (set_bit bi d).
Proof.
  intros Hd. apply bytes_set_byte; [done|]. pose proof (bit_byte_range d bi Hd) as Hr. pose proof (Z.mod_pos_bound bi 8 ltac:(lia)).
  apply byte_bits.
  - intros n Hn. rewrite Z.lor_spec, mask_bit by lia. rewrite byte_testbit by done. apply Z.eqb_neq. lia.
  - apply Z.lor_nonneg. split; [lia|]. unfold bit_mask. rewrite Z.shiftl_1_l. apply Z.pow_nonneg. lia.
Qed.
Lemma bytes_clear_bit bi d : bytes_ok BSIZE d -> bytes_ok BSIZE (clear_bit bi d).
Proof.
  intros Hd. apply bytes_set_byte; [done|]. pose proof (bit_byte_range d bi Hd) as Hr. apply byte_bits.
  - intros n Hn. rewrite Z.land_spec, byte_testbit by done. done.
  - apply Z.land_nonneg. lia.
Qed.

Lemma same_bit bi bj : 0 <= bi -> 0 <= bj -> bj / 8 = bi / 8 -> (bi mod 8 =? bj mod 8) = bool_decide (bj = bi).
Proof.
  intros Hi Hj E. pose proof (Z.div_mod bi 8). pose proof (Z.div_mod bj 8).
  destruct (Z.eqb_spec (bi mod 8) (bj mod 8)); symmetry; [apply bool_decide_true|apply bool_decide_false]; lia.
Qed.

Lemma bit_at_set bi d bj : bytes_ok BSIZE d -> 0 <= bi < BPB -> 0 <= bj < BPB ->
  bit_at (set_bit bi d) bj = bit_at d bj || bool_decide (bj = bi).
Proof.
  intros Hd Hi Hj. unfold bit_at, set_bit. rewrite bit_byte_set by done. pose proof (Z.mod_pos_bound bj 8 ltac:(lia)).
  case_decide as E.
  - rewrite Z.lor_spec, mask_bit by lia. rewrite same_bit by lia. f_equal. unfold bit_byte. by rewrite E.
  - rewrite bool_decide_false by congruence. by rewrite orb_false_r.
Qed.
Lemma bit_at_clear bi d bj : bytes_ok BSIZE d -> 0 <= bi < BPB -> 0 <= bj < BPB ->
  bit_at (clear_bit bi d) bj = bit_at d bj && negb (bool_decide (bj = bi)).
Proof.
  intros Hd Hi Hj. unfold bit_at, clear_bit. rewrite bit_byte_set by done. pose proof (Z.mod_pos_bound bj 8 ltac:(lia)).
  case_decide as E.
  - rewrite Z.land_spec, Z.lnot_spec, mask_bit by lia. rewrite same_bit by lia. f_equal. unfold bit_byte. by rewrite E.
  - rewrite bool_decide_false by congruence. by rewrite andb_true_r.
Qed.

(** ** The layout of the disk

    Log, then bitmap, then data; the blocks before the first data block are in use. *)
Definition nmeta (sb : superblock) : Z := sb_bmapstart sb + sb_size sb / BPB + 1.
Record geom (s : fsst) : Prop := {
  g_size : sb_size (fsb s) < 2 ^ 31;
  g_log : 0 <= l_start (lg (fl s)) /\ 0 <= l_size (lg (fl s)) /\ l_start (lg (fl s)) + l_size (lg (fl s)) <= sb_bmapstart (fsb s);
  g_meta : nmeta (fsb s) <= sb_size (fsb s)
}.
Definition meta_used (C : Z -> list Z) (sb : superblock) : Prop := forall b, 0 <= b < nmeta sb -> used C sb b = true.

Lemma geom_same s s' : same s s' -> geom s -> geom s'.
Proof. intros [E1 _ _ _ _ _ E2 E3 _] [G1 G2 G3]. split; rewrite ?E1, ?E2, ?E3; done. Qed.

Lemma held_restore (y : Z) (held : gset Z) : y ∉ held -> ({[y]} ∪ held) ∖ {[y]} = held.
Proof. set_solver. Qed.

Section layout.
Context (s : fsst) (G : geom s).
Notation sb := (fsb s).

Lemma size_pos : 0 <= sb_size sb.
Proof using G.
  destruct G as [_ Hl Hm]. unfold nmeta in Hm. destruct (Z.lt_ge_cases (sb_size sb) 0) as [Hn|]; [|done].
  pose proof (Z.div_lt_upper_bound (sb_size sb) BPB 0). pose proof (Z_div_le (- BPB) (sb_size sb) BPB) as Hd.
  pose proof (Z.div_mod (sb_size sb) BPB ltac:(done)). pose proof (Z.mod_pos_bound (sb_size sb) BPB ltac:(done)). unfold BPB, BSIZE in *. lia.
Qed.

Lemma BBLOCK_eq b : 0 <= b < sb_size sb ->
  BBLOCK b sb = b / BPB + sb_bmapstart sb /\ sb_bmapstart sb <= BBLOCK b sb < nmeta sb.
Proof using G.
  intros Hb. destruct G as [Hs Hl Hm]. assert (0 <= b / BPB <= sb_size sb / BPB) as Hd.
  { split; [apply Z.div_pos; [lia|done]|]. apply Z.div_le_mono; [done|lia]. }
  assert (BBLOCK b sb = b / BPB + sb_bmapstart sb) as E.
  { unfold BBLOCK. apply u32_small. unfold nmeta in Hm. lia. }
  rewrite E. unfold nmeta. lia.
Qed.
Lemma BBLOCK_home b : 0 <= b < sb_size sb -> home s (BBLOCK b sb).
Proof using G. intros Hb. pose proof (BBLOCK_eq b Hb). destruct G as [Hs Hl Hm]. unfold home. lia. Qed.
Lemma data_home b : nmeta sb <= b < sb_size sb -> home s b.
Proof using G.
  intros Hb. destruct G as [Hs Hl Hm]. unfold home, nmeta in *. pose proof (Z.div_pos (sb_size sb) BPB size_pos ltac:(done)). lia.
Qed.
Lemma BBLOCK_inj b b' : 0 <= b < sb_size sb -> 0 <= b' < sb_size sb -> BBLOCK b sb = BBLOCK b' sb -> b / BPB = b' / BPB.
Proof using G. intros Hb Hb'. destruct (BBLOCK_eq b Hb) as [-> _], (BBLOCK_eq b' Hb') as [-> _]. lia. Qed.

Lemma mod_BPB b : 0 <= b mod BPB < BPB.
Proof using. by apply Z.mod_pos_bound. Qed.

(** Changing one bit of the map. *)
Lemma used_change C b b' (f : list Z -> list Z) (bit : bool -> bool -> bool) :
  (forall y, bytes_ok BSIZE (C y)) -> 0 <= b < sb_size sb -> 0 <= b' < sb_size sb ->
  (forall d bj, bytes_ok BSIZE d -> 0 <= bj < BPB -> bit_at (f d) bj = bit (bit_at d bj) (bool_decide (bj = b mod BPB))) ->
  (forall x, bit x false = x) ->
  used (<[BBLOCK b sb := f (C (BBLOCK b sb))]> C) sb b' = bit (used C sb b') (bool_decide (b' = b)).
Proof using G.
  intros HC Hb Hb' Hf Hbit. unfold used. destruct (decide (BBLOCK b' sb = BBLOCK b sb)) as [E|E].
  - rewrite E, fn_lookup_insert, Hf by (done || apply mod_BPB). f_equal. apply bool_decide_ext.
    pose proof (BBLOCK_inj _ _ Hb' Hb E). pose proof (Z.div_mod b BPB ltac:(done)). pose proof (Z.div_mod b' BPB ltac:(done)).
    split; [lia|by intros ->].
  - rewrite fn_lookup_insert_ne by done. rewrite bool_decide_false by (intros ->; done). by rewrite Hbit.
Qed.
Lemma used_data C y d b : nmeta sb <= y -> 0 <= b < sb_size sb -> used (<[y := d]> C) sb b = used C sb b.
Proof using G. intros Hy Hb. unfold used. rewrite fn_lookup_insert_ne; [done|]. pose proof (BBLOCK_eq b Hb). lia. Qed.
End layout.

Lemma balloc_scan_spec fuel d b bi size : Z.of_nat fuel >= BPB - bi ->
  match balloc_scan fuel d b bi size with
  | Some k => bi <= k < BPB /\ b + k < size /\ bit_at d k = false /\ forall j, bi <= j < k -> bit_at d j = true
  | None => forall j, bi <= j < BPB -> b + j < size -> bit_at d j = true
  end.
Proof.
  revert bi. induction fuel as [|f IH]; intros bi Hf; cbn [balloc_scan]; [lia|].
  destruct (Z.ltb_spec bi BPB), (Z.ltb_spec (b + bi) size); cbn [andb]; try lia.
  rewrite land_mask. destruct (bit_at d bi) eqn:E; cbn [negb].
  - specialize (IH (bi + 1) ltac:(lia)). destruct (balloc_scan f d b (bi + 1) size) as [k|].
    + destruct IH as (H1 & H2 & H3 & H4). repeat (split; [done || lia|]). intros j Hj.
      destruct (decide (j = bi)) as [->|]; [done|]. apply H4. lia.
    + intros j Hj Hs. destruct (decide (j = bi)) as [->|]; [done|]. apply IH; lia.
  - repeat (split; [done || lia|]). lia.
Qed.

(** The blocks after allocating [r]. *)
Definition alloc_blocks (sb : superblock) (r : Z) (C : Z -> list Z) : Z -> list Z :=
  <[r := zero_block]> (<[BBLOCK r sb := set_bit (r mod BPB) (C (BBLOCK r sb))]> C).
Definition log_alloc (sb : superblock) (r : Z) (bs : list Z) : list Z := add_block r (add_block (BBLOCK r sb) bs).

(** [bzero] *)
Lemma wp_bzero s C held bs y n (Q : unit -> fsst -> Prop) :
  tx s C held bs -> y ∉ held -> home s y -> room s bs n -> 1 <= n -> Z.of_nat (size held) <= n ->
  (forall s', tx s' (<[y := zero_block]> C) held (add_block y bs) -> same s s' ->
     (forall i z, z ∈ held -> buf_of s i z -> buf_of s' i z) -> Q tt s') ->
  wp (bzero ROOTDEV y) Q s.
Proof.
  intros I Hy Hh Hr Hn Hsz HQ. unfold bzero. apply wp_bind. eapply (wp_bread s C held bs I); [done|done|done|].
  intros b s1 I1 S1 B1 K1. eapply wp_update; [done|done|set_solver|by eapply home_same| | |].
  { eapply room_same; [done|]. by eapply room_le. }
  { apply bytes_zero. done. }
  intros s2 I2 S2 K2. eapply wp_brelse; [done|by apply K2|set_solver|]. intros s3 I3 S3 K3. apply HQ.
  - by rewrite held_restore in I3.
  - by do 2 (etransitivity; [done|]).
  - intros i z Hz Hb. apply K3, K2, K1; done.
Qed.

Lemma div_mult_add b k : b mod BPB = 0 -> 0 <= k < BPB -> (b + k) / BPB = b / BPB /\ (b + k) mod BPB = k.
Proof.
  intros Hb Hk. pose proof (Z.div_mod b BPB ltac:(done)).
  split; symmetry; [apply (Z.div_unique_pos _ _ _ k)|apply (Z.mod_unique_pos _ _ (b / BPB))]; lia.
Qed.

Section balloc.
Context (C : Z -> list Z) (held : gset Z) (bs : list Z) (n : Z).
Context (Hn : 2 <= n) (Hsz : Z.of_nat (size held) + 1 <= n).

(** [balloc] returns the first free block, marked and zeroed, or 0 if there is none. *)
Definition balloc_post (s0 : fsst) (Q : Z -> fsst -> Prop) : Prop :=
  (forall s', tx s' C held bs -> same s0 s' -> (forall i z, z ∈ held -> buf_of s0 i z -> buf_of s' i z) ->
     (forall b, 0 <= b < sb_size (fsb s0) -> used C (fsb s0) b = true) -> Q 0 s') /\
  (forall r s', tx s' (alloc_blocks (fsb s0) r C) held (log_alloc (fsb s0) r bs) -> same s0 s' ->
     (forall i z, z ∈ held -> buf_of s0 i z -> buf_of s' i z) ->
     nmeta (fsb s0) <= r < sb_size (fsb s0) -> used C (fsb s0) r = false ->
     (forall b, 0 <= b < r -> used C (fsb s0) b = true) -> Q r s').

Lemma wp_balloc_loop s0 fuel s b Q :
  geom s0 -> meta_used C (fsb s0) -> (forall y, y ∈ held -> nmeta (fsb s0) <= y < sb_size (fsb s0) /\ used C (fsb s0) y = true) ->
  room s0 bs n -> tx s C held bs -> same s0 s -> (forall i z, z ∈ held -> buf_of s0 i z -> buf_of s i z) ->
  0 <= b -> b mod BPB = 0 -> (sb_size (fsb s0) - b) / BPB < Z.of_nat fuel ->
  (forall j, 0 <= j < sb_size (fsb s0) -> j < b -> used C (fsb s0) j = true) ->
  balloc_post s0 Q -> wp (balloc_loop fuel ROOTDEV b) Q s.
Proof using Hn Hsz.
  intros G MU Hheld Hr. revert s b. induction fuel as [|f IH]; intros s b I S0 K0 Hb Hbm Hf Hused [Q0 Q1];
    cbn [balloc_loop]; apply wp_bind, wp_gets; rewrite (sm_sb _ _ S0);
    (destruct (Z.ltb_spec b (sb_size (fsb s0))) as [Hlt|Hge];
      [|apply wp_ret, Q0; [done..|]; intros j Hj; apply Hused; lia]).
  { exfalso. pose proof (Z.div_pos (sb_size (fsb s0) - b) BPB ltac:(lia) ltac:(done)). lia. }
  destruct (BBLOCK_eq s0 G b ltac:(lia)) as [Hbb Hbr].
  assert (BBLOCK b (fsb s0) ∉ held) as Hnh by (intros [? _]%Hheld; lia).
  apply wp_bind. eapply (wp_bread s C held bs I _ n); [done|by eapply room_same|lia|].
  intros bp s1 I1 S1 B1 K1. apply wp_bind. eapply wp_data; [exact I1|done|].
  pose proof (balloc_scan_spec (Z.to_nat BPB) (C (BBLOCK b (fsb s0))) b 0 (sb_size (fsb s0)) ltac:(cbn; lia)) as Hscan.
  destruct (balloc_scan _ _ _ _ _) as [k|].
  - destruct Hscan as (Hk & Hks & Hfree & Hbefore). destruct (div_mult_add b k Hbm Hk) as [Hdk Hmk].
    assert (BBLOCK (b + k) (fsb s0) = BBLOCK b (fsb s0)) as Ebb by (unfold BBLOCK; by rewrite Hdk).
    assert (used C (fsb s0) (b + k) = false) as Hu by (unfold used; by rewrite Ebb, Hmk).
    assert (nmeta (fsb s0) <= b + k) as Hmeta.
    { destruct (Z.lt_ge_cases (b + k) (nmeta (fsb s0))) as [Hl|]; [|done]. rewrite MU in Hu by lia. done. }
    eapply wp_update; [exact I1|done|set_solver| | | |].
    { eapply home_same; [|by apply BBLOCK_home]. by transitivity s. }
    { eapply room_same; [|eapply room_le; [exact Hr|lia]]. by transitivity s. }
    { eapply bytes_set_bit, tx_bytes, I. }
    intros s2 I2 S2 K2. apply wp_bind. eapply wp_brelse; [exact I2|by apply K2|set_solver|].
    intros s3 I3 S3 K3. rewrite held_restore in I3 by done. assert (same s0 s3) as S03 by (do 3 (etransitivity; [done|]); done).
    apply wp_bind. eapply (wp_bzero _ _ _ _ _ (n - 1)); [exact I3| | | |lia|lia|].
    { intros [_ Hy]%Hheld. congruence. }
    { eapply home_same; [exact S03|]. apply data_home; [done|lia]. }
    { eapply room_same; [exact S03|]. by apply room_add. }
    intros s4 I4 S4 K4. apply wp_ret, Q1; [| |intros; apply K4, K3, K2, K1, K0; done|lia|done|].
    + unfold alloc_blocks, log_alloc. by rewrite Ebb, Hmk.
    + by transitivity s3.
    + intros j Hj. destruct (Z.lt_ge_cases j b); [apply Hused; lia|]. destruct (div_mult_add b (j - b) Hbm ltac:(lia)) as [Hdj Hmj].
      replace (b + (j - b)) with j in * by lia. unfold used, BBLOCK. rewrite Hdj, Hmj. apply Hbefore. lia.
  - apply wp_bind. eapply wp_brelse; [exact I1|done|set_solver|]. intros s2 I2 S2 K2. rewrite held_restore in I2 by done.
    apply (IH _ (b + BPB)); [done| | |unfold BPB, BSIZE; lia| | | |by split].
    + by do 2 (etransitivity; [done|]).
    + intros i z Hz Hi. apply K2, K1, K0; done.
    + rewrite Z.add_mod, Hbm, Z_mod_same_full by done. done.
    + replace (sb_size (fsb s0) - (b + BPB)) with (sb_size (fsb s0) - b + (-1) * BPB) by lia. rewrite Z.div_add by done. lia.
    + intros j Hj Hjb. destruct (Z.lt_ge_cases j b); [by apply Hused|]. destruct (div_mult_add b (j - b) Hbm ltac:(lia)) as [Hdj Hmj].
      replace (b + (j - b)) with j in * by lia. unfold used, BBLOCK. rewrite Hdj, Hmj. apply Hscan; lia.
Qed.
End balloc.

Lemma div_fuel x : 0 <= x -> x / BPB < Z.of_nat (Z.to_nat (x / BPB + 1)).
Proof. intros Hx. pose proof (Z.div_pos x BPB Hx ltac:(done)). lia. Qed.

Lemma wp_balloc s C held bs n Q :
  2 <= n -> Z.of_nat (size held) + 1 <= n -> geom s -> meta_used C (fsb s) ->
  (forall y, y ∈ held -> nmeta (fsb s) <= y < sb_size (fsb s) /\ used C (fsb s) y = true) ->
  room s bs n -> tx s C held bs -> balloc_post C held bs s Q -> wp (balloc ROOTDEV) Q s.
Proof.
  intros Hn Hsz G MU Hh Hr I HQ. unfold balloc. apply wp_bind, wp_gets.
  eapply (wp_balloc_loop C held bs n Hn Hsz s); try done; [|lia].
  rewrite Z.sub_0_r. apply div_fuel. by apply size_pos.
Qed.

(** The free map after allocating [r]. *)
Lemma used_alloc s C r b : geom s -> (forall y, bytes_ok BSIZE (C y)) -> nmeta (fsb s) <= r < sb_size (fsb s) -> 0 <= b < sb_size (fsb s) ->
  used (alloc_blocks (fsb s) r C) (fsb s) b = used C (fsb s) b || bool_decide (b = r).
Proof.
  intros G HC Hr Hb. assert (0 <= r) by (pose proof (g_log _ G); pose proof (g_meta _ G);
    pose proof (Z.div_pos (sb_size (fsb s)) BPB (size_pos s G) ltac:(done)); unfold nmeta in *; lia).
  unfold alloc_blocks. rewrite (used_data s G) by (done || lia).
  apply (used_change s G C r b (set_bit (r mod BPB)) orb); [done|lia|done| |by intros []].
  intros d bj Hd Hbj. apply bit_at_set; [done|apply mod_BPB|done].
Qed.

(** C15: [balloc], in a transaction with room for two blocks, on a file system whose
    metadata blocks are marked in use: it returns 0 exactly when every block is in
    use, and changes nothing then; otherwise it returns the first free block, with
    contents zero, marked in use; no other bit of the free map and no other block
    changes. *)
Theorem balloc_allocates (s : fsst) (C : Z -> list Z) (bs : list Z) :
  tx s C ∅ bs -> room s bs 2 -> geom s -> meta_used C (fsb s) ->
  exists r s' C' bs', balloc ROOTDEV s = Ok r s' /\ same s s' /\ tx s' C' ∅ bs' /\ meta_used C' (fsb s) /\
    (r = 0 /\ C' = C /\ (forall b, 0 <= b < sb_size (fsb s) -> used C (fsb s) b = true) \/
     nmeta (fsb s) <= r < sb_size (fsb s) /\ used C (fsb s) r = false /\ C' r = zero_block /\
     (forall b, 0 <= b < r -> used C (fsb s) b = true) /\
     (forall b, 0 <= b < sb_size (fsb s) -> used C' (fsb s) b = used C (fsb s) b || bool_decide (b = r)) /\
     (forall y, y <> r -> y <> BBLOCK r (fsb s) -> C' y = C y)).
Proof.
  intros I Hr G MU. assert (forall y, bytes_ok BSIZE (C y)) as HC by (intros y; by eapply tx_bytes).
  assert (wp (balloc ROOTDEV) (fun r s' => exists C' bs', same s s' /\ tx s' C' ∅ bs' /\
    (r = 0 /\ C' = C /\ (forall b, 0 <= b < sb_size (fsb s) -> used C (fsb s) b = true) \/
     nmeta (fsb s) <= r < sb_size (fsb s) /\ used C (fsb s) r = false /\ (forall b, 0 <= b < r -> used C (fsb s) b = true) /\
     C' = alloc_blocks (fsb s) r C)) s) as Hwp.
  { apply (wp_balloc s C ∅ bs 2); [lia|rewrite size_empty; lia|done|done|set_solver|done|done|].
    split; [intros s' I' S' _ Hu; exists C, bs; split; [done|]; split; [done|]; by left|].
    intros r s' I' S' _ Hrr Hu Hmin. exists (alloc_blocks (fsb s) r C), (log_alloc (fsb s) r bs). split; [done|]. split; [done|]. right. done. }
  apply wp_Ok in Hwp as (r & s' & Hrun & C' & bs' & S' & I' & Hcase). exists r, s', C', bs'.
  split; [done|]. split; [done|]. split; [done|]. destruct Hcase as [(-> & -> & Hu)|(Hrr & Hu & Hmin & ->)].
  { split; [done|]. by left. }
  pose proof (g_meta _ G) as Hm.
  split; [intros b Hb; rewrite used_alloc by (done || lia); by rewrite MU|]. right. split; [done|]. split; [done|]. unfold alloc_blocks at 1.
  rewrite fn_lookup_insert. split; [done|]. split; [done|]. split; [intros b Hb; by apply used_alloc|].
  intros y Hy1 Hy2. unfold alloc_blocks. by rewrite !fn_lookup_insert_ne by congruence.
Qed.

(** The blocks after freeing [b]. *)
Definition free_block (sb : superblock) (b : Z) (C : Z -> list Z) : Z -> list Z :=
  <[BBLOCK b sb := clear_bit (b mod BPB) (C (BBLOCK b sb))]> C.

Lemma used_free s C b b' : geom s -> (forall y, bytes_ok BSIZE (C y)) -> 0 <= b < sb_size (fsb s) -> 0 <= b' < sb_size (fsb s) ->
  used (free_block (fsb s) b C) (fsb s) b' = used C (fsb s) b' && negb (bool_decide (b' = b)).
Proof.
  intros G HC Hb Hb'. apply (used_change s G C b b' (clear_bit (b mod BPB)) (fun x y => x && negb y)); [done|lia|done| |by intros []].
  intros d bj Hd Hbj. apply bit_at_clear; [done|apply mod_BPB|done].
Qed.

(** [bfree] of a block in use, with buffers of other data blocks locked. *)
Lemma wp_bfree s C held bs b n (Q : unit -> fsst -> Prop) :
  tx s C held bs -> geom s -> room s bs n -> 1 <= n -> Z.of_nat (size held) <= n -> (forall y, y ∈ held -> nmeta (fsb s) <= y) ->
  0 <= b < sb_size (fsb s) -> used C (fsb s) b = true ->
  (forall s', tx s' (free_block (fsb s) b C) held (add_block (BBLOCK b (fsb s)) bs) -> same s s' ->
     (forall i z, z ∈ held -> buf_of s i z -> buf_of s' i z) -> Q tt s') ->
  wp (bfree ROOTDEV b) Q s.
Proof.
  intros I G Hr Hn Hsz Hh Hb Hu HQ. destruct (BBLOCK_eq s G b Hb) as [_ HB]. assert (BBLOCK b (fsb s) ∉ held) as Hnh by (intros ?%Hh; lia).
  unfold bfree. apply wp_bind, wp_gets, wp_bind. apply (wp_bread s C held bs I _ n); [done..|]. intros bp s1 I1 S1 B1 K1.
  apply wp_bind. apply (wp_data _ _ _ _ I1 _ _ _ B1). rewrite land_mask. fold (used C (fsb s) b). rewrite Hu. cbn [negb].
  eapply wp_update; [exact I1|done|set_solver| | |eapply bytes_clear_bit, tx_bytes; exact I|].
  { eapply home_same; [done|]. by apply BBLOCK_home. }
  { eapply room_same; [done|]. by eapply room_le. }
  intros s2 I2 S2 K2. eapply wp_brelse; [exact I2|by apply K2|set_solver|]. intros s3 I3 S3 K3. rewrite held_restore in I3 by done.
  apply HQ; [done|by do 2 (etransitivity; [done|])|]. intros i z Hz Hbz. apply K3, K2, K1; done.
Qed.

(** [bfree] of a data block clears its bit of the free map and changes nothing
    else, and panics when the block is free already. *)
Theorem bfree_frees (s : fsst) (C : Z -> list Z) (bs : list Z) (b : Z) :
  tx s C ∅ bs -> room s bs 1 -> geom s -> nmeta (fsb s) <= b < sb_size (fsb s) -> 0 <= b ->
  if used C (fsb s) b then
    exists s' C', bfree ROOTDEV b s = Ok tt s' /\ same s s' /\ tx s' C' ∅ (add_block (BBLOCK b (fsb s)) bs) /\
      (forall b', 0 <= b' < sb_size (fsb s) -> used C' (fsb s) b' = used C (fsb s) b' && negb (bool_decide (b' = b))) /\
      (forall y, y <> BBLOCK b (fsb s) -> C' y = C y)
  else bfree ROOTDEV b s = Panic "freeing free block".
Proof.
  intros I Hr G Hb Hb0. assert (forall y, bytes_ok BSIZE (C y)) as HC by (intros y; by eapply tx_bytes). destruct (used C (fsb s) b) eqn:Hu.
  - assert (wp (bfree ROOTDEV b) (fun _ s' => same s s' /\ tx s' (free_block (fsb s) b C) ∅ (add_block (BBLOCK b (fsb s)) bs)) s) as Hw.
    { apply (wp_bfree s C ∅ bs b 1); [done|done|done|lia|rewrite size_empty; lia|set_solver|lia|done|]. by intros s' I' S' _. }
    apply wp_Ok in Hw as ([] & s' & Hw & S' & I'). exists s', (free_block (fsb s) b C). split; [done|]. split; [done|]. split; [done|].
    split; [intros b' Hb'; apply used_free; [done|done|lia|done]|]. intros y Hy. unfold free_block. by rewrite fn_lookup_insert_ne.
  - assert (wp (zbb (bread ROOTDEV (BBLOCK b (fsb s)))) (fun bp s1 => tx s1 C ({[BBLOCK b (fsb s)]} ∪ ∅) bs /\ buf_of s1 bp (BBLOCK b (fsb s))) s) as Hrd.
    { apply (wp_bread s C ∅ bs I _ 1); [apply not_elem_of_empty|done|rewrite size_empty; lia|by auto]. }
    apply wp_Ok in Hrd as (bp & s1 & Hrun & I1 & B1). pose proof (wp_data _ _ _ _ I1 bp _ (fun d s' => d = C (BBLOCK b (fsb s)) /\ s' = s1) B1 (conj eq_refl eq_refl)) as Hd.
    apply wp_Ok in Hd as (d & s1' & Hdr & -> & ->).
    unfold bfree. rewrite bind_gets, (bind_Ok _ _ _ _ _ Hrun), (bind_Ok _ _ _ _ _ Hdr), land_mask. fold (used C (fsb s) b). by rewrite Hu.
Qed.

(** ** Examples: the layout mkfs gives to a disk of [FSSIZE] blocks *)

Definition ex_sb : superblock := mkSb FSMAGIC 2000 1954 200 30 2 32 45.
Definition ex_bitmap : list Z := [255; 255; 255; 255; 255; 63] ++ replicate 1018 0.
(** A disk with a free map, and the blocks [q] besides. *)
Definition ex_platter (q : gmap Z (list Z)) : gmap Z (list Z) := <[45 := ex_bitmap]> q.

Lemma bytes_check (d : list Z) : (length d =? Z.to_nat BSIZE)%nat = true -> forallb (fun b => (0 <=? b) && (b <? 256)) d = true -> bytes_ok BSIZE d.
Proof.
  intros Hl Hb. split; [by apply Nat.eqb_eq|]. rewrite forallb_forall in Hb. apply Forall_forall. intros b Hin%list_elem_of_In.
  specialize (Hb b Hin). unfold is_byte. lia.
Qed.

Lemma ex_meta C : C 45 = ex_bitmap -> meta_used C ex_sb.
Proof.
  intros HC b Hb. change (nmeta ex_sb) with 46 in Hb.
  assert (forallb (fun b => bit_at ex_bitmap (b mod BPB) && (BBLOCK b ex_sb =? 45)) (seqZ 0 46) = true) as Hall by (vm_compute; reflexivity).
  rewrite forallb_forall in Hall. specialize (Hall b). rewrite <- list_elem_of_In, elem_of_seqZ in Hall.
  apply andb_prop in Hall as [H1 H2]; [|lia]. apply Z.eqb_eq in H2. unfold used. rewrite H2, HC. exact H1.
Qed.

Lemma ex_bytes q : (forall y d, q !! y = Some d -> bytes_ok BSIZE d) -> forall y, bytes_ok BSIZE (disk_read (ex_platter q) y).
Proof.
  intros Hq y. unfold disk_read, ex_platter. destruct (decide (y = 45)) as [->|].
  - rewrite lookup_insert_eq. cbn [default]. apply bytes_check; vm_compute; reflexivity.
  - rewrite lookup_insert_ne by done. destruct (q !! y) eqn:E; [by apply (Hq y)|]. apply bytes_zero. unfold BSIZE. lia.
Qed.
Lemma ex_log q t k pt s : q !! 2 = None -> (forall y d, q !! y = Some d -> bytes_ok BSIZE d) ->
  begin_boot (ex_platter q) 1 ex_sb t k pt = Ok tt s ->
  l_start (lg (fl s)) = 2 /\ l_size (lg (fl s)) = LOGSIZE /\ l_outstanding (lg (fl s)) = 1 /\ l_committing (lg (fl s)) = 0.
Proof.
  intros H2 Hq Hs. destruct (begin_boot_run (ex_platter q) 1 ex_sb t k pt) as (s1 & C & Hr & _ & _ & _ & _ & _ & _ & Hst & Hout & Hsz & Hcom).
  - unfold ex_platter. rewrite lookup_insert_ne by lia. exact H2.
  - apply ex_bytes, Hq.
  - rewrite Hs in Hr. injection Hr as ->. repeat split; assumption.
Qed.

Lemma ex_tx q t k pt : q !! 2 = None -> (forall y d, q !! y = Some d -> bytes_ok BSIZE d) ->
  exists s C, begin_boot (ex_platter q) 1 ex_sb t k pt = Ok tt s /\ tx s C ∅ [] /\ geom s /\ meta_used C (fsb s) /\ room s [] 29 /\
    fsb s = ex_sb /\ fit s = t /\ fk s = k /\ fp s = pt /\ (forall y, C y = disk_read (ex_platter q) y).
Proof.
  intros H2 Hq. destruct (begin_boot_run (ex_platter q) 1 ex_sb t k pt) as (s & C & Hr & I & HC & Esb & Et & Ek & Ep & Hst & Hout & Hsz & _).
  { unfold ex_platter. rewrite lookup_insert_ne by lia. exact H2. }
  { apply ex_bytes, Hq. }
  exists s, C. split; [exact Hr|]. split; [exact I|]. split.
  { split; rewrite ?Esb, ?Hst, ?Hsz; [reflexivity|unfold LOGSIZE, MAXOPBLOCKS; cbn; lia|vm_compute; intros [=]]. }
  split. { rewrite Esb. apply ex_meta. rewrite HC. unfold disk_read, ex_platter. rewrite lookup_insert_eq. reflexivity. }
  split; [split; [rewrite Hout; lia|rewrite Hsz; vm_compute; intros [=]]|].
  repeat (split; [assumption|]). exact HC.
Qed.

Definition ex_mem : kst := mkKst ∅ (mkKmem initlock 0).
Definition ex_ptable : ptable := mkPtable ∅ 0.

Lemma balloc_allocates_witness : exists s r s' C',
  begin_boot (ex_platter ∅) 1 ex_sb (mkItable initlock ∅) ex_mem ex_ptable = Ok tt s /\
  balloc ROOTDEV s = Ok r s' /\ used C' ex_sb r = true /\ r = 46.
Proof.
  destruct (ex_tx ∅ (mkItable initlock ∅) ex_mem ex_ptable (lookup_empty _)) as (s & C & Hs & I & G & MU & Hr & Esb & _ & _ & _ & HC);
    [intros y d Hy; rewrite lookup_empty in Hy; congruence|].
  destruct (balloc_allocates s C [] I (room_le _ _ _ 2 Hr ltac:(lia)) G MU) as (r & s' & C' & bs' & H & _ & _ & _ & Hcase).
  exists s, r, s', C'. split; [exact Hs|]. split; [exact H|]. rewrite Esb in Hcase.
  assert (used C ex_sb 46 = false) as Hfree.
  { unfold used. change (BBLOCK 46 ex_sb) with 45. rewrite HC. unfold disk_read, ex_platter. rewrite lookup_insert_eq. vm_compute. reflexivity. }
  destruct Hcase as [(_ & _ & Hall)|(Hrr & Hu & _ & Hmin & Hmap & _)].
  { rewrite Hall in Hfree by (cbn; lia). congruence. }
  change (nmeta ex_sb) with 46 in Hrr. split.
  - rewrite Hmap by lia. rewrite bool_decide_true by reflexivity. apply orb_true_r.
  - destruct (Z.eq_dec r 46) as [E|E]; [exact E|]. rewrite Hmin in Hfree by lia. congruence.
Defined.

Lemma bfree_frees_witness : exists s,
  begin_boot (ex_platter ∅) 1 ex_sb (mkItable initlock ∅) ex_mem ex_ptable = Ok tt s /\
  bfree ROOTDEV 46 s = Panic "freeing free block".
Proof.
  destruct (ex_tx ∅ (mkItable initlock ∅) ex_mem ex_ptable (lookup_empty _)) as (s & C & Hs & I & G & MU & Hr & Esb & _ & _ & _ & HC);
    [intros y d Hy; rewrite lookup_empty in Hy; congruence|].
  exists s. split; [exact Hs|].
  pose proof (bfree_frees s C [] 46 I (room_le _ _ _ 1 Hr ltac:(lia)) G) as H. rewrite Esb in H.
  assert (used C ex_sb 46 = false) as Hfree.
  { unfold used. change (BBLOCK 46 ex_sb) with 45. rewrite HC. unfold disk_read, ex_platter. rewrite lookup_insert_eq. vm_compute. reflexivity. }
  rewrite Hfree in H. apply H; [vm_compute; split; [intros [=]|reflexivity]|lia].
Defined.
