(* ===== verification/FsFile.v ===== *)
(** * Inode contents and directories: [bmap], [readi], [dirlookup] of [kernel/fs.c]

    The bytes of a file are those of its blocks, found through the direct
    addresses and the indirect block; a directory is the sequence of its entries.
    The theorems show that [readi] returns the bytes of the file and that
    [dirlookup] finds the first entry with the name. *)

From stdpp Require Import base gmap strings fin_sets functions list.
From S2P Require Import Prelude Riscv Mem Spinlock Kalloc Vm Sleeplock ProcData Bytes Bio BioSpec Log LogSpec Fs FsTx FsAlloc.

(** ** The contents of a file *)

(** The disk block of block [bn] of the file, 0 if there is none. *)
Definition faddr (C : Z -> list Z) (x : inode) (bn : Z) : Z :=
  if bn <? NDIRECT then addr_at x bn
  else if addr_at x NDIRECT =? 0 then 0 else get32 (C (addr_at x NDIRECT)) (4 * (bn - NDIRECT)).
Definition fbyte (C : Z -> list Z) (x : inode) (o : Z) : Z :=
  nth (Z.to_nat (o mod BSIZE)) (C (faddr C x (o / BSIZE))) 0.
Definition fbytes (C : Z -> list Z) (x : inode) (off n : Z) : list Z :=
  (fun i => fbyte C x (off + Z.of_nat i)) <$> seq 0 (Z.to_nat n).

(** Every block up to the size is there. *)
Record file_ok (C : Z -> list Z) (x : inode) : Prop := {
  fo_dev : i_dev x = ROOTDEV;
  fo_size : 0 <= i_size x <= MAXFILE * BSIZE;
  fo_blocks : forall bn, 0 <= bn -> bn * BSIZE < i_size x -> faddr C x bn <> 0
}.

Lemma length_fbytes C x off n : length (fbytes C x off n) = Z.to_nat n.
Proof. unfold fbytes. by rewrite length_fmap, length_seq. Qed.

Lemma fbytes_app C x off a b : 0 <= a -> 0 <= b -> fbytes C x off (a + b) = fbytes C x off a ++ fbytes C x (off + a) b.
Proof.
  intros Ha Hb. unfold fbytes. rewrite Z2Nat.inj_add, seq_app, fmap_app by lia. f_equal.
  rewrite Nat.add_0_l. rewrite <- (Nat.add_0_r (Z.to_nat a)) at 1. rewrite <- fmap_add_seq, <- list_fmap_compose.
  apply list_fmap_ext. intros i k Hk. cbn. f_equal. lia.
Qed.

Lemma block_of off i : 0 <= i < BSIZE - off mod BSIZE ->
  (off + i) / BSIZE = off / BSIZE /\ (off + i) mod BSIZE = off mod BSIZE + i.
Proof.
  intros Hi. pose proof (Z.div_mod off BSIZE ltac:(done)). pose proof (Z.mod_pos_bound off BSIZE ltac:(done)).
  split; symmetry; [apply (Z.div_unique_pos _ _ _ (off mod BSIZE + i))|apply (Z.mod_unique_pos _ _ (off / BSIZE))]; lia.
Qed.

(** The part of the file inside one block. *)
Lemma fbytes_block C x off m : bytes_ok BSIZE (C (faddr C x (off / BSIZE))) -> 0 <= m <= BSIZE - off mod BSIZE ->
  fbytes C x off m = take (Z.to_nat m) (drop (Z.to_nat (off mod BSIZE)) (C (faddr C x (off / BSIZE)))).
Proof.
  intros [Hl _] Hm. pose proof (Z.mod_pos_bound off BSIZE ltac:(done)) as Hb. apply list_eq. intros i. unfold fbytes.
  rewrite list_lookup_fmap. destruct (decide (i < Z.to_nat m)%nat) as [Hi|Hi].
  - rewrite lookup_seq_lt by done. cbn. rewrite lookup_take_lt, lookup_drop by done. unfold fbyte.
    destruct (block_of off (Z.of_nat i) ltac:(lia)) as [-> ->]. rewrite nth_lookup.
    replace (Z.to_nat (off mod BSIZE + Z.of_nat i)) with (Z.to_nat (off mod BSIZE) + i)%nat by lia.
    destruct (C _ !! _) eqn:E; [done|]. apply lookup_ge_None_1 in E. unfold BSIZE in *. lia.
  - rewrite lookup_ge_None_2 by (rewrite length_seq; lia). rewrite lookup_take_ge by lia. done.
Qed.

(** [bmap] of a block that is there. *)
Lemma wp_bmap_mapped s C bs ip bn (Q : Z -> fsst -> Prop) :
  tx s C ∅ bs -> i_dev (inode_at s ip) = ROOTDEV -> 0 <= bn < MAXFILE -> faddr C (inode_at s ip) bn <> 0 ->
  (forall s', tx s' C ∅ bs -> same s s' -> Q (faddr C (inode_at s ip) bn) s') -> wp (bmap ip bn) Q s.
Proof.
  intros I Hdev Hbn Ha HQ. unfold bmap. apply wp_bind, wp_gets. unfold faddr in *. set (x := inode_at s ip) in *.
  destruct (Z.ltb_spec bn NDIRECT).
  { rewrite (proj2 (Z.eqb_neq _ _) Ha). by apply wp_ret, HQ. }
  destruct (Z.ltb_spec (bn - NDIRECT) NINDIRECT); [|unfold MAXFILE in *; lia].
  destruct (Z.eqb_spec (addr_at x NDIRECT) 0) as [E0|E0]; [done|]. apply wp_bind, wp_ret.
  rewrite (proj2 (Z.eqb_neq _ _) E0), Hdev. apply wp_bind.
  apply (wp_bread s C ∅ bs I _ 0); [apply not_elem_of_empty|by eapply room_0|by rewrite size_empty|].
  intros b s1 I1 S1 B1 _. apply wp_bind. eapply wp_data; [exact I1|exact B1|].
  rewrite (proj2 (Z.eqb_neq _ _) Ha). apply wp_bind, wp_ret. apply wp_bind.
  eapply wp_brelse; [exact I1|exact B1|set_solver|]. intros s2 I2 S2 _. apply wp_ret, HQ; [|by transitivity s1].
  by replace (({[addr_at x NDIRECT]} ∪ ∅) ∖ {[addr_at x NDIRECT]} : gset Z) with (∅ : gset Z) in I2 by set_solver.
Qed.

Section readi.
Context `{Layout}.

(** The number of blocks that [r] bytes from [off] on touch. *)
Definition touched (off r : Z) : Z := (off + r - 1) / BSIZE - off / BSIZE + 1.

(** A destination inside the kernel, and the memory after storing [bs] there. *)
Definition in_kernel (d : dest) : Prop := match d with ToUser _ => False | _ => True end.
Definition dest_store (d : dest) (bs : list Z) (k : kst) : kst :=
  match d with ToKernel pa => set_mem (stn (mem k) pa bs) k | _ => k end.

Lemma tx_set_fk k s C held bs : tx s C held bs -> tx (set_fk k s) C held bs.
Proof. intros []. by split. Qed.
Lemma set_fk_id s : set_fk (fk s) s = s.
Proof. by destruct s. Qed.
Lemma same_set_fk k s s' : same s s' -> same (set_fk k s) (set_fk k s').
Proof. intros []. by split. Qed.
Lemma stn_app m a b1 b2 : stn m a (b1 ++ b2) = stn (stn m a b1) (a + Z.of_nat (length b1)) b2.
Proof. revert m a. induction b1 as [|c b1 IH]; intros m a; cbn; [by rewrite Z.add_0_r|]. rewrite IH. f_equal. lia. Qed.

(** One call of [either_copyout]. *)
Lemma wp_copyout_kernel d tot bs k got s (Q : Z -> fsst -> Prop) : in_kernel d -> tot = Z.of_nat (length got) -> fk s = dest_store d got k ->
  Q 0 (set_fk (dest_store d (got ++ bs) k) s) -> wp (either_copyout (dest_add d tot) bs) Q s.
Proof.
  intros Hd -> Hk HQ. unfold either_copyout. apply wp_bind, wp_gets. destruct d as [va|pa|]; [done| |].
  - cbn [dest_add]. apply wp_bind. eapply wp_run; [reflexivity|]. apply wp_ret. cbn in Hk. unfold set_fk. cbn [fk fl fsb fit fp]. rewrite Hk.
    unfold set_mem. cbn [mem km]. rewrite <- stn_app. exact HQ.
  - apply wp_ret. cbn in Hk, HQ. by rewrite <- Hk, set_fk_id in HQ.
Qed.

Lemma dest_add_add d a b : dest_add (dest_add d a) b = dest_add d (a + b) \/ ~ in_kernel d.
Proof. destruct d; [right; intros []|left; cbn; f_equal; lia|by left]. Qed.

Lemma wp_readi_loop C bs ip x d k fuel s off n tot off0 got (Q : Z * list Z -> fsst -> Prop) : in_kernel d ->
  file_ok C x -> tx s C ∅ bs -> inode_at s ip = x -> fk s = dest_store d got k -> 0 <= off0 -> 0 <= tot <= n -> off = off0 + tot -> off0 + n <= i_size x ->
  (tot < n -> touched off (n - tot) <= Z.of_nat fuel) -> got = fbytes C x off0 tot ->
  (forall s', tx s' C ∅ bs -> same (set_fk (dest_store d (fbytes C x off0 n) k) s) s' -> Q (n, fbytes C x off0 n) s') ->
  wp (readi_loop fuel ip (dest_add d tot) off n tot got) Q s.
Proof.
  intros Hd F. revert s off tot got. induction fuel as [|f IH]; intros s off tot got I Hx Hk H0 Ht Hoff Hn Hf Hg HQ; cbn [readi_loop];
    (destruct (Z.ltb_spec tot n) as [Hlt|Hge]; [|replace tot with n in * by lia; rewrite <- Hg in HQ; apply wp_ret, HQ; [done|by rewrite <- Hk, set_fk_id]]).
  { specialize (Hf Hlt). unfold touched in Hf. pose proof (Z.div_le_mono off (off + (n - tot) - 1) BSIZE ltac:(done) ltac:(lia)). lia. }
  pose proof (Z.div_mod off BSIZE ltac:(done)) as Hdm. pose proof (Z.mod_pos_bound off BSIZE ltac:(done)) as Hmb.
  assert (0 <= off / BSIZE) as Hd0 by (apply Z.div_pos; [lia|done]).
  pose proof (fo_size _ _ F) as Hsz.
  assert (0 <= off / BSIZE < MAXFILE) as Hbn by (unfold MAXFILE, NDIRECT, NINDIRECT, BSIZE in *; lia).
  assert (faddr C x (off / BSIZE) <> 0) as Ha by (apply (fo_blocks _ _ F); [done|lia]).
  apply wp_bind. apply (wp_bmap_mapped s C bs); [done|by rewrite Hx; apply F|done|by rewrite Hx|]. rewrite Hx.
  intros s1 I1 S1. rewrite (proj2 (Z.eqb_neq _ _) Ha). apply wp_bind, wp_gets. rewrite (inode_at_same _ _ _ S1), Hx, (fo_dev _ _ F).
  apply wp_bind. apply (wp_bread s1 C ∅ bs I1 _ 0); [apply not_elem_of_empty|by eapply room_0|by rewrite size_empty|].
  intros b s2 I2 S2 B2 _. apply wp_bind. eapply wp_data; [exact I2|exact B2|]. set (m := Z.min (n - tot) (BSIZE - off mod BSIZE)).
  rewrite <- fbytes_block by (try (by eapply tx_bytes); unfold m; lia). set (b1 := fbytes C x off m).
  assert (got ++ b1 = fbytes C x off0 (tot + m)) as Hg1 by (rewrite fbytes_app by (unfold m; lia); by rewrite Hg, <- Hoff).
  apply wp_bind. apply (wp_copyout_kernel d tot b1 k got); [done|rewrite Hg, length_fbytes; lia|by rewrite (sm_k _ _ S2), (sm_k _ _ S1)|]. cbn [Z.eqb]. apply wp_bind.
  eapply wp_brelse; [by apply tx_set_fk|exact B2|set_solver|]. intros s3 I3 S3 _.
  replace (({[faddr C x (off / BSIZE)]} ∪ ∅) ∖ {[faddr C x (off / BSIZE)]} : gset Z) with (∅ : gset Z) in I3 by set_solver.
  assert (same (set_fk (dest_store d (got ++ b1) k) s) s3) as S03 by (etransitivity; [apply same_set_fk; etransitivity; [exact S1|exact S2]|exact S3]).
  destruct (dest_add_add d tot m) as [->|]; [|done].
  apply IH; [done|by rewrite (inode_at_same _ _ _ S03)|by rewrite (sm_k _ _ S03)|done|unfold m; lia|lia|done| |done|].
  - intros Hlt'. specialize (Hf Hlt). unfold touched in *. unfold m in *. destruct (Z.min_spec (n - tot) (BSIZE - off mod BSIZE)) as [[? Hm]|[? Hm]]; rewrite Hm in *; [lia|].
    replace (off + (BSIZE - off mod BSIZE) + (n - (tot + (BSIZE - off mod BSIZE))) - 1) with (off + (n - tot) - 1) by lia.
    replace ((off + (BSIZE - off mod BSIZE)) / BSIZE) with (off / BSIZE + 1); [lia|]. apply (Z.div_unique_pos _ _ _ 0); [done|lia].
  - intros s' I' S'. apply HQ; [done|]. etransitivity; [|exact S']. destruct S03. by split.
Qed.

Lemma touched_bound off n : 0 <= off -> 0 < n -> touched off n <= n / BSIZE + 2.
Proof.
  intros Ho Hn. unfold touched. pose proof (Z.div_mod off BSIZE ltac:(done)). pose proof (Z.mod_pos_bound off BSIZE ltac:(done)).
  pose proof (Z.div_mod n BSIZE ltac:(done)). pose proof (Z.mod_pos_bound n BSIZE ltac:(done)).
  assert ((off + n - 1) / BSIZE < off / BSIZE + n / BSIZE + 2); [|lia]. apply Z.div_lt_upper_bound; [done|]. unfold BSIZE in *. lia.
Qed.

(** The bytes [readi] delivers. *)
Definition read_bytes (C : Z -> list Z) (x : inode) (off n : Z) : list Z :=
  if (off >? i_size x) || (u32 (off + n) <? off) then [] else fbytes C x off (Z.min n (i_size x - off)).

Lemma wp_readi_dest s C bs ip d off n (Q : Z * list Z -> fsst -> Prop) (r := read_bytes C (inode_at s ip) off n) : in_kernel d ->
  tx s C ∅ bs -> file_ok C (inode_at s ip) -> 0 <= off -> 0 <= n ->
  (forall s', tx s' C ∅ bs -> same (set_fk (dest_store d r (fk s)) s) s' -> Q (Z.of_nat (length r), r) s') ->
  wp (readi ip d off n) Q s.
Proof.
  intros Hd I F Ho Hn HQ. unfold readi, r, read_bytes in *. apply wp_bind, wp_gets. set (x := inode_at s ip) in *.
  assert (dest_store d [] (fk s) = fk s) as E0 by (destruct d as [| |]; [done|by destruct (fk s)|done]).
  rewrite Z.gtb_ltb in *. destruct (Z.ltb_spec (i_size x) off) as [|Hos]; cbn [orb] in *; [apply wp_ret, HQ; [done|by rewrite E0, set_fk_id]|].
  destruct (u32 (off + n) <? off); [apply wp_ret, HQ; [done|by rewrite E0, set_fk_id]|]. rewrite length_fbytes in HQ.
  assert ((if off + n >? i_size x then i_size x - off else n) = Z.min n (i_size x - off)) as ->.
  { rewrite Z.gtb_ltb. destruct (Z.ltb_spec (i_size x) (off + n)); lia. }
  set (m := Z.min n (i_size x - off)) in *. replace d with (dest_add d 0) at 1 by (destruct d; cbn; [done|f_equal; lia|done]).
  apply (wp_readi_loop C bs ip x d (fk s) _ s off m 0 off []); try done; try lia.
  - intros Hm. rewrite Z.sub_0_r. pose proof (touched_bound off m Ho Hm). pose proof (Z.div_pos m BSIZE ltac:(lia) ltac:(done)). lia.
  - replace (Z.of_nat (Z.to_nat m)) with m in HQ by lia. done.
Qed.

Lemma wp_readi s C bs ip off n (Q : Z * list Z -> fsst -> Prop) :
  tx s C ∅ bs -> file_ok C (inode_at s ip) -> 0 <= off -> 0 <= n ->
  (forall s', tx s' C ∅ bs -> same s s' ->
     Q (Z.of_nat (length (read_bytes C (inode_at s ip) off n)), read_bytes C (inode_at s ip) off n) s') ->
  wp (readi ip ToVar off n) Q s.
Proof.
  intros I F Ho Hn HQ. apply (wp_readi_dest s C bs); [done..|]. intros s' I' S'. cbn [dest_store] in S'. rewrite set_fk_id in S'. by apply HQ.
Qed.
End readi.

(** C13: [readi] into a variable of the kernel or into kernel memory returns the bytes of
    the file: those from [off] on, at most [n] and at most up to the size; none when
    [off] is past the end or [off + n] overflows.  It ends, takes no log space and leaves
    blocks and inodes as they are, and of the memory it changes the destination only. *)
Theorem readi_reads_file `{Layout} (s : fsst) (C : Z -> list Z) (bs : list Z) (ip off n : Z) (d : dest) : let r := read_bytes C (inode_at s ip) off n in
  in_kernel d -> tx s C ∅ bs -> file_ok C (inode_at s ip) -> 0 <= off -> 0 <= n ->
  exists s', readi ip d off n s = Ok (Z.of_nat (length r), r) s' /\ same (set_fk (dest_store d r (fk s)) s) s' /\ tx s' C ∅ bs.
Proof.
  intros r Hd I F Ho Hn. assert (wp (readi ip d off n) (fun a s' => a = (Z.of_nat (length r), r) /\ same (set_fk (dest_store d r (fk s)) s) s' /\ tx s' C ∅ bs) s) as Hw.
  { by apply (wp_readi_dest s C bs). }
  apply wp_Ok in Hw as (a & s' & Hr & -> & S' & I'). by exists s'.
Qed.

(** ** Directories *)

Definition entry (C : Z -> list Z) (x : inode) (i : Z) : list Z := fbytes C x (sizeof_dirent * i) sizeof_dirent.
Record dir_ok (C : Z -> list Z) (x : inode) : Prop := {
  do_file : file_ok C x;
  do_type : i_type x = T_DIR;
  do_size : i_size x mod sizeof_dirent = 0
}.
Definition nentries (x : inode) : nat := Z.to_nat (i_size x / sizeof_dirent).
Definition entry_matches (C : Z -> list Z) (x : inode) (name : list Z) (i : Z) : bool :=
  negb (de_inum (entry C x i) =? 0) && (namecmp name (de_name (entry C x i)) =? 0).
(** The first entry in use with the name, among [k] entries from [i] on. *)
Fixpoint find_entry (C : Z -> list Z) (x : inode) (name : list Z) (k : nat) (i : Z) : option Z :=
  match k with
  | O => None
  | S k => if entry_matches C x name i then Some i else find_entry C x name k (i + 1)
  end.

Lemma dir_size C x : dir_ok C x -> i_size x = sizeof_dirent * Z.of_nat (nentries x).
Proof.
  intros D. pose proof (fo_size _ _ (do_file _ _ D)). unfold nentries. rewrite Z2Nat.id by (apply Z.div_pos; [lia|done]).
  pose proof (Z.div_mod (i_size x) sizeof_dirent ltac:(done)). rewrite (do_size _ _ D) in *. lia.
Qed.

Lemma read_entry C x i : dir_ok C x -> 0 <= i < Z.of_nat (nentries x) ->
  read_bytes C x (sizeof_dirent * i) sizeof_dirent = entry C x i.
Proof.
  intros D Hi. pose proof (dir_size _ _ D) as Hs. pose proof (fo_size _ _ (do_file _ _ D)) as Hz.
  change (MAXFILE * BSIZE) with 274432 in Hz. unfold read_bytes, sizeof_dirent in *. rewrite Z.gtb_ltb.
  destruct (Z.ltb_spec (i_size x) (16 * i)); [lia|]. rewrite u32_small by lia.
  destruct (Z.ltb_spec (16 * i + 16) (16 * i)); [lia|]. cbn [orb]. rewrite Z.min_l by lia. done.
Qed.

Section dirlookup.
Context `{Layout}.

Lemma dirlookup_loop_run C bs dp x name fuel s i k :
  dir_ok C x -> tx s C ∅ bs -> inode_at s dp = x -> 0 <= i -> (Z.of_nat k = Z.of_nat (nentries x) - i) -> (k <= fuel)%nat ->
  exists s', same s s' /\ tx s' C ∅ bs /\
    dirlookup_loop fuel dp name (sizeof_dirent * i) s =
    match find_entry C x name k i with
    | None => Ok None s'
    | Some j => (do ip <- iget ROOTDEV (de_inum (entry C x j)); return (Some (ip, sizeof_dirent * j))) s'
    end.
Proof.
  intros D. pose proof (dir_size _ _ D) as Hs. revert s i k. induction fuel as [|f IH]; intros s i k I Hx Hi Hk Hf.
  { assert (k = 0%nat) as -> by lia. exists s. split; [done|]. split; [done|]. cbn [dirlookup_loop find_entry].
    unfold get_inode. rewrite bind_gets, Hx. destruct (Z.ltb_spec (sizeof_dirent * i) (i_size x)); [unfold sizeof_dirent in *; lia|done]. }
  cbn [dirlookup_loop]. unfold get_inode. rewrite bind_gets, Hx. destruct k as [|k].
  { exists s. split; [done|]. split; [done|]. destruct (Z.ltb_spec (sizeof_dirent * i) (i_size x)); [unfold sizeof_dirent in *; lia|done]. }
  destruct (Z.ltb_spec (sizeof_dirent * i) (i_size x)); [|unfold sizeof_dirent in *; lia].
  destruct (wp_Ok _ _ _ (wp_readi s C bs dp (sizeof_dirent * i) sizeof_dirent (fun r s' =>
    r = (Z.of_nat (length (read_bytes C x (sizeof_dirent * i) sizeof_dirent)), read_bytes C x (sizeof_dirent * i) sizeof_dirent) /\ same s s' /\ tx s' C ∅ bs)
    I ltac:(rewrite Hx; apply D) ltac:(unfold sizeof_dirent; lia) ltac:(done) ltac:(rewrite Hx; done))) as (r & s1 & Hr & -> & S1 & I1).
  rewrite (bind_Ok _ _ _ _ _ Hr), read_entry by (done || lia). cbn [fst snd].
  unfold entry at 1. rewrite length_fbytes. change (negb (Z.of_nat (Z.to_nat sizeof_dirent) =? sizeof_dirent)) with false. cbv iota.
  destruct (IH s1 (i + 1) k I1 ltac:(by rewrite (inode_at_same _ _ _ S1)) ltac:(lia) ltac:(lia) ltac:(lia)) as (s2 & S2 & I2 & H2).
  replace (sizeof_dirent * i + sizeof_dirent) with (sizeof_dirent * (i + 1)) by lia. cbn [find_entry]. unfold entry_matches at 1.
  destruct (Z.eqb_spec (de_inum (entry C x i)) 0) as [E|E]; cbn [negb andb].
  { exists s2. split; [by transitivity s1|]. done. }
  destruct (namecmp name (de_name (entry C x i)) =? 0).
  - exists s1. split; [done|]. split; [done|]. by rewrite (fo_dev _ _ (do_file _ _ D)).
  - exists s2. split; [by transitivity s1|]. done.
Qed.

Lemma dirlookup_run C bs s dp name : tx s C ∅ bs -> dir_ok C (inode_at s dp) ->
  exists s', same s s' /\ tx s' C ∅ bs /\
    dirlookup dp name s =
    match find_entry C (inode_at s dp) name (nentries (inode_at s dp)) 0 with
    | None => Ok None s'
    | Some j => (do ip <- iget ROOTDEV (de_inum (entry C (inode_at s dp) j)); return (Some (ip, sizeof_dirent * j))) s'
    end.
Proof.
  intros I D. unfold dirlookup, get_inode. rewrite bind_gets, (do_type _ _ D). cbn [negb T_DIR Z.eqb Pos.eqb].
  apply (dirlookup_loop_run C bs dp _ name _ s 0 _ D I eq_refl); [lia|lia|]. unfold nentries.
  pose proof (Z.div_pos (i_size (inode_at s dp)) sizeof_dirent ltac:(apply (fo_size _ _ (do_file _ _ D))) ltac:(done)). lia.
Qed.

(** [dirlookup] in a well-formed directory: the first entry in use whose name
    agrees with [name] up to [DIRSIZ] characters decides; the result is the inode
    [iget] returns for its number and its offset, or null when there is none; on
    anything that is not a directory it panics.  Nothing else changes. *)
Theorem dirlookup_finds_first (s : fsst) (C : Z -> list Z) (bs : list Z) (dp : Z) (name : list Z) :
  tx s C ∅ bs ->
  (dir_ok C (inode_at s dp) ->
   exists s', same s s' /\ tx s' C ∅ bs /\
    dirlookup dp name s =
    match find_entry C (inode_at s dp) name (nentries (inode_at s dp)) 0 with
    | None => Ok None s'
    | Some j => (do ip <- iget ROOTDEV (de_inum (entry C (inode_at s dp) j)); return (Some (ip, sizeof_dirent * j))) s'
    end) /\
  (i_type (inode_at s dp) <> T_DIR -> dirlookup dp name s = Panic "dirlookup not DIR").
Proof.
  intros I. split; [by apply dirlookup_run|]. intros Ht. unfold dirlookup, get_inode. rewrite bind_gets.
  by rewrite (proj2 (Z.eqb_neq _ _) Ht).
Qed.
End dirlookup.

(** What [find_entry] finds. *)
Lemma find_entry_spec C x name k i :
  match find_entry C x name k i with
  | Some j => i <= j < i + Z.of_nat k /\ entry_matches C x name j = true /\ forall j', i <= j' < j -> entry_matches C x name j' = false
  | None => forall j, i <= j < i + Z.of_nat k -> entry_matches C x name j = false
  end.
Proof.
  revert i. induction k as [|k IH]; intros i; cbn [find_entry]; [lia|]. destruct (entry_matches C x name i) eqn:E.
  - split; [lia|]. split; [done|]. lia.
  - specialize (IH (i + 1)). destruct (find_entry C x name k (i + 1)) as [j|].
    + destruct IH as (H1 & H2 & H3). split; [lia|]. split; [done|]. intros j' Hj. destruct (decide (j' = i)) as [->|]; [done|]. apply H3. lia.
    + intros j Hj. destruct (decide (j = i)) as [->|]; [done|]. apply IH. lia.
Qed.

(** ** Path names *)

(** The elements of a path: the runs of characters other than slashes. *)
Fixpoint elems_from (cur path : list Z) : list (list Z) :=
  match path with
  | [] => match cur with [] => [] | _ => [cur] end
  | c :: r => if c =? SLASH then match cur with [] => elems_from [] r | _ => cur :: elems_from [] r end else elems_from (cur ++ [c]) r
  end.
Definition path_elems (path : list Z) : list (list Z) := elems_from [] path.
(** The array [name] after [skipelem] found [e]: [e] cut to [DIRSIZ] characters,
    with a nul after it if there is room. *)
Definition name_after (e name : list Z) : list Z :=
  if Z.of_nat (length e) <? DIRSIZ then e ++ 0 :: drop (S (length e)) name else take (Z.to_nat DIRSIZ) e.
Definition path_char (c : Z) : Prop := c <> 0.

Lemma skip_slashes_elems p : path_elems (skip_slashes p) = path_elems p.
Proof.
  induction p as [|c r IH]; [done|]. cbn [skip_slashes]. unfold path_elems in *. cbn [elems_from].
  destruct (Z.eqb_spec c SLASH) as [->|E]; [done|]. cbn [elems_from]. by rewrite (proj2 (Z.eqb_neq _ _) E).
Qed.
Lemma skip_slashes_head p : hd 0 (skip_slashes p) <> SLASH.
Proof. induction p as [|c r IH]; [done|]. cbn [skip_slashes]. destruct (Z.eqb_spec c SLASH); [done|]. done. Qed.
Lemma skip_slashes_suffix p : exists q, p = q ++ skip_slashes p.
Proof. induction p as [|c r [q Hq]]; [by exists []|]. cbn [skip_slashes]. destruct (c =? SLASH); [exists (c :: q); cbn; congruence|by exists []]. Qed.

Lemma take_elem_spec p : Forall path_char p ->
  exists e r, take_elem p = (e, r) /\ p = e ++ r /\ Forall (fun c => c <> SLASH) e /\ (r = [] \/ hd 0 r = SLASH).
Proof.
  induction 1 as [|c p Hc _ (e & r & IH & -> & He & Hr)]; [exists [], []; by auto|]. cbn [take_elem].
  destruct (Z.eqb_spec c SLASH) as [->|E]; cbn [orb]; [exists [], (SLASH :: e ++ r); by auto|].
  rewrite (proj2 (Z.eqb_neq _ _) Hc), IH. exists (c :: e), r. split; [done|]. split; [done|]. split; [by constructor|done].
Qed.

Lemma elems_run cur e r : Forall (fun c => c <> SLASH) e -> (r = [] \/ hd 0 r = SLASH) -> cur ++ e <> [] ->
  elems_from cur (e ++ r) = (cur ++ e) :: path_elems r.
Proof.
  intros He. revert cur. induction He as [|c e Hc _ IH]; intros cur Hr Hne.
  - rewrite app_nil_r in *. cbn. destruct r as [|c r]; cbn; [by destruct cur|].
    destruct Hr as [?|E]; [done|]. cbn in E. rewrite E, Z.eqb_refl. destruct cur; [done|]. unfold path_elems. cbn. done.
  - cbn. rewrite (proj2 (Z.eqb_neq _ _) Hc), (IH (cur ++ [c])); [by rewrite <- app_assoc|done|]. by destruct cur.
Qed.

Lemma splice_name_short e name : length name = Z.to_nat DIRSIZ -> Z.of_nat (length e) < DIRSIZ ->
  splice (length e) [0] (splice 0 e name) = e ++ 0 :: drop (S (length e)) name.
Proof.
  intros Hn He. unfold DIRSIZ in *. assert (splice 0 e name = e ++ drop (length e) name) as ->.
  { unfold splice. rewrite take_0, Nat.sub_0_r, (take_ge e) by lia. done. }
  unfold splice. rewrite take_app_length. rewrite length_app, length_drop. cbn [length].
  replace (take (length e + (length name - length e) - length e) [0]) with [0] by (symmetry; apply take_ge; cbn; lia).
  rewrite drop_app_ge by lia. rewrite drop_drop. cbn. do 3 f_equal. lia.
Qed.

(** [skipelem] takes a path apart as its elements: it returns null exactly when
    no element is left; otherwise it leaves in [name] the first element, cut to
    [DIRSIZ] characters and terminated by a nul if there is room, and returns the
    rest of the path, which has the remaining elements, does not start with a
    slash, and is shorter (so that the loop of [namex] ends). *)
Theorem skipelem_splits (path name : list Z) :
  Forall path_char path -> length name = Z.to_nat DIRSIZ ->
  match skipelem path name with
  | None => path_elems path = []
  | Some (rest, name') =>
      exists e, path_elems path = e :: path_elems rest /\ e <> [] /\ name' = name_after e name /\ length name' = Z.to_nat DIRSIZ /\
        hd 0 rest <> SLASH /\ (length rest < length path)%nat /\ Forall path_char rest
  end.
Proof.
  intros Hp Hn. unfold skipelem. rewrite <- skip_slashes_elems. pose proof (skip_slashes_head path) as Hh.
  destruct (skip_slashes_suffix path) as [q Hq]. set (p := skip_slashes path) in *. clearbody p. subst path.
  apply Forall_app in Hp as [_ Hp]. destruct p as [|c p]; [done|]. cbn [hd] in *.
  rewrite (proj2 (Z.eqb_neq c 0)) by (by apply Forall_cons in Hp as [? _]).
  destruct (take_elem_spec (c :: p) Hp) as (e & r & -> & Ep & He & Hr). exists e.
  assert (e <> []) as Hne. { intros ->. destruct Hr as [->|Hr]; [done|]. cbn in Ep. subst r. done. }
  destruct (skip_slashes_suffix r) as [q' Hq'].
  rewrite skip_slashes_elems. split; [unfold path_elems at 1; rewrite Ep; by apply elems_run|]. split; [done|].
  assert ((if Z.of_nat (length e) >=? DIRSIZ then splice 0 (take (Z.to_nat DIRSIZ) e) name else splice (length e) [0] (splice 0 e name))
    = name_after e name) as ->.
  { unfold name_after. rewrite Z.geb_leb. destruct (Z.leb_spec DIRSIZ (Z.of_nat (length e))), (Z.ltb_spec (Z.of_nat (length e)) DIRSIZ); try lia.
    - unfold splice. cbn [take]. rewrite Nat.sub_0_r, Hn, take_take, Nat.min_id. rewrite drop_ge; [apply app_nil_r|].
      rewrite length_take. unfold DIRSIZ in *. lia.
    - by apply splice_name_short. }
  split; [done|]. split.
  { unfold name_after. destruct (Z.ltb_spec (Z.of_nat (length e)) DIRSIZ); [|rewrite length_take; unfold DIRSIZ in *; lia].
    rewrite length_app. cbn. rewrite length_drop. unfold DIRSIZ in *. lia. }
  split; [apply skip_slashes_head|]. rewrite Ep in Hp. split; [|apply Forall_app in Hp as [_ Hp]; rewrite Hq' in Hp; by apply Forall_app in Hp as [_ Hp]].
  rewrite Ep, !length_app. assert (length r >= length (skip_slashes r))%nat by (rewrite Hq' at 1; rewrite length_app; lia).
  destruct e; [done|]. cbn. lia.
Qed.

Lemma skipelem_splits_witness :
  skipelem [47; 97; 47; 47; 98] (replicate 14 7) = Some ([98], [97; 0] ++ replicate 12 7) /\ path_elems [47; 97; 47; 47; 98] = [[97]; [98]].
Proof.
  pose proof (skipelem_splits [47; 97; 47; 47; 98] (replicate 14 7)) as H. split; [reflexivity|].
  destruct H as (e & H & _ & _); [repeat constructor; intros [=]|reflexivity|]. reflexivity.
Defined.

(** ** The table of inodes *)

Definition in_table (ip : Z) : Prop := 0 <= ip < NINODE.
(** Entry [x] is in use for inode [inum] of device [dev]. *)
Definition caches (x : inode) (dev inum : Z) : Prop := 0 < i_ref x /\ i_dev x = dev /\ i_inum x = inum.
#[export] Instance caches_dec x dev inum : Decision (caches x dev inum).
Proof. unfold caches. apply _. Defined.
Record it_ok (t : gmap Z inode) : Prop := {
  ito_ref : forall ip, in_table ip -> 0 <= i_ref (t !!! ip);
  ito_one : forall ip jp dev inum, in_table ip -> in_table jp -> caches (t !!! ip) dev inum -> caches (t !!! jp) dev inum -> ip = jp
}.

Lemma caches_bool x dev inum : (i_ref x >? 0) && (i_dev x =? dev) && (i_inum x =? inum) = bool_decide (caches x dev inum).
Proof.
  rewrite Z.gtb_ltb. symmetry. unfold caches.
  destruct (Z.ltb_spec 0 (i_ref x)), (Z.eqb_spec (i_dev x) dev), (Z.eqb_spec (i_inum x) inum); cbn;
    (apply bool_decide_true; done) || (apply bool_decide_false; lia).
Qed.

Lemma iget_find_spec fuel ip empty dev inum t : 0 <= ip -> Z.of_nat fuel = NINODE - ip ->
  match iget_find fuel ip empty dev inum t with
  | inl k => ip <= k < NINODE /\ caches (t !!! k) dev inum
  | inr e => (forall k, ip <= k < NINODE -> ~ caches (t !!! k) dev inum) /\
      match e with
      | Some k => empty = Some k \/ ip <= k < NINODE /\ i_ref (t !!! k) = 0
      | None => empty = None /\ forall k, ip <= k < NINODE -> i_ref (t !!! k) <> 0
      end
  end.
Proof.
  revert ip empty. induction fuel as [|fuel IH]; intros ip empty Hip Hf; cbn [iget_find].
  { split; [lia|]. destruct empty; [by left|]. split; [done|lia]. }
  rewrite caches_bool. destruct (bool_decide_reflect (caches (t !!! ip) dev inum)) as [Hc|Hc]; [split; [lia|done]|].
  match goal with |- match iget_find _ _ ?e _ _ _ with _ => _ end => set (e1 := e) end.
  specialize (IH (ip + 1) e1 ltac:(lia) ltac:(lia)). destruct (iget_find fuel (ip + 1) e1 dev inum t) as [k|e'].
  { destruct IH. split; [lia|done]. }
  destruct IH as [IH1 IH2]. split; [intros k Hk; destruct (decide (k = ip)) as [->|]; [done|apply IH1; lia]|].
  destruct e' as [k|].
  - destruct IH2 as [He|[Hk Hr]]; [|right; split; [lia|done]]. unfold e1 in He. destruct empty as [e0|]; [by left|].
    destruct (Z.eqb_spec (i_ref (t !!! ip)) 0); [|done]. injection He as <-. right. split; [lia|done].
  - destruct IH2 as [He Hk]. unfold e1 in He. destruct empty as [e0|]; [done|]. split; [done|].
    destruct (Z.eqb_spec (i_ref (t !!! ip)) 0); [done|]. intros k Hkr. destruct (decide (k = ip)) as [->|]; [done|]. apply Hk. lia.
Qed.

Definition it_entry (s : fsst) (ip : Z) (x : inode) : fsst :=
  set_fit (mkItable (it_lock (fit s)) (<[ip := x]> (it_inode (fit s)))) s.

Lemma it_ok_insert t ip x dev inum : it_ok t -> 0 <= i_ref x -> i_dev x = dev -> i_inum x = inum ->
  (forall jp, in_table jp -> jp <> ip -> ~ caches (t !!! jp) dev inum) -> it_ok (<[ip := x]> t).
Proof.
  intros [R O] Hx Hd Hi Hn. split.
  - intros jp Hjp. destruct (decide (jp = ip)) as [->|]; [by rewrite lookup_total_insert_eq|].
    rewrite lookup_total_insert_ne by done. by apply R.
  - intros i j dv im Hi0 Hj0. destruct (decide (i = ip)) as [->|Ei], (decide (j = ip)) as [->|Ej]; try done;
      rewrite ?lookup_total_insert_eq, ?lookup_total_insert_ne by done.
    + intros (_ & E1 & E2) Hc. exfalso. apply (Hn j Hj0 Ej). by rewrite <- Hd, <- Hi, E1, E2.
    + intros Hc (_ & E1 & E2). exfalso. apply (Hn i Hi0 Ei). by rewrite <- Hd, <- Hi, E1, E2.
    + by apply O.
Qed.

Lemma it_entry_at s ip x : inode_at (it_entry s ip x) ip = x.
Proof. apply lookup_total_insert_eq. Qed.

Lemma iget_run s dev inum : it_lock (fit s) = initlock ->
  iget dev inum s =
  match iget_find (Z.to_nat NINODE) 0 None dev inum (it_inode (fit s)) with
  | inl ip => Ok ip (it_entry s ip (set_iref (i_ref (inode_at s ip) + 1) (inode_at s ip)))
  | inr None => Panic "iget: no inodes"
  | inr (Some ip) => Ok ip (it_entry s ip (set_ivalid 0 (set_iref 1 (set_ikey dev inum (inode_at s ip)))))
  end.
Proof.
  intros Hl. destruct s as [l sb [lk t] k pt]. cbn in Hl. subst lk. unfold iget.
  unfold it_spin at 1. rewrite (bind_Ok _ _ _ tt (mkFsst l sb (mkItable held_lock t) k pt)) by done.
  rewrite bind_gets. cbn [fit it_inode]. destruct (iget_find _ _ _ _ _ t) as [ip|[ip|]]; [done| |done].
  unfold upd_inode. rewrite !bind_modify. unfold it_spin, zoom, bind, inode_at, it_entry, set_fit. cbn.
  by rewrite !lookup_total_insert_eq, !insert_insert_eq.
Qed.

(** [iget] keeps at most one entry of the table for each inode: if the inode has
    an entry, that entry gets one more reference; otherwise an unused entry is
    taken for it, with one reference and not yet valid; and it panics exactly
    when there is neither.  Every other entry, and everything else, is unchanged,
    and the lock of the table is free again. *)
Theorem iget_keeps_unique (s : fsst) (dev inum : Z) :
  it_lock (fit s) = initlock -> it_ok (it_inode (fit s)) ->
  match iget dev inum s with
  | Ok ip s' =>
      in_table ip /\ it_ok (it_inode (fit s')) /\ caches (inode_at s' ip) dev inum /\
      exists x, s' = it_entry s ip x /\
       (caches (inode_at s ip) dev inum /\ x = set_iref (i_ref (inode_at s ip) + 1) (inode_at s ip) \/
        i_ref (inode_at s ip) = 0 /\ (forall jp, in_table jp -> ~ caches (inode_at s jp) dev inum) /\
          x = set_ivalid 0 (set_iref 1 (set_ikey dev inum (inode_at s ip))))
  | Panic msg => msg = "iget: no inodes" /\ forall ip, in_table ip -> 0 < i_ref (inode_at s ip) /\ ~ caches (inode_at s ip) dev inum
  | _ => False
  end.
Proof.
  intros Hl OK. rewrite iget_run by done. set (t := it_inode (fit s)) in *.
  pose proof (iget_find_spec (Z.to_nat NINODE) 0 None dev inum t ltac:(lia) ltac:(unfold NINODE; lia)) as Hf.
  destruct (iget_find _ _ _ _ _ t) as [ip|[ip|]].
  - destruct Hf as [Hin Hc]. split; [done|]. pose proof Hc as (Hr & Hd & Hi). split.
    + apply (it_ok_insert _ _ _ dev inum OK); [cbn; fold t (inode_at s ip); unfold inode_at; fold t; lia|done|done|].
      intros jp Hjp Hne Hcj. by apply Hne, (ito_one _ OK jp ip dev inum).
    + rewrite it_entry_at. split; [split; [unfold inode_at; fold t; cbn; lia|done]|]. eexists. split; [done|]. by left.
  - destruct Hf as [Hnone Hf]. destruct Hf as [?|[Hin H0]]; [done|]. split; [done|]. split.
    + apply (it_ok_insert _ _ _ dev inum OK); [cbn; lia|done|done|]. intros jp Hjp Hne. by apply Hnone.
    + rewrite it_entry_at. split; [done|]. eexists. split; [done|]. right. done.
  - destruct Hf as [Hnone [_ Hfull]]. split; [done|]. intros ip Hip. split; [|by apply Hnone].
    pose proof (ito_ref _ OK ip Hip). specialize (Hfull ip Hip). unfold inode_at. fold t. lia.
Qed.

(** ** Examples: a root directory with the entries [.] and [a] *)

#[local] Program Instance fs_layout : Layout :=
  {| etext := PHYSTOP - 4 * PGSIZE; kend := PHYSTOP - 2 * PGSIZE; trampoline := PHYSTOP - 5 * PGSIZE |}.
Solve Obligations with (vm_compute; congruence).

Definition ex_dirblock : list Z := [1; 0; 46] ++ replicate 13 0 ++ [2; 0; 97] ++ replicate 13 0 ++ replicate 992 0.
Definition ex_root : inode := mkInode ROOTDEV ROOTINO 1 initsleeplock 1 T_DIR 0 0 1 32 (46 :: replicate 12 0).
Definition ex_itable : itable := mkItable initlock {[0 := ex_root]}.

Lemma ex_dir C : (forall y, C y = disk_read (ex_platter {[46 := ex_dirblock]}) y) -> C 46 = ex_dirblock /\ dir_ok C ex_root.
Proof.
  intros HC. split; [rewrite HC; reflexivity|]. split; [|reflexivity|reflexivity].
  split; [reflexivity|vm_compute; split; intros [=]|]. intros bn H0 Hb. change (i_size ex_root) with 32 in Hb.
  assert (bn = 0) as -> by (unfold BSIZE in Hb; lia). vm_compute. intros [=].
Qed.

Lemma ex_dir_tx : exists s C, begin_boot (ex_platter {[46 := ex_dirblock]}) 1 ex_sb ex_itable ex_mem ex_ptable = Ok tt s /\
  tx s C ∅ [] /\ inode_at s 0 = ex_root /\ fit s = ex_itable /\ (forall y, C y = disk_read (ex_platter {[46 := ex_dirblock]}) y).
Proof.
  destruct (ex_tx {[46 := ex_dirblock]} ex_itable ex_mem ex_ptable) as (s & C & Hs & I & _ & _ & _ & _ & Et & _ & _ & HC);
    [reflexivity| |].
  { intros y d [<- <-]%lookup_singleton_Some. apply bytes_check; vm_compute; reflexivity. }
  exists s, C. split; [exact Hs|]. split; [exact I|]. split; [unfold inode_at; rewrite Et; reflexivity|]. split; [exact Et|exact HC].
Qed.

(** The entry of the name [a]. *)
Definition ex_entry : list Z := [2; 0; 97] ++ replicate 13 0.
Lemma ex_entry_at C : C 46 = ex_dirblock -> entry C ex_root 1 = ex_entry.
Proof.
  intros HC. unfold entry. rewrite fbytes_block.
  - change (faddr C ex_root (sizeof_dirent * 1 / BSIZE)) with 46. rewrite HC. vm_compute. reflexivity.
  - change (faddr C ex_root (sizeof_dirent * 1 / BSIZE)) with 46. rewrite HC. apply bytes_check; vm_compute; reflexivity.
  - vm_compute. split; intros [=].
Qed.

Lemma readi_reads_file_witness : exists s s',
  begin_boot (ex_platter {[46 := ex_dirblock]}) 1 ex_sb ex_itable ex_mem ex_ptable = Ok tt s /\
  readi 0 ToVar 16 100 s = Ok (16, ex_entry) s'.
Proof.
  destruct ex_dir_tx as (s & C & Hs & I & Hx & _ & HC). destruct (ex_dir C HC) as [H46 D].
  destruct (readi_reads_file s C [] 0 16 100 ToVar Logic.I I) as (s' & H & _); [rewrite Hx; exact (do_file _ _ D)|lia|lia|].
  exists s, s'. split; [exact Hs|]. rewrite Hx in H.
  assert (read_bytes C ex_root 16 100 = ex_entry) as E.
  { rewrite <- (ex_entry_at C H46). unfold read_bytes. change (Z.min 100 (i_size ex_root - 16)) with 16. reflexivity. }
  rewrite E in H. exact H.
Defined.

Lemma ex_entry0 C : C 46 = ex_dirblock -> entry C ex_root 0 = [1; 0; 46] ++ replicate 13 0.
Proof.
  intros HC. unfold entry. rewrite fbytes_block.
  - change (faddr C ex_root (sizeof_dirent * 0 / BSIZE)) with 46. rewrite HC. vm_compute. reflexivity.
  - change (faddr C ex_root (sizeof_dirent * 0 / BSIZE)) with 46. rewrite HC. apply bytes_check; vm_compute; reflexivity.
  - vm_compute. split; intros [=].
Qed.
Lemma ex_find C : C 46 = ex_dirblock -> find_entry C ex_root [97] 2 0 = Some 1.
Proof.
  intros HC. cbn [find_entry]. change (0 + 1) with 1. unfold entry_matches. rewrite (ex_entry_at C HC), (ex_entry0 C HC). vm_compute. reflexivity.
Qed.

Lemma dirlookup_finds_first_witness : exists s s',
  begin_boot (ex_platter {[46 := ex_dirblock]}) 1 ex_sb ex_itable ex_mem ex_ptable = Ok tt s /\
  dirlookup 0 [97] s = (do ip <- iget ROOTDEV 2; return (Some (ip, 16))) s'.
Proof.
  destruct ex_dir_tx as (s & C & Hs & I & Hx & _ & HC). destruct (ex_dir C HC) as [H46 D].
  destruct (dirlookup_finds_first s C [] 0 [97] I) as [H _]. rewrite Hx in H. destruct (H D) as (s' & _ & _ & H').
  exists s, s'. split; [exact Hs|]. change (nentries ex_root) with 2%nat in H'. rewrite (ex_find C H46), (ex_entry_at C H46) in H'. exact H'.
Defined.

Lemma iget_keeps_unique_witness : exists s ip s',
  begin_boot (ex_platter {[46 := ex_dirblock]}) 1 ex_sb ex_itable ex_mem ex_ptable = Ok tt s /\
  iget ROOTDEV 2 s = Ok ip s' /\ it_ok (it_inode (fit s')).
Proof.
  destruct ex_dir_tx as (s & C & Hs & I & Hx & Et & HC).
  assert (it_ok (it_inode (fit s))) as OK.
  { rewrite Et. cbn [it_inode ex_itable]. split.
    - intros ip _. destruct (Z.eq_dec ip 0) as [->|Hne]; [vm_compute; intros [=]|]. rewrite lookup_total_singleton_ne by congruence. vm_compute. intros [=].
    - intros ip jp dev inum _ _ [H1 _] [H2 _].
      assert (forall i, 0 < i_ref (({[0 := ex_root]} : gmap Z inode) !!! i) -> i = 0) as Hz.
      { intros i Hi. destruct (Z.eq_dec i 0) as [|Hne]; [assumption|]. rewrite lookup_total_singleton_ne in Hi by congruence. vm_compute in Hi. congruence. }
      rewrite (Hz ip H1), (Hz jp H2). reflexivity. }
  pose proof (iget_keeps_unique s ROOTDEV 2) as H. rewrite Et in H. specialize (H eq_refl). rewrite Et in OK. specialize (H OK).
  destruct (iget ROOTDEV 2 s) as [ip s'|msg|c|] eqn:E; [|exfalso|destruct H|destruct H].
  - exists s, ip, s'. split; [exact Hs|]. split; [exact E|]. apply H.
  - destruct H as [_ H]. destruct (H 1) as [H1 _]; [vm_compute; split; [intros [=]|reflexivity]|].
    unfold inode_at in H1. rewrite Et in H1. vm_compute in H1. congruence.
Defined.
