(* ===== verification/FsGrow.v ===== *)
(** * Growing a file: [bmap] of [kernel/fs.c]

    The blocks of a file are its direct blocks, the indirect block and the blocks
    this one names.  The invariant says that they are data blocks, in use and
    distinct; [bmap] keeps it when it allocates. *)

From stdpp Require Import base gmap strings fin_sets functions list.
From S2P Require Import Prelude Riscv Mem Spinlock Kalloc Vm Sleeplock ProcData Bytes Bio BioSpec Log LogSpec Fs FsTx FsAlloc FsFile.

(** [lia] with the sizes of a file. *)
Ltac file_lia := change MAXFILE with 268 in *; change NDIRECT with 12 in *; change NINDIRECT with 256 in *; change BSIZE with 1024 in *; lia.

(** ** The blocks of a file *)

(** Block [k] of the file, and the indirect block as number [MAXFILE]; 0 if it is missing. *)
Definition slot (C : Z -> list Z) (x : inode) (k : Z) : Z := if k =? MAXFILE then addr_at x NDIRECT else faddr C x k.
Definition owns (C : Z -> list Z) (x : inode) (y : Z) : Prop := y <> 0 /\ exists k, 0 <= k <= MAXFILE /\ slot C x k = y.

(** The blocks are distinct. *)
Definition slots_inj (C : Z -> list Z) (x : inode) : Prop :=
  forall k k', 0 <= k <= MAXFILE -> 0 <= k' <= MAXFILE -> slot C x k <> 0 -> slot C x k = slot C x k' -> k = k'.

Record inode_wf (C : Z -> list Z) (sb : superblock) (x : inode) : Prop := {
  iw_len : length (i_addrs x) = 13%nat;
  iw_dev : i_dev x = ROOTDEV;
  iw_range : forall y, owns C x y -> nmeta sb <= y < sb_size sb /\ used C sb y = true;
  iw_inj : slots_inj C x
}.

(** The same inode with other addresses. *)
Definition with_addrs (a : list Z) (x : inode) : inode :=
  mkInode (i_dev x) (i_inum x) (i_ref x) (i_lock x) (i_valid x) (i_type x) (i_major x) (i_minor x) (i_nlink x) (i_size x) a.

(** Blocks and inode after operations on the file: it may have got blocks, which were
    free, and what it does not own is as before, but for the free map. *)
Record fgrows (sb : superblock) (C : Z -> list Z) (x : inode) (C' : Z -> list Z) (x' : inode) : Prop := {
  ev_wf : inode_wf C' sb x';
  ev_x : x' = with_addrs (i_addrs x') x;
  ev_keep : forall k, 0 <= k <= MAXFILE -> slot C x k <> 0 -> slot C' x' k = slot C x k;
  ev_new : forall k, 0 <= k <= MAXFILE -> slot C x k = 0 -> slot C' x' k <> 0 -> used C sb (slot C' x' k) = false;
  ev_used : forall b, 0 <= b < sb_size sb -> used C' sb b = true <-> used C sb b = true \/ owns C' x' b;
  ev_frame : forall y, ~ sb_bmapstart sb <= y < nmeta sb -> ~ owns C' x' y -> C' y = C y
}.

Section fgrows.
Context (sb : superblock) (Hmeta : 0 < nmeta sb).

Lemma owns_slot C x k : 0 <= k <= MAXFILE -> slot C x k <> 0 -> owns C x (slot C x k).
Proof. intros Hk Hs. split; [done|]. by exists k. Qed.
Lemma owns_mono C x C' x' y : fgrows sb C x C' x' -> owns C x y -> owns C' x' y.
Proof. intros E [Hy (k & Hk & <-)]. rewrite <- (ev_keep _ _ _ _ _ E k Hk Hy). apply owns_slot; [done|]. by rewrite (ev_keep _ _ _ _ _ E). Qed.

Lemma fgrows_refl C x : inode_wf C sb x -> fgrows sb C x C x.
Proof.
  intros W. split; [done|by destruct x|done|done| |done]. intros b Hb. split; [by left|]. intros [?|Ho]; [done|].
  by apply (iw_range _ _ _ W).
Qed.

Lemma fgrows_trans C x C1 x1 C2 x2 : fgrows sb C x C1 x1 -> fgrows sb C1 x1 C2 x2 -> fgrows sb C x C2 x2.
Proof.
  intros E1 E2. split.
  - apply E2.
  - rewrite (ev_x _ _ _ _ _ E2), (ev_x _ _ _ _ _ E1). done.
  - intros k Hk Hs. rewrite (ev_keep _ _ _ _ _ E2 k Hk), (ev_keep _ _ _ _ _ E1 k Hk Hs); [done|]. by rewrite (ev_keep _ _ _ _ _ E1 k Hk Hs).
  - intros k Hk H0 H2. destruct (Z.eq_dec (slot C1 x1 k) 0) as [E|E].
    + pose proof (ev_new _ _ _ _ _ E2 k Hk E H2) as Hf.
      destruct (used C sb (slot C2 x2 k)) eqn:Hu; [|done]. rewrite <- Hf. symmetry. apply (ev_used _ _ _ _ _ E1); [|by left].
      destruct (iw_range _ _ _ (ev_wf _ _ _ _ _ E2) _ (owns_slot _ _ _ Hk H2)) as [? ?]. lia.
    + rewrite (ev_keep _ _ _ _ _ E2 k Hk E) in *. by apply (ev_new _ _ _ _ _ E1).
  - intros b Hb. rewrite (ev_used _ _ _ _ _ E2 b Hb), (ev_used _ _ _ _ _ E1 b Hb). split; [|by intros [?|?]; auto].
    intros [[?|Ho]|?]; [by left|right|by right]. by eapply owns_mono.
  - intros y Hy Ho. rewrite (ev_frame _ _ _ _ _ E2 y Hy Ho). apply (ev_frame _ _ _ _ _ E1 y Hy). intros Ho'. apply Ho. by eapply owns_mono.
Qed.


(** *** Slots *)

Lemma slot_entry C x k : NDIRECT <= k < MAXFILE ->
  slot C x k = if addr_at x NDIRECT =? 0 then 0 else get32 (C (addr_at x NDIRECT)) (4 * (k - NDIRECT)).
Proof using. intros Hk. unfold slot, faddr. destruct (Z.eqb_spec k MAXFILE), (Z.ltb_spec k NDIRECT); lia || done. Qed.
Lemma slot_direct C x k : 0 <= k < NDIRECT -> slot C x k = addr_at x k.
Proof using. intros Hk. unfold slot, faddr. destruct (Z.eqb_spec k MAXFILE), (Z.ltb_spec k NDIRECT); file_lia || done. Qed.
Lemma slot_ind C x : slot C x MAXFILE = addr_at x NDIRECT.
Proof using. unfold slot. by rewrite Z.eqb_refl. Qed.
Lemma slot_data C x k : 0 <= k < MAXFILE -> slot C x k = faddr C x k.
Proof using. intros Hk. unfold slot. by rewrite (proj2 (Z.eqb_neq _ _)) by lia. Qed.

Lemma addr_at_set x k v j : length (i_addrs x) = 13%nat -> 0 <= k <= NDIRECT -> 0 <= j ->
  addr_at (set_iaddr k v x) j = if decide (j = k) then v else addr_at x j.
Proof using.
  intros Hl Hk Hj. unfold addr_at, set_iaddr. cbn [i_addrs]. rewrite !nth_lookup. unfold NDIRECT in *. case_decide as E.
  - subst j. by rewrite list_lookup_insert_eq by lia.
  - by rewrite list_lookup_insert_ne by lia.
Qed.

Lemma slots_alike C x C' x' k : (forall j, 0 <= j <= NDIRECT -> addr_at x' j = addr_at x j) ->
  (addr_at x NDIRECT <> 0 -> C' (addr_at x NDIRECT) = C (addr_at x NDIRECT)) -> 0 <= k <= MAXFILE -> slot C' x' k = slot C x k.
Proof using.
  intros Ha Hi Hk. unfold slot, faddr. rewrite (Ha NDIRECT) by done. destruct (Z.eqb_spec k MAXFILE); [done|].
  destruct (Z.ltb_spec k NDIRECT); [apply Ha; lia|]. destruct (Z.eqb_spec (addr_at x NDIRECT) 0); [done|]. by rewrite Hi.
Qed.

Lemma get32_zero off : get32 zero_block off = 0.
Proof using.
  unfold get32. assert (forall n l, (forall b, b ∈ l -> b = 0) -> le_value (take n l) = 0) as Hz.
  { intros n. induction n as [|n IH]; intros [|b l] Hl; [done..|]. cbn [take le_value].
    rewrite (Hl b) by (left; done). rewrite IH; [done|]. intros b' Hb'. apply Hl. by right. }
  apply Hz. unfold zero_block. rewrite drop_replicate. intros b Hb. by apply elem_of_replicate in Hb as [? _].
Qed.

(** The slots after the three ways to add a block. *)
Lemma slot_set_direct C x bn r k : length (i_addrs x) = 13%nat -> 0 <= bn < NDIRECT -> 0 <= k <= MAXFILE ->
  slot C (set_iaddr bn r x) k = if decide (k = bn) then r else slot C x k.
Proof using.
  intros Hl Hbn Hk. unfold slot, faddr. rewrite !addr_at_set by (done || file_lia). rewrite (decide_False (P := NDIRECT = bn)) by lia.
  destruct (Z.eqb_spec k MAXFILE); [by rewrite decide_False by file_lia|]. destruct (Z.ltb_spec k NDIRECT); [done|]. by rewrite decide_False by lia.
Qed.
Lemma slot_set_ind C x r k : length (i_addrs x) = 13%nat -> addr_at x NDIRECT = 0 -> r <> 0 -> C r = zero_block -> 0 <= k <= MAXFILE ->
  slot C (set_iaddr NDIRECT r x) k = if decide (k = MAXFILE) then r else slot C x k.
Proof using.
  intros Hl H0 Hr HC Hk. unfold slot, faddr. rewrite !addr_at_set by (done || file_lia). rewrite (decide_True (P := NDIRECT = NDIRECT)) by done.
  destruct (Z.eqb_spec k MAXFILE); [by rewrite decide_True|]. rewrite (decide_False (P := k = MAXFILE)) by done. destruct (Z.ltb_spec k NDIRECT).
  - by rewrite decide_False by lia.
  - rewrite H0, (proj2 (Z.eqb_neq r 0)) by done. by rewrite HC, get32_zero.
Qed.
Lemma slot_put_entry C C1 x j r k (A := addr_at x NDIRECT) : bytes_ok BSIZE (C A) -> A <> 0 -> 0 <= j < NINDIRECT -> 0 <= r < 2 ^ 32 -> 0 <= k <= MAXFILE ->
  slot (<[A := put32 (4 * j) r (C A)]> C1) x k = if decide (k = NDIRECT + j) then r else slot C x k.
Proof using.
  intros Hb HA Hj Hr Hk. unfold slot, faddr. fold A. destruct (Z.eqb_spec k MAXFILE); [by rewrite decide_False by file_lia|].
  destruct (Z.ltb_spec k NDIRECT); [by rewrite decide_False by lia|]. rewrite (proj2 (Z.eqb_neq _ _) HA), fn_lookup_insert. case_decide as E.
  - subst k. replace (NDIRECT + j - NDIRECT) with j by lia. rewrite (get32_put32 BSIZE) by (done || file_lia). by apply u32_small.
  - rewrite (get32_put32_other BSIZE) by (done || file_lia). done.
Qed.

(** The file gets the free block [r] as block [k0]. *)
Lemma fgrows_alloc C x C' x' k0 r :
  inode_wf C sb x -> x' = with_addrs (i_addrs x') x -> length (i_addrs x') = 13%nat ->
  0 <= k0 <= MAXFILE -> slot C x k0 = 0 -> nmeta sb <= r < sb_size sb -> used C sb r = false ->
  (forall k, 0 <= k <= MAXFILE -> slot C' x' k = if decide (k = k0) then r else slot C x k) ->
  (forall b, 0 <= b < sb_size sb -> used C' sb b = used C sb b || bool_decide (b = r)) ->
  (forall y, ~ sb_bmapstart sb <= y < nmeta sb -> y <> r -> ~ owns C x y -> C' y = C y) ->
  fgrows sb C x C' x'.
Proof using Hmeta.
  intros W Hx Hl Hk0 H0 Hr Hf Hslot Hused Hfr.
  assert (forall y, owns C' x' y <-> y = r \/ owns C x y) as Hown.
  { intros y. split.
    - intros [Hy (k & Hk & Hs)]. rewrite Hslot in Hs by done. case_decide; [by left|right]. split; [done|]. by exists k.
    - intros [->|[Hy (k & Hk & Hs)]]; (split; [lia || done|]); [exists k0|exists k]; (split; [done|]); rewrite Hslot by done.
      + by rewrite decide_True.
      + rewrite decide_False; [done|]. intros ->. congruence. }
  assert (forall k, 0 <= k <= MAXFILE -> slot C x k <> r) as Hnr.
  { intros k Hk E. assert (owns C x r) as Ho by (split; [lia|by exists k]). apply (iw_range _ _ _ W) in Ho as [_ ?]. congruence. }
  split; [split| | | | |].
  - done.
  - rewrite Hx. apply W.
  - intros y [->|Ho]%Hown.
    + split; [done|]. rewrite Hused by lia. rewrite bool_decide_true by done. apply orb_true_r.
    + apply (iw_range _ _ _ W) in Ho as [? Hu]. split; [done|]. rewrite Hused by lia. by rewrite Hu.
  - intros k k' Hk Hk'. rewrite !Hslot by done. repeat case_decide; subst; intros Hs E; try done; [by destruct (Hnr k' Hk')|by destruct (Hnr k Hk)|].
    by apply (iw_inj _ _ _ W).
  - done.
  - intros k Hk Hs. rewrite Hslot by done. rewrite decide_False; [done|]. congruence.
  - intros k Hk Hs. rewrite Hslot by done. case_decide; [done|congruence].
  - intros b Hb. rewrite Hused, orb_true_iff, bool_decide_eq_true, Hown by done. split; [naive_solver|].
    intros [?|[?|Ho]]; [by left|by right|left]. by apply (iw_range _ _ _ W).
  - intros y Hy Ho. apply Hfr; [done|..]; intros E; apply Ho, Hown; [by left|by right].
Qed.
End fgrows.

(** *** The three ways a file gets a block *)

Section grow.
Context (s : fsst) (G : geom s) (C : Z -> list Z) (HC : forall y, bytes_ok BSIZE (C y)) (x : inode) (W : inode_wf C (fsb s) x) (r : Z).
Context (Hr : nmeta (fsb s) <= r < sb_size (fsb s)) (Hf : used C (fsb s) r = false).
Notation sb := (fsb s).

Lemma nmeta_pos : 0 <= sb_bmapstart sb /\ 0 < nmeta sb.
Proof using G.
  pose proof (g_log _ G). pose proof (Z.div_pos (sb_size sb) BPB (size_pos s G) ltac:(done)). unfold nmeta. lia.
Qed.

Lemma alloc_keep y : ~ sb_bmapstart sb <= y < nmeta sb -> y <> r -> alloc_blocks sb r C y = C y.
Proof using G Hr.
  intros Hy Hn. pose proof nmeta_pos. destruct (BBLOCK_eq s G r ltac:(lia)) as [_ Hb]. unfold alloc_blocks.
  rewrite !fn_lookup_insert_ne; [done| |done]. lia.
Qed.
Lemma owned_keep y : owns C x y -> alloc_blocks sb r C y = C y /\ y <> r /\ ~ sb_bmapstart sb <= y < nmeta sb.
Proof using G Hr Hf W.
  intros Ho. destruct (iw_range _ _ _ W y Ho) as [Hy Hu]. assert (y <> r) by congruence. split; [apply alloc_keep; [lia|done]|]. split; [done|lia].
Qed.
Lemma ind_owned : addr_at x NDIRECT <> 0 -> owns C x (addr_at x NDIRECT).
Proof using. intros Ha. rewrite <- (slot_ind C x) in *. apply owns_slot; [file_lia|done]. Qed.

Lemma alloc_used b : 0 <= b < sb_size sb -> used (alloc_blocks sb r C) sb b = used C sb b || bool_decide (b = r).
Proof using G HC Hr. intros Hb. by apply used_alloc. Qed.

Lemma fgrows_direct bn : 0 <= bn < NDIRECT -> addr_at x bn = 0 -> fgrows sb C x (alloc_blocks sb r C) (set_iaddr bn r x).
Proof using All.
  intros Hbn H0. apply (fgrows_alloc sb (proj2 nmeta_pos) C x _ _ bn r); try done.
  - cbn [set_iaddr i_addrs]. rewrite length_insert. apply W.
  - file_lia.
  - by rewrite slot_direct.
  - intros k Hk. rewrite (slots_alike C (set_iaddr bn r x)), slot_set_direct; [done|apply W|done..| |done].
    rewrite addr_at_set, decide_False by (apply W || file_lia). intros Ha. apply owned_keep. by apply ind_owned.
  - exact alloc_used.
  - intros y Hy Hn _. by apply alloc_keep.
Qed.

Lemma fgrows_ind : addr_at x NDIRECT = 0 -> fgrows sb C x (alloc_blocks sb r C) (set_iaddr NDIRECT r x).
Proof using All.
  intros H0. pose proof nmeta_pos. apply (fgrows_alloc sb (proj2 nmeta_pos) C x _ _ MAXFILE r); try done.
  - cbn [set_iaddr i_addrs]. rewrite length_insert. apply W.
  - intros k Hk. rewrite slot_set_ind; [|apply W|done|lia|unfold alloc_blocks; by rewrite fn_lookup_insert|done].
    case_decide; [done|]. apply slots_alike; [done| |done]. by rewrite H0.
  - exact alloc_used.
  - intros y Hy Hn _. by apply alloc_keep.
Qed.

Lemma fgrows_entry j (A := addr_at x NDIRECT) : 0 <= j < NINDIRECT -> A <> 0 -> get32 (C A) (4 * j) = 0 ->
  fgrows sb C x (<[A := put32 (4 * j) r (C A)]> (alloc_blocks sb r C)) x.
Proof using All.
  intros Hj HA H0. pose proof nmeta_pos. destruct (iw_range _ _ _ W A (ind_owned HA)) as [HAr _].
  pose proof (g_size _ G). assert (slot C x (NDIRECT + j) = 0) as Hs0.
  { rewrite slot_entry by file_lia. fold A. rewrite (proj2 (Z.eqb_neq _ _) HA). rewrite <- H0. do 2 f_equal. lia. }
  apply (fgrows_alloc sb (proj2 nmeta_pos) C x _ _ (NDIRECT + j) r); try done; [by destruct x|apply W|file_lia|..].
  - intros k Hk. apply slot_put_entry; [done|done|done|lia|done].
  - intros b Hb. rewrite (used_data s G) by lia. by apply alloc_used.
  - intros y Hy Hn Ho. rewrite fn_lookup_insert_ne by (intros E; apply Ho; rewrite <- E; by apply ind_owned). by apply alloc_keep.
Qed.
End grow.

(** ** States that differ in one inode *)

(** Nothing changed but buffers, log and inode [ip]. *)
Record same_but (ip : Z) (s s' : fsst) : Prop := {
  sbt_same : same s (set_fit (fit s) s');
  sbt_lock : it_lock (fit s') = it_lock (fit s);
  sbt_it : forall i, i <> ip -> inode_at s' i = inode_at s i
}.

Section same_but.
Context (ip : Z).

Lemma same_but_same s s' : same s s' -> same_but ip s s'.
Proof using. intros S. split; [by destruct S|by rewrite (sm_it _ _ S)|]. intros i _. by apply inode_at_same. Qed.
#[export] Instance same_but_trans : Transitive (same_but ip).
Proof using.
  intros s1 s2 s3 [[] L1 I1] [[] L2 I2]. split; [split; cbn in *; congruence|congruence|].
  intros i Hi. by rewrite I2, I1.
Qed.
Lemma same_but_upd s f : same_but ip s (set_fit (mkItable (it_lock (fit s)) (<[ip := f (inode_at s ip)]> (it_inode (fit s)))) s).
Proof using.
  split; [by split|done|]. intros i Hi. unfold inode_at. cbn. by rewrite lookup_total_insert_ne.
Qed.
Lemma inode_at_upd s f : inode_at (set_fit (mkItable (it_lock (fit s)) (<[ip := f (inode_at s ip)]> (it_inode (fit s)))) s) ip = f (inode_at s ip).
Proof using. unfold inode_at at 1. cbn. by rewrite lookup_total_insert_eq. Qed.

Context (s s' : fsst) (S : same_but ip s s').
Lemma but_sb : fsb s' = fsb s.
Proof using S. apply (sm_sb _ _ (sbt_same _ _ _ S)). Qed.
Lemma but_home y : home s y -> home s' y.
Proof using S. intros Hh. exact (home_same _ _ y (sbt_same _ _ _ S) Hh). Qed.
Lemma but_room bs n : room s bs n -> room s' bs n.
Proof using S. intros Hh. exact (room_same _ _ bs n (sbt_same _ _ _ S) Hh). Qed.
Lemma but_geom : geom s -> geom s'.
Proof using S. intros G. destruct (geom_same _ _ (sbt_same _ _ _ S) G). by split. Qed.
End same_but.

Lemma tx_set_fit t s C held bs : tx s C held bs -> tx (set_fit t s) C held bs.
Proof. intros []. by split. Qed.

(** ** Log space *)

(** Bitmap blocks that [k] allocations may log: one, once, if the bitmap is a block. *)
Definition bm_room (sb : superblock) (bs : list Z) (k : Z) : Z :=
  if decide (sb_size sb <= BPB) then if decide (sb_bmapstart sb ∈ bs) then 0 else 1 else k.
(** The indirect block. *)
Definition ind_room (x : inode) (bs : list Z) : Z :=
  if decide (addr_at x NDIRECT <> 0 /\ addr_at x NDIRECT ∈ bs) then 0 else 1.
(** What writing [k] blocks of the file may log. *)
Definition write_room (sb : superblock) (x : inode) (bs : list Z) (k : Z) : Z :=
  k + bm_room sb bs (k + if addr_at x NDIRECT =? 0 then 1 else 0) + ind_room x bs.

Lemma elem_of_add z y bs : z ∈ add_block y bs <-> z = y \/ z ∈ bs.
Proof. unfold add_block. case_decide; [set_solver|]. rewrite elem_of_app, list_elem_of_singleton. tauto. Qed.
Lemma bm_room_add sb y bs k : bm_room sb (add_block y bs) k <= bm_room sb bs k.
Proof. unfold bm_room. repeat case_decide; try lia. rewrite elem_of_add in *. tauto. Qed.
Lemma ind_room_add x y bs : ind_room x (add_block y bs) <= ind_room x bs.
Proof. unfold ind_room. repeat case_decide; try lia. rewrite elem_of_add in *. tauto. Qed.
Lemma bm_room_pos sb bs k : 0 <= k -> 0 <= bm_room sb bs k.
Proof. intros. unfold bm_room. repeat case_decide; lia. Qed.
Lemma ind_room_pos x bs : 0 <= ind_room x bs <= 1.
Proof. unfold ind_room. case_decide; lia. Qed.
Lemma write_room_pos sb x bs k : 0 <= k -> k <= write_room sb x bs k.
Proof.
  intros. unfold write_room. pose proof (ind_room_pos x bs).
  pose proof (bm_room_pos sb bs (k + if addr_at x NDIRECT =? 0 then 1 else 0) ltac:(destruct (_ =? _); lia)). lia.
Qed.
Lemma room_in s y bs n : y ∈ bs -> room s bs n -> room s (add_block y bs) n.
Proof. intros Hy. by rewrite add_block_in. Qed.

Lemma room_alloc s r bs j c : geom s -> 0 <= r < sb_size (fsb s) -> 0 <= j ->
  room s bs (1 + bm_room (fsb s) bs (j + 1) + c) ->
  room s (log_alloc (fsb s) r bs) (bm_room (fsb s) (log_alloc (fsb s) r bs) j + c).
Proof.
  intros G Hr Hj R. unfold log_alloc. set (B := BBLOCK r (fsb s)).
  assert (room s (add_block B bs) (1 + bm_room (fsb s) (add_block B bs) j + c)) as R1.
  { unfold bm_room in *. destruct (decide (sb_size (fsb s) <= BPB)) as [Hone|Hone].
    - assert (B = sb_bmapstart (fsb s)) as EB.
      { unfold B. rewrite (proj1 (BBLOCK_eq s G r Hr)). rewrite Z.div_small by lia. lia. }
      rewrite (decide_True (P := _ ∈ add_block B bs)) by (apply elem_of_add; left; done).
      case_decide as Hin; [apply room_in; [congruence|]; eapply room_le; [exact R|lia]|].
      eapply room_le; [by apply room_add|lia].
    - eapply room_le; [by apply room_add|lia]. }
  eapply room_le; [by apply room_add|]. pose proof (bm_room_add (fsb s) r (add_block B bs) j). lia.
Qed.
Lemma elem_of_log_alloc sb r bs z : z ∈ log_alloc sb r bs <-> z = r \/ z = BBLOCK r sb \/ z ∈ bs.
Proof. unfold log_alloc. by rewrite !elem_of_add. Qed.
Lemma ind_room_alloc sb x r bs : ind_room x (log_alloc sb r bs) <= ind_room x bs.
Proof. unfold log_alloc. etransitivity; apply ind_room_add. Qed.

(** ** [bmap] *)

Definition full (C : Z -> list Z) (sb : superblock) : Prop := forall b, 0 <= b < sb_size sb -> used C sb b = true.
(** The blocks of the file are as before. *)
Definition keeps (C : Z -> list Z) (x : inode) (C' : Z -> list Z) : Prop :=
  forall k, 0 <= k < MAXFILE -> slot C x k <> 0 -> C' (slot C x k) = C (slot C x k).

Lemma meta_evolves s C x C' x' : geom s -> fgrows (fsb s) C x C' x' -> meta_used C (fsb s) -> meta_used C' (fsb s).
Proof. intros G E MU b Hb. pose proof (g_meta _ G). apply (ev_used _ _ _ _ _ E); [lia|]. left. by apply MU. Qed.

(** What [bmap] leaves, with [c] blocks of log space over what [k] blocks need. *)
Definition bmap_post (s : fsst) (C : Z -> list Z) (ip bn k c : Z) (r : Z) (s' : fsst) : Prop :=
  exists C' bs', tx s' C' ∅ bs' /\ same_but ip s s' /\ fgrows (fsb s) C (inode_at s ip) C' (inode_at s' ip) /\
    keeps C (inode_at s ip) C' /\ r = faddr C' (inode_at s' ip) bn /\ room s' bs' c /\
    (r = 0 -> full C' (fsb s)) /\
    (r <> 0 -> room s' bs' (write_room (fsb s) (inode_at s' ip) bs' (k - 1) + (if decide (r ∈ bs') then 0 else 1) + c)).

(** [ip->addrs[j] = addr = balloc(ip->dev)], or a return of 0. *)
Lemma wp_alloc_addr ip s C bs j n (Q : Z -> fsst -> Prop) : let x := inode_at s ip in
  tx s C ∅ bs -> geom s -> meta_used C (fsb s) -> room s bs n -> 2 <= n ->
  (forall s', tx s' C ∅ bs -> same s s' -> full C (fsb s) -> Q 0 s') ->
  (forall r s', tx s' (alloc_blocks (fsb s) r C) ∅ (log_alloc (fsb s) r bs) -> same_but ip s s' -> inode_at s' ip = set_iaddr j r x ->
     nmeta (fsb s) <= r < sb_size (fsb s) -> used C (fsb s) r = false -> Q r s') ->
  wp (do addr <- balloc ROOTDEV; if addr =? 0 then return 0 else upd_inode ip (set_iaddr j addr) ;;; return addr) Q s.
Proof.
  intros x I G MU R Hn Q0 Q1. pose proof (nmeta_pos s G). apply wp_bind.
  apply (wp_balloc s C ∅ bs n); [done|rewrite size_empty; lia|done|done|set_solver|done|done|]. split.
  - intros s' I' S _ Hf. cbn [Z.eqb]. by apply wp_ret, Q0.
  - intros r s' I' S _ Hr Hu _. rewrite (proj2 (Z.eqb_neq r 0)) by lia. apply wp_bind. unfold upd_inode. apply wp_modify, wp_ret, Q1; [|..|done|done].
    + by apply tx_set_fit.
    + etransitivity; [by apply same_but_same|]. apply same_but_upd.
    + rewrite inode_at_upd. by rewrite (inode_at_same _ _ _ S).
Qed.

Lemma wp_unit_r {S} (m1 m2 : M S unit) (Q : unit -> S -> Prop) s : wp (m1 ;;; m2 ;;; return tt) Q s -> wp (m1 ;;; m2) Q s.
Proof.
  unfold wp, bind. destruct (m1 s) as [[] s1| | |]; [|done..]. destruct (m2 s1) as [[] s2| | |]; done.
Qed.

Lemma room_entry1 k c s x bs r : 1 <= k -> geom s -> nmeta (fsb s) <= r < sb_size (fsb s) -> addr_at x NDIRECT <> 0 ->
  room s bs (write_room (fsb s) x bs k + c) ->
  room s (log_alloc (fsb s) r bs) (bm_room (fsb s) (log_alloc (fsb s) r bs) (k - 1) + (k - 1 + ind_room x bs + c)).
Proof.
  intros Hk G Hr HA R. pose proof (nmeta_pos s G). apply room_alloc; [done|lia|lia|]. unfold write_room in R.
  rewrite (proj2 (Z.eqb_neq _ _) HA) in R. replace (k - 1 + 1) with (k + 0) by lia. eapply room_le; [exact R|lia].
Qed.
Lemma room_entry k c s x bs r (bs' := add_block (addr_at x NDIRECT) (log_alloc (fsb s) r bs)) :
  1 <= k -> geom s -> nmeta (fsb s) <= r < sb_size (fsb s) -> addr_at x NDIRECT <> 0 ->
  room s bs (write_room (fsb s) x bs k + c) -> room s bs' (write_room (fsb s) x bs' (k - 1) + c).
Proof.
  intros Hk G Hr HA R. pose proof (room_entry1 k c s x bs r Hk G Hr HA R) as R1. unfold write_room. rewrite (proj2 (Z.eqb_neq _ _) HA), Z.add_0_r.
  pose proof (bm_room_add (fsb s) (addr_at x NDIRECT) (log_alloc (fsb s) r bs) (k - 1)). fold bs' in H.
  replace (ind_room x bs') with 0 by (unfold ind_room; rewrite decide_True; [done|]; split; [done|]; apply elem_of_add; by left).
  unfold ind_room in R1. case_decide as Hin.
  - unfold bs'. apply room_in; [apply elem_of_log_alloc; tauto|]. eapply room_le; [exact R1|]. fold bs'. lia.
  - eapply room_le; [apply room_add, R1|]. lia.
Qed.

Section bmap.
Context (ip bn k c : Z) (Hbn : 0 <= bn < MAXFILE) (Hk : 1 <= k) (Hc : 1 <= c).

Lemma bmap_post_found s C bs : let x := inode_at s ip in
  tx s C ∅ bs -> inode_wf C (fsb s) x -> room s bs (write_room (fsb s) x bs k + c) -> faddr C x bn <> 0 ->
  forall s', tx s' C ∅ bs -> same s s' -> bmap_post s C ip bn k c (faddr C x bn) s'.
Proof using Hk.
  intros x I W R Ha s' I' S. exists C, bs. rewrite (inode_at_same _ _ _ S). fold x. pose proof (write_room_pos (fsb s) x bs k ltac:(lia)).
  split; [done|]. split; [by apply same_but_same|]. split; [by apply fgrows_refl|]. split; [by intros ?|]. split; [done|].
  split; [eapply room_same; [done|]; eapply room_le; [done|lia]|]. split; [done|]. intros _. eapply room_same; [done|].
  eapply room_le; [done|]. unfold write_room, bm_room. repeat case_decide; destruct (addr_at x NDIRECT =? 0); lia.
Qed.

Lemma wp_bmap_direct s C bs : let x := inode_at s ip in
  tx s C ∅ bs -> geom s -> meta_used C (fsb s) -> inode_wf C (fsb s) x -> room s bs (write_room (fsb s) x bs k + c) ->
  bn < NDIRECT -> wp (bmap ip bn) (bmap_post s C ip bn k c) s.
Proof using All.
  intros x I G MU W R Hd. pose proof (write_room_pos (fsb s) x bs k ltac:(lia)). unfold bmap. apply wp_bind, wp_gets.
  fold x. rewrite (proj2 (Z.ltb_lt _ _) Hd), (iw_dev _ _ _ W). assert (faddr C x bn = addr_at x bn) as Ea by (unfold faddr; by rewrite (proj2 (Z.ltb_lt _ _) Hd)).
  destruct (Z.eqb_spec (addr_at x bn) 0) as [E0|E0].
  2: { apply wp_ret. rewrite <- Ea. apply (bmap_post_found s C bs); try done. fold x. congruence. }
  apply (wp_alloc_addr ip s C bs bn _ _ I G MU R); [lia|..].
  - intros s' I' S Hf. exists C, bs. rewrite (inode_at_same _ _ _ S). fold x. split; [done|]. split; [by apply same_but_same|].
    split; [by apply fgrows_refl|]. split; [by intros ?|]. split; [congruence|].
    split; [eapply room_same; [done|]; eapply room_le; [done|lia]|]. by split.
  - intros r s' I' S Ex Hr Hu. eexists _, _. rewrite Ex. fold x. assert (forall y, bytes_ok BSIZE (C y)) as HC by (intros y; by eapply tx_bytes).
    pose proof (fgrows_direct s G C HC x W r Hr Hu bn ltac:(lia) E0) as Ev. pose proof (nmeta_pos s G).
    assert (addr_at (set_iaddr bn r x) NDIRECT = addr_at x NDIRECT) as En by (rewrite addr_at_set by (apply W || file_lia); rewrite decide_False by lia; done).
    assert (room s' (log_alloc (fsb s) r bs) (write_room (fsb s) (set_iaddr bn r x) (log_alloc (fsb s) r bs) (k - 1) + c)) as R'.
    { eapply but_room; [done|]. unfold write_room in *. rewrite En. set (e := if addr_at x NDIRECT =? 0 then 1 else 0) in *.
      assert (0 <= e) by (unfold e; destruct (_ =? _); lia).
      eapply room_le; [apply (room_alloc s r bs (k - 1 + e) (k - 1 + ind_room x bs + c)); [done|lia|lia|]|].
      - replace (k - 1 + e + 1) with (k + e) by lia. eapply room_le; [exact R|lia].
      - pose proof (ind_room_alloc (fsb s) x r bs). unfold ind_room in *. rewrite En. lia. }
    pose proof (write_room_pos (fsb s) (set_iaddr bn r x) (log_alloc (fsb s) r bs) (k - 1) ltac:(lia)).
    split; [done|]. split; [done|]. split; [done|]. split.
    { intros k' Hk' Hs. apply (owned_keep s G C x W r Hr Hu). by apply owns_slot; [lia|]. }
    split; [unfold faddr; rewrite (proj2 (Z.ltb_lt _ _) Hd), addr_at_set by (apply W || lia); by rewrite decide_True|].
    split; [eapply room_le; [done|lia]|]. split; [lia|]. intros _. rewrite decide_True by (apply elem_of_log_alloc; by left).
    eapply room_le; [done|lia].
Qed.

(** The indirect block got the entry [r]. *)
Lemma bmap_post_entry s C bs r (x := inode_at s ip) (A := addr_at x NDIRECT) s' :
  (forall y, bytes_ok BSIZE (C y)) -> geom s -> inode_wf C (fsb s) x -> room s bs (write_room (fsb s) x bs k + c) ->
  NDIRECT <= bn -> A <> 0 -> get32 (C A) (4 * (bn - NDIRECT)) = 0 -> nmeta (fsb s) <= r < sb_size (fsb s) -> used C (fsb s) r = false ->
  tx s' (<[A := put32 (4 * (bn - NDIRECT)) r (C A)]> (alloc_blocks (fsb s) r C)) ∅ (add_block A (log_alloc (fsb s) r bs)) -> same s s' ->
  bmap_post s C ip bn k c r s'.
Proof using All.
  intros HC G W R Hi HA E0 Hr Hu I S. pose proof (nmeta_pos s G). pose proof (g_size _ G).
  pose proof (fgrows_entry s G C HC x W r Hr Hu (bn - NDIRECT) ltac:(file_lia) HA E0) as Ev.
  pose proof (room_entry k c s x bs r Hk G Hr HA R) as R'. fold A in R'. set (bs' := add_block A (log_alloc (fsb s) r bs)) in *.
  pose proof (write_room_pos (fsb s) x bs' (k - 1) ltac:(lia)).
  eexists _, _. rewrite (inode_at_same _ _ _ S). fold x. split; [exact I|]. split; [by apply same_but_same|]. split; [exact Ev|]. split.
  { intros k' Hk' Hs. rewrite fn_lookup_insert_ne; [apply (owned_keep s G C x W r Hr Hu); by apply owns_slot; [lia|]|].
    unfold A. rewrite <- (slot_ind C x). intros E. apply (iw_inj _ _ _ W) in E; [lia|file_lia|lia|]. by rewrite slot_ind. }
  split.
  { unfold faddr. fold A. rewrite (proj2 (Z.ltb_ge _ _) Hi), (proj2 (Z.eqb_neq _ _) HA), fn_lookup_insert.
    rewrite (get32_put32 BSIZE) by (done || file_lia). symmetry. apply u32_small. lia. }
  split; [eapply room_same; [done|]; eapply room_le; [done|lia]|]. split; [lia|]. intros _.
  rewrite decide_True by (apply elem_of_add; right; apply elem_of_log_alloc; by left).
  eapply room_same; [done|]. eapply room_le; [done|lia].
Qed.

(** The part of [bmap] after the indirect block was found. *)
Definition bmap_tail (addr j : Z) : M fsst Z :=
  do bp <- zbb (bread ROOTDEV addr);
  do d <- zbb (buf_data bp);
  do addr <- (if get32 d (4 * j) =? 0 then
                do addr <- balloc ROOTDEV;
                (if negb (addr =? 0) then zbb (buf_write bp (put32 (4 * j) addr)) ;;; zf (log_write bp) else return tt) ;;;
                return addr
              else return (get32 d (4 * j)));
  zbb (brelse bp) ;;;
  return addr.

Lemma wp_bmap_tail s C bs : let x := inode_at s ip in let A := addr_at x NDIRECT in
  tx s C ∅ bs -> geom s -> meta_used C (fsb s) -> inode_wf C (fsb s) x -> room s bs (write_room (fsb s) x bs k + c) ->
  NDIRECT <= bn -> A <> 0 -> wp (bmap_tail A (bn - NDIRECT)) (bmap_post s C ip bn k c) s.
Proof using All.
  intros x A I G MU W R Hi HA. pose proof (write_room_pos (fsb s) x bs k ltac:(lia)) as Hpos. set (j := bn - NDIRECT).
  assert (forall y, bytes_ok BSIZE (C y)) as HC by (intros y; by eapply tx_bytes).
  assert (forall C' x', addr_at x' NDIRECT = A -> faddr C' x' bn = get32 (C' A) (4 * j)) as Ef.
  { intros C' x' E. unfold faddr. rewrite (proj2 (Z.ltb_ge _ _) Hi), E, (proj2 (Z.eqb_neq _ _) HA). done. }
  destruct (iw_range _ _ _ W A (ind_owned C x HA)) as [HAr HAu].
  unfold bmap_tail. apply wp_bind. apply (wp_bread s C ∅ bs I _ 0); [apply not_elem_of_empty|by eapply room_0|by rewrite size_empty|].
  intros b s1 I1 S1 B1 _. apply wp_bind. eapply wp_data; [exact I1|exact B1|]. rewrite union_empty_r_L in I1.
  destruct (Z.eqb_spec (get32 (C A) (4 * j)) 0) as [E0|E0].
  2: { apply wp_bind, wp_ret. apply wp_bind. eapply wp_brelse; [exact I1|exact B1|set_solver|]. intros s2 I2 S2 _. rewrite difference_diag_L in I2.
       apply wp_ret. rewrite <- (Ef C x eq_refl) in *. apply (bmap_post_found s C bs); try done. by transitivity s1. }
  apply wp_bind, wp_bind. apply (wp_balloc s1 C {[A]} bs (write_room (fsb s) x bs k + c)); [lia|rewrite size_singleton; lia|by eapply geom_same|
    by rewrite (sm_sb _ _ S1)|rewrite (sm_sb _ _ S1); set_solver|by eapply room_same|done|]. unfold balloc_post. rewrite (sm_sb _ _ S1). split.
  - intros s2 I2 S2 K2 Hf. cbn [Z.eqb negb]. apply wp_bind, wp_ret, wp_ret. apply wp_bind.
    eapply wp_brelse; [exact I2|apply (K2 b A); [set_solver|exact B1]|set_solver|]. intros s3 I3 S3 _. rewrite difference_diag_L in I3.
    assert (same s s3) as S03 by (by do 2 (etransitivity; [done|])). apply wp_ret. exists C, bs. rewrite (inode_at_same _ _ _ S03). fold x.
    split; [done|]. split; [by apply same_but_same|]. split; [by apply fgrows_refl|]. split; [by intros ?|]. split; [by rewrite Ef|].
    split; [eapply room_same; [done|]; eapply room_le; [done|lia]|]. by split.
  - intros r s2 I2 S2 K2 Hr Hu _. pose proof (nmeta_pos s G). rewrite (proj2 (Z.eqb_neq r 0)) by lia. cbn [negb].
    assert (same s s2) as S02 by (by transitivity s1).
    destruct (owned_keep s G C x W r Hr Hu A (ind_owned C x HA)) as (EA & HAr' & HAb).
    pose proof (fgrows_entry s G C HC x W r Hr Hu j ltac:(unfold j; file_lia) HA E0) as Ev.
    pose proof (room_entry1 k c s x bs r Hk G Hr HA R) as R1.
    apply wp_bind, wp_unit_r. eapply wp_update; [exact I2|apply (K2 b A); [set_solver|exact B1]|set_solver| | | |].
    { eapply home_same; [exact S02|]. by apply data_home. }
    { eapply room_same; [exact S02|]. eapply room_le; [exact R1|]. pose proof (ind_room_pos x bs).
      pose proof (bm_room_pos (fsb s) (log_alloc (fsb s) r bs) (k - 1) ltac:(lia)). lia. }
    { rewrite EA. apply bytes_put32; [done|unfold j; file_lia..]. }
    rewrite EA. intros s3 I3 S3 K3. apply wp_ret, wp_ret. apply wp_bind. eapply wp_brelse; [exact I3|apply K3, (K2 b A); [set_solver|exact B1]|set_solver|].
    intros s4 I4 S4 _. rewrite difference_diag_L in I4. assert (same s s4) as S04 by (by do 2 (etransitivity; [done|])).
    apply wp_ret. by apply (bmap_post_entry s C bs).
Qed.

Lemma bmap_post_trans s C s1 C1 r s' : let x := inode_at s ip in let x1 := inode_at s1 ip in
  0 < nmeta (fsb s) -> same_but ip s s1 -> fgrows (fsb s) C x C1 x1 -> keeps C x C1 ->
  bmap_post s1 C1 ip bn k c r s' -> bmap_post s C ip bn k c r s'.
Proof using.
  intros x x1 Hm S E K (C' & bs' & I & S' & E' & K' & Hr & R0 & Hf & R1). rewrite (but_sb _ _ _ S) in *. exists C', bs'.
  split; [done|]. split; [by transitivity s1|]. split; [by eapply fgrows_trans|]. split; [|done].
  intros j Hj Hs. fold x in Hs |- *. rewrite <- (K j Hj Hs). rewrite <- (ev_keep _ _ _ _ _ E j ltac:(lia) Hs). apply K'; [done|].
  fold x1. by rewrite (ev_keep _ _ _ _ _ E j ltac:(lia) Hs).
Qed.

Lemma wp_bmap s C bs : let x := inode_at s ip in
  tx s C ∅ bs -> geom s -> meta_used C (fsb s) -> inode_wf C (fsb s) x -> room s bs (write_room (fsb s) x bs k + c) ->
  wp (bmap ip bn) (bmap_post s C ip bn k c) s.
Proof using All.
  intros x I G MU W R. pose proof (write_room_pos (fsb s) x bs k ltac:(lia)). destruct (Z.lt_ge_cases bn NDIRECT) as [Hd|Hi]; [by eapply wp_bmap_direct|].
  unfold bmap. apply wp_bind, wp_gets. fold x. rewrite (proj2 (Z.ltb_ge _ _) Hi), (iw_dev _ _ _ W).
  destruct (Z.ltb_spec (bn - NDIRECT) NINDIRECT); [|file_lia]. apply wp_bind. destruct (Z.eqb_spec (addr_at x NDIRECT) 0) as [E0|E0].
  2: { apply wp_ret. rewrite (proj2 (Z.eqb_neq _ _) E0). by eapply wp_bmap_tail. }
  apply (wp_alloc_addr ip s C bs NDIRECT _ _ I G MU R); [lia|..].
  - intros s' I' S Hf. cbn [Z.eqb]. apply wp_ret. exists C, bs. rewrite (inode_at_same _ _ _ S). fold x.
    split; [done|]. split; [by apply same_but_same|]. split; [by apply fgrows_refl|]. split; [by intros ?|].
    split; [unfold faddr; by rewrite (proj2 (Z.ltb_ge _ _) Hi), E0|]. split; [eapply room_same; [done|]; eapply room_le; [done|lia]|]. by split.
  - intros r s1 I1 S1 Ex Hr Hu. pose proof (nmeta_pos s G). rewrite (proj2 (Z.eqb_neq r 0)) by lia.
    assert (forall y, bytes_ok BSIZE (C y)) as HC by (intros y; by eapply tx_bytes). pose proof (fgrows_ind s G C HC x W r Hr Hu E0) as Ev.
    assert (addr_at (set_iaddr NDIRECT r x) NDIRECT = r) as Er by (rewrite addr_at_set by (apply W || file_lia); by rewrite decide_True).
    eapply wp_mono; [intros a s'; apply (bmap_post_trans s C s1 (alloc_blocks (fsb s) r C)); [lia|done|by rewrite Ex|]|].
    { intros j Hj Hs. apply (owned_keep s G C x W r Hr Hu). by apply owns_slot; [lia|]. }
    pose proof (wp_bmap_tail s1 (alloc_blocks (fsb s) r C) (log_alloc (fsb s) r bs)) as T. cbv zeta in T.
    rewrite Ex, (but_sb _ _ _ S1) in T. fold x in T. rewrite Er in T. apply T; [exact I1|by eapply but_geom| |apply Ev| |done|lia].
    + by eapply meta_evolves.
    + eapply but_room; [done|]. unfold write_room in *. rewrite E0, Er, (proj2 (Z.eqb_neq r 0)) in * by lia. rewrite Z.add_0_r.
      replace (ind_room (set_iaddr NDIRECT r x) (log_alloc (fsb s) r bs)) with 0
        by (unfold ind_room; rewrite decide_True; [done|]; rewrite Er; split; [lia|]; apply elem_of_log_alloc; by left).
      replace (ind_room x bs) with 1 in R by (unfold ind_room; rewrite decide_False; [done|]; by intros [? _]).
      eapply room_le; [apply (room_alloc s r bs k (k + c)); [done|lia|lia|]|lia]. eapply room_le; [exact R|]. cbn [Z.eqb]. lia.
Qed.
End bmap.
