(* ===== verification/FsWrite.v ===== *)
(** * Writing a file: [iupdate] and [writei] of [kernel/fs.c]

    [writei] changes the bytes of the file and its size, in the inode in memory and
    in the one on the disk, and nothing of another file. *)

From stdpp Require Import base gmap strings fin_sets functions list.
From S2P Require Import Prelude Riscv Mem Spinlock Kalloc Vm Sleeplock ProcData Bytes Bio BioSpec Log LogSpec VmUser VmCopy Fs FsTx FsAlloc FsFile FsGrow.

(** ** The inode on the disk *)

Definition short (v : Z) : Prop := - 2 ^ 15 <= v < 2 ^ 15.
(** The fields that [struct dinode] has fit their types. *)
Record inode_typed (x : inode) : Prop := {
  it_type : short (i_type x); it_major : short (i_major x); it_minor : short (i_minor x); it_nlink : short (i_nlink x);
  it_size : 0 <= i_size x < 2 ^ 32; it_len : length (i_addrs x) = 13%nat; it_addrs : Forall (fun a => 0 <= a < 2 ^ 32) (i_addrs x)
}.

Lemma s16_u16 v : short v -> s16 (u16 v) = v.
Proof.
  unfold short, s16, u16. intros Hv. rewrite Zplus_mod_idemp_l. rewrite Z.mod_small by lia. lia.
Qed.

Lemma length_addr_bytes a : length (concat (le_bytes 4 <$> a)) = (4 * length a)%nat.
Proof. induction a as [|v a IH]; [done|]. cbn [fmap list_fmap concat]. rewrite length_app, IH, le_bytes_length. cbn [length]. lia. Qed.

Lemma get32_addrs n off a d i v : bytes_ok n d -> 0 <= off -> off + 4 * Z.of_nat (length a) <= n -> a !! i = Some v ->
  get32 (put_addrs off a d) (off + 4 * Z.of_nat i) = u32 v.
Proof.
  intros [Hl _] H0 Hn Hi. unfold get32, put_addrs. apply list_elem_of_split_length in Hi as (a1 & a2 & -> & ->).
  rewrite fmap_app, concat_app. cbn [fmap list_fmap concat]. 
  replace (take 4 _) with (le_bytes 4 v); [by rewrite le_value_bytes|]. apply list_eq. intros k.
  destruct (decide (k < 4)%nat) as [Hk|Hk].
  - rewrite lookup_take_lt, lookup_drop by done. rewrite lookup_splice_in.
    + rewrite lookup_app_r by (rewrite length_addr_bytes; lia). rewrite lookup_app_l by (rewrite le_bytes_length, length_addr_bytes; lia).
      f_equal. rewrite length_addr_bytes. lia.
    + rewrite !length_app, le_bytes_length, !length_addr_bytes. rewrite length_app in Hn. cbn [length] in Hn. lia.
    + rewrite !length_app, le_bytes_length, !length_addr_bytes. lia.
  - rewrite lookup_take_ge by lia. apply lookup_ge_None. rewrite le_bytes_length. lia.
Qed.

Lemma bytes_put_addrs n off a d : bytes_ok n d -> 0 <= off -> off + 4 * Z.of_nat (length a) <= n -> bytes_ok n (put_addrs off a d).
Proof.
  intros. apply bytes_splice; [done| |done|rewrite length_addr_bytes; lia].
  clear. induction a as [|v a IH]; [constructor|]. cbn [fmap list_fmap concat]. apply Forall_app. split; [apply le_bytes_are_bytes|done].
Qed.
Lemma get16_put16_other n off v d off' : bytes_ok n d -> 0 <= off -> off + 2 <= n -> 0 <= off' -> off' + 2 <= off \/ off + 2 <= off' ->
  get16 (put16 off v d) off' = get16 d off'.
Proof. intros. by apply (get16_splice_other n). Qed.
Lemma get16_put32_other n off v d off' : bytes_ok n d -> 0 <= off -> off + 4 <= n -> 0 <= off' -> off' + 2 <= off \/ off + 4 <= off' ->
  get16 (put32 off v d) off' = get16 d off'.
Proof. intros. by apply (get16_splice_other n). Qed.
Lemma get32_put16_other n off v d off' : bytes_ok n d -> 0 <= off -> off + 2 <= n -> 0 <= off' -> off' + 4 <= off \/ off + 2 <= off' ->
  get32 (put16 off v d) off' = get32 d off'.
Proof. intros. by apply (get32_splice_other n). Qed.
Lemma get16_addrs_other n off a d off' : bytes_ok n d -> 0 <= off -> off + 4 * Z.of_nat (length a) <= n -> 0 <= off' ->
  off' + 2 <= off \/ off + 4 * Z.of_nat (length a) <= off' -> get16 (put_addrs off a d) off' = get16 d off'.
Proof. intros. apply (get16_splice_other n); rewrite ?length_addr_bytes; done || lia. Qed.
Lemma get32_addrs_other n off a d off' : bytes_ok n d -> 0 <= off -> off + 4 * Z.of_nat (length a) <= n -> 0 <= off' ->
  off' + 4 <= off \/ off + 4 * Z.of_nat (length a) <= off' -> get32 (put_addrs off a d) off' = get32 d off'.
Proof. intros. apply (get32_splice_other n); rewrite ?length_addr_bytes; done || lia. Qed.

Section dinode.
Context (off : Z) (x : inode) (d : list Z) (Hd : bytes_ok BSIZE d) (Hoff : 0 <= off) (Hend : off + 64 <= BSIZE) (Hlen : length (i_addrs x) = 13%nat).

(** Discharge the side conditions of a store to the dinode. *)
Ltac din := repeat (apply bytes_put16 || apply bytes_put32 || apply bytes_put_addrs || exact Hd || lia).

Lemma bytes_store : bytes_ok BSIZE (store_dinode off x d).
Proof using Hd Hoff Hend Hlen. unfold store_dinode. din. Qed.

(** Fields outside the dinode are as before. *)
Lemma store_other16 o : 0 <= o -> o + 2 <= off \/ off + 64 <= o -> get16 (store_dinode off x d) o = get16 d o.
Proof using Hd Hoff Hend Hlen.
  intros H0 Ho. unfold store_dinode. rewrite (get16_addrs_other BSIZE) by din. rewrite (get16_put32_other BSIZE) by din.
  rewrite !(get16_put16_other BSIZE) by din. done.
Qed.
Lemma store_other32 o : 0 <= o -> o + 4 <= off \/ off + 64 <= o -> get32 (store_dinode off x d) o = get32 d o.
Proof using Hd Hoff Hend Hlen.
  intros H0 Ho. unfold store_dinode. rewrite (get32_addrs_other BSIZE) by din. rewrite (get32_put32_other BSIZE) by din.
  rewrite !(get32_put16_other BSIZE) by din. done.
Qed.
Lemma load_store_other off' y : 0 <= off' -> off' + 64 <= off \/ off + 64 <= off' ->
  load_dinode (store_dinode off x d) off' y = load_dinode d off' y.
Proof using Hd Hoff Hend Hlen.
  intros H0 Ho. unfold load_dinode, dinode_addrs. rewrite !store_other16, store_other32 by lia. f_equal.
  apply list_fmap_ext. intros i k Hk%lookup_seq. apply store_other32; lia.
Qed.

Lemma load_store : inode_typed x -> load_dinode (store_dinode off x d) off x = x.
Proof using Hd Hoff Hend Hlen.
  intros T. unfold load_dinode, store_dinode, dinode_addrs.
  rewrite !(get16_addrs_other BSIZE) by din. rewrite !(get16_put32_other BSIZE) by din.
  rewrite (get32_addrs_other BSIZE) by din. rewrite (get32_put32 BSIZE) by din.
  do 4 (rewrite ?(get16_put16 BSIZE) by din; rewrite ?(get16_put16_other BSIZE) by din).
  rewrite !s16_u16 by apply T. rewrite u32_small by apply T. set (d' := put32 _ _ _). assert (bytes_ok BSIZE d') as Hd' by (unfold d'; din).
  replace (_ <$> seq 0 13) with (i_addrs x); [by destruct x|]. apply list_eq. intros i. rewrite list_lookup_fmap.
  destruct (i_addrs x !! i) as [v|] eqn:Ei.
  - pose proof (lookup_lt_Some _ _ _ Ei). rewrite lookup_seq_lt by lia. cbn [fmap option_fmap option_map plus].
    rewrite (get32_addrs BSIZE _ _ _ _ v) by (done || lia). rewrite u32_small; [done|]. by eapply Forall_lookup_1 in Ei; [|apply T].
  - apply lookup_ge_None in Ei. rewrite lookup_ge_None_2 by (rewrite length_seq; lia). done.
Qed.
End dinode.

(** ** Writing into blocks of the file *)

(** A write to one block of the file keeps the others where they are. *)
Lemma slot_write C x k d j : slots_inj C x -> 0 <= k < MAXFILE -> slot C x k <> 0 -> 0 <= j <= MAXFILE ->
  slot (<[slot C x k := d]> C) x j = slot C x j.
Proof.
  intros W Hk Hs Hj. apply slots_alike; [done| |done]. intros HA. rewrite fn_lookup_insert_ne; [done|].
  rewrite <- (slot_ind C x). intros E. apply W in E; [lia|lia|file_lia|done].
Qed.

Lemma fgrows_data s C x k d : geom s -> inode_wf C (fsb s) x -> 0 <= k < MAXFILE -> slot C x k <> 0 ->
  fgrows (fsb s) C x (<[slot C x k := d]> C) x.
Proof.
  intros G W Hk Hs. set (y := slot C x k) in *. pose proof (nmeta_pos s G). destruct (iw_range _ _ _ W y (owns_slot C x k ltac:(lia) Hs)) as [Hy _].
  assert (forall j, 0 <= j <= MAXFILE -> slot (<[y := d]> C) x j = slot C x j) as Hsl by (intros j Hj; apply slot_write; [apply W|done..]).
  assert (forall y', owns (<[y := d]> C) x y' <-> owns C x y') as Hown.
  { intros y'. split; intros [Hn (j & Hj & E)]; (split; [done|]); exists j; (split; [done|]); [by rewrite <- Hsl|by rewrite Hsl]. }
  assert (forall b, 0 <= b < sb_size (fsb s) -> used (<[y := d]> C) (fsb s) b = used C (fsb s) b) as Hu by (intros b Hb; apply (used_data s G); lia).
  split; [split; [apply W|apply W| |]|by destruct x|intros j Hj _; by apply Hsl| | |].
  - intros y' Ho%Hown. destruct (iw_range _ _ _ W y' Ho) as [? ?]. split; [done|]. by rewrite Hu by lia.
  - intros j j' Hj Hj'. rewrite !Hsl by done. by apply (iw_inj _ _ _ W).
  - intros j Hj E. by rewrite Hsl.
  - intros b Hb. rewrite Hown, Hu by done. split; [by left|]. intros [?|Ho]; [done|]. by apply (iw_range _ _ _ W).
  - intros y' _ Ho. apply fn_lookup_insert_ne. intros <-. apply Ho, Hown, owns_slot; [lia|done].
Qed.

(** The bytes [bs] were written at [off]; the other bytes are as before. *)
Definition written (C : Z -> list Z) (x : inode) (C' : Z -> list Z) (x' : inode) (off : Z) (bs : list Z) : Prop :=
  forall o, 0 <= o < MAXFILE * BSIZE -> faddr C x (o / BSIZE) <> 0 \/ off <= o < off + Z.of_nat (length bs) ->
    faddr C' x' (o / BSIZE) <> 0 /\
    fbyte C' x' o = if decide (off <= o < off + Z.of_nat (length bs)) then nth (Z.to_nat (o - off)) bs 0 else fbyte C x o.

Lemma off_block o : 0 <= o < MAXFILE * BSIZE -> 0 <= o / BSIZE < MAXFILE.
Proof. intros Ho. split; [apply Z.div_pos; [lia|done]|]. apply Z.div_lt_upper_bound; [done|lia]. Qed.

Lemma written_keep C x C' x' off :
  (forall k, 0 <= k < MAXFILE -> slot C x k <> 0 -> slot C' x' k = slot C x k /\ C' (slot C x k) = C (slot C x k)) -> written C x C' x' off [].
Proof.
  intros K o Ho Hf. cbn [length] in *. rewrite decide_False by lia. pose proof (off_block o Ho) as Hb.
  rewrite <- !slot_data in * by done. destruct Hf as [Hf|]; [|lia]. destruct (K _ Hb Hf) as [Hs Hd]. split; [congruence|].
  unfold fbyte. rewrite <- !slot_data, Hs by done. by rewrite Hd.
Qed.
Lemma written_none sb C x C' x' off : fgrows sb C x C' x' -> keeps C x C' -> written C x C' x' off [].
Proof. intros E K. apply written_keep. intros k Hk Hs. split; [apply (ev_keep _ _ _ _ _ E); [lia|done]|by apply K]. Qed.
Lemma written_app C x C1 x1 C2 x2 off bs1 bs2 :
  written C x C1 x1 off bs1 -> written C1 x1 C2 x2 (off + Z.of_nat (length bs1)) bs2 -> written C x C2 x2 off (bs1 ++ bs2).
Proof.
  intros H1 H2 o Ho Hf. rewrite length_app in *. specialize (H1 o Ho). specialize (H2 o Ho).
  destruct (decide (off <= o < off + Z.of_nat (length bs1))) as [Ha|Ha].
  - destruct (H1 (or_intror Ha)) as [F1 B1]. destruct (H2 (or_introl F1)) as [F2 B2]. split; [done|]. rewrite B2, decide_False by lia.
    rewrite decide_True by lia. rewrite B1, app_nth1 by lia. done.
  - destruct (decide (off + Z.of_nat (length bs1) <= o < off + Z.of_nat (length bs1) + Z.of_nat (length bs2))) as [Hb|Hb].
    + destruct (H2 (or_intror Hb)) as [F2 B2]. split; [done|]. rewrite B2, decide_True by lia. rewrite app_nth2 by lia. f_equal. lia.
    + destruct Hf as [Hf|]; [|lia]. destruct (H1 (or_introl Hf)) as [F1 B1]. destruct (H2 (or_introl F1)) as [F2 B2].
      split; [done|]. rewrite B2, B1. by rewrite decide_False by lia.
Qed.

Lemma written_block C x off bs : slots_inj C x -> (forall y, bytes_ok BSIZE (C y)) ->
  0 <= off < MAXFILE * BSIZE -> Z.of_nat (length bs) <= BSIZE - off mod BSIZE -> faddr C x (off / BSIZE) <> 0 ->
  let a := faddr C x (off / BSIZE) in written C x (<[a := splice (Z.to_nat (off mod BSIZE)) bs (C a)]> C) x off bs.
Proof.
  intros W HC Ho Hl Ha a o Ho' Hf. pose proof (off_block _ Ho) as Hb. pose proof (off_block _ Ho') as Hb'.
  set (C' := <[a := _]> C) in *. pose proof (Z.mod_pos_bound off BSIZE ltac:(done)) as Hm. pose proof (Z.mod_pos_bound o BSIZE ltac:(done)) as Hm'.
  assert (off <= o < off + Z.of_nat (length bs) -> o / BSIZE = off / BSIZE /\ o mod BSIZE = off mod BSIZE + (o - off)) as Hin.
  { intros Hin. destruct (block_of off (o - off) ltac:(lia)) as [E1 E2]. by replace (off + (o - off)) with o in * by lia. }
  assert (faddr C x (o / BSIZE) <> 0) as Hfo. { destruct Hf as [|Hf]; [done|]. by rewrite (proj1 (Hin Hf)). }
  assert (faddr C' x (o / BSIZE) = faddr C x (o / BSIZE)) as Ef.
  { unfold C', a. rewrite <- !slot_data in * by done. by apply slot_write; [..|lia]. }
  split; [by rewrite Ef|]. unfold fbyte. rewrite Ef. destruct (HC a) as [Hla _]. case_decide as Hi.
  - destruct (Hin Hi) as [E1 E2]. rewrite E1. fold a. unfold C'. rewrite fn_lookup_insert. rewrite !nth_lookup, lookup_splice_in by (unfold BSIZE in *; lia).
    do 2 f_equal. lia.
  - destruct (decide (faddr C x (o / BSIZE) = a)) as [Eb|Eb]; [|unfold C'; by rewrite fn_lookup_insert_ne].
    rewrite Eb. unfold C'. rewrite fn_lookup_insert. rewrite !nth_lookup, lookup_splice_out; [done|unfold BSIZE in *; lia|].
    assert (o / BSIZE = off / BSIZE) as E1. { apply W; rewrite ?slot_data by done; [lia|lia|done|done]. }
    pose proof (Z.div_mod o BSIZE ltac:(done)). pose proof (Z.div_mod off BSIZE ltac:(done)). lia.
Qed.

(** ** [writei] *)

Section writei.
Context `{Layout}.

(** [either_copyin] delivers [data] from [from] on, a part at a time. *)
Definition src_gives (s : fsst) (from : src) (data : list Z) : Prop :=
  src_add from 0 = from /\
  forall a m, 0 <= a -> 0 <= m -> a + m <= Z.of_nat (length data) ->
    either_copyin (src_add from a) m s = Ok (0, take (Z.to_nat m) (drop (Z.to_nat a) data)) s.

Lemma src_gives_var s data : src_gives s (FromVar data) data.
Proof. split; [done|]. intros a m Ha Hm Hl. done. Qed.

(** Readable user memory is such a source. *)
Lemma read_part f va n data a m : VmCopy.read_bytes f va n = Some data -> (a + m <= n)%nat ->
  VmCopy.read_bytes f (va + Z.of_nat a) m = Some (take m (drop a data)).
Proof.
  intros Hr Hl. replace n with (a + (m + (n - a - m)))%nat in Hr by lia. rewrite !read_bytes_app in Hr.
  assert (forall va n bs, VmCopy.read_bytes f va n = Some bs -> length bs = n) as Hlen.
  { intros va' n'. revert va'. induction n' as [|n' IH]; intros va' bs; cbn [VmCopy.read_bytes]; [by intros [= <-]|].
    destruct (f va'); [|done]. cbn. destruct (VmCopy.read_bytes f (va' + 1) n') as [cs|] eqn:E; [|done]. cbn. intros [= <-]. cbn. f_equal. by eapply IH. }
  destruct (VmCopy.read_bytes f va a) as [b1|] eqn:E1; [|done]. cbn in Hr.
  destruct (VmCopy.read_bytes f (va + Z.of_nat a) m) as [b2|] eqn:E2; [|done]. cbn in Hr.
  destruct (VmCopy.read_bytes f (va + Z.of_nat a + Z.of_nat m) (n - a - m)) as [b3|]; [|done]. cbn in Hr. injection Hr as <-.
  apply Hlen in E1, E2. rewrite drop_app_length' by done. by rewrite take_app_length' by done.
Qed.
Lemma src_gives_user s T l P va data (root := p_pagetable (myproc s)) : uspace (fk s) T l root P -> 0 <= va ->
  va + Z.of_nat (length data) < 2 ^ 64 -> VmCopy.read_bytes (user_byte (fk s) root) va (length data) = Some data -> src_gives s (FromUser va) data.
Proof.
  intros U Hva Hmax Hr. split; [cbn [src_add]; f_equal; rewrite Z.add_0_r; apply u64_small; lia|]. intros a m Ha Hm Hl.
  unfold either_copyin. rewrite bind_gets. cbn [src_add]. rewrite u64_small by lia.
  assert (copyin root (va + a) m (fk s) = Ok (0, take (Z.to_nat m) (drop (Z.to_nat a) data)) (fk s)) as Hc.
  { pose proof (copyin_run (Z.to_nat m) (fk s) T l root P (va + a) m U ltac:(lia) ltac:(lia)) as Hrun.
    pose proof (read_part _ _ _ _ (Z.to_nat a) (Z.to_nat m) Hr ltac:(lia)) as Hp. rewrite Z2Nat.id in Hp by lia. by rewrite Hp in Hrun. }
  unfold zk, zoom. fold root. rewrite Hc. by destruct s.
Qed.

Lemma src_add_add from a b : 0 <= a -> 0 <= b -> src_add (src_add from a) b = src_add from (a + b).
Proof.
  intros Ha Hb. destruct from as [va|bs]; cbn [src_add]; f_equal.
  - unfold u64. rewrite Zplus_mod_idemp_l. f_equal. lia.
  - rewrite drop_drop. f_equal. lia.
Qed.

Lemma either_copyin_same from m r s s' : fk s' = fk s -> fp s' = fp s -> either_copyin from m s = Ok r s -> either_copyin from m s' = Ok r s'.
Proof.
  intros Ek Ep. unfold either_copyin, myproc, bind, gets. rewrite Ep. destruct from as [va|bs]; [|by intros [= <-]].
  unfold zk, zoom. rewrite Ek. destruct (copyin _ va m (fk s)) as [a k'| | |]; [|done..]. intros [= <- Es]. f_equal.
  destruct s', s. cbn in *. unfold set_fk in *. cbn in *. injection Es as ->. congruence.
Qed.
Lemma src_gives_same s s' from data : fk s' = fk s -> fp s' = fp s -> src_gives s from data -> src_gives s' from data.
Proof. intros Ek Ep [H0 Hg]. split; [done|]. intros a m Ha Hm Hl. eapply either_copyin_same; [done|done|]. by apply Hg. Qed.
Lemma src_gives_add s from data a : 0 <= a <= Z.of_nat (length data) -> src_gives s from data -> src_gives s (src_add from a) (drop (Z.to_nat a) data).
Proof.
  intros Ha [H0 Hg]. split; [rewrite src_add_add by lia; f_equal; lia|]. intros b m Hb Hm Hl. rewrite length_drop in Hl.
  rewrite src_add_add by lia. rewrite Hg by lia. rewrite drop_drop. do 4 f_equal. lia.
Qed.

(** The blocks that [n] bytes from [off] on touch. *)
Definition nblocks (off n : Z) : Z := if 0 <? n then touched off n else 0.

Lemma nblocks_pos off n : 0 <= nblocks off n.
Proof.
  unfold nblocks, touched. destruct (Z.ltb_spec 0 n); [|done]. pose proof (Z.div_le_mono off (off + n - 1) BSIZE ltac:(done) ltac:(lia)). lia.
Qed.
Lemma nblocks_step off n m : 0 <= off -> 0 < n -> m = Z.min n (BSIZE - off mod BSIZE) -> 1 <= nblocks off n /\ nblocks (off + m) (n - m) <= nblocks off n - 1.
Proof.
  intros Ho Hn ->. pose proof (Z.div_mod off BSIZE ltac:(done)) as Hd. pose proof (Z.mod_pos_bound off BSIZE ltac:(done)) as Hm. unfold nblocks.
  rewrite (proj2 (Z.ltb_lt 0 n)) by done. unfold touched. pose proof (Z.div_le_mono off (off + n - 1) BSIZE ltac:(done) ltac:(lia)).
  split; [lia|]. destruct (Z.ltb_spec 0 (n - Z.min n (BSIZE - off mod BSIZE))); [|lia].
  replace (Z.min n (BSIZE - off mod BSIZE)) with (BSIZE - off mod BSIZE) in * by lia.
  replace (off + (BSIZE - off mod BSIZE) + (n - (BSIZE - off mod BSIZE)) - 1) with (off + n - 1) by lia.
  replace ((off + (BSIZE - off mod BSIZE)) / BSIZE) with (off / BSIZE + 1); [lia|]. apply (Z.div_unique_pos _ _ _ 0); [done|lia].
Qed.

Lemma write_room_add sb x y bs j : write_room sb x (add_block y bs) j <= write_room sb x bs j.
Proof. unfold write_room. pose proof (ind_room_add x y bs). pose proof (bm_room_add sb y bs (j + if addr_at x NDIRECT =? 0 then 1 else 0)). lia. Qed.
Lemma write_room_mono sb x bs j j' : j <= j' -> write_room sb x bs j <= write_room sb x bs j'.
Proof. intros. unfold write_room, bm_room. repeat case_decide; lia. Qed.

(** What the loop leaves when it wrote the bytes [bs]; it stops early only on a full disk,
    at the end of a block. *)
Definition loop_post (s : fsst) (C : Z -> list Z) (ip off tot n : Z) (data : list Z) (c : Z) (r : Z * Z) (s' : fsst) : Prop :=
  exists C' bs', tot <= r.1 <= n /\ r.2 = off + (r.1 - tot) /\ tx s' C' ∅ bs' /\ same_but ip s s' /\
    fgrows (fsb s) C (inode_at s ip) C' (inode_at s' ip) /\
    written C (inode_at s ip) C' (inode_at s' ip) off (take (Z.to_nat (r.1 - tot)) data) /\
    room s' bs' c /\ (r.1 < n -> full C' (fsb s) /\ (r.1 = tot \/ r.2 mod BSIZE = 0)).

(** One turn of the loop, once [bmap] has given the block. *)
Lemma wp_write_block s C bs ip off m from data j c (K : M fsst (Z * Z)) T (Q : Z * Z -> fsst -> Prop) :
  let x := inode_at s ip in let a := faddr C x (off / BSIZE) in
  tx s C ∅ bs -> geom s -> inode_wf C (fsb s) x -> src_gives s from data -> Forall is_byte data ->
  0 <= off < MAXFILE * BSIZE -> 0 <= m <= BSIZE - off mod BSIZE -> m <= Z.of_nat (length data) -> a <> 0 -> 0 <= j -> 1 <= c ->
  room s bs (write_room (fsb s) x bs j + (if decide (a ∈ bs) then 0 else 1) + c) ->
  (forall s', tx s' (<[a := splice (Z.to_nat (off mod BSIZE)) (take (Z.to_nat m) data) (C a)]> C) ∅ (add_block a bs) -> same s s' ->
     room s' (add_block a bs) (write_room (fsb s) x (add_block a bs) j + c) -> wp K Q s') ->
  wp (do x <- get_inode ip;
      do bp <- zbb (bread (i_dev x) a);
      do '(r, bs) <- either_copyin from m;
      zbb (buf_write bp (splice (Z.to_nat (off mod BSIZE)) bs)) ;;;
      if r =? -1 then zbb (brelse bp) ;;; return T else zf (log_write bp) ;;; zbb (brelse bp) ;;; K) Q s.
Proof.
  intros x a I G W [H0 Hg] Hd Ho Hm Hmd Ha Hj Hc R HQ. pose proof (write_room_pos (fsb s) x bs j Hj). pose proof (off_block off Ho) as Hb.
  pose proof (Z.mod_pos_bound off BSIZE ltac:(done)) as Hmb.
  destruct (iw_range _ _ _ W a) as [Har _]; [unfold a; rewrite <- slot_data by done; apply owns_slot; [lia|by rewrite slot_data]|].
  apply wp_bind, wp_gets. fold x. rewrite (iw_dev _ _ _ W). apply wp_bind.
  apply (wp_bread s C ∅ bs I _ 0); [apply not_elem_of_empty|by eapply room_0|by rewrite size_empty|].
  intros b s1 I1 S1 B1 _. rewrite union_empty_r_L in I1. apply wp_bind.
  assert (either_copyin from m s1 = Ok (0, take (Z.to_nat m) data) s1) as Hcp.
  { eapply either_copyin_same; [apply S1|apply S1|]. rewrite <- H0. rewrite Hg by lia. done. }
  eapply wp_run; [exact Hcp|]. change (0 =? -1) with false. cbv iota.
  eapply wp_update; [exact I1|exact B1|set_solver| | | |].
  { eapply home_same; [exact S1|]. by apply data_home. }
  { eapply room_same; [exact S1|]. eapply room_le; [exact R|]. case_decide; lia. }
  { apply bytes_splice; [by eapply tx_bytes|by apply Forall_take|lia|]. rewrite length_take. lia. }
  intros s2 I2 S2 K2. apply wp_bind. eapply wp_brelse; [exact I2|by apply K2|set_solver|]. intros s3 I3 S3 _. rewrite difference_diag_L in I3.
  assert (same s s3) as S03 by (by do 2 (etransitivity; [done|])). apply HQ; [done|done|]. eapply room_same; [done|].
  pose proof (write_room_add (fsb s) x a bs j). case_decide as Hin.
  - rewrite (add_block_in _ _ Hin) in *. eapply room_le; [exact R|lia].
  - eapply room_le; [apply room_add, R|lia].
Qed.

Lemma loop_post_stop s C ip off tot n data c s1 C1 bs1 : tot <= n ->
  tx s1 C1 ∅ bs1 -> same_but ip s s1 -> fgrows (fsb s) C (inode_at s ip) C1 (inode_at s1 ip) -> keeps C (inode_at s ip) C1 ->
  room s1 bs1 c -> (tot < n -> full C1 (fsb s)) -> loop_post s C ip off tot n data c (tot, off) s1.
Proof.
  intros Hn I S E K R Hf. exists C1, bs1. cbn [fst snd]. rewrite Z.sub_diag. cbn [take Z.to_nat].
  split; [lia|]. split; [lia|]. do 3 (split; [done|]). split; [by eapply written_none|]. split; [done|]. intros Hlt. split; [by apply Hf|by left].
Qed.

(** A turn of the loop, then the rest. *)
Lemma loop_post_more s C ip off tot n data c s1 C1 m r s' : let a := faddr C1 (inode_at s1 ip) (off / BSIZE) in
  geom s -> same_but ip s s1 -> fgrows (fsb s) C (inode_at s ip) C1 (inode_at s1 ip) -> keeps C (inode_at s ip) C1 -> (forall y, bytes_ok BSIZE (C1 y)) ->
  0 <= off < MAXFILE * BSIZE -> m = Z.min (n - tot) (BSIZE - off mod BSIZE) -> 0 <= m <= Z.of_nat (length data) -> a <> 0 ->
  forall s2, same s1 s2 ->
  loop_post s2 (<[a := splice (Z.to_nat (off mod BSIZE)) (take (Z.to_nat m) data) (C1 a)]> C1) ip (off + m) (tot + m) n (drop (Z.to_nat m) data) c r s' ->
  loop_post s C ip off tot n data c r s'.
Proof.
  intros a G S1 E1 K1 HC Ho Hm Hmd Ha s2 S2 (C' & bs' & Hr & Hoff & I & S' & E' & Wr & R & Hf). set (w := take (Z.to_nat m) data) in *.
  assert (length w = Z.to_nat m) as Lw by (unfold w; rewrite length_take; lia). pose proof (off_block off Ho) as Hb.
  rewrite (inode_at_same _ _ _ S2), (sm_sb _ _ S2), (but_sb _ _ _ S1) in *. pose proof (nmeta_pos s G) as [_ Hmeta].
  assert (geom s1) as G1 by (by eapply but_geom). pose proof (ev_wf _ _ _ _ _ E1) as W1.
  pose proof (fgrows_data s1 C1 (inode_at s1 ip) (off / BSIZE) (splice (Z.to_nat (off mod BSIZE)) w (C1 a)) G1) as E2.
  rewrite (but_sb _ _ _ S1), (slot_data _ _ _ Hb) in E2. specialize (E2 W1 Hb Ha).
  exists C', bs'. split; [lia|]. split; [lia|]. split; [done|]. split; [etransitivity; [done|]; etransitivity; [by apply same_but_same|done]|].
  split; [by do 2 (eapply fgrows_trans; [done|done|])|]. pose proof (Z.mod_pos_bound off BSIZE ltac:(done)).
  split; [|split; [done|]; intros Hlt; destruct (Hf Hlt) as [? [Et|?]]; (split; [done|right]); [|done];
    rewrite Hoff, Et, Hm, Z.min_r, Z.sub_diag, Z.add_0_r by lia; rewrite (Z.div_mod off BSIZE) at 1 by done;
    replace (BSIZE * (off / BSIZE) + off mod BSIZE + (BSIZE - off mod BSIZE)) with ((off / BSIZE + 1) * BSIZE) by lia; by apply Z_mod_mult].
  replace (take (Z.to_nat (r.1 - tot)) data) with ([] ++ w ++ take (Z.to_nat (r.1 - (tot + m))) (drop (Z.to_nat m) data)).
  - eapply written_app; [by eapply written_none|]. cbn [length]. rewrite Z.add_0_r. eapply written_app.
    + apply written_block; [apply W1|done|done|rewrite Lw; lia|done].
    + rewrite Lw. by replace (Z.of_nat (Z.to_nat m)) with m by lia.
  - unfold w. rewrite app_nil_l, take_take_drop. f_equal. lia.
Qed.

Lemma wp_writei_loop ip fuel s C bs from data off n tot c :
  let x := inode_at s ip in
  tx s C ∅ bs -> geom s -> meta_used C (fsb s) -> inode_wf C (fsb s) x -> src_gives s from data -> Forall is_byte data ->
  Z.of_nat (length data) = n - tot -> 0 <= off -> off + (n - tot) <= MAXFILE * BSIZE -> nblocks off (n - tot) <= Z.of_nat fuel -> 1 <= c ->
  room s bs (write_room (fsb s) x bs (nblocks off (n - tot)) + c) ->
  wp (writei_loop fuel ip from off n tot) (loop_post s C ip off tot n data c) s.
Proof.
  revert s C bs from data off tot. induction fuel as [|f IH]; intros s C bs from data off tot x I G MU W Hg Hd Hl Ho Hmax Hf Hc R; cbn [writei_loop];
    (destruct (Z.ltb_spec tot n) as [Hlt|Hge]; [destruct (nblocks_step off (n - tot) _ Ho ltac:(lia) eq_refl) as [Hk Hk'];
      set (m := Z.min (n - tot) (BSIZE - off mod BSIZE)) in *; pose proof (Z.mod_pos_bound off BSIZE ltac:(done))|]).
  1: lia.
  1, 3: apply wp_ret, (loop_post_stop s C ip off tot n data c s C bs); [lia|exact I|by apply same_but_same|by apply fgrows_refl|by intros ?| |lia];
    eapply room_le; [exact R|]; pose proof (nblocks_pos off (n - tot)); pose proof (write_room_pos (fsb s) x bs (nblocks off (n - tot))); lia.
  apply wp_bind. eapply wp_mono; [|apply (wp_bmap ip (off / BSIZE) (nblocks off (n - tot)) c) with (C := C) (bs := bs); try done; apply off_block; lia].
  intros a s1 (C1 & bs1 & I1 & S1 & E1 & K1 & -> & R0 & Hfull & R1).
  destruct (Z.eqb_spec (faddr C1 (inode_at s1 ip) (off / BSIZE)) 0) as [Ea|Ea].
  { apply wp_ret, (loop_post_stop s C ip off tot n data c s1 C1 bs1); try done; [lia|]. intros _. by apply Hfull. }
  assert (geom s1) as G1 by (by eapply but_geom). pose proof (but_sb _ _ _ S1) as Esb.
  eapply wp_write_block; [exact I1|done|rewrite Esb; apply E1|eapply src_gives_same; [apply S1|apply S1|exact Hg]|done|lia|unfold m; lia|lia|done| |exact Hc|rewrite Esb; by apply R1|]; [lia|].
  intros s2 I2 S2 R2. pose proof (sm_sb _ _ S2) as Esb2. eapply wp_mono.
  { intros r s'. apply (loop_post_more s C ip off tot n data c s1 C1 m r s' G S1 E1 K1); [intros y; by eapply tx_bytes|lia|done|lia|exact Ea|exact S2]. }
  pose proof (off_block off ltac:(lia)) as Hb. pose proof (fgrows_data s1 C1 (inode_at s1 ip) (off / BSIZE)) as E2. rewrite Esb, (slot_data _ _ _ Hb) in E2.
  specialize (fun d => E2 d G1 (ev_wf _ _ _ _ _ E1) Hb Ea). set (a := faddr C1 _ _) in *.
  apply (IH s2 _ (add_block a bs1)); rewrite ?Esb2, ?Esb, ?(inode_at_same _ _ _ S2); [exact I2|by eapply geom_same| |apply E2| |by apply Forall_drop|
    rewrite length_drop; lia|lia|lia| |exact Hc|].
  - eapply meta_evolves; [exact G|by apply E2|by eapply meta_evolves].
  - apply src_gives_add; [lia|]. eapply src_gives_same; [apply S2|apply S2|]. eapply src_gives_same; [apply S1|apply S1|exact Hg].
  - replace (n - (tot + m)) with (n - tot - m) by lia. lia.
  - replace (n - (tot + m)) with (n - tot - m) by lia. eapply room_le; [exact R2|]. rewrite Esb. pose proof (write_room_mono (fsb s) (inode_at s1 ip) (add_block a bs1) _ _ Hk'). lia.
Qed.

(** *** [iupdate] *)

(** The dinode is between the log and the free map. *)
Definition iblock_ok (s : fsst) (inum : Z) : Prop :=
  0 <= inum /\ IBLOCK inum (fsb s) = inum / IPB + sb_inodestart (fsb s) /\
  l_start (lg (fl s)) + l_size (lg (fl s)) <= IBLOCK inum (fsb s) < sb_bmapstart (fsb s).

Lemma dinode_off_range inum : 0 <= dinode_off inum /\ dinode_off inum + 64 <= BSIZE.
Proof. unfold dinode_off. pose proof (Z.mod_pos_bound inum IPB ltac:(done)). change IPB with 16 in *. unfold BSIZE. lia. Qed.

Lemma iblock_home s inum : geom s -> iblock_ok s inum -> home s (IBLOCK inum (fsb s)).
Proof.
  intros G (H0 & _ & Hb). pose proof (g_log _ G). pose proof (g_meta _ G). pose proof (g_size _ G). pose proof (nmeta_pos s G).
  pose proof (Z.div_pos (sb_size (fsb s)) BPB (size_pos s G) ltac:(done)). unfold home, nmeta in *. lia.
Qed.

Lemma wp_iupdate s C bs ip (x := inode_at s ip) (B := IBLOCK (i_inum x) (fsb s)) (Q : unit -> fsst -> Prop) :
  tx s C ∅ bs -> geom s -> i_dev x = ROOTDEV -> length (i_addrs x) = 13%nat -> iblock_ok s (i_inum x) -> room s bs 1 ->
  (forall s', tx s' (<[B := store_dinode (dinode_off (i_inum x)) x (C B)]> C) ∅ (add_block B bs) -> same s s' -> Q tt s') ->
  wp (iupdate ip) Q s.
Proof.
  intros I G Hdev Hl Hib R HQ. pose proof (dinode_off_range (i_inum x)). unfold iupdate. apply wp_bind, wp_gets, wp_bind, wp_gets.
  fold x. fold B. rewrite Hdev. apply wp_bind. apply (wp_bread s C ∅ bs I _ 0); [apply not_elem_of_empty|by eapply room_0|by rewrite size_empty|].
  intros b s1 I1 S1 B1 _. rewrite union_empty_r_L in I1. eapply wp_update; [exact I1|exact B1|set_solver| | | |].
  { eapply home_same; [exact S1|]. by apply iblock_home. }
  { by eapply room_same. }
  { apply bytes_store; [by eapply tx_bytes|lia|lia|done]. }
  intros s2 I2 S2 K2. eapply wp_brelse; [exact I2|by apply K2|set_solver|]. intros s3 I3 S3 _. rewrite difference_diag_L in I3.
  apply HQ; [done|]. by do 2 (etransitivity; [done|]).
Qed.

(** A block before the free map has nothing to do with the blocks of a file. *)
Section front.
Context (s : fsst) (G : geom s) (C : Z -> list Z) (x : inode) (W : inode_wf C (fsb s) x) (B : Z) (d : list Z) (HB : B < sb_bmapstart (fsb s)).

Lemma owned_ne y : owns C x y -> y <> B.
Proof using G W HB.
  intros Ho. pose proof (iw_range _ _ _ W _ Ho) as [Hr _]. pose proof (Z.div_pos (sb_size (fsb s)) BPB (size_pos s G) ltac:(done)). unfold nmeta in Hr. lia.
Qed.
Lemma front_slot k : 0 <= k <= MAXFILE -> slot (<[B := d]> C) x k = slot C x k.
Proof using G W HB.
  intros Hk. apply slots_alike; [done| |done]. intros HA. rewrite fn_lookup_insert_ne; [done|]. apply not_eq_sym, owned_ne. by apply ind_owned.
Qed.
Lemma front_used b : 0 <= b < sb_size (fsb s) -> used (<[B := d]> C) (fsb s) b = used C (fsb s) b.
Proof using G HB. intros Hb. unfold used. pose proof (BBLOCK_eq s G b Hb). rewrite fn_lookup_insert_ne by lia. done. Qed.
Lemma front_owns y : owns (<[B := d]> C) x y <-> owns C x y.
Proof using G W HB. split; intros [Hn (k & Hk & E)]; (split; [done|]); exists k; (split; [done|]); [by rewrite <- front_slot|by rewrite front_slot]. Qed.
Lemma front_wf : inode_wf (<[B := d]> C) (fsb s) x.
Proof using G W HB.
  pose proof (nmeta_pos s G). split; [apply W|apply W| |].
  - intros y Ho%front_owns. destruct (iw_range _ _ _ W y Ho) as [? ?]. split; [done|]. by rewrite front_used by lia.
  - intros k k' Hk Hk'. rewrite !front_slot by done. by apply (iw_inj _ _ _ W).
Qed.
Lemma front_faddr k : 0 <= k < MAXFILE -> faddr (<[B := d]> C) x k = faddr C x k.
Proof using G W HB. intros Hk. rewrite <- !slot_data by done. apply front_slot. lia. Qed.
Lemma front_fbyte o : 0 <= o < MAXFILE * BSIZE -> faddr C x (o / BSIZE) <> 0 -> fbyte (<[B := d]> C) x o = fbyte C x o.
Proof using G W HB.
  intros Ho Ha. pose proof (off_block o Ho). unfold fbyte. rewrite front_faddr by done. rewrite fn_lookup_insert_ne; [done|].
  rewrite <- slot_data in * by done. apply not_eq_sym, owned_ne, owns_slot; [lia|done].
Qed.
End front.

(** *** The effect of a write *)

(** The list with [bs] over its elements from [off] on. *)
Definition overwrite (l : list Z) (off : nat) (bs : list Z) : list Z := take off l ++ bs ++ drop (off + length bs) l.

(** The bytes [bs] were written at [off] of the file of inode [x], which became [x']. *)
Record wrote (s : fsst) (C : Z -> list Z) (x : inode) (off : Z) (bs : list Z) (C' : Z -> list Z) (x' : inode) : Prop := {
  wr_inode : x' = with_addrs (i_addrs x') (set_isize (Z.max (i_size x) (off + Z.of_nat (length bs))) x);
  wr_bytes : fbytes C' x' 0 (i_size x') = overwrite (fbytes C x 0 (i_size x)) (Z.to_nat off) bs;
  wr_file : file_ok C' x';
  wr_wf : inode_wf C' (fsb s) x';
  wr_meta : meta_used C' (fsb s);
  (** the inode on the disk is the one in memory *)
  wr_disk : load_dinode (C' (IBLOCK (i_inum x) (fsb s))) (dinode_off (i_inum x)) x' = x';
  (** the other inodes, and the blocks of other files, are as before *)
  wr_inodes : forall inum y, iblock_ok s inum -> inum <> i_inum x ->
    load_dinode (C' (IBLOCK inum (fsb s))) (dinode_off inum) y = load_dinode (C (IBLOCK inum (fsb s))) (dinode_off inum) y;
  wr_frame : forall y, nmeta (fsb s) <= y < sb_size (fsb s) -> used C (fsb s) y = true -> ~ owns C x y -> C' y = C y;
  wr_used : forall b, 0 <= b < sb_size (fsb s) -> used C' (fsb s) b = true <-> used C (fsb s) b = true \/ owns C' x' b;
  (** the file lost no block, and those that it got were free *)
  wr_keep : forall b, owns C x b -> owns C' x' b;
  wr_new : forall b, owns C' x' b -> owns C x b \/ used C (fsb s) b = false
}.

Lemma nth_fbytes C x n i : 0 <= i < n -> fbytes C x 0 n !! Z.to_nat i = Some (fbyte C x i).
Proof. intros Hi. unfold fbytes. rewrite list_lookup_fmap, lookup_seq_lt by lia. cbn. do 2 f_equal. lia. Qed.

Lemma written_bytes C x C' x' off bs : file_ok C x -> written C x C' x' off bs -> 0 <= off <= i_size x -> off + Z.of_nat (length bs) <= MAXFILE * BSIZE ->
  fbytes C' x' 0 (Z.max (i_size x) (off + Z.of_nat (length bs))) = overwrite (fbytes C x 0 (i_size x)) (Z.to_nat off) bs.
Proof.
  intros F Wr Ho Hmax. pose proof (fo_size _ _ F) as Hsz. set (n := Z.of_nat (length bs)) in *. apply list_eq. intros i. unfold overwrite.
  destruct (Z.lt_ge_cases (Z.of_nat i) (Z.max (i_size x) (off + n))) as [Hi|Hi].
  2: { rewrite !lookup_ge_None_2; [done| |rewrite length_fbytes; lia]. rewrite !length_app, length_take, length_drop, !length_fbytes. lia. }
  replace i with (Z.to_nat (Z.of_nat i)) at 1 by lia. rewrite nth_fbytes by lia. set (o := Z.of_nat i) in *.
  assert (faddr C x (o / BSIZE) <> 0 \/ off <= o < off + n) as Hor.
  { destruct (Z.lt_ge_cases o (i_size x)); [left|right; lia]. apply (fo_blocks _ _ F); [apply Z.div_pos; [lia|done]|].
    pose proof (Z.mul_div_le o BSIZE ltac:(done)). lia. }
  destruct (Wr o ltac:(lia) Hor) as [_ ->]. fold n. case_decide as Hin.
  - rewrite lookup_app_r by (rewrite length_take; lia). rewrite length_take, length_fbytes. replace (i - _)%nat with (Z.to_nat (o - off)) by lia.
    rewrite lookup_app_l by lia. rewrite nth_lookup. destruct (bs !! Z.to_nat (o - off)) eqn:E; [done|]. apply lookup_ge_None in E. lia.
  - destruct (Z.lt_ge_cases o off).
    + rewrite lookup_app_l by (rewrite length_take, length_fbytes; lia). rewrite lookup_take_lt by lia.
      replace i with (Z.to_nat o) by lia. by rewrite nth_fbytes by lia.
    + rewrite lookup_app_r by (rewrite length_take; lia). rewrite lookup_app_r by (rewrite length_take, length_fbytes; lia).
      rewrite lookup_drop, length_take, length_fbytes. replace (_ + _)%nat with (Z.to_nat o) by lia. by rewrite nth_fbytes by lia.
Qed.

Lemma written_file C x C' x' off bs : file_ok C x -> written C x C' x' off bs -> 0 <= off <= i_size x -> off + Z.of_nat (length bs) <= MAXFILE * BSIZE ->
  forall bn, 0 <= bn -> bn * BSIZE < Z.max (i_size x) (off + Z.of_nat (length bs)) -> faddr C' x' bn <> 0.
Proof.
  intros F Wr Ho Hmax bn Hbn Hlt. pose proof (fo_size _ _ F). specialize (Wr (bn * BSIZE)). rewrite Z.div_mul in Wr by done.
  apply Wr; [unfold BSIZE in *; lia|]. destruct (Z.lt_ge_cases (bn * BSIZE) (i_size x)); [left; by apply (fo_blocks _ _ F)|right; lia].
Qed.

(** Addresses of blocks are below 2^32. *)
Lemma wf_addrs s (G : geom s) C x : inode_wf C (fsb s) x -> Forall (fun a => 0 <= a < 2 ^ 32) (i_addrs x).
Proof.
  intros W. pose proof (nmeta_pos s G). pose proof (g_size _ G). apply Forall_lookup_2. intros i a Hi.
  assert (addr_at x (Z.of_nat i) = a) as <- by (unfold addr_at; rewrite nth_lookup, Nat2Z.id, Hi; done).
  pose proof (lookup_lt_Some _ _ _ Hi) as Hlt. rewrite (iw_len _ _ _ W) in Hlt. destruct (Z.eq_dec (addr_at x (Z.of_nat i)) 0) as [->|Hn]; [lia|].
  assert (owns C x (addr_at x (Z.of_nat i))) as Ho.
  { destruct (decide (i = 12)%nat) as [->|]; [by apply ind_owned|]. rewrite <- (slot_direct C) in * by file_lia. apply owns_slot; [file_lia|done]. }
  apply (iw_range _ _ _ W) in Ho as [? _]. lia.
Qed.

Section wrote.
Context (s : fsst) (C : Z -> list Z) (x : inode) (C1 : Z -> list Z) (x1 : inode) (off : Z) (bs : list Z).
Context (G : geom s) (MU : meta_used C (fsb s)) (W : inode_wf C (fsb s) x) (F : file_ok C x) (T : inode_typed x) (Hib : iblock_ok s (i_inum x)).
Context (HC1 : forall y, bytes_ok BSIZE (C1 y)) (E : fgrows (fsb s) C x C1 x1) (Wr : written C x C1 x1 off bs).
Context (Hoff : 0 <= off <= i_size x) (Hmax : off + Z.of_nat (length bs) <= MAXFILE * BSIZE).
Let n := Z.max (i_size x) (off + Z.of_nat (length bs)).
Let x2 := set_isize n x1.
Let B := IBLOCK (i_inum x) (fsb s).
Let d := store_dinode (dinode_off (i_inum x)) x2 (C1 B).

Lemma grown_wf : inode_wf C1 (fsb s) x2.
Proof using E. destruct (ev_wf _ _ _ _ _ E) as [H1 H2 H3 H4]. by split. Qed.

Lemma grown_typed : inode_typed x2.
Proof using G E T F Hmax Hoff.
  pose proof (fo_size _ _ F). pose proof grown_wf as W2. pose proof (ev_x _ _ _ _ _ E) as Ex. pose proof (nmeta_pos s G). pose proof (g_size _ G).
  assert (i_type x2 = i_type x /\ i_major x2 = i_major x /\ i_minor x2 = i_minor x /\ i_nlink x2 = i_nlink x) as (X1 & X2 & X3 & X4)
    by (unfold x2; rewrite Ex; done).
  split; rewrite ?X1, ?X2, ?X3, ?X4; [apply T..| |apply W2|].
  - cbn [x2 set_isize i_size]. unfold n. file_lia.
  - by apply (wf_addrs s G C1).
Qed.

Lemma wrote_intro : wrote s C x off bs (<[B := d]> C1) x2.
Proof using All.
  destruct Hib as (Hi0 & HiB & Hib1 & Hib2). fold B in HiB, Hib1, Hib2. pose proof (nmeta_pos s G). pose proof (fo_size _ _ F) as Hsz. pose proof grown_wf as W2.
  pose proof (dinode_off_range (i_inum x)). pose proof (ev_x _ _ _ _ _ E) as Ex. pose proof (meta_evolves s _ _ _ _ G E MU) as MU1. pose proof (g_meta _ G).
  assert (nmeta (fsb s) >= sb_bmapstart (fsb s)) by (unfold nmeta; pose proof (Z.div_pos (sb_size (fsb s)) BPB (size_pos s G) ltac:(done)); lia).
  split.
  - unfold x2. rewrite Ex. done.
  - change (i_size x2) with n. rewrite <- (written_bytes _ _ _ _ _ _ F Wr Hoff Hmax). fold n. unfold fbytes. apply list_fmap_ext. intros i k [-> Hk]%lookup_seq.
    assert (0 <= 0 + Z.of_nat (0 + i) < MAXFILE * BSIZE) as Ho by lia. apply (front_fbyte s G C1 x2 W2 B d Hib2); [done|].
    apply (written_file _ _ _ _ _ _ F Wr Hoff Hmax); [apply Z.div_pos; [lia|done]|]. pose proof (Z.mul_div_le (0 + Z.of_nat (0 + i)) BSIZE ltac:(done)). fold n. lia.
  - split; [apply W2|change (i_size x2) with n; unfold n; lia|]. intros bn Hbn Hlt. change (i_size x2) with n in Hlt.
    rewrite (front_faddr s G C1 x2 W2 B d Hib2) by (unfold BSIZE in *; lia). by apply (written_file _ _ _ _ _ _ F Wr Hoff Hmax).
  - by apply front_wf.
  - intros b Hb. rewrite front_used by (done || lia). by apply MU1.
  - fold B. rewrite fn_lookup_insert. apply load_store; [done|lia|lia|apply W2|apply grown_typed].
  - intros inum y (Hn0 & HnB & Hn1 & Hn2) Hne. assert (C1 (IBLOCK inum (fsb s)) = C (IBLOCK inum (fsb s))) as EC.
    { apply (ev_frame _ _ _ _ _ E); [lia|]. intros Ho%(iw_range _ _ _ (ev_wf _ _ _ _ _ E)). lia. }
    destruct (decide (IBLOCK inum (fsb s) = B)) as [EB|NB]; [|by rewrite fn_lookup_insert_ne, EC by done].
    rewrite EB in *. rewrite fn_lookup_insert, <- EC. pose proof (dinode_off_range inum). apply load_store_other; [done|lia|lia|apply W2|lia|].
    unfold dinode_off. pose proof (Z.div_mod inum IPB ltac:(done)). pose proof (Z.div_mod (i_inum x) IPB ltac:(done)). lia.
  - intros y Hy Hu Ho. rewrite fn_lookup_insert_ne by lia. apply (ev_frame _ _ _ _ _ E); [lia|]. intros [Hy0 (k & Hk & Es)].
    destruct (Z.eq_dec (slot C x k) 0) as [E0|E0]; [pose proof (ev_new _ _ _ _ _ E k Hk E0); rewrite Es in *; rewrite Hu in *; naive_solver|].
    apply Ho. split; [done|]. exists k. by rewrite <- (ev_keep _ _ _ _ _ E k Hk E0).
  - intros b Hb. rewrite front_used by (done || lia). rewrite (front_owns s G C1 x2 W2 B d Hib2). apply (ev_used _ _ _ _ _ E b Hb).
  - intros b Ho%(owns_mono _ _ _ _ _ _ E). by rewrite (front_owns s G C1 x2 W2 B d Hib2).
  - intros b. rewrite (front_owns s G C1 x2 W2 B d Hib2). intros [Hb0 (k & Hk & Es)]. change (slot C1 x2 k) with (slot C1 x1 k) in Es.
    destruct (Z.eq_dec (slot C x k) 0) as [E0|E0]; [right; rewrite <- Es; apply (ev_new _ _ _ _ _ E k Hk E0); congruence|].
    left. split; [done|]. exists k. by rewrite <- (ev_keep _ _ _ _ _ E k Hk E0).
Qed.
End wrote.

Lemma but_iblock ip s s' inum : same_but ip s s' -> iblock_ok s inum -> iblock_ok s' inum.
Proof.
  intros S. unfold iblock_ok. rewrite (but_sb _ _ _ S). pose proof (sm_start _ _ (sbt_same _ _ _ S)) as E1. pose proof (sm_size _ _ (sbt_same _ _ _ S)) as E2.
  cbn in E1, E2. by rewrite E1, E2.
Qed.

(** The size is set when the file grew. *)
Lemma wp_set_size s C bs ip o (Q : unit -> fsst -> Prop) (x := inode_at s ip) : tx s C ∅ bs ->
  (forall s', tx s' C ∅ bs -> same_but ip s s' -> inode_at s' ip = set_isize (Z.max (i_size x) o) x -> Q tt s') ->
  wp (if o >? i_size x then upd_inode ip (set_isize o) else return tt) Q s.
Proof.
  intros I HQ. rewrite Z.gtb_ltb. destruct (Z.ltb_spec (i_size x) o).
  - unfold upd_inode. apply wp_modify, HQ; [by apply tx_set_fit|apply same_but_upd|]. rewrite inode_at_upd. fold x. by rewrite Z.max_r by lia.
  - apply wp_ret, HQ; [done|by apply same_but_same|]. fold x. rewrite Z.max_l by lia. by destruct x.
Qed.

(** The preconditions of a write of [n] bytes at [off]: the transaction has log space for
    the blocks it may change. *)
Record write_pre (s : fsst) (C : Z -> list Z) (bs : list Z) (x : inode) (off n : Z) : Prop := {
  pre_tx : tx s C ∅ bs;
  pre_geom : geom s;
  pre_meta : meta_used C (fsb s);
  pre_wf : inode_wf C (fsb s) x;
  pre_file : file_ok C x;
  pre_typed : inode_typed x;
  pre_iblock : iblock_ok s (i_inum x);
  pre_room : room s bs (write_room (fsb s) x bs (nblocks off n) + 1)
}.
(** [writei] refuses the write. *)
Definition write_bad (x : inode) (off n : Z) : bool := (off >? i_size x) || (u32 (off + n) <? off) || (off + n >? MAXFILE * BSIZE).

Definition writei_post (s : fsst) (C : Z -> list Z) (ip off : Z) (data : list Z) (r : Z) (s' : fsst) : Prop :=
  exists C' bs', 0 <= r <= Z.of_nat (length data) /\ tx s' C' ∅ bs' /\ same_but ip s s' /\
    wrote s C (inode_at s ip) off (take (Z.to_nat r) data) C' (inode_at s' ip) /\ (r < Z.of_nat (length data) -> full C' (fsb s) /\ (r = 0 \/ (off + r) mod BSIZE = 0)).

Lemma wp_writei s C bs ip from data off (x := inode_at s ip) (n := Z.of_nat (length data)) :
  write_pre s C bs x off n -> write_bad x off n = false -> src_gives s from data -> Forall is_byte data -> 0 <= off ->
  wp (writei ip from off n) (writei_post s C ip off data) s.
Proof.
  intros [I G MU W F T Hib R] Eg Hg Hd Ho.
  apply orb_false_iff in Eg as [E12 E3]. pose proof (proj1 (proj1 (orb_false_iff _ _) E12)) as E1. rewrite Z.gtb_ltb, Z.ltb_ge in E1. pose proof E3 as Hmax. rewrite Z.gtb_ltb, Z.ltb_ge in Hmax.
  unfold writei. apply wp_bind, wp_gets. fold x. rewrite E12, E3. apply wp_bind. eapply wp_mono; [|apply (wp_writei_loop ip _ s C bs from data off n 0 1); fold x; rewrite ?Z.sub_0_r; try done].
  2: { unfold nblocks. destruct (Z.ltb_spec 0 n) as [Hn|]; [pose proof (touched_bound off n Ho Hn)|]; pose proof (Z.div_pos n BSIZE ltac:(lia) ltac:(done)); lia. }
  intros [tot off'] s1 (C1 & bs1 & Ht & Hoff' & I1 & S1 & E & Wr & R1 & Hf). cbn [fst snd] in *. fold x in E, Wr. rewrite Z.sub_0_r in *.
  apply wp_bind, wp_gets. apply wp_bind. apply (wp_set_size s1 C1 bs1); [done|]. intros s2 I2 S2 Ex2. pose proof (ev_x _ _ _ _ _ E) as Ex1.
  set (x1 := inode_at s1 ip) in *.
  assert (i_dev x1 = i_dev x /\ i_inum x1 = i_inum x /\ i_size x1 = i_size x) as (D1 & N1 & Z1) by (rewrite Ex1; done).
  assert (same_but ip s s2) as S02 by (by transitivity s1). pose proof (but_sb _ _ _ S02) as Esb.
  pose proof (wp_iupdate s2 C1 bs1 ip) as U. cbv zeta in U. rewrite Ex2, Esb in U. cbn [i_dev i_inum i_addrs set_isize] in U. rewrite N1, Z1, Hoff' in U.
  apply wp_bind, U; [done|by eapply but_geom|rewrite D1; apply F|apply E|by eapply but_iblock|eapply but_room; [exact S2|exact R1]|].
  intros s3 I3 S3. apply wp_ret. eexists _, _. rewrite (inode_at_same _ _ _ S3), Ex2, Z1, Hoff'.
  assert (Z.of_nat (length (take (Z.to_nat tot) data)) = tot) as Lw by (rewrite length_take; lia).
  split; [lia|]. split; [exact I3|]. split; [etransitivity; [exact S02|by apply same_but_same]|]. split.
  - pose proof (wrote_intro s C x C1 x1 off (take (Z.to_nat tot) data)) as Hi. rewrite Lw in Hi. apply Hi; try done; [intros y; by eapply tx_bytes|lia].
  - intros Hlt. destruct (Hf Hlt) as [Hfl Hb0]. rewrite Hoff' in Hb0. split; [|done]. intros b Hb. rewrite front_used; [by apply Hfl|done|apply Hib|done].
Qed.
End writei.

(** C10: [writei], in a transaction with log space for the blocks it may change: it
    returns -1, with no effect, when [off] is past the end, [off + n] overflows or
    the file would be too long.  Otherwise it ends, and returns the number [r] of
    bytes written, less than [n] only if every block of the disk is in use by then,
    and then up to the end of a block.
    The first [r] bytes of the source are in the file at [off], the other bytes are
    as before, and the size is adjusted, in memory and in the inode on the disk.
    Blocks the file got were free; blocks and inodes of other files are as before;
    the blocks of the file stay distinct and marked in use. *)
Theorem writei_writes_file `{Layout} (s : fsst) (C : Z -> list Z) (bs : list Z) (ip : Z) (from : src) (data : list Z) (off : Z) :
  let x := inode_at s ip in let n := Z.of_nat (length data) in
  write_pre s C bs x off n -> src_gives s from data -> Forall is_byte data -> 0 <= off ->
  if write_bad x off n then writei ip from off n s = Ok (-1) s
  else exists r s' C' bs', writei ip from off n s = Ok r s' /\ 0 <= r <= n /\ tx s' C' ∅ bs' /\ same_but ip s s' /\
    wrote s C x off (take (Z.to_nat r) data) C' (inode_at s' ip) /\ (r < n -> full C' (fsb s) /\ (r = 0 \/ (off + r) mod BSIZE = 0)).
Proof.
  intros x n Hpre Hg Hd Ho. destruct (write_bad x off n) eqn:Eg.
  - unfold write_bad in Eg. unfold writei, get_inode. rewrite bind_gets. fold x.
    destruct ((off >? i_size x) || (u32 (off + n) <? off)); [done|]. cbn [orb] in Eg. by rewrite Eg.
  - pose proof (wp_writei s C bs ip from data off Hpre Eg Hg Hd Ho) as Hw. apply wp_Ok in Hw as (r & s' & Hr & C' & bs' & Hw).
    by exists r, s', C', bs'.
Qed.

(** ** Example: two bytes into an empty file *)

#[local] Program Instance fs_layout : Layout :=
  {| etext := PHYSTOP - 4 * PGSIZE; kend := PHYSTOP - 2 * PGSIZE; trampoline := PHYSTOP - 5 * PGSIZE |}.
Solve Obligations with (vm_compute; congruence).

(** Inode 5, of the given type, empty. *)
Definition ex_new (type : Z) : inode := mkInode ROOTDEV 5 1 initsleeplock 1 type 0 0 1 0 (replicate 13 0).
Definition ex_files (type : Z) : itable := mkItable initlock {[0 := ex_new type]}.
Definition ex_write : option Z :=
  match begin_boot (ex_platter ∅) 1 ex_sb (ex_files T_FILE) ex_mem ex_ptable with
  | Ok _ s => match writei 0 (FromVar [104; 105]) 0 2 s with Ok r _ => Some r | _ => None end
  | _ => None
  end.

Lemma ex_new_ok C sb type : short type -> inode_wf C sb (ex_new type) /\ file_ok C (ex_new type) /\ inode_typed (ex_new type).
Proof.
  intros Ht. assert (forall k, 0 <= k <= MAXFILE -> slot C (ex_new type) k = 0) as Hsl.
  { intros k Hk. unfold slot, faddr. change (addr_at (ex_new type) NDIRECT) with 0. destruct (k =? MAXFILE); [reflexivity|].
    destruct (k <? NDIRECT); [|reflexivity]. unfold addr_at. rewrite nth_lookup. destruct (i_addrs (ex_new type) !! _) eqn:E; [|reflexivity].
    apply lookup_replicate in E as [-> _]. reflexivity. }
  split; [|split].
  - split; [reflexivity|reflexivity| |].
    + intros y [Hy (k & Hk & E)]. rewrite Hsl in E by exact Hk. destruct (Hy (eq_sym E)).
    + intros k k' Hk _ E. rewrite Hsl in E by exact Hk. destruct (E eq_refl).
  - split; [reflexivity|vm_compute; split; intros [=]|]. intros bn H0 Hb. change (i_size (ex_new type)) with 0 in Hb. unfold BSIZE in Hb. lia.
  - split; [exact Ht|vm_compute; split; [intros [=]|reflexivity]..|reflexivity|]. apply Forall_replicate. lia.
Qed.
Lemma ex_pre type n : short type -> nblocks 0 n = 1 -> exists s C, begin_boot (ex_platter ∅) 1 ex_sb (ex_files type) ex_mem ex_ptable = Ok tt s /\
  inode_at s 0 = ex_new type /\ write_pre s C [] (ex_new type) 0 n.
Proof.
  intros Ht Hn. destruct (ex_tx ∅ (ex_files type) ex_mem ex_ptable (lookup_empty _)) as (s & C & Hs & I & G & MU & Hr & Esb & Et & _ & _ & HC);
    [intros y d Hy; rewrite lookup_empty in Hy; congruence|].
  exists s, C. split; [exact Hs|]. split; [unfold inode_at; rewrite Et; reflexivity|].
  destruct (ex_new_ok C ex_sb type Ht) as (W & F & T). split; [exact I|exact G|exact MU|by rewrite Esb|exact F|exact T| |].
  - unfold iblock_ok. destruct (ex_log ∅ (ex_files type) ex_mem ex_ptable s) as (-> & -> & _); [reflexivity|intros y d Hy; rewrite lookup_empty in Hy; congruence|exact Hs|]. rewrite Esb. vm_compute. repeat split; intros [=].
  - rewrite Esb, Hn. eapply room_le; [exact Hr|]. vm_compute. intros [=].
Qed.

Lemma writei_writes_file_witness : exists s s' C',
  begin_boot (ex_platter ∅) 1 ex_sb (ex_files T_FILE) ex_mem ex_ptable = Ok tt s /\
  writei 0 (FromVar [104; 105]) 0 2 s = Ok 2 s' /\ fbytes C' (inode_at s' 0) 0 2 = [104; 105].
Proof.
  destruct (ex_pre T_FILE 2 ltac:(vm_compute; split; [intros [=]|reflexivity]) eq_refl) as (s & C & Hs & Hx & Hpre). pose proof (writei_writes_file s C [] 0 (FromVar [104; 105]) [104; 105] 0) as H.
  rewrite Hx in H. specialize (H Hpre (src_gives_var s _) ltac:(repeat constructor; lia) ltac:(lia)).
  destruct H as (r & s' & C' & bs' & Hw & _ & _ & _ & Wr & _).
  assert (r = 2) as ->.
  { assert (ex_write = Some 2) as He by (vm_compute; reflexivity). unfold ex_write in He. rewrite Hs in He. change (Z.of_nat (length [104; 105])) with 2 in Hw. rewrite Hw in He. injection He as ->. reflexivity. }
  exists s, s', C'. split; [exact Hs|]. split; [exact Hw|]. pose proof (wr_inode _ _ _ _ _ _ _ Wr) as Ei. pose proof (wr_bytes _ _ _ _ _ _ _ Wr) as Eb.
  assert (i_size (inode_at s' 0) = 2) as Ez by (rewrite Ei; reflexivity). rewrite Ez in Eb. exact Eb.
Defined.
