(* ===== verification/FsDir.v ===== *)
(** * Adding a directory entry: [dirlink] of [kernel/fs.c]

    [dirlink] takes the first empty entry of the directory, or the end, and writes
    the new entry there; [dirlookup] finds it afterwards. *)

From stdpp Require Import base gmap strings fin_sets functions list.
From S2P Require Import Prelude Riscv Mem Spinlock Kalloc Vm Sleeplock ProcData Bytes Bio BioSpec Log LogSpec Fs FsTx FsAlloc FsFile FsGrow FsWrite.

(** The first empty entry among [k] from [i] on, or the one after them. *)
Fixpoint find_free (C : Z -> list Z) (x : inode) (k : nat) (i : Z) : Z :=
  match k with
  | O => i
  | S k => if de_inum (entry C x i) =? 0 then i else find_free C x k (i + 1)
  end.

Lemma find_free_spec C x k i : i <= find_free C x k i <= i + Z.of_nat k /\
  (find_free C x k i < i + Z.of_nat k -> de_inum (entry C x (find_free C x k i)) = 0).
Proof.
  revert i. induction k as [|k IH]; intros i; cbn [find_free]; [lia|].
  destruct (Z.eqb_spec (de_inum (entry C x i)) 0); [split; [lia|done]|].
  destruct (IH (i + 1)) as [IH1 IH2]. split; [lia|]. intros ?. apply IH2. lia.
Qed.

Section dirlink.
Context `{Layout}.

Lemma wp_dirlink_loop C bs dp x fuel s i k (Q : Z -> fsst -> Prop) :
  dir_ok C x -> tx s C ∅ bs -> inode_at s dp = x -> 0 <= i -> Z.of_nat k = Z.of_nat (nentries x) - i -> (k <= fuel)%nat ->
  (forall s', same s s' -> tx s' C ∅ bs -> Q (sizeof_dirent * find_free C x k i) s') ->
  wp (dirlink_loop fuel dp (sizeof_dirent * i)) Q s.
Proof.
  intros D. pose proof (dir_size _ _ D) as Hs. revert s i k. induction fuel as [|f IH]; intros s i k I Hx Hi Hk Hf HQ;
    cbn [dirlink_loop]; apply wp_bind, wp_gets; rewrite Hx.
  { assert (k = 0%nat) as -> by lia. destruct (Z.ltb_spec (sizeof_dirent * i) (i_size x)); [unfold sizeof_dirent in *; lia|]. by apply wp_ret, HQ. }
  destruct k as [|k].
  { destruct (Z.ltb_spec (sizeof_dirent * i) (i_size x)); [unfold sizeof_dirent in *; lia|]. by apply wp_ret, HQ. }
  destruct (Z.ltb_spec (sizeof_dirent * i) (i_size x)); [|unfold sizeof_dirent in *; lia]. apply wp_bind.
  apply (wp_readi s C bs dp); [done|rewrite Hx; apply D|unfold sizeof_dirent; lia|done|]. intros s1 I1 S1. rewrite Hx, read_entry by (done || lia).
  unfold entry at 1. rewrite length_fbytes. change (negb (Z.of_nat (Z.to_nat sizeof_dirent) =? sizeof_dirent)) with false. cbv iota.
  cbn [find_free] in HQ. destruct (de_inum (entry C x i) =? 0); [by apply wp_ret, HQ|].
  replace (sizeof_dirent * i + sizeof_dirent) with (sizeof_dirent * (i + 1)) by lia.
  apply (IH s1 (i + 1) k); [done|by rewrite (inode_at_same _ _ _ S1)|lia|lia|lia|]. intros s' S' I'. apply HQ; [by transitivity s1|done].
Qed.
End dirlink.

(** ** Slices *)

Lemma fbytes_slice C x n i k : 0 <= i -> 0 <= k -> i + k <= n -> fbytes C x i k = take (Z.to_nat k) (drop (Z.to_nat i) (fbytes C x 0 n)).
Proof.
  intros Hi Hk Hn. replace n with (i + (k + (n - i - k))) by lia. rewrite !fbytes_app by lia. rewrite Z.add_0_l.
  rewrite drop_app_length' by (rewrite length_fbytes; lia). by rewrite take_app_length' by (rewrite length_fbytes; lia).
Qed.

Lemma overwrite_at l off bs : (off <= length l)%nat -> take (length bs) (drop off (overwrite l off bs)) = bs.
Proof. intros Ho. unfold overwrite. rewrite drop_app_length' by (rewrite length_take; lia). by rewrite take_app_length. Qed.
Lemma overwrite_off l off bs i k : (off <= length l)%nat -> (i + k <= length l)%nat -> (i + k <= off \/ off + length bs <= i)%nat ->
  take k (drop i (overwrite l off bs)) = take k (drop i l).
Proof.
  intros Ho Hl Hd. apply list_eq. intros j. destruct (decide (j < k)%nat) as [Hj|Hj]; [|by rewrite !lookup_take_ge by lia].
  rewrite !lookup_take_lt, !lookup_drop by done. unfold overwrite. destruct Hd.
  - rewrite lookup_app_l by (rewrite length_take; lia). by rewrite lookup_take_lt by lia.
  - rewrite lookup_app_r by (rewrite length_take; lia). rewrite lookup_app_r by (rewrite length_take; lia).
    rewrite lookup_drop, length_take. f_equal. lia.
Qed.

(** ** The entries after a write of one of them *)

Lemma entry_slice C0 x0 i : dir_ok C0 x0 -> 0 <= i < Z.of_nat (nentries x0) ->
  entry C0 x0 i = take 16 (drop (Z.to_nat (16 * i)) (fbytes C0 x0 0 (i_size x0))).
Proof.
  intros D0 Hi. pose proof (dir_size _ _ D0) as E. unfold entry, sizeof_dirent in *. by apply fbytes_slice; lia.
Qed.

Section one_entry.
Context (s : fsst) (C : Z -> list Z) (x : inode) (D : dir_ok C x) (C' : Z -> list Z) (x' : inode) (j : Z) (de : list Z).
Context (Hde : length de = 16%nat) (Hj : 0 <= j <= Z.of_nat (nentries x)) (Wr : wrote s C x (sizeof_dirent * j) de C' x').

Lemma size_after : i_size x' = sizeof_dirent * Z.max (Z.of_nat (nentries x)) (j + 1).
Proof using D Hde Hj Wr. rewrite (wr_inode _ _ _ _ _ _ _ Wr). cbn. rewrite (dir_size _ _ D), Hde. unfold sizeof_dirent. lia. Qed.
Lemma dir_after : dir_ok C' x'.
Proof using D Hde Hj Wr.
  split; [apply Wr|rewrite (wr_inode _ _ _ _ _ _ _ Wr); apply (do_type _ _ D)|]. rewrite size_after, Z.mul_comm. by apply Z_mod_mult.
Qed.
Lemma nentries_after : Z.of_nat (nentries x') = Z.max (Z.of_nat (nentries x)) (j + 1).
Proof using D Hde Hj Wr. pose proof (dir_size _ _ dir_after) as E. rewrite size_after in E. unfold sizeof_dirent in E. lia. Qed.

Lemma entry_new : entry C' x' j = de.
Proof using D Hde Hj Wr.
  pose proof nentries_after. pose proof (dir_size _ _ D) as E. rewrite entry_slice by (exact dir_after || lia). rewrite (wr_bytes _ _ _ _ _ _ _ Wr).
  change 16%nat with (Z.to_nat 16). unfold sizeof_dirent in *. change (Z.to_nat 16) with 16%nat. rewrite <- Hde. apply overwrite_at. rewrite length_fbytes. lia.
Qed.
Lemma entry_old i : 0 <= i < Z.of_nat (nentries x) -> i <> j -> entry C' x' i = entry C x i.
Proof using D Hde Hj Wr.
  intros Hi Hne. pose proof nentries_after. pose proof (dir_size _ _ D) as E. rewrite (entry_slice C') by (exact dir_after || lia).
  rewrite (entry_slice C) by done. rewrite (wr_bytes _ _ _ _ _ _ _ Wr). unfold sizeof_dirent in *.
  apply overwrite_off; rewrite ?length_fbytes, ?Hde; lia.
Qed.
End one_entry.

(** The entry [dirlink] writes. *)
Definition new_entry (name : list Z) (inum : Z) : list Z := le_bytes 2 inum ++ strncpy_bytes name (Z.to_nat DIRSIZ).

Lemma new_entry_bytes name inum : Forall is_byte name -> Forall is_byte (new_entry name inum) /\ length (new_entry name inum) = 16%nat.
Proof.
  intros Hn. unfold new_entry. rewrite length_app, le_bytes_length, strncpy_bytes_length. split; [|done]. apply Forall_app. split; [apply le_bytes_are_bytes|].
  generalize (Z.to_nat DIRSIZ). intros n. revert name Hn. induction n as [|n IH]; intros name Hn; cbn [strncpy_bytes]; [constructor|].
  destruct Hn as [|c r Hc Hr]; cbn [hd tail]; [apply Forall_replicate; unfold is_byte; lia|].
  destruct (c =? 0); [apply Forall_replicate; unfold is_byte; lia|]. constructor; [done|by apply IH].
Qed.
Lemma new_entry_inum name inum : 0 <= inum < 2 ^ 16 -> de_inum (new_entry name inum) = inum.
Proof.
  intros Hi. unfold de_inum, get16, new_entry. change (Z.to_nat 0) with 0%nat. rewrite drop_0, take_app_length' by (by rewrite le_bytes_length).
  rewrite le_value_bytes. by apply Z.mod_small.
Qed.
Lemma new_entry_name name inum : Forall is_byte name -> namecmp name (de_name (new_entry name inum)) = 0.
Proof.
  intros Hn. destruct (new_entry_bytes name inum Hn) as [Hb _]. unfold namecmp. apply strncmp_zero; [done|by apply Forall_take, Forall_drop|].
  unfold de_name, new_entry. rewrite drop_app_length' by (by rewrite le_bytes_length). rewrite (take_ge (strncpy_bytes _ _)) by (by rewrite strncpy_bytes_length).
  rewrite cstr_strncpy_bytes, take_take. by rewrite Nat.min_id.
Qed.

Lemma find_entry_first C x name k j : 0 <= j < Z.of_nat k -> entry_matches C x name j = true ->
  (forall i, 0 <= i < j -> entry_matches C x name i = false) -> find_entry C x name k 0 = Some j.
Proof.
  intros Hj Hm Hb. pose proof (find_entry_spec C x name k 0) as Hs. destruct (find_entry C x name k 0) as [j'|].
  - destruct Hs as (Hj' & Hm' & Hb'). f_equal. destruct (Z.lt_trichotomy j j') as [Hlt|[->|Hlt]]; [|done|].
    + rewrite Hb' in Hm by lia. done.
    + rewrite Hb in Hm' by lia. done.
  - rewrite Hs in Hm by lia. done.
Qed.

Section dirlink_thm.
Context `{Layout}.

Lemma write_pre_same s s' C bs x off n : same s s' -> tx s' C ∅ bs -> write_pre s C bs x off n -> write_pre s' C bs x off n.
Proof.
  intros S I P. pose proof (sm_sb _ _ S) as Esb. destruct P as [P1 P2 P3 P4 P5 P6 P7 P8]. split; rewrite ?Esb; try done; [by eapply geom_same|eapply but_iblock; [by apply (same_but_same 0)|done]|by eapply room_same].
Qed.

Lemma wrote_same s s' C x off bs C' x' : same s s' -> wrote s' C x off bs C' x' -> wrote s C x off bs C' x'.
Proof.
  intros S [W1 W2 W3 W4 W5 W6 W7 W8 W9]. rewrite (sm_sb _ _ S) in *. split; try done. intros inum y Hi. apply W7.
  eapply but_iblock; [by apply (same_but_same 0)|done].
Qed.

Lemma nblocks_entry j : 0 <= j -> nblocks (sizeof_dirent * j) sizeof_dirent = 1.
Proof.
  intros Hj. unfold nblocks, touched, sizeof_dirent. cbn [Z.ltb Z.compare]. pose proof (Z.div_mod (16 * j) BSIZE ltac:(done)) as Hd. pose proof (Z.mod_pos_bound (16 * j) BSIZE ltac:(done)).
  assert ((16 * j) mod BSIZE = 16 * (j mod 64)) as E by (change BSIZE with (16 * 64); by rewrite Z.mul_mod_distr_l by done).
  pose proof (Z.mod_pos_bound j 64 ltac:(lia)). replace ((16 * j + 16 - 1) / BSIZE) with (16 * j / BSIZE); [lia|].
  apply (Z.div_unique_pos _ _ _ ((16 * j) mod BSIZE + 15)); unfold BSIZE in *; lia.
Qed.

(** A link was made: entry [j], empty before or at the end, is the new one; the
    other entries are as before; a lookup of the name finds it. *)
Record linked (s : fsst) (C : Z -> list Z) (x : inode) (j : Z) (name : list Z) (inum : Z) (C' : Z -> list Z) (x' : inode) : Prop := {
  lk_wrote : wrote s C x (sizeof_dirent * j) (new_entry name inum) C' x';
  lk_dir : dir_ok C' x';
  lk_slot : 0 <= j <= Z.of_nat (nentries x) /\ (j < Z.of_nat (nentries x) -> de_inum (entry C x j) = 0);
  lk_count : Z.of_nat (nentries x') = Z.max (Z.of_nat (nentries x)) (j + 1);
  lk_new : entry C' x' j = new_entry name inum;
  lk_old : forall i, 0 <= i < Z.of_nat (nentries x) -> i <> j -> entry C' x' i = entry C x i;
  lk_find : find_entry C' x' name (nentries x') 0 = Some j /\ de_inum (entry C' x' j) = inum
}.

Lemma linked_intro s C x j name inum C' x' : dir_ok C x -> Forall is_byte name -> 0 < inum < 2 ^ 16 ->
  0 <= j <= Z.of_nat (nentries x) -> (j < Z.of_nat (nentries x) -> de_inum (entry C x j) = 0) ->
  find_entry C x name (nentries x) 0 = None -> wrote s C x (sizeof_dirent * j) (new_entry name inum) C' x' ->
  linked s C x j name inum C' x'.
Proof.
  intros D Hn Hi Hj Hf Hnone Wr. destruct (new_entry_bytes name inum Hn) as [_ Hl].
  pose proof (entry_new s C x D C' x' j _ Hl Hj Wr) as Enew. pose proof (entry_old s C x D C' x' j _ Hl Hj Wr) as Eold.
  pose proof (nentries_after s C x D C' x' j _ Hl Hj Wr) as Hc. split; [done|by eapply dir_after|done|done|done|done|].
  rewrite Enew, new_entry_inum by lia. split; [|done]. apply find_entry_first; [lia| |].
  - unfold entry_matches. rewrite Enew, new_entry_inum by lia. rewrite (proj2 (Z.eqb_neq inum 0)) by lia. by rewrite new_entry_name.
  - intros i Hij. pose proof (find_entry_spec C x name (nentries x) 0) as Hs. rewrite Hnone in Hs. unfold entry_matches. rewrite Eold by lia. apply Hs. lia.
Qed.

(** [writei] of the entry: all of it, or nothing. *)
Lemma wp_write_entry s C bs dp name inum j (x := inode_at s dp) : dir_ok C x -> write_pre s C bs x 0 sizeof_dirent ->
  Forall is_byte name -> 0 <= j <= Z.of_nat (nentries x) ->
  wp (writei dp (FromVar (new_entry name inum)) (sizeof_dirent * j) sizeof_dirent) (fun r s' => exists C' bs', tx s' C' ∅ bs' /\ same_but dp s s' /\
    (r = sizeof_dirent /\ wrote s C x (sizeof_dirent * j) (new_entry name inum) C' (inode_at s' dp) \/
     r <> sizeof_dirent /\ fbytes C' (inode_at s' dp) 0 (i_size x) = fbytes C x 0 (i_size x) /\ i_size (inode_at s' dp) = i_size x /\
       (i_size x + sizeof_dirent > MAXFILE * BSIZE \/ full C' (fsb s)))) s.
Proof.
  intros D P Hn Hj. destruct (new_entry_bytes name inum Hn) as [Hb Hl]. pose proof (dir_size _ _ D) as Hs. pose proof (fo_size _ _ (do_file _ _ D)) as Hz.
  assert (write_pre s C bs x (sizeof_dirent * j) sizeof_dirent) as Pj.
  { destruct P as [P1 P2 P3 P4 P5 P6 P7 P8]. split; try done. rewrite nblocks_entry by lia. exact P8. }
  destruct (write_bad x (sizeof_dirent * j) sizeof_dirent) eqn:Eb.
  { unfold write_bad in Eb. unfold writei. apply wp_bind, wp_gets. fold x. rewrite u32_small in * by (unfold sizeof_dirent in *; file_lia).
    assert ((sizeof_dirent * j >? i_size x) || (sizeof_dirent * j + sizeof_dirent <? sizeof_dirent * j) = false) as E1 by (unfold sizeof_dirent in *; lia).
    rewrite E1 in Eb |- *. cbn [orb] in Eb. rewrite Eb. apply wp_ret. exists C, bs. split; [apply P|]. split; [by apply same_but_same|]. right.
    split; [done|]. split; [done|]. split; [done|]. left. unfold sizeof_dirent in *. lia. }
  change sizeof_dirent with (Z.of_nat 16) at 2. rewrite <- Hl. eapply wp_mono; [|apply (wp_writei s C bs); [by rewrite Hl|by rewrite Hl|apply src_gives_var|done|unfold sizeof_dirent; lia]].
  intros r s' (C' & bs' & Hr & I' & S' & Wr & Hf). fold x in Wr. rewrite Hl in *. exists C', bs'. split; [done|]. split; [done|].
  destruct (Z.eq_dec r sizeof_dirent) as [->|Hne]; [left; split; [done|]; rewrite take_ge in Wr by (rewrite Hl; done); done|right].
  unfold sizeof_dirent in *. destruct (Hf ltac:(lia)) as [Hfull Hr0]. assert (r = 0) as ->.
  { destruct Hr0 as [|Hm]; [done|]. assert ((16 * j) mod BSIZE = 16 * (j mod 64)) as E by (change BSIZE with (16 * 64); by rewrite Z.mul_mod_distr_l by done).
    pose proof (Z.mod_pos_bound j 64 ltac:(lia)). destruct (block_of (16 * j) r) as [_ E2]; [unfold BSIZE in *; lia|]. lia. }
  change (take (Z.to_nat 0) (new_entry name inum)) with (@nil Z) in Wr. pose proof (wr_inode _ _ _ _ _ _ _ Wr) as Ei. assert (i_size (inode_at s' dp) = i_size x) as Ez by (rewrite Ei; cbn [i_size with_addrs set_isize length]; lia).
  split; [done|]. split; [|by auto]. rewrite <- Ez at 1. rewrite (wr_bytes _ _ _ _ _ _ _ Wr). unfold overwrite. cbn [app length]. by rewrite Nat.add_0_r, take_drop.
Qed.
End dirlink_thm.

(** C28: [dirlink] of an inode number under a name, in a transaction with log space for
    the blocks one entry may change.  If the directory has the name, the inode found
    is put back and the result is -1.  Otherwise the result is 0, the entry is the
    first empty one or a new one at the end, the others are as before, and a lookup
    of the name finds the number; or it is -1 and the entries are as before, because
    the directory has its largest size or every block of the disk is in use. *)
Theorem dirlink_links `{Layout} (s : fsst) (C : Z -> list Z) (bs : list Z) (dp : Z) (name : list Z) (inum : Z) :
  let x := inode_at s dp in
  dir_ok C x -> write_pre s C bs x 0 sizeof_dirent -> Forall is_byte name -> 0 < inum < 2 ^ 16 ->
  match find_entry C x name (nentries x) 0 with
  | Some j => exists s', same s s' /\ tx s' C ∅ bs /\
      dirlink dp name inum s = (do ip <- iget ROOTDEV (de_inum (entry C x j)); iput ip ;;; return (-1)) s'
  | None => exists r s' C' bs', dirlink dp name inum s = Ok r s' /\ tx s' C' ∅ bs' /\ same_but dp s s' /\
      (r = 0 /\ linked s C x (find_free C x (nentries x) 0) name inum C' (inode_at s' dp) \/
       r = -1 /\ fbytes C' (inode_at s' dp) 0 (i_size x) = fbytes C x 0 (i_size x) /\ i_size (inode_at s' dp) = i_size x /\
         (i_size x + sizeof_dirent > MAXFILE * BSIZE \/ full C' (fsb s)))
  end.
Proof.
  intros x D P Hn Hi. pose proof (pre_tx _ _ _ _ _ _ P) as I. pose proof (fo_size _ _ (do_file _ _ D)) as Hz.
  assert (nentries x <= Z.to_nat (i_size x / sizeof_dirent + 1))%nat as Hfuel.
  { unfold nentries. pose proof (Z.div_pos (i_size x) sizeof_dirent ltac:(lia) ltac:(done)). lia. }
  destruct (dirlookup_loop_run C bs dp x name (Z.to_nat (i_size x / sizeof_dirent + 1)) s 0 (nentries x) D I eq_refl) as (s1 & S1 & I1 & Hd); [lia|lia|done|].
  assert (dirlookup dp name s = dirlookup_loop (Z.to_nat (i_size x / sizeof_dirent + 1)) dp name (sizeof_dirent * 0) s) as Hdl.
  { unfold dirlookup, get_inode. rewrite bind_gets. fold x. by rewrite (do_type _ _ D). }
  rewrite Hd in Hdl. destruct (find_entry C x name (nentries x) 0) as [j|] eqn:Hfe.
  { exists s1. split; [done|]. split; [done|]. unfold dirlink, bind at 1. rewrite Hdl. unfold bind. by destruct (iget _ _ s1). }
  destruct (find_free_spec C x (nentries x) 0) as [Hj Hj0]. rewrite Z.add_0_l in *. set (j := find_free C x (nentries x) 0) in *.
  assert (inode_at s1 dp = x) as Ex1 by (by apply inode_at_same).
  assert (wp (dirlink dp name inum) (fun r s' => exists C' bs', tx s' C' ∅ bs' /\ same_but dp s s' /\
    (r = 0 /\ linked s C x j name inum C' (inode_at s' dp) \/
     r = -1 /\ fbytes C' (inode_at s' dp) 0 (i_size x) = fbytes C x 0 (i_size x) /\ i_size (inode_at s' dp) = i_size x /\
       (i_size x + sizeof_dirent > MAXFILE * BSIZE \/ full C' (fsb s)))) s) as Hw; [|apply wp_Ok in Hw as (r & s' & Hr & C' & bs' & Hw); by exists r, s', C', bs'].
  unfold dirlink. apply wp_bind. eapply wp_run; [exact Hdl|]. apply wp_bind, wp_gets. rewrite Ex1. apply wp_bind.
  change 0 with (sizeof_dirent * 0). apply (wp_dirlink_loop C bs dp x _ s1 0 (nentries x)); [done|done|done|lia|lia|done|]. intros s2 S2 I2. fold j.
  assert (same s s2) as S02 by (by transitivity s1). assert (inode_at s2 dp = x) as Ex2 by (by apply inode_at_same).
  apply wp_bind. eapply wp_mono; [|apply (wp_write_entry s2 C bs dp name inum j); rewrite ?Ex2; [done|by eapply write_pre_same|done|done]].
  intros r s3 (C' & bs' & I3 & S3 & Hcase). rewrite Ex2, (sm_sb _ _ S02) in Hcase. assert (same_but dp s s3) as S03 by (etransitivity; [by apply same_but_same|exact S3]).
  destruct Hcase as [[-> Wr]|[Hr Hbad]].
  - apply wp_ret. exists C', bs'. split; [done|]. split; [done|]. left. split; [done|]. apply linked_intro; try done. by eapply wrote_same.
  - rewrite (proj2 (Z.eqb_neq _ _) Hr). apply wp_ret. exists C', bs'. split; [done|]. split; [done|]. right. by split.
Qed.

(** ** Example: a link in an empty directory *)

#[local] Program Instance fs_layout : Layout :=
  {| etext := PHYSTOP - 4 * PGSIZE; kend := PHYSTOP - 2 * PGSIZE; trampoline := PHYSTOP - 5 * PGSIZE |}.
Solve Obligations with (vm_compute; congruence).

Definition ex_link : option Z :=
  match begin_boot (ex_platter ∅) 1 ex_sb (ex_files T_DIR) ex_mem ex_ptable with
  | Ok _ s => match dirlink 0 [97] 7 s with Ok r _ => Some r | _ => None end
  | _ => None
  end.

Lemma dirlink_links_witness : exists s s' C',
  begin_boot (ex_platter ∅) 1 ex_sb (ex_files T_DIR) ex_mem ex_ptable = Ok tt s /\
  dirlink 0 [97] 7 s = Ok 0 s' /\ find_entry C' (inode_at s' 0) [97] (nentries (inode_at s' 0)) 0 = Some 0.
Proof.
  destruct (ex_pre T_DIR sizeof_dirent ltac:(vm_compute; split; [intros [=]|reflexivity]) eq_refl) as (s & C & Hs & Hx & Hpre).
  pose proof (dirlink_links s C [] 0 [97] 7) as Hl. rewrite Hx in Hl.
  specialize (Hl ltac:(split; [exact (pre_file _ _ _ _ _ _ Hpre)|reflexivity|reflexivity]) Hpre ltac:(repeat constructor; lia) ltac:(lia)).
  destruct Hl as (r & s' & C' & bs' & Hr & _ & _ & Hcase).
  assert (r = 0) as ->.
  { assert (ex_link = Some 0) as He by (vm_compute; reflexivity). unfold ex_link in He. rewrite Hs, Hr in He. injection He as ->. reflexivity. }
  exists s, s', C'. split; [exact Hs|]. split; [exact Hr|]. destruct Hcase as [[_ L]|[E _]]; [exact (proj1 (lk_find _ _ _ _ _ _ _ _ L))|lia].
Defined.
