(* ===== verification/FsTrunc.v ===== *)
(** * Truncating a file and dropping an inode: [itrunc] and [iput] of [kernel/fs.c]

    [itrunc] gives the blocks of a file back to the free map; [iput] does so when
    the last reference to an inode without links goes away, and frees the inode. *)

From stdpp Require Import base gmap strings fin_sets functions list.
From S2P Require Import Prelude Riscv Mem Spinlock Kalloc Vm Sleeplock ProcData Bytes Bio BioSpec Log LogSpec Fs FsTx FsAlloc FsFile FsGrow FsWrite.

Lemma wp_for_range {S} (J : Z -> S -> Prop) n i (body : Z -> M S unit) (Q : unit -> S -> Prop) s :
  J i s -> (forall j s, i <= j < i + Z.of_nat n -> J j s -> wp (body j) (fun _ s' => J (j + 1) s') s) ->
  (forall s, J (i + Z.of_nat n) s -> Q tt s) -> wp (for_range n i body) Q s.
Proof.
  intros H0 Hstep HQ. destruct (for_range_inv J n i body s) as (s' & Hr & HJ); [|done|].
  - intros j t Hj Ht. destruct (wp_Ok _ _ _ (Hstep j t Hj Ht)) as ([] & t' & ? & ?). by exists t'.
  - eapply wp_run; [exact Hr|]. by apply HQ.
Qed.

(** ** Log space: the blocks of the free map that are not in the log yet *)

Definition map_blocks (sb : superblock) : list Z := seqZ (sb_bmapstart sb) (sb_size sb / BPB + 1).
Definition map_room (sb : superblock) (bs : list Z) : Z := Z.of_nat (length (filter (fun y => y ∉ bs) (map_blocks sb))).

Lemma room_free s bs b c : geom s -> 0 <= b < sb_size (fsb s) -> room s bs (map_room (fsb s) bs + c) ->
  let bs' := add_block (BBLOCK b (fsb s)) bs in room s bs' (map_room (fsb s) bs' + c).
Proof.
  intros G Hb R bs'. subst bs'. set (B := BBLOCK b (fsb s)). destruct (decide (B ∈ bs)) as [Hi|Hi]; [by rewrite add_block_in|].
  assert (map_room (fsb s) (add_block B bs) < map_room (fsb s) bs) as Hlt.
  { unfold map_room. apply inj_lt.
    rewrite (list_filter_iff (fun y => y ∉ add_block B bs) (fun y => y <> B /\ y ∉ bs)) by (intros y; rewrite elem_of_add; tauto).
    rewrite <- list_filter_filter. apply (length_filter_lt _ _ B); [|tauto]. apply list_elem_of_filter. split; [done|].
    apply elem_of_seqZ. destruct (BBLOCK_eq s G b Hb) as [_ HB]. unfold nmeta in HB. fold B in HB. lia. }
  apply (room_le _ _ (map_room (fsb s) bs + c - 1)); [|lia]. apply room_add. eapply room_le; [exact R|lia].
Qed.

(** ** Freeing the blocks of a file, in the order of their numbers *)

(** The blocks before number [k] of the file are free, and nothing else changed. *)
Record freed (sb : superblock) (C : Z -> list Z) (x : inode) (k : Z) (C' : Z -> list Z) : Prop := {
  fr_used : forall b, 0 <= b < sb_size sb ->
    used C' sb b = true <-> used C sb b = true /\ ~ (b <> 0 /\ exists j, 0 <= j < k /\ slot C x j = b);
  fr_frame : forall y, ~ sb_bmapstart sb <= y < nmeta sb -> C' y = C y
}.

Section freed.
Context (s : fsst) (G : geom s) (C : Z -> list Z) (x : inode) (W : inode_wf C (fsb s) x).
Notation sb := (fsb s).

Lemma freed_0 : freed sb C x 0 C.
Proof using. split; [|done]. intros b _. split; [|tauto]. intros Hu. split; [done|]. intros (_ & j & Hj & _). lia. Qed.
Lemma freed_skip k k' C' : 0 <= k <= k' -> (forall j, k <= j < k' -> slot C x j = 0) -> freed sb C x k C' -> freed sb C x k' C'.
Proof using.
  intros Hk H0 [Fu Ff]. split; [|done]. intros b Hb. rewrite Fu by done. split; intros [Hu Hn]; (split; [done|]); intros (Hb0 & j & Hj & E); apply Hn; (split; [done|]); exists j.
  - split; [|done]. destruct (Z.lt_ge_cases j k); [lia|]. rewrite H0 in E by lia. congruence.
  - split; [lia|done].
Qed.
Lemma freed_live k C' : 0 <= k <= MAXFILE -> slot C x k <> 0 -> freed sb C x k C' -> used C' sb (slot C x k) = true.
Proof using W G.
  intros Hk Hs [Fu _]. pose proof (nmeta_pos s G). destruct (iw_range _ _ _ W _ (owns_slot _ _ _ Hk Hs)) as [Hr Hu]. apply Fu; [lia|]. split; [done|].
  intros (_ & j & Hj & E). pose proof (iw_inj _ _ _ W k j Hk ltac:(lia) Hs (eq_sym E)). lia.
Qed.
Lemma freed_next k C' : 0 <= k <= MAXFILE -> slot C x k <> 0 -> (forall y, bytes_ok BSIZE (C' y)) -> freed sb C x k C' ->
  freed sb C x (k + 1) (free_block sb (slot C x k) C').
Proof using W G.
  intros Hk Hs HC [Fu Ff]. pose proof (nmeta_pos s G). destruct (iw_range _ _ _ W _ (owns_slot _ _ _ Hk Hs)) as [Hr _]. split.
  - intros b Hb. rewrite used_free by (done || lia). rewrite andb_true_iff, negb_true_iff, bool_decide_eq_false, Fu by done. split.
    + intros [[Hu Hn] Hne]. split; [done|]. intros (Hb0 & j & Hj & E). destruct (Z.eq_dec j k) as [->|]; [congruence|].
      apply Hn. split; [done|]. exists j. split; [lia|done].
    + intros [Hu Hn]. split; [split; [done|]|].
      * intros (Hb0 & j & Hj & E). apply Hn. split; [done|]. exists j. split; [lia|done].
      * intros ->. apply Hn. split; [done|]. exists k. split; [lia|done].
  - intros y Hy. unfold free_block. destruct (BBLOCK_eq s G (slot C x k) ltac:(lia)) as [_ HB]. rewrite fn_lookup_insert_ne by lia. by apply Ff.
Qed.
Lemma freed_all C' b : freed sb C x (MAXFILE + 1) C' -> 0 <= b < sb_size sb -> used C' sb b = true <-> used C sb b = true /\ ~ owns C x b.
Proof using.
  intros [Fu _] Hb. rewrite Fu by done. assert ((b <> 0 /\ exists j, 0 <= j < MAXFILE + 1 /\ slot C x j = b) <-> owns C x b) as ->; [|done].
  split; intros (Hb0 & j & Hj & E); (split; [done|]); exists j; (split; [lia|done]).
Qed.
End freed.

(** The inode with its first [i] addresses cleared. *)
Definition zeroed (i : nat) (x : inode) : inode := with_addrs (replicate i 0 ++ drop i (i_addrs x)) x.

Section zeroed.
Context (x : inode) (Hl : length (i_addrs x) = 13%nat).

Lemma zeroed_0 : zeroed 0 x = x.
Proof using Hl. by destruct x. Qed.
Lemma addr_at_zeroed i j : (i <= 13)%nat -> Z.of_nat i <= j -> addr_at (zeroed i x) j = addr_at x j.
Proof using Hl.
  intros Hi Hj. unfold addr_at, zeroed. cbn. rewrite !nth_lookup, lookup_app_r by (rewrite length_replicate; lia).
  rewrite lookup_drop, length_replicate. do 2 f_equal. lia.
Qed.
Lemma zeroed_S i : (i < 13)%nat -> set_iaddr (Z.of_nat i) 0 (zeroed i x) = zeroed (S i) x.
Proof using Hl.
  intros Hi. unfold zeroed, with_addrs, set_iaddr. cbn. f_equal. rewrite Nat2Z.id.
  destruct (lookup_lt_is_Some_2 (i_addrs x) i ltac:(lia)) as [a Ha]. rewrite (drop_S _ _ _ Ha), insert_app_r_alt by (rewrite length_replicate; lia).
  rewrite length_replicate, Nat.sub_diag. cbn. by rewrite app_comm_cons, replicate_cons_app, <- app_assoc.
Qed.
Lemma zeroed_skip i : (i < 13)%nat -> addr_at x (Z.of_nat i) = 0 -> zeroed (S i) x = zeroed i x.
Proof using Hl.
  intros Hi H0. rewrite <- zeroed_S by done. unfold set_iaddr, zeroed, with_addrs. cbn. f_equal. rewrite Nat2Z.id.
  destruct (lookup_lt_is_Some_2 (i_addrs x) i ltac:(lia)) as [a Ha]. unfold addr_at in H0. rewrite nth_lookup, Nat2Z.id, Ha in H0. cbn in H0. subst a.
  apply list_insert_id. rewrite lookup_app_r by (rewrite length_replicate; lia). rewrite length_replicate, Nat.sub_diag, lookup_drop, Nat.add_0_r. done.
Qed.
End zeroed.

(** ** [itrunc] *)

(** The inode with no block. *)
Definition cleared (x : inode) : inode := with_addrs (replicate 13 0) (set_isize 0 x).

Lemma cleared_typed x : inode_typed x -> inode_typed (cleared x).
Proof. intros []. split; cbn; try done. by repeat constructor. Qed.

(** What freeing the blocks of [x] leaves: the other inodes, the content of all data
    blocks, and in the free map the blocks that [x] did not own. *)
Record gives_back (s : fsst) (C : Z -> list Z) (x : inode) (C' : Z -> list Z) : Prop := {
  gb_used : forall b, 0 <= b < sb_size (fsb s) -> used C' (fsb s) b = true <-> used C (fsb s) b = true /\ ~ owns C x b;
  gb_data : forall y, nmeta (fsb s) <= y < sb_size (fsb s) -> C' y = C y;
  gb_inodes : forall inum y, iblock_ok s inum -> inum <> i_inum x ->
    load_dinode (C' (IBLOCK inum (fsb s))) (dinode_off inum) y = load_dinode (C (IBLOCK inum (fsb s))) (dinode_off inum) y
}.

Section gives_back.
Context (s : fsst) (G : geom s) (C : Z -> list Z) (x : inode).
Notation sb := (fsb s).
Notation B := (IBLOCK (i_inum x) sb).

Lemma gives_back_freed C' : freed sb C x (MAXFILE + 1) C' -> gives_back s C x C'.
Proof using G.
  intros F. pose proof (nmeta_pos s G). split.
  - intros b Hb. by apply (freed_all s).
  - intros y Hy. apply (fr_frame _ _ _ _ _ F). lia.
  - intros inum y (_ & _ & Hi) _. by rewrite (fr_frame _ _ _ _ _ F) by lia.
Qed.

(** Writing the inode itself. *)
Lemma gives_back_store C' x' : iblock_ok s (i_inum x) -> (forall y, bytes_ok BSIZE (C' y)) -> length (i_addrs x') = 13%nat ->
  gives_back s C x C' -> gives_back s C x (<[B := store_dinode (dinode_off (i_inum x)) x' (C' B)]> C').
Proof using G.
  intros (H0 & HB & HB1 & HB2) HC Hl [Gu Gd Gi]. pose proof (nmeta_pos s G). assert (sb_bmapstart sb < nmeta sb).
  { unfold nmeta. pose proof (Z.div_pos (sb_size sb) BPB (size_pos s G) ltac:(done)). lia. }
  split.
  - intros b Hb. rewrite front_used by done. by apply Gu.
  - intros y Hy. rewrite fn_lookup_insert_ne by lia. by apply Gd.
  - intros inum y Hi Hne. rewrite <- (Gi inum y Hi Hne). destruct Hi as (Hn0 & HnB & _).
    destruct (decide (IBLOCK inum sb = B)) as [EB|NB]; [|by rewrite fn_lookup_insert_ne].
    rewrite EB in *. rewrite fn_lookup_insert. pose proof (dinode_off_range inum). pose proof (dinode_off_range (i_inum x)).
    apply load_store_other; [done|lia|lia|done|lia|].
    unfold dinode_off. pose proof (Z.div_mod inum IPB ltac:(done)). pose proof (Z.div_mod (i_inum x) IPB ltac:(done)). lia.
Qed.

(** The other files keep their blocks, their invariant and their bytes. *)
Lemma gives_back_others C' y : gives_back s C x C' -> inode_wf C sb y -> (forall b, owns C y b -> ~ owns C x b) ->
  (forall k, 0 <= k <= MAXFILE -> slot C' y k = slot C y k) /\ inode_wf C' sb y /\
  (file_ok C y -> fbytes C' y 0 (i_size y) = fbytes C y 0 (i_size y)).
Proof using G.
  intros Gb W D. pose proof (nmeta_pos s G).
  assert (forall b, owns C y b -> C' b = C b) as Hc by (intros b Hb; apply (gb_data _ _ _ _ Gb); by apply (iw_range _ _ _ W)).
  assert (forall k, 0 <= k <= MAXFILE -> slot C' y k = slot C y k) as Hs.
  { intros k Hk. apply slots_alike; [done| |done]. intros Ha. by apply Hc, ind_owned. }
  split; [done|]. split; [split; [apply W|apply W|..]|].
  - intros b [Hb (k & Hk & E)]. rewrite Hs in E by done. assert (owns C y b) as Ho by (split; [done|by exists k]).
    destruct (iw_range _ _ _ W b Ho) as [Hr Hu]. split; [done|]. apply (gb_used _ _ _ _ Gb); [lia|]. split; [done|by apply D].
  - intros k k' Hk Hk'. rewrite !Hs by done. by apply (iw_inj _ _ _ W).
  - intros F. pose proof (fo_size _ _ F). unfold fbytes. apply list_fmap_ext. intros i k [-> Hk]%lookup_seq.
    set (o := 0 + Z.of_nat (0 + i)). pose proof (off_block o ltac:(lia)) as Ho. unfold fbyte. rewrite <- !slot_data, Hs by (lia || done).
    rewrite Hc; [done|]. apply owns_slot; [lia|]. rewrite slot_data by done. apply (fo_blocks _ _ F); [lia|].
    pose proof (Z.mul_div_le o BSIZE ltac:(done)). lia.
Qed.
End gives_back.

(** The preconditions of freeing the blocks of [x] and writing the inode [n] times. *)
Record trunc_pre (s : fsst) (C : Z -> list Z) (bs : list Z) (x : inode) (n : Z) : Prop := {
  tp_tx : tx s C ∅ bs;
  tp_geom : geom s;
  tp_wf : inode_wf C (fsb s) x;
  tp_typed : inode_typed x;
  tp_iblock : iblock_ok s (i_inum x);
  tp_room : room s bs (map_room (fsb s) bs + n)
}.

Section itrunc.
Context (ip : Z) (s0 : fsst) (C : Z -> list Z) (bs0 : list Z) (c : Z) (Hc : 0 <= c).
Let x := inode_at s0 ip.
Notation sb := (fsb s0).
Context (P : trunc_pre s0 C bs0 x (c + 1)).

(** In the middle: the blocks before number [k] are free, [z] addresses are cleared,
    and the buffers of [held] are locked. *)
Definition trunc_inv (held : gset Z) (z : nat) (k : Z) (s : fsst) : Prop :=
  exists C1 bs1, tx s C1 held bs1 /\ same_but ip s0 s /\ inode_at s ip = zeroed z x /\ freed sb C x k C1 /\
    room s bs1 (map_room sb bs1 + (c + 1)).

(** [bfree] of the next block. *)
Lemma wp_free_next held z k s (Q : unit -> fsst -> Prop) : trunc_inv held z k s -> 0 <= k <= MAXFILE -> slot C x k <> 0 ->
  (forall y, y ∈ held -> nmeta sb <= y) -> Z.of_nat (size held) <= 1 ->
  (forall s', trunc_inv held z (k + 1) s' -> (forall i y, y ∈ held -> buf_of s i y -> buf_of s' i y) -> Q tt s') ->
  wp (bfree ROOTDEV (slot C x k)) Q s.
Proof using P Hc.
  intros (C1 & bs1 & I1 & S1 & X1 & F1 & R1) Hk Hs Hh Hsz HQ. pose proof (tp_geom _ _ _ _ _ P) as G. pose proof (tp_wf _ _ _ _ _ P) as W.
  pose proof (nmeta_pos _ G). destruct (iw_range _ _ _ W _ (owns_slot _ _ _ Hk Hs)) as [Hr _]. pose proof (but_sb _ _ _ S1) as Esb.
  assert (0 <= map_room sb bs1) by (unfold map_room; lia). pose proof (but_geom _ _ _ S1 G) as G1.
  apply (wp_bfree s C1 held bs1 _ (map_room sb bs1 + (c + 1))); rewrite ?Esb; [done|done|done|lia|lia|done|lia|by apply (freed_live s0)|].
  intros s' I' S' K'. apply HQ; [|done]. eexists _, _. split; [exact I'|]. split; [etransitivity; [exact S1|by apply same_but_same]|].
  split; [by rewrite (inode_at_same _ _ _ S')|]. split; [apply freed_next; try done; intros y; by eapply tx_bytes|].
  eapply room_same; [exact S'|]. rewrite <- Esb in *. apply room_free; [done|lia|done].
Qed.

Lemma trunc_inv_upd held z z' k s f : f (zeroed z x) = zeroed z' x -> trunc_inv held z k s ->
  trunc_inv held z' k (set_fit (mkItable (it_lock (fit s)) (<[ip := f (inode_at s ip)]> (it_inode (fit s)))) s).
Proof using.
  intros Hf (C1 & bs1 & I1 & S1 & X1 & F1 & R1). exists C1, bs1. split; [by apply tx_set_fit|].
  split; [etransitivity; [exact S1|apply same_but_upd]|]. split; [by rewrite inode_at_upd, X1|]. done.
Qed.

(** The direct blocks. *)
Lemma wp_trunc_direct i s : 0 <= i < NDIRECT -> trunc_inv ∅ (Z.to_nat i) i s ->
  wp (do y <- get_inode ip; if negb (addr_at y i =? 0) then bfree (i_dev y) (addr_at y i) ;;; upd_inode ip (set_iaddr i 0) else return tt)
    (fun _ => trunc_inv ∅ (Z.to_nat (i + 1)) (i + 1)) s.
Proof using P Hc.
  intros Hi J. pose proof J as (C1 & bs1 & I1 & S1 & X1 & F1 & R1). pose proof (tp_wf _ _ _ _ _ P) as W. pose proof (iw_len _ _ _ W) as Hl.
  apply wp_bind, wp_gets. rewrite X1, addr_at_zeroed by (done || file_lia). change (i_dev (zeroed (Z.to_nat i) x)) with (i_dev x). rewrite (iw_dev _ _ _ W).
  pose proof (slot_direct C x i Hi) as Hs. replace (Z.to_nat (i + 1)) with (S (Z.to_nat i)) by lia. destruct (Z.eqb_spec (addr_at x i) 0) as [H0|H0]; cbn [negb].
  - apply wp_ret. exists C1, bs1. split; [done|]. split; [done|]. split; [rewrite zeroed_skip by (done || rewrite ?Z2Nat.id by lia; file_lia || done); done|].
    split; [|done]. apply (freed_skip s0 C x i); [lia| |done]. intros j Hj. replace j with i by lia. congruence.
  - rewrite <- Hs in *. apply wp_bind. apply (wp_free_next ∅ (Z.to_nat i)); [done|file_lia|done|set_solver|rewrite size_empty; lia|]. intros s' J' _.
    apply wp_modify. apply (trunc_inv_upd ∅ (Z.to_nat i)); [|done]. rewrite <- (zeroed_S x Hl) by file_lia. by rewrite Z2Nat.id by lia.
Qed.

(** The blocks that the indirect block [A] names, with its buffer [bp] locked. *)
Lemma wp_trunc_entries s bp (A := addr_at x NDIRECT) (Q : unit -> fsst -> Prop) : A <> 0 -> trunc_inv {[A]} 12 NDIRECT s -> buf_of s bp A ->
  (forall s', trunc_inv {[A]} 12 MAXFILE s' -> buf_of s' bp A -> Q tt s') ->
  wp (for_range (Z.to_nat NINDIRECT) 0 (fun j => if negb (get32 (C A) (4 * j) =? 0) then bfree ROOTDEV (get32 (C A) (4 * j)) else return tt)) Q s.
Proof using P Hc.
  intros HA J Hb HQ. pose proof (tp_wf _ _ _ _ _ P) as W. destruct (iw_range _ _ _ W A (ind_owned C x HA)) as [HAr _].
  apply (wp_for_range (fun j s' => trunc_inv {[A]} 12 (NDIRECT + j) s' /\ buf_of s' bp A)); [done| |intros s' [J' B']; by apply HQ].
  intros j s1 Hj [J1 B1]. rewrite Z2Nat.id in Hj by done. assert (0 <= NDIRECT + j < MAXFILE) as Hk by file_lia.
  assert (slot C x (NDIRECT + j) = get32 (C A) (4 * j)) as Hs.
  { rewrite slot_entry by file_lia. fold A. rewrite (proj2 (Z.eqb_neq _ _) HA). do 2 f_equal. lia. }
  rewrite Z.add_assoc, <- Hs. destruct (Z.eqb_spec (slot C x (NDIRECT + j)) 0) as [H0|H0]; cbn [negb].
  - apply wp_ret. split; [|done]. destruct J1 as (C1 & bs1 & I1 & S1 & X1 & F1 & R1). exists C1, bs1. split; [done|]. split; [done|].
    split; [done|]. split; [|done]. apply (freed_skip s0 C x (NDIRECT + j)); [lia| |done]. intros i Hi. by replace i with (NDIRECT + j) by lia.
  - apply (wp_free_next {[A]} 12); [done|lia|done| |by rewrite size_singleton|].
    + intros y ->%elem_of_singleton. apply HAr.
    + intros s' J' K'. split; [done|]. apply K'; [set_solver|done].
Qed.

Lemma wp_trunc_indirect s (Q : unit -> fsst -> Prop) : trunc_inv ∅ 12 NDIRECT s ->
  (forall s', trunc_inv ∅ 13 (MAXFILE + 1) s' -> Q tt s') ->
  let y := inode_at s ip in
  wp (if negb (addr_at y NDIRECT =? 0) then
        do bp <- zbb (bread (i_dev y) (addr_at y NDIRECT));
        do d <- zbb (buf_data bp);
        for_range (Z.to_nat NINDIRECT) 0 (fun j =>
          if negb (get32 d (4 * j) =? 0) then bfree (i_dev y) (get32 d (4 * j)) else return tt) ;;;
        zbb (brelse bp) ;;;
        bfree (i_dev y) (addr_at y NDIRECT) ;;;
        upd_inode ip (set_iaddr NDIRECT 0)
      else return tt) Q s.
Proof using P Hc.
  intros J HQ y. pose proof J as (C1 & bs1 & I1 & S1 & X1 & F1 & R1). pose proof (tp_wf _ _ _ _ _ P) as W. pose proof (iw_len _ _ _ W) as Hl.
  unfold y. rewrite X1, addr_at_zeroed by (done || lia). change (i_dev (zeroed 12 x)) with (i_dev x). rewrite (iw_dev _ _ _ W).
  set (A := addr_at x NDIRECT). destruct (Z.eqb_spec A 0) as [H0|H0]; cbn [negb].
  - apply wp_ret, HQ. exists C1, bs1. split; [done|]. split; [done|]. split; [by rewrite (zeroed_skip x Hl 12) by (done || lia)|]. split; [|done].
    apply (freed_skip s0 C x NDIRECT); [done| |done]. intros j Hj. destruct (Z.eq_dec j MAXFILE) as [->|]; [by rewrite slot_ind|].
    rewrite slot_entry by lia. fold A. by rewrite H0.
  - destruct (iw_range _ _ _ W A (ind_owned C x H0)) as [HAr _]. pose proof (nmeta_pos _ (tp_geom _ _ _ _ _ P)).
    assert (C1 A = C A) as EA by (apply (fr_frame _ _ _ _ _ F1); lia).
    apply wp_bind. apply (wp_bread s C1 ∅ bs1 I1 _ (map_room sb bs1 + (c + 1))); [apply not_elem_of_empty|done|rewrite size_empty; unfold map_room; lia|].
    intros bp s1 I2 S2 B2 _. rewrite union_empty_r_L in I2. apply wp_bind. apply (wp_data _ _ _ _ I2 _ _ _ B2). rewrite EA. apply wp_bind.
    apply (wp_trunc_entries s1 bp); [done| |done|].
    { exists C1, bs1. split; [done|]. split; [etransitivity; [exact S1|by apply same_but_same]|]. split; [by rewrite (inode_at_same _ _ _ S2)|].
      split; [done|]. by eapply room_same. }
    intros s3 (C3 & bs3 & I3 & S3 & X3 & F3 & R3) B3. apply wp_bind. eapply wp_brelse; [exact I3|exact B3|set_solver|]. intros s4 I4 S4 _.
    rewrite difference_diag_L in I4. apply wp_bind. pose proof (slot_ind C x) as Hs. fold A in Hs. rewrite <- Hs in H0 |- *.
    apply (wp_free_next ∅ 12); [|done|done|set_solver|rewrite size_empty; lia|].
    { exists C3, bs3. split; [done|]. split; [etransitivity; [exact S3|by apply same_but_same]|]. split; [by rewrite (inode_at_same _ _ _ S4)|].
      split; [done|]. by eapply room_same. }
    intros s5 J5 _. apply wp_modify, HQ. apply (trunc_inv_upd ∅ 12); [|done]. apply (zeroed_S x Hl 12). lia.
Qed.

Definition itrunc_post (s : fsst) : Prop :=
  exists C' bs', tx s C' ∅ bs' /\ same_but ip s0 s /\ inode_at s ip = cleared x /\ gives_back s0 C x C' /\
    load_dinode (C' (IBLOCK (i_inum x) sb)) (dinode_off (i_inum x)) (cleared x) = cleared x /\ room s bs' c.

Lemma wp_itrunc : wp (itrunc ip) (fun _ => itrunc_post) s0.
Proof using P Hc.
  pose proof P as [I G W T Hib R]. pose proof (iw_len _ _ _ W) as Hl. unfold itrunc. apply wp_bind.
  apply (wp_for_range (fun i => trunc_inv ∅ (Z.to_nat i) i)).
  { exists C, bs0. split; [done|]. split; [by apply same_but_same|]. split; [by rewrite zeroed_0|]. split; [by apply freed_0|done]. }
  { intros i s Hi. rewrite Z2Nat.id in Hi by done. apply wp_trunc_direct. lia. }
  intros s1 J1. apply wp_bind, wp_gets, wp_bind. apply wp_trunc_indirect; [done|]. intros s2 J2. apply wp_bind, wp_modify.
  destruct J2 as (C2 & bs2 & I2 & S2 & X2 & F2 & R2).
  set (s3 := set_fit _ _). assert (same_but ip s0 s3) as S3 by (etransitivity; [exact S2|apply same_but_upd]).
  assert (inode_at s3 ip = cleared x) as X3.
  { unfold s3. rewrite inode_at_upd, X2. unfold cleared, zeroed, with_addrs, set_isize. cbn [i_addrs]. by rewrite drop_ge, app_nil_r by lia. }
  pose proof (but_sb _ _ _ S3) as Esb. pose proof (wp_iupdate s3 C2 bs2 ip) as U. cbv zeta in U. rewrite X3, Esb in U. cbn [i_dev i_inum i_addrs cleared with_addrs set_isize] in U.
  assert (forall y, bytes_ok BSIZE (C2 y)) as HC2 by (intros y; by eapply tx_bytes).
  apply U; [by apply tx_set_fit|by eapply but_geom|apply W|done|by eapply but_iblock| |].
  { eapply but_room; [apply same_but_upd|]. eapply room_le; [exact R2|unfold map_room; lia]. }
  intros s4 I4 S4. eexists _, _. split; [exact I4|]. split; [etransitivity; [exact S3|by apply same_but_same]|].
  split; [by rewrite (inode_at_same _ _ _ S4)|]. split; [apply gives_back_store; [done..|]; by apply gives_back_freed|]. pose proof (dinode_off_range (i_inum x)). split.
  - rewrite fn_lookup_insert. apply load_store; [done|lia|lia|done|by apply cleared_typed].
  - eapply room_same; [exact S4|]. eapply but_room; [apply same_but_upd|]. apply (room_le _ _ (c + 1 - 1)); [|lia]. apply room_add.
    eapply room_le; [exact R2|unfold map_room; lia].
Qed.
End itrunc.

(** [itrunc], in a transaction: it ends, the file is empty and has no block, in memory
    and in the inode on the disk, and exactly the blocks it had became free. *)
Theorem itrunc_empties (s : fsst) (C : Z -> list Z) (bs : list Z) (ip : Z) : let x := inode_at s ip in
  trunc_pre s C bs x 1 ->
  exists s' C' bs', itrunc ip s = Ok tt s' /\ tx s' C' ∅ bs' /\ same_but ip s s' /\ inode_at s' ip = cleared x /\ gives_back s C x C' /\
    load_dinode (C' (IBLOCK (i_inum x) (fsb s))) (dinode_off (i_inum x)) (cleared x) = cleared x.
Proof.
  intros x P. destruct (wp_Ok _ _ _ (wp_itrunc ip s C bs 0 ltac:(lia) P)) as ([] & s' & Hr & C' & bs' & H1 & H2 & H3 & H4 & H5 & _).
  by exists s', C', bs'.
Qed.

(** ** [iput] *)

(** The table with its lock in state [lk], and with another entry [ip]. *)
Definition relock (lk : spinlock) (s : fsst) : fsst := set_fit (mkItable lk (it_inode (fit s))) s.
Definition upd (ip : Z) (f : inode -> inode) (s : fsst) : fsst :=
  set_fit (mkItable (it_lock (fit s)) (<[ip := f (inode_at s ip)]> (it_inode (fit s)))) s.

Lemma wp_it_acquire (Q : unit -> fsst -> Prop) s : it_lock (fit s) = initlock -> Q tt (relock held_lock s) -> wp (it_spin lk_acquire) Q s.
Proof. intros Hl HQ. eapply wp_run; [|exact HQ]. unfold it_spin, zoom. by rewrite Hl. Qed.
Lemma wp_it_release (Q : unit -> fsst -> Prop) s : it_lock (fit s) = initlock -> Q tt s -> wp (it_spin lk_release) Q (relock held_lock s).
Proof. intros Hl HQ. eapply wp_run; [|exact HQ]. destruct s as [l sb [lk t] k pt]. cbn in Hl. by subst lk. Qed.
Lemma wp_ilock_acquire (Q : unit -> fsst -> Prop) ip s : i_lock (inode_at s ip) = initsleeplock ->
  Q tt (upd ip (set_ilock (sl_held (me (lb (fl s))))) s) -> wp (with_ilock ip acquiresleep) Q s.
Proof. intros Hl HQ. eapply wp_run; [|exact HQ]. unfold with_ilock, zoom. by rewrite Hl, acquiresleep_free. Qed.
Lemma wp_ilock_release (Q : unit -> fsst -> Prop) ip s pid : i_lock (inode_at s ip) = sl_held pid ->
  Q tt (upd ip (set_ilock initsleeplock) s) -> wp (with_ilock ip (fun _ => releasesleep)) Q s.
Proof. intros Hl HQ. eapply wp_run; [|exact HQ]. unfold with_ilock, zoom. by rewrite Hl, releasesleep_held. Qed.

(** The last reference to an inode that no directory names. *)
Definition last_ref (x : inode) : bool := (i_ref x =? 1) && negb (i_valid x =? 0) && (i_nlink x =? 0).
(** The inode after it is gone: free, on the disk and in the table. *)
Definition gone (x : inode) : inode := set_iref 0 (set_ivalid 0 (set_itype 0 (cleared x))).
Lemma gone_eq x (y := set_ilock initsleeplock (set_ivalid 0 (set_itype 0 (cleared x)))) :
  i_ref x = 1 -> i_lock x = initsleeplock -> set_iref (i_ref y - 1) y = gone x.
Proof. destruct x. cbn. by intros -> ->. Qed.

Section iput.
Context (ip : Z) (s : fsst) (Hlk : it_lock (fit s) = initlock).
Let x := inode_at s ip.

(** [ip->ref--; release(&itable.lock);] *)
Lemma wp_iput_end t (Q : unit -> fsst -> Prop) : it_lock (fit t) = initlock -> Q tt (upd ip (fun y => set_iref (i_ref y - 1) y) t) ->
  wp (upd_inode ip (fun y => set_iref (i_ref y - 1) y) ;;; it_spin lk_release) Q (relock held_lock t).
Proof using.
  intros Hl HQ. apply wp_bind, wp_modify. change (set_fit _ _) with (relock held_lock (upd ip (fun y => set_iref (i_ref y - 1) y) t)).
  by apply wp_it_release.
Qed.

Lemma wp_iput_kept (Q : unit -> fsst -> Prop) : last_ref x = false -> Q tt (upd ip (fun y => set_iref (i_ref y - 1) y) s) -> wp (iput ip) Q s.
Proof using Hlk.
  intros Hn HQ. unfold iput. apply wp_bind, wp_it_acquire; [done|]. apply wp_bind, wp_gets. change (inode_at (relock held_lock s) ip) with x.
  fold (last_ref x). rewrite Hn. apply wp_bind, wp_ret. by apply wp_iput_end.
Qed.

Definition iput_post (C : Z -> list Z) (s' : fsst) : Prop :=
  exists C' bs', tx s' C' ∅ bs' /\ same_but ip s s' /\ inode_at s' ip = gone x /\ gives_back s C x C' /\
    load_dinode (C' (IBLOCK (i_inum x) (fsb s))) (dinode_off (i_inum x)) (gone x) = gone x.

(** With the inode locked: [itrunc(ip); ip->type = 0; iupdate(ip); ip->valid = 0;
    releasesleep(&ip->lock); acquire(&itable.lock);] *)
Lemma wp_iput_free C bs lk (s1 := upd ip (set_ilock (sl_held lk)) s) (Q : unit -> fsst -> Prop) : trunc_pre s C bs x 2 ->
  (forall t C' bs', tx t C' ∅ bs' -> same_but ip s t -> inode_at t ip = set_ilock initsleeplock (set_ivalid 0 (set_itype 0 (cleared x))) ->
     gives_back s C x C' -> load_dinode (C' (IBLOCK (i_inum x) (fsb s))) (dinode_off (i_inum x)) (gone x) = gone x -> Q tt (relock held_lock t)) ->
  wp (itrunc ip ;;; upd_inode ip (set_itype 0) ;;; iupdate ip ;;; upd_inode ip (set_ivalid 0) ;;;
      with_ilock ip (fun _ => releasesleep) ;;; it_spin lk_acquire) Q s1.
Proof using Hlk.
  intros [I G [W1 W2 W3 W4] T Hib R] HQ. assert (inode_at s1 ip = set_ilock (sl_held lk) x) as X1 by apply inode_at_upd.
  assert (same_but ip s s1) as S1 by apply same_but_upd.
  assert (trunc_pre s1 C bs (inode_at s1 ip) 2) as P1.
  { rewrite X1. split; [by apply tx_set_fit|by destruct G|by split|by destruct T|done|done]. }
  apply wp_bind. eapply wp_mono; [|apply (wp_itrunc ip s1 C bs 1 ltac:(lia) P1)].
  intros _ s2 (C2 & bs2 & I2 & S2 & X2 & Gb1 & _ & R2). rewrite X1 in X2, Gb1. assert (gives_back s C x C2) as Gb2 by (by destruct Gb1; split).
  apply wp_bind, wp_modify. set (s3 := set_fit _ s2). assert (inode_at s3 ip = set_itype 0 (cleared (set_ilock (sl_held lk) x))) as X3.
  { unfold s3. by rewrite inode_at_upd, X2. }
  assert (same_but ip s s3) as S3 by (do 2 (etransitivity; [eassumption|]); apply same_but_upd). pose proof (but_sb _ _ _ S3) as Esb.
  pose proof (wp_iupdate s3 C2 bs2 ip) as U. cbv zeta in U. rewrite X3, Esb in U. cbn [i_dev i_inum i_addrs cleared with_addrs set_isize set_itype set_ilock] in U.
  assert (forall y, bytes_ok BSIZE (C2 y)) as HC2 by (intros y; by eapply tx_bytes).
  apply wp_bind, U; [by apply tx_set_fit|by eapply but_geom|done|done|by eapply but_iblock|eapply but_room; [apply same_but_upd|exact R2]|].
  intros s4 I4 S4. apply wp_bind, wp_modify. set (s5 := set_fit _ s4).
  assert (inode_at s5 ip = set_ivalid 0 (set_itype 0 (cleared (set_ilock (sl_held lk) x)))) as X5.
  { unfold s5. by rewrite inode_at_upd, (inode_at_same _ _ _ S4), X3. }
  apply wp_bind, (wp_ilock_release _ ip s5 lk); [by rewrite X5|]. assert (same_but ip s (upd ip (set_ilock initsleeplock) s5)) as S6.
  { do 2 (etransitivity; [|apply same_but_upd]). etransitivity; [exact S3|by apply same_but_same]. }
  apply wp_it_acquire; [by rewrite (sbt_lock _ _ _ S6)|]. eapply HQ; [by do 2 apply tx_set_fit|done| |by apply gives_back_store|].
  - unfold upd. by rewrite inode_at_upd, X5.
  - rewrite fn_lookup_insert. pose proof (dinode_off_range (i_inum x)). change (store_dinode ?o _ ?d) with (store_dinode o (gone x) d).
    apply load_store; [done|lia|lia|done|]. by destruct (cleared_typed x T); split.
Qed.

Lemma wp_iput_last C bs : trunc_pre s C bs x 2 -> i_lock x = initsleeplock -> last_ref x = true -> wp (iput ip) (fun _ => iput_post C) s.
Proof using Hlk.
  intros P Hl Hr. pose proof Hr as [[Er _]%andb_true_iff _]%andb_true_iff. apply Z.eqb_eq in Er.
  unfold iput. apply wp_bind, wp_it_acquire; [done|]. apply wp_bind, wp_gets. change (inode_at (relock held_lock s) ip) with x.
  fold (last_ref x). rewrite Hr. apply wp_bind, wp_bind, wp_ilock_acquire; [done|]. apply wp_bind.
  change (upd ip ?f (relock held_lock s)) with (relock held_lock (upd ip f s)). apply wp_it_release; [done|].
  apply (wp_iput_free C bs); [done|]. intros t C' bs' It St Xt Gb Hd. apply wp_iput_end; [by rewrite (sbt_lock _ _ _ St)|].
  exists C', bs'. split; [by apply tx_set_fit|]. split; [etransitivity; [exact St|apply same_but_upd]|]. split; [|done].
  unfold upd. rewrite inode_at_upd, Xt. by apply gone_eq.
Qed.
End iput.

(** C16: [iput] drops one reference to the inode of an entry of the table.  If it was
    the last one and no directory names the inode, then in a transaction with log
    space for the free map and the inode, [iput] ends without sleeping: the entry is
    unused, the inode is free on the disk (type 0, no size, no block), and exactly
    the blocks the file had, the indirect block and those it names included, are no longer
    in use.  The content of the data blocks and the other inodes are as before, so that
    every file that shares no block with it keeps its blocks and bytes.  Otherwise only the
    count of references changes.  The lock of the table and the lock of the inode are
    free again. *)
Theorem iput_frees_unlinked (s : fsst) (C : Z -> list Z) (bs : list Z) (ip : Z) : let x := inode_at s ip in
  it_lock (fit s) = initlock -> (last_ref x = true -> trunc_pre s C bs x 2 /\ i_lock x = initsleeplock) ->
  if last_ref x then
    exists s' C' bs', iput ip s = Ok tt s' /\ tx s' C' ∅ bs' /\ same_but ip s s' /\ inode_at s' ip = gone x /\
      load_dinode (C' (IBLOCK (i_inum x) (fsb s))) (dinode_off (i_inum x)) (gone x) = gone x /\ gives_back s C x C' /\
      forall y, inode_wf C (fsb s) y -> (forall b, owns C y b -> ~ owns C x b) ->
        (forall k, 0 <= k <= MAXFILE -> slot C' y k = slot C y k) /\ inode_wf C' (fsb s) y /\
        (file_ok C y -> fbytes C' y 0 (i_size y) = fbytes C y 0 (i_size y))
  else exists s', iput ip s = Ok tt s' /\ same_but ip s s' /\ inode_at s' ip = set_iref (i_ref x - 1) x /\ fl s' = fl s.
Proof.
  intros x Hlk Hpre. destruct (last_ref x) eqn:Hr.
  - destruct (Hpre eq_refl) as [P Hl]. destruct (wp_Ok _ _ _ (wp_iput_last ip s Hlk C bs P Hl Hr)) as ([] & s' & H0 & C' & bs' & H1 & H2 & H3 & H4 & H5).
    exists s', C', bs'. repeat (split; [done|]). intros y. apply gives_back_others; [apply P|done].
  - eassert _ as Hw by (apply (wp_iput_kept ip s Hlk (fun _ s' => s' = upd ip (fun y => set_iref (i_ref y - 1) y) s) Hr eq_refl)).
    apply wp_Ok in Hw as ([] & s' & H0 & ->). eexists. split; [exact H0|]. split; [apply same_but_upd|].
    split; [|done]. unfold upd. by rewrite inode_at_upd.
Qed.

(** ** Example: an unlinked file with a direct block, 46, and an indirect one, 47, that names 48 *)

Definition ex_indirect : list Z := put32 0 48 zero_block.
Definition ex_used3 : list Z := [255; 255; 255; 255; 255; 255; 1] ++ replicate 1017 0.
Definition ex_disk3 : gmap Z (list Z) := <[45 := ex_used3]> {[47 := ex_indirect]}.
Definition ex_unlinked : inode := mkInode ROOTDEV 5 1 initsleeplock 1 T_FILE 0 0 0 2000 (46 :: replicate 11 0 ++ [47]).
Definition ex_table3 : itable := mkItable initlock {[0 := ex_unlinked]}.

Lemma ex_slots C k : C 47 = ex_indirect -> 0 <= k <= MAXFILE ->
  slot C ex_unlinked k = if k =? 0 then 46 else if k =? 12 then 48 else if k =? 268 then 47 else 0.
Proof.
  intros HC Hk. rewrite <- (slots_alike C ex_unlinked (fun _ => ex_indirect) ex_unlinked) by (done || (intros _; symmetry; exact HC)).
  assert (forallb (fun k => slot (fun _ => ex_indirect) ex_unlinked k =? (if k =? 0 then 46 else if k =? 12 then 48 else if k =? 268 then 47 else 0))
    (seqZ 0 269) = true) as Hall by (vm_compute; reflexivity).
  rewrite forallb_forall in Hall. apply Z.eqb_eq, Hall. rewrite <- list_elem_of_In, elem_of_seqZ. file_lia.
Qed.
Lemma ex_owns C y : C 47 = ex_indirect -> owns C ex_unlinked y <-> y ∈ [46; 47; 48].
Proof.
  intros HC. split.
  - intros [Hy (k & Hk & E)]. rewrite (ex_slots C k HC Hk) in E. destruct (k =? 0), (k =? 12), (k =? 268); subst y; try (by destruct Hy); set_solver.
  - intros Hy. repeat (apply elem_of_cons in Hy as [->|Hy]); [..|by apply elem_of_nil in Hy]; (split; [done|]);
      [exists 0|exists 268|exists 12]; (split; [done|]); by rewrite ex_slots.
Qed.
Lemma ex_in_use y : y ∈ [46; 47; 48] -> nmeta ex_sb <= y < sb_size ex_sb /\ BBLOCK y ex_sb = 45 /\ bit_at ex_used3 (y mod BPB) = true.
Proof.
  intros Hy%list_elem_of_In.
  assert (forallb (fun y => (nmeta ex_sb <=? y) && (y <? sb_size ex_sb) && (BBLOCK y ex_sb =? 45) && bit_at ex_used3 (y mod BPB)) [46; 47; 48] = true) as Hall
    by (vm_compute; reflexivity).
  rewrite forallb_forall in Hall. specialize (Hall y Hy). rewrite !andb_true_iff in Hall. destruct Hall as [[[H1 H2] H3] H4].
  split; [lia|]. split; [by apply Z.eqb_eq|done].
Qed.

Lemma ex_trunc_pre : exists s C, begin_boot ex_disk3 1 ex_sb ex_table3 ex_mem ex_ptable = Ok tt s /\ fit s = ex_table3 /\ fsb s = ex_sb /\
  C 47 = ex_indirect /\ trunc_pre s C [] ex_unlinked 2.
Proof.
  destruct (begin_boot_run ex_disk3 1 ex_sb ex_table3 ex_mem ex_ptable) as (s & C & Hr & I & HC & Esb & Et & _ & _ & Hst & Hout & Hsz & _).
  { vm_compute. reflexivity. }
  { intros y. unfold disk_read, ex_disk3. destruct (decide (y = 45)) as [->|]; [rewrite lookup_insert_eq; apply bytes_check; vm_compute; reflexivity|].
    rewrite lookup_insert_ne by done. destruct (decide (y = 47)) as [->|]; [rewrite lookup_singleton_eq; apply bytes_check; vm_compute; reflexivity|].
    rewrite lookup_singleton_ne by done. apply bytes_zero. unfold BSIZE. lia. }
  assert (C 47 = ex_indirect) as H47 by (rewrite HC; reflexivity). assert (C 45 = ex_used3) as H45 by (rewrite HC; reflexivity).
  exists s, C. split; [exact Hr|]. split; [exact Et|]. split; [exact Esb|]. split; [exact H47|]. split; [exact I|..].
  - split; rewrite ?Esb, ?Hst, ?Hsz; [reflexivity|unfold LOGSIZE, MAXOPBLOCKS; cbn; lia|vm_compute; intros [=]].
  - rewrite Esb. split; [reflexivity|reflexivity| |].
    + intros y Hy. rewrite ex_owns in Hy by exact H47. destruct (ex_in_use y Hy) as (H1 & H2 & H3). split; [exact H1|]. unfold used. rewrite H2, H45. exact H3.
    + intros k k' Hk Hk'. rewrite !ex_slots by assumption. repeat case_match; lia.
  - split; [vm_compute; split; [intros [=]|reflexivity]..|reflexivity|]. repeat constructor; vm_compute; congruence.
  - unfold iblock_ok. rewrite Esb, Hst, Hsz. vm_compute. repeat split; intros [=].
  - rewrite Esb. split; [rewrite Hout; lia|]. rewrite Hsz. vm_compute. intros [=].
Qed.

Lemma iput_frees_unlinked_witness : exists s s' C',
  begin_boot ex_disk3 1 ex_sb ex_table3 ex_mem ex_ptable = Ok tt s /\ iput 0 s = Ok tt s' /\
  inode_at s' 0 = gone ex_unlinked /\ forall b, b ∈ [46; 47; 48] -> used C' ex_sb b <> true.
Proof.
  destruct ex_trunc_pre as (s & C & Hs & Et & Esb & H47 & P). pose proof (iput_frees_unlinked s C [] 0) as H.
  assert (inode_at s 0 = ex_unlinked) as Hx by (unfold inode_at; rewrite Et; reflexivity). rewrite Hx, Et, Esb in H.
  destruct (H eq_refl (fun _ => conj P eq_refl)) as (s' & C' & bs' & Hi & _ & _ & Hg & _ & Gb & _).
  exists s, s', C'. split; [exact Hs|]. split; [exact Hi|]. split; [exact Hg|]. intros b Hb Hu.
  pose proof (gb_used _ _ _ _ Gb b) as Hgb. rewrite Esb in Hgb. apply Hgb in Hu as [_ Ho].
  - apply Ho, ex_owns; [exact H47|exact Hb].
  - pose proof (ex_in_use b Hb) as [Hr _]. change (nmeta ex_sb) with 46 in Hr. lia.
Defined.
