(* ===== verification/FsPath.v ===== *)
(** * Resolving path names: [ilock], [namei] and [nameiparent] of [kernel/fs.c]

    The directories on the disk make a graph of inode numbers; a path is a walk in
    it, from the root or from the current directory.  [namex] does this walk with
    the table of inodes in memory: it leaves one more reference to the inode found,
    and the counts of all others as they were. *)

From stdpp Require Import base gmap strings fin_sets functions list.
From S2P Require Import Prelude Riscv Mem Spinlock Kalloc Vm Sleeplock ProcData Bytes Bio BioSpec Log LogSpec Fs FsTx FsAlloc FsFile FsGrow FsWrite FsTrunc.

(** ** The graph of directories *)

(** Inode [inum] as it is on the disk. *)
Definition dino (C : Z -> list Z) (sb : superblock) (inum : Z) : inode :=
  load_dinode (C (IBLOCK inum sb)) (dinode_off inum) (mkInode ROOTDEV inum 0 initsleeplock 0 0 0 0 0 0 []).
(** The inode that directory [inum] has under the name [e]. *)
Definition dir_find (C : Z -> list Z) (sb : superblock) (inum : Z) (e : list Z) : option Z :=
  let x := dino C sb inum in
  if i_type x =? T_DIR then (fun j => de_inum (entry C x j)) <$> find_entry C x e (nentries x) 0 else None.
(** Where the elements of a path lead; and where all but the last one lead, if that is
    a directory. *)
Fixpoint resolve (C : Z -> list Z) (sb : superblock) (inum : Z) (es : list (list Z)) : option Z :=
  match es with
  | [] => Some inum
  | e :: es => match dir_find C sb inum e with Some n => resolve C sb n es | None => None end
  end.
Fixpoint resolve_parent (C : Z -> list Z) (sb : superblock) (inum : Z) (es : list (list Z)) : option Z :=
  match es with
  | [] => None
  | [_] => if i_type (dino C sb inum) =? T_DIR then Some inum else None
  | e :: es => match dir_find C sb inum e with Some n => resolve_parent C sb n es | None => None end
  end.

(** Two copies of an inode with the same content. *)
Definition alike (x y : inode) : Prop :=
  i_dev x = i_dev y /\ i_type x = i_type y /\ i_nlink x = i_nlink y /\ i_size x = i_size y /\ i_addrs x = i_addrs y.

Lemma alike_faddr C x y bn : alike x y -> faddr C x bn = faddr C y bn.
Proof. intros (_ & _ & _ & _ & E). unfold faddr, addr_at. by rewrite E. Qed.
Lemma alike_fbytes C x y off n : alike x y -> fbytes C x off n = fbytes C y off n.
Proof. intros A. unfold fbytes, fbyte. apply list_fmap_ext. intros. by rewrite (alike_faddr C x y). Qed.
Lemma alike_dir_ok C x y : alike x y -> dir_ok C y -> dir_ok C x.
Proof.
  intros A. pose proof A as (E1 & E2 & _ & E4 & _). intros [[F1 F2 F3] D1 D2]. split; [|congruence..]. split; [congruence..|].
  intros bn. rewrite (alike_faddr C x y), E4 by done. apply F3.
Qed.
Lemma alike_entry C x y i : alike x y -> entry C x i = entry C y i.
Proof. intros. by apply alike_fbytes. Qed.
Lemma alike_nentries x y : alike x y -> nentries x = nentries y.
Proof. intros (_ & _ & _ & E & _). unfold nentries. by rewrite E. Qed.
Lemma alike_find C x y e k i : alike x y -> find_entry C x e k i = find_entry C y e k i.
Proof.
  intros A. revert i. induction k as [|k IH]; intros i; [done|]. cbn [find_entry]. unfold entry_matches.
  by rewrite (alike_entry C x y), IH.
Qed.

(** The array [name] stands for the element it was taken from. *)
Lemma strncmp_after e junk t n : strncmp (e ++ 0 :: junk) t n = strncmp e t n.
Proof. revert t n. induction e as [|c e IH]; intros t [|n]; try done. cbn. case_match; [apply IH|done]. Qed.
Lemma strncmp_take e t n : strncmp (take n e) t n = strncmp e t n.
Proof. revert e t. induction n as [|n IH]; intros e t; [done|]. destruct e as [|c e]; [done|]. cbn. case_match; [apply IH|done]. Qed.
Lemma name_after_cmp e name t : namecmp (name_after e name) t = namecmp e t.
Proof. unfold namecmp, name_after. case_match; [apply strncmp_after|apply strncmp_take]. Qed.
Lemma name_after_find C x e name k i : find_entry C x (name_after e name) k i = find_entry C x e k i.
Proof. revert i. induction k as [|k IH]; intros i; [done|]. cbn [find_entry]. unfold entry_matches. by rewrite name_after_cmp, IH. Qed.

Lemma name_after_dir C sb n e name : dir_find C sb n (name_after e name) = dir_find C sb n e.
Proof. unfold dir_find. by rewrite name_after_find. Qed.

(** The inodes of [N] are in use and linked, their directories are well formed and name
    only inodes of [N]. *)
Record tree (s : fsst) (C : Z -> list Z) (N : Z -> Prop) : Prop := {
  tr_inode : forall n, N n -> iblock_ok s n /\ i_type (dino C (fsb s) n) <> 0 /\ i_nlink (dino C (fsb s) n) <> 0;
  tr_dir : forall n, N n -> i_type (dino C (fsb s) n) = T_DIR -> dir_ok C (dino C (fsb s) n);
  tr_entry : forall n i (x := dino C (fsb s) n), N n -> i_type x = T_DIR -> 0 <= i < Z.of_nat (nentries x) ->
    de_inum (entry C x i) <> 0 -> N (de_inum (entry C x i))
}.

Lemma tree_find s C N n e m : tree s C N -> N n -> dir_find C (fsb s) n e = Some m -> N m.
Proof.
  intros Tr Hn. unfold dir_find. destruct (Z.eqb_spec (i_type (dino C (fsb s) n)) T_DIR) as [Ht|]; [|done].
  pose proof (find_entry_spec C (dino C (fsb s) n) e (nentries (dino C (fsb s) n)) 0) as Hf.
  destruct (find_entry _ _ _ _ _) as [j|]; [|done]. cbn. intros [= <-]. destruct Hf as (Hj & Hm & _).
  apply (tr_entry _ _ _ Tr); [done..|]. unfold entry_matches in Hm. apply andb_true_iff in Hm as [Hm _]. by destruct (Z.eqb_spec (de_inum (entry C (dino C (fsb s) n) j)) 0).
Qed.

Lemma tree_resolve s C N es n m : tree s C N -> N n -> resolve C (fsb s) n es = Some m -> N m.
Proof.
  intros Tr. revert n. induction es as [|e es IH]; intros n Hn; cbn [resolve]; [by intros [= <-]|].
  destruct (dir_find C (fsb s) n e) as [q|] eqn:E; [|done]. apply IH. by eapply tree_find.
Qed.

(** ** The table of inodes *)

(** Nothing but buffers, log and the table of inodes changed. *)
Definition but_table (s s' : fsst) : Prop := same s (set_fit (fit s) s').

(** The table agrees with the disk; inode [L], if any, is locked by the running process,
    and no other is. *)
Record table_ok (s : fsst) (C : Z -> list Z) (L : option Z) : Prop := {
  tb_lock : it_lock (fit s) = initlock;
  tb_it : it_ok (it_inode (fit s));
  tb_locks : forall ip, in_table ip -> i_lock (inode_at s ip) = if decide (L = Some ip) then sl_held (me (lb (fl s))) else initsleeplock;
  tb_disk : forall ip (x := inode_at s ip), in_table ip -> 0 < i_ref x ->
    i_dev x = ROOTDEV /\ (i_valid x <> 0 -> load_dinode (C (IBLOCK (i_inum x) (fsb s))) (dinode_off (i_inum x)) x = x)
}.

(** The table of [s] is that of [s0] with [d] more references to each entry. *)
Record more_refs (s0 s : fsst) (d : Z -> Z) : Prop := {
  mr_but : but_table s0 s;
  mr_refs : forall ip, in_table ip -> i_ref (inode_at s ip) = i_ref (inode_at s0 ip) + d ip;
  mr_inum : forall ip, in_table ip -> 0 < i_ref (inode_at s0 ip) -> i_inum (inode_at s ip) = i_inum (inode_at s0 ip)
}.

#[export] Instance but_table_refl : Reflexive but_table.
Proof. by intros [? ? ? ? ?]. Qed.
#[export] Instance but_table_trans : Transitive but_table.
Proof. intros s1 s2 s3 [] []. split; cbn in *; congruence. Qed.
Lemma but_table_same s s' : same s s' -> but_table s s'.
Proof. intros []. by split. Qed.
Lemma but_table_entry s ip x : but_table s (it_entry s ip x).
Proof. by split. Qed.
Lemma but_table_sb s s' : but_table s s' -> fsb s' = fsb s.
Proof. by intros []. Qed.
Lemma iblock_but s s' inum : but_table s s' -> iblock_ok s inum -> iblock_ok s' inum.
Proof. intros [E1 _ _ _ _ _ E2 E3 _]. unfold iblock_ok. cbn in *. by rewrite E1, E2, E3. Qed.
Lemma tree_but s s' C N : but_table s s' -> tree s C N -> tree s' C N.
Proof.
  intros B [T1 T2 T3]. split; rewrite (but_table_sb _ _ B); [|done..]. intros n Hn. destruct (T1 n Hn). split; [by eapply iblock_but|done].
Qed.

Lemma it_entry_twice s ip x y : it_entry (it_entry s ip x) ip y = it_entry s ip y.
Proof. unfold it_entry, set_fit. cbn. by rewrite insert_insert_eq. Qed.
Lemma same_entry s s' ip x : same s s' -> same (it_entry s ip x) (it_entry s' ip x).
Proof. intros [E1 E2]. split; cbn; by rewrite ?E2. Qed.
Lemma it_entry_ne s ip x jp : jp <> ip -> inode_at (it_entry s ip x) jp = inode_at s jp.
Proof. intros. unfold inode_at. cbn. by rewrite lookup_total_insert_ne. Qed.

(** Another entry with the same key, on which the disk agrees. *)
Lemma it_ok_keep t ip x : it_ok t -> i_dev x = i_dev (t !!! ip) -> i_inum x = i_inum (t !!! ip) -> in_table ip -> 0 < i_ref (t !!! ip) ->
  0 <= i_ref x -> it_ok (<[ip := x]> t).
Proof.
  intros OK Ed Ei Hip Hr Hx. apply (it_ok_insert t ip x (i_dev x) (i_inum x)); [done..|]. intros jp Hjp Hne Hc. apply Hne.
  by apply (ito_one _ OK jp ip (i_dev x) (i_inum x)).
Qed.

Lemma table_ok_same s s' C L : same s s' -> table_ok s C L -> table_ok s' C L.
Proof.
  intros S [T1 T2 T3 T4]. pose proof (sm_it _ _ S) as E. split; [by rewrite E..| |].
  - intros ip. rewrite (inode_at_same _ _ _ S), (sm_me _ _ S). apply T3.
  - intros ip. rewrite (inode_at_same _ _ _ S), (sm_sb _ _ S). apply T4.
Qed.

Lemma table_ok_entry s C L L' ip x : table_ok s C L -> it_ok (<[ip := x]> (it_inode (fit s))) ->
  i_lock x = (if decide (L' = Some ip) then sl_held (me (lb (fl s))) else initsleeplock) ->
  (forall jp, jp <> ip -> L = Some jp <-> L' = Some jp) ->
  (0 < i_ref x -> i_dev x = ROOTDEV /\ (i_valid x <> 0 -> load_dinode (C (IBLOCK (i_inum x) (fsb s))) (dinode_off (i_inum x)) x = x)) ->
  table_ok (it_entry s ip x) C L'.
Proof.
  intros [T1 T2 T3 T4] OK Hl HL Hd. split; [done|done| |].
  - intros jp Hjp. destruct (decide (jp = ip)) as [->|Hne]; [by rewrite it_entry_at|]. rewrite it_entry_ne, T3 by done. cbn.
    specialize (HL jp Hne). destruct (decide (L = Some jp)), (decide (L' = Some jp)); try done; tauto.
  - cbv zeta. intros jp Hjp. destruct (decide (jp = ip)) as [->|Hne]; [by rewrite it_entry_at|]. rewrite it_entry_ne by done. by apply T4.
Qed.

Lemma load_set_ref d off v x : load_dinode d off (set_iref v x) = set_iref v (load_dinode d off x).
Proof. done. Qed.
Lemma load_set_lock d off lk x : load_dinode d off (set_ilock lk x) = set_ilock lk (load_dinode d off x).
Proof. done. Qed.

(** Entries in use have changed in their counts only. *)
Definition keeps_entries (s s' : fsst) : Prop :=
  forall ip, in_table ip -> 0 < i_ref (inode_at s ip) -> exists v, inode_at s' ip = set_iref v (inode_at s ip).

Definition keeps_keys (s s' : fsst) : Prop :=
  forall ip, i_dev (inode_at s' ip) = i_dev (inode_at s ip) /\ i_inum (inode_at s' ip) = i_inum (inode_at s ip).
Lemma keeps_keys_entry s ip x : i_dev x = i_dev (inode_at s ip) -> i_inum x = i_inum (inode_at s ip) -> keeps_keys s (it_entry s ip x).
Proof. intros E1 E2 jp. destruct (decide (jp = ip)) as [->|]; [by rewrite it_entry_at|by rewrite it_entry_ne]. Qed.

(** ** The operations on the table *)

(** [ilock] of a valid inode, [iunlock] of one that the process has locked. *)
Lemma wp_ilock_valid s ip (Q : unit -> fsst -> Prop) (x := inode_at s ip) : 0 < i_ref x -> i_lock x = initsleeplock -> i_valid x <> 0 ->
  Q tt (it_entry s ip (set_ilock (sl_held (me (lb (fl s)))) x)) -> wp (ilock ip) Q s.
Proof.
  intros Hr Hl Hv HQ. unfold ilock. apply wp_bind, wp_gets. fold x. destruct (Z.ltb_spec (i_ref x) 1); [lia|].
  apply wp_bind, wp_ilock_acquire; [done|]. change (upd ip _ s) with (it_entry s ip (set_ilock (sl_held (me (lb (fl s)))) x)).
  apply wp_bind, wp_gets. rewrite it_entry_at. cbn [i_valid set_ilock]. destruct (Z.eqb_spec (i_valid x) 0); [done|]. by apply wp_ret.
Qed.
Lemma wp_iunlock_held s ip (Q : unit -> fsst -> Prop) (x := inode_at s ip) : 0 < i_ref x -> i_lock x = sl_held (me (lb (fl s))) ->
  Q tt (it_entry s ip (set_ilock initsleeplock x)) -> wp (iunlock ip) Q s.
Proof.
  intros Hr Hl HQ. unfold iunlock. apply wp_bind. apply (wp_run _ _ s true (it_entry s ip x)).
  { unfold with_ilock, zoom. fold x. rewrite Hl, holdingsleep_held, Z.eqb_refl. unfold it_entry. do 5 f_equal. rewrite <- Hl. by destruct x. }
  apply wp_bind, wp_gets. rewrite it_entry_at. cbn [negb orb]. destruct (Z.ltb_spec (i_ref x) 1); [lia|].
  apply (wp_ilock_release _ ip _ (me (lb (fl s)))); [by rewrite it_entry_at|]. unfold upd. rewrite it_entry_at.
  change (set_fit _ _) with (it_entry (it_entry s ip x) ip (set_ilock initsleeplock x)). by rewrite it_entry_twice.
Qed.

Section path.
Context `{Layout}.
Context (s0 : fsst) (C : Z -> list Z) (bs : list Z).

(** The state in the middle of an operation that started in [s0]. *)
Record mid (s : fsst) (L : option Z) (d : Z -> Z) : Prop := {
  md_tx : tx s C ∅ bs;
  md_table : table_ok s C L;
  md_refs : more_refs s0 s d
}.

Lemma mid_same s s' L d : mid s L d -> same s s' -> tx s' C ∅ bs -> mid s' L d.
Proof using.
  intros [I T [M1 M2 M3]] S I'. split; [done|by eapply table_ok_same|]. split.
  - etransitivity; [exact M1|by apply but_table_same].
  - intros ip. rewrite (inode_at_same _ _ _ S). apply M2.
  - intros ip. rewrite (inode_at_same _ _ _ S). apply M3.
Qed.

Lemma mid_entry s L L' d d' ip x : mid s L d -> table_ok (it_entry s ip x) C L' ->
  i_ref x + d ip = i_ref (inode_at s ip) + d' ip -> (forall jp, jp <> ip -> d' jp = d jp) ->
  (in_table ip -> 0 < i_ref (inode_at s0 ip) -> i_inum x = i_inum (inode_at s ip)) -> mid (it_entry s ip x) L' d'.
Proof using.
  intros [I T [M1 M2 M3]] T' Hr Hd Hi. split; [by apply tx_set_fit|done|]. split.
  - etransitivity; [exact M1|apply but_table_entry].
  - intros jp Hjp. destruct (decide (jp = ip)) as [->|Hne]; [rewrite it_entry_at; specialize (M2 ip Hjp); lia|].
    rewrite it_entry_ne, Hd by done. by apply M2.
  - intros jp Hjp H0. destruct (decide (jp = ip)) as [->|Hne]; [rewrite it_entry_at, Hi by done; by apply M3|].
    rewrite it_entry_ne by done. by apply M3.
Qed.

Lemma mid_ref s L d ip : mid s L d -> in_table ip -> 0 <= i_ref (inode_at s ip) /\ i_ref (inode_at s ip) = i_ref (inode_at s0 ip) + d ip.
Proof using. intros [_ T M] Hip. split; [by apply (ito_ref _ (tb_it _ _ _ T))|by apply (mr_refs _ _ _ M)]. Qed.

Lemma wp_iget s L d n (Q : Z -> fsst -> Prop) : mid s L d -> (forall ip, in_table ip -> 0 <= d ip) ->
  (exists e, in_table e /\ i_ref (inode_at s e) = 0) ->
  (forall ip s', mid s' L (<[ip := d ip + 1]> d) -> in_table ip -> caches (inode_at s' ip) ROOTDEV n -> keeps_entries s s' -> Q ip s') ->
  wp (iget ROOTDEV n) Q s.
Proof using.
  intros Md Hd (e & He & He0) HQ. pose proof Md as [I T M].
  pose proof (iget_keeps_unique s ROOTDEV n (tb_lock _ _ _ T) (tb_it _ _ _ T)) as Hg. unfold wp.
  destruct (iget ROOTDEV n s) as [ip s'|msg|c|]; [|destruct Hg as [_ Hg]; destruct (Hg e He); lia|done..].
  destruct Hg as (Hip & OK & Hc & x & -> & Hx). apply HQ; [|done|done|].
  2: { intros jp Hjp Hp. destruct (decide (jp = ip)) as [->|Hne]; [|exists (i_ref (inode_at s jp)); rewrite it_entry_ne by done; by destruct (inode_at s jp)].
       rewrite it_entry_at. destruct Hx as [[_ ->]|(? & _)]; [by eexists|lia]. }
  rewrite it_entry_at in Hc.
  pose proof (tb_locks _ _ _ T ip Hip) as Hl. destruct (mid_ref s L d ip Md Hip) as [Hr0 Hr].
  assert (0 < i_ref (inode_at s ip) -> caches (inode_at s ip) ROOTDEV n) as Hpos.
  { destruct Hx as [[? _]|(H0 & _)]; [done|lia]. }
  apply (mid_entry s L _ d); [done| | |intros jp Hne; by rewrite fn_lookup_insert_ne|].
  - apply (table_ok_entry s C L L); [done|done|rewrite <- Hl; by destruct Hx as [[_ ->]|(_ & _ & ->)]|done|].
    intros _. destruct Hx as [[[Hp _] ->]|(_ & _ & ->)]; [|done]. destruct (tb_disk _ _ _ T ip Hip Hp) as [E1 E2]. split; [done|].
    intros Hv. rewrite load_set_ref. f_equal. by apply E2.
  - rewrite fn_lookup_insert. destruct Hx as [[_ ->]|(H0 & _ & ->)]; cbn; lia.
  - intros _ H0. assert (0 < i_ref (inode_at s ip)) as Hp by (specialize (Hd ip Hip); lia). destruct (Hpos Hp) as (_ & _ & ->). apply Hc.
Qed.

(** Locking an entry, possibly with other content. *)
Lemma mid_locked s d ip x lk v y (sb := fsb s) : mid s None d -> in_table ip -> inode_at s ip = x -> 0 < i_ref x -> lk = sl_held (me (lb (fl s))) ->
  y = set_ivalid v (set_ilock lk (load_dinode (C (IBLOCK (i_inum x) sb)) (dinode_off (i_inum x)) x)) -> mid (it_entry s ip y) (Some ip) d.
Proof using.
  intros Md Hip Ex Hr -> ->. pose proof Md as [I T M]. destruct (tb_disk _ _ _ T ip Hip ltac:(by rewrite Ex)) as [Hdev _]. rewrite Ex in Hdev.
  apply (mid_entry s None (Some ip) d); [done| |by rewrite Ex|done|by rewrite Ex].
  apply (table_ok_entry s C None); [done| |by rewrite decide_True| |done].
  - apply it_ok_keep; [apply T|unfold inode_at in Ex; rewrite ?Ex; done..|cbn; lia].
  - intros jp Hne. split; [done|congruence].
Qed.

(** [ilock] of an inode in use: the entry has the content of the inode on the disk. *)
Lemma wp_ilock s d ip n (Q : unit -> fsst -> Prop) (sb := fsb s) : mid s None d -> in_table ip -> caches (inode_at s ip) ROOTDEV n ->
  i_type (dino C sb n) <> 0 ->
  (forall s', mid s' (Some ip) d -> caches (inode_at s' ip) ROOTDEV n -> alike (inode_at s' ip) (dino C sb n) -> i_valid (inode_at s' ip) <> 0 -> Q tt s') ->
  wp (ilock ip) Q s.
Proof using.
  intros Md Hip (Hr & Hdev & Hn) Ht HQ. pose proof Md as [I T M]. pose proof (tb_locks _ _ _ T ip Hip) as Hl. cbn in Hl.
  destruct (tb_disk _ _ _ T ip Hip Hr) as [_ Hd]. set (x := inode_at s ip) in *. unfold ilock. apply wp_bind, wp_gets. fold x.
  destruct (Z.ltb_spec (i_ref x) 1); [lia|]. apply wp_bind, wp_ilock_acquire; [done|]. set (x1 := set_ilock (sl_held (me (lb (fl s)))) x).
  change (upd ip _ s) with (it_entry s ip x1). apply wp_bind, wp_gets. rewrite it_entry_at. cbn [i_valid x1 set_ilock].
  destruct (Z.eqb_spec (i_valid x) 0) as [Hv|Hv].
  - apply wp_bind, wp_gets. change (i_dev x1) with (i_dev x). change (i_inum x1) with (i_inum x). rewrite Hdev, Hn. apply wp_bind.
    assert (tx (it_entry s ip x1) C ∅ bs) as I1 by (by apply tx_set_fit).
    apply (wp_bread _ C ∅ bs I1 _ 0); [apply not_elem_of_empty|by eapply room_0|by rewrite size_empty|].
    intros b s2 I2 S2 B2 _. rewrite union_empty_r_L in I2. apply wp_bind. eapply wp_data; [exact I2|exact B2|]. apply wp_bind, wp_modify.
    rewrite (inode_at_same _ _ _ S2), it_entry_at. change (fsb (it_entry s ip x1)) with sb in *. set (x2 := load_dinode _ _ _).
    change (set_fit _ s2) with (it_entry s2 ip x2). apply wp_bind.
    eapply wp_brelse; [by apply tx_set_fit|exact B2|set_solver|]. intros s3 I3 S3 _. rewrite difference_diag_L in I3. apply wp_bind, wp_modify.
    rewrite (inode_at_same _ _ _ S3), it_entry_at. set (x4 := set_ivalid 1 x2). change (set_fit _ s3) with (it_entry s3 ip x4).
    apply wp_bind, wp_gets. rewrite it_entry_at. change (i_type x4) with (i_type (dino C sb n)). rewrite (proj2 (Z.eqb_neq _ _) Ht).
    apply wp_ret, HQ; [|by rewrite it_entry_at..]. apply (mid_same (it_entry s ip x4)); [|etransitivity|by apply tx_set_fit].
    + by apply (mid_locked s d ip x (sl_held (me (lb (fl s)))) 1); [..|rewrite Hn].
    + rewrite <- (it_entry_twice s ip x1). apply same_entry, S2.
    + rewrite <- (it_entry_twice s2 ip x2). apply same_entry, S3.
  - specialize (Hd Hv). apply wp_ret, HQ; [|by rewrite it_entry_at| |by rewrite it_entry_at].
    + apply (mid_locked s d ip x (sl_held (me (lb (fl s)))) (i_valid x)); [done..|]. rewrite Hd. unfold x1. by destruct x.
    + rewrite it_entry_at. unfold alike, x1. cbn. by rewrite <- Hd, Hn.
Qed.

Lemma wp_iunlock s d ip (Q : unit -> fsst -> Prop) : mid s (Some ip) d -> in_table ip -> 0 < i_ref (inode_at s ip) ->
  (forall s', mid s' None d -> inode_at s' ip = set_ilock initsleeplock (inode_at s ip) -> keeps_keys s s' -> Q tt s') -> wp (iunlock ip) Q s.
Proof using.
  intros Md Hip Hr HQ. pose proof Md as [I T M]. pose proof (tb_locks _ _ _ T ip Hip) as Hl. rewrite decide_True in Hl by done.
  destruct (tb_disk _ _ _ T ip Hip Hr) as [Hdev Hd].
  apply (wp_iunlock_held s); [done|done|]. apply HQ; [|by rewrite it_entry_at|by apply keeps_keys_entry]. apply (mid_entry s (Some ip) None d); [done| |done..].
  apply (table_ok_entry s C (Some ip)); [done| |done| |].
  - apply it_ok_keep; [apply T|done..|cbn; lia].
  - intros jp Hne. split; [congruence|done].
  - intros _. split; [done|]. intros Hv. rewrite load_set_lock. f_equal. by apply Hd.
Qed.

(** [iput] when the inode has a link. *)
Lemma wp_iput_linked s d ip (Q : unit -> fsst -> Prop) : mid s None d -> in_table ip -> 0 < i_ref (inode_at s ip) ->
  last_ref (inode_at s ip) = false -> (forall s', mid s' None (<[ip := d ip - 1]> d) -> keeps_keys s s' -> Q tt s') -> wp (iput ip) Q s.
Proof using.
  intros Md Hip Hr Hn HQ. pose proof Md as [I T M]. destruct (tb_disk _ _ _ T ip Hip Hr) as [Hdev Hd].
  apply wp_iput_kept; [apply T|done|]. apply HQ; [|by apply keeps_keys_entry]. change (upd ip _ s) with (it_entry s ip (set_iref (i_ref (inode_at s ip) - 1) (inode_at s ip))).
  apply (mid_entry s None None d); [done| |rewrite fn_lookup_insert; cbn; lia|intros; by rewrite fn_lookup_insert_ne|done].
  apply (table_ok_entry s C None); [done| |apply (tb_locks _ _ _ T ip Hip)|done|].
  - apply it_ok_keep; [apply T|done..|cbn; lia].
  - intros _. split; [done|]. intros Hv. rewrite load_set_ref. f_equal. by apply Hd.
Qed.

(** [iunlockput] of a locked inode with a link. *)
Lemma wp_iunlockput s d ip (Q : unit -> fsst -> Prop) : mid s (Some ip) d -> in_table ip -> 0 < i_ref (inode_at s ip) ->
  i_nlink (inode_at s ip) <> 0 -> (forall s', mid s' None (<[ip := d ip - 1]> d) -> keeps_keys s s' -> Q tt s') -> wp (iunlockput ip) Q s.
Proof using.
  intros Md Hip Hr Hn HQ. unfold iunlockput. apply wp_bind. apply (wp_iunlock s d); [done..|]. intros s1 Md1 E1 K1.
  apply (wp_iput_linked s1 d); [done|done|by rewrite E1| |intros s2 Md2 K2; apply HQ; [done|]; intros jp; destruct (K1 jp) as [<- <-]; apply K2].
  unfold last_ref. rewrite E1. cbn. rewrite (proj2 (Z.eqb_neq _ _) Hn). apply andb_false_r.
Qed.

(** [dirlookup] in the locked directory [dp], which is inode [n]. *)
Lemma wp_dirlookup s d dp n name (Q : option (Z * Z) -> fsst -> Prop) (sb := fsb s) : mid s (Some dp) d -> alike (inode_at s dp) (dino C sb n) ->
  dir_ok C (dino C sb n) -> (forall ip, in_table ip -> 0 <= d ip) -> (exists e, in_table e /\ i_ref (inode_at s e) = 0) ->
  match dir_find C sb n name with
  | None => forall s', mid s' (Some dp) d -> same s s' -> Q None s'
  | Some m => forall ip off s', mid s' (Some dp) (<[ip := d ip + 1]> d) -> in_table ip -> caches (inode_at s' ip) ROOTDEV m ->
      keeps_entries s s' -> Q (Some (ip, off)) s'
  end -> wp (dirlookup dp name) Q s.
Proof using.
  intros Md A D Hd (e & He & He0) HQ. pose proof (alike_dir_ok C _ _ A D) as D'.
  destruct (dirlookup_run C bs s dp name (md_tx _ _ _ Md) D') as (s1 & S1 & I1 & H1). unfold wp. rewrite H1.
  rewrite (alike_find C _ _ name _ _ A), (alike_nentries _ _ A). unfold dir_find in HQ. rewrite (do_type _ _ D) in HQ. cbn [T_DIR Z.eqb Pos.eqb] in HQ.
  assert (mid s1 (Some dp) d) as Md1 by (by eapply mid_same).
  destruct (find_entry _ _ _ _ _) as [j|]; cbn [fmap option_fmap option_map] in HQ; [|by apply HQ]. rewrite (alike_entry C _ _ j A).
  apply wp_bind. apply (wp_iget s1 (Some dp) d); [done|done|exists e; by rewrite (inode_at_same _ _ _ S1)|].
  intros ip s2 Md2 Hip Hc K2. apply wp_ret, HQ; [done..|]. intros jp. rewrite <- (inode_at_same _ _ _ S1). apply K2.
Qed.

(** *** [namex] *)

Context (N : Z -> Prop) (Tr : tree s0 C N) (T0 : table_ok s0 C None).
(** Two entries are free. *)
Context (Hfree : exists a b, a <> b /\ in_table a /\ in_table b /\ i_ref (inode_at s0 a) = 0 /\ i_ref (inode_at s0 b) = 0).
Notation sb := (fsb s0).

(** One more reference, to entry [ip]. *)
Definition one (ip : Z) : Z -> Z := <[ip := 1]> (fun _ => 0).
Lemma one_pos ip jp : 0 <= one ip jp.
Proof using. unfold one. destruct (decide (jp = ip)) as [->|]; [by rewrite fn_lookup_insert|by rewrite fn_lookup_insert_ne]. Qed.
Lemma one_free s L ip : mid s L (one ip) -> exists e, in_table e /\ i_ref (inode_at s e) = 0.
Proof using Hfree.
  intros [_ _ M]. destruct Hfree as (a & b & Hne & Ha & Hb & Ha0 & Hb0). destruct (decide (a = ip)) as [->|Hna].
  - exists b. split; [done|]. rewrite (mr_refs _ _ _ M b Hb). unfold one. rewrite fn_lookup_insert_ne by done. lia.
  - exists a. split; [done|]. rewrite (mr_refs _ _ _ M a Ha). unfold one. rewrite fn_lookup_insert_ne by done. lia.
Qed.
Lemma mid_sb s L d : mid s L d -> fsb s = sb.
Proof using. intros [_ _ M]. apply but_table_sb, M. Qed.
Lemma mid_ext s L d d' : (forall ip, d ip = d' ip) -> mid s L d -> mid s L d'.
Proof using. intros E [I T [M1 M2 M3]]. split; [done..|]. split; [done| |done]. intros ip. rewrite <- E. apply M2. Qed.

(** What [namex] makes of a path from inode [n]: the inode found, and in [name] its last element. *)
Definition found (parent : bool) (n : Z) (es : list (list Z)) (r : option Z * list Z) (s : fsst) : Prop :=
  match (if parent then resolve_parent C sb n es else resolve C sb n es) with
  | Some m => exists ip, r.1 = Some ip /\ in_table ip /\ mid s None (one ip) /\ caches (inode_at s ip) ROOTDEV m /\
      (parent = true -> exists e name, last es = Some e /\ r.2 = name_after e name /\ length r.2 = Z.to_nat DIRSIZ)
  | None => r.1 = None /\ mid s None (fun _ => 0)
  end.

Lemma found_next parent n m e es r s : dir_find C sb n e = Some m -> (parent = true -> es <> []) ->
  found parent m es r s -> found parent n (e :: es) r s.
Proof using.
  intros Hd Hes. unfold found. destruct parent.
  - destruct es as [|e' es]; [by destruct (Hes eq_refl)|].
    replace (resolve_parent C sb n (e :: e' :: es)) with (resolve_parent C sb m (e' :: es)); [done|]. cbn [resolve_parent]. by rewrite Hd.
  - cbn [resolve]. rewrite Hd. destruct (resolve C sb m es); [|done]. intros (ip & H1 & H2 & H3 & H4 & _). exists ip. by repeat (split; [done|]).
Qed.
Lemma found_none parent n e es r s : dir_find C sb n e = None -> (parent = true -> es = [] -> i_type (dino C sb n) <> T_DIR) ->
  r.1 = None -> mid s None (fun _ => 0) -> found parent n (e :: es) r s.
Proof using.
  intros Hd Ht Hr Md. unfold found. destruct parent.
  - destruct es as [|e' es]; cbn [resolve_parent]; [|by rewrite Hd]. by rewrite (proj2 (Z.eqb_neq _ _) (Ht eq_refl eq_refl)).
  - cbn [resolve]. by rewrite Hd.
Qed.

Lemma elems_from_nonempty l p : l <> [] -> elems_from l p <> [].
Proof using. revert l. induction p as [|c p IH]; intros l Hl; cbn; [by destruct l|]. case_match; [by destruct l|]. apply IH. by destruct l. Qed.
Lemma rest_elems rest : Forall path_char rest -> hd 0 rest <> SLASH -> (hd 0 rest =? 0) = bool_decide (path_elems rest = []).
Proof using.
  intros Hp Hh. destruct rest as [|c rest]; [done|]. apply Forall_cons in Hp as [Hc _]. cbn in Hh. cbn [hd].
  rewrite (proj2 (Z.eqb_neq _ _) Hc). symmetry. apply bool_decide_false. unfold path_elems. cbn [elems_from].
  rewrite (proj2 (Z.eqb_neq _ _) Hh). by apply elems_from_nonempty.
Qed.
Lemma one_drop ip : forall jp, (<[ip := one ip ip - 1]> (one ip)) jp = 0.
Proof using.
  intros jp. unfold one. destruct (decide (jp = ip)) as [->|]; [by rewrite !fn_lookup_insert|by rewrite !fn_lookup_insert_ne].
Qed.
Lemma one_move ip np : forall jp, (<[ip := (<[np := one ip np + 1]> (one ip)) ip - 1]> (<[np := one ip np + 1]> (one ip))) jp = one np jp.
Proof using.
  intros jp. unfold one. destruct (decide (np = ip)) as [->|Hn]; destruct (decide (jp = ip)) as [->|Hi];
    repeat (rewrite fn_lookup_insert || rewrite fn_lookup_insert_ne by done); try done; try lia.
  destruct (decide (jp = np)) as [->|]; repeat (rewrite fn_lookup_insert || rewrite fn_lookup_insert_ne by done); lia.
Qed.

(** No element is left. *)
Lemma wp_namex_end (parent : bool) s ip n name : N n -> mid s None (one ip) -> in_table ip -> caches (inode_at s ip) ROOTDEV n ->
  wp (if parent then iput ip ;;; return (None, name) else return (Some ip, name)) (found parent n []) s.
Proof using Tr.
  intros HN Md Hip Hc. pose proof Hc as (Hr & _ & Hn). destruct parent; [|apply wp_ret; by exists ip].
  apply wp_bind. apply (wp_iput_linked s (one ip)); [done..| |].
  - destruct (tb_disk _ _ _ (md_table _ _ _ Md) ip Hip Hr) as [_ Hd]. destruct (tr_inode _ _ _ Tr n HN) as (_ & _ & Hl).
    unfold last_ref. destruct (Z.eqb_spec (i_valid (inode_at s ip)) 0) as [|Hv]; [by rewrite andb_false_r|]. specialize (Hd Hv).
    rewrite Hn, (mid_sb _ _ _ Md) in Hd. assert (i_nlink (inode_at s ip) = i_nlink (dino C sb n)) as -> by (by rewrite <- Hd).
    rewrite (proj2 (Z.eqb_neq _ 0) Hl). apply andb_false_r.
  - intros s' Md' _. apply wp_ret. split; [done|]. eapply mid_ext, Md'. apply one_drop.
Qed.

Lemma wp_namex_loop parent fuel s ip n path name : (length path <= fuel)%nat -> Forall path_char path -> length name = Z.to_nat DIRSIZ ->
  N n -> mid s None (one ip) -> in_table ip -> caches (inode_at s ip) ROOTDEV n ->
  wp (namex_loop fuel ip path parent name) (found parent n (path_elems path)) s.
Proof using Tr Hfree T0.
  revert s ip n path name. induction fuel as [|f IH]; intros s ip n path name Hf Hp Hn HN Md Hip Hc;
    cbn [namex_loop]; pose proof (skipelem_splits path name Hp Hn) as Hsk.
  { destruct path; [|cbn in Hf; lia]. by apply wp_namex_end. }
  destruct (skipelem path name) as [[rest name']|]; [|rewrite Hsk; by apply wp_namex_end].
  destruct Hsk as (e & Ees & He & -> & Hl & Hh & Hlt & Hrest). rewrite Ees.
  destruct (tr_inode _ _ _ Tr n HN) as (_ & Ht & Hnl). pose proof (mid_sb _ _ _ Md) as Esb.
  apply wp_bind. eapply (wp_ilock s (one ip) ip n); [done|done|done|by rewrite Esb|].
  rewrite Esb. intros s1 Md1 Hc1 A1 Hv1. pose proof Hc1 as (Hr1 & _ & _). pose proof A1 as (_ & ET & EN & _ & _).
  apply wp_bind, wp_gets. rewrite ET. destruct (Z.eqb_spec (i_type (dino C sb n)) T_DIR) as [HT|HT]; cbn [negb].
  2: { apply wp_bind. apply (wp_iunlockput s1 (one ip)); [done|done|done|congruence|]. intros s2 Md2 _. apply wp_ret, found_none; [|done|done|by eapply mid_ext, Md2; apply one_drop].
       unfold dir_find. by rewrite (proj2 (Z.eqb_neq _ _) HT). }
  rewrite (rest_elems rest Hrest Hh). destruct (decide (parent = true /\ path_elems rest = [])) as [[-> Er]|Hnp].
  { rewrite bool_decide_true by done. cbn [andb]. apply wp_bind. apply (wp_iunlock s1 (one ip)); [done..|]. intros s2 Md2 E2 _. apply wp_ret.
    unfold found. rewrite Er. cbn [resolve_parent]. rewrite HT. cbn [T_DIR Z.eqb Pos.eqb]. exists ip. split; [done|]. split; [done|]. split; [done|].
    split; [by rewrite E2|]. intros _. exists e, name. done. }
  replace (parent && bool_decide (path_elems rest = [])) with false.
  2: { destruct parent; [|done]. cbn. rewrite bool_decide_false; [done|]. intros E. by apply Hnp. }
  apply wp_bind. pose proof (mid_sb _ _ _ Md1) as Esb1. apply (wp_dirlookup s1 (one ip) ip n); rewrite ?Esb1; [done|done|by apply (tr_dir _ _ _ Tr)|intros; apply one_pos|by eapply one_free|].
  rewrite name_after_dir. destruct (dir_find C sb n e) as [m|] eqn:Ed.
  - intros np off s2 Md2 Hnp2 Hc2 K2. destruct (K2 ip Hip Hr1) as [v Ev].
    assert (0 < i_ref (inode_at s2 ip)) as Hr2.
    { pose proof (mid_ref _ _ _ _ Md1 Hip) as [_ E1]. pose proof (mid_ref _ _ _ _ Md2 Hip) as [_ E2]. destruct (decide (np = ip)) as [->|].
      - rewrite fn_lookup_insert in E2. lia.
      - rewrite fn_lookup_insert_ne in E2 by done. lia. }
    apply wp_bind. eapply wp_iunlockput; [exact Md2|done|done|rewrite Ev; cbn; congruence|]. intros s3 Md3 K3.
    apply (mid_ext _ _ _ (one np)) in Md3; [|apply one_move]. eapply wp_mono; [intros r s'; apply (found_next parent n m e); [done|intros -> E; by apply Hnp]|].
    apply IH; [lia|done|done|by eapply (tree_find s0)|done|done|]. destruct Hc2 as (_ & E1 & E2). destruct (K3 np) as [E4 E5]. split; [|by rewrite E4, E5].
    pose proof (mid_ref _ _ _ _ Md3 Hnp2) as [_ E3]. unfold one in E3. rewrite fn_lookup_insert in E3.
    pose proof (ito_ref _ (tb_it _ _ _ T0) np Hnp2). unfold inode_at in *. lia.
  - intros s2 Md2 S2. apply wp_bind. eapply wp_iunlockput; [exact Md2|done|by rewrite (inode_at_same _ _ _ S2)|rewrite (inode_at_same _ _ _ S2); congruence|].
    intros s3 Md3 _. apply wp_ret, found_none; [done| |done|by eapply mid_ext, Md3; apply one_drop]. intros -> E. by destruct Hnp.
Qed.

Lemma mid_refl : tx s0 C ∅ bs -> mid s0 None (fun _ => 0).
Proof using T0. intros I. split; [done..|]. split; [done|intros; lia|done]. Qed.

Lemma wp_idup s L d ip (Q : Z -> fsst -> Prop) : mid s L d -> in_table ip -> 0 < i_ref (inode_at s ip) ->
  (forall s', mid s' L (<[ip := d ip + 1]> d) -> inode_at s' ip = set_iref (i_ref (inode_at s ip) + 1) (inode_at s ip) -> Q ip s') -> wp (idup ip) Q s.
Proof using.
  intros Md Hip Hr HQ. pose proof Md as [I T M]. destruct (tb_disk _ _ _ T ip Hip Hr) as [Hdev Hd].
  unfold idup. apply wp_bind, wp_it_acquire; [apply T|]. apply wp_bind, wp_modify. change (inode_at (relock held_lock s) ip) with (inode_at s ip).
  set (x := set_iref _ _). change (set_fit _ _) with (relock held_lock (it_entry s ip x)). apply wp_bind, wp_it_release; [apply T|].
  apply wp_ret, HQ; [|by rewrite it_entry_at]. apply (mid_entry s L L d); [done| |rewrite fn_lookup_insert; cbn; lia|intros; by rewrite fn_lookup_insert_ne|done].
  apply (table_ok_entry s C L); [done| |apply (tb_locks _ _ _ T ip Hip)|done|].
  - apply it_ok_keep; [apply T|done..|cbn; lia].
  - intros _. split; [done|]. intros Hv. unfold x. rewrite load_set_ref. f_equal. by apply Hd.
Qed.

(** The inode at which the resolution of [path] starts. *)
Definition start_dir : Z := default 0 (p_cwd (myproc s0)).
Definition start_inum (path : list Z) : Z := if hd 0 path =? SLASH then ROOTINO else i_inum (inode_at s0 start_dir).

Lemma wp_namex parent path name : tx s0 C ∅ bs -> Forall path_char path -> length name = Z.to_nat DIRSIZ -> N (start_inum path) ->
  (hd 0 path <> SLASH -> in_table start_dir /\ 0 < i_ref (inode_at s0 start_dir)) ->
  wp (namex path parent name) (found parent (start_inum path) (path_elems path)) s0.
Proof using Tr Hfree T0.
  intros I Hp Hn HN Hcwd. pose proof (mid_refl I) as Md. unfold namex, start_inum in *. apply wp_bind.
  destruct (Z.eqb_spec (hd 0 path) SLASH) as [Hs|Hs].
  - apply (wp_iget s0 None (fun _ => 0)); [done|done| |]. { destruct Hfree as (a & _ & _ & ? & _ & ? & _). by exists a. }
    intros ip s1 Md1 Hip Hc _. by apply wp_namex_loop.
  - destruct (Hcwd Hs) as [Hip Hr]. apply wp_bind, wp_gets. fold start_dir. apply (wp_idup s0 None (fun _ => 0)); [done..|].
    intros s1 Md1 E1. apply wp_namex_loop; try done. rewrite E1. split; [cbn; lia|]. split; [|done].
    by apply (tb_disk _ _ _ T0).
Qed.
End path.

(** The state of the file system in which paths are resolved: a transaction, a tree of
    linked inodes, a table that agrees with the disk and in which no inode is locked, and
    two unused entries. *)
Record fs_ok (s : fsst) (C : Z -> list Z) (bs : list Z) (N : Z -> Prop) : Prop := {
  fs_tx : tx s C ∅ bs;
  fs_tree : tree s C N;
  fs_table : table_ok s C None;
  fs_free : exists a b, a <> b /\ in_table a /\ in_table b /\ i_ref (inode_at s a) = 0 /\ i_ref (inode_at s b) = 0
}.

(** C11: [namei] and [nameiparent] resolve paths as the directories on the disk say.  A path
    starts at the root if its first character is a slash, otherwise at the current
    directory; its elements, cut to [DIRSIZ] characters, are looked up one after the other.
    [namei] returns an entry of the table for the inode to which all of them lead;
    [nameiparent] one for the directory to which all but the last lead, with the last
    element in [name].  They return null exactly when an element is missing or something
    that is not a directory comes before it (and [nameiparent] also when the path has no
    element).  They end without panic or sleep; the entry found has one reference more, and
    apart from it no count of references has changed; no inode stays locked; table and disk
    agree as before; blocks, log and everything else are unchanged. *)
Theorem namei_resolves `{Layout} (s : fsst) (C : Z -> list Z) (bs : list Z) (N : Z -> Prop) (path name : list Z) :
  fs_ok s C bs N -> Forall path_char path -> length name = Z.to_nat DIRSIZ -> N (start_inum s path) ->
  (hd 0 path <> SLASH -> in_table (start_dir s) /\ 0 < i_ref (inode_at s (start_dir s))) ->
  (exists r s', namei path s = Ok r s' /\
    match resolve C (fsb s) (start_inum s path) (path_elems path) with
    | Some m => exists ip, r = Some ip /\ in_table ip /\ caches (inode_at s' ip) ROOTDEV m /\ mid s C bs s' None (one ip)
    | None => r = None /\ mid s C bs s' None (fun _ => 0)
    end) /\
  (exists r name' s', nameiparent path name s = Ok (r, name') s' /\
    match resolve_parent C (fsb s) (start_inum s path) (path_elems path) with
    | Some m => exists ip e, r = Some ip /\ in_table ip /\ caches (inode_at s' ip) ROOTDEV m /\ mid s C bs s' None (one ip) /\
        last (path_elems path) = Some e /\ (forall t, namecmp name' t = namecmp e t)
    | None => r = None /\ mid s C bs s' None (fun _ => 0)
    end).
Proof.
  intros [I Tr T0 Hf] Hp Hn HN Hc. split.
  - pose proof (wp_namex s C bs N Tr T0 Hf false path (replicate (Z.to_nat DIRSIZ) 0) I Hp eq_refl HN Hc) as Hw.
    apply wp_Ok in Hw as ([r nm] & s' & Hr & Hfo). exists r, s'. split; [unfold namei; by rewrite (bind_Ok _ _ _ _ _ Hr)|].
    unfold found in Hfo. destruct (resolve _ _ _ _) as [m|]; [|done]. destruct Hfo as (ip & ? & ? & ? & ? & _). by exists ip.
  - pose proof (wp_namex s C bs N Tr T0 Hf true path name I Hp Hn HN Hc) as Hw.
    apply wp_Ok in Hw as ([r nm] & s' & Hr & Hfo). exists r, nm, s'. split; [done|]. unfold found in Hfo.
    destruct (resolve_parent _ _ _ _) as [m|]; [|done]. destruct Hfo as (ip & E1 & ? & ? & ? & Hl). destruct (Hl eq_refl) as (e & nm0 & E2 & E3 & _).
    exists ip, e. cbn in E1, E3. subst. repeat (split; [done|]). intros t. apply name_after_cmp.
Qed.

(** ** Example: the path [/a] *)

#[local] Program Instance path_layout : Layout :=
  {| etext := PHYSTOP - 4 * PGSIZE; kend := PHYSTOP - 2 * PGSIZE; trampoline := PHYSTOP - 5 * PGSIZE |}.
Solve Obligations with (vm_compute; congruence).

(** The name [a] leads to a program of 124 bytes: an ELF header, one program header, and
    one instruction to be loaded at address 0. *)
Definition ex_program : list Z :=
  [127; 69; 76; 70] ++ replicate 20 0 ++ le_bytes 8 0 ++ le_bytes 8 64 ++ replicate 16 0 ++ le_bytes 2 1 ++ replicate 6 0 ++
  le_bytes 4 1 ++ le_bytes 4 5 ++ le_bytes 8 120 ++ le_bytes 8 0 ++ le_bytes 8 0 ++ le_bytes 8 4 ++ le_bytes 8 8 ++ replicate 8 0 ++ [19; 0; 0; 0].
Definition ex_file : inode := mkInode ROOTDEV 2 0 initsleeplock 0 T_FILE 0 0 1 124 (47 :: replicate 12 0).
Definition ex_iblock : list Z := store_dinode 128 ex_file (store_dinode 64 ex_root zero_block).
Definition ex_fblock : list Z := ex_program ++ replicate 900 0.
Definition ex_disk : gmap Z (list Z) := <[47 := ex_fblock]> (<[32 := ex_iblock]> {[46 := ex_dirblock]}).

Lemma ex_disk_bytes y d : ex_disk !! y = Some d -> bytes_ok BSIZE d.
Proof.
  unfold ex_disk. destruct (Z.eq_dec y 47) as [->|]; [rewrite lookup_insert_eq; intros [= <-]; apply bytes_check; vm_compute; reflexivity|].
  rewrite lookup_insert_ne by congruence. destruct (Z.eq_dec y 32) as [->|].
  - rewrite lookup_insert_eq. intros [= <-]. apply bytes_check; vm_compute; reflexivity.
  - rewrite lookup_insert_ne by congruence. intros [<- <-]%lookup_singleton_Some. apply bytes_check; vm_compute; reflexivity.
Qed.
Lemma ex_dino C : C 32 = ex_iblock -> alike (dino C ex_sb 1) ex_root /\ alike (dino C ex_sb 2) ex_file.
Proof.
  intros H. unfold dino. change (IBLOCK 1 ex_sb) with 32. change (IBLOCK 2 ex_sb) with 32. rewrite H. split; vm_compute; repeat split.
Qed.
Lemma ex_tree s C : fsb s = ex_sb -> l_start (lg (fl s)) = 2 -> l_size (lg (fl s)) = LOGSIZE -> C 46 = ex_dirblock -> C 32 = ex_iblock ->
  dir_ok C ex_root -> tree s C (fun n => n = 1 \/ n = 2).
Proof.
  intros Esb Hst Hsz H46 H32 D. destruct (ex_dino C H32) as [A1 A2]. pose proof A1 as (_ & T1 & L1 & _). pose proof A2 as (_ & T2 & L2 & _).
  split; rewrite Esb.
  - intros n Hn. split; [unfold iblock_ok; rewrite Esb, Hst, Hsz; destruct Hn as [->| ->]; vm_compute; repeat split; intros [=]|].
    destruct Hn as [->| ->]; rewrite ?T1, ?L1, ?T2, ?L2; vm_compute; split; intros [=].
  - intros n [->| ->] Ht; [by eapply alike_dir_ok|]. rewrite T2 in Ht. vm_compute in Ht. congruence.
  - cbv zeta. intros n i [->| ->] Ht; [|rewrite T2 in Ht; vm_compute in Ht; congruence]. rewrite (alike_nentries _ _ A1), (alike_entry C _ _ i A1).
    change (Z.of_nat (nentries ex_root)) with 2. intros Hi _. assert (i = 0 \/ i = 1) as [->| ->] by lia.
    + left. rewrite (ex_entry0 C H46). vm_compute. reflexivity.
    + right. rewrite (ex_entry_at C H46). vm_compute. reflexivity.
Qed.
Lemma ex_walk C : C 46 = ex_dirblock -> C 32 = ex_iblock -> resolve C ex_sb 1 [[97]] = Some 2.
Proof.
  intros H46 H32. destruct (ex_dino C H32) as [A1 _]. cbn [resolve]. unfold dir_find. pose proof A1 as (_ & -> & _).
  rewrite (alike_find C _ _ [97] _ _ A1), (alike_nentries _ _ A1). change (nentries ex_root) with 2%nat. rewrite (ex_find C H46).
  change (i_type ex_root =? T_DIR) with true. cbn [fmap option_fmap option_map]. rewrite (alike_entry C _ _ 1 A1), (ex_entry_at C H46). vm_compute. reflexivity.
Qed.
Lemma ex_empty_table s C : fit s = mkItable initlock ∅ -> table_ok s C None.
Proof.
  intros Et. assert (forall ip, inode_at s ip = mkInode 0 0 0 (mkSleeplock 0 initlock 0) 0 0 0 0 0 0 (replicate 13 0)) as Hx.
  { intros ip. unfold inode_at. rewrite Et. cbn. rewrite lookup_total_empty. reflexivity. }
  split; [rewrite Et; reflexivity| |intros ip _; rewrite Hx; reflexivity|intros ip x _ Hr; unfold x in Hr; rewrite Hx in Hr; cbn in Hr; lia].
  split; intros ip; fold (inode_at s ip); [rewrite Hx; cbn; lia|]. intros jp dev inum _ _ [Hr _]. fold (inode_at s ip) in Hr. rewrite Hx in Hr. cbn in Hr. lia.
Qed.

Lemma ex_root_ok C : dir_ok C ex_root.
Proof.
  split; [|reflexivity|reflexivity]. split; [reflexivity|vm_compute; split; intros [=]|]. intros bn H0 Hb. change (i_size ex_root) with 32 in Hb.
  assert (bn = 0) as -> by (unfold BSIZE in Hb; lia). vm_compute. intros [=].
Qed.

(** After a boot from this disk, with no inode in the table. *)
Lemma ex_fs k pt : exists s C, begin_boot (ex_platter ex_disk) 1 ex_sb (mkItable initlock ∅) k pt = Ok tt s /\ fs_ok s C [] (fun n => n = 1 \/ n = 2) /\
  (fsb s = ex_sb /\ fk s = k /\ fp s = pt /\ l_outstanding (lg (fl s)) = 1 /\ l_committing (lg (fl s)) = 0) /\
  C 46 = ex_dirblock /\ C 32 = ex_iblock /\ C 47 = ex_fblock /\ (forall ip, i_ref (inode_at s ip) = 0).
Proof.
  destruct (ex_tx ex_disk (mkItable initlock ∅) k pt eq_refl ex_disk_bytes) as (s & C & Hs & I & _ & _ & _ & Esb & Et & Ek & Ep & HC).
  destruct (ex_log ex_disk _ _ _ s eq_refl ex_disk_bytes Hs) as (Hst & Hsz & Hout & Hcom). exists s, C. split; [exact Hs|].
  assert (C 46 = ex_dirblock) as H46 by (rewrite HC; vm_compute; reflexivity). assert (C 32 = ex_iblock) as H32 by (rewrite HC; vm_compute; reflexivity).
  assert (C 47 = ex_fblock) as H47 by (rewrite HC; vm_compute; reflexivity).
  assert (forall ip, i_ref (inode_at s ip) = 0) as Hz by (intros ip; unfold inode_at; rewrite Et; cbn; rewrite lookup_total_empty; reflexivity).
  split; [|repeat (split; [repeat split; assumption|]); exact Hz].
  split; [exact I|exact (ex_tree s C Esb Hst Hsz H46 H32 (ex_root_ok C))|exact (ex_empty_table s C Et)|].
  exists 0, 1. split; [lia|]. split; [unfold in_table, NINODE; lia|]. split; [unfold in_table, NINODE; lia|]. split; apply Hz.
Qed.

Lemma namei_resolves_witness : exists s s' ip,
  begin_boot (ex_platter ex_disk) 1 ex_sb (mkItable initlock ∅) ex_mem ex_ptable = Ok tt s /\
  namei [47; 97] s = Ok (Some ip) s' /\ i_inum (inode_at s' ip) = 2 /\ i_ref (inode_at s' ip) = 1.
Proof.
  destruct (ex_fs ex_mem ex_ptable) as (s & C & Hs & Fs & (Esb & _) & H46 & H32 & _ & Hz).
  destruct (namei_resolves s C [] (fun n => n = 1 \/ n = 2) [47; 97] (replicate 14 0)) as [(r & s' & Hn & Hw) _].
  - exact Fs.
  - repeat constructor; intros [=].
  - reflexivity.
  - left. reflexivity.
  - intros Hh. destruct (Hh eq_refl).
  - change (start_inum s [47; 97]) with 1 in Hw. change (path_elems [47; 97]) with [[97]] in Hw. rewrite Esb, (ex_walk C H46 H32) in Hw.
    destruct Hw as (ip & -> & Hip & (_ & _ & Hi) & Md). exists s, s', ip. split; [exact Hs|]. split; [exact Hn|]. split; [exact Hi|].
    rewrite (mr_refs _ _ _ (md_refs _ _ _ _ _ _ Md) ip Hip), Hz. unfold one. rewrite fn_lookup_insert. reflexivity.
Defined.
