(* ===== verification/FsOp.v ===== *)
(** * File-system operations as transactions: [begin_op] and [end_op] around them

    The rules with which a system call that reads the file system is verified from its
    [begin_op] to its [end_op] (kernel/log.c, kernel/fs.c). *)

From stdpp Require Import base gmap strings fin_sets functions list.
From S2P Require Import Prelude Riscv Mem Spinlock Kalloc Vm Sleeplock ProcData Bytes Bio BioSpec Log LogSpec LogOps Fs FsTx FsAlloc FsFile FsGrow FsWrite FsTrunc FsPath.

(** The number of operations in progress. *)
Definition outs (f : fsst) : Z := l_outstanding (lg (fl f)).
Definition with_out (n : Z) (f : fsst) : fsst := set_fl {| lb := lb (fl f); lg := set_outstanding n (lg (fl f)) |} f.

Lemma tx_with_out n f C held bs : tx f C held bs -> tx (with_out n f) C held bs.
Proof. intros [[L [I1 I2 I3 I4]] Hc]. split; [|done]. exists L. split; [done| |done|done]. by destruct I2. Qed.
Lemma with_out_twice n m f : with_out n (with_out m f) = with_out n f.
Proof. done. Qed.
Lemma with_out_id f : with_out (outs f) f = f.
Proof. by destruct f as [[? []] ? ? ? ?]. Qed.

Lemma wp_begin_op f C bs (Q : unit -> fsst -> Prop) : tx f C ∅ bs -> l_committing (lg (fl f)) = 0 ->
  Z.of_nat (length bs) + (outs f + 1) * MAXOPBLOCKS <= LOGSIZE -> Q tt (with_out (outs f + 1) f) -> wp (zf begin_op) Q f.
Proof.
  intros [[L I] _] Hc Hr HQ. destruct (begin_op_run (fl f) L C ∅ bs I Hc Hr) as [Hb _]. apply wp_zoom. eapply wp_run; [exact Hb|]. exact HQ.
Qed.

(** [end_op] when it need not commit: other operations are in progress, or nothing was written. *)
Lemma wp_end_op f C bs (Q : unit -> fsst -> Prop) : tx f C ∅ bs -> l_committing (lg (fl f)) = 0 -> bs = [] \/ outs f <> 1 ->
  Q tt (with_out (outs f - 1) f) -> wp (zf end_op) Q f.
Proof.
  intros [[L [Ib G Hlk Hby]] _] Hc Hbs HQ. apply wp_zoom. assert (end_op (fl f) = Ok tt {| lb := lb (fl f); lg := set_outstanding (outs f - 1) (lg (fl f)) |}) as E; [|by eapply wp_run].
  unfold end_op. rewrite (bind_Ok _ _ _ (outs f - 1 =? 0)
    {| lb := lb (fl f); lg := if outs f - 1 =? 0 then set_committing 1 (set_outstanding (outs f - 1) (lg (fl f))) else set_outstanding (outs f - 1) (lg (fl f)) |}).
  2: { unfold zl, zoom. rewrite end_op_enter_eq by done. cbv zeta. fold (outs f). by destruct (outs f - 1 =? 0). }
  destruct (Z.eqb_spec (outs f - 1) 0) as [E|E]; [|done]. destruct Hbs as [->|?]; [|lia].
  rewrite (bind_Ok _ _ _ tt {| lb := lb (fl f); lg := set_committing 1 (set_outstanding (outs f - 1) (lg (fl f))) |}).
  - unfold zl, zoom. rewrite end_op_leave_eq by done. destruct (lg (fl f)). cbn in *. by subst.
  - unfold commit, get_log. rewrite bind_gets. cbn [lg]. change (lh_n (set_committing 1 (set_outstanding (outs f - 1) (lg (fl f))))) with (lh_n (lg (fl f))).
    by rewrite (li_n _ _ G).
Qed.

Lemma fs_ok_with_out n f C bs N : fs_ok f C bs N -> fs_ok (with_out n f) C bs N.
Proof. intros [I [] [] Hf]. split; [by apply tx_with_out|by split|by split|done]. Qed.
Lemma mid_with_out n f0 C bs f L d : mid f0 C bs f L d -> mid (with_out n f0) C bs (with_out n f) L d.
Proof. intros [I [] [B M1 M2]]. split; [by apply tx_with_out|by split|]. split; [|done|done]. destruct B. by split. Qed.
Lemma mid_set_fk k f0 C bs f L d : mid f0 C bs f L d -> mid (set_fk k f0) C bs (set_fk k f) L d.
Proof. intros [I [] [B M1 M2]]. split; [by apply tx_set_fk|by split|]. split; [|done|done]. destruct B. by split. Qed.

Lemma mid_facts f0 C bs f L d : mid f0 C bs f L d -> fsb f = fsb f0 /\ fk f = fk f0 /\ fp f = fp f0 /\ outs f = outs f0 /\ l_committing (lg (fl f)) = l_committing (lg (fl f0)).
Proof. intros [_ _ [[] _ _]]. by repeat split. Qed.

Lemma alike_file_ok C x y : alike x y -> file_ok C y -> file_ok C x.
Proof.
  intros A [F1 F2 F3]. pose proof A as (E1 & _ & _ & E4 & _). split; [congruence..|]. intros bn. rewrite (alike_faddr C x y), E4 by done. apply F3.
Qed.

(** ** A transaction that commits *)

Definition in_log (f : fsst) (y : Z) : Prop := l_start (lg (fl f)) <= y < l_start (lg (fl f)) + l_size (lg (fl f)).
Notation disk_of f := (disk_read (platter (dk (lb (fl f))))).

(** The last operation ended in [f], with contents [C]: the blocks were written to the disk
    by the writes [ws].  A crash after any of them leaves, when the log is recovered, all
    blocks as before, or all as in [C]. *)
Record committed (f : fsst) (C : Z -> list Z) (f' : fsst) (C' : Z -> list Z) (ws : list (Z * list Z)) : Prop := {
  cm_tx : tx f' C' ∅ [];
  cm_home : forall y, ~ in_log f y -> C' y = C y;
  cm_sb : fsb f' = fsb f; cm_it : fit f' = fit f; cm_k : fk f' = fk f; cm_p : fp f' = fp f;
  cm_start : l_start (lg (fl f')) = l_start (lg (fl f)); cm_size : l_size (lg (fl f')) = l_size (lg (fl f));
  cm_out : outs f' = 0; cm_com : l_committing (lg (fl f')) = 0; cm_me : me (lb (fl f')) = me (lb (fl f));
  cm_disk : dk (lb (fl f')) = {| platter := papply (platter (dk (lb (fl f)))) ws; writes := writes (dk (lb (fl f))) ++ ws |};
  cm_head : get32 (disk_of f' (l_start (lg (fl f)))) 0 = 0;
  cm_crash : forall (k : nat) (pid : Z), exists r,
    boot_recover (papply (platter (dk (lb (fl f)))) (take k ws)) pid (l_start (lg (fl f))) (l_size (lg (fl f))) = Ok tt r /\
    ((forall y, ~ in_log f y -> disk_read (platter (dk (lb r))) y = disk_of f y) \/
     (forall y, ~ in_log f y -> disk_read (platter (dk (lb r))) y = C y))
}.

Lemma fapply_bytes ws : forall C, (forall y, bytes_ok BSIZE (C y)) -> Forall (fun w => bytes_ok BSIZE w.2) ws -> forall y, bytes_ok BSIZE (fapply C ws y).
Proof.
  induction ws as [|[z d] ws IH]; intros C HC Hw y; [apply HC|]. apply Forall_cons_1 in Hw as [Hd Hw]. cbn. apply IH; [|done].
  intros y'. destruct (decide (y' = z)) as [->|]; [by rewrite fn_lookup_insert|by rewrite fn_lookup_insert_ne].
Qed.
Lemma commit_writes_bytes l C bs : lgok l bs -> (forall y, bytes_ok BSIZE (C y)) -> Forall (fun w => bytes_ok BSIZE w.2) (commit_writes l C bs).
Proof.
  intros G HC. assert (bytes_ok BSIZE (head_bytes l (C (l_start l)))) as Hh.
  { apply head_upto_spec; [apply HC|rewrite (li_n _ _ G), Nat2Z.id; pose proof (li_room _ _ G); pose proof (li_geom _ _ G); lia]. }
  unfold commit_writes. apply Forall_app_2; [|constructor; [done|apply Forall_app_2]].
  - unfold wlog. apply Forall_forall. intros w (i & y & -> & _)%elem_of_lookup_imap. apply HC.
  - unfold whome. apply Forall_fmap, Forall_forall. intros y _. apply HC.
  - apply Forall_singleton. apply bytes_put32; [done|unfold BSIZE; lia..].
Qed.

(** Nothing was written. *)
Lemma committed_nothing f C : tx f C ∅ [] -> l_committing (lg (fl f)) = 0 -> get32 (disk_of f (l_start (lg (fl f)))) 0 = 0 ->
  committed f C (with_out 0 f) C [].
Proof.
  intros I Hc Hh. pose proof I as [[L Il] Hcl]. pose proof (lgok_area _ _ (li_ok _ _ _ _ _ Il)) as Ha.
  split; try done; [by apply tx_with_out|cbn; by rewrite app_nil_r; destruct (dk (lb (fl f)))|].
  intros k pid. rewrite take_nil. cbn [papply foldl]. set (p := platter (dk (lb (fl f)))) in *.
  destruct (boot_recover_run p pid _ _ [] Ha (head_says_nil _ Hh)) as (r & L2 & Hr & _ & Dr & _).
  exists r. split; [exact Hr|]. left. intros y Hy. rewrite Dr. cbn [platter]. rewrite disk_read_papply.
  destruct (recovered_home _ _ (disk_read p) [] y Ha Hy) as [_ Hout]. exact (Hout (not_elem_of_nil _)).
Qed.
(** [end_op] of the last operation in progress. *)
Lemma end_op_last f C bs : tx f C ∅ bs -> l_committing (lg (fl f)) = 0 -> outs f = 1 ->
  get32 (disk_of f (l_start (lg (fl f)))) 0 = 0 ->
  exists f' C' ws, zf end_op f = Ok tt f' /\ committed f C f' C' ws.
Proof.
  intros I Hc Ho Hh. destruct (decide (bs = [])) as [->|Hne].
  { destruct (wp_Ok (zf end_op) (fun _ f' => f' = with_out 0 f) f) as ([] & f' & E & ->).
    - eapply wp_end_op; [exact I|done|by left|]. by rewrite Ho.
    - exists (with_out 0 f), C, []. split; [exact E|]. by apply committed_nothing. }
  pose proof I as [[L [Ib G Hlk Hby]] Hcl]. set (l1 := set_committing 1 (set_outstanding 0 (lg (fl f)))).
  set (s1 := {| lb := lb (fl f); lg := l1 |}). assert (lgok l1 bs) as G1 by (by destruct G).
  assert (lginv s1 L C ∅ bs) as I1 by (by split).
  destruct (commit_run s1 L C bs G1 Ib Hne) as (s' & L' & E & Gl & Ib' & D & M).
  set (ws := commit_writes (lg s1) C bs) in *. set (l2 := set_committing 0 (lg s')).
  exists (set_fl {| lb := lb s'; lg := l2 |} f), (fapply C ws), ws. split.
  { unfold zf, zoom, end_op. rewrite (bind_Ok _ _ _ true s1).
    - rewrite (bind_Ok _ _ _ _ _ E). unfold zl, zoom. by rewrite end_op_leave_eq by (by rewrite Gl).
    - unfold zl, zoom. rewrite end_op_enter_eq by done. cbv zeta. fold (outs f). by rewrite Ho. }
  assert (forall y, fapply C ws y = disk_read (platter (dk (lb s'))) y) as Hd.
  { intros y. apply (bi_clean _ _ _ _ _ Ib'); set_solver. }
  split; cbn; try done; rewrite ?Gl; try done.
  - split; [|intros y _; apply Hd]. exists L'. split; [done| |unfold l2; cbn; by rewrite Gl|].
    + cbn. unfold l2. rewrite Gl. pose proof (li_geom _ _ G1) as Hg. destruct G1. split; try done; [by apply NoDup_nil|set_solver|cbn in *; lia].
    + apply fapply_bytes; [done|]. by apply commit_writes_bytes.
  - intros y Hy. unfold ws. apply (commit_home l1 C bs C); [done|done|exact Hy].
  - rewrite <- Hd. unfold ws, commit_writes. rewrite !app_assoc, fapply_app. cbn. rewrite fn_lookup_insert.
    apply (get32_put32 BSIZE); [|unfold BSIZE; lia..]. apply head_upto_spec; [apply Hby|].
    pose proof (li_room _ _ G1). pose proof (li_geom _ _ G1). pose proof (li_n _ _ G1) as Hn. cbn in *. rewrite Hn. lia.
  - intros k pid. destruct (commit_recovers s1 L C bs I1 Hh k pid) as (r & Hr & _ & H1 & H2). exists r. split; [exact Hr|].
    destruct (Nat.le_gt_cases k (length bs)) as [Hk|Hk]; [left; exact (H1 Hk)|right; exact (H2 Hk)].
Qed.
