(* ===== verification/FsDurable.v ===== *)
(** * Writes that are on the disk: [writei] in transactions that commit

    What a file is depends on the blocks outside the log only; so what [writei] wrote is in
    the file when the transaction has committed (kernel/fs.c, kernel/log.c), and several
    writes one after the other are one. *)

From stdpp Require Import base gmap strings fin_sets functions list.
From S2P Require Import Prelude Riscv Mem Spinlock Kalloc Vm Sleeplock ProcData Bytes Bio BioSpec Log LogSpec LogOps Fs FsTx FsAlloc FsFile FsGrow FsWrite FsOp.

(** ** Contents that agree outside the log *)

Section agree.
Context (s : fsst) (G : geom s) (C C' : Z -> list Z) (A : forall y, ~ in_log s y -> C' y = C y).

Lemma agree_home y : home s y -> C' y = C y.
Proof using A. intros [_ Hh]. by apply A. Qed.
Lemma agree_used b : 0 <= b < sb_size (fsb s) -> used C' (fsb s) b = used C (fsb s) b.
Proof using A G. intros Hb. unfold used. by rewrite (agree_home _ (BBLOCK_home s G b Hb)). Qed.
Lemma agree_iblock inum : iblock_ok s inum -> C' (IBLOCK inum (fsb s)) = C (IBLOCK inum (fsb s)).
Proof using A G. intros Hb. by apply agree_home, iblock_home. Qed.
Lemma agree_meta : meta_used C (fsb s) -> meta_used C' (fsb s).
Proof using A G. intros MU b Hb. pose proof (g_meta _ G). rewrite agree_used by lia. by apply MU. Qed.

Context (x : inode) (W : inode_wf C (fsb s) x).
Lemma agree_owned y : owns C x y -> C' y = C y.
Proof using A G W. intros Ho. apply agree_home, (data_home s G). by apply (iw_range _ _ _ W). Qed.
Lemma agree_faddr k : faddr C' x k = faddr C x k.
Proof using A G W.
  unfold faddr. destruct (k <? NDIRECT); [done|]. destruct (Z.eqb_spec (addr_at x NDIRECT) 0) as [|Hn]; [done|].
  rewrite agree_owned; [done|]. split; [done|]. exists MAXFILE. split; [done|]. unfold slot. by rewrite Z.eqb_refl.
Qed.
Lemma agree_slot k : slot C' x k = slot C x k.
Proof using A G W. unfold slot. by rewrite agree_faddr. Qed.
Lemma agree_owns y : owns C' x y <-> owns C x y.
Proof using A G W. unfold owns. by setoid_rewrite agree_slot. Qed.
Lemma agree_wf : inode_wf C' (fsb s) x.
Proof using A G W.
  pose proof (nmeta_pos s G). split; [apply W|apply W| |].
  - intros y Ho%agree_owns. destruct (iw_range _ _ _ W y Ho) as [? ?]. split; [done|]. by rewrite agree_used by lia.
  - intros k k' Hk Hk'. rewrite !agree_slot. by apply (iw_inj _ _ _ W).
Qed.
Context (F : file_ok C x).
Lemma agree_file : file_ok C' x.
Proof using A G W F. destruct F as [F1 F2 F3]. split; [done|done|]. intros bn H0 Hb. rewrite agree_faddr. by apply F3. Qed.
Lemma agree_bytes : fbytes C' x 0 (i_size x) = fbytes C x 0 (i_size x).
Proof using A G W F.
  unfold fbytes. apply list_fmap_ext. intros i k [-> Hk]%lookup_seq. unfold fbyte. rewrite agree_faddr. f_equal. apply agree_owned.
  pose proof (fo_size _ _ F). set (o := 0 + Z.of_nat (0 + i)). assert (0 <= o < i_size x) as Ho by lia.
  pose proof (Z.div_pos o BSIZE ltac:(lia) ltac:(done)) as Hp. pose proof (Z.mul_div_le o BSIZE ltac:(done)).
  assert (o / BSIZE < MAXFILE) by (apply Z.div_lt_upper_bound; [done|lia]).
  assert (faddr C x (o / BSIZE) <> 0) as Hn by (apply (fo_blocks _ _ F); lia). rewrite <- slot_data in * by lia. apply owns_slot; [lia|done].
Qed.
End agree.

(** ** Writes *)

Section wrote.
Context (s : fsst) (G : geom s).

(** The contents after a write matter only outside the log. *)
Lemma wrote_agree C x off bs C1 C1' x1 : iblock_ok s (i_inum x) -> (forall y, ~ in_log s y -> C1' y = C1 y) ->
  wrote s C x off bs C1 x1 -> wrote s C x off bs C1' x1.
Proof using G.
  intros Hib A [W1 W2 W3 W4 W5 W6 W7 W8 W9 W11 W10].
  split; [done| | | | | | | | | |].
  - by rewrite (agree_bytes s G C1).
  - by apply (agree_file s G C1).
  - by apply (agree_wf s G C1).
  - by apply (agree_meta s G C1).
  - by rewrite (agree_iblock s G C1).
  - intros inum y Hb Hn. rewrite (agree_iblock s G C1) by done. by apply W7.
  - intros y Hy Hu Ho. rewrite (agree_home s C1) by (done || by apply (data_home s G)). by apply W8.
  - intros b Hb. rewrite (agree_used s G C1), (agree_owns s G C1) by done. by apply W9.
  - intros b Ho. rewrite (agree_owns s G C1) by done. by apply W11.
  - intros b. rewrite (agree_owns s G C1) by done. apply W10.
Qed.
Lemma overwrite_nil l off : overwrite l off [] = l.
Proof using. unfold overwrite. cbn. rewrite Nat.add_0_r. apply take_drop. Qed.
Lemma overwrite_app l off a b : (off <= length l)%nat -> overwrite (overwrite l off a) (off + length a) b = overwrite l off (a ++ b).
Proof using.
  intros Hl. unfold overwrite. rewrite (app_assoc (take off l) a). set (h := take off l ++ a).
  assert (length h = (off + length a)%nat) as Hh by (unfold h; rewrite length_app, length_take; lia).
  rewrite take_app_length' by done. unfold h at 1. rewrite <- !app_assoc. do 3 f_equal.
  rewrite drop_app, drop_ge, drop_drop by lia. cbn [app]. f_equal. rewrite length_app. lia.
Qed.
(** Nothing was written. *)
Lemma wrote_nil C x off : meta_used C (fsb s) -> inode_wf C (fsb s) x -> file_ok C x ->
  load_dinode (C (IBLOCK (i_inum x) (fsb s))) (dinode_off (i_inum x)) x = x -> off <= i_size x -> wrote s C x off [] C x.
Proof using G.
  intros MU W F Hd Ho. split; try done.
  - cbn. rewrite Z.max_l by lia. by destruct x.
  - by rewrite overwrite_nil.
  - intros b Hb. split; [by left|]. intros [?|Ho']; [done|]. by apply (iw_range _ _ _ W).
  - intros b Hb. by left.
Qed.
(** Two writes are one. *)
Lemma wrote_trans C x off a C1 x1 b C2 x2 : 0 <= off <= i_size x -> 0 <= i_size x -> wrote s C x off a C1 x1 -> wrote s C1 x1 (off + Z.of_nat (length a)) b C2 x2 ->
  wrote s C x off (a ++ b) C2 x2.
Proof using G.
  intros Ho Hs [A1 A2 A3 A4 A5 A6 A7 A8 A9 A11 A10] [B1 B2 B3 B4 B5 B6 B7 B8 B9 B11 B10].
  assert (i_inum x1 = i_inum x /\ i_size x1 = Z.max (i_size x) (off + Z.of_nat (length a))) as [Ei Es] by (rewrite A1; done).
  rewrite Ei in *. split; try done.
  - rewrite B1, A1. cbn. unfold with_addrs, set_isize. cbn. f_equal. rewrite length_app. lia.
  - rewrite B2, A2. rewrite Z2Nat.inj_add, Nat2Z.id by lia. apply overwrite_app. rewrite length_fbytes. lia.
  - intros inum y Hb Hn. rewrite B7, A7 by done. done.
  - intros y Hy Hu Hno. pose proof (nmeta_pos s G). rewrite B8; [by apply A8|done| |].
    + apply A9; [lia|by left].
    + intros [?|Hf]%A10; [done|congruence].
  - intros c Hc. rewrite B9, A9 by done. split; [|tauto]. intros [[?|H1]|?]; [by left|right; by apply B11|by right].
  - intros c Hc. by apply B11, A11.
  - intros c Hc. pose proof (nmeta_pos s G). destruct (iw_range _ _ _ B4 c Hc) as [Hr _]. destruct (B10 c Hc) as [H1|H1]; [by apply A10|right].
    apply not_true_iff_false. intros Hu. apply not_true_iff_false in H1. apply H1, A9; [lia|by left].
Qed.
End wrote.

(** *** What does not matter for a write *)

(** Only the superblock and the place of the log. *)
Definition same_layout (s s' : fsst) : Prop :=
  fsb s' = fsb s /\ l_start (lg (fl s')) = l_start (lg (fl s)) /\ l_size (lg (fl s')) = l_size (lg (fl s)).
Lemma layout_iblock s s' inum : same_layout s s' -> iblock_ok s' inum <-> iblock_ok s inum.
Proof. intros (E1 & E2 & E3). unfold iblock_ok. by rewrite E1, E2, E3. Qed.
Lemma layout_geom s s' : same_layout s s' -> geom s -> geom s'.
Proof. intros (E1 & E2 & E3) [G1 G2 G3]. split; by rewrite ?E1, ?E2, ?E3. Qed.
Lemma layout_log s s' y : same_layout s s' -> in_log s' y <-> in_log s y.
Proof. intros (E1 & E2 & E3). unfold in_log. by rewrite E2, E3. Qed.
Lemma layout_wrote s s' C x off bs C' x' : same_layout s s' -> wrote s' C x off bs C' x' -> wrote s C x off bs C' x'.
Proof.
  intros L [W1 W2 W3 W4 W5 W6 W7 W8 W9 W10 W11]. pose proof L as (E1 & _). rewrite E1 in *. split; try done.
  intros inum y Hb. apply W7. by rewrite (layout_iblock s).
Qed.

(** The lock of the inode. *)
Section lock.
Context (C : Z -> list Z) (sb : superblock) (lk : sleeplock) (x : inode).
Lemma lock_wf : inode_wf C sb (set_ilock lk x) <-> inode_wf C sb x.
Proof using. split; intros []; by split. Qed.
Lemma lock_file : file_ok C (set_ilock lk x) <-> file_ok C x.
Proof using. split; intros []; by split. Qed.
Lemma lock_typed : inode_typed (set_ilock lk x) <-> inode_typed x.
Proof using. split; intros []; by split. Qed.
End lock.
Lemma wrote_lock s C lk x off bs C' x' lk' : i_lock x = lk' -> wrote s C (set_ilock lk x) off bs C' x' -> wrote s C x off bs C' (set_ilock lk' x').
Proof.
  intros El [W1 W2 W3 W4 W5 W6 W7 W8 W9 W10 W11]. split; try done.
  - rewrite W1, <- El. by destruct x.
  - by apply lock_file.
  - by apply lock_wf.
  - cbn [i_inum set_ilock] in W6. change (load_dinode ?d ?o (set_ilock lk' x')) with (set_ilock lk' (load_dinode d o x')). by rewrite W6.
Qed.

