(* ===== verification/Ring.v ===== *)
(** * Ring buffers

    An array of [N] cells with a read index [r] and a write index [w] that wrap
    at [W], a multiple of [N], as pipes, the console and the UART driver use
    them: cell [i mod N] belongs to index [i]. *)

From stdpp Require Import base list gmap strings.
From S2P Require Import Prelude.

Section ring.
Context (N W : Z).
Implicit Types (buf : list Z) (r w : Z).

Definition rlen r w : Z := (w - r) mod W.
Definition rnth buf r (k : nat) : Z := nth (Z.to_nat ((r + Z.of_nat k) mod N)) buf 0.
(** The items between the two indices, oldest first. *)
Definition ring buf r w : list Z := rnth buf r <$> seq 0 (Z.to_nat (rlen r w)).

Record ring_ok buf r w : Prop := {
  ro_buf : length buf = Z.to_nat N;
  ro_r : 0 <= r < W;
  ro_w : 0 <= w < W;
  ro_len : rlen r w <= N
}.

Context (HN : 0 < N) (HW : N < W) (Hdiv : (N | W)).

Lemma rlen_case r w : 0 <= r < W -> 0 <= w < W -> rlen r w = if decide (r <= w) then w - r else w - r + W.
Proof using HN HW.
  intros Hr Hw. unfold rlen. case_decide; [rewrite Z.mod_small; lia|].
  rewrite <- (Z.mod_unique_pos (w - r) W (-1) (w - r + W)); lia.
Qed.
Lemma succ_case i : 0 <= i < W -> (i + 1) mod W = if decide (i = W - 1) then 0 else i + 1.
Proof using HN HW.
  intros Hi. case_decide; [subst; replace (W - 1 + 1) with W by lia; apply Z_mod_same_full|rewrite Z.mod_small; lia].
Qed.
Lemma pred_case i : 0 <= i < W -> (i - 1) mod W = if decide (i = 0) then W - 1 else i - 1.
Proof using HN HW.
  intros Hi. case_decide; [|rewrite Z.mod_small; lia].
  subst. rewrite <- (Z.mod_unique_pos (0 - 1) W (-1) (W - 1)); lia.
Qed.
Lemma addN_case i : 0 <= i < W -> (i + N) mod W = if decide (i + N < W) then i + N else i + N - W.
Proof using HN HW.
  intros Hi. case_decide; [rewrite Z.mod_small; lia|]. rewrite <- (Z.mod_unique_pos (i + N) W 1 (i + N - W)); lia.
Qed.
Lemma mod_wrap i : (i + W) mod N = i mod N.
Proof using Hdiv. destruct Hdiv as [k Hk]. rewrite Hk. apply Z_mod_plus_full. Qed.
Lemma mod_inj_small a x y : 0 <= x < N -> 0 <= y < N -> (a + x) mod N = (a + y) mod N -> x = y.
Proof using HN.
  intros Hx Hy He. pose proof (Z.div_mod (a + x) N ltac:(lia)). pose proof (Z.div_mod (a + y) N ltac:(lia)).
  set (q := (a + x) / N) in *. set (q' := (a + y) / N) in *. assert (x - y = N * (q - q')) by lia.
  destruct (Z.lt_trichotomy (q - q') 0) as [?|[?|?]]; nia.
Qed.

Lemma rlen_range r w : 0 <= rlen r w < W.
Proof using HN HW. apply Z.mod_pos_bound. lia. Qed.
Lemma ring_length buf r w : Z.of_nat (length (ring buf r w)) = rlen r w.
Proof using HN HW. unfold ring. rewrite length_fmap, length_seq. pose proof (rlen_range r w). lia. Qed.

Lemma ring_empty buf r w : ring_ok buf r w -> r = w <-> ring buf r w = [].
Proof using HN HW.
  intros [_ A2 A3 _]. pose proof (ring_length buf r w) as Hl. rewrite rlen_case in Hl by done. split.
  - intros ->. destruct (ring buf w w); [done|]. cbn in Hl. case_decide; lia.
  - intros E. rewrite E in Hl. cbn in Hl. case_decide; lia.
Qed.
Lemma ring_full buf r w : ring_ok buf r w -> w = (r + N) mod W <-> Z.of_nat (length (ring buf r w)) = N.
Proof using HN HW.
  intros [_ A2 A3 A4]. rewrite ring_length. rewrite rlen_case in * by done. rewrite addN_case by done. repeat case_decide; lia.
Qed.

(** The cell of index [w] is the one after the items. *)
Lemma ring_next_cell r w : 0 <= r < W -> 0 <= w < W -> (r + rlen r w) mod N = w mod N.
Proof using HN HW Hdiv.
  intros Hr Hw. rewrite rlen_case by done. case_decide; [f_equal; lia|]. rewrite <- (mod_wrap w). f_equal. lia.
Qed.

Lemma ring_put buf r w c : ring_ok buf r w -> w <> (r + N) mod W ->
  ring_ok (<[Z.to_nat (w mod N) := c]> buf) r ((w + 1) mod W) /\
  ring (<[Z.to_nat (w mod N) := c]> buf) r ((w + 1) mod W) = ring buf r w ++ [c].
Proof using HN HW Hdiv.
  intros I Hf. assert (Z.of_nat (length (ring buf r w)) <> N) as Hn by (by intros ?%ring_full).
  rewrite ring_length in Hn. destruct I as [A1 A2 A3 A4]. pose proof (rlen_range r w) as H0.
  assert (rlen r ((w + 1) mod W) = rlen r w + 1) as Hlen.
  { rewrite (succ_case w) by done. destruct (decide (w = W - 1)); rewrite !rlen_case in * by lia; repeat case_decide; lia. }
  split; [split; [by rewrite length_insert|done|apply Z.mod_pos_bound; lia|lia]|].
  unfold ring. rewrite Hlen. replace (Z.to_nat (rlen r w + 1)) with (Z.to_nat (rlen r w) + 1)%nat by lia.
  rewrite seq_app, fmap_app. cbn [seq fmap list_fmap]. pose proof (ring_next_cell r w A2 A3) as Hidx.
  f_equal.
  - apply list_fmap_ext. intros k j [-> Hk]%lookup_seq. unfold rnth. rewrite !nth_lookup.
    rewrite list_lookup_insert_ne; [done|]. intros He. cbn [Nat.add] in He.
    apply Z2Nat.inj in He; [|by apply Z.mod_pos_bound..].
    rewrite <- Hidx in He. apply (mod_inj_small r (rlen r w) (Z.of_nat k)) in He; lia.
  - unfold rnth. cbn [Nat.add]. rewrite Z2Nat.id by lia. rewrite Hidx, nth_lookup, list_lookup_insert_eq; [done|].
    rewrite A1. pose proof (Z.mod_pos_bound w N). lia.
Qed.

Lemma ring_take buf r w : ring_ok buf r w -> r <> w ->
  ring_ok buf ((r + 1) mod W) w /\ ring buf r w = nth (Z.to_nat (r mod N)) buf 0 :: ring buf ((r + 1) mod W) w.
Proof using HN HW Hdiv.
  intros [A1 A2 A3 A4] He. pose proof (rlen_range r w) as H0.
  assert (rlen r w = rlen ((r + 1) mod W) w + 1) as Hlen.
  { rewrite (succ_case r) by done. destruct (decide (r = W - 1)); rewrite !rlen_case in * by lia; repeat case_decide; lia. }
  pose proof (rlen_range ((r + 1) mod W) w) as H1.
  split; [split; [done|apply Z.mod_pos_bound; lia|done|lia]|].
  unfold ring. rewrite Hlen. replace (Z.to_nat (rlen ((r + 1) mod W) w + 1)) with (S (Z.to_nat (rlen ((r + 1) mod W) w))) by lia.
  cbn [seq]. rewrite fmap_cons. f_equal; [unfold rnth; by rewrite Z.add_0_r|].
  rewrite <- fmap_S_seq, <- list_fmap_compose. apply list_fmap_ext. intros k j [-> Hk]%lookup_seq. unfold compose, rnth.
  f_equal. f_equal. rewrite (succ_case r) by done. case_decide; [|f_equal; lia].
  rewrite <- (mod_wrap (0 + Z.of_nat (0 + k))). f_equal. lia.
Qed.

(** The items up to [e] are those up to [w] and those from [w] on. *)
Lemma ring_split buf r w e : 0 <= r < W -> 0 <= w < W -> 0 <= e < W -> rlen r w <= rlen r e ->
  ring buf r e = ring buf r w ++ ring buf w e /\ rlen r e = rlen r w + rlen w e.
Proof using HN HW Hdiv.
  intros Hr Hw He Hle. pose proof (rlen_range r w). pose proof (rlen_range w e).
  assert (rlen r e = rlen r w + rlen w e) as Hlen by (rewrite !rlen_case in * by done; repeat case_decide; lia).
  split; [|done]. unfold ring. rewrite Hlen, Z2Nat.inj_add by lia. rewrite seq_app, fmap_app. f_equal.
  replace (seq (0 + Z.to_nat (rlen r w)) (Z.to_nat (rlen w e))) with (Nat.add (Z.to_nat (rlen r w)) <$> seq 0 (Z.to_nat (rlen w e)))
    by (rewrite fmap_add_seq; f_equal; lia).
  rewrite <- list_fmap_compose. apply list_fmap_ext. intros k j [-> Hk]%lookup_seq. unfold compose, rnth. f_equal. f_equal.
  rewrite <- (Zplus_mod_idemp_l w), <- (ring_next_cell r w Hr Hw), Zplus_mod_idemp_l. f_equal. lia.
Qed.

(** Taking the last item back. *)
Lemma ring_unput buf r w : ring_ok buf r w -> r <> w ->
  ring_ok buf r ((w - 1) mod W) /\
  ring buf r w = ring buf r ((w - 1) mod W) ++ [nth (Z.to_nat (((w - 1) mod W) mod N)) buf 0].
Proof using HN HW Hdiv.
  intros [A1 A2 A3 A4] He. pose proof (rlen_range r w).
  assert (0 <= (w - 1) mod W < W) as Hp by (apply Z.mod_pos_bound; lia).
  assert (rlen r w = rlen r ((w - 1) mod W) + 1) as Hlen.
  { rewrite (pred_case w) in * by done. destruct (decide (w = 0)); rewrite !rlen_case in * by lia; repeat case_decide; lia. }
  assert (rlen ((w - 1) mod W) w = 1) as H1.
  { rewrite (pred_case w) in * by done. destruct (decide (w = 0)); rewrite !rlen_case in * by lia; repeat case_decide; lia. }
  split; [split; [done|done|done|lia]|].
  destruct (ring_split buf r ((w - 1) mod W) w A2 Hp A3 ltac:(lia)) as [-> _]. f_equal.
  unfold ring. rewrite H1. change (seq 0 (Z.to_nat 1)) with [0%nat]. cbn [fmap list_fmap]. unfold rnth. by rewrite Z.add_0_r.
Qed.

(** A store in the cell of [e] does not change items before [e]. *)
Lemma ring_insert_other buf r w e c : ring_ok buf r e -> e <> (r + N) mod W -> 0 <= w < W -> rlen r w <= rlen r e ->
  ring (<[Z.to_nat (e mod N) := c]> buf) r w = ring buf r w.
Proof using HN HW Hdiv.
  intros I Hf Hw Hle. assert (Z.of_nat (length (ring buf r e)) <> N) as Hn by (by intros ?%ring_full).
  rewrite ring_length in Hn. destruct I as [A1 A2 A3 A4]. pose proof (rlen_range r e). pose proof (rlen_range r w).
  apply list_fmap_ext. intros k j [-> Hk]%lookup_seq. unfold rnth. rewrite !nth_lookup.
  rewrite list_lookup_insert_ne; [done|]. intros He. cbn [Nat.add] in He. apply Z2Nat.inj in He; [|by apply Z.mod_pos_bound..].
  rewrite <- (ring_next_cell r e A2 A3) in He. apply (mod_inj_small r (rlen r e) (Z.of_nat k)) in He; lia.
Qed.
End ring.
