(* ===== verification/Pipe.v ===== *)
(** * Pipes: [kernel/pipe.c]

    [struct pipe] and the reading and writing loops on it.  A call runs until it
    returns or goes to sleep; [pipewrite_run] and [piperead_run] are these
    stretches.  The theorem at the end is about any interleaving of processes that
    write, read, duplicate and close the ends of a pipe, fork and are killed, with
    [copyin] and [copyout] failing anywhere. *)

From stdpp Require Import base list gmap strings functions.
From S2P Require Import Prelude Riscv Mem Spinlock Kalloc Ring.

Definition PIPESIZE : Z := 512.

(** [struct pipe]; [pi_data] has [PIPESIZE] bytes. *)
Record pipe := mkPipe {
  pi_lock : spinlock; pi_data : list Z; pi_nread : Z; pi_nwrite : Z; pi_readopen : Z; pi_writeopen : Z
}.
#[export] Instance pipe_inhabited : Inhabited pipe :=
  populate (mkPipe initlock (replicate (Z.to_nat PIPESIZE) 0) 0 0 0 0).

(** [pi->data[pi->nwrite++ % PIPESIZE] = ch] *)
Definition pipe_put (ch : Z) (pi : pipe) : pipe :=
  mkPipe (pi_lock pi) (<[Z.to_nat (pi_nwrite pi mod PIPESIZE) := ch]> (pi_data pi))
    (pi_nread pi) (u32 (pi_nwrite pi + 1)) (pi_readopen pi) (pi_writeopen pi).
(** [ch = pi->data[pi->nread++ % PIPESIZE]] *)
Definition pipe_char (pi : pipe) : Z := nth (Z.to_nat (pi_nread pi mod PIPESIZE)) (pi_data pi) 0.
Definition pipe_take (pi : pipe) : pipe :=
  mkPipe (pi_lock pi) (pi_data pi) (u32 (pi_nread pi + 1)) (pi_nwrite pi) (pi_readopen pi) (pi_writeopen pi).
Definition pipe_full (pi : pipe) : bool := pi_nwrite pi =? u32 (pi_nread pi + PIPESIZE).
Definition pipe_empty (pi : pipe) : bool := pi_nread pi =? pi_nwrite pi.
Definition set_pilock (lk : spinlock) (pi : pipe) : pipe :=
  mkPipe lk (pi_data pi) (pi_nread pi) (pi_nwrite pi) (pi_readopen pi) (pi_writeopen pi).
Definition set_writeopen (v : Z) (pi : pipe) : pipe :=
  mkPipe (pi_lock pi) (pi_data pi) (pi_nread pi) (pi_nwrite pi) (pi_readopen pi) v.
Definition set_readopen (v : Z) (pi : pipe) : pipe :=
  mkPipe (pi_lock pi) (pi_data pi) (pi_nread pi) (pi_nwrite pi) v (pi_writeopen pi).

(** How a stretch of a call ends: it returned, or it sleeps after [i] bytes. *)
Inductive ending := Returned (r : Z) | Asleep (i : Z).

Definition pi_spin : M spinlock unit -> M pipe unit := zoom pi_lock set_pilock.

(** The loops run on a state [T] that has the pipe as a part ([zp] runs an
    operation on it); [fetch i] is the [copyin] from [addr + i] (no byte if it
    fails), [killed i] the call of [killed(pr)] in the round for byte [i], and
    [store i ch] the [copyout] to [addr + i] (false if it fails). *)
Section runs.
Context {T : Type} (zp : forall A, M pipe A -> M T A).
Arguments zp {A} _.

Fixpoint pipewrite_loop (fuel : nat) (fetch : Z -> M T (option Z)) (killed : Z -> M T bool) (i n : Z) : M T ending :=
  if i <? n then
    match fuel with
    | O => fun _ => Diverge
    | S f =>
        do pi <- zp get;
        do stop <- (if pi_readopen pi =? 0 then return true else killed i);
        if (stop : bool) then zp (pi_spin lk_release) ;;; return (Returned (-1))
        else if pipe_full pi then zp (pi_spin lk_release) ;;; return (Asleep i)
        else
          do c <- fetch i;
          match c with
          | None => zp (pi_spin lk_release) ;;; return (Returned i)
          | Some ch => zp (modify (pipe_put ch)) ;;; pipewrite_loop f fetch killed (i + 1) n
          end
    end
  else zp (pi_spin lk_release) ;;; return (Returned i).
(** [pipewrite] from its start ([i = 0]) or from its wakeup after [i] bytes. *)
Definition pipewrite_run (fetch : Z -> M T (option Z)) (killed : Z -> M T bool) (i n : Z) : M T ending :=
  zp (pi_spin lk_acquire) ;;; pipewrite_loop (Z.to_nat n) fetch killed i n.

(** The copy loop of [piperead]: [i], and the bytes taken from the pipe, each with
    whether it could be stored. *)
Fixpoint piperead_loop (fuel : nat) (store : Z -> Z -> M T bool) (i : Z) : M T (Z * list (Z * bool)) :=
  match fuel with
  | O => return (i, [])
  | S f =>
      do pi <- zp get;
      if pipe_empty pi then return (i, [])
      else
        let ch := pipe_char pi in
        zp (modify pipe_take) ;;;
        do ok <- store i ch;
        if (ok : bool) then
          do '(r, bs) <- piperead_loop f store (i + 1);
          return (r, (ch, true) :: bs)
        else return (i, [(ch, false)])
  end.
Definition piperead_run (store : Z -> Z -> M T bool) (killed : M T bool) (n : Z) : M T (ending * list (Z * bool)) :=
  zp (pi_spin lk_acquire) ;;;
  do pi <- zp get;
  if pipe_empty pi && negb (pi_writeopen pi =? 0) then
    do kl <- killed;
    if (kl : bool) then zp (pi_spin lk_release) ;;; return (Returned (-1), [])
    else zp (pi_spin lk_release) ;;; return (Asleep 0, [])
  else
    do '(i, bs) <- piperead_loop (Z.to_nat n) store 0;
    zp (pi_spin lk_release) ;;;
    return (Returned i, bs).
End runs.

(** On the pipe alone: [ch_at i] is the byte at [addr + i] if it can be fetched,
    [killed_at i] the flag in the round for byte [i], [deliver i ch] whether the
    byte can be stored. *)
Definition run_write (ch_at : Z -> option Z) (killed_at : Z -> bool) : Z -> Z -> M pipe ending :=
  pipewrite_run (fun _ m => m) (fun i => return (ch_at i)) (fun i => return (killed_at i)).
Definition run_read (deliver : Z -> Z -> bool) (killed : bool) : Z -> M pipe (ending * list (Z * bool)) :=
  piperead_run (fun _ m => m) (fun i ch => return (deliver i ch)) (return killed).
Notation write_loop ch_at killed_at fuel :=
  (pipewrite_loop (T := pipe) (fun _ m => m) fuel (fun i => return (ch_at i)) (fun i => return (killed_at i))).
Notation read_loop deliver fuel :=
  (piperead_loop (T := pipe) (fun _ m => m) fuel (fun i ch => return (deliver i ch))).

(** [pipeclose] up to the release of the lock; true if the pipe is to be freed. *)
Definition pipeclose_run (writable : bool) : M pipe bool :=
  pi_spin lk_acquire ;;;
  (if writable then modify (set_writeopen 0) else modify (set_readopen 0)) ;;;
  do pi <- get;
  pi_spin lk_release ;;;
  return ((pi_readopen pi =? 0) && (pi_writeopen pi =? 0)).

(** ** The bytes in a pipe *)

Definition queue (pi : pipe) : list Z := ring PIPESIZE (2 ^ 32) (pi_data pi) (pi_nread pi) (pi_nwrite pi).
Definition pipe_ok (pi : pipe) : Prop := ring_ok PIPESIZE (2 ^ 32) (pi_data pi) (pi_nread pi) (pi_nwrite pi).

Lemma pipe_wraps : (PIPESIZE | 2 ^ 32).
Proof. by exists 8388608. Qed.
Lemma pipe_small : 0 < PIPESIZE /\ PIPESIZE < 2 ^ 32.
Proof. done. Qed.

Lemma length_queue pi : pipe_ok pi -> Z.of_nat (length (queue pi)) <= PIPESIZE.
Proof. intros I. unfold queue. rewrite (ring_length PIPESIZE (2 ^ 32)) by apply pipe_small. apply I. Qed.
Lemma pipe_empty_spec pi : pipe_ok pi -> pipe_empty pi = true <-> queue pi = [].
Proof. intros I. unfold pipe_empty, queue. rewrite Z.eqb_eq. by apply (ring_empty PIPESIZE (2 ^ 32)). Qed.
Lemma pipe_full_spec pi : pipe_ok pi -> pipe_full pi = true <-> Z.of_nat (length (queue pi)) = PIPESIZE.
Proof. intros I. unfold pipe_full, queue. rewrite Z.eqb_eq. by apply (ring_full PIPESIZE (2 ^ 32)). Qed.

Lemma pipe_put_ok pi ch : pipe_ok pi -> pipe_full pi = false -> pipe_ok (pipe_put ch pi) /\ queue (pipe_put ch pi) = queue pi ++ [ch].
Proof.
  intros I Hf. unfold pipe_full in Hf. apply Z.eqb_neq in Hf.
  by apply (ring_put PIPESIZE (2 ^ 32) ltac:(done) ltac:(done) pipe_wraps).
Qed.
Lemma pipe_take_ok pi : pipe_ok pi -> pipe_empty pi = false -> pipe_ok (pipe_take pi) /\ queue pi = pipe_char pi :: queue (pipe_take pi).
Proof.
  intros I He. unfold pipe_empty in He. apply Z.eqb_neq in He.
  by apply (ring_take PIPESIZE (2 ^ 32) ltac:(done) ltac:(done) pipe_wraps).
Qed.

(** ** The stretches of the calls *)

(** Fields that a writer or a reader leaves alone. *)
Definition same_ends (pi pi' : pipe) : Prop := pi_readopen pi' = pi_readopen pi /\ pi_writeopen pi' = pi_writeopen pi.

Definition freed (pi : pipe) : Prop := pi_lock pi = initlock.
Definition taken (pi : pipe) : Prop := pi_lock pi = held_lock.

Lemma pi_release_run {A} (pi : pipe) (a : A) : taken pi -> (pi_spin lk_release ;;; return a) pi = Ok a (set_pilock initlock pi).
Proof. intros H. unfold bind, pi_spin, zoom. by rewrite H. Qed.

Lemma pipe_ok_lock lk pi : pipe_ok pi -> pipe_ok (set_pilock lk pi) /\ queue (set_pilock lk pi) = queue pi.
Proof. intros []. by split. Qed.

(** The bytes the writer can fetch from [i] on. *)
Definition fetched (ch_at : Z -> option Z) (i : Z) (bs : list Z) : Prop :=
  forall (k : nat) b, bs !! k = Some b -> ch_at (i + Z.of_nat k) = Some b.

Lemma pipewrite_loop_spec ch_at killed_at n fuel i pi :
  pipe_ok pi -> taken pi -> 0 <= i -> n <= i + Z.of_nat fuel ->
  exists e pi' bs, write_loop ch_at killed_at fuel i n pi = Ok e pi' /\ pipe_ok pi' /\ freed pi' /\ same_ends pi pi' /\
    queue pi' = queue pi ++ bs /\ fetched ch_at i bs /\ (bs = [] \/ (pi_readopen pi' <> 0 /\ killed_at i = false)) /\
    match e with
    | Asleep j => j = i + Z.of_nat (length bs) /\ pipe_full pi' = true /\ pi_readopen pi' <> 0 /\ j < n
    | Returned r =>
        (r = -1 /\ (pi_readopen pi' = 0 \/ killed_at (i + Z.of_nat (length bs)) = true)) \/
        (r = i + Z.of_nat (length bs) /\ (n <= r \/ (pi_readopen pi' <> 0 /\ ch_at r = None)))
    end.
Proof.
  revert i pi. induction fuel as [|f IH]; intros i pi I Hl Hi Hf; cbn [pipewrite_loop].
  all: destruct (pipe_ok_lock initlock pi I) as [I' Hq].
  all: assert (fetched ch_at i []) as F0 by (intros k b Hk; done).
  all: destruct (Z.ltb_spec i n) as [Hin|Hin]; [try lia|].
  1, 3: rewrite pi_release_run by done; exists (Returned i), (set_pilock initlock pi), [];
    (split; [done|]); rewrite Hq, app_nil_r; do 5 (split; [done|]); (split; [by left|]); right; cbn; lia.
  unfold bind at 1. cbn [get]. unfold bind at 1.
  destruct (Z.eqb_spec (pi_readopen pi) 0) as [Hr|Hr]; [|destruct (killed_at i) eqn:Hk]; cbn [mret'].
  1, 2: rewrite pi_release_run by done; exists (Returned (-1)), (set_pilock initlock pi), [];
    (split; [done|]); rewrite Hq, app_nil_r; do 5 (split; [done|]); (split; [by left|]); left; cbn; rewrite Z.add_0_r; auto.
  destruct (pipe_full pi) eqn:Hfull.
  { rewrite pi_release_run by done. exists (Asleep i), (set_pilock initlock pi), [].
    (split; [done|]). rewrite Hq, app_nil_r. do 5 (split; [done|]). (split; [by left|]). cbn. rewrite Z.add_0_r. auto. }
  rewrite bind_ret. destruct (ch_at i) as [ch|] eqn:Hch.
  - unfold bind. cbn [modify]. destruct (pipe_put_ok pi ch I Hfull) as [Ip Hqp].
    destruct (IH (i + 1) (pipe_put ch pi) Ip Hl ltac:(lia) ltac:(lia)) as (e & pi' & bs & -> & I2 & F2 & E2 & Q2 & B2 & _ & C2).
    exists e, pi', (ch :: bs). split; [done|]. split; [done|]. split; [done|]. split; [done|].
    split; [rewrite Q2, Hqp; by rewrite <- app_assoc|]. split.
    + intros [|k] b Hb; cbn in Hb; [rewrite Z.add_0_r; congruence|]. rewrite <- (B2 k b Hb). f_equal. lia.
    + split; [right; split; [by rewrite (proj1 E2)|done]|]. replace (i + Z.of_nat (length (ch :: bs))) with (i + 1 + Z.of_nat (length bs)) by (cbn; lia). done.
  - rewrite pi_release_run by done. exists (Returned i), (set_pilock initlock pi), [].
    (split; [done|]). rewrite Hq, app_nil_r. do 5 (split; [done|]). (split; [by left|]). right. cbn. rewrite Z.add_0_r. auto.
Qed.

(** The bytes that a reader was given are counted; a byte that could not be stored is
    the last one it took. *)
Definition delivered (deliver : Z -> Z -> bool) (i r : Z) (bs : list (Z * bool)) : Prop :=
  exists cs, (bs = (fun c => (c, true)) <$> cs /\ r = i + Z.of_nat (length cs)) \/
    exists c, bs = ((fun c => (c, true)) <$> cs) ++ [(c, false)] /\ r = i + Z.of_nat (length cs) /\ deliver r c = false.

Lemma piperead_loop_spec deliver fuel i pi : pipe_ok pi -> exists r bs pi', read_loop deliver fuel i pi = Ok (r, bs) pi' /\
    pipe_ok pi' /\ pi_lock pi' = pi_lock pi /\ same_ends pi pi' /\ queue pi = bs.*1 ++ queue pi' /\ delivered deliver i r bs /\
    (r < i + Z.of_nat fuel -> queue pi' = [] \/ exists b, (b, false) ∈ bs).
Proof.
  revert i pi. induction fuel as [|f IH]; intros i pi I; cbn [piperead_loop].
  { exists i, [], pi. repeat (split; [done|]). split; [exists []; left; cbn; split; [done|lia]|lia]. }
  unfold bind at 1. cbn [get]. destruct (pipe_empty pi) eqn:He.
  { apply pipe_empty_spec in He; [|done]. exists i, [], pi. rewrite He. repeat (split; [done|]).
    split; [exists []; left; cbn; split; [done|lia]|by left]. }
  destruct (pipe_take_ok pi I He) as [It Hq]. unfold bind at 1. cbn [modify]. rewrite bind_ret.
  destruct (deliver i (pipe_char pi)) eqn:Hd.
  - destruct (IH (i + 1) (pipe_take pi) It) as (r & bs & pi' & H1 & I1 & L1 & E1 & Q1 & (cs & D1) & S1).
    exists r, ((pipe_char pi, true) :: bs), pi'. rewrite (bind_Ok _ _ _ _ _ H1). split; [done|].
    split; [done|]. split; [done|]. split; [done|]. split; [by rewrite Hq, Q1|]. split.
    + exists (pipe_char pi :: cs). destruct D1 as [[-> ->]|(c & -> & -> & Hc)]; [left; split; [done|cbn; lia]|].
      right. exists c. split; [done|]. split; [cbn; lia|done].
    + intros Hr. destruct S1 as [?|[b Hb]]; [lia|by left|]. right. exists b. by right.
  - exists i, [(pipe_char pi, false)], (pipe_take pi). do 4 (split; [done|]). split; [by rewrite Hq|]. split.
    + exists []. right. exists (pipe_char pi). cbn. split; [done|]. split; [lia|done].
    + intros _. right. exists (pipe_char pi). by left.
Qed.

Lemma pi_acquire_run {A} (k : unit -> M pipe A) pi : freed pi -> bind (pi_spin lk_acquire) k pi = k tt (set_pilock held_lock pi).
Proof. intros H. unfold bind, pi_spin, zoom. by rewrite H. Qed.

Lemma pipewrite_run_spec ch_at killed_at i n pi :
  pipe_ok pi -> freed pi -> 0 <= i ->
  exists e pi' bs, run_write ch_at killed_at i n pi = Ok e pi' /\ pipe_ok pi' /\ freed pi' /\ same_ends pi pi' /\
    queue pi' = queue pi ++ bs /\ fetched ch_at i bs /\ (bs = [] \/ (pi_readopen pi' <> 0 /\ killed_at i = false)) /\
    match e with
    | Asleep j => j = i + Z.of_nat (length bs) /\ pipe_full pi' = true /\ pi_readopen pi' <> 0 /\ j < n
    | Returned r =>
        (r = -1 /\ (pi_readopen pi' = 0 \/ killed_at (i + Z.of_nat (length bs)) = true)) \/
        (r = i + Z.of_nat (length bs) /\ (n <= r \/ (pi_readopen pi' <> 0 /\ ch_at r = None)))
    end.
Proof.
  intros I Hf Hi. unfold run_write, pipewrite_run. rewrite (pi_acquire_run _ _ Hf).
  destruct (pipe_ok_lock held_lock pi I) as [I' <-]. exact (pipewrite_loop_spec ch_at killed_at n (Z.to_nat n) i (set_pilock held_lock pi) I' eq_refl Hi ltac:(lia)).
Qed.

Lemma piperead_run_spec deliver killed n pi :
  pipe_ok pi -> freed pi ->
  exists e bs pi', run_read deliver killed n pi = Ok (e, bs) pi' /\ pipe_ok pi' /\ freed pi' /\ same_ends pi pi' /\
    queue pi = bs.*1 ++ queue pi' /\
    match e with
    | Asleep j => queue pi' = [] /\ bs = [] /\ pi_writeopen pi' <> 0 /\ killed = false
    | Returned r => (r = -1 /\ killed = true /\ bs = [] /\ queue pi = [] /\ pi_writeopen pi <> 0) \/
        (delivered deliver 0 r bs /\ (queue pi = [] -> pi_writeopen pi = 0) /\ (r < n -> queue pi' = [] \/ exists b, (b, false) ∈ bs))
    end.
Proof.
  intros I Hf. unfold run_read, piperead_run. rewrite (pi_acquire_run _ _ Hf). unfold bind at 1. cbn [get].
  destruct (pipe_ok_lock held_lock pi I) as [I1 Q1]. set (pi1 := set_pilock held_lock pi) in *.
  assert (taken pi1) as T1 by done.
  destruct (pipe_ok_lock initlock pi1 I1) as [I2 Q2].
  destruct (pipe_empty pi1 && negb (pi_writeopen pi1 =? 0)) eqn:Hw.
  - apply andb_true_iff in Hw as [He Hw]. apply pipe_empty_spec in He; [|done]. apply negb_true_iff, Z.eqb_neq in Hw.
    rewrite Q1 in He. rewrite bind_ret. destruct killed; rewrite (pi_release_run pi1) by done; do 3 eexists; (split; [reflexivity|]);
      rewrite Q2, Q1, He; (do 4 (split; [done|])); [by left|done].
  - destruct (piperead_loop_spec deliver (Z.to_nat n) 0 pi1 I1) as (r & bs & pi2 & H2 & J2 & L2 & E2 & R2 & D2 & S2).
    rewrite (bind_Ok _ _ _ _ _ H2). rewrite (pi_release_run pi2) by (unfold taken; by rewrite L2).
    destruct (pipe_ok_lock initlock pi2 J2) as [J3 R3]. rewrite Q1 in R2.
    do 3 eexists. split; [reflexivity|]. rewrite R3.
    do 4 (split; [done|]). right. split; [done|]. split; [|intros Hr; apply S2; lia]. intros Hq.
    assert (pipe_empty pi1 = true) as He by (apply pipe_empty_spec; [done|by rewrite Q1]).
    rewrite He in Hw. cbn in Hw. by apply negb_false_iff, Z.eqb_eq in Hw.
Qed.

Lemma pipeclose_run_spec writable pi : freed pi ->
  pipeclose_run writable pi = 
    (let pi' := if writable then set_writeopen 0 pi else set_readopen 0 pi in
     Ok ((pi_readopen pi' =? 0) && (pi_writeopen pi' =? 0)) pi').
Proof.
  intros Hf. unfold pipeclose_run. rewrite (pi_acquire_run _ _ Hf). destruct writable; unfold bind; cbn;
    unfold freed in Hf; destruct pi; cbn in *; by subst.
Qed.

(** ** Writers and readers of one pipe

    A step runs one process up to the point where it gives up [pi->lock].  A
    process has descriptors for the ends of the pipe, which it may duplicate, hand
    to a child and close; the last close of an end calls [pipeclose], as [fileclose]
    does. *)

Inductive pwc := PIdle | WAsleep (data : list Z) (i : Z) | WWoken (data : list Z) (i : Z) | RAsleep (n : Z) | RWoken (n : Z).
(** A process: where it is, and how many descriptors it has for the write end
    ([true]) and for the read end. *)
Record pproc := mkPproc { pp_pc : pwc; pp_w : nat; pp_r : nat }.
Definition pp_end (w : bool) (c : pproc) : nat := if w then pp_w c else pp_r c.
Definition set_ppc (x : pwc) (c : pproc) : pproc := mkPproc x (pp_w c) (pp_r c).
Definition set_end (w : bool) (n : nat) (c : pproc) : pproc :=
  if w then mkPproc (pp_pc c) n (pp_r c) else mkPproc (pp_pc c) (pp_w c) n.

(** [pm_ref] is [ref] of the [struct file] of either end and [pm_frees] how often the
    page was freed.  The other fields only record: the bytes put, the bytes taken
    (each with whether the reader got it), and whether a killed writer put bytes
    and left without [wakeup] since the readers were last woken. *)
Record pmachine := mkPm {
  pm_pipe : pipe; pm_procs : list pproc; pm_ref : bool -> Z; pm_frees : nat;
  pm_written : list Z; pm_taken : list (Z * bool); pm_missed : bool
}.
Definition w_pipe x (m : pmachine) := mkPm x (pm_procs m) (pm_ref m) (pm_frees m) (pm_written m) (pm_taken m) (pm_missed m).
Definition w_procs x (m : pmachine) := mkPm (pm_pipe m) x (pm_ref m) (pm_frees m) (pm_written m) (pm_taken m) (pm_missed m).
Definition w_ref x (m : pmachine) := mkPm (pm_pipe m) (pm_procs m) x (pm_frees m) (pm_written m) (pm_taken m) (pm_missed m).
Definition w_frees x (m : pmachine) := mkPm (pm_pipe m) (pm_procs m) (pm_ref m) x (pm_written m) (pm_taken m) (pm_missed m).
Definition w_written x (m : pmachine) := mkPm (pm_pipe m) (pm_procs m) (pm_ref m) (pm_frees m) x (pm_taken m) (pm_missed m).
Definition w_taken x (m : pmachine) := mkPm (pm_pipe m) (pm_procs m) (pm_ref m) (pm_frees m) (pm_written m) x (pm_missed m).
Definition w_missed x (m : pmachine) := mkPm (pm_pipe m) (pm_procs m) (pm_ref m) (pm_frees m) (pm_written m) (pm_taken m) x.

(** An operation on the pipe, whose page must not have been freed. *)
Definition pm_use {A} (f : M pipe A) : M pmachine A :=
  do m <- get;
  match pm_frees m with O => zoom pm_pipe w_pipe f | S _ => panic "use after free" end.
(** Process [p] is at [x]. *)
Definition pm_goto (p : nat) (x : pwc) : M pmachine unit := modify (fun m => w_procs (alter (set_ppc x) p (pm_procs m)) m).
(** [wakeup(&pi->nread)] and [wakeup(&pi->nwrite)] *)
Definition woken_reader (c : pwc) : pwc := match c with RAsleep n => RWoken n | c => c end.
Definition woken_writer (c : pwc) : pwc := match c with WAsleep d i => WWoken d i | c => c end.
Definition wake (f : pwc -> pwc) (c : pproc) : pproc := set_ppc (f (pp_pc c)) c.
Definition wake_readers : M pmachine unit := modify (fun m => w_missed false (w_procs (wake woken_reader <$> pm_procs m) m)).
Definition wake_writers : M pmachine unit := modify (fun m => w_procs (wake woken_writer <$> pm_procs m) m).

(** [pipewrite] with user data [data], at its start or woken after [i] bytes;
    [killed_at] and [fault] say in which rounds the process is found killed and [copyin] fails. *)
Definition pm_write (p : nat) (data : list Z) (i : Z) (killed_at fault : Z -> bool) : M pmachine unit :=
  do m <- get;
  do e <- pm_use (run_write (fun j => if fault j then None else data !! Z.to_nat j) killed_at i (Z.of_nat (length data)));
  do m' <- get;
  let put := take (length (queue (pm_pipe m')) - length (queue (pm_pipe m))) (drop (Z.to_nat i) data) in
  modify (w_written (pm_written m ++ put)) ;;;
  match e with
  | Returned r =>
      pm_goto p PIdle ;;;
      if r =? -1 then modify (w_missed (match put with [] => pm_missed m | _ => true end)) else wake_readers
  | Asleep j => pm_goto p (WAsleep data j) ;;; wake_readers
  end.

Definition pm_reader (p : nat) (n : Z) (killed_at fault : Z -> bool) : M pmachine unit :=
  do '(e, bs) <- pm_use (run_read (fun i _ => negb (fault i)) (killed_at 0) n);
  match e with
  | Returned r =>
      pm_goto p PIdle ;;;
      if r =? -1 then return tt else modify (fun m => w_taken (pm_taken m ++ bs) m) ;;; wake_writers
  | Asleep _ => pm_goto p (RAsleep n)
  end.

(** [filedup] and [fileclose] of one end, by process [p]. *)
Definition add_ref (w : bool) (p : nat) (d : Z) : M pmachine unit :=
  modify (fun m => w_ref (<[w := pm_ref m w + d]> (pm_ref m))
    (w_procs (alter (fun c => set_end w (Z.to_nat (Z.of_nat (pp_end w c) + d)) c) p (pm_procs m)) m)).
Definition pm_dup (p : nat) (w : bool) : M pmachine unit :=
  do m <- get;
  if pm_ref m w <? 1 then panic "filedup" else add_ref w p 1.
Definition pm_close (p : nat) (w : bool) : M pmachine unit :=
  do m <- get;
  if pm_ref m w <? 1 then panic "fileclose"
  else
    add_ref w p (-1) ;;;
    if 0 <? pm_ref m w - 1 then return tt
    else
      do freeit <- pm_use (pipeclose_run w);
      (if w then wake_readers else wake_writers) ;;;
      if (freeit : bool) then modify (fun m => w_frees (S (pm_frees m)) m) else return tt.
(** The child of [fork] has the descriptors of its parent. *)
Definition pm_fork (p : nat) : M pmachine unit :=
  modify (fun m =>
    match pm_procs m !! p with
    | Some c => w_ref (fun w => pm_ref m w + Z.of_nat (pp_end w c)) (w_procs (pm_procs m ++ [c]) m)
    | None => m
    end).

Inductive pact := AWrite (data : list Z) | ARead (n : Z) | ACont | AClose (w : bool) | ADup (w : bool) | AFork | AKill.
(** What process [p] can do: use and close what it has, continue when it was woken, and
    be woken by [kill]. *)
Definition pm_enabled (p : nat) (a : pact) (m : pmachine) : bool :=
  match pm_procs m !! p with
  | None => false
  | Some c =>
      match pp_pc c, a with
      | PIdle, AWrite _ => (0 <? pp_w c)%nat
      | PIdle, ARead _ => (0 <? pp_r c)%nat
      | PIdle, AClose w | PIdle, ADup w => (0 <? pp_end w c)%nat
      | PIdle, AFork | WWoken _ _, ACont | RWoken _, ACont | WAsleep _ _, AKill | RAsleep _, AKill => true
      | _, _ => false
      end
  end.
Definition pm_next (p : nat) (a : pact) (killed_at fault : Z -> bool) : M pmachine unit :=
  do m <- get;
  match pp_pc <$> pm_procs m !! p, a with
  | Some PIdle, AWrite data => pm_write p data 0 killed_at fault
  | Some (WWoken data i), ACont => pm_write p data i killed_at fault
  | Some PIdle, ARead n | Some (RWoken n), ACont => pm_reader p n killed_at fault
  | Some PIdle, AClose w => pm_close p w
  | Some PIdle, ADup w => pm_dup p w
  | Some PIdle, AFork => pm_fork p
  | Some (WAsleep data i), AKill => pm_goto p (WWoken data i)
  | Some (RAsleep n), AKill => pm_goto p (RWoken n)
  | _, _ => return tt
  end.
Definition pm_step (m m' : pmachine) : Prop :=
  exists p a killed_at fault, pm_enabled p a m = true /\ pm_next p a killed_at fault m = Ok tt m'.

(** [pipealloc] leaves an empty pipe with both ends open, which one process has. *)
Definition pipe0 (data : list Z) : pipe := mkPipe initlock data 0 0 1 1.
Definition pm_init (data : list Z) : pmachine := mkPm (pipe0 data) [mkPproc PIdle 1 1] (fun _ => 1) 0 [] [] false.

(** *** References *)

Definition ends (w : bool) (ps : list pproc) : nat := sum_list (pp_end w <$> ps).
Definition end_open (w : bool) (pi : pipe) : Z := if w then pi_writeopen pi else pi_readopen pi.
(** A process inside a call has the descriptor that it made the call on. *)
Definition holds_end (c : pproc) : Prop :=
  match pp_pc c with PIdle => True | WAsleep _ _ | WWoken _ _ => (0 < pp_w c)%nat | RAsleep _ | RWoken _ => (0 < pp_r c)%nat end.

Record rf_inv (ps : list pproc) (ref : bool -> Z) (pi : pipe) (frees : nat) : Prop := {
  rf_ref : forall w, ref w = Z.of_nat (ends w ps);
  rf_open : forall w, end_open w pi = 0 <-> ends w ps = O;
  rf_frees : frees = match (ends true ps + ends false ps)%nat with O => 1%nat | _ => O end;
  rf_hold : forall p c, ps !! p = Some c -> holds_end c
}.

Lemma ends_alter w (f : pproc -> pproc) p c ps : ps !! p = Some c -> (ends w (alter f p ps) + pp_end w c = ends w ps + pp_end w (f c))%nat.
Proof.
  revert p. induction ps as [|d ps IH]; intros [|p] H; [done..| |]; cbn in H.
  - injection H as ->. unfold ends. cbn. lia.
  - specialize (IH p H). unfold ends in *. cbn in *. lia.
Qed.
Lemma ends_held w p c ps : ps !! p = Some c -> (pp_end w c <= ends w ps)%nat.
Proof. revert p. induction ps as [|d ps IH]; intros [|p] H; [done..| |]; cbn in H; unfold ends in *; cbn; [injection H as ->; lia|specialize (IH p H); lia]. Qed.
Lemma ends_same w (f : pproc -> pproc) ps : (forall c, pp_end w (f c) = pp_end w c) -> ends w (f <$> ps) = ends w ps.
Proof. intros Hf. unfold ends. rewrite <- list_fmap_compose. f_equal. apply list_fmap_ext. intros i c _. apply Hf. Qed.
Lemma pp_end_wake w f c : pp_end w (wake f c) = pp_end w c.
Proof. by destruct w. Qed.
Lemma pp_end_ppc w x c : pp_end w (set_ppc x c) = pp_end w c.
Proof. by destruct w. Qed.

(** The process [p] is now at [x], and processes may have been woken. *)
Definition waker (f : pwc -> pwc) : Prop := f = id \/ f = woken_reader \/ f = woken_writer.
Lemma waker_holds f c : waker f -> holds_end c -> holds_end (wake f c).
Proof. intros [->|[->| ->]]; unfold holds_end, wake; cbn; by destruct (pp_pc c). Qed.
Lemma moved_lookup f p x (ps : list pproc) q d : (wake f <$> alter (set_ppc x) p ps) !! q = Some d ->
  exists c, ps !! q = Some c /\ d = if decide (q = p) then wake f (set_ppc x c) else wake f c.
Proof.
  rewrite list_lookup_fmap. destruct (decide (q = p)) as [->|Hne]; [rewrite list_lookup_alter_eq|rewrite list_lookup_alter_ne by done].
  - destruct (ps !! p) as [c|]; [|done]. intros [= <-]. by exists c.
  - destruct (ps !! q) as [c|]; [|done]. intros [= <-]. by exists c.
Qed.
Lemma rf_moved ps ref pi frees p c x f pi' : rf_inv ps ref pi frees -> ps !! p = Some c -> waker f -> holds_end (set_ppc x c) -> same_ends pi pi' ->
  rf_inv (wake f <$> alter (set_ppc x) p ps) ref pi' frees.
Proof.
  intros [R1 R2 R3 R4] Hp Hf Hx [E1 E2].
  assert (forall w, ends w (wake f <$> alter (set_ppc x) p ps) = ends w ps) as He.
  { intros w. rewrite ends_same by (intros; apply pp_end_wake). pose proof (ends_alter w (set_ppc x) p c ps Hp) as H. rewrite pp_end_ppc in H. lia. }
  split; [intros w; by rewrite He|intros w; rewrite He, <- R2; destruct w; cbn; by rewrite ?E1, ?E2|by rewrite !He|].
  intros q d (c0 & Hq & ->)%moved_lookup. case_decide as Hqp; [subst q; simplify_eq|]; apply waker_holds; eauto.
Qed.

(** *** The queue *)

Record qu_inv (m : pmachine) : Prop := {
  qv_ok : pipe_ok (pm_pipe m);
  qv_free : freed (pm_pipe m);
  qv_fifo : pm_written m = (pm_taken m).*1 ++ queue (pm_pipe m);
  qv_writers : forall p c d i, pm_procs m !! p = Some c -> pp_pc c = WAsleep d i -> pipe_full (pm_pipe m) = true /\ pi_readopen (pm_pipe m) <> 0;
  qv_readers : forall p c n, pm_procs m !! p = Some c -> pp_pc c = RAsleep n ->
    (queue (pm_pipe m) = [] \/ pm_missed m = true) /\ pi_writeopen (pm_pipe m) <> 0;
  qv_pos : forall p c d i, pm_procs m !! p = Some c -> pp_pc c = WAsleep d i \/ pp_pc c = WWoken d i -> 0 <= i
}.
Record pm_inv (m : pmachine) : Prop := {
  pv_qu : qu_inv m;
  pv_rf : rf_inv (pm_procs m) (pm_ref m) (pm_pipe m) (pm_frees m)
}.

Lemma fetched_take fault data i bs : 0 <= i -> fetched (fun j => if (fault j : bool) then None else data !! Z.to_nat j) i bs ->
  bs = take (length bs) (drop (Z.to_nat i) data).
Proof.
  intros Hi Hf. apply list_eq. intros k. destruct (decide (k < length bs)%nat) as [Hk|Hk].
  - destruct (lookup_lt_is_Some_2 bs k Hk) as [b Hb]. rewrite lookup_take_lt, lookup_drop, Hb by done.
    specialize (Hf k b Hb). cbn in Hf. destruct (fault (i + Z.of_nat k)); [done|]. rewrite <- Hf. f_equal. lia.
  - rewrite lookup_take_ge by lia. apply lookup_ge_None_2. lia.
Qed.

Lemma pm_use_ok {A} (f : M pipe A) m a pi : pm_frees m = O -> f (pm_pipe m) = Ok a pi -> pm_use f m = Ok a (w_pipe pi m).
Proof. intros Hf Hr. unfold pm_use, bind at 1. cbn [get]. rewrite Hf. unfold zoom. by rewrite Hr. Qed.
(** A process that has an end keeps the page from being freed. *)
Lemma in_use ps ref pi frees p c w : rf_inv ps ref pi frees -> ps !! p = Some c -> (0 < pp_end w c)%nat -> frees = O.
Proof.
  intros R Hp Hc. rewrite (rf_frees _ _ _ _ R). pose proof (ends_held w p c ps Hp).
  destruct w; destruct (ends true ps + ends false ps)%nat eqn:E; try lia; done.
Qed.

(** Processes after a step in which [p] goes to [x] and others are woken. *)
Section stepped.
Context (m : pmachine) (V : pm_inv m) (p : nat) (c : pproc) (Hp : pm_procs m !! p = Some c) (f : pwc -> pwc) (Hf : waker f) (x : pwc).
Notation ps' := (wake f <$> alter (set_ppc x) p (pm_procs m)).

Lemma stepped_case (Q : pwc -> Prop) : Q (f x) -> (forall q c0, q <> p -> pm_procs m !! q = Some c0 -> Q (f (pp_pc c0))) ->
  forall q d, ps' !! q = Some d -> Q (pp_pc d).
Proof using Type.
  intros Hx Ho q d (c0 & Hq & ->)%moved_lookup. case_decide as Hqp; cbn; eauto.
Qed.

Lemma qu_stepped m' : pm_procs m' = ps' -> same_ends (pm_pipe m) (pm_pipe m') -> pipe_ok (pm_pipe m') -> freed (pm_pipe m') ->
  pm_written m' = (pm_taken m').*1 ++ queue (pm_pipe m') ->
  (forall d i, f x = WAsleep d i \/ f x = WWoken d i -> 0 <= i) ->
  (forall d i, f x = WAsleep d i -> pipe_full (pm_pipe m') = true /\ pi_readopen (pm_pipe m') <> 0) ->
  (forall n, f x = RAsleep n -> queue (pm_pipe m') = [] /\ pi_writeopen (pm_pipe m') <> 0) ->
  (f = woken_writer \/ (pipe_full (pm_pipe m) = true -> pipe_full (pm_pipe m') = true)) ->
  (f = woken_reader \/ (queue (pm_pipe m) = [] -> queue (pm_pipe m') = [] \/ pm_missed m' = true) /\ (pm_missed m = true -> pm_missed m' = true)) -> qu_inv m'.
Proof using V Hf.
  intros Ep [E1 E2] Hok Hfr Hw Hpos Hwx Hrx Hful Hemp. destruct V as [[A1 A2 A3 A4 A5 A6] _]. split; try done; rewrite Ep.
  - intros q d da i Hq. revert q d Hq da i. apply (stepped_case (fun y => forall da i, y = WAsleep da i -> _)); [exact Hwx|].
    intros q c0 Hqp Hq da i Hy. assert (pp_pc c0 = WAsleep da i) as Hc by (destruct Hf as [->|[->| ->]], (pp_pc c0); done).
    destruct (A4 _ _ _ _ Hq Hc) as [B1 B2]. rewrite E1. split; [|done]. destruct Hful as [->|Hful]; [by rewrite Hc in Hy|by apply Hful].
  - intros q d n Hq. revert q d Hq n. apply (stepped_case (fun y => forall n, y = RAsleep n -> _)).
    { intros n Hn. destruct (Hrx n Hn). auto. }
    intros q c0 Hqp Hq n Hy. assert (pp_pc c0 = RAsleep n) as Hc by (destruct Hf as [->|[->| ->]], (pp_pc c0); done).
    destruct (A5 _ _ _ Hq Hc) as [B1 B2]. rewrite E2. split; [|done]. destruct Hemp as [->|[H1 H2]]; [by rewrite Hc in Hy|]. destruct B1; auto.
  - intros q d da i Hq. revert q d Hq da i. apply (stepped_case (fun y => forall da i, y = WAsleep da i \/ y = WWoken da i -> _)); [exact Hpos|].
    intros q c0 Hqp Hq da i Hy. apply (A6 q c0 da i Hq). destruct Hf as [->|[->| ->]], (pp_pc c0); cbn in Hy; naive_solver.
Qed.
End stepped.

Lemma no_wake (ps : list pproc) : wake id <$> ps = ps.
Proof. rewrite <- (list_fmap_id ps) at 2. apply list_fmap_ext. by intros i []. Qed.

(** The side conditions of [qu_stepped] that hold at once. *)
Ltac quiet := cbn; try solve [done | by rewrite no_wake | by intros ? ? [|] | by left | by right | by auto].

Lemma pm_write_ok m p c data i killed_at fault : pm_inv m -> pm_procs m !! p = Some c -> (0 < pp_w c)%nat -> 0 <= i ->
  exists m', pm_write p data i killed_at fault m = Ok tt m' /\ pm_inv m'.
Proof.
  intros V Hp Hw Hi. pose proof V as V'. destruct V as [[A1 A2 A3 A4 A5 A6] R].
  destruct (pipewrite_run_spec (fun j => if fault j then None else data !! Z.to_nat j) killed_at i (Z.of_nat (length data)) (pm_pipe m) A1 A2 Hi)
    as (e & pi & bs & Hrun & I & F & E & Q & B & N & C).
  pose proof (fetched_take fault data i bs Hi B) as Hbs.
  unfold pm_write. unfold bind at 1. cbn [get]. rewrite (bind_Ok _ _ _ _ _ (pm_use_ok _ _ _ _ (in_use _ _ _ _ p c true R Hp Hw) Hrun)).
  unfold bind at 1. cbn [get w_pipe pm_pipe pm_written]. replace (length (queue pi) - length (queue (pm_pipe m)))%nat with (length bs) by (rewrite Q, length_app; lia).
  rewrite <- Hbs, bind_modify.
  assert (pm_written m ++ bs = (pm_taken m).*1 ++ queue pi) as Hq by (by rewrite A3, Q, app_assoc).
  assert (pipe_full (pm_pipe m) = true -> pipe_full pi = true) as Hfull.
  { intros Hfu%pipe_full_spec; [|done]. apply pipe_full_spec; [done|]. pose proof (length_queue pi I). rewrite Q, length_app in *. lia. }
  destruct e as [r|j]; [destruct (Z.eqb_spec r (-1)) as [->|Hr]|]; eexists; (split; [reflexivity|]); split.
  - apply (qu_stepped m V' p id ltac:(by left) PIdle); quiet. right. rewrite Q. split; [|by destruct bs].
    intros H0. destruct bs; [left; by rewrite H0|by right].
  - cbn. rewrite <- (no_wake (alter _ _ _)). by apply (rf_moved _ _ (pm_pipe m) _ _ c); [| |left| |].
  - apply (qu_stepped m V' p woken_reader ltac:(right; by left) PIdle); quiet.
  - cbn. apply (rf_moved _ _ (pm_pipe m) _ _ c); [done|done|right; by left|done|done].
  - destruct C as (-> & Hfu & Hro & Hlt). apply (qu_stepped m V' p woken_reader ltac:(right; by left) (WAsleep data (i + Z.of_nat (length bs)))); quiet.
    intros d k [[= <- <-]|]; [lia|done].
  - cbn. apply (rf_moved _ _ (pm_pipe m) _ _ c); [done|done|right; by left|done|done].
Qed.

Lemma pm_reader_ok m p c n killed_at fault : pm_inv m -> pm_procs m !! p = Some c -> (0 < pp_r c)%nat ->
  exists m', pm_reader p n killed_at fault m = Ok tt m' /\ pm_inv m'.
Proof.
  intros V Hp Hr. pose proof V as V'. destruct V as [[A1 A2 A3 A4 A5 A6] R].
  destruct (piperead_run_spec (fun i _ => negb (fault i)) (killed_at 0) n (pm_pipe m) A1 A2) as (e & bs & pi & Hrun & I & F & E & Q & C).
  unfold pm_reader. rewrite (bind_Ok _ _ _ _ _ (pm_use_ok _ _ _ _ (in_use _ _ _ _ p c false R Hp Hr) Hrun)). cbn.
  assert (queue (pm_pipe m) = [] -> queue pi = []) as Hemp by (intros H0; rewrite H0 in Q; symmetry in Q; by apply app_eq_nil in Q as [_ ?]).
  assert (bs = [] -> pipe_full (pm_pipe m) = true -> pipe_full pi = true) as Hfull.
  { intros -> Hfu%pipe_full_spec; [|done]. apply pipe_full_spec; [done|]. by rewrite Q in Hfu. }
  destruct e as [r|j]; [destruct (Z.eqb_spec r (-1)) as [->|Hr1]|]; eexists; (split; [reflexivity|]); split.
  - assert (bs = []) as Hb by (destruct C as [(_ & _ & ? & _)|[(cs & [[_ ?]|(b & _ & ? & _)]) _]]; [done|lia|lia]).
    apply (qu_stepped m V' p id ltac:(by left) PIdle); quiet. by rewrite A3, Q, Hb.
  - cbn. rewrite <- (no_wake (alter _ _ _)). by apply (rf_moved _ _ (pm_pipe m) _ _ c); [| |left| |].
  - apply (qu_stepped m V' p woken_writer ltac:(right; by right) PIdle); quiet. by rewrite A3, Q, fmap_app, app_assoc.
  - cbn. apply (rf_moved _ _ (pm_pipe m) _ _ c); [done|done|right; by right|done|done].
  - destruct C as (H0 & Hb & Hwo & _). apply (qu_stepped m V' p id ltac:(by left) (RAsleep n)); quiet. by rewrite A3, Q, Hb.
  - cbn. rewrite <- (no_wake (alter _ _ _)). by apply (rf_moved _ _ (pm_pipe m) _ _ c); [| |left| |].
Qed.

(** Steps that change descriptors only. *)
Lemma qu_same m m' : qu_inv m -> pm_pipe m' = pm_pipe m -> pm_written m' = pm_written m -> pm_taken m' = pm_taken m -> pm_missed m' = pm_missed m ->
  (forall q c', pm_procs m' !! q = Some c' -> exists q0 c, pm_procs m !! q0 = Some c /\ pp_pc c' = pp_pc c) -> qu_inv m'.
Proof.
  intros [A1 A2 A3 A4 A5 A6] E1 E2 E3 E4 Hps. split; rewrite ?E1, ?E2, ?E3, ?E4; try done.
  - intros q c' d i Hq Hc. destruct (Hps q c' Hq) as (q0 & c & H0 & E). eapply A4; [exact H0|rewrite <- E; exact Hc].
  - intros q c' n Hq Hc. destruct (Hps q c' Hq) as (q0 & c & H0 & E). eapply A5; [exact H0|rewrite <- E; exact Hc].
  - intros q c' d i Hq Hc. destruct (Hps q c' Hq) as (q0 & c & H0 & E). eapply A6; [exact H0|rewrite <- E; exact Hc].
Qed.
(** The last descriptor of an end is closed, and the other side is woken. *)
Lemma qu_closed m m' (w : bool) : qu_inv m -> pm_pipe m' = (if w then set_writeopen 0 (pm_pipe m) else set_readopen 0 (pm_pipe m)) ->
  pm_written m' = pm_written m -> pm_taken m' = pm_taken m -> (w = false -> pm_missed m' = pm_missed m) ->
  pm_procs m' = wake (if w then woken_reader else woken_writer) <$> pm_procs m -> qu_inv m'.
Proof.
  intros [A1 A2 A3 A4 A5 A6] E1 E2 E3 E4 E5.
  assert (pipe_ok (pm_pipe m') /\ queue (pm_pipe m') = queue (pm_pipe m) /\ pipe_full (pm_pipe m') = pipe_full (pm_pipe m)) as (B1 & B2 & B3).
  { destruct A1. rewrite E1. by destruct w. }
  split; rewrite ?E2, ?E3, ?B2, ?B3; try done; [rewrite E1; by destruct w| | |]; rewrite E5.
  - intros q c' d i (c & -> & Hc)%list_lookup_fmap_Some_1. cbn. intros Hx. destruct w; [|by destruct (pp_pc c)].
    rewrite E1. apply (A4 q c d i Hc). by destruct (pp_pc c).
  - intros q c' n (c & -> & Hc)%list_lookup_fmap_Some_1. cbn. intros Hx. destruct w; [by destruct (pp_pc c)|].
    rewrite E1, E4 by done. apply (A5 q c n Hc). by destruct (pp_pc c).
  - intros q c' d i (c & -> & Hc)%list_lookup_fmap_Some_1. cbn. intros Hx. apply (A6 q c d i Hc). destruct w, (pp_pc c); naive_solver.
Qed.

Definition with_end (w : bool) (d : Z) (c : pproc) : pproc := set_end w (Z.to_nat (Z.of_nat (pp_end w c) + d)) c.
Lemma ends_added w w' d p c ps : ps !! p = Some c -> 0 <= Z.of_nat (pp_end w c) + d ->
  Z.of_nat (ends w' (alter (with_end w d) p ps)) = Z.of_nat (ends w' ps) + if bool_decide (w' = w) then d else 0.
Proof.
  intros Hp Hd. pose proof (ends_alter w' (with_end w d) p c ps Hp) as H. case_bool_decide as E; [subst w'|].
  - replace (pp_end w (with_end w d c)) with (Z.to_nat (Z.of_nat (pp_end w c) + d)) in H by (by destruct w). lia.
  - replace (pp_end w' (with_end w d c)) with (pp_end w' c) in H by (by destruct w, w'). lia.
Qed.
Lemma added_lookup w d p (ps : list pproc) q c' : alter (with_end w d) p ps !! q = Some c' ->
  exists c, ps !! q = Some c /\ pp_pc c' = pp_pc c /\ (c' = c \/ q = p).
Proof.
  destruct (decide (q = p)) as [->|Hne]; [rewrite list_lookup_alter_eq|rewrite list_lookup_alter_ne by done; intros Hq; exists c'; auto].
  destruct (ps !! p) as [c|]; [|done]. intros [= <-]. exists c. split; [done|]. split; [by destruct w|by right].
Qed.
(** The references after [filedup] or [fileclose] by an idle process. *)
Lemma rf_added ps ref pi frees pi' frees' p c w d : rf_inv ps ref pi frees -> ps !! p = Some c -> pp_pc c = PIdle -> 0 <= Z.of_nat (pp_end w c) + d ->
  let ps' := alter (with_end w d) p ps in
  (forall w', end_open w' pi' = 0 <-> ends w' ps' = O) -> frees' = match (ends true ps' + ends false ps')%nat with O => 1%nat | _ => O end ->
  rf_inv ps' (<[w := ref w + d]> ref) pi' frees'.
Proof.
  intros [R1 R2 R3 R4] Hp Hc Hd ps' Ho Hf. split; [|done|done|].
  - intros w'. unfold ps'. rewrite (ends_added w w' d p c ps Hp Hd). case_bool_decide as E; [subst w'; rewrite fn_lookup_insert, R1; done|].
    rewrite fn_lookup_insert_ne, R1 by done. lia.
  - intros q c' (c0 & Hq & Epc & [->| ->])%added_lookup; [by eapply R4|]. simplify_eq. unfold holds_end. by rewrite Epc, Hc.
Qed.

Lemma pm_dup_ok m p c w : pm_inv m -> pm_procs m !! p = Some c -> pp_pc c = PIdle -> (0 < pp_end w c)%nat ->
  exists m', pm_dup p w m = Ok tt m' /\ pm_inv m'.
Proof.
  intros [QV R] Hp Hc Hw. pose proof (ends_held w p c _ Hp) as Hh. unfold pm_dup. unfold bind at 1. cbn [get].
  rewrite (rf_ref _ _ _ _ R). destruct (Z.ltb_spec (Z.of_nat (ends w (pm_procs m))) 1); [lia|]. eexists. split; [reflexivity|].
  assert (forall w', ends w' (alter (with_end w 1) p (pm_procs m)) = O <-> ends w' (pm_procs m) = O) as He.
  { intros w'. pose proof (ends_added w w' 1 p c _ Hp ltac:(lia)) as E. case_bool_decide; [subst w'|]; lia. }
  split; [apply (qu_same m); try done|].
  - intros q c' (c0 & Hq & Ec & _)%added_lookup. by exists q, c0.
  - cbn. apply (rf_added _ _ (pm_pipe m) (pm_frees m) _ _ _ c); [done|done|done|lia|intros w'; fold (with_end w 1); rewrite He; apply R|].
    rewrite (rf_frees _ _ _ _ R). pose proof (He true). pose proof (He false).
    destruct (ends true (pm_procs m) + ends false (pm_procs m))%nat eqn:E1, (ends true _ + ends false (alter _ _ _))%nat eqn:E2; try done; lia.
Qed.

Lemma rf_woken ps ref pi frees f : rf_inv ps ref pi frees -> waker f -> rf_inv (wake f <$> ps) ref pi frees.
Proof.
  intros [R1 R2 R3 R4] Hf. assert (forall w, ends w (wake f <$> ps) = ends w ps) as He by (intros; apply ends_same; intros; apply pp_end_wake).
  split; [intros; by rewrite He|intros; by rewrite He|by rewrite !He|]. intros q c' (c & -> & Hc)%list_lookup_fmap_Some_1. apply waker_holds; eauto.
Qed.

Lemma pm_close_ok m p c w : pm_inv m -> pm_procs m !! p = Some c -> pp_pc c = PIdle -> (0 < pp_end w c)%nat ->
  exists m', pm_close p w m = Ok tt m' /\ pm_inv m'.
Proof.
  intros [QV R] Hp Hc Hw. pose proof (ends_held w p c _ Hp) as Hh. pose proof (in_use _ _ _ _ p c w R Hp Hw) as Hfr.
  unfold pm_close. unfold bind at 1. cbn [get]. rewrite (rf_ref _ _ _ _ R).
  destruct (Z.ltb_spec (Z.of_nat (ends w (pm_procs m))) 1); [lia|]. unfold add_ref. rewrite bind_modify. fold (with_end w (-1)).
  set (ps' := alter (with_end w (-1)) p (pm_procs m)). set (m1 := w_ref _ _).
  assert (forall w', Z.of_nat (ends w' ps') = Z.of_nat (ends w' (pm_procs m)) + if bool_decide (w' = w) then -1 else 0) as He
    by (intros w'; apply (ends_added w w' (-1) p c _ Hp); lia).
  assert (qu_inv m1) as QV1 by (apply (qu_same m); try done; intros q c' (c0 & Hq & Ec & _)%added_lookup; by exists q, c0).
  pose proof (rf_open _ _ _ _ R) as Ho.
  destruct (Z.ltb_spec 0 (Z.of_nat (ends w (pm_procs m)) - 1)) as [Hmore|Hlast].
  - eexists. split; [reflexivity|]. split; [done|]. apply (rf_added _ _ (pm_pipe m) (pm_frees m) _ _ _ c); [done|done|done|lia| |]; fold ps'.
    + intros w'. cbn. rewrite Ho. specialize (He w'). destruct (decide (w' = w)) as [->|]; [rewrite bool_decide_true in He by done|rewrite bool_decide_false in He by done]; lia.
    + cbn. rewrite Hfr. destruct (ends true ps' + ends false ps')%nat eqn:E; [|done]. specialize (He w). rewrite bool_decide_true in He by done. destruct w; lia.
  - assert (ends w ps' = O) as H0 by (specialize (He w); rewrite bool_decide_true in He by done; lia).
    assert (forall w', w' <> w -> ends w' ps' = ends w' (pm_procs m)) as H1 by (intros w' Hn; specialize (He w'); rewrite bool_decide_false in He by done; lia).
    rewrite (bind_Ok _ _ _ _ _ (pm_use_ok (pipeclose_run w) m1 _ _ Hfr (pipeclose_run_spec w _ (qv_free _ QV)))).
    set (pi' := if w then set_writeopen 0 (pm_pipe m) else set_readopen 0 (pm_pipe m)). set (fi := (_ =? 0) && _).
    set (f := if w then woken_reader else woken_writer).
    assert (exists m', ((if w then wake_readers else wake_writers) ;;; if fi then modify (fun m => w_frees (S (pm_frees m)) m) else return tt) (w_pipe pi' m1) = Ok tt m' /\
      pm_pipe m' = pi' /\ pm_written m' = pm_written m /\ pm_taken m' = pm_taken m /\ (w = false -> pm_missed m' = pm_missed m) /\
      pm_procs m' = wake f <$> ps' /\ pm_ref m' = <[w := pm_ref m w + -1]> (pm_ref m) /\ pm_frees m' = if fi then 1%nat else O) as (m' & Hrun & E1 & E2 & E3 & E4 & E5 & E6 & E7).
    { unfold f, m1. destruct w, fi; eexists; (split; [reflexivity|]); cbn; rewrite ?Hfr; done. }
    exists m'. split; [exact Hrun|]. split; [by apply (qu_closed m1 m' w)|]. rewrite E1, E5, E6, E7.
    apply rf_woken; [|destruct w; [right; by left|right; by right]].
    assert (forall w', end_open w' pi' = 0 <-> ends w' ps' = O) as Ho'.
    { intros w'. destruct (decide (w' = w)) as [->|Hn]; [rewrite H0; by destruct w|]. rewrite H1, <- Ho by done. by destruct w, w'. }
    apply (rf_added _ _ (pm_pipe m) (pm_frees m) _ _ _ c); [done|done|done|lia|exact Ho'|]. fold ps'.
    pose proof (Ho' true) as [X1 X2]. pose proof (Ho' false) as [X3 X4]. cbn in X1, X2, X3, X4.
    unfold fi. destruct (Z.eqb_spec (pi_readopen pi') 0), (Z.eqb_spec (pi_writeopen pi') 0); cbn; destruct (ends true ps' + ends false ps')%nat eqn:E; try done; try lia.
Qed.

Lemma pm_fork_ok m p c : pm_inv m -> pm_procs m !! p = Some c -> pp_pc c = PIdle -> exists m', pm_fork p m = Ok tt m' /\ pm_inv m'.
Proof.
  intros [QV R] Hp Hc. eexists. split; [reflexivity|]. rewrite Hp. destruct R as [R1 R2 R3 R4].
  assert (forall w, ends w (pm_procs m ++ [c]) = ends w (pm_procs m) + pp_end w c)%nat as He.
  { intros w. unfold ends. rewrite fmap_app, sum_list_with_app || rewrite fmap_app. induction (pm_procs m); cbn; lia. }
  assert (forall w, ends w (pm_procs m ++ [c]) = O <-> ends w (pm_procs m) = O) as He0.
  { intros w. rewrite He. pose proof (ends_held w p c _ Hp). lia. }
  split; cbn.
  - apply (qu_same m); try done. intros q c' [Hq|[_ Hq]]%lookup_app_Some; [by exists q, c'|].
    apply list_lookup_singleton_Some in Hq as [_ <-]. by exists p, c.
  - split; [intros w; rewrite R1, He; lia|intros w; rewrite He0; apply R2| |].
    + rewrite R3. pose proof (He0 true). pose proof (He0 false).
      destruct (ends true (pm_procs m) + ends false (pm_procs m))%nat eqn:E1, (ends true _ + ends false (_ ++ _))%nat eqn:E2; try done; lia.
    + intros q c' [Hq|[_ Hq]]%lookup_app_Some; [by eapply R4|]. apply list_lookup_singleton_Some in Hq as [_ <-]. by eapply R4.
Qed.

Lemma pm_next_ok m p a killed_at fault : pm_inv m -> pm_enabled p a m = true -> exists m', pm_next p a killed_at fault m = Ok tt m' /\ pm_inv m'.
Proof.
  intros V. unfold pm_enabled, pm_next. unfold bind at 1. cbn [get]. destruct (pm_procs m !! p) as [c|] eqn:Hp; [|done]. cbn -[Nat.ltb].
  pose proof (rf_hold _ _ _ _ (pv_rf _ V) p c Hp) as Hh. unfold holds_end in Hh. pose proof (qv_pos _ (pv_qu _ V) p c) as Hpos.
  destruct (pv_qu _ V) as [A1 A2 A3 _ _ _].
  destruct (pp_pc c) as [|d i|d i|n|n] eqn:Hc, a; intros He; try discriminate He; try apply Nat.ltb_lt in He.
  - by apply (pm_write_ok m p c).
  - by apply (pm_reader_ok m p c).
  - by apply (pm_close_ok m p c).
  - by apply (pm_dup_ok m p c).
  - by apply (pm_fork_ok m p c).
  - eexists. split; [reflexivity|]. split; [apply (qu_stepped m V p id ltac:(by left) (WWoken d i)); quiet|].
    + intros d' i' [?|[= <- <-]]; [done|]. eapply Hpos; eauto.
    + cbn. rewrite <- (no_wake (alter _ _ _)). apply (rf_moved _ _ (pm_pipe m) _ _ c); [apply V|done|by left|done|done].
  - by eapply (pm_write_ok m p c); [| | |eapply Hpos; eauto].
  - eexists. split; [reflexivity|]. split; [apply (qu_stepped m V p id ltac:(by left) (RWoken n)); quiet|].
    + cbn. rewrite <- (no_wake (alter _ _ _)). apply (rf_moved _ _ (pm_pipe m) _ _ c); [apply V|done|by left|done|done].
  - by apply (pm_reader_ok m p c).
Qed.

Lemma pm_inv_init data : length data = Z.to_nat PIPESIZE -> pm_inv (pm_init data).
Proof.
  intros Hd. split; split; cbn; try done.
  - intros [|p] c d i Hc; [injection Hc as <-|]; done.
  - intros [|p] c n Hc; [injection Hc as <-|]; done.
  - intros [|p] c d i Hc; [injection Hc as <-; by intros [|]|done].
  - by intros [].
  - by intros [].
  - intros [|p] c Hc; [injection Hc as <-|]; done.
Qed.
Lemma ends_zero w ps : ends w ps = O <-> forall p c, ps !! p = Some c -> pp_end w c = O.
Proof.
  split; [intros H p c Hc; pose proof (ends_held w p c ps Hc); lia|]. induction ps as [|d ps IH]; intros H; [done|].
  unfold ends in *. cbn. rewrite (H O d eq_refl), IH; [done|]. intros p c Hc. exact (H (S p) c Hc).
Qed.

(** C4: a pipe is a queue.  Processes write, read, duplicate and close the ends of a pipe,
    fork and are killed, in any order, with [copyin], [copyout] and [killed]
    answering anything in any round.  In every reachable state: whatever a
    process does next returns, and never touches the pipe after its page is freed;
    the bytes taken by the readers followed by the bytes in the pipe are exactly
    the bytes the writers put, in order, at most [PIPESIZE] of them still in the
    pipe; a writer sleeps only while the pipe is full and has a reader, a
    reader only while the pipe has a writer and is empty, unless a writer was
    killed between two bytes and left without waking it; an end is marked closed exactly
    when no process has a descriptor for it, and the page is freed exactly once,
    when this holds of both ends.  A read returns the number of bytes delivered,
    which are the first of the pipe, with at most one more byte taken and lost, the
    one whose [copyout] failed; it returns 0 for a positive count only at the end of
    the file or when it lost its first byte. *)
Theorem pipe_is_a_queue (data : list Z) (m : pmachine) : length data = Z.to_nat PIPESIZE -> star pm_step (pm_init data) m ->
  (forall p a killed_at fault, pm_enabled p a m = true -> exists m', pm_next p a killed_at fault m = Ok tt m') /\
  pm_written m = (pm_taken m).*1 ++ queue (pm_pipe m) /\ Z.of_nat (length (queue (pm_pipe m))) <= PIPESIZE /\
  (forall p c d i, pm_procs m !! p = Some c -> pp_pc c = WAsleep d i -> pipe_full (pm_pipe m) = true /\ pi_readopen (pm_pipe m) <> 0) /\
  (forall p c n, pm_procs m !! p = Some c -> pp_pc c = RAsleep n ->
     (queue (pm_pipe m) = [] \/ pm_missed m = true) /\ pi_writeopen (pm_pipe m) <> 0) /\
  (forall w, end_open w (pm_pipe m) = 0 <-> forall p c, pm_procs m !! p = Some c -> pp_end w c = O) /\
  (pm_frees m = 1%nat /\ (forall p c w, pm_procs m !! p = Some c -> pp_end w c = O) \/
   pm_frees m = O /\ exists p c w, pm_procs m !! p = Some c /\ (0 < pp_end w c)%nat) /\
  (forall deliver killed k r bs pi, run_read deliver killed k (pm_pipe m) = Ok (Returned r, bs) pi -> r <> -1 ->
     queue (pm_pipe m) = bs.*1 ++ queue pi /\ delivered deliver 0 r bs /\
     (r = 0 -> 0 < k -> (pi_writeopen (pm_pipe m) = 0 /\ pm_written m = (pm_taken m).*1) \/ exists b, bs = [(b, false)] /\ deliver 0 b = false)).
Proof.
  intros Hd Hs. assert (pm_inv m) as V.
  { eapply star_invariant; [|exact Hs|by apply pm_inv_init]. intros m1 m2 V1 (p & a & k & f & He & Hn).
    destruct (pm_next_ok m1 p a k f V1 He) as (m3 & Hn' & V3). rewrite Hn in Hn'. by injection Hn' as <-. }
  pose proof V as [[A1 A2 A3 A4 A5 A6] R].
  split; [intros p a k f He; destruct (pm_next_ok m p a k f V He) as (m' & Hn & _); by exists m'|].
  split; [done|]. split; [by apply length_queue|]. split; [done|]. split; [done|].
  split; [intros w; rewrite (rf_open _ _ _ _ R); apply ends_zero|]. split.
  - rewrite (rf_frees _ _ _ _ R). destruct (ends true (pm_procs m) + ends false (pm_procs m))%nat eqn:E.
    + left. split; [done|]. intros p c w. apply ends_zero. destruct w; lia.
    + right. split; [done|]. destruct (decide (Exists (fun c => 0 < pp_end true c \/ 0 < pp_end false c)%nat (pm_procs m))) as [Hx|Hx].
      * apply Exists_exists in Hx as (c & [p Hp]%list_elem_of_In%list_elem_of_lookup & [H|H]); [by exists p, c, true|by exists p, c, false].
      * exfalso. assert (forall w, ends w (pm_procs m) = O) as Hz; [|rewrite !Hz in E; done]. intros w. apply ends_zero. intros p c Hp.
        destruct (pp_end w c) eqn:Ew; [done|]. destruct Hx. apply Exists_exists. exists c. split; [apply list_elem_of_In; by eapply list_elem_of_lookup_2|]. destruct w; rewrite Ew; [left|right]; lia.
  - intros deliver killed k r bs pi Hr Hne. destruct (piperead_run_spec deliver killed k (pm_pipe m) A1 A2) as (e & bs' & pi' & Hr' & _ & _ & _ & Q & C).
    rewrite Hr' in Hr. injection Hr as -> -> ->. destruct C as [[? _]|(D & He & Hshort)]; [done|]. split; [done|]. split; [done|].
    intros -> Hk. destruct D as (cs & [[-> H0]|(b & -> & H0 & Hb)]); destruct cs; cbn in H0; try lia.
    + left. destruct (Hshort Hk) as [Hq|(b & []%elem_of_nil)]. cbn in Q. rewrite Hq in Q. split; [by apply He|]. by rewrite A3, Q, app_nil_r.
    + right. by exists b.
Qed.

Definition pipe_zero : list Z := replicate (Z.to_nat PIPESIZE) 0.
(** The machine run from [l]: process, action, and the rounds in which a copy fails and
    the process is killed. *)
Fixpoint pm_run (l : list (nat * pact * (Z -> bool) * (Z -> bool))) (m : pmachine) : option pmachine :=
  match l with
  | [] => Some m
  | (p, a, k, f) :: l =>
      if pm_enabled p a m then match pm_next p a k f m with Ok _ m => pm_run l m | _ => None end else None
  end.
Lemma pm_run_star l m m' : pm_run l m = Some m' -> star pm_step m m'.
Proof.
  revert m. induction l as [|[[[p a] k] f] l IH]; intros m; cbn [pm_run]; [intros [= <-]; apply star_refl|].
  destruct (pm_enabled p a m) eqn:He; [|done]. destruct (pm_next p a k f m) as [[] m1| | |] eqn:Hn; try done.
  intros Hr. eapply star_next; [by exists p, a, k, f|by apply IH].
Qed.

(** A process forks and keeps the read end; it sleeps on the empty pipe, the child puts
    three bytes, and the reader takes two of them, the second one lost. *)
Definition pipe_example : list (nat * pact * (Z -> bool) * (Z -> bool)) :=
  (fun '(p, a, bad) => (p, a, fun _ => false, fun i => i =? bad)) <$>
  [(0%nat, AFork, -1); (0%nat, AClose true, -1); (0%nat, ARead 2, -1); (1%nat, AWrite [7; 8; 9], -1); (0%nat, ACont, 1); (1%nat, AClose true, -1)].
Lemma pipe_is_a_queue_witness : exists m, star pm_step (pm_init pipe_zero) m /\ pm_taken m = [(7, true); (8, false)] /\
  pm_written m = (pm_taken m).*1 ++ queue (pm_pipe m).
Proof.
  assert (match pm_run pipe_example (pm_init pipe_zero) with Some m => pm_taken m = [(7, true); (8, false)] | None => False end) as H by (vm_compute; reflexivity).
  destruct (pm_run pipe_example (pm_init pipe_zero)) as [m|] eqn:Hr; [|destruct H]. apply pm_run_star in Hr. exists m. split; [exact Hr|]. split; [exact H|].
  destruct (pipe_is_a_queue pipe_zero m (length_replicate _ _) Hr) as (_ & H1 & _). exact H1.
Defined.

(** A writer that is killed between two bytes returns without a wakeup: a
    reader then stays asleep although the pipe holds a byte. *)
Lemma pipewrite_killed_no_wakeup : exists m c, star pm_step (pm_init pipe_zero) m /\
  pm_procs m !! 0%nat = Some c /\ pp_pc c = RAsleep 1 /\ queue (pm_pipe m) = [7] /\ pi_writeopen (pm_pipe m) <> 0.
Proof.
  assert (match pm_run [(0%nat, AFork, fun _ => false, fun _ => false); (0%nat, ARead 1, fun _ => false, fun _ => false); (1%nat, AWrite [7; 8], fun i => i =? 1, fun _ => false)] (pm_init pipe_zero) with
    | Some m => pm_procs m !! 0%nat = Some (mkPproc (RAsleep 1) 1 1) /\ queue (pm_pipe m) = [7] /\ pi_writeopen (pm_pipe m) = 1 | None => False end) as H by (vm_compute; done).
  destruct (pm_run _ _) as [m|] eqn:Hr; [|destruct H]. destruct H as (H1 & H2 & H3). exists m, (mkPproc (RAsleep 1) 1 1).
  split; [by eapply pm_run_star|]. split; [done|]. split; [done|]. split; [done|]. by rewrite H3.
Qed.
