(* ===== verification/File.v ===== *)
(** * Open files: [kernel/file.c], and the parts of [kernel/pipe.c] on files

    The state of the system calls: the file system and memory below, the table
    of open files, the pipes (a pipe is kept by the address of its page), and the
    variables of proc.c and trap.c.  A pointer to a file is its index in
    [ftable.file]; a null pointer is [None]. *)

From stdpp Require Import base list gmap strings.
From S2P Require Import Prelude Riscv Mem Spinlock Kalloc Vm Sleeplock ProcData Bytes Bio Log Fs Pipe.

Inductive ftype := FD_NONE | FD_PIPE | FD_INODE | FD_DEVICE.
#[export] Instance ftype_eq_dec : EqDecision ftype.
Proof. solve_decision. Defined.

(** [struct file] *)
Record file := mkFile {
  f_type : ftype; f_ref : Z; f_readable : Z; f_writable : Z; f_pipe : Z; f_ip : Z; f_off : Z; f_major : Z
}.
#[export] Instance file_inhabited : Inhabited file := populate (mkFile FD_NONE 0 0 0 0 0 0 0).

Record ftable := mkFtable { ft_lock : spinlock; ft_file : gmap Z file }.

(** The state of the system calls. *)
Record kern := mkKern {
  kf : fsst; kft : ftable; kpipes : gmap Z pipe;
  k_nextpid : Z; k_pid_lock : spinlock; k_wait_lock : spinlock; k_initproc : option Z;
  k_ticks : Z; k_tickslock : spinlock
}.
Definition set_kf (f : fsst) (s : kern) : kern :=
  mkKern f (kft s) (kpipes s) (k_nextpid s) (k_pid_lock s) (k_wait_lock s) (k_initproc s) (k_ticks s) (k_tickslock s).
Definition set_kft (t : ftable) (s : kern) : kern :=
  mkKern (kf s) t (kpipes s) (k_nextpid s) (k_pid_lock s) (k_wait_lock s) (k_initproc s) (k_ticks s) (k_tickslock s).
Definition set_kpipes (m : gmap Z pipe) (s : kern) : kern :=
  mkKern (kf s) (kft s) m (k_nextpid s) (k_pid_lock s) (k_wait_lock s) (k_initproc s) (k_ticks s) (k_tickslock s).

Definition set_fp (t : ptable) (s : fsst) : fsst := mkFsst (fl s) (fsb s) (fit s) (fk s) t.
Definition fs {A} : M fsst A -> M kern A := zoom kf set_kf.
Definition km_ {A} (m : M kst A) : M kern A := fs (zk m).
Definition pt {A} (m : M ptable A) : M kern A := fs (zoom fp set_fp m).
Definition kmyproc : M kern proc := gets (fun s => myproc (kf s)).

Definition file_at (s : kern) (f : Z) : file := ft_file (kft s) !!! f.
Definition get_file (f : Z) : M kern file := gets (fun s => file_at s f).
Definition upd_file (f : Z) (g : file -> file) : M kern unit :=
  modify (fun s => set_kft (mkFtable (ft_lock (kft s)) (<[f := g (file_at s f)]> (ft_file (kft s)))) s).
Definition ft_spin : M spinlock unit -> M kern unit :=
  zoom (fun s => ft_lock (kft s)) (fun lk s => set_kft (mkFtable lk (ft_file (kft s))) s).

(** Field assignments. *)
Definition set_fref v (x : file) : file :=
  mkFile (f_type x) v (f_readable x) (f_writable x) (f_pipe x) (f_ip x) (f_off x) (f_major x).
Definition set_ftype v (x : file) : file :=
  mkFile v (f_ref x) (f_readable x) (f_writable x) (f_pipe x) (f_ip x) (f_off x) (f_major x).
Definition set_frw r w (x : file) : file :=
  mkFile (f_type x) (f_ref x) r w (f_pipe x) (f_ip x) (f_off x) (f_major x).
Definition set_fpipe v (x : file) : file :=
  mkFile (f_type x) (f_ref x) (f_readable x) (f_writable x) v (f_ip x) (f_off x) (f_major x).
Definition set_fip v (x : file) : file :=
  mkFile (f_type x) (f_ref x) (f_readable x) (f_writable x) (f_pipe x) v (f_off x) (f_major x).
Definition set_foff v (x : file) : file :=
  mkFile (f_type x) (f_ref x) (f_readable x) (f_writable x) (f_pipe x) (f_ip x) v (f_major x).
Definition set_fmajor v (x : file) : file :=
  mkFile (f_type x) (f_ref x) (f_readable x) (f_writable x) (f_pipe x) (f_ip x) (f_off x) v.

(** An operation on the pipe at [pi]. *)
Definition with_pipe (pi : Z) {A} : M pipe A -> M kern A :=
  zoom (fun s => kpipes s !!! pi) (fun x s => set_kpipes (<[pi := x]> (kpipes s)) s).

(** ** The file table *)

Definition fileinit : M kern unit := ft_spin (fun _ => Ok tt initlock).

Fixpoint filealloc_loop (fuel : nat) (f : Z) (t : gmap Z file) : option Z :=
  match fuel with
  | O => None
  | S n => if f_ref (t !!! f) =? 0 then Some f else filealloc_loop n (f + 1) t
  end.
Definition filealloc : M kern (option Z) :=
  ft_spin lk_acquire ;;;
  do t <- gets (fun s => ft_file (kft s));
  match filealloc_loop (Z.to_nat NFILE) 0 t with
  | Some f => upd_file f (set_fref 1) ;;; ft_spin lk_release ;;; return (Some f)
  | None => ft_spin lk_release ;;; return None
  end.

Definition filedup (f : Z) : M kern Z :=
  ft_spin lk_acquire ;;;
  do x <- get_file f;
  if f_ref x <? 1 then panic "filedup"
  else upd_file f (fun x => set_fref (f_ref x + 1) x) ;;; ft_spin lk_release ;;; return f.

(** Device switch: the functions [devsw[major].read] and [write] where set. *)
Class Devsw := {
  dev_read : Z -> option (Z -> Z -> M kern Z);
  dev_write : Z -> option (Z -> Z -> M kern Z)
}.

Section file.
Context `{Layout} `{Devsw}.

Definition pipeclose (pi : Z) (writable : bool) : M kern unit :=
  do freeit <- with_pipe pi (pipeclose_run writable);
  pt (wakeup (if writable then ChanPipeRead pi else ChanPipeWrite pi)) ;;;
  if (freeit : bool) then km_ (kfree pi) ;;; modify (fun s => set_kpipes (delete pi (kpipes s)) s)
  else return tt.

Definition fileclose (f : Z) : M kern unit :=
  ft_spin lk_acquire ;;;
  do x <- get_file f;
  if f_ref x <? 1 then panic "fileclose"
  else
    upd_file f (set_fref (f_ref x - 1)) ;;;
    if f_ref x - 1 >? 0 then ft_spin lk_release
    else
      do ff <- get_file f;
      upd_file f (set_fref 0) ;;;
      upd_file f (set_ftype FD_NONE) ;;;
      ft_spin lk_release ;;;
      match f_type ff with
      | FD_PIPE => pipeclose (f_pipe ff) (negb (f_writable ff =? 0))
      | FD_INODE | FD_DEVICE =>
          fs (zf begin_op) ;;; fs (iput (f_ip ff)) ;;; fs (zf end_op)
      | FD_NONE => return tt
      end.

(** [pipealloc(&rf, &wf)]: the two files, or [None] for -1. *)
Definition pipealloc : M kern (option (Z * Z)) :=
  do f0 <- filealloc;
  match f0 with
  | None => return None
  | Some f0 =>
      do f1 <- filealloc;
      match f1 with
      | None => fileclose f0 ;;; return None
      | Some f1 =>
          do pi <- km_ kalloc;
          if pi =? 0 then fileclose f0 ;;; fileclose f1 ;;; return None
          else
            (** the page still holds what [kalloc] left in [data] *)
            modify (fun s => set_kpipes (<[pi := pipe0 (replicate (Z.to_nat PIPESIZE) 5)]> (kpipes s)) s) ;;;
            upd_file f0 (fun x => set_fpipe pi (set_frw 1 0 (set_ftype FD_PIPE x))) ;;;
            upd_file f1 (fun x => set_fpipe pi (set_frw 0 1 (set_ftype FD_PIPE x))) ;;;
            return (Some (f0, f1))
      end
  end.

(** [copyin] and [copyout] of one byte, and [killed(myproc())]. *)
Definition fetch_char (addr i : Z) : M kern (option Z) :=
  do p <- kmyproc;
  do '(r, bs) <- km_ (copyin (p_pagetable p) (u64 (addr + i)) 1);
  return (if r =? -1 then None else Some (hd 0 bs)).
Definition store_char (addr i ch : Z) : M kern bool :=
  do p <- kmyproc;
  do r <- km_ (copyout (p_pagetable p) (u64 (addr + i)) [ch]);
  return (negb (r =? -1)).
Definition i_am_killed : M kern bool :=
  do me <- gets (fun s => cur (fp (kf s)));
  do k <- pt (killed me);
  return (negb (k =? 0)).

(** A call that goes to sleep has the outcome [Sleep]. *)
Definition pipewrite (pi addr n : Z) : M kern Z :=
  do e <- pipewrite_run (fun A => @with_pipe pi A) (fetch_char addr) (fun _ => i_am_killed) 0 n;
  match e with
  | Returned r => (if r =? -1 then return tt else pt (wakeup (ChanPipeRead pi))) ;;; return r
  | Asleep _ => pt (wakeup (ChanPipeRead pi)) ;;; sleeps "pipewrite"
  end.

Definition piperead (pi addr n : Z) : M kern Z :=
  do '(e, _) <- piperead_run (fun A => @with_pipe pi A) (store_char addr) i_am_killed n;
  match e with
  | Returned r => (if r =? -1 then return tt else pt (wakeup (ChanPipeWrite pi))) ;;; return r
  | Asleep _ => sleeps "piperead"
  end.

(** [struct stat] as it is copied to the user: 24 bytes, 4 of them padding. *)
Definition stat_bytes (st : stat) : list Z :=
  le_bytes 4 (st_dev st) ++ le_bytes 4 (st_ino st) ++ le_bytes 2 (st_type st) ++ le_bytes 2 (st_nlink st) ++
  replicate 4 0 ++ le_bytes 8 (st_size st).

Definition filestat (f addr : Z) : M kern Z :=
  do x <- get_file f;
  match f_type x with
  | FD_INODE | FD_DEVICE =>
      fs (ilock (f_ip x)) ;;;
      do st <- gets (fun s => stati (inode_at (kf s) (f_ip x)));
      fs (iunlock (f_ip x)) ;;;
      do p <- kmyproc;
      do r <- km_ (copyout (p_pagetable p) addr (stat_bytes st));
      if r <? 0 then return (-1) else return 0
  | _ => return (-1)
  end.

Definition fileread (f addr n : Z) : M kern Z :=
  do x <- get_file f;
  if f_readable x =? 0 then return (-1)
  else
    match f_type x with
    | FD_PIPE => piperead (f_pipe x) addr n
    | FD_DEVICE =>
        if (f_major x <? 0) || (f_major x >=? NDEV) then return (-1)
        else match dev_read (f_major x) with None => return (-1) | Some rd => rd addr n end
    | FD_INODE =>
        fs (ilock (f_ip x)) ;;;
        do '(r, _) <- fs (readi (f_ip x) (ToUser addr) (f_off x) (u32 n));
        (if r >? 0 then upd_file f (fun x => set_foff (u32 (f_off x + r)) x) else return tt) ;;;
        fs (iunlock (f_ip x)) ;;;
        return r
    | FD_NONE => panic "fileread"
    end.

(** [((MAXOPBLOCKS-1-1-2) / 2) * BSIZE] *)
Definition max_write : Z := ((MAXOPBLOCKS - 1 - 1 - 2) / 2) * BSIZE.

Fixpoint filewrite_loop (fuel : nat) (f addr i n : Z) : M kern Z :=
  if i <? n then
    match fuel with
    | O => fun _ => Diverge
    | S k =>
        let n1 := Z.min (n - i) max_write in
        fs (zf begin_op) ;;;
        do x <- get_file f;
        fs (ilock (f_ip x)) ;;;
        do r <- fs (writei (f_ip x) (FromUser (u64 (addr + i))) (f_off x) n1);
        (if r >? 0 then upd_file f (fun x => set_foff (u32 (f_off x + r)) x) else return tt) ;;;
        fs (iunlock (f_ip x)) ;;;
        fs (zf end_op) ;;;
        if negb (r =? n1) then return i else filewrite_loop k f addr (i + r) n
    end
  else return i.

Definition filewrite (f addr n : Z) : M kern Z :=
  do x <- get_file f;
  if f_writable x =? 0 then return (-1)
  else
    match f_type x with
    | FD_PIPE => pipewrite (f_pipe x) addr n
    | FD_DEVICE =>
        if (f_major x <? 0) || (f_major x >=? NDEV) then return (-1)
        else match dev_write (f_major x) with None => return (-1) | Some wr => wr addr n end
    | FD_INODE =>
        do i <- filewrite_loop (Z.to_nat (n / max_write + 1)) f addr 0 n;
        return (if i =? n then n else -1)
    | FD_NONE => panic "filewrite"
    end.
End file.

(** ** Rules for the kernel state *)

Lemma wp_fs {A} (m : M fsst A) (Q : A -> kern -> Prop) f S : wp m (fun a f' => Q a (set_kf f' S)) f -> wp (fs m) Q (set_kf f S).
Proof. intros Hw. apply wp_zoom. exact Hw. Qed.
Lemma wp_km {A} (m : M kst A) (Q : A -> kern -> Prop) f S : wp m (fun a k => Q a (set_kf (set_fk k f) S)) (fk f) -> wp (km_ m) Q (set_kf f S).
Proof. intros Hw. apply wp_fs, wp_zoom. exact Hw. Qed.
