(* ===== verification/FileWrite.v ===== *)
(** * Writing an open file: [filewrite] of kernel/file.c down to the disk

    [filewrite] writes in pieces of at most [max_write] bytes, each in a transaction of its
    own.  With no other operation in progress every [end_op] commits, so the bytes are on
    the disk when the call returns, and a crash leaves a beginning of them. *)

From stdpp Require Import base gmap strings fin_sets functions list.
From S2P Require Import Prelude Riscv Mem Spinlock Kalloc Vm VmUser VmCopy VmExamples Sleeplock ProcData Bytes Bio BioSpec Log LogSpec LogOps Fs FsTx FsAlloc FsFile FsGrow FsWrite FsTrunc FsPath FsOp FsDurable Pipe File.

(** ** One transaction *)

(** No operation is in progress, and inode [ip] is in use and unlocked; its copy in memory
    is the one on the disk.  The bitmap is one block, and the log has the space that
    [begin_op] reserves. *)
Record wready (f : fsst) (C : Z -> list Z) (ip : Z) : Prop := {
  wy_tx : tx f C ∅ []; wy_out : outs f = 0; wy_com : l_committing (lg (fl f)) = 0;
  wy_head : get32 (disk_of f (l_start (lg (fl f)))) 0 = 0;
  wy_ref : 0 < i_ref (inode_at f ip); wy_valid : i_valid (inode_at f ip) <> 0; wy_lock : i_lock (inode_at f ip) = initsleeplock;
  wy_geom : geom f; wy_meta : meta_used C (fsb f); wy_wf : inode_wf C (fsb f) (inode_at f ip);
  wy_file : file_ok C (inode_at f ip); wy_typed : inode_typed (inode_at f ip); wy_iblock : iblock_ok f (i_inum (inode_at f ip));
  wy_disk : load_dinode (C (IBLOCK (i_inum (inode_at f ip)) (fsb f))) (dinode_off (i_inum (inode_at f ip))) (inode_at f ip) = inode_at f ip;
  wy_bitmap : sb_size (fsb f) <= BPB; wy_log : MAXOPBLOCKS < l_size (lg (fl f))
}.
(** The state in the transaction, with the inode locked. *)
Definition locked (ip : Z) (f : fsst) : fsst :=
  it_entry (with_out 1 f) ip (set_ilock (sl_held (me (lb (fl f)))) (inode_at f ip)).
(** Nothing changed but buffers, log, disk and inode [ip]. *)
Record wkept (ip : Z) (f f' : fsst) : Prop := {
  wt_layout : same_layout f f'; wt_k : fk f' = fk f; wt_p : fp f' = fp f; wt_me : me (lb (fl f')) = me (lb (fl f));
  wt_it : it_lock (fit f') = it_lock (fit f); wt_inodes : forall j, j <> ip -> inode_at f' j = inode_at f j
}.
#[export] Instance wkept_trans ip : Transitive (wkept ip).
Proof.
  intros f1 f2 f3 [(A1 & A2 & A3) A4 A5 A6 A7 A8] [(B1 & B2 & B3) B4 B5 B6 B7 B8]. split; [by split_and!; etransitivity|congruence..|].
  intros j Hj. by rewrite B8, A8.
Qed.
#[export] Instance wkept_refl ip : Reflexive (wkept ip).
Proof. by intros f. Qed.

(** The first [m] bytes of [data] were written at [off], in a transaction that committed
    with the writes [ws]; a crash leaves all of it or nothing. *)
Record wdone (f : fsst) (C : Z -> list Z) (ip off : Z) (data : list Z) (m : Z) (f' : fsst) (C' : Z -> list Z) (ws : list (Z * list Z)) : Prop := {
  wd_ready : wready f' C' ip;
  wd_kept : wkept ip f f';
  wd_bound : 0 <= m <= Z.of_nat (length data);
  wd_wrote : wrote f C (inode_at f ip) off (take (Z.to_nat m) data) C' (inode_at f' ip);
  wd_short : m < Z.of_nat (length data) -> full C' (fsb f) \/ MAXFILE * BSIZE < off + Z.of_nat (length data);
  wd_disk : dk (lb (fl f')) = {| platter := papply (platter (dk (lb (fl f)))) ws; writes := writes (dk (lb (fl f))) ++ ws |};
  wd_crash : forall (k : nat) (pid : Z), exists r,
    boot_recover (papply (platter (dk (lb (fl f)))) (take k ws)) pid (l_start (lg (fl f))) (l_size (lg (fl f))) = Ok tt r /\
    ((forall y, ~ in_log f y -> disk_read (platter (dk (lb r))) y = C y) \/
     (forall y, ~ in_log f y -> disk_read (platter (dk (lb r))) y = C' y))
}.

Section turn.
Context `{Layout}.
Context (f : fsst) (C : Z -> list Z) (ip off : Z) (data : list Z).
Notation x := (inode_at f ip).
Notation n := (Z.of_nat (length data)).
Notation x1 := (set_ilock (sl_held (me (lb (fl f)))) x).
Context (R : wready f C ip) (Ho : 0 <= off <= i_size x) (Hn : n <= max_write) (Hd : Forall is_byte data).

Lemma locked_at : inode_at (locked ip f) ip = x1.
Proof using. unfold locked. by rewrite it_entry_at. Qed.
(** What [begin_op] reserves is enough. *)
Lemma turn_room : room (locked ip f) [] (write_room (fsb f) x1 [] (nblocks off n) + 1).
Proof using R Ho Hn.
  split; [done|]. cbn [length]. change (l_size (lg (fl (locked ip f)))) with (l_size (lg (fl f))). pose proof (wy_log _ _ _ R) as Hl.
  assert (nblocks off n <= 4) as Hb.
  { change max_write with 3072 in Hn. unfold nblocks. destruct (Z.ltb_spec 0 n); [|lia]. unfold touched.
    pose proof (Z.div_mod off BSIZE ltac:(done)). pose proof (Z.mod_pos_bound off BSIZE ltac:(done)).
    assert ((off + n - 1) / BSIZE <= off / BSIZE + 3); [|lia]. apply Z.lt_succ_r, Z.div_lt_upper_bound; [done|]. unfold BSIZE in *. lia. }
  cut (write_room (fsb f) x1 [] (nblocks off n) <= 6); [unfold MAXOPBLOCKS in Hl; lia|].
  unfold write_room, bm_room. rewrite decide_True by apply R. rewrite decide_False by apply not_elem_of_nil. unfold ind_room. case_decide; lia.
Qed.
Lemma turn_pre : write_pre (locked ip f) C [] x1 off n.
Proof using R Ho Hn.
  pose proof R as []. split; cbn.
  - apply tx_set_fit. by apply tx_with_out.
  - by apply (layout_geom f).
  - done.
  - by apply lock_wf.
  - by apply lock_file.
  - by apply lock_typed.
  - by rewrite (layout_iblock f).
  - apply turn_room.
Qed.

(** [writei]: the state and contents afterwards, before the inode is unlocked. *)
Definition mid_write (r : Z) (f3 : fsst) (C3 : Z -> list Z) (m : Z) : Prop :=
  (exists bs3, tx f3 C3 ∅ bs3) /\ same_but ip (locked ip f) f3 /\ (r = m \/ r = -1 /\ m = 0) /\ 0 <= m <= n /\
  wrote f C x off (take (Z.to_nat m) data) C3 (set_ilock initsleeplock (inode_at f3 ip)) /\
  i_lock (inode_at f3 ip) = sl_held (me (lb (fl f))) /\ 0 < i_ref (inode_at f3 ip) /\
  (m < n -> full C3 (fsb f) \/ MAXFILE * BSIZE < off + n).
Lemma turn_writei from : src_gives f from data ->
  wp (writei ip from off n) (fun r f3 => exists C3 m, mid_write r f3 C3 m) (locked ip f).
Proof using H R Ho Hn Hd.
  intros Hg. pose proof turn_pre as Hpre. pose proof R as [].
  assert (src_gives (locked ip f) from data) as Hg' by (by eapply src_gives_same; [| |exact Hg]).
  pose proof (fo_size _ _ wy_file0) as Hsz.
  destruct (write_bad x1 off n) eqn:Eb.
  - apply (wp_run _ _ _ (-1) (locked ip f)).
    { unfold write_bad in Eb. unfold writei, get_inode. rewrite bind_gets, locked_at. destruct ((off >? i_size x1) || _); [done|]. cbn [orb] in Eb. by rewrite Eb. }
    exists C, 0. split; [by exists []; apply Hpre|]. split; [by apply same_but_same|]. split; [by right|]. split; [lia|]. rewrite locked_at. split_and!; [|done|done|].
    + rewrite take_0. replace (set_ilock initsleeplock x1) with x by (rewrite <- wy_lock0; by destruct x). by apply wrote_nil; try done; lia.
    + intros _. right. unfold write_bad in Eb. cbn [i_size set_ilock] in Eb. rewrite !orb_true_iff, Z.gtb_lt, Z.ltb_lt in Eb.
      change max_write with 3072 in Hn. change (MAXFILE * BSIZE) with 274432 in *. destruct Eb as [[?|Hu]|E]; [lia| |lia]. rewrite u32_small in Hu; lia.
  - pose proof (wp_writei (locked ip f) C [] ip from data off) as Hw. rewrite locked_at in Hw. specialize (Hw Hpre Eb Hg' Hd ltac:(lia)).
    eapply wp_mono; [|exact Hw]. clear Hw. intros r f3 (C3 & bs3 & Hr & I3 & S3 & W3 & Hf3). rewrite locked_at in W3. exists C3, r.
    pose proof (wr_inode _ _ _ _ _ _ _ W3) as E3.
    split; [by exists bs3|]. split; [done|]. split; [by left|]. split; [done|]. split_and!.
    + eapply wrote_lock; [done|]. by eapply layout_wrote; [|exact W3].
    + by rewrite E3.
    + by rewrite E3.
    + intros Hlt. left. by apply Hf3.
Qed.

(** [end_op] after [iunlock]. *)
Definition unlocked_at (f3 : fsst) : fsst := it_entry f3 ip (set_ilock initsleeplock (inode_at f3 ip)).
Lemma wrote_ready f5 C5 m : tx f5 C5 ∅ [] -> outs f5 = 0 -> l_committing (lg (fl f5)) = 0 -> get32 (disk_of f5 (l_start (lg (fl f5)))) 0 = 0 ->
  same_layout f f5 -> wrote f C x off (take (Z.to_nat m) data) C5 (inode_at f5 ip) -> wready f5 C5 ip.
Proof using R Ho.
  intros I5 O5 Cm5 H5 L W. pose proof R as []. pose proof (wr_inode _ _ _ _ _ _ _ W) as E5. set (x5 := inode_at f5 ip) in *.
  pose proof L as (E1 & E2 & E3). destruct W as [W1 W2 W3 W4 W5 W6 W7 W8 W9 W10 W11].
  assert (i_ref x5 = i_ref x /\ i_valid x5 = i_valid x /\ i_lock x5 = i_lock x /\ i_inum x5 = i_inum x) as (X1 & X2 & X3 & X4) by (rewrite E5; done).
  split; fold x5; rewrite ?X1, ?X2, ?X3, ?X4, ?E1, ?E3; try done.
  - by apply (layout_geom f).
  - pose proof (fo_size _ _ W3). destruct wy_typed0. change (MAXFILE * BSIZE) with 274432 in *.
    split; [by rewrite E5..|lia|apply W4|by apply (wf_addrs f wy_geom0 C5)].
  - by rewrite (layout_iblock f).
Qed.

Lemma mid_kept r f3 C3 m : mid_write r f3 C3 m -> wkept ip f (unlocked_at f3) /\ dk (lb (fl f3)) = dk (lb (fl f)) /\
  l_outstanding (lg (fl f3)) = 1 /\ l_committing (lg (fl f3)) = l_committing (lg (fl f)).
Proof using.
  intros (_ & [S3 L3 I3] & _). pose proof S3 as [S1 S2 S4 S5 S6 S7 S8 S9 S10 S11]. cbn in *. split; [|done]. split; cbn; [by split_and!|done..|].
  intros j Hj. unfold unlocked_at. rewrite it_entry_ne, I3 by done. unfold locked. by rewrite it_entry_ne.
Qed.
Lemma turn_commit r f3 C3 m : mid_write r f3 C3 m -> wp (zf end_op) (fun _ f5 => exists C5 ws, wdone f C ip off data m f5 C5 ws) (unlocked_at f3).
Proof using R Ho.
  intros Md. destruct (mid_kept _ _ _ _ Md) as (K4 & D3 & O3 & Cm3). destruct Md as ([bs3 I3] & _ & _ & Hm & W3 & _ & _ & Hf3).
  pose proof R as []. set (f4 := unlocked_at f3) in *. destruct K4 as [L4 K4 P4 M4 T4 N4]. pose proof L4 as (E1 & E2 & E3).
  assert (dk (lb (fl f4)) = dk (lb (fl f))) as D4 by exact D3.
  destruct (end_op_last f4 C3 bs3) as (f5 & C5 & ws & Hend & [Q1 Q2 Q3 Q4 Q5 Q6 Q7 Q8 Q9 Q10 Q11 Q12 Q13 Q14]); [by apply tx_set_fit|etransitivity; [exact Cm3|done]|done|by rewrite D4, E2|].
  rewrite D4 in *. eapply wp_run; [exact Hend|]. exists C5, ws.
  assert (forall y, ~ in_log f y -> C5 y = C3 y) as A by (intros y Hy; apply Q2; by rewrite (layout_log f)).
  assert (inode_at f5 ip = set_ilock initsleeplock (inode_at f3 ip)) as X5 by (unfold inode_at at 1; rewrite Q4; apply it_entry_at).
  assert (wrote f C x off (take (Z.to_nat m) data) C5 (inode_at f5 ip)) as W5 by (rewrite X5; by apply (wrote_agree f wy_geom0 _ _ _ _ C3)).
  assert (same_layout f f5) as L5 by (unfold same_layout in *; by rewrite Q3, Q7, Q8).
  split; try done.
  - eapply wrote_ready; [done|done|done|by rewrite Q7|done|exact W5].
  - split; [done|congruence|congruence|congruence|by rewrite Q4|]. intros j Hj. unfold inode_at at 1. rewrite Q4. by apply N4.
  - intros Hlt. destruct (Hf3 Hlt) as [Hf|?]; [left|by right]. intros b Hb. rewrite (agree_used f wy_geom0 C3) by done. by apply Hf.
  - intros k pid. destruct (Q14 k pid) as (rr & Hr & Hc). rewrite E2, E3 in Hr. exists rr. split; [exact Hr|]. destruct Hc as [Hc|Hc]; [left|right]; intros y Hy.
    + rewrite Hc by (by rewrite (layout_log f)). symmetry. apply wy_tx0, not_elem_of_nil.
    + rewrite Hc by (by rewrite (layout_log f)). by rewrite A.
Qed.
End turn.

(** ** Several transactions *)

(** The first [m] bytes of [data] are on the disk; a crash at any point leaves the first
    [j] of them, for some [j]. *)
Record durable (f : fsst) (C : Z -> list Z) (ip off : Z) (data : list Z) (m : Z) (f' : fsst) (C' : Z -> list Z) (ws : list (Z * list Z)) : Prop := {
  du_ready : wready f' C' ip;
  du_kept : wkept ip f f';
  du_bound : 0 <= m <= Z.of_nat (length data);
  du_wrote : wrote f C (inode_at f ip) off (take (Z.to_nat m) data) C' (inode_at f' ip);
  du_short : m < Z.of_nat (length data) -> full C' (fsb f) \/ MAXFILE * BSIZE < off + Z.of_nat (length data);
  du_disk : dk (lb (fl f')) = {| platter := papply (platter (dk (lb (fl f)))) ws; writes := writes (dk (lb (fl f))) ++ ws |};
  du_crash : forall (k : nat) (pid : Z), exists r j Cj xj,
    boot_recover (papply (platter (dk (lb (fl f)))) (take k ws)) pid (l_start (lg (fl f))) (l_size (lg (fl f))) = Ok tt r /\
    0 <= j <= m /\ wrote f C (inode_at f ip) off (take (Z.to_nat j) data) Cj xj /\
    (forall y, ~ in_log f y -> disk_read (platter (dk (lb r))) y = Cj y)
}.

Section durable.
Context (f : fsst) (C : Z -> list Z) (ip off : Z) (R : wready f C ip) (Ho : 0 <= off <= i_size (inode_at f ip)).
Notation x := (inode_at f ip).

Lemma ready_nil : wrote f C x off [] C x.
Proof using R Ho. destruct R. apply wrote_nil; try done. lia. Qed.
Lemma durable_nil : durable f C ip off [] 0 f C [].
Proof using R Ho.
  pose proof R as []. split; try done; [apply ready_nil|rewrite app_nil_r; by destruct (dk (lb (fl f)))|]. intros k pid.
  destruct (committed_nothing f C wy_tx0 wy_com0 wy_head0) as [_ _ _ _ _ _ _ _ _ _ _ _ _ Hc]. destruct (Hc k pid) as (r & Hr & Hy).
  exists r, 0, C, x. split; [exact Hr|]. split; [lia|]. split; [apply ready_nil|]. intros y Hl.
  assert (C y = disk_of f y) as -> by apply wy_tx0, not_elem_of_nil. destruct Hy as [Hy|Hy]; rewrite Hy by done; [done|]. apply wy_tx0, not_elem_of_nil.
Qed.
Lemma durable_one data m f' C' ws : wdone f C ip off data m f' C' ws -> durable f C ip off data m f' C' ws.
Proof using R Ho.
  intros [D1 D2 D3 D4 D5 D6 D7]. split; [exact D1|exact D2|exact D3|exact D4|exact D5|exact D6|]. intros k pid. destruct (D7 k pid) as (r & Hr & [Hy|Hy]).
  - exists r, 0, C, x. split; [exact Hr|]. split; [lia|]. split; [apply ready_nil|exact Hy].
  - exists r, m, C', (inode_at f' ip). split; [exact Hr|]. split; [lia|]. split; [exact D4|exact Hy].
Qed.
Lemma durable_more a b m f1 C1 ws1 f2 C2 ws2 : wdone f C ip off a (Z.of_nat (length a)) f1 C1 ws1 ->
  durable f1 C1 ip (off + Z.of_nat (length a)) b m f2 C2 ws2 -> durable f C ip off (a ++ b) (Z.of_nat (length a) + m) f2 C2 (ws1 ++ ws2).
Proof using R Ho.
  intros [A1 A2 _ A4 _ A6 A7] [B1 B2 B3 B4 B5 B6 B7]. pose proof (wt_layout _ _ _ A2) as L. pose proof L as (E1 & E2 & E3). rewrite Nat2Z.id, firstn_all in A4.
  assert (forall j Cj xj, 0 <= j -> wrote f1 C1 (inode_at f1 ip) (off + Z.of_nat (length a)) (take (Z.to_nat j) b) Cj xj ->
    wrote f C x off (take (Z.to_nat (Z.of_nat (length a) + j)) (a ++ b)) Cj xj) as Hw.
  { intros j Cj xj Hj Hw. rewrite Z2Nat.inj_add, Nat2Z.id by lia. rewrite take_app_add. destruct R.
    eapply wrote_trans; [done|lia|lia|exact A4|]. by eapply layout_wrote. }
  pose proof A6 as Ep. apply (f_equal platter) in Ep. cbn in Ep.
  split; [done|by etransitivity|rewrite length_app; lia|by apply Hw; [lia|]| | |].
  - rewrite length_app. intros Hlt. destruct B5 as [Hf|?]; [lia|left; by rewrite <- E1|right; lia].
  - rewrite B6, A6. cbn. by rewrite papply_app, app_assoc.
  - intros k pid. rewrite take_app. destruct (Nat.le_gt_cases k (length ws1)) as [Hk|Hk].
    + replace (k - length ws1)%nat with 0%nat by lia. rewrite take_0, app_nil_r. destruct (A7 k pid) as (r & Hr & [Hy|Hy]).
      * exists r, 0, C, x. split; [exact Hr|]. split; [lia|]. split; [apply ready_nil|exact Hy].
      * exists r, (Z.of_nat (length a)), C1, (inode_at f1 ip). split; [exact Hr|]. split; [lia|]. rewrite Nat2Z.id, take_app_length. split; [exact A4|exact Hy].
    + rewrite (take_ge ws1), papply_app, <- Ep by lia. destruct (B7 (k - length ws1)%nat pid) as (r & j & Cj & xj & Hr & Hj & Hc & Hy).
      rewrite E2, E3 in Hr. exists r, (Z.of_nat (length a) + j), Cj, xj. split; [exact Hr|]. split; [lia|]. split; [by apply Hw; [lia|]|].
      intros y Hl. apply Hy. by rewrite (layout_log f).
Qed.
End durable.

(** ** The loop *)

(** The state with another offset of file [ff]. *)
Definition with_off (ff o : Z) (s : kern) : kern :=
  set_kft (mkFtable (ft_lock (kft s)) (<[ff := set_foff o (file_at s ff)]> (ft_file (kft s)))) s.
Lemma with_off_at ff o s : file_at (with_off ff o s) ff = set_foff o (file_at s ff).
Proof. unfold with_off, file_at at 1. cbn. by rewrite lookup_total_insert_eq. Qed.
Lemma with_off_twice ff o o' s : with_off ff o' (with_off ff o s) = with_off ff o' s.
Proof. unfold with_off at 1. rewrite with_off_at. unfold with_off, set_kft. cbn. by rewrite insert_insert_eq. Qed.
Lemma with_off_same ff s : f_type (file_at s ff) <> FD_NONE -> with_off ff (f_off (file_at s ff)) s = s.
Proof.
  intros Ht. unfold with_off. replace (set_foff _ _) with (file_at s ff) by (by destruct (file_at s ff)).
  unfold file_at in *. rewrite lookup_total_alt in *. destruct (ft_file (kft s) !! ff) as [y|] eqn:E; [|done]. cbn. rewrite insert_id by done. by destruct s as [? []].
Qed.

Lemma src_gives_take s from data k : src_gives s from data -> src_gives s from (take k data).
Proof.
  intros [H0 Hg]. split; [done|]. intros a m Ha Hm Hl. rewrite length_take in Hl. rewrite Hg by lia. do 2 f_equal.
  rewrite skipn_firstn_comm, take_take. f_equal. lia.
Qed.

Section loop.
Context `{Layout} `{Devsw}.
Context (ff ip : Z).

(** One turn. *)
Lemma filewrite_turn (addr i n off : Z) (S : kern) (f : fsst) (C : Z -> list Z) (data : list Z) (fuel : nat) (Q : Z -> kern -> Prop) :
  let n1 := Z.of_nat (length data) in
  i < n -> n1 = Z.min (n - i) max_write ->
  f_type (file_at S ff) = FD_INODE -> f_ip (file_at S ff) = ip -> f_off (file_at S ff) = off ->
  wready f C ip -> 0 <= off <= i_size (inode_at f ip) -> Forall is_byte data -> src_gives f (FromUser (u64 (addr + i))) data ->
  (forall m r f5 C5 ws, wdone f C ip off data m f5 C5 ws -> r = m \/ r = -1 /\ m = 0 ->
    wp (if negb (r =? n1) then return i else filewrite_loop fuel ff addr (i + r) n) Q (set_kf f5 (with_off ff (off + m) S))) ->
  wp (filewrite_loop (Datatypes.S fuel) ff addr i n) Q (set_kf f S).
Proof using H.
  intros n1 Hi En Ht Eip Eo R Ho Hb Hg HQ. cbn [filewrite_loop]. destruct (Z.ltb_spec i n); [|lia]. cbn zeta. rewrite <- En. pose proof R as [].
  apply wp_bind, wp_fs. eapply wp_begin_op; [done|done|rewrite wy_out0; done|]. rewrite wy_out0.
  apply wp_bind, wp_gets. change (file_at _ ff) with (file_at S ff). rewrite Eip, Eo.
  apply wp_bind, wp_fs, wp_ilock_valid; [done|done|done|]. change (it_entry _ ip _) with (locked ip f).
  apply wp_bind, wp_fs. eapply wp_mono; [|apply turn_writei; [done|done|unfold n1 in *; lia|done|exact Hg]]. intros r f3 (C3 & m & Md).
  pose proof Md as (_ & _ & Hr & Hm & W3 & Hl3 & Hr3 & _). destruct (mid_kept _ _ _ _ _ _ _ _ _ Md) as (K3 & _).
  apply wp_bind. apply (wp_run _ _ _ tt (set_kf f3 (with_off ff (off + m) S))).
  { destruct (Z.gtb_spec r 0) as [Hp|Hp].
    - destruct Hr as [<-|[-> _]]; [|lia]. pose proof (fo_size _ _ (wr_file _ _ _ _ _ _ _ W3)) as Hsz. rewrite (wr_inode _ _ _ _ _ _ _ W3) in Hsz.
      cbn [i_size with_addrs set_isize] in Hsz. rewrite length_take in Hsz. change (MAXFILE * BSIZE) with 274432 in Hsz.
      unfold upd_file, modify, with_off. change (file_at (set_kf f3 S) ff) with (file_at S ff). rewrite Eo, u32_small by lia. done.
    - assert (m = 0) as -> by (destruct Hr as [->|[_ ->]]; lia). rewrite Z.add_0_r, <- Eo, with_off_same by (by rewrite Ht). done. }
  apply wp_bind, wp_fs, wp_iunlock_held; [done|rewrite Hl3; f_equal; symmetry; apply (wt_me _ _ _ K3)|]. change (it_entry f3 ip _) with (unlocked_at ip f3).
  apply wp_bind, wp_fs. eapply wp_mono; [|by eapply turn_commit]. intros [] f5 (C5 & ws & D). by eapply HQ.
Qed.

Definition loop_result (S : kern) (f : fsst) (C : Z -> list Z) (data : list Z) (i n : Z) (r : Z) (s' : kern) : Prop :=
  let off := f_off (file_at S ff) in
  exists m f' C' ws, s' = set_kf f' (with_off ff (off + m) S) /\ durable f C ip off data m f' C' ws /\
    (r = n /\ m = Z.of_nat (length data) \/ i <= r < n /\ m < Z.of_nat (length data)).
Lemma filewrite_loop_run fuel : forall (addr i n : Z) (S : kern) (f : fsst) (C : Z -> list Z) (data : list Z),
  Z.of_nat (length data) = n - i -> n - i <= Z.of_nat fuel * max_write ->
  f_type (file_at S ff) = FD_INODE -> f_ip (file_at S ff) = ip ->
  wready f C ip -> 0 <= f_off (file_at S ff) <= i_size (inode_at f ip) -> Forall is_byte data -> src_gives f (FromUser (u64 (addr + i))) data ->
  wp (filewrite_loop fuel ff addr i n) (loop_result S f C data i n) (set_kf f S).
Proof using H.
  induction fuel as [|fuel IH]; intros addr i n S f C data Hl Hf Ht Eip R Ho Hb Hg; (destruct (Z.ltb_spec i n) as [Hi|Hi]; [|]).
  1: { cbn in Hf. lia. }
  1, 3: cbn [filewrite_loop]; rewrite (proj2 (Z.ltb_ge i n)) by lia; apply wp_ret; destruct data as [|c data]; cbn [length] in Hl; [|lia];
    exists 0, f, C, []; rewrite Z.add_0_r, with_off_same by (by rewrite Ht); split; [done|]; split; [by apply durable_nil|left; cbn [length]; lia].
  set (off := f_off (file_at S ff)) in *. set (n1 := Z.min (n - i) max_write). change max_write with 3072 in *.
  assert (0 < n1 <= 3072) as Hn1 by lia.
  assert (Z.of_nat (length (take (Z.to_nat n1) data)) = n1) as L1 by (rewrite length_take; unfold n1; lia).
  apply (filewrite_turn addr i n off S f C (take (Z.to_nat n1) data)); try done; [by apply Forall_take|by apply src_gives_take|].
  intros m r f1 C1 ws1 D Hr. rewrite L1. pose proof (wd_bound _ _ _ _ _ _ _ _ _ D) as Hm. rewrite L1 in Hm.
  destruct (Z.eqb_spec r n1) as [->|Hne]; cbn [negb].
  - assert (m = n1) as -> by lia. clear Hr. pose proof (wd_kept _ _ _ _ _ _ _ _ _ D) as K. pose proof (wd_wrote _ _ _ _ _ _ _ _ _ D) as W.
    eapply wp_mono; [|apply (IH addr (i + n1) n (with_off ff (off + n1) S) f1 C1 (drop (Z.to_nat n1) data)); rewrite ?with_off_at; cbn [set_foff f_type f_ip f_off]; try done].
    + intros r s' (m & f2 & C2 & ws2 & -> & D2 & Hres). rewrite with_off_at in *. cbn [set_foff f_off] in *. rewrite length_drop in Hres.
      exists (n1 + m), f2, C2, (ws1 ++ ws2). rewrite with_off_twice, Z.add_assoc. split; [done|]. split; [|lia].
      pose proof (durable_more f C ip off R Ho (take (Z.to_nat n1) data) (drop (Z.to_nat n1) data) m f1 C1 ws1 f2 C2 ws2) as Hd.
      rewrite L1, take_drop in Hd. by apply Hd.
    + rewrite length_drop. lia.
    + lia.
    + by apply D.
    + rewrite (wr_inode _ _ _ _ _ _ _ W). cbn [i_size with_addrs set_isize]. rewrite length_take. lia.
    + by apply Forall_drop.
    + apply (src_gives_same f); [apply K|apply K|]. pose proof (src_gives_add f (FromUser (u64 (addr + i))) data n1 ltac:(lia) Hg) as Hg'. cbn [src_add] in Hg'.
      replace (u64 (u64 (addr + i) + n1)) with (u64 (addr + (i + n1))) in Hg'; [done|]. unfold u64. rewrite Zplus_mod_idemp_l. f_equal. lia.
  - apply wp_ret. exists m, f1, C1, ws1. split; [done|]. assert (m < n1) as Hlt by lia. split; [|lia].
    destruct (durable_one f C ip off R Ho _ _ _ _ _ D) as [E1 E2 E3 E4 E5 E6 E7]. rewrite L1, take_take in *.
    split; [exact E1|exact E2|lia| | |exact E6|].
    + replace (Z.to_nat m) with (Z.to_nat m `min` Z.to_nat n1)%nat by lia. done.
    + intros _. destruct (E5 Hlt) as [?|?]; [by left|right; lia].
    + intros k pid. destruct (E7 k pid) as (rr & j & Cj & xj & Hr1 & Hj & Hw & Hy). exists rr, j, Cj, xj. rewrite take_take in Hw.
      replace (Z.to_nat j `min` Z.to_nat n1)%nat with (Z.to_nat j) in Hw by lia. split; [exact Hr1|]. split; [exact Hj|]. split; [exact Hw|exact Hy].
Qed.
End loop.

(** C9: [write] to a file, from the memory of the process to the disk, when no other
    operation is in progress.  It ends.  If it returns [n], all bytes are in the file at the
    offset of the open file, on the disk and in the inode, and the offset is moved past
    them; if it returns -1, only the first [m] bytes are, because every block of the disk is
    in use or the file would be too long.  A crash at any moment leaves, after recovery, a
    file system in which the first [j] bytes are written, for some [j] up to [m], and all
    other files are as before; user memory and processes are not touched. *)
Theorem filewrite_durable `{Layout} `{Devsw} (s : kern) (C : Z -> list Z) (ff addr : Z) (data : list Z) (T : gmap Z nat) (l P : list Z) :
  let ip := f_ip (file_at s ff) in let off := f_off (file_at s ff) in let n := Z.of_nat (length data) in
  let root := p_pagetable (myproc (kf s)) in
  f_writable (file_at s ff) <> 0 -> f_type (file_at s ff) = FD_INODE ->
  wready (kf s) C ip -> 0 <= off <= i_size (inode_at (kf s) ip) -> Forall is_byte data ->
  uspace (fk (kf s)) T l root P -> 0 <= addr -> addr + n < 2 ^ 64 ->
  VmCopy.read_bytes (user_byte (fk (kf s)) root) addr (length data) = Some data ->
  exists r m f' C' ws, filewrite ff addr n s = Ok r (set_kf f' (with_off ff (off + m) s)) /\
    durable (kf s) C ip off data m f' C' ws /\ (r = n /\ m = n \/ r = -1 /\ m < n).
Proof.
  intros ip off n root Hw Ht R Ho Hb U Ha Hmax Hr. pose proof (src_gives_user (kf s) T l P addr data U Ha Hmax Hr) as Hg.
  pose proof (filewrite_loop_run ff ip (Z.to_nat (n / max_write + 1)) addr 0 n s (kf s) C data) as Hl.
  replace (u64 (addr + 0)) with addr in Hl by (rewrite Z.add_0_r; symmetry; apply u64_small; lia).
  assert (n - 0 <= Z.of_nat (Z.to_nat (n / max_write + 1)) * max_write) as Hfuel.
  { change max_write with 3072. pose proof (Z.div_pos n 3072 ltac:(lia) ltac:(done)). pose proof (Z.div_mod n 3072 ltac:(done)). pose proof (Z.mod_pos_bound n 3072 ltac:(done)). lia. }
  destruct (wp_Ok _ _ _ (Hl ltac:(unfold n; lia) Hfuel Ht eq_refl R Ho Hb Hg)) as (r & s' & E & m & f' & C' & ws & -> & D & Hres).
  exists (if r =? n then n else -1), m, f', C', ws. split; [|split; [exact D|]].
  - unfold filewrite, get_file. rewrite bind_gets. destruct (Z.eqb_spec (f_writable (file_at s ff)) 0); [done|]. rewrite Ht.
    replace (set_kf (kf s) s) with s in E by (by destruct s). by rewrite (bind_Ok _ _ _ _ _ E).
  - fold n in Hres. destruct (Z.eqb_spec r n); lia.
Qed.

(** ** Example: six bytes of a process, at the start of an empty file *)

#[local] Existing Instance ex_layout.
#[local] Instance no_devices : Devsw := {| dev_read _ := None; dev_write _ := None |}.
(** The disk has inode 5. *)
Definition ex_inodes : gmap Z (list Z) := {[32 := store_dinode (dinode_off 5) (ex_new T_FILE) zero_block]}.
Definition ex_writer : ptable :=
  mkPtable {[0 := mkProc initlock RUNNING None 0 0 1 None 0 PGSIZE (pg 1) 0 context0 (replicate (Z.to_nat NOFILE) None) None []]} 0.
Definition ex_kern (f : fsst) : kern :=
  mkKern f (mkFtable initlock {[0 := mkFile FD_INODE 1 1 1 0 0 0 0]}) ∅ 2 initlock initlock None 0 initlock.
Definition ex_filewrite : option Z :=
  match begin_boot (ex_platter ex_inodes) 1 ex_sb (ex_files T_FILE) ex ex_writer with
  | Ok _ s => match filewrite 0 4090 6 (ex_kern (with_out 0 s)) with Ok r _ => Some r | _ => None end
  | _ => None
  end.
Lemma ex_filewrite_6 : ex_filewrite = Some 6.
Proof. vm_compute. reflexivity. Qed.
Lemma ex_inodes_bytes y d : ex_inodes !! y = Some d -> bytes_ok BSIZE d.
Proof. unfold ex_inodes. intros [<- <-]%lookup_singleton_Some. apply bytes_check; vm_compute; reflexivity. Qed.
Lemma ex_wready : exists s C, begin_boot (ex_platter ex_inodes) 1 ex_sb (ex_files T_FILE) ex ex_writer = Ok tt s /\
  fk s = ex /\ fp s = ex_writer /\ inode_at s 0 = ex_new T_FILE /\ wready (with_out 0 s) C 0.
Proof.
  destruct (ex_tx ex_inodes (ex_files T_FILE) ex ex_writer eq_refl ex_inodes_bytes) as (s & C & Hs & I & G & MU & Hr & Esb & Et & Ek & Ep & HC).
  destruct (ex_log ex_inodes (ex_files T_FILE) ex ex_writer s eq_refl ex_inodes_bytes Hs) as (El & Ez & _ & Ec).
  assert (inode_at s 0 = ex_new T_FILE) as Ex by (unfold inode_at; rewrite Et; reflexivity).
  destruct (ex_new_ok C ex_sb T_FILE) as (W & F & Ty); [vm_compute; split; [intros [=]|reflexivity]|].
  exists s, C. split; [exact Hs|]. split; [exact Ek|]. split; [exact Ep|]. split; [exact Ex|].
  assert (inode_at (with_out 0 s) 0 = ex_new T_FILE) as Ex' by exact Ex. split; rewrite ?Ex'; cbn [fsb with_out set_fl fl lg lb set_outstanding l_start l_size l_committing].
  - by apply tx_with_out.
  - reflexivity.
  - exact Ec.
  - rewrite El. rewrite <- (tx_clean _ _ _ _ I 2 (not_elem_of_nil 2)), HC. vm_compute. reflexivity.
  - reflexivity.
  - intros [=].
  - reflexivity.
  - apply (layout_geom s); [repeat split|exact G].
  - exact MU.
  - rewrite Esb. exact W.
  - exact F.
  - exact Ty.
  - unfold iblock_ok. cbn [fsb with_out set_fl fl lg lb set_outstanding l_start l_size]. rewrite El, Ez, Esb. vm_compute. repeat split; intros [=].
  - rewrite HC, Esb. vm_compute. reflexivity.
  - rewrite Esb. vm_compute. intros [=].
  - rewrite Ez. reflexivity.
Qed.
Lemma filewrite_durable_witness : exists s C f' C' ws, filewrite 0 4090 6 (ex_kern s) = Ok 6 (set_kf f' (with_off 0 6 (ex_kern s))) /\
  durable s C 0 0 [0; 0; 0; 0; 0; 0] 6 f' C' ws.
Proof.
  destruct ex_wready as (s0 & C & Hs & Ek & Ep & Ex & R). exists (with_out 0 s0), C. set (s := with_out 0 s0) in *.
  destruct (filewrite_durable (ex_kern s) C 0 4090 [0; 0; 0; 0; 0; 0] exT [pg 5; pg 6] [pg 4]) as (r & m & f' & C' & ws & E & D & Hr).
  - intros [=].
  - reflexivity.
  - exact R.
  - change (inode_at (kf (ex_kern s)) _) with (inode_at s0 0). rewrite Ex. vm_compute. split; intros [=].
  - repeat constructor; lia.
  - change (fk (kf (ex_kern s))) with (fk s0). change (myproc (kf (ex_kern s))) with (proc_at (fp s0) (cur (fp s0))). rewrite Ek, Ep. exact ex_uspace.
  - lia.
  - reflexivity.
  - change (fk (kf (ex_kern s))) with (fk s0). change (myproc (kf (ex_kern s))) with (proc_at (fp s0) (cur (fp s0))). rewrite Ek, Ep. exact ex_zeros.
  - assert (r = 6) as ->.
    { pose proof ex_filewrite_6 as He. unfold ex_filewrite in He. rewrite Hs in He. change (with_out 0 s0) with s in He. change 6 with (Z.of_nat (length [0; 0; 0; 0; 0; 0])) in He at 1.
      rewrite E in He. injection He as ->. reflexivity. }
    destruct Hr as [[_ ->]|[Hr _]]; [|discriminate Hr]. exists f', C', ws. split; [exact E|exact D].
Defined.
