(* ===== verification/Proc.v ===== *)
(** * Processes: [kernel/proc.c]

    Creation and destruction of processes, growth, [exit] and [wait], over the
    state of the system calls.  A call that has to sleep has the outcome [Sleep];
    [sleep], [sched] and the scheduler are in Sched.v. *)

From stdpp Require Import base list gmap strings.
From S2P Require Import Prelude Riscv Mem Spinlock Kalloc Vm Sleeplock ProcData Bytes Bio Log Fs Pipe File.

(** The address of [forkret], set by the linker. *)
Class Forkret := { forkret_addr : Z }.

Definition pid_spin : M spinlock unit -> M kern unit :=
  zoom k_pid_lock (fun lk s => mkKern (kf s) (kft s) (kpipes s) (k_nextpid s) lk (k_wait_lock s) (k_initproc s) (k_ticks s) (k_tickslock s)).
Definition wait_spin : M spinlock unit -> M kern unit :=
  zoom k_wait_lock (fun lk s => mkKern (kf s) (kft s) (kpipes s) (k_nextpid s) (k_pid_lock s) lk (k_initproc s) (k_ticks s) (k_tickslock s)).
Definition set_nextpid (v : Z) (s : kern) : kern :=
  mkKern (kf s) (kft s) (kpipes s) v (k_pid_lock s) (k_wait_lock s) (k_initproc s) (k_ticks s) (k_tickslock s).
Definition set_initproc (v : option Z) (s : kern) : kern :=
  mkKern (kf s) (kft s) (kpipes s) (k_nextpid s) (k_pid_lock s) (k_wait_lock s) v (k_ticks s) (k_tickslock s).

Definition procinit : M kern unit :=
  pid_spin (fun _ => Ok tt initlock) ;;;
  wait_spin (fun _ => Ok tt initlock) ;;;
  pt (for_range (Z.to_nat NPROC) 0 (fun p =>
    upd_p p (set_plock initlock) ;;;
    upd_p p (set_state UNUSED) ;;;
    upd_p p (set_kstack (KSTACK p)))).

Definition allocpid : M kern Z :=
  pid_spin lk_acquire ;;;
  do pid <- gets k_nextpid;
  modify (set_nextpid (s32 (pid + 1))) ;;;
  pid_spin lk_release ;;;
  return pid.

Section proc.
Context `{Layout} `{Devsw} `{Forkret}.

(** [proc_pagetable(p)] for a process whose trapframe page is [trapframe]. *)
Definition proc_pagetable (trapframe : Z) : M kst Z :=
  do pagetable <- uvmcreate;
  if pagetable =? 0 then return 0
  else
    do r <- mappages pagetable TRAMPOLINE PGSIZE trampoline (Z.lor PTE_R PTE_X);
    if r <? 0 then uvmfree pagetable 0 ;;; return 0
    else
      do r <- mappages pagetable TRAPFRAME PGSIZE trapframe (Z.lor PTE_R PTE_W);
      if r <? 0 then
        uvmunmap pagetable TRAMPOLINE 1 false ;;;
        uvmfree pagetable 0 ;;;
        return 0
      else return pagetable.

Definition proc_freepagetable (pagetable sz : Z) : M kst unit :=
  uvmunmap pagetable TRAMPOLINE 1 false ;;;
  uvmunmap pagetable TRAPFRAME 1 false ;;;
  uvmfree pagetable sz.

Definition freeproc (p : Z) : M kern unit :=
  do x <- pt (get_p p);
  (if negb (p_trapframe x =? 0) then km_ (kfree (p_trapframe x)) else return tt) ;;;
  pt (upd_p p (set_trapframe 0)) ;;;
  (if negb (p_pagetable x =? 0) then km_ (proc_freepagetable (p_pagetable x) (p_sz x)) else return tt) ;;;
  pt (upd_p p (fun x => set_state UNUSED (set_xstate 0 (set_killed 0 (set_chan None
        (set_name (<[0%nat := 0]> (p_name x)) (set_parent None (set_pid 0 (set_sz 0 (set_pagetable 0 x)))))))))).

(** The search of [allocproc]; the process found is returned with its lock held. *)
Fixpoint allocproc_find (fuel : nat) (p : Z) : M ptable (option Z) :=
  match fuel with
  | O => return None
  | S f =>
      p_spin p lk_acquire ;;;
      do x <- get_p p;
      if bool_decide (p_state x = UNUSED) then return (Some p)
      else p_spin p lk_release ;;; allocproc_find f (p + 1)
  end.

Definition allocproc : M kern (option Z) :=
  do r <- pt (allocproc_find (Z.to_nat NPROC) 0);
  match r with
  | None => return None
  | Some p =>
      do pid <- allocpid;
      pt (upd_p p (set_pid pid)) ;;;
      pt (upd_p p (set_state USED)) ;;;
      do tf <- km_ kalloc;
      pt (upd_p p (set_trapframe tf)) ;;;
      if tf =? 0 then
        freeproc p ;;; pt (p_spin p lk_release) ;;; return None
      else
        do pagetable <- km_ (proc_pagetable tf);
        pt (upd_p p (set_pagetable pagetable)) ;;;
        if pagetable =? 0 then
          freeproc p ;;; pt (p_spin p lk_release) ;;; return None
        else
          do x <- pt (get_p p);
          pt (upd_p p (set_context (mkContext forkret_addr (p_kstack x + PGSIZE) (replicate 12 0)))) ;;;
          return (Some p)
  end.

(** The program [initcode]. *)
Definition initcode : list Z :=
  [0x17; 0x05; 0x00; 0x00; 0x13; 0x05; 0x45; 0x02;
   0x97; 0x05; 0x00; 0x00; 0x93; 0x85; 0x35; 0x02;
   0x93; 0x08; 0x70; 0x00; 0x73; 0x00; 0x00; 0x00;
   0x93; 0x08; 0x20; 0x00; 0x73; 0x00; 0x00; 0x00;
   0xef; 0xf0; 0x9f; 0xff; 0x2f; 0x69; 0x6e; 0x69;
   0x74; 0x00; 0x00; 0x24; 0x00; 0x00; 0x00; 0x00;
   0x00; 0x00; 0x00; 0x00].
Definition initcode_name : list Z := [105; 110; 105; 116; 99; 111; 100; 101; 0].

(** A field of the trapframe page at [tf]. *)
Definition tf_load (tf off : Z) : M kern Z := km_ (load64 (tf + off)).
Definition tf_store (tf off v : Z) : M kern unit := km_ (store64 (tf + off) v).

(** [userinit]; the results of [allocproc] and [uvmfirst] are not checked. *)
Definition userinit : M kern unit :=
  do r <- allocproc;
  modify (set_initproc r) ;;;
  match r with
  | None => fun _ => Diverge
  | Some p =>
      do x <- pt (get_p p);
      km_ (uvmfirst (p_pagetable x) initcode) ;;;
      pt (upd_p p (set_sz PGSIZE)) ;;;
      tf_store (p_trapframe x) TF_epc 0 ;;;
      tf_store (p_trapframe x) TF_sp PGSIZE ;;;
      pt (upd_p p (fun x => set_name (safestrcpy (p_name x) initcode_name 16) x)) ;;;
      do ip <- fs (namei [SLASH]);
      pt (upd_p p (set_cwd ip)) ;;;
      pt (upd_p p (set_state RUNNABLE)) ;;;
      pt (p_spin p lk_release)
  end.

Definition growproc (n : Z) : M kern Z :=
  do p <- kmyproc;
  do me <- gets (fun s => cur (fp (kf s)));
  if n >? 0 then
    do sz <- km_ (uvmalloc (p_pagetable p) (p_sz p) (u64 (p_sz p + n)) PTE_W);
    if sz =? 0 then return (-1) else pt (upd_p me (set_sz sz)) ;;; return 0
  else if n <? 0 then
    do sz <- km_ (uvmdealloc (p_pagetable p) (p_sz p) (u64 (p_sz p + n)));
    pt (upd_p me (set_sz sz)) ;;; return 0
  else pt (upd_p me (set_sz (p_sz p))) ;;; return 0.

(** [for(i = 0; i < NOFILE; i++) if(p->ofile[i]) np->ofile[i] = filedup(p->ofile[i])] *)
Definition dup_files (p : proc) (np : Z) : M kern unit :=
  for_range (Z.to_nat NOFILE) 0 (fun i =>
    match p_ofile p !! Z.to_nat i with
    | Some (Some f) => do f <- filedup f; pt (upd_p np (set_ofile i (Some f)))
    | _ => return tt
    end).

Definition fork : M kern Z :=
  do p <- kmyproc;
  do me <- gets (fun s => cur (fp (kf s)));
  do r <- allocproc;
  match r with
  | None => return (-1)
  | Some np =>
      do x <- pt (get_p np);
      do r <- km_ (uvmcopy (p_pagetable p) (p_pagetable x) (p_sz p));
      if r <? 0 then
        freeproc np ;;; pt (p_spin np lk_release) ;;; return (-1)
      else
        pt (upd_p np (set_sz (p_sz p))) ;;;
        km_ (mem_move (p_trapframe x) (p_trapframe p) sizeof_trapframe) ;;;
        tf_store (p_trapframe x) (TF_a 0) 0 ;;;
        dup_files p np ;;;
        do cwd <- fs (idup (default 0 (p_cwd p)));
        pt (upd_p np (set_cwd (Some cwd))) ;;;
        pt (upd_p np (fun x => set_name (safestrcpy (p_name x) (p_name p) 16) x)) ;;;
        do x <- pt (get_p np);
        pt (p_spin np lk_release) ;;;
        wait_spin lk_acquire ;;;
        pt (upd_p np (set_parent (Some me))) ;;;
        wait_spin lk_release ;;;
        pt (p_spin np lk_acquire) ;;;
        pt (upd_p np (set_state RUNNABLE)) ;;;
        pt (p_spin np lk_release) ;;;
        return (p_pid x)
  end.

(** Close the files of process [p]. *)
Definition close_files (p : Z) : M kern unit :=
  for_range (Z.to_nat NOFILE) 0 (fun fd =>
    do x <- pt (get_p p);
    match p_ofile x !! Z.to_nat fd with
    | Some (Some f) => fileclose f ;;; pt (upd_p p (set_ofile fd None))
    | _ => return tt
    end).

(** [exit] up to the call of [sched], with [p->lock] held. *)
Definition exit (status : Z) : M kern unit :=
  do me <- gets (fun s => cur (fp (kf s)));
  do ini <- gets k_initproc;
  if bool_decide (ini = Some me) then panic "init exiting"
  else
    close_files me ;;;
    do p <- kmyproc;
    fs (zf begin_op) ;;; fs (iput (default 0 (p_cwd p))) ;;; fs (zf end_op) ;;;
    pt (upd_p me (set_cwd None)) ;;;
    wait_spin lk_acquire ;;;
    pt (reparent me (default 0 ini)) ;;;
    (match p_parent p with Some pa => pt (wakeup (ChanProc pa)) | None => return tt end) ;;;
    pt (p_spin me lk_acquire) ;;;
    pt (upd_p me (set_xstate status)) ;;;
    pt (upd_p me (set_state ZOMBIE)) ;;;
    wait_spin lk_release.

(** The scan of [wait] from [pp] on: [inl r] if it returns [r], [inr havekids]. *)
Fixpoint wait_scan (fuel : nat) (pp me addr : Z) (havekids : bool) : M kern (Z + bool) :=
  match fuel with
  | O => return (inr havekids)
  | S f =>
      do x <- pt (get_p pp);
      if bool_decide (p_parent x = Some me) then
        pt (p_spin pp lk_acquire) ;;;
        do x <- pt (get_p pp);
        if bool_decide (p_state x = ZOMBIE) then
          do p <- kmyproc;
          do r <- (if negb (addr =? 0) then km_ (copyout (p_pagetable p) addr (le_bytes 4 (p_xstate x))) else return 0);
          if r <? 0 then
            pt (p_spin pp lk_release) ;;; wait_spin lk_release ;;; return (inl (-1))
          else
            freeproc pp ;;;
            pt (p_spin pp lk_release) ;;; wait_spin lk_release ;;; return (inl (p_pid x))
        else pt (p_spin pp lk_release) ;;; wait_scan f (pp + 1) me addr true
      else wait_scan f (pp + 1) me addr havekids
  end.

(** [wait(addr)]; it sleeps when there are children and none is a zombie. *)
Definition wait (addr : Z) : M kern Z :=
  do me <- gets (fun s => cur (fp (kf s)));
  wait_spin lk_acquire ;;;
  do r <- wait_scan (Z.to_nat NPROC) 0 me addr false;
  match r with
  | inl r => return r
  | inr havekids =>
      do kl <- i_am_killed;
      if negb havekids || (kl : bool) then wait_spin lk_release ;;; return (-1)
      else sleeps "wait"
  end.
End proc.
