(* ===== verification/ProcSpec.v ===== *)
(** * The process table: [kill], [allocproc] and [wakeup]

    What these functions of proc.c do to the table, and the effect of killing
    process number 0. *)

From stdpp Require Import base list gmap strings.
From S2P Require Import Prelude Riscv Mem Spinlock Kalloc Vm Sleeplock ProcData Bytes Bio Log Fs Pipe File Proc.

(** All locks of the table are free. *)
Definition unlocked (t : ptable) : Prop := forall i, 0 <= i < NPROC -> p_lock (proc_at t i) = initlock.
(** [t'] is [t] with entry [q] replaced by [x]. *)
Definition one_changed (t t' : ptable) (q : Z) (x : proc) : Prop :=
  cur t' = cur t /\ forall i, proc_at t' i = if decide (i = q) then x else proc_at t i.

Lemma proc_at_upd t p x c i : proc_at (mkPtable (<[p := x]> (procs t)) c) i = if decide (i = p) then x else proc_at t i.
Proof.
  unfold proc_at. cbn. destruct (decide (i = p)) as [->|]; [by rewrite lookup_total_insert_eq|by rewrite lookup_total_insert_ne].
Qed.
Lemma set_plock_id x : p_lock x = initlock -> set_plock initlock x = x.
Proof. intros E. destruct x. cbn in *. by subst. Qed.

(** Taking a free lock, doing [f] under it and releasing it. *)
Lemma locked_visit t p : p_lock (proc_at t p) = initlock ->
  exists t1, p_spin p lk_acquire t = Ok tt t1 /\ proc_at t1 p = set_plock held_lock (proc_at t p) /\ one_changed t t1 p (set_plock held_lock (proc_at t p)).
Proof.
  intros E. eexists. split; [unfold p_spin, zoom; rewrite E; reflexivity|]. rewrite proc_at_upd, decide_True by done.
  split; [done|]. split; [done|]. intros i. apply proc_at_upd.
Qed.
Lemma unlock_run t p : p_lock (proc_at t p) = held_lock ->
  exists t1, p_spin p lk_release t = Ok tt t1 /\ one_changed t t1 p (set_plock initlock (proc_at t p)).
Proof.
  intros E. eexists. split; [unfold p_spin, zoom; rewrite E; reflexivity|]. split; [done|]. intros i. apply proc_at_upd.
Qed.

(** The process that [kill] hits. *)
Definition kill_effect (x : proc) : proc :=
  let x := set_killed 1 x in if bool_decide (p_state x = SLEEPING) then set_state RUNNABLE x else x.

Lemma kill_effect_lock x : p_lock x = initlock -> set_plock initlock (set_plock held_lock (kill_effect x)) = kill_effect x.
Proof. intros E. unfold kill_effect. destruct x. cbn in *. subst. by destruct (bool_decide _). Qed.

Definition same_table (t t' : ptable) : Prop := cur t' = cur t /\ forall i, proc_at t' i = proc_at t i.

Lemma kill_loop_spec fuel p pid t : unlocked t -> 0 <= p -> p + Z.of_nat fuel <= NPROC ->
  exists r t', kill_loop fuel p pid t = Ok r t' /\
    ((r = 0 /\ exists q, p <= q < p + Z.of_nat fuel /\ p_pid (proc_at t q) = pid /\
        (forall j, p <= j < q -> p_pid (proc_at t j) <> pid) /\ one_changed t t' q (kill_effect (proc_at t q))) \/
     (r = -1 /\ (forall j, p <= j < p + Z.of_nat fuel -> p_pid (proc_at t j) <> pid) /\ same_table t t')).
Proof.
  revert p t. induction fuel as [|f IH]; intros p t U Hp Hf; cbn [kill_loop].
  { exists (-1), t. split; [done|]. right. split; [done|]. split; [lia|done]. }
  destruct (locked_visit t p (U p ltac:(lia))) as (t1 & H1 & E1 & C1 & P1). rewrite (bind_Ok _ _ _ _ _ H1). unfold get_p at 1. rewrite bind_gets, E1.
  cbn [p_pid set_plock]. destruct (Z.eqb_spec (p_pid (proc_at t p)) pid) as [Hpid|Hpid].
  - set (x := proc_at t p) in *. 
    assert (exists t2, (upd_p p (set_killed 1) ;;; (if bool_decide (p_state (set_plock held_lock x) = SLEEPING) then upd_p p (set_state RUNNABLE) else return tt)) t1 = Ok tt t2 /\
      one_changed t t2 p (set_plock held_lock (kill_effect x))) as (t2 & H2 & C2 & P2).
    { unfold upd_p at 1. rewrite bind_modify, E1. unfold kill_effect. cbn [p_state set_plock set_killed].
      destruct (bool_decide (p_state x = SLEEPING)); cbn; (eexists; split; [reflexivity|]; split; [done|]); intros i; rewrite !proc_at_upd;
        (destruct (decide (i = p)) as [->|]; [|by rewrite P1, decide_False]); by rewrite ?decide_True. }
    assert (p_lock (proc_at t2 p) = held_lock) as L2.
    { rewrite P2, decide_True by done. unfold kill_effect. cbn. by destruct (bool_decide _). }
    destruct (unlock_run t2 p L2) as (t3 & H3 & C3 & P3).
    exists 0, t3. split.
    { unfold bind in H2 |- *. cbn in H2 |- *. destruct (bool_decide _); cbn in H2 |- *; injection H2 as ->; by rewrite H3. }
    left. split; [done|]. exists p. split; [lia|]. split; [done|]. split; [lia|]. split; [by rewrite C3, C2|].
    intros i. rewrite P3, P2. destruct (decide (i = p)) as [->|]; [|by rewrite P2, decide_False].
    rewrite decide_True by done. apply kill_effect_lock. by apply U; lia.
  - destruct (unlock_run t1 p ltac:(by rewrite E1)) as (t2 & H2 & C2 & P2). rewrite (bind_Ok _ _ _ _ _ H2).
    assert (same_table t t2) as [C P].
    { split; [by rewrite C2|]. intros i. rewrite P2. destruct (decide (i = p)) as [->|]; [|by rewrite P1, decide_False].
      rewrite E1. change (set_plock initlock (proc_at t p) = proc_at t p). apply set_plock_id. apply U. lia. }
    destruct (IH (p + 1) t2) as (r & t' & H' & Hc); [intros i Hi; rewrite P; by apply U|lia|lia|].
    exists r, t'. split; [done|]. destruct Hc as [(-> & q & Hq & Hqp & Hmin & C' & P')|(-> & Hnone & C' & P')].
    + left. split; [done|]. exists q. rewrite P in *. split; [lia|]. split; [done|]. split.
      * intros j Hj. destruct (decide (j = p)) as [->|]; [done|]. rewrite <- P. apply Hmin. lia.
      * split; [congruence|]. intros i. rewrite P', P. done.
    + right. split; [done|]. split.
      * intros j Hj. destruct (decide (j = p)) as [->|]; [done|]. rewrite <- P. apply Hnone. lia.
      * split; [congruence|]. intros i. by rewrite P', P.
Qed.

Lemma allocproc_find_spec fuel p t : unlocked t -> 0 <= p -> p + Z.of_nat fuel <= NPROC ->
  exists r t', allocproc_find fuel p t = Ok r t' /\
    match r with
    | Some q => p <= q < p + Z.of_nat fuel /\ p_state (proc_at t q) = UNUSED /\ (forall j, p <= j < q -> p_state (proc_at t j) <> UNUSED) /\
        one_changed t t' q (set_plock held_lock (proc_at t q))
    | None => (forall j, p <= j < p + Z.of_nat fuel -> p_state (proc_at t j) <> UNUSED) /\ same_table t t'
    end.
Proof.
  revert p t. induction fuel as [|f IH]; intros p t U Hp Hf; cbn [allocproc_find].
  { exists None, t. split; [done|]. split; [lia|done]. }
  destruct (locked_visit t p (U p ltac:(lia))) as (t1 & H1 & E1 & C1 & P1). rewrite (bind_Ok _ _ _ _ _ H1). unfold get_p at 1. rewrite bind_gets, E1.
  cbn [p_state set_plock]. destruct (bool_decide_reflect (p_state (proc_at t p) = UNUSED)) as [Hu|Hu].
  { exists (Some p), t1. split; [done|]. split; [lia|]. split; [done|]. split; [lia|done]. }
  destruct (unlock_run t1 p ltac:(by rewrite E1)) as (t2 & H2 & C2 & P2). rewrite (bind_Ok _ _ _ _ _ H2).
  assert (same_table t t2) as [C P].
  { split; [by rewrite C2|]. intros i. rewrite P2. destruct (decide (i = p)) as [->|]; [|by rewrite P1, decide_False].
    rewrite E1. change (set_plock initlock (proc_at t p) = proc_at t p). apply set_plock_id. apply U. lia. }
  destruct (IH (p + 1) t2) as (r & t' & H' & Hc); [intros i Hi; rewrite P; by apply U|lia|lia|].
  exists r, t'. split; [done|]. destruct r as [q|].
  - destruct Hc as (Hq & Hqu & Hmin & C' & P'). rewrite P in *. split; [lia|]. split; [done|]. split.
    + intros j Hj. destruct (decide (j = p)) as [->|]; [done|]. rewrite <- P. apply Hmin. lia.
    + split; [congruence|]. intros i. by rewrite P', P.
  - destruct Hc as (Hnone & C' & P'). split; [|split; [congruence|intros i; by rewrite P', P]].
    intros j Hj. destruct (decide (j = p)) as [->|]; [done|]. rewrite <- P. apply Hnone. lia.
Qed.

(** ** The table inside the kernel state *)

Definition ptab (s : kern) : ptable := fp (kf s).

Lemma pt_inv {A} (m : M ptable A) s a s' : pt m s = Ok a s' -> exists t, m (ptab s) = Ok a t /\ ptab s' = t.
Proof. intros (f & H & ->)%zoom_inv. apply zoom_inv in H as (t & H & ->). by exists t. Qed.
Lemma km_inv {A} (m : M kst A) s a s' : km_ m s = Ok a s' -> ptab s' = ptab s.
Proof. intros (f & H & ->)%zoom_inv. by apply zoom_inv in H as (t & H & ->). Qed.
(** Entry [p] was changed by [f]. *)
Definition entry_upd (p : Z) (f : proc -> proc) (s s' : kern) : Prop :=
  forall i, proc_at (ptab s') i = if decide (i = p) then f (proc_at (ptab s) p) else proc_at (ptab s) i.
Lemma pt_upd_inv p f s u s' : pt (upd_p p f) s = Ok u s' -> entry_upd p f s s'.
Proof. intros (t & [= _ <-] & E)%pt_inv i. rewrite E. apply proc_at_upd. Qed.

Section allocproc.
Context `{Layout} `{Forkret}.

Lemma allocpid_inv s pid s' : allocpid s = Ok pid s' -> ptab s' = ptab s.
Proof.
  unfold allocpid, pid_spin, gets, modify, mret'. intros H'. inv_bind H'.
  repeat match goal with Hz : zoom _ _ _ _ = Ok _ _ |- _ => apply zoom_inv in Hz as (? & _ & ->) end. by simplify_eq/=.
Qed.

(** A process that [allocproc] returns is the one found, in state USED; all its
    fields that are not set keep their value. *)
Lemma allocproc_inv s q s' : unlocked (ptab s) -> allocproc s = Ok (Some q) s' ->
  0 <= q < NPROC /\ p_state (proc_at (ptab s) q) = UNUSED /\ (forall j, 0 <= j < q -> p_state (proc_at (ptab s) j) <> UNUSED) /\
  p_killed (proc_at (ptab s') q) = p_killed (proc_at (ptab s) q) /\ p_state (proc_at (ptab s') q) = USED.
Proof.
  intros U H'. unfold allocproc in H'. apply bind_inv in H' as (r & s1 & Hf & H').
  apply pt_inv in Hf as (t1 & Hf & E1). destruct (allocproc_find_spec (Z.to_nat NPROC) 0 (ptab s) U) as (r' & t' & Hf' & Hc); [lia|done|].
  rewrite Hf in Hf'. injection Hf' as <- <-. destruct r as [p|]; [|done]. destruct Hc as (Hp & Hu & Hmin & _ & P1).
  apply bind_inv in H' as (pid & s2 & Hpid & H'). apply allocpid_inv in Hpid.
  apply bind_inv in H' as ([] & s3 & H3%pt_upd_inv & H'). apply bind_inv in H' as ([] & s4 & H4%pt_upd_inv & H').
  apply bind_inv in H' as (tf & s5 & H5%km_inv & H'). apply bind_inv in H' as ([] & s6 & H6%pt_upd_inv & H').
  destruct (tf =? 0); [inv_bind H'; done|]. apply bind_inv in H' as (pg & s7 & H7%km_inv & H').
  apply bind_inv in H' as ([] & s8 & H8%pt_upd_inv & H'). destruct (pg =? 0); [inv_bind H'; done|].
  apply bind_inv in H' as (x & s9 & H9 & H'). apply pt_inv in H9 as (t9 & [= _ <-] & E9).
  apply bind_inv in H' as ([] & s10 & H10%pt_upd_inv & H'). injection H' as <- <-.
  unfold NPROC in *. split; [lia|]. split; [done|]. split; [intros j Hj; apply Hmin; lia|].
  rewrite H10, E9, H8, H7, H6, H5, H4, H3, Hpid, E1, P1. rewrite !decide_True by done. done.
Qed.

(** process number 0 does not exist, but [kill(0)] finds the first unused entry
    of the table (a free entry has pid 0), marks it killed and returns 0; and
    [allocproc] does not clear the mark: the next process that is created is born
    killed, and exits at its first trap. *)
Theorem kill_zero_dooms_next (s s1 s2 : kern) (r q : Z) :
  (forall i, 0 <= i < NPROC -> p_lock (proc_at (ptab s) i) = initlock /\ (p_state (proc_at (ptab s) i) = UNUSED <-> p_pid (proc_at (ptab s) i) = 0)) ->
  pt (kill 0) s = Ok r s1 -> allocproc s1 = Ok (Some q) s2 ->
  r = 0 /\ p_state (proc_at (ptab s) q) = UNUSED /\ p_state (proc_at (ptab s2) q) = USED /\ p_killed (proc_at (ptab s2) q) = 1.
Proof.
  intros Hok Hk Ha. assert (unlocked (ptab s)) as U by (intros i Hi; by apply Hok). apply pt_inv in Hk as (t & Hk & E).
  destruct (kill_loop_spec (Z.to_nat NPROC) 0 0 (ptab s) U) as (r' & t' & Hk' & Hc); [lia|done|]. unfold kill in Hk. rewrite Hk in Hk'.
  injection Hk' as <- <-. assert (forall x, p_lock (kill_effect x) = p_lock x) as Hkl by (intros x; unfold kill_effect; by destruct (bool_decide _)).
  destruct Hc as [(-> & p & Hp & Hp0 & Hmin & C & P)|(_ & Hnone & _ & P)].
  - assert (p_state (proc_at (ptab s) p) = UNUSED) as Hpu by (apply Hok; [unfold NPROC in *; lia|done]).
    assert (kill_effect (proc_at (ptab s) p) = set_killed 1 (proc_at (ptab s) p)) as Ek by (unfold kill_effect; cbn; by rewrite Hpu).
    rewrite Ek in P. destruct (allocproc_inv s1 q s2) as (Hq & Hqu & Hqm & Hqk & Hqs); [|done|].
    { intros i Hi. rewrite E, P. destruct (decide (i = p)) as [->|]; [cbn; by apply U|by apply U]. }
    assert (q = p) as ->.
    { destruct (Z.lt_trichotomy q p) as [Hlt|[|Hgt]]; [|done|].
      - rewrite E, P, decide_False in Hqu by lia. apply Hok in Hqu; [|lia]. destruct (Hmin q); [lia|done].
      - destruct (Hqm p); [lia|]. rewrite E, P, decide_True by done. done. }
    split; [done|]. split; [done|]. split; [done|]. rewrite Hqk, E, P, decide_True by done. done.
  - exfalso. destruct (allocproc_inv s1 q s2) as (Hq & Hqu & _); [intros i Hi; rewrite E, P; by apply U|done|].
    rewrite E, P in Hqu. apply Hok in Hqu; [|lia]. apply (Hnone q); [unfold NPROC in *; lia|done].
Qed.
End allocproc.

(** ** Example: an empty table and four free pages *)

#[local] Program Instance proc_layout : Layout :=
  {| etext := PHYSTOP - 16 * PGSIZE; kend := PHYSTOP - 8 * PGSIZE; trampoline := PHYSTOP - 17 * PGSIZE |}.
Solve Obligations with (vm_compute; congruence).
#[local] Instance proc_forkret : Forkret := {| forkret_addr := KERNBASE |}.

Definition ex_page (k : Z) : Z := PHYSTOP - k * PGSIZE.
Definition ex_free : kst :=
  mkKst (st64 (st64 (st64 (st64 ∅ (ex_page 1) (ex_page 2)) (ex_page 2) (ex_page 3)) (ex_page 3) (ex_page 4)) (ex_page 4) 0)
    (mkKmem initlock (ex_page 1)).
Definition ex_lst : lst := mkLst (mkBst (mkBcache initlock ∅) (mkDisk ∅ []) 1) (mkLog initlock 0 0 0 0 0 0 []).
Definition ex_kern : kern :=
  mkKern (mkFsst ex_lst (mkSb 0 0 0 0 0 0 0 0) (mkItable initlock ∅) ex_free (mkPtable ∅ 0)) (mkFtable initlock ∅) ∅ 1 initlock initlock None 0 initlock.

Lemma kill_zero_dooms_next_witness : exists s1 s2,
  pt (kill 0) ex_kern = Ok 0 s1 /\ allocproc s1 = Ok (Some 0) s2 /\ p_killed (proc_at (ptab s2) 0) = 1.
Proof.
  assert (match pt (kill 0) ex_kern with
          | Ok r s1 => match allocproc s1 with Ok (Some q) _ => (r =? 0) && (q =? 0) | _ => false end
          | _ => false end = true) as Hrun by (vm_compute; reflexivity).
  destruct (pt (kill 0) ex_kern) as [r s1| | |] eqn:E1; [|congruence..].
  destruct (allocproc s1) as [[q|] s2| | |] eqn:E2; [|congruence..].
  apply andb_prop in Hrun as [Hr Hq]. apply Z.eqb_eq in Hr, Hq. rewrite Hr, Hq in *.
  exists s1, s2. split; [reflexivity|]. split; [exact E2|].
  destruct (kill_zero_dooms_next ex_kern s1 s2 0 0) as (_ & _ & _ & H); [|exact E1|exact E2|exact H].
  intros i _. unfold proc_at, ptab. cbn [kf fp procs ex_kern]. rewrite lookup_total_empty. split; [reflexivity|]. split; reflexivity.
Defined.
