(* ===== verification/ProcMem.v ===== *)
(** * The address spaces of processes

    What [proc_pagetable] builds and [proc_freepagetable] gives back
    (kernel/proc.c): the page table of a process with its memory, the trampoline and
    the trapframe page; and what these operations keep of the others. *)

From stdpp Require Import base list gmap strings.
From S2P Require Import Prelude Riscv Mem Spinlock Kalloc Vm VmTable VmWalk VmUser VmCopy VmFree Sleeplock ProcData Bytes Bio Log Fs Pipe File Proc.

Section procmem.
Context `{Layout}.

(** ** What an operation keeps

    [A] and [A'] list pages that are not page tables: free ones and those in the
    hands of the operation.  Nothing outside the page tables and these pages is
    written, no page is lost, and the page tables of [R] are the same, with the same
    pages and translations. *)
Record kept (R : Z -> Prop) (s : kst) (T : gmap Z nat) (A : list Z) (s' : kst) (T' : gmap Z nat) (A' : list Z) : Prop := {
  kp_root : forall r, R r -> T !! r = Some 2%nat -> T' !! r = Some 2%nat;
  kp_view : forall r va, R r -> T !! r = Some 2%nat -> 0 <= va < 2 ^ 39 -> view (entries (mem s')) r va = view (entries (mem s)) r va;
  kp_new : forall r, R r -> T' !! r = Some 2%nat -> T !! r = Some 2%nat;
  kp_trees : forall r p, R r -> T !! r = Some 2%nat -> tree (entries (mem s')) r p <-> tree (entries (mem s)) r p;
  kp_pages : forall p, is_Some (T' !! p) \/ p ∈ A' <-> is_Some (T !! p) \/ p ∈ A;
  kp_mem : forall x, outside T A x -> ld8 (mem s') x = ld8 (mem s) x
}.

Lemma kept_refl R s T A : kept R s T A s T A.
Proof. by split. Qed.
Lemma outside_pages T A T' A' x : (forall p, is_Some (T' !! p) \/ p ∈ A' <-> is_Some (T !! p) \/ p ∈ A) -> outside T A x -> outside T' A' x.
Proof. intros Hp Ho p Hin. apply Ho. by apply Hp. Qed.
Lemma kept_trans R s T A s1 T1 A1 s2 T2 A2 : kept R s T A s1 T1 A1 -> kept R s1 T1 A1 s2 T2 A2 -> kept R s T A s2 T2 A2.
Proof.
  intros [A1' A2' A5 A6 A3 A4] [B1 B2 B5 B6 B3 B4]. split.
  - auto.
  - intros r va HR Hr Hva. rewrite B2 by auto. auto.
  - auto.
  - intros r p HR Hr. rewrite B6 by auto. auto.
  - intros p. by rewrite B3.
  - intros x Hx. rewrite B4; [auto|]. by eapply outside_pages.
Qed.
Lemma kept_weaken (R R' : Z -> Prop) s T A s' T' A' : (forall r, R' r -> T !! r = Some 2%nat \/ T' !! r = Some 2%nat -> R r) -> kept R s T A s' T' A' -> kept R' s T A s' T' A'.
Proof. intros HR [A1 A2 A3 A4 A5 A6]. split; auto. Qed.
Lemma kept_perm R s T A s' T' A' B B' : (forall p, p ∈ B <-> p ∈ A) -> (forall p, p ∈ B' <-> p ∈ A') -> kept R s T A s' T' A' -> kept R s T B s' T' B'.
Proof. intros E E' [A1 A2 A5 A6 A3 A4]. split; [done|done|done|done|intros p; rewrite E, E'; apply A3|]. intros x Hx. apply A4. intros p Hp. apply Hx. by rewrite E. Qed.
(** The operation has other pages in its hands, which it does not touch. *)
Lemma kept_more R s T A s' T' A' B : kept R s T A s' T' A' -> kept R s T (B ++ A) s' T' (B ++ A').
Proof.
  intros [A1 A2 A5 A6 A3 A4]. split; [done|done|done|done| |].
  - intros p. rewrite !elem_of_app. specialize (A3 p). tauto.
  - intros x Hx. apply A4. intros p Hp. apply Hx. rewrite elem_of_app. tauto.
Qed.

Lemma moves_kept (R : Z -> Prop) root s T l s' T' l' Q : moves root s T l s' T' l' Q -> (forall r, R r -> r <> root) ->
  (forall r va, R r -> T !! r = Some 2%nat -> 0 <= va < 2 ^ 39 -> view (entries (mem s')) r va = view (entries (mem s)) r va) ->
  kept R s T l s' T' (Q ++ l').
Proof.
  intros [M1 M2 M3 M5 M4] HR HV. split; [intros r _ Hr; by eapply lookup_weaken|done|auto|auto| |done].
  intros p. rewrite elem_of_app, <- M3. tauto.
Qed.
Lemma evolves_kept (R : Z -> Prop) root s T l s' T' l' : evolves root s T l s' T' l' -> (forall r, R r -> r <> root) ->
  (forall r va, R r -> T !! r = Some 2%nat -> 0 <= va < 2 ^ 39 -> view (entries (mem s')) r va = view (entries (mem s)) r va) ->
  kept R s T l s' T' l'.
Proof. intros E%evolves_moves HR HV. exact (moves_kept R _ _ _ _ _ _ _ _ E HR HV). Qed.

(** The pages of the tables outside [R], and the pages in the hands of the operation, are the same before and after. *)
Definition tables (R : Z -> Prop) (s : kst) (T : gmap Z nat) (p : Z) : Prop := exists r, ~ R r /\ T !! r = Some 2%nat /\ tree (entries (mem s)) r p.
Lemma kept_tables R s T A s' T' A' p : kept R s T A s' T' A' -> (forall r, R r \/ ~ R r) -> ptinv (entries (mem s)) T -> ptinv (entries (mem s')) T' ->
  (p ∈ A -> T !! p = None) -> (p ∈ A' -> T' !! p = None) -> p ∈ A' \/ tables R s' T' p <-> p ∈ A \/ tables R s T p.
Proof.
  intros [K1 _ K2 K3 K4 _] Hdec I I' HA HA'. specialize (K4 p).
  assert (forall s T r, ptinv (entries (mem s)) T -> T !! r = Some 2%nat -> tree (entries (mem s)) r p -> is_Some (T !! p)) as Hin.
  { intros s0 T0 r I0 Hr Ht. destruct (in_pt_typed _ _ _ _ _ I0 Hr Ht) as (j & Hj & _). eauto. }
  assert (forall s T r r', ptinv (entries (mem s)) T -> T !! r = Some 2%nat -> T !! r' = Some 2%nat -> tree (entries (mem s)) r p -> tree (entries (mem s)) r' p -> r = r') as Hinj.
  { intros s0 T0 r r' I0 Hr Hr'. by apply (in_pt_inj _ _ 2 r r' p I0). }
  split; intros Hc.
  - destruct (proj1 K4) as [[k Hk]|?]; [destruct Hc as [?|(r & _ & Hr & Ht)]; [by right|left; eauto]| |by left].
    destruct (tree_of _ _ _ _ I Hk) as (r & Hr & Ht). right. destruct (Hdec r) as [HR|HR]; [|by exists r]. exfalso. apply K3 in Ht; [|done|done].
    destruct Hc as [Hc|(r' & Hn & Hr' & Ht')]; [destruct (Hin s' T' r I' (K1 _ HR Hr) Ht); by rewrite HA' in *|].
    apply Hn. rewrite <- (Hinj s' T' r r' I' (K1 _ HR Hr) Hr' Ht Ht'). done.
  - destruct (proj2 K4) as [[k Hk]|?]; [destruct Hc as [?|(r & _ & Hr & Ht)]; [by right|left; eauto]| |by left].
    destruct (tree_of _ _ _ _ I' Hk) as (r & Hr & Ht). right. destruct (Hdec r) as [HR|HR]; [|by exists r]. exfalso. pose proof (K2 _ HR Hr) as Hr0. apply K3 in Ht; [|done|done].
    destruct Hc as [Hc|(r' & Hn & Hr' & Ht')]; [destruct (Hin s T r I Hr0 Ht); by rewrite HA in *|].
    apply Hn. rewrite <- (Hinj s T r r' I Hr0 Hr' Ht Ht'). done.
Qed.

Lemma owned_apart s T l X p : vinv s T l -> owned T l X -> p ∈ X ++ l -> T !! p = None.
Proof.
  intros I [_ HX] [Hp|Hp]%elem_of_app.
  - rewrite Forall_forall in HX. by apply HX.
  - destruct (T !! p) eqn:E; [|done]. by destruct (v_free _ _ _ I _ _ E).
Qed.
(** When every table stays, the same pages are free. *)
Lemma kept_free s T l s' T' l' p : kept (fun _ => True) s T l s' T' l' -> vinv s T l -> vinv s' T' l' -> p ∈ l' <-> p ∈ l.
Proof.
  intros K I I'. assert (forall s T, ~ tables (fun _ => True) s T p) as Hn by (intros ? ? (r & ? & _); done).
  pose proof (kept_tables _ _ _ _ _ _ _ p K ltac:(tauto) (v_pt _ _ _ I) (v_pt _ _ _ I') (owned_apart s T l [] p I ltac:(split; [constructor|done])) (owned_apart s' T' l' [] p I' ltac:(split; [constructor|done]))).
  specialize (Hn s T) as N1. specialize (Hn s' T') as N2. tauto.
Qed.
(** When one table is made or removed. *)
Lemma kept_one root s T X l s' T' X' l' p : kept (fun q => q <> root) s T (X ++ l) s' T' (X' ++ l') -> vinv s T l -> vinv s' T' l' -> owned T l X -> owned T' l' X' ->
  p ∈ X' ++ l' \/ (T' !! root = Some 2%nat /\ tree (entries (mem s')) root p) <-> p ∈ X ++ l \/ (T !! root = Some 2%nat /\ tree (entries (mem s)) root p).
Proof.
  intros K I I' O O'. assert (forall s T, tables (fun q => q <> root) s T p <-> T !! root = Some 2%nat /\ tree (entries (mem s)) root p) as E.
  { intros s0 T0. split; [intros (r & Hn & Hr & Ht)|intros [Hr Ht]; exists root; tauto]. destruct (decide (r = root)) as [->|]; tauto. }
  rewrite <- !E. apply (kept_tables _ _ _ _ _ _ _ p K); [intros r; destruct (decide (r = root)); tauto|apply I|apply I'|by apply (owned_apart s)|by apply (owned_apart s')].
Qed.

(** Pages that are in nobody's hands stay so. *)
Lemma owned_kept R s T A s' T' A' P : kept R s T A s' T' A' -> owned T A P -> owned T' A' P.
Proof.
  intros K [HN HP]. split; [done|]. rewrite Forall_forall in *. intros p Hp. destruct (HP p Hp) as (Hok & HA & HT).
  assert (~ (is_Some (T' !! p) \/ p ∈ A')) as Hn by (rewrite (kp_pages _ _ _ _ _ _ _ K); rewrite HT; intros [[? ?]|?]; done).
  split; [done|]. split; [tauto|]. apply eq_None_not_Some. tauto.
Qed.
Lemma owned_sub T A A' P : (forall p, p ∈ A' -> p ∈ A) -> owned T A P -> owned T A' P.
Proof. intros Hs [HN HP]. split; [done|]. eapply Forall_impl; [exact HP|]. intros p (? & ? & ?). split; [done|]. split; [auto|done]. Qed.

(** ** The address space of a process *)

Record pview (s : kst) (T : gmap Z nat) (l : list Z) (root tf : Z) (P : list Z) : Prop := {
  ps_us : uspace s T l root P;
  ps_tramp : forall va, TRAMPOLINE <= va < MAXVA -> view (entries (mem s)) root va = map_word trampoline (Z.lor PTE_R PTE_X);
  ps_tf : forall va, TRAPFRAME <= va < TRAMPOLINE -> view (entries (mem s)) root va = map_word tf (Z.lor PTE_R PTE_W);
  ps_high : forall va, MAXVA <= va < 2 ^ 39 -> flag (view (entries (mem s)) root va) PTE_V = false
}.
(** The pages and the trapframe belong to the process. *)
Record pspace (s : kst) (T : gmap Z nat) (l : list Z) (root tf : Z) (P : list Z) : Prop := {
  ps_view : pview s T l root tf P;
  ps_own : owned T l (tf :: P)
}.

(** A process that an operation does not concern keeps its address space, and its bytes. *)
Lemma pspace_kept (R : Z -> Prop) s T l A s' T' l' A' root tf P :
  kept R s T A s' T' A' -> vinv s' T' l' -> (forall p, p ∈ l' -> p ∈ A') -> R root ->
  owned T A (tf :: P) -> pspace s T l root tf P -> pspace s' T' l' root tf P.
Proof.
  intros K I Hl HR Ho [[[U1 U2 U3 U4 U5 U6 U7] Ht Hf Hh] _]. pose proof TRAPFRAME_eq. pose proof MAXVA_eq. pose proof (lenZ_nonneg P).
  assert (forall va, 0 <= va < 2 ^ 39 -> view (entries (mem s')) root va = view (entries (mem s)) root va) as HV by (intros; by apply (kp_view _ _ _ _ _ _ _ K)).
  assert (owned T' l' (tf :: P)) as Ho' by (eapply owned_sub, owned_kept; [exact Hl|exact K|exact Ho]).
  split; [split; [split| | |]|done].
  - done.
  - by apply (kp_root _ _ _ _ _ _ _ K).
  - revert U3. apply maps_ext. intros va Hva. apply HV. unfold PGSIZE in *; lia.
  - destruct Ho' as [[_ ?]%NoDup_cons [_ ?]%Forall_cons]. by split.
  - done.
  - intros va Hva. rewrite HV by (unfold PGSIZE in *; lia). by apply U6.
  - intros va Hva. rewrite HV by lia. by apply U7.
  - intros va Hva. rewrite HV by (unfold TRAPFRAME, PGSIZE in *; lia). by apply Ht.
  - intros va Hva. rewrite HV by (unfold TRAPFRAME, PGSIZE in *; lia). by apply Hf.
  - intros va Hva. rewrite HV by lia. by apply Hh.
Qed.

(** ** Building the page table *)

(** A new page full of zeroes as the root of a page table. *)
Lemma vinv_new_root s T l r : vinv s T l -> page_ok r -> T !! r = None -> r ∉ l -> (forall j, 0 <= j < 512 -> entries (mem s) r j = 0) ->
  vinv s (<[r := 2%nat]> T) l /\ (forall va, view (entries (mem s)) r va = 0).
Proof.
  intros I Hok HT Hl Hz. assert (forall j, 0 <= j < 512 -> flag (entries (mem s) r j) PTE_V = false) as Hf by (intros j Hj; by rewrite Hz).
  split; [split; [apply I| | |]|].
  - destruct (v_pt _ _ _ I) as [I1 I2 I3 I4 I5]. split.
    + intros p k. destruct (decide (p = r)) as [->|]; [rewrite lookup_insert_eq; intros [= <-]; lia|]. rewrite lookup_insert_ne by done. apply I1.
    + intros p k i. destruct (decide (p = r)) as [->|]; [intros _ Hi; by rewrite Hf|]. rewrite lookup_insert_ne by done. intros Hp Hi Hv.
      pose proof (I2 _ _ _ Hp Hi Hv) as Hc. rewrite lookup_insert_ne; [done|]. congruence.
    + intros p q k k' i j. destruct (decide (p = r)) as [->|]; [intros _ _ Hi _; by rewrite Hf|].
      destruct (decide (q = r)) as [->|]; [intros _ _ _ Hj _; by rewrite Hf|]. rewrite !lookup_insert_ne by done. apply I3.
    + intros p k i. destruct (decide (p = r)) as [->|]; [intros _ Hi; by rewrite Hf|]. rewrite lookup_insert_ne by done. apply I4.
    + intros p k. destruct (decide (p = r)) as [->|]; [rewrite lookup_insert_eq; intros [= <-]; by left|]. rewrite lookup_insert_ne by done. intros Hp.
      destruct (I5 _ _ Hp) as [?|(q & i & Hq & Hc)]; [by left|right]. exists q, i. rewrite lookup_insert_ne by congruence. done.
  - intros p k. destruct (decide (p = r)) as [->|]; [done|]. rewrite lookup_insert_ne by done. apply I.
  - intros p k. destruct (decide (p = r)) as [->|]; [done|]. rewrite lookup_insert_ne by done. apply I.
  - intros va. unfold view. cbn [pwalk]. by rewrite Hf by apply PX_nat.
Qed.

Lemma uvmcreate_ok s T l : vinv s T l -> (l = [] /\ uvmcreate s = Ok 0 s) \/
  exists r l1 s', l = r :: l1 /\ uvmcreate s = Ok r s' /\ r <> 0 /\ T !! r = None /\ vinv s' (<[r := 2%nat]> T) l1 /\
    (forall va, view (entries (mem s')) r va = 0) /\ kept (fun q => q <> r) s T l s' (<[r := 2%nat]> T) l1.
Proof.
  intros I. unfold uvmcreate. destruct (alloc_fill s T l I) as [[-> Hk]|(r & l1 & s1 & -> & Hk & Hr & Hm & F & Hfill)]; [left|right].
  { by rewrite (bind_Ok _ _ _ _ _ Hk). }
  exists r, l1, (set_mem (memset (mem s1) r 0 PGSIZE) s1). split; [done|]. rewrite (bind_Ok _ _ _ _ _ Hk), (proj2 (Z.eqb_neq _ _) Hr). split; [done|].
  destruct (free_page _ _ _ r I ltac:(set_solver)) as [Hok HT]. split; [done|]. split; [done|].
  destruct (Hfill (memset (mem s1) r 0 PGSIZE)) as (I2 & V2 & F2 & Ht2); [auto with xv6|intros x Hx; by apply ld8_memset_off_page|].
  pose proof (kinv_nodup _ _ (v_k _ _ _ I)) as [Hnl _]%NoDup_cons.
  destruct (vinv_new_root _ T l1 r I2 Hok HT Hnl) as [I3 V3].
  { intros j Hj. cbn [set_mem mem]. apply ld64_memset_in; unfold PGSIZE; lia. }
  split; [done|]. split; [done|]. split.
  - intros q _ Hq. rewrite lookup_insert_ne by congruence. done.
  - intros q va _ Hq _. by apply V2.
  - intros q Hq. by rewrite lookup_insert_ne.
  - intros q p _ Hq. by apply Ht2.
  - intros p. destruct (decide (p = r)) as [->|]; [rewrite lookup_insert_eq; split; [set_solver|eauto]|]. rewrite lookup_insert_ne by done. set_solver.
  - intros x Hx. apply F2, Hx. right. set_solver.
Qed.

(** [mappages] of one page of a new page table. *)
Lemma map_page s T l r a pa perm : vinv s T l -> T !! r = Some 2%nat -> a mod PGSIZE = 0 -> 0 <= a -> a + PGSIZE <= MAXVA ->
  0 <= pa -> pa + PGSIZE <= 2 ^ 56 -> 0 <= perm < 1024 ->
  (forall va, a <= va < a + PGSIZE -> flag (view (entries (mem s)) r va) PTE_V = false) ->
  exists c s' T' l', mappages r a PGSIZE pa perm s = Ok c s' /\ vinv s' T' l' /\ T' !! r = Some 2%nat /\ kept (fun q => q <> r) s T l s' T' l' /\
    ((c = 0 /\ lenZ l <= lenZ l' + 2 /\ forall va, 0 <= va < 2 ^ 39 -> view (entries (mem s')) r va = if decide (a <= va < a + PGSIZE) then map_word pa perm else view (entries (mem s)) r va) \/
     (c = -1 /\ lenZ l < 2 /\ forall va, 0 <= va < 2 ^ 39 -> view (entries (mem s')) r va = view (entries (mem s)) r va)).
Proof.
  intros I Hr Ha Ha0 Hmax Hpa Hpa1 Hperm Hfree. rewrite mappages_one by done.
  destruct (mappages_run 1 s T l r a pa perm) as (c & k & s' & T' & l' & Hrun & Ev & Hc & HV); try done; try (unfold PGSIZE in *; lia).
  exists c, s', T', l'. split; [done|]. split; [apply Ev|]. split; [eapply lookup_weaken; [done|apply Ev]|]. split.
  { apply (evolves_kept _ r); [done|done|]. intros q va Hq HT Hva. rewrite HV by done. unfold mapped_view. by rewrite decide_False by tauto. }
  destruct Hc as [(-> & -> & ?)|(-> & Hk & _ & ?)]; [left|right]; (split; [done|]; split; [lia|]); intros va Hva; rewrite HV by done; unfold mapped_view.
  - case_decide as H1; case_decide as H2; try (unfold PGSIZE in *; lia). f_equal. rewrite Z.div_small; [lia|]. unfold PGSIZE in *; lia.
  - rewrite decide_False; [done|]. unfold PGSIZE. lia.
Qed.

(** ** Giving it back *)

Lemma uvmfree_kept s T l root sz P : uspace s T l root P -> 0 <= sz <= TRAPFRAME -> PGROUNDUP sz = lenZ P * PGSIZE ->
  (forall va, TRAPFRAME <= va < 2 ^ 39 -> flag (view (entries (mem s)) root va) PTE_V = false) ->
  exists s' T' l', uvmfree root sz s = Ok tt s' /\ vinv s' T' l' /\ T' !! root = None /\ kept (fun q => q <> root) s T (P ++ l) s' T' l'.
Proof.
  intros U Hsz Hup Htop. destruct (uvmfree_run s T l root sz P U Hsz Hup Htop) as (s' & l' & Hrun & Hl & I' & HV & HM & Ht).
  pose proof (us_inv _ _ _ _ _ U) as I. pose proof (us_root _ _ _ _ _ U) as Hr. set (D := subtree (entries (mem s)) 2 root) in *.
  assert (forall p k, prune (entries (mem s)) T root !! p = Some k <-> T !! p = Some k /\ p ∉ D) as HT by (intros; apply prune_lookup).
  exists s', (prune (entries (mem s)) T root), l'. split; [done|]. split; [done|]. split.
  { destruct (prune _ _ _ !! root) eqn:E; [|done]. apply HT in E as [_ []]. apply subtree_self. }
  split; [|intros r va Hne Hr' Hva; by apply HV|by intros r _ [? _]%HT|intros r p Hne Hr'; by apply Ht| |done].
  - intros r Hne Hr'. apply HT. split; [done|]. intros Hin. destruct (subtree_typed _ _ (v_pt _ _ _ I) 2 root r Hr Hin) as (j & Hj & _ & He).
    apply Hne, He. congruence.
  - intros p. rewrite Hl, !elem_of_app. split.
    + intros [[k [? _]%HT]|[Hp|?]]; [eauto| |tauto]. destruct (subtree_typed _ _ (v_pt _ _ _ I) 2 root p Hr Hp) as (j & Hj & _). eauto.
    + intros [[k Hk]|?]; [|tauto]. destruct (decide (p ∈ D)); [tauto|]. left. exists k. by apply HT.
Qed.

(** [uvmunmap] of one page, which is not freed. *)
Lemma unmap_page s T l r a : vinv s T l -> T !! r = Some 2%nat -> a mod PGSIZE = 0 -> 0 <= a -> a + PGSIZE <= MAXVA ->
  leaf (view (entries (mem s)) r a) ->
  exists s', uvmunmap r a 1 false s = Ok tt s' /\ vinv s' T l /\ kept (fun q => q <> r) s T l s' T l /\
    (forall va, 0 <= va < 2 ^ 39 -> view (entries (mem s')) r va = if decide (a <= va < a + PGSIZE) then 0 else view (entries (mem s)) r va).
Proof.
  intros I Hr Ha Ha0 Hmax HL. pose proof MAXVA_eq.
  destruct (uvmunmap_run [PTE2PA (view (entries (mem s)) r a)] s T l r a false) as (s' & Hrun & I' & HV & HM & HD); try done.
  change (lenZ [_]) with 1 in *. exists s'. split.
  { unfold uvmunmap. rewrite Ha. cbn [Z.eqb negb]. rewrite u64_small by (unfold PGSIZE in *; lia). exact Hrun. }
  split; [done|]. split.
  - split; [done| |done|intros q p _ Hq; apply (tree_dirs _ _ T); [apply I|done|done]|done|done]. intros q va Hq HT Hva. rewrite HV by done. unfold unmapped_view. by rewrite decide_False by tauto.
  - intros va Hva. rewrite HV by done. unfold unmapped_view. case_decide; case_decide; try done; unfold PGSIZE in *; lia.
Qed.

(** An address space with no page. *)
Lemma uspace_nil s T l r : vinv s T l -> T !! r = Some 2%nat ->
  (forall va, 0 <= va < TRAPFRAME -> flag (view (entries (mem s)) r va) PTE_V = false) ->
  (forall va, TRAPFRAME <= va < MAXVA -> flag (view (entries (mem s)) r va) PTE_U = false) -> uspace s T l r [].
Proof.
  intros I Hr Hlow Htop. split; try done.
  split; [apply NoDup_nil_2|done].
Qed.

(** The words that [proc_pagetable] stores. *)
Definition tramp_word : Z := map_word trampoline (Z.lor PTE_R PTE_X).
Definition frame_word (tf : Z) : Z := map_word tf (Z.lor PTE_R PTE_W).
Definition top_view (tf va : Z) : Z :=
  if decide (TRAMPOLINE <= va < MAXVA) then tramp_word else if decide (TRAPFRAME <= va < TRAMPOLINE) then frame_word tf else 0.

Lemma tramp_range : trampoline mod PGSIZE = 0 /\ 0 <= trampoline /\ trampoline + PGSIZE <= 2 ^ 56.
Proof.
  pose proof trampoline_etext as E. pose proof etext_aligned as Ha. pose proof trampoline_low. pose proof etext_end. pose proof end_low.
  split; [|unfold PHYSTOP, KERNBASE, PGSIZE in *; lia]. rewrite E. rewrite <- Ha. replace (etext - PGSIZE) with (etext + (-1) * PGSIZE) by lia.
  by rewrite Z_mod_plus_full.
Qed.
Lemma top_words tf : page_ok tf -> leaf tramp_word /\ flag tramp_word PTE_U = false /\ leaf (frame_word tf) /\ flag (frame_word tf) PTE_U = false.
Proof.
  intros Hok. destruct tramp_range as (T1 & T2 & T3). pose proof (page_ok_range tf Hok) as (F1 & F2 & F3). unfold PHYSTOP, KERNBASE in F3.
  destruct (map_word_leaf trampoline (Z.lor PTE_R PTE_X)) as (L1 & _); [done|unfold PGSIZE in *; lia|by split|].
  destruct (map_word_leaf tf (Z.lor PTE_R PTE_W)) as (L2 & _); [done|unfold PGSIZE in *; lia|by split|].
  split; [done|]. split; [unfold tramp_word|split; [done|unfold frame_word]]; rewrite map_word_eq, flag_lor, flag_PA2PTE by done; vm_compute; reflexivity.
Qed.

Lemma map_top s T l r a pa perm V : vinv s T l -> T !! r = Some 2%nat -> a = TRAMPOLINE \/ a = TRAPFRAME ->
  0 <= pa -> pa + PGSIZE <= 2 ^ 56 -> 0 <= perm < 1024 ->
  (forall va, 0 <= va < 2 ^ 39 -> view (entries (mem s)) r va = V va) -> (forall va, a <= va < a + PGSIZE -> V va = 0) ->
  exists c s' T' l', mappages r a PGSIZE pa perm s = Ok c s' /\ vinv s' T' l' /\ T' !! r = Some 2%nat /\ kept (fun q => q <> r) s T l s' T' l' /\
    ((c = 0 /\ lenZ l <= lenZ l' + 2 /\ forall va, 0 <= va < 2 ^ 39 -> view (entries (mem s')) r va = if decide (a <= va < a + PGSIZE) then map_word pa perm else V va) \/
     (c = -1 /\ lenZ l < 2 /\ forall va, 0 <= va < 2 ^ 39 -> view (entries (mem s')) r va = V va)).
Proof.
  intros I Hr Ha Hpa Hpa1 Hperm HV H0. pose proof TRAPFRAME_eq. pose proof MAXVA_eq.
  assert (a mod PGSIZE = 0 /\ 0 <= a /\ a + PGSIZE <= MAXVA) as (Ha1 & Ha2 & Ha3).
  { destruct Ha as [->| ->]; (split; [vm_compute; reflexivity|]); unfold TRAPFRAME, TRAMPOLINE, PGSIZE in *; lia. }
  destruct (map_page s T l r a pa perm) as (c & s' & T' & l' & Hrun & I' & Hr' & K & Hc); try done.
  { intros va Hva. rewrite HV, H0 by (done || unfold PGSIZE in *; lia). done. }
  exists c, s', T', l'. split; [done|]. split; [done|]. split; [done|]. split; [done|].
  destruct Hc as [(-> & Hl & Hc)|(-> & Hl & Hc)]; [left|right]; (split; [done|]; split; [done|]); intros va Hva; rewrite Hc by done; [case_decide; [done|]|]; by apply HV.
Qed.

Lemma free_bare s T l r : vinv s T l -> T !! r = Some 2%nat -> (forall va, 0 <= va < 2 ^ 39 -> view (entries (mem s)) r va = 0) ->
  exists s' T' l', uvmfree r 0 s = Ok tt s' /\ vinv s' T' l' /\ T' !! r = None /\ kept (fun q => q <> r) s T l s' T' l'.
Proof.
  intros I Hr HV. pose proof TRAPFRAME_eq. pose proof MAXVA_eq. assert (uspace s T l r []) as U.
  { apply uspace_nil; [done|done|..]; intros va Hva; by rewrite HV by lia. }
  apply (uvmfree_kept s T l r 0 [] U); [lia|apply (PGROUNDUP_page 0); lia|]. intros va Hva. by rewrite HV by lia.
Qed.

Lemma pspace_top s T l r tf : vinv s T l -> T !! r = Some 2%nat -> page_ok tf -> owned T l [tf] ->
  (forall va, 0 <= va < 2 ^ 39 -> view (entries (mem s)) r va = top_view tf va) -> pspace s T l r tf [].
Proof.
  intros I Hr Hok Ho V. pose proof TRAPFRAME_eq. pose proof MAXVA_eq. assert (TRAMPOLINE = TRAPFRAME + 4096) by (unfold TRAPFRAME, PGSIZE; lia).
  destruct (top_words tf Hok) as (_ & U1 & _ & U2). split; [split; [apply uspace_nil; [done|done|..]| | |]|done]; intros va Hva; rewrite V by lia; unfold top_view.
  - by rewrite !decide_False by lia.
  - by repeat case_decide.
  - by rewrite decide_True.
  - by rewrite decide_False, decide_True by lia.
  - by rewrite !decide_False by lia.
Qed.

(** [proc_pagetable] returns a page table with the trampoline and the trapframe and
    nothing else, or 0 with no page lost if fewer than five were free. *)
Lemma proc_pagetable_ok s T l tf : vinv s T l -> owned T l [tf] ->
  exists r s' T' l', proc_pagetable tf s = Ok r s' /\ vinv s' T' l' /\ kept (fun q => r = 0 \/ q <> r) s T l s' T' l' /\
    ((r = 0 /\ lenZ l < 5) \/ (r <> 0 /\ lenZ l <= lenZ l' + 5 /\ T !! r = None /\ pspace s' T' l' r tf [])).
Proof.
  intros I Ho. pose proof TRAPFRAME_eq as HTF. pose proof MAXVA_eq as HMX. assert (TRAMPOLINE = TRAPFRAME + 4096) as HTR by (unfold TRAPFRAME, PGSIZE; lia).
  assert (page_ok tf) as Hok by (destruct Ho as [_ [[? _] _]%Forall_cons]; done). destruct (top_words tf Hok) as (L1 & U1 & L2 & U2).
  destruct tramp_range as (_ & Tr2 & Tr3). pose proof (page_ok_range tf Hok) as (_ & F2 & F3). unfold PHYSTOP, KERNBASE in F3. unfold proc_pagetable.
  destruct (uvmcreate_ok s T l I) as [[-> Hc]|(r & l1 & s1 & -> & Hc & Hr0 & HTr & I1 & V1 & K1)]; rewrite (bind_Ok _ _ _ _ _ Hc).
  { exists 0, s, T, []. split; [done|]. split; [done|]. split; [apply kept_refl|by left]. }
  rewrite (proj2 (Z.eqb_neq _ _) Hr0). set (T1 := <[r := 2%nat]> T) in *.
  assert (forall s2 T2 A2, kept (fun q => q <> r) s1 T1 l1 s2 T2 A2 -> kept (fun q => q <> r) s T (r :: l1) s2 T2 A2) as Hfin by (intros *; by apply kept_trans).
  assert (forall s2 T2 A2, kept (fun q => q <> r) s1 T1 l1 s2 T2 A2 -> T2 !! r = None -> kept (fun q => 0 = 0 \/ q <> 0) s T (r :: l1) s2 T2 A2) as Hfail.
  { intros s2 T2 A2 K2%Hfin Hn. apply (kept_weaken (fun q => q <> r)); [|done]. intros q _ [Hq|Hq]; congruence. }
  destruct (map_top s1 T1 l1 r TRAMPOLINE trampoline (Z.lor PTE_R PTE_X) (fun _ => 0)) as (c & s2 & T2 & l2 & Hm & I2 & Hr2 & K2 & [(-> & Hl2 & V2)|(-> & Hl2 & V2)]);
    try done; [apply lookup_insert_eq|by left|..]; rewrite (bind_Ok _ _ _ _ _ Hm); cbn [Z.ltb Z.compare].
  2: { destruct (free_bare s2 T2 l2 r I2 Hr2 V2) as (s3 & T3 & l3 & Hf & I3 & Hn3 & K3). rewrite (bind_Ok _ _ _ _ _ Hf).
       exists 0, s3, T3, l3. split; [done|]. split; [done|]. split; [|left; rewrite lenZ_cons; lia]. apply Hfail; [by eapply kept_trans|done]. }
  fold tramp_word in V2. unfold PGSIZE in *. replace (TRAMPOLINE + 4096) with MAXVA in V2 by lia.
  destruct (map_top s2 T2 l2 r TRAPFRAME tf (Z.lor PTE_R PTE_W) _ I2 Hr2 (or_intror eq_refl) ltac:(lia) ltac:(unfold PGSIZE; lia) ltac:(done) V2)
    as (c & s3 & T3 & l3 & Hm3 & I3 & Hr3 & K3 & [(-> & Hl3 & V3)|(-> & Hl3 & V3)]); [intros va Hva; unfold PGSIZE in Hva; by rewrite decide_False by lia|..];
    unfold PGSIZE in *; rewrite (bind_Ok _ _ _ _ _ Hm3); cbn [Z.ltb Z.compare].
  - fold (frame_word tf) in V3. exists r, s3, T3, l3. split; [done|]. split; [done|]. split; [apply (kept_weaken (fun q => q <> r)); [tauto|]; apply Hfin; by eapply kept_trans|].
    right. split; [done|]. split; [rewrite lenZ_cons; lia|]. split; [done|]. assert (forall va, 0 <= va < 2 ^ 39 -> view (entries (mem s3)) r va = top_view tf va) as V.
    { intros va Hva. rewrite V3 by done. unfold top_view. repeat case_decide; try done; lia. }
    apply pspace_top; [done|done|done| |done]. eapply owned_kept; [apply Hfin; eapply kept_trans; [exact K2|exact K3]|exact Ho].
  - destruct (unmap_page s3 T3 l3 r TRAMPOLINE I3 Hr3) as (s4 & Hu & I4 & K4 & V4); [vm_compute; reflexivity|lia|unfold PGSIZE; lia| |].
    { rewrite V3 by lia. by rewrite decide_True by lia. }
    rewrite (bind_Ok _ _ _ _ _ Hu). destruct (free_bare s4 T3 l3 r I4 Hr3) as (s5 & T5 & l5 & Hf & I5 & Hn5 & K5).
    { intros va Hva. rewrite V4, V3 by done. unfold PGSIZE. repeat case_decide; try done; lia. }
    rewrite (bind_Ok _ _ _ _ _ Hf). exists 0, s5, T5, l5. split; [done|]. split; [done|]. split; [|left; rewrite lenZ_cons; lia]. apply Hfail; [by do 3 (eapply kept_trans; [eassumption|])|done].
Qed.

(** [proc_freepagetable] gives back the pages of the process and those of its page table. *)
Lemma proc_freepagetable_ok s T l root tf P sz : pview s T l root tf P -> page_ok tf -> 0 <= sz <= TRAPFRAME -> PGROUNDUP sz = lenZ P * PGSIZE ->
  exists s' T' l', proc_freepagetable root sz s = Ok tt s' /\ vinv s' T' l' /\ T' !! root = None /\ kept (fun q => q <> root) s T (P ++ l) s' T' l'.
Proof.
  intros [U Ht Hf Hh] Hok Hsz Hup. pose proof TRAPFRAME_eq. pose proof MAXVA_eq. assert (TRAMPOLINE = TRAPFRAME + 4096) by (unfold TRAPFRAME, PGSIZE; lia).
  pose proof (lenZ_nonneg P). destruct (top_words tf Hok) as (L1 & _ & L2 & _).
  destruct U as [I Hr U3 U4 U5 U6 U7]. unfold proc_freepagetable.
  destruct (unmap_page s T l root TRAMPOLINE I Hr) as (s1 & R1 & I1 & K1 & V1); [vm_compute; reflexivity|lia|unfold PGSIZE; lia|rewrite Ht by lia; exact L1|].
  destruct (unmap_page s1 T l root TRAPFRAME I1 Hr) as (s2 & R2 & I2 & K2 & V2); [vm_compute; reflexivity|lia|unfold PGSIZE; lia| |].
  { rewrite V1, decide_False, Hf by (unfold PGSIZE; lia). exact L2. }
  assert (forall va, 0 <= va < 2 ^ 39 -> view (entries (mem s2)) root va = if decide (TRAPFRAME <= va < MAXVA) then 0 else view (entries (mem s)) root va) as V.
  { intros va Hva. rewrite V2, V1 by done. unfold PGSIZE. repeat case_decide; try done; lia. }
  rewrite (bind_Ok _ _ _ _ _ R1), (bind_Ok _ _ _ _ _ R2). unfold PGSIZE in *.
  destruct (uvmfree_kept s2 T l root sz P) as (s3 & T3 & l3 & R3 & I3 & Hn & K3); [|done|done| |].
  - split; [done|done| |done|done| |].
    + revert U3. apply maps_ext. unfold PGSIZE. intros va Hva. by rewrite V, decide_False by lia.
    + intros va Hva. unfold PGSIZE in *. rewrite V, decide_False by lia. by apply U6.
    + intros va Hva. by rewrite V, decide_True by lia.
  - intros va Hva. rewrite V by lia. case_decide; [done|]. apply Hh. lia.
  - exists s3, T3, l3. split; [done|]. split; [done|]. split; [done|]. eapply kept_trans; [|exact K3]. apply kept_more. by eapply kept_trans.
Qed.

Lemma kalloc_kept s T l : vinv s T l -> (l = [] /\ kalloc s = Ok 0 s) \/
  exists p l1 s1, l = p :: l1 /\ kalloc s = Ok p s1 /\ p <> 0 /\ vinv s1 T l1 /\ owned T l1 [p] /\ kept (fun _ => True) s T l s1 T (p :: l1).
Proof.
  intros I. destruct (vinv_kalloc s T l I) as (s1 & Hk & I1 & V & F & He & Ht). destruct l as [|p l1]; cbn [hd tail] in *; [left; by rewrite He in Hk|right].
  destruct (free_page s T (p :: l1) p I ltac:(set_solver)) as [Hok HT]. pose proof (kinv_nodup _ _ (v_k _ _ _ I)) as [Hn _]%NoDup_cons.
  exists p, l1, s1. split; [done|]. split; [done|]. split; [apply page_ok_range in Hok; lia|]. split; [done|].
  split; [split; [apply NoDup_singleton|by apply Forall_singleton]|]. split; [done|intros r va _ Hr _; by apply V|done|intros r q _; apply Ht|done|].
  intros x Hx. apply F. intros (q & [= <-] & Hq). apply (Hx p); [right; set_solver|done].
Qed.

(** Freeing one page that is in the hands of the operation. *)
Lemma kfree_kept s T l p : vinv s T l -> owned T l [p] ->
  exists s', kfree p s = Ok tt s' /\ vinv s' T (p :: l) /\ kept (fun _ => True) s T (p :: l) s' T (p :: l).
Proof.
  intros I [_ [(Hok & Hl & HT) _]%Forall_cons]. destruct (vinv_kfree s T l p I Hok Hl HT) as (s' & Hk & I' & V & F & Ht).
  exists s'. split; [done|]. split; [done|]. split; [done|intros r va _ Hr _; by apply V|done|intros r q _; apply Ht|done|]. intros x Hx. apply F, Hx. right. set_solver.
Qed.

(** What [freeproc] gives back. *)
Lemma free_space s T l root tf P sz : pspace s T l root tf P -> 0 <= sz <= TRAPFRAME -> PGROUNDUP sz = lenZ P * PGSIZE ->
  exists s1 s2 T' l', kfree tf s = Ok tt s1 /\ proc_freepagetable root sz s1 = Ok tt s2 /\ vinv s2 T' l' /\ T' !! root = None /\
    kept (fun q => q <> root) s T (tf :: P ++ l) s2 T' l'.
Proof.
  intros [[U Ht Hf Hh] Ho] Hsz Hup. pose proof TRAPFRAME_eq. pose proof MAXVA_eq. assert (TRAMPOLINE = TRAPFRAME + 4096) by (unfold TRAPFRAME, PGSIZE; lia).
  destruct (owned_cons _ _ _ _ Ho) as ((Hok & Hl & HT) & HnP & HoP).
  destruct (kfree_kept s T l tf (us_inv _ _ _ _ _ U)) as (s1 & Hk & I1 & K1); [split; [apply NoDup_singleton|by apply Forall_singleton]|].
  assert (forall va, 0 <= va < 2 ^ 39 -> view (entries (mem s1)) root va = view (entries (mem s)) root va) as V.
  { intros va Hva. by apply (kp_view _ _ _ _ _ _ _ K1); [|apply U|]. }
  destruct (proc_freepagetable_ok s1 T (tf :: l) root tf P sz) as (s2 & T2 & l2 & Hr & I2 & Hn & K2); [|done|done|done|].
  { split; [eapply uspace_ext; [exact U|done|done|done|done]|..]; intros va Hva; rewrite V by lia; [by apply Ht|by apply Hf|by apply Hh]. }
  exists s1, s2, T2, l2. split; [done|]. split; [done|]. split; [done|]. split; [done|].
  eapply kept_trans; [|eapply kept_perm; [|done|exact K2]; set_solver].
  apply (kept_weaken (fun _ => True)); [done|]. eapply kept_perm; [| |apply (kept_more _ _ _ _ _ _ _ P K1)]; set_solver.
Qed.

(** Writing into a page in the hands of the operation. *)
Lemma write_kept s T l A p m : vinv s T l -> owned T l [p] -> mem_ok m -> (forall x, ~ p <= x < p + PGSIZE -> ld8 m x = ld8 (mem s) x) -> p ∈ A ->
  vinv (set_mem m s) T l /\ kept (fun _ => True) s T A (set_mem m s) T A.
Proof.
  intros I [_ [(Hok & Hl & HT) _]%Forall_cons] Hm F Hp.
  assert (forall q x, page_ok q -> q <> p -> q <= x < q + PGSIZE -> ld8 m x = ld8 (mem s) x) as F' by (intros q x Hq Hne Hx; apply F; by apply (off_page q p)).
  assert (kinv (set_mem m s) l) as K.
  { apply (kinv_frame s); [apply I|done|done|]. intros q x Hq Hx. apply (F' q); [by apply (free_page s T l)|by intros ->|done]. }
  destruct (vinv_frame s (set_mem m s) T l l I K (v_free _ _ _ I)) as (I' & V & Ht).
  { intros q k x Hq Hx. apply (F' q); [by eapply v_ok|congruence|done]. }
  split; [done|]. split; [done|intros r va _ Hr _; by apply V|done|intros r q _; apply Ht|done|]. intros x Hx. cbn [mem set_mem]. apply F, Hx. by right.
Qed.

(** ** Copying a process *)

(** Page table [new] in [s'] gives the user the memory that [old] gives in [s]: the same
    bytes at the same addresses, with the same permissions. *)
Definition same_user (s : kst) (old : Z) (s' : kst) (new : Z) : Prop :=
  forall va, user_byte s' new va = user_byte s old va /\
    forall perm, 0 <= perm < 1024 -> is_Some (user_addr s' new perm va) <-> is_Some (user_addr s old perm va).

Lemma flag_FLAGS e f : 0 <= f < 1024 -> flag (PTE_FLAGS e) f = flag e f.
Proof.
  intros Hf. with_strategy transparent [PTE_FLAGS flag] (unfold PTE_FLAGS, flag). rewrite <- Z.land_assoc. do 3 f_equal.
  change 1023 with (Z.ones 10). rewrite Z.land_comm, Z.land_ones by lia. apply Z.mod_small. change (2 ^ 10) with 1024. lia.
Qed.
Lemma user_addr_None s T l root P perm va : uspace s T l root P -> lenZ P * PGSIZE <= va \/ va < 0 -> user_addr s root perm va = None.
Proof.
  intros U Hva. unfold user_addr. destruct (Z.leb_spec 0 va), (Z.ltb_spec va MAXVA); try done. cbn [andb].
  destruct (decide (va < TRAPFRAME)); [by rewrite (us_free _ _ _ _ _ U) by lia|]. rewrite (us_top _ _ _ _ _ U) by lia. by rewrite andb_false_r.
Qed.
Lemma user_addr_in s T l root P perm va (j : nat) p : uspace s T l root P -> P !! j = Some p -> PGROUNDDOWN va = Z.of_nat j * PGSIZE -> 0 <= va ->
  user_addr s root perm va = if flag (view (entries (mem s)) root va) PTE_U && ((perm =? 0) || flag (view (entries (mem s)) root va) perm)
    then Some (p + va mod PGSIZE) else None.
Proof.
  intros U Hp Hj Hva. destruct (maps_lookup _ _ _ _ _ (us_maps _ _ _ _ _ U) Hp) as [[HV _] HPA]. rewrite Z.add_0_l in HV, HPA.
  rewrite <- Hj, view_page in HV, HPA. unfold user_addr. rewrite HV, HPA. pose proof (us_size _ _ _ _ _ U). pose proof TRAPFRAME_eq. pose proof MAXVA_eq.
  pose proof (lookup_lt_Some _ _ _ Hp). pose proof (PGROUNDDOWN_bounds va).
  destruct (Z.leb_spec 0 va); [|lia]. destruct (Z.ltb_spec va MAXVA); [by destruct (flag _ PTE_U)|]. unfold lenZ, PGSIZE in *. lia.
Qed.

Lemma copy_user s T l old new P s' T' l' Q : uspace s T l old P -> copy_inv s T l old new P s' T' l' Q -> length Q = length P -> same_user s old s' new.
Proof.
  intros U C HQ va. pose proof (cp_new _ _ _ _ _ _ _ _ _ _ C) as Un. assert (lenZ Q = lenZ P) as HL by (unfold lenZ; by rewrite HQ).
  destruct (decide (0 <= va < lenZ P * PGSIZE)) as [Hva|Hva].
  2: { assert (forall perm, user_addr s' new perm va = None /\ user_addr s old perm va = None) as Hn.
       { intros perm. split; [eapply (user_addr_None s' T' l' new Q)|eapply (user_addr_None s T l old P)]; try done; lia. }
       unfold user_byte. destruct (Hn 0) as [-> ->]. split; [done|]. intros perm _. destruct (Hn perm) as [-> ->]. tauto. }
  set (j := Z.to_nat (va / PGSIZE)). assert (0 <= va / PGSIZE < lenZ P) as Hj by (split; [apply Z.div_pos; [lia|done]|apply Z.div_lt_upper_bound; [done|lia]]).
  destruct (lookup_lt_is_Some_2 P j) as [p Hp]; [unfold lenZ in *; lia|]. destruct (lookup_lt_is_Some_2 Q j) as [q Hq]; [unfold lenZ in *; lia|].
  assert (PGROUNDDOWN va = Z.of_nat j * PGSIZE) as Hpg by (rewrite PGROUNDDOWN_eq; unfold j; rewrite Z2Nat.id by lia; pose proof (Z.div_mod va PGSIZE ltac:(done)); lia).
  pose proof (cp_perm _ _ _ _ _ _ _ _ _ _ C va ltac:(lia)) as Hf.
  assert (forall f, 0 <= f < 1024 -> flag (view (entries (mem s')) new va) f = flag (view (entries (mem s)) old va) f) as Hfl.
  { intros f Hf0. by rewrite <- flag_FLAGS, Hf, flag_FLAGS by done. }
  pose proof (fun perm => user_addr_in s' T' l' new Q perm va j q Un Hq Hpg ltac:(lia)) as E1.
  pose proof (fun perm => user_addr_in s T l old P perm va j p U Hp Hpg ltac:(lia)) as E2. split.
  - unfold user_byte. rewrite E1, E2, Hfl by done. cbn [Z.eqb orb]. rewrite andb_true_r. destruct (flag (view (entries (mem s)) old va) PTE_U); [|done]. cbn. f_equal.
    apply (cp_data _ _ _ _ _ _ _ _ _ _ C j q p); [done|done|]. by apply Z.mod_pos_bound.
  - intros perm Hperm. rewrite E1, E2, !Hfl by done. destruct (_ && _); [|tauto]. split; eauto.
Qed.

Lemma copy_space s T l old tfp P new tf sz : pspace s T l old tfp P -> pspace s T l new tf [] -> old <> new -> 0 <= sz <= TRAPFRAME -> PGROUNDUP sz = lenZ P * PGSIZE ->
  exists r s' T' l', uvmcopy old new sz s = Ok r s' /\ vinv s' T' l' /\
    ((r = 0 /\ exists Q, length Q = length P /\ pspace s' T' l' new tf Q /\ kept (fun q => q <> new) s T l s' T' (Q ++ l') /\ same_user s old s' new) \/
     (r = -1 /\ lenZ l < 3 * lenZ P /\ pspace s' T' l' new tf [] /\ kept (fun q => q <> new) s T l s' T' l')).
Proof.
  intros [[Uo _ _ _] _] [[Un Ht Hf Hh] Ho] Hne Hsz Hup. pose proof TRAPFRAME_eq. pose proof MAXVA_eq. assert (TRAMPOLINE = TRAPFRAME + 4096) by (unfold TRAPFRAME, PGSIZE; lia).
  pose proof (us_root _ _ _ _ _ Un) as Hrn.
  pose proof (lenZ_nonneg P). pose proof (us_size _ _ _ _ _ Uo).
  assert (forall s' T' l' Q, uspace s' T' l' new Q -> moves new s T l s' T' l' Q ->
    (forall rt va, T !! rt = Some 2%nat -> 0 <= va < 2 ^ 39 -> rt <> new \/ TRAPFRAME <= va -> view (entries (mem s')) rt va = view (entries (mem s)) rt va) ->
    pspace s' T' l' new tf Q /\ kept (fun q => q <> new) s T l s' T' (Q ++ l')) as Hgen.
  { intros s' T' l' Q U' Mv V. assert (kept (fun q => q <> new) s T l s' T' (Q ++ l')) as K by (apply (moves_kept _ new); [done|done|]; intros; apply V; tauto).
    split; [|done]. split; [split; [done|..]; intros va Hva; rewrite V by (done || lia); [by apply Ht|by apply Hf|by apply Hh]|].
    destruct (owned_kept _ _ _ _ _ _ _ _ K Ho) as [_ [(Hok & Hl & HT) _]%Forall_cons]. rewrite elem_of_app in Hl. pose proof (us_owned _ _ _ _ _ U') as [HN HF].
    split; [apply NoDup_cons; tauto|]. apply Forall_cons. tauto. }
  destruct (uvmcopy_ok s T l old new sz P Uo Un Hne ltac:(lia) Hup ltac:(lia)) as (r & s' & T' & l' & Hr & [(-> & Q & HQ & C & _)|[-> C]]).
  - assert (lenZ Q = lenZ P) as HL by (unfold lenZ; by rewrite HQ). pose proof (cp_new _ _ _ _ _ _ _ _ _ _ C) as Un'.
    destruct (Hgen s' T' l' Q) as [PS K]; [done|apply C|intros; apply (cp_view _ _ _ _ _ _ _ _ _ _ C); [done|done|lia]|].
    exists 0, s', T', l'. split; [done|]. split; [apply Un'|]. left. split; [done|]. exists Q. split; [done|]. split; [done|]. split; [done|]. by eapply copy_user.
  - pose proof (cu_new _ _ _ _ _ _ _ _ _ C) as Un'. destruct (Hgen s' T' l' []) as [PS K]; [done|apply C|apply C|].
    exists (-1), s', T', l'. split; [done|]. split; [apply Un'|]. right. split; [done|]. split; [apply C|]. by split.
Qed.

(** A process keeps its memory when an operation keeps its page table and does not have its pages. *)
Lemma same_user_views s T l root P s' : uspace s T l root P ->
  (forall va, 0 <= va < 2 ^ 39 -> view (entries (mem s')) root va = view (entries (mem s)) root va) ->
  (forall p x, p ∈ P -> p <= x < p + PGSIZE -> ld8 (mem s') x = ld8 (mem s) x) -> same_user s root s' root.
Proof.
  intros U V F va. pose proof MAXVA_eq. assert (forall perm, user_addr s' root perm va = user_addr s root perm va) as E.
  { intros perm. unfold user_addr. destruct (Z.leb_spec 0 va), (Z.ltb_spec va MAXVA); try done. by rewrite V by lia. }
  split; [|intros perm _; by rewrite E]. unfold user_byte. rewrite E. destruct (user_addr s root 0 va) as [x|] eqn:Ex; [|done]. cbn. f_equal.
  destruct (user_page_ok _ _ _ _ _ _ _ _ U Ex) as (p & Hp & _ & _ & Hx). by apply (F p).
Qed.
Lemma same_user_trans s old s1 mid s2 new : same_user s old s1 mid -> same_user s1 mid s2 new -> same_user s old s2 new.
Proof. intros E1 E2 va. destruct (E1 va) as [B1 P1], (E2 va) as [B2 P2]. split; [congruence|]. intros perm Hp. rewrite P2, P1 by done. done. Qed.
Lemma pspace_same_gen (R : Z -> Prop) s T l A s' T' l' A' root tf P : kept R s T A s' T' A' -> vinv s' T' l' -> (forall p, p ∈ l' -> p ∈ A') -> R root ->
  Forall page_ok A -> owned T A (tf :: P) -> pspace s T l root tf P ->
  pspace s' T' l' root tf P /\ same_user s root s' root /\ forall o, 0 <= o < PGSIZE -> ld8 (mem s') (tf + o) = ld8 (mem s) (tf + o).
Proof.
  intros K I' Hl HR HA HoA PS. pose proof PS as [[U _ _ _] _]. pose proof (us_inv _ _ _ _ _ U) as I. split; [by eapply pspace_kept|].
  assert (forall p x, p ∈ tf :: P -> p <= x < p + PGSIZE -> ld8 (mem s') x = ld8 (mem s) x) as F.
  { intros p x Hp Hx. apply (kp_mem _ _ _ _ _ _ _ K). destruct HoA as [_ HF]. rewrite Forall_forall in HF, HA. destruct (HF p Hp) as (Hok & HpA & HpT).
    intros q Hq. apply (off_page p q); [done| | |done]; [|intros ->]; destruct Hq as [[k Hq]|Hq]; [by eapply v_ok|by apply HA|congruence|done]. }
  split; [|intros o Hr; apply (F tf); [set_solver|lia]]. eapply same_user_views; [exact U|intros va Hva; apply (kp_view _ _ _ _ _ _ _ K); [done|apply U|done]|].
  intros p x Hp. apply F. set_solver.
Qed.
Lemma pspace_same (R : Z -> Prop) s T l s' T' l' A' root tf P : kept R s T l s' T' A' -> vinv s' T' l' -> (forall p, p ∈ l' -> p ∈ A') -> R root ->
  pspace s T l root tf P -> pspace s' T' l' root tf P /\ same_user s root s' root /\ forall o, 0 <= o < PGSIZE -> ld8 (mem s') (tf + o) = ld8 (mem s) (tf + o).
Proof.
  intros K I' Hl HR PS. eapply pspace_same_gen; [exact K|done|done|done| |apply PS|exact PS]. apply Forall_forall. intros p Hp.
  by apply (free_page s T l p (us_inv _ _ _ _ _ (ps_us _ _ _ _ _ _ (ps_view _ _ _ _ _ _ PS)))).
Qed.

(** The copy of the trapframe, with register [a0] set to 0. *)
Definition copy_frame (tf tfp : Z) (m : memory) : memory := st64 (memmove m tf tfp sizeof_trapframe) (tf + TF_a 0) 0.

Lemma copy_frame_at tf tfp m a : mem_ok m ->
  ld8 (copy_frame tf tfp m) a = if decide (tf + 112 <= a < tf + 120) then 0
    else if decide (tf <= a < tf + sizeof_trapframe) then ld8 m (tfp + (a - tf)) else ld8 m a.
Proof.
  intros Hm. unfold copy_frame. with_strategy transparent [st64] (unfold st64). change (TF_a 0) with 112. rewrite ld8_stn by auto with xv6. rewrite le_bytes_length.
  replace (tf + 112 + Z.of_nat 8) with (tf + 120) by lia. case_decide as E.
  - change (le_bytes 8 0) with (replicate 8 0). by rewrite lookup_total_replicate_2 by lia.
  - apply ld8_memmove; [done|]. intros i _. apply Hm.
Qed.

(** A store into the trapframe page. *)
Lemma frame_write s T l A root tf Q m (s' := set_mem m s) : pspace s T l root tf Q -> tf ∈ A -> mem_ok m ->
  (forall x, ~ tf <= x < tf + PGSIZE -> ld8 m x = ld8 (mem s) x) ->
  pspace s' T l root tf Q /\ kept (fun _ => True) s T A s' T A /\ same_user s root s' root.
Proof.
  intros [[U Ht Hf Hh] Ho] HA Hm F. pose proof (us_inv _ _ _ _ _ U) as I. pose proof TRAPFRAME_eq. pose proof MAXVA_eq. assert (TRAMPOLINE = TRAPFRAME + 4096) by (unfold TRAPFRAME, PGSIZE; lia).
  destruct (owned_cons _ _ _ _ Ho) as (Hok & HnQ & HoQ).
  destruct (write_kept s T l A tf m I) as [I' K]; [split; [apply NoDup_singleton|by apply Forall_singleton]|done|done|done|].
  fold s' in I', K. assert (forall va, 0 <= va < 2 ^ 39 -> view (entries (mem s')) root va = view (entries (mem s)) root va) as V.
  { intros va Hva. by apply (kp_view _ _ _ _ _ _ _ K); [|apply U|]. }
  split; [split; [split|done]|split; [done|]].
  - eapply uspace_ext; [exact U|done|done|apply U|done].
  - intros va Hva. rewrite V by lia. by apply Ht.
  - intros va Hva. rewrite V by lia. by apply Hf.
  - intros va Hva. rewrite V by lia. by apply Hh.
  - eapply same_user_views; [exact U|done|]. intros p x Hp Hx. apply F. pose proof (us_owned _ _ _ _ _ U) as [_ HF]. rewrite Forall_forall in HF.
    apply (off_page p tf); [apply (HF p Hp)|apply Hok|congruence|done].
Qed.
Lemma copy_frame_ok s T l A root tf tfp Q (s' := set_mem (copy_frame tf tfp (mem s)) s) : pspace s T l root tf Q -> tf ∈ A ->
  pspace s' T l root tf Q /\ kept (fun _ => True) s T A s' T A /\ same_user s root s' root.
Proof.
  intros PS HA. pose proof (kinv_mem _ _ (v_k _ _ _ (us_inv _ _ _ _ _ (ps_us _ _ _ _ _ _ (ps_view _ _ _ _ _ _ PS))))) as Hm.
  apply frame_write; [done|done|unfold copy_frame; by apply mem_ok_st64, mem_ok_memmove|].
  intros x Hx. rewrite copy_frame_at by done. unfold sizeof_trapframe, PGSIZE in *. by rewrite !decide_False by lia.
Qed.

(** ** Writing into the memory of a process *)

(** The user at [root] sees the bytes [src] from [va] on, and elsewhere what it saw. *)
Definition user_gets (s : kst) (s' : kst) (root va : Z) (src : list Z) : Prop :=
  forall v, user_byte s' root v = if decide (va <= v < va + lenZ src) then src !! Z.to_nat (v - va) else user_byte s root v.

Lemma user_addr_weak s root perm v x : user_addr s root perm v = Some x -> user_addr s root 0 v = Some x.
Proof.
  unfold user_addr. cbn [Z.eqb orb]. rewrite andb_true_r. set (b := _ && flag _ PTE_U). destruct b; [|done]. cbn [andb]. by destruct ((perm =? 0) || _).
Qed.

Lemma copyout_space s T l root tf P va src : pspace s T l root tf P -> Forall is_byte src -> 0 <= va < 2 ^ 64 ->
  exists r s', copyout root va src s = Ok r s' /\ pspace s' T l root tf P /\ kept (fun _ => True) s T (P ++ l) s' T (P ++ l) /\
    ((r = 0 /\ user_gets s s' root va src) \/
     (r = -1 /\ (exists v, va <= v < va + lenZ src /\ user_addr s root PTE_W v = None) /\
        forall v, ~ va <= v < va + lenZ src -> user_byte s' root v = user_byte s root v)).
Proof.
  intros [[U Ht Hf Hh] Ho] Hb Hva. destruct (copyout_run (length src) s T l root P va src U Hb Hva) as (r & s' & Hr & U' & Hkm & V & F & Hc); [done|].
  pose proof TRAPFRAME_eq. pose proof MAXVA_eq. assert (TRAMPOLINE = TRAPFRAME + 4096) by (unfold TRAPFRAME, PGSIZE; lia). pose proof (us_root _ _ _ _ _ U) as HR.
  assert (forall perm v, user_addr s' root perm v = user_addr s root perm v) as Ea by (intros; apply user_addr_ext; by apply V).
  assert (forall v, ~ va <= v < va + lenZ src -> user_byte s' root v = user_byte s root v) as Hout.
  { intros v Hv. unfold user_byte. rewrite Ea. destruct (user_addr s root 0 v) as [x|] eqn:Ex; [|done]. cbn. f_equal. apply F. intros (w & Hw & Hx).
    pose proof (user_addr_inj s T l root P _ _ _ _ _ U Ex Hx). lia. }
  exists r, s'. split; [done|]. split; [|split].
  - split; [|done]. split; [done|..]; intros v Hv; rewrite V by done; [by apply Ht|by apply Hf|by apply Hh].
  - split; [done|intros; by apply V|done| |done|].
    { intros q p _ Hq. apply (tree_dirs _ _ T); [apply U|done|]. intros a j k Ha Hj. apply entries_frame; [done|]. intros x Hx. apply F. intros (v & _ & Ev).
      destruct (user_page_ok _ _ _ _ _ _ _ _ U Ev) as (b & Hb0 & _ & _ & Hpx). eapply (owned_outside s T l P b x); [apply U|apply U|done|done|left; eauto|done]. }
    intros x Hx. apply F. intros (v & _ & Ev). destruct (user_page_ok _ _ _ _ _ _ _ _ U Ev) as (p & Hp & _ & _ & Hpx).
    apply (Hx p); [right; set_solver|done].
  - destruct Hc as [[-> Hc]|[-> Hc]]; [left|right; split; [done|]; split; [done|exact Hout]]. split; [done|]. intros v. case_decide as Hv; [|by apply Hout].
    destruct (lookup_lt_is_Some_2 src (Z.to_nat (v - va))) as [c Hsc]; [unfold lenZ in Hv; lia|]. rewrite Hsc.
    destruct (Hc _ _ Hsc) as (x & Hx & <-). replace (va + Z.of_nat (Z.to_nat (v - va))) with v in Hx by lia. unfold user_byte. by rewrite Ea, (user_addr_weak _ _ _ _ _ Hx).
Qed.
End procmem.
