(* ===== verification/Fork.v ===== *)
(** * Creating a process: [allocproc], [freeproc] and [fork] of [kernel/proc.c] *)

From stdpp Require Import base list gmap strings.
From S2P Require Import Prelude Riscv Mem Spinlock Kalloc Vm VmTable VmWalk VmUser VmCopy VmFree Sleeplock ProcData Bytes Bio Log Fs Pipe File Proc ProcSpec ProcMem.

(** ** Memory and process table inside the kernel state *)

Definition st (k : kst) (t : ptable) (s : kern) : kern := set_kf (mkFsst (fl (kf s)) (fsb (kf s)) (fit (kf s)) k t) s.
Definition tupd (p : Z) (x : proc) (t : ptable) : ptable := mkPtable (<[p := x]> (procs t)) (cur t).

Lemma st_id s : st (fk (kf s)) (ptab s) s = s.
Proof. by destruct s as [[] ? ? ? ? ? ? ? ?]. Qed.
Lemma proc_at_tupd p x t i : proc_at (tupd p x t) i = if decide (i = p) then x else proc_at t i.
Proof. apply proc_at_upd. Qed.
Lemma proc_at_self p x t : proc_at (tupd p x t) p = x.
Proof. by rewrite proc_at_tupd, decide_True. Qed.
Lemma tupd_tupd p x y t : tupd p x (tupd p y t) = tupd p x t.
Proof. unfold tupd. cbn. by rewrite insert_insert_eq. Qed.
Lemma one_changed_tupd t t1 p x y : one_changed t t1 p x -> one_changed t (tupd p y t1) p y.
Proof. intros [C P]. split; [done|]. intros i. rewrite proc_at_tupd. case_decide; [done|]. by rewrite P, decide_False. Qed.

Section runs.
Context (k : kst) (t : ptable) (s : kern) {B : Type}.

Lemma km_bind {A} (m : M kst A) (f : A -> M kern B) a k' : m k = Ok a k' -> bind (km_ m) f (st k t s) = f a (st k' t s).
Proof. intros E. rewrite (bind_Ok _ _ _ a (st k' t s)); [done|]. unfold km_, fs, zk, zoom. cbn. by rewrite E. Qed.
Lemma pt_bind {A} (m : M ptable A) (f : A -> M kern B) a t' : m t = Ok a t' -> bind (pt m) f (st k t s) = f a (st k t' s).
Proof. intros E. rewrite (bind_Ok _ _ _ a (st k t' s)); [done|]. unfold pt, fs, zoom. cbn. by rewrite E. Qed.
Lemma get_bind p (f : proc -> M kern B) : bind (pt (get_p p)) f (st k t s) = f (proc_at t p) (st k t s).
Proof. by apply (pt_bind (get_p p)). Qed.
Lemma upd_bind p g (f : unit -> M kern B) : bind (pt (upd_p p g)) f (st k t s) = f tt (st k (tupd p (g (proc_at t p)) t) s).
Proof. by apply (pt_bind (upd_p p g)). Qed.
Lemma rel_bind p (f : unit -> M kern B) : p_lock (proc_at t p) = held_lock ->
  bind (pt (p_spin p lk_release)) f (st k t s) = f tt (st k (tupd p (set_plock initlock (proc_at t p)) t) s).
Proof. intros E. apply (pt_bind (p_spin p lk_release)). unfold p_spin, zoom. by rewrite E. Qed.
Lemma acq_bind p (f : unit -> M kern B) : p_lock (proc_at t p) = initlock ->
  bind (pt (p_spin p lk_acquire)) f (st k t s) = f tt (st k (tupd p (set_plock held_lock (proc_at t p)) t) s).
Proof. intros E. apply (pt_bind (p_spin p lk_acquire)). unfold p_spin, zoom. by rewrite E. Qed.
End runs.

(** Steps on the entry [p] of the table. *)
Ltac entry := repeat first
  [rewrite upd_bind, ?proc_at_self, ?tupd_tupd; cbv beta
  |rewrite get_bind, ?proc_at_self].

Section fork.
Context `{Layout} `{Devsw} `{Forkret}.

(** ** [freeproc] *)

Definition freed_entry (x : proc) : proc :=
  mkProc (p_lock x) UNUSED None 0 0 0 None (p_kstack x) 0 0 0 (p_context x) (p_ofile x) (p_cwd x) (<[0%nat := 0]> (p_name x)).

Lemma freeproc_run k k1 k2 t s p x :
  (if negb (p_trapframe x =? 0) then kfree (p_trapframe x) else return tt) k = Ok tt k1 ->
  (if negb (p_pagetable x =? 0) then proc_freepagetable (p_pagetable x) (p_sz x) else return tt) k1 = Ok tt k2 ->
  freeproc p (st k (tupd p x t) s) = Ok tt (st k2 (tupd p (freed_entry x) t) s).
Proof.
  intros Hk1 Hk2. unfold freeproc. entry.
  assert (forall B (f : unit -> M kern B) t, bind (if negb (p_trapframe x =? 0) then km_ (kfree (p_trapframe x)) else return tt) f (st k t s) = f tt (st k1 t s)) as E1.
  { intros B f t'. destruct (negb (p_trapframe x =? 0)); [by apply km_bind|]. by injection Hk1 as <-. }
  rewrite E1. entry.
  assert (forall B (f : unit -> M kern B) t, bind (if negb (p_pagetable x =? 0) then km_ (proc_freepagetable (p_pagetable x) (p_sz x)) else return tt) f (st k1 t s) = f tt (st k2 t s)) as E2.
  { intros B f t'. destruct (negb (p_pagetable x =? 0)); [by apply km_bind|]. by injection Hk2 as <-. }
  rewrite E2. unfold pt, fs, zoom, upd_p, modify. cbn. rewrite proc_at_self, insert_insert_eq. by destruct x.
Qed.

(** ** [allocproc] *)

(** An entry that is not in use, as [freeproc] and the end of a process leave it. *)
Record clean (x : proc) : Prop := {
  cl_state : p_state x = UNUSED;
  cl_pagetable : p_pagetable x = 0;
  cl_sz : p_sz x = 0;
  cl_killed : p_killed x = 0;
  cl_ofile : p_ofile x = replicate (Z.to_nat NOFILE) None
}.
Definition bump (s : kern) : kern := set_nextpid (s32 (k_nextpid s + 1)) s.
(** The entry as [allocproc] returns it. *)
Definition alloc_entry (pid tf root : Z) (x : proc) : proc :=
  mkProc held_lock USED (p_chan x) (p_killed x) (p_xstate x) pid (p_parent x) (p_kstack x) (p_sz x) root tf
    (mkContext forkret_addr (p_kstack x + PGSIZE) (replicate 12 0)) (p_ofile x) (p_cwd x) (p_name x).
(** No entry is free, or fewer than [n] pages are. *)
Definition no_room (t : ptable) (l : list Z) (n : Z) : Prop := (forall j, 0 <= j < NPROC -> p_state (proc_at t j) <> UNUSED) \/ lenZ l < n.
(** The table after a failure: as before, but for an entry that was not in use and is not. *)
Definition undone (t t' : ptable) : Prop :=
  same_table t t' \/ exists q y, 0 <= q < NPROC /\ p_state (proc_at t q) = UNUSED /\ clean y /\ p_lock y = initlock /\ one_changed t t' q y.

Lemma allocpid_run {B} k t s (f : Z -> M kern B) : k_pid_lock s = initlock -> bind allocpid f (st k t s) = f (k_nextpid s) (st k t (bump s)).
Proof.
  intros E. rewrite (bind_Ok _ _ _ (k_nextpid s) (st k t (bump s))); [done|]. destruct s as [a b c d lk e g h i]. cbn in E. by subst lk.
Qed.

(** Giving up: [freeproc(p); release(&p->lock)]. *)
Lemma abandon_run {B} k k1 k2 t s p x (m : M kern B) :
  (if negb (p_trapframe x =? 0) then kfree (p_trapframe x) else return tt) k = Ok tt k1 ->
  (if negb (p_pagetable x =? 0) then proc_freepagetable (p_pagetable x) (p_sz x) else return tt) k1 = Ok tt k2 -> p_lock x = held_lock ->
  (freeproc p ;;; pt (p_spin p lk_release) ;;; m) (st k (tupd p x t) s) = m (st k2 (tupd p (set_plock initlock (freed_entry x)) t) s).
Proof.
  intros Hk1 Hk2 Hl. rewrite (bind_Ok _ _ _ _ _ (freeproc_run k k1 k2 t s p x Hk1 Hk2)), rel_bind by (rewrite proc_at_self; exact Hl).
  by rewrite proc_at_self, tupd_tupd.
Qed.
Lemma undone_abandon t t1 p x y : 0 <= p < NPROC -> clean (proc_at t p) -> one_changed t t1 p x -> p_ofile y = p_ofile (proc_at t p) ->
  undone t (tupd p (set_plock initlock (freed_entry y)) t1).
Proof.
  intros Hp [C1 C2 C3 C4 C5] Ho Ey. right. exists p, (set_plock initlock (freed_entry y)). split; [done|]. split; [done|]. split; [split; cbn; congruence|].
  split; [done|]. by eapply one_changed_tupd.
Qed.

Lemma allocproc_ok k t s T l : vinv k T l -> unlocked t -> k_pid_lock s = initlock ->
  (forall i, 0 <= i < NPROC -> p_state (proc_at t i) = UNUSED -> clean (proc_at t i)) ->
  exists r k' t' s' T' l', allocproc (st k t s) = Ok r (st k' t' s') /\ vinv k' T' l' /\
    match r with
    | None => kept (fun _ => True) k T l k' T' l' /\ undone t t' /\ (s' = s \/ s' = bump s) /\ no_room t l 6
    | Some q => s' = bump s /\ 0 <= q < NPROC /\ p_state (proc_at t q) = UNUSED /\ lenZ l <= lenZ l' + 6 /\
        exists root tf, T !! root = None /\ root <> 0 /\ tf <> 0 /\ kept (fun q => q <> root) k T l k' T' (tf :: l') /\ pspace k' T' l' root tf [] /\
          exists t1, t' = tupd q (alloc_entry (k_nextpid s) tf root (proc_at t q)) t1 /\ one_changed t t1 q (set_plock held_lock (proc_at t q))
    end.
Proof.
  intros I U Hpl Hcl. unfold allocproc.
  destruct (allocproc_find_spec (Z.to_nat NPROC) 0 t U ltac:(lia) ltac:(done)) as (r & t1 & Hf & Hr). rewrite (pt_bind _ _ _ _ _ _ _ Hf).
  destruct r as [q|]; [|exists None, k, t1, s, T, l; split; [done|]; split; [done|]; split; [apply kept_refl|]; split; [left; apply Hr|]; split; [by left|left; apply Hr]].
  destruct Hr as (Hq & Hu & _ & Ho). rewrite Z2Nat.id in Hq by done. pose proof (Hcl q Hq Hu) as Cq. set (x := proc_at t q) in *.
  assert (proc_at t1 q = set_plock held_lock x) as Ex by (destruct Ho as [_ P]; by rewrite P, decide_True).
  rewrite allocpid_run by done. rewrite upd_bind, Ex. entry.
  destruct (kalloc_kept k T l I) as [[-> Hk]|(tf & l1 & k1 & -> & Hk & Htf & I1 & Otf & K1)]; rewrite (km_bind _ _ _ _ _ _ _ Hk); entry.
  { cbn [Z.eqb]. rewrite (abandon_run k k k); [|done|cbn; by rewrite (cl_pagetable _ Cq)|done].
    eexists None, k, _, _, T, []. split; [done|]. split; [done|]. split; [apply kept_refl|]. split; [by eapply undone_abandon|]. split; [by right|by right]. }
  rewrite (proj2 (Z.eqb_neq _ _) Htf).
  destruct (proc_pagetable_ok k1 T l1 tf I1 Otf) as (root & k2 & T2 & l2 & Hpg & I2 & K2 & Hroot). rewrite (km_bind _ _ _ _ _ _ _ Hpg); entry.
  assert (kept (fun q => root = 0 \/ q <> root) k T (tf :: l1) k2 T2 (tf :: l2)) as K.
  { eapply kept_trans; [by apply (kept_weaken (fun _ => True)), K1|exact (kept_more _ _ _ _ _ _ _ [tf] K2)]. }
  destruct (Z.eqb_spec root 0) as [->|Hr0].
  - destruct Hroot as [[_ Hl]|[? _]]; [|done]. destruct (kfree_kept k2 T2 l2 tf I2) as (k3 & Hkf & I3 & K3); [by eapply owned_kept|].
    rewrite (abandon_run k2 k3 k3); [|cbn; by rewrite (proj2 (Z.eqb_neq _ _) Htf)|done|done].
    eexists None, k3, _, _, T2, (tf :: l2). split; [done|]. split; [done|]. split; [eapply kept_trans; [eapply kept_weaken, K; by left|exact K3]|]. split; [by eapply undone_abandon|]. split; [by right|right; rewrite lenZ_cons; lia].
  - destruct Hroot as [[? _]|(_ & Hl & HT & PS)]; [done|]. entry. eexists (Some q), k2, _, _, T2, l2. split; [done|]. split; [done|].
    split; [done|]. split; [done|]. split; [done|]. split; [rewrite lenZ_cons; lia|]. exists root, tf. split; [done|]. split; [done|]. split; [done|]. split; [eapply kept_weaken, K; by right|]. split; [done|].
    exists t1. done.
Qed.

(** ** The files of the child *)

Definition add_ref (ft : ftable) (o : option Z) : ftable :=
  match o with Some f => mkFtable (ft_lock ft) (<[f := set_fref (f_ref (ft_file ft !!! f) + 1) (ft_file ft !!! f)]> (ft_file ft)) | None => ft end.
Definition add_refs (os : list (option Z)) (ft : ftable) : ftable := foldl add_ref ft os.
Definition uses (f : Z) (os : list (option Z)) : Z := Z.of_nat (length (filter (fun o => o = Some f) os)).

Lemma add_refs_at os ft f : ft_file (add_refs os ft) !!! f = set_fref (f_ref (ft_file ft !!! f) + uses f os) (ft_file ft !!! f).
Proof.
  unfold add_refs, uses. revert ft. induction os as [|o os IH]; intros ft; cbn [foldl]; [cbn; rewrite Z.add_0_r; by destruct (ft_file ft !!! f)|].
  rewrite IH. destruct o as [g|]; cbn [add_ref ft_file]; [|by rewrite filter_cons_False].
  destruct (decide (g = f)) as [->|Hne]; [rewrite lookup_total_insert_eq, filter_cons_True by done|rewrite lookup_total_insert_ne, filter_cons_False by congruence; done].
  cbn [length]. destruct (ft_file ft !!! f). unfold set_fref. cbn. f_equal. lia.
Qed.
Lemma add_refs_lock os ft : ft_lock (add_refs os ft) = ft_lock ft.
Proof. unfold add_refs. revert ft. induction os as [|o os IH]; intros ft; [done|]. cbn [foldl]. rewrite IH. by destruct o. Qed.

Lemma filedup_run {B} k t s f (g : Z -> M kern B) : ft_lock (kft s) = initlock -> 1 <= f_ref (file_at s f) ->
  bind (filedup f) g (st k t s) = g f (st k t (set_kft (add_ref (kft s) (Some f)) s)).
Proof.
  intros Hl Hr. rewrite (bind_Ok _ _ _ f (st k t (set_kft (add_ref (kft s) (Some f)) s))); [done|].
  destruct s as [a [lk ff] c d e h i j m]. cbn in Hl. subst lk. unfold file_at in Hr. cbn in Hr. unfold filedup, ft_spin, zoom, bind. cbn. unfold file_at. cbn.
  destruct (Z.ltb_spec (f_ref (ff !!! f)) 1); [lia|]. done.
Qed.

Definition with_ofile (os : list (option Z)) (x : proc) : proc :=
  mkProc (p_lock x) (p_state x) (p_chan x) (p_killed x) (p_xstate x) (p_pid x) (p_parent x) (p_kstack x) (p_sz x) (p_pagetable x)
    (p_trapframe x) (p_context x) os (p_cwd x) (p_name x).

Lemma dup_files_run k t s p np x : ft_lock (kft s) = initlock -> (forall f, Some f ∈ p_ofile p -> 1 <= f_ref (file_at s f)) ->
  length (p_ofile p) = Z.to_nat NOFILE -> p_ofile x = replicate (Z.to_nat NOFILE) None ->
  dup_files p np (st k (tupd np x t) s) = Ok tt (st k (tupd np (with_ofile (p_ofile p) x) t) (set_kft (add_refs (p_ofile p) (kft s)) s)).
Proof.
  intros Hl Hr Hlen Hx. set (os := p_ofile p) in *.
  set (J := fun (i : Z) (s' : kern) => s' = st k (tupd np (with_ofile (take (Z.to_nat i) os ++ replicate (Z.to_nat NOFILE - Z.to_nat i) None) x) t)
    (set_kft (add_refs (take (Z.to_nat i) os) (kft s)) s)).
  destruct (for_range_inv J (Z.to_nat NOFILE) 0 (fun i =>
    match os !! Z.to_nat i with Some (Some f) => do f <- filedup f; pt (upd_p np (set_ofile i (Some f))) | _ => return tt end)
    (st k (tupd np x t) s)) as (s' & Hrun & HJ).
  - intros i s1 Hi ->. rewrite Z2Nat.id in Hi by done. destruct (lookup_lt_is_Some_2 os (Z.to_nat i) ltac:(lia)) as [o Ho]. rewrite Ho.
    unfold J. replace (Z.to_nat (i + 1)) with (S (Z.to_nat i)) by lia. rewrite (take_S_r _ _ _ Ho). unfold add_refs. rewrite foldl_app.
    assert (Z.to_nat NOFILE - Z.to_nat i = S (Z.to_nat NOFILE - S (Z.to_nat i)))%nat as -> by lia. cbn [replicate foldl]. rewrite <- app_assoc. cbn [app].
    destruct o as [f|]; [|by eexists].
    set (s1 := set_kft (foldl add_ref (kft s) (take (Z.to_nat i) os)) s). rewrite filedup_run.
    + eexists. split; [|reflexivity]. unfold pt, fs, zoom, upd_p, modify. cbn. rewrite proc_at_self, insert_insert_eq. unfold set_ofile, with_ofile. cbn.
      rewrite insert_app_r_alt by (rewrite length_take; lia). rewrite length_take, Nat.min_l, Nat.sub_diag by lia. done.
    + unfold s1. cbn. fold (add_refs (take (Z.to_nat i) os) (kft s)). by rewrite add_refs_lock.
    + unfold s1, file_at. cbn. fold (add_refs (take (Z.to_nat i) os) (kft s)). rewrite add_refs_at. cbn. unfold uses.
      specialize (Hr f (list_elem_of_lookup_2 _ _ _ Ho)). unfold file_at in Hr. lia.
  - unfold J. cbn [Z.to_nat take app Nat.sub]. unfold add_refs. cbn [foldl]. f_equal; [|by destruct s]. f_equal. destruct x. cbn in Hx. unfold with_ofile. cbn. by rewrite Hx.
  - unfold dup_files. fold os. rewrite Hrun, HJ. rewrite Z.add_0_l, Nat2Z.id, Nat.sub_diag, take_ge by lia. cbn [replicate]. by rewrite app_nil_r.
Qed.

(** ** [fork] *)

(** One more reference to an inode. *)
Definition bump_inode (ip : Z) (s : kern) : kern :=
  set_kf (set_fit (mkItable (it_lock (fit (kf s))) (<[ip := set_iref (i_ref (inode_at (kf s) ip) + 1) (inode_at (kf s) ip)]> (it_inode (fit (kf s))))) (kf s)) s.

Lemma idup_run {B} k t s ip (g : Z -> M kern B) : it_lock (fit (kf s)) = initlock ->
  bind (fs (idup ip)) g (st k t s) = g ip (st k t (bump_inode ip s)).
Proof.
  intros Hl. rewrite (bind_Ok _ _ _ ip (st k t (bump_inode ip s))); [done|]. destruct s as [[a b [lk tb] c d] ? ? ? ? ? ? ? ?]. cbn in Hl. by subst lk.
Qed.
Lemma parent_run {B} k t s np f (m : M kern B) : k_wait_lock s = initlock ->
  (wait_spin lk_acquire ;;; pt (upd_p np f) ;;; wait_spin lk_release ;;; m) (st k t s) = m (st k (tupd np (f (proc_at t np)) t) s).
Proof. intros Hl. destruct s as [[a b c d e] ? ? ? ? lk ? ? ?]. cbn in Hl. by subst lk. Qed.

(** The entry of the child. *)
Definition child_entry (me pid root tf : Z) (p x : proc) : proc :=
  mkProc initlock RUNNABLE (p_chan x) (p_killed x) (p_xstate x) pid (Some me) (p_kstack x) (p_sz p) root tf
    (mkContext forkret_addr (p_kstack x + PGSIZE) (replicate 12 0)) (p_ofile p) (p_cwd p) (safestrcpy (p_name x) (p_name p) 16).

(** After the memory is copied. *)
Lemma fork_rest_run k t s me np pid root tf p x ip :
  ft_lock (kft s) = initlock -> (forall f, Some f ∈ p_ofile p -> 1 <= f_ref (file_at s f)) -> length (p_ofile p) = Z.to_nat NOFILE ->
  p_ofile x = replicate (Z.to_nat NOFILE) None -> it_lock (fit (kf s)) = initlock -> k_wait_lock s = initlock -> p_cwd p = Some ip ->
  (pt (upd_p np (set_sz (p_sz p))) ;;;
   km_ (mem_move tf (p_trapframe p) sizeof_trapframe) ;;;
   tf_store tf (TF_a 0) 0 ;;;
   dup_files p np ;;;
   do cwd <- fs (idup (default 0 (p_cwd p)));
   pt (upd_p np (set_cwd (Some cwd))) ;;;
   pt (upd_p np (fun x => set_name (safestrcpy (p_name x) (p_name p) 16) x)) ;;;
   do x <- pt (get_p np);
   pt (p_spin np lk_release) ;;;
   wait_spin lk_acquire ;;;
   pt (upd_p np (set_parent (Some me))) ;;;
   wait_spin lk_release ;;;
   pt (p_spin np lk_acquire) ;;;
   pt (upd_p np (set_state RUNNABLE)) ;;;
   pt (p_spin np lk_release) ;;;
   return (p_pid x)) (st k (tupd np (alloc_entry pid tf root x) t) s)
  = Ok pid (st (set_mem (copy_frame tf (p_trapframe p) (mem k)) k) (tupd np (child_entry me pid root tf p x) t)
      (bump_inode ip (set_kft (add_refs (p_ofile p) (kft s)) s))).
Proof.
  intros Hft Hr Hlen Hx Hit Hwl Hcwd. entry. rewrite (km_bind _ _ _ _ _ tt (set_mem (memmove (mem k) tf (p_trapframe p) sizeof_trapframe) k)) by done.
  unfold tf_store. rewrite (km_bind _ _ _ _ _ tt (set_mem (copy_frame tf (p_trapframe p) (mem k)) k)) by done.
  rewrite (bind_Ok _ _ _ _ _ (dup_files_run _ t s p np (set_sz (p_sz p) (alloc_entry pid tf root x)) Hft Hr Hlen Hx)).
  rewrite idup_run by done. rewrite Hcwd. cbn [default from_option id]. entry. rewrite rel_bind, proc_at_self, tupd_tupd by (by rewrite proc_at_self).
  rewrite parent_run, proc_at_self, tupd_tupd by done. rewrite acq_bind, proc_at_self, tupd_tupd by (by rewrite proc_at_self). entry.
  rewrite rel_bind, proc_at_self, tupd_tupd by (by rewrite proc_at_self). unfold child_entry. rewrite Hcwd. done.
Qed.

(** The kernel between two system calls of the running process, whose pages are [P]; [T] are
    the pages of page tables, [l] the free ones. *)
Record fork_pre (s : kern) (T : gmap Z nat) (l P : list Z) (p : proc) (ip : Z) : Prop := {
  fp_unlocked : unlocked (ptab s);
  fp_pid : k_pid_lock s = initlock;
  fp_wait : k_wait_lock s = initlock;
  fp_ft : ft_lock (kft s) = initlock;
  fp_it : it_lock (fit (kf s)) = initlock;
  fp_clean : forall i, 0 <= i < NPROC -> p_state (proc_at (ptab s) i) = UNUSED -> clean (proc_at (ptab s) i);
  fp_space : pspace (fk (kf s)) T l (p_pagetable p) (p_trapframe p) P;
  fp_sz : 0 <= p_sz p <= TRAPFRAME /\ PGROUNDUP (p_sz p) = lenZ P * PGSIZE;
  fp_ofile : length (p_ofile p) = Z.to_nat NOFILE;
  fp_refs : forall f, Some f ∈ p_ofile p -> 1 <= f_ref (file_at s f);
  fp_cwd : p_cwd p = Some ip
}.

(** Process [np], with page table [root], trapframe [tf] and pages [Q], is a copy of [p]. *)
Record forked (s : kern) (T : gmap Z nat) (l P : list Z) (p : proc) (ip : Z) (s' : kern) T' l' (np root tf : Z) (Q : list Z) : Prop := {
  fo_unused : 0 <= np < NPROC /\ p_state (proc_at (ptab s) np) = UNUSED /\ T !! root = None;
  fo_table : one_changed (ptab s) (ptab s') np (child_entry (cur (ptab s)) (k_nextpid s) root tf p (proc_at (ptab s) np));
  fo_space : pspace (fk (kf s')) T' l' root tf Q /\ length Q = length P;
  fo_user : same_user (fk (kf s)) (p_pagetable p) (fk (kf s')) root;
  fo_frame : forall o, 0 <= o < sizeof_trapframe -> ld8 (mem (fk (kf s'))) (tf + o) = if decide (112 <= o < 120) then 0 else ld8 (mem (fk (kf s))) (p_trapframe p + o);
  fo_files : forall f, file_at s' f = set_fref (f_ref (file_at s f) + uses f (p_ofile p)) (file_at s f);
  (** the pages taken are the trapframe, the memory and the page table of the child *)
  fo_pages : forall q, q ∈ l <-> q ∈ tf :: Q ++ l' \/ tree (entries (mem (fk (kf s')))) root q;
  fo_apart : NoDup (tf :: Q ++ l') /\ forall q, q ∈ tf :: Q ++ l' -> ~ tree (entries (mem (fk (kf s')))) root q;
  (** the rest: one more number used, one more reference to the current directory *)
  fo_rest : s' = st (fk (kf s')) (ptab s') (bump_inode ip (set_kft (kft s') (bump s)))
}.

Definition fork_post (s : kern) (T : gmap Z nat) (l P : list Z) (p : proc) (ip : Z) (r : Z) (s' : kern) : Prop :=
  exists T' l', vinv (fk (kf s')) T' l' /\
    (forall root tf P', pspace (fk (kf s)) T l root tf P' -> pspace (fk (kf s')) T' l' root tf P' /\ same_user (fk (kf s)) root (fk (kf s')) root /\
       forall o, 0 <= o < PGSIZE -> ld8 (mem (fk (kf s'))) (tf + o) = ld8 (mem (fk (kf s))) (tf + o)) /\
    (forall root q, T !! root = Some 2%nat -> tree (entries (mem (fk (kf s')))) root q <-> tree (entries (mem (fk (kf s)))) root q) /\
    ((r = -1 /\ no_room (ptab s) l (3 * lenZ P + 6) /\ undone (ptab s) (ptab s') /\ (forall q, q ∈ l' <-> q ∈ l) /\
        (s' = st (fk (kf s')) (ptab s') s \/ s' = st (fk (kf s')) (ptab s') (bump s))) \/
     (r = k_nextpid s /\ exists np root tf Q, forked s T l P p ip s' T' l' np root tf Q)).

(** A failure: everything is given back. *)
Lemma fork_failed s T l P p ip k' t' s' T' l' : vinv (fk (kf s)) T l -> kept (fun _ => True) (fk (kf s)) T l k' T' l' -> vinv k' T' l' -> undone (ptab s) t' -> s' = s \/ s' = bump s -> no_room (ptab s) l (3 * lenZ P + 6) ->
  fork_post s T l P p ip (-1) (st k' t' s').
Proof.
  intros I0 K I Hu Hs Hn. exists T', l'. split; [done|]. split; [|split].
  - intros root tf P' PS. by apply (pspace_same (fun _ => True) _ T l _ T' l' l').
  - intros root q. by apply (kp_trees _ _ _ _ _ _ _ K).
  - left. split; [done|]. split; [done|]. split; [done|]. split; [intros q; by apply (kept_free _ _ _ _ _ _ _ K)|]. destruct Hs as [->| ->]; [left|right]; done.
Qed.

(** The pages of a new process. *)
Lemma child_pages k T l k' T' l' root tf Q : vinv k T l -> T !! root = None -> kept (fun q => q <> root) k T l k' T' (tf :: Q ++ l') -> pspace k' T' l' root tf Q ->
  (forall q, q ∈ l <-> q ∈ tf :: Q ++ l' \/ tree (entries (mem k')) root q) /\
  NoDup (tf :: Q ++ l') /\ forall q, q ∈ tf :: Q ++ l' -> ~ tree (entries (mem k')) root q.
Proof.
  intros I HT K [[U _ _ _] Ho]. pose proof (us_inv _ _ _ _ _ U) as I'. pose proof (us_root _ _ _ _ _ U) as Hr. split; [|split].
  - intros q. pose proof (kept_one root k T [] l k' T' (tf :: Q) l' q K I I' ltac:(split; [constructor|done]) Ho) as E. rewrite HT, Hr in E. cbn [app] in E.
    split; [intros Hq; destruct (proj2 E) as [?|[_ ?]]; [by left|by left|by right]|]. intros Hq. destruct (proj1 E) as [?|[? _]]; [tauto|done|discriminate].
  - change (NoDup ((tf :: Q) ++ l')). apply NoDup_app. destruct Ho as [HN HF]. rewrite Forall_forall in HF. split; [done|]. split; [intros q Hq; by apply HF|apply I'].
  - intros q Hq Ht. pose proof (owned_apart k' T' l' (tf :: Q) q I' Ho Hq) as HN. destruct (in_pt_typed _ _ _ _ _ (v_pt _ _ _ I') Hr Ht) as (j & Hj & _). congruence.
Qed.

Lemma fork_copied s T l P p ip k1 T1 l1 t1 k2 T2 l2 np root tf Q (k' := set_mem (copy_frame tf (p_trapframe p) (mem k2)) k2) :
  fork_pre s T l P p ip -> 0 <= np < NPROC -> p_state (proc_at (ptab s) np) = UNUSED -> T !! root = None -> kept (fun q => q <> root) (fk (kf s)) T l k1 T1 (tf :: l1) ->
  (exists y, one_changed (ptab s) t1 np y) ->
  pspace k2 T2 l2 root tf Q -> length Q = length P -> kept (fun q => q <> root) k1 T1 l1 k2 T2 (Q ++ l2) -> same_user (fk (kf s)) (p_pagetable p) k2 root ->
  fork_post s T l P p ip (k_nextpid s) (st k' (tupd np (child_entry (cur (ptab s)) (k_nextpid s) root tf p (proc_at (ptab s) np)) t1)
    (bump_inode ip (set_kft (add_refs (p_ofile p) (kft s)) (bump s)))).
Proof.
  intros Pre Hnp Hst HT K1 [y Ho] PS HQ K2 Us. set (k := fk (kf s)) in *. destruct (copy_frame_ok k2 T2 l2 (tf :: Q ++ l2) root tf (p_trapframe p) Q PS ltac:(set_solver)) as (PS' & K3 & Us').
  fold k' in PS', K3, Us'. pose proof (us_inv _ _ _ _ _ (ps_us _ _ _ _ _ _ (ps_view _ _ _ _ _ _ PS'))) as I'.
  assert (kept (fun q => q <> root) k T l k2 T2 (tf :: Q ++ l2)) as K12 by (eapply kept_trans; [exact K1|exact (kept_more _ _ _ _ _ _ _ [tf] K2)]).
  assert (kept (fun q => q <> root) k T l k' T2 (tf :: Q ++ l2)) as K by (eapply kept_trans; [exact K12|by apply (kept_weaken (fun _ => True))]).
  pose proof (fp_space _ _ _ _ _ _ Pre) as PSp. fold k in PSp. assert (forall r, T !! r = Some 2%nat -> r <> root) as Hne by congruence.
  assert (forall r tf' P', pspace k T l r tf' P' -> T !! r = Some 2%nat) as Hroot by (intros r tf' P' [[U _ _ _] _]; apply U).
  destruct (pspace_same (fun q => q <> root) k T l k2 T2 l2 _ _ _ _ K12 (us_inv _ _ _ _ _ (ps_us _ _ _ _ _ _ (ps_view _ _ _ _ _ _ PS))) ltac:(set_solver) (Hne _ (Hroot _ _ _ PSp)) PSp) as (_ & _ & Hfr).
  exists T2, l2. split; [done|]. split; [|split].
  { intros r tf' P' PS2. apply (pspace_same (fun q => q <> root) k T l k' T2 l2 (tf :: Q ++ l2)); [done|done|set_solver|eauto|done]. }
  { intros r q Hr. apply (kp_trees _ _ _ _ _ _ _ K); eauto. }
  pose proof (us_inv _ _ _ _ _ (ps_us _ _ _ _ _ _ (ps_view _ _ _ _ _ _ PSp))) as I0. destruct (child_pages k T l k' T2 l2 root tf Q I0 HT K PS') as [Hpages Hapart].
  right. split; [done|]. exists np, root, tf, Q. split; [done|by eapply one_changed_tupd|done|by eapply same_user_trans| | |exact Hpages|exact Hapart|done].
  - intros o Hr. cbn [st set_kf kf fk k' set_mem mem]. rewrite copy_frame_at by apply (v_k _ _ _ (us_inv _ _ _ _ _ (ps_us _ _ _ _ _ _ (ps_view _ _ _ _ _ _ PS)))).
    repeat case_decide; try lia. rewrite <- Hfr by (unfold sizeof_trapframe, PGSIZE in *; lia). f_equal. lia.
  - intros f. unfold file_at. cbn. apply add_refs_at.
Qed.

(** C7: [fork] ends, and either creates a process or returns -1.  When it does not fail, the
    result is the number of a process that did not exist: it is runnable, its parent
    is the caller, its memory has the bytes and the permissions of the caller's at every
    user address, in pages of its own, its registers are the caller's but for [a0], which
    is 0, it has the caller's open files and current directory, each with its reference
    counted, and its kernel context starts at [forkret].  It fails only if every entry of the
    process table is in use, or fewer pages are free than six and three for each page of the
    caller; then exactly the
    pages that were free are free again, and the entry it tried is unused again.  After
    success each page that was free is still free or is the trapframe, a page of the memory or a page
    of the page table of the child, exactly one of these.  In both cases every other process, and
    the caller, keeps its entry, its page table with its pages and translations, its memory and its
    registers, all locks are free again, and nothing else of the kernel changes. *)
Theorem fork_makes_child (s : kern) (T : gmap Z nat) (l P : list Z) (ip : Z) : let p := myproc (kf s) in
  fork_pre s T l P p ip -> exists r s', fork s = Ok r s' /\ fork_post s T l P p ip r s'.
Proof.
  intros p Pre. pose proof Pre as [Hun Hpid Hwait Hft Hit Hcl PSp [Hsz Hup] Hof Hrefs Hcwd]. set (k := fk (kf s)) in *. set (t := ptab s) in *.
  pose proof (us_inv _ _ _ _ _ (ps_us _ _ _ _ _ _ (ps_view _ _ _ _ _ _ PSp))) as I0. unfold fork, kmyproc. rewrite !bind_gets. fold p.
  destruct (allocproc_ok k t s T l I0 Hun Hpid Hcl) as (r & k1 & t1 & s1 & T1 & l1 & Ha & I1 & Hr). unfold k at 1, t at 1 in Ha. rewrite st_id in Ha.
  rewrite (bind_Ok _ _ _ _ _ Ha). destruct r as [np|]; [|destruct Hr as (K & Hu & Hs & Hn); eexists _, _; split; [reflexivity|]; eapply fork_failed; [exact I0|exact K|done|done|done|];
    destruct Hn as [?|?]; [by left|right; pose proof (lenZ_nonneg P); lia]].
  destruct Hr as (-> & Hnp & Hst & Hl & root & tf & HT & Hr0 & Htf & K1 & PS1 & t2 & -> & Ho). pose proof (Hcl np Hnp Hst) as Cx.
  change (cur (fp (kf s))) with (cur t). set (x := proc_at t np) in *. entry. set (y := alloc_entry (k_nextpid s) tf root x).
  assert (p_pagetable p <> root) as Hne by (intros E; pose proof (us_root _ _ _ _ _ (ps_us _ _ _ _ _ _ (ps_view _ _ _ _ _ _ PSp))); congruence).
  destruct (pspace_same (fun q => q <> root) k T l k1 T1 l1 (tf :: l1) _ _ _ K1 I1 ltac:(set_solver) Hne PSp) as (PSp1 & Us1 & _).
  destruct (copy_space k1 T1 l1 (p_pagetable p) (p_trapframe p) P root tf (p_sz p) PSp1 PS1 Hne Hsz Hup) as (r & k2 & T2 & l2 & Hcp & I2 & [(-> & Q & HQ & PS2 & K2 & Us2)|(-> & Hl2 & PS2 & K2)]);
    change (p_pagetable y) with root; rewrite (km_bind _ _ _ _ _ _ _ Hcp); cbn [Z.ltb Z.compare].
  - pose proof (fork_rest_run k2 t2 (bump s) (cur t) np (k_nextpid s) root tf p x ip Hft Hrefs Hof (cl_ofile _ Cx) Hit Hwait Hcwd) as Hrest.
    change (kft (bump s)) with (kft s) in Hrest. eexists _, _. split; [exact Hrest|].
    apply (fork_copied s T l P p ip k1 T1 l1 t2 k2 T2 l2 np root tf Q); try done; [by eexists|by eapply same_user_trans].
  - destruct (free_space k2 T2 l2 root tf [] 0 PS2) as (k3 & k4 & T4 & l4 & Hkf & Hfp & I4 & Hn4 & K4); [pose proof TRAPFRAME_eq; lia|apply (PGROUNDUP_page 0); pose proof TRAPFRAME_eq; lia|].
    rewrite (abandon_run k2 k3 k4); [|cbn; by rewrite (proj2 (Z.eqb_neq _ _) Htf)|cbn; rewrite (proj2 (Z.eqb_neq _ _) Hr0), (cl_sz _ Cx); exact Hfp|done].
    eexists _, _. split; [reflexivity|]. eapply fork_failed; [exact I0| |exact I4|by eapply undone_abandon|by right|right; lia].
    apply (kept_weaken (fun q => q <> root)); [intros q _ [?|?]; congruence|]. eapply kept_trans; [exact K1|].
    eapply kept_trans; [exact (kept_more _ _ _ _ _ _ _ [tf] K2)|exact K4].
Qed.
End fork.

(** ** Example: a process without user memory and one open file *)

#[local] Program Instance fork_layout : Layout :=
  {| etext := PHYSTOP - 24 * PGSIZE; kend := PHYSTOP - 12 * PGSIZE; trampoline := PHYSTOP - 25 * PGSIZE |}.
Solve Obligations with (vm_compute; congruence).
#[local] Instance fork_forkret : Forkret := {| forkret_addr := KERNBASE |}.

Definition ex_parent (root tf : Z) : proc :=
  mkProc initlock RUNNING None 0 0 1 None (KSTACK 0) 0 root tf context0 (Some 0 :: replicate 15 None) (Some 0) (replicate 16 0).
Definition ex_caller (root tf : Z) (k : kst) : kern :=
  mkKern (mkFsst ex_lst (mkSb 0 0 0 0 0 0 0 0) (mkItable initlock ∅) k (mkPtable {[0 := ex_parent root tf]} 0))
    (mkFtable initlock {[0 := set_fref 1 inhabitant]}) ∅ 2 initlock initlock None 0 initlock.
(** The results of the three steps that make the state of the caller, and of [fork]. *)
Definition ex_forks (o : outcome kst unit) : bool :=
  match o with
  | Ok _ k1 => match kalloc k1 with
    | Ok tf k2 => match proc_pagetable tf k2 with
      | Ok root k3 => match fork (ex_caller root tf k3) with Ok r _ => negb (tf =? 0) && negb (root =? 0) && (r =? 2) | _ => false end
      | _ => false end
    | _ => false end
  | _ => false end.

Lemma ex_fork_pre k T l root tf : pspace k T l root tf [] -> fork_pre (ex_caller root tf k) T l [] (ex_parent root tf) 0.
Proof.
  intros PS. pose proof TRAPFRAME_eq. assert (forall i, proc_at (ptab (ex_caller root tf k)) i = if decide (i = 0) then ex_parent root tf else inhabitant) as Hat.
  { intros i. unfold proc_at. cbn. case_decide as E; [subst; by rewrite lookup_total_singleton|]. unfold lookup_total, map_lookup_total. by rewrite lookup_singleton_ne. }
  split; try done.
  - intros i _. rewrite Hat. by case_decide.
  - intros i _. rewrite Hat. case_decide; intros Hu; [discriminate Hu|]. by split.
  - intros f Hf. assert (f = 0) as -> by (apply elem_of_cons in Hf as [[= ->]|Hf]; [done|]; by apply elem_of_replicate in Hf as [? _]).
    unfold file_at. cbn. by rewrite lookup_total_singleton.
Qed.

Lemma ex_forks_true : ex_forks (kinit boot) = true.
Proof. vm_compute. reflexivity. Qed.

Lemma ex_ready : exists root tf k T l, pspace k T l root tf [] /\ match fork (ex_caller root tf k) with Ok r _ => r =? 2 | _ => false end = true.
Proof.
  pose proof ex_forks_true as Hrun. destruct (kinit_frees_all boot mem_ok_empty eq_refl) as (k1 & l & Hki & K1 & _).
  revert Hrun. rewrite Hki. clear Hki. intros Hrun. cbn [ex_forks] in Hrun.
  assert (vinv k1 ∅ l) as I1.
  { split; [exact K1| |intros p j Hp; rewrite lookup_empty in Hp; discriminate Hp..].
    split; [intros p j Hp|intros p j i Hp|intros p q j j' i i' Hp|intros p j i Hp|intros p j Hp]; rewrite lookup_empty in Hp; discriminate Hp. }
  destruct (kalloc_kept k1 ∅ l I1) as [[_ Hk]|(tf & l1 & k2 & _ & Hk & Htf & I2 & Otf & _)]; rewrite Hk in Hrun.
  { destruct (proc_pagetable 0 k1) as [r k| | |]; [|discriminate Hrun..]. destruct (fork _); discriminate Hrun. }
  destruct (proc_pagetable_ok k2 ∅ l1 tf I2 Otf) as (root & k3 & T & l3 & Hp & _ & _ & Hr). rewrite Hp in Hrun. exists root, tf, k3, T, l3.
  destruct (fork (ex_caller root tf k3)) as [r s'| | |]; [|discriminate Hrun..]. apply andb_prop in Hrun as [H2 H3]. split; [|exact H3].
  destruct Hr as [[-> _]|(_ & _ & _ & PS)]; [rewrite andb_false_r in H2; discriminate H2|exact PS].
Qed.

Lemma fork_makes_child_witness : exists root tf k s' np, fork (ex_caller root tf k) = Ok 2 s' /\
  p_state (proc_at (ptab s') np) = RUNNABLE /\ p_pid (proc_at (ptab s') np) = 2 /\ p_parent (proc_at (ptab s') np) = Some 0.
Proof.
  destruct ex_ready as (root & tf & k & T & l & PS & Hrun).
  destruct (fork_makes_child (ex_caller root tf k) T l [] 0 (ex_fork_pre k T l root tf PS)) as (r & s' & Hf & T' & l' & _ & _ & _ & Hcase).
  rewrite Hf in Hrun. apply Z.eqb_eq in Hrun. rewrite Hrun in *.
  destruct Hcase as [(E & _)|(_ & np & root' & tf' & Q & Fk)]; [discriminate E|]. exists root, tf, k, s', np. split; [exact Hf|].
  destruct (fo_table _ _ _ _ _ _ _ _ _ _ _ _ _ Fk) as [_ Hp']. rewrite Hp', decide_True by reflexivity. split; [reflexivity|]. split; reflexivity.
Defined.
