(* ===== verification/Wait.v ===== *)
(** * The end of a process: [wait] of [kernel/proc.c]

    [wait] looks for a child that has exited, hands its status to the caller and gives
    back its memory and its entry of the table. *)

From stdpp Require Import base list gmap strings.
From S2P Require Import Prelude Riscv Mem Spinlock Kalloc Vm VmTable VmWalk VmUser VmCopy VmFree Sleeplock ProcData Bytes Bio Log Fs Pipe File Proc ProcSpec ProcMem Fork.

(** ** The scan of the table *)

Definition child (t : ptable) (me q : Z) : Prop := p_parent (proc_at t q) = Some me.
Definition zombie (t : ptable) (me q : Z) : Prop := child t me q /\ p_state (proc_at t q) = ZOMBIE.

Lemma same_table_trans t t1 t2 : same_table t t1 -> same_table t1 t2 -> same_table t t2.
Proof. intros [C1 P1] [C2 P2]. split; [congruence|]. intros i. by rewrite P2. Qed.
Lemma unlocked_same t t' : same_table t t' -> unlocked t -> unlocked t'.
Proof. intros [_ P] U i Hi. rewrite P. by apply U. Qed.
(** Taking and releasing the lock of an entry. *)
Lemma relock_same t p : p_lock (proc_at t p) = initlock ->
  same_table t (tupd p (set_plock initlock (set_plock held_lock (proc_at t p))) t).
Proof.
  intros E. split; [done|]. intros i. rewrite proc_at_tupd. case_decide; [|done]. subst i. change (set_plock initlock (proc_at t p) = proc_at t p). by apply set_plock_id.
Qed.

Section wait.
Context `{Layout} `{Devsw} `{Forkret}.

(** The branch of [wait] for the child [q], found a zombie and with its lock held. *)
Definition reap (q addr : Z) : M kern (Z + bool) :=
  do x <- pt (get_p q);
  do p <- kmyproc;
  do r <- (if negb (addr =? 0) then km_ (copyout (p_pagetable p) addr (le_bytes 4 (p_xstate x))) else return 0);
  if r <? 0 then
    pt (p_spin q lk_release) ;;; wait_spin lk_release ;;; return (inl (-1))
  else
    freeproc q ;;;
    pt (p_spin q lk_release) ;;; wait_spin lk_release ;;; return (inl (p_pid x)).

(** What the scan from entry [pp] does: it stops at the first zombie among the children, or at the end. *)
Definition scans (n : nat) (pp me addr : Z) (hk : bool) (k : kst) (t : ptable) (s : kern) (o : outcome kern (Z + bool)) : Prop :=
  (exists q t', pp <= q < pp + Z.of_nat n /\ zombie t me q /\ (forall j, pp <= j < q -> ~ zombie t me j) /\ same_table t t' /\
     o = reap q addr (st k (tupd q (set_plock held_lock (proc_at t q)) t') s)) \/
  ((forall j, pp <= j < pp + Z.of_nat n -> ~ zombie t me j) /\ exists hk' t', o = Ok (inr hk') (st k t' s) /\ same_table t t' /\
     (hk' = true <-> hk = true \/ exists j, pp <= j < pp + Z.of_nat n /\ child t me j)).

Lemma scans_next n pp me addr hk hk1 k t t1 s o : same_table t t1 -> ~ zombie t me pp -> (hk1 = true <-> hk = true \/ child t me pp) ->
  scans n (pp + 1) me addr hk1 k t1 s o -> scans (S n) pp me addr hk k t s o.
Proof.
  intros S1 Hnz Hhk. pose proof S1 as [_ P]. assert (forall j, zombie t1 me j <-> zombie t me j) as Ez by (intros j; unfold zombie, child; by rewrite P).
  assert (forall j, child t1 me j <-> child t me j) as Ec by (intros j; unfold child; by rewrite P).
  assert (forall j, pp <= j -> j = pp \/ pp + 1 <= j) as Hj by lia. intros [(q & t' & Hq & Hz & Hmin & S2 & E)|(Hn & hk' & t' & E & S2 & Hk)]; [left|right].
  - exists q, t'. rewrite <- P, <- Ez. split; [lia|]. split; [done|]. split; [|split; [by eapply same_table_trans|done]].
    intros j Hjq. destruct (Hj j ltac:(lia)) as [->|]; [done|]. rewrite <- Ez. apply Hmin. lia.
  - split; [intros j Hjn; destruct (Hj j ltac:(lia)) as [->|]; [done|]; rewrite <- Ez; apply Hn; lia|].
    exists hk', t'. split; [done|]. split; [by eapply same_table_trans|]. rewrite Hk, Hhk. split.
    + intros [[?|?]|(j & Hjr & Hc)]; [by left|right; exists pp; split; [lia|done]|right; exists j; rewrite <- Ec; split; [lia|done]].
    + intros [?|(j & Hjr & Hc)]; [tauto|]. destruct (Hj j ltac:(lia)) as [->|]; [tauto|]. right. exists j. rewrite Ec. split; [lia|done].
Qed.

Lemma wait_scan_spec fuel pp me addr hk k t s : unlocked t -> 0 <= pp -> pp + Z.of_nat fuel <= NPROC ->
  scans fuel pp me addr hk k t s (wait_scan fuel pp me addr hk (st k t s)).
Proof.
  revert pp hk t. induction fuel as [|f IH]; intros pp hk t U Hp Hf; cbn [wait_scan].
  { right. split; [lia|]. exists hk, t. split; [done|]. split; [done|]. split; [tauto|]. intros [?|(j & Hj & _)]; [done|lia]. }
  rewrite get_bind. destruct (bool_decide_reflect (p_parent (proc_at t pp) = Some me)) as [Hc|Hc].
  - rewrite acq_bind by (apply U; lia). rewrite get_bind, proc_at_self. cbn [p_state set_plock].
    destruct (bool_decide_reflect (p_state (proc_at t pp) = ZOMBIE)) as [Hz|Hz].
    + left. exists pp, t. split; [lia|]. split; [done|]. split; [lia|]. split; [done|]. unfold reap. by rewrite get_bind, proc_at_self.
    + rewrite rel_bind, proc_at_self, tupd_tupd by (by rewrite proc_at_self). pose proof (relock_same t pp (U pp ltac:(lia))) as S1.
      eapply (scans_next f pp me addr hk true); [exact S1|by intros [_ ?]|unfold child; tauto|]. apply IH; [by eapply unlocked_same|lia|lia].
  - eapply (scans_next f pp me addr hk hk); [done|by intros [? _]|unfold child; tauto|]. apply IH; [done|lia|lia].
Qed.

(** ** Handing over the status and freeing the child *)

Definition with_wait (lk : spinlock) (s : kern) : kern :=
  mkKern (kf s) (kft s) (kpipes s) (k_nextpid s) (k_pid_lock s) lk (k_initproc s) (k_ticks s) (k_tickslock s).
Lemma wait_acquire {B} k t s (m : M kern B) : k_wait_lock s = initlock -> (wait_spin lk_acquire ;;; m) (st k t s) = m (st k t (with_wait held_lock s)).
Proof. intros Hl. destruct s as [[a b c d e] ? ? ? ? lk ? ? ?]. cbn in Hl. by subst lk. Qed.
Lemma wait_release {B} k t s (m : M kern B) : k_wait_lock s = initlock -> (wait_spin lk_release ;;; m) (st k t (with_wait held_lock s)) = m (st k t s).
Proof. intros Hl. destruct s as [[a b c d e] ? ? ? ? lk ? ? ?]. cbn in Hl. by subst lk. Qed.

(** The bytes of the status that [wait] copies to [addr], if it is not null. *)
Definition status_bytes (addr : Z) (x : proc) : list Z := if addr =? 0 then [] else le_bytes 4 (p_xstate x).

Lemma status_copy {B} k T l root tf P t s addr x (f : Z -> M kern B) : pspace k T l root tf P -> 0 <= addr < 2 ^ 64 ->
  exists r k', bind (if negb (addr =? 0) then km_ (copyout root addr (le_bytes 4 (p_xstate x))) else return 0) f (st k t s) = f r (st k' t s) /\
    pspace k' T l root tf P /\ kept (fun _ => True) k T (P ++ l) k' T (P ++ l) /\
    ((r = 0 /\ user_gets k k' root addr (status_bytes addr x)) \/
     (r = -1 /\ (exists v, addr <= v < addr + lenZ (status_bytes addr x) /\ user_addr k root PTE_W v = None) /\
        forall v, ~ addr <= v < addr + 4 -> user_byte k' root v = user_byte k root v)).
Proof.
  intros PS Ha. unfold status_bytes. destruct (Z.eqb_spec addr 0) as [->|Hne]; cbn [negb].
  - exists 0, k. split; [done|]. split; [done|]. split; [apply kept_refl|]. left. split; [done|]. intros v. rewrite decide_False; [done|]. change (lenZ (@nil Z)) with 0. lia.
  - destruct (copyout_space k T l root tf P addr (le_bytes 4 (p_xstate x)) PS ltac:(auto with xv6) Ha) as (r & k' & Hr & PS' & K & Hc).
    exists r, k'. split; [by apply km_bind|]. split; [done|]. split; [done|]. destruct Hc as [Hc|(-> & Hv & Hout)]; [by left|right].
    split; [done|]. split; [done|]. intros v Hv'. apply Hout. unfold lenZ. rewrite le_bytes_length. lia.
Qed.

(** The space of an exited child [x] of the process [p], whose pages are [P]. *)
Record dead_ok (k : kst) (T : gmap Z nat) (l P : list Z) (p x : proc) (Q : list Z) : Prop := {
  do_space : pspace k T l (p_pagetable x) (p_trapframe x) Q;
  do_sz : 0 <= p_sz x <= TRAPFRAME /\ PGROUNDUP (p_sz x) = lenZ Q * PGSIZE;
  do_root : p_pagetable x <> p_pagetable p;
  do_apart : forall y, y ∈ p_trapframe p :: P -> y ∉ p_trapframe x :: Q
}.

Record wait_pre (s : kern) (T : gmap Z nat) (l P : list Z) (p : proc) (addr : Z) : Prop := {
  wp_unlocked : unlocked (ptab s);
  wp_cur : 0 <= cur (ptab s) < NPROC /\ p_state p <> ZOMBIE;
  wp_wait : k_wait_lock s = initlock;
  wp_space : pspace (fk (kf s)) T l (p_pagetable p) (p_trapframe p) P;
  wp_dead : forall q, 0 <= q < NPROC -> zombie (ptab s) (cur (ptab s)) q -> exists Q, dead_ok (fk (kf s)) T l P p (proc_at (ptab s) q) Q;
  wp_addr : 0 <= addr < 2 ^ 64
}.

(** A process other than the caller and the child keeps its memory. *)
Definition keeps_others (k : kst) (T : gmap Z nat) (l A : list Z) (k' : kst) T' l' (dead : Z) : Prop :=
  forall root tf P', root <> dead -> owned T A (tf :: P') -> pspace k T l root tf P' ->
    pspace k' T' l' root tf P' /\ same_user k root k' root /\ forall o, 0 <= o < PGSIZE -> ld8 (mem k') (tf + o) = ld8 (mem k) (tf + o).

(** The child [q] is gone. *)
Record reaped (s : kern) (T : gmap Z nat) (l P : list Z) (p : proc) (addr q : Z) (Q : list Z) (s' : kern) T' l' : Prop := {
  re_table : one_changed (ptab s) (ptab s') q (set_plock initlock (freed_entry (proc_at (ptab s) q)));
  re_status : user_gets (fk (kf s)) (fk (kf s')) (p_pagetable p) addr (status_bytes addr (proc_at (ptab s) q));
  re_pages : NoDup l' /\ forall y, y ∈ l' <-> y ∈ p_trapframe (proc_at (ptab s) q) :: Q ++ l \/ tree (entries (mem (fk (kf s)))) (p_pagetable (proc_at (ptab s) q)) y;
  re_tables : T' !! p_pagetable (proc_at (ptab s) q) = None /\ forall root y, root <> p_pagetable (proc_at (ptab s) q) -> T !! root = Some 2%nat ->
    tree (entries (mem (fk (kf s')))) root y <-> tree (entries (mem (fk (kf s)))) root y;
  re_others : keeps_others (fk (kf s)) T l (P ++ p_trapframe (proc_at (ptab s) q) :: Q ++ l) (fk (kf s')) T' l' (p_pagetable (proc_at (ptab s) q))
}.
(** The status could not be copied. *)
Record refused (s : kern) (T : gmap Z nat) (l P : list Z) (p : proc) (addr q : Z) (s' : kern) : Prop := {
  rf_table : same_table (ptab s) (ptab s');
  rf_addr : addr <> 0 /\ exists v, addr <= v < addr + 4 /\ user_addr (fk (kf s)) (p_pagetable p) PTE_W v = None;
  rf_user : forall v, ~ addr <= v < addr + 4 -> user_byte (fk (kf s')) (p_pagetable p) v = user_byte (fk (kf s)) (p_pagetable p) v;
  rf_others : forall dead, keeps_others (fk (kf s)) T l (P ++ l) (fk (kf s')) T l dead
}.

Definition reap_post (s : kern) (T : gmap Z nat) (l P : list Z) (p : proc) (addr q : Z) (r : Z) (s' : kern) : Prop :=
  s' = st (fk (kf s')) (ptab s') s /\ exists Q T' l', dead_ok (fk (kf s)) T l P p (proc_at (ptab s) q) Q /\
    pspace (fk (kf s')) T' l' (p_pagetable p) (p_trapframe p) P /\
    ((r = p_pid (proc_at (ptab s) q) /\ reaped s T l P p addr q Q s' T' l') \/ (r = -1 /\ T' = T /\ l' = l /\ refused s T l P p addr q s')).

Lemma owned_pages_ok T A P : owned T A P -> Forall page_ok P.
Proof. intros [_ HF]. eapply Forall_impl; [exact HF|]. by intros ? []. Qed.
Lemma space_pages_ok k T l root tf P : pspace k T l root tf P -> Forall page_ok (tf :: P ++ l).
Proof.
  intros [[U _ _ _] Ho]. pose proof (owned_pages_ok _ _ _ Ho) as [? ?]%Forall_cons. apply Forall_cons. split; [done|]. apply Forall_app. split; [done|].
  apply Forall_forall. intros p Hp. by apply (free_page k T l p (us_inv _ _ _ _ _ U)).
Qed.

(** Pages of two processes that share none. *)
Lemma owned_more T l P Q : owned T l Q -> (forall y, y ∈ P -> y ∉ Q) -> owned T (P ++ l) Q.
Proof.
  intros [HN HF] Hd. split; [done|]. rewrite Forall_forall in *. intros y Hy. destruct (HF y Hy) as (? & ? & ?). split; [done|]. split; [|done].
  rewrite elem_of_app. intros [Hp|?]; [by apply (Hd y)|done].
Qed.
Lemma keeps_others_intro k T l A k' T' l' A' dead : kept (fun q => q <> dead) k T A k' T' A' -> Forall page_ok A -> vinv k' T' l' -> (forall y, y ∈ l' -> y ∈ A') ->
  keeps_others k T l A k' T' l' dead.
Proof. intros K HA I Hl root tf P' Hne Ho PS. by eapply (pspace_same_gen (fun q => q <> dead)). Qed.

(** The child's memory is given back in state [k1], in which the status is in place. *)
Lemma free_child k T l P p x Q k1 : pspace k1 T l (p_pagetable p) (p_trapframe p) P -> dead_ok k T l P p x Q -> kept (fun _ => True) k T (P ++ l) k1 T (P ++ l) ->
  exists k2 k3 T' l', kfree (p_trapframe x) k1 = Ok tt k2 /\ proc_freepagetable (p_pagetable x) (p_sz x) k2 = Ok tt k3 /\
    p_trapframe x <> 0 /\ p_pagetable x <> 0 /\ pspace k3 T' l' (p_pagetable p) (p_trapframe p) P /\ same_user k1 (p_pagetable p) k3 (p_pagetable p) /\
    (NoDup l' /\ forall y, y ∈ l' <-> y ∈ p_trapframe x :: Q ++ l \/ tree (entries (mem k)) (p_pagetable x) y) /\
    (T' !! p_pagetable x = None /\ forall root y, root <> p_pagetable x -> T !! root = Some 2%nat -> tree (entries (mem k3)) root y <-> tree (entries (mem k)) root y) /\
    keeps_others k T l (P ++ p_trapframe x :: Q ++ l) k3 T' l' (p_pagetable x).
Proof.
  intros PSp [PSx [Hsz Hup] Hne Hap] K1. pose proof PSp as [[Up _ _ _] Op]. pose proof PSx as [[Ux _ _ _] Ox].
  assert (pspace k1 T l (p_pagetable x) (p_trapframe x) Q) as PSx1.
  { eapply (pspace_kept (fun _ => True)); [exact K1|apply Up|set_solver|done| |exact PSx]. apply owned_more; [done|]. intros y Hy. apply Hap. set_solver. }
  destruct (free_space k1 T l _ _ Q (p_sz x) PSx1 Hsz Hup) as (k2 & k3 & T' & l' & H2 & H3 & I3 & Hn & K3).
  pose proof (space_pages_ok _ _ _ _ _ _ PSx1) as Hok. assert (kept (fun q => q <> p_pagetable x) k T (P ++ p_trapframe x :: Q ++ l) k3 T' (P ++ l')) as K.
  { eapply kept_trans; [|exact (kept_more _ _ _ _ _ _ _ P K3)]. apply (kept_weaken (fun _ => True)); [done|].
    eapply kept_perm; [| |exact (kept_more _ _ _ _ _ _ _ (p_trapframe x :: Q) K1)]; intros y; cbn [app]; rewrite ?elem_of_app, ?elem_of_cons, ?elem_of_app; tauto. }
  destruct (pspace_same_gen (fun q => q <> p_pagetable x) k1 T l (p_trapframe x :: Q ++ l) k3 T' l' l' (p_pagetable p) (p_trapframe p) P K3 I3) as (PSp3 & Us & _); [done|done|done| |exact PSp|].
  { apply (owned_more _ _ (p_trapframe x :: Q)); [done|]. intros y Hy Hin. by apply (Hap y). }
  exists k2, k3, T', l'. split; [done|]. split; [done|]. split; [apply Forall_cons in Hok as [(_ & ? & _)%page_ok_range _]; lia|].
  split; [pose proof (v_ok _ _ _ (us_inv _ _ _ _ _ Ux) _ _ (us_root _ _ _ _ _ Ux)) as (_ & ? & _)%page_ok_range; lia|].
  split; [done|]. split; [done|]. split; [|split; [split; [done|]; intros root y Hne' Hr; by apply (kp_trees _ _ _ _ _ _ _ K)|]].
  { split; [apply I3|]. intros y. rewrite <- (kp_trees _ _ _ _ _ _ _ K1 (p_pagetable x) y Logic.I (us_root _ _ _ _ _ Ux)).
    pose proof (kept_one (p_pagetable x) k1 T (p_trapframe x :: Q) l k3 T' [] l' y K3 (us_inv _ _ _ _ _ Up) I3 Ox ltac:(split; [constructor|done])) as E.
    rewrite Hn, (us_root _ _ _ _ _ Ux) in E. cbn [app] in E. split; [intros Hy; destruct (proj1 E) as [?|[_ ?]]; tauto|]. intros Hy. destruct (proj2 E) as [?|[? _]]; [tauto|done|discriminate]. }
  eapply keeps_others_intro; [exact K| |exact I3|set_solver]. apply Forall_app. split; [|done]. apply owned_pages_ok in Op. by apply Forall_cons in Op as [_ ?].
Qed.

Lemma reap_run s T l P addr q t' (p := myproc (kf s)) (x := proc_at (ptab s) q) : wait_pre s T l P p addr -> 0 <= q < NPROC -> zombie (ptab s) (cur (ptab s)) q ->
  same_table (ptab s) t' ->
  exists r s', reap q addr (st (fk (kf s)) (tupd q (set_plock held_lock x) t') (with_wait held_lock s)) = Ok (inl r) s' /\ reap_post s T l P p addr q r s'.
Proof.
  intros [Hun [Hcur Hpz] Hw PSp Hdead Haddr] Hq Hz St. set (k := fk (kf s)) in *. destruct (Hdead q Hq Hz) as [Q D]. fold x in D.
  unfold reap. rewrite get_bind, proc_at_self. unfold kmyproc. rewrite bind_gets.
  assert (myproc (kf (st k (tupd q (set_plock held_lock x) t') (with_wait held_lock s))) = p) as Ep.
  { destruct St as [Ec Pt]. unfold myproc. cbn [st set_kf kf fp]. change (cur (tupd _ _ t')) with (cur t'). rewrite Ec, proc_at_tupd, decide_False; [apply Pt|].
    intros E. apply Hpz. destruct Hz as [_ Hz]. unfold p, myproc. change (fp (kf s)) with (ptab s). rewrite E. exact Hz. }
  rewrite Ep. destruct (status_copy (B := (Z + bool)%type) k T l (p_pagetable p) (p_trapframe p) P (tupd q (set_plock held_lock x) t') (with_wait held_lock s) addr (set_plock held_lock x)
    (fun r => if r <? 0 then pt (p_spin q lk_release) ;;; wait_spin lk_release ;;; return (inl (-1))
      else freeproc q ;;; pt (p_spin q lk_release) ;;; wait_spin lk_release ;;; return (inl (p_pid (set_plock held_lock x)))) PSp Haddr) as (r & k1 & E & PS1 & K1 & Hc).
  rewrite E. clear E. destruct Hc as [[-> Hg]|(-> & Hv & Hout)]; cbn [Z.ltb Z.compare].
  - destruct (free_child k T l P p x Q k1 PS1 D K1) as (k2 & k3 & T' & l' & Hkf & Hfp & Ht0 & Hr0 & PS3 & Us & Hpg & Htb & Hoth).
    rewrite (abandon_run k1 k2 k3); [|cbn; by rewrite (proj2 (Z.eqb_neq _ _) Ht0)|cbn; by rewrite (proj2 (Z.eqb_neq _ _) Hr0)|done]. rewrite wait_release by done.
    eexists _, _. split; [reflexivity|]. split; [done|]. exists Q, T', l'. split; [done|]. split; [done|]. left. split; [done|].
    split; [|intros v; etransitivity; [exact (proj1 (Us v))|apply Hg]|exact Hpg|exact Htb|done]. destruct St as [Ec Pt]. split; [done|]. intros i. cbn. rewrite proc_at_tupd. case_decide; [done|apply Pt].
  - rewrite rel_bind, proc_at_self, tupd_tupd, wait_release by (done || by rewrite proc_at_self). eexists _, _. split; [reflexivity|]. split; [done|]. exists Q, T, l.
    split; [done|]. split; [done|]. right. split; [done|]. split; [done|]. split; [done|]. split.
    + destruct St as [Ec Pt]. split; [done|]. intros i. cbn. rewrite proc_at_tupd. case_decide as Ei; [subst i|apply Pt].
      change (set_plock initlock x = x). by apply set_plock_id, Hun.
    + destruct Hv as (v & Hv & Hn). unfold status_bytes in Hv. destruct (Z.eqb_spec addr 0); [change (lenZ (@nil Z)) with 0 in Hv; lia|].
      split; [done|]. exists v. split; [|done]. unfold lenZ in Hv. rewrite le_bytes_length in Hv. lia.
    + exact Hout.
    + intros dead. eapply (keeps_others_intro k T l (P ++ l) k1 T l (P ++ l)); [by apply (kept_weaken (fun _ => True))| |apply PS1|set_solver].
      pose proof (space_pages_ok _ _ _ _ _ _ PSp) as Hok. by apply Forall_cons in Hok as [_ ?].
Qed.

(** [killed(p)] for the running process. *)
Lemma i_am_killed_run {B} k t s (f : bool -> M kern B) : p_lock (proc_at t (cur t)) = initlock ->
  exists t', bind i_am_killed f (st k t s) = f (negb (p_killed (proc_at t (cur t)) =? 0)) (st k t' s) /\ same_table t t'.
Proof.
  intros Hl. eexists. split; [|apply (relock_same t (cur t) Hl)].
  rewrite (bind_Ok _ _ _ (negb (p_killed (proc_at t (cur t)) =? 0)) (st k (tupd (cur t) (set_plock initlock (set_plock held_lock (proc_at t (cur t)))) t) s)); [done|].
  unfold i_am_killed. rewrite bind_gets. change (cur (fp (kf (st k t s)))) with (cur t).
  rewrite (pt_bind _ _ _ _ _ (p_killed (proc_at t (cur t))) (tupd (cur t) (set_plock initlock (set_plock held_lock (proc_at t (cur t)))) t)); [done|].
  unfold killed, p_spin, zoom, bind, get_p, gets. rewrite Hl. cbn. rewrite proc_at_upd, decide_True by done. cbn.
  change (lk_release _) with (Ok tt initlock). cbn. by rewrite insert_insert_eq.
Qed.

(** C17: [wait], when a child of the caller has exited, takes the first such child in the
    order of the table, copies its exit status to the user's address (unless this is null),
    and returns its number; the entry of the child is unused, its pages, its trapframe
    and every page of its page table are in the free list, each page once and no other page
    with them, and the caller sees its own memory as before, but for the status.  If the status cannot be copied it returns -1 and
    no process goes away.  If no child has exited, it sleeps, or returns -1 when there is
    no child or the caller was killed.  Processes that share no page with the two keep
    their memory, and every other page table keeps its pages; all locks are free again. *)
Theorem wait_reaps (s : kern) (T : gmap Z nat) (l P : list Z) (addr : Z) : let p := myproc (kf s) in let me := cur (ptab s) in
  wait_pre s T l P p addr ->
  (exists q r s', 0 <= q < NPROC /\ zombie (ptab s) me q /\ (forall j, 0 <= j < q -> ~ zombie (ptab s) me j) /\
     wait addr s = Ok r s' /\ reap_post s T l P p addr q r s') \/
  ((forall j, 0 <= j < NPROC -> ~ zombie (ptab s) me j) /\
   (((exists j, 0 <= j < NPROC /\ child (ptab s) me j) /\ p_killed p = 0 /\ wait addr s = Sleep "wait") \/
    (((forall j, 0 <= j < NPROC -> ~ child (ptab s) me j) \/ p_killed p <> 0) /\
     exists t', wait addr s = Ok (-1) (st (fk (kf s)) t' s) /\ same_table (ptab s) t'))).
Proof.
  intros p me Pre. pose proof Pre as [Hun [Hcur Hpz] Hw _ _ _]. unfold wait. rewrite bind_gets. change (cur (fp (kf s))) with me.
  assert (forall B (m : M kern B), (wait_spin lk_acquire ;;; m) s = m (st (fk (kf s)) (ptab s) (with_wait held_lock s))) as Hacq.
  { intros B m. rewrite <- (wait_acquire _ _ _ m Hw). by rewrite st_id. }
  rewrite Hacq. destruct (wait_scan_spec (Z.to_nat NPROC) 0 me addr false (fk (kf s)) (ptab s) (with_wait held_lock s) Hun ltac:(lia) ltac:(done))
    as [(q & t' & Hq & Hz & Hmin & St & E)|(Hn & hk & t' & E & St & Hk)]; [left|right].
  - destruct (reap_run s T l P addr q t' Pre Hq Hz St) as (r & s' & Hr & Post). rewrite Hr in E. exists q, r, s'. split; [done|]. split; [done|]. split; [done|].
    rewrite (bind_Ok _ _ _ _ _ E). done.
  - split; [exact Hn|]. rewrite (bind_Ok _ _ _ _ _ E). pose proof St as [Ec Pt].
    assert (proc_at t' (cur t') = p) as Ep by (rewrite Ec, Pt; done).
    destruct (i_am_killed_run (fk (kf s)) t' (with_wait held_lock s) (fun kl : bool => if negb hk || kl then wait_spin lk_release ;;; return (-1) else sleeps "wait"))
      as (t2 & E2 & S2); [rewrite Ep; by apply Hun|]. rewrite E2, Ep.
    destruct hk; cbn [negb orb]; [destruct (Z.eqb_spec (p_killed p) 0) as [Ek|Ek]; cbn [negb]; [left|right]|right].
    + split; [|done]. destruct (proj1 Hk eq_refl) as [?|Hj]; [done|exact Hj].
    + split; [by right|]. exists t2. rewrite wait_release by done. split; [done|by eapply same_table_trans].
    + split; [left; intros j Hj Hc; assert (false = true) by (apply Hk; right; by exists j); done|]. exists t2. rewrite wait_release by done. split; [done|by eapply same_table_trans].
Qed.
End wait.

(** ** Example: a process and its exited child, both without user memory *)

#[local] Program Instance wait_layout : Layout :=
  {| etext := PHYSTOP - 24 * PGSIZE; kend := PHYSTOP - 12 * PGSIZE; trampoline := PHYSTOP - 25 * PGSIZE |}.
Solve Obligations with (vm_compute; congruence).
#[local] Instance wait_forkret : Forkret := {| forkret_addr := KERNBASE |}.

(** A trapframe and a page table, if there is memory for them. *)
Definition ex_space (k : kst) : option (Z * Z * kst) :=
  match kalloc k with
  | Ok tf k1 => match proc_pagetable tf k1 with Ok root k2 => if (tf =? 0) || (root =? 0) then None else Some (tf, root, k2) | _ => None end
  | _ => None
  end.
Definition ex_two (o : outcome kst unit) : bool :=
  match o with Ok _ k => match ex_space k with Some (_, _, k1) => match ex_space k1 with Some _ => true | None => false end | None => false end | _ => false end.

Lemma ex_two_true : ex_two (kinit boot) = true.
Proof. vm_compute. reflexivity. Qed.

Lemma ex_space_ok k T l tf root k' : vinv k T l -> ex_space k = Some (tf, root, k') ->
  exists T' l', pspace k' T' l' root tf [] /\ T !! root = None /\ tf ∈ l /\ forall r f, pspace k T l r f [] -> pspace k' T' l' r f [].
Proof.
  intros I E. unfold ex_space in E. destruct (kalloc_kept k T l I) as [[-> Hk]|(p & l1 & k1 & -> & Hk & Hp & I1 & Ho & K1)]; rewrite Hk in E.
  { destruct (proc_pagetable 0 k); discriminate E. }
  destruct (proc_pagetable_ok k1 T l1 p I1 Ho) as (r & k2 & T2 & l2 & Hpg & I2 & K2 & Hr). rewrite Hpg, (proj2 (Z.eqb_neq _ _) Hp) in E. cbn [orb] in E.
  destruct (Z.eqb_spec r 0) as [->|Hr0]; [discriminate E|]. injection E as -> -> ->. destruct Hr as [[? _]|(_ & _ & HT & PS)]; [done|]. exists T2, l2.
  split; [done|]. split; [done|]. split; [left|]. intros r f PSr. pose proof (us_root _ _ _ _ _ (ps_us _ _ _ _ _ _ (ps_view _ _ _ _ _ _ PSr))) as HTr.
  assert (kept (fun q => root = 0 \/ q <> root) k T (tf :: l1) k' T2 (tf :: l2)) as K.
  { eapply kept_trans; [by apply (kept_weaken (fun _ => True)), K1|exact (kept_more _ _ _ _ _ _ _ [tf] K2)]. }
  apply (pspace_same _ k T (tf :: l1) k' T2 l2 _ r f [] K I2); [set_solver|right; congruence|done].
Qed.

Definition ex_zombie (root tf : Z) : proc :=
  mkProc initlock ZOMBIE None 0 7 2 (Some 0) (KSTACK 1) 0 root tf context0 (replicate (Z.to_nat NOFILE) None) None (replicate 16 0).
Definition ex_waiter (k : kst) (r1 f1 r2 f2 : Z) : kern :=
  mkKern (mkFsst ex_lst (mkSb 0 0 0 0 0 0 0 0) (mkItable initlock ∅) k (mkPtable {[0 := ex_parent r1 f1; 1 := ex_zombie r2 f2]} 0))
    (mkFtable initlock ∅) ∅ 3 initlock initlock None 0 initlock.

Lemma ex_wait_pre : exists k T l r1 f1 r2 f2, wait_pre (ex_waiter k r1 f1 r2 f2) T l [] (ex_parent r1 f1) 0.
Proof.
  pose proof ex_two_true as Hrun. destruct (kinit_frees_all boot mem_ok_empty eq_refl) as (k1 & l & Hki & K1 & _).
  revert Hrun. rewrite Hki. clear Hki. intros Hrun. cbn [ex_two] in Hrun.
  assert (vinv k1 ∅ l) as I1.
  { split; [exact K1| |intros p j Hp; rewrite lookup_empty in Hp; discriminate Hp..].
    split; [intros p j Hp|intros p j i Hp|intros p q j j' i i' Hp|intros p j i Hp|intros p j Hp]; rewrite lookup_empty in Hp; discriminate Hp. }
  destruct (ex_space k1) as [[[f1 r1] k2]|] eqn:E1; [|discriminate Hrun]. destruct (ex_space k2) as [[[f2 r2] k3]|] eqn:E2; [|discriminate Hrun].
  destruct (ex_space_ok _ _ _ _ _ _ I1 E1) as (T2 & l2 & PS1 & _ & _ & _). pose proof PS1 as [[U1 _ _ _] O1].
  destruct (ex_space_ok _ _ _ _ _ _ (us_inv _ _ _ _ _ U1) E2) as (T3 & l3 & PS2 & HT2 & Hf2 & Hkeep). exists k3, T3, l3, r1, f1, r2, f2.
  assert (forall i, proc_at (ptab (ex_waiter k3 r1 f1 r2 f2)) i = if decide (i = 0) then ex_parent r1 f1 else if decide (i = 1) then ex_zombie r2 f2 else inhabitant) as Hat.
  { intros i. unfold proc_at. cbn. repeat case_decide; subst; [by rewrite lookup_total_insert_eq|by rewrite lookup_total_insert_ne, lookup_total_singleton|].
    rewrite lookup_total_insert_ne by congruence. unfold lookup_total, map_lookup_total. by rewrite lookup_singleton_ne by congruence. }
  split; [intros i _; rewrite Hat; by repeat case_decide|done|done|by apply Hkeep| |done].
  intros q _ [Hc Hz]. rewrite Hat in Hz |- *. repeat case_decide; [discriminate Hz| |discriminate Hz]. exists []. split; [exact PS2|..].
  - pose proof TRAPFRAME_eq. split; [cbn; lia|]. apply (PGROUNDUP_page 0). lia.
  - cbn. intros E. pose proof (us_root _ _ _ _ _ U1). congruence.
  - cbn. intros y ->%list_elem_of_singleton ->%list_elem_of_singleton. destruct O1 as [_ [(_ & Hn & _) _]%Forall_cons]. done.
Qed.

Lemma wait_reaps_witness : exists s q r s', p_parent (proc_at (ptab s) q) = Some 0 /\ wait 0 s = Ok r s' /\ r = p_pid (proc_at (ptab s) q).
Proof.
  destruct ex_wait_pre as (k & T & l & r1 & f1 & r2 & f2 & Pre).
  destruct (wait_reaps (ex_waiter k r1 f1 r2 f2) T l [] 0 Pre) as [(q & r & s' & Hq & [Hc Hz] & _ & Hw & _ & Q & T' & l' & _ & _ & Hcase)|[Hn _]].
  - exists (ex_waiter k r1 f1 r2 f2), q, r, s'. split; [exact Hc|]. split; [exact Hw|].
    destruct Hcase as [[Hr _]|(_ & _ & _ & Rf)]; [exact Hr|]. destruct (rf_addr _ _ _ _ _ _ _ _ Rf) as [E _]. destruct (E eq_refl).
  - exfalso. apply (Hn 1); [split; [lia|reflexivity]|]. split; reflexivity.
Defined.
