(* ===== verification/Exec.v ===== *)
(** * System call arguments and [exec]: [kernel/syscall.c], [kernel/exec.c] *)

From stdpp Require Import base list gmap strings.
From S2P Require Import Prelude Riscv Mem Spinlock Kalloc Vm Sleeplock ProcData Bytes Bio Log Fs Pipe File Proc.

Section args.
Context `{Layout}.

(** ** Arguments of system calls *)

(** The word at [addr] in the memory of the running process; [None] for -1. *)
Definition fetchaddr (addr : Z) : M kern (option Z) :=
  do p <- kmyproc;
  if (addr >=? p_sz p) || (u64 (addr + 8) >? p_sz p) then return None
  else
    do '(r, bs) <- km_ (copyin (p_pagetable p) addr 8);
    if negb (r =? 0) then return None else return (Some (le_value bs)).

(** [fetchstr(addr, buf, max)]: the result and the bytes stored in [buf]. *)
Definition fetchstr (addr max : Z) : M kern (Z * list Z) :=
  do p <- kmyproc;
  do '(r, bs) <- km_ (copyinstr (p_pagetable p) addr max);
  if r <? 0 then return (-1, bs) else return (strlen bs, bs).

Definition argraw (n : Z) : M kern Z :=
  do p <- kmyproc;
  if (0 <=? n) && (n <=? 5) then tf_load (p_trapframe p) (TF_a n) else panic "argraw".
Definition argint (n : Z) : M kern Z := do v <- argraw n; return (s32 v).
Definition argaddr (n : Z) : M kern Z := argraw n.
Definition argstr (n max : Z) : M kern (Z * list Z) := do addr <- argaddr n; fetchstr addr max.

(** ** exec.c *)

(** The fields of [struct elfhdr] that [exec] reads. *)
Definition ELF_MAGIC : Z := 0x464C457F.
Definition ELF_PROG_LOAD : Z := 1.
Definition sizeof_elfhdr : Z := 64.
Definition sizeof_proghdr : Z := 56.
Definition get64 (d : list Z) (off : Z) : Z := le_value (take 8 (drop (Z.to_nat off) d)).
Definition elf_magic (d : list Z) : Z := get32 d 0.
Definition elf_entry (d : list Z) : Z := get64 d 24.
Definition elf_phoff (d : list Z) : Z := get64 d 32.
Definition elf_phnum (d : list Z) : Z := get16 d 56.
(** [struct proghdr] *)
Definition ph_type (d : list Z) : Z := get32 d 0.
Definition ph_flags (d : list Z) : Z := get32 d 4.
Definition ph_off (d : list Z) : Z := get64 d 8.
Definition ph_vaddr (d : list Z) : Z := get64 d 16.
Definition ph_filesz (d : list Z) : Z := get64 d 32.
Definition ph_memsz (d : list Z) : Z := get64 d 40.

Definition flags2perm (flags : Z) : Z :=
  let perm := if negb (Z.land flags 1 =? 0) then PTE_X else 0 in
  if negb (Z.land flags 2 =? 0) then Z.lor perm PTE_W else perm.

Fixpoint loadseg_loop (fuel : nat) (pagetable va ip offset sz i : Z) : M kern Z :=
  if i <? sz then
    match fuel with
    | O => fun _ => Diverge
    | S f =>
        do pa <- km_ (walkaddr pagetable (u64 (va + i)));
        if pa =? 0 then panic "loadseg: address should exist"
        else
          let n := if sz - i <? PGSIZE then sz - i else PGSIZE in
          do '(r, _) <- fs (readi ip (ToKernel pa) (u32 (offset + i)) n);
          if negb (r =? n) then return (-1) else loadseg_loop f pagetable va ip offset sz (i + PGSIZE)
    end
  else return 0.
(** [offset] and [sz] are 32-bit parameters. *)
Definition loadseg (pagetable va ip offset sz : Z) : M kern Z :=
  loadseg_loop (Z.to_nat (u32 sz / PGSIZE + 1)) pagetable va ip (u32 offset) (u32 sz) 0.

(** The loop over program headers: the new size, and whether it succeeded. *)
Fixpoint exec_load (fuel : nat) (pagetable ip i off phnum sz : Z) : M kern (Z * bool) :=
  if i <? phnum then
    match fuel with
    | O => fun _ => Diverge
    | S f =>
        do '(r, ph) <- fs (readi ip ToVar (u32 off) sizeof_proghdr);
        if negb (r =? sizeof_proghdr) then return (sz, false)
        else if negb (ph_type ph =? ELF_PROG_LOAD) then exec_load f pagetable ip (i + 1) (s32 (off + sizeof_proghdr)) phnum sz
        else if ph_memsz ph <? ph_filesz ph then return (sz, false)
        else if u64 (ph_vaddr ph + ph_memsz ph) <? ph_vaddr ph then return (sz, false)
        else if negb (ph_vaddr ph mod PGSIZE =? 0) then return (sz, false)
        else
          do sz1 <- km_ (uvmalloc pagetable sz (u64 (ph_vaddr ph + ph_memsz ph)) (flags2perm (ph_flags ph)));
          if sz1 =? 0 then return (sz, false)
          else
            do r <- loadseg pagetable (ph_vaddr ph) ip (ph_off ph) (ph_filesz ph);
            if r <? 0 then return (sz1, false)
            else exec_load f pagetable ip (i + 1) (s32 (off + sizeof_proghdr)) phnum sz1
    end
  else return (sz, true).

(** Push the argument strings: the stack pointer and [ustack], last argument
    first; [None] for [goto bad]. *)
Fixpoint push_args (argv : list (list Z)) (argc pagetable sp stackbase : Z) (ustack : list Z) : M kern (option (Z * Z * list Z)) :=
  match argv with
  | [] => return (Some (argc, sp, ustack))
  | arg :: rest =>
      if argc >=? MAXARG then return None
      else
        let sp := u64 (sp - (strlen arg + 1)) in
        let sp := sp - sp mod 16 in
        if sp <? stackbase then return None
        else
          do r <- km_ (copyout pagetable sp (take (Z.to_nat (strlen arg + 1)) arg));
          if r <? 0 then return None
          else push_args rest (argc + 1) pagetable sp stackbase (ustack ++ [sp])
  end.

(** The last element of a path. *)
Fixpoint last_elem (s last : list Z) : list Z :=
  match s with
  | [] => last
  | c :: r => if c =? 0 then last else if c =? SLASH then last_elem r r else last_elem r last
  end.

(** [bad:] with [ip] still locked, and after it was released. *)
Definition exec_bad (pagetable sz : Z) (ip : option Z) : M kern Z :=
  (if negb (pagetable =? 0) then km_ (proc_freepagetable pagetable sz) else return tt) ;;;
  (match ip with Some ip => fs (iunlockput ip) ;;; fs (zf end_op) | None => return tt end) ;;;
  return (-1).

(** From the stack on: the image in [pagetable] has size [sz]. *)
Definition exec_stack (path : list Z) (argv : list (list Z)) (pagetable sz entry : Z) : M kern Z :=
  do p <- kmyproc;
  do me <- gets (fun s => cur (fp (kf s)));
  let oldsz := p_sz p in
  let sz := PGROUNDUP sz in
  do sz1 <- km_ (uvmalloc pagetable sz (u64 (sz + (USERSTACK + 1) * PGSIZE)) PTE_W);
  if sz1 =? 0 then exec_bad pagetable sz None
  else
    let sz := sz1 in
    km_ (uvmclear pagetable (u64 (sz - (USERSTACK + 1) * PGSIZE))) ;;;
    let sp := sz in
    let stackbase := u64 (sp - USERSTACK * PGSIZE) in
    do r <- push_args argv 0 pagetable sp stackbase [];
    match r with
    | None => exec_bad pagetable sz None
    | Some (argc, sp, ustack) =>
        let sp := u64 (sp - (argc + 1) * 8) in
        let sp := sp - sp mod 16 in
        if sp <? stackbase then exec_bad pagetable sz None
        else
          do r <- km_ (copyout pagetable sp (concat (le_bytes 8 <$> ustack ++ [0])));
          if r <? 0 then exec_bad pagetable sz None
          else
            tf_store (p_trapframe p) (TF_a 1) sp ;;;
            pt (upd_p me (fun x => set_name (safestrcpy (p_name x) (last_elem path path) 16) x)) ;;;
            pt (upd_p me (set_pagetable pagetable)) ;;;
            pt (upd_p me (set_sz sz)) ;;;
            tf_store (p_trapframe p) TF_epc entry ;;;
            tf_store (p_trapframe p) TF_sp sp ;;;
            km_ (proc_freepagetable (p_pagetable p) oldsz) ;;;
            return argc
    end.

(** [exec(path, argv)], [argv] being the strings before the null pointer. *)
Definition exec (path : list Z) (argv : list (list Z)) : M kern Z :=
  fs (zf begin_op) ;;;
  do ip <- fs (namei path);
  match ip with
  | None => fs (zf end_op) ;;; return (-1)
  | Some ip =>
      fs (ilock ip) ;;;
      do '(r, elf) <- fs (readi ip ToVar 0 sizeof_elfhdr);
      if negb (r =? sizeof_elfhdr) then exec_bad 0 0 (Some ip)
      else if negb (elf_magic elf =? ELF_MAGIC) then exec_bad 0 0 (Some ip)
      else
        do p <- kmyproc;
        do pagetable <- km_ (proc_pagetable (p_trapframe p));
        if pagetable =? 0 then exec_bad 0 0 (Some ip)
        else
          do '(sz, ok) <- exec_load (Z.to_nat (elf_phnum elf)) pagetable ip 0 (s32 (elf_phoff elf)) (elf_phnum elf) 0;
          if negb ok then exec_bad pagetable sz (Some ip)
          else
            fs (iunlockput ip) ;;;
            fs (zf end_op) ;;;
            exec_stack path argv pagetable sz (elf_entry elf)
  end.
End args.
