(* ===== verification/ExecMem.v ===== *)
(** * Building the address space of a program

    What [exec] (kernel/exec.c) does to the new page table: growing it, taking the guard
    page from the user, storing into its pages; in terms of the bytes the user will see. *)

From stdpp Require Import base list gmap strings.
From S2P Require Import Prelude Riscv Mem Spinlock Kalloc Vm VmTable VmWalk VmUser VmCopy VmFree Sleeplock ProcData Bytes Bio Log Fs Pipe File Proc ProcMem.

Section execmem.
Context `{Layout}.

Lemma TRAMPOLINE_next : TRAMPOLINE = TRAPFRAME + 4096.
Proof. unfold TRAPFRAME, PGSIZE. lia. Qed.

(** The part of a process's page table above its memory. *)
Lemma pspace_top_same s T l root tf P s' T' l' Q : pspace s T l root tf P -> uspace s' T' l' root Q -> owned T' l' (tf :: Q) ->
  (forall va, TRAPFRAME <= va < 2 ^ 39 -> view (entries (mem s')) root va = view (entries (mem s)) root va) -> pspace s' T' l' root tf Q.
Proof.
  intros [[_ Ht Hf Hh] _] U' Ho V. pose proof TRAPFRAME_eq. pose proof MAXVA_eq. pose proof TRAMPOLINE_next.
  split; [split; [done|..]|done]; intros va Hva; rewrite V by lia; [by apply Ht|by apply Hf|by apply Hh].
Qed.

Lemma owned_tf T l tf P Q : owned T (Q ++ l) (tf :: P) -> owned T l (P ++ Q) -> owned T l (tf :: P ++ Q).
Proof.
  intros [[Hn _]%NoDup_cons [(Hok & Hl & HT) _]%Forall_cons] [HN HF]. rewrite elem_of_app in Hl.
  split; [apply NoDup_cons; rewrite elem_of_app; tauto|]. apply Forall_cons. tauto.
Qed.

(** An address is the user's as before if its translation is, or is invalid as before. *)
Lemma user_addr_valid s s' root perm va : flag (view (entries (mem s')) root va) PTE_V = flag (view (entries (mem s)) root va) PTE_V ->
  (flag (view (entries (mem s)) root va) PTE_V = true -> view (entries (mem s')) root va = view (entries (mem s)) root va) ->
  user_addr s' root perm va = user_addr s root perm va.
Proof.
  intros Hf Hv. destruct (flag (view (entries (mem s)) root va) PTE_V) eqn:E; [by apply user_addr_ext, Hv|].
  unfold user_addr. rewrite E, Hf. by rewrite !andb_false_r.
Qed.
Lemma user_addr_range s root perm va x : user_addr s root perm va = Some x -> 0 <= va < MAXVA.
Proof. unfold user_addr. destruct (Z.leb_spec 0 va), (Z.ltb_spec va MAXVA); done. Qed.

(** The pages from [a] on are the user's, with permissions [perm]. *)
Definition user_range (s : kst) (root perm a b : Z) : Prop := forall v, a <= v < b -> is_Some (user_addr s root perm v).

(** [uvmalloc] of a process: its memory continues with zeroes. *)
Lemma grow_space s T l root tf P oldsz newsz xperm : pspace s T l root tf P -> PGROUNDUP oldsz = lenZ P * PGSIZE ->
  0 <= oldsz <= newsz -> newsz <= TRAPFRAME -> 0 <= xperm < 1024 ->
  exists r s' T' l', uvmalloc root oldsz newsz xperm s = Ok r s' /\
    ((r = newsz /\ exists Q, lenZ l <= lenZ l' + 3 * lenZ Q /\ lenZ (P ++ Q) * PGSIZE = Z.max (PGROUNDUP newsz) (PGROUNDUP oldsz) /\ pspace s' T' l' root tf (P ++ Q) /\
        kept (fun q => q <> root) s T l s' T' (Q ++ l') /\
        (forall v, user_byte s' root v = if decide (lenZ P * PGSIZE <= v < lenZ (P ++ Q) * PGSIZE) then Some 0 else user_byte s root v) /\
        (forall perm v, ~ lenZ P * PGSIZE <= v < lenZ (P ++ Q) * PGSIZE -> user_addr s' root perm v = user_addr s root perm v) /\
        (forall perm v, 0 <= perm < 1024 -> lenZ P * PGSIZE <= v < lenZ (P ++ Q) * PGSIZE ->
           is_Some (user_addr s' root perm v) <-> perm = 0 \/ flag (Z.lor (Z.lor (Z.lor PTE_R PTE_U) xperm) PTE_V) perm = true)) \/
     (r = 0 /\ pspace s' T' l' root tf P /\ kept (fun q => q <> root) s T l s' T' l' /\ same_user s root s' root /\
        lenZ l < 3 * ((PGROUNDUP newsz - PGROUNDUP oldsz) / PGSIZE))).
Proof.
  intros PS Hold Hle Hmax Hx. pose proof PS as [[U _ _ _] Ho]. pose proof (us_root _ _ _ _ _ U) as HR. pose proof TRAPFRAME_eq. pose proof MAXVA_eq.
  destruct (uvmalloc_ok s T l root oldsz newsz xperm P U Hold Hle Hmax Hx) as (r & s' & T' & l' & Hr & [(-> & Q & HQ & A & Hcost)|[-> A]]);
    eexists _, s', T', l'; (split; [exact Hr|]); [left|right]; (split; [done|]).
  - destruct A as [U' Mv Hz V Fl]. assert (kept (fun q => q <> root) s T l s' T' (Q ++ l')) as K.
    { apply (moves_kept _ _ _ _ _ _ _ _ _ Mv); [done|]. intros q va Hq Hr' Hva. apply V; tauto. }
    pose proof (us_size _ _ _ _ _ U') as Hsz. pose proof (lenZ_nonneg Q). assert (lenZ P * PGSIZE <= lenZ (P ++ Q) * PGSIZE) as HPQ by (rewrite lenZ_app; unfold PGSIZE; lia).
    exists Q. split; [done|]. split; [done|]. split.
    { eapply pspace_top_same; [exact PS|done|apply owned_tf; [by eapply owned_kept|apply U']|]. intros va Hva. apply V; [done|lia|lia]. }
    split; [done|].
    assert (forall perm v, ~ lenZ P * PGSIZE <= v < lenZ (P ++ Q) * PGSIZE -> user_addr s' root perm v = user_addr s root perm v) as Hout.
    { intros perm v Hv. destruct (decide (0 <= v < MAXVA)) as [Hr0|Hr0]; [apply user_addr_ext, V; [done|lia|lia]|].
      transitivity (@None Z); [|symmetry]; (destruct (user_addr _ root perm v) eqn:E; [|done]); apply user_addr_range in E; lia. }
    assert (forall perm v, 0 <= perm < 1024 -> lenZ P * PGSIZE <= v < lenZ (P ++ Q) * PGSIZE -> exists q, q ∈ Q /\
       user_addr s' root perm v = if (perm =? 0) || flag (Z.lor (Z.lor (Z.lor PTE_R PTE_U) xperm) PTE_V) perm then Some (q + v mod PGSIZE) else None) as Hin.
    { intros perm v Hp0 Hv. pose proof (Z.div_mod v PGSIZE ltac:(done)) as Hdm. pose proof (Z.mod_pos_bound v PGSIZE ltac:(done)). pose proof (lenZ_nonneg P).
      assert (lenZ P <= v / PGSIZE < lenZ (P ++ Q)) as Hj by (unfold PGSIZE in *; lia).
      destruct (lookup_lt_is_Some_2 (P ++ Q) (Z.to_nat (v / PGSIZE))) as [q Hq]; [unfold lenZ in Hj; lia|]. exists q.
      split; [rewrite lookup_app_r in Hq by (unfold lenZ in Hj; lia); by eapply list_elem_of_lookup_2|].
      rewrite (user_addr_in s' T' l' root (P ++ Q) perm v _ q U' Hq) by (rewrite ?PGROUNDDOWN_eq, ?Z2Nat.id by lia; unfold PGSIZE in *; lia).
      assert (forall f, 0 <= f < 1024 -> flag (view (entries (mem s')) root v) f = flag (Z.lor (Z.lor (Z.lor PTE_R PTE_U) xperm) PTE_V) f) as Hf by (intros f Hf; by rewrite <- flag_FLAGS, Fl).
      rewrite !Hf by done. assert (flag (Z.lor (Z.lor (Z.lor PTE_R PTE_U) xperm) PTE_V) PTE_U = true) as ->; [|done].
      rewrite !flag_lor. change (flag PTE_U PTE_U) with true. by rewrite orb_true_r. }
    split; [|split].
    + intros v. case_decide as Hv.
      * destruct (Hin 0 v) as (q & Hq & E); [lia|done|]. cbn [Z.eqb orb] in E. unfold user_byte. rewrite E. cbn. f_equal. apply (Hz q Hq).
        pose proof (Z.mod_pos_bound v PGSIZE ltac:(done)). lia.
      * unfold user_byte. rewrite Hout by done. destruct (user_addr s root 0 v) as [x|] eqn:Ex; [|done]. cbn. f_equal.
        destruct (user_page_ok _ _ _ _ _ _ _ _ U Ex) as (p & Hp & _ & _ & Hpx). apply (mv_mem _ _ _ _ _ _ _ _ Mv). by eapply owned_outside; [apply U|apply U|..].
    + exact Hout.
    + intros perm v Hp0 Hv. destruct (Hin perm v Hp0 Hv) as (q & _ & ->). destruct (Z.eqb_spec perm 0) as [->|Hne]; cbn [orb]; [split; [by left|by eexists]|].
      destruct (flag _ perm); split; [by right|by eexists|by intros [? ?]|by intros [?|?]].
  - destruct A as [U' Sh Mv V]. assert (kept (fun q => q <> root) s T l s' T' l') as K.
    { apply (moves_kept _ _ _ _ _ _ _ _ [] Mv); [done|]. intros q va Hq Hr' Hva. apply V; tauto. }
    assert (pspace s' T' l' root tf P) as PS'.
    { eapply pspace_top_same; [exact PS|done|by eapply owned_kept|]. intros va Hva. apply V; [done|lia|lia]. }
    split; [done|]. split; [done|]. split; [|done].
    assert (forall perm va, user_addr s' root perm va = user_addr s root perm va) as E.
    { intros perm va. destruct (decide (0 <= va < MAXVA)) as [Hr0|Hr0].
      - apply user_addr_valid; [apply V; [done|lia]|]. intros Hv. apply V; [done|lia|by left].
      - transitivity (@None Z); [|symmetry]; (destruct (user_addr _ root perm va) eqn:E; [|done]); apply user_addr_range in E; lia. }
    intros va. split; [|intros; by rewrite E]. unfold user_byte. rewrite E. destruct (user_addr s root 0 va) as [x|] eqn:Ex; [|done]. cbn. f_equal.
    destruct (user_page_ok _ _ _ _ _ _ _ _ U Ex) as (p & Hp & _ & _ & Hpx). apply (mv_mem _ _ _ _ _ _ _ _ Mv). by eapply owned_outside; [apply U|apply U|..].
Qed.
(** ** The guard page *)

(** A PTE without [PTE_U]. *)
Lemma clear_word e (e' := Z.land e (Z.lnot PTE_U)) : 0 <= e < 2 ^ 64 ->
  0 <= e' < 2 ^ 64 /\ PTE2PA e' = PTE2PA e /\ flag e' PTE_U = false /\ flag e' PTE_V = flag e PTE_V /\ flag e' PTE_R = flag e PTE_R.
Proof.
  intros He. destruct pte_bits as (-> & -> & _ & _ & EU). unfold e'. rewrite EU. split.
  { assert (Z.land e (Z.lnot 16) = Z.land e (Z.lnot 16) mod 2 ^ 64) as ->; [|by apply Z.mod_pos_bound].
    rewrite <- Z.land_ones, <- Z.land_assoc, (Z.land_comm (Z.lnot 16)), Z.land_assoc, Z.land_ones by done. by rewrite Z.mod_small. }
  with_strategy transparent [flag PTE2PA] (unfold flag, PTE2PA). rewrite Z.shiftr_land. change (Z.shiftr (Z.lnot 16) 10) with (-1).
  rewrite Z.land_m1_r, <- !Z.land_assoc. change (Z.land (Z.lnot 16) 16) with 0. change (Z.land (Z.lnot 16) 1) with 1. change (Z.land (Z.lnot 16) 2) with 2.
  by rewrite Z.land_0_r.
Qed.

Lemma maps_change V V' a P : (forall (j : nat) p, P !! j = Some p -> leaf (V' (a + Z.of_nat j * PGSIZE)) /\
  PTE2PA (V' (a + Z.of_nat j * PGSIZE)) = PTE2PA (V (a + Z.of_nat j * PGSIZE))) -> maps V a P -> maps V' a P.
Proof.
  revert a. induction P as [|p P IH]; intros a Hc; [done|]. cbn [maps]. intros (_ & Hp & HM).
  destruct (Hc 0%nat p eq_refl) as [H1 H2]. rewrite Z.mul_0_l, Z.add_0_r in H1, H2. split; [done|]. split; [congruence|].
  apply IH; [|done]. intros j q Hj. destruct (Hc (S j) q Hj) as [H3 H4].
  replace (a + PGSIZE + Z.of_nat j * PGSIZE) with (a + Z.of_nat (S j) * PGSIZE) by lia. done.
Qed.

(** [uvmclear] of page [j] takes it from the user, and nothing else. *)
Lemma clear_space s T l root tf P (j : nat) p (a := Z.of_nat j * PGSIZE) : pspace s T l root tf P -> P !! j = Some p ->
  is_Some (user_addr s root PTE_R a) ->
  exists s', uvmclear root a s = Ok tt s' /\ pspace s' T l root tf P /\ kept (fun q => q <> root) s T l s' T l /\
    (forall perm v, user_addr s' root perm v = if decide (a <= v < a + PGSIZE) then None else user_addr s root perm v) /\
    (forall v, user_byte s' root v = if decide (a <= v < a + PGSIZE) then None else user_byte s root v).
Proof.
  intros PS Hp [x Hx]. pose proof PS as [[U _ _ _] Ho]. pose proof (us_inv _ _ _ _ _ U) as I. pose proof (us_root _ _ _ _ _ U) as HR.
  pose proof TRAPFRAME_eq. pose proof MAXVA_eq. pose proof (us_size _ _ _ _ _ U) as Hsz. destruct (user_page _ _ _ _ _ _ _ _ U Hx) as [Ha _].
  assert (a mod PGSIZE = 0) as Hal by apply Z_mod_mult. assert (a + PGSIZE <= TRAPFRAME) as Hat.
  { apply lookup_lt_Some in Hp. unfold a, lenZ, PGSIZE in *. lia. }
  set (e := view (entries (mem s)) root a). assert (flag e PTE_V = true /\ flag e PTE_R = true) as [HV HRd].
  { unfold user_addr in Hx. fold e in Hx. destruct (flag e PTE_V); [|by rewrite andb_false_r in Hx]. split; [done|]. destruct (flag e PTE_R); [done|]. by rewrite !andb_false_r in Hx. }
  destruct (pwalk (entries (mem s)) 2 root a) as [[q i]|] eqn:W; [|unfold e in HV; by rewrite (view_none _ _ _ W) in HV].
  destruct (slot_pos _ _ _ _ _ _ _ _ I HR W) as (Hpos & Hq & Hi & Hqa). assert (e = entries (mem s) q i) as Ee by (unfold e; by rewrite (view_walk _ _ _ _ _ W)).
  assert (0 <= e < 2 ^ 64) as He by (rewrite Ee; apply ld64_bound, I). destruct (clear_word e He) as (B1 & B2 & B3 & B4 & B5).
  destruct (store_leaf s T l root a q i _ I HR ltac:(lia) W B1) as [Ev V]. set (s' := set_mem _ s) in *. exists s'. split.
  { unfold uvmclear. rewrite (bind_Ok _ _ _ _ _ (walk_noalloc root a s ltac:(lia))), W. cbn [slot]. destruct (Z.eqb_spec (q + 8 * i) 0); [lia|].
    rewrite (bind_Ok _ _ _ _ _ (load64_entries q i s)), <- Ee. done. }
  assert (forall v, 0 <= v < 2 ^ 39 -> view (entries (mem s')) root v = if decide (a <= v < a + PGSIZE) then Z.land e (Z.lnot PTE_U) else view (entries (mem s)) root v) as V'.
  { intros v Hv. rewrite V by done. pose proof (page_index a v Hal) as Hpi. case_decide as E1; case_decide as E2; tauto. }
  assert (leaf (Z.land e (Z.lnot PTE_U))) as HL.
  { split; [congruence|]. intros E. rewrite <- flag_FLAGS, E in B5 by done. rewrite HRd in B5. revert B5. vm_compute. congruence. }
  assert (pspace s' T l root tf P) as PS'.
  { eapply pspace_top_same; [exact PS| |done|intros va Hva; rewrite V', decide_False by lia; done]. split; [apply Ev|done| |apply U|apply U|..].
    - eapply maps_change, U. intros j' p' Hp'. cbn. apply lookup_lt_Some in Hp' as Hlt. rewrite V' by (unfold lenZ, PGSIZE in *; lia). case_decide as Hd.
      + split; [done|]. rewrite B2. unfold e. do 2 f_equal. unfold a, PGSIZE in *. lia.
      + by destruct (maps_lookup _ _ _ _ _ (us_maps _ _ _ _ _ U) Hp').
    - intros va Hva. pose proof (lookup_lt_Some _ _ _ Hp). rewrite V', decide_False by (unfold a, lenZ, PGSIZE in *; lia). by apply (us_free _ _ _ _ _ U).
    - intros va Hva. rewrite V', decide_False by lia. by apply (us_top _ _ _ _ _ U). }
  split; [done|]. split.
  { apply (evolves_kept _ root); [done|done|]. intros r va Hr HT Hva. rewrite V by done. by rewrite decide_False by tauto. }
  assert (forall perm v, user_addr s' root perm v = if decide (a <= v < a + PGSIZE) then None else user_addr s root perm v) as Ea.
  { intros perm v. case_decide as Hd.
    - unfold user_addr. rewrite V', decide_True, B3 by (done || unfold PGSIZE in *; lia). by rewrite !andb_false_r.
    - destruct (decide (0 <= v < MAXVA)) as [Hr0|Hr0]; [apply user_addr_ext; by rewrite V', decide_False by lia|].
      transitivity (@None Z); [|symmetry]; (destruct (user_addr _ root perm v) eqn:E; [|done]); apply user_addr_range in E; lia. }
  split; [done|]. intros v. unfold user_byte. rewrite Ea. case_decide; [done|]. destruct (user_addr s root 0 v) as [y|] eqn:Ey; [|done]. cbn. f_equal.
  destruct (user_page_ok _ _ _ _ _ _ _ _ U Ey) as (p' & Hp' & _ & _ & Hpx). apply (e_mem _ _ _ _ _ _ _ Ev). by eapply owned_outside; [apply U|apply U|..].
Qed.
(** ** Storing into the pages *)

(** The kernel stores [bs] at the start of page [j], which is the user's. *)
Lemma fill_space s T l root tf P (j : nat) p bs (a := Z.of_nat j * PGSIZE) (s' := set_mem (stn (mem s) p bs) s) :
  pspace s T l root tf P -> P !! j = Some p -> Forall is_byte bs -> lenZ bs <= PGSIZE -> user_range s root 0 a (a + lenZ bs) ->
  pspace s' T l root tf P /\ kept (fun _ => True) s T (P ++ l) s' T (P ++ l) /\ (forall perm v, user_addr s' root perm v = user_addr s root perm v) /\
  user_gets s s' root a bs.
Proof.
  intros PS Hp Hb Hl HU. pose proof PS as [[U _ _ _] Ho]. pose proof (us_inv _ _ _ _ _ U) as I. pose proof (us_root _ _ _ _ _ U) as HR.
  assert (forall i, 0 <= i < lenZ bs -> user_addr s root 0 (a + i) = Some (p + i)) as Ha.
  { intros i Hi. destruct (HU (a + i) ltac:(lia)) as [x Hx]. rewrite Hx. f_equal. destruct (user_page _ _ _ _ _ _ _ _ U Hx) as [_ Hq].
    assert ((a + i) / PGSIZE = Z.of_nat j /\ (a + i) mod PGSIZE = i) as [E1 E2].
    { unfold a, PGSIZE in *. clear -Hi Hl. split; [symmetry; apply Z.div_unique_pos with i; lia|symmetry; apply Z.mod_unique_pos with (Z.of_nat j); lia]. }
    rewrite E1, E2, Nat2Z.id in Hq. 
    assert (p = x - i) by congruence. lia. }
  assert (forall x, ld8 (mem s') x = if decide (p <= x < p + lenZ bs) then bs !!! Z.to_nat (x - p) else ld8 (mem s) x) as M by (intros x; by apply ld8_stn).
  destruct (uspace_write s T l root P 0 (stn (mem s) p bs) U) as [U' V].
  { apply mem_ok_stn, I. }
  { intros x Hx. change (stn (mem s) p bs) with (mem s'). rewrite M, decide_False; [done|]. intros Hr. apply Hx. exists (a + (x - p)).
    rewrite Ha by lia. f_equal. lia. }
  fold s' in U', V. assert (forall perm v, user_addr s' root perm v = user_addr s root perm v) as Ea by (intros; by apply user_addr_ext, V).
  split; [eapply pspace_top_same; [exact PS|done|done|intros; by apply V]|]. split; [|split; [done|]].
  - assert (forall x, ~ p <= x < p + PGSIZE -> ld8 (mem s') x = ld8 (mem s) x) as F by (intros x Hx; rewrite M, decide_False; [done|lia]).
    apply list_elem_of_lookup_2 in Hp as HpP. split; [done|intros; by apply V|done| |done|intros x Hx; apply F, Hx; right; apply elem_of_app; by left].
    intros r q _ Hr. apply (tree_dirs _ _ T); [apply I|done|]. intros b i k Hb' Hi. apply entries_frame; [done|]. intros x Hx. apply F. intros Hpx.
    apply (owned_outside s T l P p x I (us_owned _ _ _ _ _ U) HpP Hpx b); [left; eauto|done].
  - intros v. unfold user_byte. rewrite Ea. case_decide as Hv.
    + replace v with (a + (v - a)) at 1 by lia. rewrite Ha by lia. cbn. rewrite M, decide_True by lia.
      replace (p + (v - a) - p) with (v - a) by lia. symmetry. apply list_lookup_lookup_total_lt. unfold lenZ in Hv. lia.
    + destruct (user_addr s root 0 v) as [x|] eqn:Ex; [|done]. cbn. f_equal. rewrite M, decide_False; [done|]. intros Hr.
      pose proof (Ha (x - p) ltac:(lia)) as Hx. replace (p + (x - p)) with x in Hx by lia. pose proof (user_addr_inj _ _ _ _ _ _ _ _ _ _ U Ex Hx). lia.
Qed.
End execmem.
