(* ===== verification/Grow.v ===== *)
(** * Resizing a process: [growproc] of kernel/proc.c

    The memory of a process is extended with zeroes, or cut off, or nothing changes. *)

From stdpp Require Import base gmap strings list.
From S2P Require Import Prelude Riscv Mem Spinlock Kalloc Vm VmTable VmWalk VmUser VmCopy VmFree Sleeplock ProcData Bytes Bio Log Fs Pipe File Proc ProcSpec ProcMem Fork ExecMem.

Section grow.
Context `{Layout}.

(** [uvmdealloc] of a process: the pages [Q] are free again. *)
Lemma shrink_space s T l root tf P Q oldsz newsz : pspace s T l root tf (P ++ Q) -> 0 <= newsz < oldsz ->
  PGROUNDUP oldsz = lenZ (P ++ Q) * PGSIZE -> PGROUNDUP newsz = lenZ P * PGSIZE ->
  exists s', uvmdealloc root oldsz newsz s = Ok newsz s' /\ pspace s' T (rev Q ++ l) root tf P /\
    kept (fun q => q <> root) s T (Q ++ l) s' T (rev Q ++ l) /\
    (forall v, user_byte s' root v = if decide (lenZ P * PGSIZE <= v) then None else user_byte s root v).
Proof.
  intros PS Hsz Hold Hnew. pose proof PS as [[U _ _ _] Ho]. pose proof (us_root _ _ _ _ _ U) as HR. pose proof TRAPFRAME_eq. pose proof MAXVA_eq.
  pose proof (us_size _ _ _ _ _ U) as Hs. pose proof (lenZ_nonneg P). pose proof (lenZ_nonneg Q). rewrite lenZ_app in Hs.
  destruct (shrink_run s T l root P Q oldsz newsz U Hsz Hold Hnew) as (s' & Hrun & U' & V & F & Ht); [unfold PGSIZE in *; lia|].
  assert (forall p, p ∈ Q ++ l <-> p ∈ rev Q ++ l) as Hrev by (intros p; rewrite !elem_of_app, !list_elem_of_In, <- in_rev; done).
  exists s'. split; [done|]. split; [|split].
  - eapply pspace_top_same; [exact PS|done| |].
    + destruct Ho as [[Hn HN]%NoDup_cons [(Hok & Hl & HT) HF]%Forall_cons]. destruct U' as [_ _ _ [HN' HF'] _ _ _].
      split; [apply NoDup_cons; split; [intros Hi; apply Hn; rewrite elem_of_app; by left|done]|]. apply Forall_cons. split; [|done]. split; [done|]. split; [|done].
      rewrite <- Hrev, elem_of_app. rewrite elem_of_app in Hn. tauto.
    + intros va Hva. rewrite V by (done || lia). unfold unmapped_view. rewrite decide_False by (unfold PGSIZE in *; lia). done.
  - split; [done| |done|intros r p _; apply Ht| |].
    + intros r va Hr HT Hva. rewrite V by done. unfold unmapped_view. by rewrite decide_False by tauto.
    + intros p. by rewrite Hrev.
    + intros x Hx. apply F. intros p Hp. apply Hx. by rewrite Hrev.
  - intros v. case_decide as Hv.
    + unfold user_byte. by rewrite (user_addr_None _ _ _ _ _ _ _ U') by lia.
    + assert (user_addr s' root 0 v = user_addr s root 0 v) as Ea.
      { destruct (decide (0 <= v)); [|rewrite (user_addr_None _ _ _ _ _ _ _ U') by lia; by rewrite (user_addr_None _ _ _ _ _ _ _ U) by lia].
        apply user_addr_ext. rewrite V by (done || unfold PGSIZE in *; lia). unfold unmapped_view. by rewrite decide_False by lia. }
      unfold user_byte. rewrite Ea. destruct (user_addr s root 0 v) as [x|]; [|done]. cbn. f_equal. apply F.
      destruct (user_page_ok _ _ _ _ _ _ _ _ U' Ea) as (p & Hp & _ & _ & Hpx). by eapply owned_outside; [apply U'|apply U'|..].
Qed.

(** The memory of process [root] with pages [P] became one with pages [P'] and size [sz]:
    bytes below both sizes are as before, the others are 0; nothing else changed, and the
    pages given up are free. *)
Record resized (k : kst) (T : gmap Z nat) (l : list Z) (root tf : Z) (P : list Z) (sz : Z) (k' : kst) (T' : gmap Z nat) (l' P' : list Z) : Prop := {
  rs_space : pspace k' T' l' root tf P';
  rs_size : PGROUNDUP sz = lenZ P' * PGSIZE;
  rs_kept : kept (fun q => q <> root) k T (P ++ l) k' T' (P' ++ l');
  rs_bytes : forall v, user_byte k' root v =
    if decide (lenZ P' * PGSIZE <= v) then None else if decide (lenZ P * PGSIZE <= v) then Some 0 else user_byte k root v
}.
Lemma resized_same k T l root tf P sz k' T' l' : pspace k T l root tf P -> PGROUNDUP sz = lenZ P * PGSIZE -> pspace k' T' l' root tf P ->
  kept (fun q => q <> root) k T l k' T' l' -> same_user k root k' root -> resized k T l root tf P sz k' T' l' P.
Proof.
  intros PS Hsz PS' K SU. split; [done|done|by apply kept_more|]. intros v. destruct (SU v) as [-> _]. case_decide as Hv; [|done].
  unfold user_byte. by rewrite (user_addr_None _ _ _ _ _ _ _ (ps_us _ _ _ _ _ _ (ps_view _ _ _ _ _ _ PS))) by lia.
Qed.
Lemma same_user_refl k root : same_user k root k root.
Proof. done. Qed.

Lemma resized_up k T l root tf P sz newsz k' T' l' Q : pspace k T l root tf P -> PGROUNDUP sz = lenZ P * PGSIZE -> 0 <= sz <= newsz -> newsz <= TRAPFRAME ->
  lenZ (P ++ Q) * PGSIZE = Z.max (PGROUNDUP newsz) (PGROUNDUP sz) -> pspace k' T' l' root tf (P ++ Q) -> kept (fun q => q <> root) k T l k' T' (Q ++ l') ->
  (forall v, user_byte k' root v = if decide (lenZ P * PGSIZE <= v < lenZ (P ++ Q) * PGSIZE) then Some 0 else user_byte k root v) ->
  resized k T l root tf P newsz k' T' l' (P ++ Q).
Proof.
  intros PS Hsz Hle Hmax HQ PS' K B. pose proof TRAPFRAME_eq. destruct (PGROUNDUP_bounds sz) as [Hb _]; [lia|unfold PGSIZE; lia|].
  destruct (PGROUNDUP_bounds newsz) as [Hb' Ha']; [lia|unfold PGSIZE; lia|].
  assert (PGROUNDUP sz <= PGROUNDUP newsz) as Hup.
  { rewrite Hsz in *. apply Z.mod_divide in Ha' as [c Hc]; [|done]. unfold PGSIZE in *. lia. }
  split; [done|lia|rewrite <- app_assoc; by apply kept_more|]. intros v. rewrite B. pose proof (lenZ_nonneg Q). rewrite lenZ_app in *.
  pose proof (ps_us _ _ _ _ _ _ (ps_view _ _ _ _ _ _ PS)) as U. repeat case_decide; try done; try (unfold PGSIZE in *; lia).
  unfold user_byte. by rewrite (user_addr_None _ _ _ _ _ _ _ U) by (unfold PGSIZE in *; lia).
Qed.

Lemma resized_down k T l root tf P sz newsz : pspace k T l root tf P -> PGROUNDUP sz = lenZ P * PGSIZE -> sz <= TRAPFRAME -> 0 <= newsz < sz ->
  exists k' l' P', uvmdealloc root sz newsz k = Ok newsz k' /\ resized k T l root tf P newsz k' T l' P'.
Proof.
  intros PS Hsz Hmax Hle. pose proof TRAPFRAME_eq. destruct (PGROUNDUP_bounds newsz) as [Hb Ha]; [lia|unfold PGSIZE; lia|]. destruct (PGROUNDUP_bounds sz) as [Hb' _]; [lia|unfold PGSIZE; lia|].
  apply Z.mod_divide in Ha as [c Hc]; [|done]. assert (0 <= c <= lenZ P) as Hcr by (unfold PGSIZE in *; lia).
  set (P1 := take (Z.to_nat c) P). set (Q := drop (Z.to_nat c) P). assert (P1 ++ Q = P) as EP by apply take_drop.
  assert (lenZ P1 = c) as L1 by (unfold P1, lenZ in *; rewrite length_take; lia).
  destruct (shrink_space k T l root tf P1 Q sz newsz) as (k' & E & PS' & K & B); [by rewrite EP|done|by rewrite EP|by rewrite L1|].
  exists k', (rev Q ++ l), P1. split; [done|]. split; [done|by rewrite L1| |].
  - pose proof (kept_more _ _ _ _ _ _ _ P1 K) as K'. rewrite app_assoc, EP in K'. exact K'.
  - intros v. rewrite B. case_decide; [done|]. rewrite decide_False; [done|]. unfold PGSIZE in *. lia.
Qed.
End grow.

(** C24: [growproc(n)], which is [sbrk]: the process gets size [sz + n], with zeroes in the new
    part or without the pages above it, and 0 is returned; when memory is short for a
    larger size -1 is returned and its memory is as before.  A size below 0 is ignored: the
    memory stays, and 0 is returned. *)
Theorem growproc_resizes `{Layout} (s : kern) (T : gmap Z nat) (l P : list Z) (n : Z) :
  let p := myproc (kf s) in let k := fk (kf s) in let t := ptab s in
  pspace k T l (p_pagetable p) (p_trapframe p) P -> PGROUNDUP (p_sz p) = lenZ P * PGSIZE -> 0 <= p_sz p <= TRAPFRAME ->
  - 2 ^ 31 <= n < 2 ^ 31 -> p_sz p + n <= TRAPFRAME ->
  let sz' := if p_sz p + n <? 0 then p_sz p else p_sz p + n in
  exists k' T' l' P',
    (growproc n s = Ok 0 (st k' (tupd (cur t) (set_sz sz' p) t) s) /\ resized k T l (p_pagetable p) (p_trapframe p) P sz' k' T' l' P') \/
    (growproc n s = Ok (-1) (st k' t s) /\ 0 < n /\ resized k T l (p_pagetable p) (p_trapframe p) P (p_sz p) k' T' l' P /\ P' = P /\
      lenZ l < 3 * ((PGROUNDUP (p_sz p + n) - PGROUNDUP (p_sz p)) / PGSIZE)).
Proof.
  intros p k t PS Hsz Hs Hn Hmax sz'. pose proof TRAPFRAME_eq. set (root := p_pagetable p) in *. set (tf := p_trapframe p) in *.
  unfold growproc, kmyproc. rewrite !bind_gets. fold p root. change (cur (fp (kf s))) with (cur t).
  assert (forall k' v, (pt (upd_p (cur t) (set_sz v)) ;;; return 0) (st k' t s) = Ok 0 (st k' (tupd (cur t) (set_sz v p) t) s)) as Hupd.
  { intros k' v. by rewrite upd_bind. }
  rewrite <- (st_id s). fold k t. rewrite Z.gtb_ltb. destruct (Z.ltb_spec 0 n) as [Hp|Hp]; [|destruct (Z.ltb_spec n 0) as [Hm|Hm]].
  - rewrite u64_small by lia. destruct (grow_space k T l root tf P (p_sz p) (p_sz p + n) PTE_W PS Hsz ltac:(lia) Hmax ltac:(done)) as (r & k' & T' & l' & Hr & Hc).
    rewrite (km_bind _ _ _ _ _ _ _ Hr). unfold sz'. rewrite (proj2 (Z.ltb_ge _ _)) by lia. destruct Hc as [(-> & Q & _ & HQ & PS' & K & B & _)|(-> & PS' & K & SU & Hsh)].
    + exists k', T', l', (P ++ Q). left. destruct (Z.eqb_spec (p_sz p + n) 0); [lia|]. split; [apply Hupd|]. apply (resized_up k T l root tf P (p_sz p)); try done; lia.
    + exists k', T', l', P. right. split; [done|]. split; [done|]. split; [by apply resized_same|]. done.
  - unfold sz'. destruct (Z.ltb_spec (p_sz p + n) 0) as [Hneg|Hpos].
    + exists k, T, l, P. left. split; [|apply resized_same; try done; apply kept_refl].
      assert (u64 (p_sz p + n) = p_sz p + n + 2 ^ 64) as Eu by (unfold u64; rewrite <- (Z_mod_plus_full _ 1), Z.mod_small by lia; lia).
      rewrite (km_bind _ _ _ _ _ (p_sz p) k); [apply Hupd|]. unfold uvmdealloc. rewrite Eu, Z.geb_leb, (proj2 (Z.leb_le _ _)) by lia. done.
    + rewrite u64_small by lia. destruct (resized_down k T l root tf P (p_sz p) (p_sz p + n) PS Hsz ltac:(lia) ltac:(lia)) as (k' & l' & P' & E & R).
      exists k', T, l', P'. left. split; [|done]. rewrite (km_bind _ _ _ _ _ _ _ E). apply Hupd.
  - assert (n = 0) as -> by lia. unfold sz'. rewrite Z.add_0_r, (proj2 (Z.ltb_ge _ _)) by lia. exists k, T, l, P. left. split; [apply Hupd|].
    apply resized_same; try done; apply kept_refl.
Qed.

(** A process without memory asks for 100 bytes. *)
#[local] Existing Instance fork_layout.
Lemma growproc_resizes_witness : exists root tf k T l k' T' l' P' (s := ex_caller root tf k) (p := ex_parent root tf),
  (growproc 100 s = Ok 0 (st k' (tupd 0 (set_sz 100 p) (ptab s)) s) /\ resized k T l root tf [] 100 k' T' l' P') \/
  (growproc 100 s = Ok (-1) (st k' (ptab s) s) /\ 0 < 100 /\ resized k T l root tf [] 0 k' T' l' [] /\ P' = [] /\
    lenZ l < 3 * ((PGROUNDUP (0 + 100) - PGROUNDUP 0) / PGSIZE)).
Proof.
  destruct ex_ready as (root & tf & k & T & l & PS & _). exists root, tf, k, T, l.
  assert (myproc (kf (ex_caller root tf k)) = ex_parent root tf) as Ep by reflexivity.
  pose proof (growproc_resizes (ex_caller root tf k) T l [] 100) as G. cbv zeta in G. rewrite Ep in G. cbv zeta. apply G.
  - exact PS.
  - reflexivity.
  - rewrite TRAPFRAME_eq. vm_compute. split; intros [=].
  - vm_compute. split; [intros [=]|reflexivity].
  - rewrite TRAPFRAME_eq. vm_compute. intros [=].
Defined.
