(* ===== verification/ExecLoad.v ===== *)
(** * Loading a program: the loop over the segments in [exec] (kernel/exec.c)

    The segments of the file are read into the pages of the new address space.  The
    memory of the program is a function from user addresses to bytes. *)

From stdpp Require Import base gmap strings fin_sets functions list.
From S2P Require Import Prelude Riscv Mem Spinlock Kalloc Vm VmTable VmWalk VmUser VmCopy VmFree Sleeplock ProcData Bytes Bio BioSpec Log LogSpec Fs FsTx FsAlloc FsFile Pipe File Proc ProcMem Exec ExecMem.

(** ** Memory as the user sees it *)

(** The byte at an address and the permissions of its page, if the user may access it. *)
Definition umem := Z -> option (Z * Z).
(** New pages with permissions [p]; bytes stored; a page taken away. *)
Definition um_zero (a b p : Z) (m : umem) : umem := fun v => if decide (a <= v < b) then Some (0, p) else m v.
Definition um_put (a : Z) (bs : list Z) (m : umem) : umem :=
  fun v => if decide (a <= v < a + lenZ bs) then c ← bs !! Z.to_nat (v - a); '(_, p) ← m v; Some (c, p) else m v.
Definition um_hide (a b : Z) (m : umem) : umem := fun v => if decide (a <= v < b) then None else m v.
(** The user reads that byte at [v], and may access it in the ways the permissions say and in no other. *)
Definition sees `{Layout} (k : kst) (root v : Z) (c : option (Z * Z)) : Prop :=
  user_byte k root v = fst <$> c /\
  forall perm, 0 <= perm < 1024 -> is_Some (user_addr k root perm v) <-> exists b p, c = Some (b, p) /\ (perm = 0 \/ flag p perm = true).
Definition um_is `{Layout} (k : kst) (root : Z) (m : umem) : Prop := forall v, sees k root v (m v).

Lemma um_put_nil a m v : um_put a [] m v = m v.
Proof. unfold um_put. rewrite decide_False; [done|]. change (lenZ []) with 0. lia. Qed.
Lemma um_put_app a b1 b2 m v : um_put (a + lenZ b1) b2 (um_put a b1 m) v = um_put a (b1 ++ b2) m v.
Proof.
  unfold um_put. rewrite lenZ_app. pose proof (lenZ_nonneg b1). pose proof (lenZ_nonneg b2).
  destruct (decide (a + lenZ b1 <= v < a + lenZ b1 + lenZ b2)), (decide (a <= v < a + lenZ b1)), (decide (a <= v < a + (lenZ b1 + lenZ b2))); try lia; [| |done].
  - rewrite lookup_app_r by (unfold lenZ in *; lia). replace (Z.to_nat (v - (a + lenZ b1))) with (Z.to_nat (v - a) - length b1)%nat by (unfold lenZ; lia). done.
  - rewrite lookup_app_l by (unfold lenZ in *; lia). done.
Qed.
Lemma um_put_ext a bs m m' v : (forall v, m v = m' v) -> um_put a bs m v = um_put a bs m' v.
Proof. intros E. unfold um_put. by rewrite E. Qed.

Section umem.
Context `{Layout}.
Lemma um_same k root k' root' m : same_user k root k' root' -> um_is k root m -> um_is k' root' m.
Proof. intros S M v. destruct (S v) as [S1 S2], (M v) as [M1 M2]. split; [congruence|]. intros perm Hp. rewrite S2 by done. by apply M2. Qed.
Lemma um_grow k root k' a b p m : um_is k root m ->
  (forall v, user_byte k' root v = if decide (a <= v < b) then Some 0 else user_byte k root v) ->
  (forall perm v, ~ a <= v < b -> user_addr k' root perm v = user_addr k root perm v) ->
  (forall perm v, 0 <= perm < 1024 -> a <= v < b -> is_Some (user_addr k' root perm v) <-> perm = 0 \/ flag p perm = true) -> um_is k' root (um_zero a b p m).
Proof.
  intros M B A1 A2 v. destruct (M v) as [M1 M2]. unfold um_zero. split; [rewrite B; by case_decide|]. intros perm Hp. case_decide as Hv.
  - rewrite A2 by done. split; [by exists 0, p|]. by intros (b' & p' & [= <- <-] & ?).
  - rewrite A1 by done. by apply M2.
Qed.
Lemma um_write k root k' a bs m : um_is k root m -> user_gets k k' root a bs -> (forall perm v, user_addr k' root perm v = user_addr k root perm v) ->
  um_is k' root (um_put a bs m).
Proof.
  intros M G A v. destruct (M v) as [M1 M2]. specialize (G v). unfold um_put. case_decide as Hv.
  2: { split; [congruence|]. intros perm Hp. rewrite A. by apply M2. }
  destruct (lookup_lt_is_Some_2 bs (Z.to_nat (v - a))) as [c Hc]; [unfold lenZ in Hv; lia|]. rewrite Hc in *. cbn [mbind option_bind].
  destruct (m v) as [[b p]|]; cbn [mbind option_bind fst fmap option_fmap option_map] in *.
  - split; [done|]. intros perm Hp. rewrite A, M2 by done. split; intros (b' & p' & [= <- <-] & ?); eauto.
  - exfalso. unfold user_byte in *. rewrite A in G. by destruct (user_addr k root 0 v).
Qed.
Lemma um_clear k root k' a b m : um_is k root m -> (forall v, user_byte k' root v = if decide (a <= v < b) then None else user_byte k root v) ->
  (forall perm v, user_addr k' root perm v = if decide (a <= v < b) then None else user_addr k root perm v) -> um_is k' root (um_hide a b m).
Proof.
  intros M B A v. destruct (M v) as [M1 M2]. unfold um_hide. split; [rewrite B; by case_decide|]. intros perm Hp. rewrite A. case_decide; [|by apply M2].
  split; [by intros [? ?]|by intros (? & ? & ? & _)].
Qed.
End umem.

(** ** What the file says *)

(** Program header at offset [off] of the file. *)
Definition phdr (file : list Z) (off : Z) : list Z := take (Z.to_nat sizeof_proghdr) (drop (Z.to_nat off) file).
(** The bytes of the segment that are in the file; both fields are cut to 32 bits. *)
Definition seg_data (file ph : list Z) : list Z := take (Z.to_nat (u32 (ph_filesz ph))) (drop (Z.to_nat (u32 (ph_off ph))) file).
(** The permissions of its pages: the user may always read, and execute or write when bit 0
    or 1 of the flags is set. *)
Definition seg_perm (ph : list Z) : Z :=
  Z.lor (Z.lor (Z.lor PTE_R PTE_U) (Z.lor (if Z.testbit (ph_flags ph) 0 then PTE_X else 0) (if Z.testbit (ph_flags ph) 1 then PTE_W else 0))) PTE_V.
Definition seg_end (ph : list Z) : Z := u64 (ph_vaddr ph + ph_memsz ph).

(** Size and memory of the program after [n] headers from [off] on; [None] if one of them is
    not acceptable. *)
Fixpoint load_segs (file : list Z) (n : nat) (off sz : Z) (m : umem) : option (Z * umem) :=
  match n with
  | O => Some (sz, m)
  | S n =>
      let ph := phdr file off in
      if lenZ ph <? sizeof_proghdr then None
      else if negb (ph_type ph =? ELF_PROG_LOAD) then load_segs file n (off + sizeof_proghdr) sz m
      else if (ph_memsz ph <? ph_filesz ph) || (seg_end ph <? ph_vaddr ph) || negb (ph_vaddr ph mod PGSIZE =? 0) then None
      else
        let sz1 := Z.max sz (seg_end ph) in
        if (sz1 =? 0) || (lenZ (seg_data file ph) <? u32 (ph_filesz ph)) then None
        else load_segs file n (off + sizeof_proghdr) sz1
               (um_put (ph_vaddr ph) (seg_data file ph) (um_zero (PGROUNDUP sz) (PGROUNDUP sz1) (seg_perm ph) m))
  end.

Lemma load_segs_S file n off sz m (ph := phdr file off) (sz1 := Z.max sz (seg_end ph)) : load_segs file (S n) off sz m =
  if lenZ ph <? sizeof_proghdr then None
  else if negb (ph_type ph =? ELF_PROG_LOAD) then load_segs file n (off + sizeof_proghdr) sz m
  else if (ph_memsz ph <? ph_filesz ph) || (seg_end ph <? ph_vaddr ph) || negb (ph_vaddr ph mod PGSIZE =? 0) then None
  else if (sz1 =? 0) || (lenZ (seg_data file ph) <? u32 (ph_filesz ph)) then None
  else load_segs file n (off + sizeof_proghdr) sz1 (um_put (ph_vaddr ph) (seg_data file ph) (um_zero (PGROUNDUP sz) (PGROUNDUP sz1) (seg_perm ph) m)).
Proof. reflexivity. Qed.

(** The segments end below [limit]. *)
Definition segs_fit (file : list Z) (n : nat) (off limit : Z) : Prop :=
  forall i : nat, (i < n)%nat -> let ph := phdr file (off + sizeof_proghdr * Z.of_nat i) in ph_type ph = ELF_PROG_LOAD -> seg_end ph <= limit.
(** A segment for whose pages the free ones may not be enough: three for each, with page tables. *)
Definition segs_need (file : list Z) (n : nat) (off free : Z) : Prop :=
  exists i : nat, (i < n)%nat /\ free * PGSIZE < 3 * PGROUNDUP (seg_end (phdr file (off + sizeof_proghdr * Z.of_nat i))).

Section load.
Context `{Layout}.
(** The kernel state, the file system when loading starts, the file and its inode [x]. *)
Context (S : kern) (f0 : fsst) (C : Z -> list Z) (bs : list Z) (ip : Z).
Notation x := (inode_at f0 ip).
Context (F : file_ok C x).
(** The memory at the start, and the new page table. *)
Context (k0 : kst) (T0 : gmap Z nat) (l0 : list Z) (new tf : Z).
(** The number of pages free for the program. *)
Context (free : Z).

(** The state while the program is loaded: its pages [P] hold [m]. *)
Record loading (f : fsst) (T : gmap Z nat) (l P : list Z) (m : umem) : Prop := {
  lo_tx : tx f C ∅ bs;
  lo_same : same (set_fk (fk f) f0) f;
  lo_ps : pspace (fk f) T l new tf P;
  lo_kept : kept (fun q => q <> new) k0 T0 l0 (fk f) T (P ++ l);
  lo_mem : um_is (fk f) new m;
  lo_user : user_range (fk f) new 0 0 (lenZ P * PGSIZE)
}.

Lemma lo_x f T l P m : loading f T l P m -> inode_at f ip = x.
Proof using. intros L. by rewrite (inode_at_same _ _ _ (lo_same _ _ _ _ _ L)). Qed.

(** The bytes of the file that [loadseg] reads are there. *)
Definition seg_there (off sz : Z) : Prop := sz <= 0 \/ off + sz <= i_size x.

Lemma fbytes_byte off n : (forall y, bytes_ok BSIZE (C y)) -> Forall is_byte (fbytes C x off n).
Proof using.
  intros Hb. apply Forall_forall. intros c (i & -> & _)%list_elem_of_fmap. unfold fbyte. set (d := C _). destruct (Hb (faddr C x ((off + Z.of_nat i) / BSIZE))) as [_ Hd].
  fold d in Hd. rewrite nth_lookup. destruct (d !! _) eqn:E; [|done]. by eapply Forall_lookup_1.
Qed.
Lemma read_bytes_byte off n : (forall y, bytes_ok BSIZE (C y)) -> Forall is_byte (read_bytes C x off n).
Proof using. intros Hb. unfold read_bytes. case_match; [constructor|by apply fbytes_byte]. Qed.

(** Another memory. *)
Lemma loading_mem f T l P m k T' l' P' m' : loading f T l P m -> pspace k T' l' new tf P' -> kept (fun q => q <> new) (fk f) T (P ++ l) k T' (P' ++ l') ->
  um_is k new m' -> user_range k new 0 0 (lenZ P' * PGSIZE) -> loading (set_fk k f) T' l' P' m'.
Proof using. intros [L1 L2 L3 L4 L5 L6] PS K M U. split; [by apply tx_set_fk|by apply (same_set_fk k) in L2|done|by eapply kept_trans|done|done]. Qed.
Lemma loading_same f T l P m f' : loading f T l P m -> same f f' -> tx f' C ∅ bs -> loading f' T l P m.
Proof using.
  intros [L1 L2 L3 L4 L5 L6] S' I'. pose proof (sm_k _ _ S') as E. split; rewrite ?E; try done. by etransitivity.
Qed.

Lemma loading_fill f T l P m (j : nat) p rb : loading f T l P m -> P !! j = Some p -> Forall is_byte rb -> lenZ rb <= PGSIZE ->
  loading (set_fk (set_mem (stn (mem (fk f)) p rb) (fk f)) f) T l P (um_put (Z.of_nat j * PGSIZE) rb m).
Proof using.
  intros L Hp Hb Hl. pose proof (lo_user _ _ _ _ _ L) as HU. apply lookup_lt_Some in Hp as Hj.
  destruct (fill_space (fk f) T l new tf P j p rb (lo_ps _ _ _ _ _ L) Hp Hb Hl) as (PS & K & Ea & G).
  { intros v Hv. apply HU. unfold lenZ, PGSIZE in *. lia. }
  eapply loading_mem; [exact L|done|by apply (kept_weaken (fun _ => True))| |].
  - eapply um_write; [apply L|done|done].
  - intros v Hv. rewrite Ea. by apply HU.
Qed.

Lemma wp_loadseg fuel f T l P m va off sz i : loading f T l P m -> va mod PGSIZE = 0 -> 0 <= va -> va + sz <= lenZ P * PGSIZE ->
  0 <= off < 2 ^ 32 -> 0 <= i -> i mod PGSIZE = 0 -> (i = 0 \/ off + i <= i_size x) -> sz - i <= Z.of_nat fuel * PGSIZE ->
  wp (loadseg_loop fuel new va ip off sz i) (fun r S' => exists f' m', S' = set_kf f' S /\ loading f' T l P m' /\
    ((r = 0 /\ (sz <= i \/ off + sz <= i_size x) /\ forall v, m' v = um_put (va + i) (fbytes C x (off + i) (sz - i)) m v) \/
     (r = -1 /\ ~ seg_there off sz))) (set_kf f S).
Proof using F.
  revert f m i. induction fuel as [|fuel IH]; intros f m i L Hva Hva0 HP Hoff Hi Him Hprev Hf; cbn [loadseg_loop];
    (destruct (Z.ltb_spec i sz) as [Hlt|Hge]; [|apply wp_ret; exists f, m; split; [done|]; split; [done|]; left; split; [done|]; split; [lia|];
      intros v; unfold fbytes; replace (Z.to_nat (sz - i)) with 0%nat by lia; by rewrite um_put_nil]); [unfold PGSIZE in *; lia|].
  pose proof (lo_ps _ _ _ _ _ L) as [[U _ _ _] _]. pose proof (us_size _ _ _ _ _ U). pose proof TRAPFRAME_eq. pose proof (fo_size _ _ F) as Hsz. change (MAXFILE * BSIZE) with 274432 in Hsz.
  assert ((va + i) mod PGSIZE = 0) as Hal by (rewrite Z.add_mod, Hva, Him by done; reflexivity).
  destruct (lo_user _ _ _ _ _ L (va + i) ltac:(lia)) as [y Hy]. destruct (user_page _ _ _ _ _ _ _ _ U Hy) as [_ Hp]. rewrite Hal, Z.sub_0_r in Hp.
  destruct (user_page_ok _ _ _ _ _ _ _ _ U Hy) as (q & _ & Hq & Ey & _). rewrite Hal, Z.add_0_r in Ey. subst q. apply page_ok_range in Hq as (_ & Hy0 & _).
  pose proof (walkaddr_user _ _ _ _ _ (va + i) U ltac:(lia)) as Hw. rewrite Hy, Hal, Z.sub_0_r, PGROUNDDOWN_eq, Hal, Z.sub_0_r in Hw.
  apply wp_bind, wp_km. rewrite u64_small by lia. eapply wp_run; [exact Hw|]. rewrite set_fk_id. destruct (Z.eqb_spec y 0) as [?|_]; [lia|].
  set (n := if sz - i <? PGSIZE then sz - i else PGSIZE). assert (0 < n <= PGSIZE /\ n <= sz - i) as Hn by (unfold n; case_Z; unfold PGSIZE in *; lia).
  apply wp_bind, wp_fs. pose proof (u32_range (off + i)). apply (wp_readi_dest f C bs); [done|apply L|by rewrite (lo_x _ _ _ _ _ L)|lia|lia|].
  rewrite (lo_x _ _ _ _ _ L). cbn [dest_store]. set (rb := read_bytes C x (u32 (off + i)) n). intros f1 I1 S1.
  assert (lenZ rb <= n) as Hrb by (unfold rb, read_bytes, lenZ; case_match; [cbn; lia|]; rewrite length_fbytes; lia).
  assert (loading f1 T l P (um_put (va + i) rb m)) as L1.
  { eapply loading_same; [|exact S1|done]. replace (va + i) with (Z.of_nat (Z.to_nat ((va + i) / PGSIZE)) * PGSIZE).
    - apply loading_fill; [done|done|apply read_bytes_byte; intros; by eapply tx_bytes|lia].
    - rewrite Z2Nat.id by (apply Z.div_pos; [lia|done]). pose proof (Z.div_mod (va + i) PGSIZE ltac:(done)). lia. }
  destruct (decide (off + i + n <= i_size x)) as [Hin|Hout].
  - assert (rb = fbytes C x (off + i) n) as Erb.
    { unfold rb, read_bytes. rewrite !u32_small by (unfold PGSIZE in *; lia). destruct (Z.gtb_spec (off + i) (i_size x)); [lia|]. cbn [orb].
      destruct (Z.ltb_spec (off + i + n) (off + i)); [lia|]. f_equal. lia. }
    assert (lenZ rb = n) as El by (rewrite Erb; unfold lenZ; rewrite length_fbytes; lia). fold (lenZ rb). rewrite El, Z.eqb_refl. cbn [negb].
    assert (forall v, um_put (va + i + n) (fbytes C x (off + i + n) (sz - i - n)) (um_put (va + i) rb m) v = um_put (va + i) (fbytes C x (off + i) (sz - i)) m v) as Hcat.
    { intros v. rewrite <- El at 1. rewrite um_put_app, Erb, <- fbytes_app by lia. do 2 f_equal. lia. }
    destruct (Z.ltb_spec (sz - i) PGSIZE) as [Hlast|Hmore].
    + assert (n = sz - i) as En by (unfold n; repeat case_Z; lia). destruct fuel; cbn [loadseg_loop]; (destruct (Z.ltb_spec (i + PGSIZE) sz); [lia|]); apply wp_ret;
        exists f1, (um_put (va + i) rb m); (split; [done|]; split; [done|]; left; split; [done|]; split; [lia|]; by rewrite Erb, En).
    + assert (n = PGSIZE) as En by (unfold n; repeat case_Z; lia). rewrite En in *. eapply wp_mono; [|apply IH; try done; try lia].
      * intros r S' (f' & m' & -> & L' & Hr). exists f', m'. split; [done|]. split; [done|]. destruct Hr as [(-> & Hs & Hm)|Hr]; [left|by right].
        split; [done|]. split; [lia|]. intros v. rewrite Hm, <- Hcat, !Z.add_assoc. do 2 f_equal. lia.
      * rewrite Z.add_mod, Him by done. reflexivity.
  - assert (lenZ rb <> n) as Hne.
    { unfold rb, read_bytes, lenZ. destruct (decide (off + i <= i_size x)) as [Hoi|Hoi].
      - rewrite u32_small by lia. case_match; [cbn; lia|]. rewrite length_fbytes. lia.
      - assert (i = 0) as -> by lia. rewrite Z.add_0_r, u32_small by lia. destruct (Z.gtb_spec off (i_size x)); [cbn; lia|lia]. }
    fold (lenZ rb). rewrite (proj2 (Z.eqb_neq _ _) Hne). cbn [negb]. apply wp_ret. exists f1, (um_put (va + i) rb m). split; [done|]. split; [done|]. right. split; [done|].
    unfold seg_there. lia.
Qed.
(** Of these pages, no more than three were taken for each page of the program. *)
Definition cheap (l P : list Z) : Prop := free <= lenZ l + 3 * lenZ P.

(** [uvmalloc] up to the end [e] of a segment. *)
Lemma wp_grow f T l P m sz e xperm : loading f T l P m -> cheap l P -> PGROUNDUP sz = lenZ P * PGSIZE -> 0 <= sz -> 0 <= e <= TRAPFRAME -> 0 <= xperm < 1024 ->
  wp (km_ (uvmalloc new sz e xperm)) (fun r S' => exists f' T' l' P' m', S' = set_kf f' S /\ loading f' T' l' P' m' /\
    ((r = Z.max sz e /\ cheap l' P' /\ PGROUNDUP r = lenZ P' * PGSIZE /\ forall v, m' v = um_zero (PGROUNDUP sz) (PGROUNDUP r) (Z.lor (Z.lor (Z.lor PTE_R PTE_U) xperm) PTE_V) m v) \/
     (r = 0 /\ P' = P /\ free * PGSIZE < 3 * PGROUNDUP e))) (set_kf f S).
Proof using.
  intros L Hch Hsz Hs0 He Hx. pose proof L as [_ _ PS _ HM HU]. apply wp_km. pose proof (us_size _ _ _ _ _ (ps_us _ _ _ _ _ _ (ps_view _ _ _ _ _ _ PS))) as Hmax.
  pose proof TRAPFRAME_eq. destruct (Z.ltb_spec e sz) as [Hlt|Hge].
  { eapply wp_run; [unfold uvmalloc; rewrite (proj2 (Z.ltb_lt _ _) Hlt); reflexivity|]. rewrite set_fk_id. exists f, T, l, P, m. split; [done|]. split; [done|]. left.
    rewrite Z.max_l by lia. split; [done|]. split; [done|]. split; [done|]. intros v. unfold um_zero. by rewrite decide_False by lia. }
  destruct (PGROUNDUP_bounds e) as [Hb Ha]; [lia|unfold PGSIZE; lia|]. destruct (PGROUNDUP_bounds sz) as [Hbs _]; [lia|unfold PGSIZE; lia|].
  assert (PGROUNDUP sz <= PGROUNDUP e) as Hup.
  { rewrite Hsz. apply Z.mod_divide in Ha as [k Hk]; [|done]. rewrite Hsz in Hbs. unfold PGSIZE in *. lia. }
  destruct (grow_space (fk f) T l new tf P sz e xperm PS Hsz ltac:(lia) ltac:(lia) Hx) as (r & k' & T' & l' & Hr & Hc). eapply wp_run; [exact Hr|].
  destruct Hc as [(-> & Q & Hq & HQ & PS' & K & B & A1 & A2)|(-> & PS' & K & SU & Hsh)].
  - exists (set_fk k' f), T', l', (P ++ Q), (um_zero (PGROUNDUP sz) (PGROUNDUP e) (Z.lor (Z.lor (Z.lor PTE_R PTE_U) xperm) PTE_V) m). split; [done|]. rewrite Z.max_l in HQ by lia. split.
    + eapply loading_mem; [exact L|done| | |].
      * rewrite <- app_assoc. by apply kept_more.
      * rewrite Hsz, <- HQ. by apply (um_grow (fk f)).
      * intros v Hv. destruct (decide (v < lenZ P * PGSIZE)); [rewrite A1 by lia; apply HU; lia|apply A2; [lia|lia|by left]].
    + left. rewrite Z.max_r by lia. split; [done|]. split; [|done]. unfold cheap in *. rewrite lenZ_app. lia.
  - exists (set_fk k' f), T', l', P, m. split; [done|]. split.
    + eapply loading_mem; [exact L|done|by apply kept_more| |].
      * by eapply um_same.
      * intros v Hv. apply (SU v); [lia|]. by apply HU.
    + right. split; [done|]. split; [done|]. rewrite Hsz in Hsh. apply Z.mod_divide in Ha as [c Hc]; [|done]. rewrite Hc in *.
      replace (c * PGSIZE - lenZ P * PGSIZE) with ((c - lenZ P) * PGSIZE) in Hsh by lia. rewrite Z.div_mul in Hsh by done. unfold cheap, PGSIZE in *. lia.
Qed.

(** *** The loop over the headers *)

Notation file := (fbytes C x 0 (i_size x)).

Lemma file_slice a n : 0 <= a -> 0 <= n -> take (Z.to_nat n) (drop (Z.to_nat a) file) = fbytes C x a (Z.min n (i_size x - a)).
Proof using F.
  intros Ha Hn. pose proof (fo_size _ _ F). destruct (decide (a <= i_size x)) as [Hle|Hgt].
  - destruct (decide (a + n <= i_size x)) as [Hin|Hout].
    + rewrite Z.min_l by lia. replace (i_size x) with (a + (n + (i_size x - a - n))) at 1 by lia. rewrite !fbytes_app by lia.
      rewrite drop_app_length' by (rewrite length_fbytes; lia). by rewrite Z.add_0_l, take_app_length' by (rewrite length_fbytes; lia).
    + rewrite Z.min_r by lia. replace (i_size x) with (a + (i_size x - a)) at 1 by lia. rewrite fbytes_app by lia.
      rewrite drop_app_length' by (rewrite length_fbytes; lia). rewrite Z.add_0_l. apply take_ge. rewrite length_fbytes. lia.
  - rewrite drop_ge by (rewrite length_fbytes; lia). rewrite take_nil. unfold fbytes. by replace (Z.to_nat (Z.min n (i_size x - a))) with 0%nat by lia.
Qed.

Definition sz_limit : Z := TRAPFRAME - 3 * PGSIZE.

Lemma read_slice a n : 0 <= a -> 0 <= n -> a + n < 2 ^ 32 -> read_bytes C x a n = take (Z.to_nat n) (drop (Z.to_nat a) file).
Proof using F.
  intros Ha Hn Hs. rewrite file_slice by done. unfold read_bytes. rewrite u32_small by lia. destruct (Z.gtb_spec a (i_size x)); cbn [orb].
  - unfold fbytes. by replace (Z.to_nat (Z.min n (i_size x - a))) with 0%nat by lia.
  - by destruct (Z.ltb_spec (a + n) a); [lia|].
Qed.
Lemma get64_range d o : Forall is_byte d -> 0 <= get64 d o < 2 ^ 64.
Proof using.
  intros Hd. unfold get64. set (b := take 8 _). assert (Forall is_byte b) as Hb by (by apply Forall_take, Forall_drop).
  pose proof (le_value_bound b Hb) as [H0 H1]. split; [done|]. eapply Z.lt_le_trans; [exact H1|]. change (2 ^ 64) with (256 ^ 8). apply Z.pow_le_mono_r; [done|].
  unfold b. rewrite length_take. lia.
Qed.

Lemma loading_ext f T l P m m' : (forall v, m v = m' v) -> loading f T l P m -> loading f T l P m'.
Proof using. intros E [L1 L2 L3 L4 L5 L6]. split; try done. intros v. rewrite <- E. apply L5. Qed.

Definition loaded (n : nat) (off sz : Z) (m : umem) (r : Z * bool) (S' : kern) : Prop :=
  exists f' T' l' P' m', S' = set_kf f' S /\ loading f' T' l' P' m' /\ PGROUNDUP r.1 = lenZ P' * PGSIZE /\ 0 <= r.1 <= sz_limit /\
    (if r.2 then cheap l' P' /\ exists m1, load_segs file n off sz m = Some (r.1, m1) /\ forall v, m' v = m1 v
     else load_segs file n off sz m = None \/ segs_need file n off free).

(** From the headers after the first to all of them. *)
Lemma loaded_next n off sz m sz1 m1 r S' : load_segs file (Datatypes.S n) off sz m = load_segs file n (off + sizeof_proghdr) sz1 m1 ->
  loaded n (off + sizeof_proghdr) sz1 m1 r S' -> loaded (Datatypes.S n) off sz m r S'.
Proof using.
  intros E (f' & T' & l' & P' & m' & E1 & E2 & E3 & E4 & E5). exists f', T', l', P', m'. repeat (split; [done|]). rewrite E.
  destruct r.2; [done|]. destruct E5 as [?|(i & Hi & Hn)]; [by left|right]. exists (Datatypes.S i). split; [lia|].
  by replace (off + sizeof_proghdr * Z.of_nat (Datatypes.S i)) with (off + sizeof_proghdr + sizeof_proghdr * Z.of_nat i) by lia.
Qed.
Lemma loaded_bad n off sz m f T l P m1 sz1 : loading f T l P m1 -> PGROUNDUP sz1 = lenZ P * PGSIZE -> 0 <= sz1 <= sz_limit ->
  load_segs file n off sz m = None \/ segs_need file n off free -> loaded n off sz m (sz1, false) (set_kf f S).
Proof using. intros. by exists f, T, l, P, m1. Qed.
Lemma segs_fit_next n off : segs_fit file (Datatypes.S n) off sz_limit -> segs_fit file n (off + sizeof_proghdr) sz_limit.
Proof using.
  intros Hf i Hi. specialize (Hf (Datatypes.S i) ltac:(lia)). by replace (off + sizeof_proghdr + sizeof_proghdr * Z.of_nat i) with (off + sizeof_proghdr * Z.of_nat (Datatypes.S i)) by lia.
Qed.

Lemma flags2perm_range fl : 0 <= flags2perm fl < 1024.
Proof using. unfold flags2perm. repeat case_match; by vm_compute. Qed.
Lemma seg_perm_eq ph : Z.lor (Z.lor (Z.lor PTE_R PTE_U) (flags2perm (ph_flags ph))) PTE_V = seg_perm ph.
Proof using.
  assert (forall i, 0 <= i -> (Z.land (ph_flags ph) (2 ^ i) =? 0) = negb (Z.testbit (ph_flags ph) i)) as Hb.
  { intros i Hi. destruct (Z.testbit (ph_flags ph) i) eqn:E; cbn [negb].
    - apply Z.eqb_neq. intros H0. apply (f_equal (fun z => Z.testbit z i)) in H0. by rewrite Z.land_spec, E, Z.pow2_bits_true, Z.bits_0 in H0.
    - apply Z.eqb_eq. apply Z.bits_inj'. intros j Hj. rewrite Z.land_spec, Z.bits_0. destruct (decide (i = j)) as [<-|]; [by rewrite E|]. by rewrite Z.pow2_bits_false, andb_false_r. }
  unfold seg_perm, flags2perm. rewrite (Hb 0 ltac:(lia) : (Z.land (ph_flags ph) 1 =? 0) = _), (Hb 1 ltac:(lia) : (Z.land (ph_flags ph) 2 =? 0) = _).
  destruct (Z.testbit _ 0), (Z.testbit _ 1); vm_compute; reflexivity.
Qed.
Lemma seg_end_sum ph : Forall is_byte ph -> ph_vaddr ph <= seg_end ph -> 0 <= ph_vaddr ph /\ 0 <= ph_memsz ph /\ 0 <= ph_filesz ph /\ seg_end ph = ph_vaddr ph + ph_memsz ph.
Proof using.
  intros Hb Hw. pose proof (get64_range ph 16 Hb) as H1. pose proof (get64_range ph 40 Hb) as H2. pose proof (get64_range ph 32 Hb) as H3.
  change (get64 ph 16) with (ph_vaddr ph) in H1. change (get64 ph 40) with (ph_memsz ph) in H2. change (get64 ph 32) with (ph_filesz ph) in H3.
  unfold seg_end, u64 in *. pose proof (Z.mod_pos_bound (ph_vaddr ph + ph_memsz ph) (2 ^ 64) ltac:(done)).
  pose proof (Z.div_mod (ph_vaddr ph + ph_memsz ph) (2 ^ 64) ltac:(done)). set (q := _ / 2 ^ 64) in *. assert (q = 0 \/ 1 <= q \/ q < 0) as [Hq|[Hq|Hq]] by lia; lia.
Qed.
Lemma phdr_bytes off : (forall y, bytes_ok BSIZE (C y)) -> Forall is_byte (phdr file off).
Proof using. intros Hb. apply Forall_take, Forall_drop. by apply fbytes_byte. Qed.

(** The bytes of a segment, once the pages are there. *)
Lemma wp_load_data f T l P m ph : loading f T l P m -> Forall is_byte ph -> ph_vaddr ph mod PGSIZE = 0 -> 0 <= ph_vaddr ph -> 0 <= ph_filesz ph ->
  ph_vaddr ph + ph_filesz ph <= lenZ P * PGSIZE ->
  wp (loadseg new (ph_vaddr ph) ip (ph_off ph) (ph_filesz ph)) (fun r S' => exists f' m', S' = set_kf f' S /\ loading f' T l P m' /\
    ((r = 0 /\ u32 (ph_filesz ph) <= lenZ (seg_data file ph) /\ forall v, m' v = um_put (ph_vaddr ph) (seg_data file ph) m v) \/
     (r = -1 /\ lenZ (seg_data file ph) < u32 (ph_filesz ph)))) (set_kf f S).
Proof using F.
  intros L Hb Hal Hv Hf HP. unfold loadseg. pose proof (u32_range (ph_off ph)). pose proof (u32_range (ph_filesz ph)).
  assert (u32 (ph_filesz ph) <= ph_filesz ph) by (unfold u32; apply Z.mod_le; lia). set (o := u32 (ph_off ph)) in *. set (n := u32 (ph_filesz ph)) in *.
  assert (seg_data file ph = fbytes C x o (Z.min n (i_size x - o))) as Ed by (apply file_slice; lia).
  assert (lenZ (seg_data file ph) = Z.max 0 (Z.min n (i_size x - o))) as El by (rewrite Ed; unfold lenZ; rewrite length_fbytes; lia).
  eapply wp_mono; [|apply (wp_loadseg _ f T l P m (ph_vaddr ph) o n 0); try done; try lia].
  - intros r S' (f' & m' & -> & L' & Hr). exists f', m'. split; [done|]. split; [done|]. destruct Hr as [(-> & Hs & Hm)|[-> Hs]]; [left|right].
    + split; [done|]. split; [lia|]. intros v. rewrite Hm, Ed, !Z.add_0_r, Z.sub_0_r. destruct Hs as [Hs|Hs]; [|by rewrite Z.min_l by lia].
      unfold fbytes. by replace (Z.to_nat n) with 0%nat by lia; replace (Z.to_nat (Z.min n (i_size x - o))) with 0%nat by lia.
    + split; [done|]. unfold seg_there in Hs. lia.
  - pose proof (Z.div_mod n PGSIZE ltac:(done)). pose proof (Z.mod_pos_bound n PGSIZE ltac:(done)). assert (0 <= n / PGSIZE) by (apply Z.div_pos; [lia|done]).
    rewrite Z2Nat.id by lia. lia.
Qed.

Lemma wp_exec_load fuel f T l P m i off sz n : loading f T l P m -> cheap l P -> PGROUNDUP sz = lenZ P * PGSIZE -> 0 <= sz <= sz_limit ->
  0 <= off -> off + sizeof_proghdr * Z.of_nat fuel < 2 ^ 31 -> n = i + Z.of_nat fuel -> segs_fit file fuel off sz_limit ->
  wp (exec_load fuel new ip i off n sz) (loaded fuel off sz m) (set_kf f S).
Proof using F.
  revert f T l P m i off sz. induction fuel as [|fuel IH]; intros f T l P m i off sz L Hch Hsz Hle Hoff Hofs Hn Hfit; cbn [exec_load].
  { destruct (Z.ltb_spec i n); [lia|]. apply wp_ret. exists f, T, l, P, m. split; [done|]. split; [done|]. split; [done|]. split; [done|]. cbn. split; [done|]. by exists m. }
  destruct (Z.ltb_spec i n); [|lia]. unfold sizeof_proghdr in Hofs.
  apply wp_bind, wp_fs, (wp_readi_dest f C bs); [done|apply L|by rewrite (lo_x _ _ _ _ _ L)|apply u32_range|done|].
  rewrite (lo_x _ _ _ _ _ L). cbn [dest_store]. rewrite set_fk_id. intros f1 I1 S1. pose proof (loading_same _ _ _ _ _ _ L S1 I1) as L1.
  rewrite u32_small, read_slice by (unfold sizeof_proghdr; lia). fold (phdr file off). set (ph := phdr file off).
  pose proof (load_segs_S file fuel off sz m) as El. cbv zeta in El. fold ph in El.
  assert (lenZ ph <= sizeof_proghdr) as Hl by (unfold ph, phdr, lenZ; rewrite length_take; unfold sizeof_proghdr; lia). fold (lenZ ph).
  destruct (Z.ltb_spec (lenZ ph) sizeof_proghdr) as [Hshort|Hlen].
  { rewrite (proj2 (Z.eqb_neq _ _)) by lia. cbn [negb]. apply wp_ret. eapply loaded_bad; [done|done|done|by left]. }
  replace (lenZ ph =? sizeof_proghdr) with true by (symmetry; apply Z.eqb_eq; lia). cbn [negb]. rewrite s32_small by (unfold sizeof_proghdr; lia).
  pose proof (segs_fit_next _ _ Hfit) as Hfit'.
  destruct (Z.eqb_spec (ph_type ph) ELF_PROG_LOAD) as [Ht|Ht]; cbn [negb] in *.
  2: { eapply wp_mono; [intros r S'; by apply loaded_next|]. apply (IH f1 T l P); try done; unfold sizeof_proghdr; lia. }
  destruct (Z.ltb_spec (ph_memsz ph) (ph_filesz ph)) as [|Hmem]; cbn [orb] in El; [apply wp_ret; eapply loaded_bad; [done|done|done|by left]|].
  change (u64 (ph_vaddr ph + ph_memsz ph)) with (seg_end ph).
  destruct (Z.ltb_spec (seg_end ph) (ph_vaddr ph)) as [|Hwrap]; cbn [orb] in El; [apply wp_ret; eapply loaded_bad; [done|done|done|by left]|].
  destruct (Z.eqb_spec (ph_vaddr ph mod PGSIZE) 0) as [Hal|]; cbn [negb orb] in *; [|apply wp_ret; eapply loaded_bad; [done|done|done|by left]].
  assert (Forall is_byte ph) as Hb by (apply phdr_bytes; intros; by eapply tx_bytes). destruct (seg_end_sum ph Hb Hwrap) as (Hv & Hm0 & Hf0 & Ee).
  assert (seg_end ph <= sz_limit) as Hend by (specialize (Hfit 0%nat ltac:(lia)); cbv zeta in Hfit; rewrite Z.mul_0_r, Z.add_0_r in Hfit; by apply Hfit).
  assert (sz_limit <= TRAPFRAME) by (unfold sz_limit, PGSIZE; lia). pose proof TRAPFRAME_eq.
  apply wp_bind. eapply wp_mono; [|apply (wp_grow f1 T l P m sz (seg_end ph)); try done; try lia; apply flags2perm_range].
  intros r S' (f2 & T2 & l2 & P2 & m2 & -> & L2 & [(-> & Hch2 & Hr & Hm2)|(-> & -> & Hshort)]).
  2: { apply wp_ret. eapply loaded_bad; [done|done|done|right]. exists 0%nat. split; [lia|]. by rewrite Z.mul_0_r, Z.add_0_r. }
  destruct (Z.eqb_spec (Z.max sz (seg_end ph)) 0) as [Ez|Ez]; cbn [orb] in El.
  { apply wp_ret. assert (sz = 0) as -> by lia. eapply loaded_bad; [exact L2| |done|by left]. by rewrite <- Ez at 1. }
  destruct (PGROUNDUP_bounds (Z.max sz (seg_end ph))) as [Hup _]; [lia|unfold PGSIZE; lia|].
  apply wp_bind. eapply wp_mono; [|apply (wp_load_data f2 T2 l2 P2 m2 ph); try done; lia].
  intros r' S' (f3 & m3 & -> & L3 & [(-> & Hd & Hm3)|(-> & Hd)]); cbn [Z.ltb Z.compare].
  2: { apply wp_ret. rewrite (proj2 (Z.ltb_lt _ _) Hd) in El. eapply loaded_bad; [done|done|lia|by left]. }
  rewrite (proj2 (Z.ltb_ge _ _) Hd) in El. eapply wp_mono; [intros r S'; by apply loaded_next|].
  apply (IH f3 T2 l2 P2); try done; try (unfold sizeof_proghdr; lia). eapply loading_ext; [|exact L3]. intros v. rewrite Hm3. apply um_put_ext. intros w. by rewrite Hm2, seg_perm_eq.
Qed.
End load.
