(* ===== verification/ExecStack.v ===== *)
(** * The stack of a program: the second half of [exec] (kernel/exec.c)

    The two pages of stack and guard, the argument strings and the array of pointers to
    them, as the new program sees them; and the switch to the new memory. *)

From stdpp Require Import base gmap strings fin_sets functions list.
From S2P Require Import Prelude Riscv Mem Spinlock Kalloc Vm VmTable VmWalk VmUser VmCopy VmFree Sleeplock ProcData Bytes Bio BioSpec Log Fs FsTx FsFile Pipe File Proc ProcSpec ProcMem Fork Wait Exec ExecMem ExecLoad.

(** ** Where the arguments go *)

Definition align16 (x : Z) : Z := x - x mod 16.
(** The strings are pushed in order, each aligned; [None] if one does not fit above [base]. *)
Fixpoint arg_places (argv : list (list Z)) (sp base : Z) : option (list Z) :=
  match argv with
  | [] => Some []
  | a :: r =>
      let sp' := align16 (sp - (strlen a + 1)) in
      if sp' <? base then None else ps ← arg_places r sp' base; Some (sp' :: ps)
  end.
Fixpoint put_args (argv : list (list Z)) (ps : list Z) (m : umem) : umem :=
  match argv, ps with
  | a :: argv, p :: ps => put_args argv ps (um_put p (cstr a ++ [0]) m)
  | _, _ => m
  end.
Definition args_end (top : Z) (ps : list Z) : Z := default top (last ps).

(** The program with size, stack pointer and memory. *)
Record image := mkImage { im_size : Z; im_sp : Z; im_mem : umem }.

(** The user may read and write the stack. *)
Definition stack_perm : Z := Z.lor (Z.lor (Z.lor PTE_R PTE_U) PTE_W) PTE_V.
(** The stack on top of the memory [m] of size [sz]: a page the user cannot access, and a
    page with the strings and below them the pointers to them and a null pointer. *)
Definition stack_image (argv : list (list Z)) (sz : Z) (m : umem) : option image :=
  let a := PGROUNDUP sz in
  let base := a + PGSIZE in
  let top := a + 2 * PGSIZE in
  ps ← arg_places argv top base;
  let sp := align16 (args_end top ps - (lenZ argv + 1) * 8) in
  if sp <? base then None
  else Some (mkImage top sp (um_put sp (concat (le_bytes 8 <$> ps ++ [0])) (put_args argv ps (um_hide a base (um_zero a top stack_perm m))))).

(** An argument as [sys_exec] reads it: a string that ends within its page. *)
Definition arg_ok (a : list Z) : Prop := Forall is_byte a /\ strlen a < lenZ a <= PGSIZE.

Lemma cstr_take a : strlen a < lenZ a -> take (Z.to_nat (strlen a + 1)) a = cstr a ++ [0].
Proof.
  rewrite strlen_cstr. replace (Z.to_nat (Z.of_nat (length (cstr a)) + 1)) with (S (length (cstr a))) by lia.
  induction a as [|c a IH]; cbn [cstr]; [unfold lenZ; cbn; lia|]. destruct (Z.eqb_spec c 0) as [->|]; [done|].
  rewrite lenZ_cons. cbn [length]. intros Hl. change (take (S (S ?n)) (c :: a)) with (c :: take (S n) a). rewrite IH by lia. done.
Qed.
Lemma cstr_bytes a : Forall is_byte a -> Forall is_byte (cstr a).
Proof. induction 1 as [|c a Hc _ IH]; cbn; [done|]. case_match; by constructor. Qed.
Lemma args_end_cons top p ps : args_end top (p :: ps) = args_end p ps.
Proof.
  unfold args_end. destruct ps as [|q ps]; [done|]. change (last (p :: q :: ps)) with (last (q :: ps)).
  destruct (last (q :: ps)) eqn:E; [done|]. by apply last_None in E.
Qed.
Lemma align16_bounds x : x - 16 < align16 x <= x.
Proof. unfold align16. pose proof (Z.mod_pos_bound x 16 ltac:(done)). lia. Qed.

(** The registers the program starts with: [a1], the program counter and the stack pointer. *)
Definition exec_frame (tf sp entry : Z) (m : memory) : memory := st64 (st64 (st64 m (tf + TF_a 1) sp) (tf + TF_epc) entry) (tf + TF_sp) sp.

Lemma st64_ext m m' a v x : ld8 m x = ld8 m' x -> ld8 (st64 m a v) x = ld8 (st64 m' a v) x.
Proof. intros E. with_strategy transparent [st64] (unfold st64). rewrite !ld8_stn by auto with xv6. by rewrite E. Qed.
Lemma exec_frame_ext tf sp e m m' x : ld8 m x = ld8 m' x -> ld8 (exec_frame tf sp e m) x = ld8 (exec_frame tf sp e m') x.
Proof. intros E. unfold exec_frame. by do 3 apply st64_ext. Qed.
Lemma exec_frame_off tf sp e m x : ~ tf <= x < tf + PGSIZE -> ld8 (exec_frame tf sp e m) x = ld8 m x.
Proof.
  intros Hx. unfold exec_frame, TF_a, TF_epc, TF_sp, PGSIZE in *. by rewrite !ld8_st64_other by lia.
Qed.

(** The entry of a process that runs a new program. *)
Definition exec_entry (path : list Z) (root sz : Z) (p : proc) : proc :=
  set_sz sz (set_pagetable root (set_name (safestrcpy (p_name p) (last_elem path path) 16) p)).

Lemma pointers_bytes ps : Forall is_byte (concat (le_bytes 8 <$> ps)).
Proof. induction ps as [|p ps IH]; [constructor|]. cbn [fmap list_fmap concat]. apply Forall_app. split; [apply le_bytes_are_bytes|done]. Qed.
Lemma pointers_length ps : lenZ (concat (le_bytes 8 <$> ps)) = 8 * lenZ ps.
Proof. induction ps as [|p ps IH]; [done|]. cbn [fmap list_fmap concat]. rewrite lenZ_app, lenZ_cons, IH. unfold lenZ at 1. rewrite le_bytes_length. lia. Qed.
Lemma arg_places_length argv sp base ps : arg_places argv sp base = Some ps -> lenZ ps = lenZ argv.
Proof.
  revert sp ps. induction argv as [|a argv IH]; intros sp ps; cbn [arg_places]; [by intros [= <-]|]. case_match; [done|].
  destruct (arg_places argv _ base) as [qs|] eqn:E; [|done]. intros [= <-]. rewrite !lenZ_cons. by rewrite (IH _ _ E).
Qed.

Section stack.
Context `{Layout}.
(** The memory when [exec] starts, and the new page table. *)
Context (k0 : kst) (T0 : gmap Z nat) (l0 : list Z) (new tf : Z) (Hnew : T0 !! new = None).

(** The new address space has the pages [P] and the bytes [m]. *)
Record space (k : kst) (T : gmap Z nat) (l P : list Z) (m : umem) : Prop := {
  sp_ps : pspace k T l new tf P;
  sp_kept : kept (fun q => q <> new) k0 T0 l0 k T (P ++ l);
  sp_mem : um_is k new m
}.

Lemma space_inv k T l P m : space k T l P m -> vinv k T l.
Proof using. intros [[[U _ _ _] _] _ _]. apply U. Qed.

(** The new address space is given back. *)
Lemma bad_free k T l P m sz : space k T l P m -> 0 <= sz <= TRAPFRAME -> PGROUNDUP sz = lenZ P * PGSIZE ->
  exists k' T' l', proc_freepagetable new sz k = Ok tt k' /\ vinv k' T' l' /\ kept (fun _ => True) k0 T0 l0 k' T' l'.
Proof using Hnew.
  intros [PS K _] Hsz Hup. pose proof PS as [PV Ho].
  destruct (proc_freepagetable_ok k T l new tf P sz PV) as (k' & T' & l' & Hf & I' & Hn' & K'); [apply (owned_cons _ _ _ _ Ho)|done|done|].
  exists k', T', l'. split; [done|]. split; [done|]. apply (kept_weaken (fun q => q <> new)); [intros q _ [?|?]; congruence|]. by eapply kept_trans.
Qed.
(** [bad:] after the inode was released. *)
Lemma bad_run k T l P m t s sz : space k T l P m -> 0 <= sz <= TRAPFRAME -> PGROUNDUP sz = lenZ P * PGSIZE ->
  exists k' T' l', exec_bad new sz None (st k t s) = Ok (-1) (st k' t s) /\ vinv k' T' l' /\ kept (fun _ => True) k0 T0 l0 k' T' l'.
Proof using Hnew.
  intros Sp Hsz Hup. pose proof Sp as [[PV _] _ _]. assert (new <> 0) as Hn0.
  { pose proof (us_root _ _ _ _ _ (ps_us _ _ _ _ _ _ PV)) as Hr. apply (v_ok _ _ _ (us_inv _ _ _ _ _ (ps_us _ _ _ _ _ _ PV))), page_ok_range in Hr. lia. }
  destruct (bad_free k T l P m sz Sp Hsz Hup) as (k' & T' & l' & Hf & I' & K').
  exists k', T', l'. unfold exec_bad. rewrite (proj2 (Z.eqb_neq _ _) Hn0). cbn [negb]. by rewrite (km_bind _ _ _ _ _ _ _ Hf).
Qed.

(** *** Pushing on the stack *)

(** The bytes between [base] and [top] can be written. *)
Record stacking (k : kst) (T : gmap Z nat) (l P : list Z) (base top : Z) (m : umem) : Prop := {
  sk_space : space k T l P m;
  sk_user : user_range k new PTE_W base top
}.

Lemma push_run k T l P base top m va bs : stacking k T l P base top m -> 0 <= base <= va -> va + lenZ bs <= top -> top <= TRAPFRAME -> Forall is_byte bs ->
  exists k', copyout new va bs k = Ok 0 k' /\ stacking k' T l P base top (um_put va bs m).
Proof using.
  intros [[PS K M] U] Hva Hend Htop Hb. pose proof TRAPFRAME_eq. pose proof (lenZ_nonneg bs). pose proof MAXVA_eq.
  destruct (copyout_space k T l new tf P va bs PS Hb ltac:(lia)) as (r & k' & Hr & PS' & K' & [[-> G]|(_ & (v & Hv & E) & _)]).
  2: { destruct (U v ltac:(lia)) as [x Hx]. congruence. }
  assert (forall perm v, user_addr k' new perm v = user_addr k new perm v) as Ea.
  { intros perm v. destruct (decide (0 <= v < MAXVA)) as [Hv|Hv]; [apply user_addr_ext; apply (kp_view _ _ _ _ _ _ _ K'); [done|apply PS|lia]|].
    transitivity (@None Z); [|symmetry]; (destruct (user_addr _ new perm v) eqn:E; [|done]); apply user_addr_range in E; lia. }
  exists k'. split; [done|]. split; [split; [done| |]|].
  - eapply kept_trans; [exact K|]. by apply (kept_weaken (fun _ => True)).
  - by eapply um_write.
  - intros v Hv. rewrite Ea. by apply U.
Qed.

Lemma push_args_run argv k T l P base top m t s argc sp us : stacking k T l P base top m -> PGSIZE <= base -> base <= sp <= top -> top <= TRAPFRAME ->
  Forall arg_ok argv -> argc + lenZ argv <= MAXARG ->
  exists r k' m', push_args argv argc new sp base us (st k t s) = Ok r (st k' t s) /\ stacking k' T l P base top m' /\
    match arg_places argv sp base with
    | Some ps => r = Some (argc + lenZ argv, args_end sp ps, us ++ ps) /\ m' = put_args argv ps m /\ base <= args_end sp ps <= sp
    | None => r = None
    end.
Proof using.
  revert k m argc sp us. induction argv as [|a argv IH]; intros k m argc sp us Sk Hb Hsp Htop Ha Hc; cbn [push_args arg_places].
  { exists (Some (argc, sp, us)), k, m. split; [done|]. split; [done|]. rewrite app_nil_r. change (lenZ []) with 0. rewrite Z.add_0_r. split; [done|]. split; [done|cbn; lia]. }
  apply Forall_cons in Ha as [[Hby Hlen] Ha]. rewrite lenZ_cons in *. pose proof (lenZ_nonneg argv). pose proof TRAPFRAME_eq.
  rewrite Z.geb_leb. destruct (Z.leb_spec MAXARG argc); [lia|]. assert (0 <= strlen a) by (rewrite strlen_cstr; lia).
  rewrite u64_small by (unfold PGSIZE in *; lia). cbv zeta. fold (align16 (sp - (strlen a + 1))). pose proof (align16_bounds (sp - (strlen a + 1))).
  set (sp' := align16 (sp - (strlen a + 1))) in *. destruct (Z.ltb_spec sp' base) as [Hlow|Hin].
  { by exists None, k, m. }
  assert (lenZ (cstr a ++ [0]) = strlen a + 1) as El by (rewrite strlen_cstr, lenZ_app; done).
  rewrite cstr_take by lia. destruct (push_run k T l P base top m sp' (cstr a ++ [0]) Sk) as (k1 & E1 & Sk1); [unfold PGSIZE in *; lia|lia|done| |].
  { apply Forall_app. split; [by apply cstr_bytes|]. by repeat constructor. }
  rewrite (km_bind _ _ _ _ _ _ _ E1). cbn [Z.ltb Z.compare].
  destruct (IH k1 _ (argc + 1) sp' (us ++ [sp']) Sk1) as (r & k2 & m2 & E2 & Sk2 & Hm); [done|lia|done|done|lia|].
  exists r, k2, m2. split; [done|]. split; [done|]. destruct (arg_places argv sp' base) as [ps|]; [|done]. destruct Hm as (-> & -> & Hbd). cbn [mbind option_bind put_args].
  assert (args_end sp (sp' :: ps) = args_end sp' ps) as -> by apply args_end_cons.
  split; [|split; [done|lia]]. rewrite <- app_assoc. do 3 f_equal. lia.
Qed.

(** *** The pages of the stack *)

Lemma pages_run k T l P m a : space k T l P m -> a = lenZ P * PGSIZE -> a <= sz_limit ->
  (exists k' T' l', uvmalloc new a (a + 2 * PGSIZE) PTE_W k = Ok 0 k' /\ space k' T' l' P m /\ lenZ l < 6) \/
  (exists k1 k2 T' l' Q, uvmalloc new a (a + 2 * PGSIZE) PTE_W k = Ok (a + 2 * PGSIZE) k1 /\ uvmclear new a k1 = Ok tt k2 /\ lenZ (P ++ Q) = lenZ P + 2 /\
     stacking k2 T' l' (P ++ Q) (a + PGSIZE) (a + 2 * PGSIZE) (um_hide a (a + PGSIZE) (um_zero a (a + 2 * PGSIZE) stack_perm m))).
Proof using.
  intros [PS K M] Ea Hle. pose proof TRAPFRAME_eq. unfold sz_limit in Hle. pose proof (lenZ_nonneg P).
  assert (PGROUNDUP a = a) as Er by (rewrite Ea; apply PGROUNDUP_page; unfold PGSIZE in *; lia).
  assert (PGROUNDUP (a + 2 * PGSIZE) = a + 2 * PGSIZE) as Er2.
  { replace (a + 2 * PGSIZE) with ((lenZ P + 2) * PGSIZE) by lia. apply PGROUNDUP_page. unfold PGSIZE in *; lia. }
  assert (0 <= PTE_W < 1024) as HW by (vm_compute; split; congruence).
  destruct (grow_space k T l new tf P a (a + 2 * PGSIZE) PTE_W PS) as (r & k1 & T1 & l1 & Hr & Hc); [congruence|unfold PGSIZE in *; lia|unfold PGSIZE in *; lia|done|].
  rewrite Er, Er2 in Hc. destruct Hc as [(-> & Q & Hq & HQ & PS1 & K1 & B & A1 & A2)|(-> & PS1 & K1 & SU & Hsh)]; [right|left].
  2: { exists k1, T1, l1. split; [done|]. split.
       - split; [done| |by eapply um_same]. eapply kept_trans; [exact K|]. by apply kept_more.
       - replace (a + 2 * PGSIZE - a) with (2 * PGSIZE) in Hsh by lia. rewrite Z.div_mul in Hsh by done. lia. }
  rewrite Z.max_l in HQ by (unfold PGSIZE in *; lia). assert (lenZ (P ++ Q) = lenZ P + 2) as El by (unfold PGSIZE in *; lia).
  destruct (lookup_lt_is_Some_2 (P ++ Q) (length P)) as [p Hp]; [unfold lenZ in *; lia|].
  destruct (clear_space k1 T1 l1 new tf (P ++ Q) (length P) p PS1 Hp) as (k2 & Hcl & PS2 & K2 & Ea2 & Eb2).
  { apply A2; [vm_compute; split; congruence|unfold lenZ, PGSIZE in *; lia|right; vm_compute; reflexivity]. }
  change (Z.of_nat (length P) * PGSIZE) with (lenZ P * PGSIZE) in Hcl, Ea2, Eb2. rewrite <- Ea in *. exists k1, k2, T1, l1, Q.
  split; [done|]. split; [done|]. split; [done|]. split; [split; [done| |]|].
  - eapply kept_trans; [exact K|]. eapply kept_trans; [by apply kept_more|]. rewrite (assoc_L (++)). by apply kept_more.
  - eapply um_clear; [|exact Eb2|exact Ea2]. apply (um_grow k); [done|..]; rewrite <- HQ; [exact B|exact A1|exact A2].
  - intros v Hv. rewrite Ea2, decide_False by (unfold PGSIZE in *; lia). apply A2; [done|rewrite HQ; unfold PGSIZE in *; lia|right; vm_compute; reflexivity].
Qed.

(** *** The switch *)

Context (old : Z) (P0 : list Z) (oldsz : Z).

(** The process has the new memory; the old page table and its pages are free. *)
Record switched (k : kst) (T : gmap Z nat) (l P : list Z) (m : umem) (sp entry : Z) : Prop := {
  sw_space : pspace k T l new tf P;
  sw_mem : um_is k new m;
  sw_old : T !! old = None;
  sw_frame : forall o, 0 <= o < PGSIZE -> ld8 (mem k) (tf + o) = ld8 (exec_frame tf sp entry (mem k0)) (tf + o);
  sw_kept : kept (fun q => q <> old /\ q <> new) k0 T0 (tf :: P0 ++ l0) k T (tf :: P ++ l);
  (** the pages of the new image, of its table and the free ones are those of the old image, of its table and the free ones *)
  sw_pages : forall q, q ∈ P ++ l \/ tree (entries (mem k)) new q <-> q ∈ P0 ++ l0 \/ tree (entries (mem k0)) old q
}.

Context (PS0 : pspace k0 T0 l0 old tf P0) (Hsz : 0 <= oldsz <= TRAPFRAME /\ PGROUNDUP oldsz = lenZ P0 * PGSIZE).

Lemma new_not_old : old <> new.
Proof using PS0 Hnew. intros ->. pose proof (us_root _ _ _ _ _ (ps_us _ _ _ _ _ _ (ps_view _ _ _ _ _ _ PS0))). congruence. Qed.

(** The new pages are not those of the old space. *)
Lemma new_apart k T l P m : space k T l P m -> owned T (P0 ++ l) (tf :: P).
Proof using PS0.
  clear Hnew Hsz. intros [[_ [Hn HF]] K _]. split; [done|]. rewrite Forall_forall in *. intros p Hp. destruct (HF p Hp) as (Hok & Hl & HT). split; [done|]. split; [|done].
  rewrite elem_of_app. intros [Hp0|?]; [|done]. destruct PS0 as [_ [Hn0 HF0]]. apply NoDup_cons in Hn0 as [Htf _]. rewrite Forall_forall in HF0.
  apply elem_of_cons in Hp as [->|Hp]; [done|]. destruct (HF0 p ltac:(set_solver)) as (_ & Hl0 & HT0).
  destruct (proj1 (kp_pages _ _ _ _ _ _ _ K p)) as [[? ?]|?]; [right; set_solver|congruence|done].
Qed.

(** No page is lost in the switch. *)
Lemma switch_pages k T l P q : pspace k T l new tf P -> T !! old = None -> kept (fun q => q <> old /\ q <> new) k0 T0 (tf :: P0 ++ l0) k T (tf :: P ++ l) ->
  q ∈ P ++ l \/ tree (entries (mem k)) new q <-> q ∈ P0 ++ l0 \/ tree (entries (mem k0)) old q.
Proof using PS0 Hnew.
  clear Hsz. intros [[U _ _ _] Ho] HT K. pose proof PS0 as [[U0 _ _ _] Ho0]. pose proof (us_root _ _ _ _ _ U) as Hr. pose proof (us_root _ _ _ _ _ U0) as Hr0.
  pose proof (us_inv _ _ _ _ _ U) as I. pose proof (us_inv _ _ _ _ _ U0) as I0.
  pose proof (kept_tables _ _ _ _ _ _ _ q K ltac:(intros r; destruct (decide (r = old)), (decide (r = new)); tauto) (v_pt _ _ _ I0) (v_pt _ _ _ I)
    (owned_apart k0 T0 l0 (tf :: P0) q I0 Ho0) (owned_apart k T l (tf :: P) q I Ho)) as E.
  assert (tables (fun q => q <> old /\ q <> new) k T q <-> tree (entries (mem k)) new q) as E1.
  { split; [intros (r & Hn & Hr' & Ht)|intros Ht; exists new; tauto]. destruct (decide (r = new)) as [->|]; [done|]. assert (r = old) as -> by (destruct (decide (r = old)); tauto). congruence. }
  assert (tables (fun q => q <> old /\ q <> new) k0 T0 q <-> tree (entries (mem k0)) old q) as E2.
  { split; [intros (r & Hn & Hr' & Ht)|intros Ht; exists old; tauto]. destruct (decide (r = old)) as [->|]; [done|]. assert (r = new) as -> by (destruct (decide (r = new)); tauto). congruence. }
  rewrite E1, E2, !elem_of_cons in E. destruct (owned_cons _ _ _ _ Ho) as ((_ & H1 & H2) & H3 & _), (owned_cons _ _ _ _ Ho0) as ((_ & H4 & H5) & H6 & _).
  destruct (decide (q = tf)) as [->|]; [|tauto]. rewrite !elem_of_app. split; (intros [[?|?]|Ht]; [done|done|]);
    [destruct (in_pt_typed _ _ _ _ _ (v_pt _ _ _ I) Hr Ht) as (j & Hj & _)|destruct (in_pt_typed _ _ _ _ _ (v_pt _ _ _ I0) Hr0 Ht) as (j & Hj & _)]; congruence.
Qed.

Lemma adopt_run k T l P m sp entry (k2 := set_mem (exec_frame tf sp entry (mem k)) k) : space k T l P m ->
  exists k3 T3 l3, proc_freepagetable old oldsz k2 = Ok tt k3 /\ switched k3 T3 l3 P m sp entry.
Proof using Hnew PS0 Hsz.
  intros Sp. pose proof Sp as [PS K M]. pose proof (space_inv _ _ _ _ _ Sp) as I. pose proof (new_apart _ _ _ _ _ Sp) as Hap.
  destruct (pspace_same (fun q => q <> new) k0 T0 l0 k T l (P ++ l) old tf P0 K I ltac:(set_solver) new_not_old PS0) as (PSo & _ & Hfr).
  assert (mem_ok (exec_frame tf sp entry (mem k))) as Hm by (pose proof (kinv_mem _ _ (v_k _ _ _ I)); unfold exec_frame; auto with xv6).
  pose proof (exec_frame_off tf sp entry (mem k)) as Foff. set (A := tf :: P0 ++ P ++ l).
  destruct (frame_write k T l A old tf P0 _ PSo ltac:(set_solver) Hm Foff) as (PSo2 & K2 & _).
  destruct (frame_write k T l A new tf P _ PS ltac:(set_solver) Hm Foff) as (PS2 & _ & SU2). fold k2 in PSo2, K2, PS2, SU2.
  pose proof PSo2 as [PV2 Ho2].
  destruct (proc_freepagetable_ok k2 T l old tf P0 oldsz PV2) as (k3 & T3 & l3 & Hf & I3 & HT3 & K3); [apply (owned_cons _ _ _ _ Ho2)|apply Hsz|apply Hsz|].
  assert (Forall page_ok (P0 ++ l)) as Hok by (pose proof (space_pages_ok k2 T l old tf P0 PSo2) as Hok; by apply Forall_cons in Hok as [_ ?]).
  destruct (pspace_same_gen (fun q => q <> old) k2 T l (P0 ++ l) k3 T3 l3 l3 new tf P K3 I3 ltac:(done) (not_eq_sym new_not_old) Hok Hap PS2) as (PS3 & SU3 & Hfr3).
  assert (kept (fun q => q <> old /\ q <> new) k0 T0 (tf :: P0 ++ l0) k3 T3 (tf :: P ++ l3)) as K0.
  { eapply (kept_trans _ _ _ _ k T A); [|eapply kept_trans; [by apply (kept_weaken (fun _ => True)); [|exact K2]|]].
    - apply (kept_weaken (fun q => q <> new)); [tauto|]. exact (kept_more _ _ _ _ _ _ _ (tf :: P0) K).
    - apply (kept_weaken (fun q => q <> old)); [tauto|]. eapply kept_perm; [| |exact (kept_more _ _ _ _ _ _ _ (tf :: P) K3)]; set_solver. }
  exists k3, T3, l3. split; [done|]. split; [done| |done| |done|intros q; by eapply switch_pages].
  - eapply um_same; [exact SU3|]. eapply um_same; [exact SU2|exact M].
  - intros o Ho. rewrite Hfr3 by done. cbn [k2 set_mem mem]. apply exec_frame_ext. by apply Hfr.
Qed.

(** *** [exec] from the stack on *)

Definition stack_post (path : list Z) (argv : list (list Z)) (sz : Z) (m : umem) (entry : Z) (l : list Z) (t : ptable) (r : Z) (k' : kst) (t' : ptable) : Prop :=
  exists T' l',
  (r = -1 /\ t' = t /\ vinv k' T' l' /\ kept (fun _ => True) k0 T0 l0 k' T' l' /\ (lenZ l < 6 \/ stack_image argv sz m = None)) \/
  (exists im P', stack_image argv sz m = Some im /\ r = lenZ argv /\ t' = tupd (cur t) (exec_entry path new (im_size im) (proc_at t (cur t))) t /\
     switched k' T' l' P' (im_mem im) (im_sp im) entry /\ PGROUNDUP (im_size im) = lenZ P' * PGSIZE).

Lemma tf_bind {B} k t s (p off v : Z) (f : unit -> M kern B) : bind (tf_store p off v) f (st k t s) = f tt (st (set_mem (st64 (mem k) (p + off) v) k) t s).
Proof using. unfold tf_store. by rewrite (km_bind _ _ _ _ _ tt (set_mem (st64 (mem k) (p + off) v) k)). Qed.

(** The end of [exec]: nothing fails any more. *)
Lemma finish_run k T l P m t s path sz sp entry (argc : Z) (p := proc_at t (cur t)) : space k T l P m ->
  p_pagetable p = old -> p_sz p = oldsz -> p_trapframe p = tf ->
  exists k' T' l',
  (tf_store tf (TF_a 1) sp ;;;
   pt (upd_p (cur t) (fun x => set_name (safestrcpy (p_name x) (last_elem path path) 16) x)) ;;;
   pt (upd_p (cur t) (set_pagetable new)) ;;;
   pt (upd_p (cur t) (set_sz sz)) ;;;
   tf_store tf TF_epc entry ;;;
   tf_store tf TF_sp sp ;;;
   km_ (proc_freepagetable old oldsz) ;;;
   return argc) (st k t s) = Ok argc (st k' (tupd (cur t) (exec_entry path new sz p) t) s) /\ switched k' T' l' P m sp entry.
Proof using Hnew PS0 Hsz.
  intros Sp Eo Es Et. destruct (adopt_run k T l P m sp entry Sp) as (k3 & T3 & l3 & Hf & Sw). exists k3, T3, l3. split; [|done].
  rewrite tf_bind. entry. rewrite !tf_bind. rewrite (km_bind _ _ _ _ _ _ _ Hf). done.
Qed.

Lemma exec_stack_run k T l P m t s path argv sz entry : space k T l P m -> PGROUNDUP sz = lenZ P * PGSIZE -> 0 <= sz <= sz_limit ->
  Forall arg_ok argv -> lenZ argv < MAXARG -> p_pagetable (proc_at t (cur t)) = old -> p_sz (proc_at t (cur t)) = oldsz -> p_trapframe (proc_at t (cur t)) = tf ->
  exists r k' t', exec_stack path argv new sz entry (st k t s) = Ok r (st k' t' s) /\ stack_post path argv sz m entry l t r k' t'.
Proof using Hnew PS0 Hsz.
  intros Sp Hup Hle Ha Hargc Eo Es Et. pose proof TRAPFRAME_eq. unfold exec_stack, kmyproc. rewrite !bind_gets.
  change (cur (fp (kf (st k t s)))) with (cur t). change (myproc (kf (st k t s))) with (proc_at t (cur t)). rewrite Eo, Es, Et. rewrite Hup. set (a := lenZ P * PGSIZE) in *.
  destruct (PGROUNDUP_bounds sz) as [Hb _]; [lia|unfold sz_limit, PGSIZE in *; lia|]. rewrite Hup in Hb.
  assert (0 <= a <= sz_limit) as Hal.
  { split; [lia|]. unfold sz_limit in *. rewrite TRAPFRAME_eq in *. unfold a, PGSIZE in *. lia. }
  assert (PGROUNDUP a = a) as Er by (apply PGROUNDUP_page; unfold a, sz_limit in *; unfold PGSIZE in *; lia).
  unfold USERSTACK. rewrite u64_small by (unfold sz_limit, PGSIZE in *; lia). change ((1 + 1) * PGSIZE) with (2 * PGSIZE).
  destruct (pages_run k T l P m a Sp eq_refl ltac:(lia)) as [(k1 & T1 & l1 & E1 & Sp1 & Hl)|(k1 & k2 & T1 & l1 & Q & E1 & E2 & El & Sk)];
    rewrite (km_bind _ _ _ _ _ _ _ E1); cbv zeta.
  { cbn [Z.eqb]. destruct (bad_run k1 T1 l1 P m t s a Sp1) as (k2 & T2 & l2 & E2 & I2 & K2); [unfold sz_limit, PGSIZE in *; lia|done|].
    exists (-1), k2, t. split; [exact E2|]. exists T2, l2. left. by repeat (split; [done|]); left. }
  destruct (Z.eqb_spec (a + 2 * PGSIZE) 0); [unfold PGSIZE in *; lia|]. replace (a + 2 * PGSIZE - 2 * PGSIZE) with a by lia.
  rewrite u64_small by (unfold sz_limit, PGSIZE in *; lia). rewrite (km_bind _ _ _ _ _ _ _ E2).
  replace (a + 2 * PGSIZE - 1 * PGSIZE) with (a + PGSIZE) by lia. rewrite u64_small by (unfold sz_limit, PGSIZE in *; lia).
  destruct (push_args_run argv k2 T1 l1 (P ++ Q) (a + PGSIZE) (a + 2 * PGSIZE) _ t s 0 (a + 2 * PGSIZE) [] Sk) as (r & k3 & m3 & E3 & Sk3 & Hr);
    [lia|unfold PGSIZE in *; lia|unfold sz_limit, PGSIZE in *; lia|done|lia|].
  assert (PGROUNDUP (a + 2 * PGSIZE) = lenZ (P ++ Q) * PGSIZE) as Htop.
  { rewrite El. replace (a + 2 * PGSIZE) with ((lenZ P + 2) * PGSIZE) by (unfold a; lia). apply PGROUNDUP_page. unfold a, sz_limit, PGSIZE in *. lia. }
  assert (stack_image argv sz m = _) as Ei by reflexivity. unfold stack_image at 2 in Ei. rewrite Hup in Ei. fold a in Ei. cbv zeta in Ei.
  assert (forall k4 m4, stacking k4 T1 l1 (P ++ Q) (a + PGSIZE) (a + 2 * PGSIZE) m4 -> stack_image argv sz m = None ->
    exists r k' t', exec_bad new (a + 2 * PGSIZE) None (st k4 t s) = Ok r (st k' t' s) /\ stack_post path argv sz m entry l t r k' t') as Hbad.
  { intros k4 m4 [Sp4 _] En. destruct (bad_run k4 T1 l1 _ m4 t s (a + 2 * PGSIZE) Sp4) as (k5 & T5 & l5 & E5 & I5 & K5); [unfold sz_limit, PGSIZE in *; lia|done|].
    exists (-1), k5, t. split; [exact E5|]. exists T5, l5. left. by repeat (split; [done|]); right. }
  rewrite (bind_Ok _ _ _ _ _ E3). destruct (arg_places argv (a + 2 * PGSIZE) (a + PGSIZE)) as [ps|] eqn:Ep; [|subst r; by eapply Hbad].
  destruct Hr as (-> & -> & Hend). cbn [mbind option_bind] in Ei. rewrite Z.add_0_l, app_nil_l. pose proof (lenZ_nonneg argv). unfold MAXARG in Hargc.
  set (e := args_end (a + 2 * PGSIZE) ps) in *. rewrite u64_small by (unfold sz_limit, PGSIZE in *; lia). fold (align16 (e - (lenZ argv + 1) * 8)).
  pose proof (align16_bounds (e - (lenZ argv + 1) * 8)). set (sp := align16 (e - (lenZ argv + 1) * 8)) in *. destruct (Z.ltb_spec sp (a + PGSIZE)); [by eapply Hbad|].
  pose proof (arg_places_length _ _ _ _ Ep) as Elen.
  destruct (push_run k3 T1 l1 (P ++ Q) _ _ _ sp (concat (le_bytes 8 <$> ps ++ [0])) Sk3) as (k4 & E4 & Sk4); [unfold PGSIZE in *; lia| |unfold sz_limit, PGSIZE in *; lia|apply pointers_bytes|].
  { rewrite pointers_length, lenZ_app, Elen. change (lenZ [0]) with 1. lia. }
  rewrite (km_bind _ _ _ _ _ _ _ E4). cbn [Z.ltb Z.compare].
  destruct (finish_run k4 T1 l1 (P ++ Q) _ t s path (a + 2 * PGSIZE) sp entry (lenZ argv) (sk_space _ _ _ _ _ _ _ Sk4) Eo Es Et) as (k5 & T5 & l5 & E5 & Sw).
  eexists _, _, _. split; [exact E5|]. exists T5, l5. right. eexists _, (P ++ Q). split; [exact Ei|]. cbn [im_size im_sp im_mem]. by repeat (split; [done|]).
Qed.
End stack.
