(* ===== verification/ExecSpec.v ===== *)
(** * [exec] (kernel/exec.c): running a program

    [exec] against what the file system, the file and the arguments say: the memory and the
    registers of the new program, or the reason for failure. *)

From stdpp Require Import base gmap strings fin_sets functions list.
From S2P Require Import Prelude Riscv Mem Spinlock Kalloc Vm VmTable VmWalk VmUser VmCopy VmFree Sleeplock ProcData Bytes Bio BioSpec Log LogSpec Fs FsTx FsAlloc FsFile FsPath FsOp Pipe File Proc ProcSpec ProcMem Fork Wait Exec ExecMem ExecLoad ExecStack.

(** ** What a file means as a program *)

Definition contents (C : Z -> list Z) (x : inode) : list Z := fbytes C x 0 (i_size x).

Definition elf (file : list Z) : list Z := take (Z.to_nat sizeof_elfhdr) file.
Definition elf_ok (file : list Z) : bool := (lenZ (elf file) =? sizeof_elfhdr) && (elf_magic (elf file) =? ELF_MAGIC).
Definition ph_count (file : list Z) : nat := Z.to_nat (elf_phnum (elf file)).
Definition ph_start (file : list Z) : Z := s32 (elf_phoff (elf file)).
Definition load_file (file : list Z) : option (Z * umem) :=
  if elf_ok file then load_segs file (ph_count file) (ph_start file) 0 (fun _ => None) else None.

(** The program counter and the memory with which the program starts. *)
Definition exec_image (file : list Z) (argv : list (list Z)) : option (Z * image) :=
  '(sz, m) ← load_file file; im ← stack_image argv sz m; Some (elf_entry (elf file), im).

(** The program headers are at offsets that do not overflow, and the segments leave room for
    the stack below the trapframe. *)
Definition loadable (file : list Z) : Prop :=
  0 <= ph_start file /\ ph_start file + sizeof_proghdr * Z.of_nat (ph_count file) < 2 ^ 31 /\ segs_fit file (ph_count file) (ph_start file) sz_limit.

(** [free] pages may be too few for the page table, the segments or the stack. *)
Definition memory_short (file : list Z) (free : Z) : Prop :=
  free < 5 \/ segs_need file (ph_count file) (ph_start file) (free - 5) \/
  exists sz m, load_file file = Some (sz, m) /\ (free - 5) * PGSIZE < 3 * (PGROUNDUP sz + 2 * PGSIZE).

(** ** The contract *)

Definition path_inode (f : fsst) (C : Z -> list Z) (path : list Z) : option Z := resolve C (fsb f) (start_inum f path) (path_elems path).
Definition path_file (f : fsst) (C : Z -> list Z) (n : Z) : list Z := contents C (dino C (fsb f) n).

(** The file system is as it was: the same files, directories, references and locks. *)
Definition files_kept (f : fsst) (C : Z -> list Z) (bs : list Z) (f' : fsst) : Prop :=
  mid f C bs (mkFsst (fl f') (fsb f') (fit f') (fk f) (fp f)) None (fun _ => 0).

Section exec.
Context `{Layout}.

(** Between two system calls of the running process, whose pages are [P]. *)
Record exec_pre (s : kern) (C : Z -> list Z) (bs : list Z) (N : Z -> Prop) (T : gmap Z nat) (l P : list Z) (path : list Z) (argv : list (list Z))
  (f := kf s) (p := myproc f) : Prop := {
  ep_fs : fs_ok f C bs N;
  ep_log : l_committing (lg (fl f)) = 0 /\ Z.of_nat (length bs) + (outs f + 1) * MAXOPBLOCKS <= LOGSIZE /\ (bs = [] \/ outs f <> 0);
  ep_path : Forall path_char path /\ N (start_inum f path) /\ (hd 0 path <> SLASH -> in_table (start_dir f) /\ 0 < i_ref (inode_at f (start_dir f)));
  ep_file : forall n, path_inode f C path = Some n -> file_ok C (dino C (fsb f) n) /\ loadable (path_file f C n);
  ep_space : pspace (fk f) T l (p_pagetable p) (p_trapframe p) P;
  ep_sz : 0 <= p_sz p <= TRAPFRAME /\ PGROUNDUP (p_sz p) = lenZ P * PGSIZE;
  ep_args : Forall arg_ok argv /\ lenZ argv < MAXARG
}.

(** Why [exec] fails. *)
Definition exec_fails (f : fsst) (C : Z -> list Z) (l path : list Z) (argv : list (list Z)) : Prop :=
  match path_inode f C path with
  | Some n => exec_image (path_file f C n) argv = None \/ memory_short (path_file f C n) (lenZ l)
  | None => True
  end.

Definition exec_post (s : kern) (C : Z -> list Z) (bs : list Z) (T : gmap Z nat) (l P : list Z) (path : list Z) (argv : list (list Z)) (r : Z) (s' : kern)
  (f := kf s) (p := myproc f) : Prop :=
  s' = set_kf (kf s') s /\ files_kept f C bs (kf s') /\
  exists T' l',
  (r = -1 /\ ptab s' = ptab s /\ vinv (fk (kf s')) T' l' /\ kept (fun _ => True) (fk f) T l (fk (kf s')) T' l' /\ (forall q, q ∈ l' <-> q ∈ l) /\ exec_fails f C l path argv) \/
  (exists n entry im new P', path_inode f C path = Some n /\ exec_image (path_file f C n) argv = Some (entry, im) /\ r = lenZ argv /\
     ptab s' = tupd (cur (ptab s)) (exec_entry path new (im_size im) p) (ptab s) /\ PGROUNDUP (im_size im) = lenZ P' * PGSIZE /\ T !! new = None /\
     switched (fk f) T l new (p_trapframe p) (p_pagetable p) P (fk (kf s')) T' l' P' (im_mem im) (im_sp im) entry).

(** ** Leaving *)

Context (s : kern) (C : Z -> list Z) (bs : list Z) (N : Z -> Prop) (T : gmap Z nat) (l P : list Z) (path : list Z) (argv : list (list Z)).
Notation f0 := (kf s).
Notation p := (myproc f0).
Context (Pre : exec_pre s C bs N T l P path argv).
(** The file system after [begin_op]. *)
Notation f1 := (with_out (outs f0 + 1) f0).

Lemma wp_end f k (Q : unit -> kern -> Prop) : mid (set_fk k f1) C bs f None (fun _ => 0) ->
  (forall f', mid (set_fk k f0) C bs f' None (fun _ => 0) -> Q tt (set_kf f' s)) -> wp (fs (zf end_op)) Q (set_kf f s).
Proof using Pre.
  intros Md HQ. pose proof (ep_log _ _ _ _ _ _ _ _ _ Pre) as (Hc & _ & Hb). pose proof (mid_facts _ _ _ _ _ _ Md) as (_ & _ & _ & Eo & Ec).
  assert (outs f = outs f0 + 1) as Eo' by exact Eo. apply wp_fs, (wp_end_op f C bs); [apply Md|by rewrite Ec|rewrite Eo'; destruct Hb; [by left|right; lia]|].
  apply HQ. rewrite Eo'. replace (outs f0 + 1 - 1) with (outs f0) by lia. apply (mid_with_out (outs f0)) in Md. 
  change (with_out (outs f0) (set_fk k f1)) with (set_fk k (with_out (outs f0) f0)) in Md. by rewrite with_out_id in Md.
Qed.

(** [iunlockput(ip); end_op();] *)
Lemma wp_leave f k ip (Q : unit -> kern -> Prop) : mid (set_fk k f1) C bs f (Some ip) (one ip) -> in_table ip -> 0 < i_ref (inode_at f ip) -> i_nlink (inode_at f ip) <> 0 ->
  (forall f', mid (set_fk k f0) C bs f' None (fun _ => 0) -> Q tt (set_kf f' s)) -> wp (fs (iunlockput ip)) (fun _ => wp (fs (zf end_op)) Q) (set_kf f s).
Proof using Pre.
  intros Md Hip Hr Hn HQ. apply wp_fs. apply (wp_iunlockput (set_fk k f1) C bs f (one ip)); [done..|]. intros f' Md' _.
  apply (wp_end f' k); [|done]. eapply mid_ext, Md'. intros jp. apply one_drop.
Qed.

Lemma files_kept_intro k f k' t' : mid (set_fk k f0) C bs f None (fun _ => 0) -> files_kept f0 C bs (mkFsst (fl f) (fsb f) (fit f) k' t').
Proof using.
  intros Md. pose proof (mid_facts _ _ _ _ _ _ Md) as (_ & _ & Ep & _). cbn in Ep. apply (mid_set_fk (fk f0)) in Md.
  change (set_fk (fk f0) (set_fk k f0)) with (set_fk (fk f0) f0) in Md. rewrite set_fk_id in Md. unfold files_kept. cbn. by rewrite <- Ep.
Qed.

Lemma exec_failed k f T' l' : mid (set_fk k f0) C bs f None (fun _ => 0) -> vinv k T' l' -> kept (fun _ => True) (fk f0) T l k T' l' ->
  exec_fails f0 C l path argv -> exec_post s C bs T l P path argv (-1) (set_kf f s).
Proof using Pre.
  intros Md I K Hf. pose proof (us_inv _ _ _ _ _ (ps_us _ _ _ _ _ _ (ps_view _ _ _ _ _ _ (ep_space _ _ _ _ _ _ _ _ _ Pre)))) as I0. pose proof (mid_facts _ _ _ _ _ _ Md) as (_ & Ek & Ep & _). cbn in Ek, Ep. split; [done|]. split.
  { pose proof (files_kept_intro k f (fk f) (fp f) Md) as Hk. by destruct f. }
  exists T', l'. left. cbn. rewrite Ek. split; [done|]. split; [exact Ep|]. split; [done|]. split; [done|]. split; [intros q; by apply (kept_free _ _ _ _ _ _ _ K)|done].
Qed.

(** [bad:] with the inode locked; [pg] is 0 or the new page table. *)
Lemma wp_bad pg sz f k k' T' l' ip : mid (set_fk k f1) C bs f (Some ip) (one ip) -> in_table ip -> 0 < i_ref (inode_at f ip) -> i_nlink (inode_at f ip) <> 0 ->
  (if negb (pg =? 0) then proc_freepagetable pg sz else return tt) k = Ok tt k' -> vinv k' T' l' -> kept (fun _ => True) (fk f0) T l k' T' l' ->
  exec_fails f0 C l path argv -> wp (exec_bad pg sz (Some ip)) (exec_post s C bs T l P path argv) (set_kf f s).
Proof using Pre.
  intros Md Hip Hr Hn Hf I K Hfl. unfold exec_bad. pose proof (mid_facts _ _ _ _ _ _ Md) as (_ & Ek & _). cbn in Ek.
  apply wp_bind. apply (wp_run _ _ _ tt (set_kf (set_fk k' f) s)).
  - rewrite <- Ek in Hf. destruct (negb (pg =? 0)); [|injection Hf as <-; by rewrite set_fk_id]. unfold km_, fs, zk, zoom. cbn. by rewrite Hf.
  - apply (mid_set_fk k') in Md. change (set_fk k' (set_fk k f1)) with (set_fk k' f1) in Md. apply wp_bind, wp_bind. apply (wp_leave (set_fk k' f) k' ip); [done..|].
    intros f' Md'. apply wp_ret. by eapply exec_failed.
Qed.

(** ** From the locked inode on *)

Definition exec_body (ip : Z) : M kern Z :=
  do '(r, elf) <- fs (readi ip ToVar 0 sizeof_elfhdr);
  if negb (r =? sizeof_elfhdr) then exec_bad 0 0 (Some ip)
  else if negb (elf_magic elf =? ELF_MAGIC) then exec_bad 0 0 (Some ip)
  else
    do p <- kmyproc;
    do pagetable <- km_ (proc_pagetable (p_trapframe p));
    if pagetable =? 0 then exec_bad 0 0 (Some ip)
    else
      do '(sz, ok) <- exec_load (Z.to_nat (elf_phnum elf)) pagetable ip 0 (s32 (elf_phoff elf)) (elf_phnum elf) 0;
      if negb ok then exec_bad pagetable sz (Some ip)
      else
        fs (iunlockput ip) ;;;
        fs (zf end_op) ;;;
        exec_stack path argv pagetable sz (elf_entry elf).

Context (ip n : Z) (Hip : in_table ip) (Hn : path_inode f0 C path = Some n).
Notation file := (path_file f0 C n).

(** The inode, locked in state [f]. *)
Record opened (f : fsst) : Prop := {
  op_mid : mid f1 C bs f (Some ip) (one ip);
  op_ref : 0 < i_ref (inode_at f ip);
  op_alike : alike (inode_at f ip) (dino C (fsb f0) n)
}.

Lemma opened_nlink f : opened f -> i_nlink (inode_at f ip) <> 0.
Proof using Pre Hn.
  intros [_ _ A]. pose proof A as (_ & _ & -> & _). destruct (ep_path _ _ _ _ _ _ _ _ _ Pre) as (_ & HN & _).
  pose proof (fs_tree _ _ _ _ (ep_fs _ _ _ _ _ _ _ _ _ Pre)) as Tr. apply (tr_inode _ _ _ Tr). by eapply tree_resolve.
Qed.
Lemma opened_file f : opened f -> file_ok C (inode_at f ip) /\ contents C (inode_at f ip) = file.
Proof using Pre Hn.
  intros [_ _ A]. destruct (ep_file _ _ _ _ _ _ _ _ _ Pre n Hn) as [F _]. split; [by eapply alike_file_ok|].
  unfold contents, path_file, contents. pose proof A as (_ & _ & _ & -> & _). by apply alike_fbytes.
Qed.

Section tail.
Context (f : fsst) (Op : opened f).
Notation x := (inode_at f ip).
(** The new page table, loaded in state [f2]. *)
Context (new : Z) (Hnew : T !! new = None) (Hnew0 : new <> 0).
Notation loading' := (loading f C bs (fk f0) T l new (p_trapframe p)).
Notation free := (lenZ l - 5).

Lemma loading_mid f2 T2 l2 P2 m : loading' f2 T2 l2 P2 m -> mid (set_fk (fk f2) f1) C bs f2 (Some ip) (one ip) /\ inode_at f2 ip = x.
Proof using Op.
  intros L. pose proof L as [I Sm _ _ _ _]. destruct Op as [Md _ _]. split; [|by eapply lo_x].
  eapply mid_same; [exact (mid_set_fk (fk f2) _ _ _ _ _ _ Md)|done|done].
Qed.
Lemma loading_space f2 T2 l2 P2 m m1 : loading' f2 T2 l2 P2 m -> (forall v, m v = m1 v) -> space (fk f0) T l new (p_trapframe p) (fk f2) T2 l2 P2 m1.
Proof using. intros [_ _ PS K M _] E. split; [done|done|]. intros v. rewrite <- E. apply M. Qed.

Lemma image_none sz m : load_file file = Some (sz, m) -> stack_image argv sz m = None -> exec_image file argv = None.
Proof using. intros E1 E2. unfold exec_image. rewrite E1. cbn. by rewrite E2. Qed.

(** The program is loaded: the inode is released, and the stack is built. *)
Lemma wp_tail f2 T2 l2 P2 m m1 sz : loading' f2 T2 l2 P2 m -> (forall v, m v = m1 v) -> cheap free l2 P2 -> PGROUNDUP sz = lenZ P2 * PGSIZE -> 0 <= sz <= sz_limit ->
  load_file file = Some (sz, m1) ->
  wp (fs (iunlockput ip) ;;; fs (zf end_op) ;;; exec_stack path argv new sz (elf_entry (elf file))) (exec_post s C bs T l P path argv) (set_kf f2 s).
Proof using Pre Hip Hn Op Hnew.
  intros L Em Hch Hup Hsz Hl. destruct (loading_mid _ _ _ _ _ L) as [Md Ex]. pose proof Op as [_ Hr _]. pose proof (opened_nlink f Op) as Hnl.
  apply wp_bind. apply (wp_mono _ (fun _ => wp (fs (zf end_op)) (fun _ => wp (exec_stack path argv new sz (elf_entry (elf file))) (exec_post s C bs T l P path argv))));
    [intros [] S'; apply wp_bind|].
  apply (wp_leave f2 (fk f2) ip); [done|done|by rewrite Ex|by rewrite Ex|]. intros f3 Md3. pose proof (mid_facts _ _ _ _ _ _ Md3) as (_ & Ek & Ep & _). cbn in Ek, Ep.
  pose proof (ep_args _ _ _ _ _ _ _ _ _ Pre) as [Ha Hc].
  assert (set_kf f3 s = st (fk f2) (fp f0) (set_kf f3 s)) as Est by (rewrite <- Ek, <- Ep; symmetry; apply (st_id (set_kf f3 s))). rewrite Est.
  destruct (exec_stack_run (fk f0) T l new (p_trapframe p) Hnew (p_pagetable p) P (p_sz p) (ep_space _ _ _ _ _ _ _ _ _ Pre) (ep_sz _ _ _ _ _ _ _ _ _ Pre)
    (fk f2) T2 l2 P2 m1 (fp f0) (set_kf f3 s) path argv sz (elf_entry (elf file)) (loading_space _ _ _ _ _ _ L Em) Hup Hsz Ha Hc eq_refl eq_refl eq_refl) as (r & k' & t' & Hrun & Hpost).
  eapply wp_run; [exact Hrun|]. split; [done|]. split; [exact (files_kept_intro (fk f2) f3 k' t' Md3)|].
  destruct Hpost as (T' & l' & [(-> & -> & I & K & Hwhy)|(im & P' & Hi & -> & -> & Sw & Hup')]); exists T', l'; [left|right].
  - split; [done|]. split; [done|]. split; [done|]. split; [done|]. split.
    { intros q. apply (kept_free _ _ _ _ _ _ _ K); [|done]. apply (us_inv _ _ _ _ _ (ps_us _ _ _ _ _ _ (ps_view _ _ _ _ _ _ (ep_space _ _ _ _ _ _ _ _ _ Pre)))). }
    unfold exec_fails. rewrite Hn.
    destruct Hwhy as [Hl6|Hno]; [right; right; right|left; by eapply image_none]. exists sz, m1. split; [done|]. unfold cheap in Hch. rewrite Hup. unfold PGSIZE. lia.
  - exists n, (elf_entry (elf file)), im, new, P'. split; [done|]. split; [unfold exec_image; rewrite Hl; cbn; by rewrite Hi|]. done.
Qed.
End tail.

Lemma opened_same f f' : opened f -> same f f' -> tx f' C ∅ bs -> opened f'.
Proof using. intros [Md Hr A] Sm I. split; [by eapply mid_same|by rewrite (inode_at_same _ _ _ Sm)..]. Qed.

Lemma fails_image : exec_image file argv = None -> exec_fails f0 C l path argv.
Proof using Hn. intros E. unfold exec_fails. rewrite Hn. by left. Qed.

Lemma file_bytes f : opened f -> Forall is_byte file.
Proof using Pre Hn. intros Op. destruct (opened_file f Op) as [_ <-]. apply fbytes_byte. intros y. eapply tx_bytes, (op_mid _ Op). Qed.

(** [bad:] before there is a page table. *)
Lemma wp_bad0 f k T' l' : opened f -> vinv k T' l' -> kept (fun _ => True) (fk f0) T l k T' l' -> exec_fails f0 C l path argv ->
  wp (exec_bad 0 0 (Some ip)) (exec_post s C bs T l P path argv) (set_kf (set_fk k f) s).
Proof using Pre Hip Hn.
  intros Op I K Hf. pose proof (opened_nlink f Op). destruct Op as [Md Hr A]. eapply (wp_bad 0 0 (set_fk k f) k k); try done. by apply mid_set_fk.
Qed.

(** The headers are read: a page table is made and the segments are loaded. *)
Lemma wp_load f : opened f -> elf_ok file = true ->
  wp (do pagetable <- km_ (proc_pagetable (p_trapframe p));
      if pagetable =? 0 then exec_bad 0 0 (Some ip)
      else
        do '(sz, ok) <- exec_load (ph_count file) pagetable ip 0 (ph_start file) (elf_phnum (elf file)) 0;
        if negb ok then exec_bad pagetable sz (Some ip)
        else
          fs (iunlockput ip) ;;;
          fs (zf end_op) ;;;
          exec_stack path argv pagetable sz (elf_entry (elf file))) (exec_post s C bs T l P path argv) (set_kf f s).
Proof using Pre Hip Hn.
  intros Op Hok. pose proof (mid_facts _ _ _ _ _ _ (op_mid _ Op)) as (_ & Ek & _). cbn in Ek. destruct (opened_file f Op) as [F Ef].
  pose proof (ep_space _ _ _ _ _ _ _ _ _ Pre) as PS0. pose proof PS0 as [[U0 _ _ _] Ho0]. pose proof (us_inv _ _ _ _ _ U0) as I0. pose proof TRAPFRAME_eq.
  assert (owned T l [p_trapframe p]) as Otf by (destruct (owned_cons _ _ _ _ Ho0) as (Hok0 & _); split; [apply NoDup_singleton|by apply Forall_singleton]).
  destruct (ep_file _ _ _ _ _ _ _ _ _ Pre n Hn) as (_ & L1 & L2 & L3).
  destruct (proc_pagetable_ok (fk f0) T l (p_trapframe p) I0 Otf) as (new & k1 & T1 & l1 & Hpg & I1 & K1 & Hc). apply wp_bind, wp_km. rewrite Ek. eapply wp_run; [exact Hpg|].
  destruct Hc as [[-> Hl]|(Hn0 & Hl & Hnew & PS1)].
  { cbn [Z.eqb]. eapply wp_bad0; try done; [eapply kept_weaken, K1; by left|]. unfold exec_fails. rewrite Hn. right. by left. }
  rewrite (proj2 (Z.eqb_neq _ _) Hn0). apply wp_bind.
  assert (loading f C bs (fk f0) T l new (p_trapframe p) (set_fk k1 f) T1 l1 [] (fun _ => None)) as L.
  { split; [apply tx_set_fk, (op_mid _ Op)|reflexivity|done|eapply kept_weaken, K1; by right| |].
    - assert (forall perm v, user_addr k1 new perm v = None) as En by (intros perm v; apply (user_addr_None k1 T1 l1 new []); [apply PS1|]; change (lenZ [] * PGSIZE) with 0; lia).
      intros v. cbn. unfold sees, user_byte. rewrite En. split; [done|]. intros perm _. rewrite En. split; [by intros [? ?]|by intros (? & ? & ? & _)].
    - intros v Hv. change (lenZ [] * PGSIZE) with 0 in Hv. lia. }
  assert (0 <= elf_phnum (elf file)) as Hph by (apply le_value_bound, Forall_take, Forall_drop, Forall_take, (file_bytes f Op)).
  eapply wp_mono; [|apply (wp_exec_load s f C bs ip F (fk f0) T l new (p_trapframe p) (lenZ l - 5) (ph_count file) (set_fk k1 f) T1 l1 [] (fun _ => None) 0 (ph_start file) 0)];
    [|done|unfold cheap; change (lenZ []) with 0; lia|done|unfold sz_limit, PGSIZE; lia|done|done|unfold ph_count; lia|change (fbytes C _ 0 _) with (contents C (inode_at f ip)); by rewrite Ef].
  intros [sz ok] S' (f2 & T2 & l2 & P2 & m2 & -> & L' & Hup & Hsz & Hres). change (fbytes C _ 0 _) with (contents C (inode_at f ip)) in Hres. rewrite Ef in Hres. cbn [fst snd] in *.
  destruct (loading_mid f Op new f2 T2 l2 P2 m2 L') as [Md2 Ex]. destruct ok; cbn [negb].
  - destruct Hres as (Hch & m1 & Hm1 & Em). eapply (wp_tail f Op new Hnew f2 T2 l2 P2 m2 m1 sz L'); [done|done|done|lia|]. unfold load_file. by rewrite Hok.
  - assert (exec_fails f0 C l path argv) as Hfl.
    { unfold exec_fails. rewrite Hn. destruct Hres as [E|E]; [left|right; right; by left]. unfold exec_image, load_file. by rewrite Hok, E. }
    destruct (bad_free (fk f0) T l new (p_trapframe p) Hnew (fk f2) T2 l2 P2 m2 sz (loading_space f new f2 T2 l2 P2 m2 m2 L' (fun _ => eq_refl))) as (k3 & T3 & l3 & Hf & I3 & K3);
      [unfold sz_limit, PGSIZE in *; lia|done|].
    eapply (wp_bad new sz f2 (fk f2) k3 T3 l3 ip); try done; [by rewrite Ex; apply Op|by rewrite Ex; apply opened_nlink|by rewrite (proj2 (Z.eqb_neq _ _) Hn0)].
Qed.

Lemma wp_body f : opened f -> wp (exec_body ip) (exec_post s C bs T l P path argv) (set_kf f s).
Proof using Pre Hip Hn.
  intros Op. destruct (opened_file f Op) as [F Ef]. pose proof (ep_space _ _ _ _ _ _ _ _ _ Pre) as [[U0 _ _ _] _]. pose proof (us_inv _ _ _ _ _ U0) as I0.
  unfold exec_body. apply wp_bind, wp_fs. apply (wp_readi f C bs); [apply (op_mid _ Op)|done|done|done|]. intros f' I' S'.
  pose proof (opened_same f f' Op S' I') as Op'. rewrite (read_slice f C ip F) by done. change (fbytes C _ 0 _) with (contents C (inode_at f ip)). rewrite Ef.
  change (take (Z.to_nat sizeof_elfhdr) (drop (Z.to_nat 0) file)) with (elf file). change (Z.of_nat (length (elf file))) with (lenZ (elf file)).
  pose proof (mid_facts _ _ _ _ _ _ (op_mid _ Op')) as (_ & Ek & Ep & _). cbn in Ek, Ep.
  assert (elf_ok file = false -> wp (exec_bad 0 0 (Some ip)) (exec_post s C bs T l P path argv) (set_kf f' s)) as Hbad.
  { intros E. rewrite <- (set_fk_id f'), Ek. eapply wp_bad0; [done|exact I0|apply kept_refl|]. apply fails_image. unfold exec_image, load_file. by rewrite E. }
  destruct (lenZ (elf file) =? sizeof_elfhdr) eqn:E1; cbn [negb]; [|apply Hbad; unfold elf_ok; by rewrite E1].
  destruct (elf_magic (elf file) =? ELF_MAGIC) eqn:E2; cbn [negb]; [|apply Hbad; unfold elf_ok; by rewrite E1, E2].
  unfold kmyproc. apply wp_bind, wp_gets. assert (myproc (kf (set_kf f' s)) = p) as -> by (unfold myproc; cbn; by rewrite Ep).
  apply wp_load; [done|]. unfold elf_ok. by rewrite E1, E2.
Qed.
End exec.

(** C8: [exec] ends, and either runs the program or returns -1 and leaves the process as it
    was.  When the path leads to a file, the file is an ELF file whose headers are acceptable
    and whose segments are all there, and the arguments fit the stack, [exec] returns the
    number of arguments: the memory of the process is, at every user address, what
    the file and the arguments say - the segments with zeroes after them, readable, and
    writable or executable exactly where the flags of the segment say so, a page without
    access, and the stack with the strings and the pointers to them - its registers [a1] and
    [sp] point to the array of pointers, its program counter is the entry point, its
    other registers are unchanged, and the pages of the old image and of its page table
    are free: the pages of the new image, of its table and of the free list are those of the old
    image, of its table and of the free list before.  It fails only
    if the path does not resolve, the file or the arguments are not acceptable, or fewer
    pages are free than five and three for each page of the program.  In both cases the
    file system is as before, with no inode locked and no reference left, and
    no page table or page of another process changes; after a failure exactly the pages
    that were free are free. *)
Theorem exec_runs_program `{Layout} (s : kern) (C : Z -> list Z) (bs : list Z) (N : Z -> Prop) (T : gmap Z nat) (l P : list Z) (path : list Z) (argv : list (list Z)) :
  exec_pre s C bs N T l P path argv -> exists r s', exec path argv s = Ok r s' /\ exec_post s C bs T l P path argv r s'.
Proof.
  intros Pre. apply wp_Ok. pose proof Pre as [Fs (Hcom & Hroom & _) (Hp & HN & Hd) Hfile PS _ _]. set (f1 := with_out (outs (kf s) + 1) (kf s)).
  assert (set_kf (kf s) s = s) as Es by (by destruct s). rewrite <- Es at 2. unfold exec. apply wp_bind, wp_fs, (wp_begin_op _ C bs); [apply Fs|done|done|].
  destruct (fs_ok_with_out (outs (kf s) + 1) _ _ _ _ Fs) as [I Tr T0 Hf]. fold f1 in I, Tr, T0, Hf.
  apply wp_bind, wp_fs. unfold namei. apply wp_bind. eapply wp_mono; [|by apply (wp_namex f1 C bs N Tr T0 Hf false path)].
  intros [r nm] f2 Hfo. apply wp_ret. unfold found in Hfo. change (resolve C (fsb f1) (start_inum f1 path) (path_elems path)) with (path_inode (kf s) C path) in Hfo. cbn [fst] in Hfo.
  destruct (path_inode (kf s) C path) as [n|] eqn:En.
  - destruct Hfo as (ip & -> & Hip & Md & Hc & _). apply wp_bind, wp_fs. apply (wp_ilock f1 C bs f2 (one ip) ip n); [done|done|done| |].
    { rewrite (mid_sb f1 C bs f2 None (one ip) Md). apply (tr_inode _ _ _ Tr). by eapply (tree_resolve f1). }
    intros f3 Md3 [Hr3 _] A3 _. rewrite (mid_sb f1 C bs f2 None (one ip) Md) in A3. by apply (wp_body s C bs N T l P path argv Pre ip n).
  - destruct Hfo as [-> Md]. apply wp_bind. apply (wp_end s C bs N T l P path argv Pre f2 (fk (kf s))); [exact Md|]. intros f3 Md3. apply wp_ret.
    eapply (exec_failed s C bs N T l P path argv Pre); [exact Md3|apply PS|apply kept_refl|]. unfold exec_fails. by rewrite En.
Qed.

(** ** Example: running [/a] with one argument *)

#[local] Program Instance exec_layout : Layout :=
  {| etext := PHYSTOP - 76 * PGSIZE; kend := PHYSTOP - 64 * PGSIZE; trampoline := PHYSTOP - 77 * PGSIZE |}.
Solve Obligations with (vm_compute; congruence).

Definition ex_pages : list Z := (fun i => PHYSTOP - Z.of_nat i * PGSIZE) <$> seq 1 60.

(** A process without user memory, and more than 40 free pages. *)
Lemma ex_process : exists k T l root tf, pspace k T l root tf [] /\ 40 <= lenZ l.
Proof.
  destruct (kinit_frees_all boot mem_ok_empty eq_refl) as (k1 & l & Hki & K1 & Hall).
  assert (60 <= lenZ l) as Hlen.
  { assert (length ex_pages <= length l)%nat as Hle; [|unfold lenZ; change (length ex_pages) with 60%nat in Hle; lia].
    apply submseteq_length, NoDup_submseteq; [apply (bool_decide_unpack _); vm_compute; exact Logic.I|].
    intros p (i & -> & Hi%elem_of_seq)%list_elem_of_fmap. apply Hall. unfold page_ok. split.
    - change PHYSTOP with (557056 * PGSIZE). rewrite <- Z.mul_sub_distr_r. apply Z_mod_mult.
    - change (kend) with (PHYSTOP - 64 * PGSIZE). unfold PHYSTOP, KERNBASE, PGSIZE. lia. }
  assert (vinv k1 ∅ l) as I1.
  { split; [exact K1| |intros p j Hp; rewrite lookup_empty in Hp; discriminate Hp..].
    split; [intros p j Hp|intros p j i Hp|intros p q j j' i i' Hp|intros p j i Hp|intros p j Hp]; rewrite lookup_empty in Hp; discriminate Hp. }
  destruct (kalloc_kept k1 ∅ l I1) as [[-> _]|(tf & l1 & k2 & -> & Hk & Htf & I2 & Otf & _)]; [change (lenZ []) with 0 in Hlen; lia|].
  rewrite lenZ_cons in Hlen. destruct (proc_pagetable_ok k2 ∅ l1 tf I2 Otf) as (root & k3 & T & l3 & Hp & _ & _ & [[_ Hl]|(_ & Hl & _ & PS)]); [lia|].
  exists k3, T, l3, root, tf. split; [exact PS|lia].
Qed.

Lemma ex_contents C : C 32 = ex_iblock -> C 47 = ex_fblock -> contents C (dino C ex_sb 2) = ex_program.
Proof.
  intros H32 H47. destruct (ex_dino C H32) as [_ A]. unfold contents. pose proof A as (_ & _ & _ & -> & _). rewrite (alike_fbytes C _ _ 0 _ A), fbytes_block.
  - change (faddr C ex_file (0 / BSIZE)) with 47. rewrite H47. vm_compute. reflexivity.
  - change (faddr C ex_file (0 / BSIZE)) with 47. rewrite H47. apply bytes_check; vm_compute; reflexivity.
  - vm_compute. split; intros [=].
Qed.

Definition ex_state (f : fsst) : kern := mkKern f (mkFtable initlock ∅) ∅ 2 initlock initlock None 0 initlock.

Lemma ex_exec_pre k T l root tf f C : pspace k T l root tf [] -> fs_ok f C [] (fun n => n = 1 \/ n = 2) ->
  (fsb f = ex_sb /\ fk f = k /\ fp f = mkPtable {[0 := ex_parent root tf]} 0 /\ l_outstanding (lg (fl f)) = 1 /\ l_committing (lg (fl f)) = 0) ->
  C 46 = ex_dirblock -> C 32 = ex_iblock -> C 47 = ex_fblock ->
  exec_pre (ex_state f) C [] (fun n => n = 1 \/ n = 2) T l [] [47; 97] [[97; 0]] /\ path_inode f C [47; 97] = Some 2.
Proof.
  intros PS Fs (Esb & Ek & Ep & Eo & Ec) H46 H32 H47.
  assert (path_inode f C [47; 97] = Some 2) as Hpath.
  { unfold path_inode. change (start_inum f [47; 97]) with 1. change (path_elems [47; 97]) with [[97]]. rewrite Esb. exact (ex_walk C H46 H32). }
  split; [|exact Hpath]. assert (myproc f = ex_parent root tf) as Em by (unfold myproc; rewrite Ep; reflexivity).
  split; cbn [ex_state kf]; rewrite ?Em, ?Ek.
  - exact Fs.
  - split; [exact Ec|]. unfold outs. rewrite Eo. split; [vm_compute; intros [=]|left; reflexivity].
  - split; [repeat constructor; intros [=]|]. split; [left; reflexivity|]. intros Hh. destruct (Hh eq_refl).
  - intros n Hn. rewrite Hpath in Hn. injection Hn as <-. unfold path_file. rewrite Esb, (ex_contents C H32 H47). destruct (ex_dino C H32) as [_ A]. split.
    + eapply alike_file_ok; [exact A|]. split; [reflexivity|vm_compute; split; intros [=]|]. intros bn H0 Hb. change (i_size ex_file) with 124 in Hb.
      assert (bn = 0) as -> by (unfold BSIZE in Hb; lia). vm_compute. intros [=].
    + split; [vm_compute; intros [=]|]. split; [vm_compute; reflexivity|]. intros i Hi. change (ph_count ex_program) with 1%nat in Hi. assert (i = 0%nat) as -> by lia.
      cbv zeta. intros _. vm_compute. intros [=].
  - exact PS.
  - cbn. pose proof TRAPFRAME_eq. split; [lia|reflexivity].
  - split; [|vm_compute; reflexivity]. constructor; [|constructor]. split; [|vm_compute; split; congruence].
    repeat (apply Forall_cons; split; [vm_compute; split; congruence|]). apply Forall_nil. exact Logic.I.
Qed.

(** What the program is: its size, stack pointer and bytes. *)
Definition ex_check (o : option (Z * image)) : bool :=
  match o with
  | Some (entry, im) => (entry =? 0) && (im_size im =? 12288) && (im_sp im =? 12256) && bool_decide (im_mem im 0 = Some (19, 27)) && bool_decide (im_mem im 4096 = None) &&
      bool_decide (im_mem im 12256 = Some (240, 23)) && bool_decide (im_mem im 12272 = Some (97, 23))
  | None => false
  end.
Lemma ex_check_true : ex_check (exec_image ex_program [[97; 0]]) = true.
Proof. vm_compute. reflexivity. Qed.

Lemma ex_enough (free : Z) : 35 <= free -> ~ memory_short ex_program free.
Proof.
  intros Hf [Hs|[(i & Hi & Hs)|(sz & m & Hl & Hs)]]; [lia| |].
  - change (ph_count ex_program) with 1%nat in Hi. assert (i = 0%nat) as -> by lia. change (PGROUNDUP _) with 4096 in Hs. unfold PGSIZE in Hs. lia.
  - assert (sz = 8) as ->; [|change (PGROUNDUP 8) with 4096 in Hs; unfold PGSIZE in Hs; lia].
    assert (fst <$> load_file ex_program = Some 8) as E by (vm_compute; reflexivity). rewrite Hl in E. injection E as ->. reflexivity.
Qed.

Lemma exec_runs_program_witness : exists s s' new,
  exec [47; 97] [[97; 0]] s = Ok 1 s' /\ p_pagetable (myproc (kf s')) = new /\ p_sz (myproc (kf s')) = 12288 /\
  user_byte (fk (kf s')) new 0 = Some 19 /\ user_byte (fk (kf s')) new 4096 = None /\
  user_byte (fk (kf s')) new 12256 = Some 240 /\ user_byte (fk (kf s')) new 12272 = Some 97 /\
  is_Some (user_addr (fk (kf s')) new PTE_X 0) /\ ~ is_Some (user_addr (fk (kf s')) new PTE_W 0) /\ is_Some (user_addr (fk (kf s')) new PTE_W 12256).
Proof.
  destruct ex_process as (k & T & l & root & tf & PS & Hl). destruct (ex_fs k (mkPtable {[0 := ex_parent root tf]} 0)) as (f & C & _ & Fs & E & H46 & H32 & H47 & _).
  pose proof E as (Esb & _ & Ep & _). destruct (ex_exec_pre k T l root tf f C PS Fs E H46 H32 H47) as [Pre Hpath].
  destruct (exec_runs_program (ex_state f) C [] _ T l [] [47; 97] [[97; 0]] Pre) as (r & s' & Hr & _ & _ & T' & l' & Hc). exists (ex_state f), s'.
  cbn [ex_state kf] in Hc. unfold exec_fails in Hc. rewrite Hpath in Hc. unfold path_file in Hc. rewrite Esb, (ex_contents C H32 H47) in Hc. pose proof ex_check_true as Hk.
  destruct Hc as [(_ & _ & _ & _ & _ & [Hno|Hno])|(n & entry & im & new & P' & [= <-] & Hi & -> & Hp & _ & _ & Sw)].
  - rewrite Hno in Hk. discriminate Hk.
  - destruct (ex_enough (lenZ l) ltac:(lia) Hno).
  - rewrite (ex_contents C H32 H47) in Hi. rewrite Hi in Hk. cbn [ex_check] in Hk. rewrite !andb_true_iff, !bool_decide_eq_true, !Z.eqb_eq in Hk.
    destruct Hk as ((((((_ & K1) & _) & K2) & K3) & K4) & K5). exists new. split; [exact Hr|].
    assert (myproc (kf s') = exec_entry [47; 97] new (im_size im) (myproc f)) as ->.
    { unfold myproc at 1. change (fp (kf s')) with (ptab s'). rewrite Hp. apply proc_at_self. }
    split; [reflexivity|]. split; [exact K1|]. pose proof (sw_mem _ _ _ _ _ _ _ _ _ _ _ _ _ _ Sw) as M.
    destruct (M 0) as [B1 A1], (M 4096) as [B2 _], (M 12256) as [B3 A3], (M 12272) as [B4 _]. rewrite B1, B2, B3, B4, K2, K3, K4, K5. do 4 (split; [reflexivity|]).
    split; [|split].
    + apply A1; [vm_compute; split; congruence|]. exists 19, 27. split; [exact K2|right; vm_compute; reflexivity].
    + intros [x Hx]. destruct (proj1 (A1 PTE_W ltac:(vm_compute; split; congruence)) (mk_is_Some _ _ Hx)) as (b & q & Eq & Hf). rewrite K2 in Eq. injection Eq as <- <-.
      destruct Hf as [Hf|Hf]; [discriminate Hf|]. vm_compute in Hf. discriminate Hf.
    + apply A3; [vm_compute; split; congruence|]. exists 240, 23. split; [exact K4|right; vm_compute; reflexivity].
Defined.
