(* ===== verification/SysFile.v ===== *)
(** * File system calls: [kernel/sysfile.c] *)

From stdpp Require Import base list gmap strings.
From S2P Require Import Prelude Riscv Mem Spinlock Kalloc Vm Sleeplock ProcData Bytes Bio Log Fs Pipe File Proc Exec.


Definition begin_ : M kern unit := fs (zf begin_op).
Definition end_ : M kern unit := fs (zf end_op).

Section sysfile.
Context `{Layout} `{Devsw}.

(** The descriptor and the file, or [None] for -1. *)
Definition argfd (n : Z) : M kern (option (Z * Z)) :=
  do fd <- argint n;
  do p <- kmyproc;
  if (fd <? 0) || (fd >=? NOFILE) then return None
  else match p_ofile p !! Z.to_nat fd with
       | Some (Some f) => return (Some (fd, f))
       | _ => return None
       end.

Fixpoint fdalloc_loop (fuel : nat) (fd : Z) (ofile : list (option Z)) : option Z :=
  match fuel with
  | O => None
  | S k => match ofile !! Z.to_nat fd with
           | Some (Some _) => fdalloc_loop k (fd + 1) ofile
           | _ => Some fd
           end
  end.
Definition fdalloc (f : Z) : M kern Z :=
  do p <- kmyproc;
  do me <- gets (fun s => cur (fp (kf s)));
  match fdalloc_loop (Z.to_nat NOFILE) 0 (p_ofile p) with
  | Some fd => pt (upd_p me (set_ofile fd (Some f))) ;;; return fd
  | None => return (-1)
  end.
Definition clear_fd (fd : Z) : M kern unit :=
  do me <- gets (fun s => cur (fp (kf s))); pt (upd_p me (set_ofile fd None)).

Definition sys_dup : M kern Z :=
  do r <- argfd 0;
  match r with
  | None => return (-1)
  | Some (_, f) =>
      do fd <- fdalloc f;
      if fd <? 0 then return (-1) else filedup f ;;; return fd
  end.

Definition sys_read : M kern Z :=
  do p <- argaddr 1;
  do n <- argint 2;
  do r <- argfd 0;
  match r with None => return (-1) | Some (_, f) => fileread f p n end.

Definition sys_write : M kern Z :=
  do p <- argaddr 1;
  do n <- argint 2;
  do r <- argfd 0;
  match r with None => return (-1) | Some (_, f) => filewrite f p n end.

Definition sys_close : M kern Z :=
  do r <- argfd 0;
  match r with
  | None => return (-1)
  | Some (fd, f) => clear_fd fd ;;; fileclose f ;;; return 0
  end.

Definition sys_fstat : M kern Z :=
  do st <- argaddr 1;
  do r <- argfd 0;
  match r with None => return (-1) | Some (_, f) => filestat f st end.

Definition add_nlink (ip d : Z) : M fsst unit := upd_inode ip (fun x => set_inlink (s16 (i_nlink x + d)) x).
(** An array that is not read before it is written. *)
Definition name_buf : list Z := replicate (Z.to_nat DIRSIZ) 0.

(** [bad:] of [sys_link] *)
Definition link_bad (ip : Z) : M kern Z :=
  fs (ilock ip) ;;;
  fs (add_nlink ip (-1)) ;;;
  fs (iupdate ip) ;;;
  fs (iunlockput ip) ;;;
  end_ ;;;
  return (-1).

Definition sys_link : M kern Z :=
  do '(r, old) <- argstr 0 MAXPATH;
  if r <? 0 then return (-1)
  else
    do '(r, new) <- argstr 1 MAXPATH;
    if r <? 0 then return (-1)
    else
      begin_ ;;;
      do ip <- fs (namei old);
      match ip with
      | None => end_ ;;; return (-1)
      | Some ip =>
          fs (ilock ip) ;;;
          do x <- fs (get_inode ip);
          if i_type x =? T_DIR then fs (iunlockput ip) ;;; end_ ;;; return (-1)
          else
            fs (add_nlink ip 1) ;;;
            fs (iupdate ip) ;;;
            fs (iunlock ip) ;;;
            do '(dp, name) <- fs (nameiparent new name_buf);
            match dp with
            | None => link_bad ip
            | Some dp =>
                fs (ilock dp) ;;;
                do xd <- fs (get_inode dp);
                do x <- fs (get_inode ip);
                do r <- (if negb (i_dev xd =? i_dev x) then return (-1) else fs (dirlink dp name (i_inum x)));
                if r <? 0 then fs (iunlockput dp) ;;; link_bad ip
                else
                  fs (iunlockput dp) ;;;
                  fs (iput ip) ;;;
                  end_ ;;;
                  return 0
            end
      end.

Fixpoint isdirempty_loop (fuel : nat) (dp off : Z) : M fsst bool :=
  do x <- get_inode dp;
  if off <? i_size x then
    match fuel with
    | O => fun _ => Diverge
    | S f =>
        do '(r, de) <- readi dp ToVar off sizeof_dirent;
        if negb (r =? sizeof_dirent) then panic "isdirempty: readi"
        else if negb (de_inum de =? 0) then return false
        else isdirempty_loop f dp (off + sizeof_dirent)
    end
  else return true.
Definition isdirempty (dp : Z) : M fsst bool :=
  do x <- get_inode dp; isdirempty_loop (Z.to_nat (i_size x / sizeof_dirent)) dp (2 * sizeof_dirent).

(** [bad:] of [sys_unlink] *)
Definition unlink_bad (dp : Z) : M kern Z := fs (iunlockput dp) ;;; end_ ;;; return (-1).

Definition DOT : list Z := [46; 0].
Definition DOTDOT : list Z := [46; 46; 0].

Definition sys_unlink : M kern Z :=
  do '(r, path) <- argstr 0 MAXPATH;
  if r <? 0 then return (-1)
  else
    begin_ ;;;
    do '(dp, name) <- fs (nameiparent path name_buf);
    match dp with
    | None => end_ ;;; return (-1)
    | Some dp =>
        fs (ilock dp) ;;;
        if (namecmp name DOT =? 0) || (namecmp name DOTDOT =? 0) then unlink_bad dp
        else
          do r <- fs (dirlookup dp name);
          match r with
          | None => unlink_bad dp
          | Some (ip, off) =>
              fs (ilock ip) ;;;
              do x <- fs (get_inode ip);
              if i_nlink x <? 1 then panic "unlink: nlink < 1"
              else
                do busy <- (if i_type x =? T_DIR then (do e <- fs (isdirempty ip); return (negb e)) else return false);
                if (busy : bool) then fs (iunlockput ip) ;;; unlink_bad dp
                else
                  do r <- fs (writei dp (FromVar (replicate 16 0)) off sizeof_dirent);
                  if negb (r =? sizeof_dirent) then panic "unlink: writei"
                  else
                    do x <- fs (get_inode ip);
                    (if i_type x =? T_DIR then fs (add_nlink dp (-1)) ;;; fs (iupdate dp) else return tt) ;;;
                    fs (iunlockput dp) ;;;
                    fs (add_nlink ip (-1)) ;;;
                    fs (iupdate ip) ;;;
                    fs (iunlockput ip) ;;;
                    end_ ;;;
                    return 0
          end
    end.

(** [fail:] of [create] *)
Definition create_fail (dp ip : Z) : M fsst (option Z) :=
  upd_inode ip (set_inlink 0) ;;;
  iupdate ip ;;;
  iunlockput ip ;;;
  iunlockput dp ;;;
  return None.

Definition create (path : list Z) (type major minor : Z) : M fsst (option Z) :=
  do '(dp, name) <- nameiparent path name_buf;
  match dp with
  | None => return None
  | Some dp =>
      ilock dp ;;;
      do r <- dirlookup dp name;
      match r with
      | Some (ip, _) =>
          iunlockput dp ;;;
          ilock ip ;;;
          do x <- get_inode ip;
          if (type =? T_FILE) && ((i_type x =? T_FILE) || (i_type x =? T_DEVICE)) then return (Some ip)
          else iunlockput ip ;;; return None
      | None =>
          do xd <- get_inode dp;
          do r <- ialloc (i_dev xd) type;
          match r with
          | None => iunlockput dp ;;; return None
          | Some ip =>
              ilock ip ;;;
              upd_inode ip (set_imajmin (s16 major) (s16 minor)) ;;;
              upd_inode ip (set_inlink 1) ;;;
              iupdate ip ;;;
              do x <- get_inode ip;
              do bad <- (if type =? T_DIR then
                           do r <- dirlink ip DOT (i_inum x);
                           if r <? 0 then return true
                           else (do r <- dirlink ip DOTDOT (i_inum xd); return (r <? 0))
                         else return false);
              if (bad : bool) then create_fail dp ip
              else
                do r <- dirlink dp name (i_inum x);
                if r <? 0 then create_fail dp ip
                else
                  (if type =? T_DIR then add_nlink dp 1 ;;; iupdate dp else return tt) ;;;
                  iunlockput dp ;;;
                  return (Some ip)
          end
      end
  end.

(** [sys_open] up to the inode, locked; [None] for -1 with the operation ended. *)
Definition open_inode (path : list Z) (omode : Z) : M kern (option Z) :=
  if negb (Z.land omode O_CREATE =? 0) then
    do ip <- fs (create path T_FILE 0 0);
    match ip with None => end_ ;;; return None | Some ip => return (Some ip) end
  else
    do ip <- fs (namei path);
    match ip with
    | None => end_ ;;; return None
    | Some ip =>
        fs (ilock ip) ;;;
        do x <- fs (get_inode ip);
        if (i_type x =? T_DIR) && negb (omode =? O_RDONLY) then fs (iunlockput ip) ;;; end_ ;;; return None
        else return (Some ip)
    end.

Definition sys_open : M kern Z :=
  do omode <- argint 1;
  do '(n, path) <- argstr 0 MAXPATH;
  if n <? 0 then return (-1)
  else
    begin_ ;;;
    do ip <- open_inode path omode;
    match ip with
    | None => return (-1)
    | Some ip =>
        do x <- fs (get_inode ip);
        if (i_type x =? T_DEVICE) && ((i_major x <? 0) || (i_major x >=? NDEV)) then
          fs (iunlockput ip) ;;; end_ ;;; return (-1)
        else
          do f <- filealloc;
          match f with
          | None => fs (iunlockput ip) ;;; end_ ;;; return (-1)
          | Some f =>
              do fd <- fdalloc f;
              if fd <? 0 then fileclose f ;;; fs (iunlockput ip) ;;; end_ ;;; return (-1)
              else
                (if i_type x =? T_DEVICE then upd_file f (fun y => set_fmajor (i_major x) (set_ftype FD_DEVICE y))
                 else upd_file f (fun y => set_foff 0 (set_ftype FD_INODE y))) ;;;
                upd_file f (set_fip ip) ;;;
                upd_file f (set_frw (if Z.land omode O_WRONLY =? 0 then 1 else 0)
                              (if negb (Z.land omode O_WRONLY =? 0) || negb (Z.land omode O_RDWR =? 0) then 1 else 0)) ;;;
                (if negb (Z.land omode O_TRUNC =? 0) && (i_type x =? T_FILE) then fs (itrunc ip) else return tt) ;;;
                fs (iunlock ip) ;;;
                end_ ;;;
                return fd
          end
    end.

Definition sys_mkdir : M kern Z :=
  begin_ ;;;
  do '(r, path) <- argstr 0 MAXPATH;
  do ip <- (if r <? 0 then return None else fs (create path T_DIR 0 0));
  match ip with
  | None => end_ ;;; return (-1)
  | Some ip => fs (iunlockput ip) ;;; end_ ;;; return 0
  end.

Definition sys_mknod : M kern Z :=
  begin_ ;;;
  do major <- argint 1;
  do minor <- argint 2;
  do '(r, path) <- argstr 0 MAXPATH;
  do ip <- (if r <? 0 then return None else fs (create path T_DEVICE major minor));
  match ip with
  | None => end_ ;;; return (-1)
  | Some ip => fs (iunlockput ip) ;;; end_ ;;; return 0
  end.

Definition sys_chdir : M kern Z :=
  do me <- gets (fun s => cur (fp (kf s)));
  begin_ ;;;
  do '(r, path) <- argstr 0 MAXPATH;
  do ip <- (if r <? 0 then return None else fs (namei path));
  match ip with
  | None => end_ ;;; return (-1)
  | Some ip =>
      fs (ilock ip) ;;;
      do x <- fs (get_inode ip);
      if negb (i_type x =? T_DIR) then fs (iunlockput ip) ;;; end_ ;;; return (-1)
      else
        fs (iunlock ip) ;;;
        do p <- kmyproc;
        fs (iput (default 0 (p_cwd p))) ;;;
        end_ ;;;
        pt (upd_p me (set_cwd (Some ip))) ;;;
        return 0
  end.

(** Free the pages of [argv]. *)
Fixpoint free_argv (pages : list Z) : M kern unit :=
  match pages with
  | [] => return tt
  | pa :: r => km_ (kfree pa) ;;; free_argv r
  end.

(** The loop of [sys_exec]: the pages allocated so far with the strings in them,
    and whether the null pointer was reached. *)
Fixpoint exec_args (fuel : nat) (uargv i : Z) (pages : list Z) (args : list (list Z)) : M kern (bool * list Z * list (list Z)) :=
  match fuel with
  | O => return (false, pages, args)
  | S f =>
      do uarg <- fetchaddr (u64 (uargv + 8 * i));
      match uarg with
      | None => return (false, pages, args)
      | Some uarg =>
          if uarg =? 0 then return (true, pages, args)
          else
            do pa <- km_ kalloc;
            if pa =? 0 then return (false, pages, args)
            else
              do '(r, str) <- fetchstr uarg PGSIZE;
              km_ (mem_write pa str) ;;;
              if r <? 0 then return (false, pages ++ [pa], args)
              else exec_args f uargv (i + 1) (pages ++ [pa]) (args ++ [str])
      end
  end.

Definition sys_exec : M kern Z :=
  do uargv <- argaddr 1;
  do '(r, path) <- argstr 0 MAXPATH;
  if r <? 0 then return (-1)
  else
    do '(ok, pages, argv) <- exec_args (Z.to_nat MAXARG) uargv 0 [] [];
    if (ok : bool) then
      do ret <- exec path argv;
      free_argv pages ;;;
      return ret
    else free_argv pages ;;; return (-1).

Definition sys_pipe : M kern Z :=
  do fdarray <- argaddr 0;
  do r <- pipealloc;
  match r with
  | None => return (-1)
  | Some (rf, wf) =>
      do fd0 <- fdalloc rf;
      do fd1 <- (if fd0 <? 0 then return (-1) else fdalloc wf);
      if (fd0 <? 0) || (fd1 <? 0) then
        (if fd0 >=? 0 then clear_fd fd0 else return tt) ;;;
        fileclose rf ;;; fileclose wf ;;; return (-1)
      else
        do p <- kmyproc;
        do r <- km_ (copyout (p_pagetable p) fdarray (le_bytes 4 fd0));
        do r <- (if r <? 0 then return r else km_ (copyout (p_pagetable p) (u64 (fdarray + 4)) (le_bytes 4 fd1)));
        if r <? 0 then
          clear_fd fd0 ;;; clear_fd fd1 ;;; fileclose rf ;;; fileclose wf ;;; return (-1)
        else return 0
  end.
End sysfile.
