(* ===== verification/SysProc.v ===== *)
(** * Process system calls and the dispatcher: [kernel/sysproc.c], [kernel/syscall.c] *)

From stdpp Require Import base list gmap strings.
From S2P Require Import Prelude Riscv Mem Spinlock Kalloc Vm Sleeplock ProcData Bytes Bio Log Fs Pipe File Proc Exec SysFile.

Definition ticks_spin : M spinlock unit -> M kern unit :=
  zoom k_tickslock (fun lk s => mkKern (kf s) (kft s) (kpipes s) (k_nextpid s) (k_pid_lock s) (k_wait_lock s) (k_initproc s) (k_ticks s) lk).
Definition set_ticks (v : Z) (s : kern) : kern :=
  mkKern (kf s) (kft s) (kpipes s) (k_nextpid s) (k_pid_lock s) (k_wait_lock s) (k_initproc s) v (k_tickslock s).

Section sysproc.
Context `{Layout} `{Devsw} `{Forkret}.

(** [exit] does not return: the result is not used. *)
Definition sys_exit : M kern Z := do n <- argint 0; exit n ;;; return 0.
Definition sys_getpid : M kern Z := do p <- kmyproc; return (p_pid p).
Definition sys_fork : M kern Z := fork.
Definition sys_wait : M kern Z := do p <- argaddr 0; wait p.

Definition sys_sbrk : M kern Z :=
  do n <- argint 0;
  do p <- kmyproc;
  let addr := p_sz p in
  do r <- growproc n;
  if r <? 0 then return (-1) else return addr.

(** The test of the loop of [sys_sleep]: [ticks - ticks0 < n] on [uint]s. *)
Definition sleep_more (ticks ticks0 n : Z) : bool := u32 (ticks - ticks0) <? n.
Definition sys_sleep : M kern Z :=
  do n <- argint 0;
  let n := if n <? 0 then 0 else n in
  ticks_spin lk_acquire ;;;
  do ticks0 <- gets k_ticks;
  do t <- gets k_ticks;
  if sleep_more t ticks0 n then
    do kl <- i_am_killed;
    if (kl : bool) then ticks_spin lk_release ;;; return (-1) else sleeps "ticks"
  else ticks_spin lk_release ;;; return 0.

Definition sys_kill : M kern Z := do pid <- argint 0; pt (kill pid).

Definition sys_uptime : M kern Z :=
  ticks_spin lk_acquire ;;;
  do xticks <- gets k_ticks;
  ticks_spin lk_release ;;;
  return xticks.

(** ** syscall.c *)

(** The array [syscalls], by the numbers of syscall.h. *)
Definition syscalls (num : Z) : option (M kern Z) :=
  match num with
  | 1 => Some sys_fork | 2 => Some sys_exit | 3 => Some sys_wait | 4 => Some sys_pipe
  | 5 => Some sys_read | 6 => Some sys_kill | 7 => Some sys_exec | 8 => Some sys_fstat
  | 9 => Some sys_chdir | 10 => Some sys_dup | 11 => Some sys_getpid | 12 => Some sys_sbrk
  | 13 => Some sys_sleep | 14 => Some sys_uptime | 15 => Some sys_open | 16 => Some sys_write
  | 17 => Some sys_mknod | 18 => Some sys_unlink | 19 => Some sys_link | 20 => Some sys_mkdir
  | 21 => Some sys_close
  | _ => None
  end.

Definition syscall : M kern unit :=
  do p <- kmyproc;
  do a7 <- tf_load (p_trapframe p) (TF_a 7);
  let num := s32 a7 in
  match (if (num >? 0) && (num <? 22) then syscalls num else None) with
  | Some call =>
      do r <- call;
      tf_store (p_trapframe p) (TF_a 0) (u64 r)
  | None => tf_store (p_trapframe p) (TF_a 0) (u64 (-1))
  end.
End sysproc.
