(* ===== verification/Csr.v ===== *)
(** * Control registers of a hart: the accessors of [kernel/riscv.h]

    A hart has its control and status registers, the registers [tp], [sp] and
    [ra] that C code reads, a privilege mode and a program counter.  [sstatus] and
    [sie] are the views of [mstatus] and [mie] that the architecture gives to
    supervisor mode. *)

From stdpp Require Import base list gmap strings.
From S2P Require Import Prelude Riscv.

Inductive csr := mhartid | mstatus | mepc | sip | mie | sepc | medeleg | mideleg | stvec | stimecmp | menvcfg
| pmpcfg0 | pmpaddr0 | satp | scause | stval | mcounteren | time | tp | sp | ra.
#[export] Instance csr_eq_dec : EqDecision csr.
Proof. solve_decision. Defined.

Inductive mode := User | Supervisor | Machine.
#[export] Instance mode_eq_dec : EqDecision mode.
Proof. solve_decision. Defined.

Record hart := mkHart { regs : csr -> Z; hmode : mode; hpc : Z; tlb_flushes : nat }.

Definition rd (r : csr) : M hart Z := gets (fun h => regs h r).
Definition wr (r : csr) (v : Z) : M hart unit :=
  modify (fun h => mkHart (fun q => if decide (q = r) then v else regs h q) (hmode h) (hpc h) (tlb_flushes h)).

(** Bits. *)
Definition MSTATUS_MPP_MASK : Z := Z.shiftl 3 11.
Definition MSTATUS_MPP_S : Z := Z.shiftl 1 11.
Definition SSTATUS_SPP : Z := Z.shiftl 1 8.
Definition SSTATUS_SPIE : Z := Z.shiftl 1 5.
Definition SSTATUS_SIE : Z := Z.shiftl 1 1.
Definition SIE_SEIE : Z := Z.shiftl 1 9.
Definition SIE_STIE : Z := Z.shiftl 1 5.
Definition SIE_SSIE : Z := Z.shiftl 1 1.
Definition MIE_STIE : Z := Z.shiftl 1 5.

(** The fields of [mstatus] that are visible in [sstatus]: SIE, SPIE, UBE, SPP,
    VS, FS, XS, SUM, MXR, UXL and SD. *)
Definition sstatus_mask : Z := 0x80000003000DE762.

Definition r_mhartid : M hart Z := rd mhartid.
Definition r_mstatus : M hart Z := rd mstatus.
Definition w_mstatus : Z -> M hart unit := wr mstatus.
Definition w_mepc : Z -> M hart unit := wr mepc.
Definition r_sstatus : M hart Z := do x <- rd mstatus; return (Z.land x sstatus_mask).
Definition w_sstatus (v : Z) : M hart unit :=
  do x <- rd mstatus; wr mstatus (Z.lor (Z.land x (Z.lnot sstatus_mask)) (Z.land v sstatus_mask)).
Definition r_sip : M hart Z := rd sip.
Definition w_sip : Z -> M hart unit := wr sip.
Definition r_sie : M hart Z := do x <- rd mie; do d <- rd mideleg; return (Z.land x d).
Definition w_sie (v : Z) : M hart unit :=
  do x <- rd mie; do d <- rd mideleg; wr mie (Z.lor (Z.land x (Z.lnot d)) (Z.land v d)).
Definition r_mie : M hart Z := rd mie.
Definition w_mie : Z -> M hart unit := wr mie.
Definition w_sepc : Z -> M hart unit := wr sepc.
Definition r_sepc : M hart Z := rd sepc.
Definition r_medeleg : M hart Z := rd medeleg.
Definition w_medeleg : Z -> M hart unit := wr medeleg.
Definition r_mideleg : M hart Z := rd mideleg.
Definition w_mideleg : Z -> M hart unit := wr mideleg.
Definition w_stvec : Z -> M hart unit := wr stvec.
Definition r_stvec : M hart Z := rd stvec.
Definition r_stimecmp : M hart Z := rd stimecmp.
Definition w_stimecmp : Z -> M hart unit := wr stimecmp.
Definition r_menvcfg : M hart Z := rd menvcfg.
Definition w_menvcfg : Z -> M hart unit := wr menvcfg.
Definition w_pmpcfg0 : Z -> M hart unit := wr pmpcfg0.
Definition w_pmpaddr0 : Z -> M hart unit := wr pmpaddr0.
Definition w_satp : Z -> M hart unit := wr satp.
Definition r_satp : M hart Z := rd satp.
Definition r_scause : M hart Z := rd scause.
Definition r_stval : M hart Z := rd stval.
Definition w_mcounteren : Z -> M hart unit := wr mcounteren.
Definition r_mcounteren : M hart Z := rd mcounteren.
Definition r_time : M hart Z := rd time.
Definition r_sp : M hart Z := rd sp.
Definition r_tp : M hart Z := rd tp.
Definition w_tp : Z -> M hart unit := wr tp.
Definition r_ra : M hart Z := rd ra.
Definition sfence_vma : M hart unit :=
  modify (fun h => mkHart (regs h) (hmode h) (hpc h) (S (tlb_flushes h))).

Definition h_intr_on : M hart unit := do x <- r_sstatus; w_sstatus (Z.lor x SSTATUS_SIE).
Definition h_intr_off : M hart unit := do x <- r_sstatus; w_sstatus (Z.land x (Z.lnot SSTATUS_SIE)).
Definition h_intr_get : M hart bool := do x <- r_sstatus; return (negb (Z.land x SSTATUS_SIE =? 0)).

(** [kvminithart] of vm.c *)
Definition kvminithart (kernel_pagetable : Z) : M hart unit :=
  sfence_vma ;;;
  w_satp (MAKE_SATP kernel_pagetable) ;;;
  sfence_vma.

(** ** What the hardware does on [mret], [sret] and a trap to supervisor mode *)

Definition mode_of (bits : Z) : mode := if bits =? 0 then User else if bits =? 1 then Supervisor else Machine.
(** [mret]: to the mode in MPP, MIE becomes MPIE, MPIE becomes 1 and MPP user. *)
Definition mret : M hart unit :=
  modify (fun h =>
    let st := regs h mstatus in
    let st' := Z.lor (Z.land st (Z.lnot (Z.lor MSTATUS_MPP_MASK (Z.lor (Z.shiftl 1 3) (Z.shiftl 1 7)))))
                 (Z.lor (Z.shiftl 1 7) (if Z.testbit st 7 then Z.shiftl 1 3 else 0)) in
    mkHart (fun q => if decide (q = mstatus) then st' else regs h q)
      (mode_of (Z.land (Z.shiftr st 11) 3)) (regs h mepc) (tlb_flushes h)).
(** [sret]: to the mode in SPP, SIE becomes SPIE, SPIE becomes 1 and SPP user. *)
Definition sret : M hart unit :=
  modify (fun h =>
    let st := regs h mstatus in
    let st' := Z.lor (Z.land st (Z.lnot (Z.lor (Z.lor SSTATUS_SPP SSTATUS_SIE) SSTATUS_SPIE)))
                 (Z.lor SSTATUS_SPIE (if Z.testbit st 5 then SSTATUS_SIE else 0)) in
    mkHart (fun q => if decide (q = mstatus) then st' else regs h q)
      (if Z.testbit st 8 then Supervisor else User) (regs h sepc) (tlb_flushes h)).
(** A trap taken from user or supervisor mode. *)
Definition trap (cause tval : Z) : M hart unit :=
  modify (fun h =>
    let st := regs h mstatus in
    let st' := Z.lor (Z.land st (Z.lnot (Z.lor (Z.lor SSTATUS_SPP SSTATUS_SIE) SSTATUS_SPIE)))
                 (Z.lor (if decide (hmode h = User) then 0 else SSTATUS_SPP) (if Z.testbit st 1 then SSTATUS_SPIE else 0)) in
    mkHart (fun q => if decide (q = mstatus) then st' else if decide (q = sepc) then hpc h
                     else if decide (q = scause) then cause else if decide (q = stval) then tval else regs h q)
      Supervisor (regs h stvec) (tlb_flushes h)).
