(* ===== verification/Trap.v ===== *)
(** * Traps and start-up: [kernel/trap.c], [kernel/plic.c], [kernel/start.c]

    A hart with its control registers, the kernel state, and the 32-bit registers
    of the interrupt controller.  The theorems are about the way from machine
    mode to the kernel, and from the kernel to user space and back. *)

From stdpp Require Import base list gmap strings.
From S2P Require Import Prelude Riscv Mem Spinlock Kalloc Vm Sleeplock ProcData Bytes Bio Log Fs Pipe File Proc Exec SysFile SysProc Csr.

(** Addresses the linker gives to functions. *)
Class Vectors := { main_addr : Z; kernelvec : Z; uservec : Z; userret : Z; usertrap_addr : Z }.

Record tst := mkTst { tk : kern; th : hart; tmmio : gmap Z Z }.
Definition hw {A} : M hart A -> M tst A := zoom th (fun h s => mkTst (tk s) h (tmmio s)).
Definition kn {A} : M kern A -> M tst A := zoom tk (fun k s => mkTst k (th s) (tmmio s)).
Definition mmio_read (a : Z) : M tst Z := gets (fun s => default 0 (tmmio s !! a)).
Definition mmio_write (a v : Z) : M tst unit := modify (fun s => mkTst (tk s) (th s) (<[a := u32 v]> (tmmio s))).

(** [cpuid()] *)
Definition cpuid : M tst Z := do id <- hw r_tp; return (s32 id).

(** ** plic.c *)
Definition plicinit : M tst unit :=
  mmio_write (PLIC + UART0_IRQ * 4) 1 ;;; mmio_write (PLIC + VIRTIO0_IRQ * 4) 1.
Definition plicinithart : M tst unit :=
  do hart <- cpuid;
  mmio_write (PLIC_SENABLE hart) (Z.lor (Z.shiftl 1 UART0_IRQ) (Z.shiftl 1 VIRTIO0_IRQ)) ;;;
  mmio_write (PLIC_SPRIORITY hart) 0.
Definition plic_claim : M tst Z := do hart <- cpuid; do irq <- mmio_read (PLIC_SCLAIM hart); return (s32 irq).
Definition plic_complete (irq : Z) : M tst unit := do hart <- cpuid; mmio_write (PLIC_SCLAIM hart) irq.

(** The interrupt handlers of the two devices. *)
Class Handlers := { uartintr_handler : M tst unit; virtio_handler : M tst unit }.

(** ** start.c *)
Definition timerinit : M hart unit :=
  (do x <- r_mie; w_mie (Z.lor x MIE_STIE)) ;;;
  (do x <- r_menvcfg; w_menvcfg (Z.lor x (Z.shiftl 1 63))) ;;;
  (do x <- r_mcounteren; w_mcounteren (Z.lor x 2)) ;;;
  (do x <- r_time; w_stimecmp (u64 (x + 1000000))).

Section trap.
Context `{Layout} `{Devsw} `{Forkret} `{Vectors} `{Handlers}.

Definition start : M hart unit :=
  do x <- r_mstatus;
  let x := Z.land x (Z.lnot MSTATUS_MPP_MASK) in
  let x := Z.lor x MSTATUS_MPP_S in
  w_mstatus x ;;;
  w_mepc main_addr ;;;
  w_satp 0 ;;;
  w_medeleg 0xffff ;;;
  w_mideleg 0xffff ;;;
  (do x <- r_sie; w_sie (Z.lor (Z.lor (Z.lor x SIE_SEIE) SIE_STIE) SIE_SSIE)) ;;;
  w_pmpaddr0 0x3fffffffffffff ;;;
  w_pmpcfg0 0xf ;;;
  timerinit ;;;
  do id <- r_mhartid;
  w_tp (s32 id) ;;;
  mret.

(** ** trap.c *)
Definition trapinit : M kern unit := ticks_spin (fun _ => Ok tt initlock).
Definition trapinithart : M hart unit := w_stvec kernelvec.

Definition clockintr : M tst unit :=
  do id <- cpuid;
  (if id =? 0 then
     kn (ticks_spin lk_acquire) ;;;
     kn (modify (fun s => set_ticks (u32 (k_ticks s + 1)) s)) ;;;
     kn (pt (wakeup ChanTicks)) ;;;
     kn (ticks_spin lk_release)
   else return tt) ;;;
  hw (do x <- r_time; w_stimecmp (u64 (x + 1000000))).

Definition devintr : M tst Z :=
  do cause <- hw r_scause;
  if cause =? 0x8000000000000009 then
    do irq <- plic_claim;
    (if irq =? UART0_IRQ then uartintr_handler
     else if irq =? VIRTIO0_IRQ then virtio_handler
     else return tt) ;;;
    (if negb (irq =? 0) then plic_complete irq else return tt) ;;;
    return 1
  else if cause =? 0x8000000000000005 then clockintr ;;; return 2
  else return 0.

(** [yield], with the scheduler choosing this process again. *)
Definition yield : M kern unit :=
  pt yield_enter ;;;
  pt (do me <- gets cur; upd_p me (set_state RUNNING) ;;; p_spin me lk_release).

Definition usertrapret : M tst unit :=
  do p <- kn kmyproc;
  hw h_intr_off ;;;
  hw (w_stvec (TRAMPOLINE + (uservec - trampoline))) ;;;
  do ksatp <- hw r_satp;
  kn (tf_store (p_trapframe p) TF_kernel_satp ksatp) ;;;
  kn (tf_store (p_trapframe p) TF_kernel_sp (p_kstack p + PGSIZE)) ;;;
  kn (tf_store (p_trapframe p) TF_kernel_trap usertrap_addr) ;;;
  do id <- hw r_tp;
  kn (tf_store (p_trapframe p) TF_kernel_hartid id) ;;;
  do x <- hw r_sstatus;
  hw (w_sstatus (Z.lor (Z.land x (Z.lnot SSTATUS_SPP)) SSTATUS_SPIE)) ;;;
  do epc <- kn (tf_load (p_trapframe p) TF_epc);
  hw (w_sepc epc).

(** The code of [userret] in trampoline.S that matters here: it installs the user
    page table and executes [sret]. *)
Definition enter_user : M tst unit :=
  do p <- kn kmyproc;
  hw sfence_vma ;;;
  hw (w_satp (MAKE_SATP (p_pagetable p))) ;;;
  hw sfence_vma ;;;
  hw sret.

(** [forkret]; [first] is its static variable, whose value after is the result. *)
Definition forkret (first : bool) : M tst bool :=
  kn (pt (do me <- gets cur; p_spin me lk_release)) ;;;
  (if first then kn (fs (fsinit ROOTDEV)) else return tt) ;;;
  usertrapret ;;;
  return false.

(** [usertrap]; false if the process exited instead of returning to user space. *)
Definition usertrap : M tst bool :=
  do st <- hw r_sstatus;
  if negb (Z.land st SSTATUS_SPP =? 0) then panic "usertrap: not from user mode"
  else
    hw (w_stvec kernelvec) ;;;
    do p <- kn kmyproc;
    do me <- kn (gets (fun s => cur (fp (kf s))));
    do pc <- hw r_sepc;
    kn (tf_store (p_trapframe p) TF_epc pc) ;;;
    do cause <- hw r_scause;
    do r <- (if cause =? 8 then
               do kl <- kn i_am_killed;
               if (kl : bool) then kn (exit (-1)) ;;; return None
               else
                 do epc <- kn (tf_load (p_trapframe p) TF_epc);
                 kn (tf_store (p_trapframe p) TF_epc (u64 (epc + 4))) ;;;
                 hw h_intr_on ;;;
                 kn syscall ;;;
                 return (Some 0)
             else
               do which_dev <- devintr;
               (if which_dev =? 0 then kn (pt (setkilled me)) else return tt) ;;;
               return (Some which_dev));
    match r with
    | None => return false
    | Some which_dev =>
        do kl <- kn i_am_killed;
        if (kl : bool) then kn (exit (-1)) ;;; return false
        else
          (if which_dev =? 2 then kn yield else return tt) ;;;
          usertrapret ;;;
          return true
    end.

(** [running] tells whether [myproc()] is not null. *)
Definition kerneltrap (running : bool) : M tst unit :=
  do pc <- hw r_sepc;
  do st <- hw r_sstatus;
  if Z.land st SSTATUS_SPP =? 0 then panic "kerneltrap: not from supervisor mode"
  else
    do on <- hw h_intr_get;
    if (on : bool) then panic "kerneltrap: interrupts enabled"
    else
      do which_dev <- devintr;
      if which_dev =? 0 then panic "kerneltrap"
      else
        (if (which_dev =? 2) && running then kn yield else return tt) ;;;
        hw (w_sepc pc) ;;;
        hw (w_sstatus st).
End trap.

(** ** Bits of the status register *)

Definition bit (r : Z) (k : Z) : bool := Z.testbit r k.
(** SPP, SPIE and SIE. *)
Definition SPP : Z := 8.
Definition SPIE : Z := 5.
Definition SIE : Z := 1.

(** Decide the bits of an expression made of masks. *)
(** Look up a register after an assignment. *)
Ltac look := repeat first [rewrite decide_True by done | rewrite decide_False by done].
Ltac mask_bits := rewrite ?Z.lor_spec, ?Z.land_spec, ?Z.lnot_spec, ?Z.lor_spec by done; cbn [negb andb orb Z.testbit];
  rewrite ?andb_true_r, ?andb_false_r, ?orb_false_r, ?orb_true_r.


(** ** Running the trap code *)

Definition tregs (s : tst) (r : csr) : Z := regs (th s) r.
Definition tmem (s : tst) : memory := mem (fk (kf (tk s))).
Definition tproc (s : tst) : proc := myproc (kf (tk s)).

Section rules.
Implicit Types (s : tst).

Lemma wp_rd r (Q : Z -> tst -> Prop) s : Q (tregs s r) s -> wp (hw (rd r)) Q s.
Proof. intros HQ. apply wp_zoom, wp_gets. by destruct s. Qed.
Lemma wp_wr r v (Q : unit -> tst -> Prop) s :
  (forall s', (forall q, tregs s' q = if decide (q = r) then v else tregs s q) -> hmode (th s') = hmode (th s) -> hpc (th s') = hpc (th s) ->
     tmem s' = tmem s -> tproc s' = tproc s -> Q tt s') -> wp (hw (wr r v)) Q s.
Proof. intros HQ. apply wp_zoom, wp_modify. by apply HQ. Qed.
Lemma wp_tf_store tf off v (Q : unit -> tst -> Prop) s :
  (forall s', th s' = th s -> tmem s' = st64 (tmem s) (tf + off) v -> tproc s' = tproc s -> Q tt s') ->
  wp (kn (tf_store tf off v)) Q s.
Proof. intros HQ. apply wp_zoom. apply wp_zoom. apply wp_zoom. apply wp_modify. by apply HQ. Qed.
Lemma wp_tf_load tf off (Q : Z -> tst -> Prop) s : Q (ld64 (tmem s) (tf + off)) s -> wp (kn (tf_load tf off)) Q s.
Proof. intros HQ. apply wp_zoom. apply wp_zoom. apply wp_zoom. apply wp_gets. by destruct s as [[[] ? ? ? ? ? ? ? ?] ? ?]. Qed.
Lemma wp_kmyproc (Q : proc -> tst -> Prop) s : Q (tproc s) s -> wp (kn kmyproc) Q s.
Proof. intros HQ. apply wp_zoom, wp_gets. by destruct s. Qed.
Lemma hw_bind {A B} (m : M hart A) (k : A -> M hart B) s : hw (bind m k) s = bind (hw m) (fun a => hw (k a)) s.
Proof. unfold hw, bind, zoom. destruct (m (th s)); reflexivity. Qed.
Lemma wp_hw_bind {A B} (m : M hart A) (k : A -> M hart B) Q s : wp (bind (hw m) (fun a => hw (k a))) Q s -> wp (hw (bind m k)) Q s.
Proof. unfold wp. by rewrite hw_bind. Qed.
Lemma wp_hw_ret {A} (a : A) (Q : A -> tst -> Prop) s : Q a s -> wp (hw (return a)) Q s.
Proof. intros HQ. apply wp_zoom, wp_ret. by destruct s. Qed.

(** Reading and writing [sstatus]. *)
Definition sview (x v : Z) : Z := Z.lor (Z.land x (Z.lnot sstatus_mask)) (Z.land v sstatus_mask).
Lemma wp_r_sstatus (Q : Z -> tst -> Prop) s : Q (Z.land (tregs s mstatus) sstatus_mask) s -> wp (hw r_sstatus) Q s.
Proof. intros HQ. apply wp_hw_bind, wp_bind, wp_rd, wp_hw_ret. exact HQ. Qed.
Lemma wp_w_sstatus v (Q : unit -> tst -> Prop) s :
  (forall s', (forall q, tregs s' q = if decide (q = mstatus) then sview (tregs s mstatus) v else tregs s q) -> hmode (th s') = hmode (th s) ->
     hpc (th s') = hpc (th s) -> tmem s' = tmem s -> tproc s' = tproc s -> Q tt s') -> wp (hw (w_sstatus v)) Q s.
Proof. intros HQ. apply wp_hw_bind, wp_bind, wp_rd. by apply wp_wr. Qed.
End rules.

(** The bits of a written [sstatus] that the mask covers. *)
Lemma sview_bit x v k : 0 <= k -> Z.testbit sstatus_mask k = true -> Z.testbit (sview x v) k = Z.testbit v k.
Proof. intros Hk Hm. unfold sview. rewrite Z.lor_spec, !Z.land_spec, Z.lnot_spec, Hm by done. cbn. by rewrite andb_false_r, andb_true_r. Qed.

Section round_trip.
Context `{Layout} `{Devsw} `{Forkret} `{Vectors} `{Handlers}.

(** The state that [usertrapret] leaves for user space and for the next trap. *)
Record user_ready (s s1 : tst) : Prop := {
  ur_stvec : tregs s1 stvec = TRAMPOLINE + (uservec - trampoline);
  ur_sepc : tregs s1 sepc = ld64 (tmem s) (p_trapframe (tproc s) + TF_epc);
  ur_spp : Z.testbit (tregs s1 mstatus) SPP = false;
  ur_spie : Z.testbit (tregs s1 mstatus) SPIE = true;
  ur_sie : Z.testbit (tregs s1 mstatus) SIE = false;
  ur_proc : tproc s1 = tproc s;
  ur_satp : ld64 (tmem s1) (p_trapframe (tproc s) + TF_kernel_satp) = u64 (tregs s satp);
  ur_sp : ld64 (tmem s1) (p_trapframe (tproc s) + TF_kernel_sp) = u64 (p_kstack (tproc s) + PGSIZE);
  ur_trap : ld64 (tmem s1) (p_trapframe (tproc s) + TF_kernel_trap) = u64 usertrap_addr;
  ur_hartid : ld64 (tmem s1) (p_trapframe (tproc s) + TF_kernel_hartid) = u64 (tregs s tp)
}.

Lemma wp_usertrapret s : wp usertrapret (fun _ s1 => user_ready s s1) s.
Proof.
  unfold usertrapret. apply wp_bind, wp_kmyproc. unfold h_intr_off. apply wp_bind, wp_hw_bind, wp_bind, wp_r_sstatus, wp_w_sstatus.
  intros s1 R1 _ _ M1 P1. apply wp_bind, wp_wr. intros s2 R2 _ _ M2 P2. apply wp_bind, wp_rd.
  apply wp_bind, wp_tf_store. intros s3 T3 M3 P3. apply wp_bind, wp_tf_store. intros s4 T4 M4 P4.
  apply wp_bind, wp_tf_store. intros s5 T5 M5 P5. apply wp_bind, wp_rd. apply wp_bind, wp_tf_store. intros s6 T6 M6 P6.
  apply wp_bind, wp_r_sstatus. apply wp_bind, wp_w_sstatus. intros s7 R7 _ _ M7 P7. apply wp_bind, wp_tf_load, wp_wr. intros s8 R8 _ _ M8 P8.
  assert (forall q, tregs s6 q = tregs s2 q) as R6 by (intros q; unfold tregs; by rewrite T6, T5, T4, T3).
  assert (forall q, tregs s5 q = tregs s2 q) as R5 by (intros q; unfold tregs; by rewrite T5, T4, T3).
  assert (tmem s7 = st64 (st64 (st64 (st64 (tmem s) (p_trapframe (tproc s) + TF_kernel_satp) (tregs s satp))
    (p_trapframe (tproc s) + TF_kernel_sp) (p_kstack (tproc s) + PGSIZE)) (p_trapframe (tproc s) + TF_kernel_trap) usertrap_addr)
    (p_trapframe (tproc s) + TF_kernel_hartid) (tregs s tp)) as M.
  { rewrite M7, M6, M5, M4, M3, M2, M1, R5, !R2. look. rewrite !R1. by look. }
  assert (tmem s8 = tmem s7) as M87 by done.
  split; rewrite ?R8; look; rewrite ?M87, ?M; unfold TF_kernel_satp, TF_kernel_sp, TF_kernel_trap, TF_kernel_hartid, TF_epc.
  - rewrite R7. look. rewrite R6, R2. by look.
  - rewrite !ld64_st64_other by lia. done.
  - rewrite R7. look. rewrite sview_bit by done. by mask_bits.
  - rewrite R7. look. rewrite sview_bit by done. by mask_bits.
  - rewrite R7. look. rewrite sview_bit by done. mask_bits. rewrite R6, R2. look. rewrite R1. look. rewrite sview_bit by done. by mask_bits.
  - by rewrite P8, P7, P6, P5, P4, P3, P2, P1.
  - rewrite !ld64_st64_other by lia. apply ld64_st64_mod.
  - rewrite !ld64_st64_other by lia. apply ld64_st64_mod.
  - rewrite !ld64_st64_other by lia. apply ld64_st64_mod.
  - apply ld64_st64_mod.
Qed.

(** User code ran up to [pc]. *)
Definition user_at (pc : Z) (s : tst) : tst :=
  mkTst (tk s) (mkHart (regs (th s)) (hmode (th s)) pc (tlb_flushes (th s))) (tmmio s).

Lemma sret_user h : Z.testbit (regs h mstatus) SPP = false -> Z.testbit (regs h mstatus) SPIE = true ->
  exists h', sret h = Ok tt h' /\ hmode h' = User /\ hpc h' = regs h sepc /\ Z.testbit (regs h' mstatus) SIE = true /\
    Z.testbit (regs h' mstatus) SPP = false /\ forall q, q <> mstatus -> regs h' q = regs h q.
Proof.
  unfold SPP, SPIE, SIE. intros Hp Hi. eexists. split; [reflexivity|]. cbn -[Z.testbit Z.lor Z.land Z.lnot].
  rewrite Hp, Hi. split; [done|]. split; [done|]. look. split; [by mask_bits|]. split; [by mask_bits|]. intros q Hq. by destruct (decide (q = mstatus)).
Qed.

Lemma trap_from_user h cause tval : hmode h = User -> Z.testbit (regs h mstatus) SIE = true ->
  exists h', trap cause tval h = Ok tt h' /\ hmode h' = Supervisor /\ hpc h' = regs h stvec /\ regs h' sepc = hpc h /\
    regs h' scause = cause /\ regs h' stval = tval /\ Z.testbit (regs h' mstatus) SPP = false /\ Z.testbit (regs h' mstatus) SIE = false /\
    Z.testbit (regs h' mstatus) SPIE = true.
Proof.
  unfold SPP, SPIE, SIE. intros Hm Hi. eexists. split; [reflexivity|]. cbn -[Z.testbit Z.lor Z.land Z.lnot].
  rewrite Hm, Hi. look. repeat (split; [done|]). split; [by mask_bits|]. split; by mask_bits.
Qed.

(** C25: the way to user space and back: [usertrapret] followed by [userret] puts the
    hart in user mode at the program counter saved in the trapframe, with the
    page table of the process and interrupts on; the trapframe holds the kernel
    page table, kernel stack, handler and hart id that [uservec] loads; and
    whatever trap comes next, at whatever user pc, enters the trampoline in
    supervisor mode with interrupts off and the previous mode recorded as user,
    so that [usertrap] does not take it for a trap from the kernel. *)
Theorem user_round_trip (s : tst) :
  exists s1 s2, usertrapret s = Ok tt s1 /\ user_ready s s1 /\ enter_user s1 = Ok tt s2 /\
    hmode (th s2) = User /\ hpc (th s2) = ld64 (tmem s) (p_trapframe (tproc s) + TF_epc) /\
    tregs s2 satp = MAKE_SATP (p_pagetable (tproc s)) /\ Z.testbit (tregs s2 mstatus) SIE = true /\
    forall pc cause tval, exists s3, hw (trap cause tval) (user_at pc s2) = Ok tt s3 /\
      hmode (th s3) = Supervisor /\ hpc (th s3) = TRAMPOLINE + (uservec - trampoline) /\
      tregs s3 sepc = pc /\ tregs s3 scause = cause /\
      Z.testbit (tregs s3 mstatus) SIE = false /\ (Z.land (Z.land (tregs s3 mstatus) sstatus_mask) SSTATUS_SPP =? 0) = true.
Proof.
  destruct (wp_Ok _ _ _ (wp_usertrapret s)) as ([] & s1 & Hr1 & U). exists s1.
  assert (wp enter_user (fun _ s2 => hmode (th s2) = User /\ hpc (th s2) = tregs s1 sepc /\ tregs s2 satp = MAKE_SATP (p_pagetable (tproc s)) /\
    Z.testbit (tregs s2 mstatus) SIE = true /\ tregs s2 stvec = tregs s1 stvec) s1) as Hw.
  { unfold enter_user. apply wp_bind, wp_kmyproc. apply wp_bind. apply wp_zoom, wp_modify.
    apply wp_bind, wp_wr. intros s2 R2 _ _ _ _. apply wp_bind. apply wp_zoom, wp_modify. apply wp_zoom.
    assert (forall q, regs (th s2) q = if decide (q = satp) then MAKE_SATP (p_pagetable (tproc s1)) else tregs s1 q) as R by exact R2.
    match goal with |- wp sret _ ?h => destruct (sret_user h) as (h' & Hs & Hm & Hpc & Hi & _ & Hq) end.
    { cbn. rewrite R. apply U. }
    { cbn. rewrite R. apply U. }
    eapply wp_run; [exact Hs|]. unfold tregs in *. cbn [th regs] in *.
    rewrite Hm, Hpc, (Hq satp), (Hq stvec) by done. cbn [regs]. rewrite !R. look. rewrite (ur_proc _ _ U). done. }
  destruct (wp_Ok _ _ _ Hw) as ([] & s2 & Hr2 & Hm & Hpc & Hsatp & Hsie & Hstvec). exists s2.
  split; [done|]. split; [done|]. split; [done|]. split; [done|]. split; [rewrite Hpc; apply U|]. split; [done|]. split; [done|].
  intros pc cause tval. destruct (trap_from_user (th (user_at pc s2)) cause tval Hm Hsie) as (h' & Ht & T1 & T2 & T3 & T4 & _ & T6 & T7 & _).
  exists (mkTst (tk s2) h' (tmmio s2)). split; [unfold hw, zoom; by rewrite Ht|]. split; [done|].
  split; [cbn; rewrite T2; cbn; fold (tregs s2 stvec); rewrite Hstvec; apply U|]. split; [done|]. split; [done|]. split; [done|].
  unfold SSTATUS_SPP. rewrite land_bit by done. unfold tregs. cbn [th]. unfold SPP in T6. by rewrite Z.land_spec, T6.
Qed.
End round_trip.
