(* ===== verification/Console.v ===== *)
(** * The console: [kernel/uart.c] and [kernel/console.c]

    The UART driver with its transmit buffer, and the line editing of the
    console.  The theorems show that the driver sends what is put in order, and
    that [consoleintr] implements an editor of lines. *)

From stdpp Require Import base list gmap strings.
From S2P Require Import Prelude Riscv Spinlock Ring.

(** ** The UART *)

Definition UART_TX_BUF_SIZE : Z := 32.
Definition IER : Z := 1.
Definition FCR : Z := 2.
Definition LCR : Z := 3.
Definition IER_RX_ENABLE : Z := 1.
Definition IER_TX_ENABLE : Z := 2.
Definition FCR_FIFO_ENABLE : Z := 1.
Definition FCR_FIFO_CLEAR : Z := 6.
Definition LCR_EIGHT_BITS : Z := 3.
Definition LCR_BAUD_LATCH : Z := 128.

(** The device: the registers configured, how many bytes it can take now, for how
    many reads of LSR it stays busy before it takes byte [n] when it has no room,
    how often ISR was read, the bytes it was given, and the bytes received. *)
Record uartdev := mkUdev {
  d_conf : list (Z * Z); d_room : nat; d_delay : nat -> nat; d_isr : nat; d_sent : list Z; d_rx : list Z
}.
(** The driver's variables, the number of [wakeup(&uart_tx_r)] calls made, and the
    device. *)
Record uart := mkUart {
  u_lock : spinlock; u_buf : list Z; u_w : Z; u_r : Z; panicked : bool; u_wakes : nat; u_dev : uartdev
}.
Definition u_room (u : uart) : nat := d_room (u_dev u).
Definition u_isr (u : uart) : nat := d_isr (u_dev u).
Definition u_sent (u : uart) : list Z := d_sent (u_dev u).
Definition u_rx (u : uart) : list Z := d_rx (u_dev u).
Definition set_ulock lk (u : uart) : uart :=
  mkUart lk (u_buf u) (u_w u) (u_r u) (panicked u) (u_wakes u) (u_dev u).
Definition set_udev d (u : uart) : uart :=
  mkUart (u_lock u) (u_buf u) (u_w u) (u_r u) (panicked u) (u_wakes u) d.
Definition set_room n (d : uartdev) : uartdev :=
  mkUdev (d_conf d) n (d_delay d) (d_isr d) (d_sent d) (d_rx d).
Definition upd_dev (f : uartdev -> uartdev) : M uart unit := modify (fun u => set_udev (f (u_dev u)) u).
Definition u_spin : M spinlock unit -> M uart unit := zoom u_lock set_ulock.

(** [WriteReg] on a configuration register. *)
Definition WriteReg (reg v : Z) : M uart unit :=
  upd_dev (fun d => mkUdev (d_conf d ++ [(reg, v)]) (d_room d) (d_delay d) (d_isr d) (d_sent d) (d_rx d)).
(** [ReadReg(ISR)], which acknowledges the interrupt. *)
Definition read_isr : M uart unit :=
  upd_dev (fun d => mkUdev (d_conf d) (d_room d) (d_delay d) (S (d_isr d)) (d_sent d) (d_rx d)).
(** [(ReadReg(LSR) & LSR_TX_IDLE) != 0], and [WriteReg(THR, c)]. *)
Definition tx_idle : M uart bool := gets (fun u => (0 <? u_room u)%nat).
Definition write_thr (c : Z) : M uart unit :=
  upd_dev (fun d => mkUdev (d_conf d) (pred (d_room d)) (d_delay d) (d_isr d) (d_sent d ++ [u8 c]) (d_rx d)).
(** [wakeup(&uart_tx_r)]: which processes it makes runnable is in Sched.v. *)
Definition wakeup_tx : M uart unit :=
  modify (fun u => mkUart (u_lock u) (u_buf u) (u_w u) (u_r u) (panicked u) (S (u_wakes u)) (u_dev u)).

Definition uartinit : M uart unit :=
  WriteReg IER 0x00 ;;;
  WriteReg LCR LCR_BAUD_LATCH ;;;
  WriteReg 0 0x03 ;;;
  WriteReg 1 0x00 ;;;
  WriteReg LCR LCR_EIGHT_BITS ;;;
  WriteReg FCR (Z.lor FCR_FIFO_ENABLE FCR_FIFO_CLEAR) ;;;
  WriteReg IER (Z.lor IER_TX_ENABLE IER_RX_ENABLE) ;;;
  u_spin (fun _ => Ok tt initlock).

(** The loop of [uartstart], with a bound on the number of bytes it can send. *)
Fixpoint uartstart_loop (fuel : nat) : M uart unit :=
  do u <- get;
  if u_w u =? u_r u then read_isr
  else
    do idle <- tx_idle;
    if negb idle then return tt
    else
      match fuel with
      | O => fun _ => Diverge
      | S f =>
          let c := nth (Z.to_nat (u_r u mod UART_TX_BUF_SIZE)) (u_buf u) 0 in
          modify (fun u => mkUart (u_lock u) (u_buf u) (u_w u) (u64 (u_r u + 1)) (panicked u) (u_wakes u) (u_dev u)) ;;;
          wakeup_tx ;;;
          write_thr c ;;;
          uartstart_loop f
      end.
Definition uartstart : M uart unit := uartstart_loop (Z.to_nat UART_TX_BUF_SIZE).

(** A stretch of [uartputc]: false if it goes to sleep because the buffer is full. *)
Definition uartputc (c : Z) : M uart bool :=
  u_spin lk_acquire ;;;
  do u <- get;
  if panicked u then (fun _ => Diverge)
  else if u_w u =? u64 (u_r u + UART_TX_BUF_SIZE) then u_spin lk_release ;;; return false
  else
    modify (fun u => mkUart (u_lock u) (<[Z.to_nat (u_w u mod UART_TX_BUF_SIZE) := u8 c]> (u_buf u)) (u64 (u_w u + 1)) (u_r u)
                       (panicked u) (u_wakes u) (u_dev u)) ;;;
    uartstart ;;;
    u_spin lk_release ;;;
    return true.

(** What the device does between two reads of LSR, [reads] of them made since the wait
    began. *)
Definition dev_drains (reads : nat) : M uart unit :=
  upd_dev (fun d => if (d_delay d (length (d_sent d)) <=? reads)%nat then set_room 1 d else d).
(** [while((ReadReg(LSR) & LSR_TX_IDLE) == 0);] *)
Fixpoint tx_wait (fuel reads : nat) : M uart unit :=
  do idle <- tx_idle;
  if (idle : bool) then return tt
  else match fuel with O => fun _ => Diverge | S f => dev_drains reads ;;; tx_wait f (S reads) end.
(** [uartputc_sync] (the [push_off] and [pop_off] around it act on the cpu, not on this
    state; see Spinlock.v). *)
Definition uartputc_sync (c : Z) : M uart unit :=
  do u <- get;
  if panicked u then (fun _ => Diverge)
  else tx_wait (S (d_delay (u_dev u) (length (u_sent u)))) 0 ;;; write_thr c.

Definition uartgetc : M uart (option Z) := fun u =>
  match u_rx u with
  | c :: r => Ok (Some c) (let d := u_dev u in set_udev (mkUdev (d_conf d) (d_room d) (d_delay d) (d_isr d) (d_sent d) r) u)
  | [] => Ok None u
  end.

(** ** The console *)

Definition BACKSPACE : Z := 0x100.
Definition INPUT_BUF_SIZE : Z := 128.
Definition NL : Z := 10.
Definition CR : Z := 13.
Definition DEL : Z := 127.
(** [C(x)] *)
Definition ctrl (x : Z) : Z := x - 64.
Definition CTRL_D : Z := ctrl 68.
Definition CTRL_H : Z := ctrl 72.
Definition CTRL_P : Z := ctrl 80.
Definition CTRL_U : Z := ctrl 85.

Record cons := mkCons { c_lock : spinlock; c_buf : list Z; c_r : Z; c_w : Z; c_e : Z }.
(** The console and the UART below it. *)
Record cst := mkCst { cc : cons; cu : uart }.
Definition zu {A} : M uart A -> M cst A := zoom cu (fun u s => mkCst (cc s) u).
Definition upd_cons (f : cons -> cons) : M cst unit := modify (fun s => mkCst (f (cc s)) (cu s)).
Definition c_spin : M spinlock unit -> M cst unit :=
  zoom (fun s => c_lock (cc s)) (fun lk s => mkCst (mkCons lk (c_buf (cc s)) (c_r (cc s)) (c_w (cc s)) (c_e (cc s))) (cu s)).
Definition set_cr v (x : cons) : cons := mkCons (c_lock x) (c_buf x) v (c_w x) (c_e x).
Definition set_cw v (x : cons) : cons := mkCons (c_lock x) (c_buf x) (c_r x) v (c_e x).
Definition set_ce v (x : cons) : cons := mkCons (c_lock x) (c_buf x) (c_r x) (c_w x) v.
Definition set_cell i c (x : cons) : cons :=
  mkCons (c_lock x) (<[Z.to_nat (i mod INPUT_BUF_SIZE) := c]> (c_buf x)) (c_r x) (c_w x) (c_e x).

Definition consputc (c : Z) : M uart unit :=
  if c =? BACKSPACE then uartputc_sync 8 ;;; uartputc_sync 32 ;;; uartputc_sync 8 else uartputc_sync c.

(** [case C('U')]: kill the line. *)
Fixpoint kill_line (fuel : nat) : M cst unit :=
  do s <- get;
  let x := cc s in
  if negb (c_e x =? c_w x) && negb (nth (Z.to_nat (u32 (c_e x - 1) mod INPUT_BUF_SIZE)) (c_buf x) 0 =? NL) then
    match fuel with
    | O => fun _ => Diverge
    | S f =>
        upd_cons (fun x => set_ce (u32 (c_e x - 1)) x) ;;;
        zu (consputc BACKSPACE) ;;;
        kill_line f
    end
  else return tt.

(** The [switch] of [consoleintr(c)]; [dump] is what [procdump] prints.  The
    result tells whether it wakes the readers. *)
Definition consoleintr_switch (dump : list Z) (c : Z) : M cst bool :=
  if c =? CTRL_P then
    zu (for_range (length dump) 0 (fun i => consputc (nth (Z.to_nat i) dump 0))) ;;; return false
  else if c =? CTRL_U then kill_line (Z.to_nat INPUT_BUF_SIZE) ;;; return false
  else if (c =? CTRL_H) || (c =? DEL) then
    do s <- get;
    (if negb (c_e (cc s) =? c_w (cc s)) then
       upd_cons (fun x => set_ce (u32 (c_e x - 1)) x) ;;; zu (consputc BACKSPACE)
     else return tt) ;;;
    return false
  else
    do s <- get;
    if negb (c =? 0) && (u32 (c_e (cc s) - c_r (cc s)) <? INPUT_BUF_SIZE) then
      let c := if c =? CR then NL else c in
      zu (consputc c) ;;;
      upd_cons (set_cell (c_e (cc s)) c) ;;;
      upd_cons (fun x => set_ce (u32 (c_e x + 1)) x) ;;;
      do s <- get;
      if (c =? NL) || (c =? CTRL_D) || (u32 (c_e (cc s) - c_r (cc s)) =? INPUT_BUF_SIZE) then
        upd_cons (fun x => set_cw (c_e x) x) ;;; return true
      else return false
    else return false.
Definition consoleintr (dump : list Z) (c : Z) : M cst bool :=
  c_spin lk_acquire ;;;
  do woken <- consoleintr_switch dump c;
  c_spin lk_release ;;;
  return woken.

(** [uartintr] *)
Fixpoint uartintr_loop (fuel : nat) (dump : list Z) : M cst unit :=
  do c <- zu uartgetc;
  match c with
  | None => return tt
  | Some c => match fuel with O => fun _ => Diverge | S f => consoleintr dump c ;;; uartintr_loop f dump end
  end.
Definition uartintr (dump : list Z) : M cst unit :=
  do n <- gets (fun s => length (u_rx (cu s)));
  uartintr_loop n dump ;;;
  zu (u_spin lk_acquire) ;;;
  zu uartstart ;;;
  zu (u_spin lk_release).

Definition consoleinit : M cst unit := c_spin (fun _ => Ok tt initlock) ;;; zu uartinit.

(** [consoleread] and [consolewrite] on a state [T] that has the console as a
    part; [store i c] copies [c] to [dst + i] and [fetch i] reads [src + i]. *)
Section transfer.
Context {T : Type} (zc : forall A, M cst A -> M T A).
Arguments zc {A} _.

(** How [consoleread] ends: the result, or asleep after [i] bytes. *)
Inductive cend := CReturned (r : Z) | CAsleep (i : Z).

Fixpoint consoleread_loop (fuel : nat) (store : Z -> Z -> M T bool) (killed : M T bool) (i target : Z) : M T cend :=
  if i <? target then
    match fuel with
    | O => fun _ => Diverge
    | S f =>
        do s <- zc get;
        let x := cc s in
        if c_r x =? c_w x then
          do kl <- killed;
          zc (c_spin lk_release) ;;;
          return (if (kl : bool) then CReturned (-1) else CAsleep i)
        else
          let c := nth (Z.to_nat (c_r x mod INPUT_BUF_SIZE)) (c_buf x) 0 in
          zc (upd_cons (fun x => set_cr (u32 (c_r x + 1)) x)) ;;;
          if c =? CTRL_D then
            (if i >? 0 then zc (upd_cons (fun x => set_cr (u32 (c_r x - 1)) x)) else return tt) ;;;
            zc (c_spin lk_release) ;;;
            return (CReturned i)
          else
            do ok <- store i c;
            if negb (ok : bool) then zc (c_spin lk_release) ;;; return (CReturned i)
            else if c =? NL then zc (c_spin lk_release) ;;; return (CReturned (i + 1))
            else consoleread_loop f store killed (i + 1) target
    end
  else zc (c_spin lk_release) ;;; return (CReturned i).
(** From the start ([i = 0]) or from a wakeup after [i] bytes. *)
Definition consoleread (store : Z -> Z -> M T bool) (killed : M T bool) (i n : Z) : M T cend :=
  zc (c_spin lk_acquire) ;;; consoleread_loop (Z.to_nat n) store killed i n.

(** [consolewrite]; asleep when the transmit buffer is full. *)
Fixpoint consolewrite (fuel : nat) (fetch : Z -> M T (option Z)) (i n : Z) : M T cend :=
  if i <? n then
    match fuel with
    | O => fun _ => Diverge
    | S f =>
        do c <- fetch i;
        match c with
        | None => return (CReturned i)
        | Some c =>
            do ok <- zc (zu (uartputc c));
            if (ok : bool) then consolewrite f fetch (i + 1) n else return (CAsleep i)
        end
    end
  else return (CReturned i).
End transfer.

(** ** The line editor that [consoleintr] implements *)

(** Complete input not read yet, and the line being typed. *)
Record editor := mkEditor { ed_lines : list Z; ed_cur : list Z }.

(** The editor after a key, whether readers are woken, and what is echoed. *)
Definition erase : list Z := [8; 32; 8].
Definition edit (dump : list Z) (c : Z) (ed : editor) : editor * bool * list Z :=
  if c =? CTRL_P then (ed, false, concat ((fun c => if c =? BACKSPACE then erase else [u8 c]) <$> dump))
  else if c =? CTRL_U then (mkEditor (ed_lines ed) [], false, concat (replicate (length (ed_cur ed)) erase))
  else if (c =? CTRL_H) || (c =? DEL) then
    (mkEditor (ed_lines ed) (removelast (ed_cur ed)), false, match ed_cur ed with [] => [] | _ => erase end)
  else if negb (c =? 0) && (Z.of_nat (length (ed_lines ed) + length (ed_cur ed)) <? INPUT_BUF_SIZE) then
    let c := if c =? CR then NL else c in
    let cur := ed_cur ed ++ [c] in
    if (c =? NL) || (c =? CTRL_D) || (Z.of_nat (length (ed_lines ed) + length cur) =? INPUT_BUF_SIZE)
    then (mkEditor (ed_lines ed ++ cur) [], true, [u8 c])
    else (mkEditor (ed_lines ed) cur, false, [u8 c])
  else (ed, false, []).

Notation cring := (ring INPUT_BUF_SIZE (2 ^ 32)).
Definition editor_of (x : cons) : editor :=
  mkEditor (cring (c_buf x) (c_r x) (c_w x)) (cring (c_buf x) (c_w x) (c_e x)).

Record cons_ok (x : cons) : Prop := {
  co_ring : ring_ok INPUT_BUF_SIZE (2 ^ 32) (c_buf x) (c_r x) (c_e x);
  co_w : 0 <= c_w x < 2 ^ 32;
  co_order : rlen (2 ^ 32) (c_r x) (c_w x) <= rlen (2 ^ 32) (c_r x) (c_e x);
  co_line : NL ∉ cring (c_buf x) (c_w x) (c_e x)
}.

Lemma cons_wraps : (INPUT_BUF_SIZE | 2 ^ 32).
Proof. by exists 33554432. Qed.

(** The console in a state with the lock in hand ([lk]), the UART alive, and
    [out] sent so far. *)
Definition cons_at (s : cst) (lk : spinlock) (ed : editor) (out : list Z) : Prop :=
  cons_ok (cc s) /\ c_lock (cc s) = lk /\ editor_of (cc s) = ed /\ panicked (cu s) = false /\ u_sent (cu s) = out.

(** The wait ends, with room for a byte, whatever the delay. *)
Lemma tx_wait_ends fuel reads u : u_room u = 0%nat -> (d_delay (u_dev u) (length (u_sent u)) < fuel + reads)%nat -> (0 < fuel)%nat ->
  tx_wait fuel reads u = Ok tt (set_udev (set_room 1 (u_dev u)) u).
Proof.
  revert reads. induction fuel as [|f IH]; intros reads Hr Hd Hf; [lia|]. cbn [tx_wait]. unfold bind at 1. cbn [tx_idle gets]. rewrite Hr. cbn [Nat.ltb Nat.leb].
  unfold bind at 1, dev_drains, upd_dev. cbn [modify]. fold (u_sent u). destruct (Nat.leb_spec (d_delay (u_dev u) (length (u_sent u))) reads) as [Hle|Hgt].
  - by destruct f.
  - destruct u. apply IH; [done|lia|lia].
Qed.
(** [uartputc_sync] gives the device the byte, after as many reads as that takes. *)
Definition u_send (out : list Z) (u : uart) : uart :=
  let d := u_dev u in
  set_udev (mkUdev (d_conf d) (d_room d - length out) (d_delay d) (d_isr d) (d_sent d ++ out) (d_rx d)) u.
Lemma putc_sync_sends c u : panicked u = false -> uartputc_sync c u = Ok tt (u_send [u8 c] u).
Proof.
  intros H. unfold uartputc_sync. unfold bind at 1. cbn [get]. rewrite H. destruct (decide (u_room u = 0%nat)) as [Hr|Hr].
  - unfold bind. rewrite tx_wait_ends by (done || lia). unfold write_thr, upd_dev, u_send, modify. cbn. unfold u_room in Hr. by rewrite Hr.
  - unfold bind. cbn [tx_wait]. unfold bind. cbn [tx_idle gets]. rewrite (proj2 (Nat.ltb_lt _ _)) by lia. cbn.
    unfold write_thr, upd_dev, u_send, modify. cbn. do 4 f_equal. unfold u_room in Hr. lia.
Qed.
Lemma putc_sync_run c u : panicked u = false ->
  exists u', uartputc_sync c u = Ok tt u' /\ panicked u' = false /\ u_sent u' = u_sent u ++ [u8 c].
Proof. intros H. eexists. split; [by apply putc_sync_sends|done]. Qed.

Definition echoed (c : Z) : list Z := if c =? BACKSPACE then erase else [u8 c].
Lemma consputc_run c u : panicked u = false ->
  exists u', consputc c u = Ok tt u' /\ panicked u' = false /\ u_sent u' = u_sent u ++ echoed c.
Proof.
  intros H. unfold consputc, echoed. destruct (c =? BACKSPACE); [|by apply putc_sync_run].
  destruct (putc_sync_run 8 u H) as (u1 & H1 & P1 & S1). destruct (putc_sync_run 32 u1 P1) as (u2 & H2 & P2 & S2).
  destruct (putc_sync_run 8 u2 P2) as (u3 & H3 & P3 & S3). exists u3. unfold bind. rewrite H1, H2, H3.
  split; [done|]. split; [done|]. rewrite S3, S2, S1, <- !app_assoc. done.
Qed.

(** Echo on the console state. *)
Lemma echo_run c s lk ed out : cons_at s lk ed out ->
  exists u', zu (consputc c) s = Ok tt (mkCst (cc s) u') /\ cons_at (mkCst (cc s) u') lk ed (out ++ echoed c).
Proof.
  intros (A1 & A2 & A3 & A4 & A5). destruct (consputc_run c (cu s) A4) as (u' & H1 & P1 & S1).
  exists u'. unfold zu, zoom. rewrite H1. split; [done|]. unfold cons_at. cbn. by rewrite S1, A5.
Qed.

(** Taking back the last character typed. *)
Lemma unput_ok x : cons_ok x -> c_e x <> c_w x ->
  let x' := set_ce (u32 (c_e x - 1)) x in
  cons_ok x' /\ editor_of x = mkEditor (ed_lines (editor_of x'))
    (ed_cur (editor_of x') ++ [nth (Z.to_nat (u32 (c_e x - 1) mod INPUT_BUF_SIZE)) (c_buf x) 0]).
Proof.
  intros [[B1 B2 B3 B4] A2 A3 A4] Hne x'.
  destruct (ring_split INPUT_BUF_SIZE (2 ^ 32) ltac:(done) ltac:(done) cons_wraps (c_buf x) _ _ _ B2 A2 B3 A3) as [_ Hlen].
  pose proof (rlen_range INPUT_BUF_SIZE (2 ^ 32) ltac:(done) ltac:(done) (c_r x) (c_w x)).
  assert (ring_ok INPUT_BUF_SIZE (2 ^ 32) (c_buf x) (c_w x) (c_e x)) as Ic by (split; [done|done|done|lia]).
  destruct (ring_unput INPUT_BUF_SIZE (2 ^ 32) ltac:(done) ltac:(done) cons_wraps _ _ _ Ic ltac:(done)) as [Iu Hu].
  assert (c_r x <> c_e x) as Hre.
  { intros Hre. apply Hne. rewrite <- Hre in *. rewrite (rlen_case INPUT_BUF_SIZE) in A3 by done.
    rewrite (rlen_case INPUT_BUF_SIZE) in A3 by done. repeat case_decide; lia. }
  destruct (ring_unput INPUT_BUF_SIZE (2 ^ 32) ltac:(done) ltac:(done) cons_wraps (c_buf x) (c_r x) (c_e x) ltac:(done) Hre) as [Iu' Hu'].
  assert (rlen (2 ^ 32) (c_w x) (c_e x) = rlen (2 ^ 32) (c_w x) (u32 (c_e x - 1)) + 1) as L1.
  { apply (f_equal length) in Hu. rewrite length_app in Hu. cbn in Hu.
    rewrite <- !(ring_length INPUT_BUF_SIZE (2 ^ 32) ltac:(done) ltac:(done) (c_buf x)). unfold u32. lia. }
  assert (rlen (2 ^ 32) (c_r x) (c_e x) = rlen (2 ^ 32) (c_r x) (u32 (c_e x - 1)) + 1) as L2.
  { apply (f_equal length) in Hu'. rewrite length_app in Hu'. cbn in Hu'.
    rewrite <- !(ring_length INPUT_BUF_SIZE (2 ^ 32) ltac:(done) ltac:(done) (c_buf x)). unfold u32. lia. }
  pose proof (rlen_range INPUT_BUF_SIZE (2 ^ 32) ltac:(done) ltac:(done) (c_w x) (u32 (c_e x - 1))).
  split.
  - split; cbn; [exact Iu'|done|lia|]. unfold u32. rewrite Hu in A4. set_solver.
  - unfold editor_of. cbn. f_equal. exact Hu.
Qed.

Lemma cur_length x : cons_ok x -> Z.of_nat (length (ed_lines (editor_of x)) + length (ed_cur (editor_of x))) = u32 (c_e x - c_r x) /\
  u32 (c_e x - c_r x) <= INPUT_BUF_SIZE.
Proof.
  intros [[B1 B2 B3 B4] A2 A3 A4].
  destruct (ring_split INPUT_BUF_SIZE (2 ^ 32) ltac:(done) ltac:(done) cons_wraps (c_buf x) _ _ _ B2 A2 B3 A3) as [_ Hlen].
  rewrite Nat2Z.inj_add. cbn. rewrite !(ring_length INPUT_BUF_SIZE (2 ^ 32)) by done. split; [|done]. unfold rlen in Hlen. unfold rlen, u32. lia.
Qed.

Lemma cur_empty x : cons_ok x -> (c_e x =? c_w x) = match ed_cur (editor_of x) with [] => true | _ => false end.
Proof.
  intros [[B1 B2 B3 B4] A2 A3 A4].
  destruct (ring_split INPUT_BUF_SIZE (2 ^ 32) ltac:(done) ltac:(done) cons_wraps (c_buf x) _ _ _ B2 A2 B3 A3) as [_ Hlen].
  pose proof (rlen_range INPUT_BUF_SIZE (2 ^ 32) ltac:(done) ltac:(done) (c_r x) (c_w x)).
  assert (ring_ok INPUT_BUF_SIZE (2 ^ 32) (c_buf x) (c_w x) (c_e x)) as Ic by (split; [done|done|done|lia]).
  cbn. destruct (Z.eqb_spec (c_e x) (c_w x)) as [He|Hne].
  - by rewrite (proj1 (ring_empty INPUT_BUF_SIZE (2 ^ 32) ltac:(done) ltac:(done) _ _ _ Ic) (eq_sym He)).
  - destruct (cring (c_buf x) (c_w x) (c_e x)) eqn:E; [|done]. exfalso. apply Hne. symmetry.
    by apply (ring_empty INPUT_BUF_SIZE (2 ^ 32) ltac:(done) ltac:(done) _ _ _ Ic).
Qed.

Lemma kill_line_run fuel s lk ed out : cons_at s lk ed out -> (length (ed_cur ed) <= fuel)%nat ->
  exists s', kill_line fuel s = Ok tt s' /\
    cons_at s' lk (mkEditor (ed_lines ed) []) (out ++ concat (replicate (length (ed_cur ed)) erase)).
Proof.
  revert s ed out. induction fuel as [|f IH]; intros s ed out A Hf; pose proof A as (A1 & A2 & A3 & A4 & A5);
    cbn [kill_line]; unfold bind at 1; cbn [get]; rewrite (cur_empty _ A1), A3.
  { destruct ed as [ls cu']. cbn in *. destruct cu'; [|cbn in Hf; lia]. cbn. exists s. rewrite app_nil_r. done. }
  destruct (ed_cur ed) as [|c0 cu0] eqn:Ec; cbn [negb andb].
  { exists s. cbn. rewrite app_nil_r. split; [done|]. destruct ed. cbn in *. by subst. }
  assert (c_e (cc s) <> c_w (cc s)) as Hne.
  { intros He. pose proof (cur_empty _ A1) as Hc. rewrite A3, Ec, He, Z.eqb_refl in Hc. done. }
  destruct (unput_ok _ A1 Hne) as [Io Ho]. rewrite A3 in Ho.
  set (b := nth _ _ _) in *. assert (b ∈ ed_cur ed) as Hb by (rewrite Ho; cbn; set_solver).
  destruct (Z.eqb_spec b NL) as [Hb0|_].
  { exfalso. apply (co_line _ A1). rewrite <- Hb0. rewrite <- A3 in Hb. exact Hb. }
  cbn [negb]. unfold bind at 1. unfold upd_cons at 1. cbn [modify].
  set (x' := set_ce (u32 (c_e (cc s) - 1)) (cc s)) in *.
  destruct (echo_run BACKSPACE (mkCst x' (cu s)) lk (editor_of x') out) as (u' & H1 & C1); [done|].
  unfold bind at 1. rewrite H1. cbn [cc] in *.
  assert (length (ed_cur ed) = S (length (ed_cur (editor_of x')))) as Hl by (rewrite Ho; cbn; rewrite length_app; cbn; lia).
  destruct (IH _ _ _ C1) as (s' & H2 & C2); [rewrite Ec in Hl; cbn in *; lia|].
  exists s'. split; [done|]. rewrite <- Ec, Hl. cbn [replicate concat]. rewrite Ho. cbn [ed_lines]. rewrite app_assoc. exact C2.
Qed.

Lemma dump_run dump s lk ed out : cons_at s lk ed out -> 
  exists s', zu (for_range (length dump) 0 (fun i => consputc (nth (Z.to_nat i) dump 0))) s = Ok tt s' /\
    cons_at s' lk ed (out ++ concat (echoed <$> dump)).
Proof.
  intros A. destruct A as (A1 & A2 & A3 & A4 & A5).
  destruct (for_range_inv (fun i u => panicked u = false /\ u_sent u = out ++ concat (echoed <$> take (Z.to_nat i) dump))
    (length dump) 0 (fun i => consputc (nth (Z.to_nat i) dump 0)) (cu s)) as (u' & H1 & P1 & S1).
  - intros j u Hj [P S]. destruct (consputc_run (nth (Z.to_nat j) dump 0) u P) as (u' & H' & P' & S').
    exists u'. split; [done|]. split; [done|]. rewrite S', S, <- app_assoc. f_equal.
    replace (Z.to_nat (j + 1)) with (Datatypes.S (Z.to_nat j)) by lia.
    destruct (lookup_lt_is_Some_2 dump (Z.to_nat j)) as [c Hc]; [lia|]. rewrite (take_S_r _ _ c Hc), fmap_app, concat_app. cbn.
    rewrite app_nil_r, nth_lookup, Hc. done.
  - split; [done|]. cbn. by rewrite app_nil_r.
  - exists (mkCst (cc s) u'). unfold zu, zoom. rewrite H1. split; [done|]. unfold cons_at. cbn. rewrite S1.
    rewrite take_ge by lia. done.
Qed.

(** Appending a character, and ending the line there. *)
Lemma put_ok x c : cons_ok x -> u32 (c_e x - c_r x) < INPUT_BUF_SIZE ->
  let x' := set_ce (u32 (c_e x + 1)) (set_cell (c_e x) c x) in
  editor_of x' = mkEditor (ed_lines (editor_of x)) (ed_cur (editor_of x) ++ [c]) /\
  (c <> NL -> cons_ok x') /\
  cons_ok (set_cw (c_e x') x') /\
  editor_of (set_cw (c_e x') x') = mkEditor (ed_lines (editor_of x) ++ ed_cur (editor_of x) ++ [c]) [].
Proof.
  intros [[B1 B2 B3 B4] A2 A3 A4] Hlt x'. 
  destruct (ring_split INPUT_BUF_SIZE (2 ^ 32) ltac:(done) ltac:(done) cons_wraps (c_buf x) _ _ _ B2 A2 B3 A3) as [Hsp Hlen].
  pose proof (rlen_range INPUT_BUF_SIZE (2 ^ 32) ltac:(done) ltac:(done) (c_r x) (c_w x)).
  assert (ring_ok INPUT_BUF_SIZE (2 ^ 32) (c_buf x) (c_r x) (c_e x)) as Ir by done.
  assert (ring_ok INPUT_BUF_SIZE (2 ^ 32) (c_buf x) (c_w x) (c_e x)) as Ic by (split; [done|done|done|lia]).
  assert (forall i, ring_ok INPUT_BUF_SIZE (2 ^ 32) (c_buf x) i (c_e x) -> rlen (2 ^ 32) i (c_e x) < INPUT_BUF_SIZE -> c_e x <> (i + INPUT_BUF_SIZE) mod 2 ^ 32) as Hnf.
  { intros i I Hl Hf. apply (ring_full INPUT_BUF_SIZE (2 ^ 32) ltac:(done) ltac:(done) _ _ _ I) in Hf.
    rewrite (ring_length INPUT_BUF_SIZE (2 ^ 32)) in Hf by done. lia. }
  assert (rlen (2 ^ 32) (c_r x) (c_e x) < INPUT_BUF_SIZE) as Hlr by exact Hlt.
  destruct (ring_put INPUT_BUF_SIZE (2 ^ 32) ltac:(done) ltac:(done) cons_wraps _ _ _ c Ir (Hnf _ Ir Hlr)) as [Ir' Hr'].
  destruct (ring_put INPUT_BUF_SIZE (2 ^ 32) ltac:(done) ltac:(done) cons_wraps _ _ _ c Ic (Hnf _ Ic ltac:(lia))) as [_ Hc'].
  pose proof (ring_insert_other INPUT_BUF_SIZE (2 ^ 32) ltac:(done) ltac:(done) cons_wraps _ _ _ _ c Ir (Hnf _ Ir Hlr) A2 A3) as Hw'.
  assert (rlen (2 ^ 32) (c_r x) (u32 (c_e x + 1)) = rlen (2 ^ 32) (c_r x) (c_e x) + 1) as L1.
  { apply (f_equal length) in Hr'. rewrite length_app in Hr'. cbn in Hr'.
    rewrite <- (ring_length INPUT_BUF_SIZE (2 ^ 32) ltac:(done) ltac:(done) (c_buf x) (c_r x) (c_e x)).
    rewrite <- (ring_length INPUT_BUF_SIZE (2 ^ 32) ltac:(done) ltac:(done) (<[Z.to_nat (c_e x mod INPUT_BUF_SIZE):=c]> (c_buf x))).
    unfold u32. lia. }
  assert (0 <= c_e x' < 2 ^ 32) as He' by apply u32_range.
  assert (ring_ok INPUT_BUF_SIZE (2 ^ 32) (c_buf x') (c_e x') (c_e x')) as Ie.
  { split; [apply Ir'|done|done|]. unfold rlen. by rewrite Z.sub_diag. }
  pose proof (proj1 (ring_empty INPUT_BUF_SIZE (2 ^ 32) ltac:(done) ltac:(done) _ _ _ Ie) eq_refl) as Hempty.
  split; [unfold editor_of; cbn; f_equal; [exact Hw'|exact Hc']|]. split; [|split].
  - intros Hnl. split; cbn; [exact Ir'|done|lia|]. unfold u32. rewrite Hc'. set_solver.
  - split; cbn; [exact Ir'|done|done|]. cbn in Hempty. rewrite Hempty. apply not_elem_of_nil.
  - unfold editor_of. cbn in *. f_equal; [|exact Hempty]. etransitivity; [exact Hr'|]. by rewrite Hsp, app_assoc.
Qed.

Lemma c_acquire_run s ed out : cons_at s initlock ed out ->
  exists s', c_spin lk_acquire s = Ok tt s' /\ cons_at s' held_lock ed out.
Proof.
  intros (A1 & A2 & A3 & A4 & A5). eexists. unfold c_spin, zoom. rewrite A2. split; [reflexivity|].
  split; [by destruct A1|]. done.
Qed.
Lemma c_release_run s ed out : cons_at s held_lock ed out ->
  exists s', c_spin lk_release s = Ok tt s' /\ cons_at s' initlock ed out.
Proof.
  intros (A1 & A2 & A3 & A4 & A5). eexists. unfold c_spin, zoom. rewrite A2. split; [reflexivity|].
  split; [by destruct A1|]. done.
Qed.

Lemma backspace_run s lk ed out : cons_at s lk ed out -> c_e (cc s) <> c_w (cc s) ->
  exists s', (upd_cons (fun x => set_ce (u32 (c_e x - 1)) x) ;;; zu (consputc BACKSPACE)) s = Ok tt s' /\
    cons_at s' lk (mkEditor (ed_lines ed) (removelast (ed_cur ed))) (out ++ erase) /\ ed_cur ed <> [].
Proof.
  intros A Hne. pose proof A as (A1 & A2 & A3 & A4 & A5). destruct (unput_ok _ A1 Hne) as [Io Ho]. rewrite A3 in Ho.
  unfold bind. cbn [upd_cons modify]. set (x' := set_ce (u32 (c_e (cc s) - 1)) (cc s)) in *.
  destruct (echo_run BACKSPACE (mkCst x' (cu s)) lk (editor_of x') out) as (u' & H1 & C1); [done|].
  exists (mkCst x' u'). split; [exact H1|]. rewrite Ho. cbn [ed_lines ed_cur]. rewrite removelast_last.
  split; [by destruct (editor_of x')|]. by destruct (ed_cur (editor_of x')).
Qed.

Lemma append_run c s lk ed out : cons_at s lk ed out -> u32 (c_e (cc s) - c_r (cc s)) < INPUT_BUF_SIZE -> 0 <= c < 256 ->
  exists s', (zu (consputc c) ;;;
      upd_cons (set_cell (c_e (cc s)) c) ;;;
      upd_cons (fun x => set_ce (u32 (c_e x + 1)) x) ;;;
      do s <- get;
      if (c =? NL) || (c =? CTRL_D) || (u32 (c_e (cc s) - c_r (cc s)) =? INPUT_BUF_SIZE) then
        upd_cons (fun x => set_cw (c_e x) x) ;;; return true
      else return false) s =
    (let cur := ed_cur ed ++ [c] in
     Ok ((c =? NL) || (c =? CTRL_D) || (Z.of_nat (length (ed_lines ed) + length cur) =? INPUT_BUF_SIZE)) s') /\
    cons_at s' lk (let cur := ed_cur ed ++ [c] in
      if (c =? NL) || (c =? CTRL_D) || (Z.of_nat (length (ed_lines ed) + length cur) =? INPUT_BUF_SIZE)
      then mkEditor (ed_lines ed ++ cur) [] else mkEditor (ed_lines ed) cur) (out ++ [u8 c]).
Proof.
  intros A Hlt Hc. destruct (echo_run c s lk ed out A) as (u' & H1 & C1).
  assert (echoed c = [u8 c]) as Hecho by (unfold echoed; destruct (Z.eqb_spec c BACKSPACE); [unfold BACKSPACE in *; lia|done]).
  rewrite Hecho in C1. unfold bind at 1. rewrite H1. destruct C1 as (A1 & A2 & A3 & A4 & A5). cbn [cc cu] in *.
  destruct (put_ok (cc s) c A1 Hlt) as (E1 & O1 & O2 & E2). rewrite A3 in E1, E2.
  set (x' := set_ce (u32 (c_e (cc s) + 1)) (set_cell (c_e (cc s)) c (cc s))) in *.
  assert (u32 (c_e x' - c_r x') = Z.of_nat (length (ed_lines ed) + length (ed_cur ed ++ [c]))) as Hlen.
  { destruct (cur_length (cc s) A1) as [L1 _]. rewrite A3 in L1. cbn [x' set_ce set_cell c_e c_r].
    rewrite length_app. cbn. rewrite Nat.add_assoc, Nat2Z.inj_add, L1. 
    unfold u32. rewrite Zminus_mod_idemp_l. replace (c_e (cc s) + 1 - c_r (cc s)) with (c_e (cc s) - c_r (cc s) + 1) by lia.
    rewrite <- Zplus_mod_idemp_l. apply Z.mod_small. unfold u32, INPUT_BUF_SIZE in *. pose proof (u32_range (c_e (cc s) - c_r (cc s))).
    unfold u32 in *. lia. }
  unfold bind at 1, upd_cons at 1. cbn [modify]. unfold bind at 1, upd_cons at 1. cbn [modify]. unfold bind at 1. cbn [get cc cu].
  change (set_ce (u32 (c_e (set_cell (c_e (cc s)) c (cc s)) + 1)) (set_cell (c_e (cc s)) c (cc s))) with x'. rewrite Hlen.
  destruct ((c =? NL) || (c =? CTRL_D) || (Z.of_nat (length (ed_lines ed) + length (ed_cur ed ++ [c])) =? INPUT_BUF_SIZE)) eqn:Hw.
  - eexists. split; [reflexivity|]. split; [exact O2|]. done.
  - eexists. split; [reflexivity|]. split; [apply O1; intros ->; done|]. done.
Qed.

Lemma switch_run dump c s lk ed out : cons_at s lk ed out -> 0 <= c < 256 ->
  exists s', consoleintr_switch dump c s = Ok (edit dump c ed).1.2 s' /\ cons_at s' lk (edit dump c ed).1.1 (out ++ (edit dump c ed).2).
Proof.
  intros A Hc. pose proof A as (A1 & A2 & A3 & A4 & A5). destruct (cur_length _ A1) as [Hl1 Hl2]. rewrite A3 in Hl1.
  unfold consoleintr_switch, edit. destruct (c =? CTRL_P).
  { destruct (dump_run dump s lk ed out A) as (s' & H1 & C1). exists s'. by rewrite (bind_Ok _ _ _ _ _ H1). }
  destruct (c =? CTRL_U).
  { destruct (kill_line_run (Z.to_nat INPUT_BUF_SIZE) s lk ed out A) as (s' & H1 & C1); [lia|].
    exists s'. by rewrite (bind_Ok _ _ _ _ _ H1). }
  destruct ((c =? CTRL_H) || (c =? DEL)).
  { unfold bind at 1. cbn [get]. pose proof (cur_empty _ A1) as He. rewrite A3 in He.
    destruct (Z.eqb_spec (c_e (cc s)) (c_w (cc s))) as [Heq|Hne].
    - exists s. destruct (ed_cur ed) eqn:Ec; [|done]. cbn. rewrite app_nil_r. split; [done|]. destruct ed. cbn in *. by subst.
    - destruct (backspace_run s lk ed out A Hne) as (s' & H1 & C1 & Hn). exists s'. cbn [negb].
      rewrite (bind_Ok _ _ _ _ _ H1). split; [done|]. by destruct (ed_cur ed). }
  unfold bind at 1. cbn [get]. rewrite <- Hl1.
  destruct (negb (c =? 0) && (Z.of_nat (length (ed_lines ed) + length (ed_cur ed)) <? INPUT_BUF_SIZE)) eqn:Hg.
  - apply andb_true_iff in Hg as [_ Hg%Z.ltb_lt]. cbv zeta.
    destruct (append_run (if c =? CR then NL else c) s lk ed out A ltac:(lia)) as (s' & H1 & C1).
    { unfold CR, NL. destruct (Z.eqb_spec c 13); lia. }
    exists s'. cbv zeta in H1, C1.
    destruct (((if c =? CR then NL else c) =? NL) || _ || _); by split.
  - exists s. cbn. by rewrite app_nil_r.
Qed.

(** C38: the interrupt handler of the console is the line editor [edit]: for every
    key and every state of the circular buffer it returns, releases the lock,
    and leaves the input, the line being typed, the echo and the wakeup that the
    editor has; the input never exceeds the buffer. *)
Theorem consoleintr_edits (dump : list Z) (c : Z) (s : cst) (ed : editor) (out : list Z) :
  cons_at s initlock ed out -> 0 <= c < 256 ->
  exists s', consoleintr dump c s = Ok (edit dump c ed).1.2 s' /\
    cons_at s' initlock (edit dump c ed).1.1 (out ++ (edit dump c ed).2) /\
    Z.of_nat (length (ed_lines (edit dump c ed).1.1) + length (ed_cur (edit dump c ed).1.1)) <= INPUT_BUF_SIZE.
Proof.
  intros A0 Hc. destruct (c_acquire_run _ _ _ A0) as (s1 & H1 & C1).
  destruct (switch_run dump c s1 held_lock ed out C1 Hc) as (s2 & H2 & C2).
  destruct (c_release_run _ _ _ C2) as (s3 & H3 & C3). exists s3. split; [|split; [exact C3|]].
  - unfold consoleintr. rewrite (bind_Ok _ _ _ _ _ H1), (bind_Ok _ _ _ _ _ H2), (bind_Ok _ _ _ _ _ H3). done.
  - destruct C3 as (O3 & _ & <- & _ & _). destruct (cur_length _ O3) as [-> ?]. done.
Qed.

(** An empty console on a fresh UART. *)
Definition cons0 : cons := mkCons initlock (replicate (Z.to_nat INPUT_BUF_SIZE) 0) 0 0 0.
Definition uart0 : uart :=
  mkUart initlock (replicate (Z.to_nat UART_TX_BUF_SIZE) 0) 0 0 false 0 (mkUdev [] 0 (fun _ => 3%nat) 0 [] []).

Lemma cons0_at : cons_at (mkCst cons0 uart0) initlock (mkEditor [] []) [].
Proof. split; [|done]. split; [by split|done|done|]. apply not_elem_of_nil. Qed.

Lemma consoleintr_edits_witness : exists s',
  consoleintr [] CR (mkCst cons0 uart0) = Ok true s' /\ cons_at s' initlock (mkEditor [NL] []) [NL].
Proof.
  destruct (consoleintr_edits [] CR (mkCst cons0 uart0) (mkEditor [] []) [] cons0_at ltac:(done)) as (s' & H1 & C1 & _).
  exists s'. split; [exact H1|exact C1].
Defined.

(** ** The UART driver sends in order *)

Notation uring u := (ring UART_TX_BUF_SIZE (2 ^ 64) (u_buf u) (u_r u) (u_w u)).
Definition uart_ok (u : uart) : Prop :=
  ring_ok UART_TX_BUF_SIZE (2 ^ 64) (u_buf u) (u_r u) (u_w u) /\ panicked u = false /\ Forall is_byte (uring u).

Lemma uart_wraps : (UART_TX_BUF_SIZE | 2 ^ 64).
Proof. by exists 576460752303423488. Qed.

(** How [uartstart] takes [u] to [u']: bytes of the buffer were sent in order, each
    announced by a [wakeup], and either the buffer is empty and the interrupt was
    acknowledged, or the device is busy. *)
Definition started (u u' : uart) : Prop :=
  u_sent u' ++ uring u' = u_sent u ++ uring u /\
  (u_wakes u' + length (u_sent u) = u_wakes u + length (u_sent u'))%nat /\
  (uring u' = [] /\ (u_isr u < u_isr u')%nat \/ u_room u' = 0%nat).

Lemma uartstart_empty fuel u : uart_ok u -> uring u = [] ->
  exists u', uartstart_loop fuel u = Ok tt u' /\ uart_ok u' /\ u_lock u' = u_lock u /\ started u u'.
Proof.
  intros (I & P & B) E. apply (ring_empty UART_TX_BUF_SIZE (2 ^ 64)) in E as E'; [|done..].
  assert (uartstart_loop fuel u = read_isr u) as -> by (destruct fuel; cbn [uartstart_loop]; unfold bind; cbn [get]; by rewrite E', Z.eqb_refl).
  eexists. split; [reflexivity|]. split; [by split|]. split; [done|]. split; [done|]. split; [done|]. left. split; [done|]. unfold u_isr. cbn. apply le_n.
Qed.
Lemma uartstart_run fuel u : uart_ok u -> (length (uring u) <= fuel)%nat ->
  exists u', uartstart_loop fuel u = Ok tt u' /\ uart_ok u' /\ u_lock u' = u_lock u /\ started u u'.
Proof.
  revert u. induction fuel as [|f IH]; intros u (I & P & B) Hf.
  { apply uartstart_empty; [done|]. by destruct (uring u); [|cbn in Hf; lia]. }
  destruct (decide (uring u = [])) as [E|Hne]; [by apply uartstart_empty|].
  cbn [uartstart_loop]; unfold bind at 1; cbn [get].
  destruct (Z.eqb_spec (u_w u) (u_r u)) as [He|Hwr].
  { destruct Hne. by apply (ring_empty UART_TX_BUF_SIZE (2 ^ 64)). }
  unfold bind at 1. cbn [tx_idle gets].
  destruct (Nat.ltb_spec 0 (u_room u)) as [Hroom|Hroom]; cbn [negb].
  2:{ exists u. split; [done|]. split; [done|]. split; [done|]. split; [done|]. split; [done|]. right. lia. }
  destruct (ring_take UART_TX_BUF_SIZE (2 ^ 64) ltac:(done) ltac:(done) uart_wraps _ _ _ I ltac:(done)) as [I1 E1].
  set (c := nth _ _ _) in *. unfold bind at 1. cbn [modify]. unfold bind at 1. cbn [wakeup_tx modify].
  unfold bind at 1. cbn [write_thr upd_dev modify].
  rewrite E1 in B, Hf. apply Forall_cons in B as [Bc B]. cbn in Hf.
  match goal with |- context [uartstart_loop f ?u1] => set (u1' := u1) end.
  destruct (IH u1') as (u' & H' & I' & L' & S' & W' & R'); [done|apply le_S_n; exact Hf|].
  exists u'. split; [exact H'|]. split; [done|]. split; [done|]. split; [|split; [|done]].
  - rewrite S', E1. unfold u1', u_sent. cbn. unfold u8. unfold is_byte in Bc. rewrite (Z.mod_small c) by lia. by rewrite <- app_assoc.
  - unfold u1', u_sent in W'. cbn in W'. rewrite length_app in W'. cbn in W'. unfold u_sent. lia.
Qed.

Lemma ring_bytes_app u c : Forall is_byte (uring u) -> is_byte c -> Forall is_byte (uring u ++ [c]).
Proof. intros. apply Forall_app. split; [done|]. by apply Forall_singleton. Qed.

(** The driver runs, and the device takes bytes from its holding register. *)
Inductive uart_step : uart * list Z -> uart * list Z -> Prop :=
| us_put c u u' put : uartputc c u = Ok true u' -> uart_step (u, put) (u', put ++ [u8 c])
| us_full c u u' put : uartputc c u = Ok false u' -> uart_step (u, put) (u', put)
| us_intr u u' put : (u_spin lk_acquire ;;; uartstart ;;; u_spin lk_release) u = Ok tt u' -> uart_step (u, put) (u', put)
| us_room n u put : uart_step (u, put)
    (set_udev (set_room n (u_dev u)) u, put).

(** The bytes put are those sent and those buffered, and every byte sent since there
    were [n0], at [w0] wakeups, was announced by one. *)
Definition uart_inv (w0 n0 : nat) (m : uart * list Z) : Prop :=
  uart_ok m.1 /\ u_lock m.1 = initlock /\ m.2 = u_sent m.1 ++ uring m.1 /\
  (u_wakes m.1 + n0 = w0 + length (u_sent m.1))%nat.

Lemma uart_lock_ok lk u : uart_ok u -> uart_ok (set_ulock lk u).
Proof. done. Qed.

Lemma uartputc_spec c u : uart_ok u -> u_lock u = initlock ->
  exists b u', uartputc c u = Ok b u' /\ uart_ok u' /\ u_lock u' = initlock /\
    (if b : bool then
       u_sent u' ++ uring u' = u_sent u ++ uring u ++ [u8 c] /\
       (u_wakes u' + length (u_sent u) = u_wakes u + length (u_sent u'))%nat /\
       (uring u' = [] /\ (u_isr u < u_isr u')%nat \/ u_room u' = 0%nat)
     else Z.of_nat (length (uring u)) = UART_TX_BUF_SIZE /\ u' = u).
Proof.
  intros (I & P & B) Hl. unfold uartputc, u_spin. unfold bind at 1, zoom at 1. rewrite Hl. cbn [lk_acquire acquire_word holding].
  change (lk_acquire initlock) with (@Ok spinlock unit tt held_lock). cbv iota.
  unfold bind at 1. cbn [get set_ulock panicked u_w u_r]. rewrite P.
  destruct (Z.eqb_spec (u_w u) (u64 (u_r u + UART_TX_BUF_SIZE))) as [Hfull|Hnf].
  - exists false, u. split; [unfold bind, zoom; cbn; destruct u; cbn in *; by subst|]. split; [done|]. split; [done|].
    split; [|done]. by apply (ring_full UART_TX_BUF_SIZE (2 ^ 64)).
  - destruct (ring_put UART_TX_BUF_SIZE (2 ^ 64) ltac:(done) ltac:(done) uart_wraps _ _ _ (u8 c) I Hnf) as [I1 E1].
    unfold bind at 1. cbn [modify set_ulock u_lock u_buf u_w u_r panicked u_wakes u_dev].
    match goal with |- context [bind uartstart _ ?u1] => set (u1' := u1) end.
    assert (uart_ok u1') as I1'. { split; [exact I1|]. split; [done|]. cbn [u1' u_buf u_r u_w]. unfold u64. rewrite E1.
      apply ring_bytes_app; [done|]. unfold is_byte, u8. by apply Z.mod_pos_bound. }
    destruct (uartstart_run (Z.to_nat UART_TX_BUF_SIZE) u1' I1') as (u2 & H2 & I2 & L2 & S2 & W2 & R2).
    { pose proof (ring_length UART_TX_BUF_SIZE (2 ^ 64) ltac:(done) ltac:(done) (u_buf u1') (u_r u1') (u_w u1')) as Hlen.
      pose proof (ro_len _ _ _ _ _ (proj1 I1')). lia. }
    exists true, (set_ulock initlock u2). unfold bind, uartstart. rewrite H2. unfold zoom. rewrite L2. 
    split; [done|]. split; [done|]. split; [done|]. split; [|by split].
    change (u_sent (set_ulock initlock u2)) with (u_sent u2). change (uring (set_ulock initlock u2)) with (uring u2).
    rewrite S2. cbn [u1' u_sent u_buf u_r u_w]. unfold u64. rewrite E1. done.
Qed.

Lemma uartintr_start_spec u u' : uart_ok u -> u_lock u = initlock ->
  (u_spin lk_acquire ;;; uartstart ;;; u_spin lk_release) u = Ok tt u' ->
  uart_ok u' /\ u_lock u' = initlock /\ started u u'.
Proof.
  intros I L H. unfold bind in H. unfold u_spin, zoom in H. rewrite L in H. cbn [lk_acquire] in H.
  change (lk_acquire initlock) with (@Ok spinlock unit tt held_lock) in H. cbv iota in H.
  destruct (uartstart_run (Z.to_nat UART_TX_BUF_SIZE) (set_ulock held_lock u)) as (u3 & H3 & I3 & L3 & S3); [done| |].
  { pose proof (ring_length UART_TX_BUF_SIZE (2 ^ 64) ltac:(done) ltac:(done) (u_buf u) (u_r u) (u_w u)) as Hlen.
    pose proof (ro_len _ _ _ _ _ (proj1 I)). cbn in *. lia. }
  unfold uartstart in H. rewrite H3, L3 in H. injection H as <-. by split.
Qed.

(** C37: the UART transmit buffer is a queue between [uartputc] and the device:
    whatever the order of writes, transmit interrupts and of the device becoming
    ready, the bytes sent followed by the bytes buffered are the bytes put, in
    order, at most [UART_TX_BUF_SIZE] are buffered, and every byte taken from the
    buffer was announced by a [wakeup] (so a write that sleeps is woken).  A write that
    does not go to sleep leaves the buffer empty with the interrupt acknowledged, or
    the device busy (so its interrupt will come); a write sleeps only when the buffer
    is full. *)
Theorem uart_sends_in_order (u0 u : uart) (put : list Z) :
  uart_ok u0 -> u_lock u0 = initlock -> star uart_step (u0, u_sent u0 ++ uring u0) (u, put) ->
  put = u_sent u ++ uring u /\ Z.of_nat (length (uring u)) <= UART_TX_BUF_SIZE /\
  (u_wakes u + length (u_sent u0) = u_wakes u0 + length (u_sent u))%nat /\
  (forall c, exists b u', uartputc c u = Ok b u' /\
    (b = false -> Z.of_nat (length (uring u)) = UART_TX_BUF_SIZE /\ u' = u) /\
    (b = true -> uring u' = [] /\ (u_isr u < u_isr u')%nat \/ u_room u' = 0%nat)).
Proof.
  intros I0 L0 Hs. assert (uart_inv (u_wakes u0) (length (u_sent u0)) (u, put)) as (I & L & E & W).
  { eapply star_invariant; [|exact Hs|by split]. intros m m' (I1 & L1 & E1 & W1) Hst.
    destruct Hst as [c u1 u2 p H|c u1 u2 p H|u1 u2 p H|n u1 p]; cbn [fst snd] in *.
    - destruct (uartputc_spec c u1 I1 L1) as (b & u' & H' & I' & L' & S'). rewrite H in H'. injection H' as <- <-.
      destruct S' as (S' & W' & _). split; [done|]. split; [done|]. cbn [fst snd]. rewrite S', E1, <- app_assoc. split; [done|lia].
    - destruct (uartputc_spec c u1 I1 L1) as (b & u' & H' & I' & L' & F'). rewrite H in H'. injection H' as <- <-.
      destruct F' as [_ ->]. by split.
    - destruct (uartintr_start_spec u1 u2 I1 L1 H) as (I2 & L2 & S2 & W2 & _).
      split; [done|]. split; [done|]. cbn [fst snd]. split; [by rewrite S2|lia].
    - by split. }
  split; [exact E|]. cbn in I. split; [|split; [exact W|]].
  - rewrite (ring_length UART_TX_BUF_SIZE (2 ^ 64)) by done. apply I.
  - intros c. destruct (uartputc_spec c u I L) as (b & u' & H' & _ & _ & F'). exists b, u'. split; [done|]. destruct b; [|done]. by split; [|intros _; apply F'].
Qed.

Lemma uart_sends_in_order_witness : exists u put, star uart_step (uart0, []) (u, put) /\ put = [65; 66] /\ put = u_sent u ++ uring u /\ u_wakes u = 1%nat.
Proof.
  assert (exists u, star uart_step (uart0, []) (u, [65; 66]) /\ u_sent u = [65]) as (u & Hs & Hu).
  { eexists. split.
    - eapply star_next; [apply (us_room 1)|].
      eapply star_next; [eapply (us_put 65); vm_compute; reflexivity|].
      eapply star_next; [eapply (us_put 66); vm_compute; reflexivity|]. apply star_refl.
    - reflexivity. }
  exists u, [65; 66]. split; [exact Hs|]. split; [reflexivity|].
  destruct (uart_sends_in_order uart0 u [65; 66]) as (H & _ & W & _); [|reflexivity|exact Hs|].
  - split; [by split|]. split; [reflexivity|]. constructor.
  - rewrite Hu in W. cbn in W. split; [exact H|lia].
Defined.
