(* ===== verification/Printf.v ===== *)
(** * Formatted output: [kernel/printf.c] and [procdump]

    [printf] walks the format by index and prints through [consputc]; the
    theorems show that it prints what a structural reading of the format gives
    ([render], with numbers as numerals), that numbers are printed so that they can be
    read back, and when [printint]
    stores outside its buffer of 16 characters. *)

From stdpp Require Import base list gmap strings.
From S2P Require Import Prelude Riscv Spinlock Console ProcData.

(** [pr], and the device below. *)
Record prst := mkPr { pr_lock : spinlock; pr_locking : bool; pr_uart : uart }.
Definition pr_spin : M spinlock unit -> M prst unit :=
  zoom pr_lock (fun lk s => mkPr lk (pr_locking s) (pr_uart s)).
Definition pr_putc (c : Z) : M prst unit :=
  zoom pr_uart (fun u s => mkPr (pr_lock s) (pr_locking s) u) (consputc c).

(** A C program that stores outside an array, or reads an argument that was not
    passed, has no defined behaviour: the model stops there. *)
Definition undefined {S A} : M S A := panic "undefined behaviour".

Definition chars (s : string) : list Z := (fun a => Z.of_N (Ascii.N_of_ascii a)) <$> String.list_ascii_of_string s.
Definition digits : list Z := Eval vm_compute in chars "0123456789abcdef".
Definition MINUS : Z := 45.
Definition PERCENT : Z := 37.
Definition BUFLEN : nat := 16.

(** The loop [do { buf[i++] = digits[x % base]; } while((x /= base) != 0)]:
    [buf] is the part of the array stored so far; [None] is a store outside. *)
Fixpoint printint_loop (fuel : nat) (buf : list Z) (x base : Z) : option (list Z) :=
  if (length buf <? BUFLEN)%nat then
    let buf := buf ++ [nth (Z.to_nat (x mod base)) digits 0] in
    let x := x / base in
    if x =? 0 then Some buf
    else match fuel with O => None | S f => printint_loop f buf x base end
  else None.
Definition printint_buf (xx base : Z) (sign : bool) : option (list Z) :=
  let neg := sign && (xx <? 0) in
  let x := if neg then u64 (- xx) else u64 xx in
  match printint_loop BUFLEN [] x base with
  | Some buf => if neg then (if (length buf <? BUFLEN)%nat then Some (buf ++ [MINUS]) else None) else Some buf
  | None => None
  end.
(** [while(--i >= 0) consputc(buf[i])] *)
Fixpoint put_all (cs : list Z) : M prst unit :=
  match cs with [] => return tt | c :: r => pr_putc c ;;; put_all r end.
Definition printint (xx base : Z) (sign : bool) : M prst unit :=
  match printint_buf xx base sign with
  | Some buf => put_all (rev buf)
  | None => undefined
  end.

Fixpoint printptr_loop (n : nat) (x : Z) : M prst unit :=
  match n with
  | O => return tt
  | S n => pr_putc (nth (Z.to_nat (Z.shiftr x 60)) digits 0) ;;; printptr_loop n (u64 (Z.shiftl x 4))
  end.
Definition printptr (x : Z) : M prst unit := pr_putc 48 ;;; pr_putc 120 ;;; printptr_loop 16 x.

(** The arguments: a register's 64 bits, or a string ([None] is the null
    pointer). *)
Inductive varg := VNum (z : Z) | VStr (s : option (list Z)).
(** [for(; *s; s++)]: the bytes before the nul; the bytes of a string argument are
    followed by a nul if they hold none. *)
Fixpoint c_string (bs : list Z) : list Z :=
  match bs with [] => [] | b :: r => if b =? 0 then [] else b :: c_string r end.

Definition va_num (ap : list varg) (k : Z -> list varg -> M prst unit) : M prst unit :=
  match ap with VNum z :: ap => k z ap | _ => undefined end.
Definition va_str (ap : list varg) (k : option (list Z) -> list varg -> M prst unit) : M prst unit :=
  match ap with VStr s :: ap => k s ap | _ => undefined end.
(** [va_arg(ap, int)] and [va_arg(ap, uint64)], as the [long long] passed on. *)
Definition as_int (z : Z) : Z := s32 z.
Definition s64 (z : Z) : Z := (z + 2 ^ 63) mod 2 ^ 64 - 2 ^ 63.

(** The body of [printf]: [fmt[i]] for [i] past the end is the nul. *)
Fixpoint printf_loop (fuel : nat) (fmt : list Z) (i : nat) (ap : list varg) : M prst unit :=
  match fuel with
  | O => fun _ => Diverge
  | S f =>
    let cx := nth i fmt 0 in
    if cx =? 0 then return tt
    else if negb (cx =? PERCENT) then pr_putc cx ;;; printf_loop f fmt (i + 1) ap
    else
      let i := (i + 1)%nat in
      let c0 := nth i fmt 0 in
      let c1 := if negb (c0 =? 0) then nth (i + 1) fmt 0 else 0 in
      let c2 := if negb (c1 =? 0) then nth (i + 2) fmt 0 else 0 in
      if c0 =? 100 then va_num ap (fun z ap => printint (as_int z) 10 true ;;; printf_loop f fmt (i + 1) ap)
      else if (c0 =? 108) && (c1 =? 100) then va_num ap (fun z ap => printint (s64 z) 10 true ;;; printf_loop f fmt (i + 2) ap)
      else if (c0 =? 108) && (c1 =? 108) && (c2 =? 100) then va_num ap (fun z ap => printint (s64 z) 10 true ;;; printf_loop f fmt (i + 3) ap)
      else if c0 =? 117 then va_num ap (fun z ap => printint (as_int z) 10 false ;;; printf_loop f fmt (i + 1) ap)
      else if (c0 =? 108) && (c1 =? 117) then va_num ap (fun z ap => printint (s64 z) 10 false ;;; printf_loop f fmt (i + 2) ap)
      else if (c0 =? 108) && (c1 =? 108) && (c2 =? 117) then va_num ap (fun z ap => printint (s64 z) 10 false ;;; printf_loop f fmt (i + 3) ap)
      else if c0 =? 120 then va_num ap (fun z ap => printint (as_int z) 16 false ;;; printf_loop f fmt (i + 1) ap)
      else if (c0 =? 108) && (c1 =? 120) then va_num ap (fun z ap => printint (s64 z) 16 false ;;; printf_loop f fmt (i + 2) ap)
      else if (c0 =? 108) && (c1 =? 108) && (c2 =? 120) then va_num ap (fun z ap => printint (s64 z) 16 false ;;; printf_loop f fmt (i + 3) ap)
      else if c0 =? 112 then va_num ap (fun z ap => printptr (u64 z) ;;; printf_loop f fmt (i + 1) ap)
      else if c0 =? 115 then
        va_str ap (fun s ap =>
          put_all (c_string (match s with None => chars "(null)" | Some s => s end)) ;;; printf_loop f fmt (i + 1) ap)
      else if c0 =? PERCENT then pr_putc PERCENT ;;; printf_loop f fmt (i + 1) ap
      else if c0 =? 0 then return tt
      else pr_putc PERCENT ;;; pr_putc c0 ;;; printf_loop f fmt (i + 1) ap
  end.

Definition printf (fmt : list Z) (ap : list varg) : M prst Z :=
  do locking <- gets pr_locking;
  (if (locking : bool) then pr_spin lk_acquire else return tt) ;;;
  printf_loop (S (length fmt)) fmt 0 ap ;;;
  (if (locking : bool) then pr_spin lk_release else return tt) ;;;
  return 0.

Definition printfinit : M prst unit :=
  modify (fun s => mkPr initlock true (pr_uart s)).

(** [panic(s)] up to its final [for(;;)]. *)
Definition set_locking b (s : prst) : prst := mkPr (pr_lock s) b (pr_uart s).
Definition set_panicked (u : uart) : uart :=
  mkUart (u_lock u) (u_buf u) (u_w u) (u_r u) true (u_wakes u) (u_dev u).
Definition panic_enter (s : list Z) : M prst unit :=
  modify (set_locking false) ;;;
  printf (chars "panic: ") [] ;;;
  printf (chars "%s" ++ [NL]) [VStr (Some s)] ;;;
  modify (fun s => mkPr (pr_lock s) (pr_locking s) (set_panicked (pr_uart s))).

(** [procdump] *)
Definition state_name (st : procstate) : list Z :=
  chars (match st with
         | UNUSED => "unused" | USED => "used" | SLEEPING => "sleep " | RUNNABLE => "runble"
         | RUNNING => "run   " | ZOMBIE => "zombie" end).
Definition procdump (t : ptable) : M prst unit :=
  printf [NL] [] ;;;
  for_range (Z.to_nat NPROC) 0 (fun i =>
    let p := proc_at t i in
    if decide (p_state p = UNUSED) then return tt
    else
      printf (chars "%d %s %s") [VNum (p_pid p); VStr (Some (state_name (p_state p))); VStr (Some (p_name p))] ;;;
      printf [NL] [] ;;;
      return tt).

(** ** What a format means *)

Inductive token :=
| TLit (c : Z)
| TNum (long : bool) (base : Z) (sign : bool)
| TPtr
| TStr
| TBad (c : Z).

(** The conversions that may follow [l], and all the others. *)
Definition num_conv (long : bool) (c : Z) : option token :=
  if c =? 100 then Some (TNum long 10 true)
  else if c =? 117 then Some (TNum long 10 false)
  else if c =? 120 then Some (TNum long 16 false)
  else None.
Definition conv (c : Z) : option token :=
  match num_conv false c with
  | Some t => Some t
  | None => if c =? 112 then Some TPtr else if c =? 115 then Some TStr else if c =? PERCENT then Some (TLit PERCENT) else None
  end.

(** The tokens of a format; a [%] at its end is dropped. *)
Fixpoint lex (fmt : list Z) : list token :=
  match fmt with
  | [] => []
  | c :: r =>
    if negb (c =? PERCENT) then TLit c :: lex r
    else match r with
    | [] => []
    | c0 :: r0 =>
      match conv c0 with
      | Some t => t :: lex r0
      | None =>
        if negb (c0 =? 108) then TBad c0 :: lex r0
        else match r0 with
        | [] => [TBad c0]
        | c1 :: r1 =>
          match num_conv true c1 with
          | Some t => t :: lex r1
          | None =>
            if negb (c1 =? 108) then TBad c0 :: lex r0
            else match r1 with
            | [] => TBad c0 :: lex r0
            | c2 :: r2 => match num_conv true c2 with Some t => t :: lex r2 | None => TBad c0 :: lex r0 end
            end
          end
        end
      end
    end
  end.

(** The character of a digit. *)
Definition digit_char (d : Z) : Z := if d <? 10 then 48 + d else 97 + (d - 10).
(** The numeral of [x], most significant digit first. *)
Fixpoint numeral (fuel : nat) (base x : Z) : list Z :=
  match fuel with
  | O => []
  | S f => (if x <? base then [] else numeral f base (x / base)) ++ [digit_char (x mod base)]
  end.
(** A number of 64 bits has at most 64 digits. *)
Definition number (base : Z) (sign : bool) (v : Z) : list Z :=
  if sign && (v <? 0) then MINUS :: numeral 64 base (- v) else numeral 64 base (u64 v).
(** The 16 hexadecimal digits of a pointer. *)
Definition pointer (x : Z) : list Z := (fun i => digit_char (x / 16 ^ (15 - Z.of_nat i) mod 16)) <$> seq 0 16.

(** The text of a list of tokens: a number is its numeral, signed for [%d] and that of
    its two's complement otherwise, and has a text only if that has at most 16
    characters. *)
Fixpoint render (ts : list token) (ap : list varg) : option (list Z) :=
  match ts with
  | [] => Some []
  | TLit c :: ts => app [c] <$> render ts ap
  | TBad c :: ts => app [PERCENT; c] <$> render ts ap
  | TNum long base sign :: ts =>
    match ap with
    | VNum z :: ap =>
      let t := number base sign (if long then s64 z else s32 z) in
      if (length t <=? 16)%nat then app t <$> render ts ap else None
    | _ => None
    end
  | TPtr :: ts => match ap with VNum z :: ap => app (chars "0x" ++ pointer (u64 z)) <$> render ts ap | _ => None end
  | TStr :: ts =>
    match ap with
    | VStr None :: ap => app (chars "(null)") <$> render ts ap
    | VStr (Some s) :: ap => app (c_string s) <$> render ts ap
    | _ => None
    end
  end.

Definition pr_send (out : list Z) (s : prst) : prst := mkPr (pr_lock s) (pr_locking s) (u_send out (pr_uart s)).
Definition vbyte (v : varg) : Prop := match v with VStr (Some s) => Forall is_byte s | _ => True end.

(** [m] prints [out], or stops when there is none. *)
Definition prints {A} (m : M prst A) (a : A) (out : option (list Z)) (s : prst) : Prop :=
  m s = match out with Some out => Ok a (pr_send out s) | None => Panic "undefined behaviour" end.

Lemma pr_send_nil s : pr_send [] s = s.
Proof. destruct s as [lk b [? ? ? ? ? ? []]]. unfold pr_send, u_send, set_udev. cbn. by rewrite Nat.sub_0_r, app_nil_r. Qed.
Lemma pr_send_app o1 o2 s : pr_send o2 (pr_send o1 s) = pr_send (o1 ++ o2) s.
Proof. unfold pr_send, u_send, set_udev. cbn. rewrite length_app, app_assoc. do 3 f_equal. lia. Qed.

Lemma prints_seq {A} m (k : M prst A) a o1 o2 s :
  prints m tt (Some o1) s -> prints k a o2 (pr_send o1 s) -> prints (m ;;; k) a (app o1 <$> o2) s.
Proof. unfold prints. intros H1 H2. rewrite (bind_Ok _ _ _ _ _ H1), H2. destruct o2; cbn; [by rewrite pr_send_app|done]. Qed.

Lemma pr_putc_prints c s : is_byte c -> panicked (pr_uart s) = false -> prints (pr_putc c) tt (Some [c]) s.
Proof.
  unfold is_byte, prints. intros Hc Hp. destruct s as [lk b u]. cbn in Hp. unfold pr_putc, consputc, BACKSPACE.
  destruct (Z.eqb_spec c 0x100); [lia|]. unfold zoom. cbn [pr_uart]. rewrite putc_sync_sends by done.
  unfold pr_send, u8. cbn. by rewrite Z.mod_small by lia.
Qed.

Lemma put_all_prints cs s : Forall is_byte cs -> panicked (pr_uart s) = false -> prints (put_all cs) tt (Some cs) s.
Proof.
  intros H. revert s. induction H as [|c r Hc _ IH]; intros s Hp; cbn [put_all].
  - unfold prints. by rewrite pr_send_nil.
  - apply (prints_seq _ _ _ [c] (Some r)); [by apply pr_putc_prints|]. by apply IH.
Qed.

Lemma digits_bytes i : is_byte (nth i digits 0).
Proof. unfold is_byte, digits. do 16 (destruct i as [|i]; [cbn; lia|]). destruct i; cbn; lia. Qed.

(** The code's table of digits. *)
Lemma digits_char d : 0 <= d < 16 -> nth (Z.to_nat d) digits 0 = digit_char d.
Proof.
  intros Hd. assert (exists n, (n < 16)%nat /\ d = Z.of_nat n) as (n & Hn & ->) by (exists (Z.to_nat d); lia).
  rewrite Nat2Z.id. do 16 (destruct n as [|n]; [done|]). lia.
Qed.

(** The loop stores the numeral backwards, or runs out of the buffer if it is longer. *)
Lemma printint_loop_numeral base : 2 <= base <= 16 -> forall k fuel x buf,
  0 <= x < base ^ Z.of_nat k -> (0 < k)%nat -> (BUFLEN <= length buf + fuel)%nat ->
  printint_loop fuel buf x base =
    if (length buf + length (numeral k base x) <=? BUFLEN)%nat then Some (buf ++ rev (numeral k base x)) else None.
Proof.
  intros Hb k. induction k as [|k IH]; intros fuel x buf Hx Hk Hl; [lia|]. cbn [numeral]. rewrite length_app. cbn [length].
  pose proof (Z.mod_pos_bound x base ltac:(lia)) as Hm.
  assert (forall A (a b : A), (BUFLEN <= length buf)%nat -> forall n, (if (length buf + (n + 1) <=? BUFLEN)%nat then a else b) = b) as Hno.
  { intros A a b H n. by rewrite (proj2 (Nat.leb_gt _ _)) by lia. }
  destruct (Nat.ltb_spec (length buf) BUFLEN) as [Hlt|Hge].
  2:{ rewrite Hno by done. destruct fuel; cbn [printint_loop]; by rewrite (proj2 (Nat.ltb_ge _ _)) by done. }
  destruct fuel as [|f]; [lia|]. cbn [printint_loop]. rewrite (proj2 (Nat.ltb_lt _ _)) by done. rewrite digits_char by lia.
  destruct (Z.ltb_spec x base) as [Hsm|Hbig].
  - rewrite Z.div_small by lia. cbn [length Nat.add app rev Z.eqb]. by rewrite (proj2 (Nat.leb_le _ _)) by lia.
  - assert (0 < x / base) by (apply Z.div_str_pos; lia). rewrite (proj2 (Z.eqb_neq _ _)) by lia.
    destruct k as [|k]; [cbn in Hx; lia|]. rewrite IH; [|split; [lia|]|lia|rewrite length_app; cbn; lia].
    2:{ apply Z.div_lt_upper_bound; [lia|]. rewrite <-Z.pow_succ_r by lia. replace (Z.succ (Z.of_nat (S k))) with (Z.of_nat (S (S k))) by lia. lia. }
    rewrite length_app, rev_app_distr. cbn [length rev app]. rewrite <-app_assoc. cbn [app].
    by replace (length buf + 1 + length (numeral (S k) base (x / base)))%nat with (length buf + (length (numeral (S k) base (x / base)) + 1))%nat by lia.
Qed.

Lemma numeral_bytes fuel base x : 2 <= base <= 16 -> Forall is_byte (numeral fuel base x).
Proof.
  intros Hb. revert x. induction fuel as [|f IH]; intros x; cbn; [done|]. apply Forall_app. split; [by destruct (x <? base)|].
  apply Forall_singleton. unfold is_byte, digit_char. pose proof (Z.mod_pos_bound x base ltac:(lia)). destruct (_ <? 10); lia.
Qed.

(** A value that fits in a [long long]. *)
Definition is_ll (v : Z) : Prop := - 2 ^ 63 <= v < 2 ^ 63.
Lemma printint_buf_number v base sign : 2 <= base <= 16 -> is_ll v ->
  @rev _ <$> printint_buf v base sign = if (length (number base sign v) <=? 16)%nat then Some (number base sign v) else None.
Proof.
  intros Hb Hv. unfold printint_buf, number, is_ll in *.
  assert (2 ^ 64 <= base ^ Z.of_nat 64) as Hp by (apply Z.pow_le_mono_l; lia).
  destruct (sign && (v <? 0)) eqn:Hs.
  - apply andb_prop in Hs as [_ Hs]. apply Z.ltb_lt in Hs. rewrite u64_small by lia.
    rewrite (printint_loop_numeral base Hb 64) by (cbn [length]; unfold BUFLEN; lia). cbn [length Nat.add].
    set (t := numeral 64 base (- v)). unfold BUFLEN. destruct (Nat.leb_spec (length t) 16) as [Hl|Hl].
    + rewrite length_app, length_rev. cbn [length Nat.add app]. destruct (Nat.ltb_spec (length t) 16) as [Hlt|Hge].
      * rewrite (proj2 (Nat.leb_le _ _)) by lia. cbn. by rewrite rev_app_distr, rev_involutive.
      * by rewrite (proj2 (Nat.leb_gt _ _)) by lia.
    + by rewrite (proj2 (Nat.leb_gt _ _)) by lia.
  - assert (0 <= u64 v < 2 ^ 64) by (apply Z.mod_pos_bound; lia).
    rewrite (printint_loop_numeral base Hb 64) by (cbn [length]; unfold BUFLEN; lia). cbn [length Nat.add app].
    unfold BUFLEN. destruct (_ <=? 16)%nat; cbn; [by rewrite rev_involutive|done].
Qed.
Lemma number_bytes base sign v : 2 <= base <= 16 -> Forall is_byte (number base sign v).
Proof. intros Hb. unfold number. destruct (sign && _); [constructor; [done|]|]; by apply numeral_bytes. Qed.

Lemma printint_prints v base sign s : 2 <= base <= 16 -> is_ll v -> panicked (pr_uart s) = false ->
  prints (printint v base sign) tt (if (length (number base sign v) <=? 16)%nat then Some (number base sign v) else None) s.
Proof.
  intros Hb Hv Hp. pose proof (printint_buf_number v base sign Hb Hv) as H. unfold printint.
  destruct (printint_buf v base sign) as [buf|]; cbn in H; destruct (_ <=? 16)%nat; try done. injection H as ->.
  apply put_all_prints; [by apply number_bytes|done].
Qed.

(** The loop prints the top digit and shifts it out. *)
Lemma top_digit k x : (k < 16)%nat -> 0 <= x ->
  nth (Z.to_nat (Z.shiftr (u64 (x * 2 ^ (4 * Z.of_nat k))) 60)) digits 0 = digit_char (x / 16 ^ (15 - Z.of_nat k) mod 16).
Proof.
  intros Hk Hx. rewrite digits_char.
  - f_equal. unfold u64. rewrite Z.shiftr_div_pow2 by lia.
    replace (2 ^ 64) with (2 ^ (64 - 4 * Z.of_nat k) * 2 ^ (4 * Z.of_nat k)) by (rewrite <-Z.pow_add_r by lia; f_equal; lia).
    rewrite Z.mul_mod_distr_r by lia.
    replace (2 ^ 60) with (2 ^ (60 - 4 * Z.of_nat k) * 2 ^ (4 * Z.of_nat k)) by (rewrite <-Z.pow_add_r by lia; f_equal; lia).
    rewrite Z.div_mul_cancel_r by lia.
    replace (2 ^ (64 - 4 * Z.of_nat k)) with (2 ^ (60 - 4 * Z.of_nat k) * 16) by (change 16 with (2 ^ 4) at 1; rewrite <-Z.pow_add_r by lia; f_equal; lia).
    assert (2 ^ (60 - 4 * Z.of_nat k) = 16 ^ (15 - Z.of_nat k)) as -> by (change 16 with (2 ^ 4); rewrite <-Z.pow_mul_r by lia; f_equal; lia).
    assert (0 < 16 ^ (15 - Z.of_nat k)) as Hp by (apply Z.pow_pos_nonneg; lia). set (p := 16 ^ _) in *. clearbody p.
    pose proof (Z.mod_pos_bound x p Hp). rewrite Z.rem_mul_r by lia. rewrite (Z.mul_comm p (_ mod 16)), Z.div_add, Z.div_small by lia. done.
  - rewrite Z.shiftr_div_pow2 by lia. unfold u64. split; [apply Z.div_pos; [apply Z.mod_pos_bound|]; lia|].
    apply Z.div_lt_upper_bound; [lia|]. apply Z.mod_pos_bound. lia.
Qed.
Lemma printptr_loop_prints x : 0 <= x -> forall n k s, (k + n = 16)%nat -> panicked (pr_uart s) = false ->
  prints (printptr_loop n (u64 (x * 2 ^ (4 * Z.of_nat k)))) tt
    (Some ((fun i => digit_char (x / 16 ^ (15 - Z.of_nat i) mod 16)) <$> seq k n)) s.
Proof.
  intros Hx. induction n as [|n IH]; intros k s Hk Hp; cbn [printptr_loop seq fmap list_fmap].
  - unfold prints. by rewrite pr_send_nil.
  - rewrite top_digit by lia. apply (prints_seq _ _ _ [_] (Some _)).
    + apply pr_putc_prints; [|done]. unfold is_byte, digit_char. pose proof (Z.mod_pos_bound (x / 16 ^ (15 - Z.of_nat k)) 16 ltac:(lia)). destruct (_ <? 10); lia.
    + replace (u64 (Z.shiftl _ 4)) with (u64 (x * 2 ^ (4 * Z.of_nat (S k)))); [apply IH; [lia|done]|].
      unfold u64. rewrite Z.shiftl_mul_pow2, Z.mul_mod_idemp_l by lia. f_equal. rewrite <-Z.mul_assoc, <-Z.pow_add_r by lia. do 2 f_equal. lia.
Qed.
Lemma printptr_prints x s : 0 <= x < 2 ^ 64 -> panicked (pr_uart s) = false ->
  prints (printptr x) tt (Some (chars "0x" ++ pointer x)) s.
Proof.
  intros Hx Hp. apply (prints_seq _ _ _ [_] (Some _)); [by apply pr_putc_prints|].
  apply (prints_seq _ _ _ [_] (Some _)); [by apply pr_putc_prints|].
  pose proof (printptr_loop_prints x ltac:(lia) 16 0) as H. rewrite Z.mul_1_r, u64_small in H by lia. by apply H.
Qed.

Lemma chars_bytes s : Forall is_byte (chars s).
Proof.
  unfold chars. apply Forall_fmap, Forall_forall. intros a _. unfold is_byte, compose. pose proof (Ascii.N_ascii_bounded a). lia.
Qed.

Lemma c_string_bytes bs : Forall is_byte bs -> Forall is_byte (c_string bs).
Proof. induction 1 as [|b r Hb _ IH]; cbn; [done|]. destruct (b =? 0); [done|by constructor]. Qed.
Lemma s64_ll z : is_ll (s64 z).
Proof. unfold is_ll, s64. pose proof (Z.mod_pos_bound (z + 2 ^ 63) (2 ^ 64) ltac:(lia)). lia. Qed.
Lemma as_int_ll z : is_ll (as_int z).
Proof. unfold is_ll, as_int, s32. pose proof (Z.mod_pos_bound (z + 2 ^ 31) (2 ^ 32) ltac:(lia)). lia. Qed.

(** One conversion, given what the rest of the format prints. *)
Section conversion.
Context (K : list varg -> M prst unit) (ts : list token).
Context (HK : forall ap s, Forall vbyte ap -> panicked (pr_uart s) = false -> prints (K ap) tt (render ts ap) s).

Lemma num_prints long base sign ap s : 2 <= base <= 16 -> Forall vbyte ap -> panicked (pr_uart s) = false ->
  prints (va_num ap (fun z ap => printint (if long : bool then s64 z else as_int z) base sign ;;; K ap)) tt
    (render (TNum long base sign :: ts) ap) s.
Proof using HK.
  intros Hb Ha Hp. destruct ap as [|[z|st] ap]; [done| |done]. cbn [va_num render]. apply Forall_cons in Ha as [_ Ha].
  assert (is_ll (if long then s64 z else as_int z)) as Hz by (destruct long; [apply s64_ll|apply as_int_ll]).
  pose proof (printint_prints _ base sign s Hb Hz Hp) as Hpi. unfold as_int in *.
  destruct (_ <=? 16)%nat.
  - eapply prints_seq; [exact Hpi|]. by apply HK.
  - unfold prints in *. unfold bind. by rewrite Hpi.
Qed.
Lemma ptr_prints ap s : Forall vbyte ap -> panicked (pr_uart s) = false ->
  prints (va_num ap (fun z ap => printptr (u64 z) ;;; K ap)) tt (render (TPtr :: ts) ap) s.
Proof using HK.
  intros Ha Hp. destruct ap as [|[z|st] ap]; [done| |done]. cbn [va_num render]. apply Forall_cons in Ha as [_ Ha].
  eapply prints_seq; [apply printptr_prints; [apply Z.mod_pos_bound; lia|done]|]. by apply HK.
Qed.
Lemma str_prints ap s : Forall vbyte ap -> panicked (pr_uart s) = false ->
  prints (va_str ap (fun s ap => put_all (c_string (match s with None => chars "(null)" | Some s => s end)) ;;; K ap)) tt
    (render (TStr :: ts) ap) s.
Proof using HK.
  intros Ha Hp. destruct ap as [|[z|st] ap]; [done..|]. cbn [va_str render]. apply Forall_cons in Ha as [Hst Ha].
  destruct st as [st|].
  - eapply prints_seq; [apply put_all_prints; [by apply c_string_bytes|done]|by apply HK].
  - eapply prints_seq; [apply put_all_prints; [apply (chars_bytes "(null)")|done]|by apply HK].
Qed.
Lemma lit_prints c ap s : is_byte c -> Forall vbyte ap -> panicked (pr_uart s) = false ->
  prints (pr_putc c ;;; K ap) tt (render (TLit c :: ts) ap) s.
Proof using HK. intros. eapply (prints_seq _ _ _ [c]); [by apply pr_putc_prints|]. by apply HK. Qed.
Lemma bad_prints c ap s : is_byte c -> Forall vbyte ap -> panicked (pr_uart s) = false ->
  prints (pr_putc PERCENT ;;; pr_putc c ;;; K ap) tt (render (TBad c :: ts) ap) s.
Proof using HK.
  intros. assert (render (TBad c :: ts) ap = app [PERCENT] <$> (app [c] <$> render ts ap)) as -> by (cbn; by destruct (render ts ap)).
  eapply prints_seq; [by apply pr_putc_prints|]. eapply prints_seq; [by apply pr_putc_prints|]. by apply HK.
Qed.
End conversion.

Lemma nth_app_plus {A} (pre rest : list A) k d : nth (length pre + k) (pre ++ rest) d = nth k rest d.
Proof. rewrite app_nth2 by lia. f_equal. lia. Qed.

(** A character of a format. *)
Definition fchar (c : Z) : Prop := is_byte c /\ c <> 0.

(** The three number conversions. *)
Ltac num_cases c K long :=
  destruct (Z.eqb_spec c 100) as [->|]; [by apply (num_prints (fun ap => printf_loop _ _ _ ap) _ K long)|];
  destruct (Z.eqb_spec c 117) as [->|]; [by apply (num_prints (fun ap => printf_loop _ _ _ ap) _ K long)|];
  destruct (Z.eqb_spec c 120) as [->|]; [by apply (num_prints (fun ap => printf_loop _ _ _ ap) _ K long)|].

Lemma printf_loop_prints fuel pre rest ap s :
  Forall fchar rest -> (length rest < fuel)%nat -> Forall vbyte ap -> panicked (pr_uart s) = false ->
  prints (printf_loop fuel (pre ++ rest) (length pre) ap) tt (render (lex rest) ap) s.
Proof.
  revert pre rest ap s. induction fuel as [|f IH]; intros pre rest ap s Hf Hlen Ha Hp; [lia|].
  assert (forall used rest' i, rest = used ++ rest' -> used <> [] -> i = (length pre + length used)%nat ->
    forall ap s, Forall vbyte ap -> panicked (pr_uart s) = false ->
    prints (printf_loop f (pre ++ rest) i ap) tt (render (lex rest') ap) s) as HK.
  { intros used rest' i -> Hu -> ap' s' Ha' Hp'. rewrite app_assoc, <- length_app. apply IH; [|..|done|done].
    - by apply Forall_app in Hf as [_ Hf].
    - rewrite length_app in Hlen. destruct used; [done|]. cbn in Hlen. lia. }
  cbn [printf_loop]. pose proof (nth_app_plus pre rest 0 0) as N0. rewrite Nat.add_0_r in N0.
  rewrite N0, <- !Nat.add_assoc, !nth_app_plus. cbn [Nat.add nth].
  destruct rest as [|c r].
  { unfold prints. cbn. by rewrite pr_send_nil. }
  cbn [nth]. apply Forall_cons in Hf as [[Hb Hc] Hf]. rewrite (proj2 (Z.eqb_neq c 0)) by done. cbn [lex].
  destruct (Z.eqb_spec c PERCENT) as [->|]; cbn [negb].
  2:{ apply (lit_prints (fun ap => printf_loop f _ _ ap)); [|done..]. apply (HK [c] r); [done..|cbn; lia]. }
  destruct r as [|c0 r0].
  { cbn. unfold prints. by rewrite pr_send_nil. }
  cbn [nth]. apply Forall_cons in Hf as [[Hb0 Hc0] Hf]. rewrite !(proj2 (Z.eqb_neq c0 0)) by done. cbn [negb].
  pose proof (HK [PERCENT; c0] r0 (length pre + 2)%nat eq_refl ltac:(done) eq_refl) as K0.
  unfold conv, num_conv at 1.
  num_cases c0 K0 false.
  destruct (Z.eqb_spec c0 112) as [->|]; [by apply (ptr_prints (fun ap => printf_loop f _ _ ap) _ K0)|].
  destruct (Z.eqb_spec c0 115) as [->|]; [by apply (str_prints (fun ap => printf_loop f _ _ ap) _ K0)|].
  destruct (Z.eqb_spec c0 PERCENT) as [->|]; [by apply (lit_prints (fun ap => printf_loop f _ _ ap) _ K0)|].
  pose proof (bad_prints (fun ap => printf_loop f _ _ ap) _ K0 c0 ap s Hb0 Ha Hp) as Kbad. clear K0.
  destruct (Z.eqb_spec c0 108) as [->|]; cbn [negb andb]; [|exact Kbad].
  destruct r0 as [|c1 r1]; [exact Kbad|]. cbn [nth]. apply Forall_cons in Hf as [[Hb1 Hc1] Hf].
  rewrite !(proj2 (Z.eqb_neq c1 0)) by done. cbn [negb]. unfold num_conv at 1.
  pose proof (HK [PERCENT; 108; c1] r1 (length pre + 3)%nat eq_refl ltac:(done) eq_refl) as K1.
  num_cases c1 K1 true.
  destruct (Z.eqb_spec c1 108) as [->|]; cbn [negb andb]; [|exact Kbad]. clear K1.
  destruct r1 as [|c2 r2]; [exact Kbad|]. cbn [nth]. apply Forall_cons in Hf as [_ Hf]. unfold num_conv.
  pose proof (HK [PERCENT; 108; 108; c2] r2 (length pre + 4)%nat eq_refl ltac:(done) eq_refl) as K2.
  num_cases c2 K2 true. exact Kbad.
Qed.

(** C39: [printf] prints exactly the text that its format denotes: for every format
    and every list of arguments, on a machine that has not panicked, it returns 0 with the
    text of the tokens of the format sent and its lock free again; numbers are numerals
    in base 10 or 16, pointers 16 hexadecimal digits, strings end at their nul.  It is
    undefined only where the format has no text: an argument is missing, or the numeral
    with its sign has more characters than the 16 of [printint]'s buffer.  In particular
    its loops end, also those that wait for the device. *)
Theorem printf_renders (fmt : list Z) (ap : list varg) (s : prst) :
  Forall fchar fmt -> Forall vbyte ap -> panicked (pr_uart s) = false -> pr_lock s = initlock ->
  printf fmt ap s = match render (lex fmt) ap with
                    | Some out => Ok 0 (pr_send out s)
                    | None => Panic "undefined behaviour"
                    end.
Proof.
  intros Hf Ha Hp Hl. destruct s as [lk b u]. cbn in Hl. subst lk. unfold printf. rewrite bind_gets. cbn [pr_locking].
  assert (forall lk, prints (printf_loop (S (length fmt)) fmt 0 ap) tt (render (lex fmt) ap) (mkPr lk b u)) as H.
  { intros lk. by apply (printf_loop_prints _ [] fmt); [|lia|..]. }
  destruct b.
  - unfold pr_spin at 1. rewrite (bind_Ok _ _ _ tt (mkPr held_lock true u)) by done. unfold bind at 1. rewrite H.
    by destruct (render (lex fmt) ap).
  - rewrite bind_ret. unfold bind at 1. rewrite H. by destruct (render (lex fmt) ap).
Qed.

Lemma printf_renders_witness :
  printf (chars "a%d%%%x%s%p%s") [VNum (-15); VNum 254; VStr None; VNum 4096; VStr (Some [72; 105; 0; 7])] (mkPr initlock true uart0) =
  Ok 0 (pr_send (chars "a-15%fe(null)0x0000000000001000Hi") (mkPr initlock true uart0)).
Proof.
  rewrite (printf_renders (chars "a%d%%%x%s%p%s")).
  - vm_compute. reflexivity.
  - repeat (apply Forall_cons; split; [vm_compute; repeat split; intros [=]|]). constructor.
  - repeat constructor; unfold is_byte; lia.
  - reflexivity.
  - reflexivity.
Defined.

(** ** Numbers can be read back *)

Definition digit_of (c : Z) : Z := if c <? 97 then c - 48 else c - 87.
Definition read_digits (base : Z) (cs : list Z) : Z := fold_left (fun n c => n * base + digit_of c) cs 0.
Definition read_number (base : Z) (cs : list Z) : Z :=
  match cs with
  | c :: r => if c =? MINUS then - read_digits base r else read_digits base cs
  | [] => 0
  end.

Lemma digit_of_digits d : 0 <= d < 16 -> digit_of (nth (Z.to_nat d) digits 0) = d /\ nth (Z.to_nat d) digits 0 <> MINUS.
Proof.
  intros Hd. assert (exists n, (n < 16)%nat /\ d = Z.of_nat n) as (n & Hn & ->) by (exists (Z.to_nat d); lia).
  rewrite Nat2Z.id. do 16 (destruct n as [|n]; [by vm_compute|]). lia.
Qed.

Lemma read_digits_snoc base cs c : read_digits base (cs ++ [c]) = read_digits base cs * base + digit_of c.
Proof. unfold read_digits. by rewrite fold_left_app. Qed.

Lemma read_digits_app base cs ds : read_digits base (cs ++ ds) = read_digits base cs * base ^ Z.of_nat (length ds) + read_digits base ds.
Proof.
  induction ds as [|d ds IH] using rev_ind; [cbn; rewrite app_nil_r; lia|].
  rewrite app_assoc, !read_digits_snoc, IH, length_app, Nat.add_1_r, Nat2Z.inj_succ, Z.pow_succ_r by lia. lia.
Qed.

(** The loop stores the digits of [x] after those in the buffer, least
    significant first, unless they are too many. *)
Lemma printint_loop_value fuel buf x base : 2 <= base <= 16 -> 0 <= x -> (length buf + fuel >= BUFLEN)%nat ->
  match printint_loop fuel buf x base with
  | Some out => exists ds, out = buf ++ ds /\ ds <> [] /\ Forall (fun c => c <> MINUS) ds /\
      read_digits base (rev ds) = x /\ (length out <= BUFLEN)%nat /\ x < base ^ Z.of_nat (length ds) /\
      (base ^ (Z.of_nat (length ds) - 1) <= x \/ x = 0 /\ length ds = 1%nat)
  | None => x >= base ^ (Z.of_nat BUFLEN - Z.of_nat (length buf)) \/ (BUFLEN <= length buf)%nat
  end.
Proof.
  intros Hbase. revert buf x. induction fuel as [|f IH]; intros buf x Hx Hf; cbn [printint_loop];
    (destruct (Nat.ltb_spec (length buf) BUFLEN) as [Hl|Hl]; [|right; done]); [lia|].
  pose proof (Z.mod_pos_bound x base ltac:(lia)) as Hm. pose proof (Z.div_mod x base ltac:(lia)) as Hdm.
  destruct (digit_of_digits (x mod base) ltac:(lia)) as [Hd Hne]. set (c := nth _ digits 0) in *.
  destruct (Z.eqb_spec (x / base) 0) as [H0|H0].
  - exists [c]. split; [done|]. split; [done|]. split; [by constructor|]. split; [unfold read_digits; cbn [rev app fold_left]; lia|].
    split; [rewrite length_app; cbn; unfold BUFLEN in *; lia|]. cbn [length]. change (Z.of_nat 1) with 1. split; [lia|].
    change (1 - 1) with 0. rewrite Z.pow_0_r. destruct (decide (x = 0)); [by right|left; lia].
  - assert (0 <= x / base) by (apply Z.div_pos; lia).
    specialize (IH (buf ++ [c]) (x / base) ltac:(done)). rewrite length_app in IH. cbn [length] in IH. specialize (IH ltac:(lia)).
    destruct (printint_loop f _ _ _) as [out|].
    + destruct IH as (ds & -> & Hn & HM & Hv & Hlo & Hub & Hlb). exists (c :: ds). split; [by rewrite <- app_assoc|].
      split; [done|]. split; [by constructor|]. cbn [rev]. rewrite read_digits_snoc, Hv, Hd. split; [lia|]. split; [done|].
      cbn [length]. rewrite Nat2Z.inj_succ, Z.pow_succ_r by lia. split; [nia|]. left.
      replace (Z.succ (Z.of_nat (length ds)) - 1) with (Z.succ (Z.of_nat (length ds) - 1)) by lia.
      assert (length ds <> 0)%nat by (by destruct ds). rewrite Z.pow_succ_r by lia. destruct Hlb as [Hlb|[Hlb _]]; [nia|done].
    + left. destruct IH as [IH|IH].
      * replace (Z.of_nat BUFLEN - Z.of_nat (length buf)) with (Z.succ (Z.of_nat BUFLEN - Z.of_nat (length buf + 1))) by lia.
        rewrite Z.pow_succ_r by (unfold BUFLEN in *; lia). nia.
      * replace (Z.of_nat BUFLEN - Z.of_nat (length buf)) with 1 by (unfold BUFLEN in *; lia). nia.
Qed.

Lemma lt_pow_mono x b n m : 0 < b -> n <= m -> x < b ^ n -> x < b ^ m.
Proof. intros Hb Hnm Hx. pose proof (Z.pow_le_mono_r b n m Hb Hnm). lia. Qed.
Lemma pow_mono_le x b n m : 0 < b -> n <= m -> b ^ m <= x -> b ^ n <= x.
Proof. intros Hb Hnm Hx. pose proof (Z.pow_le_mono_r b n m Hb Hnm). lia. Qed.

(** a number printed by [printint] in base 10 or 16 reads back as the number
    (as an unsigned 64-bit number when [sign] is 0), and the only numbers it does
    not print are those with more digits than its buffer of 16 characters holds
    with their sign. *)
Theorem printint_roundtrip (xx base : Z) (sign : bool) :
  base = 10 \/ base = 16 -> - 2 ^ 63 < xx < 2 ^ 63 ->
  let neg := sign && (xx <? 0) in
  let x := if neg then - xx else u64 xx in
  match printint_buf xx base sign with
  | Some buf => read_number base (rev buf) = (if sign then xx else u64 xx) /\ (length buf <= BUFLEN)%nat /\
      x < base ^ (if neg then 15 else 16)
  | None => base ^ (if neg then 15 else 16) <= x
  end.
Proof.
  intros Hbase Hxx neg x. unfold printint_buf. fold neg.
  assert ((if neg then u64 (- xx) else u64 xx) = x) as ->.
  { unfold x, neg. destruct sign, (Z.ltb_spec xx 0); cbn; try done. apply u64_small. lia. }
  assert (0 <= x) as Hx0. { unfold x, neg. destruct sign, (Z.ltb_spec xx 0); cbn; try lia; apply Z.mod_pos_bound; lia. }
  assert ((if neg then - x else x) = (if sign then xx else u64 xx)) as Hval.
  { unfold x, neg. destruct sign, (Z.ltb_spec xx 0); cbn; try lia. apply u64_small. lia. }
  assert (0 < base) as Hb0 by (clear -Hbase; lia). clearbody neg x. pose proof (printint_loop_value BUFLEN [] x base ltac:(lia) Hx0 ltac:(cbn; lia)) as Hl.
  destruct (printint_loop BUFLEN [] x base) as [out|].
  2:{ destruct Hl as [Hl|Hl]; [|cbn in Hl; unfold BUFLEN in Hl; lia]. change (Z.of_nat BUFLEN - Z.of_nat (length (@nil Z))) with 16 in Hl. apply Z.ge_le in Hl.
      destruct neg; [|done]. exact (pow_mono_le x base 15 16 Hb0 ltac:(done) Hl). }
  destruct Hl as (ds & -> & Hn & HM & Hv & Hlo & Hub & Hlb). cbn [app] in *.
  destruct ds as [|d ds _] using rev_ind; [done|]. rewrite rev_app_distr in Hv. cbn [rev app] in Hv. rewrite length_app in *. cbn [length] in *.
  assert (d <> MINUS) as Hd by (by apply Forall_app in HM as [_ [? _]%Forall_cons]).
  destruct neg.
  - destruct (Nat.ltb_spec (length ds + 1) BUFLEN) as [Hf|Hf].
    + rewrite !rev_app_distr. cbn [rev app read_number]. rewrite Z.eqb_refl, Hv. split; [done|]. split; [rewrite !length_app; cbn [length]; unfold BUFLEN in Hf |- *; clear -Hf; lia|].
      refine (lt_pow_mono x base _ 15 Hb0 _ Hub). unfold BUFLEN in Hf. clear -Hf. lia.
    + destruct Hlb as [Hlb|[_ Hlb]]; [|unfold BUFLEN in Hf; clear -Hf Hlb; lia].
      refine (pow_mono_le x base 15 _ Hb0 _ Hlb). unfold BUFLEN in Hf. clear -Hf. lia.
  - rewrite rev_app_distr. cbn [rev app read_number]. rewrite (proj2 (Z.eqb_neq d MINUS)) by done. rewrite Hv. split; [done|].
    rewrite length_app. split; [done|]. refine (lt_pow_mono x base _ 16 Hb0 _ Hub). unfold BUFLEN in Hlo. clear -Hlo. lia.
Qed.

Lemma printint_roundtrip_witness :
  printint_buf (-120) 10 true = Some (rev (chars "-120")) /\ read_number 10 (chars "-120") = -120.
Proof.
  pose proof (printint_roundtrip (-120) 10 true ltac:(lia) ltac:(lia)) as H.
  split; [vm_compute; reflexivity|]. destruct H as [H _]. exact H.
Defined.

Lemma as_int_high z : 2 ^ 31 <= u32 z -> u64 (as_int z) = u32 z + (2 ^ 64 - 2 ^ 32).
Proof.
  unfold u32, as_int, s32, u64. intros H. pose proof (Z.mod_pos_bound z (2 ^ 32) ltac:(lia)).
  pose proof (Z.div_mod z (2 ^ 32) ltac:(lia)).
  rewrite <- (Z.mod_unique_pos (z + 2 ^ 31) (2 ^ 32) (z / 2 ^ 32 + 1) (z mod 2 ^ 32 - 2 ^ 31)) by lia.
  symmetry. apply (Z.mod_unique_pos _ _ (-1)); lia.
Qed.

(** [%u] reads its argument as a signed [int] and widens it to 64 bits: every
    unsigned 32-bit value from 2^31 on becomes a number of 20 digits, and
    [printint] stores four characters outside its buffer. *)
Theorem printf_u_overflows (z : Z) (ap : list varg) (s : prst) :
  2 ^ 31 <= u32 z -> panicked (pr_uart s) = false -> pr_lock s = initlock ->
  printint_buf (as_int z) 10 false = None /\ printf (chars "%u") (VNum z :: ap) s = Panic "undefined behaviour".
Proof.
  intros Hz Hp Hl. assert (printint_buf (as_int z) 10 false = None) as Hb.
  { pose proof (as_int_high z Hz) as Hu. unfold printint_buf. cbn [andb]. rewrite Hu. set (x := u32 z + _) in *.
    pose proof (printint_loop_value BUFLEN [] x 10 ltac:(lia) ltac:(lia) ltac:(cbn; lia)) as Hv.
    destruct (printint_loop BUFLEN [] x 10) as [out|]; [|done]. destruct Hv as (ds & -> & _ & _ & _ & Hlo & Hub & _).
    exfalso. assert (x < 10 ^ 16) as Hx; [|lia]. refine (lt_pow_mono x 10 _ 16 _ _ Hub); [lia|]. unfold BUFLEN in Hlo. clear -Hlo. cbn in Hlo. lia. }
  split; [done|]. destruct s as [lk b u]. cbn in Hl, Hp. subst lk. unfold printf. rewrite bind_gets. cbn [pr_locking].
  destruct b.
  - unfold pr_spin at 1. rewrite (bind_Ok _ _ _ tt (mkPr held_lock true u)) by done. unfold bind. cbn. unfold printint. by rewrite Hb.
  - rewrite bind_ret. unfold bind. cbn. unfold printint. by rewrite Hb.
Qed.

Lemma printf_u_overflows_witness :
  printf (chars "%u") [VNum 4294967295] (mkPr initlock true uart0) = Panic "undefined behaviour".
Proof.
  destruct (printf_u_overflows 4294967295 [] (mkPr initlock true uart0)) as [_ H]; [vm_compute; intros [=]|reflexivity|reflexivity|].
  exact H.
Defined.
