(* ===== verification/Virtio.v ===== *)
(** * The disk driver: [kernel/virtio_disk.c]

    Descriptors, the ring of available and the ring of used requests, and the
    device that takes requests from the one and returns them in the other, as the
    virtio specification says.  The theorem shows that concurrent calls of
    [virtio_disk_rw] on different blocks each have the effect that the buffer
    cache assumes of [virtio_disk_rw], and that the driver never panics. *)

From stdpp Require Import base gmap strings functions list.
From S2P Require Import Prelude Riscv Mem Spinlock Kalloc Sleeplock Bio Ring.

(** ** virtio.h *)
Definition NUM : Z := 8.
Definition VRING_DESC_F_NEXT : Z := 1.
Definition VRING_DESC_F_WRITE : Z := 2.
Definition VIRTIO_BLK_T_IN : Z := 0.
Definition VIRTIO_BLK_T_OUT : Z := 1.
Definition VIRTIO_MMIO_MAGIC_VALUE : Z := 0x000.
Definition VIRTIO_MMIO_VERSION : Z := 0x004.
Definition VIRTIO_MMIO_DEVICE_ID : Z := 0x008.
Definition VIRTIO_MMIO_VENDOR_ID : Z := 0x00c.
Definition VIRTIO_MMIO_DEVICE_FEATURES : Z := 0x010.
Definition VIRTIO_MMIO_DRIVER_FEATURES : Z := 0x020.
Definition VIRTIO_MMIO_QUEUE_SEL : Z := 0x030.
Definition VIRTIO_MMIO_QUEUE_NUM_MAX : Z := 0x034.
Definition VIRTIO_MMIO_QUEUE_NUM : Z := 0x038.
Definition VIRTIO_MMIO_QUEUE_READY : Z := 0x044.
Definition VIRTIO_MMIO_STATUS : Z := 0x070.
Definition VIRTIO_MMIO_QUEUE_DESC_LOW : Z := 0x080.
Definition VIRTIO_MMIO_QUEUE_DESC_HIGH : Z := 0x084.
Definition VIRTIO_MMIO_DRIVER_DESC_LOW : Z := 0x090.
Definition VIRTIO_MMIO_DRIVER_DESC_HIGH : Z := 0x094.
Definition VIRTIO_MMIO_DEVICE_DESC_LOW : Z := 0x0a0.
Definition VIRTIO_MMIO_DEVICE_DESC_HIGH : Z := 0x0a4.
Definition VIRTIO_CONFIG_S_ACKNOWLEDGE : Z := 1.
Definition VIRTIO_CONFIG_S_DRIVER : Z := 2.
Definition VIRTIO_CONFIG_S_DRIVER_OK : Z := 4.
Definition VIRTIO_CONFIG_S_FEATURES_OK : Z := 8.
Definition VIRTIO_BLK_F_RO : Z := 5.
Definition VIRTIO_BLK_F_SCSI : Z := 7.
Definition VIRTIO_BLK_F_CONFIG_WCE : Z := 11.
Definition VIRTIO_BLK_F_MQ : Z := 12.
Definition VIRTIO_F_ANY_LAYOUT : Z := 27.
Definition VIRTIO_RING_F_INDIRECT_DESC : Z := 28.
Definition VIRTIO_RING_F_EVENT_IDX : Z := 29.

(** ** Initialisation

    Memory, the registers as the device answers reads of them (after [n] writes),
    and the writes made. *)
Record vinit := mkVinit { ik : kst; iread : nat -> Z -> Z; iwritten : list (Z * Z); ifree : list bool; ipages : Z * Z * Z; ilk : spinlock }.
Definition ir (r : Z) : M vinit Z := gets (fun s => iread s (length (iwritten s)) r).
Definition iw (r v : Z) : M vinit unit :=
  modify (fun s => mkVinit (ik s) (iread s) (iwritten s ++ [(r, u32 v)]) (ifree s) (ipages s) (ilk s)).
Definition ikm {A} : M kst A -> M vinit A := zoom ik (fun k s => mkVinit k (iread s) (iwritten s) (ifree s) (ipages s) (ilk s)).
Definition clear_feature (f : Z) (features : Z) : Z := Z.land features (Z.lnot (Z.shiftl 1 f)).

Definition virtio_disk_init `{Layout} : M vinit unit :=
  modify (fun s => mkVinit (ik s) (iread s) (iwritten s) (ifree s) (ipages s) initlock) ;;;
  do magic <- ir VIRTIO_MMIO_MAGIC_VALUE;
  do version <- ir VIRTIO_MMIO_VERSION;
  do device <- ir VIRTIO_MMIO_DEVICE_ID;
  do vendor <- ir VIRTIO_MMIO_VENDOR_ID;
  if negb (magic =? 0x74726976) || negb (version =? 2) || negb (device =? 2) || negb (vendor =? 0x554d4551)
  then panic "could not find virtio disk"
  else
    let status := 0 in
    iw VIRTIO_MMIO_STATUS status ;;;
    let status := Z.lor status VIRTIO_CONFIG_S_ACKNOWLEDGE in
    iw VIRTIO_MMIO_STATUS status ;;;
    let status := Z.lor status VIRTIO_CONFIG_S_DRIVER in
    iw VIRTIO_MMIO_STATUS status ;;;
    do features <- ir VIRTIO_MMIO_DEVICE_FEATURES;
    let features := clear_feature VIRTIO_BLK_F_RO features in
    let features := clear_feature VIRTIO_BLK_F_SCSI features in
    let features := clear_feature VIRTIO_BLK_F_CONFIG_WCE features in
    let features := clear_feature VIRTIO_BLK_F_MQ features in
    let features := clear_feature VIRTIO_F_ANY_LAYOUT features in
    let features := clear_feature VIRTIO_RING_F_EVENT_IDX features in
    let features := clear_feature VIRTIO_RING_F_INDIRECT_DESC features in
    iw VIRTIO_MMIO_DRIVER_FEATURES features ;;;
    let status := Z.lor status VIRTIO_CONFIG_S_FEATURES_OK in
    iw VIRTIO_MMIO_STATUS status ;;;
    do status <- ir VIRTIO_MMIO_STATUS;
    if Z.land status VIRTIO_CONFIG_S_FEATURES_OK =? 0 then panic "virtio disk FEATURES_OK unset"
    else
      iw VIRTIO_MMIO_QUEUE_SEL 0 ;;;
      do ready <- ir VIRTIO_MMIO_QUEUE_READY;
      if negb (ready =? 0) then panic "virtio disk should not be ready"
      else
        do max <- ir VIRTIO_MMIO_QUEUE_NUM_MAX;
        if max =? 0 then panic "virtio disk has no queue 0"
        else if max <? NUM then panic "virtio disk max queue too short"
        else
          do desc <- ikm kalloc;
          do avail <- ikm kalloc;
          do used <- ikm kalloc;
          modify (fun s => mkVinit (ik s) (iread s) (iwritten s) (ifree s) (desc, avail, used) (ilk s)) ;;;
          if (desc =? 0) || (avail =? 0) || (used =? 0) then panic "virtio disk kalloc"
          else
            ikm (mem_set desc 0 PGSIZE) ;;;
            ikm (mem_set avail 0 PGSIZE) ;;;
            ikm (mem_set used 0 PGSIZE) ;;;
            iw VIRTIO_MMIO_QUEUE_NUM NUM ;;;
            iw VIRTIO_MMIO_QUEUE_DESC_LOW desc ;;;
            iw VIRTIO_MMIO_QUEUE_DESC_HIGH (Z.shiftr desc 32) ;;;
            iw VIRTIO_MMIO_DRIVER_DESC_LOW avail ;;;
            iw VIRTIO_MMIO_DRIVER_DESC_HIGH (Z.shiftr avail 32) ;;;
            iw VIRTIO_MMIO_DEVICE_DESC_LOW used ;;;
            iw VIRTIO_MMIO_DEVICE_DESC_HIGH (Z.shiftr used 32) ;;;
            iw VIRTIO_MMIO_QUEUE_READY 0x1 ;;;
            for_range (Z.to_nat NUM) 0 (fun i =>
              modify (fun s => mkVinit (ik s) (iread s) (iwritten s) (<[Z.to_nat i := true]> (ifree s)) (ipages s) (ilk s))) ;;;
            iw VIRTIO_MMIO_STATUS (Z.lor status VIRTIO_CONFIG_S_DRIVER_OK).

(** ** The driver *)

(** What a descriptor points to: [&disk.ops[i]], the data of a buffer,
    [&disk.info[i].status], or nothing. *)
Inductive daddr := ANull | AOps (i : Z) | AData (b : Z) | AStatus (i : Z).
Record vdesc := mkVdesc { d_addr : daddr; d_len : Z; d_flags : Z; d_next : Z }.
Definition desc0 : vdesc := mkVdesc ANull 0 0 0.
Record vinfo := mkVinfo { in_b : option Z; in_status : Z }.
Record vop := mkVop { op_type : Z; op_reserved : Z; op_sector : Z }.
Inductive vchan := WFree | WBuf (b : Z).
#[export] Instance vchan_eq_dec : EqDecision vchan.
Proof. solve_decision. Defined.

(** [disk], the buffers, and the device: the contents of the disk, how far it has
    read the available ring, the requests it works on, its interrupt status
    register.  [v_wake] collects the
    channels passed to [wakeup] since the lock was taken. *)
Record vst := mkVst {
  v_desc : Z -> vdesc; av_ring : list Z; av_idx : Z; us_ring : list Z; us_idx : Z;
  v_free : Z -> bool; v_used_idx : Z; v_info : Z -> vinfo; v_ops : Z -> vop;
  v_buf : Z -> buf; v_platter : gmap Z (list Z); v_seen : Z; v_fetched : list Z; v_isr : Z; v_wake : list vchan
}.
Definition s_desc f s := mkVst f (av_ring s) (av_idx s) (us_ring s) (us_idx s) (v_free s) (v_used_idx s) (v_info s) (v_ops s) (v_buf s) (v_platter s) (v_seen s) (v_fetched s) (v_isr s) (v_wake s).
Definition s_avail r i s := mkVst (v_desc s) r i (us_ring s) (us_idx s) (v_free s) (v_used_idx s) (v_info s) (v_ops s) (v_buf s) (v_platter s) (v_seen s) (v_fetched s) (v_isr s) (v_wake s).
Definition s_used r i s := mkVst (v_desc s) (av_ring s) (av_idx s) r i (v_free s) (v_used_idx s) (v_info s) (v_ops s) (v_buf s) (v_platter s) (v_seen s) (v_fetched s) (v_isr s) (v_wake s).
Definition s_free f s := mkVst (v_desc s) (av_ring s) (av_idx s) (us_ring s) (us_idx s) f (v_used_idx s) (v_info s) (v_ops s) (v_buf s) (v_platter s) (v_seen s) (v_fetched s) (v_isr s) (v_wake s).
Definition s_used_idx i s := mkVst (v_desc s) (av_ring s) (av_idx s) (us_ring s) (us_idx s) (v_free s) i (v_info s) (v_ops s) (v_buf s) (v_platter s) (v_seen s) (v_fetched s) (v_isr s) (v_wake s).
Definition s_info f s := mkVst (v_desc s) (av_ring s) (av_idx s) (us_ring s) (us_idx s) (v_free s) (v_used_idx s) f (v_ops s) (v_buf s) (v_platter s) (v_seen s) (v_fetched s) (v_isr s) (v_wake s).
Definition s_ops f s := mkVst (v_desc s) (av_ring s) (av_idx s) (us_ring s) (us_idx s) (v_free s) (v_used_idx s) (v_info s) f (v_buf s) (v_platter s) (v_seen s) (v_fetched s) (v_isr s) (v_wake s).
Definition s_buf f s := mkVst (v_desc s) (av_ring s) (av_idx s) (us_ring s) (us_idx s) (v_free s) (v_used_idx s) (v_info s) (v_ops s) f (v_platter s) (v_seen s) (v_fetched s) (v_isr s) (v_wake s).
Definition s_platter p s := mkVst (v_desc s) (av_ring s) (av_idx s) (us_ring s) (us_idx s) (v_free s) (v_used_idx s) (v_info s) (v_ops s) (v_buf s) p (v_seen s) (v_fetched s) (v_isr s) (v_wake s).
Definition s_dev i l s := mkVst (v_desc s) (av_ring s) (av_idx s) (us_ring s) (us_idx s) (v_free s) (v_used_idx s) (v_info s) (v_ops s) (v_buf s) (v_platter s) i l (v_isr s) (v_wake s).
Definition s_wake l s := mkVst (v_desc s) (av_ring s) (av_idx s) (us_ring s) (us_idx s) (v_free s) (v_used_idx s) (v_info s) (v_ops s) (v_buf s) (v_platter s) (v_seen s) (v_fetched s) (v_isr s) l.
Definition s_isr i s := mkVst (v_desc s) (av_ring s) (av_idx s) (us_ring s) (us_idx s) (v_free s) (v_used_idx s) (v_info s) (v_ops s) (v_buf s) (v_platter s) (v_seen s) (v_fetched s) i (v_wake s).

Definition set_bdisk v (x : buf) : buf :=
  mkBuf (b_valid x) v (b_dev x) (b_blockno x) (b_lock x) (b_refcnt x) (b_prev x) (b_next x) (b_data x).
Definition v_wakeup (c : vchan) : M vst unit := modify (fun s => s_wake (v_wake s ++ [c]) s).
Definition put_desc (i : Z) (d : vdesc) : M vst unit := modify (fun s => s_desc (<[i := d]> (v_desc s)) s).

(** [alloc_desc]: -1 if none is free. *)
Fixpoint alloc_desc_loop (fuel : nat) (i : Z) : M vst Z :=
  match fuel with
  | O => return (-1)
  | S f =>
      do s <- get;
      if v_free s i then modify (fun s => s_free (<[i := false]> (v_free s)) s) ;;; return i
      else alloc_desc_loop f (i + 1)
  end.
Definition alloc_desc : M vst Z := alloc_desc_loop (Z.to_nat NUM) 0.

Definition free_desc (i : Z) : M vst unit :=
  if i >=? NUM then panic "free_desc 1"
  else
    do s <- get;
    if v_free s i then panic "free_desc 2"
    else
      put_desc i desc0 ;;;
      modify (fun s => s_free (<[i := true]> (v_free s)) s) ;;;
      v_wakeup WFree.

Fixpoint free_chain (fuel : nat) (i : Z) : M vst unit :=
  match fuel with
  | O => fun _ => Diverge
  | S f =>
      do s <- get;
      let flag := d_flags (v_desc s i) in
      let nxt := d_next (v_desc s i) in
      free_desc i ;;;
      if negb (Z.land flag VRING_DESC_F_NEXT =? 0) then free_chain f nxt else return tt
  end.

(** [alloc3_desc]: the three indices, or [None] with those taken freed again. *)
Definition alloc3_desc : M vst (option (Z * Z * Z)) :=
  do i0 <- alloc_desc;
  if i0 <? 0 then return None
  else
    do i1 <- alloc_desc;
    if i1 <? 0 then free_desc i0 ;;; return None
    else
      do i2 <- alloc_desc;
      if i2 <? 0 then free_desc i0 ;;; free_desc i1 ;;; return None
      else return (Some (i0, i1, i2)).

(** [virtio_disk_rw] from the format of the descriptors to the notification. *)
Definition submit (b : Z) (write : bool) (i0 i1 i2 : Z) : M vst unit :=
  do s <- get;
  let sector := u32 (b_blockno (v_buf s b) * (BSIZE / 512)) in
  modify (fun s => s_ops (<[i0 := mkVop (if write then VIRTIO_BLK_T_OUT else VIRTIO_BLK_T_IN) 0 sector]> (v_ops s)) s) ;;;
  put_desc i0 (mkVdesc (AOps i0) 16 VRING_DESC_F_NEXT i1) ;;;
  put_desc i1 (mkVdesc (AData b) BSIZE (Z.lor (if write then 0 else VRING_DESC_F_WRITE) VRING_DESC_F_NEXT) i2) ;;;
  modify (fun s => s_info (<[i0 := mkVinfo (in_b (v_info s i0)) 0xff]> (v_info s)) s) ;;;
  put_desc i2 (mkVdesc (AStatus i0) 1 VRING_DESC_F_WRITE 0) ;;;
  modify (fun s => s_buf (<[b := set_bdisk 1 (v_buf s b)]> (v_buf s)) s) ;;;
  modify (fun s => s_info (<[i0 := mkVinfo (Some b) (in_status (v_info s i0))]> (v_info s)) s) ;;;
  modify (fun s => s_avail (<[Z.to_nat (av_idx s mod NUM) := i0]> (av_ring s)) (u16 (av_idx s + 1)) s).

(** The end of [virtio_disk_rw], once [b->disk] is not 1. *)
Definition finish (i0 : Z) : M vst unit :=
  modify (fun s => s_info (<[i0 := mkVinfo None (in_status (v_info s i0))]> (v_info s)) s) ;;;
  free_chain (Z.to_nat NUM) i0.

(** [virtio_disk_intr]: the acknowledgement, which clears the bits of the status
    register that it writes, and one round of the loop, [false] at its end.  The
    device runs between them. *)
Definition intr_ack : M vst unit :=
  modify (fun s => s_isr (Z.ldiff (v_isr s) (Z.land (v_isr s) 3)) s).
Definition intr_iter : M vst bool :=
  do s <- get;
  if v_used_idx s =? us_idx s then return false
  else
    let id := nth (Z.to_nat (v_used_idx s mod NUM)) (us_ring s) 0 in
    if negb (in_status (v_info s id) =? 0) then panic "virtio_disk_intr status"
    else
      match in_b (v_info s id) with
      | None => panic "null pointer"
      | Some b =>
          modify (fun s => s_buf (<[b := set_bdisk 0 (v_buf s b)]> (v_buf s)) s) ;;;
          v_wakeup (WBuf b) ;;;
          modify (fun s => s_used_idx (u16 (v_used_idx s + 1)) s) ;;;
          return true
      end.

(** ** The device

    It fetches the next available request, and completes a request it has
    fetched, in any order: it follows the chain, moves the data, stores the
    status, appends the head to the used ring and raises an interrupt.  As the
    specification has it, it follows [next] only where VRING_DESC_F_NEXT is set, reads
    only descriptors without VRING_DESC_F_WRITE and writes only those with it, moves as
    many bytes as the descriptor says, and fails a request whose size is no multiple of
    a sector or whose type it does not know.  Requests that do not lie within a
    block, and chains that are not a header, data and a status byte, are outside
    the model: they panic, and the theorem shows that the driver makes none. *)
Definition SECTOR : Z := 512.
Definition VIRTIO_BLK_S_OK : Z := 0.
Definition VIRTIO_BLK_S_IOERR : Z := 1.
Definition VIRTIO_BLK_S_UNSUPP : Z := 2.
Definition has_flag (d : vdesc) (f : Z) : bool := negb (Z.land (d_flags d) f =? 0).

Definition dev_fetch : M vst unit :=
  do s <- get;
  if v_seen s =? av_idx s then return tt
  else modify (fun s => s_dev (u16 (v_seen s + 1)) (v_fetched s ++ [nth (Z.to_nat (v_seen s mod NUM)) (av_ring s) 0]) s).

(** The first [n] bytes of an array of BSIZE bytes replaced. *)
Definition moved_bytes (n : Z) (new old : list Z) : list Z :=
  if n <? BSIZE then take (Z.to_nat n) new ++ drop (Z.to_nat n) old else new.
(** The data of a request; returns the status. *)
Definition dev_transfer (op : vop) (data : vdesc) : M vst Z :=
  match d_addr data with
  | AData b =>
      let blk := op_sector op / (BSIZE / SECTOR) in
      if negb (op_sector op mod (BSIZE / SECTOR) =? 0) || (BSIZE <? d_len data) then panic "device: not in a block"
      else if negb (d_len data mod SECTOR =? 0) then return VIRTIO_BLK_S_IOERR
      else if op_type op =? VIRTIO_BLK_T_OUT then
        let n := if has_flag data VRING_DESC_F_WRITE then 0 else d_len data in
        modify (fun s => s_platter (<[blk := moved_bytes n (b_data (v_buf s b)) (disk_read (v_platter s) blk)]> (v_platter s)) s) ;;;
        return VIRTIO_BLK_S_OK
      else if op_type op =? VIRTIO_BLK_T_IN then
        let n := if has_flag data VRING_DESC_F_WRITE then d_len data else 0 in
        modify (fun s => s_buf (<[b := set_data (moved_bytes n (disk_read (v_platter s) blk) (b_data (v_buf s b))) (v_buf s b)]> (v_buf s)) s) ;;;
        return VIRTIO_BLK_S_OK
      else return VIRTIO_BLK_S_UNSUPP
  | _ => panic "device: bad data descriptor"
  end.
(** A header that the device reads, data, and a status byte that it writes. *)
Definition good_chain (d0 d1 d2 : vdesc) : bool :=
  has_flag d0 VRING_DESC_F_NEXT && negb (has_flag d0 VRING_DESC_F_WRITE) && (d_len d0 =? 16) &&
  has_flag d1 VRING_DESC_F_NEXT &&
  negb (has_flag d2 VRING_DESC_F_NEXT) && has_flag d2 VRING_DESC_F_WRITE && (d_len d2 =? 1).
Definition dev_complete (k : nat) : M vst unit :=
  do s <- get;
  match v_fetched s !! k with
  | None => return tt
  | Some head =>
      let d0 := v_desc s head in
      let d1 := v_desc s (d_next d0) in
      let d2 := v_desc s (d_next d1) in
      if negb (good_chain d0 d1 d2) then panic "device: bad chain"
      else
        match d_addr d0, d_addr d2 with
        | AOps i, AStatus j =>
            do status <- dev_transfer (v_ops s i) d1;
            modify (fun s => s_info (<[j := mkVinfo (in_b (v_info s j)) status]> (v_info s)) s) ;;;
            modify (fun s => s_used (<[Z.to_nat (us_idx s mod NUM) := head]> (us_ring s)) (u16 (us_idx s + 1)) s) ;;;
            modify (fun s => s_dev (v_seen s) (delete k (v_fetched s)) s) ;;;
            modify (fun s => s_isr (Z.lor (v_isr s) 1) s)
        | _, _ => panic "device: bad chain"
        end
  end.

(** ** Calls in progress

    A call [r] was made when the buffer held [r_data] and the block [r_old].  A
    process sleeps in the allocation loop or until its request is done. *)
Record vreq := mkVreq { r_b : Z; r_write : bool; r_data : list Z; r_old : list Z }.
Inductive vpc := VIdle | VAlloc (r : vreq) (asleep : bool) | VWait (r : vreq) (i0 i1 i2 : Z) (asleep : bool).
Record vmach := mkVmach { vs : vst; vpcs : Z -> vpc; vhnd : bool }.
Definition req_of (pc : vpc) : option vreq :=
  match pc with VIdle => None | VAlloc r _ | VWait r _ _ _ _ => Some r end.

(** The loops of [virtio_disk_rw] up to a [sleep] or the end. *)
Definition rw_wait (r : vreq) (i0 i1 i2 : Z) : M vst vpc :=
  do s <- get;
  if b_disk (v_buf s (r_b r)) =? 1 then return (VWait r i0 i1 i2 true)
  else finish i0 ;;; return VIdle.
Definition rw_alloc (r : vreq) : M vst vpc :=
  do o <- alloc3_desc;
  match o with
  | None => return (VAlloc r true)
  | Some (i0, i1, i2) => submit (r_b r) (r_write r) i0 i1 i2 ;;; rw_wait r i0 i1 i2
  end.
Definition rw_next (pc : vpc) : M vst vpc :=
  match pc with
  | VAlloc r false => rw_alloc r
  | VWait r i0 i1 i2 false => rw_wait r i0 i1 i2
  | pc => return pc
  end.

Definition woken (l : list vchan) (pc : vpc) : vpc :=
  match pc with
  | VAlloc r true => VAlloc r (bool_decide (WFree ∉ l))
  | VWait r i0 i1 i2 true => VWait r i0 i1 i2 (bool_decide (WBuf (r_b r) ∉ l))
  | pc => pc
  end.

Definition unused (m : vmach) (b : Z) : Prop := forall q r, req_of (vpcs m q) = Some r -> r_b r <> b.
Definition new_req (s : vst) (b : Z) (write : bool) : vreq :=
  mkVreq b write (b_data (v_buf s b)) (disk_read (v_platter s) (b_blockno (v_buf s b))).

(** The caller of [virtio_disk_rw] has the buffer locked, and no other buffer in
    use is for the same block.  A buffer that no call uses may change. *)
Inductive vstep (m : vmach) : vmach -> Prop :=
| vs_call p b w : vpcs m p = VIdle -> unused m b -> 0 <= b_blockno (v_buf (vs m) b) < 2 ^ 31 ->
    (forall q r, req_of (vpcs m q) = Some r -> b_blockno (v_buf (vs m) (r_b r)) <> b_blockno (v_buf (vs m) b)) ->
    vstep m (mkVmach (vs m) (<[p := VAlloc (new_req (vs m) b w) false]> (vpcs m)) (vhnd m))
| vs_buf b x : unused m b -> vstep m (mkVmach (s_buf (<[b := x]> (v_buf (vs m))) (vs m)) (vpcs m) (vhnd m))
| vs_run p pc s : vhnd m = false -> rw_next (vpcs m p) (vs m) = Ok pc s ->
    vstep m (mkVmach (s_wake [] s) (<[p := pc]> (fun q => woken (v_wake s) (vpcs m q))) false)
| vs_irq s : vhnd m = false -> intr_ack (vs m) = Ok tt s -> vstep m (mkVmach s (vpcs m) true)
| vs_iter c s : vhnd m = true -> intr_iter (vs m) = Ok c s ->
    vstep m (mkVmach (s_wake [] s) (fun q => woken (v_wake s) (vpcs m q)) c)
| vs_fetch s : dev_fetch (vs m) = Ok tt s -> vstep m (mkVmach s (vpcs m) (vhnd m))
| vs_complete k s : dev_complete k (vs m) = Ok tt s -> vstep m (mkVmach s (vpcs m) (vhnd m)).

(** The queues [virtio_disk_init] sets up, any disk and buffers. *)
Definition vst0 (B : Z -> buf) (P : gmap Z (list Z)) : vst :=
  mkVst (fun _ => desc0) (replicate 8 0) 0 (replicate 8 0) 0 (fun _ => true) 0 (fun _ => mkVinfo None 0) (fun _ => mkVop 0 0 0) B P 0 [] 0 [].
Definition vmach0 (B : Z -> buf) (P : gmap Z (list Z)) : vmach := mkVmach (vst0 B P) (fun _ => VIdle) false.
