(* ===== verification/VirtioSpec.v ===== *)
(** * Correctness of the disk driver

    The invariant of the descriptors, of the two rings and of the calls in
    progress, for any interleaving of calls, interrupts and the device. *)

From stdpp Require Import base gmap strings functions list.
From S2P Require Import Prelude Riscv Spinlock Sleeplock Bio Ring Virtio.

(** ** Descriptor allocation *)

(** The free descriptors among the [n] from [i] on. *)
Fixpoint free_from (f : Z -> bool) (n : nat) (i : Z) : list Z :=
  match n with
  | O => []
  | S n => if f i then i :: free_from f n (i + 1) else free_from f n (i + 1)
  end.
Definition frees (f : Z -> bool) : list Z := free_from f (Z.to_nat NUM) 0.

Lemma elem_free_from f n i j : j ∈ free_from f n i <-> f j = true /\ i <= j < i + Z.of_nat n.
Proof.
  revert i. induction n as [|n IH]; intros i; cbn [free_from]; [split; [by intros ?%elem_of_nil|lia]|].
  destruct (f i) eqn:E; rewrite ?elem_of_cons, IH; split.
  - intros [->|[? ?]]; split; (done || lia).
  - intros [? ?]. destruct (decide (j = i)); [by left|right; split; [done|lia]].
  - intros [? ?]. split; [done|lia].
  - intros [? ?]. split; [done|]. assert (j <> i) by congruence. lia.
Qed.
Lemma elem_frees f j : j ∈ frees f <-> f j = true /\ 0 <= j < NUM.
Proof. unfold frees. rewrite elem_free_from. change (0 + Z.of_nat (Z.to_nat NUM)) with NUM. done. Qed.
Lemma free_from_NoDup f n i : NoDup (free_from f n i).
Proof.
  revert i. induction n as [|n IH]; intros i; cbn [free_from]; [constructor|]. destruct (f i); [|done].
  constructor; [|done]. rewrite elem_free_from. lia.
Qed.
Lemma free_from_ext f g n i : (forall j, i <= j < i + Z.of_nat n -> f j = g j) -> free_from f n i = free_from g n i.
Proof.
  revert i. induction n as [|n IH]; intros i E; cbn [free_from]; [done|]. rewrite (E i) by lia.
  rewrite (IH (i + 1)); [done|]. intros j Hj. apply E. lia.
Qed.
Lemma free_from_take f n i j l : free_from f n i = j :: l -> free_from (<[j := false]> f) n i = l.
Proof.
  revert i. induction n as [|n IH]; intros i; cbn [free_from]; [done|]. destruct (f i) eqn:E.
  - intros [= <- <-]. rewrite fn_lookup_insert. apply free_from_ext. intros j Hj. rewrite fn_lookup_insert_ne; [done|lia].
  - intros Hl. assert (i < j) as Hij.
    { assert (j ∈ free_from f n (i + 1)) as Hj by (rewrite Hl; by left). rewrite elem_free_from in Hj. lia. }
    rewrite fn_lookup_insert_ne, E by lia. by apply IH.
Qed.

Lemma alloc_desc_loop_eq n i s : alloc_desc_loop n i s =
  match free_from (v_free s) n i with
  | [] => Ok (-1) s
  | j :: _ => Ok j (s_free (<[j := false]> (v_free s)) s)
  end.
Proof.
  revert i. induction n as [|n IH]; intros i; cbn [alloc_desc_loop free_from]; [done|].
  unfold bind at 1, get. destruct (v_free s i); [done|apply IH].
Qed.
Lemma alloc_desc_eq s : alloc_desc s =
  match frees (v_free s) with
  | [] => Ok (-1) s
  | j :: _ => Ok j (s_free (<[j := false]> (v_free s)) s)
  end.
Proof. apply alloc_desc_loop_eq. Qed.
Lemma alloc_desc_some s j l : frees (v_free s) = j :: l ->
  alloc_desc s = Ok j (s_free (<[j := false]> (v_free s)) s) /\ frees (<[j := false]> (v_free s)) = l /\ 0 <= j.
Proof.
  intros E. rewrite alloc_desc_eq, E. split; [done|]. split; [by apply free_from_take|].
  assert (j ∈ frees (v_free s)) as Hj by (rewrite E; by left). rewrite elem_frees in Hj. lia.
Qed.

Lemma free_desc_eq i s : i < NUM -> v_free s i = false ->
  free_desc i s = Ok tt (s_wake (v_wake s ++ [WFree]) (s_free (<[i := true]> (v_free s)) (s_desc (<[i := desc0]> (v_desc s)) s))).
Proof.
  intros Hi Hf. unfold free_desc. rewrite Z.geb_leb. destruct (Z.leb_spec NUM i); [lia|]. unfold bind at 1, get. by rewrite Hf.
Qed.

(** When [alloc3_desc] succeeds; when it fails, only descriptors that are free
    have changed. *)
Lemma alloc3_some s i0 i1 i2 l : frees (v_free s) = i0 :: i1 :: i2 :: l ->
  alloc3_desc s = Ok (Some (i0, i1, i2)) (s_free (<[i2 := false]> (<[i1 := false]> (<[i0 := false]> (v_free s)))) s).
Proof.
  intros E. unfold alloc3_desc. destruct (alloc_desc_some s _ _ E) as (Q0 & E1 & ?). rewrite (bind_Ok _ _ _ _ _ Q0).
  destruct (Z.ltb_spec i0 0); [lia|].
  destruct (alloc_desc_some (s_free (<[i0 := false]> (v_free s)) s) _ _ E1) as (Q1 & E2 & ?). rewrite (bind_Ok _ _ _ _ _ Q1).
  destruct (Z.ltb_spec i1 0); [lia|].
  destruct (alloc_desc_some (s_free (<[i1 := false]> (<[i0 := false]> (v_free s))) s) _ _ E2) as (Q2 & E3 & ?).
  cbn [v_free s_free] in *. rewrite (bind_Ok _ _ _ _ _ Q2). by destruct (Z.ltb_spec i2 0); [lia|].
Qed.

Lemma alloc3_none s : (length (frees (v_free s)) < 3)%nat ->
  exists D F l, alloc3_desc s = Ok None (s_wake l (s_free F (s_desc D s))) /\
    (forall i, F i = v_free s i) /\ (forall i, v_free s i = false -> D i = v_desc s i).
Proof.
  intros Hl. unfold alloc3_desc. destruct (frees (v_free s)) as [|i0 l0] eqn:E0.
  { exists (v_desc s), (v_free s), (v_wake s). rewrite (bind_Ok _ _ s (-1) s) by (by rewrite alloc_desc_eq, E0). by destruct s. }
  destruct (alloc_desc_some s _ _ E0) as (Q0 & E1 & ?). rewrite (bind_Ok _ _ _ _ _ Q0). destruct (Z.ltb_spec i0 0); [lia|].
  assert (v_free s i0 = true /\ 0 <= i0 < NUM) as [F0 R0] by (rewrite <- elem_frees, E0; by left).
  destruct l0 as [|i1 l1].
  { erewrite bind_Ok; [|rewrite alloc_desc_eq; cbn [v_free s_free]; by rewrite E1]. cbn [Z.ltb Z.compare].
    erewrite bind_Ok; [|apply free_desc_eq; [lia|apply fn_lookup_insert]]. exists (<[i0 := desc0]> (v_desc s)), (<[i0 := true]> (<[i0 := false]> (v_free s))), (v_wake s ++ [WFree]). split; [reflexivity|].
    cbn [v_free v_desc s_wake s_free s_desc]. split; intros i; (destruct (decide (i = i0)) as [->|]; [rewrite fn_lookup_insert|rewrite !fn_lookup_insert_ne by done]; congruence). }
  destruct (alloc_desc_some (s_free (<[i0 := false]> (v_free s)) s) _ _ E1) as (Q1 & E2 & ?). rewrite (bind_Ok _ _ _ _ _ Q1).
  destruct (Z.ltb_spec i1 0); [lia|].
  assert (i0 <> i1 /\ v_free s i1 = true /\ 0 <= i1 < NUM) as (Hne & F1 & R1).
  { assert ((<[i0 := false]> (v_free s)) i1 = true /\ 0 <= i1 < NUM) as [F1 R1] by (rewrite <- elem_frees, E1; by left).
    destruct (decide (i0 = i1)) as [->|Hne]; [by rewrite fn_lookup_insert in F1|]. by rewrite fn_lookup_insert_ne in F1. }
  destruct l1; [|cbn in Hl; lia].
  erewrite bind_Ok; [|cbn [v_free s_free] in E2; rewrite alloc_desc_eq; cbn [v_free s_free]; by rewrite E2]. cbn [Z.ltb Z.compare].
  erewrite bind_Ok; [|apply free_desc_eq; [lia|cbn [v_free v_desc s_wake s_free s_desc]; rewrite fn_lookup_insert_ne by congruence; apply fn_lookup_insert]].
  erewrite bind_Ok; [|apply free_desc_eq; [lia|cbn [v_free v_desc s_wake s_free s_desc]; rewrite fn_lookup_insert_ne by congruence; apply fn_lookup_insert]].
  exists (<[i1 := desc0]> (<[i0 := desc0]> (v_desc s))), (<[i1 := true]> (<[i0 := true]> (<[i1 := false]> (<[i0 := false]> (v_free s))))),
    ((v_wake s ++ [WFree]) ++ [WFree]). split; [reflexivity|]. cbn [v_free v_desc s_wake s_free s_desc].
  split; intros i; (destruct (decide (i = i1)) as [->|]; [rewrite fn_lookup_insert; congruence|rewrite fn_lookup_insert_ne by done]);
    (destruct (decide (i = i0)) as [->|]; [rewrite fn_lookup_insert; congruence|by rewrite !fn_lookup_insert_ne by done]).
Qed.

(** ** The invariant *)

Definition W16 : Z := 2 ^ 16.
(** Requests the device has yet to fetch; those it has not completed; those
    completed that the driver has yet to see. *)
Definition qa (s : vst) : list Z := ring NUM W16 (av_ring s) (v_seen s) (av_idx s).
Definition todo (s : vst) : list Z := qa s ++ v_fetched s.
Definition qu (s : vst) : list Z := ring NUM W16 (us_ring s) (v_used_idx s) (us_idx s).

Definition ix_of (pc : vpc) : option (Z * Z * Z) :=
  match pc with VWait _ i0 i1 i2 _ => Some (i0, i1, i2) | _ => None end.
Definition owns (pc : vpc) : list Z :=
  match ix_of pc with Some (i0, i1, i2) => [i0; i1; i2] | None => [] end.
Definition blk (s : vst) (r : vreq) : Z := b_blockno (v_buf s (r_b r)).
Definition bdisk (s : vst) (r : vreq) : Z := b_disk (v_buf s (r_b r)).

Definition data_is (s : vst) (r : vreq) (data block : list Z) : Prop :=
  b_data (v_buf s (r_b r)) = data /\ disk_read (v_platter s) (blk s r) = block.
(** What buffer and block hold when the call is done. *)
Definition result (r : vreq) : list Z := if r_write r then r_data r else r_old r.
Definition done_is (s : vst) (r : vreq) : Prop := data_is s r (result r) (result r).

Record chain (s : vst) (r : vreq) (i0 i1 i2 : Z) : Prop := {
  ch_0 : v_desc s i0 = mkVdesc (AOps i0) 16 VRING_DESC_F_NEXT i1;
  ch_1 : v_desc s i1 = mkVdesc (AData (r_b r)) BSIZE (Z.lor (if r_write r then 0 else VRING_DESC_F_WRITE) VRING_DESC_F_NEXT) i2;
  ch_2 : v_desc s i2 = mkVdesc (AStatus i0) 1 VRING_DESC_F_WRITE 0;
  ch_op : v_ops s i0 = mkVop (if r_write r then VIRTIO_BLK_T_OUT else VIRTIO_BLK_T_IN) 0 (u32 (blk s r * (BSIZE / 512)));
  ch_b : in_b (v_info s i0) = Some (r_b r)
}.
Inductive stage (s : vst) (r : vreq) (i0 : Z) : Prop :=
| st_todo : i0 ∈ todo s -> bdisk s r = 1 -> data_is s r (r_data r) (r_old r) -> stage s r i0
| st_used : i0 ∈ qu s -> bdisk s r = 1 -> in_status (v_info s i0) = 0 -> done_is s r -> stage s r i0
| st_done : i0 ∉ todo s -> i0 ∉ qu s -> bdisk s r = 0 -> done_is s r -> stage s r i0.

Record vcore (s : vst) (P : Z -> vpc) : Prop := {
  vc_blk : forall p r, req_of (P p) = Some r -> 0 <= blk s r < 2 ^ 31;
  vc_dist : forall p q r r', req_of (P p) = Some r -> req_of (P q) = Some r' -> p <> q -> r_b r <> r_b r' /\ blk s r <> blk s r';
  vc_start : forall p r, req_of (P p) = Some r -> ix_of (P p) = None -> data_is s r (r_data r) (r_old r);
  vc_own : forall p i, i ∈ owns (P p) -> 0 <= i < NUM /\ v_free s i = false;
  vc_nodup : forall p, NoDup (owns (P p));
  vc_disj : forall p q i, i ∈ owns (P p) -> i ∈ owns (P q) -> p = q;
  vc_owned : forall i, 0 <= i < NUM -> v_free s i = false -> exists p, i ∈ owns (P p);
  vc_wait : forall p r i0 i1 i2, req_of (P p) = Some r -> ix_of (P p) = Some (i0, i1, i2) -> chain s r i0 i1 i2 /\ stage s r i0;
  vc_queue : forall h, h ∈ todo s ++ qu s -> exists p r i1 i2, req_of (P p) = Some r /\ ix_of (P p) = Some (h, i1, i2);
  vc_qnd : NoDup (todo s ++ qu s);
  vc_av : ring_ok NUM W16 (av_ring s) (v_seen s) (av_idx s);
  vc_us : ring_ok NUM W16 (us_ring s) (v_used_idx s) (us_idx s)
}.
Definition vsleep (s : vst) (P : Z -> vpc) : Prop := forall p,
  match P p with
  | VAlloc _ true => (length (frees (v_free s)) < 3)%nat
  | VWait r _ _ _ true => bdisk s r = 1
  | _ => True
  end.
Record vinv (m : vmach) : Prop := {
  vi_core : vcore (vs m) (vpcs m);
  vi_sleep : vsleep (vs m) (vpcs m);
  vi_irq : v_used_idx (vs m) <> us_idx (vs m) -> Z.testbit (v_isr (vs m)) 0 = true \/ vhnd m = true;
  vi_wake : v_wake (vs m) = []
}.

Lemma vcore_ext s P P' : (forall q, req_of (P' q) = req_of (P q)) -> (forall q, ix_of (P' q) = ix_of (P q)) -> vcore s P -> vcore s P'.
Proof.
  intros Er Ei C. assert (forall q, owns (P' q) = owns (P q)) as Eo by (intros q; unfold owns; by rewrite Ei). split.
  - intros p r. rewrite Er. apply (vc_blk _ _ C).
  - intros p q r r'. rewrite !Er. apply (vc_dist _ _ C).
  - intros p r. rewrite Er, Ei. apply (vc_start _ _ C).
  - intros p i. rewrite Eo. apply (vc_own _ _ C).
  - intros p. rewrite Eo. apply (vc_nodup _ _ C).
  - intros p q i. rewrite !Eo. apply (vc_disj _ _ C).
  - intros i Hi Hf. destruct (vc_owned _ _ C i Hi Hf) as [p Hp]. exists p. by rewrite Eo.
  - intros p r i0 i1 i2. rewrite Er, Ei. apply (vc_wait _ _ C).
  - intros h Hh. destruct (vc_queue _ _ C h Hh) as (p & r & i1 & i2 & ? & ?). exists p, r, i1, i2. by rewrite Er, Ei.
  - apply (vc_qnd _ _ C).
  - apply (vc_av _ _ C).
  - apply (vc_us _ _ C).
Qed.
Lemma woken_req l pc : req_of (woken l pc) = req_of pc.
Proof. by destruct pc as [|? []|? ? ? ? []]. Qed.
Lemma woken_ix l pc : ix_of (woken l pc) = ix_of pc.
Proof. by destruct pc as [|? []|? ? ? ? []]. Qed.

(** Any two request heads are different descriptors; there are at most [NUM]. *)
Lemma heads_short (l : list Z) : NoDup l -> (forall h, h ∈ l -> 0 <= h < NUM) -> (length l <= 8)%nat.
Proof.
  intros Hn Hr. change 8%nat with (length (seqZ 0 8)). apply submseteq_length, NoDup_submseteq; [done|].
  intros h Hh. apply elem_of_seqZ. specialize (Hr h Hh). unfold NUM in Hr. lia.
Qed.
Lemma NUM_W : 0 < NUM /\ NUM < W16 /\ (NUM | W16).
Proof. repeat split; try done. by exists 8192. Qed.
Lemma ring_room buf r w : ring_ok NUM W16 buf r w -> (length (ring NUM W16 buf r w) < 8)%nat -> w <> (r + NUM) mod W16.
Proof.
  destruct NUM_W as (A & B & _). intros I Hl E. apply (ring_full NUM W16 A B buf) in E; [|done]. assert (NUM = 8) by done. lia.
Qed.

Section core.
Context (s s' : vst) (P : Z -> vpc) (C : vcore s P).

Lemma own_head p r i0 i1 i2 : req_of (P p) = Some r -> ix_of (P p) = Some (i0, i1, i2) ->
  i0 ∈ owns (P p) /\ i1 ∈ owns (P p) /\ i2 ∈ owns (P p) /\ i0 <> i1 /\ i0 <> i2 /\ i1 <> i2.
Proof using C.
  intros _ Hi. pose proof (vc_nodup _ _ C p) as Hn. unfold owns in *. rewrite Hi in *.
  rewrite !NoDup_cons, !elem_of_cons, elem_of_nil in *. naive_solver.
Qed.
Lemma heads_ne p q r r' i0 i1 i2 j0 j1 j2 : p <> q -> req_of (P p) = Some r -> ix_of (P p) = Some (i0, i1, i2) ->
  req_of (P q) = Some r' -> ix_of (P q) = Some (j0, j1, j2) -> i0 <> j0.
Proof using C.
  intros Hpq Hr Hi Hr' Hj E. subst j0. destruct (own_head _ _ _ _ _ Hr Hi) as (? & _). destruct (own_head _ _ _ _ _ Hr' Hj) as (? & _).
  by apply Hpq, (vc_disj _ _ C p q i0).
Qed.
Lemma queue_range h : h ∈ todo s ++ qu s -> 0 <= h < NUM /\ v_free s h = false.
Proof using C.
  intros (p & r & i1 & i2 & Hr & Hi)%(vc_queue _ _ C). apply (vc_own _ _ C p). by destruct (own_head _ _ _ _ _ Hr Hi).
Qed.

Lemma chain_frame r i0 i1 i2 : (forall i, i ∈ [i0; i1; i2] -> v_desc s' i = v_desc s i) -> v_ops s' i0 = v_ops s i0 ->
  in_b (v_info s' i0) = in_b (v_info s i0) -> blk s' r = blk s r -> chain s r i0 i1 i2 -> chain s' r i0 i1 i2.
Proof using Type.
  intros Hd Ho Hb Hk [K0 K1 K2 K3 K4]. split; rewrite ?Hk, ?Ho, ?Hb; try done; rewrite Hd; rewrite ?elem_of_cons; tauto.
Qed.
Lemma data_frame r d c : v_buf s' (r_b r) = v_buf s (r_b r) -> disk_read (v_platter s') (blk s r) = disk_read (v_platter s) (blk s r) ->
  data_is s r d c -> data_is s' r d c.
Proof using Type. unfold data_is, blk. by intros -> ->. Qed.
Lemma stage_frame r i0 : v_buf s' (r_b r) = v_buf s (r_b r) -> disk_read (v_platter s') (blk s r) = disk_read (v_platter s) (blk s r) ->
  in_status (v_info s' i0) = in_status (v_info s i0) -> (i0 ∈ todo s' <-> i0 ∈ todo s) -> (i0 ∈ qu s' <-> i0 ∈ qu s) ->
  stage s r i0 -> stage s' r i0.
Proof using Type.
  intros Hb Hp Hi Ht Hu [K1 K2 K3|K1 K2 K3 K4|K1 K2 K3 K4].
  - apply st_todo; [by apply Ht|unfold bdisk in *; by rewrite Hb|by apply data_frame].
  - apply st_used; [by apply Hu|unfold bdisk in *; by rewrite Hb|by rewrite Hi|by apply data_frame].
  - apply st_done; [by rewrite Ht|by rewrite Hu|unfold bdisk in *; by rewrite Hb|by apply data_frame].
Qed.

(** A step that concerns one request leaves the others alone. *)
Lemma core_own_step p r i0 i1 i2 :
  req_of (P p) = Some r -> ix_of (P p) = Some (i0, i1, i2) ->
  v_desc s' = v_desc s -> v_ops s' = v_ops s -> v_free s' = v_free s ->
  (forall j, j <> i0 -> v_info s' j = v_info s j) -> in_b (v_info s' i0) = in_b (v_info s i0) ->
  (forall b, b <> r_b r -> v_buf s' b = v_buf s b) -> blk s' r = blk s r ->
  (forall n, n <> blk s r -> disk_read (v_platter s') n = disk_read (v_platter s) n) ->
  (forall h, h <> i0 -> (h ∈ todo s' <-> h ∈ todo s) /\ (h ∈ qu s' <-> h ∈ qu s)) ->
  NoDup (todo s' ++ qu s') -> ring_ok NUM W16 (av_ring s') (v_seen s') (av_idx s') ->
  ring_ok NUM W16 (us_ring s') (v_used_idx s') (us_idx s') -> stage s' r i0 -> vcore s' P.
Proof using C.
  intros Hr Hi Ed Eo Ef Ej Eb Ebuf Ek Ep Eq Hn Ha Hu Hst.
  assert (forall q r', req_of (P q) = Some r' -> blk s' r' = blk s r') as Ek'.
  { intros q r' Hr'. destruct (decide (q = p)) as [->|Hne]; [congruence|]. destruct (vc_dist _ _ C q p _ _ Hr' Hr Hne) as [? _].
    unfold blk. by rewrite Ebuf. }
  split; [| | | |apply C|apply C| | | |done|done|done].
  - intros q r' Hr'. rewrite (Ek' _ _ Hr'). by apply (vc_blk _ _ C q).
  - intros q q' r1 r2 Q1 Q2 Hne. rewrite (Ek' _ _ Q1), (Ek' _ _ Q2). by apply (vc_dist _ _ C q q').
  - intros q r' Hr' Hx. assert (q <> p) as Hne by congruence. destruct (vc_dist _ _ C q p _ _ Hr' Hr Hne).
    apply data_frame; [by apply Ebuf|by apply Ep|by apply (vc_start _ _ C q)].
  - intros q i Hq. rewrite Ef. by apply (vc_own _ _ C q).
  - intros i Hi'. rewrite Ef. by apply (vc_owned _ _ C i).
  - intros q r' j0 j1 j2 Hr' Hj. destruct (vc_wait _ _ C q _ _ _ _ Hr' Hj) as [Hc Hs].
    destruct (decide (q = p)) as [->|Hne].
    + simplify_eq. split; [|done]. apply (chain_frame r i0 i1 i2); [intros; by rewrite Ed|by rewrite Eo|done|done|done].
    + destruct (vc_dist _ _ C q p _ _ Hr' Hr Hne). assert (j0 <> i0) as Hji by (by apply (heads_ne q p r' r j0 j1 j2 i0 i1 i2)).
      destruct (Eq _ Hji). split.
      * apply (chain_frame r' j0 j1 j2); [intros; by rewrite Ed|by rewrite Eo|by rewrite Ej|by apply (Ek' q)|done].
      * apply stage_frame; [by apply Ebuf|by apply Ep|by rewrite Ej|done|done|done].
  - intros h Hh. destruct (decide (h = i0)) as [->|Hne]; [by exists p, r, i1, i2|]. apply (vc_queue _ _ C). destruct (Eq _ Hne).
    rewrite elem_of_app in *. tauto.
Qed.
End core.

(** ** The steps *)

Lemma u16_W x : u16 x = x mod W16.
Proof. done. Qed.

Section steps.
Context (s : vst) (P : Z -> vpc) (C : vcore s P).

(** A round of the interrupt handler: the oldest completed request is the one
    whose call it wakes. *)
Lemma iter_step : v_used_idx s <> us_idx s -> exists p r i0 i1 i2,
  req_of (P p) = Some r /\ ix_of (P p) = Some (i0, i1, i2) /\ stage s r i0 /\
  let s1 := s_used_idx (u16 (v_used_idx s + 1)) (s_wake (v_wake s ++ [WBuf (r_b r)]) (s_buf (<[r_b r := set_bdisk 0 (v_buf s (r_b r))]> (v_buf s)) s)) in
  intr_iter s = Ok true s1 /\ vcore s1 P.
Proof using C.
  intros Hne. destruct NUM_W as (N1 & N2 & N3).
  destruct (ring_take NUM W16 N1 N2 N3 _ _ _ (vc_us _ _ C) Hne) as [Hok Hq].
  set (id := nth (Z.to_nat (v_used_idx s mod NUM)) (us_ring s) 0) in *.
  assert (id ∈ qu s) as Hid by (unfold qu; rewrite Hq; by left).
  destruct (vc_queue _ _ C id) as (p & r & i1 & i2 & Hr & Hi); [apply elem_of_app; by right|].
  destruct (vc_wait _ _ C _ _ _ _ _ Hr Hi) as [Hc Hst]. pose proof (vc_qnd _ _ C) as Hnd.
  exists p, r, id, i1, i2. split; [done|]. split; [done|]. split; [done|]. cbv zeta.
  assert (in_status (v_info s id) = 0 /\ done_is s r) as [Hs0 Hdone].
  { apply NoDup_app in Hnd as (_ & Hd & _). destruct Hst as [K1 _ _|_ _ K3 K4|_ K2 _ _]; [by destruct (Hd _ K1)|done|done]. }
  split.
  { unfold intr_iter. unfold bind at 1, get. rewrite (proj2 (Z.eqb_neq _ _) Hne). fold id. by rewrite Hs0, (ch_b _ _ _ _ _ Hc). }
  set (s1 := s_used_idx _ _). assert (todo s1 = todo s) as Et by done.
  assert (qu s = id :: qu s1) as Eu by done.
  assert (NoDup (todo s ++ qu s1) /\ id ∉ todo s ++ qu s1) as [Hn1 Hn2].
  { rewrite Eu, <- Permutation_middle in Hnd. by apply NoDup_cons in Hnd as [? ?]. }
  apply (core_own_step s s1 P C p r id i1 i2 Hr Hi); [done|done|done|done|done| | |done| |by rewrite Et|apply C|done|].
  - intros b Hb. unfold s1. cbn [v_buf s_used_idx s_wake s_buf]. by rewrite fn_lookup_insert_ne by done.
  - unfold blk, s1. cbn [v_buf s_used_idx s_wake s_buf]. by rewrite fn_lookup_insert.
  - intros h Hh. rewrite Et, Eu, elem_of_cons. tauto.
  - rewrite elem_of_app in Hn2. apply st_done; [rewrite Et; tauto|tauto| |].
    + unfold bdisk, s1. cbn [v_buf s_used_idx s_wake s_buf]. by rewrite fn_lookup_insert.
    + unfold done_is, data_is, blk, s1 in *. cbn [v_buf v_platter s_used_idx s_wake s_buf]. by rewrite fn_lookup_insert.
Qed.

Lemma fetch_step s1 : dev_fetch s = Ok tt s1 -> vcore s1 P.
Proof using C.
  unfold dev_fetch. unfold bind, get. destruct (Z.eqb_spec (v_seen s) (av_idx s)) as [E|Hne]; intros [= <-]; [done|].
  destruct NUM_W as (N1 & N2 & N3). destruct (ring_take NUM W16 N1 N2 N3 _ _ _ (vc_av _ _ C) Hne) as [Hok Hq].
  set (h := nth (Z.to_nat (v_seen s mod NUM)) (av_ring s) 0) in *. set (s1 := s_dev _ _ _).
  assert (qa s = h :: qa s1) as Ea by done.
  assert (todo s ≡ₚ todo s1) as Et.
  { unfold todo. rewrite Ea. change (v_fetched s1) with (v_fetched s ++ [h]). rewrite (app_assoc (qa s1)).
    rewrite <- Permutation_cons_append. done. }
  assert (h ∈ todo s) as Hh by (unfold todo; rewrite Ea; by left).
  destruct (vc_queue _ _ C h) as (p & r & i1 & i2 & Hr & Hi); [apply elem_of_app; by left|].
  apply (core_own_step s s1 P C p r h i1 i2 Hr Hi); try done; [|rewrite <- Et; apply C|apply C|].
  - intros j _. by rewrite Et.
  - apply (stage_frame s s1); try done; [by rewrite Et|]. by destruct (vc_wait _ _ C _ _ _ _ _ Hr Hi).
Qed.

(** The device completes a request: the data is moved as the call asks. *)
Definition moved (r : vreq) : vst :=
  if r_write r then s_platter (<[blk s r := b_data (v_buf s (r_b r))]> (v_platter s)) s
  else s_buf (<[r_b r := set_data (disk_read (v_platter s) (blk s r)) (v_buf s (r_b r))]> (v_buf s)) s.
Lemma transfer_eq p r i0 i1 i2 : req_of (P p) = Some r -> chain s r i0 i1 i2 -> dev_transfer (v_ops s i0) (v_desc s i1) s = Ok VIRTIO_BLK_S_OK (moved r).
Proof using C.
  intros Hr Hc. unfold dev_transfer. rewrite (ch_1 _ _ _ _ _ Hc), (ch_op _ _ _ _ _ Hc). cbn [d_addr op_type op_sector d_len].
  assert (u32 (blk s r * (BSIZE / 512)) / (BSIZE / SECTOR) = blk s r /\ u32 (blk s r * (BSIZE / 512)) mod (BSIZE / SECTOR) = 0) as [E1 E2].
  { pose proof (vc_blk _ _ C _ _ Hr). change (BSIZE / 512) with 2. change (BSIZE / SECTOR) with 2. rewrite u32_small by lia.
    split; [apply Z.div_mul|apply Z.mod_mul]; lia. }
  rewrite E1, E2. unfold moved. by destruct (r_write r).
Qed.
Lemma moved_buf r b : b <> r_b r -> v_buf (moved r) b = v_buf s b.
Proof using Type. unfold moved. destruct (r_write r); [done|]. cbn [v_buf s_buf]. intros. by rewrite fn_lookup_insert_ne. Qed.
Lemma moved_platter r n : n <> blk s r -> disk_read (v_platter (moved r)) n = disk_read (v_platter s) n.
Proof using Type. unfold moved. destruct (r_write r); [|done]. cbn. intros. unfold disk_read. by rewrite lookup_insert_ne. Qed.
Lemma moved_blk r : blk (moved r) r = blk s r.
Proof using Type. unfold moved. destruct (r_write r); [done|]. unfold blk. cbn [v_buf s_buf]. by rewrite fn_lookup_insert. Qed.
Lemma moved_bdisk r : bdisk (moved r) r = bdisk s r.
Proof using Type. unfold moved. destruct (r_write r); [done|]. unfold bdisk. cbn [v_buf s_buf]. by rewrite fn_lookup_insert. Qed.
Lemma moved_done r : data_is s r (r_data r) (r_old r) -> done_is (moved r) r.
Proof using Type.
  intros [Hd Hp]. unfold done_is, data_is, result. rewrite moved_blk. unfold moved. destruct (r_write r).
  - split; [done|]. cbn. unfold disk_read. rewrite lookup_insert_eq. done.
  - cbn [v_buf v_platter s_buf]. rewrite fn_lookup_insert. done.
Qed.
Lemma moved_rest r : let t := moved r in
  v_desc t = v_desc s /\ v_ops t = v_ops s /\ v_free t = v_free s /\ v_info t = v_info s /\ todo t = todo s /\
  v_fetched t = v_fetched s /\ v_seen t = v_seen s /\ us_ring t = us_ring s /\ us_idx t = us_idx s /\ v_used_idx t = v_used_idx s /\
  av_ring t = av_ring s /\ av_idx t = av_idx s /\ v_wake t = v_wake s /\ v_isr t = v_isr s.
Proof using Type. unfold moved. by destruct (r_write r). Qed.

Definition completed (r : vreq) (k : nat) (i0 : Z) : vst :=
  let t := moved r in
  s_isr (Z.lor (v_isr t) 1) (s_dev (v_seen t) (delete k (v_fetched t))
    (s_used (<[Z.to_nat (us_idx t mod NUM) := i0]> (us_ring t)) (u16 (us_idx t + 1))
      (s_info (<[i0 := mkVinfo (in_b (v_info t i0)) 0]> (v_info t)) t))).

Lemma complete_step k i0 : v_fetched s !! k = Some i0 -> exists p r i1 i2,
  req_of (P p) = Some r /\ ix_of (P p) = Some (i0, i1, i2) /\ dev_complete k s = Ok tt (completed r k i0) /\ vcore (completed r k i0) P.
Proof using C.
  intros Hk. assert (i0 ∈ todo s) as Hin by (unfold todo; apply elem_of_app; right; by apply list_elem_of_lookup_2 in Hk).
  destruct (vc_queue _ _ C i0) as (p & r & i1 & i2 & Hr & Hi); [apply elem_of_app; by left|]. exists p, r, i1, i2. split; [done|]. split; [done|].
  destruct (vc_wait _ _ C _ _ _ _ _ Hr Hi) as [Hc Hst]. pose proof (vc_qnd _ _ C) as Hnd.
  assert (bdisk s r = 1 /\ data_is s r (r_data r) (r_old r)) as [Hb Hd].
  { apply NoDup_app in Hnd as (_ & Hx & _). destruct Hst as [K1 K2 K3|K1 _ _ _|K1 _ _ _]; [done|by destruct (Hx _ Hin)|done]. }
  split.
  { unfold dev_complete. unfold bind at 1, get. rewrite Hk. rewrite (ch_0 _ _ _ _ _ Hc). cbn [d_addr d_next].
    replace (d_next (v_desc s i1)) with i2 by (by rewrite (ch_1 _ _ _ _ _ Hc)). rewrite (ch_2 _ _ _ _ _ Hc). cbn [d_addr].
    assert (forall d0 d2, d0 = mkVdesc (AOps i0) 16 VRING_DESC_F_NEXT i1 -> d2 = mkVdesc (AStatus i0) 1 VRING_DESC_F_WRITE 0 -> good_chain d0 (v_desc s i1) d2 = true) as Hg
      by (intros ? ? -> ->; rewrite (ch_1 _ _ _ _ _ Hc); by destruct (r_write r)).
    rewrite Hg by done. cbn [negb]. by rewrite (bind_Ok _ _ _ _ _ (transfer_eq p r i0 i1 i2 Hr Hc)). }
  destruct (moved_rest r) as (M1 & M2 & M3 & M4 & M5 & M6 & M7 & M8 & M9 & M10 & M11 & M12 & M13 & M14).
  set (s1 := completed r k i0). assert (v_fetched s ≡ₚ i0 :: delete k (v_fetched s)) as Ef by (by apply delete_Permutation).
  assert (todo s ≡ₚ i0 :: todo s1) as Et.
  { unfold todo, qa, s1, completed. cbn [v_fetched s_isr s_dev av_ring v_seen av_idx s_used s_info]. rewrite M6, M7, M11, M12.
    etransitivity; [apply Permutation_app_head, Ef|]. symmetry. apply Permutation_middle. }
  rewrite Et in Hnd. cbn [app] in Hnd. apply NoDup_cons in Hnd as [Hni Hnd].
  destruct NUM_W as (N1 & N2 & N3). assert (length (qu s) < 8)%nat as Hlen.
  { cut (length (i0 :: todo s1 ++ qu s) <= 8)%nat; [cbn; rewrite length_app; lia|]. apply heads_short; [by constructor|].
    intros h Hh. apply (queue_range s P C). rewrite Et. done. }
  destruct (ring_put NUM W16 N1 N2 N3 _ _ _ i0 (vc_us _ _ C) (ring_room _ _ _ (vc_us _ _ C) Hlen)) as [Hok Hput].
  assert (qu s1 = qu s ++ [i0]) as Eu.
  { unfold qu, s1, completed. cbn [us_ring us_idx v_used_idx s_isr s_dev s_used s_info]. rewrite M8, M9, M10, u16_W. done. }
  apply (core_own_step s s1 P C p r i0 i1 i2 Hr Hi).
  - done. - done. - done. 
  - intros j Hj. unfold s1, completed. cbn [v_info s_isr s_dev s_used s_info]. by rewrite fn_lookup_insert_ne, M4.
  - unfold s1, completed. cbn [v_info s_isr s_dev s_used s_info]. by rewrite fn_lookup_insert, M4.
  - intros b. apply moved_buf.
  - apply moved_blk.
  - intros n. apply moved_platter.
  - intros h Hh. rewrite Et, Eu, elem_of_cons, elem_of_app, list_elem_of_singleton. tauto.
  - rewrite Eu, app_assoc, <- Permutation_cons_append. by constructor.
  - unfold s1, completed. cbn. rewrite M7, M11, M12. apply C.
  - unfold s1, completed. cbn [us_ring us_idx v_used_idx s_isr s_dev s_used s_info]. rewrite M8, M9, M10, u16_W. done.
  - apply st_used; [rewrite Eu; apply elem_of_app; right; by left|by rewrite <- Hb; apply moved_bdisk| |by apply moved_done].
    unfold s1, completed. cbn [v_info s_isr s_dev s_used s_info]. by rewrite fn_lookup_insert.
Qed.
End steps.

(** ** Steps that start, allocate for or finish a call *)

Section pcs.
Context (s : vst) (P : Z -> vpc) (C : vcore s P) (p : Z).

Lemma core_call b w z : req_of (P p) = None -> (forall q r, req_of (P q) = Some r -> r_b r <> b) -> 0 <= b_blockno (v_buf s b) < 2 ^ 31 ->
  (forall q r, req_of (P q) = Some r -> blk s r <> b_blockno (v_buf s b)) -> vcore s (<[p := VAlloc (new_req s b w) z]> P).
Proof using C.
  intros Hp Hu Hb Hk. set (pc := VAlloc _ z). assert (ix_of (P p) = None) as Hx by (by destruct (P p)).
  assert (forall q, ix_of ((<[p := pc]> P) q) = ix_of (P q)) as Ei.
  { intros q. destruct (decide (q = p)) as [->|]; [by rewrite fn_lookup_insert|by rewrite fn_lookup_insert_ne]. }
  assert (forall q, owns ((<[p := pc]> P) q) = owns (P q)) as Eo by (intros; unfold owns; by rewrite Ei).
  assert (forall q, q <> p -> (<[p := pc]> P) q = P q) as En by (intros; by rewrite fn_lookup_insert_ne).
  split; [| | | | | | | | |apply C|apply C|apply C].
  - intros q r. destruct (decide (q = p)) as [->|]; [rewrite fn_lookup_insert; intros [= <-]; done|]. rewrite En by done. apply (vc_blk _ _ C).
  - intros q q' r r' Q1 Q2 Hne. destruct (decide (q = p)) as [->|Q3].
    + rewrite fn_lookup_insert in Q1. injection Q1 as <-. rewrite En in Q2 by done. specialize (Hu _ _ Q2). specialize (Hk _ _ Q2). done.
    + rewrite En in Q1 by done. destruct (decide (q' = p)) as [->|].
      * rewrite fn_lookup_insert in Q2. injection Q2 as <-. by split; [apply (Hu q)|apply (Hk q)].
      * rewrite En in Q2 by done. by apply (vc_dist _ _ C q q').
  - intros q r. destruct (decide (q = p)) as [->|]; [rewrite fn_lookup_insert; intros [= <-]; done|]. rewrite En by done. apply (vc_start _ _ C).
  - intros q i. rewrite Eo. apply (vc_own _ _ C).
  - intros q. rewrite Eo. apply C.
  - intros q q' i. rewrite !Eo. apply (vc_disj _ _ C).
  - intros i Hi Hf. destruct (vc_owned _ _ C i Hi Hf) as [q Hq]. exists q. by rewrite Eo.
  - intros q r i0 i1 i2. rewrite Ei. destruct (decide (q = p)) as [->|]; [by rewrite Hx|]. rewrite En by done. apply (vc_wait _ _ C).
  - intros h Hh. destruct (vc_queue _ _ C h Hh) as (q & r & i1 & i2 & Q1 & Q2). exists q, r, i1, i2.
    rewrite En; [done|]. intros ->. congruence.
Qed.

(** Changes outside what the calls in progress use. *)
Lemma core_frame s1 : (forall q r, req_of (P q) = Some r -> v_buf s1 (r_b r) = v_buf s (r_b r)) -> v_platter s1 = v_platter s ->
  (forall i, v_free s1 i = v_free s i) -> (forall i, v_free s i = false -> v_desc s1 i = v_desc s i) ->
  v_ops s1 = v_ops s -> v_info s1 = v_info s -> todo s1 = todo s -> qu s1 = qu s ->
  ring_ok NUM W16 (av_ring s1) (v_seen s1) (av_idx s1) -> ring_ok NUM W16 (us_ring s1) (v_used_idx s1) (us_idx s1) -> vcore s1 P.
Proof using C.
  intros Eb Ep Ef Ed Eo Ei Et Eu Ha Hu.
  assert (forall q r, req_of (P q) = Some r -> blk s1 r = blk s r) as Ek by (intros q r Hr; unfold blk; by rewrite (Eb q)).
  split; [| | | |apply C|apply C| | | | |done|done].
  - intros q r Hr. rewrite (Ek q r Hr). by apply (vc_blk _ _ C q).
  - intros q q' r r' Q1 Q2. rewrite (Ek _ _ Q1), (Ek _ _ Q2). by apply (vc_dist _ _ C q q').
  - intros q r Hr Hi. apply (data_frame s); [by apply (Eb q)|by rewrite Ep|by apply (vc_start _ _ C q)].
  - intros q i. rewrite Ef. apply (vc_own _ _ C).
  - intros i. rewrite Ef. apply (vc_owned _ _ C).
  - intros q r i0 i1 i2 Hr Hi. destruct (vc_wait _ _ C _ _ _ _ _ Hr Hi) as [Hc Hs]. split.
    + apply (chain_frame s); [|by rewrite Eo|by rewrite Ei|by apply (Ek q)|done]. intros i Hin. apply Ed.
      apply (vc_own _ _ C q). unfold owns. by rewrite Hi.
    + apply (stage_frame s); [by apply (Eb q)|by rewrite Ep|by rewrite Ei|by rewrite Et|by rewrite Eu|done].
  - intros h. rewrite Et, Eu. apply (vc_queue _ _ C).
  - rewrite Et, Eu. apply C.
Qed.

(** The state after [alloc3_desc] and [submit]. *)
Definition submitted (r : vreq) (i0 i1 i2 : Z) : vst :=
  let info := <[i0 := mkVinfo (in_b (v_info s i0)) 0xff]> (v_info s) in
  s_avail (<[Z.to_nat (av_idx s mod NUM) := i0]> (av_ring s)) (u16 (av_idx s + 1))
    (s_info (<[i0 := mkVinfo (Some (r_b r)) (in_status (info i0))]> info)
      (s_buf (<[r_b r := set_bdisk 1 (v_buf s (r_b r))]> (v_buf s))
        (s_desc (<[i2 := mkVdesc (AStatus i0) 1 VRING_DESC_F_WRITE 0]>
                (<[i1 := mkVdesc (AData (r_b r)) BSIZE (Z.lor (if r_write r then 0 else VRING_DESC_F_WRITE) VRING_DESC_F_NEXT) i2]>
                (<[i0 := mkVdesc (AOps i0) 16 VRING_DESC_F_NEXT i1]> (v_desc s))))
          (s_ops (<[i0 := mkVop (if r_write r then VIRTIO_BLK_T_OUT else VIRTIO_BLK_T_IN) 0 (u32 (blk s r * (BSIZE / 512)))]> (v_ops s))
            (s_free (<[i2 := false]> (<[i1 := false]> (<[i0 := false]> (v_free s)))) s))))).
Lemma submit_eq r i0 i1 i2 : submit (r_b r) (r_write r) i0 i1 i2 (s_free (<[i2 := false]> (<[i1 := false]> (<[i0 := false]> (v_free s)))) s) =
  Ok tt (submitted r i0 i1 i2).
Proof using Type. reflexivity. Qed.

Section submitted.
Context (r : vreq) (i0 i1 i2 : Z) (l : list Z) (z : bool).
Context (Hf : frees (v_free s) = i0 :: i1 :: i2 :: l) (Hr : req_of (P p) = Some r) (Hx : ix_of (P p) = None).
Let s1 := submitted r i0 i1 i2.
Let P1 := <[p := VWait r i0 i1 i2 z]> P.

Lemma taken i : i ∈ [i0; i1; i2] -> v_free s i = true /\ 0 <= i < NUM.
Proof. intros Hi. apply elem_frees. rewrite Hf. apply (elem_of_app [i0; i1; i2]). by left. Qed.
Lemma taken_new i q : i ∈ [i0; i1; i2] -> i ∉ owns (P q).
Proof. intros [Ht _]%taken [_ Hq]%(vc_own _ _ C). congruence. Qed.
Lemma taken_ne : i0 <> i1 /\ i0 <> i2 /\ i1 <> i2.
Proof.
  pose proof (free_from_NoDup (v_free s) (Z.to_nat NUM) 0) as Hn. fold (frees (v_free s)) in Hn. rewrite Hf in Hn.
  rewrite !NoDup_cons, !elem_of_cons in Hn. destruct Hn as (A & B & _). tauto.
Qed.
Lemma taken_queue : i0 ∉ todo s ++ qu s.
Proof. intros [_ Hq]%(queue_range s P C). destruct (taken i0); [by left|congruence]. Qed.

Lemma sub_blk r' : blk s1 r' = blk s r'.
Proof.
  unfold blk, s1, submitted. cbn [v_buf s_avail s_info s_buf]. destruct (decide (r_b r' = r_b r)) as [->|].
  - by rewrite fn_lookup_insert.
  - by rewrite fn_lookup_insert_ne.
Qed.
Lemma sub_other i q : i ∈ owns (P q) -> v_desc s1 i = v_desc s i /\ v_ops s1 i = v_ops s i /\ v_info s1 i = v_info s i.
Proof.
  intros Hi. assert (i <> i0 /\ i <> i1 /\ i <> i2) as (? & ? & ?).
  { split_and!; intros ->; (eapply taken_new; [|exact Hi]); rewrite !elem_of_cons; tauto. }
  unfold s1, submitted. cbn [v_desc v_ops v_info s_avail s_info s_buf s_desc s_ops]. by rewrite !fn_lookup_insert_ne.
Qed.
Lemma sub_free i : v_free s1 i = false <-> v_free s i = false \/ i ∈ [i0; i1; i2].
Proof.
  unfold s1, submitted. cbn [v_free s_avail s_info s_buf s_desc s_ops s_free]. rewrite !elem_of_cons, elem_of_nil.
  destruct (decide (i = i2)) as [->|]; [rewrite fn_lookup_insert; tauto|rewrite fn_lookup_insert_ne by done].
  destruct (decide (i = i1)) as [->|]; [rewrite fn_lookup_insert; tauto|rewrite fn_lookup_insert_ne by done].
  destruct (decide (i = i0)) as [->|]; [rewrite fn_lookup_insert; tauto|rewrite fn_lookup_insert_ne by done]. tauto.
Qed.
Lemma sub_owns q : owns (P1 q) = if decide (q = p) then [i0; i1; i2] else owns (P q).
Proof. unfold P1. case_decide; [subst; by rewrite fn_lookup_insert|by rewrite fn_lookup_insert_ne]. Qed.
Lemma sub_req q : req_of (P1 q) = req_of (P q).
Proof. unfold P1. destruct (decide (q = p)) as [->|]; [by rewrite fn_lookup_insert|by rewrite fn_lookup_insert_ne]. Qed.
Lemma sub_rings : todo s1 ≡ₚ i0 :: todo s /\ qu s1 = qu s /\ ring_ok NUM W16 (av_ring s1) (v_seen s1) (av_idx s1).
Proof.
  destruct NUM_W as (N1 & N2 & N3). assert (length (qa s) < 8)%nat as Hlen.
  { cut (length (i0 :: todo s ++ qu s) <= 8)%nat; [cbn; unfold todo; rewrite !length_app; lia|]. apply heads_short.
    - constructor; [apply taken_queue|apply C].
    - intros h [->|Hh]%elem_of_cons; [apply taken; by left|by apply (queue_range s P C)]. }
  destruct (ring_put NUM W16 N1 N2 N3 _ _ _ i0 (vc_av _ _ C) (ring_room _ _ _ (vc_av _ _ C) Hlen)) as [Hok Hput].
  split; [|split; [done|exact Hok]]. change (todo s1) with (ring NUM W16 (av_ring s1) (v_seen s) (av_idx s1) ++ v_fetched s).
  change (ring NUM W16 (av_ring s1) (v_seen s) (av_idx s1)) with (ring NUM W16 (<[Z.to_nat (av_idx s mod NUM) := i0]> (av_ring s)) (v_seen s) ((av_idx s + 1) mod W16)).
  rewrite Hput. unfold todo, qa. rewrite <- Permutation_cons_append. done.
Qed.
Lemma sub_chain : chain s1 r i0 i1 i2.
Proof.
  destruct taken_ne as (? & ? & ?). split; rewrite ?sub_blk; unfold s1, submitted; cbn [v_desc v_ops v_info s_avail s_info s_buf s_desc s_ops];
    repeat first [rewrite fn_lookup_insert|rewrite fn_lookup_insert_ne by congruence]; done.
Qed.

Lemma core_submit : vcore s1 P1.
Proof.
  destruct sub_rings as (Et & Eu & Ha). pose proof taken_queue as Hq.
  assert (forall b, b <> r_b r -> v_buf s1 b = v_buf s b) as Eb.
  { intros b Hb. unfold s1, submitted. cbn [v_buf s_avail s_info s_buf]. by rewrite fn_lookup_insert_ne. }
  split; [| | | | | | | | | |done|apply C].
  - intros q r'. rewrite sub_req, sub_blk. apply (vc_blk _ _ C).
  - intros q q' r1 r2. rewrite !sub_req, !sub_blk. apply (vc_dist _ _ C).
  - intros q r'. rewrite sub_req. unfold P1. destruct (decide (q = p)) as [->|Hne]; [by rewrite fn_lookup_insert|].
    rewrite fn_lookup_insert_ne by done. intros Hr' Hi. destruct (vc_dist _ _ C q p _ _ Hr' Hr Hne).
    apply (data_frame s); [by apply Eb|done|by apply (vc_start _ _ C q)].
  - intros q i. rewrite sub_owns, sub_free. case_decide; [|intros Hi; destruct (vc_own _ _ C q i Hi); tauto]. intros Hi. split; [by apply taken|by right].
  - intros q. rewrite sub_owns. case_decide; [|apply C]. destruct taken_ne as (? & ? & ?). rewrite !NoDup_cons, !elem_of_cons, !elem_of_nil.
    split_and!; try (by intros [?|?]); [naive_solver..|by apply NoDup_nil].
  - intros q q' i. rewrite !sub_owns. repeat case_decide; subst; [done|intros Q1 Q2..|apply (vc_disj _ _ C)];
      [by destruct (taken_new i q')|by destruct (taken_new i q)].
  - intros i Hi. rewrite sub_free. intros [Ho|Ho].
    + destruct (vc_owned _ _ C i Hi Ho) as [q Ho']. exists q. rewrite sub_owns. case_decide; [|done]. subst. unfold owns in Ho'. by rewrite Hx in Ho'; apply elem_of_nil in Ho'.
    + exists p. rewrite sub_owns. by case_decide.
  - intros q r' j0 j1 j2. rewrite sub_req. unfold P1. destruct (decide (q = p)) as [->|Hne].
    + rewrite fn_lookup_insert. intros Hr'. simplify_eq. intros [= <- <- <-]. split; [apply sub_chain|].
      apply st_todo; [rewrite Et; by left| |].
      * unfold bdisk, s1, submitted. cbn [v_buf s_avail s_info s_buf]. by rewrite fn_lookup_insert.
      * pose proof (vc_start _ _ C p r Hr Hx) as [K1 K2]. split; [|by rewrite sub_blk].
        unfold s1, submitted. cbn [v_buf s_avail s_info s_buf]. by rewrite fn_lookup_insert.
    + rewrite fn_lookup_insert_ne by done. intros Hr' Hi. destruct (vc_wait _ _ C _ _ _ _ _ Hr' Hi) as [Hc Hs].
      destruct (vc_dist _ _ C q p _ _ Hr' Hr Hne). destruct (own_head s P C _ _ _ _ _ Hr' Hi) as (O1 & O2 & O3 & _).
      destruct (sub_other j0 q O1) as (D1 & D2 & D3). split.
      * apply (chain_frame s); [|done|by rewrite D3|apply sub_blk|done]. intros i Hin. apply (sub_other i q). unfold owns. by rewrite Hi.
      * apply (stage_frame s); [by apply Eb|done|by rewrite D3| |by rewrite Eu|done]. rewrite Et, elem_of_cons.
        split; [intros [->|?]; [|done]|by right]. destruct (taken_new i0 q); [by left|done].
  - intros h. rewrite Et, Eu. intros [->|Hh]%elem_of_cons.
    + exists p, r, i1, i2. rewrite sub_req. unfold P1. by rewrite fn_lookup_insert.
    + destruct (vc_queue _ _ C h Hh) as (q & r' & j1 & j2 & Q1 & Q2). exists q, r', j1, j2. rewrite sub_req. unfold P1.
      rewrite fn_lookup_insert_ne; [done|]. intros ->. congruence.
  - rewrite Et, Eu. constructor; [done|apply C].
Qed.
End submitted.

(** The state after [free_desc]. *)
Definition freed (i : Z) (s : vst) : vst :=
  s_wake (v_wake s ++ [WFree]) (s_free (<[i := true]> (v_free s)) (s_desc (<[i := desc0]> (v_desc s)) s)).
Lemma freed_desc i j t : j <> i -> v_desc (freed i t) j = v_desc t j.
Proof. intros. unfold freed. cbn [v_desc s_wake s_free s_desc]. by rewrite fn_lookup_insert_ne. Qed.
Lemma freed_free i j t : j <> i -> v_free (freed i t) j = v_free t j.
Proof. intros. unfold freed. cbn [v_free s_wake s_free s_desc]. by rewrite fn_lookup_insert_ne. Qed.
Lemma free_chain_step f i t d : v_desc t i = d -> i < NUM -> v_free t i = false -> free_chain (S f) i t =
  (if negb (Z.land (d_flags d) VRING_DESC_F_NEXT =? 0) then free_chain f (d_next d) else return tt) (freed i t).
Proof.
  intros Hd Hi Hf. cbn [free_chain]. unfold bind at 1, get. rewrite Hd. by rewrite (bind_Ok _ _ _ _ _ (free_desc_eq i t Hi Hf)).
Qed.

(** The end of a call. *)
Section finished.
Context (r : vreq) (i0 i1 i2 : Z) (Hr : req_of (P p) = Some r) (Hi : ix_of (P p) = Some (i0, i1, i2)) (Hb : bdisk s r <> 1).
Let s1 : vst := s_wake (((v_wake s ++ [WFree]) ++ [WFree]) ++ [WFree])
  (s_free (<[i2 := true]> (<[i1 := true]> (<[i0 := true]> (v_free s))))
    (s_desc (<[i2 := desc0]> (<[i1 := desc0]> (<[i0 := desc0]> (v_desc s))))
      (s_info (<[i0 := mkVinfo None (in_status (v_info s i0))]> (v_info s)) s))).
Let P1 := <[p := VIdle]> P.

Lemma fin_done : done_is s r /\ i0 ∉ todo s /\ i0 ∉ qu s.
Proof.
  destruct (vc_wait _ _ C _ _ _ _ _ Hr Hi) as [_ Hs]. destruct Hs as [_ Q _|_ Q _ _|K1 K2 _ K4]; [by destruct Hb..|done].
Qed.
Lemma fin_run : finish i0 s = Ok tt s1.
Proof.
  destruct (vc_wait _ _ C _ _ _ _ _ Hr Hi) as [Hc _]. destruct (own_head s P C _ _ _ _ _ Hr Hi) as (O1 & O2 & O3 & N1 & N2 & N3).
  destruct (vc_own _ _ C _ _ O1) as [R1 F1]. destruct (vc_own _ _ C _ _ O2) as [R2 F2]. destruct (vc_own _ _ C _ _ O3) as [R3 F3].
  unfold finish. rewrite bind_modify. change (Z.to_nat NUM) with 8%nat.
  erewrite (free_chain_step _ i0); [| |lia|]; [|exact (ch_0 _ _ _ _ _ Hc)|exact F1]. cbn [d_flags d_next].
  change (negb (Z.land VRING_DESC_F_NEXT VRING_DESC_F_NEXT =? 0)) with true. cbv iota.
  erewrite (free_chain_step _ i1); [| |lia|]; [|rewrite freed_desc by done; exact (ch_1 _ _ _ _ _ Hc)|by rewrite freed_free].
  assert (forall w : bool, negb (Z.land (Z.lor (if w then 0 else VRING_DESC_F_WRITE) VRING_DESC_F_NEXT) VRING_DESC_F_NEXT =? 0) = true) as Hw by (by intros []).
  cbn [d_flags d_next]. rewrite Hw. cbv iota.
  erewrite (free_chain_step _ i2); [| |lia|]; [|rewrite !freed_desc by done; exact (ch_2 _ _ _ _ _ Hc)|by rewrite !freed_free].
  reflexivity.
Qed.
Lemma fin_other i q : q <> p -> i ∈ owns (P q) -> i <> i0 /\ i <> i1 /\ i <> i2.
Proof.
  intros Hq Ho. destruct (own_head s P C _ _ _ _ _ Hr Hi) as (O1 & O2 & O3 & _).
  split_and!; intros ->; by destruct Hq, (vc_disj _ _ C q p _ Ho).
Qed.
Lemma fin_owns q i : i ∈ owns (P1 q) <-> i ∈ owns (P q) /\ q <> p.
Proof.
  unfold P1. destruct (decide (q = p)) as [->|]; [rewrite fn_lookup_insert|rewrite fn_lookup_insert_ne by done; tauto].
  split; [by intros ?%elem_of_nil|tauto].
Qed.
Lemma fin_pc q : (req_of (P1 q) <> None -> q <> p) /\ (q <> p -> P1 q = P q).
Proof.
  unfold P1. split; [intros Hq ->; by rewrite fn_lookup_insert in Hq|intros; by rewrite fn_lookup_insert_ne].
Qed.
Lemma fin_req q r' : req_of (P1 q) = Some r' -> q <> p /\ P1 q = P q /\ req_of (P q) = Some r'.
Proof. intros Hq. destruct (fin_pc q) as [A B]. assert (q <> p) as Hne by (apply A; by rewrite Hq). by rewrite B in * by done. Qed.

Lemma core_finish : vcore s1 P1.
Proof.
  destruct fin_done as (_ & Q1 & Q2). split; [| | | | | | | | |apply C|apply C|apply C].
  - intros q r' (_ & _ & Hr')%fin_req. by apply (vc_blk _ _ C q).
  - intros q q' r1 r2 (_ & _ & K1)%fin_req (_ & _ & K2)%fin_req. by apply (vc_dist _ _ C q q').
  - intros q r' (_ & -> & K)%fin_req. by apply (vc_start _ _ C q).
  - intros q i [Ho Hq]%fin_owns. destruct (fin_other i q Hq Ho) as (? & ? & ?). unfold s1. cbn [v_free s_wake s_free].
    rewrite !fn_lookup_insert_ne by done. by apply (vc_own _ _ C q).
  - intros q. unfold P1. destruct (decide (q = p)) as [->|]; [rewrite fn_lookup_insert; apply NoDup_nil_2|rewrite fn_lookup_insert_ne by done; apply C].
  - intros q q' i [O1 _]%fin_owns [O2 _]%fin_owns. by apply (vc_disj _ _ C q q' i).
  - intros i Hi'. unfold s1. cbn [v_free s_wake s_free].
    destruct (decide (i = i2)) as [->|]; [by rewrite fn_lookup_insert|]. destruct (decide (i = i1)) as [->|]; [by rewrite fn_lookup_insert_ne, fn_lookup_insert|].
    destruct (decide (i = i0)) as [->|]; [by rewrite fn_lookup_insert_ne, fn_lookup_insert_ne, fn_lookup_insert|]. rewrite !fn_lookup_insert_ne by done.
    intros Hf. destruct (vc_owned _ _ C i Hi' Hf) as [q Hq]. exists q. apply fin_owns. split; [done|]. intros ->.
    unfold owns in Hq. rewrite Hi, !elem_of_cons, elem_of_nil in Hq. tauto.
  - intros q r' j0 j1 j2 (Hne & -> & K)%fin_req Hj. destruct (vc_wait _ _ C _ _ _ _ _ K Hj) as [Hc Hs].
    assert (forall i, i ∈ [j0; j1; j2] -> i <> i0 /\ i <> i1 /\ i <> i2) as Hoth.
    { intros i Hin. apply (fin_other i q Hne). unfold owns. by rewrite Hj. }
    assert (v_info s1 j0 = v_info s j0) as Ei.
    { unfold s1. cbn [v_info s_wake s_free s_desc s_info]. destruct (Hoth j0) as (? & _); [by left|]. by rewrite fn_lookup_insert_ne. }
    split.
    + apply (chain_frame s); [|done|by rewrite Ei|done|done]. intros i Hin. destruct (Hoth i Hin) as (? & ? & ?).
      unfold s1. cbn [v_desc s_wake s_free s_desc]. by rewrite !fn_lookup_insert_ne.
    + apply (stage_frame s); [done|done|by rewrite Ei|done|done|done].
  - intros h Hh. destruct (vc_queue _ _ C h Hh) as (q & r' & j1 & j2 & K1 & K2). exists q, r', j1, j2.
    assert (q <> p) as Hne.
    { intros ->. rewrite Hi in K2. injection K2 as -> -> ->. change (todo s1 ++ qu s1) with (todo s ++ qu s) in Hh. apply elem_of_app in Hh as [?|?]; done. }
    destruct (fin_pc q) as [_ B]. by rewrite B.
Qed.
End finished.
End pcs.

(** ** The invariant holds in every reachable state *)

Definition few (s : vst) : Prop := (length (frees (v_free s)) < 3)%nat.
Definition sleep_ok (s : vst) (pc : vpc) : Prop :=
  match pc with VAlloc _ true => few s | VWait r _ _ _ true => bdisk s r = 1 | _ => True end.

Lemma vsleep_woken s s1 P l : vsleep s P -> (WFree ∉ l -> few s -> few s1) ->
  (forall q r, req_of (P q) = Some r -> WBuf (r_b r) ∉ l -> bdisk s r = 1 -> bdisk s1 r = 1) ->
  vsleep s1 (fun q => woken l (P q)).
Proof.
  intros Hs Hf Hb q. specialize (Hs q). specialize (Hb q). destruct (P q) as [|r []|r i0 i1 i2 []]; cbn [woken]; try done.
  - case_bool_decide; [by apply Hf|done].
  - case_bool_decide; [by apply Hb|done].
Qed.
Lemma vsleep_upd s P p pc : vsleep s P -> sleep_ok s pc -> vsleep s (<[p := pc]> P).
Proof. intros Hs Hp q. destruct (decide (q = p)) as [->|]; [by rewrite fn_lookup_insert|rewrite fn_lookup_insert_ne by done; apply Hs]. Qed.
Lemma vcore_woken s P l p pc : vcore s (<[p := pc]> P) -> vcore s (<[p := pc]> (fun q => woken l (P q))).
Proof.
  apply vcore_ext; intros q; (destruct (decide (q = p)) as [->|]; [by rewrite !fn_lookup_insert|rewrite !fn_lookup_insert_ne by done]);
    [apply woken_req|apply woken_ix].
Qed.
Lemma vcore_same s P p pc : vcore s P -> req_of pc = req_of (P p) -> ix_of pc = ix_of (P p) -> vcore s (<[p := pc]> P).
Proof.
  intros C Er Ei. revert C. apply vcore_ext; intros q; (destruct (decide (q = p)) as [->|]; [by rewrite !fn_lookup_insert|by rewrite !fn_lookup_insert_ne by done]).
Qed.
Lemma vcore_clear s P : vcore s P -> vcore (s_wake [] s) P.
Proof. intros C. apply (core_frame s P C); try done; apply C. Qed.

(** What a run of [virtio_disk_rw] up to its next sleep or end does. *)
Record rw_ok (s : vst) (P : Z -> vpc) (p : Z) (pc : vpc) (s1 : vst) : Prop := {
  rw_core : vcore s1 (<[p := pc]> P);
  rw_few : WFree ∉ v_wake s1 -> (exists q r, q <> p /\ P q = VAlloc r true) -> few s -> few s1;
  rw_bdisk : forall q r, q <> p -> req_of (P q) = Some r -> bdisk s1 r = bdisk s r;
  rw_pc : sleep_ok s1 pc;
  rw_dev : v_used_idx s1 = v_used_idx s /\ us_idx s1 = us_idx s /\ v_isr s1 = v_isr s;
  rw_end : forall r, req_of (P p) = Some r -> pc = VIdle -> done_is s1 r
}.

Lemma rw_alloc_ok s P p r : vcore s P -> P p = VAlloc r false -> exists pc s1, rw_alloc r s = Ok pc s1 /\ rw_ok s P p pc s1.
Proof.
  intros C Hp. unfold rw_alloc. destruct (frees (v_free s)) as [|i0 [|i1 [|i2 l]]] eqn:E.
  4: { rewrite (bind_Ok _ _ _ _ _ (alloc3_some s _ _ _ _ E)), (bind_Ok _ _ _ _ _ (submit_eq s r i0 i1 i2)).
    assert (b_disk (v_buf (submitted s r i0 i1 i2) (r_b r)) = 1) as Hb.
    { unfold submitted. cbn [v_buf s_avail s_info s_buf]. by rewrite fn_lookup_insert. }
    exists (VWait r i0 i1 i2 true), (submitted s r i0 i1 i2). split; [unfold rw_wait; unfold bind, get; by rewrite Hb|].
    split; [|unfold few; rewrite E; cbn; lia| |done|done|done].
    - apply (core_submit s P C p r i0 i1 i2 l true E); by rewrite Hp.
    - intros q r' Hne Hr. unfold bdisk, submitted. cbn [v_buf s_avail s_info s_buf]. rewrite fn_lookup_insert_ne; [done|].
      apply (vc_dist _ _ C p q); [by rewrite Hp|done|congruence]. }
  all: assert (few s) as Hfew by (unfold few; rewrite E; cbn; lia); destruct (alloc3_none s Hfew) as (D & F & w & Hrun & HF & HD);
    rewrite (bind_Ok _ _ _ _ _ Hrun); eexists _, _; (split; [reflexivity|]).
  all: assert (few (s_wake w (s_free F (s_desc D s)))) as Hfew1 by
    (unfold few, frees; cbn [v_free s_wake s_free]; rewrite (free_from_ext F (v_free s)); [exact Hfew|intros; apply HF]).
  all: split; [|done|done|done|done|done]; apply vcore_same; [|by rewrite Hp..]; apply (core_frame s P C); try done; apply C.
Qed.

Lemma rw_wait_ok s P p r i0 i1 i2 : vcore s P -> P p = VWait r i0 i1 i2 false ->
  exists pc s1, rw_wait r i0 i1 i2 s = Ok pc s1 /\ rw_ok s P p pc s1.
Proof.
  intros C Hp. assert (req_of (P p) = Some r) as Hr by (by rewrite Hp). assert (ix_of (P p) = Some (i0, i1, i2)) as Hi by (by rewrite Hp).
  unfold rw_wait. unfold bind at 1, get. fold (bdisk s r). destruct (Z.eqb_spec (bdisk s r) 1) as [Hb|Hb].
  - exists (VWait r i0 i1 i2 true), s. split; [done|]. split; try done. apply vcore_same; [done|by rewrite Hp..].
  - rewrite (bind_Ok _ _ _ _ _ (fin_run s P C p r i0 i1 i2 Hr Hi)). eexists _, _. split; [reflexivity|].
    split; [by apply (core_finish s P C p r i0 i1 i2)| |done|done|done|].
    + cbn [v_wake s_wake]. intros Hw. destruct Hw. apply elem_of_app. right. by left.
    + intros r' Hr' _. rewrite Hr in Hr'. injection Hr' as <-. by destruct (fin_done s P C p r i0 i1 i2 Hr Hi Hb).
Qed.

Lemma rw_next_ok s P p : vcore s P -> vsleep s P -> exists pc s1, rw_next (P p) s = Ok pc s1 /\ rw_ok s P p pc s1.
Proof.
  intros C Hs. assert (forall pc, P p = pc -> sleep_ok s pc -> (forall r, req_of pc = Some r -> pc = VIdle -> False) -> rw_ok s P p pc s) as Hid.
  { intros pc E Hok Hno. split; try done; [apply vcore_same; [done|by rewrite E..]|]. intros r Hr ->. rewrite E in Hr. done. }
  specialize (Hs p). destruct (P p) as [|r []|r i0 i1 i2 []] eqn:E; cbn [rw_next].
  - eexists _, _. split; [reflexivity|]. by apply Hid.
  - eexists _, _. split; [reflexivity|]. by apply Hid.
  - by apply rw_alloc_ok.
  - eexists _, _. split; [reflexivity|]. by apply Hid.
  - by apply rw_wait_ok.
Qed.

Lemma vinv_run m p pc s : vinv m -> vhnd m = false -> rw_next (vpcs m p) (vs m) = Ok pc s ->
  vinv (mkVmach (s_wake [] s) (<[p := pc]> (fun q => woken (v_wake s) (vpcs m q))) false).
Proof.
  intros [C Hs Hi Hw] Hh Hrun. destruct (rw_next_ok _ _ p C Hs) as (pc' & s' & Hrun' & Hok). rewrite Hrun in Hrun'. injection Hrun' as <- <-.
  destruct (rw_dev _ _ _ _ _ Hok) as (E1 & E2 & E3). split; cbn [vs vpcs vhnd].
  - apply vcore_clear, vcore_woken, Hok.
  - intros q. destruct (decide (q = p)) as [->|Hne]; [rewrite fn_lookup_insert; apply (rw_pc _ _ _ _ _ Hok)|rewrite fn_lookup_insert_ne by done].
    specialize (Hs q). destruct (vpcs m q) as [|r []|r i0 i1 i2 []] eqn:Eq; cbn [woken]; try done; case_bool_decide; try done.
    + apply (rw_few _ _ _ _ _ Hok); [done|by exists q, r|done].
    + rewrite <- Hs. apply (rw_bdisk _ _ _ _ _ Hok q r Hne). by rewrite Eq.
  - cbn. rewrite E1, E2, E3. intros Hne. destruct (Hi Hne) as [|Hx]; [by left|congruence].
  - done.
Qed.

Lemma vinv_iter m c s : vinv m -> vhnd m = true -> intr_iter (vs m) = Ok c s ->
  vinv (mkVmach (s_wake [] s) (fun q => woken (v_wake s) (vpcs m q)) c).
Proof.
  intros [C Hs Hi Hw] Hh Hrun. destruct (decide (v_used_idx (vs m) = us_idx (vs m))) as [E|Hne].
  - unfold intr_iter in Hrun. unfold bind at 1, get in Hrun. rewrite (proj2 (Z.eqb_eq _ _) E) in Hrun. injection Hrun as <- <-.
    split; cbn [vs vpcs vhnd]; [|by apply (vsleep_woken (vs m))|done|done].
    apply vcore_clear. revert C. apply vcore_ext; intros q; [apply woken_req|apply woken_ix].
  - destruct (iter_step _ _ C Hne) as (p & r & i0 & i1 & i2 & Hr & _ & _ & Hrun' & C'). rewrite Hrun in Hrun'. injection Hrun' as -> Es.
    rewrite <- Es in C'. split; cbn [vs vpcs vhnd]; [| |by right|done].
    + apply vcore_clear. revert C'. apply vcore_ext; intros q; [apply woken_req|apply woken_ix].
    + apply (vsleep_woken (vs m)); [done|by rewrite Es|]. intros q r' Hr' Hl Hb. rewrite Es in Hl |- *. unfold bdisk in *.
      cbn [v_buf s_wake s_used_idx s_buf]. cbn [v_wake s_used_idx s_wake] in Hl. rewrite fn_lookup_insert_ne; [done|].
      intros E. rewrite E in Hl. apply Hl, elem_of_app. right. by left.
Qed.

Lemma vinv_complete m k s : vinv m -> dev_complete k (vs m) = Ok tt s -> vinv (mkVmach s (vpcs m) (vhnd m)).
Proof.
  intros [C Hs Hi Hw] Hrun. destruct (v_fetched (vs m) !! k) as [i0|] eqn:Hk.
  2: { unfold dev_complete in Hrun. unfold bind at 1, get in Hrun. rewrite Hk in Hrun. injection Hrun as <-. by split. }
  destruct (complete_step _ _ C k i0 Hk) as (p & r & i1 & i2 & Hr & _ & Hrun' & C'). rewrite Hrun in Hrun'. injection Hrun' as ->.
  destruct (moved_rest (vs m) r) as (M1 & M2 & M3 & M4 & M5 & M6 & M7 & M8 & M9 & M10 & M11 & M12 & M13 & M14).
  split; cbn [vs vpcs vhnd]; [done| | |by rewrite <- Hw].
  - intros q. specialize (Hs q). unfold few. destruct (vpcs m q) as [|r' []|r' j0 j1 j2 []] eqn:Eq; try done.
    + cbn [v_free completed s_isr s_dev s_used s_info]. by rewrite M3.
    + rewrite <- Hs. change (bdisk (completed (vs m) r k i0) r') with (bdisk (moved (vs m) r) r').
      destruct (decide (r_b r' = r_b r)) as [E|Hne]; [|unfold bdisk; by rewrite moved_buf].
      unfold bdisk. rewrite E. apply moved_bdisk.
  - intros _. left. change (Z.testbit (Z.lor (v_isr (moved (vs m) r)) 1) 0 = true). by rewrite Z.lor_spec, orb_true_r.
Qed.

Lemma vinv_step m m' : vinv m -> vstep m m' -> vinv m'.
Proof.
  intros I Hst. destruct Hst as [p b w Hp Hu Hb Hk|b x Hu|p pc s Hh Hrun|s Hh Hrun|c s Hh Hrun|s Hrun|k s Hrun].
  - destruct I as [C Hs Hi Hw]. split; [|by apply vsleep_upd|done|done]. apply core_call; [done|by rewrite Hp|done|done|done].
  - destruct I as [C Hs Hi Hw]. split; cbn [vs vpcs vhnd]; [|intros q|done|done].
    + apply (core_frame (vs m) (vpcs m) C); try done; [|apply C..]. intros q r Hr. cbn [v_buf s_buf].
      rewrite fn_lookup_insert_ne; [done|]. intros E. by apply (Hu q r).
    + specialize (Hs q). specialize (Hu q). destruct (vpcs m q) as [|r []|r i0 i1 i2 []] eqn:Eq; try done.
      unfold bdisk in *. cbn [v_buf s_buf]. rewrite fn_lookup_insert_ne; [done|]. intros E. by apply (Hu r).
  - by apply vinv_run.
  - destruct I as [C Hs Hi Hw]. injection Hrun as <-. split; [|done|by right|done]. apply (core_frame (vs m) (vpcs m) C); try done; apply C.
  - by apply vinv_iter.
  - destruct I as [C Hs Hi Hw]. pose proof (fetch_step _ _ C s Hrun) as C'. unfold dev_fetch in Hrun. unfold bind at 1, get in Hrun.
    destruct (v_seen (vs m) =? av_idx (vs m)); injection Hrun as <-; by split.
  - by apply (vinv_complete m k).
Qed.
Lemma vinv0 B P : vinv (vmach0 B P).
Proof.
  split; [|done|done|done]. split; try done.
  - by intros p i ?%elem_of_nil.
  - intros p. apply NoDup_nil_2.
  - by intros p q i ?%elem_of_nil.
  - by intros h ?%elem_of_nil.
  - apply NoDup_nil_2.
Qed.
Lemma vinv_reach B P m : star vstep (vmach0 B P) m -> vinv m.
Proof. intros Hs. apply (star_invariant vstep vinv vinv_step _ _ Hs), vinv0. Qed.

(** ** The theorems *)

(** In state [m] no step of the driver panics, and a call that ends has done what
    it was asked for: buffer and block hold the data of the buffer at the call for
    a write, and the contents of the block at the call for a read. *)
Definition v_safe (m : vmach) : Prop :=
  (forall p, exists pc s, rw_next (vpcs m p) (vs m) = Ok pc s /\
     forall r, req_of (vpcs m p) = Some r -> pc = VIdle ->
       let want := if r_write r then r_data r else r_old r in
       b_data (v_buf s (r_b r)) = want /\ disk_read (v_platter s) (b_blockno (v_buf s (r_b r))) = want) /\
  (exists c s, intr_iter (vs m) = Ok c s) /\
  (forall k, exists s, dev_complete k (vs m) = Ok tt s).

(** C3: [virtio_disk_rw] is atomic for its callers: however calls, interrupts and
    the device interleave, no call, interrupt or completion panics (no double
    free, no bad status, no null buffer, no malformed chain), and when a call returns, its
    buffer and its block hold the same data, that of the buffer when a write was
    called, that of the block when a read was called.  The callers are assumed to
    do what the buffer cache does: calls in progress are for different buffers and
    different blocks, nobody else changes the buffer, and block numbers are below
    2^31, so that the sector number does not overflow. *)
Theorem virtio_rw_atomic B P m : star vstep (vmach0 B P) m -> v_safe m.
Proof.
  intros [C Hs Hi Hw]%vinv_reach. split; [|split].
  - intros p. destruct (rw_next_ok _ _ p C Hs) as (pc & s & Hrun & Hok). exists pc, s. split; [done|].
    intros r Hr Hpc. exact (rw_end _ _ _ _ _ Hok r Hr Hpc).
  - destruct (decide (v_used_idx (vs m) = us_idx (vs m))) as [E|Hne].
    + exists false, (vs m). unfold intr_iter. unfold bind at 1, get. by rewrite (proj2 (Z.eqb_eq _ _) E).
    + destruct (iter_step _ _ C Hne) as (p & r & i0 & i1 & i2 & _ & _ & _ & Hrun & _). by eexists _, _.
  - intros k. destruct (v_fetched (vs m) !! k) as [i0|] eqn:Hk.
    + destruct (complete_step _ _ C k i0 Hk) as (p & r & i1 & i2 & _ & _ & Hrun & _). by eexists.
    + exists (vs m). unfold dev_complete. unfold bind at 1, get. by rewrite Hk.
Qed.

(** C27: no sleep of the driver is forgotten: a call asleep on its buffer has its
    request in one of the rings or at the device; completed requests that the
    driver has not seen leave the interrupt pending, unless the handler is
    running; and a call asleep for descriptors finds fewer than three free ones,
    the others being held by a request in progress. *)
Theorem virtio_no_lost_wakeup B P m : star vstep (vmach0 B P) m ->
  (forall p r i0 i1 i2, vpcs m p = VWait r i0 i1 i2 true -> i0 ∈ todo (vs m) ++ qu (vs m)) /\
  (qu (vs m) <> [] -> Z.testbit (v_isr (vs m)) 0 = true \/ vhnd m = true) /\
  (forall p r, vpcs m p = VAlloc r true -> (length (frees (v_free (vs m))) < 3)%nat /\
     exists q r' i0 i1 i2 z, vpcs m q = VWait r' i0 i1 i2 z).
Proof.
  intros [C Hs Hi Hw]%vinv_reach. split; [|split].
  - intros p r i0 i1 i2 Hp. specialize (Hs p). rewrite Hp in Hs. rewrite elem_of_app.
    destruct (vc_wait _ _ C p r i0 i1 i2) as [_ Hst]; [by rewrite Hp..|]. destruct Hst as [?|?|_ _ Hb _]; [by left|by right|congruence].
  - intros Hq. apply Hi. intros E. destruct NUM_W as (N1 & N2 & _).
    by apply Hq, (ring_empty NUM W16 N1 N2 _ _ _ (vc_us _ _ C)).
  - intros p r Hp. specialize (Hs p). rewrite Hp in Hs. split; [done|].
    destruct (decide (Forall (fun i => v_free (vs m) i = true) (seqZ 0 8))) as [Hall|Hex].
    + rewrite Forall_forall in Hall. assert (frees (v_free (vs m)) = frees (fun _ => true)) as E.
      { apply free_from_ext. intros j Hj. apply Hall, elem_of_seqZ. unfold NUM in Hj. lia. }
      rewrite E in Hs. change (length (frees (fun _ => true))) with 8%nat in Hs. lia.
    + apply not_Forall_Exists in Hex; [|intros i; apply _]. apply Exists_exists in Hex as (i & Hi'%elem_of_seqZ & Hf).
      apply not_true_is_false in Hf. destruct (vc_owned _ _ C i) as [q Hq]; [unfold NUM; lia|done|].
      exists q. unfold owns in Hq. destruct (vpcs m q) as [|r' z|r' i0 i1 i2 z]; [by apply elem_of_nil in Hq..|]. by eexists _, _, _, _, _.
Qed.

(** Runs of the machine. *)
Inductive vact := ARun (p : Z) | AIrq | AIter | AFetch | AComplete (k : nat).
Definition v_do (a : vact) (m : vmach) : option vmach :=
  match a with
  | ARun p =>
      if vhnd m then None else
      match rw_next (vpcs m p) (vs m) with
      | Ok pc s => Some (mkVmach (s_wake [] s) (<[p := pc]> (fun q => woken (v_wake s) (vpcs m q))) false)
      | _ => None
      end
  | AIrq => if vhnd m then None else match intr_ack (vs m) with Ok _ s => Some (mkVmach s (vpcs m) true) | _ => None end
  | AIter =>
      if vhnd m then
        match intr_iter (vs m) with Ok c s => Some (mkVmach (s_wake [] s) (fun q => woken (v_wake s) (vpcs m q)) c) | _ => None end
      else None
  | AFetch => match dev_fetch (vs m) with Ok _ s => Some (mkVmach s (vpcs m) (vhnd m)) | _ => None end
  | AComplete k => match dev_complete k (vs m) with Ok _ s => Some (mkVmach s (vpcs m) (vhnd m)) | _ => None end
  end.
Fixpoint v_run (l : list vact) (m : vmach) : option vmach :=
  match l with [] => Some m | a :: l => match v_do a m with Some m' => v_run l m' | None => None end end.
Lemma v_do_step a m m' : v_do a m = Some m' -> vstep m m'.
Proof.
  destruct a as [p| | | |k]; cbn [v_do].
  - destruct (vhnd m) eqn:Hh; [done|]. destruct (rw_next _ _) eqn:E; intros [= <-]. by apply vs_run.
  - destruct (vhnd m) eqn:Hh; [done|]. intros [= <-]. by apply vs_irq.
  - destruct (vhnd m) eqn:Hh; [|done]. destruct (intr_iter _) eqn:E; intros [= <-]. by apply vs_iter.
  - destruct (dev_fetch _) as [[]| | |] eqn:E; intros [= <-]. by apply vs_fetch.
  - destruct (dev_complete _ _) as [[]| | |] eqn:E; intros [= <-]. by apply (vs_complete _ k).
Qed.
Lemma v_run_star l m m' : v_run l m = Some m' -> star vstep m m'.
Proof.
  revert m. induction l as [|a l IH]; intros m; cbn [v_run]; [intros [= <-]; apply star_refl|].
  destruct (v_do a m) as [m1|] eqn:E; [|done]. intros Hr. eapply star_next; [by eapply v_do_step|by apply IH].
Qed.

(** Process 1 reads block 5 into buffer 0. *)
Definition ex_bufs : Z -> buf := fun b => mkBuf 0 0 1 (b + 5) (mkSleeplock 0 initlock 0) 1 0 0 [0].
Definition ex_disk : gmap Z (list Z) := {[5 := [7]]}.
Definition ex_req : vreq := mkVreq 0 false [0] [7].
Definition ex_called : vmach := mkVmach (vst0 ex_bufs ex_disk) (<[1 := VAlloc (new_req (vst0 ex_bufs ex_disk) 0 false) false]> (fun _ => VIdle)) false.
Lemma ex_called_reach : star vstep (vmach0 ex_bufs ex_disk) ex_called.
Proof.
  eapply star_next; [|apply star_refl]. apply (vs_call (vmach0 ex_bufs ex_disk) 1 0 false); [reflexivity|intros q r [=]|cbn; lia|intros q r [=]].
Qed.
(** The states after the run [l] from the call. *)
Lemma ex_reach l (Q : vmach -> Prop) : match v_run l ex_called with Some m => Q m | None => False end ->
  exists m, star vstep (vmach0 ex_bufs ex_disk) m /\ Q m.
Proof.
  destruct (v_run l ex_called) as [m|] eqn:E; [|intros []]. intros HQ. exists m. split; [|exact HQ].
  eapply star_trans; [apply ex_called_reach|by eapply v_run_star].
Qed.

Lemma virtio_rw_atomic_witness : exists m, star vstep (vmach0 ex_bufs ex_disk) m /\
  (vpcs m 1 = VWait ex_req 0 1 2 false /\ bdisk (vs m) ex_req = 0) /\ v_safe m.
Proof.
  destruct (ex_reach [ARun 1; AFetch; AComplete 0; AIrq; AIter; AIter] (fun m => vpcs m 1 = VWait ex_req 0 1 2 false /\ bdisk (vs m) ex_req = 0))
    as (m & Hm & HQ); [vm_compute; split; reflexivity|].
  exists m. split; [exact Hm|]. split; [exact HQ|]. exact (virtio_rw_atomic ex_bufs ex_disk m Hm).
Defined.
Lemma virtio_no_lost_wakeup_witness : exists m, star vstep (vmach0 ex_bufs ex_disk) m /\ vpcs m 1 = VWait ex_req 0 1 2 true /\
  0 ∈ todo (vs m) ++ qu (vs m).
Proof.
  destruct (ex_reach [ARun 1] (fun m => vpcs m 1 = VWait ex_req 0 1 2 true)) as (m & Hm & HQ); [vm_compute; reflexivity|].
  exists m. split; [exact Hm|]. split; [exact HQ|].
  destruct (virtio_no_lost_wakeup ex_bufs ex_disk m Hm) as (Hw & _). exact (Hw 1 ex_req 0 1 2 HQ).
Defined.
