(* ===== verification/Mkfs.v ===== *)
(** * The image builder: [mkfs/mkfs.c]

    mkfs makes the disk image the kernel starts from.  It runs on the build host,
    which is taken to be little-endian; its files are a parameter: [host] gives for
    a path the pieces that [read] returns, or nothing when [open] fails.  The image
    is a map from sector numbers to sectors; a sector past the end of the file
    cannot be read. *)

From stdpp Require Import base list gmap strings functions.
From S2P Require Import Prelude Riscv Mem Spinlock Kalloc Vm Sleeplock ProcData Bytes Bio Log Fs.

(** ** Layout *)

Definition NINODES : Z := 200.
Definition nbitmap : Z := FSSIZE / BPB + 1.
Definition ninodeblocks : Z := NINODES / IPB + 1.
Definition nlog : Z := LOGSIZE.
Definition nmeta : Z := 2 + nlog + ninodeblocks + nbitmap.
Definition nblocks : Z := FSSIZE - nmeta.

(** Conversion to the byte order of the disk, on a little-endian host. *)
Definition xshort (x : Z) : Z := le_value [u8 x; u8 (Z.shiftr (u16 x) 8)].
Definition xint (x : Z) : Z :=
  le_value [u8 x; u8 (Z.shiftr (u32 x) 8); u8 (Z.shiftr (u32 x) 16); u8 (Z.shiftr (u32 x) 24)].

Definition sb : superblock :=
  mkSb FSMAGIC (xint FSSIZE) (xint nblocks) (xint NINODES) (xint nlog) (xint 2) (xint (2 + nlog)) (xint (2 + nlog + ninodeblocks)).
(** [memmove(buf, &sb, sizeof(sb))] into a zeroed buffer. *)
Definition sb_bytes (b : superblock) : list Z :=
  concat (le_bytes 4 <$> [sb_magic b; sb_size b; sb_nblocks b; sb_ninodes b; sb_nlog b; sb_logstart b; sb_inodestart b; sb_bmapstart b]).

(** [struct dinode], as bytes of a sector. *)
Record dinode := mkDinode { d_type : Z; d_major : Z; d_minor : Z; d_nlink : Z; d_size : Z; d_addrs : list Z }.
Definition put_dinode (off : Z) (d : dinode) (buf : list Z) : list Z :=
  put_addrs (off + 12) (d_addrs d)
   (put32 (off + 8) (d_size d) (put16 (off + 6) (d_nlink d) (put16 (off + 4) (d_minor d)
     (put16 (off + 2) (d_major d) (put16 off (d_type d) buf))))).
Definition get_dinode (off : Z) (buf : list Z) : dinode :=
  mkDinode (s16 (get16 buf off)) (s16 (get16 buf (off + 2))) (s16 (get16 buf (off + 4))) (s16 (get16 buf (off + 6)))
    (get32 buf (off + 8)) (dinode_addrs buf off).

(** ** The image and the counters *)

Record mkst := mkMkst { img : gmap Z (list Z); freeinode : Z; freeblock : Z }.

Definition wsect (sec : Z) (buf : list Z) : M mkst unit :=
  modify (fun s => mkMkst (<[sec := buf]> (img s)) (freeinode s) (freeblock s)).
Definition rsect (sec : Z) : M mkst (list Z) :=
  do m <- gets img;
  match m !! sec with Some buf => return buf | None => panic "read" end.

Definition winode (inum : Z) (ip : dinode) : M mkst unit :=
  let bn := IBLOCK inum sb in
  do buf <- rsect bn;
  wsect bn (put_dinode (dinode_off inum) ip buf).
Definition rinode (inum : Z) : M mkst dinode :=
  do buf <- rsect (IBLOCK inum sb);
  return (get_dinode (dinode_off inum) buf).

(** [freeinode++], [freeblock++] *)
Definition next_inode : M mkst Z :=
  do s <- gets (fun s => s);
  modify (fun s => mkMkst (img s) (u32 (freeinode s + 1)) (freeblock s)) ;;; return (freeinode s).
Definition next_block : M mkst Z :=
  do s <- gets (fun s => s);
  modify (fun s => mkMkst (img s) (freeinode s) (u32 (freeblock s + 1))) ;;; return (freeblock s).

Definition ialloc (type : Z) : M mkst Z :=
  do inum <- next_inode;
  winode inum (mkDinode (xshort type) 0 0 (xshort 1) (xint 0) (replicate 13 0)) ;;;
  return inum.

Definition balloc (used : Z) : M mkst unit :=
  if negb (used <? BPB) then panic "assert"
  else
    wsect (sb_bmapstart sb)
      (foldl (fun buf i => set_byte i (Z.lor (bit_byte buf i) (bit_mask i)) buf) zero_block (seqZ 0 used)).

(** [din.addrs[k] = v] *)
Definition set_daddr (k v : Z) (din : dinode) : dinode :=
  mkDinode (d_type din) (d_major din) (d_minor din) (d_nlink din) (d_size din) (<[Z.to_nat k := v]> (d_addrs din)).
Definition daddr (din : dinode) (k : Z) : Z := nth (Z.to_nat k) (d_addrs din) 0.
Definition set_dsize (v : Z) (din : dinode) : dinode :=
  mkDinode (d_type din) (d_major din) (d_minor din) (d_nlink din) v (d_addrs din).

(** One turn of the loop of [iappend]: the block for [fbn], allocated if it is
    missing, and the dinode. *)
Definition iappend_block (din : dinode) (fbn : Z) : M mkst (Z * dinode) :=
  if fbn <? NDIRECT then
    do din <- (if xint (daddr din fbn) =? 0 then
                 do b <- next_block; return (set_daddr fbn (xint b) din)
               else return din);
    return (xint (daddr din fbn), din)
  else
    do din <- (if xint (daddr din NDIRECT) =? 0 then
                 do b <- next_block; return (set_daddr NDIRECT (xint b) din)
               else return din);
    let a := xint (daddr din NDIRECT) in
    do indirect <- rsect a;
    do indirect <- (if get32 indirect (4 * (fbn - NDIRECT)) =? 0 then
                      do b <- next_block;
                      let indirect := put32 (4 * (fbn - NDIRECT)) (xint b) indirect in
                      wsect a indirect ;;; return indirect
                    else return indirect);
    return (xint (get32 indirect (4 * (fbn - NDIRECT))), din).

Fixpoint iappend_loop (fuel : nat) (din : dinode) (off : Z) (p : list Z) : M mkst (dinode * Z) :=
  if 0 <? Z.of_nat (length p) then
    match fuel with
    | O => fun _ => Diverge
    | S f =>
        let fbn := off / BSIZE in
        if negb (fbn <? MAXFILE) then panic "assert"
        else
          do '(x, din) <- iappend_block din fbn;
          let n1 := Z.min (Z.of_nat (length p)) ((fbn + 1) * BSIZE - off) in
          do buf <- rsect x;
          wsect x (splice (Z.to_nat (off - fbn * BSIZE)) (take (Z.to_nat n1) p) buf) ;;;
          iappend_loop f din (off + n1) (drop (Z.to_nat n1) p)
    end
  else return (din, off).
Definition iappend (inum : Z) (p : list Z) : M mkst unit :=
  do din <- rinode inum;
  do '(din, off) <- iappend_loop (length p) din (xint (d_size din)) p;
  winode inum (set_dsize (xint off) din).

(** ** main *)

(** A zeroed [struct dirent] with an inode number and a name. *)
Definition dirent (inum : Z) (name : list Z) : list Z := le_bytes 2 (xshort inum) ++ name.
Definition str_user : list Z := [117; 115; 101; 114; 47].

(** The name of a file in the image: without [user/] and a leading underscore. *)
Definition shortname (arg : list Z) : option (list Z) :=
  let name := if strncmp arg str_user 5 =? 0 then drop 5 arg else arg in
  if bool_decide (SLASH ∈ cstr name) then None
  else Some (if hd 0 name =? 95 then tail name else name).

Fixpoint copy_file (inum : Z) (pieces : list (list Z)) : M mkst unit :=
  match pieces with
  | [] => return tt
  | buf :: r => iappend inum buf ;;; copy_file inum r
  end.

(** One file of the command line. *)
Definition add_file (host : list Z -> option (list (list Z))) (rootino : Z) (arg : list Z) : M mkst unit :=
  match shortname arg, host arg with
  | None, _ => panic "assert"
  | Some _, None => panic "open"
  | Some name, Some pieces =>
      if negb (strlen name <=? DIRSIZ) then panic "assert"
      else
        do inum <- ialloc T_FILE;
        iappend rootino (dirent inum (strncpy_bytes name (Z.to_nat DIRSIZ))) ;;;
        copy_file inum pieces
  end.
Fixpoint add_files (host : list Z -> option (list (list Z))) (rootino : Z) (args : list (list Z)) : M mkst unit :=
  match args with
  | [] => return tt
  | arg :: r => add_file host rootino arg ;;; add_files host rootino r
  end.

Definition main (host : list Z -> option (list (list Z))) (args : list (list Z)) : M mkst unit :=
  modify (fun s => mkMkst (img s) (freeinode s) nmeta) ;;;
  for_range (Z.to_nat FSSIZE) 0 (fun i => wsect i zero_block) ;;;
  wsect 1 (splice 0 (sb_bytes sb) zero_block) ;;;
  do rootino <- ialloc T_DIR;
  if negb (rootino =? ROOTINO) then panic "assert"
  else
    iappend rootino (dirent rootino (46 :: replicate 13 0)) ;;;
    iappend rootino (dirent rootino (46 :: 46 :: replicate 12 0)) ;;;
    add_files host rootino args ;;;
    do din <- rinode rootino;
    let off := (xint (d_size din) / BSIZE + 1) * BSIZE in
    winode rootino (set_dsize (xint off) din) ;;;
    do fb <- gets freeblock;
    balloc fb.

(** The image of a run of mkfs; [freeinode] starts at 1. *)
Definition mkfs (host : list Z -> option (list (list Z))) (args : list (list Z)) : outcome mkst unit :=
  main host args (mkMkst ∅ 1 0).
