(* ===== verification/MkfsSpec.v ===== *)
(** * What mkfs builds

    A run of mkfs with room for its files ends, and the image satisfies what the
    kernel expects of a disk: the superblock, an empty log, a free map that marks
    the blocks in use, a root directory with the entries and the files with their
    contents, on disjoint blocks. *)

From stdpp Require Import base list gmap strings functions.
From S2P Require Import Prelude Riscv Mem Spinlock Kalloc Vm Sleeplock ProcData Bytes Bio BioSpec Log LogSpec Fs FsTx FsAlloc FsFile FsGrow FsWrite FsDir Mkfs.

(** ** Numbers *)

Lemma xint_id x : 0 <= x < 2 ^ 32 -> xint x = x.
Proof.
  intros Hx. unfold xint, u32, u8. rewrite !Z.shiftr_div_pow2 by lia. rewrite (Z.mod_small x (2 ^ 32)) by lia. cbn [le_value].
  change (2 ^ 8) with 256. change (2 ^ 16) with (256 * 256). change (2 ^ 24) with (256 * 256 * 256).
  rewrite <- !Z.div_div by lia. pose proof (Z.div_mod x 256). pose proof (Z.div_mod (x / 256) 256). pose proof (Z.div_mod (x / 256 / 256) 256).
  assert (0 <= x / 256 / 256 / 256 < 256) by (split; [repeat apply Z.div_pos; lia|]; rewrite !Z.div_div by lia; apply Z.div_lt_upper_bound; lia).
  rewrite (Z.mod_small (x / 256 / 256 / 256)) by lia. lia.
Qed.
Lemma xshort_id x : 0 <= x < 2 ^ 16 -> xshort x = x.
Proof.
  intros Hx. unfold xshort, u16, u8. rewrite !Z.shiftr_div_pow2 by lia. rewrite (Z.mod_small x (2 ^ 16)) by lia. cbn [le_value].
  change (2 ^ 8) with 256. pose proof (Z.div_mod x 256). assert (0 <= x / 256 < 256) by (split; [apply Z.div_pos; lia|apply Z.div_lt_upper_bound; lia]).
  rewrite (Z.mod_small (x / 256)) by lia. lia.
Qed.

(** The numbers of the layout. *)
Lemma layout : nmeta = 46 /\ sb = mkSb FSMAGIC 2000 1954 200 30 2 32 45.
Proof. vm_compute. done. Qed.

(** ** Inodes on the image *)

(** The kernel's view of a dinode. *)
Definition inode_of (d : dinode) : inode := mkInode ROOTDEV 0 0 initsleeplock 0 (d_type d) (d_major d) (d_minor d) (d_nlink d) (d_size d) (d_addrs d).
Definition no_inode : inode := inode_of (mkDinode 0 0 0 0 0 []).
Definition disk_inode (C : Z -> list Z) (inum : Z) : inode := load_dinode (C (IBLOCK inum sb)) (dinode_off inum) no_inode.

Lemma put_dinode_store off d buf : put_dinode off d buf = store_dinode off (inode_of d) buf.
Proof. done. Qed.
Lemma get_dinode_load off buf : inode_of (get_dinode off buf) = load_dinode buf off no_inode.
Proof. done. Qed.

(** ** The blocks of a file under construction

    The first [q] blocks are there, and the indirect block if they do not fit in the
    direct ones; all are below [fb]. *)
Record built (C : Z -> list Z) (fb : Z) (x : inode) (q : Z) : Prop := {
  bu_len : length (i_addrs x) = 13%nat;
  bu_inj : slots_inj C x;
  bu_range : forall k, 0 <= k <= MAXFILE -> slot C x k <> 0 -> nmeta <= slot C x k < fb;
  bu_data : forall k, 0 <= k < MAXFILE -> slot C x k <> 0 <-> k < q;
  bu_ind : slot C x MAXFILE <> 0 <-> NDIRECT < q
}.

(** The image, on which the blocks from [fb] on are zero. *)
Record image (s : mkst) (C : Z -> list Z) : Prop := {
  im_C : forall y, 0 <= y < FSSIZE -> img s !! y = Some (C y);
  im_bytes : forall y, bytes_ok BSIZE (C y);
  im_zero : forall y, freeblock s <= y -> C y = zero_block;
  im_free : nmeta <= freeblock s
}.

Section sectors.
Context (s : mkst) (C : Z -> list Z) (I : image s C).

Lemma wp_rsect y (Q : list Z -> mkst -> Prop) : 0 <= y < FSSIZE -> Q (C y) s -> wp (rsect y) Q s.
Proof using I. intros Hy HQ. unfold rsect. apply wp_bind, wp_gets. rewrite (im_C _ _ I y Hy). by apply wp_ret. Qed.

Lemma wp_wsect y buf (Q : unit -> mkst -> Prop) : y < freeblock s -> bytes_ok BSIZE buf ->
  (forall s', image s' (<[y := buf]> C) -> freeblock s' = freeblock s -> freeinode s' = freeinode s -> Q tt s') -> wp (wsect y buf) Q s.
Proof using I.
  intros Hy Hb HQ. unfold wsect. apply wp_modify, HQ; [|done|done]. split; cbn [img freeblock].
  - intros z Hz. destruct (decide (z = y)) as [->|]; [by rewrite lookup_insert_eq, fn_lookup_insert|].
    rewrite lookup_insert_ne, fn_lookup_insert_ne by done. by apply (im_C _ _ I).
  - intros z. destruct (decide (z = y)) as [->|]; [by rewrite fn_lookup_insert|]. rewrite fn_lookup_insert_ne by done. apply (im_bytes _ _ I).
  - intros z Hz. rewrite fn_lookup_insert_ne by lia. by apply (im_zero _ _ I).
  - apply I.
Qed.

Lemma wp_next_block (Q : Z -> mkst -> Prop) : freeblock s < FSSIZE ->
  (forall s', image s' C -> freeblock s' = freeblock s + 1 -> freeinode s' = freeinode s -> Q (freeblock s) s') -> wp next_block Q s.
Proof using I.
  intros Hf HQ. pose proof (im_free _ _ I). rewrite (proj1 layout) in *. unfold FSSIZE in *. unfold next_block. apply wp_bind, wp_gets, wp_bind, wp_modify, wp_ret.
  assert (u32 (freeblock s + 1) = freeblock s + 1) as E by (apply u32_small; lia). apply HQ; cbn; rewrite ?E; [|done|done].
  split; cbn; rewrite ?E; [apply I|apply I| |rewrite (proj1 layout); lia]. intros y Hy. apply (im_zero _ _ I). lia.
Qed.
End sectors.

(** A free block becomes block [k0] of the file. *)
Lemma alloc_slots C x C' x' k0 fb : nmeta <= fb -> 0 <= k0 <= MAXFILE -> slot C x k0 = 0 -> slots_inj C x ->
  (forall k, 0 <= k <= MAXFILE -> slot C x k <> 0 -> nmeta <= slot C x k < fb) ->
  (forall k, 0 <= k <= MAXFILE -> slot C' x' k = if decide (k = k0) then fb else slot C x k) ->
  slots_inj C' x' /\ (forall k, 0 <= k <= MAXFILE -> slot C' x' k <> 0 -> nmeta <= slot C' x' k < fb + 1).
Proof.
  intros Hfb Hk0 H0 Hi Hr Hs. rewrite (proj1 layout) in *. split.
  - intros k k' Hk Hk'. rewrite !Hs by done. repeat case_decide; subst; intros Hn E; try done.
    + assert (slot C x k' <> 0) as Hk'0 by lia. specialize (Hr k' Hk' Hk'0). lia.
    + specialize (Hr k Hk Hn). lia.
    + by apply Hi.
  - intros k Hk. rewrite Hs by done. case_decide; [lia|]. intros Hn. specialize (Hr k Hk Hn). lia.
Qed.

(** What changes when blocks are added to the file. *)
Record extends (fb : Z) (C : Z -> list Z) (x : inode) (C' : Z -> list Z) (x' : inode) : Prop := {
  ex_keep : forall k, 0 <= k <= MAXFILE -> slot C x k <> 0 -> slot C' x' k = slot C x k;
  ex_fresh : forall y, owns C' x' y -> owns C x y \/ fb <= y;
  ex_frame : forall y, y < fb -> ~ owns C x y -> C' y = C y
}.

Lemma extends_refl fb C x : extends fb C x C x.
Proof. split; [done|by left|done]. Qed.
Lemma extends_trans fb C x fb1 C1 x1 C2 x2 : fb <= fb1 -> extends fb C x C1 x1 -> extends fb1 C1 x1 C2 x2 -> extends fb C x C2 x2.
Proof.
  intros Hf [K1 F1 R1] [K2 F2 R2]. split.
  - intros k Hk Hs. rewrite K2, K1; [done|done|done|done|]. by rewrite K1.
  - intros y [Ho|?]%F2; [|right; lia]. by apply F1.
  - intros y Hy Ho. rewrite R2; [by apply R1|lia|]. intros [?|?]%F1; [done|lia].
Qed.
(** Adding block [fb] as block [k0]. *)
Lemma extends_alloc fb C x C' x' k0 : slot C x k0 = 0 ->
  (forall k, 0 <= k <= MAXFILE -> slot C' x' k = if decide (k = k0) then fb else slot C x k) ->
  (forall y, y < fb -> ~ owns C x y -> C' y = C y) -> extends fb C x C' x'.
Proof.
  intros H0 Hs Hc. split; [| |done].
  - intros k Hk Hn. rewrite Hs by done. case_decide; [congruence|done].
  - intros y [Hy (k & Hk & E)]. rewrite Hs in E by done. case_decide; [right; lia|left]. split; [done|]. by exists k.
Qed.

(** ** One block of [iappend] *)

(** The blocks that adding block [fbn] to a file of [q] blocks takes. *)
Definition grow (q fbn : Z) : Z := if fbn <? q then 0 else if q =? NDIRECT then 2 else 1.

Lemma grow_pos q fbn : 0 <= grow q fbn.
Proof. unfold grow. repeat case_match; lia. Qed.

Definition block_post (s : mkst) (C : Z -> list Z) (din : dinode) (q fbn : Z) (r : Z * dinode) (s' : mkst) : Prop :=
  exists C', image s' C' /\ freeinode s' = freeinode s /\ freeblock s' = freeblock s + grow q fbn /\
    built C' (freeblock s') (inode_of r.2) (Z.max q (fbn + 1)) /\ extends (freeblock s) C (inode_of din) C' (inode_of r.2) /\
    keeps C (inode_of din) C' /\ r.1 = slot C' (inode_of r.2) fbn /\ inode_of r.2 = with_addrs (d_addrs r.2) (inode_of din) /\
    (q <= fbn -> C' r.1 = zero_block).

(** The entry [j] of the indirect block [a]: read, or allocated. *)
Definition entry_tail (a j : Z) (din : dinode) : M mkst (Z * dinode) :=
  do indirect <- rsect a;
  do indirect <- (if get32 indirect (4 * j) =? 0 then
                    do b <- next_block;
                    let indirect := put32 (4 * j) (xint b) indirect in
                    wsect a indirect ;;; return indirect
                  else return indirect);
  return (xint (get32 indirect (4 * j)), din).

Lemma wp_entry_new s C a j din (Q : Z * dinode -> mkst -> Prop) : image s C -> 0 <= a < freeblock s -> freeblock s < FSSIZE -> 0 <= j < NINDIRECT ->
  get32 (C a) (4 * j) = 0 ->
  (forall s', image s' (<[a := put32 (4 * j) (freeblock s) (C a)]> C) -> freeblock s' = freeblock s + 1 -> freeinode s' = freeinode s -> Q (freeblock s, din) s') ->
  wp (entry_tail a j din) Q s.
Proof.
  intros I Ha Hf Hj H0 HQ. pose proof (im_free _ _ I) as Hm. rewrite (proj1 layout) in Hm. pose proof (im_bytes _ _ I a) as Hb. unfold entry_tail.
  apply wp_bind. apply (wp_rsect s C I); [lia|]. rewrite H0. apply wp_bind, wp_bind. apply (wp_next_block s C I); [done|]. intros s1 I1 F1 N1.
  assert (0 <= freeblock s < 2 ^ 32) as Hr by (unfold FSSIZE in *; lia). rewrite (xint_id _ Hr). apply wp_bind.
  apply (wp_wsect s1 C I1); [lia|apply bytes_put32; [done|file_lia..]|]. intros s2 I2 F2 N2. apply wp_ret, wp_ret.
  rewrite (get32_put32 BSIZE), u32_small, xint_id by (done || file_lia). apply HQ; [done|lia|congruence].
Qed.

Section block.
Context (s : mkst) (C : Z -> list Z) (I : image s C) (din : dinode) (q fbn : Z).
Context (B : built C (freeblock s) (inode_of din) q) (Hfbn : 0 <= fbn < MAXFILE) (Hq : fbn <= q) (Hroom : freeblock s + grow q fbn <= FSSIZE).
Let x := inode_of din.

Lemma slot_xint k : 0 <= k <= MAXFILE -> xint (slot C x k) = slot C x k.
Proof using B Hroom.
  intros Hk. pose proof (grow_pos q fbn). apply xint_id.
  destruct (Z.eq_dec (slot C x k) 0) as [->|Hn]; [lia|]. pose proof (bu_range _ _ _ _ B k Hk Hn) as Hr. fold x in Hr. rewrite (proj1 layout) in Hr. unfold FSSIZE in *. lia.
Qed.
Lemma addr_xint k : 0 <= k <= NDIRECT -> xint (daddr din k) = addr_at x k.
Proof using B Hroom.
  intros Hk. change (daddr din k) with (addr_at x k). destruct (Z.eq_dec k NDIRECT) as [->|].
  - rewrite <- (slot_ind C). apply slot_xint. file_lia.
  - rewrite <- (slot_direct C) by lia. apply slot_xint. file_lia.
Qed.

Lemma block_found : fbn < q -> block_post s C din q fbn (slot C x fbn, din) s.
Proof using I B.
  intros Hlt. exists C. unfold grow. rewrite (proj2 (Z.ltb_lt _ _) Hlt), Z.add_0_r, Z.max_l by lia.
  split; [done|]. split; [done|]. split; [done|]. split; [done|]. split; [apply extends_refl|]. split; [by intros ?|]. split; [done|]. split; [by destruct din|lia].
Qed.

Lemma wp_block_direct : fbn < NDIRECT -> wp (iappend_block din fbn) (block_post s C din q fbn) s.
Proof using I B Hfbn Hq Hroom.
  intros Hd. unfold iappend_block. rewrite (proj2 (Z.ltb_lt _ _) Hd), addr_xint by lia. apply wp_bind. rewrite <- (slot_direct C) by lia.
  destruct (Z.eqb_spec (slot C x fbn) 0) as [E0|E0].
  2: { apply wp_ret, wp_ret. rewrite addr_xint by lia. rewrite <- (slot_direct C) by lia. apply block_found. by apply (bu_data _ _ _ _ B). }
  assert (fbn = q) as Eq. { destruct (Z.lt_ge_cases fbn q) as [Hlt|]; [|lia]. by apply (bu_data _ _ _ _ B) in Hlt. }
  assert (grow q fbn = 1) as Hg. { unfold grow. rewrite (proj2 (Z.ltb_ge _ _)) by lia. rewrite (proj2 (Z.eqb_neq _ _)) by lia. done. }
  pose proof (im_free _ _ I) as Hf. apply wp_bind. apply (wp_next_block s C I); [lia|]. intros s' I' Fb Fi. apply wp_ret, wp_ret.
  set (r := freeblock s) in *. assert (xint r = r) as Er by (apply xint_id; rewrite (proj1 layout) in *; unfold FSSIZE in *; lia). rewrite Er.
  change (daddr (set_daddr fbn r din) fbn) with (addr_at (set_iaddr fbn r x) fbn). rewrite addr_at_set, decide_True, Er by (done || apply B || lia).
  assert (forall k, 0 <= k <= MAXFILE -> slot C (set_iaddr fbn r x) k = if decide (k = fbn) then r else slot C x k) as Hs
    by (intros k Hk; apply slot_set_direct; [apply B|lia|done]).
  destruct (alloc_slots C x C (set_iaddr fbn r x) fbn r) as [Hi Hr]; [done|file_lia|done|apply B|apply B|done|].
  exists C. cbn [fst snd]. change (inode_of (set_daddr fbn r din)) with (set_iaddr fbn r x). rewrite Hg, Fb, Z.max_r by lia. split; [done|]. split; [done|]. split; [done|]. split.
  { split; [cbn; rewrite length_insert; apply B|done|done| |].
    - intros k Hk. rewrite Hs by lia. pose proof (bu_data _ _ _ _ B k Hk) as Hb. fold x in Hb. rewrite (proj1 layout) in *. case_decide; [lia|]. rewrite Hb. lia.
    - rewrite Hs, decide_False by file_lia. pose proof (bu_ind _ _ _ _ B) as Hb. fold x in Hb. rewrite Hb. lia. }
  split; [by eapply extends_alloc|]. split; [by intros ?|]. split; [rewrite Hs by lia; by rewrite decide_True|]. split; [done|].
  intros _. apply (im_zero _ _ I). fold r. lia.
Qed.

(** The indirect block is there, and the entry is new. *)
Lemma wp_block_entry s1 din1 : let x1 := inode_of din1 in let A := addr_at x1 NDIRECT in let r := freeblock s1 in
  NDIRECT <= fbn -> fbn = q -> image s1 C -> freeinode s1 = freeinode s -> r + 1 = freeblock s + grow q fbn -> freeblock s <= r ->
  length (i_addrs x1) = 13%nat -> slots_inj C x1 -> (forall k, 0 <= k <= MAXFILE -> slot C x1 k <> 0 -> nmeta <= slot C x1 k < r) ->
  A <> 0 -> (forall k, 0 <= k < MAXFILE -> slot C x1 k = slot C x k) -> extends (freeblock s) C x C x1 -> x1 = with_addrs (d_addrs din1) x ->
  wp (entry_tail A (fbn - NDIRECT) din1) (block_post s C din q fbn) s1.
Proof using B Hfbn Hroom.
  intros x1 A r Hi Eq I1 N1 Hr Hsr Hl Hinj Hrange HA Hsame Hext Hx1. pose proof (im_free _ _ I1) as Hf. fold r in Hf. pose proof Hf as Hf'. rewrite (proj1 layout) in Hf'.
  pose proof (Hrange MAXFILE ltac:(file_lia)) as HAr. rewrite slot_ind in HAr. fold A in HAr. specialize (HAr HA). pose proof HAr as HAr'. rewrite (proj1 layout) in HAr'.
  assert (slot C x1 fbn = 0) as E0.
  { rewrite Hsame by done. destruct (Z.eq_dec (slot C x fbn) 0) as [|Hn]; [done|]. apply (bu_data _ _ _ _ B) in Hn; [lia|done]. }
  apply (wp_entry_new s1 C); [done|fold r; lia|fold r; lia|file_lia| |].
  { rewrite slot_entry in E0 by lia. fold A in E0. by rewrite (proj2 (Z.eqb_neq _ _) HA) in E0. }
  fold r. intros s2 I2 F2 N2. set (C2 := <[A := _]> C) in *.
  assert (forall k, 0 <= k <= MAXFILE -> slot C2 x1 k = if decide (k = fbn) then r else slot C x1 k) as Hs.
  { intros k Hk. pose proof (slot_put_entry C C x1 (fbn - NDIRECT) r k) as E. replace (NDIRECT + (fbn - NDIRECT)) with fbn in E by lia.
    apply E; [apply I1|done|file_lia|unfold FSSIZE in *; lia|done]. }
  destruct (alloc_slots C x1 C2 x1 fbn r) as [Hi2 Hr2]; [done|file_lia|done|done|done|done|].
  assert (forall y, y < r -> ~ owns C x1 y -> C2 y = C y) as Hfr.
  { intros y Hy Ho. unfold C2. rewrite fn_lookup_insert_ne; [done|]. intros <-. by apply Ho, ind_owned. }
  exists C2. cbn [fst snd]. fold x1 x. rewrite F2, Z.max_r by lia. split; [done|]. split; [congruence|]. split; [lia|]. split.
  { split; [done|done|done| |].
    - intros k Hk. rewrite Hs by lia. case_decide; [subst k; lia|]. rewrite Hsame by done. pose proof (bu_data _ _ _ _ B k Hk) as Hb. fold x in Hb. rewrite Hb. lia.
    - rewrite Hs, decide_False by file_lia. rewrite slot_ind. fold A. lia. }
  split; [eapply (extends_trans _ _ _ r); [lia|done|by apply (extends_alloc r C x1 C2 x1 fbn)]|]. split.
  { intros k Hk Hn. unfold C2. rewrite fn_lookup_insert_ne; [done|]. rewrite <- Hsame in * by done. unfold A. rewrite <- (slot_ind C x1).
    intros E. apply Hinj in E; [lia|file_lia|lia|]. by rewrite slot_ind. }
  split; [rewrite Hs by lia; by rewrite decide_True|]. split; [done|]. intros _. unfold C2. rewrite fn_lookup_insert_ne by lia. apply (im_zero _ _ I1). fold r. lia.
Qed.

Lemma wp_iappend_block : wp (iappend_block din fbn) (block_post s C din q fbn) s.
Proof using I B Hfbn Hq Hroom.
  destruct (Z.lt_ge_cases fbn NDIRECT) as [Hd|Hi]; [by apply wp_block_direct|].
  unfold iappend_block. rewrite (proj2 (Z.ltb_ge _ _) Hi), addr_xint by file_lia. apply wp_bind.
  pose proof (bu_ind _ _ _ _ B) as Hind. fold x in Hind. rewrite slot_ind in Hind. pose proof (im_free _ _ I) as Hf. rewrite (proj1 layout) in Hf.
  pose proof (grow_pos q fbn) as Hg0.
  destruct (Z.eqb_spec (addr_at x NDIRECT) 0) as [E0|E0].
  - assert (~ NDIRECT < q) as Hq12 by (rewrite <- Hind; by intros ?). assert (fbn = q /\ q = NDIRECT) as [Eq Eq12] by lia.
    assert (grow q fbn = 2) as Hg. { unfold grow. rewrite (proj2 (Z.ltb_ge _ _)) by lia. by rewrite (proj2 (Z.eqb_eq _ _)). }
    apply wp_bind. apply (wp_next_block s C I); [lia|]. intros s1 I1 F1 N1. apply wp_ret. set (r := freeblock s) in *.
    rewrite (xint_id r) by (unfold FSSIZE in *; lia). change (daddr (set_daddr NDIRECT r din) NDIRECT) with (addr_at (set_iaddr NDIRECT r x) NDIRECT).
    assert (addr_at (set_iaddr NDIRECT r x) NDIRECT = r) as Er by (rewrite addr_at_set by (apply B || file_lia); by rewrite decide_True).
    assert (forall k, 0 <= k <= MAXFILE -> slot C (set_iaddr NDIRECT r x) k = if decide (k = MAXFILE) then r else slot C x k) as Hs.
    { intros k Hk. apply slot_set_ind; [apply B|done|lia|apply (im_zero _ _ I); fold r; lia|done]. }
    destruct (alloc_slots C x C (set_iaddr NDIRECT r x) MAXFILE r) as [Hi2 Hr2]; [rewrite (proj1 layout); lia|file_lia|by rewrite slot_ind|apply B|apply B|done|].
    rewrite Er, (xint_id r) by (unfold FSSIZE in *; lia). fold (entry_tail r (fbn - NDIRECT) (set_daddr NDIRECT r din)).
    replace (entry_tail r) with (entry_tail (addr_at (set_iaddr NDIRECT r x) NDIRECT)) by (by rewrite Er).
    apply (wp_block_entry s1 (set_daddr NDIRECT r din)); fold r; [done|done|done|done|lia|lia|cbn; rewrite length_insert; apply B|done|by rewrite F1|..].
    + change (addr_at (set_iaddr NDIRECT r x) NDIRECT <> 0). lia.
    + intros k Hk. change (inode_of (set_daddr NDIRECT r din)) with (set_iaddr NDIRECT r x). rewrite Hs by lia. by rewrite decide_False by lia.
    + apply (extends_alloc r C x C (set_iaddr NDIRECT r x) MAXFILE); [by rewrite slot_ind|done|done].
    + done.
  - apply wp_ret. rewrite addr_xint by file_lia. pose proof (bu_range _ _ _ _ B MAXFILE ltac:(file_lia)) as HAr. rewrite slot_ind in HAr. specialize (HAr E0).
    rewrite (proj1 layout) in HAr. destruct (Z.eq_dec fbn q) as [Eq|Hne].
    + assert (grow q fbn = 1) as Hg. { unfold grow. rewrite (proj2 (Z.ltb_ge _ _)) by lia. rewrite (proj2 (Z.eqb_neq _ _)); [done|]. apply Hind in E0. lia. }
      apply (wp_block_entry s din); [done|done|done|done|by rewrite Hg|lia|apply B|apply B|apply B|done|done|apply extends_refl|by destruct din].
    + apply wp_bind. apply (wp_rsect s C I); [fold x in HAr; lia|]. assert (slot C x fbn <> 0) as Hn by (apply (bu_data _ _ _ _ B); lia).
      pose proof (slot_xint fbn ltac:(lia)) as Hxi. rewrite slot_entry, (proj2 (Z.eqb_neq _ _) E0) in Hn, Hxi by lia.
      rewrite (proj2 (Z.eqb_neq _ _) Hn). apply wp_bind, wp_ret, wp_ret. rewrite Hxi. pose proof (block_found ltac:(lia)) as Hbf.
      by rewrite slot_entry, (proj2 (Z.eqb_neq _ _) E0) in Hbf by lia.
Qed.
End block.

(** ** Appending to a file *)

(** The blocks of a file of [n] bytes, and with the indirect block. *)
Definition qblocks (n : Z) : Z := (n + BSIZE - 1) / BSIZE.
Definition nblk (n : Z) : Z := qblocks n + if NDIRECT <? qblocks n then 1 else 0.

Lemma qblocks_step off n1 : 0 <= off -> 0 < n1 <= BSIZE - off mod BSIZE ->
  off / BSIZE <= qblocks off /\ qblocks (off + n1) = Z.max (qblocks off) (off / BSIZE + 1) /\ nblk (off + n1) = nblk off + grow (qblocks off) (off / BSIZE).
Proof.
  intros Ho Hn. pose proof (Z.div_mod off BSIZE ltac:(done)) as Hd. pose proof (Z.mod_pos_bound off BSIZE ltac:(done)) as Hm.
  assert (qblocks off = if off mod BSIZE =? 0 then off / BSIZE else off / BSIZE + 1) as E1.
  { unfold qblocks. symmetry. destruct (Z.eqb_spec (off mod BSIZE) 0);
      [apply (Z.div_unique_pos _ _ _ (BSIZE - 1))|apply (Z.div_unique_pos _ _ _ (off mod BSIZE - 1))]; lia. }
  assert (qblocks (off + n1) = off / BSIZE + 1) as E2.
  { unfold qblocks. symmetry. apply (Z.div_unique_pos _ _ _ (off mod BSIZE + n1 - 1)); lia. }
  unfold nblk, grow. rewrite E2. rewrite E1. destruct (Z.eqb_spec (off mod BSIZE) 0); (split; [lia|]); (split; [lia|]).
  - rewrite Z.ltb_irrefl. destruct (Z.eqb_spec (off / BSIZE) NDIRECT), (Z.ltb_spec NDIRECT (off / BSIZE + 1)), (Z.ltb_spec NDIRECT (off / BSIZE)); lia.
  - rewrite (proj2 (Z.ltb_lt (off / BSIZE) _)) by lia. lia.
Qed.
Lemma qblocks_mono a b : a <= b -> qblocks a <= qblocks b.
Proof. intros. apply Z.div_le_mono; [done|lia]. Qed.
Lemma nblk_mono a b : a <= b -> nblk a <= nblk b.
Proof. intros Hab. pose proof (qblocks_mono a b Hab). unfold nblk. destruct (Z.ltb_spec NDIRECT (qblocks a)), (Z.ltb_spec NDIRECT (qblocks b)); lia. Qed.

(** A block of the file is overwritten. *)
Section data.
Context (s : mkst) (C : Z -> list Z) (x : inode) (q k : Z) (d : list Z).
Context (B : built C (freeblock s) x q) (Hk : 0 <= k < MAXFILE) (Hs : slot C x k <> 0).

Lemma built_data : built (<[slot C x k := d]> C) (freeblock s) x q.
Proof using B Hk Hs.
  assert (forall j, 0 <= j <= MAXFILE -> slot (<[slot C x k := d]> C) x j = slot C x j) as E by (intros j Hj; apply slot_write; [apply B|done..]).
  split; [apply B| | | |].
  - intros j j' Hj Hj'. rewrite !E by done. by apply (bu_inj _ _ _ _ B).
  - intros j Hj. rewrite !E by done. by apply (bu_range _ _ _ _ B).
  - intros j Hj. rewrite E by lia. by apply (bu_data _ _ _ _ B).
  - rewrite E by file_lia. apply B.
Qed.
Lemma extends_data fb : extends fb C x (<[slot C x k := d]> C) x.
Proof using B Hk Hs.
  assert (forall j, 0 <= j <= MAXFILE -> slot (<[slot C x k := d]> C) x j = slot C x j) as E by (intros j Hj; apply slot_write; [apply B|done..]).
  split; [intros j Hj _; by apply E| |].
  - intros y [Hy (j & Hj & Ej)]. left. split; [done|]. exists j. by rewrite <- E.
  - intros y _ Ho. apply fn_lookup_insert_ne. intros <-. apply Ho, owns_slot; [lia|done].
Qed.
End data.

(** The bytes of the last block past the end are zero. *)
Definition zero_tail (C : Z -> list Z) (x : inode) (n : Z) : Prop := forall o, n <= o < qblocks n * BSIZE -> fbyte C x o = 0.

Lemma zero_tail_step C x C1 x1 off n1 w (fbn := off / BSIZE) : 0 <= off -> 0 < n1 <= BSIZE - off mod BSIZE -> fbn < MAXFILE ->
  Z.of_nat (length w) = n1 -> slots_inj C1 x1 -> bytes_ok BSIZE (C1 (slot C1 x1 fbn)) -> slot C1 x1 fbn <> 0 ->
  zero_tail C x off -> (fbn < qblocks off -> slot C1 x1 fbn = slot C x fbn /\ C1 (slot C1 x1 fbn) = C (slot C x fbn)) ->
  (qblocks off <= fbn -> C1 (slot C1 x1 fbn) = zero_block) ->
  zero_tail (<[slot C1 x1 fbn := splice (Z.to_nat (off mod BSIZE)) w (C1 (slot C1 x1 fbn))]> C1) x1 (off + n1).
Proof.
  intros Ho Hn Hmax Lw Hinj Hby Hs Hz Hold Hnew o Hoo. pose proof (Z.mod_pos_bound off BSIZE ltac:(done)) as Hm. pose proof (Z.div_mod off BSIZE ltac:(done)) as Hdm. fold fbn in Hdm.
  destruct (qblocks_step off n1 Ho Hn) as (Hq & Hq1 & _). fold fbn in Hq, Hq1. assert (0 <= fbn) by (apply Z.div_pos; [lia|done]).
  assert (qblocks off <= fbn + 1) as Hq2.
  { unfold qblocks. apply Z.lt_succ_r, Z.div_lt_upper_bound; [done|]. unfold BSIZE in *. lia. }
  destruct (block_of off (o - off)) as [Eb Em]; [replace (qblocks (off + n1)) with (fbn + 1) in Hoo by lia; lia|]. replace (off + (o - off)) with o in * by lia. fold fbn in Eb.
  unfold fbyte. rewrite <- slot_data, slot_write, Eb, fn_lookup_insert by (done || lia). destruct Hby as [Hl _].
  rewrite nth_lookup, lookup_splice_out, <- nth_lookup by (unfold BSIZE in *; lia). destruct (Z.lt_ge_cases fbn (qblocks off)) as [Hlt|Hge].
  - destruct (Hold Hlt) as [E1 E2]. rewrite E2. specialize (Hz o ltac:(nia)). unfold fbyte in Hz. rewrite Eb, <- slot_data in Hz by lia. done.
  - rewrite (Hnew Hge). unfold zero_block. rewrite nth_lookup. destruct (replicate _ _ !! _) eqn:E; [|done]. by apply lookup_replicate in E as [-> _].
Qed.

Definition append_post (s : mkst) (C : Z -> list Z) (din : dinode) (off : Z) (p : list Z) (r : dinode * Z) (s' : mkst) : Prop :=
  let n := off + Z.of_nat (length p) in
  exists C', image s' C' /\ freeinode s' = freeinode s /\ freeblock s' = freeblock s + nblk n - nblk off /\
    built C' (freeblock s') (inode_of r.1) (qblocks n) /\ extends (freeblock s) C (inode_of din) C' (inode_of r.1) /\
    written C (inode_of din) C' (inode_of r.1) off p /\ r.2 = n /\ inode_of r.1 = with_addrs (d_addrs r.1) (inode_of din) /\ zero_tail C' (inode_of r.1) n.

Lemma append_post_nil s C din off : image s C -> built C (freeblock s) (inode_of din) (qblocks off) -> zero_tail C (inode_of din) off -> append_post s C din off [] (din, off) s.
Proof.
  intros I B Hz. exists C. cbn [fst snd length]. rewrite Z.add_0_r. split; [done|]. split; [done|]. split; [lia|]. split; [done|]. split; [apply extends_refl|].
  split; [by apply written_keep|]. split; [lia|]. split; [by destruct din|done].
Qed.

Lemma wp_iappend_loop fuel s C din off p (n := off + Z.of_nat (length p)) : image s C -> built C (freeblock s) (inode_of din) (qblocks off) -> zero_tail C (inode_of din) off -> 0 <= off ->
  n <= MAXFILE * BSIZE -> freeblock s + nblk n - nblk off <= FSSIZE -> Forall is_byte p -> (length p <= fuel)%nat ->
  wp (iappend_loop fuel din off p) (append_post s C din off p) s.
Proof.
  revert s C din off p n. induction fuel as [|f IH]; intros s C din off p n I B Hz Ho Hmax Hroom Hp Hf.
  { destruct p; [|cbn in Hf; lia]. by apply wp_ret, append_post_nil. }
  cbn [iappend_loop]. destruct (Z.ltb_spec 0 (Z.of_nat (length p))) as [Hlen|]; [|destruct p; [by apply wp_ret, append_post_nil|cbn in *; lia]].
  pose proof (Z.div_mod off BSIZE ltac:(done)) as Hdm. pose proof (Z.mod_pos_bound off BSIZE ltac:(done)) as Hmb. set (fbn := off / BSIZE) in *.
  replace ((fbn + 1) * BSIZE - off) with (BSIZE - off mod BSIZE) by lia. replace (off - fbn * BSIZE) with (off mod BSIZE) by lia.
  set (n1 := Z.min (Z.of_nat (length p)) (BSIZE - off mod BSIZE)).
  destruct (qblocks_step off n1 Ho ltac:(lia)) as (Hq & Hq1 & Hn1). fold fbn in Hq, Hq1, Hn1. pose proof (off_block off ltac:(lia)) as Hb. fold fbn in Hb.
  rewrite (proj2 (Z.ltb_lt _ _)) by lia. cbn [negb]. pose proof (nblk_mono (off + n1) n ltac:(lia)) as Hmono.
  apply wp_bind. eapply wp_mono; [|apply (wp_iappend_block s C I din (qblocks off) fbn B Hb Hq); lia].
  intros [y din1] s1 (C1 & I1 & N1 & F1 & B1 & E1 & K1 & Hy & X1 & Z1). cbn [fst snd] in *. rewrite <- Hq1 in B1.
  assert (slot C1 (inode_of din1) fbn <> 0) as Hs by (apply (bu_data _ _ _ _ B1); lia).
  pose proof (bu_range _ _ _ _ B1 fbn ltac:(lia) Hs) as Hyr. rewrite (proj1 layout) in Hyr. subst y. set (y := slot C1 (inode_of din1) fbn) in *.
  apply wp_bind. apply (wp_rsect s1 C1 I1); [lia|]. apply wp_bind. set (w := take (Z.to_nat n1) p).
  assert (Z.of_nat (length w) = n1) as Lw by (unfold w; rewrite length_take; lia).
  apply (wp_wsect s1 C1 I1); [lia|apply bytes_splice; [apply I1|by apply Forall_take|lia|lia]|]. intros s2 I2 F2 N2. set (C2 := <[y := _]> C1) in *.
  assert (Z.of_nat (length (drop (Z.to_nat n1) p)) = Z.of_nat (length p) - n1) as Ld by (rewrite length_drop; lia).
  eapply wp_mono; [|apply (IH s2 C2 din1 (off + n1) (drop (Z.to_nat n1) p)); [done|rewrite F2; by apply built_data| |lia|lia| |by apply Forall_drop|lia]].
  2: { apply (zero_tail_step C (inode_of din)); try done; [lia|lia|apply B1|apply I1|]. fold fbn. intros Hlt. assert (slot C (inode_of din) fbn <> 0) as Hs0 by (by apply (bu_data _ _ _ _ B)).
       rewrite (ex_keep _ _ _ _ _ E1 fbn ltac:(lia) Hs0). split; [done|by apply K1]. }
  2: { rewrite Ld. replace (off + n1 + (Z.of_nat (length p) - n1)) with n by lia. lia. }
  intros [din' off'] s' (C' & I' & N' & F' & B' & E' & Wr & Hoff & X' & Z'). rewrite Ld in *. replace (off + n1 + (Z.of_nat (length p) - n1)) with n in * by lia.
  cbn [fst snd] in *. exists C'. cbn [fst snd]. fold n. split; [done|]. split; [congruence|]. split; [lia|]. split; [done|]. split; [|split; [|split; [done|split; [|done]]]].
  - eapply (extends_trans _ _ _ (freeblock s1)); [pose proof (grow_pos (qblocks off) fbn); lia|exact E1|]. eapply (extends_trans _ _ _ (freeblock s2)); [lia| |exact E']. by eapply extends_data.
  - rewrite <- (take_drop (Z.to_nat n1) p). fold w. change (w ++ drop (Z.to_nat n1) p) with ([] ++ w ++ drop (Z.to_nat n1) p). eapply written_app.
    + apply (written_keep C (inode_of din) C1 (inode_of din1)). intros k Hk Hk0. split; [apply (ex_keep _ _ _ _ _ E1); [lia|done]|by apply K1].
    + cbn [length]. rewrite Z.add_0_r. eapply written_app; [|rewrite Lw; exact Wr]. unfold C2, y. rewrite slot_data by done.
      apply written_block; [apply B1|apply I1|lia|lia|]. by rewrite <- slot_data.
  - rewrite X', X1. done.
Qed.

(** ** All files of the image *)

Definition lenz (c : list Z) : Z := Z.of_nat (length c).

(** Inode [inum] is a file of type [t] with contents [c]. *)
Record mfile (C : Z -> list Z) (fb inum t : Z) (c : list Z) : Prop := {
  mf_type : i_type (disk_inode C inum) = t /\ short t;
  mf_rest : i_major (disk_inode C inum) = 0 /\ i_minor (disk_inode C inum) = 0 /\ i_nlink (disk_inode C inum) = 1;
  mf_size : i_size (disk_inode C inum) = lenz c;
  mf_max : lenz c <= MAXFILE * BSIZE;
  mf_built : built C fb (disk_inode C inum) (qblocks (lenz c));
  mf_bytes : fbytes C (disk_inode C inum) 0 (lenz c) = c;
  mf_tail : zero_tail C (disk_inode C inum) (lenz c)
}.

(** Files of type and contents [fs], as inodes 1, 2, ... *)
Definition total (fs : list (Z * list Z)) : Z := foldr (fun f a => nblk (lenz f.2) + a) 0 fs.
Definition inum_of (i : nat) : Z := Z.of_nat i + 1.
Record minv (s : mkst) (C : Z -> list Z) (fs : list (Z * list Z)) : Prop := {
  mi_image : image s C;
  mi_inode : freeinode s = inum_of (length fs);
  mi_count : Z.of_nat (length fs) <= NINODES;
  mi_block : freeblock s = nmeta + total fs;
  mi_files : forall i t c, fs !! i = Some (t, c) -> mfile C (freeblock s) (inum_of i) t c;
  mi_disj : forall i j y, i <> j -> (i < length fs)%nat -> (j < length fs)%nat ->
    owns C (disk_inode C (inum_of i)) y -> owns C (disk_inode C (inum_of j)) y -> False;
  mi_front : forall y, y < 32 -> C y = if decide (y = 1) then splice 0 (sb_bytes sb) zero_block else zero_block;
  mi_inodes : forall inum, inum_of (length fs) <= inum < 208 -> i_type (disk_inode C inum) = 0
}.

Lemma total_cons f fs : total (f :: fs) = nblk (lenz f.2) + total fs.
Proof. done. Qed.
Lemma mk_total_insert fs i t c c' : fs !! i = Some (t, c) -> total (<[i := (t, c')]> fs) = total fs + nblk (lenz c') - nblk (lenz c).
Proof.
  revert i. induction fs as [|f fs IH]; intros [|i] Hi; [done..| |].
  - injection Hi as ->. change (<[0%nat := (t, c')]> ((t, c) :: fs)) with ((t, c') :: fs). rewrite !total_cons. cbn [snd]. lia.
  - specialize (IH i Hi). change (<[S i := (t, c')]> (f :: fs)) with (f :: <[i := (t, c')]> fs). rewrite !total_cons. lia.
Qed.
Lemma nblk_pos n : 0 <= n -> 0 <= nblk n.
Proof. intros Hn. unfold nblk, qblocks. pose proof (Z.div_pos (n + BSIZE - 1) BSIZE ltac:(unfold BSIZE; lia) ltac:(done)). destruct (_ <? _); lia. Qed.

(** Inode blocks. *)
Lemma iblock inum : 0 <= inum < 208 -> IBLOCK inum sb = inum / 16 + 32 /\ 32 <= IBLOCK inum sb < 45.
Proof.
  intros Hi. rewrite (proj2 layout). unfold IBLOCK. change IPB with 16. cbn [sb_inodestart].
  assert (0 <= inum / 16 < 13) by (split; [apply Z.div_pos; lia|apply Z.div_lt_upper_bound; lia]). rewrite u32_small by lia. lia.
Qed.
Lemma dinode_disjoint i j : 0 <= i < 208 -> 0 <= j < 208 -> i <> j -> IBLOCK i sb = IBLOCK j sb ->
  dinode_off j + 64 <= dinode_off i \/ dinode_off i + 64 <= dinode_off j.
Proof.
  intros Hi Hj Hne E. rewrite (proj1 (iblock i Hi)), (proj1 (iblock j Hj)) in E. unfold dinode_off. change IPB with 16.
  pose proof (Z.div_mod i 16). pose proof (Z.div_mod j 16). lia.
Qed.

(** A file whose blocks did not change. *)
Section frame.
Context (C C' : Z -> list Z) (x : inode) (fb fb' q : Z) (B : built C fb x q) (Hfb : fb <= fb') (Hsame : forall y, owns C x y -> C' y = C y).

Lemma frame_slot k : 0 <= k <= MAXFILE -> slot C' x k = slot C x k.
Proof using Hsame. intros Hk. apply slots_alike; [done| |done]. intros HA. apply Hsame. by apply ind_owned. Qed.
Lemma frame_owns y : owns C' x y <-> owns C x y.
Proof using Hsame. split; intros [Hn (k & Hk & E)]; (split; [done|]); exists k; (split; [done|]); [by rewrite <- frame_slot|by rewrite frame_slot]. Qed.
Lemma frame_built : built C' fb' x q.
Proof using B Hfb Hsame.
  split; [apply B| | | |].
  - intros k k' Hk Hk'. rewrite !frame_slot by done. by apply (bu_inj _ _ _ _ B).
  - intros k Hk. rewrite !frame_slot by done. intros Hs. pose proof (bu_range _ _ _ _ B k Hk Hs). lia.
  - intros k Hk. rewrite frame_slot by lia. by apply (bu_data _ _ _ _ B).
  - rewrite frame_slot by file_lia. apply B.
Qed.
Lemma frame_fbyte o : 0 <= o < MAXFILE * BSIZE -> o < q * BSIZE -> fbyte C' x o = fbyte C x o.
Proof using B Hsame.
  intros Ho Hq. pose proof (off_block o Ho) as Hb. unfold fbyte. rewrite <- !slot_data by done. rewrite frame_slot by lia.
  rewrite Hsame; [done|]. apply owns_slot; [lia|]. apply (bu_data _ _ _ _ B); [done|]. apply Z.div_lt_upper_bound; [done|]. lia.
Qed.
Lemma frame_bytes n : n <= MAXFILE * BSIZE -> n <= q * BSIZE -> fbytes C' x 0 n = fbytes C x 0 n.
Proof using B Hsame. intros Hn Hq. unfold fbytes. apply list_fmap_ext. intros i k [-> Hk]%lookup_seq. apply frame_fbyte; lia. Qed.
End frame.

(** ** Storing an inode *)

Section store.
Context (C : Z -> list Z) (HC : forall y, bytes_ok BSIZE (C y)) (inum : Z) (d : dinode) (Hi : 0 <= inum < 208) (Hl : length (d_addrs d) = 13%nat).
Let B := IBLOCK inum sb.
Let C' := <[B := put_dinode (dinode_off inum) d (C B)]> C.

Lemma put_dinode_bytes : bytes_ok BSIZE (put_dinode (dinode_off inum) d (C B)).
Proof using HC Hl. pose proof (dinode_off_range inum). rewrite put_dinode_store. apply bytes_store; [apply HC|lia|lia|done]. Qed.
Lemma disk_inode_same : inode_typed (inode_of d) -> disk_inode C' inum = inode_of d.
Proof using HC Hl.
  intros T. pose proof (dinode_off_range inum). unfold disk_inode, C'. fold B. rewrite fn_lookup_insert, put_dinode_store.
  exact (load_store (dinode_off inum) (inode_of d) (C B) (HC B) ltac:(lia) ltac:(lia) Hl T).
Qed.
Lemma disk_inode_other j : 0 <= j < 208 -> j <> inum -> disk_inode C' j = disk_inode C j.
Proof using HC Hl Hi.
  intros Hj Hne. pose proof (dinode_off_range inum). pose proof (dinode_off_range j). unfold disk_inode, C'. destruct (decide (IBLOCK j sb = B)) as [E|E].
  - rewrite E, fn_lookup_insert, put_dinode_store. apply load_store_other; [apply HC|lia|lia|done|lia|]. apply dinode_disjoint; [done|done|congruence|done].
  - by rewrite fn_lookup_insert_ne.
Qed.
Lemma store_high y : 45 <= y -> C' y = C y.
Proof using Hi Hl. intros Hy. unfold C'. pose proof (iblock inum Hi) as [_ Hb]. fold B in Hb. by rewrite fn_lookup_insert_ne by lia. Qed.
End store.

Lemma wp_winode s C inum d (Q : unit -> mkst -> Prop) : image s C -> 0 <= inum < 208 -> length (d_addrs d) = 13%nat ->
  (forall s', image s' (<[IBLOCK inum sb := put_dinode (dinode_off inum) d (C (IBLOCK inum sb))]> C) -> freeblock s' = freeblock s -> freeinode s' = freeinode s -> Q tt s') ->
  wp (winode inum d) Q s.
Proof.
  intros I Hi Hl HQ. pose proof (iblock inum Hi) as [_ Hb]. pose proof (im_free _ _ I) as Hf. rewrite (proj1 layout) in Hf. unfold winode.
  apply wp_bind. apply (wp_rsect s C I); [unfold FSSIZE; lia|]. apply (wp_wsect s C I); [lia|apply put_dinode_bytes; [apply I|done]|done].
Qed.

(** The addresses of a built file fit in 32 bits. *)
Lemma built_addrs C fb x q : built C fb x q -> fb <= FSSIZE -> Forall (fun a => 0 <= a < 2 ^ 32) (i_addrs x).
Proof.
  intros B Hfb. apply Forall_lookup_2. intros i a Hi. pose proof (lookup_lt_Some _ _ _ Hi) as Hlt. rewrite (bu_len _ _ _ _ B) in Hlt.
  assert (addr_at x (Z.of_nat i) = a) as <- by (unfold addr_at; rewrite nth_lookup, Nat2Z.id, Hi; done).
  assert (exists k, 0 <= k <= MAXFILE /\ slot C x k = addr_at x (Z.of_nat i)) as (k & Hk & <-).
  { destruct (decide (i = 12)%nat) as [->|]; [exists MAXFILE; split; [file_lia|apply slot_ind]|exists (Z.of_nat i); split; [file_lia|apply slot_direct; file_lia]]. }
  destruct (Z.eq_dec (slot C x k) 0) as [->|Hn]; [lia|]. pose proof (bu_range _ _ _ _ B k Hk Hn) as Hr. rewrite (proj1 layout) in Hr. unfold FSSIZE in *. lia.
Qed.

Lemma qblocks_cover n : 0 <= n -> n <= qblocks n * BSIZE /\ forall bn, bn * BSIZE < n -> bn < qblocks n.
Proof.
  intros Hn. unfold qblocks. pose proof (Z.div_mod (n + BSIZE - 1) BSIZE ltac:(done)). pose proof (Z.mod_pos_bound (n + BSIZE - 1) BSIZE ltac:(done)).
  split; [lia|]. intros bn Hb. unfold BSIZE in *. lia.
Qed.
Lemma qblocks_max n : n <= MAXFILE * BSIZE -> qblocks n <= MAXFILE.
Proof. intros Hn. unfold qblocks. apply Z.lt_succ_r, Z.div_lt_upper_bound; [done|]. unfold BSIZE in *. lia. Qed.
Lemma mfile_ok C fb inum t c : mfile C fb inum t c -> file_ok C (disk_inode C inum).
Proof.
  intros [_ _ Hs Hm B _ _]. split; [done|rewrite Hs; unfold lenz in *; lia|]. intros bn Hb Hlt. rewrite Hs in Hlt.
  rewrite <- slot_data by (unfold BSIZE in *; lia). apply (bu_data _ _ _ _ B); [unfold BSIZE in *; lia|]. apply qblocks_cover; [unfold lenz; lia|done].
Qed.

(** A file that another file's append does not touch. *)
Lemma mfile_frame C C' fb fb' inum t c : mfile C fb inum t c -> fb <= fb' -> disk_inode C' inum = disk_inode C inum ->
  (forall y, owns C (disk_inode C inum) y -> C' y = C y) -> mfile C' fb' inum t c.
Proof.
  intros [M1 M2 M3 M4 M5 M6 M7] Hfb E Hs. pose proof (qblocks_cover (lenz c) ltac:(unfold lenz; lia)) as [Hq _].
  pose proof (qblocks_max (lenz c) M4) as Hqm. split; rewrite ?E; try done; [by eapply frame_built|by rewrite (frame_bytes C C' _ _ _ M5 Hs)|].
  intros o Ho. rewrite (frame_fbyte C C' _ _ _ M5 Hs) by (unfold lenz, BSIZE in *; lia). by apply M7.
Qed.

Lemma inum_range s C fs j : minv s C fs -> (j < length fs)%nat -> 1 <= inum_of j < 208.
Proof. intros V Hj. pose proof (mi_count _ _ _ V). unfold NINODES, inum_of in *. lia. Qed.

Section append.
Context (s : mkst) (C : Z -> list Z) (fs : list (Z * list Z)) (V : minv s C fs) (i : nat) (t : Z) (c p : list Z) (Hi : fs !! i = Some (t, c)).
Context (s1 : mkst) (C1 : Z -> list Z) (din1 : dinode) (I1 : image s1 C1).
Let inum := inum_of i.
Let x := disk_inode C inum.
Let n := lenz c + lenz p.
Context (Hmax : n <= MAXFILE * BSIZE) (F1 : freeblock s1 = freeblock s + nblk n - nblk (lenz c)) (N1 : freeinode s1 = freeinode s) (Hroom : freeblock s1 <= FSSIZE).
Context (B1 : built C1 (freeblock s1) (inode_of din1) (qblocks n)) (E1 : extends (freeblock s) C x C1 (inode_of din1)).
Context (Wr : written C x C1 (inode_of din1) (lenz c) p) (X1 : inode_of din1 = with_addrs (d_addrs din1) x).
Context (Z1 : zero_tail C1 (inode_of din1) n).
Let d2 := set_dsize n din1.
Let C2 := <[IBLOCK inum sb := put_dinode (dinode_off inum) d2 (C1 (IBLOCK inum sb))]> C1.

Lemma this_file : mfile C (freeblock s) inum t c.
Proof using V Hi. by apply (mi_files _ _ _ V). Qed.
Lemma fb_le : freeblock s <= freeblock s1.
Proof using F1 i. pose proof (nblk_mono (lenz c) n ltac:(unfold n, lenz; lia)). lia. Qed.

Lemma this_inode : disk_inode C2 inum = inode_of d2.
Proof using V Hi I1 X1 B1 Hroom Hmax.
  pose proof this_file as M. destruct (mf_type _ _ _ _ _ M) as [Mt Ms]. destruct (mf_rest _ _ _ _ _ M) as (M1 & M2 & M3). fold x in Mt, M1, M2, M3.
  apply disk_inode_same; [apply I1|apply B1|].
  assert (i_type (inode_of din1) = t /\ i_major (inode_of din1) = 0 /\ i_minor (inode_of din1) = 0 /\ i_nlink (inode_of din1) = 1) as (T1 & T2 & T3 & T4) by (rewrite X1; done).
  cbn in T1, T2, T3, T4. split; cbn [inode_of d2 set_dsize i_type i_major i_minor i_nlink i_size i_addrs d_type d_major d_minor d_nlink d_size d_addrs].
  - by rewrite T1.
  - rewrite T2. unfold short. lia.
  - rewrite T3. unfold short. lia.
  - rewrite T4. unfold short. lia.
  - unfold n, lenz in *. file_lia.
  - apply B1.
  - by eapply (built_addrs C1 _ (inode_of din1)).
Qed.

Lemma appended_file : mfile C2 (freeblock s1) inum t (c ++ p).
Proof using All.
  pose proof this_file as M. destruct (mf_type _ _ _ _ _ M) as [Mt Ms]. destruct (mf_rest _ _ _ _ _ M) as (M1 & M2 & M3). fold x in Mt, M1, M2, M3.
  assert (lenz (c ++ p) = n) as Ln by (unfold n, lenz; rewrite length_app; lia). pose proof (inum_range _ _ _ i V ltac:(by eapply lookup_lt_Some)) as Hr. fold inum in Hr.
  assert (built C1 (freeblock s1) (inode_of d2) (qblocks n)) as B2 by (destruct B1; by split).
  assert (forall y, owns C1 (inode_of d2) y -> C2 y = C1 y) as Hsame.
  { intros y [Hy (k & Hk & E)]. apply store_high; [lia|apply B1|]. rewrite <- E in Hy. pose proof (bu_range _ _ _ _ B2 k Hk Hy) as Hb. rewrite (proj1 layout) in Hb. lia. }
  pose proof (qblocks_cover n ltac:(unfold n, lenz; lia)) as [Hq _].
  pose proof (qblocks_max n Hmax) as Hqm. split; rewrite ?this_inode, ?Ln; [|..|done| | |].
  - split; [|done]. change (i_type (inode_of d2)) with (i_type (inode_of din1)). by rewrite X1.
  - change (i_major (inode_of din1) = 0 /\ i_minor (inode_of din1) = 0 /\ i_nlink (inode_of din1) = 1). by rewrite X1.
  - done.
  - by eapply frame_built.
  - rewrite (frame_bytes C1 C2 _ _ _ B2 Hsame) by done. change (fbytes C1 (inode_of d2) 0 n) with (fbytes C1 (inode_of din1) 0 n).
    pose proof (written_bytes C x C1 (inode_of din1) (lenz c) p (mfile_ok _ _ _ _ _ M) Wr) as Hw. pose proof (mf_size _ _ _ _ _ M) as Hz. pose proof (mf_bytes _ _ _ _ _ M) as Hby. fold x in Hz, Hby. rewrite Hz, Hby in Hw. fold (lenz p) in Hw. fold n in Hw.
    rewrite Z.max_r in Hw by (unfold n, lenz; lia). rewrite Hw; [|unfold lenz; lia|done]. unfold overwrite, lenz. rewrite Nat2Z.id.
    rewrite take_ge by lia. rewrite (drop_ge c) by lia. by rewrite app_nil_r.
  - intros o Ho. rewrite (frame_fbyte C1 C2 _ _ _ B2 Hsame) by (unfold n, lenz, BSIZE in *; lia). by apply Z1.
Qed.

(** What is not a block of this file, nor its inode block, is as before. *)
Lemma low_keep y : y < 46 -> C1 y = C y.
Proof using All.
  intros Hy. pose proof (im_free _ _ (mi_image _ _ _ V)) as Hf. rewrite (proj1 layout) in Hf. apply (ex_frame _ _ _ _ _ E1); [lia|].
  intros [Hn (k & Hk & E)]. rewrite <- E in Hn. pose proof (bu_range _ _ _ _ (mf_built _ _ _ _ _ this_file) k Hk Hn) as Hr. rewrite (proj1 layout) in Hr. fold x in Hr. lia.
Qed.
Lemma other_inode j : 0 <= j < 208 -> j <> inum -> disk_inode C2 j = disk_inode C j.
Proof using All.
  intros Hj Hne. pose proof (inum_range _ _ _ i V ltac:(by eapply lookup_lt_Some)) as Hr. fold inum in Hr. unfold C2.
  rewrite disk_inode_other; [|apply I1|lia|apply B1|done|done]. unfold disk_inode. pose proof (iblock j Hj). by rewrite low_keep by lia.
Qed.
Lemma other_block j y : (j < length fs)%nat -> j <> i -> owns C (disk_inode C (inum_of j)) y -> C2 y = C y /\ y < freeblock s.
Proof using All.
  intros Hj Hne Ho. pose proof (inum_range _ _ _ i V ltac:(by eapply lookup_lt_Some)) as Hr. fold inum in Hr.
  destruct (lookup_lt_is_Some_2 fs j Hj) as [[tj cj] Ej]. pose proof (mf_built _ _ _ _ _ (mi_files _ _ _ V j tj cj Ej)) as Bj. assert (nmeta <= y < freeblock s) as Hy.
  { destruct Ho as [Hn (k & Hk & <-)]. by apply (bu_range _ _ _ _ Bj). }
  rewrite (proj1 layout) in Hy. split; [|lia]. unfold C2. rewrite store_high by (lia || apply B1). apply (ex_frame _ _ _ _ _ E1); [lia|].
  intros Ho'. by apply (mi_disj _ _ _ V j i y Hne Hj ltac:(by eapply lookup_lt_Some)).
Qed.
Lemma this_owns y : owns C2 (inode_of d2) y -> owns C x y \/ freeblock s <= y.
Proof using All.
  intros Ho. apply (ex_fresh _ _ _ _ _ E1). apply (frame_owns C1 C2 (inode_of d2)) in Ho; [exact Ho|]. pose proof (inum_range _ _ _ i V ltac:(by eapply lookup_lt_Some)) as Hr.
  intros z [Hz (k & Hk & E)]. apply store_high; [fold inum in Hr; lia|apply B1|]. rewrite <- E in Hz. pose proof (bu_range _ _ _ _ B1 k Hk Hz) as Hb.
  rewrite (proj1 layout) in Hb. change (slot C1 (inode_of d2) k) with (slot C1 (inode_of din1) k) in E. lia.
Qed.

Lemma appended_inv s2 : image s2 C2 -> freeblock s2 = freeblock s1 -> freeinode s2 = freeinode s1 -> minv s2 C2 (<[i := (t, c ++ p)]> fs).
Proof using All.
  intros I2 F2 N2. pose proof (lookup_lt_Some _ _ _ Hi) as Hlt. pose proof fb_le as Hle. pose proof (inum_range _ _ _ i V Hlt) as Hr. fold inum in Hr.
  assert (forall j, (j < length fs)%nat -> j <> i -> disk_inode C2 (inum_of j) = disk_inode C (inum_of j)) as Hoth.
  { intros j Hj Hne. pose proof (inum_range _ _ _ j V Hj). apply other_inode; [lia|]. unfold inum, inum_of. lia. }
  split; rewrite ?length_insert; [done|rewrite N2, N1; apply V|apply V| | | | |].
  - rewrite F2, F1, (mk_total_insert _ _ _ _ _ Hi), (mi_block _ _ _ V). unfold lenz. rewrite length_app, Nat2Z.inj_add. unfold n, lenz. lia.
  - intros j tj cj Hj. rewrite F2. destruct (decide (i = j)) as [<-|Hne].
    + rewrite list_lookup_insert_eq in Hj by done. injection Hj as <- <-. apply appended_file.
    + rewrite list_lookup_insert_ne in Hj by done. pose proof (lookup_lt_Some _ _ _ Hj) as Hjl.
      eapply mfile_frame; [by apply (mi_files _ _ _ V)|done|by apply Hoth|]. intros y Ho. by apply (other_block j y).
  - assert (forall j y, (j < length fs)%nat -> j <> i -> owns C2 (disk_inode C2 (inum_of j)) y -> owns C (disk_inode C (inum_of j)) y) as Hown.
    { intros j y Hj Hne. rewrite (Hoth j Hj Hne). apply (frame_owns C C2). intros z Hz. by apply (other_block j z). }
    assert (forall j y, (j < length fs)%nat -> j <> i -> owns C2 (disk_inode C2 (inum_of i)) y -> owns C2 (disk_inode C2 (inum_of j)) y -> False) as Hself.
    { intros j y Hj Hne Ho Hoj. apply (Hown j y Hj Hne) in Hoj. fold inum in Ho. rewrite this_inode in Ho. apply this_owns in Ho as [Ho|Hge];
        [|destruct (other_block j y Hj Hne Hoj); lia]. by apply (mi_disj _ _ _ V i j y ltac:(congruence) Hlt Hj). }
    intros j k y Hjk Hj Hk Hoj Hok. destruct (decide (j = i)) as [->|Hji]; [by apply (Hself k y Hk ltac:(congruence))|].
    destruct (decide (k = i)) as [->|Hki]; [by apply (Hself j y Hj Hji)|]. apply (mi_disj _ _ _ V j k y); auto.
  - intros y Hy. unfold C2. pose proof (iblock inum ltac:(lia)). rewrite fn_lookup_insert_ne by lia. rewrite low_keep by lia. by apply (mi_front _ _ _ V).
  - intros m Hm. rewrite other_inode; [by apply (mi_inodes _ _ _ V)|unfold inum_of in *; lia|]. unfold inum, inum_of in *. lia.
Qed.
End append.

(** ** Room

    [fs] is on the way to [fs']: the same files, with at most the bytes. *)
Definition fle (fs fs' : list (Z * list Z)) : Prop :=
  forall i t c, fs !! i = Some (t, c) -> exists c', fs' !! i = Some (t, c') /\ lenz c <= lenz c'.

#[export] Instance fle_refl : Reflexive fle.
Proof. intros fs i t c Hi. by exists c. Qed.
#[export] Instance fle_trans : Transitive fle.
Proof. intros f1 f2 f3 H1 H2 i t c Hi. destruct (H1 i t c Hi) as (c1 & Hi1 & L1). destruct (H2 i t c1 Hi1) as (c2 & Hi2 & L2). exists c2. split; [done|lia]. Qed.
Lemma fle_insert fs i t c c' : fs !! i = Some (t, c) -> lenz c <= lenz c' -> fle fs (<[i := (t, c')]> fs).
Proof.
  intros Hi Hle j tj cj Hj. destruct (decide (i = j)) as [<-|Hne].
  - assert (t = tj /\ c = cj) as [-> ->] by (rewrite Hi in Hj; by injection Hj). exists c'. by rewrite list_lookup_insert_eq by (by eapply lookup_lt_Some).
  - exists cj. by rewrite list_lookup_insert_ne.
Qed.
Lemma fle_length fs fs' : fle fs fs' -> (length fs <= length fs')%nat.
Proof.
  intros H. destruct (decide (length fs <= length fs')%nat) as [|Hn]; [done|]. destruct (lookup_lt_is_Some_2 fs (length fs')) as [[t c] E]; [lia|].
  destruct (H _ _ _ E) as (c' & E' & _). apply lookup_lt_Some in E'. lia.
Qed.
Lemma mk_total_pos fs : 0 <= total fs.
Proof. induction fs as [|f fs IH]; [done|]. rewrite total_cons. pose proof (nblk_pos (lenz f.2) ltac:(unfold lenz; lia)). lia. Qed.
Lemma total_mono fs fs' : fle fs fs' -> total fs <= total fs'.
Proof.
  revert fs'. induction fs as [|[t c] fs IH]; intros fs' H; [apply mk_total_pos|]. destruct (H 0%nat t c eq_refl) as (c' & E & Hle).
  destruct fs' as [|f' fs']; [done|]. injection E as ->. rewrite !total_cons. cbn [snd]. pose proof (nblk_mono _ _ Hle).
  specialize (IH fs' (fun i t c => H (S i) t c)). lia.
Qed.

(** ** A new inode *)

Definition new_dinode (type : Z) : dinode := mkDinode type 0 0 1 0 (replicate 13 0).
Lemma new_slots C type k : slot C (inode_of (new_dinode type)) k = 0.
Proof.
  assert (forall j, addr_at (inode_of (new_dinode type)) j = 0) as Ha.
  { intros j. unfold addr_at. rewrite nth_lookup. destruct (i_addrs _ !! _) as [v|] eqn:E; [|done]. by apply lookup_replicate in E as [-> _]. }
  unfold slot, faddr. rewrite !Ha. by repeat case_match.
Qed.
Lemma new_typed type : short type -> inode_typed (inode_of (new_dinode type)).
Proof. intros Ht. split; [done|unfold short; cbn; lia..|done|]. apply Forall_replicate. lia. Qed.

Section new.
Context (s : mkst) (C : Z -> list Z) (fs : list (Z * list Z)) (V : minv s C fs) (type : Z) (Ht : short type) (Hn : Z.of_nat (length fs) < NINODES).
Let inum := inum_of (length fs).
Let C' := <[IBLOCK inum sb := put_dinode (dinode_off inum) (new_dinode type) (C (IBLOCK inum sb))]> C.

Lemma new_inode : disk_inode C' inum = inode_of (new_dinode type).
Proof using V Ht. apply disk_inode_same; [apply (mi_image _ _ _ V)|done|by apply new_typed]. Qed.

Lemma new_inv s' : image s' C' -> freeblock s' = freeblock s -> freeinode s' = freeinode s + 1 -> minv s' C' (fs ++ [(type, [])]).
Proof using All.
  intros I' F' N'. assert (0 <= inum < 208) as Hi by (unfold inum, inum_of, NINODES in *; lia). pose proof (im_bytes _ _ (mi_image _ _ _ V)) as HC.
  assert (forall j, (j < length fs)%nat -> disk_inode C' (inum_of j) = disk_inode C (inum_of j)) as Hoth.
  { intros j Hj. pose proof (inum_range _ _ _ j V Hj). apply disk_inode_other; [done|done|done|lia|]. unfold inum, inum_of. lia. }
  assert (forall j y, (j < length fs)%nat -> owns C (disk_inode C (inum_of j)) y -> C' y = C y) as Hblk.
  { intros j y Hj [Hy (k & Hk & E)]. destruct (lookup_lt_is_Some_2 fs j Hj) as [[tj cj] Ej]. rewrite <- E in Hy.
    pose proof (bu_range _ _ _ _ (mf_built _ _ _ _ _ (mi_files _ _ _ V j tj cj Ej)) k Hk Hy) as Hr. rewrite (proj1 layout) in Hr. apply store_high; [done|done|lia]. }
  assert (forall j y, (j < length fs)%nat -> owns C' (disk_inode C' (inum_of j)) y -> owns C (disk_inode C (inum_of j)) y) as Hown.
  { intros j y Hj. rewrite Hoth by done. apply (frame_owns C C'). intros z. by apply Hblk. }
  assert (forall y, ~ owns C' (disk_inode C' inum) y) as Hnone.
  { intros y [Hy (k & Hk & E)]. rewrite new_inode, new_slots in E. congruence. }
  split; rewrite ?length_app; cbn [length].
  - done.
  - rewrite N', (mi_inode _ _ _ V). unfold inum_of. lia.
  - lia.
  - rewrite F', (mi_block _ _ _ V). f_equal. clear. induction fs as [|f fs' IH]; [done|]. cbn [app]. rewrite !total_cons. lia.
  - intros j tj cj [Hj|[Hj1 Hj2]]%lookup_app_Some; rewrite F'.
    + pose proof (lookup_lt_Some _ _ _ Hj). eapply mfile_frame; [by apply (mi_files _ _ _ V)|done|by apply Hoth|]. intros y. by apply Hblk.
    + apply list_lookup_singleton_Some in Hj2 as [Hj0 [= <- <-]]. replace j with (length fs) by lia. fold inum. split; rewrite ?new_inode; try done; [|intros o Ho; change (qblocks (lenz [])) with 0 in Ho; unfold lenz in Ho; cbn in Ho; lia].
      split; [done|intros k k' _ _; by rewrite new_slots|intros k _; by rewrite new_slots|intros k Hk; rewrite new_slots; change (qblocks (lenz [])) with 0; lia|].
      rewrite new_slots. split; [done|]. vm_compute. done.
  - intros j k y Hjk Hj Hk Hoj Hok. destruct (decide (j = length fs)) as [->|]; [by destruct (Hnone y)|]. destruct (decide (k = length fs)) as [->|]; [by destruct (Hnone y)|].
    apply (mi_disj _ _ _ V j k y); [done|lia|lia|apply Hown; [lia|done]|apply Hown; [lia|done]].
  - intros y Hy. unfold C'. pose proof (iblock inum Hi). rewrite fn_lookup_insert_ne by lia. by apply (mi_front _ _ _ V).
  - intros m Hm. unfold C'. rewrite disk_inode_other; [apply (mi_inodes _ _ _ V); unfold inum_of in *; lia|done|done|done|unfold inum_of in *; lia|unfold inum, inum_of in *; lia].
Qed.
End new.

(** The files of the image in the end. *)
Section run.
Context (F : list (Z * list Z)) (HF : nmeta + total F <= FSSIZE) (Hn : Z.of_nat (length F) <= NINODES).
Context (Hmax : forall i t c, F !! i = Some (t, c) -> lenz c <= MAXFILE * BSIZE).

Lemma wp_iappend s C fs i t c p (Q : unit -> mkst -> Prop) : minv s C fs -> fs !! i = Some (t, c) -> fle (<[i := (t, c ++ p)]> fs) F -> Forall is_byte p ->
  (forall s' C', minv s' C' (<[i := (t, c ++ p)]> fs) -> Q tt s') -> wp (iappend (inum_of i) p) Q s.
Proof using HF Hmax.
  intros V Hi Hle Hp HQ. pose proof (lookup_lt_Some _ _ _ Hi) as Hlt. pose proof (inum_range _ _ _ i V Hlt) as Hr. pose proof (mi_image _ _ _ V) as I.
  pose proof (mi_files _ _ _ V i t c Hi) as M. pose proof (iblock (inum_of i) ltac:(lia)) as [_ Hb].
  destruct (Hle i t (c ++ p)) as (c' & Hc' & Hl); [by rewrite list_lookup_insert_eq|]. pose proof (Hmax i t c' Hc') as Hm.
  assert (lenz (c ++ p) = lenz c + lenz p) as Hlen by (unfold lenz; rewrite length_app; lia).
  pose proof (total_mono _ _ Hle) as Htot. rewrite (mk_total_insert _ _ _ _ _ Hi), Hlen in Htot. pose proof (mi_block _ _ _ V) as Hfb.
  unfold iappend, rinode. apply wp_bind, wp_bind. apply (wp_rsect s C I); [unfold FSSIZE; lia|]. apply wp_ret.
  set (din := get_dinode _ _). pose proof (mf_size _ _ _ _ _ M) as Hsz. change (disk_inode C (inum_of i)) with (inode_of din) in *.
  assert (xint (d_size din) = lenz c) as ->. { change (d_size din) with (i_size (inode_of din)). rewrite Hsz. apply xint_id. unfold lenz in *. file_lia. }
  apply wp_bind. eapply wp_mono; [|apply (wp_iappend_loop (length p) s C din (lenz c) p I); [apply M|apply M|unfold lenz; lia|fold (lenz p); lia|fold (lenz p); lia|done|done]].
  intros [din1 off] s1 (C1 & I1 & N1 & F1 & B1 & E1 & Wr & Hoff & X1 & Z1). cbn [fst snd] in *. fold (lenz p) in F1, B1, Hoff, Z1. subst off.
  rewrite xint_id by (unfold lenz in *; file_lia). apply (wp_winode s1 C1); [done|lia|apply B1|]. intros s2 I2 F2 N2.
  eapply HQ. by eapply (appended_inv s C fs V i t c p Hi s1 C1 din1); try done; lia.
Qed.

Lemma wp_ialloc s C fs type (Q : Z -> mkst -> Prop) : minv s C fs -> 0 <= type < 2 ^ 15 -> fle (fs ++ [(type, [])]) F ->
  (forall s' C', minv s' C' (fs ++ [(type, [])]) -> Q (inum_of (length fs)) s') -> wp (ialloc type) Q s.
Proof using Hn.
  intros V Ht Hle HQ. apply fle_length in Hle. rewrite length_app in Hle. cbn [length] in Hle. pose proof (mi_image _ _ _ V) as I. pose proof (mi_inode _ _ _ V) as Hfi.
  unfold NINODES, inum_of in *. unfold ialloc, next_inode. apply wp_bind, wp_bind, wp_gets, wp_bind, wp_modify, wp_ret. rewrite Hfi, u32_small by lia. set (s1 := mkMkst _ _ _).
  rewrite xshort_id by lia. change (mkDinode type 0 0 (xshort 1) (xint 0) (replicate 13 0)) with (new_dinode type). apply wp_bind.
  apply (wp_winode s1 C); [by destruct I; split|lia|done|]. intros s2 I2 F2 N2. apply wp_ret. eapply HQ.
  apply (new_inv s C fs V type); [unfold short; lia|unfold NINODES; lia|done|done|]. rewrite N2, Hfi. done.
Qed.

Lemma wp_copy_file pieces s C fs i t c (Q : unit -> mkst -> Prop) : minv s C fs -> fs !! i = Some (t, c) ->
  fle (<[i := (t, c ++ concat pieces)]> fs) F -> Forall (Forall is_byte) pieces ->
  (forall s' C', minv s' C' (<[i := (t, c ++ concat pieces)]> fs) -> Q tt s') -> wp (copy_file (inum_of i) pieces) Q s.
Proof using HF Hmax.
  revert s C fs c. induction pieces as [|p pieces IH]; intros s C fs c V Hi Hle Hb HQ; cbn [copy_file concat] in *.
  { rewrite app_nil_r in HQ, Hle. apply wp_ret. eapply (HQ s C). by rewrite list_insert_id. }
  destruct (Forall_cons_1 _ _ _ Hb) as [Hp Hb1]. pose proof (lookup_lt_Some _ _ _ Hi) as Hlt. rewrite app_assoc in HQ, Hle.
  assert (fle (<[i := (t, c ++ p)]> fs) F) as Hle1.
  { etransitivity; [|exact Hle]. rewrite <- (list_insert_insert_eq fs i (t, (c ++ p) ++ concat pieces) (t, c ++ p)). eapply fle_insert; [by apply list_lookup_insert_eq|].
    unfold lenz. rewrite !length_app. lia. }
  apply wp_bind. apply (wp_iappend s C fs i t c); [done|done|done|done|]. intros s1 C1 V1.
  apply (IH s1 C1 (<[i := (t, c ++ p)]> fs) (c ++ p)); [done|by apply list_lookup_insert_eq|by rewrite list_insert_insert_eq|exact Hb1|]. by rewrite list_insert_insert_eq.
Qed.

(** One file of the command line. *)
Lemma wp_add_file host arg name pieces s C root l (Q : unit -> mkst -> Prop) :
  let inum := inum_of (S (length l)) in let e := dirent inum (strncpy_bytes name (Z.to_nat DIRSIZ)) in
  minv s C ((T_DIR, root) :: l) -> shortname arg = Some name -> host arg = Some pieces -> strlen name <= DIRSIZ -> Forall is_byte e -> Forall (Forall is_byte) pieces ->
  fle ((T_DIR, root ++ e) :: l ++ [(T_FILE, concat pieces)]) F ->
  (forall s' C', minv s' C' ((T_DIR, root ++ e) :: l ++ [(T_FILE, concat pieces)]) -> Q tt s') -> wp (add_file host (inum_of 0) arg) Q s.
Proof using HF Hn Hmax.
  intros inum e V Hs Hh Hl He Hp Hle HQ. unfold add_file. rewrite Hs, Hh, (proj2 (Z.leb_le _ _) Hl). cbn [negb].
  set (fs := (T_DIR, root) :: l). set (fs3 := (T_DIR, root ++ e) :: l ++ [(T_FILE, concat pieces)]) in *.
  set (fs2 := (T_DIR, root ++ e) :: l ++ [(T_FILE, [])]).
  assert (fs2 !! length fs = Some (T_FILE, [])) as H2 by (change ((l ++ [(T_FILE, [] : list Z)]) !! length l = Some (T_FILE, [])); by rewrite lookup_app_r, Nat.sub_diag by lia).
  assert (<[length fs := (T_FILE, [] ++ concat pieces)]> fs2 = fs3) as E3.
  { change ((T_DIR, root ++ e) :: <[length l := (T_FILE, concat pieces)]> (l ++ [(T_FILE, [])]) = fs3). unfold fs3. f_equal. rewrite insert_app_r_alt by lia. by rewrite Nat.sub_diag. }
  assert (fle fs2 F) as Hle2 by (etransitivity; [|exact Hle]; rewrite <- E3; eapply fle_insert; [exact H2|unfold lenz; cbn [length]; lia]).
  assert (fle (fs ++ [(T_FILE, [])]) F) as Hle1.
  { etransitivity; [|exact Hle2]. apply (fle_insert (fs ++ [(T_FILE, [])]) 0 T_DIR root (root ++ e)); [done|]. unfold lenz. rewrite length_app. lia. }
  apply wp_bind. apply (wp_ialloc s C fs); [done|unfold T_FILE; lia|done|]. intros s1 C1 V1. change (inum_of (length fs)) with inum. apply wp_bind.
  apply (wp_iappend s1 C1 (fs ++ [(T_FILE, [])]) 0 T_DIR root); [done|done|exact Hle2|done|]. change (<[0%nat := (T_DIR, root ++ e)]> (fs ++ [(T_FILE, [])])) with fs2. intros s2 C2 V2.
  apply (wp_copy_file pieces s2 C2 fs2 (length fs) T_FILE []); [done|done|by rewrite E3|done|]. rewrite E3. done.
Qed.

(** The entries of the root directory for files from inode [inum] on. *)
Fixpoint entries_from (inum : Z) (names : list (list Z)) : list Z :=
  match names with
  | [] => []
  | name :: r => dirent inum (strncpy_bytes name (Z.to_nat DIRSIZ)) ++ entries_from (inum + 1) r
  end.
(** A file of the command line: its name in the image and the pieces read. *)
Definition arg_file (host : list Z -> option (list (list Z))) (arg : list Z) : option (list Z * list (list Z)) :=
  name ← shortname arg; pieces ← host arg; if strlen name <=? DIRSIZ then Some (name, pieces) else None.
Definition files_of (l : list (list Z * list (list Z))) : list (Z * list Z) := (fun f => (T_FILE, concat f.2)) <$> l.
Definition good_arg (f : list Z * list (list Z)) : Prop := Forall is_byte f.1 /\ Forall (Forall is_byte) f.2.

Lemma dirent_bytes inum name : Forall is_byte name -> Forall is_byte (dirent inum (strncpy_bytes name (Z.to_nat DIRSIZ))).
Proof using. intros Hb. exact (proj1 (new_entry_bytes name (xshort inum) Hb)). Qed.

Lemma fle_prefix t r r' l l' : lenz r <= lenz r' -> fle ((t, r) :: l) ((t, r') :: l ++ l').
Proof using.
  intros Hr [|i] ti ci Hi; [injection Hi as <- <-; by exists r'|]. exists ci. split; [|done]. change ((l ++ l') !! i = Some (ti, ci)).
  by apply lookup_app_l_Some.
Qed.

Lemma wp_add_files host args l s C root l0 (Q : unit -> mkst -> Prop) :
  let root' := root ++ entries_from (inum_of (S (length l0))) (l.*1) in
  minv s C ((T_DIR, root) :: l0) -> mapM (arg_file host) args = Some l -> Forall good_arg l ->
  fle ((T_DIR, root') :: l0 ++ files_of l) F ->
  (forall s' C', minv s' C' ((T_DIR, root') :: l0 ++ files_of l) -> Q tt s') -> wp (add_files host (inum_of 0) args) Q s.
Proof using HF Hn Hmax.
  revert l s C root l0. induction args as [|arg args IH]; intros l s C root l0 root' V Hm Hg Hle HQ; cbn [mapM] in Hm.
  { injection Hm as <-. apply wp_ret. unfold root' in HQ. cbn in HQ. rewrite !app_nil_r in HQ. by eapply HQ. }
  apply bind_Some in Hm as ([name pieces] & Ha & Hm). apply bind_Some in Hm as (l' & Hm & [= <-]).
  unfold arg_file in Ha. apply bind_Some in Ha as (name' & Hs & Ha). apply bind_Some in Ha as (pieces' & Hh & Ha).
  destruct (Z.leb_spec (strlen name') DIRSIZ) as [Hl|]; [|done]. injection Ha as -> ->.
  destruct (Forall_cons_1 _ _ _ Hg) as [[Hb1 Hb2] Hg']. cbn [fst snd] in *. set (e := dirent (inum_of (S (length l0))) (strncpy_bytes name (Z.to_nat DIRSIZ))).
  assert (root' = (root ++ e) ++ entries_from (inum_of (S (length (l0 ++ [(T_FILE, concat pieces)])))) (l'.*1)) as Er.
  { unfold root'. rewrite fmap_cons. cbn [entries_from fst]. fold e. rewrite app_assoc.
    replace (inum_of (S (length (l0 ++ [(T_FILE, concat pieces)])))) with (inum_of (S (length l0)) + 1); [done|]. rewrite length_app. cbn [length]. unfold inum_of. lia. }
  assert (l0 ++ files_of ((name, pieces) :: l') = (l0 ++ [(T_FILE, concat pieces)]) ++ files_of l') as El by (by rewrite <- app_assoc).
  rewrite El, Er in Hle, HQ. cbn [add_files]. apply wp_bind. apply (wp_add_file host arg name pieces s C root l0); [done|done|done|done|by apply dirent_bytes|done| |].
  - etransitivity; [|exact Hle]. apply fle_prefix. unfold lenz. fold e. rewrite (length_app (root ++ e)). lia.
  - intros s1 C1 V1. by apply (IH l' s1 C1 (root ++ e) (l0 ++ [(T_FILE, concat pieces)])).
Qed.
End run.

(** ** The start *)

Lemma get16_zero off : get16 zero_block off = 0.
Proof.
  unfold get16, zero_block. rewrite drop_replicate. generalize (Z.to_nat BSIZE - Z.to_nat off)%nat. intros [|[|n]]; done.
Qed.
Definition start_C : Z -> list Z := <[1 := splice 0 (sb_bytes sb) zero_block]> (fun _ => zero_block).

Lemma sb_block : bytes_ok BSIZE (splice 0 (sb_bytes sb) zero_block) /\ sb_of (splice 0 (sb_bytes sb) zero_block) = sb.
Proof. split; [apply bytes_check; vm_compute; reflexivity|vm_compute; reflexivity]. Qed.

Lemma start_inv s : image s start_C -> freeblock s = nmeta -> freeinode s = 1 -> minv s start_C [].
Proof.
  intros I Hb Hi. split; [done|done|vm_compute; done|rewrite Hb; by rewrite Z.add_0_r|done|cbn; lia| |].
  - intros y Hy. unfold start_C. case_decide; [subst; by rewrite fn_lookup_insert|by rewrite fn_lookup_insert_ne].
  - intros inum Hn. change (inum_of (length [])) with 1 in Hn. pose proof (iblock inum ltac:(lia)). unfold disk_inode, start_C. rewrite fn_lookup_insert_ne by lia.
    cbn [load_dinode i_type]. by rewrite get16_zero.
Qed.

(** The image is zeroed, then the superblock is written. *)
Lemma wp_start s (Q : unit -> mkst -> Prop) : (forall s', image s' start_C -> freeblock s' = nmeta -> freeinode s' = freeinode s -> Q tt s') ->
  wp (modify (fun s => mkMkst (img s) (freeinode s) nmeta) ;;; for_range (Z.to_nat FSSIZE) 0 (fun i => wsect i zero_block) ;;;
      wsect 1 (splice 0 (sb_bytes sb) zero_block)) Q s.
Proof.
  intros HQ. apply wp_bind, wp_modify. set (s0 := mkMkst _ _ _). apply wp_bind.
  destruct (for_range_inv (fun j s => (forall y, 0 <= y < j -> img s !! y = Some zero_block) /\ freeblock s = nmeta /\ freeinode s = freeinode s0)
    (Z.to_nat FSSIZE) 0 (fun i => wsect i zero_block) s0) as (s1 & H1 & Hz & Hb & Hi).
  - intros j s1 Hj (Hz & Hb & Hi). eexists. split; [reflexivity|]. cbn. split; [|done]. intros y Hy. destruct (decide (y = j)) as [->|]; [by rewrite lookup_insert_eq|].
    rewrite lookup_insert_ne by done. apply Hz. lia.
  - split; [lia|done].
  - eapply wp_run; [exact H1|]. assert (image s1 (fun _ => zero_block)) as I1.
    { split; [intros y Hy; apply Hz; lia|intros y; by apply bytes_zero|done|by rewrite Hb]. }
    apply (wp_wsect s1 _ I1); [rewrite Hb; vm_compute; reflexivity|apply sb_block|]. intros s2 I2 F2 N2. apply HQ; [exact I2|congruence|by rewrite N2, Hi].
Qed.

(** ** The free map *)

Lemma bitmap_bits n : Z.of_nat n <= BPB -> let d := foldl (fun buf i => set_byte i (Z.lor (bit_byte buf i) (bit_mask i)) buf) zero_block (seqZ 0 (Z.of_nat n)) in
  bytes_ok BSIZE d /\ forall b, 0 <= b < BPB -> bit_at d b = (b <? Z.of_nat n).
Proof.
  induction n as [|n IH]; intros Hn; cbv zeta.
  - split; [by apply bytes_zero|]. intros b Hb. rewrite (proj2 (Z.ltb_ge _ _)) by lia. change (seqZ 0 (Z.of_nat 0)) with (@nil Z). cbn [foldl]. unfold bit_at, bit_byte.
    rewrite nth_lookup. destruct (zero_block !! Z.to_nat (b / 8)) eqn:E; [|apply Z.testbit_0_l]. apply lookup_replicate in E as [-> _]. apply Z.testbit_0_l.
  - replace (Z.of_nat (S n)) with (Z.of_nat n + 1) by lia. rewrite seqZ_app, foldl_app by lia.
    replace (seqZ (0 + Z.of_nat n) 1) with [Z.of_nat n] by (rewrite seqZ_cons, seqZ_nil by lia; f_equal; lia). destruct (IH ltac:(lia)) as [Hd Hbit].
    set (d := foldl _ _ (seqZ 0 (Z.of_nat n))) in *. cbn [foldl].
    change (set_byte (Z.of_nat n) _ d) with (set_bit (Z.of_nat n) d). split; [by apply bytes_set_bit|]. intros b Hb. rewrite bit_at_set by (done || lia). rewrite Hbit by done.
    destruct (Z.ltb_spec b (Z.of_nat n)), (Z.ltb_spec b (Z.of_nat n + 1)); cbn [orb]; [done|lia|apply bool_decide_true; lia|apply bool_decide_false; lia].
Qed.

Lemma wp_balloc_map s C (Q : unit -> mkst -> Prop) : image s C -> freeblock s <= FSSIZE ->
  (forall s' d, image s' (<[45 := d]> C) -> freeblock s' = freeblock s -> (forall b, 0 <= b < BPB -> bit_at d b = (b <? freeblock s)) -> Q tt s') ->
  wp (balloc (freeblock s)) Q s.
Proof.
  intros I Hf HQ. pose proof (im_free _ _ I) as Hm. rewrite (proj1 layout) in Hm. destruct (bitmap_bits (Z.to_nat (freeblock s))) as [Hd Hb]; [unfold FSSIZE, BPB, BSIZE in *; lia|].
  rewrite Z2Nat.id in Hd, Hb by lia. unfold balloc. rewrite (proj2 (Z.ltb_lt _ _)) by (unfold FSSIZE, BPB, BSIZE in *; lia). cbn [negb].
  change (sb_bmapstart sb) with 45. apply (wp_wsect s C I); [lia|done|]. intros s' I' F' N'. by eapply HQ.
Qed.

(** ** The image *)

Definition root_data (l : list (list Z * list (list Z))) : list Z :=
  dirent ROOTINO (46 :: replicate 13 0) ++ dirent ROOTINO (46 :: 46 :: replicate 12 0) ++ entries_from 2 (l.*1).
Definition final_files (l : list (list Z * list (list Z))) : list (Z * list Z) := (T_DIR, root_data l) :: files_of l.

(** What the kernel finds on the image [C] with files [l], whose first free block is [fb]. *)
Record mkfs_ok (C : Z -> list Z) (fb : Z) (l : list (list Z * list (list Z))) : Prop := {
  mk_sb : sb_of (C 1) = sb;
  (** the log is empty *)
  mk_log : forall y, 2 <= y < 32 -> C y = zero_block;
  mk_map : nmeta <= fb <= FSSIZE /\ forall b, 0 <= b < FSSIZE -> used C sb b = (b <? fb);
  (** the root directory: the entries, then empty ones to the end of the block; when the
      entries fill the last block, the size counts a block that is not there *)
  mk_root : let x := disk_inode C ROOTINO in
    i_type x = T_DIR /\ i_nlink x = 1 /\ inode_wf C sb x /\ i_size x = (lenz (root_data l) / BSIZE + 1) * BSIZE /\
    fbytes C x 0 (lenz (root_data l)) = root_data l /\ zero_tail C x (lenz (root_data l)) /\
    if lenz (root_data l) mod BSIZE =? 0 then faddr C x (lenz (root_data l) / BSIZE) = 0 else dir_ok C x;
  mk_files : forall i name pieces, l !! i = Some (name, pieces) -> let x := disk_inode C (Z.of_nat i + 2) in
    i_type x = T_FILE /\ i_nlink x = 1 /\ inode_wf C sb x /\ file_ok C x /\ fbytes C x 0 (i_size x) = concat pieces;
  mk_disj : forall i j y, 1 <= i <= 1 + Z.of_nat (length l) -> 1 <= j <= 1 + Z.of_nat (length l) -> i <> j ->
    owns C (disk_inode C i) y -> owns C (disk_inode C j) y -> False;
  mk_unused : forall inum, 2 + Z.of_nat (length l) <= inum < NINODES -> i_type (disk_inode C inum) = 0
}.

Lemma built_wf C fb x q : built C fb x q -> i_dev x = ROOTDEV -> fb <= FSSIZE -> (forall b, 0 <= b < FSSIZE -> used C sb b = (b <? fb)) -> inode_wf C sb x.
Proof.
  intros B Hdev Hfb Hu. split; [apply B|done| |apply B]. intros y [Hn (k & Hk & <-)]. pose proof (bu_range _ _ _ _ B k Hk Hn) as Hr. rewrite (proj1 layout) in Hr.
  change (FsAlloc.nmeta sb) with 46. change (sb_size sb) with FSSIZE. split; [lia|]. rewrite Hu by lia. apply Z.ltb_lt. lia.
Qed.

Lemma entries_length inum names : length (entries_from inum names) = (16 * length names)%nat.
Proof.
  revert inum. induction names as [|n r IH]; intros inum; [done|]. cbn [entries_from length]. unfold dirent.
  rewrite !length_app, IH, le_bytes_length, strncpy_bytes_length. change (Z.to_nat DIRSIZ) with 14%nat. lia.
Qed.
Lemma root_length l : lenz (root_data l) = 16 * (2 + Z.of_nat (length l)).
Proof. unfold lenz, root_data, dirent. rewrite !length_app, entries_length, !le_bytes_length, length_fmap. cbn [length]. rewrite !length_replicate. lia. Qed.

Section finish.
Context (s1 : mkst) (C1 : Z -> list Z) (l : list (list Z * list (list Z))) (V : minv s1 C1 (final_files l)) (Hfb : freeblock s1 <= FSSIZE).
Context (d : list Z) (Hd : forall b, 0 <= b < BPB -> bit_at d b = (b <? freeblock s1)).
Let root := root_data l.
Let size := (lenz root / BSIZE + 1) * BSIZE.
Let din := get_dinode (dinode_off ROOTINO) (C1 (IBLOCK ROOTINO sb)).
Let C2 := <[IBLOCK ROOTINO sb := put_dinode (dinode_off ROOTINO) (set_dsize size din) (C1 (IBLOCK ROOTINO sb))]> C1.
Let C3 := <[45 := d]> C2.

Lemma root_file : mfile C1 (freeblock s1) (inum_of 0) T_DIR root.
Proof using V. by apply (mi_files _ _ _ V 0). Qed.
Lemma fin_high y : 46 <= y -> C3 y = C1 y.
Proof using V. intros Hy. unfold C3. rewrite fn_lookup_insert_ne by lia. apply store_high; [unfold ROOTINO; lia|apply root_file|lia]. Qed.
Lemma fin_inode inum : 0 <= inum < 208 -> disk_inode C3 inum = disk_inode C2 inum.
Proof using. intros Hi. pose proof (iblock inum Hi). unfold disk_inode, C3. by rewrite fn_lookup_insert_ne by lia. Qed.
Lemma mk_fin_other inum : 2 <= inum < 208 -> disk_inode C3 inum = disk_inode C1 inum.
Proof using V.
  intros Hi. rewrite fin_inode by lia. apply disk_inode_other; [apply (mi_image _ _ _ V)|unfold ROOTINO; lia|apply root_file|lia|unfold ROOTINO; lia].
Qed.
Lemma fin_root : disk_inode C3 ROOTINO = set_isize size (disk_inode C1 ROOTINO).
Proof using V Hfb.
  rewrite fin_inode by (unfold ROOTINO; lia). pose proof root_file as M. change (inum_of 0) with ROOTINO in M. destruct (mf_type _ _ _ _ _ M) as [M1 M1'].
  destruct (mf_rest _ _ _ _ _ M) as (M2 & M3 & M4). pose proof (mf_max _ _ _ _ _ M) as M5. change (disk_inode C1 ROOTINO) with (inode_of din) in *.
  apply disk_inode_same; [apply (mi_image _ _ _ V)|apply M|].
  change (d_type din = T_DIR) in M1. change (d_major din = 0) in M2. change (d_minor din = 0) in M3. change (d_nlink din = 1) in M4.
  split; cbn [inode_of set_dsize i_type i_major i_minor i_nlink i_size i_addrs d_type d_major d_minor d_nlink d_size d_addrs]; rewrite ?M1, ?M2, ?M3, ?M4; unfold short; try lia.
  - unfold T_DIR. lia.
  - unfold size. assert (0 <= lenz root / BSIZE <= MAXFILE) by (unfold lenz in *; split; [apply Z.div_pos; [lia|done]|]; apply Z.div_le_upper_bound; [done|lia]). file_lia.
  - apply M.
  - by eapply (built_addrs C1 _ (inode_of din)), Hfb; apply M.
Qed.
Lemma fin_used b : 0 <= b < FSSIZE -> used C3 sb b = (b <? freeblock s1).
Proof using Hd.
  intros Hb. unfold used. assert (BBLOCK b sb = 45) as ->.
  { unfold BBLOCK. change (sb_bmapstart sb) with 45. rewrite Z.div_small by (unfold BPB, BSIZE, FSSIZE in *; lia). done. }
  unfold C3. rewrite fn_lookup_insert, Z.mod_small by (unfold BPB, BSIZE, FSSIZE in *; lia). apply Hd. unfold BPB, BSIZE, FSSIZE in *. lia.
Qed.

(** The blocks of a file are as before the last two writes. *)
Lemma fin_same i y : (i < length (final_files l))%nat -> owns C1 (disk_inode C1 (inum_of i)) y -> C3 y = C1 y.
Proof using V.
  intros Hi [Hn (k & Hk & E)]. destruct (lookup_lt_is_Some_2 _ _ Hi) as [[t c] Ei]. rewrite <- E in Hn.
  pose proof (bu_range _ _ _ _ (mf_built _ _ _ _ _ (mi_files _ _ _ V i t c Ei)) k Hk Hn) as Hr. rewrite (proj1 layout) in Hr. apply fin_high. lia.
Qed.

Lemma fin_file i name pieces : l !! i = Some (name, pieces) -> mfile C3 (freeblock s1) (Z.of_nat i + 2) T_FILE (concat pieces).
Proof using V.
  intros Hi. assert (final_files l !! S i = Some (T_FILE, concat pieces)) as Hf by (change (files_of l !! i = Some (T_FILE, concat pieces)); unfold files_of; by rewrite list_lookup_fmap, Hi).
  pose proof (mi_files _ _ _ V _ _ _ Hf) as M. pose proof (inum_range _ _ _ _ V (lookup_lt_Some _ _ _ Hf)) as Hr. replace (inum_of (S i)) with (Z.of_nat i + 2) in * by (unfold inum_of; lia).
  eapply mfile_frame; [exact M|done|apply mk_fin_other; lia|]. intros y Ho. apply (fin_same (S i)); [by eapply lookup_lt_Some|]. by replace (inum_of (S i)) with (Z.of_nat i + 2) by (unfold inum_of; lia).
Qed.

Lemma mk_fin_owns inum y : 1 <= inum <= 1 + Z.of_nat (length l) -> owns C3 (disk_inode C3 inum) y -> owns C1 (disk_inode C1 inum) y.
Proof using V Hfb.
  intros Hi Ho. assert (length (final_files l) = S (length l)) as Hl by (unfold final_files, files_of; cbn [length]; by rewrite length_fmap).
  assert (owns C3 (disk_inode C1 inum) y) as Ho1.
  { destruct (Z.eq_dec inum 1) as [->|]; [change 1 with ROOTINO in Ho; rewrite fin_root in Ho; exact Ho|]. rewrite mk_fin_other in Ho; [done|].
    pose proof (mi_count _ _ _ V) as Hc. rewrite Hl in Hc. unfold NINODES in Hc. lia. }
  apply (frame_owns C1 C3) in Ho1; [done|]. intros z Hz. apply (fin_same (Z.to_nat (inum - 1))); [lia|]. by replace (inum_of (Z.to_nat (inum - 1))) with inum by (unfold inum_of; lia).
Qed.

Lemma fin_built : built C3 (freeblock s1) (disk_inode C3 ROOTINO) (qblocks (lenz root)).
Proof using V Hfb.
  rewrite fin_root. pose proof (frame_built C1 C3 _ _ _ _ (mf_built _ _ _ _ _ root_file) (Z.le_refl _) (fun y => fin_same 0 y ltac:(cbn; lia))) as B. destruct B. by split.
Qed.

Lemma fin_root_ok : let x := disk_inode C3 ROOTINO in
  i_type x = T_DIR /\ i_nlink x = 1 /\ i_size x = size /\ fbytes C3 x 0 (lenz root) = root /\ zero_tail C3 x (lenz root) /\
  if lenz root mod BSIZE =? 0 then faddr C3 x (lenz root / BSIZE) = 0 else dir_ok C3 x.
Proof using V Hfb.
  intros x. pose proof root_file as M. pose proof (mf_max _ _ _ _ _ M) as Hmax. assert (0 <= lenz root) as H0 by (unfold lenz; lia).
  pose proof (mfile_frame C1 C3 (freeblock s1) (freeblock s1) (inum_of 0) T_DIR root M (Z.le_refl _)) as M3. pose proof fin_root as Ex. fold x in Ex.
  destruct (qblocks_cover (lenz root) H0) as [Hq Hq']. pose proof (qblocks_max _ Hmax) as Hqm. pose proof (mf_built _ _ _ _ _ M) as B.
  pose proof (fun y => fin_same 0 y ltac:(cbn; lia)) as Hs. pose proof fin_built as Bx. fold x in Bx.
  split; [rewrite Ex; apply M|]. split; [rewrite Ex; apply M|]. split; [by rewrite Ex|].
  split; [rewrite Ex; transitivity (fbytes C3 (disk_inode C1 (inum_of 0)) 0 (lenz root)); [done|rewrite (frame_bytes C1 C3 _ _ _ B Hs) by done; apply M]|].
  split. { intros o Ho. rewrite Ex. transitivity (fbyte C3 (disk_inode C1 (inum_of 0)) o); [done|]. rewrite (frame_fbyte C1 C3 _ _ _ B Hs) by (unfold BSIZE in *; lia). by apply (mf_tail _ _ _ _ _ M). }
  pose proof (Z.div_mod (lenz root) BSIZE ltac:(done)) as Hdm. pose proof (Z.mod_pos_bound (lenz root) BSIZE ltac:(done)) as Hmb.
  assert (0 <= lenz root / BSIZE) by (apply Z.div_pos; [lia|done]).
  destruct (Z.eqb_spec (lenz root mod BSIZE) 0) as [E|E].
  - assert (qblocks (lenz root) = lenz root / BSIZE) as Eq by (unfold qblocks; symmetry; apply (Z.div_unique_pos _ _ _ (BSIZE - 1)); lia).
    assert (lenz root / BSIZE < MAXFILE) as Hsmall.
    { pose proof (mi_count _ _ _ V) as Hc. unfold final_files, files_of in Hc. cbn [length] in Hc. rewrite length_fmap in Hc. unfold NINODES in Hc.
      pose proof (root_length l) as Hl. fold root in Hl. apply Z.div_lt_upper_bound; [done|]. file_lia. }
    rewrite <- slot_data by lia. destruct (Z.eq_dec (slot C3 x (lenz root / BSIZE)) 0) as [|Hn]; [done|]. apply (bu_data _ _ _ _ Bx) in Hn; lia.
  - assert (qblocks (lenz root) = lenz root / BSIZE + 1) as Eq by (unfold qblocks; symmetry; apply (Z.div_unique_pos _ _ _ (lenz root mod BSIZE - 1)); lia).
    assert (i_size x = qblocks (lenz root) * BSIZE) as Ez by (rewrite Ex, Eq; done).
    split; [|rewrite Ex; apply M|rewrite Ez; replace (qblocks (lenz root) * BSIZE) with (qblocks (lenz root) * 64 * sizeof_dirent) by (unfold BSIZE, sizeof_dirent; lia); by apply Z_mod_mult].
    split; [by rewrite Ex|rewrite Ez; unfold BSIZE in *; lia|]. intros bn Hbn Hlt. rewrite Ez in Hlt. rewrite <- slot_data by (unfold BSIZE in *; lia).
    apply (bu_data _ _ _ _ Bx); unfold BSIZE in *; lia.
Qed.

Lemma fin_ok : mkfs_ok C3 (freeblock s1) l.
Proof using All.
  assert (length (final_files l) = S (length l)) as Hl by (unfold final_files, files_of; cbn [length]; by rewrite length_fmap).
  pose proof (mi_count _ _ _ V) as Hc. rewrite Hl in Hc. unfold NINODES in Hc. pose proof (im_free _ _ (mi_image _ _ _ V)) as Hf. pose proof (iblock ROOTINO ltac:(unfold ROOTINO; lia)) as [_ Hib].
  assert (forall y, y < 32 -> C3 y = C1 y) as Hlow by (intros y Hy; unfold C3, C2; by rewrite !fn_lookup_insert_ne by lia).
  destruct fin_root_ok as (R1 & R2 & R3 & R4 & R5 & R6). split.
  - rewrite Hlow, (mi_front _ _ _ V) by lia. apply sb_block.
  - intros y Hy. rewrite Hlow, (mi_front _ _ _ V), decide_False by lia. done.
  - split; [lia|]. by apply fin_used.
  - split; [exact R1|]. split; [exact R2|]. split; [|exact (conj R3 (conj R4 (conj R5 R6)))]. eapply built_wf; [apply fin_built|by rewrite fin_root|done|by apply fin_used].
  - intros i name pieces Hi x. pose proof (fin_file i name pieces Hi) as M. destruct (mf_type _ _ _ _ _ M) as [M1 _]. destruct (mf_rest _ _ _ _ _ M) as (_ & _ & M2).
    split; [done|]. split; [done|]. split; [eapply built_wf; [apply M|done|done|by apply fin_used]|]. split; [by eapply mfile_ok|].
    unfold x. rewrite (mf_size _ _ _ _ _ M). apply M.
  - intros i j y Hi Hj Hne Hoi%mk_fin_owns Hoj%mk_fin_owns; [|done|done]. apply (mi_disj _ _ _ V (Z.to_nat (i - 1)) (Z.to_nat (j - 1)) y); [lia|lia|lia|..].
    + by replace (inum_of (Z.to_nat (i - 1))) with i by (unfold inum_of; lia).
    + by replace (inum_of (Z.to_nat (j - 1))) with j by (unfold inum_of; lia).
  - intros inum Hi. unfold NINODES in Hi. rewrite mk_fin_other by lia. apply (mi_inodes _ _ _ V). rewrite Hl. unfold inum_of. lia.
Qed.
End finish.

Lemma wp_seq3 {S A} (m1 m2 m3 : M S unit) (K : M S A) (Q : A -> S -> Prop) s :
  wp (m1 ;;; m2 ;;; m3) (fun _ s' => wp K Q s') s -> wp (m1 ;;; m2 ;;; m3 ;;; K) Q s.
Proof.
  unfold wp, bind. destruct (m1 s) as [[] s1| | |]; [|done..]. destruct (m2 s1) as [[] s2| | |]; [|done..]. by destruct (m3 s2) as [[] s3| | |].
Qed.

(** The files fit on the disk. *)
Definition fits (l : list (list Z * list (list Z))) : Prop :=
  nmeta + total (final_files l) <= FSSIZE /\ 1 + Z.of_nat (length l) <= NINODES /\ Forall (fun f => lenz (concat f.2) <= MAXFILE * BSIZE) l.

Lemma wp_main host args l s : mapM (arg_file host) args = Some l -> Forall good_arg l -> fits l -> freeinode s = 1 ->
  wp (main host args) (fun _ s' => exists C, (forall y, 0 <= y < FSSIZE -> img s' !! y = Some (C y)) /\
    freeblock s' = nmeta + total (final_files l) /\ mkfs_ok C (freeblock s') l) s.
Proof.
  intros Hm Hg (HF & Hn & Hmax) Hs. set (F := final_files l) in *. assert (length F = S (length l)) as HlF by (unfold F, final_files, files_of; cbn [length]; by rewrite length_fmap).
  assert (Z.of_nat (length F) <= NINODES) as HnF by lia.
  assert (forall i t c, F !! i = Some (t, c) -> lenz c <= MAXFILE * BSIZE) as HmF.
  { intros [|i] t c Hi; [injection Hi as <- <-; rewrite root_length; unfold NINODES in *; file_lia|]. change (files_of l !! i = Some (t, c)) in Hi. unfold files_of in Hi.
    rewrite list_lookup_fmap in Hi. destruct (l !! i) as [f|] eqn:E; [|done]. injection Hi as <- <-. by eapply (Forall_lookup_1 _ _ _ _ Hmax) in E. }
  set (e1 := dirent ROOTINO (46 :: replicate 13 0)). set (e2 := dirent ROOTINO (46 :: 46 :: replicate 12 0)).
  assert (forall e, (lenz e <= lenz (root_data l)) -> fle [(T_DIR, e)] F) as Hle by (intros e He; by apply (fle_prefix T_DIR e (root_data l) [] (files_of l))).
  assert (root_data l = (e1 ++ e2) ++ entries_from 2 (l.*1)) as Er by (by rewrite <- app_assoc). pose proof (root_length l) as Hrl.
  unfold main. apply wp_seq3, wp_start. intros s1 I1 F1 N1. rewrite Hs in N1. pose proof (start_inv s1 I1 F1 N1) as V1. apply wp_bind.
  apply (wp_ialloc F HnF s1 start_C [] T_DIR); [done|unfold T_DIR; lia|apply Hle; unfold lenz in *; cbn [length]; lia|]. intros s2 C2 V2. change (inum_of (length [])) with ROOTINO.
  rewrite Z.eqb_refl. cbn [negb]. apply wp_bind. fold e1 e2.
  apply (wp_iappend F HF HmF s2 C2 [(T_DIR, [])] 0 T_DIR []); [done|done|apply Hle; unfold lenz in *; cbn; lia|by repeat constructor|]. intros s3 C3 V3. apply wp_bind.
  apply (wp_iappend F HF HmF s3 C3 [(T_DIR, e1)] 0 T_DIR e1); [done|done|apply Hle; unfold lenz in *; cbn; lia|by repeat constructor|]. intros s4 C4 V4. apply wp_bind.
  apply (wp_add_files F HF HnF HmF host args l s4 C4 (e1 ++ e2) []); [done|done|done|cbn [app length]; change (inum_of 1) with 2; by rewrite <- Er|].
  cbn [app length]. change (inum_of 1) with 2. rewrite <- Er. intros s5 C5 V5. change ((T_DIR, root_data l) :: files_of l) with (final_files l) in V5.
  pose proof (mi_image _ _ _ V5) as I5. pose proof (mi_block _ _ _ V5) as Hb5. fold F in Hb5. pose proof (iblock ROOTINO ltac:(unfold ROOTINO; lia)) as [_ Hib].
  apply wp_bind. unfold rinode. apply wp_bind. apply (wp_rsect s5 C5 I5); [unfold FSSIZE; lia|]. apply wp_ret. set (din := get_dinode _ _).
  pose proof (mi_files _ _ _ V5 0 T_DIR (root_data l) eq_refl) as M. assert (d_size din = lenz (root_data l)) as Hsz by (apply M).
  assert (xint (d_size din) = lenz (root_data l)) as -> by (rewrite Hsz; apply xint_id; rewrite Hrl; unfold NINODES in *; lia).
  assert (0 <= lenz (root_data l) / BSIZE <= 4) as Hq by (rewrite Hrl; unfold NINODES in *; split; [apply Z.div_pos; [lia|done]|apply Z.div_le_upper_bound; [done|unfold BSIZE; lia]]).
  rewrite xint_id by (unfold BSIZE in *; lia). apply wp_bind. apply (wp_winode s5 C5); [done|unfold ROOTINO; lia|apply M|]. intros s6 I6 F6 _.
  apply wp_bind, wp_gets. apply (wp_balloc_map s6 _ _ I6); [lia|]. intros s7 d I7 F7 Hd. rewrite F6 in *. eexists. split; [apply I7|]. split; [congruence|]. rewrite F7.
  apply (fin_ok s5 C5 l V5); [lia|done].
Qed.

(** C14: mkfs, on a host where the files named on the command line can be opened, have
    allowed names, and fit on the disk: it ends, and the image is one the kernel can
    start from.  The superblock is the one of the layout, the log is empty, the free
    map marks exactly the blocks below the first free one; the root directory has the
    entries [.], [..] and one for each file, in order; each file has its contents,
    whatever the pieces in which they were read; its blocks are data blocks marked in
    use, distinct, and in no other file.  When the entries of the root directory fill
    its last block, however, its size counts one more block, which is not there. *)
Theorem mkfs_builds_image (host : list Z -> option (list (list Z))) (args : list (list Z)) (l : list (list Z * list (list Z))) :
  mapM (arg_file host) args = Some l -> Forall good_arg l -> fits l ->
  exists s C, mkfs host args = Ok tt s /\ (forall y, 0 <= y < FSSIZE -> img s !! y = Some (C y)) /\
    freeblock s = nmeta + total (final_files l) /\ mkfs_ok C (freeblock s) l.
Proof.
  intros Hm Hg Hf. destruct (wp_Ok _ _ _ (wp_main host args l (mkMkst ∅ 1 0) Hm Hg Hf eq_refl)) as ([] & s & Hr & C & H). exists s, C. exact (conj Hr H).
Qed.

(** ** Example: one file, [user/_a], read in two pieces *)

Definition ex_arg : list Z := [117; 115; 101; 114; 47; 95; 97].
Definition ex_host (arg : list Z) : option (list (list Z)) := if bool_decide (arg = ex_arg) then Some [[1; 2; 3]; [4]] else None.

Lemma mkfs_builds_image_witness : exists s C, mkfs ex_host [ex_arg] = Ok tt s /\ freeblock s = 48 /\
  fbytes C (disk_inode C 2) 0 (i_size (disk_inode C 2)) = [1; 2; 3; 4] /\ dir_ok C (disk_inode C ROOTINO).
Proof.
  destruct (mkfs_builds_image ex_host [ex_arg] [([97], [[1; 2; 3]; [4]])]) as (s & C & Hr & _ & Hb & Hok).
  - vm_compute. reflexivity.
  - repeat constructor; cbn; lia.
  - split; [vm_compute; intros [=]|]. split; [vm_compute; intros [=]|]. constructor; [vm_compute; intros [=]|constructor].
  - exists s, C. split; [exact Hr|]. split; [rewrite Hb; vm_compute; reflexivity|]. split.
    + destruct (mk_files _ _ _ Hok 0 [97] [[1; 2; 3]; [4]] eq_refl) as (_ & _ & _ & _ & H). exact H.
    + destruct (mk_root _ _ _ Hok) as (_ & _ & _ & _ & _ & _ & H). exact H.
Defined.
