(* ===== verification/Umalloc.v ===== *)
(** * The user-level allocator: [user/umalloc.c]

    The circular list of free blocks, sorted by address, with [base] as its lowest
    node.  Memory is the headers by address; a block of [n] units is [n] headers
    long, its own included.  The theorem follows any sequence of [malloc] and
    [free]: the blocks handed out never overlap each other, the free list or the
    end of the heap. *)

From stdpp Require Import base gmap strings functions list.
From S2P Require Import Prelude.

(** ** The code *)

(** [union header] *)
Record header := mkHeader { h_ptr : Z; h_size : Z }.
Definition sizeof_Header : Z := 16.

(** The headers in memory, [freep], and the break of the process with the
    largest the kernel grants. *)
Record um := mkUm { hd : Z -> header; freep : Z; ubrk : Z; ulim : Z }.
Definition set_hd f s := mkUm f (freep s) (ubrk s) (ulim s).
Definition set_freep p s := mkUm (hd s) p (ubrk s) (ulim s).
Definition set_brk b s := mkUm (hd s) (freep s) b (ulim s).
Definition ptr_of (p : Z) : M um Z := gets (fun s => h_ptr (hd s p)).
Definition size_of (p : Z) : M um Z := gets (fun s => h_size (hd s p)).
Definition put_ptr (p v : Z) : M um unit := modify (fun s => set_hd (<[p := mkHeader v (h_size (hd s p))]> (hd s)) s).
Definition put_size (p v : Z) : M um unit := modify (fun s => set_hd (<[p := mkHeader (h_ptr (hd s p)) (u32 v)]> (hd s)) s).

(** The system call: [sys_sbrk] takes an [int]; growing fails when the kernel has
    no more memory, shrinking below 0 wraps around and leaves the size as it is. *)
Definition sbrk (n : Z) : M um Z :=
  let n := s32 n in
  do old <- gets ubrk;
  do lim <- gets ulim;
  if n >? 0 then
    if old + n >? lim then return (-1) else modify (set_brk (old + n)) ;;; return old
  else if n <? 0 then
    let new := u64 (old + n) in
    (if new >=? old then return tt else modify (set_brk new)) ;;; return old
  else return old.

Section code.
(** The address of [base]. *)
Context (base_a : Z).

(** The loop of [free]: the node after which the block belongs. *)
Fixpoint free_find (fuel : nat) (bp p : Z) : M um Z :=
  match fuel with
  | O => fun _ => Diverge
  | S f =>
      do nx <- ptr_of p;
      if (bp >? p) && (bp <? nx) then return p
      else if (p >=? nx) && ((bp >? p) || (bp <? nx)) then return p
      else free_find f bp nx
  end.
(** [free] joins the block to the block above it, then to the one below. *)
Definition join_upper (bp p : Z) : M um unit :=
  do nx <- ptr_of p;
  do bs <- size_of bp;
  if bp + sizeof_Header * bs =? nx then
    do ns <- size_of nx;
    put_size bp (bs + ns) ;;;
    do nn <- ptr_of nx;
    put_ptr bp nn
  else put_ptr bp nx.
Definition join_lower (bp p : Z) : M um unit :=
  do ps <- size_of p;
  if p + sizeof_Header * ps =? bp then
    do bs <- size_of bp;
    put_size p (ps + bs) ;;;
    do bn <- ptr_of bp;
    put_ptr p bn
  else put_ptr p bp.
Definition free (fuel : nat) (ap : Z) : M um unit :=
  let bp := ap - sizeof_Header in
  do fp <- gets freep;
  do p <- free_find fuel bp fp;
  join_upper bp p ;;;
  join_lower bp p ;;;
  modify (set_freep p).

Definition morecore (fuel : nat) (nu : Z) : M um Z :=
  let nu := if nu <? 4096 then 4096 else nu in
  do p <- sbrk (nu * sizeof_Header);
  if p =? -1 then return 0
  else
    put_size p nu ;;;
    free fuel (p + sizeof_Header) ;;;
    gets freep.

Definition take_block (nunits prevp p sz : Z) : M um Z :=
  if sz =? nunits then
    do nx <- ptr_of p;
    put_ptr prevp nx ;;;
    modify (set_freep prevp) ;;;
    return (p + sizeof_Header)
  else
    put_size p (sz - nunits) ;;;
    do sz' <- size_of p;
    let q := p + sizeof_Header * sz' in
    put_size q nunits ;;;
    modify (set_freep prevp) ;;;
    return (q + sizeof_Header).
Fixpoint malloc_loop (fuel : nat) (ffuel : nat) (nunits prevp p : Z) : M um Z :=
  match fuel with
  | O => fun _ => Diverge
  | S f =>
      do sz <- size_of p;
      if sz >=? nunits then take_block nunits prevp p sz
      else
        do fp <- gets freep;
        if p =? fp then
          do p' <- morecore ffuel nunits;
          if p' =? 0 then return 0
          else do nx <- ptr_of p'; malloc_loop f ffuel nunits p' nx
        else do nx <- ptr_of p; malloc_loop f ffuel nunits p nx
  end.
Definition units (nbytes : Z) : Z := u32 ((nbytes + sizeof_Header - 1) / sizeof_Header + 1).
Definition malloc (fuel : nat) (nbytes : Z) : M um Z :=
  let nunits := units nbytes in
  do fp <- gets freep;
  do prevp <- (if fp =? 0 then
                 put_ptr base_a base_a ;;; modify (set_freep base_a) ;;; put_size base_a 0 ;;; return base_a
               else return fp);
  do p <- ptr_of prevp;
  malloc_loop fuel fuel nunits prevp p.
End code.

(** ** Free lists *)

#[local] Arguments Z.mul : simpl never.
#[local] Arguments Z.add : simpl never.

(** A list of blocks, [(address, units)]: linked from node [a] on, and its last
    node; sorted with a gap before each block; where it ends; its bytes. *)
Fixpoint pseg (H : Z -> header) (a : Z) (l : list (Z * Z)) : Prop :=
  match l with
  | [] => True
  | (c, n) :: l => h_ptr (H a) = c /\ h_size (H c) = n /\ pseg H c l
  end.
Fixpoint lastn (a : Z) (l : list (Z * Z)) : Z := match l with [] => a | (c, _) :: l => lastn c l end.
Fixpoint sorted (lo : Z) (l : list (Z * Z)) : Prop :=
  match l with [] => True | (a, n) :: l => lo < a /\ 1 <= n /\ sorted (a + 16 * n) l end.
Fixpoint endn (lo : Z) (l : list (Z * Z)) : Z := match l with [] => lo | (a, n) :: l => endn (a + 16 * n) l end.
Fixpoint covers (l : list (Z * Z)) (x : Z) : Prop :=
  match l with [] => False | (a, n) :: l => a <= x < a + 16 * n \/ covers l x end.
Fixpoint tot (l : list (Z * Z)) : Z := match l with [] => 0 | (_, n) :: l => n + tot l end.
Definition addrs (l : list (Z * Z)) : list Z := fst <$> l.

Lemma pseg_app H a l1 l2 : pseg H a (l1 ++ l2) <-> pseg H a l1 /\ pseg H (lastn a l1) l2.
Proof. revert a. induction l1 as [|[c n] l1 IH]; intros a; cbn; [tauto|]. rewrite IH. tauto. Qed.
Lemma lastn_app a l1 l2 : lastn a (l1 ++ l2) = lastn (lastn a l1) l2.
Proof. revert a. induction l1 as [|[c n] l1 IH]; intros a; cbn; [done|]. apply IH. Qed.
Lemma sorted_app lo l1 l2 : sorted lo (l1 ++ l2) <-> sorted lo l1 /\ sorted (endn lo l1) l2.
Proof. revert lo. induction l1 as [|[c n] l1 IH]; intros lo; cbn; [tauto|]. rewrite IH. tauto. Qed.
Lemma endn_app lo l1 l2 : endn lo (l1 ++ l2) = endn (endn lo l1) l2.
Proof. revert lo. induction l1 as [|[c n] l1 IH]; intros lo; cbn; [done|]. apply IH. Qed.
Lemma covers_app l1 l2 x : covers (l1 ++ l2) x <-> covers l1 x \/ covers l2 x.
Proof. induction l1 as [|[c n] l1 IH]; cbn; [tauto|]. rewrite IH. tauto. Qed.
Lemma tot_app l1 l2 : tot (l1 ++ l2) = tot l1 + tot l2.
Proof. induction l1 as [|[c n] l1 IH]; cbn; lia. Qed.
Lemma addrs_app l1 l2 : addrs (l1 ++ l2) = addrs l1 ++ addrs l2.
Proof. apply fmap_app. Qed.

Lemma sorted_weaken lo lo' l : lo' <= lo -> sorted lo l -> sorted lo' l.
Proof. destruct l as [|[a n] l]; cbn; [done|]. intuition lia. Qed.
Lemma sorted_end lo l : sorted lo l -> lo <= endn lo l /\ 16 * tot l <= endn lo l - lo /\ 0 <= tot l.
Proof.
  revert lo. induction l as [|[a n] l IH]; intros lo; cbn; [lia|]. intros (Q1 & Q2 & Q3). specialize (IH _ Q3). lia.
Qed.
Lemma sorted_last c lo l : c <= lo -> sorted lo l -> c <= lastn c l /\ (l <> [] -> lo < lastn c l).
Proof.
  revert c lo. induction l as [|[d k] l IH]; intros c lo Hc; cbn; [intros _; split; [lia|done]|]. intros (Q1 & Q2 & Q3).
  destruct (IH d (d + 16 * k) ltac:(lia) Q3) as [Q4 _]. split; intros; lia.
Qed.
Lemma sorted_addr lo l a c : c <= lo -> sorted lo l -> a ∈ addrs l -> lo < a <= lastn c l /\ a < endn lo l.
Proof.
  revert c lo. induction l as [|[d n] l IH]; intros c lo Hc; cbn; [by intros _ ?%elem_of_nil|]. intros (Q1 & Q2 & Q3).
  pose proof (sorted_end _ _ Q3). destruct (sorted_last d (d + 16 * n) l ltac:(lia) Q3). rewrite elem_of_cons. intros [->|Ha]; [lia|].
  destruct (IH d (d + 16 * n) ltac:(lia) Q3 Ha). lia.
Qed.
Lemma lastn_in a l : lastn a l = a \/ lastn a l ∈ addrs l.
Proof.
  revert a. induction l as [|[c n] l IH]; intros a; cbn; [by left|]. right. rewrite elem_of_cons. destruct (IH c) as [->|?]; tauto.
Qed.
Lemma lastn_snoc a l c n : lastn a (l ++ [(c, n)]) = c.
Proof. by rewrite lastn_app. Qed.
Lemma list_snoc_case (l : list (Z * Z)) : l = [] \/ exists l' c n, l = l' ++ [(c, n)].
Proof. destruct l as [|[c n] l'] using rev_ind; [by left|right]. by exists l', c, n. Qed.

(** What the links of a list depend on. *)
Lemma pseg_ext H H' a lo l : a <= lo -> sorted lo l -> (forall x, x ∈ addrs l -> h_size (H' x) = h_size (H x)) ->
  (forall x, x = a \/ x ∈ addrs l -> x < lastn a l -> h_ptr (H' x) = h_ptr (H x)) -> pseg H a l -> pseg H' a l.
Proof.
  revert a lo. induction l as [|[c n] l IH]; intros a lo Ha; cbn; [done|]. intros (Q1 & Q2 & Q3) Hs Hp (P1 & P2 & P3).
  destruct (sorted_last c (c + 16 * n) l ltac:(lia) Q3) as [Hc _].
  rewrite Hp by (auto || lia). rewrite Hs by (by left). split; [done|]. split; [done|].
  apply (IH c (c + 16 * n)); [lia|done| | |done].
  - intros x Hx. apply Hs. by right.
  - intros x Hx Hlt. apply Hp; [|done]. right. rewrite elem_of_cons. tauto.
Qed.

(** ** [free] *)

Section spec.
Context (B : Z).

Definition ring (H : Z -> header) (l : list (Z * Z)) : Prop := pseg H B l /\ h_ptr (H (lastn B l)) = B /\ h_size (H B) = 0.

Lemma find_below bp t s la : forall a lo f, a <= lo -> sorted lo la -> pseg (hd s) a la -> lastn a la = t -> t < bp ->
  (bp < h_ptr (hd s t) \/ h_ptr (hd s t) <= t) -> free_find (length la + 1 + f) bp a s = Ok t s.
Proof.
  induction la as [|[c n] la IH]; intros a lo f Ha Hs Hp Hl Ht Hn.
  - cbn in Hl. subst a. cbn [length Nat.add free_find]. unfold ptr_of. rewrite bind_gets. set (nx := h_ptr (hd s t)) in *.
    rewrite Z.gtb_ltb, Z.geb_leb. destruct (Z.ltb_spec t bp); [|lia]. cbn [andb orb]. destruct (Z.ltb_spec bp nx); [done|].
    destruct (Z.leb_spec nx t); [done|lia].
  - cbn [length Nat.add free_find]. destruct Hs as (S1 & S2 & S3). destruct Hp as (P1 & P2 & P3). cbn in Hl.
    destruct (sorted_last c (c + 16 * n) la ltac:(lia) S3) as [Hc _].
    unfold ptr_of at 1. rewrite bind_gets, P1, Z.gtb_ltb, Z.geb_leb. destruct (Z.ltb_spec bp c); [lia|]. rewrite andb_false_r.
    destruct (Z.leb_spec c a); [lia|]. cbn [andb]. apply (IH c (c + 16 * n)); (done || lia).
Qed.
Lemma find_above bp s lb : forall a lo f, a <= lo -> sorted lo lb -> pseg (hd s) a lb -> h_ptr (hd s (lastn a lb)) = B -> B < bp -> bp < a ->
  free_find (length lb + 1 + f) bp a s = free_find f bp B s.
Proof.
  induction lb as [|[c n] lb IH]; intros a lo f Ha Hs Hp Hl HB Hb; cbn [length Nat.add free_find]; unfold ptr_of at 1; rewrite bind_gets.
  - cbn in Hl. rewrite Hl, Z.gtb_ltb, Z.geb_leb. destruct (Z.ltb_spec a bp); [lia|]. cbn [andb orb].
    destruct (Z.ltb_spec bp B); [lia|]. by rewrite andb_false_r.
  - destruct Hs as (S1 & S2 & S3). destruct Hp as (P1 & P2 & P3). cbn in Hl.
    rewrite P1, Z.gtb_ltb, Z.geb_leb. destruct (Z.ltb_spec a bp); [lia|]. cbn [andb]. destruct (Z.leb_spec c a); [lia|]. cbn [andb].
    apply (IH c (c + 16 * n)); (done || lia).
Qed.

Definition head_or (l : list (Z * Z)) : Z := match l with [] => B | (c, _) :: _ => c end.
Lemma pseg_head H a l : pseg H a l -> h_ptr (H (lastn a l)) = B -> h_ptr (H a) = head_or l.
Proof. destruct l as [|[c n] l]; cbn; tauto. Qed.

Lemma find_ok s l1 l2 bp x f : ring (hd s) (l1 ++ l2) -> sorted B (l1 ++ l2) -> B < bp -> endn B l1 <= bp -> (l2 = [] \/ bp < head_or l2) ->
  x = B \/ x ∈ addrs (l1 ++ l2) -> (length l1 + length l2 + 2 <= f)%nat -> free_find f bp x s = Ok (lastn B l1) s.
Proof.
  intros (R1 & R2 & R3) Hs HB He Hh Hx Hf. apply pseg_app in R1 as [R0 R1]. rewrite lastn_app in R2. pose proof (pseg_head _ _ _ R1 R2) as Hn.
  apply sorted_app in Hs as [S1 S2]. set (t := lastn B l1) in *.
  assert (t < bp) as Ht.
  { destruct (list_snoc_case l1) as [->|(l & c & n & ->)]; [done|]. unfold t. rewrite lastn_snoc. rewrite endn_app in He. cbn in He.
    apply sorted_app in S1 as [_ S1]. cbn in S1. lia. }
  assert (bp < h_ptr (hd s t) \/ h_ptr (hd s t) <= t) as Hstop.
  { rewrite Hn. destruct Hh as [->|?]; [right; cbn|by left]. by apply (sorted_last B B l1). }
  assert (forall f, (length l1 + 1 <= f)%nat -> free_find f bp B s = Ok t s) as Hfrom.
  { intros g Hg. replace g with (length l1 + 1 + (g - length l1 - 1))%nat by lia. by apply (find_below bp t s l1 B B). }
  rewrite addrs_app, elem_of_app in Hx. destruct Hx as [->|[Hx|Hx]]; [apply Hfrom; lia|..].
  - apply list_elem_of_fmap in Hx as ([x' n] & -> & (la & lb & ->)%list_elem_of_split). cbn [fst].
    apply pseg_app in R0 as [_ R0]. cbn in R0. apply sorted_app in S1 as [_ S1]. cbn in S1. rewrite length_app in Hf. cbn in Hf.
    replace f with (length lb + 1 + (f - length lb - 1))%nat by lia.
    apply (find_below bp t s lb x' (x' + 16 * n)); try tauto; [lia|]. unfold t. by rewrite lastn_app.
  - apply list_elem_of_fmap in Hx as ([x' n] & -> & (la & lb & ->)%list_elem_of_split). cbn [fst].
    apply pseg_app in R1 as [_ R1]. cbn in R1. rewrite lastn_app in R2. cbn in R2. rewrite length_app in Hf. cbn in Hf.
    assert (bp < x') as Hbx.
    { destruct Hh as [Hh|Hh]; [by destruct la|]. destruct la as [|[c k] la]; cbn in Hh; [lia|]. apply sorted_app in S2 as [S2 S3].
      cbn in S2, S3. pose proof (sorted_end _ _ (proj2 (proj2 S2))). cbn in S3. lia. }
    apply sorted_app in S2 as [_ S2]. cbn in S2. replace f with (length lb + 1 + (f - length lb - 1))%nat by lia.
    rewrite (find_above bp s lb x' (x' + 16 * n)); try tauto; [apply Hfrom; lia|lia].
Qed.

Lemma ptr_put_ptr (H : Z -> header) p v x : h_ptr ((<[p := mkHeader v (h_size (H p))]> H) x) = if decide (x = p) then v else h_ptr (H x).
Proof. case_decide; [subst; by rewrite fn_lookup_insert|by rewrite fn_lookup_insert_ne]. Qed.
Lemma size_put_ptr (H : Z -> header) p v x : h_size ((<[p := mkHeader v (h_size (H p))]> H) x) = h_size (H x).
Proof. destruct (decide (x = p)) as [->|]; [by rewrite fn_lookup_insert|by rewrite fn_lookup_insert_ne]. Qed.

(** Headers that agree except at [p]. *)
Definition only (p : Z) (H H' : Z -> header) : Prop := forall x, x <> p -> H' x = H x.
Lemma only_put p v H : only p H (<[p := v]> H).
Proof. intros x Hx. by rewrite fn_lookup_insert_ne. Qed.
Lemma only_trans p H1 H2 H3 : only p H1 H2 -> only p H2 H3 -> only p H1 H3.
Proof. intros O1 O2 x Hx. by rewrite O2, O1. Qed.
Lemma pseg_only p H H' a lo l : a <= lo -> sorted lo l -> only p H H' -> p <> a -> p ∉ addrs l -> pseg H a l -> pseg H' a l.
Proof.
  intros Ha Hs Ho Hpa Hp. apply (pseg_ext _ _ a lo); [done|done|..].
  - intros x Hx. rewrite Ho; [done|]. by intros ->.
  - intros x [->|Hx] _; rewrite Ho; try done; by intros ->.
Qed.

(** The block and the list above it after [join_upper]. *)
Record upper (s s1 : um) (bp n : Z) (l2 : list (Z * Z)) (n' : Z) (l2' : list (Z * Z)) : Prop := {
  up_s : s1 = set_hd (hd s1) s;
  up_only : only bp (hd s) (hd s1);
  up_size : h_size (hd s1 bp) = n';
  up_seg : pseg (hd s1) bp l2' /\ h_ptr (hd s1 (lastn bp l2')) = B;
  up_sorted : sorted (bp + 16 * n') l2' /\ endn (bp + 16 * n') l2' = endn (bp + 16 * n) l2;
  up_tot : n' + tot l2' = n + tot l2 /\ n <= n';
  up_covers : forall x, (bp <= x < bp + 16 * n' \/ covers l2' x) <-> (bp <= x < bp + 16 * n \/ covers l2 x);
  up_addrs : forall x, x ∈ addrs l2' -> x ∈ addrs l2;
  up_len : (length l2' <= length l2)%nat
}.
Lemma join_upper_ok s bp t n l2 : pseg (hd s) t l2 -> h_ptr (hd s (lastn t l2)) = B -> h_size (hd s bp) = n -> B < bp -> t < bp -> 1 <= n ->
  sorted (bp + 16 * n - 1) l2 -> n + tot l2 < 2 ^ 32 -> exists s1 n' l2', join_upper bp t s = Ok tt s1 /\ upper s s1 bp n l2 n' l2'.
Proof.
  intros Hp Hl Hn HB Ht H1 Hs Hu. unfold join_upper, ptr_of, size_of, put_size, put_ptr. rewrite !bind_gets, (pseg_head _ _ _ Hp Hl), Hn.
  change sizeof_Header with 16. destruct l2 as [|[c m] l2]; cbn [head_or].
  { destruct (Z.eqb_spec (bp + 16 * n) B); [lia|]. eexists _, n, []. split; [reflexivity|].
    split; cbn; [done|apply only_put|by rewrite fn_lookup_insert|split; [done|by rewrite fn_lookup_insert]|done|lia|done|done|lia]. }
  destruct Hs as (S1 & S2 & S3). destruct Hp as (P1 & P2 & P3). cbn in Hl, Hu.
  destruct (sorted_end _ _ S3) as (_ & _ & T0).
  assert (bp ∉ addrs ((c, m) :: l2)) as Hbp.
  { cbn. rewrite elem_of_cons. intros [->|Hin]; [lia|]. destruct (sorted_addr (c + 16 * m) l2 bp c ltac:(lia) S3 Hin). lia. }
  assert (forall H', only bp (hd s) H' -> pseg H' c l2 /\ h_ptr (H' (lastn c l2)) = B) as Hframe.
  { intros H' Ho. split; [apply (pseg_only bp (hd s) _ c (c + 16 * m)); try done; [lia|lia|]; intros Hin; apply Hbp; by right|].
    rewrite Ho; [done|]. intros E. apply Hbp. cbn. rewrite elem_of_cons, <- E. destruct (lastn_in c l2) as [->|?]; tauto. }
  destruct (Z.eqb_spec (bp + 16 * n) c) as [E|E].
  - rewrite !bind_gets, P2. rewrite bind_modify, bind_gets. cbn [hd set_hd]. eexists _, (n + m), l2. split; [reflexivity|].
    set (H1' := <[bp := _]> (hd s)). assert (only bp (hd s) (<[bp := mkHeader (h_ptr (H1' c)) (h_size (H1' bp))]> H1')) as Ho
      by (eapply only_trans; apply only_put). destruct (Hframe _ Ho) as [F1 F2].
    assert (u32 (n + m) = n + m) as Eu by (apply u32_small; lia).
    assert (h_ptr (H1' c) = head_or l2) as Ec.
    { unfold H1'. rewrite fn_lookup_insert_ne by lia. apply (pseg_head _ c); [done|by rewrite Hl]. }
    split; cbn [hd set_hd ubrk ulim freep]; [done|done| | | |cbn; lia| | |cbn; lia].
    + rewrite size_put_ptr. unfold H1'. by rewrite fn_lookup_insert.
    + assert (h_ptr ((<[bp := mkHeader (h_ptr (H1' c)) (h_size (H1' bp))]> H1') bp) = head_or l2) as Hbn by (by rewrite ptr_put_ptr, decide_True).
      revert F1 F2 Hbn. generalize (<[bp := mkHeader (h_ptr (H1' c)) (h_size (H1' bp))]> H1'). intros H2. clear.
      destruct l2 as [|[d k] l2]; cbn; tauto.
    + cbn. replace (bp + 16 * (n + m)) with (c + 16 * m) by lia. done.
    + cbn. intros x. split; [intros [?|?]; [destruct (decide (x < c)); [left|right; left]; lia|tauto]|intros [?|[?|?]]; [left; lia|left; lia|tauto]].
    + intros x Hx. by right.
  - eexists _, n, ((c, m) :: l2). split; [reflexivity|]. set (H' := <[bp := _]> (hd s)). assert (only bp (hd s) H') as Ho by apply only_put.
    destruct (Hframe _ Ho) as [F1 F2].
    split; cbn [hd set_hd ubrk ulim freep]; [done|done|unfold H'; by rewrite size_put_ptr| |cbn; split; [split; [lia|done]|done]|cbn; lia|done|done|done].
    cbn. split; [|done]. unfold H' at 1. rewrite ptr_put_ptr, decide_True by done. split; [done|]. split; [|done]. rewrite Ho; [done|]. intros ->. apply Hbp. by left.
Qed.

(** A list moved under another node. *)
Lemma pseg_move H H' a b lo l : a <= lo -> b <= lo -> sorted lo l -> only b H H' -> h_ptr (H' b) = h_ptr (H a) ->
  pseg H a l -> h_ptr (H (lastn a l)) = B -> pseg H' b l /\ h_ptr (H' (lastn b l)) = B.
Proof.
  intros Ha Hb Hs Ho Hp Hseg Hl. destruct l as [|[d k] l]; cbn in *; [by rewrite Hp|]. destruct Hs as (S1 & S2 & S3).
  assert (b ∉ addrs l) as Hbl by (intros Hin; destruct (sorted_addr (d + 16 * k) l b d ltac:(lia) S3 Hin); lia).
  destruct Hseg as (P1 & P2 & P3). split; [split; [congruence|split; [rewrite Ho by lia; done|]]|].
  - apply (pseg_only b H _ d (d + 16 * k)); (done || lia).
  - rewrite Ho; [done|]. destruct (sorted_last d (d + 16 * k) l ltac:(lia) S3). lia.
Qed.
Lemma last_end H l : pseg H B l -> h_size (H B) = 0 -> lastn B l + 16 * h_size (H (lastn B l)) = endn B l.
Proof.
  intros Hp H0. destruct (list_snoc_case l) as [->|(l' & c & n & ->)]; [cbn; lia|]. rewrite lastn_snoc, endn_app. cbn.
  apply pseg_app in Hp as [_ Hp]. cbn in Hp. by destruct Hp as (_ & -> & _).
Qed.

Record freed (s s' : um) (bp n : Z) (fl fl' : list (Z * Z)) : Prop := {
  fr_env : ubrk s' = ubrk s /\ ulim s' = ulim s;
  fr_ring : ring (hd s') fl';
  fr_sorted : sorted B fl';
  fr_end : endn B fl' = Z.max (endn B fl) (bp + 16 * n);
  fr_freep : freep s' = B \/ freep s' ∈ addrs fl';
  fr_tot : tot fl' = tot fl + n;
  fr_covers : forall x, covers fl' x <-> covers fl x \/ bp <= x < bp + 16 * n;
  fr_other : forall x, x <> B -> x <> bp -> x ∉ addrs fl -> hd s' x = hd s x;
  fr_big : exists a m, (a, m) ∈ fl' /\ n <= m;
  fr_len : (length fl' <= S (length fl))%nat
}.

(** [join_lower] after [join_upper]; [p] is the node below. *)
Section lower.
Context (s s1 : um) (l1 l2 : list (Z * Z)) (bp n n' : Z) (l2' : list (Z * Z)).
Context (Hring : ring (hd s) (l1 ++ l2)) (Hsort : sorted B (l1 ++ l2)) (HB : B < bp) (Hn : 1 <= n) (He : endn B l1 <= bp).
Context (Hs2 : sorted (bp + 16 * n - 1) l2) (Htot : tot (l1 ++ l2) + n < 2 ^ 32).
Context (HU : upper s s1 bp n l2 n' l2').
Let t := lastn B l1.

(** The parts of the state that the two cases start from. *)
Record lower_pre : Prop := {
  lp_t : t < bp /\ B <= t;
  lp_seg : pseg (hd s1) B l1 /\ h_size (hd s1 B) = 0;
  lp_sorted : sorted B l1;
  lp_end : t + 16 * h_size (hd s1 t) = endn B l1;
  lp_tot : 0 <= tot l1 /\ 0 <= tot l2' /\ 0 <= tot l2 /\ tot l1 + tot l2 + n < 2 ^ 32;
  lp_above : forall x, x ∈ addrs l2' -> bp + 16 * n' < x;
  lp_bound : endn (bp + 16 * n) l2 = Z.max (endn B (l1 ++ l2)) (bp + 16 * n)
}.
Lemma lower_pre_ok : lower_pre.
Proof.
  destruct HU as [U1 U2 U3 [U4 U4'] [U5 U5'] [U6 U6'] U7 U8 U9]. destruct Hring as (R1 & R2 & R3).
  apply pseg_app in R1 as [R1 _]. pose proof Hsort as S1. apply sorted_app in S1 as [S1 _].
  assert (bp ∉ addrs l1) as Hb1 by (intros Hin; destruct (sorted_addr B l1 bp B ltac:(lia) S1 Hin); lia).
  assert (t < bp /\ B <= t) as [Ht Htb].
  { destruct (sorted_last B B l1 ltac:(lia) S1) as [Htb _]. fold t in Htb. cut (t < bp); [lia|].
    destruct (lastn_in B l1) as [E|Hin]; [unfold t; lia|]. destruct (sorted_addr B l1 t B ltac:(lia) S1 Hin). lia. }
  pose proof (pseg_only bp _ _ B B l1 ltac:(lia) S1 U2 ltac:(lia) Hb1 R1) as R1'.
  assert (h_size (hd s1 B) = 0) as R3' by (rewrite U2; [done|lia]).
  split; [done|done|done|by apply last_end| | |].
  - destruct (sorted_end _ _ S1) as (_ & _ & T1). destruct (sorted_end _ _ U5) as (E2 & _ & T2). destruct (sorted_end _ _ Hs2) as (_ & _ & T3).
    rewrite tot_app in Htot. lia.
  - intros x Hx. destruct (sorted_addr (bp + 16 * n') l2' x (bp + 16 * n') ltac:(lia) U5 Hx); lia.
  - rewrite endn_app. destruct l2 as [|[c m] l]; cbn; [lia|]. cbn in Hs2. destruct Hs2 as (Q1 & Q2 & Q3). pose proof (sorted_end _ _ Q3). lia.
Qed.

Lemma join_lower_merge : endn B l1 = bp -> exists s2 fl', join_lower bp t s1 = Ok tt s2 /\ freed s (set_freep t s2) bp n (l1 ++ l2) fl'.
Proof.
  intros E.
  destruct lower_pre_ok as [[Ht Htb] [R1' R3'] S1 Hle (T1 & T2 & T3 & Hu) Hab Hend]. destruct HU as [U1 U2 U3 [U4 U4'] [U5 U5'] [U6 U6'] U7 U8 U9].
  unfold join_lower, ptr_of, size_of, put_size, put_ptr. rewrite !bind_gets. change sizeof_Header with 16. rewrite Hle.
  rewrite (proj2 (Z.eqb_eq _ _) E).
  destruct (list_snoc_case l1) as [El|(l0 & c & k & El)]; [rewrite El in E; cbn in E; lia|]. assert (c = t) as -> by (unfold t; by rewrite El, lastn_snoc).
  rewrite El in *. apply pseg_app in R1' as [Q1 Q2]. cbn in Q2. destruct Q2 as (Q2 & Q3 & _). apply sorted_app in S1 as [Q4 Q5]. cbn in Q5.
  rewrite tot_app in *. cbn in T1, Hu. pose proof (sorted_end _ _ Q4) as (E0 & _ & T0). rewrite !bind_gets, U3, Q3. rewrite bind_modify, bind_gets. cbn [hd set_hd].
  set (H1 := <[t := _]> (hd s1)). set (H2 := <[t := mkHeader (h_ptr (H1 bp)) (h_size (H1 t))]> H1).
  assert (only t (hd s1) H2) as Ho by (eapply only_trans; apply only_put). rewrite endn_app in *. cbn in He, E, Hend.
  assert (h_size (H2 t) = k + n') as Hsz by (unfold H2; rewrite size_put_ptr; unfold H1; rewrite fn_lookup_insert; cbn; apply u32_small; lia).
  assert (h_ptr (H2 t) = h_ptr (hd s1 bp)) as Hpt.
  { unfold H2. rewrite ptr_put_ptr, decide_True by done. unfold H1. by rewrite fn_lookup_insert_ne by lia. }
  destruct (pseg_move (hd s1) H2 bp t (bp + 16 * n') l2' ltac:(lia) ltac:(lia) U5 Ho Hpt U4 U4') as [M1 M2].
  assert (t ∉ addrs l0) as Ht0 by (intros Hin; destruct (sorted_addr B l0 t B ltac:(lia) Q4 Hin); lia).
  assert (B < t) by lia.
  eexists (set_hd H2 s1), (l0 ++ (t, k + n') :: l2'). split; [reflexivity|]. rewrite U1.
  split; cbn [hd set_hd set_freep ubrk ulim freep]; [done| | | | | | | | |].
  - split; [|split; [by rewrite lastn_app|rewrite Ho; [done|lia]]]. apply pseg_app. split; [apply (pseg_only t _ _ B B l0 ltac:(lia) Q4 Ho); (done || lia)|].
    cbn. split; [|done]. rewrite Ho; [done|]. destruct (lastn_in B l0) as [->|Hin]; [lia|]. intros Eq. by rewrite Eq in Hin.
  - apply sorted_app. split; [done|]. cbn. split; [lia|]. split; [lia|]. replace (t + 16 * (k + n')) with (bp + 16 * n') by lia. done.
  - rewrite endn_app. cbn. replace (t + 16 * (k + n')) with (bp + 16 * n') by lia. rewrite U5', Hend. by rewrite !endn_app.
  - right. rewrite addrs_app, elem_of_app. right. by left.
  - rewrite !tot_app. cbn. lia.
  - intros x. rewrite !covers_app. cbn. specialize (U7 x). split.
    + intros [?|Hx]; [tauto|]. destruct (decide (x < bp)); [|cut (bp <= x < bp + 16 * n' \/ covers l2' x); [tauto|]; destruct Hx; [left; lia|tauto]].
      destruct Hx as [?|Hx]; [left; left; right; left; lia|tauto].
    + intros [[[?|[?|[]]]|?]|?]; [tauto|right; left; lia|..]; (destruct (proj2 U7) as [?|?]; [tauto|right; left; lia|tauto]).
  - intros x X1 X2 X3. rewrite Ho, U2; [done|done|]. intros ->. apply X3. rewrite !addrs_app, !elem_of_app. left. right. by left.
  - exists t, (k + n'). split; [apply elem_of_app; right; by left|lia].
  - rewrite !length_app. cbn. lia.
Qed.
Lemma join_lower_link : endn B l1 <> bp -> exists s2 fl', join_lower bp t s1 = Ok tt s2 /\ freed s (set_freep t s2) bp n (l1 ++ l2) fl'.
Proof.
  intros E.
  destruct lower_pre_ok as [[Ht Htb] [R1' R3'] S1 Hle (T1 & T2 & T3 & Hu) Hab Hend]. destruct HU as [U1 U2 U3 [U4 U4'] [U5 U5'] [U6 U6'] U7 U8 U9].
  unfold join_lower, ptr_of, size_of, put_size, put_ptr. rewrite !bind_gets. change sizeof_Header with 16. rewrite Hle.
  rewrite (proj2 (Z.eqb_neq _ _) E).
  set (H2 := <[t := mkHeader bp (h_size (hd s1 t))]> (hd s1)).
  exists (set_hd H2 s1), (l1 ++ (bp, n') :: l2'). split; [reflexivity|]. rewrite U1.
  assert (only t (hd s1) H2) as Ho by apply only_put.
  assert (forall x, h_size (H2 x) = h_size (hd s1 x)) as Hsz by (intros x; apply size_put_ptr).
  split; cbn [hd set_hd set_freep ubrk ulim freep]; [done| | | | | | | | |].
  - split; [|split; [rewrite lastn_app; cbn; rewrite Ho; [done|]|by rewrite Hsz]].
    + apply pseg_app. split; [apply (pseg_ext (hd s1) _ B B l1); [lia|done|done| |done]|].
      * intros x Hx Hlt. rewrite Ho; [done|]. unfold t. lia.
      * cbn. fold t. unfold H2 at 1. rewrite ptr_put_ptr, decide_True by done. rewrite Hsz. split; [done|]. split; [done|].
         apply (pseg_only t (hd s1) H2 bp (bp + 16 * n') l2'); [lia|done|done|lia| |done]. intros Hin. specialize (Hab t Hin). lia.
    + destruct (lastn_in bp l2') as [->|Hin]; [lia|]. specialize (Hab _ Hin). lia.
  - apply sorted_app. split; [done|]. cbn. split; [lia|]. split; [lia|done].
  - rewrite endn_app. cbn. by rewrite U5', Hend.
  - fold t. destruct (lastn_in B l1) as [Eq|Hin]; [by left|right]. rewrite addrs_app, elem_of_app. by left.
  - rewrite !tot_app. cbn. lia.
  - intros x. rewrite !covers_app. cbn. specialize (U7 x). tauto.
  - intros x X1 X2 X3. rewrite Ho, U2; [done|done|]. intros ->. rewrite addrs_app, elem_of_app in X3.
    destruct (lastn_in B l1) as [Eq|Hin]; [by apply X1|by apply X3; left].
  - exists bp, n'. split; [apply elem_of_app; right; by left|lia].
  - rewrite !length_app. cbn. lia.
Qed.
End lower.

(** [free] of a block that lies in a gap of the free list. *)
Lemma free_ok s l1 l2 bp n f : ring (hd s) (l1 ++ l2) -> sorted B (l1 ++ l2) -> h_size (hd s bp) = n -> B < bp -> 1 <= n -> endn B l1 <= bp ->
  sorted (bp + 16 * n - 1) l2 -> freep s = B \/ freep s ∈ addrs (l1 ++ l2) -> tot (l1 ++ l2) + n < 2 ^ 32 -> (length (l1 ++ l2) + 2 <= f)%nat ->
  exists s' fl', free f (bp + sizeof_Header) s = Ok tt s' /\ freed s s' bp n (l1 ++ l2) fl'.
Proof.
  intros Hr Hs Hn HB Hn1 He Hs2 Hfp Ht Hf. unfold free. replace (bp + sizeof_Header - sizeof_Header) with bp by lia. rewrite bind_gets.
  assert (l2 = [] \/ bp < head_or l2) as Hh by (destruct l2 as [|[c m] l2]; [by left|right; cbn in *; lia]).
  rewrite length_app in Hf. rewrite (bind_Ok _ _ _ _ _ (find_ok s l1 l2 bp (freep s) f Hr Hs HB He Hh Hfp ltac:(lia))).
  destruct Hr as (R1 & R2 & R3). pose proof R1 as R1'. apply pseg_app in R1' as [R0 R1']. rewrite lastn_app in R2.
  assert (lastn B l1 < bp) as Hlt.
  { pose proof Hs as [S1 _]%sorted_app. destruct (lastn_in B l1) as [E|Hin]; [lia|]. destruct (sorted_addr B l1 _ B ltac:(lia) S1 Hin). lia. }
  assert (0 <= tot l1) by (pose proof Hs as [S1 _]%sorted_app; by destruct (sorted_end _ _ S1) as (_ & _ & ?)).
  pose proof Ht as Ht'. rewrite tot_app in Ht'.
  destruct (join_upper_ok s bp (lastn B l1) n l2) as (s1 & n' & l2' & Hrun & HU); try done; [lia|]. rewrite (bind_Ok _ _ _ _ _ Hrun).
  assert (ring (hd s) (l1 ++ l2)) as Hr by (split; [done|by rewrite lastn_app]).
  assert (exists s2 fl', join_lower bp (lastn B l1) s1 = Ok tt s2 /\ freed s (set_freep (lastn B l1) s2) bp n (l1 ++ l2) fl') as (s2 & fl' & Hrun2 & Hfr).
  { destruct (decide (endn B l1 = bp)); [by eapply join_lower_merge|by eapply join_lower_link]. }
  rewrite (bind_Ok _ _ _ _ _ Hrun2). by eexists _, fl'.
Qed.

(** ** [malloc] *)

Definition small (nunits : Z) (b : Z * Z) : Prop := b.2 < nunits.
Lemma first_fit nunits l : Forall (small nunits) l \/
  exists l1 c m l2, l = l1 ++ (c, m) :: l2 /\ Forall (small nunits) l1 /\ nunits <= m.
Proof.
  induction l as [|[c m] l [IH|(l1 & c' & m' & l2 & -> & H1 & H2)]]; [by left|..]; destruct (Z.lt_ge_cases m nunits).
  - left. by constructor.
  - right. by exists [], c, m, l.
  - right. exists ((c, m) :: l1), c', m', l2. split; [done|]. split; [by constructor|done].
  - right. by exists [], c, m, (l1 ++ (c', m') :: l2).
Qed.

Definition next (s : um) (a : Z) : Z := h_ptr (hd s a).
Lemma loop_seg s nunits ff lX : forall a f, pseg (hd s) a lX -> Forall (small nunits) lX -> freep s ∉ addrs lX ->
  malloc_loop (length lX + f) ff nunits a (next s a) s = malloc_loop f ff nunits (lastn a lX) (next s (lastn a lX)) s.
Proof.
  induction lX as [|[c m] lX IH]; intros a f Hp Hsm Hfp; [done|]. destruct Hp as (P1 & P2 & P3). apply Forall_cons in Hsm as [Hm Hsm].
  cbn in Hfp. rewrite elem_of_cons in Hfp. cbn [length Nat.add malloc_loop]. change (next s a) with (h_ptr (hd s a)). rewrite P1. unfold size_of, ptr_of. rewrite bind_gets, P2, Z.geb_leb.
  unfold small in Hm. cbn in Hm. destruct (Z.leb_spec nunits m); [lia|]. rewrite bind_gets. destruct (Z.eqb_spec c (freep s)); [exfalso; apply Hfp; by left|].
  rewrite bind_gets. apply IH; [done|done|tauto].
Qed.
Lemma loop_fit s nunits ff l a f c m : pseg (hd s) a (l ++ [(c, m)]) -> Forall (small nunits) l -> freep s ∉ addrs l -> nunits <= m ->
  malloc_loop (length l + S f) ff nunits a (next s a) s = take_block nunits (lastn a l) c m s.
Proof.
  intros [P1 (P2 & P3 & _)]%pseg_app Hs Hf Hm. rewrite loop_seg by done. unfold next. rewrite P2. cbn [malloc_loop].
  unfold size_of. rewrite bind_gets, P3, Z.geb_leb. by destruct (Z.leb_spec nunits m); [|lia].
Qed.

(** The loop of [malloc] from [freep] around the ring: it takes a block that
    fits, or has seen every block when it is back at [freep]. *)
Definition search_spec (s : um) (fl : list (Z * Z)) (nunits : Z) (ff : nat) : Prop :=
  (exists l1 c m l2, fl = l1 ++ (c, m) :: l2 /\ nunits <= m /\
     forall f, malloc_loop (length fl + 2 + f) ff nunits (freep s) (next s (freep s)) s = take_block nunits (lastn B l1) c m s) \/
  (Forall (small nunits) fl /\ h_size (hd s (freep s)) < nunits /\
     exists prevp, forall f, malloc_loop (length fl + S f) ff nunits (freep s) (next s (freep s)) s = malloc_loop (S f) ff nunits prevp (freep s) s).

Lemma sorted_nodup lo l1 l2 a : lo <= endn lo l1 -> sorted lo (l1 ++ l2) -> a ∈ addrs l2 -> a ∉ addrs l1.
Proof.
  intros Hlo [S1 S2]%sorted_app H2 H1. destruct (sorted_addr lo l1 a lo ltac:(lia) S1 H1).
  destruct (sorted_addr (endn lo l1) l2 a (endn lo l1) ltac:(lia) S2 H2). lia.
Qed.
Lemma freep_split l x : x = B \/ x ∈ addrs l -> exists la lb, l = la ++ lb /\ lastn B la = x /\ (la = [] \/ exists l' k, la = l' ++ [(x, k)]).
Proof.
  intros [->|Hx]; [exists [], l; split; [done|]; split; [done|by left]|].
  apply list_elem_of_fmap in Hx as ([y k] & -> & (l1 & l2 & ->)%list_elem_of_split). exists (l1 ++ [(y, k)]), l2.
  rewrite <- app_assoc. split; [done|]. split; [apply lastn_snoc|]. right. by exists l1, k.
Qed.

Lemma search_ok s fl nunits ff : ring (hd s) fl -> sorted B fl -> freep s = B \/ freep s ∈ addrs fl -> 0 < nunits -> search_spec s fl nunits ff.
Proof.
  intros (R1 & R2 & R3) Hs Hfp Hn. destruct (freep_split fl _ Hfp) as (la & lb & -> & Hx & Hla). set (x := freep s) in *.
  pose proof R1 as R1'. apply pseg_app in R1' as [Ra Rb]. rewrite Hx in Rb. rewrite lastn_app, Hx in R2.
  assert (B <= endn B la) as Hend by (pose proof Hs as [S1 _]%sorted_app; by destruct (sorted_end _ _ S1)).
  assert (x ∉ addrs lb) as Hxb.
  { intros Hin. destruct Hla as [->|(l' & k & ->)].
    - cbn in Hx. destruct (sorted_addr B lb x B ltac:(lia) Hs Hin). lia.
    - apply (sorted_nodup B _ lb x Hend Hs Hin). rewrite addrs_app, elem_of_app. right. by left. }
  destruct (first_fit nunits lb) as [Hsm|(l1 & c & m & l2 & -> & Hsm & Hm)].
  2: { left. exists (la ++ l1), c, m, l2. rewrite <- app_assoc. split; [done|]. split; [done|]. intros f.
    rewrite lastn_app, Hx. rewrite cons_middle, app_assoc in Rb. apply pseg_app in Rb as [Rb _].
    rewrite addrs_app, elem_of_app in Hxb. rewrite !length_app. cbn [length].
    replace (length la + (length l1 + S (length l2)) + 2 + f)%nat with (length l1 + S (length la + length l2 + 2 + f))%nat by lia.
    apply loop_fit; [done|done|tauto|done]. }
  assert (forall f, malloc_loop (length lb + f) ff nunits x (next s x) s = malloc_loop f ff nunits (lastn x lb) B s) as Hb.
  { intros f. rewrite loop_seg by done. unfold next. by rewrite R2. }
  destruct Hla as [->|(l' & k & ->)].
  { cbn in Hx. right. fold x. cbn [app]. split; [done|]. split; [by rewrite <- Hx, R3|]. exists (lastn x lb). intros f. rewrite Hb. by rewrite Hx. }
  assert (x ∉ addrs l' /\ x <> B) as [Hxl HxB].
  { pose proof Hs as [S1 _]%sorted_app. pose proof S1 as S1'. apply sorted_app in S1' as [S2 S3]. cbn in S3. destruct (sorted_end _ _ S2).
    split; [|lia]. intros Hin. destruct (sorted_addr B l' x B ltac:(lia) S2 Hin). lia. }
  assert (forall f, malloc_loop (length lb + S f) ff nunits x (next s x) s = malloc_loop f ff nunits B (next s B) s) as Hb2.
  { intros f. rewrite Hb. cbn [malloc_loop]. unfold size_of, ptr_of. rewrite bind_gets, R3, Z.geb_leb. destruct (Z.leb_spec nunits 0); [lia|].
    rewrite bind_gets. fold x. by destruct (Z.eqb_spec B x); [congruence|]. }
  pose proof Ra as Ra'. apply pseg_app in Ra' as [Rl (Rl1 & Rl2 & _)].
  destruct (first_fit nunits (l' ++ [(x, k)])) as [Hsm'|(l1 & c & m & l2 & E & Hsm' & Hm)].
  - right. split; [by apply Forall_app|]. apply Forall_app in Hsm' as [Hs1 Hs2]. apply Forall_cons in Hs2 as [Hs2 _].
    fold x. split; [by rewrite Rl2|]. exists (lastn B l'). intros f. rewrite !length_app. cbn [length].
    replace (length l' + 1 + length lb + S f)%nat with (length lb + S (length l' + S f))%nat by lia. rewrite Hb2, loop_seg by done.
    unfold next at 1. by rewrite Rl1.
  - left. exists l1, c, m, (l2 ++ lb). rewrite E, <- app_assoc. split; [done|]. split; [done|]. intros f. fold x. rewrite !length_app. cbn [length].
    replace (length l1 + (S (length l2) + length lb) + 2 + f)%nat with (length lb + S (length l1 + S (S (length l2 + f))))%nat by lia.
    rewrite Hb2. rewrite E, cons_middle, app_assoc in Ra. apply pseg_app in Ra as [Ra _]. apply loop_fit; [done|done| |done].
    intros Hin. destruct l2 as [|b l2 _] using rev_ind; [apply app_inj_tail in E as [-> _]; done|].
    rewrite app_comm_cons, app_assoc in E. apply app_inj_tail in E as [-> _]. apply Hxl. rewrite !addrs_app, !elem_of_app. tauto.
Qed.

(** ** The invariant: free blocks and blocks in use make up the heap *)

Fixpoint disj (l : list (Z * Z)) : Prop :=
  match l with [] => True | (a, n) :: l => (forall x, a <= x < a + 16 * n -> ~ covers l x) /\ disj l end.

Record minv (h0 : Z) (s : um) (fl live : list (Z * Z)) : Prop := {
  mi_ring : ring (hd s) fl;
  mi_sorted : sorted B fl;
  mi_freep : freep s = B \/ freep s ∈ addrs fl;
  mi_range : 0 < B /\ B + 16 <= h0 /\ ubrk s <= ulim s /\ ulim s <= 2 ^ 31;
  mi_low : forall x, covers fl x -> h0 <= x;
  mi_end : endn B fl <= ubrk s;
  mi_live : forall a n, (a, n) ∈ live -> 1 <= n /\ h0 <= a /\ a + 16 * n <= ubrk s /\ h_size (hd s a) = n;
  mi_disj : disj live;
  mi_apart : forall x, covers live x -> ~ covers fl x;
  mi_tot : 16 * (tot fl + tot live) = ubrk s - h0
}.

Lemma covers_elem l x : covers l x <-> exists a n, (a, n) ∈ l /\ a <= x < a + 16 * n.
Proof.
  induction l as [|[a n] l IH]; cbn; [split; [done|intros (? & ? & ?%elem_of_nil & _)]|]; [done|]. rewrite IH. split.
  - intros [?|(a' & n' & ? & ?)]; [exists a, n; split; [by left|done]|exists a', n'; split; [by right|done]].
  - intros (a' & n' & [[= -> ->]|?]%elem_of_cons & ?); [by left|right; by exists a', n'].
Qed.
Lemma sorted_in lo l a n : sorted lo l -> (a, n) ∈ l -> 1 <= n.
Proof. intros Hs (l1 & l2 & ->)%list_elem_of_split. apply sorted_app in Hs as [_ Hs]. cbn in Hs. lia. Qed.
Lemma addr_covered lo l a : sorted lo l -> a ∈ addrs l -> covers l a.
Proof.
  intros Hs ([a' n] & -> & Hin)%list_elem_of_fmap. apply covers_elem. exists a', n. split; [done|]. pose proof (sorted_in _ _ _ _ Hs Hin). cbn. lia.
Qed.
Lemma live_not_free h0 s fl live a n : minv h0 s fl live -> (a, n) ∈ live -> a ∉ addrs fl /\ a <> B.
Proof.
  intros I Hin. destruct (mi_live _ _ _ _ I a n Hin) as (Q1 & Q2 & Q3 & Q4). destruct (mi_range _ _ _ _ I). split; [|lia].
  intros Ha%(addr_covered B); [|apply I]. apply (mi_apart _ _ _ _ I a); [|done]. apply covers_elem. exists a, n. split; [done|lia].
Qed.
Lemma live_tot h0 s fl live : minv h0 s fl live -> 0 <= tot live.
Proof.
  intros I. assert (forall l, (forall a n, (a, n) ∈ l -> 1 <= n) -> 0 <= tot l) as Hl.
  { induction l as [|[a n] l IH]; cbn; [lia|]. intros Hl. pose proof (Hl a n ltac:(by left)). specialize (IH (fun a n H => Hl a n ltac:(by right))). lia. }
  apply Hl. intros a n Hin. by destruct (mi_live _ _ _ _ I a n Hin).
Qed.
Lemma minv_tot h0 s fl live : minv h0 s fl live -> 0 <= tot fl /\ 16 * tot fl <= ubrk s - h0.
Proof.
  intros I. pose proof (live_tot _ _ _ _ I). destruct (sorted_end _ _ (mi_sorted _ _ _ _ I)) as (_ & _ & ?). pose proof (mi_tot _ _ _ _ I). lia.
Qed.

(** A block that does not meet the free list lies in a gap of it. *)
Lemma gap_split lo l a n : sorted lo l -> lo <= a -> 1 <= n -> (forall x, a <= x < a + 16 * n -> ~ covers l x) ->
  exists l1 l2, l = l1 ++ l2 /\ endn lo l1 <= a /\ sorted (a + 16 * n - 1) l2.
Proof.
  revert lo. induction l as [|[c m] l IH]; intros lo; [by exists [], []|]. intros (S1 & S2 & S3) Hlo Hn Hd.
  destruct (Z.lt_ge_cases c a) as [Hca|Hca].
  - destruct (IH (c + 16 * m)) as (l1 & l2 & -> & Q1 & Q2); [done| |done| |].
    + destruct (Z.le_gt_cases (c + 16 * m) a); [done|]. destruct (Hd a); [lia|]. cbn. left. lia.
    + intros x Hx Hc. apply (Hd x Hx). by right.
    + by exists ((c, m) :: l1), l2.
  - exists [], ((c, m) :: l). split; [done|]. split; [done|]. cbn. split; [|done].
    destruct (Z.le_gt_cases (a + 16 * n) c); [lia|]. destruct (Hd c); [lia|]. cbn. left. lia.
Qed.

(** The invariant after a block has been freed. *)
Lemma minv_freed h0 s s' bp n fl fl' live : 0 < B /\ B + 16 <= h0 /\ ubrk s <= ulim s /\ ulim s <= 2 ^ 31 -> (forall x, covers fl x -> h0 <= x) ->
  endn B fl <= ubrk s -> h0 <= bp -> bp + 16 * n <= ubrk s -> freed s s' bp n fl fl' ->
  (forall a m, (a, m) ∈ live -> a ∉ addrs fl /\ a <> bp /\ 1 <= m /\ h0 <= a /\ a + 16 * m <= ubrk s /\ h_size (hd s a) = m) -> disj live ->
  (forall x, covers live x -> ~ covers fl x /\ ~ bp <= x < bp + 16 * n) -> 16 * (tot fl + n + tot live) = ubrk s - h0 -> minv h0 s' fl' live.
Proof.
  intros Hr Hlow He Hb1 Hb2 [[E1 E2] F1 F2 F3 F4 F5 F6 F7 F8 F9] Hlive Hd Hap Ht. split; rewrite ?E1, ?E2; try done.
  - intros x [?|?]%F6; [by apply Hlow|lia].
  - rewrite F3. lia.
  - intros a m Hin. destruct (Hlive a m Hin) as (L1 & L2 & L3 & L4 & L5 & L6). split; [done|]. split; [done|]. split; [done|]. rewrite F7; [done|lia|done|done].
  - intros x Hx. destruct (Hap x Hx). rewrite F6. tauto.
  - lia.
Qed.

Lemma disj_remove la b lb : disj (la ++ b :: lb) -> disj (la ++ lb) /\ forall x, covers (la ++ lb) x -> ~ covers [b] x.
Proof.
  destruct b as [a n]. induction la as [|[c m] la IH]; cbn.
  - intros [H1 H2]. split; [done|]. intros x Hx [?|[]]. by apply (H1 x).
  - intros [H1 H2]. destruct (IH H2) as [I1 I2]. split; [split; [|done]|].
    + intros x Hx. specialize (H1 x Hx). rewrite covers_app in *. cbn in H1. tauto.
    + intros x [Hx|Hx] [Ha|[]]; [|by apply (I2 x Hx); left]. apply (H1 x Hx). rewrite covers_app. cbn. tauto.
Qed.

Lemma free_live h0 s fl la a n lb f : minv h0 s fl (la ++ (a, n) :: lb) -> (length fl + 2 <= f)%nat ->
  exists s' fl', free f (a + sizeof_Header) s = Ok tt s' /\ minv h0 s' fl' (la ++ lb) /\ ubrk s' = ubrk s /\ ulim s' = ulim s.
Proof.
  intros I Hf. assert ((a, n) ∈ la ++ (a, n) :: lb) as Hin by (apply elem_of_app; right; by left).
  destruct (mi_live _ _ _ _ I a n Hin) as (Q1 & Q2 & Q3 & Q4). destruct (mi_range _ _ _ _ I) as (B1 & B2 & B3 & B4).
  destruct (gap_split B fl a n) as (l1 & l2 & Hfl & G1 & G2); [apply I|lia|done| |].
  { intros x Hx. apply (mi_apart _ _ _ _ I). rewrite covers_app. cbn. tauto. }
  destruct (minv_tot _ _ _ _ I). pose proof (live_tot _ _ _ _ I) as Hlt. pose proof (mi_tot _ _ _ _ I) as Ht. rewrite tot_app in Hlt, Ht. cbn in Hlt, Ht.
  destruct (disj_remove _ _ _ (mi_disj _ _ _ _ I)) as [D1 D2].
  destruct (free_ok s l1 l2 a n f) as (s' & fl' & Hrun & Hfr); try (rewrite <- Hfl); try done; try apply I; [lia|lia|]. rewrite <- Hfl in Hfr.
  exists s', fl'. split; [done|]. split; [|exact (fr_env _ _ _ _ _ _ Hfr)].
  apply (minv_freed h0 s s' a n fl fl'); try done; try apply I; [| |rewrite tot_app; lia].
  - intros a' m Hin'. assert ((a', m) ∈ la ++ (a, n) :: lb) as Hin2 by (rewrite elem_of_app in *; rewrite elem_of_cons; tauto).
    destruct (live_not_free _ _ _ _ a' m I Hin2). split; [done|]. split; [|by apply (mi_live _ _ _ _ I)]. intros ->.
    destruct (mi_live _ _ _ _ I a m Hin2). apply (D2 a); [apply covers_elem; exists a, m; split; [done|lia]|]. cbn. left. lia.
  - intros x Hx. pose proof (D2 x Hx) as Hn. cbn in Hn. split; [|tauto]. apply (mi_apart _ _ _ _ I). rewrite covers_app in *. cbn. tauto.
Qed.

(** Taking a block out of the free list, whole or its upper part. *)
Lemma fring_unlink H l1 c m l2 H' : ring H (l1 ++ (c, m) :: l2) -> sorted B (l1 ++ (c, m) :: l2) ->
  H' = <[lastn B l1 := mkHeader (h_ptr (H c)) (h_size (H (lastn B l1)))]> H -> ring H' (l1 ++ l2).
Proof.
  intros (R1 & R2 & R3) [S1 (S2 & S3 & S4)]%sorted_app ->. apply pseg_app in R1 as [R1 (R4 & R5 & R6)]. rewrite lastn_app in R2. cbn in R2.
  set (t := lastn B l1) in *. set (H' := <[t := _]> H). assert (only t H H') as Ho by apply only_put.
  destruct (sorted_end _ _ S1) as (E1 & _). destruct (sorted_last B B l1 ltac:(lia) S1) as [Htb _].
  assert (t < c) as Htc.
  { destruct (lastn_in B l1) as [E|Hin]; [unfold t; lia|]. destruct (sorted_addr B l1 t B ltac:(lia) S1 Hin). lia. }
  destruct (pseg_move H H' c t (c + 16 * m) l2) as [M1 M2]; try done; [lia|lia|unfold H'; by rewrite fn_lookup_insert|].
  split; [apply pseg_app; split; [|done]|split; [by rewrite lastn_app|unfold H'; by rewrite size_put_ptr]].
  apply (pseg_ext H _ B B l1); [lia|done|intros x _; apply size_put_ptr| |done]. intros x _ Hlt. rewrite Ho; [done|]. unfold t. lia.
Qed.
Lemma fring_shrink H l1 c m l2 m' q v H' : ring H (l1 ++ (c, m) :: l2) -> sorted B (l1 ++ (c, m) :: l2) ->
  1 <= m' < m -> q = c + 16 * m' ->
  H' = <[q := v]> (<[c := mkHeader (h_ptr (H c)) m']> H) -> ring H' (l1 ++ (c, m') :: l2).
Proof.
  intros (R1 & R2 & R3) Hs Hm -> ->. pose proof Hs as [S1 (S2 & S3 & S4)]%sorted_app. apply pseg_app in R1 as [R1 (R4 & R5 & R6)]. rewrite lastn_app in R2. cbn in R2.
  set (q := c + 16 * m'). set (H1 := <[c := _]> H). set (H' := <[q := v]> H1). destruct (sorted_end _ _ S1) as (E1 & _).
  assert (forall x, x <> c -> x <> q -> H' x = H x) as Ho by (intros x X1 X2; unfold H', H1; by rewrite !fn_lookup_insert_ne).
  assert (H' c = mkHeader (h_ptr (H c)) m') as Hc by (unfold H', H1; rewrite fn_lookup_insert_ne, fn_lookup_insert by (unfold q; lia); done).
  assert (forall x, x = B \/ x ∈ addrs l1 -> H' x = H x) as Ho1.
  { intros x Hx. assert (x < c) by (destruct Hx as [->|Hx]; [lia|]; destruct (sorted_addr B l1 x B ltac:(lia) S1 Hx); lia). apply Ho; unfold q; lia. }
  assert (forall x, x ∈ addrs l2 -> H' x = H x) as Ho2.
  { intros x Hx. destruct (sorted_addr (c + 16 * m) l2 x c ltac:(lia) S4 Hx). apply Ho; unfold q; lia. }
  split; [|split; [rewrite lastn_app; cbn|by rewrite Ho1 by (by left)]].
  - apply pseg_app. split; [|cbn; rewrite Hc, Ho1 by apply lastn_in; split; [done|split; [done|]]].
    + apply (pseg_ext H _ B B l1); [lia|done| | |done]; intros x Hx; [|intros _]; rewrite Ho1; tauto.
    + apply (pseg_ext H _ c (c + 16 * m) l2); [lia|done| | |done]; [intros x Hx; by rewrite Ho2|].
      intros x [->|Hx] _; [by rewrite Hc|by rewrite Ho2].
  - destruct (lastn_in c l2) as [E|Hin]; [rewrite E in *; by rewrite Hc|by rewrite Ho2].
Qed.

(** What [malloc] has done when it returns [r]. *)
Definition got (h0 : Z) (s s' : um) (live : list (Z * Z)) (nunits r : Z) : Prop :=
  r <> 0 /\ (exists fl', minv h0 s' fl' ((r - sizeof_Header, nunits) :: live)) /\ ulim s' = ulim s.

Lemma sorted_covers lo l x : sorted lo l -> covers l x -> lo < x < endn lo l.
Proof.
  revert lo. induction l as [|[a n] l IH]; intros lo; cbn; [done|]. intros (S1 & S2 & S3) [Hx|Hx]; [destruct (sorted_end _ _ S3); lia|].
  specialize (IH _ S3 Hx). lia.
Qed.

Record taken (s s' : um) (fl fl' : list (Z * Z)) (a nunits : Z) : Prop := {
  tk_env : ubrk s' = ubrk s /\ ulim s' = ulim s;
  tk_ring : ring (hd s') fl' /\ sorted B fl' /\ endn B fl' <= endn B fl;
  tk_freep : freep s' = B \/ freep s' ∈ addrs fl';
  tk_rest : forall x, covers fl' x -> covers fl x /\ ~ a <= x < a + 16 * nunits;
  tk_block : forall x, a <= x < a + 16 * nunits -> covers fl x;
  tk_tot : tot fl = tot fl' + nunits;
  tk_size : h_size (hd s' a) = nunits;
  tk_other : forall b, ~ covers fl b -> h_size (hd s' b) = h_size (hd s b)
}.
Lemma minv_taken h0 s s' fl fl' live a nunits : minv h0 s fl live -> 1 <= nunits -> taken s s' fl fl' a nunits ->
  minv h0 s' fl' ((a, nunits) :: live) /\ a <> - 16.
Proof.
  intros I Hn [[T1 T1'] (T2 & T3 & T4) T5 T6 T7 T8 T9 T10]. pose proof (mi_range _ _ _ _ I) as Hr. pose proof (mi_end _ _ _ _ I) as He.
  pose proof (mi_low _ _ _ _ I a (T7 a ltac:(lia))) as Ha. split; [|lia].
  pose proof (sorted_covers _ _ _ (mi_sorted _ _ _ _ I) (T7 (a + 16 * nunits - 1) ltac:(lia))) as Hb.
  split; rewrite ?T1, ?T1'; try done; [|lia| | | |].
  - intros x Hx. apply (mi_low _ _ _ _ I), T6, Hx.
  - intros b n [[= -> ->]|Hin]%elem_of_cons; [split; [lia|]; split; [lia|]; split; [lia|done]|].
    destruct (mi_live _ _ _ _ I b n Hin) as (L1 & L2 & L3 & L4). rewrite T10; [done|].
    apply (mi_apart _ _ _ _ I), covers_elem. exists b, n. split; [done|lia].
  - cbn. split; [|apply I]. intros x Hx Hl. by apply (mi_apart _ _ _ _ I x), T7.
  - intros x [Hx|Hx] Hc; destruct (T6 x Hc); [done|]. by apply (mi_apart _ _ _ _ I x).
  - pose proof (mi_tot _ _ _ _ I). cbn. lia.
Qed.

Lemma take_taken s l1 c m l2 nunits : ring (hd s) (l1 ++ (c, m) :: l2) -> sorted B (l1 ++ (c, m) :: l2) -> m < 2 ^ 32 -> 1 <= nunits <= m ->
  exists a s' fl', take_block nunits (lastn B l1) c m s = Ok (a + sizeof_Header) s' /\ taken s s' (l1 ++ (c, m) :: l2) fl' a nunits.
Proof.
  intros Hr Hs Hm32 Hm. pose proof Hs as [S1 (S2 & S3 & S4)]%sorted_app. destruct (sorted_end _ _ S1) as (E1 & _ & T1). destruct (sorted_end _ _ S4) as (E4 & _ & T4).
  pose proof Hr as (R1 & _). apply pseg_app in R1 as [_ (_ & R5 & _)].
  assert (lastn B l1 = B \/ lastn B l1 ∈ addrs l1) as Hlast by apply lastn_in.
  assert (forall x, covers l1 x -> x < c) as C1 by (intros x Hx; pose proof (sorted_covers _ _ _ S1 Hx); lia).
  assert (forall x, covers l2 x -> c + 16 * m < x) as C2 by (intros x Hx; pose proof (sorted_covers _ _ _ S4 Hx); lia).
  unfold take_block, ptr_of, size_of, put_ptr, put_size. change sizeof_Header with 16. destruct (Z.eqb_spec m nunits) as [->|Hne].
  - rewrite bind_gets, bind_modify, bind_modify. eexists c, _, (l1 ++ l2). split; [reflexivity|].
    split; cbn [hd set_hd set_freep freep ubrk ulim]; [done| | | | | |by rewrite size_put_ptr|intros; by rewrite size_put_ptr].
    + split; [by eapply fring_unlink|]. split; [apply sorted_app; split; [done|]; apply (sorted_weaken (c + 16 * nunits)); [lia|done]|].
      rewrite !endn_app. destruct l2 as [|[d k] l2]; cbn; lia.
    + rewrite addrs_app, elem_of_app. tauto.
    + intros x. rewrite !covers_app. cbn. intros [Hx|Hx]; [specialize (C1 x Hx)|specialize (C2 x Hx)]; split; (tauto || lia).
    + intros x Hx. rewrite covers_app. cbn. tauto.
    + rewrite !tot_app. cbn. lia.
  - rewrite bind_modify, bind_gets, bind_modify. cbn [hd set_hd]. rewrite fn_lookup_insert. cbn [h_size h_ptr].
    rewrite (u32_small (m - nunits)) by lia. set (q := c + 16 * (m - nunits)). rewrite bind_modify.
    eexists q, _, (l1 ++ (c, m - nunits) :: l2). split; [reflexivity|].
    split; cbn [hd set_hd set_freep freep ubrk ulim]; [done| | | | | | |].
    + split; [eapply (fring_shrink _ l1 c m l2); [done|done| | |reflexivity]; [lia|done]|].
      split; [apply sorted_app; split; [done|]; cbn; split; [lia|]; split; [lia|]; apply (sorted_weaken (c + 16 * m)); [lia|done]|].
      rewrite !endn_app. cbn. destruct l2 as [|[d k] l2]; cbn; lia.
    + rewrite addrs_app, elem_of_app. tauto.
    + unfold q. intros x. rewrite !covers_app. cbn. intros [Hx|[Hx|Hx]]; [specialize (C1 x Hx)| |specialize (C2 x Hx)].
      * split; [tauto|lia].
      * split; [right; left; lia|lia].
      * split; [tauto|lia].
    + unfold q. intros x Hx. rewrite covers_app. cbn. right. left. lia.
    + rewrite !tot_app. cbn. lia.
    + rewrite fn_lookup_insert. cbn. apply u32_small. lia.
    + intros b Hb. rewrite covers_app in Hb. cbn in Hb. rewrite !fn_lookup_insert_ne; [done|..]; unfold q; intros <-; apply Hb; right; left; lia.
Qed.

Lemma take_ok h0 s l1 c m l2 live nunits : minv h0 s (l1 ++ (c, m) :: l2) live -> 1 <= nunits <= m ->
  exists r s', take_block nunits (lastn B l1) c m s = Ok r s' /\ got h0 s s' live nunits r.
Proof.
  intros I Hm. destruct (minv_tot _ _ _ _ I) as [_ Ht]. destruct (mi_range _ _ _ _ I) as (G1 & G2 & G3 & G4).
  pose proof (mi_sorted _ _ _ _ I) as Hs. pose proof Hs as [S1 (_ & _ & S4)]%sorted_app. destruct (sorted_end _ _ S1) as (_ & _ & ?). destruct (sorted_end _ _ S4) as (_ & _ & ?).
  rewrite tot_app in Ht. cbn in Ht.
  destruct (take_taken s l1 c m l2 nunits) as (a & s' & fl' & Hrun & Htk); [apply I|done|lia|done|].
  destruct (minv_taken h0 s s' _ fl' live a nunits I ltac:(lia) Htk) as [I' Ha]. exists (a + sizeof_Header), s'. split; [done|]. unfold got.
  split; [unfold sizeof_Header; lia|]. split; [|apply Htk]. exists fl'. replace (a + sizeof_Header - sizeof_Header) with a by lia. done.
Qed.

Lemma sbrk_grow s n : 0 < n < 2 ^ 31 ->
  sbrk n s = if ulim s <? ubrk s + n then Ok (-1) s else Ok (ubrk s) (set_brk (ubrk s + n) s).
Proof.
  intros Hn. unfold sbrk. rewrite s32_small by lia. rewrite !bind_gets, !Z.gtb_ltb. destruct (Z.ltb_spec 0 n); [|lia].
  by destruct (ulim s <? ubrk s + n).
Qed.

(** [morecore] adds the new memory to the free list. *)
Lemma morecore_ok h0 s fl live nunits f : minv h0 s fl live -> 1 <= nunits -> 16 * nunits < 2 ^ 31 -> (length fl + 2 <= f)%nat ->
  let nu := Z.max nunits 4096 in
  (ulim s < ubrk s + 16 * nu /\ morecore f nunits s = Ok 0 s) \/
  (exists s' fl', morecore f nunits s = Ok (freep s') s' /\ minv h0 s' fl' live /\ ulim s' = ulim s /\ (length fl' <= S (length fl))%nat /\
     exists a m, (a, m) ∈ fl' /\ nunits <= m).
Proof.
  intros I Hn Hn2 Hf nu. assert (nu = Z.max nunits 4096) as Hnu by done. clearbody nu. destruct (mi_range _ _ _ _ I) as (G1 & G2 & G3 & G4). destruct (minv_tot _ _ _ _ I) as [T1 T2].
  pose proof (mi_end _ _ _ _ I) as He. pose proof (mi_ring _ _ _ _ I) as Hr. destruct Hr as (R1 & R2 & R3).
  assert ((if nunits <? 4096 then 4096 else nunits) = nu) as Enu by (destruct (Z.ltb_spec nunits 4096); lia).
  unfold morecore. rewrite Enu. change sizeof_Header with 16. pose proof (sbrk_grow s (nu * 16) ltac:(lia)) as Hsb.
  destruct (Z.ltb_spec (ulim s) (ubrk s + nu * 16)); [left; split; [lia|by rewrite (bind_Ok _ _ _ _ _ Hsb)]|right].
  rewrite (bind_Ok _ _ _ _ _ Hsb). assert (h0 <= ubrk s) as Hh by (pose proof (live_tot _ _ _ _ I); pose proof (mi_tot _ _ _ _ I); lia).
  destruct (Z.eqb_spec (ubrk s) (-1)); [lia|]. set (bp := ubrk s) in *.
  set (s1 := set_hd (<[bp := mkHeader (h_ptr (hd s bp)) (u32 nu)]> (hd s)) (set_brk (bp + nu * 16) s)).
  assert (bp ∉ addrs fl) as Hbp by (intros Hin; destruct (sorted_addr B fl bp B ltac:(lia) (mi_sorted _ _ _ _ I) Hin); lia).
  assert (only bp (hd s) (hd s1)) as Ho by apply only_put.
  assert (ring (hd s1) fl) as Hr1.
  { split; [apply (pseg_only bp (hd s) _ B B fl); (done || lia || apply I)|]. split; [|rewrite Ho; [done|lia]].
    rewrite Ho; [done|]. destruct (lastn_in B fl) as [->|Hin]; [lia|]. intros E. by rewrite E in Hin. }
  destruct (free_ok s1 fl [] bp nu f) as (s' & fl' & Hrun & Hfr); rewrite ?app_nil_r; try done; try apply I; try lia.
  { unfold s1. cbn [hd set_hd]. rewrite fn_lookup_insert. cbn. apply u32_small. lia. }
  rewrite app_nil_r in Hfr. destruct (fr_env _ _ _ _ _ _ Hfr) as [V1 V2].
  assert (ubrk s1 = bp + 16 * nu) as Eb by (cbn; lia).
  exists s', fl'. split; [|split; [|split; [done|split; [apply Hfr|]]]].
  - unfold put_size. rewrite bind_modify. fold s1. by rewrite (bind_Ok _ _ _ _ _ Hrun).
  - apply (minv_freed h0 s1 s' bp nu fl fl'); try done; rewrite ?Eb; try lia; try apply I.
    + intros a m Hin. destruct (mi_live _ _ _ _ I a m Hin) as (L1 & L2 & L3 & L4). destruct (live_not_free _ _ _ _ a m I Hin).
      fold bp in L3. split; [done|]. split; [lia|]. split; [done|]. split; [done|]. split; [lia|]. rewrite Ho; [done|lia].
    + intros x Hx. split; [by apply (mi_apart _ _ _ _ I)|]. apply covers_elem in Hx as (a & n' & Hin & Hx).
      destruct (mi_live _ _ _ _ I a n' Hin) as (L1 & L2 & L3 & L4). fold bp in L3. lia.
    + pose proof (mi_tot _ _ _ _ I) as Ht. fold bp in Ht. lia.
  - destruct (fr_big _ _ _ _ _ _ Hfr) as (a & m & ? & ?). exists a, m. split; [done|]. lia.
Qed.

(** [malloc] on a heap in use: a block, or 0 when the kernel refuses memory. *)
Lemma malloc_loop_ok h0 s fl live nunits f : minv h0 s fl live -> 1 <= nunits -> 16 * nunits < 2 ^ 31 -> (2 * length fl + 6 <= f)%nat ->
  exists r s', malloc_loop f f nunits (freep s) (next s (freep s)) s = Ok r s' /\
    (got h0 s s' live nunits r \/ (r = 0 /\ s' = s /\ ulim s < ubrk s + 16 * Z.max nunits 4096)).
Proof.
  intros I Hn Hn2 Hf. assert (forall s fl, minv h0 s fl live -> (exists a m, (a, m) ∈ fl /\ nunits <= m) -> forall g, (length fl + 2 <= g)%nat ->
    exists r s', malloc_loop g f nunits (freep s) (next s (freep s)) s = Ok r s' /\ got h0 s s' live nunits r) as Hfit.
  { clear s fl I Hf. intros s fl I (a & m & Hin & Hm) g Hg.
    destruct (search_ok s fl nunits f (mi_ring _ _ _ _ I) (mi_sorted _ _ _ _ I) (mi_freep _ _ _ _ I) ltac:(lia)) as [(l1 & c & k & l2 & -> & Hk & Hrun)|(Hsm & _)].
    - destruct (take_ok h0 s l1 c k l2 live nunits I ltac:(lia)) as (r & s' & Ht & Hgot). exists r, s'. split; [|done].
      rewrite <- Ht, <- (Hrun (g - length (l1 ++ (c, k) :: l2) - 2)%nat). f_equal. lia.
    - rewrite Forall_forall in Hsm. specialize (Hsm _ Hin). unfold small in Hsm. cbn in Hsm. lia. }
  destruct (search_ok s fl nunits f (mi_ring _ _ _ _ I) (mi_sorted _ _ _ _ I) (mi_freep _ _ _ _ I) ltac:(lia)) as [(l1 & c & k & l2 & E & Hk & _)|(_ & Hsz & prevp & Hrun)].
  { destruct (Hfit s fl I) with (g := f) as (r & s' & Hr & Hgot); [exists c, k; split; [|done]; rewrite E; apply elem_of_app; right; by left|lia|].
    exists r, s'. split; [done|by left]. }
  specialize (Hrun (f - length fl - 1)%nat). replace (length fl + S (f - length fl - 1))%nat with f in Hrun by lia. rewrite Hrun. cbn [malloc_loop]. unfold size_of, ptr_of. rewrite bind_gets, Z.geb_leb.
  destruct (Z.leb_spec nunits (h_size (hd s (freep s)))); [lia|]. rewrite bind_gets, Z.eqb_refl.
  destruct (morecore_ok h0 s fl live nunits f I Hn Hn2 ltac:(lia)) as [[Hlim Hm]|(s1 & fl' & Hm & I1 & V & Hlen & Hbig)]; rewrite (bind_Ok _ _ _ _ _ Hm).
  { exists 0, s. split; [done|]. right. done. }
  assert (freep s1 <> 0) as Hfp.
  { destruct (mi_range _ _ _ _ I1) as (G1 & _). destruct (mi_freep _ _ _ _ I1) as [->|Hin]; [lia|].
    destruct (sorted_addr B fl' _ B ltac:(lia) (mi_sorted _ _ _ _ I1) Hin). lia. }
  destruct (Z.eqb_spec (freep s1) 0); [done|]. rewrite bind_gets.
  destruct (Hfit s1 fl' I1 Hbig (f - length fl - 1)%nat ltac:(lia)) as (r & s' & Hr & Hg1 & Hg2 & Hg3). exists r, s'. split; [done|left].
  split; [done|]. split; [done|congruence].
Qed.

(** ** Sequences of calls *)

(** The first [malloc] makes the ring of [base] alone. *)
Lemma malloc_first h0 s f nb : freep s = 0 -> ubrk s = h0 -> 0 < B -> B + 16 <= h0 -> ubrk s <= ulim s -> ulim s <= 2 ^ 31 ->
  exists s1, malloc B f nb s = malloc_loop f f (units nb) (freep s1) (next s1 (freep s1)) s1 /\ minv h0 s1 [] [] /\ ubrk s1 = ubrk s /\ ulim s1 = ulim s.
Proof.
  intros Hf Hb HB HB2 Hu Hl. unfold malloc. rewrite bind_gets, Hf. cbn [Z.eqb]. unfold put_ptr, put_size, ptr_of.
  eexists (set_hd _ (set_freep B (set_hd _ s))). split; [reflexivity|]. split; [|done].
  split; cbn [hd set_hd set_freep freep ubrk ulim]; try done; [|by left|cbn; lia|by intros a n ?%elem_of_nil|cbn; lia].
  split; [done|]. cbn. by rewrite !fn_lookup_insert.
Qed.
Lemma minv_freep h0 s fl live : minv h0 s fl live -> freep s <> 0.
Proof.
  intros I. destruct (mi_range _ _ _ _ I) as (G1 & _). destruct (mi_freep _ _ _ _ I) as [->|Hin]; [lia|].
  destruct (sorted_addr B fl _ B ltac:(lia) (mi_sorted _ _ _ _ I) Hin). lia.
Qed.
Lemma malloc_later h0 s fl live f nb : minv h0 s fl live -> malloc B f nb s = malloc_loop f f (units nb) (freep s) (next s (freep s)) s.
Proof. intros I. unfold malloc. rewrite bind_gets. by rewrite (proj2 (Z.eqb_neq _ _) (minv_freep _ _ _ _ I)). Qed.

(** The loop bound: twice as many steps as there can be blocks. *)
Definition mfuel (h0 : Z) (s : um) : nat := Z.to_nat ((ulim s - h0) / 8 + 8).
Lemma sorted_gaps lo l : sorted lo l -> lo + 16 * tot l + Z.of_nat (length l) <= endn lo l /\ Z.of_nat (length l) <= tot l.
Proof. revert lo. induction l as [|[a n] l IH]; intros lo; cbn [endn tot length]; [cbn; lia|]. intros (S1 & S2 & S3). specialize (IH _ S3). lia. Qed.
Lemma mfuel_ok h0 s fl live : minv h0 s fl live -> (2 * length fl + 6 <= mfuel h0 s)%nat.
Proof.
  intros I. destruct (sorted_gaps _ _ (mi_sorted _ _ _ _ I)) as [_ Hl]. destruct (minv_tot _ _ _ _ I) as [_ Ht]. destruct (mi_range _ _ _ _ I) as (_ & _ & ? & _).
  unfold mfuel. assert (2 * tot fl <= (ulim s - h0) / 8) by (apply Z.div_le_lower_bound; lia). lia.
Qed.

(** A program that calls [malloc] and frees blocks it holds; the blocks it holds
    are [(header address, units)]. *)
Inductive mstep (h0 : Z) : um * list (Z * Z) -> um * list (Z * Z) -> Prop :=
| ms_malloc s live nb r s' : 0 <= nb < 2 ^ 31 - 31 -> malloc B (mfuel h0 s) nb s = Ok r s' ->
    mstep h0 (s, live) (s', if r =? 0 then live else (r - sizeof_Header, units nb) :: live)
| ms_free s la a n lb s' : free (mfuel h0 s) (a + sizeof_Header) s = Ok tt s' -> mstep h0 (s, la ++ (a, n) :: lb) (s', la ++ lb).

Definition munit (nb : Z) (u : Z) : Prop := u = units nb /\ 1 <= u /\ 16 * u < 2 ^ 31 /\ nb <= 16 * (u - 1).
Lemma units_ok nb : 0 <= nb < 2 ^ 31 - 31 -> munit nb (units nb).
Proof.
  intros Hn. unfold munit. split; [done|]. unfold units. change sizeof_Header with 16. replace (nb + 16 - 1) with (nb + 15) by lia.
  pose proof (Z.div_mod (nb + 15) 16 ltac:(lia)). pose proof (Z.mod_pos_bound (nb + 15) 16 ltac:(lia)). rewrite u32_small; lia.
Qed.

Definition mok (h0 lim : Z) (st : um * list (Z * Z)) : Prop :=
  ulim st.1 = lim /\ 0 < B /\ B + 16 <= h0 /\ h0 <= lim /\ lim <= 2 ^ 31 /\
  ((freep st.1 = 0 /\ ubrk st.1 = h0 /\ st.2 = []) \/ exists fl, minv h0 st.1 fl st.2).

Lemma malloc_run h0 lim s live nb : mok h0 lim (s, live) -> 0 <= nb < 2 ^ 31 - 31 ->
  exists r s', malloc B (mfuel h0 s) nb s = Ok r s' /\
    (got h0 s s' live (units nb) r \/
     (r = 0 /\ mok h0 lim (s', live) /\ lim < ubrk s + 16 * Z.max (units nb) 4096 /\ ubrk s' = ubrk s)).
Proof.
  intros (Hl & HB & HB2 & Hh & Hl2 & Hcase) Hnb. cbn [fst snd] in *. destruct (units_ok nb Hnb) as (_ & U1 & U2 & _).
  destruct Hcase as [(Hf & Hb & ->)|(fl & I)].
  - destruct (malloc_first h0 s (mfuel h0 s) nb Hf Hb HB HB2 ltac:(lia) ltac:(lia)) as (s1 & E & I & E1 & E2). rewrite E.
    assert (mfuel h0 s = mfuel h0 s1) as Ef by (unfold mfuel; by rewrite E2). pose proof (mfuel_ok _ _ _ _ I) as Hfu. rewrite Ef.
    destruct (malloc_loop_ok h0 s1 [] [] (units nb) (mfuel h0 s1) I U1 U2 Hfu) as (r & s' & Hrun & [(G1 & G2 & G3)|(-> & -> & G3)]).
    + exists r, s'. split; [done|left]. split; [done|]. split; [done|congruence].
    + exists 0, s1. split; [done|right]. split; [done|]. split; [|split; [lia|done]]. unfold mok. cbn [fst snd]. split_and!; try (done || lia). right. by exists [].
  - rewrite (malloc_later h0 s fl live _ _ I).
    destruct (malloc_loop_ok h0 s fl live (units nb) (mfuel h0 s) I U1 U2 (mfuel_ok _ _ _ _ I)) as (r & s' & Hrun & [Hg|(-> & -> & G3)]).
    + exists r, s'. split; [done|by left].
    + exists 0, s. split; [done|right]. split; [done|]. split; [|split; [lia|done]]. unfold mok. cbn [fst snd]. split_and!; try (done || lia). right. by exists fl.
Qed.
Lemma free_run h0 lim s la a n lb : mok h0 lim (s, la ++ (a, n) :: lb) ->
  exists s', free (mfuel h0 s) (a + sizeof_Header) s = Ok tt s' /\ mok h0 lim (s', la ++ lb).
Proof.
  intros (Hl & HB & HB2 & Hh & Hl2 & [(_ & _ & E)|(fl & I)]); cbn [fst snd] in *; [by destruct la|].
  pose proof (mfuel_ok _ _ _ _ I) as Hfu. destruct (free_live h0 s fl la a n lb (mfuel h0 s) I ltac:(lia)) as (s' & fl' & Hrun & I' & E1 & E2).
  exists s'. split; [done|]. unfold mok. cbn [fst snd]. split_and!; try (done || lia || congruence). right. by exists fl'.
Qed.
Lemma mok_step h0 lim st st' : mok h0 lim st -> mstep h0 st st' -> mok h0 lim st'.
Proof.
  intros Hok Hst. destruct Hst as [s live nb r s' Hnb Hrun|s la a n lb s' Hrun].
  - destruct (malloc_run h0 lim s live nb Hok Hnb) as (r' & s'' & Hrun' & Hcase). rewrite Hrun in Hrun'. injection Hrun' as <- <-.
    destruct Hcase as [(G1 & G2 & G3)|(-> & Hok' & _)]; [|done]. rewrite (proj2 (Z.eqb_neq _ _) G1).
    destruct Hok as (Hl & HB & HB2 & Hh & Hl2 & _). unfold mok. cbn [fst snd] in *. split_and!; try (done || lia || congruence). by right.
  - destruct (free_run h0 lim s la a n lb Hok) as (s'' & Hrun' & Hok'). rewrite Hrun in Hrun'. by injection Hrun' as <-.
Qed.
End spec.

(** A free list as large as its room is one block. *)
Lemma one_block B h0 e a n l : sorted B ((a, n) :: l) -> h0 <= a -> endn B ((a, n) :: l) <= e -> 16 * tot ((a, n) :: l) = e - h0 -> a = h0 /\ l = [].
Proof.
  intros (S1 & S2 & S3) Ha He Ht. destruct (sorted_gaps _ _ S3) as [Hg _]. cbn in He, Ht. destruct l as [|b l]; [split; [cbn in *; lia|done]|].
  cbn [length] in Hg. lia.
Qed.

(** The state after any calls is safe: blocks in use do not overlap and lie in
    the heap; [malloc] gives a block of at least the size asked for, apart from
    all in use, or 0 when the kernel refuses memory; every block in use can be
    freed; and when none is in use, the free list is the whole heap, as one
    block. *)
Definition heap_ok (B h0 lim : Z) (s : um) (live : list (Z * Z)) : Prop :=
  (forall a n, (a, n) ∈ live -> h0 <= a /\ a + 16 * n <= ubrk s) /\ disj live /\
  (forall nb, 0 <= nb < 2 ^ 31 - 31 -> exists r s', malloc B (mfuel h0 s) nb s = Ok r s' /\
     ((r = 0 /\ lim < ubrk s + 16 * Z.max (units nb) 4096) \/
      (nb <= 16 * (units nb - 1) /\ h0 <= r - 16 /\ r - 16 + 16 * units nb <= ubrk s' /\ disj ((r - 16, units nb) :: live)))) /\
  (forall a n, (a, n) ∈ live -> exists s', free (mfuel h0 s) (a + sizeof_Header) s = Ok tt s') /\
  (live = [] -> freep s <> 0 -> exists fl, ring B (hd s) fl /\ ((ubrk s = h0 /\ fl = []) \/ fl = [(h0, (ubrk s - h0) / 16)])).

(** C5: [malloc] and [free] keep the heap safe: after any sequence of calls, with
    requests below 2^31 - 31 bytes, the blocks in use are disjoint and inside the
    heap, every further call returns (the loops end), a block from [malloc] holds
    the bytes asked for and overlaps no other, 0 is returned only when [sbrk]
    failed, and freeing everything joins the heap into one free block. *)
Theorem malloc_free_safe B h0 lim H s live : 0 < B -> B + 16 <= h0 -> h0 <= lim -> lim <= 2 ^ 31 ->
  star (mstep B h0) (mkUm H 0 h0 lim, []) (s, live) -> heap_ok B h0 lim s live.
Proof.
  intros HB HB2 Hh Hl Hst. assert (mok B h0 lim (s, live)) as Hok.
  { apply (star_invariant _ _ (mok_step B h0 lim) _ _ Hst). unfold mok. cbn. split_and!; try done. by left. }
  pose proof Hok as (El & _ & _ & _ & _ & Hcase). cbn [fst snd] in *. split; [|split; [|split; [|split]]].
  - destruct Hcase as [(_ & _ & ->)|(fl & I)]; [by intros a n ?%elem_of_nil|]. intros a n Hin. destruct (mi_live _ _ _ _ _ I a n Hin). lia.
  - destruct Hcase as [(_ & _ & ->)|(fl & I)]; [done|apply I].
  - intros nb Hnb. destruct (malloc_run B h0 lim s live nb Hok Hnb) as (r & s' & Hrun & [(G1 & (fl' & I) & G3)|(-> & _ & G3 & _)]); eexists _, s'; (split; [exact Hrun|]); [right|by left].
    destruct (units_ok nb Hnb) as (_ & _ & _ & U). change sizeof_Header with 16 in I. destruct (mi_live _ _ _ _ _ I (r - 16) (units nb)) as (_ & ? & ? & _); [by left|].
    split; [done|]. split; [done|]. split; [done|apply (mi_disj _ _ _ _ _ I)].
  - intros a n (la & lb & ->)%list_elem_of_split. destruct (free_run B h0 lim s la a n lb Hok) as (s' & Hrun & _). by exists s'.
  - intros -> Hf. destruct Hcase as [(? & _)|(fl & I)]; [done|]. exists fl. split; [apply I|].
    pose proof (mi_tot _ _ _ _ _ I) as Ht. pose proof (mi_end _ _ _ _ _ I) as He. cbn in Ht. destruct fl as [|[a n] fl]; [left; cbn in *; split; [lia|done]|right].
    pose proof (mi_sorted _ _ _ _ _ I) as Hs. pose proof Hs as (_ & Hn & _).
    destruct (one_block B h0 (ubrk s) a n fl Hs) as [-> ->]; [apply (mi_low _ _ _ _ _ I); cbn; left; lia|done|lia|].
    cbn in Ht. replace (ubrk s - h0) with (n * 16) by lia. by rewrite Z.div_mul.
Qed.

(** A program that has called [malloc(100)]. *)
Definition ex_um : um := mkUm (fun _ => mkHeader 0 0) 0 4096 200000.
Lemma malloc_free_safe_witness : exists s, star (mstep 1000 4096) (ex_um, []) (s, [(69504, 8)]) /\ heap_ok 1000 4096 200000 s [(69504, 8)].
Proof.
  assert (match malloc 1000 (mfuel 4096 ex_um) 100 ex_um with Ok r _ => r = 69520 | _ => False end) as H by (vm_compute; reflexivity).
  destruct (malloc 1000 (mfuel 4096 ex_um) 100 ex_um) as [r s| | |] eqn:E; [subst r|destruct H..].
  assert (star (mstep 1000 4096) (ex_um, []) (s, [(69504, 8)])) as Hs.
  { eapply star_next; [|apply star_refl]. exact (ms_malloc 1000 4096 ex_um [] 100 69520 s ltac:(lia) E). }
  exists s. split; [exact Hs|]. apply (malloc_free_safe 1000 4096 200000 (fun _ => mkHeader 0 0)); [lia|lia|lia|lia|exact Hs].
Defined.

(** a request near 2^32 bytes corrupts the heap: [nu * sizeof(Header)] does not
    fit the [int] that [sbrk] takes, [malloc(0xffffffff)] gets 16 bytes from the
    kernel, and returns the first byte after the heap as a block of 2^32 bytes. *)
Theorem malloc_huge_corrupts B h0 lim H f : 0 < B -> B + 16 <= h0 -> h0 + 16 <= lim -> lim <= 2 ^ 31 -> (5 <= f)%nat ->
  exists s, malloc B f (2 ^ 32 - 1) (mkUm H 0 h0 lim) = Ok (h0 + 16) s /\ ubrk s = h0 + 16 /\ h_size (hd s h0) = 2 ^ 28 + 1.
Proof.
  intros HB HB2 Hl Hl2 Hf. destruct (malloc_first B h0 (mkUm H 0 h0 lim) f (2 ^ 32 - 1)) as (s1 & E & I & E1 & E2); [done|done|done|done|cbn; lia|done|]. rewrite E.
  cbn in E1, E2. change (units (2 ^ 32 - 1)) with (2 ^ 28 + 1). set (nu := 2 ^ 28 + 1). assert (nu = 268435457) as Hnu by done. clearbody nu.
  assert (freep s1 = B) as Efp by (destruct (mi_freep _ _ _ _ _ I) as [?|Hin]; [done|by apply elem_of_nil in Hin]).
  destruct (mi_ring _ _ _ _ _ I) as (_ & R2 & R3). cbn in R2. destruct f as [|f]; [lia|]. cbn [malloc_loop].
  unfold next. rewrite Efp, R2. unfold size_of at 1, ptr_of at 1 2. rewrite bind_gets, R3, Z.geb_leb. destruct (Z.leb_spec nu 0); [lia|].
  rewrite bind_gets, Efp, Z.eqb_refl. set (s2 := set_hd (<[h0 := mkHeader (h_ptr (hd s1 h0)) (u32 nu)]> (hd s1)) (set_brk (h0 + 16) s1)).
  assert (only h0 (hd s1) (hd s2)) as Ho by apply only_put.
  destruct (free_ok B s2 [] [] h0 nu (S f)) as (s3 & fl & Hfree & Hfr); try (cbn; (done || lia || by left)).
  { split; [done|]. change (lastn B ([] ++ [])) with B. rewrite !Ho by lia. done. }
  { unfold s2. cbn [hd set_hd]. rewrite fn_lookup_insert. cbn. apply u32_small. lia. }
  assert (morecore (S f) nu s1 = Ok (freep s3) s3) as Hmore.
  { unfold morecore. destruct (Z.ltb_spec nu 4096); [lia|]. assert (sbrk (nu * sizeof_Header) s1 = Ok h0 (set_brk (h0 + 16) s1)) as Hsb.
    { unfold sbrk. subst nu. change (s32 (268435457 * sizeof_Header)) with 16. rewrite !bind_gets, E1, E2. cbn [Z.gtb Z.compare].
      by rewrite Z.gtb_ltb, (proj2 (Z.ltb_ge _ _) Hl). }
    rewrite (bind_Ok _ _ _ _ _ Hsb). destruct (Z.eqb_spec h0 (-1)); [lia|]. unfold put_size. rewrite bind_modify. fold s2.
    by rewrite (bind_Ok _ _ _ _ _ Hfree). }
  rewrite (bind_Ok _ _ _ _ _ Hmore). pose proof (fr_tot _ _ _ _ _ _ _ Hfr) as Ht. pose proof (fr_end _ _ _ _ _ _ _ Hfr) as He. cbn in Ht, He.
  pose proof (fr_sorted _ _ _ _ _ _ _ Hfr) as Hs. destruct fl as [|[a m] fl]; [cbn in Ht; lia|].
  destruct (one_block B h0 (h0 + 16 * nu) a m fl Hs) as [-> ->]; [|cbn in *; lia|cbn in *; lia|].
  { pose proof Hs as (_ & Hm & _). destruct (proj1 (fr_covers _ _ _ _ _ _ _ Hfr a)) as [[]|?]; [cbn; left; lia|lia]. }
  cbn in Ht. assert (m = nu) as -> by lia.
  assert (freep s3 <> 0) as Hf3 by (destruct (fr_freep _ _ _ _ _ _ _ Hfr) as [->|Hin%list_elem_of_singleton]; cbn in *; lia).
  rewrite (proj2 (Z.eqb_neq _ _) Hf3), bind_gets.
  destruct (search_ok B s3 [(h0, nu)] nu (S f)) as [(l1 & c & k & l2 & El & Hk & Hrun)|(Hsm & _)]; [apply Hfr|done|apply Hfr|lia|..].
  - destruct l1 as [|? [|? ?]]; [|done|done]. injection El as <- <- <-. specialize (Hrun (f - 3)%nat).
    replace (length [(h0, nu)] + 2 + (f - 3))%nat with f in Hrun by (cbn; lia). unfold next in Hrun. rewrite Hrun.
    unfold take_block. rewrite Z.eqb_refl. unfold ptr_of, put_ptr. rewrite bind_gets, !bind_modify. eexists. split; [reflexivity|].
    destruct (fr_env _ _ _ _ _ _ _ Hfr) as [V _]. split; [exact V|]. cbn [hd set_freep set_hd]. rewrite size_put_ptr.
    destruct (fr_ring _ _ _ _ _ _ _ Hfr) as ((_ & R5 & _) & _). rewrite R5. done.
  - apply Forall_cons in Hsm as [Hsm _]. unfold small in Hsm. cbn in Hsm. lia.
Qed.

Lemma malloc_huge_corrupts_witness : exists s,
  malloc 1000 5 (2 ^ 32 - 1) (mkUm (fun _ => mkHeader 0 0) 0 4096 8192) = Ok (4096 + 16) s /\ ubrk s = 4096 + 16 /\ h_size (hd s 4096) = 2 ^ 28 + 1.
Proof. apply (malloc_huge_corrupts 1000 4096 8192); lia. Defined.
