(* ===== verification/Grep.v ===== *)
(** * Searching text: [user/grep.c]

    The regular expression matcher on C strings without their NUL, and the loop
    that reads a file in pieces into [buf] and prints the lines that match, for each
    of the files named. *)

From stdpp Require Import base gmap strings list.
From S2P Require Import Prelude.

(** ** The matcher *)

Definition c_caret : Z := 94.
Definition c_star : Z := 42.
Definition c_dollar : Z := 36.
Definition c_dot : Z := 46.
Definition c_nl : Z := 10.

(** [matchstar(c, re, text)], where [here] is [matchhere(re, .)]. *)
Fixpoint matchstar (c : Z) (here : list Z -> bool) (text : list Z) : bool :=
  if here text then true
  else match text with
       | [] => false
       | x :: text => if (x =? c) || (c =? c_dot) then matchstar c here text else false
       end.
Fixpoint matchhere (re : list Z) (text : list Z) : bool :=
  match re with
  | [] => true
  | c :: re1 =>
      match re1 with
      | d :: re2 =>
          if d =? c_star then matchstar c (matchhere re2) text
          else match text with
               | x :: text => if (c =? c_dot) || (c =? x) then matchhere re1 text else false
               | [] => false
               end
      | [] =>
          if c =? c_dollar then match text with [] => true | _ => false end
          else match text with
               | x :: text => if (c =? c_dot) || (c =? x) then matchhere re1 text else false
               | [] => false
               end
      end
  end.
Fixpoint match_from (re text : list Z) : bool :=
  if matchhere re text then true
  else match text with [] => false | _ :: text => match_from re text end.
Definition grep_match (re text : list Z) : bool :=
  match re with
  | c :: re' => if c =? c_caret then matchhere re' text else match_from re text
  | [] => match_from re text
  end.

(** ** The loop over the file *)

(** A file being read: what is left, and how much at most each [read] returns
    (all that was asked for once the list is used up). *)
Record gst := mkGst { g_in : list Z; g_chunks : list nat; g_out : list Z }.
Definition g_read (n : nat) : M gst (list Z) := fun s =>
  let k := match g_chunks s with c :: _ => Nat.min n (S c) | [] => n end in
  Ok (take k (g_in s)) (mkGst (drop k (g_in s)) (tail (g_chunks s)) (g_out s)).
Definition g_write (bs : list Z) : M gst unit := modify (fun s => mkGst (g_in s) (g_chunks s) (g_out s ++ bs)).

Definition BUFSZ : nat := 1024.

(** [strchr(p, '\n')], which stops at a 0, also one of the file: the bytes before the
    newline and those after it. *)
Fixpoint strchr_nl (p : list Z) : option (list Z * list Z) :=
  match p with
  | [] => None
  | c :: p =>
      if c =? 0 then None
      else if c =? c_nl then Some ([], p)
      else match strchr_nl p with Some (l, r) => Some (c :: l, r) | None => None end
  end.
(** The inner loop; returns the unfinished line, from [p] on. *)
Fixpoint grep_lines (fuel : nat) (pattern p : list Z) : M gst (list Z) :=
  match strchr_nl p with
  | None => return p
  | Some (line, p') =>
      match fuel with
      | O => fun _ => Diverge
      | S f => (if grep_match pattern line then g_write (line ++ [c_nl]) else return tt) ;;; grep_lines f pattern p'
      end
  end.
(** The outer loop; [buf] holds the first [m] bytes, moved to its start. *)
Fixpoint grep (fuel : nat) (pattern buf : list Z) : M gst unit :=
  do bs <- g_read (BUFSZ - length buf - 1);
  match bs with
  | [] => return tt
  | _ =>
      match fuel with
      | O => fun _ => Diverge
      | S f => do rest <- grep_lines (length (buf ++ bs)) pattern (buf ++ bs); grep f pattern rest
      end
  end.

(** [main], for the files that [open] gives with the pieces in which they are read; the
    status.  [g_in] is standard input at first. *)
Section main.
Context (open : list Z -> option (list Z * list nat)).
Definition g_open (name : list Z) : M gst bool := fun s =>
  match open name with Some (c, ks) => Ok true (mkGst c ks (g_out s)) | None => Ok false s end.
Fixpoint grep_files (fuel : nat) (pattern : list Z) (args : list (list Z)) : M gst Z :=
  match args with
  | [] => return 0
  | a :: rest =>
      do ok <- g_open a;
      if negb ok then return 1 else grep fuel pattern [] ;;; grep_files fuel pattern rest
  end.
Definition grep_main (fuel : nat) (args : list (list Z)) : M gst Z :=
  match args with
  | [] => return 1
  | [pattern] => grep fuel pattern [] ;;; return 0
  | pattern :: files => grep_files fuel pattern files
  end.
End main.

(** ** Regular expressions *)

Inductive item := IOne (c : Z) | IStar (c : Z) | IEnd.
Fixpoint items (re : list Z) : list item :=
  match re with
  | [] => []
  | c :: re1 =>
      match re1 with
      | d :: re2 => if d =? c_star then IStar c :: items re2 else IOne c :: items re1
      | [] => if c =? c_dollar then [IEnd] else [IOne c]
      end
  end.
(** The character [c] of an expression stands for [x]. *)
Definition stands (c x : Z) : Prop := c = c_dot \/ c = x.
(** Some beginning of the text is in the language of the items. *)
Inductive begins : list item -> list Z -> Prop :=
| bg_nil t : begins [] t
| bg_one c r x t : stands c x -> begins r t -> begins (IOne c :: r) (x :: t)
| bg_star c r t1 t2 : Forall (stands c) t1 -> begins r t2 -> begins (IStar c :: r) (t1 ++ t2)
| bg_end r : begins r [] -> begins (IEnd :: r) [].

Lemma matchstar_spec c here text : matchstar c here text = true <-> exists t1 t2, text = t1 ++ t2 /\ Forall (stands c) t1 /\ here t2 = true.
Proof.
  induction text as [|x text IH]; cbn [matchstar].
  - split; [destruct (here []) eqn:E; [|done]; intros _; by exists [], []|]. intros ([|? ?] & t2 & E & _ & H); [|done]. cbn in E. subst. by rewrite H.
  - destruct (here (x :: text)) eqn:E; [split; [|done]; intros _; by exists [], (x :: text)|].
    assert ((x =? c) || (c =? c_dot) = true <-> stands c x) as Hs.
    { unfold stands. rewrite orb_true_iff, !Z.eqb_eq. intuition congruence. }
    destruct ((x =? c) || (c =? c_dot)); [rewrite IH|]; split.
    + intros (t1 & t2 & -> & H1 & H2). exists (x :: t1), t2. split; [done|]. split; [constructor; tauto|done].
    + intros ([|y t1] & t2 & E1 & H1 & H2); cbn in E1; [subst; congruence|]. injection E1 as <- ->. exists t1, t2. apply Forall_cons in H1. tauto.
    + done.
    + intros ([|y t1] & t2 & E1 & H1 & H2); cbn in E1; [subst; congruence|]. injection E1 as <- ->. apply Forall_cons in H1 as [H1 _]. by apply Hs in H1.
Qed.

Lemma one_spec c x : (c =? c_dot) || (c =? x) = true <-> stands c x.
Proof. unfold stands. rewrite orb_true_iff, !Z.eqb_eq. done. Qed.
Lemma begins_one c r text : begins (IOne c :: r) text <-> match text with x :: t => stands c x /\ begins r t | [] => False end.
Proof.
  split; [intros H; inversion H; subst; done|]. destruct text as [|x t]; [done|]. intros [? ?]. by constructor.
Qed.
Lemma matchhere_spec re : forall text, matchhere re text = true <-> begins (items re) text.
Proof.
  induction re as [re IH] using (induction_ltof1 _ (@length Z)). unfold ltof in IH.
  destruct re as [|c [|d re2]]; intros text; cbn [matchhere items].
  - split; [intros _; constructor|done].
  - destruct (Z.eqb_spec c c_dollar) as [->|Hc].
    + split; [destruct text; [|done]; intros _; constructor; constructor|]. intros H. by inversion H; subst.
    + rewrite begins_one. destruct text as [|x t]; [split; done|]. rewrite <- one_spec. destruct ((c =? c_dot) || (c =? x)); [|intuition done].
      split; [intros _; split; [done|constructor]|done].
  - destruct (Z.eqb_spec d c_star) as [->|Hd].
    + rewrite matchstar_spec. split.
      * intros (t1 & t2 & -> & H1 & H2). constructor; [done|]. apply IH; [cbn; lia|done].
      * intros H. inversion H; subst. eexists t1, t2. split; [done|]. split; [done|]. apply IH; [cbn; lia|done].
    + rewrite begins_one. destruct text as [|x t]; [split; done|]. rewrite <- one_spec. destruct ((c =? c_dot) || (c =? x)); [|intuition done].
      change (matchhere (d :: re2) t = true <-> true = true /\ begins (items (d :: re2)) t). rewrite (IH (d :: re2)) by (cbn; lia). tauto.
Qed.

(** The language of an expression: anchored by ['^'], or anywhere. *)
Definition matches (re text : list Z) : Prop :=
  match re with
  | c :: re' => if c =? c_caret then begins (items re') text else exists t1 t2, text = t1 ++ t2 /\ begins (items re) t2
  | [] => True
  end.
Lemma match_from_spec re text : match_from re text = true <-> exists t1 t2, text = t1 ++ t2 /\ begins (items re) t2.
Proof.
  induction text as [|x text IH]; cbn [match_from].
  - split.
    + destruct (matchhere re []) eqn:E; [|done]. intros _. exists [], []. split; [done|by apply matchhere_spec].
    + intros ([|? ?] & t2 & E & H); [|done]. cbn in E. subst. apply matchhere_spec in H. by rewrite H.
  - destruct (matchhere re (x :: text)) eqn:E.
    + split; [|done]. intros _. exists [], (x :: text). split; [done|by apply matchhere_spec].
    + rewrite IH. split.
      * intros (t1 & t2 & -> & H). by exists (x :: t1), t2.
      * intros ([|y t1] & t2 & E1 & H); cbn in E1; [subst; apply matchhere_spec in H; congruence|]. injection E1 as <- ->. by exists t1, t2.
Qed.
Lemma grep_match_spec re text : grep_match re text = true <-> matches re text.
Proof.
  unfold grep_match, matches. destruct re as [|c re]; [by destruct text|]. destruct (c =? c_caret); [apply matchhere_spec|apply match_from_spec].
Qed.

(** ** The lines of a file *)

(** The complete lines, the first with [cur] in front. *)
Fixpoint split_lines (data cur : list Z) : list (list Z) :=
  match data with
  | [] => []
  | c :: data => if c =? c_nl then cur :: split_lines data [] else split_lines data (cur ++ [c])
  end.
(** The lines that [grep] can search: [buf] holds them, and they are C strings. *)
Definition searchable (l : list Z) : Prop := (length l < BUFSZ - 1)%nat /\ 0 ∉ l.
#[global] Instance searchable_dec l : Decision (searchable l).
Proof. unfold searchable. apply _. Defined.
(** The lines printed: those that match, up to the first that is not searchable. *)
Fixpoint picked (pattern : list Z) (lines : list (list Z)) : list Z :=
  match lines with
  | [] => []
  | l :: lines =>
      if decide (searchable l) then (if grep_match pattern l then l ++ [c_nl] else []) ++ picked pattern lines
      else []
  end.

(** No line begins in [p], because it has no newline or because a 0 hides it. *)
Definition unfinished (p : list Z) : Prop := c_nl ∉ p \/ exists a b, p = a ++ 0 :: b /\ c_nl ∉ a.
Lemma strchr_nl_spec p : match strchr_nl p with Some (l, r) => p = l ++ c_nl :: r /\ c_nl ∉ l /\ 0 ∉ l | None => unfinished p end.
Proof.
  induction p as [|c p IH]; cbn [strchr_nl]; [left; by intros ?%elem_of_nil|]. destruct (Z.eqb_spec c 0) as [->|H0].
  { right. exists [], p. split; [done|by intros ?%elem_of_nil]. }
  destruct (Z.eqb_spec c c_nl) as [->|Hc].
  - split; [done|]. by split; intros ?%elem_of_nil.
  - destruct (strchr_nl p) as [[l r]|].
    + destruct IH as (-> & IH & IH0). split; [done|]. split; rewrite elem_of_cons; intros [?|?]; congruence.
    + destruct IH as [IH|(a & b & -> & IH)]; [left|right; exists (c :: a), b; split; [done|]]; rewrite elem_of_cons; intros [?|?]; congruence.
Qed.
Lemma split_lines_app a : forall d cur, c_nl ∉ a -> split_lines (a ++ d) cur = split_lines d (cur ++ a).
Proof.
  induction a as [|c a IH]; intros d cur Ha; cbn [app split_lines]; [by rewrite app_nil_r|]. rewrite elem_of_cons in Ha.
  destruct (Z.eqb_spec c c_nl) as [->|Hc]; [destruct Ha; by left|]. rewrite IH by tauto. by rewrite <- app_assoc.
Qed.
Lemma split_lines_first inp cur : match split_lines inp cur with l :: _ => exists x, l = cur ++ x | [] => True end.
Proof.
  revert cur. induction inp as [|c inp IH]; intros cur; cbn [split_lines]; [done|]. destruct (c =? c_nl); [exists []; by rewrite app_nil_r|].
  specialize (IH (cur ++ [c])). destruct (split_lines inp (cur ++ [c])); [done|]. destruct IH as [x ->]. rewrite <- app_assoc. by eexists.
Qed.
Lemma picked_app pattern ls ls' : Forall searchable ls -> picked pattern (ls ++ ls') = picked pattern ls ++ picked pattern ls'.
Proof.
  induction 1 as [|l ls Hl _ IH]; cbn [app picked]; [done|]. rewrite !decide_True by done. by rewrite IH, app_assoc.
Qed.
(** Once no line begins in [buf] and no byte can be added to it, nothing more is printed. *)
Lemma unfinished_picks pattern buf inp : unfinished buf -> inp = [] \/ (BUFSZ - 1 <= length buf)%nat ->
  picked pattern (split_lines (buf ++ inp) []) = [].
Proof.
  intros [Hn|(a & b & -> & Hn)] Hend.
  - rewrite split_lines_app by done. cbn [app]. destruct Hend as [-> |Hend]; [done|].
    pose proof (split_lines_first inp buf) as Hf. destruct (split_lines inp buf) as [|l ls]; [done|]. destruct Hf as [x ->]. cbn [picked].
    rewrite decide_False; [done|]. intros [Hl _]. rewrite length_app in Hl. lia.
  - rewrite <- app_assoc. rewrite split_lines_app by done. cbn [app split_lines]. change (0 =? c_nl) with false. cbv iota.
    pose proof (split_lines_first (b ++ inp) (a ++ [0])) as Hf. destruct (split_lines (b ++ inp) (a ++ [0])) as [|l ls]; [done|]. destruct Hf as [x ->]. cbn [picked].
    rewrite decide_False; [done|]. intros [_ Hl]. apply Hl. rewrite !elem_of_app, elem_of_cons. auto.
Qed.

Lemma grep_lines_spec pattern fuel : forall p s, (length p <= fuel)%nat -> (length p < BUFSZ)%nat -> exists r ls,
  grep_lines fuel pattern p s = Ok r (mkGst (g_in s) (g_chunks s) (g_out s ++ picked pattern ls)) /\ unfinished r /\ (length r <= length p)%nat /\
  Forall searchable ls /\ forall tl, split_lines (p ++ tl) [] = ls ++ split_lines (r ++ tl) [].
Proof.
  induction fuel as [|f IH]; intros p s Hf Hp; pose proof (strchr_nl_spec p) as Hs; cbn [grep_lines]; destruct (strchr_nl p) as [[l r]|].
  - destruct Hs as [-> _]. rewrite length_app in Hf. cbn in Hf. lia.
  - exists p, []. cbn. rewrite app_nil_r. split; [by destruct s|]. by split.
  - destruct Hs as (-> & Hl & Hl0). rewrite length_app in *. cbn [length] in *.
    set (o := if grep_match pattern l then l ++ [c_nl] else []).
    assert ((if grep_match pattern l then g_write (l ++ [c_nl]) else return tt) s = Ok tt (mkGst (g_in s) (g_chunks s) (g_out s ++ o))) as Hw.
    { unfold o. destruct (grep_match pattern l); [done|]. rewrite app_nil_r. by destruct s. }
    rewrite (bind_Ok _ _ _ _ _ Hw). destruct (IH r (mkGst (g_in s) (g_chunks s) (g_out s ++ o))) as (r' & ls & Hrun & R1 & R2 & R3 & R4); [lia|lia|].
    assert (searchable l) as Hsl by (split; [lia|done]).
    exists r', (l :: ls). cbn [g_in g_chunks g_out] in Hrun. rewrite Hrun. cbn [picked]. rewrite decide_True by done.
    fold o. rewrite app_assoc. split; [done|]. split; [done|]. split; [lia|]. split; [by constructor|]. intros tl.
    rewrite <- app_assoc. cbn [app]. rewrite split_lines_app by done. cbn [split_lines]. rewrite Z.eqb_refl. cbn. f_equal. apply R4.
  - exists p, []. cbn. rewrite app_nil_r. split; [by destruct s|]. by split.
Qed.

Lemma grep_run pattern fuel : forall buf s, (length (g_in s) <= fuel)%nat -> (length buf < BUFSZ)%nat -> unfinished buf ->
  exists s', grep fuel pattern buf s = Ok tt s' /\ g_out s' = g_out s ++ picked pattern (split_lines (buf ++ g_in s) []).
Proof.
  induction fuel as [|f IH]; intros buf s Hf Hb Hn; cbn [grep]; unfold bind at 1, g_read.
  - destruct (g_in s) as [|]; [|cbn in Hf; lia]. rewrite take_nil. eexists. split; [reflexivity|].
    rewrite unfinished_picks by auto. by rewrite app_nil_r.
  - set (k := match g_chunks s with c :: _ => Nat.min (BUFSZ - length buf - 1) (S c) | [] => (BUFSZ - length buf - 1)%nat end).
    destruct (take k (g_in s)) as [|c bs] eqn:Et.
    + eexists. split; [reflexivity|]. cbn [g_out]. rewrite unfinished_picks; [by rewrite app_nil_r|done|].
      destruct (g_in s) as [|x inp]; [by left|right]. destruct k as [|k'] eqn:Ek; [|done]. unfold k in Ek. destruct (g_chunks s); lia.
    + rewrite <- Et. set (bs' := take k (g_in s)) in *. set (s1 := mkGst (drop k (g_in s)) (tail (g_chunks s)) (g_out s)).
      assert (length bs' <= BUFSZ - length buf - 1)%nat as Hk by (unfold bs'; rewrite length_take; unfold k; destruct (g_chunks s); lia).
      destruct (grep_lines_spec pattern (length (buf ++ bs')) (buf ++ bs') s1) as (r & ls & Hrun & R1 & R2 & R3 & R4); [done|rewrite length_app; lia|].
      rewrite (bind_Ok _ _ _ _ _ Hrun). rewrite length_app in R2.
      assert (length (c :: bs) <= length (g_in s))%nat as Hlen by (rewrite <- Et; unfold bs'; rewrite length_take; lia). cbn in Hlen.
      destruct (IH r (mkGst (g_in s1) (g_chunks s1) (g_out s1 ++ picked pattern ls))) as (s' & Hrun' & Hout); [|lia|done|].
      { cbn. rewrite length_drop. assert (0 < k)%nat by (destruct k; [done|lia]). lia. }
      exists s'. split; [done|]. rewrite Hout. cbn [g_out g_in s1]. rewrite <- app_assoc. f_equal.
      rewrite <- (picked_app pattern _ _ R3), <- R4. unfold bs'. by rewrite <- app_assoc, take_drop.
Qed.
Lemma unfinished_nil : unfinished [].
Proof. left. by intros ?%elem_of_nil. Qed.

(** C36: [grep] prints the matching lines: whatever the bytes of the file and the sizes
    of the pieces in which [read] delivers it, it returns and has written, in order,
    the complete lines that are in the language of the pattern, up to the first line
    that has 1023 characters or more or holds a 0 byte; on C strings [match] decides that
    language. *)
Theorem grep_prints_matching pattern inp chunks fuel : (length inp <= fuel)%nat -> 0 ∉ pattern ->
  (exists s', grep fuel pattern [] (mkGst inp chunks []) = Ok tt s' /\ g_out s' = picked pattern (split_lines inp [])) /\
  (forall text, 0 ∉ text -> grep_match pattern text = true <-> matches pattern text).
Proof.
  intros Hf _. split; [|intros text _; apply grep_match_spec].
  destruct (grep_run pattern fuel [] (mkGst inp chunks []) Hf) as (s' & Hrun & Hout); [cbn; unfold BUFSZ; lia|exact unfinished_nil|]. by exists s'.
Qed.
Lemma grep_prints_matching_witness : exists s',
  grep 17 [97; 42; 98; 36] [] (mkGst [120; 97; 97; 98; 10; 98; 99; 10; 98; 10; 0; 10; 98; 10; 98] [1%nat; 0%nat; 2%nat] []) = Ok tt s' /\
  g_out s' = [120; 97; 97; 98; 10; 98; 10].
Proof.
  destruct (grep_prints_matching [97; 42; 98; 36] [120; 97; 97; 98; 10; 98; 99; 10; 98; 10; 0; 10; 98; 10; 98] [1%nat; 0%nat; 2%nat] 17) as [(s' & Hrun & Hout) _];
    [cbn; lia|by rewrite !elem_of_cons, elem_of_nil; intros [?|[?|[?|[?|?]]]]|].
  exists s'. split; [exact Hrun|]. rewrite Hout. vm_compute. reflexivity.
Defined.

(** [grep] of several files prints the matching lines of each in turn; when a file cannot
    be opened the status is 1, and those before it were searched. *)
Theorem grep_searches_files open fuel pattern args texts s :
  args <> [] -> Forall2 (fun a text => (length text <= fuel)%nat /\ exists ks, open a = Some (text, ks)) args texts ->
  exists s', grep_main open fuel (pattern :: args) s = Ok 0 s' /\
    g_out s' = g_out s ++ concat ((fun text => picked pattern (split_lines text [])) <$> texts) /\
    forall bad rest, open bad = None -> grep_main open fuel (pattern :: args ++ bad :: rest) s = Ok 1 s'.
Proof.
  intros Hne Ha. cut (exists s', (forall rest, grep_files open fuel pattern (args ++ rest) s = grep_files open fuel pattern rest s') /\
    g_out s' = g_out s ++ concat ((fun text => picked pattern (split_lines text [])) <$> texts)).
  { intros (s' & E & Hout). exists s'. destruct args as [|a args]; [done|]. split; [|split; [done|]].
    - specialize (E []). rewrite app_nil_r in E. exact E.
    - intros bad rest Hb. etrans; [exact (E (bad :: rest))|]. cbn [grep_files]. unfold bind, g_open. by rewrite Hb. }
  clear Hne. revert s. induction Ha as [|a text args texts (Hf & ks & Ho) _ IH]; intros s; [exists s; by rewrite app_nil_r|].
  destruct (grep_run pattern fuel [] (mkGst text ks (g_out s)) Hf) as (s1 & Hrun & Hout); [cbn; unfold BUFSZ; lia|exact unfinished_nil|].
  destruct (IH s1) as (s' & E & Hout'). exists s'. split; [|rewrite Hout', Hout; cbn; by rewrite <- app_assoc].
  intros rest. rewrite <- E. cbn [app grep_files]. unfold bind at 1, g_open. rewrite Ho. cbn [negb]. by rewrite (bind_Ok _ _ _ _ _ Hrun).
Qed.
