(* ===== verification/Ulib.v ===== *)
(** * The user library: [user/ulib.c]

    The string and memory functions on the memory of a process.  A loop that stops at
    a NUL is given one turn more than there are bytes stored in the memory: beyond
    those every byte reads as zero, so this is enough, as the theorems show.  [None]
    is a loop that does not end there, or an overflow of an [int], which C leaves
    undefined.  [char] is unsigned, as it is on RISC-V. *)

From stdpp Require Import base list gmap strings lexico.
From S2P Require Import Prelude Riscv Mem.

(** ** The functions *)

Definition turns (m : memory) : nat := S (size m).

Fixpoint strcpy_loop (fuel : nat) (m : memory) (s t : Z) : option memory :=
  match fuel with
  | O => None
  | S f => let c := ld8 m t in let m := st8 m s c in
           if negb (c =? 0) then strcpy_loop f m (s + 1) (t + 1) else Some m
  end.
Definition strcpy (m : memory) (s t : Z) : option memory := strcpy_loop (turns m) m s t.

Fixpoint strcmp_loop (fuel : nat) (m : memory) (p q : Z) : option Z :=
  match fuel with
  | O => None
  | S f => if negb (ld8 m p =? 0) && (ld8 m p =? ld8 m q) then strcmp_loop f m (p + 1) (q + 1)
           else Some (u8 (ld8 m p) - u8 (ld8 m q))
  end.
Definition strcmp (m : memory) (p q : Z) : option Z := strcmp_loop (turns m) m p q.

Fixpoint strlen_loop (fuel : nat) (m : memory) (s n : Z) : option Z :=
  match fuel with
  | O => None
  | S f => if negb (ld8 m (s + n) =? 0) then strlen_loop f m s (n + 1) else Some n
  end.
Definition strlen (m : memory) (s : Z) : option Z := strlen_loop (turns m) m s 0.

(** The loop [for(i = 0; i < n; i++) cdst[i] = c]. *)
Definition memset (m : memory) (dst c n : Z) : memory := memset_loop m dst c (Z.to_nat n).

Fixpoint strchr_loop (fuel : nat) (m : memory) (s c : Z) : option Z :=
  match fuel with
  | O => None
  | S f => if negb (ld8 m s =? 0) then (if ld8 m s =? c then Some s else strchr_loop f m (s + 1) c) else Some 0
  end.
Definition strchr (m : memory) (s c : Z) : option Z := strchr_loop (turns m) m s c.

(** [gets]: [input] is what the reads from descriptor 0 return, one character each; at
    its end a read returns 0. *)
Fixpoint gets_loop (fuel : nat) (m : memory) (input : list Z) (buf i max : Z) : memory * list Z * Z :=
  match fuel, input with
  | S f, c :: input' =>
      if i + 1 <? max then
        let m := st8 m (buf + i) c in
        if (c =? 10) || (c =? 13) then (m, input', i + 1) else gets_loop f m input' buf (i + 1) max
      else (m, input, i)
  | _, _ => (m, input, i)
  end.
Definition gets (m : memory) (input : list Z) (buf max : Z) : memory * list Z :=
  let '(m, input, i) := gets_loop (length input) m input buf 0 max in (st8 m (buf + i) 0, input).

(** [n = n*10 + *s++ - '0'] on an [int]. *)
Definition int_ok (x : Z) : bool := (- 2 ^ 31 <=? x) && (x <? 2 ^ 31).
Fixpoint atoi_loop (fuel : nat) (m : memory) (s n : Z) : option Z :=
  match fuel with
  | O => None
  | S f =>
      let c := ld8 m s in
      if (48 <=? c) && (c <=? 57) then
        if int_ok (n * 10) && int_ok (n * 10 + c) then atoi_loop f m (s + 1) (n * 10 + c - 48) else None
      else Some n
  end.
Definition atoi (m : memory) (s : Z) : option Z := atoi_loop (turns m) m s 0.

(** [while(n-- > 0) *dst++ = *src++], or from the ends down. *)
Definition memmove (m : memory) (vdst vsrc n : Z) : memory :=
  if vsrc >? vdst then move_up m vdst vsrc (Z.to_nat n)
  else move_down m (vdst + n) (vsrc + n) (Z.to_nat n).

Fixpoint memcmp_loop (fuel : nat) (m : memory) (p1 p2 : Z) : Z :=
  match fuel with
  | O => 0
  | S f => if negb (ld8 m p1 =? ld8 m p2) then ld8 m p1 - ld8 m p2 else memcmp_loop f m (p1 + 1) (p2 + 1)
  end.
Definition memcmp (m : memory) (s1 s2 n : Z) : Z := memcmp_loop (Z.to_nat n) m s1 s2.

(** The [uint] becomes the [int] parameter of [memmove]. *)
Definition memcpy (m : memory) (dst src n : Z) : memory := memmove m dst src (s32 n).

(** ** C strings in memory *)

Definition cchar (c : Z) : Prop := 0 < c < 256.
Definition cstring (m : memory) (a : Z) (s : list Z) : Prop :=
  (forall i c, s !! i = Some c -> ld8 m (a + Z.of_nat i) = c) /\ ld8 m (a + Z.of_nat (length s)) = 0 /\ Forall cchar s.

Lemma cstring_nil m a : cstring m a [] <-> ld8 m a = 0.
Proof.
  unfold cstring. cbn. rewrite Z.add_0_r. split; [intros (_ & H & _); done|]. intros H. split; [intros i c Hi; by rewrite lookup_nil in Hi|]. auto.
Qed.
Lemma cstring_cons m a c s : cstring m a (c :: s) <-> ld8 m a = c /\ cchar c /\ cstring m (a + 1) s.
Proof.
  unfold cstring. cbn [length]. rewrite Forall_cons. replace (a + Z.of_nat (S (length s))) with (a + 1 + Z.of_nat (length s)) by lia. split.
  - intros (H & Hz & Hc & Hs). split; [|split; [done|split; [|done]]].
    + specialize (H 0%nat c eq_refl). by rewrite Z.add_0_r in H.
    + intros i x Hi. specialize (H (S i) x Hi). by replace (a + 1 + Z.of_nat i) with (a + Z.of_nat (S i)) by lia.
  - intros (H0 & Hc & H & Hz & Hs). split; [|auto]. intros [|i] x Hi; cbn in Hi.
    + injection Hi as <-. by rewrite Z.add_0_r.
    + replace (a + Z.of_nat (S i)) with (a + 1 + Z.of_nat i) by lia. by apply H.
Qed.
(** A string is not longer than what is stored. *)
Lemma cstring_turns m a s : cstring m a s -> (length s < turns m)%nat.
Proof.
  intros H. unfold turns. rewrite <-size_dom. apply Nat.lt_succ_r.
  assert (list_to_set ((fun i => a + Z.of_nat i) <$> seq 0 (length s)) ⊆@{gset Z} dom m) as Hsub.
  { intros x. rewrite elem_of_list_to_set, list_elem_of_fmap. intros (i & -> & Hi). apply elem_of_seq in Hi.
    destruct (lookup_lt_is_Some_2 s i) as [c Hc]; [lia|]. destruct H as (H & _ & Hs). specialize (H i c Hc).
    apply elem_of_dom. unfold ld8 in H. destruct (m !! _) eqn:E; [done|]. cbn in H. pose proof (Forall_lookup_1 _ _ _ _ Hs Hc) as Hp. unfold cchar in Hp. lia. }
  apply subseteq_size in Hsub. rewrite size_list_to_set, length_fmap, length_seq in Hsub; [done|].
  apply NoDup_fmap_2; [intros i j; lia|apply NoDup_seq].
Qed.

Lemma strlen_loop_spec m s a : forall fuel n, cstring m (a + n) s -> (length s < fuel)%nat ->
  strlen_loop fuel m a n = Some (n + Z.of_nat (length s)).
Proof.
  induction s as [|c s IH]; intros [|fuel] n H Hf; cbn [length] in Hf; try lia; cbn [strlen_loop].
  - apply cstring_nil in H. rewrite H. cbn. f_equal. lia.
  - apply cstring_cons in H as (-> & Hc & H). unfold cchar in Hc. destruct (Z.eqb_spec c 0); [lia|]. cbn [negb].
    rewrite (IH fuel (n + 1)); [|by rewrite Z.add_assoc|lia]. cbn [length]. f_equal. lia.
Qed.
(** [strlen] counts the characters before the NUL. *)
Theorem strlen_counts (m : memory) (a : Z) (s : list Z) : cstring m a s -> strlen m a = Some (Z.of_nat (length s)).
Proof. intros H. unfold strlen. rewrite (strlen_loop_spec m s); [f_equal; lia|by rewrite Z.add_0_r|by eapply cstring_turns]. Qed.

(** Storing a byte that a string does not use. *)
Lemma cstring_st8 m a s x c : cstring m a s -> (x < a \/ a + Z.of_nat (length s) < x) -> cstring (st8 m x c) a s.
Proof.
  intros (H & Hz & Hs) Hx. split; [|split; [|done]].
  - intros i d Hi. rewrite ld8_st8. pose proof (lookup_lt_Some _ _ _ Hi). case_decide; [lia|by apply H].
  - rewrite ld8_st8. case_decide; [lia|done].
Qed.
Lemma strcpy_loop_spec t s : forall fuel m d, cstring m s t -> (length t < fuel)%nat -> (d <= s \/ s + Z.of_nat (length t) < d) ->
  strcpy_loop fuel m d s = Some (stn m d (t ++ [0])).
Proof.
  revert s. induction t as [|c t IH]; intros s [|fuel] m d H Hf Hd; cbn [length] in *; try lia; cbn [strcpy_loop app stn].
  - apply cstring_nil in H. by rewrite H.
  - apply cstring_cons in H as (-> & Hc & H). unfold cchar in Hc. destruct (Z.eqb_spec c 0); [lia|]. cbn [negb].
    apply IH; [|lia|lia]. apply cstring_st8; [done|lia].
Qed.
(** [strcpy] of a string to a place that does not start inside it ends, stores the
    characters and the NUL, and nothing else. *)
Theorem strcpy_copies (m : memory) (d s : Z) (t : list Z) :
  cstring m s t -> (d <= s \/ s + Z.of_nat (length t) < d) ->
  exists m', strcpy m d s = Some m' /\ cstring m' d t /\
    forall a, ~ (d <= a <= d + Z.of_nat (length t)) -> ld8 m' a = ld8 m a.
Proof.
  intros H Hd. exists (stn m d (t ++ [0])). pose proof H as (_ & _ & Ht).
  assert (Forall is_byte (t ++ [0])) as Hb.
  { apply Forall_app. split; [|by repeat constructor]. eapply Forall_impl; [exact Ht|]. unfold cchar, is_byte. lia. }
  split; [|split; [split; [|split; [|done]]|]].
  - apply strcpy_loop_spec; [done| |done]. by eapply cstring_turns.
  - intros i c Hi. pose proof (lookup_lt_Some _ _ _ Hi). rewrite ld8_stn, length_app by done. cbn [length].
    case_decide; [|lia]. apply list_lookup_total_correct. rewrite lookup_app_l by lia. rewrite <-Hi. f_equal. lia.
  - rewrite ld8_stn, length_app by done. cbn [length]. case_decide; [|lia]. apply list_lookup_total_correct.
    rewrite lookup_app_r by lia. by replace (Z.to_nat (d + Z.of_nat (length t) - d) - length t)%nat with 0%nat by lia.
  - intros a Ha. rewrite ld8_stn, length_app by done. cbn [length]. case_decide; [lia|done].
Qed.

Lemma lexico_cons_Z (c d : Z) s t : lexico (c :: s) (d :: t) <-> c < d \/ c = d /\ lexico s t.
Proof. done. Qed.
Lemma strcmp_loop_spec m s : forall t fuel p q, cstring m p s -> cstring m q t -> (length s < fuel)%nat ->
  exists r, strcmp_loop fuel m p q = Some r /\ (r = 0 <-> s = t) /\ (r < 0 <-> lexico s t).
Proof.
  induction s as [|c s IH]; intros t [|fuel] p q Hs Ht Hf; cbn [length] in Hf; try lia; cbn [strcmp_loop].
  - apply cstring_nil in Hs. rewrite Hs. cbn. eexists. split; [done|]. destruct t as [|d t].
    + apply cstring_nil in Ht. rewrite Ht. cbn. split; [done|]. split; [lia|done].
    + apply cstring_cons in Ht as (-> & Hd & _). unfold cchar in Hd. unfold u8. rewrite !Z.mod_small by lia. cbn. split; [split; [lia|done]|]. split; [done|lia].
  - apply cstring_cons in Hs as (-> & Hc & Hs). unfold cchar in Hc. destruct (Z.eqb_spec c 0); [lia|]. cbn [negb andb].
    destruct t as [|d t].
    + apply cstring_nil in Ht. rewrite Ht. destruct (Z.eqb_spec c 0); [lia|]. unfold u8. rewrite !Z.mod_small by lia.
      eexists. split; [done|]. split; [split; [lia|done]|]. split; [lia|done].
    + apply cstring_cons in Ht as (-> & Hd & Ht). unfold cchar in Hd. destruct (Z.eqb_spec c d) as [->|Hne].
      * destruct (IH t fuel _ _ Hs Ht ltac:(lia)) as (r & E & H0 & Hl). exists r. split; [done|]. split; [rewrite H0; naive_solver|].
        rewrite Hl, lexico_cons_Z. split; [auto|]. intros [?|[_ ?]]; [lia|done].
      * unfold u8. rewrite !Z.mod_small by lia. eexists. split; [done|]. split; [split; [lia|congruence]|].
        rewrite lexico_cons_Z. split; [lia|]. intros [?|[? _]]; [lia|done].
Qed.
(** [strcmp] returns 0 exactly for equal strings, and a negative number exactly when
    the first comes before the second in the dictionary. *)
Theorem strcmp_orders (m : memory) (p q : Z) (s t : list Z) :
  cstring m p s -> cstring m q t -> exists r, strcmp m p q = Some r /\ (r = 0 <-> s = t) /\ (r < 0 <-> lexico s t).
Proof. intros Hs Ht. apply strcmp_loop_spec; [done|done|]. by eapply cstring_turns. Qed.

Lemma strchr_loop_spec m s c : forall fuel a, cstring m a s -> (length s < fuel)%nat ->
  strchr_loop fuel m a c = Some (match list_find (fun x => x = c) s with Some (i, _) => a + Z.of_nat i | None => 0 end).
Proof.
  induction s as [|x s IH]; intros [|fuel] a H Hf; cbn [length] in Hf; try lia; cbn [strchr_loop list_find].
  - apply cstring_nil in H. by rewrite H.
  - apply cstring_cons in H as (-> & Hc & H). unfold cchar in Hc. destruct (Z.eqb_spec x 0); [lia|]. cbn [negb].
    destruct (Z.eqb_spec x c) as [->|]; [by rewrite decide_True, Z.add_0_r by done|]. rewrite decide_False by done.
    rewrite (IH fuel (a + 1)) by (done || lia). destruct (list_find _ s) as [[i y]|]; cbn; [f_equal; lia|done].
Qed.
(** [strchr] returns the address of the first such character, or 0. *)
Theorem strchr_finds (m : memory) (a c : Z) (s : list Z) : cstring m a s ->
  strchr m a c = Some (match list_find (fun x => x = c) s with Some (i, _) => a + Z.of_nat i | None => 0 end).
Proof. intros H. apply strchr_loop_spec; [done|]. by eapply cstring_turns. Qed.

(** [memmove] leaves at [dst] what was at [src], whether or not they overlap. *)
Theorem umemmove_moves (m : memory) (dst src n a : Z) : 0 <= n -> mem_ok m ->
  ld8 (memmove m dst src n) a = if decide (dst <= a < dst + n) then ld8 m (src + (a - dst)) else ld8 m a.
Proof.
  intros Hn Hm. unfold memmove. rewrite Z.gtb_ltb. destruct (Z.ltb_spec dst src).
  - rewrite ld8_move_up; [by rewrite Z2Nat.id|lia|]. intros i Hi. apply Hm.
  - rewrite ld8_move_down; [|lia|intros i Hi; apply Hm]. replace (dst + n - Z.of_nat (Z.to_nat n)) with dst by lia.
    case_decide; [f_equal; lia|done].
Qed.
(** [memcpy] of 2 GiB or more copies nothing: its size becomes a negative [int]. *)
Theorem memcpy_huge (m : memory) (dst src n : Z) : 2 ^ 31 <= n < 2 ^ 32 -> memcpy m dst src n = m.
Proof.
  intros Hn. unfold memcpy, memmove. assert (s32 n < 0) as Hs.
  { unfold s32. replace (n + 2 ^ 31) with (n - 2 ^ 31 + 1 * 2 ^ 32) by lia. rewrite Z.mod_add, Z.mod_small by lia. lia. }
  replace (Z.to_nat (s32 n)) with 0%nat by lia. by destruct (src >? dst).
Qed.

(** ** Lines and numbers *)

(** The part of the input that is a line, its end included, cut after [n] characters. *)
Fixpoint line_of (n : nat) (input : list Z) : list Z :=
  match n, input with
  | S n, c :: r => if (c =? 10) || (c =? 13) then [c] else c :: line_of n r
  | _, _ => []
  end.
Lemma gets_loop_spec max buf input : forall fuel m i, 0 <= i -> (length input <= fuel)%nat ->
  let l := line_of (Z.to_nat (max - 1 - i)) input in
  gets_loop fuel m input buf i max = (stn m (buf + i) l, drop (length l) input, i + Z.of_nat (length l)).
Proof.
  induction input as [|c r IH]; intros fuel m i Hi Hf; cbn [length] in Hf.
  { replace (line_of _ []) with (@nil Z) by (by destruct (Z.to_nat _)). destruct fuel; cbn; by rewrite Z.add_0_r. }
  destruct fuel as [|fuel]; [lia|]. cbn [gets_loop]. destruct (Z.ltb_spec (i + 1) max).
  - replace (Z.to_nat (max - 1 - i)) with (S (Z.to_nat (max - 1 - (i + 1)))) by lia. cbn [line_of].
    destruct ((c =? 10) || (c =? 13)); [done|]. rewrite IH by lia. cbn [stn length drop]. replace (buf + (i + 1)) with (buf + i + 1) by lia. f_equal. lia.
  - replace (Z.to_nat (max - 1 - i)) with 0%nat by lia. cbn. by rewrite Z.add_0_r.
Qed.
Lemma line_of_length n input : (length (line_of n input) <= n)%nat.
Proof. revert input. induction n as [|n IH]; intros [|c r]; cbn; try lia. destruct (_ || _); cbn; [lia|]. specialize (IH r). lia. Qed.
Lemma line_of_prefix n input : exists r, input = line_of n input ++ r.
Proof.
  revert input. induction n as [|n IH]; intros [|c r]; cbn; try (by eexists). destruct (_ || _); [by exists r|].
  destruct (IH r) as [x Hx]. exists x. cbn. by rewrite <-Hx.
Qed.
(** [gets] stores the next line, or as much of it as fits, and a NUL, within the [max]
    bytes of [buf], and leaves the rest of the input. *)
Theorem gets_reads_line (m : memory) (input : list Z) (buf max : Z) :
  1 <= max -> Forall cchar input ->
  let '(m', input') := gets m input buf max in
  let l := line_of (Z.to_nat (max - 1)) input in
  cstring m' buf l /\ input = l ++ input' /\ Z.of_nat (length l) < max /\
  forall a, ~ (buf <= a < buf + max) -> ld8 m' a = ld8 m a.
Proof.
  intros Hmax Hin. unfold gets. rewrite (gets_loop_spec max buf input) by lia. rewrite Z.sub_0_r, Z.add_0_r, Z.add_0_l.
  set (l := line_of _ _). pose proof (line_of_length (Z.to_nat (max - 1)) input) as Hl. fold l in Hl.
  destruct (line_of_prefix (Z.to_nat (max - 1)) input) as [r Hr]. fold l in Hr.
  assert (Forall cchar l) as Hc by (rewrite Hr in Hin; by apply Forall_app in Hin as [Hin _]).
  assert (Forall is_byte l) as Hb by (eapply Forall_impl; [exact Hc|]; unfold cchar, is_byte; lia).
  split; [split; [|split; [|done]]|split; [|split; [lia|]]].
  - intros i c Hi. pose proof (lookup_lt_Some _ _ _ Hi). rewrite ld8_st8. case_decide; [lia|]. rewrite ld8_stn by done.
    case_decide; [|lia]. apply list_lookup_total_correct. rewrite <-Hi. f_equal. lia.
  - rewrite ld8_st8. by rewrite decide_True.
  - rewrite Hr at 1. f_equal. rewrite Hr at 1. by rewrite drop_app_length.
  - intros a Ha. rewrite ld8_st8. case_decide; [lia|]. rewrite ld8_stn by done. case_decide; [lia|done].
Qed.

(** The number that a list of decimal digits spells. *)
Definition dec (ds : list Z) : Z := fold_left (fun n c => n * 10 + (c - 48)) ds 0.
Definition is_digit (c : Z) : Prop := 48 <= c <= 57.
Lemma dec_from n ds : fold_left (fun n c => n * 10 + (c - 48)) ds n = n * 10 ^ Z.of_nat (length ds) + dec ds.
Proof.
  unfold dec. revert n. induction ds as [|c r IH]; intros n; cbn [fold_left length]; [lia|].
  rewrite IH, (IH (0 * 10 + (c - 48))). replace (Z.of_nat (S (length r))) with (Z.of_nat (length r) + 1) by lia.
  rewrite Z.pow_add_r by lia. lia.
Qed.
Lemma dec_nonneg ds : Forall is_digit ds -> 0 <= dec ds.
Proof.
  induction 1 as [|c r Hc _ IH]; [done|]. unfold dec. cbn [fold_left]. rewrite dec_from. unfold is_digit in Hc.
  pose proof (Z.pow_pos_nonneg 10 (Z.of_nat (length r)) ltac:(lia) ltac:(lia)). nia.
Qed.
Lemma atoi_loop_spec m rest : forall ds fuel a n, Forall is_digit ds -> cstring m a (ds ++ rest) -> (forall c, head rest = Some c -> ~ is_digit c) ->
  (length ds < fuel)%nat -> 0 <= n -> fold_left (fun n c => n * 10 + (c - 48)) ds n + 48 < 2 ^ 31 ->
  atoi_loop fuel m a n = Some (fold_left (fun n c => n * 10 + (c - 48)) ds n).
Proof.
  induction ds as [|c r IH]; intros [|fuel] a n Hd H Hr Hf Hn Hv; cbn [length app fold_left] in *; try lia; cbn [atoi_loop].
  - assert (~ is_digit (ld8 m a)) as Hnd.
    { destruct rest as [|x rest]; [apply cstring_nil in H; rewrite H; unfold is_digit; lia|]. apply cstring_cons in H as (-> & _). by apply Hr. }
    unfold is_digit in Hnd. by destruct (Z.leb_spec 48 (ld8 m a)), (Z.leb_spec (ld8 m a) 57); try lia.
  - apply cstring_cons in H as (-> & _ & H). apply Forall_cons_1 in Hd as [Hc Hd]. unfold is_digit in Hc.
    destruct (Z.leb_spec 48 c), (Z.leb_spec c 57); try lia. cbn [andb].
    assert (n * 10 + c < 2 ^ 31) as Hb.
    { rewrite dec_from in Hv. pose proof (dec_nonneg _ Hd). pose proof (Z.pow_pos_nonneg 10 (Z.of_nat (length r)) ltac:(lia) ltac:(lia)). nia. }
    unfold int_ok. destruct (Z.leb_spec (- 2 ^ 31) (n * 10)), (Z.ltb_spec (n * 10) (2 ^ 31)), (Z.leb_spec (- 2 ^ 31) (n * 10 + c)), (Z.ltb_spec (n * 10 + c) (2 ^ 31)); try lia.
    cbn [andb]. replace (n * 10 + c - 48) with (n * 10 + (c - 48)) by lia. apply IH; (done || lia).
Qed.
(** [atoi] returns the number spelt by the digits a string starts with, if it is not
    within 48 of the end of the range of [int]. *)
Theorem atoi_reads (m : memory) (a : Z) (ds rest : list Z) :
  Forall is_digit ds -> cstring m a (ds ++ rest) -> (forall c, head rest = Some c -> ~ is_digit c) -> dec ds + 48 < 2 ^ 31 ->
  atoi m a = Some (dec ds).
Proof.
  intros Hd H Hr Hv. apply (atoi_loop_spec m rest); try done. pose proof (cstring_turns _ _ _ H) as Ht. rewrite length_app in Ht. lia.
Qed.
