(* ===== verification/Uprintf.v ===== *)
(** * Formatted output of user programs: [user/printf.c]

    [vprintf] walks the format with a state that remembers a percent sign, and writes
    one character per system call.  The state of the model is the sequence of writes
    made so far, each a descriptor and a character; the arguments and the tokens of a
    format are those of the kernel's [printf]. *)

From stdpp Require Import base list gmap strings.
From S2P Require Import Prelude Riscv Mem Printf Ulib.

(** ** The code *)

Definition writes := list (Z * Z).
Definition udigits : list Z := Eval vm_compute in chars "0123456789ABCDEF".
Definition putc (fd c : Z) : M writes unit := modify (fun o => o ++ [(fd, u8 c)]).

(** The loop [do { buf[i++] = digits[x % base]; } while((x /= base) != 0)]; [None] is a
    store outside [buf]. *)
Fixpoint uprintint_loop (fuel : nat) (buf : list Z) (x base : Z) : option (list Z) :=
  if (length buf <? BUFLEN)%nat then
    let buf := buf ++ [nth (Z.to_nat (x mod base)) udigits 0] in
    let x := x / base in
    if x =? 0 then Some buf
    else match fuel with O => None | S f => uprintint_loop f buf x base end
  else None.
(** [while(--i >= 0) putc(fd, buf[i])] *)
Fixpoint uput_all (fd : Z) (cs : list Z) : M writes unit :=
  match cs with [] => return tt | c :: r => putc fd c ;;; uput_all fd r end.
(** [xx] is the [int] parameter. *)
Definition uprintint (fd xx base : Z) (sgn : bool) : M writes unit :=
  let neg := sgn && (xx <? 0) in
  let x := if neg then u32 (- xx) else u32 xx in
  match uprintint_loop BUFLEN [] x base with
  | Some buf =>
      if neg then (if (length buf <? BUFLEN)%nat then uput_all fd (rev (buf ++ [MINUS])) else undefined)
      else uput_all fd (rev buf)
  | None => undefined
  end.

Fixpoint uprintptr_loop (n : nat) (fd x : Z) : M writes unit :=
  match n with
  | O => return tt
  | S n => putc fd (nth (Z.to_nat (Z.shiftr x 60)) udigits 0) ;;; uprintptr_loop n fd (u64 (Z.shiftl x 4))
  end.
Definition uprintptr (fd x : Z) : M writes unit := putc fd 48 ;;; putc fd 120 ;;; uprintptr_loop 16 fd x.

Definition arg_num (ap : list varg) (k : Z -> list varg -> M writes unit) : M writes unit :=
  match ap with VNum z :: ap => k z ap | _ => undefined end.
Definition arg_str (ap : list varg) (k : option (list Z) -> list varg -> M writes unit) : M writes unit :=
  match ap with VStr s :: ap => k s ap | _ => undefined end.

(** The loop; [pct] is [state == '%'].  [va_arg(ap, int)] and [va_arg(ap, uint64)] are both
    converted to the [int] parameter of [printint]. *)
Fixpoint vprintf_loop (fuel : nat) (fd : Z) (fmt : list Z) (i : nat) (pct : bool) (ap : list varg) : M writes unit :=
  match fuel with
  | O => fun _ => Diverge
  | S f =>
    if nth i fmt 0 =? 0 then return tt
    else
      let c0 := nth i fmt 0 in
      if negb pct then
        if c0 =? PERCENT then vprintf_loop f fd fmt (i + 1) true ap
        else putc fd c0 ;;; vprintf_loop f fd fmt (i + 1) false ap
      else
        let c1 := if negb (c0 =? 0) then nth (i + 1) fmt 0 else 0 in
        let c2 := if negb (c1 =? 0) then nth (i + 2) fmt 0 else 0 in
        if c0 =? 100 then arg_num ap (fun z ap => uprintint fd (s32 z) 10 true ;;; vprintf_loop f fd fmt (i + 1) false ap)
        else if (c0 =? 108) && (c1 =? 100) then arg_num ap (fun z ap => uprintint fd (s32 z) 10 true ;;; vprintf_loop f fd fmt (i + 2) false ap)
        else if (c0 =? 108) && (c1 =? 108) && (c2 =? 100) then arg_num ap (fun z ap => uprintint fd (s32 z) 10 true ;;; vprintf_loop f fd fmt (i + 3) false ap)
        else if c0 =? 117 then arg_num ap (fun z ap => uprintint fd (s32 z) 10 false ;;; vprintf_loop f fd fmt (i + 1) false ap)
        else if (c0 =? 108) && (c1 =? 117) then arg_num ap (fun z ap => uprintint fd (s32 z) 10 false ;;; vprintf_loop f fd fmt (i + 2) false ap)
        else if (c0 =? 108) && (c1 =? 108) && (c2 =? 117) then arg_num ap (fun z ap => uprintint fd (s32 z) 10 false ;;; vprintf_loop f fd fmt (i + 3) false ap)
        else if c0 =? 120 then arg_num ap (fun z ap => uprintint fd (s32 z) 16 false ;;; vprintf_loop f fd fmt (i + 1) false ap)
        else if (c0 =? 108) && (c1 =? 120) then arg_num ap (fun z ap => uprintint fd (s32 z) 16 false ;;; vprintf_loop f fd fmt (i + 2) false ap)
        else if (c0 =? 108) && (c1 =? 108) && (c2 =? 120) then arg_num ap (fun z ap => uprintint fd (s32 z) 16 false ;;; vprintf_loop f fd fmt (i + 3) false ap)
        else if c0 =? 112 then arg_num ap (fun z ap => uprintptr fd (u64 z) ;;; vprintf_loop f fd fmt (i + 1) false ap)
        else if c0 =? 115 then
          arg_str ap (fun s ap =>
            uput_all fd (c_string (match s with None => chars "(null)" | Some s => s end)) ;;; vprintf_loop f fd fmt (i + 1) false ap)
        else if c0 =? PERCENT then putc fd PERCENT ;;; vprintf_loop f fd fmt (i + 1) false ap
        else putc fd PERCENT ;;; putc fd c0 ;;; vprintf_loop f fd fmt (i + 1) false ap
  end.
Definition vprintf (fd : Z) (fmt : list Z) (ap : list varg) : M writes unit :=
  vprintf_loop (S (length fmt)) fd fmt 0 false ap.
Definition fprintf (fd : Z) (fmt : list Z) (ap : list varg) : M writes unit := vprintf fd fmt ap.
Definition uprintf (fmt : list Z) (ap : list varg) : M writes unit := vprintf 1 fmt ap.

(** ** What a format means *)

(** The numeral of [x], most significant digit first. *)
Fixpoint unumeral (fuel : nat) (base x : Z) : list Z :=
  match fuel with
  | O => []
  | S f => (if x <? base then [] else unumeral f base (x / base)) ++ [nth (Z.to_nat (x mod base)) udigits 0]
  end.
Definition unumber (base : Z) (sgn : bool) (z : Z) : list Z :=
  if sgn && (s32 z <? 0) then MINUS :: unumeral 32 base (- s32 z) else unumeral 32 base (u32 z).
Fixpoint uhex (n : nat) (x : Z) : list Z :=
  match n with O => [] | S n => nth (Z.to_nat (Z.shiftr x 60)) udigits 0 :: uhex n (u64 (Z.shiftl x 4)) end.

Fixpoint urender (ts : list token) (ap : list varg) : option (list Z) :=
  match ts with
  | [] => Some []
  | TLit c :: ts => app [c] <$> urender ts ap
  | TBad c :: ts => app [PERCENT; c] <$> urender ts ap
  | TNum _ base sign :: ts => match ap with VNum z :: ap => app (unumber base sign z) <$> urender ts ap | _ => None end
  | TPtr :: ts => match ap with VNum z :: ap => app ([48; 120] ++ uhex 16 (u64 z)) <$> urender ts ap | _ => None end
  | TStr :: ts =>
    match ap with
    | VStr None :: ap => app (chars "(null)") <$> urender ts ap
    | VStr (Some s) :: ap => app (c_string s) <$> urender ts ap
    | _ => None
    end
  end.

(** ** printint *)

(** The number of digits. *)
Lemma unumeral_enough base x : 2 <= base -> forall f g, 0 <= x < base ^ Z.of_nat f -> (f <= g)%nat -> (0 < f)%nat -> unumeral g base x = unumeral f base x.
Proof.
  intros Hb f. revert x. induction f as [|f IH]; intros x g Hx Hg Hf; [lia|]. destruct g as [|g]; [lia|]. cbn [unumeral].
  destruct (Z.ltb_spec x base); [done|]. f_equal. destruct f as [|f]; [cbn in Hx; lia|]. apply IH; [|lia|lia].
  split; [apply Z.div_pos; lia|]. apply Z.div_lt_upper_bound; [lia|]. rewrite <-Z.pow_succ_r by lia. replace (Z.succ (Z.of_nat (S f))) with (Z.of_nat (S (S f))) by lia. lia.
Qed.
Lemma unumeral_length fuel base x : (length (unumeral fuel base x) <= fuel)%nat.
Proof.
  revert x. induction fuel as [|f IH]; intros x; cbn; [lia|]. rewrite length_app. destruct (x <? base); cbn; [lia|]. specialize (IH (x / base)). lia.
Qed.
Lemma uprintint_loop_spec base : 2 <= base -> forall k fuel x buf, 0 <= x < base ^ Z.of_nat k -> (0 < k)%nat -> (length buf + k <= BUFLEN)%nat -> (k <= S fuel)%nat ->
  uprintint_loop fuel buf x base = Some (buf ++ rev (unumeral k base x)).
Proof.
  intros Hb k. induction k as [|k IH]; intros fuel x buf Hx Hk Hl Hf; [lia|]. destruct fuel as [|fuel]; cbn [uprintint_loop unumeral].
  - assert (k = 0)%nat as -> by lia. rewrite Z.pow_1_r in Hx. rewrite (proj2 (Nat.ltb_lt _ _)) by lia.
    rewrite Z.div_small by lia. by rewrite (proj2 (Z.ltb_lt x base)) by lia.
  - rewrite (proj2 (Nat.ltb_lt _ _)) by lia. destruct (Z.ltb_spec x base) as [Hlt|Hge].
    + by rewrite Z.div_small by lia.
    + assert (0 < x / base) by (apply Z.div_str_pos; lia). rewrite (proj2 (Z.eqb_neq _ _)) by lia.
      destruct k as [|k]; [cbn in Hx; lia|]. rewrite rev_app_distr. cbn [rev app]. rewrite IH; [by rewrite <-app_assoc|..|lia|rewrite length_app; cbn; lia|lia].
      split; [lia|]. apply Z.div_lt_upper_bound; [lia|]. rewrite <-Z.pow_succ_r by lia. replace (Z.succ (Z.of_nat (S k))) with (Z.of_nat (S (S k))) by lia. lia.
Qed.

(** [m] writes [out] to [fd], or is undefined when there is none. *)
Definition uprints {A} (m : M writes A) (a : A) (fd : Z) (out : option (list Z)) (o : writes) : Prop :=
  m o = match out with Some out => Ok a (o ++ ((fun c => (fd, c)) <$> out)) | None => Panic "undefined behaviour" end.
Lemma uprints_seq {A} m (k : M writes A) a fd o1 o2 o :
  uprints m tt fd (Some o1) o -> (forall o, uprints k a fd o2 o) -> uprints (m ;;; k) a fd (app o1 <$> o2) o.
Proof.
  unfold uprints. intros H1 H2. rewrite (bind_Ok _ _ _ _ _ H1), H2. destruct o2; cbn; [|done]. by rewrite fmap_app, app_assoc.
Qed.
Lemma uprints_nil {A} (a : A) fd o : uprints (return a) a fd (Some []) o.
Proof. unfold uprints. cbn. by rewrite app_nil_r. Qed.
Lemma putc_prints fd c o : is_byte c -> uprints (putc fd c) tt fd (Some [c]) o.
Proof. unfold is_byte, uprints, putc, u8. intros H. cbn. by rewrite Z.mod_small by lia. Qed.
Lemma uput_all_prints fd cs : Forall is_byte cs -> forall o, uprints (uput_all fd cs) tt fd (Some cs) o.
Proof.
  induction 1 as [|c r Hc _ IH]; intros o; cbn [uput_all]; [apply uprints_nil|].
  apply (uprints_seq _ _ _ _ [c] (Some r)); [by apply putc_prints|done].
Qed.
Lemma udigits_bytes i : is_byte (nth i udigits 0).
Proof. unfold is_byte, udigits. do 16 (destruct i as [|i]; [cbn; lia|]). destruct i; cbn; lia. Qed.
Lemma unumeral_bytes fuel base x : Forall is_byte (unumeral fuel base x).
Proof.
  revert x. induction fuel as [|f IH]; intros x; cbn; [done|]. apply Forall_app. split; [by destruct (x <? base)|]. apply Forall_singleton, udigits_bytes.
Qed.

Lemma s32_range z : - 2 ^ 31 <= s32 z < 2 ^ 31.
Proof. unfold s32. pose proof (Z.mod_pos_bound (z + 2 ^ 31) (2 ^ 32) ltac:(lia)). lia. Qed.
Lemma u32_s32 z : u32 (s32 z) = u32 z.
Proof.
  unfold s32, u32. rewrite Zminus_mod_idemp_l. f_equal. lia.
Qed.
(** [printint] writes the number, whatever it is: its 16 characters are enough. *)
Lemma uprintint_prints fd z base sgn o : base = 10 \/ base = 16 ->
  uprints (uprintint fd (s32 z) base sgn) tt fd (Some (unumber base sgn z)) o.
Proof.
  intros Hb. assert (2 <= base) as Hb2 by lia. assert (2 ^ 32 <= base ^ Z.of_nat 10) as Hp by (by destruct Hb as [-> | ->]).
  pose proof (s32_range z) as Hz. unfold uprintint, unumber.
  destruct (sgn && (s32 z <? 0)) eqn:Hs.
  - apply andb_prop in Hs as [_ Hs]. apply Z.ltb_lt in Hs. unfold u32 at 1. rewrite Z.mod_small by lia.
    rewrite (uprintint_loop_spec base Hb2 10) by (unfold BUFLEN; cbn [length]; lia). cbn [app].
    rewrite (unumeral_enough base _ Hb2 10 32) by lia. pose proof (unumeral_length 10 base (- s32 z)) as Hl.
    rewrite length_rev, (proj2 (Nat.ltb_lt _ _)) by (unfold BUFLEN; lia). rewrite rev_app_distr, rev_involutive. cbn [rev app].
    apply uput_all_prints. constructor; [done|apply unumeral_bytes].
  - rewrite u32_s32. assert (0 <= u32 z < 2 ^ 32) by (apply Z.mod_pos_bound; lia).
    rewrite (uprintint_loop_spec base Hb2 10) by (unfold BUFLEN; cbn [length]; lia). cbn [app].
    rewrite (unumeral_enough base _ Hb2 10 32) by lia. rewrite rev_involutive. apply uput_all_prints, unumeral_bytes.
Qed.
Lemma uprintptr_prints fd x o : uprints (uprintptr fd x) tt fd (Some ([48; 120] ++ uhex 16 x)) o.
Proof.
  assert (forall n x o, uprints (uprintptr_loop n fd x) tt fd (Some (uhex n x)) o) as Hl.
  { clear. induction n as [|n IH]; intros x o; cbn [uprintptr_loop uhex]; [apply uprints_nil|].
    apply (uprints_seq _ _ _ _ [_] (Some _)); [apply putc_prints, udigits_bytes|done]. }
  apply (uprints_seq _ _ _ _ [_] (Some _)); [by apply putc_prints|]. intros o'.
  apply (uprints_seq _ _ _ _ [_] (Some _)); [by apply putc_prints|]. intros o''. apply Hl.
Qed.

(** ** vprintf *)

(** One conversion, given what the rest of the format prints. *)
Section conversion.
Context (fd : Z) (K : list varg -> M writes unit) (ts : list token).
Context (HK : forall ap, Forall vbyte ap -> forall o, uprints (K ap) tt fd (urender ts ap) o).

Lemma unum_prints long base sign ap : base = 10 \/ base = 16 -> Forall vbyte ap -> forall o,
  uprints (arg_num ap (fun z ap => uprintint fd (s32 z) base sign ;;; K ap)) tt fd (urender (TNum long base sign :: ts) ap) o.
Proof using HK.
  intros Hb Ha o. destruct ap as [|[z|st] ap]; [done| |done]. cbn [arg_num urender]. apply Forall_cons_1 in Ha as [_ Ha].
  apply uprints_seq; [by apply uprintint_prints|]. by apply HK.
Qed.
Lemma uptr_prints ap : Forall vbyte ap -> forall o,
  uprints (arg_num ap (fun z ap => uprintptr fd (u64 z) ;;; K ap)) tt fd (urender (TPtr :: ts) ap) o.
Proof using HK.
  intros Ha o. destruct ap as [|[z|st] ap]; [done| |done]. cbn [arg_num urender]. apply Forall_cons_1 in Ha as [_ Ha].
  apply uprints_seq; [by apply uprintptr_prints|]. by apply HK.
Qed.
Lemma ustr_prints ap : Forall vbyte ap -> forall o,
  uprints (arg_str ap (fun s ap => uput_all fd (c_string (match s with None => chars "(null)" | Some s => s end)) ;;; K ap)) tt fd
    (urender (TStr :: ts) ap) o.
Proof using HK.
  intros Ha o. destruct ap as [|[z|st] ap]; [done..|]. cbn [arg_str urender]. apply Forall_cons_1 in Ha as [Hst Ha].
  destruct st as [st|].
  - apply uprints_seq; [by apply uput_all_prints, c_string_bytes|by apply HK].
  - apply uprints_seq; [apply uput_all_prints, (chars_bytes "(null)")|by apply HK].
Qed.
Lemma ulit_prints c ap : is_byte c -> Forall vbyte ap -> forall o, uprints (putc fd c ;;; K ap) tt fd (urender (TLit c :: ts) ap) o.
Proof using HK. intros Hc Ha o. apply uprints_seq; [by apply putc_prints|]. by apply HK. Qed.
Lemma ubad_prints c ap : is_byte c -> Forall vbyte ap -> forall o,
  uprints (putc fd PERCENT ;;; putc fd c ;;; K ap) tt fd (urender (TBad c :: ts) ap) o.
Proof using HK.
  intros Hc Ha o. assert (urender (TBad c :: ts) ap = app [PERCENT] <$> (app [c] <$> urender ts ap)) as -> by (cbn; by destruct (urender ts ap)).
  apply uprints_seq; [by apply putc_prints|]. intros o'. apply uprints_seq; [by apply putc_prints|]. by apply HK.
Qed.
End conversion.

(** The three number conversions. *)
Ltac unum_cases c K long :=
  destruct (Z.eqb_spec c 100) as [->|]; [by apply (unum_prints _ (fun ap => vprintf_loop _ _ _ _ _ ap) _ K long); [left|]|];
  destruct (Z.eqb_spec c 117) as [->|]; [by apply (unum_prints _ (fun ap => vprintf_loop _ _ _ _ _ ap) _ K long); [left|]|];
  destruct (Z.eqb_spec c 120) as [->|]; [by apply (unum_prints _ (fun ap => vprintf_loop _ _ _ _ _ ap) _ K long); [right|]|].

(** What the loop prints from the state after a percent sign. *)
Definition after_percent (rest : list Z) : list token := lex (PERCENT :: rest).

Lemma vprintf_loop_prints fd fuel : forall pre rest pct ap o,
  Forall fchar rest -> (length rest < fuel)%nat -> Forall vbyte ap ->
  uprints (vprintf_loop fuel fd (pre ++ rest) (length pre) pct ap) tt fd
    (urender (if pct : bool then after_percent rest else lex rest) ap) o.
Proof.
  induction fuel as [|f IH]; intros pre rest pct ap o Hf Hlen Ha; [lia|].
  assert (forall used rest' i pct', rest = used ++ rest' -> used <> [] -> i = (length pre + length used)%nat ->
    forall ap, Forall vbyte ap -> forall o,
    uprints (vprintf_loop f fd (pre ++ rest) i pct' ap) tt fd (urender (if pct' : bool then after_percent rest' else lex rest') ap) o) as HK.
  { intros used rest' i pct' -> Hu -> ap' Ha' o'. rewrite app_assoc, <- length_app. apply IH; [| |done].
    - by apply Forall_app in Hf as [_ Hf].
    - rewrite length_app in Hlen. destruct used; [done|]. cbn in Hlen. lia. }
  cbn [vprintf_loop]. pose proof (nth_app_plus pre rest 0 0) as N0. rewrite Nat.add_0_r in N0.
  rewrite N0, !nth_app_plus. destruct rest as [|c0 r0].
  { cbn. destruct pct; apply uprints_nil. }
  cbn [nth]. apply Forall_cons_1 in Hf as [[Hb0 Hc0] Hf]. rewrite !(proj2 (Z.eqb_neq c0 0)) by done.
  destruct pct; cbn [negb].
  2:{ cbn [lex]. destruct (Z.eqb_spec c0 PERCENT) as [->|]; cbn [negb].
    - by apply (HK [PERCENT] r0 _ true).
    - apply (ulit_prints _ (fun ap => vprintf_loop f _ _ _ _ ap)); [|done..]. by apply (HK [c0] r0 _ false). }
  unfold after_percent. cbn [lex]. rewrite Z.eqb_refl. cbn [negb].
  pose proof (HK [c0] r0 (length pre + 1)%nat false eq_refl ltac:(done) eq_refl) as K0. unfold conv, num_conv at 1.
  unum_cases c0 K0 false.
  destruct (Z.eqb_spec c0 112) as [->|]; [by apply (uptr_prints _ (fun ap => vprintf_loop f _ _ _ _ ap) _ K0)|].
  destruct (Z.eqb_spec c0 115) as [->|]; [by apply (ustr_prints _ (fun ap => vprintf_loop f _ _ _ _ ap) _ K0)|].
  destruct (Z.eqb_spec c0 PERCENT) as [->|]; [by apply (ulit_prints _ (fun ap => vprintf_loop f _ _ _ _ ap) _ K0)|].
  pose proof (ubad_prints _ (fun ap => vprintf_loop f _ _ _ _ ap) _ K0 c0 ap Hb0 Ha o) as Kbad. clear K0.
  destruct (Z.eqb_spec c0 108) as [->|]; cbn [negb andb]; [|exact Kbad].
  destruct r0 as [|c1 r1]; [exact Kbad|]. cbn [nth]. apply Forall_cons_1 in Hf as [[Hb1 Hc1] Hf].
  rewrite !(proj2 (Z.eqb_neq c1 0)) by done. cbn [negb]. unfold num_conv at 1.
  pose proof (HK [108; c1] r1 (length pre + 2)%nat false eq_refl ltac:(done) eq_refl) as K1.
  unum_cases c1 K1 true.
  destruct (Z.eqb_spec c1 108) as [->|]; cbn [negb andb]; [|exact Kbad]. clear K1.
  destruct r1 as [|c2 r2]; [exact Kbad|]. cbn [nth]. apply Forall_cons_1 in Hf as [_ Hf]. unfold num_conv.
  pose proof (HK [108; 108; c2] r2 (length pre + 3)%nat false eq_refl ltac:(done) eq_refl) as K2.
  unum_cases c2 K2 true. exact Kbad.
Qed.

(** [vprintf], for every format and every list of arguments, ends and has written to
    [fd] exactly the text of the tokens of the format, one character at a time; it is
    undefined only when an argument is missing or of another kind.  A number is its
    numeral in base 10 or 16, after conversion to [int]; it always fits in the buffer of
    [printint]. *)
Theorem vprintf_renders (fd : Z) (fmt : list Z) (ap : list varg) (o : writes) :
  Forall fchar fmt -> Forall vbyte ap ->
  vprintf fd fmt ap o = match urender (lex fmt) ap with
                        | Some out => Ok tt (o ++ ((fun c => (fd, c)) <$> out))
                        | None => Panic "undefined behaviour"
                        end.
Proof. intros Hf Ha. by apply (vprintf_loop_prints fd _ [] fmt false); [|lia|]. Qed.

Lemma vprintf_renders_witness :
  vprintf 1 (chars "a%d%%%x%ld") [VNum (-15); VNum 254; VNum (2 ^ 32 + 7)] [] = Ok tt ((fun c => (1, c)) <$> chars "a-15%FE7").
Proof.
  rewrite (vprintf_renders 1 (chars "a%d%%%x%ld")).
  - vm_compute. reflexivity.
  - repeat (apply Forall_cons; split; [vm_compute; repeat split; intros [=]|]). constructor.
  - repeat constructor.
Defined.

(** ** Reading back *)

Lemma unumeral_dec fuel : forall x, 0 <= x < 10 ^ Z.of_nat fuel -> dec (unumeral fuel 10 x) = x /\ Forall is_digit (unumeral fuel 10 x).
Proof.
  induction fuel as [|f IH]; intros x Hx; cbn [unumeral]; [split; [cbn in *; lia|done]|].
  assert (nth (Z.to_nat (x mod 10)) udigits 0 = 48 + x mod 10) as Hd.
  { pose proof (Z.mod_pos_bound x 10 ltac:(lia)) as Hm. remember (x mod 10) as d. clear - Hm.
    assert (d = 0 \/ d = 1 \/ d = 2 \/ d = 3 \/ d = 4 \/ d = 5 \/ d = 6 \/ d = 7 \/ d = 8 \/ d = 9) as Hc by lia.
    by destruct Hc as [->|[->|[->|[->|[->|[->|[->|[->|[->| ->]]]]]]]]]. }
  rewrite Hd. pose proof (Z.mod_pos_bound x 10 ltac:(lia)). destruct (Z.ltb_spec x 10).
  - cbn [app]. unfold dec. cbn [fold_left]. rewrite Z.mod_small by lia. split; [lia|]. apply Forall_singleton. unfold is_digit. lia.
  - destruct (IH (x / 10)) as [H1 H2].
    { split; [apply Z.div_pos; lia|]. apply Z.div_lt_upper_bound; [lia|]. rewrite <-Z.pow_succ_r by lia.
      replace (Z.succ (Z.of_nat f)) with (Z.of_nat (S f)) by lia. lia. }
    split.
    + unfold dec in *. rewrite fold_left_app, H1. cbn [fold_left]. pose proof (Z.div_mod x 10 ltac:(lia)). lia.
    + apply Forall_app. split; [done|]. apply Forall_singleton. unfold is_digit. lia.
Qed.
(** a number written with [%d] and read back with [atoi] is the same number, up to the
    48 at the end of the range of [int] where [atoi] overflows. *)
Theorem atoi_reads_printed (m : memory) (a n : Z) (rest : list Z) (o : writes) :
  0 <= n < 2 ^ 31 - 48 -> (forall c, head rest = Some c -> ~ is_digit c) ->
  exists ds, vprintf 1 [PERCENT; 100] [VNum n] o = Ok tt (o ++ ((fun c => (1, c)) <$> ds)) /\
    (cstring m a (ds ++ rest) -> atoi m a = Some n).
Proof.
  intros Hn Hr. exists (unumber 10 true n). split.
  - assert (Forall fchar [PERCENT; 100]) as Hf by (repeat constructor; done).
    unfold vprintf. pose proof (vprintf_loop_prints 1 3 [] [PERCENT; 100] false [VNum n] o Hf ltac:(cbn; lia)) as H.
    rewrite H by (by repeat constructor). cbn. by rewrite app_nil_r.
  - assert (s32 n = n) as Hs by (unfold s32; rewrite Z.mod_small; lia). unfold unumber. rewrite Hs. rewrite (proj2 (Z.ltb_ge n 0)) by lia.
    cbn [andb]. unfold u32. rewrite Z.mod_small by lia. destruct (unumeral_dec 32 n) as [Hd Hf]; [cbn; lia|].
    intros H. rewrite (atoi_reads m a _ rest Hf H Hr); [by rewrite Hd|lia].
Qed.
Lemma atoi_reads_printed_witness :
  exists ds, vprintf 1 [PERCENT; 100] [VNum 70] [] = Ok tt ((fun c => (1, c)) <$> ds) /\ ds = [55; 48] /\
    atoi (stn ∅ 4096 [55; 48; 0]) 4096 = Some 70.
Proof.
  destruct (atoi_reads_printed (stn ∅ 4096 [55; 48; 0]) 4096 70 [] [] ltac:(lia) ltac:(done)) as (ds & H1 & H2).
  assert (ds = [55; 48]) as ->.
  { assert (vprintf 1 [PERCENT; 100] [VNum 70] [] = Ok tt [(1, 55); (1, 48)]) as E by (vm_compute; reflexivity).
    rewrite E in H1. injection H1 as H1. destruct ds as [|x [|y [|z ds]]]; cbn in H1; congruence. }
  exists [55; 48]. split; [exact H1|]. split; [reflexivity|]. apply H2. cbn [app]. apply cstring_cons.
  split; [reflexivity|]. split; [unfold cchar; lia|]. apply cstring_cons. split; [reflexivity|]. split; [unfold cchar; lia|].
  apply cstring_nil. reflexivity.
Defined.
