(* ===== verification/Sh.v ===== *)
(** * The shell's parser: [user/sh.c]

    A command line is its bytes without the NUL, a pointer into it an offset.  The
    parser returns commands whose words are offset pairs into the line, and
    [nulterminate] turns those into C strings by storing NULs in the line. *)

From stdpp Require Import base gmap strings list.
From S2P Require Import Prelude Riscv.

(** ** The code *)

Definition MAXARGS : nat := 10.

Definition whitespace : list Z := [32; 9; 13; 10; 11].
Definition symbols : list Z := [60; 124; 62; 38; 59; 40; 41].  (* < | > & ; ( ) *)
Definition is_in (l : list Z) (c : Z) : bool := existsb (Z.eqb c) l.

Record redir := mkRedir { rd_file : nat; rd_efile : nat; rd_mode : Z; rd_fd : Z }.
Inductive cmd :=
| EXEC (argv : list (nat * nat))
| REDIR (c : cmd) (r : redir)
| PIPE (left right : cmd)
| LIST (left right : cmd)
| BACK (c : cmd).

Section parser.
(** The line; [es] is its end. *)
Context (buf : list Z).
Definition es : nat := length buf.
Definition ch (i : nat) : Z := nth i buf 0.

Fixpoint skip (p : Z -> bool) (n i : nat) : nat :=
  match n with O => i | S n => if p (ch i) then skip p n (S i) else i end.
Definition skip_ws (i : nat) : nat := skip (is_in whitespace) (es - i) i.
Definition skip_word (i : nat) : nat := skip (fun c => negb (is_in whitespace c) && negb (is_in symbols c)) (es - i) i.

(** The token ([97] for a word), its beginning and its end. *)
Definition gettoken : M nat (Z * nat * nat) :=
  do s <- get;
  let q := skip_ws s in
  let c := ch q in
  let '(ret, eq) :=
    if c =? 0 then (c, q)
    else if is_in [124; 40; 41; 59; 38; 60] c then (c, S q)
    else if c =? 62 then (if ch (S q) =? 62 then (43, S (S q)) else (c, S q))
    else (97, skip_word q) in
  modify (fun _ => skip_ws eq) ;;;
  return (ret, q, eq).
Definition peek (toks : list Z) : M nat bool :=
  do s <- get;
  let s := skip_ws s in
  modify (fun _ => s) ;;;
  return (negb (ch s =? 0) && is_in toks (ch s)).

(** The redirections read, in order; each wraps the command before it. *)
Fixpoint parseredirs (fuel : nat) : M nat (list redir) :=
  do more <- peek [60; 62];
  if (more : bool) then
    match fuel with
    | O => fun _ => Diverge
    | S f =>
        do '(tok, _, _) <- gettoken;
        do '(t, q, eq) <- gettoken;
        if negb (t =? 97) then panic "missing file for redirection"
        else
          let rs := if tok =? 60 then [mkRedir q eq O_RDONLY 0]
                    else if tok =? 62 then [mkRedir q eq (Z.lor (Z.lor O_WRONLY O_CREATE) O_TRUNC) 1]
                    else if tok =? 43 then [mkRedir q eq (Z.lor O_WRONLY O_CREATE) 1]
                    else [] in
          do rs' <- parseredirs f;
          return (rs ++ rs')
    end
  else return [].
Definition wrap (c : cmd) (rs : list redir) : cmd := fold_left REDIR rs c.

(** The loop of [parseexec]; the [execcmd] node under the redirections gets the
    arguments. *)
Fixpoint args_loop (fuel : nat) (rs : list redir) (argv : list (nat * nat)) : M nat cmd :=
  do stop <- peek [124; 41; 38; 59];
  if (stop : bool) then return (wrap (EXEC argv) rs)
  else
    match fuel with
    | O => fun _ => Diverge
    | S f =>
        do '(tok, q, eq) <- gettoken;
        if tok =? 0 then return (wrap (EXEC argv) rs)
        else if negb (tok =? 97) then panic "syntax"
        else
          let argv := argv ++ [(q, eq)] in
          if (MAXARGS <=? length argv)%nat then panic "too many args"
          else do rs' <- parseredirs f; args_loop f (rs ++ rs') argv
    end.
Fixpoint backs_loop (fuel : nat) (c : cmd) : M nat cmd :=
  do more <- peek [38];
  if (more : bool) then
    match fuel with
    | O => fun _ => Diverge
    | S f => gettoken ;;; backs_loop f (BACK c)
    end
  else return c.

Fixpoint parseline (fuel : nat) : M nat cmd :=
  match fuel with
  | O => fun _ => Diverge
  | S f =>
      do c <- parsepipe f;
      do c <- backs_loop f c;
      do more <- peek [59];
      if (more : bool) then gettoken ;;; do r <- parseline f; return (LIST c r)
      else return c
  end
with parsepipe (fuel : nat) : M nat cmd :=
  match fuel with
  | O => fun _ => Diverge
  | S f =>
      do c <- parseexec f;
      do more <- peek [124];
      if (more : bool) then gettoken ;;; do r <- parsepipe f; return (PIPE c r)
      else return c
  end
with parseexec (fuel : nat) : M nat cmd :=
  match fuel with
  | O => fun _ => Diverge
  | S f =>
      do block <- peek [40];
      if (block : bool) then parseblock f
      else do rs <- parseredirs f; args_loop f rs []
  end
with parseblock (fuel : nat) : M nat cmd :=
  match fuel with
  | O => fun _ => Diverge
  | S f =>
      do open <- peek [40];
      if negb open then panic "parseblock"
      else
        gettoken ;;;
        do c <- parseline f;
        do close <- peek [41];
        if negb close then panic "syntax - missing )"
        else
          gettoken ;;;
          do rs <- parseredirs f;
          return (wrap c rs)
  end.
End parser.

(** Store the NULs that end the words. *)
Fixpoint nulterminate (c : cmd) (b : list Z) : list Z :=
  match c with
  | EXEC argv => fold_left (fun b a => <[snd a := 0]> b) argv b
  | REDIR c r => <[rd_efile r := 0]> (nulterminate c b)
  | PIPE l r | LIST l r => nulterminate r (nulterminate l b)
  | BACK c => nulterminate c b
  end.
Definition parsecmd (buf : list Z) : outcome nat (cmd * list Z) :=
  (do c <- parseline buf (4 * length buf + 4);
   peek buf [] ;;;
   do s <- get;
   if negb (s =? es buf)%nat then panic "syntax"
   else return (c, nulterminate c buf)) 0%nat.

(** ** The parser returns or reports an error on every line *)

(** The computation does not run out of steps, and what it returns satisfies [Q]. *)
Definition ends {A} (m : M nat A) (Q : A -> nat -> Prop) (i : nat) : Prop :=
  match m i with Ok a i' => Q a i' | Diverge => False | _ => True end.
Lemma ends_bind {A B} (m : M nat A) (k : A -> M nat B) Q i : ends m (fun a i' => ends (k a) Q i') i -> ends (bind m k) Q i.
Proof. unfold ends, bind. by destruct (m i). Qed.
Lemma ends_mono {A} (m : M nat A) (Q Q' : A -> nat -> Prop) i : (forall a i', Q a i' -> Q' a i') -> ends m Q i -> ends m Q' i.
Proof. unfold ends. destruct (m i); auto. Qed.
Lemma ends_Ok {A} (m : M nat A) Q i a i' : m i = Ok a i' -> Q a i' -> ends m Q i.
Proof. unfold ends. by intros ->. Qed.

Section total.
Context (buf : list Z) (Hbuf : 0 ∉ buf).
Local Notation Len := (es buf).
Local Notation Ch := (ch buf).

Lemma ch_end i : Ch i = 0 <-> (Len <= i)%nat.
Proof using Hbuf.
  unfold ch, es. split; [|by apply nth_overflow]. intros E. destruct (Nat.le_gt_cases (length buf) i) as [|Hi]; [done|].
  destruct Hbuf. rewrite <- E. apply list_elem_of_In, nth_In. lia.
Qed.
Lemma skip_le p n i : (i <= skip buf p n i <= i + n)%nat.
Proof. revert i. induction n as [|n IH]; intros i; cbn [skip]; [lia|]. destruct (p (Ch i)); [specialize (IH (S i))|]; lia. Qed.
Lemma skip_stops p n i : (skip buf p n i < i + n)%nat -> p (Ch (skip buf p n i)) = false.
Proof.
  revert i. induction n as [|n IH]; intros i; cbn [skip]; [lia|]. destruct (p (Ch i)) eqn:E; [|done]. intros. apply IH. lia.
Qed.
Lemma skip_ws_le i : (i <= Len)%nat -> (i <= skip_ws buf i <= Len)%nat.
Proof. intros Hi. unfold skip_ws. pose proof (skip_le (is_in whitespace) (Len - i) i). lia. Qed.
Lemma skip_ws_stops i : (i <= Len)%nat -> Ch (skip_ws buf i) <> 0 -> is_in whitespace (Ch (skip_ws buf i)) = false.
Proof using Hbuf.
  intros Hi Hc. rewrite ch_end in Hc. unfold skip_ws in *. apply skip_stops. lia.
Qed.
Lemma skip_ws_id i : is_in whitespace (Ch i) = false -> skip_ws buf i = i.
Proof. intros Hi. unfold skip_ws. destruct (Len - i)%nat; cbn [skip]; [done|]. by rewrite Hi. Qed.

Lemma gettoken_ends i : (i <= Len)%nat -> ends (gettoken buf) (fun r i' => (i <= i' <= Len)%nat /\ (Ch (skip_ws buf i) <> 0 -> (i < i')%nat) /\ (r.1.1 = 0 <-> Ch (skip_ws buf i) = 0)) i.
Proof using Hbuf.
  intros Hi. pose proof (skip_ws_le i Hi) as Hq. unfold ends, gettoken. unfold bind at 1, get. set (q := skip_ws buf i) in *.
  assert (forall e, (q <= e <= Len)%nat -> (e <= skip_ws buf e <= Len)%nat) as Hws by (intros e He; apply skip_ws_le; lia).
  destruct (Z.eqb_spec (Ch q) 0) as [E0|E0].
  { cbn. specialize (Hws q ltac:(lia)). split; [lia|]. split; [done|]. tauto. }
  assert (q < Len)%nat as Hlt by (rewrite ch_end in E0; lia).
  destruct (is_in [124; 40; 41; 59; 38; 60] (Ch q)) eqn:E1.
  { cbn. specialize (Hws (S q) ltac:(lia)). split; [lia|]. split; [lia|]. tauto. }
  destruct (Z.eqb_spec (Ch q) 62) as [E2|E2].
  - destruct (Z.eqb_spec (Ch (S q)) 62) as [E3|E3].
    + assert (S q < Len)%nat by (assert (Ch (S q) <> 0) as E4 by lia; rewrite ch_end in E4; lia).
      cbn. specialize (Hws (S (S q)) ltac:(lia)). split; [lia|]. split; [lia|]. lia.
    + cbn. specialize (Hws (S q) ltac:(lia)). split; [lia|]. split; [lia|]. tauto.
  - cbn [bind modify mret' fst]. assert (q < skip_word buf q <= Len)%nat as Hw.
    { unfold skip_word. pose proof (skip_ws_stops i Hi E0) as Hw. fold q in Hw. destruct (Len - q)%nat as [|n] eqn:En; [lia|]. cbn [skip]. rewrite Hw.
      assert (is_in symbols (Ch q) = false) as ->.
      { unfold symbols, is_in in *. cbn in *. rewrite !orb_false_iff in *. rewrite !Z.eqb_neq in *. tauto. }
      cbn [negb andb]. pose proof (skip_le (fun c => negb (is_in whitespace c) && negb (is_in symbols c)) n (S q)). lia. }
    cbn. specialize (Hws (skip_word buf q) ltac:(lia)). split; [lia|]. split; [lia|]. lia.
Qed.
(** Where [peek] sees a token, [gettoken] advances. *)
Lemma peek_ends toks i : (i <= Len)%nat -> ends (peek buf toks) (fun b i' => (i <= i' <= Len)%nat /\ (b = true -> Ch (skip_ws buf i') <> 0)) i.
Proof using Hbuf.
  intros Hi. pose proof (skip_ws_le i Hi) as Hq. unfold ends, peek. cbn. split; [done|]. rewrite andb_true_iff, negb_true_iff, Z.eqb_neq.
  intros [H0 _]. rewrite skip_ws_id; [done|]. by apply skip_ws_stops.
Qed.
Lemma peek_then {A} toks (k : bool -> M nat A) Q i : (i <= Len)%nat ->
  (forall i', (i <= i' <= Len)%nat -> Ch (skip_ws buf i') <> 0 -> ends (k true) Q i') ->
  (forall i', (i <= i' <= Len)%nat -> ends (k false) Q i') -> ends (bind (peek buf toks) k) Q i.
Proof using Hbuf.
  intros Hi Ht Hf. apply ends_bind. eapply ends_mono; [|by apply peek_ends]. intros [] i' [H1 H2]; [apply Ht; auto|by apply Hf].
Qed.
Lemma gettoken_then {A} (k : Z * nat * nat -> M nat A) Q i : (i <= Len)%nat ->
  (forall r i', (i <= i' <= Len)%nat -> (Ch (skip_ws buf i) <> 0 -> (i < i')%nat) -> (r.1.1 = 0 <-> Ch (skip_ws buf i) = 0) -> ends (k r) Q i') ->
  ends (bind (gettoken buf) k) Q i.
Proof using Hbuf.
  intros Hi Hk. apply ends_bind. eapply ends_mono; [|by apply gettoken_ends]. intros r i' (H1 & H2 & H3). by apply Hk.
Qed.

Definition moves {A} (i : nat) (_ : A) (i' : nat) : Prop := (i <= i' <= Len)%nat.
Lemma parseredirs_ends f : forall i, (i <= Len)%nat -> (Len - i <= f)%nat -> ends (parseredirs buf f) (moves i) i.
Proof using Hbuf.
  induction f as [|f IH]; intros i Hi Hf; cbn [parseredirs]; apply (peek_then [60; 62]); try done.
  - intros i' Hi' Hc. exfalso. apply Hc, ch_end. pose proof (skip_ws_le i' ltac:(lia)). lia.
  - intros i' Hi' Hc. apply gettoken_then; [lia|]. intros [[tok ?] ?] i1 Hi1 H1 _. specialize (H1 Hc). apply gettoken_then; [lia|].
    intros [[t q] eq] i2 Hi2 _ _. destruct (negb (t =? 97)); [done|]. apply ends_bind. eapply ends_mono; [|apply (IH i2); lia].
    intros rs i3 H3. unfold moves in H3. unfold ends, moves; cbn. lia.
Qed.
Lemma args_loop_ends f : forall rs argv i, (i <= Len)%nat -> (Len - i < f)%nat -> ends (args_loop buf f rs argv) (moves i) i.
Proof using Hbuf.
  induction f as [|f IH]; intros rs argv i Hi Hf; [lia|]. cbn [args_loop]. apply (peek_then [124; 41; 38; 59]); try done.
  intros i' Hi'. apply gettoken_then; [lia|]. intros [[tok q] eq] i1 Hi1 H1 H2. cbn in H2. destruct (Z.eqb_spec tok 0) as [->|Ht].
  { unfold ends, moves; cbn. lia. }
  assert (i' < i1)%nat as Hlt by (apply H1; tauto). destruct (negb (tok =? 97)); [done|]. destruct (MAXARGS <=? _)%nat; [done|].
  apply ends_bind. eapply ends_mono; [|apply (parseredirs_ends f i1); lia]. intros rs' i2 H3. unfold moves in H3. cbv beta.
  eapply ends_mono; [|apply IH; lia]. unfold moves. intros; lia.
Qed.
Lemma backs_loop_ends f : forall c i, (i <= Len)%nat -> (Len - i <= f)%nat -> ends (backs_loop buf f c) (moves i) i.
Proof using Hbuf.
  induction f as [|f IH]; intros c i Hi Hf; cbn [backs_loop]; apply (peek_then [38]); try done.
  - intros i' Hi' Hc. exfalso. apply Hc, ch_end. pose proof (skip_ws_le i' ltac:(lia)). lia.
  - intros i' Hi' Hc. apply gettoken_then; [lia|]. intros r i1 Hi1 H1 _. specialize (H1 Hc).
    eapply ends_mono; [|apply IH; lia]. unfold moves. intros; lia.
Qed.

Lemma parse_ends f : forall i, (i <= Len)%nat ->
  ((4 * (Len - i) + 4 <= f)%nat -> ends (parseline buf f) (moves i) i) /\
  ((4 * (Len - i) + 3 <= f)%nat -> ends (parsepipe buf f) (moves i) i) /\
  ((4 * (Len - i) + 2 <= f)%nat -> ends (parseexec buf f) (moves i) i) /\
  ((4 * (Len - i) + 1 <= f)%nat -> ends (parseblock buf f) (moves i) i).
Proof using Hbuf.
  induction f as [|f IH]; intros i Hi; (split; [|split; [|split]]); intros Hf; try lia; cbn [parseline parsepipe parseexec parseblock].
  - apply ends_bind. eapply ends_mono; [|apply IH; lia]. intros c i1 H1. unfold moves in H1. cbv beta.
    apply ends_bind. eapply ends_mono; [|apply backs_loop_ends; lia]. intros c2 i2 H2. unfold moves in H2. cbv beta.
    apply (peek_then [59]); [lia| |intros i3 H3; unfold ends, moves; cbn; lia]. intros i3 H3 Hc.
    apply gettoken_then; [lia|]. intros r i4 H4 H4' _. specialize (H4' Hc). apply ends_bind. eapply ends_mono; [|apply IH; lia].
    intros c3 i5 H5. unfold moves in H5. unfold ends, moves; cbn. lia.
  - apply ends_bind. eapply ends_mono; [|apply IH; lia]. intros c i1 H1. unfold moves in H1. cbv beta.
    apply (peek_then [124]); [lia| |intros i3 H3; unfold ends, moves; cbn; lia]. intros i3 H3 Hc.
    apply gettoken_then; [lia|]. intros r i4 H4 H4' _. specialize (H4' Hc). apply ends_bind. eapply ends_mono; [|apply IH; lia].
    intros c3 i5 H5. unfold moves in H5. unfold ends, moves; cbn. lia.
  - apply (peek_then [40]); [lia|intros i1 H1 _; eapply ends_mono; [|apply IH; lia]; unfold moves; intros; lia|]. intros i1 H1.
    apply ends_bind. eapply ends_mono; [|apply parseredirs_ends; lia]. intros rs i2 H2. unfold moves in H2. cbv beta.
    eapply ends_mono; [|apply args_loop_ends; lia]. unfold moves. intros; lia.
  - apply (peek_then [40]); [lia| |done]. intros i1 H1 Hc. cbn [negb]. apply gettoken_then; [lia|]. intros r i2 H2 H2' _. specialize (H2' Hc).
    apply ends_bind. eapply ends_mono; [|apply IH; lia]. intros c i3 H3. unfold moves in H3. cbv beta.
    apply (peek_then [41]); [lia| |done]. intros i4 H4 _. cbn [negb]. apply gettoken_then; [lia|]. intros r' i5 H5 _ _.
    apply ends_bind. eapply ends_mono; [|apply parseredirs_ends; lia]. intros rs i6 H6. unfold moves in H6. unfold ends, moves; cbn. lia.
Qed.
Lemma parsecmd_total : parsecmd buf <> Diverge.
Proof using Hbuf.
  unfold parsecmd. set (m := bind _ _). assert (ends m (fun _ _ => True) 0%nat) as H; [|unfold ends in H; by destruct (m 0%nat)]. unfold m. fold Len.
  apply ends_bind. eapply ends_mono; [|apply parse_ends; unfold es; lia]. intros c i H1. unfold moves in H1. cbv beta.
  apply (peek_then []); [lia|intros i' _ _|intros i' _]; unfold ends; cbn; by destruct (i' =? _)%nat.
Qed.
End total.

(** ** Command lines and their parse *)

Inductive tok := TWord (w : list Z) | TPipe | TAmp | TSemi | TOpen | TClose | TLt | TGt | TGtGt.
Definition tok_bytes (t : tok) : list Z :=
  match t with
  | TWord w => w | TPipe => [124] | TAmp => [38] | TSemi => [59] | TOpen => [40] | TClose => [41]
  | TLt => [60] | TGt => [62] | TGtGt => [62; 62]
  end.
(** What [gettoken] returns for it. *)
Definition tok_code (t : tok) : Z :=
  match t with
  | TWord _ => 97 | TPipe => 124 | TAmp => 38 | TSemi => 59 | TOpen => 40 | TClose => 41
  | TLt => 60 | TGt => 62 | TGtGt => 43
  end.
Definition word_char (c : Z) : Prop := c <> 0 /\ is_in whitespace c = false /\ is_in symbols c = false.
Definition good_word (w : list Z) : Prop := w <> [] /\ Forall word_char w.
Definition good_tok (t : tok) : Prop := match t with TWord w => good_word w | _ => True end.

(** Words, redirections and the structure of a line; their tokens; the command
    they stand for. *)
Inductive rkind := RIn | ROut | RApp.
Inductive sline := LOne (p : spipe) (nb : nat) | LSeq (p : spipe) (nb : nat) (l : sline)
with spipe := POne (e : sexec) | PSeq (e : sexec) (p : spipe)
with sexec := XSimple (rs : list (rkind * list Z)) (args : list (list Z * list (rkind * list Z))) | XBlock (l : sline) (rs : list (rkind * list Z)).

Definition toks_redir (r : rkind * list Z) : list tok :=
  [match r.1 with RIn => TLt | ROut => TGt | RApp => TGtGt end; TWord r.2].
Definition toks_redirs (rs : list (rkind * list Z)) : list tok := concat (toks_redir <$> rs).
Definition toks_args (args : list (list Z * list (rkind * list Z))) : list tok :=
  concat ((fun a => TWord a.1 :: toks_redirs a.2) <$> args).
Fixpoint toks_line (l : sline) : list tok :=
  match l with
  | LOne p nb => toks_pipe p ++ replicate nb TAmp
  | LSeq p nb l => toks_pipe p ++ replicate nb TAmp ++ TSemi :: toks_line l
  end
with toks_pipe (p : spipe) : list tok :=
  match p with POne e => toks_exec e | PSeq e p => toks_exec e ++ TPipe :: toks_pipe p end
with toks_exec (e : sexec) : list tok :=
  match e with
  | XSimple rs args => toks_redirs rs ++ toks_args args
  | XBlock l rs => TOpen :: toks_line l ++ TClose :: toks_redirs rs
  end.

Inductive wcmd :=
| WEXEC (argv : list (list Z))
| WREDIR (c : wcmd) (file : list Z) (mode fd : Z)
| WPIPE (left right : wcmd)
| WLIST (left right : wcmd)
| WBACK (c : wcmd).
Definition redir_mode (k : rkind) : Z :=
  match k with RIn => O_RDONLY | ROut => Z.lor (Z.lor O_WRONLY O_CREATE) O_TRUNC | RApp => Z.lor O_WRONLY O_CREATE end.
Definition redir_fd (k : rkind) : Z := match k with RIn => 0 | _ => 1 end.
Definition wwrap (c : wcmd) (rs : list (rkind * list Z)) : wcmd :=
  fold_left (fun c r => WREDIR c r.2 (redir_mode r.1) (redir_fd r.1)) rs c.
Fixpoint tree_line (l : sline) : wcmd :=
  match l with
  | LOne p nb => Nat.iter nb WBACK (tree_pipe p)
  | LSeq p nb l => WLIST (Nat.iter nb WBACK (tree_pipe p)) (tree_line l)
  end
with tree_pipe (p : spipe) : wcmd :=
  match p with POne e => tree_exec e | PSeq e p => WPIPE (tree_exec e) (tree_pipe p) end
with tree_exec (e : sexec) : wcmd :=
  match e with
  | XSimple rs args => wwrap (WEXEC (fst <$> args)) (rs ++ concat (snd <$> args))
  | XBlock l rs => wwrap (tree_line l) rs
  end.
(** At most [MAXARGS] - 1 words in a simple command. *)
Fixpoint few_line (l : sline) : Prop :=
  match l with LOne p _ => few_pipe p | LSeq p _ l => few_pipe p /\ few_line l end
with few_pipe (p : spipe) : Prop :=
  match p with POne e => few_exec e | PSeq e p => few_exec e /\ few_pipe p end
with few_exec (e : sexec) : Prop :=
  match e with XSimple _ args => (length args < MAXARGS)%nat | XBlock l _ => few_line l end.

Scheme sline_mut := Induction for sline Sort Prop
  with spipe_mut := Induction for spipe Sort Prop
  with sexec_mut := Induction for sexec Sort Prop.
Combined Scheme sh_mutind from sline_mut, spipe_mut, sexec_mut.

(** The command with its words read off a line. *)
Fixpoint resolve (f : nat * nat -> list Z) (c : cmd) : wcmd :=
  match c with
  | EXEC argv => WEXEC (f <$> argv)
  | REDIR c r => WREDIR (resolve f c) (f (rd_file r, rd_efile r)) (rd_mode r) (rd_fd r)
  | PIPE l r => WPIPE (resolve f l) (resolve f r)
  | LIST l r => WLIST (resolve f l) (resolve f r)
  | BACK c => WBACK (resolve f c)
  end.
Fixpoint offs (c : cmd) : list (nat * nat) :=
  match c with
  | EXEC argv => argv
  | REDIR c r => offs c ++ [(rd_file r, rd_efile r)]
  | PIPE l r | LIST l r => offs l ++ offs r
  | BACK c => offs c
  end.
Definition slice (b : list Z) (w : nat * nat) : list Z := take (w.2 - w.1) (drop w.1 b).

(** ** The text of a line

    Tokens, each with the white space after it.  White space may be missing, except
    where two tokens would run together. *)
Definition ws_only (l : list Z) : Prop := Forall (fun c => is_in whitespace c = true) l.
Definition text (lay : list (tok * list Z)) : list Z := concat ((fun x => tok_bytes x.1 ++ x.2) <$> lay).
Definition run_together (t t' : tok) : bool :=
  match t, t' with TWord _, TWord _ | TGt, TGt | TGt, TGtGt => true | _, _ => false end.
Fixpoint good_lay (lay : list (tok * list Z)) : Prop :=
  match lay with
  | [] => True
  | (t, sp) :: r =>
      good_tok t /\ ws_only sp /\ match r with (t', _) :: _ => run_together t t' = true -> sp <> [] | [] => True end /\ good_lay r
  end.

Section lex.
Context (buf : list Z).
Local Notation Len := (es buf).
Local Notation Ch := (ch buf).

(** The parser is in front of the tokens [ts]. *)
Definition here (i : nat) (ts : list tok) : Prop :=
  (i <= Len)%nat /\ exists lay, lay.*1 = ts /\ drop (skip_ws buf i) buf = text lay /\ good_lay lay.
(** The end of a token: no character of the word follows a word. *)
Definition tok_end (t : tok) (e : nat) : Prop := (e <= Len)%nat /\ match t with TWord _ => ~ word_char (Ch e) | _ => True end.
(** A word of the line. *)
Definition okw (w : nat * nat) : Prop := good_word (slice buf w) /\ ~ word_char (Ch w.2) /\ (w.1 <= w.2 <= Len)%nat.

Lemma ch_drop i c l : drop i buf = c :: l -> Ch i = c /\ drop (S i) buf = l.
Proof.
  intros E. unfold ch. assert (buf !! i = Some c) as Hi by (rewrite <- (Nat.add_0_r i), <- lookup_drop, E; done).
  split; [by apply nth_lookup_Some|]. rewrite <- Nat.add_1_r, <- drop_drop, E. done.
Qed.
Lemma ch_nil i : drop i buf = [] -> Ch i = 0.
Proof. intros E. unfold ch. apply nth_overflow. assert (length (drop i buf) = 0%nat) as Hl by (by rewrite E). rewrite length_drop in Hl. lia. Qed.

(** Skipping characters of a class. *)
Lemma skip_over p a : forall n i l, drop i buf = a ++ l -> Forall (fun c => p c = true) a -> (length a <= n)%nat ->
  (match l with c :: _ => p c = false | [] => n = length a \/ p 0 = false end) -> skip buf p n i = (i + length a)%nat.
Proof.
  induction a as [|c a IH]; intros n i l E Ha Hn Hl.
  - cbn in *. rewrite Nat.add_0_r. destruct n as [|n]; [done|]. cbn. destruct l as [|c l].
    + destruct Hl as [?|Hl]; [done|]. by rewrite (ch_nil i E), Hl.
    + destruct (ch_drop _ _ _ E) as [-> _]. by rewrite Hl.
  - destruct n as [|n]; [cbn in Hn; lia|]. cbn [skip]. destruct (ch_drop _ _ _ E) as [-> E']. apply Forall_cons in Ha as [-> Ha].
    rewrite (IH n (S i) l); [cbn; lia|done|done|cbn in Hn; lia|]. destruct l; [|done]. destruct Hl as [Hl|?]; [left; cbn in Hl; lia|by right].
Qed.
Lemma tok_first t : good_tok t -> exists c r, tok_bytes t = c :: r /\ c <> 0 /\ is_in whitespace c = false /\ (match t with TWord _ => is_in symbols c = false | _ => True end).
Proof.
  destruct t as [w| | | | | | | |]; intros Hg; try (by eexists _, _; split; [reflexivity|]). destruct Hg as [Hne Hw]. destruct w as [|c w]; [done|].
  apply Forall_cons in Hw as [(H1 & H2 & H3) _]. by exists c, w.
Qed.
Lemma text_cons t sp lay : text ((t, sp) :: lay) = tok_bytes t ++ sp ++ text lay.
Proof. unfold text. cbn. by rewrite <- app_assoc. Qed.
Lemma text_head lay : good_lay lay -> match text lay with c :: _ => is_in whitespace c = false | [] => True end.
Proof.
  destruct lay as [|[t sp] lay]; [done|]. intros (Hg & _). rewrite text_cons. destruct (tok_first t Hg) as (c & r & -> & _ & Hc & _). done.
Qed.

(** After the white space that follows a token the parser is in front of the next. *)
Lemma skip_sep e sp lay : (e <= Len)%nat -> drop e buf = sp ++ text lay -> ws_only sp -> good_lay lay -> here (skip_ws buf e) lay.*1.
Proof.
  intros Hle E Hs Hg. assert (length (drop e buf) = length (sp ++ text lay)) as Hl by (by rewrite E). rewrite length_drop, length_app in Hl. unfold es in *.
  assert (skip_ws buf e = e + length sp)%nat as Hk.
  { unfold skip_ws. apply (skip_over _ sp _ e (text lay)); [done|done|unfold es; lia|]. pose proof (text_head lay Hg) as Hh.
    destruct (text lay) eqn:Et; [|done]. left. unfold es. cbn in Hl. lia. }
  assert (skip_ws buf (e + length sp) = e + length sp)%nat as Hk2.
  { unfold skip_ws. transitivity (e + length sp + length (@nil Z))%nat; [|cbn; lia]. apply (skip_over _ [] _ _ (text lay)); [|done|cbn; lia|].
    - rewrite <- drop_drop, E, drop_app_length. done.
    - pose proof (text_head lay Hg) as Hh. destruct (text lay); [by right|done]. }
  rewrite Hk. split; [unfold es; lia|]. exists lay. rewrite Hk2. split; [done|]. split; [|done]. rewrite <- drop_drop, E, drop_app_length. done.
Qed.

Lemma is_in_spec l c : is_in l c = true <-> c ∈ l.
Proof.
  unfold is_in. rewrite existsb_exists. split.
  - intros (x & Hx & ->%Z.eqb_eq). by apply list_elem_of_In.
  - intros Hc. exists c. split; [by apply list_elem_of_In|apply Z.eqb_refl].
Qed.
Lemma sym_ne c x : is_in symbols c = false -> is_in symbols x = true -> c <> x.
Proof. congruence. Qed.

(** The character after a token and its white space. *)
Lemma after_tok e t sp lay : drop e buf = sp ++ text lay -> good_lay ((t, sp) :: lay) ->
  match t with TWord _ => ~ word_char (Ch e) | TGt => Ch e <> 62 | _ => True end /\
  match sp ++ text lay with c :: _ => Ch e = c | [] => Ch e = 0 end.
Proof.
  intros E (Hg & Hs & Hr & Hl). destruct sp as [|c sp]; cbn [app] in *.
  - destruct lay as [|[t' sp'] lay].
    + cbn in *. rewrite (ch_nil e E). split; [|done]. destruct t; try done. by intros [].
    + destruct Hl as (Hg' & _). rewrite text_cons in *. destruct (tok_first t' Hg') as (c & r & Et & C1 & C2 & C3). rewrite Et in *. cbn [app] in *.
      destruct (ch_drop _ _ _ E) as [-> _]. split; [|done].
      destruct t as [w| | | | | | | |]; try done; destruct t' as [w'| | | | | | | |]; cbn in Et; try injection Et as <- <-; try (by intros (_ & _ & ?)); try done;
        try (by destruct (Hr eq_refl)). intros ->. done.
  - destruct (ch_drop _ _ _ E) as [-> _]. apply Forall_cons in Hs as [Hc _]. split; [|done]. destruct t; try done; [intros (_ & ? & _); congruence|by intros ->].
Qed.
Definition got_tok (i : nat) (t : tok) (ts : list tok) : Prop := exists q i',
  gettoken buf i = Ok (tok_code t, q, (q + length (tok_bytes t))%nat) i' /\ here i' ts /\
  slice buf (q, (q + length (tok_bytes t))%nat) = tok_bytes t /\ tok_end t (q + length (tok_bytes t)).
Lemma gettoken_tok i t ts : here i (t :: ts) -> got_tok i t ts.
Proof.
  intros (Hi & [|[t0 sp] lay] & E & Hd & Hgl); [done|]. injection E as -> <-. set (q := skip_ws buf i) in *. rewrite text_cons in Hd.
  set (e := (q + length (tok_bytes t))%nat). assert (drop e buf = sp ++ text lay) as He by (unfold e; by rewrite <- drop_drop, Hd, drop_app_length).
  assert (length (drop q buf) = length (tok_bytes t ++ sp ++ text lay)) as Hl by (by rewrite Hd). rewrite length_drop, length_app in Hl.
  pose proof (skip_ws_le buf i Hi) as Hq. fold q in Hq. assert (e <= Len)%nat as Hle by (unfold e, es in *; lia).
  destruct (after_tok e t sp lay He Hgl) as [Ha Hc]. destruct Hgl as (Hg & Hs & Hr & Hgl). pose proof (skip_sep e sp lay Hle He Hs Hgl) as Hnext.
  exists q, (skip_ws buf e). fold e. split; [|split; [done|split; [|split; [done|by destruct t]]]].
  2: { unfold slice. cbn. replace (e - q)%nat with (length (tok_bytes t)) by (unfold e; lia). by rewrite Hd, take_app_length. }
  unfold gettoken. unfold bind at 1, get. fold q. destruct t as [wd| | | | | | | |]; cbn [tok_bytes tok_code length app] in *.
  2-7: destruct (ch_drop _ _ _ Hd) as [-> _]; cbn; unfold e; rewrite ?Nat.add_1_r; reflexivity.
  - destruct (tok_first (TWord wd) Hg) as (c & r' & E & C1 & C2 & C3). cbn in E. assert (Ch q = c) as Hcq by (rewrite E in Hd; by destruct (ch_drop _ _ _ Hd)).
    rewrite Hcq. rewrite (proj2 (Z.eqb_neq c 0) C1).
    assert (is_in [124; 40; 41; 59; 38; 60] c = false) as ->.
    { apply not_true_is_false. rewrite is_in_spec. intros Hin. apply (sym_ne c c C3); [|done]. apply is_in_spec. unfold symbols.
      repeat (rewrite elem_of_cons in *). rewrite elem_of_nil in *. tauto. }
    assert (c <> 62) as H62 by (apply sym_ne; done). rewrite (proj2 (Z.eqb_neq c 62) H62).
    assert (skip_word buf q = e) as ->; [|reflexivity]. unfold skip_word, e. destruct Hg as [_ Hg].
    apply (skip_over _ wd _ q (sp ++ text lay)); [done| |unfold es; lia|].
    + eapply Forall_impl; [exact Hg|]. intros x (_ & X2 & X3). cbv beta. by rewrite X2, X3.
    + destruct (sp ++ text lay) as [|x r] eqn:Ex; [left; cbn in Hl; unfold es; lia|]. rewrite Hc in Ha.
      destruct (is_in whitespace x) eqn:X1; [done|]. destruct (is_in symbols x) eqn:X2; [done|]. destruct Ha. split; [|done].
      intros ->. apply (f_equal (fun l => l !! O)) in Ex. destruct sp as [|y sp]; cbn in Ex; [|injection Ex as ->; by apply Forall_cons in Hs as [Hs _]].
      destruct lay as [|[t' sp'] lay]; [done|]. rewrite text_cons in Ex. destruct Hgl as (Hg' & _). destruct (tok_first t' Hg') as (y & r2 & Et & Y1 & _). rewrite Et in Ex. injection Ex as ->. done.
  - destruct (ch_drop _ _ _ Hd) as [-> Hd']. cbn. replace (S q) with e by (unfold e; lia). destruct (Z.eqb_spec (Ch e) 62) as [|_]; [done|]. reflexivity.
  - destruct (ch_drop _ _ _ Hd) as [-> Hd']. cbn. destruct (ch_drop _ _ _ Hd') as [-> _]. cbn. unfold e. replace (q + 2)%nat with (S (S q)) by lia. reflexivity.
Qed.

Definition tok_in (l : list Z) (ts : list tok) : bool :=
  match ts with t :: _ => is_in l (match t with TGtGt => 62 | TWord _ => 97 | t => tok_code t end) | [] => false end.
(** [peek] for symbols. *)
Lemma peek_tok l i ts : (forall c, is_in l c = true -> is_in symbols c = true) -> here i ts ->
  exists i', peek buf l i = Ok (tok_in l ts) i' /\ here i' ts.
Proof.
  intros Hl (Hi & lay & <- & Hd & Hg). pose proof (skip_ws_le buf i Hi) as Hq. set (q := skip_ws buf i) in *. exists q. split.
  - unfold peek. cbn. fold q. f_equal. destruct lay as [|[t sp] lay].
    + by rewrite (ch_nil _ Hd).
    + destruct Hg as [Hg _]. destruct (tok_first t Hg) as (c & r & E & C1 & C2 & C3). rewrite text_cons, E in Hd. cbn [app fmap list_fmap fst] in *.
      destruct (ch_drop _ _ _ Hd) as [-> _]. rewrite (proj2 (Z.eqb_neq c 0) C1). cbn [negb andb tok_in].
      destruct t as [w| | | | | | | |]; cbn in E; try (by injection E as <- <-).
      destruct (is_in l c) eqn:E1; [apply Hl in E1; congruence|]. destruct (is_in l 97) eqn:E2; [apply Hl in E2; done|done].
  - split; [lia|]. exists lay. split; [done|]. split; [|done]. pose proof (text_head lay Hg) as Hh. rewrite skip_ws_id; [done|]. rewrite <- Hd in Hh.
    destruct (drop q buf) as [|c r] eqn:E; [by rewrite (ch_nil _ E)|]. by destruct (ch_drop _ _ _ E) as [-> _].
Qed.
Lemma peek_next {A} l i ts (k : bool -> M nat A) : (forall c, is_in l c = true -> is_in symbols c = true) -> here i ts ->
  exists i', bind (peek buf l) k i = k (tok_in l ts) i' /\ here i' ts.
Proof. intros Hl Hh. destruct (peek_tok l i ts Hl Hh) as (i' & Hp & Hh'). exists i'. split; [by rewrite (bind_Ok _ _ _ _ _ Hp)|done]. Qed.
Lemma gettoken_none i : here i [] -> exists q e i', gettoken buf i = Ok (0, q, e) i' /\ here i' [].
Proof.
  intros (Hi & lay & E & Hd & _). destruct lay; [|done]. pose proof (skip_ws_le buf i Hi) as Hq. set (q := skip_ws buf i) in *. pose proof (ch_nil q Hd) as Hc.
  exists q, q, q. assert (skip_ws buf q = q) as Hid by (apply skip_ws_id; by rewrite Hc). split.
  - unfold gettoken. unfold bind at 1, get. fold q. rewrite Hc. cbn. by rewrite Hid.
  - split; [lia|]. exists []. by rewrite Hid.
Qed.

(** What may follow a command of each kind. *)
Definition fol_exec (ts : list tok) : Prop := match ts with [] | TPipe :: _ | TClose :: _ | TAmp :: _ | TSemi :: _ => True | _ => False end.
Definition fol_pipe (ts : list tok) : Prop := match ts with [] | TClose :: _ | TAmp :: _ | TSemi :: _ => True | _ => False end.
Definition fol_line (ts : list tok) : Prop := match ts with [] | TClose :: _ => True | _ => False end.

(** The parser [m] returns a command that stands for [w] in front of [rest]. *)
Definition parses (m : M nat cmd) (i : nat) (rest : list tok) (w : wcmd) : Prop := exists c i',
  m i = Ok c i' /\ here i' rest /\ resolve (slice buf) c = w /\ Forall okw (offs c).
Lemma parses_bind m k i mid rest w w' : parses m i mid w ->
  (forall c i', here i' mid -> resolve (slice buf) c = w -> Forall okw (offs c) -> parses (k c) i' rest w') -> parses (bind m k) i rest w'.
Proof. intros (c & i' & Hm & Hh & Hr & Ho) Hk. destruct (Hk c i' Hh Hr Ho) as (c2 & i2 & Hm2 & ?). exists c2, i2. by rewrite (bind_Ok _ _ _ _ _ Hm). Qed.
Lemma parses_ret c i rest w : here i rest -> resolve (slice buf) c = w -> Forall okw (offs c) -> parses (return c) i rest w.
Proof. intros. by exists c, i. Qed.
Lemma parses_peek l k i ts rest w : (forall c, is_in l c = true -> is_in symbols c = true) -> here i ts ->
  (forall i', here i' ts -> parses (k (tok_in l ts)) i' rest w) -> parses (bind (peek buf l) k) i rest w.
Proof.
  intros Hl Hh Hk. destruct (peek_next l i ts k Hl Hh) as (i' & E & Hh'). destruct (Hk i' Hh') as (c & i2 & Hm & ?). exists c, i2. by rewrite E.
Qed.
Lemma parses_get k i t ts rest w : here i (t :: ts) ->
  (forall q i', here i' ts -> slice buf (q, (q + length (tok_bytes t))%nat) = tok_bytes t ->
     tok_end t (q + length (tok_bytes t)) -> parses (k (tok_code t, q, (q + length (tok_bytes t))%nat)) i' rest w) ->
  parses (bind (gettoken buf) k) i rest w.
Proof.
  intros Hh Hk. destruct (gettoken_tok i t ts Hh) as (q & i' & Hg & Hh' & Hs & Hw). destruct (Hk q i' Hh' Hs Hw) as (c & i2 & Hm & ?).
  exists c, i2. by rewrite (bind_Ok _ _ _ _ _ Hg).
Qed.
Ltac syms := let c := fresh in intros c; rewrite !is_in_spec; unfold symbols; rewrite !elem_of_cons, !elem_of_nil; tauto.

Definition redir_ok (d : redir) (r : rkind * list Z) : Prop :=
  slice buf (rd_file d, rd_efile d) = r.2 /\ rd_mode d = redir_mode r.1 /\ rd_fd d = redir_fd r.1 /\ okw (rd_file d, rd_efile d).
Lemma wrap_ok ds rs c w : Forall2 redir_ok ds rs -> resolve (slice buf) c = w -> Forall okw (offs c) ->
  resolve (slice buf) (wrap c ds) = wwrap w rs /\ Forall okw (offs (wrap c ds)).
Proof.
  intros HF. revert c w. induction HF as [|d r ds rs (D1 & D2 & D3 & D4) _ IH]; intros c w Hr Ho; cbn [wrap wwrap fold_left]; [done|].
  apply IH; cbn [resolve offs]; [by rewrite Hr, D1, D2, D3|]. apply Forall_app. split; [done|]. by constructor.
Qed.
Lemma here_word i w ts : here i (TWord w :: ts) -> good_word w.
Proof. intros (_ & [|[t sp] lay] & E & _ & Hg); [done|]. injection E as -> _. by destruct Hg. Qed.

Lemma redirs_ok rs : forall f i rest, here i (toks_redirs rs ++ rest) -> tok_in [60; 62] rest = false -> (length rs <= f)%nat ->
  exists ds i', parseredirs buf f i = Ok ds i' /\ here i' rest /\ Forall2 redir_ok ds rs.
Proof.
  induction rs as [|[k w] rs IH]; intros f i rest Hh Hr Hf.
  - assert (parseredirs buf f = bind (peek buf [60; 62]) (fun more : bool => if more then match f with O => fun _ => Diverge | S f => _ end else return [])) as E by (by destruct f).
    rewrite E. destruct (peek_tok [60; 62] i rest ltac:(syms) Hh) as (i' & Hp & Hh'). rewrite (bind_Ok _ _ _ _ _ Hp), Hr. exists [], i'. by split_and!.
  - destruct f as [|f]; [cbn in Hf; lia|]. cbn [parseredirs]. unfold toks_redirs in Hh. cbn [fmap list_fmap concat toks_redir app] in Hh. fold (toks_redirs rs) in Hh.
    destruct (peek_tok [60; 62] i _ ltac:(syms) Hh) as (i1 & Hp & Hh1). rewrite (bind_Ok _ _ _ _ _ Hp).
    replace (tok_in _ _) with true by (by destruct k). destruct (gettoken_tok i1 _ _ Hh1) as (q1 & i2 & Hg1 & Hh2 & _). rewrite (bind_Ok _ _ _ _ _ Hg1).
    pose proof (here_word _ _ _ Hh2) as Hgw. destruct (gettoken_tok i2 _ _ Hh2) as (q & i3 & Hg2 & Hh3 & Hs & Hw). rewrite (bind_Ok _ _ _ _ _ Hg2). cbn [tok_code Z.eqb Pos.eqb negb].
    destruct (IH f i3 rest Hh3 Hr) as (ds & i4 & Hrun & Hh4 & HF); [cbn in Hf; lia|]. rewrite (bind_Ok _ _ _ _ _ Hrun).
    eexists _, i4. split; [reflexivity|]. split; [done|]. cbn [tok_bytes fst snd] in *. assert (okw (q, (q + length w)%nat)) as Hok by (destruct Hw as [Hw1 Hw2]; split; [by rewrite Hs|split; [exact Hw2|cbn in *; lia]]).
    destruct k; cbn; constructor; try done; by split_and!.
Qed.

Lemma args_ok args : forall f ds0 rs0 argv0 i rest, here i (toks_args args ++ rest) -> fol_exec rest -> (length argv0 + length args < MAXARGS)%nat ->
  (length (toks_args args) < f)%nat -> Forall2 redir_ok ds0 rs0 -> Forall okw argv0 ->
  parses (args_loop buf f ds0 argv0) i rest (wwrap (WEXEC ((slice buf <$> argv0) ++ (fst <$> args))) (rs0 ++ concat (snd <$> args))).
Proof.
  induction args as [|[w rs] args IH]; intros f ds0 rs0 argv0 i rest Hh Hr Hm Hf HF Ho; (destruct f as [|f]; [lia|]); cbn [args_loop].
  - cbn [toks_args fmap list_fmap concat app] in Hh. cbn [fmap list_fmap concat]. rewrite !app_nil_r.
    assert (forall i', here i' rest -> parses (return (wrap (EXEC argv0) ds0)) i' rest (wwrap (WEXEC (slice buf <$> argv0)) rs0)) as Hret.
    { intros i' Hh'. destruct (wrap_ok ds0 rs0 (EXEC argv0) _ HF eq_refl Ho). by apply parses_ret. }
    eapply (parses_peek [124; 41; 38; 59]); [syms|done|]. intros i1 Hh1. destruct rest as [|t rest].
    + cbn [tok_in]. destruct (gettoken_none i1 Hh1) as (q & e & i2 & Hg & Hh2). destruct (Hret i2 Hh2) as (c & i3 & Hm' & ?). exists c, i3.
      by rewrite (bind_Ok _ _ _ _ _ Hg).
    + destruct t; try done; cbn [tok_in]; by apply Hret.
  - unfold toks_args in Hh, Hf. cbn [fmap list_fmap concat fst snd] in Hh, Hf. fold (toks_args args) in Hh, Hf. cbn [app length] in Hh, Hf, Hm. rewrite <- app_assoc in Hh.
    rewrite length_app in Hf. pose proof (here_word _ _ _ Hh) as Hgw.
    eapply (parses_peek [124; 41; 38; 59]); [syms|done|]. intros i1 Hh1. cbn [tok_in]. change (is_in [124; 41; 38; 59] 97) with false. cbv iota.
    eapply parses_get; [exact Hh1|]. intros q i2 Hh2 Hs Hw. cbn [tok_code tok_bytes Z.eqb Pos.eqb negb] in *. cbv zeta.
    destruct (Nat.leb_spec MAXARGS (length (argv0 ++ [(q, (q + length w)%nat)]))) as [Hle|_]; [rewrite length_app in Hle; cbn in Hle; lia|].
    assert (length rs <= length (toks_redirs rs))%nat as Hlr.
    { clear. induction rs as [|r rs IH]; [done|]. unfold toks_redirs in *. cbn. lia. }
    destruct (redirs_ok rs f i2 (toks_args args ++ rest) Hh2) as (ds & i3 & Hrun & Hh3 & HF3); [|lia|].
    { destruct args as [|[w' rs'] args]; [|done]. cbn. destruct rest as [|[] rest]; done. }
    assert (okw (q, (q + length w)%nat)) as Hok by (destruct Hw as [Hw1 Hw2]; split; [by rewrite Hs|split; [exact Hw2|cbn in *; lia]]).
    destruct (IH f (ds0 ++ ds) (rs0 ++ rs) (argv0 ++ [(q, (q + length w)%nat)]) i3 rest Hh3 Hr) as (c & i4 & Hrun4 & Hh4 & Hres & Hoff).
    { rewrite length_app. cbn. lia. } { lia. } { by apply Forall2_app. } { apply Forall_app. split; [done|by constructor]. }
    exists c, i4. rewrite (bind_Ok _ _ _ _ _ Hrun). split; [done|]. split; [done|]. split; [|done]. rewrite Hres.
    cbn [fmap list_fmap concat fst snd]. rewrite fmap_app, <- !app_assoc. cbn [fmap list_fmap app]. by rewrite Hs.
Qed.

Lemma backs_ok nb : forall f c w i rest, here i (replicate nb TAmp ++ rest) -> match rest with TAmp :: _ => False | _ => True end -> (nb <= f)%nat ->
  resolve (slice buf) c = w -> Forall okw (offs c) -> parses (backs_loop buf f c) i rest (Nat.iter nb WBACK w).
Proof.
  induction nb as [|nb IH]; intros f c w i rest Hh Hr Hf Hc Ho.
  - cbn in Hh. assert (backs_loop buf f c = bind (peek buf [38]) (fun more : bool => if more then match f with O => fun _ => Diverge | S f => _ end else return c)) as E by (by destruct f).
    rewrite E. eapply (parses_peek [38]); [syms|done|]. intros i' Hh'. replace (tok_in [38] rest) with false by (by destruct rest as [|[] rest]).
    by apply parses_ret.
  - destruct f as [|f]; [lia|]. cbn [backs_loop]. eapply (parses_peek [38]); [syms|done|]. intros i1 Hh1. cbn [replicate app tok_in] in *.
    change (is_in [38] (tok_code TAmp)) with true. cbv iota. eapply parses_get; [exact Hh1|]. intros q i2 Hh2 _ _.
    rewrite Nat.iter_succ_r. apply IH; [done|done|lia|cbn; by rewrite Hc|done].
Qed.

Lemma fol_exec_redir args rest : fol_exec rest -> tok_in [60; 62] (toks_args args ++ rest) = false.
Proof. intros Hr. destruct args as [|[w rs] args]; [|done]. by destruct rest as [|[] rest]. Qed.
Lemma simple_not_block rs args rest : fol_exec rest -> tok_in [40] (toks_redirs rs ++ toks_args args ++ rest) = false.
Proof.
  intros Hr. destruct rs as [|[[] w] rs]; try done. destruct args as [|[w rs] args]; [|done]. by destruct rest as [|[] rest].
Qed.
Lemma toks_redirs_length rs : (length rs <= length (toks_redirs rs))%nat.
Proof. induction rs as [|r rs IH]; [done|]. unfold toks_redirs in *. cbn. lia. Qed.

Lemma parse_ok :
  (forall l, few_line l -> forall f i rest, here i (toks_line l ++ rest) -> fol_line rest -> (4 * length (toks_line l) + 4 <= f)%nat ->
     parses (parseline buf f) i rest (tree_line l)) /\
  (forall p, few_pipe p -> forall f i rest, here i (toks_pipe p ++ rest) -> fol_pipe rest -> (4 * length (toks_pipe p) + 3 <= f)%nat ->
     parses (parsepipe buf f) i rest (tree_pipe p)) /\
  (forall e, few_exec e -> forall f i rest, here i (toks_exec e ++ rest) -> fol_exec rest -> (4 * length (toks_exec e) + 2 <= f)%nat ->
     parses (parseexec buf f) i rest (tree_exec e)).
Proof.
  apply sh_mutind.
  - intros p IHp nb Hfew f i rest Hh Hr Hf. cbn [toks_line tree_line few_line] in *. rewrite <- app_assoc in Hh. rewrite length_app, length_replicate in Hf.
    destruct f as [|f]; [lia|]. cbn [parseline]. eapply parses_bind; [apply (IHp Hfew); [exact Hh| |lia]|].
    { destruct nb as [|nb]; [|done]. by destruct rest as [|[] rest]. }
    intros c i1 Hh1 Hc Ho. eapply parses_bind; [apply (backs_ok nb f c (tree_pipe p) i1 rest Hh1); [by destruct rest as [|[] rest]|lia|exact Hc|exact Ho]|].
    intros c2 i2 Hh2 Hc2 Ho2. eapply (parses_peek [59]); [syms|exact Hh2|]. intros i3 Hh3.
    replace (tok_in [59] rest) with false by (by destruct rest as [|[] rest]). by apply parses_ret.
  - intros p IHp nb l IHl [Hfp Hfl] f i rest Hh Hr Hf. cbn [toks_line tree_line] in *. rewrite <- !app_assoc in Hh. cbn [app] in Hh.
    rewrite !length_app, length_replicate in Hf. cbn [length] in Hf. destruct f as [|f]; [lia|]. cbn [parseline].
    eapply parses_bind; [apply (IHp Hfp); [exact Hh|by destruct nb|lia]|]. intros c i1 Hh1 Hc Ho.
    eapply parses_bind; [apply (backs_ok nb f c (tree_pipe p) i1 _ Hh1); [done|lia|exact Hc|exact Ho]|]. intros c2 i2 Hh2 Hc2 Ho2.
    eapply (parses_peek [59]); [syms|exact Hh2|]. intros i3 Hh3. cbn [tok_in]. change (is_in [59] (tok_code TSemi)) with true. cbv iota.
    eapply parses_get; [exact Hh3|]. intros q i4 Hh4 _ _. eapply parses_bind; [apply (IHl Hfl); [exact Hh4|exact Hr|lia]|].
    intros c3 i5 Hh5 Hc5 Ho5. apply parses_ret; [done|cbn [resolve]; by rewrite Hc2, Hc5|]. cbn [offs]. by apply Forall_app.
  - intros e IHe Hfew f i rest Hh Hr Hf. cbn [toks_pipe tree_pipe few_pipe] in *. destruct f as [|f]; [lia|]. cbn [parsepipe].
    eapply parses_bind; [apply (IHe Hfew); [exact Hh|by destruct rest as [|[] rest]|lia]|]. intros c i1 Hh1 Hc Ho.
    eapply (parses_peek [124]); [syms|exact Hh1|]. intros i2 Hh2. replace (tok_in [124] rest) with false by (by destruct rest as [|[] rest]). by apply parses_ret.
  - intros e IHe p IHp [Hfe Hfp] f i rest Hh Hr Hf. cbn [toks_pipe tree_pipe] in *. rewrite <- app_assoc in Hh. cbn [app] in Hh. rewrite length_app in Hf. cbn [length] in Hf.
    destruct f as [|f]; [lia|]. cbn [parsepipe]. eapply parses_bind; [apply (IHe Hfe); [exact Hh|done|lia]|]. intros c i1 Hh1 Hc Ho.
    eapply (parses_peek [124]); [syms|exact Hh1|]. intros i2 Hh2. cbn [tok_in]. change (is_in [124] (tok_code TPipe)) with true. cbv iota.
    eapply parses_get; [exact Hh2|]. intros q i3 Hh3 _ _. eapply parses_bind; [apply (IHp Hfp); [exact Hh3|exact Hr|lia]|].
    intros c4 i4 Hh4 Hc4 Ho4. apply parses_ret; [done|cbn [resolve]; by rewrite Hc, Hc4|]. cbn [offs]. by apply Forall_app.
  - intros rs args Hfew f i rest Hh Hr Hf. cbn [toks_exec tree_exec few_exec] in *. rewrite <- app_assoc in Hh. rewrite length_app in Hf. pose proof (toks_redirs_length rs).
    destruct f as [|f]; [lia|]. cbn [parseexec]. eapply (parses_peek [40]); [syms|exact Hh|]. intros i1 Hh1. rewrite simple_not_block by done.
    destruct (redirs_ok rs f i1 _ Hh1 (fol_exec_redir args rest Hr)) as (ds & i2 & Hrun & Hh2 & HF); [lia|].
    destruct (args_ok args f ds rs [] i2 rest Hh2 Hr) as (c & i3 & Hrun3 & H3); [cbn; lia|lia|done|done|].
    exists c, i3. rewrite (bind_Ok _ _ _ _ _ Hrun). split; [exact Hrun3|exact H3].
  - intros l IHl rs Hfew f i rest Hh Hr Hf. cbn [toks_exec tree_exec few_exec] in *. cbn [app] in Hh. rewrite <- app_assoc in Hh. cbn [app] in Hh.
    cbn [length] in Hf. rewrite length_app in Hf. cbn [length] in Hf. pose proof (toks_redirs_length rs). destruct f as [|[|f]]; [lia|lia|]. cbn [parseexec].
    eapply (parses_peek [40]); [syms|exact Hh|]. intros i1 Hh1. cbn [tok_in]. change (is_in [40] (tok_code TOpen)) with true. cbv iota. cbn [parseblock].
    eapply (parses_peek [40]); [syms|exact Hh1|]. intros i2 Hh2. cbn [tok_in]. change (is_in [40] (tok_code TOpen)) with true. cbn [negb].
    eapply parses_get; [exact Hh2|]. intros q i3 Hh3 _ _. eapply parses_bind; [apply (IHl Hfew); [exact Hh3|done|lia]|]. intros c i4 Hh4 Hc Ho.
    eapply (parses_peek [41]); [syms|exact Hh4|]. intros i5 Hh5. cbn [tok_in]. change (is_in [41] (tok_code TClose)) with true. cbn [negb].
    eapply parses_get; [exact Hh5|]. intros q' i6 Hh6 _ _.
    destruct (redirs_ok rs f i6 rest Hh6) as (ds & i7 & Hrun & Hh7 & HF); [by destruct rest as [|[] rest]|lia|].
    destruct (wrap_ok ds rs c _ HF Hc Ho) as [W1 W2]. exists (wrap c ds), i7. by rewrite (bind_Ok _ _ _ _ _ Hrun).
Qed.
End lex.

(** ** [nulterminate] *)

Lemma fold_nul (l : list (nat * nat)) b j : length (fold_left (fun b a => <[snd a := 0]> b) l b) = length b /\
  (j ∉ snd <$> l -> fold_left (fun b a => <[snd a := 0]> b) l b !! j = b !! j) /\
  ((j ∈ snd <$> l \/ b !! j = Some 0) -> (j < length b)%nat -> fold_left (fun b a => <[snd a := 0]> b) l b !! j = Some 0).
Proof.
  revert b. induction l as [|[q e] l IH]; intros b; cbn [fold_left fmap list_fmap snd]; [split; [done|]; split; [done|]; intros [?%elem_of_nil|?]; done|].
  destruct (IH (<[e := 0]> b)) as (I1 & I2 & I3). rewrite length_insert in *. split; [done|]. rewrite elem_of_cons. split.
  - intros Hn. rewrite I2 by tauto. apply list_lookup_insert_ne. intros ->. tauto.
  - intros Hin Hlt. apply I3; [|done]. destruct (decide (j = e)) as [->|Hne]; [right; by apply list_lookup_insert_eq|].
    rewrite list_lookup_insert_ne by done. tauto.
Qed.
Lemma nulterminate_lookup c : forall b j, length (nulterminate c b) = length b /\
  (j ∉ snd <$> offs c -> nulterminate c b !! j = b !! j) /\
  ((j ∈ snd <$> offs c \/ b !! j = Some 0) -> (j < length b)%nat -> nulterminate c b !! j = Some 0).
Proof.
  induction c as [argv|c IH r|l IHl r IHr|l IHl r IHr|c IH]; intros b j; cbn [nulterminate offs].
  - apply fold_nul.
  - destruct (IH b j) as (I1 & I2 & I3). rewrite length_insert. split; [done|]. rewrite fmap_app, elem_of_app. cbn [fmap list_fmap snd]. rewrite list_elem_of_singleton. split.
    + intros Hn. rewrite list_lookup_insert_ne; [apply I2; tauto|]. intros E. symmetry in E. tauto.
    + intros Hin Hlt. destruct (decide (j = rd_efile r)) as [->|Hne]; [apply list_lookup_insert_eq; lia|]. rewrite list_lookup_insert_ne by done. apply I3; tauto.
  - destruct (IHl b j) as (I1 & I2 & I3). destruct (IHr (nulterminate l b) j) as (J1 & J2 & J3). rewrite fmap_app, elem_of_app. split; [lia|]. split.
    + intros Hn. rewrite J2, I2 by tauto. done.
    + intros Hin Hlt. apply J3; [|lia]. destruct Hin as [[?|?]|?]; [right; apply I3; tauto|by left|right; apply I3; tauto].
  - destruct (IHl b j) as (I1 & I2 & I3). destruct (IHr (nulterminate l b) j) as (J1 & J2 & J3). rewrite fmap_app, elem_of_app. split; [lia|]. split.
    + intros Hn. rewrite J2, I2 by tauto. done.
    + intros Hin Hlt. apply J3; [|lia]. destruct Hin as [[?|?]|?]; [right; apply I3; tauto|by left|right; apply I3; tauto].
  - apply IH.
Qed.

(** The C string at an offset. *)
Fixpoint cut0 (l : list Z) : list Z := match l with [] => [] | c :: l => if c =? 0 then [] else c :: cut0 l end.
Definition str_at (b : list Z) (w : nat * nat) : list Z := cut0 (drop w.1 b).
Lemma cut0_app w l : Forall word_char w -> cut0 (w ++ 0 :: l) = w.
Proof. induction 1 as [|c w (H0 & _) _ IH]; cbn; [done|]. by rewrite (proj2 (Z.eqb_neq c 0) H0), IH. Qed.

Lemma slice_lookup b w j : (w.1 <= j < w.2)%nat -> slice b w !! (j - w.1)%nat = b !! j.
Proof. intros Hj. unfold slice. rewrite lookup_take_lt by lia. rewrite lookup_drop. f_equal. lia. Qed.
Lemma cut0_all w : Forall word_char w -> cut0 w = w.
Proof. induction 1 as [|c w (H0 & _) _ IH]; cbn; [done|]. by rewrite (proj2 (Z.eqb_neq c 0) H0), IH. Qed.
(** The bytes of a word are not where words end. *)
Lemma nulterminate_slice buf c w : Forall (okw buf) (offs c) -> w ∈ offs c -> slice (nulterminate c buf) w = slice buf w.
Proof.
  intros Hok Hin. pose proof Hok as Hall. rewrite Forall_forall in Hall. destruct (Hall w Hin) as ([_ Hw] & He & Hle).
  unfold slice. apply list_eq. intros k. destruct (decide (k < w.2 - w.1)%nat) as [Hk|Hk]; [|rewrite !lookup_take_ge by lia; done].
  rewrite !lookup_take_lt, !lookup_drop by lia. destruct (nulterminate_lookup c buf (w.1 + k)%nat) as (_ & L1 & _). apply L1.
  intros ([q e] & E & Hin')%list_elem_of_fmap. cbn in E. destruct (Hall _ Hin') as (_ & Hend & _). cbn in Hend. rewrite <- E in Hend. apply Hend.
  assert (slice buf w !! k = buf !! (w.1 + k)%nat) as Es by (replace k with (w.1 + k - w.1)%nat at 1 by lia; apply slice_lookup; lia).
  destruct (buf !! (w.1 + k)%nat) as [x|] eqn:Ex; [|apply lookup_ge_None in Ex; unfold es in Hle; lia]. unfold ch. rewrite (nth_lookup_Some _ _ _ _ Ex).
  rewrite Forall_forall in Hw. apply Hw. by eapply list_elem_of_lookup_2.
Qed.
Lemma nulterminate_str buf c w : Forall (okw buf) (offs c) -> w ∈ offs c -> str_at (nulterminate c buf) w = slice buf w.
Proof.
  intros Hok Hin. pose proof (nulterminate_slice buf c w Hok Hin) as Hs. rewrite Forall_forall in Hok. destruct (Hok w Hin) as ([_ Hw] & He & Hle).
  unfold str_at. destruct (nulterminate_lookup c buf w.2) as (L0 & _ & L2). unfold es in Hle.
  rewrite <- (take_drop (w.2 - w.1) (drop w.1 (nulterminate c buf))), drop_drop. fold (slice (nulterminate c buf) w). rewrite Hs.
  replace (w.1 + (w.2 - w.1))%nat with w.2 by lia. destruct (decide (w.2 < length buf)%nat) as [Hlt|Hge].
  - assert (nulterminate c buf !! w.2 = Some 0) as E0 by (apply L2; [left; apply list_elem_of_fmap; by exists w|done]).
    rewrite (drop_S _ 0 w.2 E0). by apply cut0_app.
  - rewrite (drop_ge (nulterminate c buf)), app_nil_r by lia. by apply cut0_all.
Qed.
Lemma resolve_ext f g c : (forall w, w ∈ offs c -> f w = g w) -> resolve f c = resolve g c.
Proof.
  induction c as [argv|c IH r|l IHl r IHr|l IHl r IHr|c IH]; cbn [resolve offs]; intros H.
  - f_equal. apply list_fmap_ext. intros i x Hx. apply H. by eapply list_elem_of_lookup_2.
  - rewrite IH, H; [done|apply elem_of_app; right; by left|]. intros w Hw. apply H, elem_of_app. by left.
  - rewrite IHl, IHr; [done|..]; intros w Hw; apply H, elem_of_app; tauto.
  - rewrite IHl, IHr; [done|..]; intros w Hw; apply H, elem_of_app; tauto.
  - by rewrite IH.
Qed.

(** ** The parser as a whole *)

Lemma text_length lay : good_lay lay -> (length lay <= length (text lay))%nat.
Proof.
  induction lay as [|[t sp] lay IH]; [done|]. intros (Hg & _ & _ & Hl). rewrite text_cons, !length_app. specialize (IH Hl).
  destruct (tok_first t Hg) as (c & r & -> & _). cbn. lia.
Qed.

(** A line that spells a command parses to it. *)
Lemma parsecmd_parses lead lay l : ws_only lead -> good_lay lay -> lay.*1 = toks_line l -> few_line l ->
  exists c b i, parsecmd (lead ++ text lay) = Ok (c, b) i /\ resolve (str_at b) c = tree_line l.
Proof.
  intros Hlead Hg Hlay Hfew. set (buf := lead ++ text lay).
  assert (here buf 0 (toks_line l ++ [])) as Hh.
  { rewrite app_nil_r. split; [unfold es; lia|]. exists lay. split; [done|]. split; [|done]. assert (skip_ws buf 0 = length lead) as ->; [|apply drop_app_length].
    unfold skip_ws. apply (skip_over buf _ lead _ 0 (text lay)); [done|done|unfold es, buf; rewrite length_app; lia|].
    pose proof (text_head lay Hg) as Hh. destruct (text lay); [by right|done]. }
  destruct (parse_ok buf) as [Hp _]. pose proof (text_length _ Hg) as Hl. rewrite <- (length_fmap fst), Hlay in Hl.
  destruct (Hp l Hfew (4 * length buf + 4)%nat 0%nat [] Hh) as (c & i & Hrun & (Hi & [|] & Hnil & Hd & _) & Hres & Hoff);
    [done|assert (length (toks_line l) <= length buf)%nat by (unfold buf; rewrite length_app; lia); lia| |done].
  pose proof (skip_ws_le buf i Hi) as Hq. assert (skip_ws buf i = es buf) as Hend.
  { assert (length (drop (skip_ws buf i) buf) = 0%nat) as H0 by (by rewrite Hd). rewrite length_drop in H0. unfold es in *. lia. }
  exists c, (nulterminate c buf), (es buf). split.
  - unfold parsecmd. rewrite (bind_Ok _ _ _ _ _ Hrun). unfold peek. cbn. rewrite Hend. by rewrite Nat.eqb_refl.
  - rewrite <- Hres. apply resolve_ext. intros w Hw. by apply nulterminate_str.
Qed.

(** C35: the shell's parser is total and inverts the concrete syntax: on every line
    it returns or reports an error, it never runs forever; and a line that spells
    a command of at most [MAXARGS] - 1 words per simple command, with any white space
    (none where none is needed) before, between and after its tokens, parses
    to that command, with the words, redirections, pipes, lists, background marks and
    parentheses where they belong, the words being proper C strings after
    [nulterminate]. *)
Theorem parsecmd_inverts_syntax lead lay l : ws_only lead -> good_lay lay -> lay.*1 = toks_line l -> few_line l ->
  (forall buf, 0 ∉ buf -> parsecmd buf <> Diverge) /\
  exists c b i, parsecmd (lead ++ text lay) = Ok (c, b) i /\ resolve (str_at b) c = tree_line l.
Proof. intros. split; [apply parsecmd_total|by apply parsecmd_parses]. Qed.

(** ["(a<b|c )&;d >e"] after a tab *)
Definition ex_line : sline :=
  LSeq (POne (XBlock (LOne (PSeq (XSimple [] [([97], [(RIn, [98])])]) (POne (XSimple [] [([99], [])]))) 0) [])) 1
    (LOne (POne (XSimple [] [([100], [(ROut, [101])])])) 0).
Definition ex_lay : list (tok * list Z) :=
  [(TOpen, []); (TWord [97], []); (TLt, []); (TWord [98], []); (TPipe, []); (TWord [99], [32]); (TClose, []); (TAmp, []); (TSemi, []);
   (TWord [100], [32]); (TGt, []); (TWord [101], [])].
Lemma parsecmd_inverts_syntax_witness : exists c b i,
  parsecmd ([9] ++ text ex_lay) = Ok (c, b) i /\
  resolve (str_at b) c = WLIST (WBACK (WPIPE (WREDIR (WEXEC [[97]]) [98] 0 0) (WEXEC [[99]]))) (WREDIR (WEXEC [[100]]) [101] 0x601 1).
Proof.
  destruct (parsecmd_inverts_syntax [9] ex_lay ex_line) as [_ H]; [repeat constructor| |reflexivity|cbn; unfold MAXARGS; lia|exact H].
  cbn. repeat (split; [first [repeat constructor; intros [=] | intros [=]]|]). exact I.
Defined.
