(* ===== verification/ShRun.v ===== *)
(** * Running commands: [runcmd], [getcmd] and [main] of [user/sh.c]

    [runcmd] is the tree of the system calls that it makes, each with what the code does
    for every result.  A process has a table of file descriptors, which [close],
    [open], [dup] and [pipe] change and [fork] copies.  The first theorem says which
    descriptors the programs of a line are started with; the second runs all processes of a
    command, with calls that fail at will and programs that wait for the end of
    their input, and shows that no process waits forever.  Words are those of
    the parsed line, as C strings. *)

From stdpp Require Import base list strings relations.
From S2P Require Import Prelude Riscv Mem Ulib Sh.

(** ** File descriptors *)

(** What a descriptor refers to.  A pipe is named by the place of its command in the
    line. *)
Inductive fobj := Given (n : nat) | FFile (name : list Z) (mode : Z) | PipeR (id : list bool) | PipeW (id : list bool).
#[global] Instance fobj_eq_dec : EqDecision fobj.
Proof. solve_decision. Defined.
Definition fdt := list (option fobj).

(** The first free descriptor. *)
Fixpoint first_free (t : fdt) : option nat :=
  match t with [] => None | None :: _ => Some 0%nat | Some _ :: t => S <$> first_free t end.
Definition fd_alloc (t : fdt) (o : fobj) : option (nat * fdt) :=
  n ← first_free t; Some (n, <[n := Some o]> t).
Definition fd_close (t : fdt) (fd : nat) : fdt := <[fd := None]> t.
(** [dup], whose result is not looked at. *)
Definition fd_dup (t : fdt) (fd : nat) : fdt :=
  match t !! fd with
  | Some (Some o) => match fd_alloc t o with Some (_, t) => t | None => t end
  | _ => t
  end.
Definition fd_pipe (t : fdt) (id : list bool) : option (nat * nat * fdt) :=
  '(p0, t) ← fd_alloc t (PipeR id); '(p1, t) ← fd_alloc t (PipeW id); Some (p0, p1, t).

(** ** runcmd *)

(** System calls and the code after them, as a function of the result.  [COpen] and
    [CPipe] carry the place of their command in the line, which names the pipe. *)
Inductive call :=
| CExit (status : Z)
| CPrint (fmt : string) (arg : list Z) (k : call)             (** [fprintf(2, fmt, arg)] *)
| CExec (argv : list (list Z)) (k : call)                     (** [k] runs if [exec] fails *)
| CClose (fd : nat) (k : call)
| CDup (fd : nat) (k : call)
| COpen (pos : list bool) (file : list Z) (mode : Z) (k : Z -> call)
| CPipe (pos : list bool) (k : Z -> nat -> nat -> call)       (** the result, [p[0]] and [p[1]] *)
| CFork (k : Z -> call)
| CWait (k : call).

Definition sh_panic (msg : list Z) : call := CPrint "%s\n" msg (CExit 1).
Definition fork1 (k : Z -> call) : call :=
  CFork (fun pid => if pid =? -1 then sh_panic [102; 111; 114; 107] else k pid).

Fixpoint runcmd (pos : list bool) (c : wcmd) : call :=
  match c with
  | WEXEC argv =>
      match argv with
      | [] => CExit 1
      | w :: _ => CExec argv (CPrint "exec %s failed\n" w (CExit 0))
      end
  | WREDIR c file mode fd =>
      CClose (Z.to_nat fd)
      (COpen pos file mode (fun r =>
         if r <? 0 then CPrint "open %s failed\n" file (CExit 1) else runcmd (pos ++ [false]) c))
  | WLIST l r =>
      fork1 (fun pid =>
        if pid =? 0 then runcmd (pos ++ [false]) l
        else CWait (runcmd (pos ++ [true]) r))
  | WPIPE l r =>
      CPipe pos (fun res p0 p1 =>
        if res <? 0 then sh_panic [112; 105; 112; 101]
        else
          fork1 (fun pid =>
            if pid =? 0 then CClose 1 (CDup p1 (CClose p0 (CClose p1 (runcmd (pos ++ [false]) l))))
            else
              fork1 (fun pid =>
                if pid =? 0 then CClose 0 (CDup p0 (CClose p0 (CClose p1 (runcmd (pos ++ [true]) r))))
                else CClose p0 (CClose p1 (CWait (CWait (CExit 0)))))))
  | WBACK c => fork1 (fun pid => if pid =? 0 then runcmd (pos ++ [false]) c else CExit 0)
  end.

(** ** The descriptors of the programs *)

(** What the processes of a command do, with the table where a program is started or
    a process waits, and with the stream that a message goes to. *)
Inductive act :=
| AExec (argv : list (list Z)) (t : fdt) (failed : act)
| APrint (fmt : string) (arg : list Z) (o : option fobj) (k : act)
| AExit (status : Z)
| AFork (child parent failed : act)
| AWait (t : fdt) (k : act).

Section runcmd.
(** Which files can be opened, and which pipes can be made. *)
Context (opens : list bool -> list Z -> Z -> bool) (pipes : list bool -> bool).

(** The calls run on a table; the code asks of a pid only whether it is 0 or -1. *)
Fixpoint follow (a : call) (t : fdt) : act :=
  match a with
  | CExit s => AExit s
  | CPrint f w k => APrint f w (mjoin (t !! 2%nat)) (follow k t)
  | CExec argv k => AExec argv t (follow k t)
  | CClose fd k => follow k (fd_close t fd)
  | CDup fd k => follow k (fd_dup t fd)
  | COpen pos file mode k =>
      match (if opens pos file mode then fd_alloc t (FFile file mode) else None) with
      | Some (fd, t) => follow (k (Z.of_nat fd)) t
      | None => follow (k (-1)) t
      end
  | CPipe pos k =>
      match (if pipes pos then fd_pipe t pos else None) with
      | Some (p0, p1, t) => follow (k 0 p0 p1) t
      | None => follow (k (-1) 0%nat 0%nat) t
      end
  | CFork k => AFork (follow (k 0) t) (follow (k 1) t) (follow (k (-1)) t)
  | CWait k => AWait t (follow k t)
  end.

(** Input, output and error output. *)
Record io := mkIo { i_in : fobj; i_out : fobj; i_err : fobj }.
Definition std (x : io) : fdt := [Some (i_in x); Some (i_out x); Some (i_err x)] ++ replicate (Z.to_nat NOFILE - 3) None.
Definition redirect (fd : Z) (o : fobj) (x : io) : io :=
  if fd =? 0 then mkIo o (i_out x) (i_err x) else mkIo (i_in x) o (i_err x).
Definition complain (fmt : string) (w : list Z) (x : io) (status : Z) : act := APrint fmt w (Some (i_err x)) (AExit status).
Definition no_fork (x : io) : act := complain "%s\n" [102; 111; 114; 107] x 1.

(** Commands on streams, without descriptors. *)
Fixpoint plan (pos : list bool) (c : wcmd) (x : io) : act :=
  match c with
  | WEXEC argv => match argv with [] => AExit 1 | w :: _ => AExec argv (std x) (complain "exec %s failed\n" w x 0) end
  | WREDIR c file mode fd =>
      if opens pos file mode then plan (pos ++ [false]) c (redirect fd (FFile file mode) x)
      else complain "open %s failed\n" file x 1
  | WLIST l r => AFork (plan (pos ++ [false]) l x) (AWait (std x) (plan (pos ++ [true]) r x)) (no_fork x)
  | WPIPE l r =>
      if pipes pos then
        AFork (plan (pos ++ [false]) l (redirect 1 (PipeW pos) x))
          (AFork (plan (pos ++ [true]) r (redirect 0 (PipeR pos) x))
             (AWait (std x) (AWait (std x) (AExit 0)))
             (no_fork x))
          (no_fork x)
      else complain "%s\n" [112; 105; 112; 101] x 1
  | WBACK c => AFork (plan (pos ++ [false]) c x) (AExit 0) (no_fork x)
  end.
(** Redirections are of input or output. *)
Fixpoint redirs_ok (c : wcmd) : Prop :=
  match c with
  | WEXEC _ => True
  | WREDIR c _ _ fd => (fd = 0 \/ fd = 1) /\ redirs_ok c
  | WPIPE l r | WLIST l r => redirs_ok l /\ redirs_ok r
  | WBACK c => redirs_ok c
  end.

Lemma runcmd_plan c : forall pos x, redirs_ok c -> follow (runcmd pos c) (std x) = plan pos c x.
Proof using.
  induction c as [argv|c IH file mode fd|l IHl r IHr|l IHl r IHr|c IH]; intros pos x Hr; cbn [runcmd follow plan redirs_ok] in *.
  - by destruct argv.
  - destruct Hr as [Hfd Hr]. destruct (opens pos file mode); [|by destruct Hfd as [-> | ->]]. rewrite <-IH by done. by destruct Hfd as [-> | ->].
  - destruct Hr as [Hl Hr]. destruct (pipes pos); [|done]. rewrite <-IHl, <-IHr by done. done.
  - destruct Hr as [Hl Hr]. rewrite <-IHl, <-IHr by done. done.
  - rewrite <-IH by done. done.
Qed.

(** The tables with which programs are started and processes wait. *)
Fixpoint tables (a : act) : list fdt :=
  match a with
  | AExec _ t k | AWait t k => t :: tables k
  | APrint _ _ _ k => tables k
  | AExit _ => []
  | AFork c p f => tables c ++ tables p ++ tables f
  end.
End runcmd.

Definition holds (o : fobj) (t : fdt) : Prop := Some o ∈ t.
(** The pipe an object belongs to. *)
Definition pipe_of (o : fobj) : option (list bool) :=
  match o with PipeR id | PipeW id => Some id | _ => None end.
Definition in_io (x : io) (o : fobj) : Prop := o = i_in x \/ o = i_out x \/ o = i_err x.
Lemma std_holds o x : holds o (std x) <-> in_io x o.
Proof.
  unfold holds, std, in_io. rewrite elem_of_app, !elem_of_cons, elem_of_nil. split.
  - intros [[H|[H|[H|[]]]]|H]; [naive_solver..|]. by apply elem_of_replicate in H as [H _].
  - naive_solver.
Qed.

(** A process of the place [h] in the line holds the read end of a pipe only to the right of
    it, and the write end only to the left. *)
Definition placed (h : list bool) (P : fobj -> Prop) : Prop :=
  (forall id, P (PipeR id) -> id ++ [true] `prefix_of` h) /\ (forall id, P (PipeW id) -> id ++ [false] `prefix_of` h).
Lemma placed_below h b x : placed h (in_io x) -> placed (h ++ [b]) (in_io x).
Proof. intros [H1 H2]. split; intros id Hid; [apply H1 in Hid|apply H2 in Hid]; by apply prefix_app_r. Qed.
Lemma placed_file h b fd file mode x : placed h (in_io x) -> placed (h ++ [b]) (in_io (redirect fd (FFile file mode) x)).
Proof.
  intros [H1 H2]. unfold redirect, in_io in *. destruct (fd =? 0); cbn; split; intros id Hid; apply prefix_app_r; [apply H1|apply H2|apply H1|apply H2]; naive_solver.
Qed.
Lemma placed_left h x : placed h (in_io x) -> placed (h ++ [false]) (in_io (redirect 1 (PipeW h) x)).
Proof.
  intros [H1 H2]. unfold redirect, in_io in *. cbn. split; intros id Hid.
  - apply prefix_app_r, H1. naive_solver.
  - destruct Hid as [Hid|[[= ->]|Hid]]; [apply prefix_app_r, H2; auto|done|apply prefix_app_r, H2; auto].
Qed.
Lemma placed_right h x : placed h (in_io x) -> placed (h ++ [true]) (in_io (redirect 0 (PipeR h) x)).
Proof.
  intros [H1 H2]. unfold redirect, in_io in *. cbn. split; intros id Hid.
  - destruct Hid as [[= ->]|[Hid|Hid]]; [done|apply prefix_app_r, H1; auto|apply prefix_app_r, H1; auto].
  - apply prefix_app_r, H2. naive_solver.
Qed.
Lemma placed_not_both h P id : placed h P -> ~ (P (PipeR id) /\ P (PipeW id)).
Proof.
  intros [H1 H2] [Hr Hw]. destruct (H1 id Hr) as [k1 E1], (H2 id Hw) as [k2 E2]. rewrite E1, <- !app_assoc in E2. by apply app_inv_head in E2.
Qed.
Lemma placed_std h x : placed h (in_io x) <-> placed h (fun o => holds o (std x)).
Proof. unfold placed. split; intros [H1 H2]; split; intros id; rewrite ?std_holds; auto; intros H; (apply H1 || apply H2); by apply std_holds. Qed.

Lemma plan_placed opens pipes c : forall pos x, placed pos (in_io x) ->
  Forall (fun t => exists h, placed h (fun o => holds o t)) (tables (plan opens pipes pos c x)).
Proof.
  induction c as [argv|c IH file mode fd|l IHl r IHr|l IHl r IHr|c IH]; intros pos x Hx; pose proof (proj1 (placed_std pos x) Hx) as Hs; cbn [plan tables].
  - destruct argv; cbn [tables complain]; [done|]. apply Forall_singleton. by exists pos.
  - destruct (opens pos file mode); cbn [tables complain]; [|done]. apply IH. by apply placed_file.
  - destruct (pipes pos); cbn [tables complain no_fork]; [|done]. rewrite !app_nil_r. apply Forall_app. split; [by apply IHl, placed_left|].
    apply Forall_app. split; [by apply IHr, placed_right|]. constructor; [by exists pos|]. constructor; [by exists pos|done].
  - cbn [tables complain no_fork]. rewrite !app_nil_r. apply Forall_app. split; [by apply IHl, placed_below|]. constructor; [by exists pos|by apply IHr, placed_below].
  - cbn [tables complain no_fork app]. rewrite !app_nil_r. by apply IH, placed_below.
Qed.

(** The parser only makes redirections of input and output. *)
Lemma tree_line_redirs : (forall l, redirs_ok (tree_line l)) /\ (forall p, redirs_ok (tree_pipe p)) /\ (forall e, redirs_ok (tree_exec e)).
Proof.
  assert (forall nb c, redirs_ok c -> redirs_ok (Nat.iter nb WBACK c)) as Hback by (induction nb; cbn; auto).
  assert (forall rs c, redirs_ok c -> redirs_ok (wwrap c rs)) as Hwrap.
  { intros rs. induction rs as [|[k f] rs IH]; intros c Hc; [done|]. apply IH. cbn. split; [destruct k; auto|done]. }
  apply sh_mutind; cbn [tree_line tree_pipe tree_exec]; intros; cbn [redirs_ok]; auto. by apply Hwrap.
Qed.
(** The shell was not started with an end of a pipe. *)
Definition no_pipes (x : io) : Prop := pipe_of (i_in x) = None /\ pipe_of (i_out x) = None /\ pipe_of (i_err x) = None.
Lemma no_pipes_placed x : no_pipes x -> placed [] (in_io x).
Proof. intros (H1 & H2 & H3). split; intros id [H|[H|H]]; rewrite <- H in *; done. Qed.

(** C30: a line is parsed and run as it is written.  Started with descriptors 0, 1 and 2
    open and the others free, [runcmd] on the parsed line does what the command means on
    streams, whichever files and pipes can be opened and whichever forks succeed: every program
    is started with exactly three descriptors, its input, output and error output being those
    of the shell, replaced by redirections and by pipes; the shell's own processes
    wait with the descriptors they had; messages go to the error output.  If none of the
    shell's own descriptors is a pipe, no program is started, and no process waits,
    holding both ends of a pipe.  The line is one of at most [MAXARGS] - 1 words per
    simple command. *)
Theorem runcmd_wires (opens : list bool -> list Z -> Z -> bool) (pipes : list bool -> bool) (lead : list Z) (lay : list (tok * list Z)) (l : sline) (x : io) :
  ws_only lead -> good_lay lay -> lay.*1 = toks_line l -> few_line l -> no_pipes x ->
  exists c b i, parsecmd (lead ++ text lay) = Ok (c, b) i /\
    let a := follow opens pipes (runcmd [] (resolve (str_at b) c)) (std x) in
    a = plan opens pipes [] (tree_line l) x /\
    Forall (fun t => forall id, ~ (holds (PipeR id) t /\ holds (PipeW id) t)) (tables a).
Proof.
  intros Hlead Hg Hlay Hfew Hx. destruct (parsecmd_parses lead lay l Hlead Hg Hlay Hfew) as (c & b & i & Hp & Hc).
  exists c, b, i. split; [done|]. rewrite Hc. cbn zeta. rewrite runcmd_plan by apply tree_line_redirs. split; [done|].
  eapply Forall_impl; [apply plan_placed; by apply no_pipes_placed|]. intros t [h Ht] id. exact (placed_not_both h _ id Ht).
Qed.
Definition ex_io : io := mkIo (Given 0) (Given 1) (Given 2).
(** [(a<b|c )&;d >e] *)
Lemma runcmd_wires_witness : exists c b i,
  parsecmd ([9] ++ text ex_lay) = Ok (c, b) i /\
  tables (follow (fun _ _ _ => true) (fun _ => true) (runcmd [] (resolve (str_at b) c)) (std ex_io)) =
    [std (mkIo (FFile [98] 0) (PipeW [false; false]) (Given 2)); std (mkIo (PipeR [false; false]) (Given 1) (Given 2));
     std ex_io; std ex_io; std ex_io; std (mkIo (Given 0) (FFile [101] 0x601) (Given 2))].
Proof.
  assert (few_line ex_line) as Hf by (cbn; unfold MAXARGS; lia).
  destruct (runcmd_wires (fun _ _ _ => true) (fun _ => true) [9] ex_lay ex_line ex_io) as (c & b & i & Hp & Ha & _); [repeat constructor| |reflexivity|exact Hf|done|].
  { cbn. repeat (split; [first [repeat constructor; intros [=] | intros [=]]|]). exact I. }
  exists c, b, i. split; [exact Hp|]. cbn zeta in Ha. rewrite Ha. reflexivity.
Defined.

(** ** The processes of a command *)

(** A process runs the code of the shell or, after [exec], a program; a process that has
    exited stays until it is waited for. *)
Inductive prun := Code (a : call) | Prog (argv : list (list Z)).
Inductive psys := PDone | PRun (t : fdt) (s : prun) (kids : list psys).
(** The tables of the processes that have not exited. *)
Fixpoint tabs (p : psys) : list fdt := match p with PDone => [] | PRun t _ kids => t :: flat_map tabs kids end.
(** The write end of a pipe is open somewhere. *)
Definition has_writer (ps : list psys) (id : list bool) : Prop := Exists (fun t => Some (PipeW id) ∈ t) (flat_map tabs ps).

Section system.
(** The programs that read their input to its end before they exit, and whether [fork]
    may fail. *)
Context (reads : list (list Z) -> bool) (scarce : bool).

(** A step of one process, with the processes that lose their parent.  [open],
    [pipe] and [exec] may fail at any time.  A program of [reads] whose input is a pipe
    exits only once no process has the write end ([W]) open. *)
Inductive pstep (W : list bool -> Prop) : psys -> psys -> list psys -> Prop :=
| ps_print t f w k kids : pstep W (PRun t (Code (CPrint f w k)) kids) (PRun t (Code k) kids) []
| ps_close t fd k kids : pstep W (PRun t (Code (CClose fd k)) kids) (PRun (fd_close t fd) (Code k) kids) []
| ps_dup t fd k kids : pstep W (PRun t (Code (CDup fd k)) kids) (PRun (fd_dup t fd) (Code k) kids) []
| ps_open t pos file mode k kids fd t' : fd_alloc t (FFile file mode) = Some (fd, t') ->
    pstep W (PRun t (Code (COpen pos file mode k)) kids) (PRun t' (Code (k (Z.of_nat fd))) kids) []
| ps_open_fail t pos file mode k kids : pstep W (PRun t (Code (COpen pos file mode k)) kids) (PRun t (Code (k (-1))) kids) []
| ps_pipe t pos k kids p0 p1 t' : fd_pipe t pos = Some (p0, p1, t') ->
    pstep W (PRun t (Code (CPipe pos k)) kids) (PRun t' (Code (k 0 p0 p1)) kids) []
| ps_pipe_fail t pos k kids p0 p1 : pstep W (PRun t (Code (CPipe pos k)) kids) (PRun t (Code (k (-1) p0 p1)) kids) []
| ps_fork t k kids pid : 0 < pid -> pstep W (PRun t (Code (CFork k)) kids) (PRun t (Code (k pid)) (kids ++ [PRun t (Code (k 0)) []])) []
| ps_fork_fail t k kids : scarce = true -> pstep W (PRun t (Code (CFork k)) kids) (PRun t (Code (k (-1))) kids) []
| ps_exec t argv k kids : pstep W (PRun t (Code (CExec argv k)) kids) (PRun t (Prog argv) kids) []
| ps_exec_fail t argv k kids : pstep W (PRun t (Code (CExec argv k)) kids) (PRun t (Code k) kids) []
| ps_wait t k l r : pstep W (PRun t (Code (CWait k)) (l ++ PDone :: r)) (PRun t (Code k) (l ++ r)) []
| ps_wait_none t k : pstep W (PRun t (Code (CWait k)) []) (PRun t (Code k) []) []
| ps_exit t s kids : pstep W (PRun t (Code (CExit s)) kids) PDone kids
| ps_end t argv kids : (reads argv = true -> forall id, t !! 0%nat = Some (Some (PipeR id)) -> ~ W id) ->
    pstep W (PRun t (Prog argv) kids) PDone kids
| ps_kid t s l k k' r o : pstep W k k' o -> pstep W (PRun t s (l ++ k :: r)) (PRun t s (l ++ k' :: r)) o.
(** The process of a command, and those that init has inherited. *)
Inductive jstep : psys * list psys -> psys * list psys -> Prop :=
| js_main p p' o os : pstep (has_writer (p :: os)) p p' o -> jstep (p, os) (p', os ++ o)
| js_orphan p l k k' r o : pstep (has_writer (p :: l ++ k :: r)) k k' o -> jstep (p, l ++ k :: r) (p, l ++ k' :: r ++ o).

(** *** A bound on the steps *)

Fixpoint bnd (n : nat) (a : call) : Prop :=
  match a with
  | CExit _ => (1 <= n)%nat
  | CPrint _ _ k | CClose _ k | CDup _ k | CWait k => exists m, (S m <= n)%nat /\ bnd m k
  | CExec _ k => exists m, (S m <= n)%nat /\ (1 <= m)%nat /\ bnd m k
  | COpen _ _ _ k => exists m, (S m <= n)%nat /\ forall r, bnd m (k r)
  | CPipe _ k => exists m, (S m <= n)%nat /\ forall r p q, bnd m (k r p q)
  | CFork k => exists m1 m2, (S (m1 + m2) <= n)%nat /\ bnd m1 (k 0) /\ forall pid, pid <> 0 -> bnd m2 (k pid)
  end.
Lemma bnd_mono n n' a : (n <= n')%nat -> bnd n a -> bnd n' a.
Proof using.
  destruct a; cbn; intros Hn H; first [lia | destruct H as (m & H & H'); exists m; split; [lia|done] | destruct H as (m1 & m2 & H & H'); exists m1, m2; split; [lia|done]].
Qed.
Inductive pbnd : nat -> psys -> Prop :=
| pb_done : pbnd 0 PDone
| pb_run t s kids m ns : match s with Code a => bnd m a | Prog _ => (1 <= m)%nat end -> Forall2 pbnd ns kids -> pbnd (m + sum_list ns) (PRun t s kids).
Lemma sum_list_app (l r : list nat) : sum_list (l ++ r) = (sum_list l + sum_list r)%nat.
Proof using. induction l; cbn; lia. Qed.

Lemma pbnd_code n t a kids m t' a' : pbnd n (PRun t (Code a) kids) -> (forall n, bnd n a -> exists m, (S m <= n)%nat /\ bnd m a') ->
  m = n -> exists n', (n' < m)%nat /\ pbnd n' (PRun t' (Code a') kids).
Proof using.
  intros Hp Ha ->. inversion Hp as [|? ? ? k ns Hb Hk]; subst. destruct (Ha k Hb) as (m & Hm & Hb').
  exists (m + sum_list ns)%nat. split; [lia|]. by constructor.
Qed.
Lemma pstep_bnd W p p' o : pstep W p p' o -> forall n, pbnd n p -> exists n' ns, pbnd n' p' /\ Forall2 pbnd ns o /\ (n' + sum_list ns < n)%nat.
Proof using.
  assert (forall n t a kids t' a', pbnd n (PRun t (Code a) kids) -> (forall n, bnd n a -> exists m, (S m <= n)%nat /\ bnd m a') ->
    exists n' ns, pbnd n' (PRun t' (Code a') kids) /\ Forall2 pbnd ns (@nil psys) /\ (n' + sum_list ns < n)%nat) as Hcode.
  { intros n t a kids t' a' Hp Ha. destruct (pbnd_code n t a kids n t' a' Hp Ha eq_refl) as (n' & Hn & Hp').
    exists n', []. split; [done|]. split; [constructor|]. cbn. lia. }
  induction 1 as [t f w k kids|t fd k kids|t fd k kids|t pos file mode k kids fd t' Ha|t pos file mode k kids|t pos k kids p0 p1 t' Ha|t pos k kids p0 p1|
    t k kids pid Hpid|t k kids Hsc|t argv k kids|t argv k kids|t k l r|t k|t s kids|t argv kids He|t s l k k' r o Hk IH]; intros n Hp.
  - apply (Hcode _ _ _ _ _ _ Hp). auto.
  - apply (Hcode _ _ _ _ _ _ Hp). auto.
  - apply (Hcode _ _ _ _ _ _ Hp). auto.
  - apply (Hcode _ _ _ _ _ _ Hp). intros m (m' & H1 & H2). eauto.
  - apply (Hcode _ _ _ _ _ _ Hp). intros m (m' & H1 & H2). eauto.
  - apply (Hcode _ _ _ _ _ _ Hp). intros m (m' & H1 & H2). eauto.
  - apply (Hcode _ _ _ _ _ _ Hp). intros m (m' & H1 & H2). eauto.
  - inversion Hp as [|? ? ? m ns Hb Hk]; subst. cbn in Hb. destruct Hb as (m1 & m2 & Hm & H0 & H1). exists (m2 + sum_list (ns ++ [m1 + sum_list []]))%nat, [].
    split; [constructor; [apply H1; lia|]|split; [constructor|rewrite sum_list_app; cbn; lia]].
    apply Forall2_app; [done|]. constructor; [|done]. by constructor.
  - apply (Hcode _ _ _ _ _ _ Hp). intros m (m1 & m2 & Hm & H0 & H1). exists m2. split; [lia|]. by apply H1.
  - inversion Hp as [|? ? ? m ns Hb Hk]; subst. cbn in Hb. destruct Hb as (m1 & Hm & H0 & H1). exists (m1 + sum_list ns)%nat, [].
    split; [by constructor|]. split; [constructor|cbn; lia].
  - apply (Hcode _ _ _ _ _ _ Hp). intros m (m1 & Hm & H0 & H1). eauto.
  - inversion Hp as [|? ? ? m ns Hb Hk]; subst. cbn in Hb. destruct Hb as (m1 & Hm & H1). apply Forall2_app_inv_r in Hk as (nl & nr & Hl & Hr & ->).
    inversion Hr as [|? ? n0 ? Hd Hr']; subst. inversion Hd; subst.
    exists (m1 + sum_list (nl ++ n0))%nat, []. split; [constructor; [done|by apply Forall2_app]|]. split; [constructor|]. rewrite !sum_list_app. cbn. lia.
  - apply (Hcode _ _ _ _ _ _ Hp). auto.
  - inversion Hp as [|? ? ? m ns Hm Hk]; subst. cbn in Hm. exists 0%nat, ns. split; [constructor|]. split; [done|lia].
  - inversion Hp as [|? ? ? m ns Hm Hk]; subst. exists 0%nat, ns. split; [constructor|]. split; [done|lia].
  - inversion Hp as [|? ? ? m ns Hm Hkk]; subst. apply Forall2_app_inv_r in Hkk as (nl & nr & Hl & Hr & ->).
    inversion Hr as [|n0 ? nr' ? Hd Hr']; subst. destruct (IH _ Hd) as (n1 & no & Hp1 & Ho & Hlt).
    exists (m + sum_list (nl ++ n1 :: nr'))%nat, no. split; [constructor; [done|apply Forall2_app; [done|by constructor]]|]. split; [done|].
    rewrite !sum_list_app. cbn. lia.
Qed.
Definition jbnd (n : nat) (j : psys * list psys) : Prop := exists m ns, pbnd m j.1 /\ Forall2 pbnd ns j.2 /\ (m + sum_list ns <= n)%nat.
Lemma jstep_bnd j j' n : jstep j j' -> jbnd n j -> exists m, (S m <= n)%nat /\ jbnd m j'.
Proof using.
  intros Hs (m & ns & Hm & Hns & Hle). destruct Hs as [p p' o os Hp|p l k k' r o Hp]; cbn in *.
  - destruct (pstep_bnd _ _ _ _ Hp m Hm) as (m' & no & H1 & H2 & H3). exists (m' + sum_list (ns ++ no))%nat. rewrite sum_list_app.
    split; [lia|]. exists m', (ns ++ no). rewrite sum_list_app. split; [done|]. split; [by apply Forall2_app|done].
  - apply Forall2_app_inv_r in Hns as (nl & nr & Hl & Hr & ->). inversion Hr as [|n0 ? nr' ? Hd Hr']; subst.
    destruct (pstep_bnd _ _ _ _ Hp n0 Hd) as (n1 & no & H1 & H2 & H3). rewrite sum_list_app in Hle. cbn in Hle.
    exists (m + sum_list (nl ++ n1 :: nr' ++ no))%nat. rewrite !sum_list_app. cbn. rewrite sum_list_app. split; [lia|].
    exists m, (nl ++ n1 :: nr' ++ no). rewrite !sum_list_app. cbn. rewrite sum_list_app. split; [done|]. split; [|done].
    apply Forall2_app; [done|]. constructor; [done|by apply Forall2_app].
Qed.
Lemma jsteps_bnd n j j' m : nsteps jstep n j j' -> jbnd m j -> (n <= m)%nat.
Proof using.
  intros Hn. revert m. induction Hn as [|n a b c Hab _ IH]; intros m Hm; [lia|].
  destruct (jstep_bnd _ _ _ Hab Hm) as (m' & Hle & Hm'). specialize (IH m' Hm'). lia.
Qed.

Fixpoint cost (c : wcmd) : nat :=
  match c with
  | WEXEC _ => 3
  | WREDIR c _ _ _ => 4 + cost c
  | WLIST l r => 4 + cost l + cost r
  | WPIPE l r => 19 + cost l + cost r
  | WBACK c => 3 + cost c
  end.
Ltac bound n := exists n; split; [lia|].
Lemma panic_bnd w : bnd 2 (sh_panic w).
Proof using. bound 1%nat. cbn. lia. Qed.
Lemma fork1_bnd n m1 m2 k : (S (m1 + m2) <= n)%nat -> (2 <= m2)%nat -> bnd m1 (k 0) -> (forall pid, pid <> 0 -> bnd m2 (k pid)) -> bnd n (fork1 k).
Proof using.
  intros Hn H2 H0 H1. exists m1, m2. split; [done|]. split; [done|]. intros pid Hpid. destruct (pid =? -1); [|by apply H1].
  eapply bnd_mono; [exact H2|apply panic_bnd].
Qed.
Lemma runcmd_bnd c : forall pos, bnd (cost c) (runcmd pos c).
Proof using.
  induction c as [argv|c IH file mode fd|l IHl r IHr|l IHl r IHr|c IH]; intros pos; cbn [runcmd cost].
  - destruct argv; [cbn; lia|]. bound 2%nat. split; [lia|]. bound 1%nat. cbn; lia.
  - bound (3 + cost c)%nat. bound (2 + cost c)%nat. intros z. destruct (z <? 0); [bound 1%nat; cbn; lia|]. eapply bnd_mono; [|apply IH]. lia.
  - bound (18 + cost l + cost r)%nat. intros z p q. destruct (z <? 0); [eapply bnd_mono; [|apply panic_bnd]; lia|].
    apply (fork1_bnd _ (4 + cost l) (13 + cost r)); [lia|lia| |].
    + bound (3 + cost l)%nat. bound (2 + cost l)%nat. bound (1 + cost l)%nat. bound (cost l). apply IHl.
    + intros pid Hpid. rewrite (proj2 (Z.eqb_neq _ _) Hpid). apply (fork1_bnd _ (4 + cost r) 5); [lia|lia| |].
      * bound (3 + cost r)%nat. bound (2 + cost r)%nat. bound (1 + cost r)%nat. bound (cost r). apply IHr.
      * intros pid' Hpid'. rewrite (proj2 (Z.eqb_neq _ _) Hpid'). bound 4%nat. bound 3%nat. bound 2%nat. bound 1%nat. cbn; lia.
  - apply (fork1_bnd _ (cost l) (3 + cost r)); [lia|lia|apply IHl|]. intros pid Hpid. rewrite (proj2 (Z.eqb_neq _ _) Hpid).
    bound (2 + cost r)%nat. eapply bnd_mono; [|apply IHr]. lia.
  - apply (fork1_bnd _ (cost c) 2); [lia|lia|apply IH|]. intros pid Hpid. rewrite (proj2 (Z.eqb_neq _ _) Hpid). cbn. lia.
Qed.

(** *** No process waits forever *)

Fixpoint depth (c : wcmd) : nat :=
  match c with
  | WEXEC _ => 0
  | WREDIR c _ _ _ | WBACK c => S (depth c)
  | WPIPE l r | WLIST l r => S (depth l `max` depth r)
  end.
Section places.
(** A bound on the length of places. *)
Context (N : nat).

(** The code of a process of the place [h] that has the table [t]: where it waits or starts a
    program its table is [placed], and its children are of places below. *)
Fixpoint wf (h : list bool) (t : fdt) (a : call) : Prop :=
  match a with
  | CExit _ => True
  | CPrint _ _ k => wf h t k
  | CExec _ k | CWait k => placed h (fun o => holds o t) /\ wf h t k
  | CClose fd k => wf h (fd_close t fd) k
  | CDup fd k => wf h (fd_dup t fd) k
  | COpen _ file mode k => wf h t (k (-1)) /\ forall fd t', fd_alloc t (FFile file mode) = Some (fd, t') -> wf h t' (k (Z.of_nat fd))
  | CPipe pos k => (forall p0 p1, wf h t (k (-1) p0 p1)) /\ forall p0 p1 t', fd_pipe t pos = Some (p0, p1, t') -> wf h t' (k 0 p0 p1)
  | CFork k => (forall pid, pid <> 0 -> wf h t (k pid)) /\ exists h', h `prefix_of` h' /\ (length h' <= N)%nat /\ wf h' t (k 0)
  end.
Lemma fork1_wf h t k h' : (forall pid, pid <> 0 -> wf h t (k pid)) -> h `prefix_of` h' -> (length h' <= N)%nat -> wf h' t (k 0) -> wf h t (fork1 k).
Proof using.
  intros Hp Hh Hl H0. split; [intros pid Hpid; destruct (pid =? -1); [done|by apply Hp]|]. by exists h'.
Qed.
Lemma placed_mono h h' P : h `prefix_of` h' -> placed h P -> placed h' P.
Proof using. intros Hh [H1 H2]. split; intros id Hid; (etransitivity; [|exact Hh]); auto. Qed.
Lemma placed_redirect h fd file mode x : placed h (in_io x) -> placed h (in_io (redirect fd (FFile file mode) x)).
Proof using. intros [H1 H2]. unfold redirect, in_io in *. destruct (fd =? 0); cbn; split; intros id Hid; [apply H1|apply H2|apply H1|apply H2]; naive_solver. Qed.
Lemma runcmd_wf c : forall pos h x, redirs_ok c -> h `prefix_of` pos -> placed h (in_io x) -> (length pos + depth c <= N)%nat -> wf h (std x) (runcmd pos c).
Proof using.
  induction c as [argv|c IH file mode fd|l IHl r IHr|l IHl r IHr|c IH]; intros pos h x Hr Hh Hx Hn; cbn [runcmd depth redirs_ok] in *.
  - destruct argv; [done|]. split; [by apply placed_std|done].
  - destruct Hr as [Hfd Hr]. assert (fd_alloc (fd_close (std x) (Z.to_nat fd)) (FFile file mode) = Some (Z.to_nat fd, std (redirect fd (FFile file mode) x))) as Ha
      by (by destruct Hfd as [-> | ->]). split; [done|]. rewrite Ha. intros fd' t' [= <- <-]. rewrite (proj2 (Z.ltb_ge _ _)) by lia.
    apply IH; [done|by apply prefix_app_r|by apply placed_redirect|rewrite length_app; cbn; lia].
  - destruct Hr as [Hl Hr]. split; [done|]. intros p0 p1 t' [= <- <- <-]. cbn [Z.ltb Z.compare].
    pose proof (placed_mono h pos _ Hh Hx) as Hpos.
    apply (fork1_wf _ _ _ (pos ++ [false])); [|by apply prefix_app_r|rewrite length_app; cbn; lia|].
    + intros pid Hpid. rewrite (proj2 (Z.eqb_neq _ _) Hpid).
      apply (fork1_wf _ _ _ (pos ++ [true])); [|by apply prefix_app_r|rewrite length_app; cbn; lia|].
      * intros pid' Hpid'. rewrite (proj2 (Z.eqb_neq _ _) Hpid'). split; [|split; [|done]]; by apply (placed_std h x).
      * apply (IHr (pos ++ [true]) (pos ++ [true]) (redirect 0 (PipeR pos) x)); [done|done|by apply placed_right|rewrite length_app; cbn; lia].
    + apply (IHl (pos ++ [false]) (pos ++ [false]) (redirect 1 (PipeW pos) x)); [done|done|by apply placed_left|rewrite length_app; cbn; lia].
  - destruct Hr as [Hl Hr]. apply (fork1_wf _ _ _ (pos ++ [false])); [|by apply prefix_app_r|rewrite length_app; cbn; lia|].
    + intros pid Hpid. rewrite (proj2 (Z.eqb_neq _ _) Hpid). split; [by apply placed_std|].
      apply IHr; [done|by apply prefix_app_r|done|rewrite length_app; cbn; lia].
    + apply IHl; [done|done|by apply placed_below, (placed_mono h pos)|rewrite length_app; cbn; lia].
  - apply (fork1_wf _ _ _ (pos ++ [false])); [|by apply prefix_app_r|rewrite length_app; cbn; lia|].
    + intros pid Hpid. rewrite (proj2 (Z.eqb_neq _ _) Hpid). done.
    + apply IH; [done|done|by apply placed_below, (placed_mono h pos)|rewrite length_app; cbn; lia].
Qed.

Inductive wfp : list bool -> psys -> Prop :=
| wp_done h : wfp h PDone
| wp_run h t s kids : (length h <= N)%nat -> match s with Code a => wf h t a | Prog _ => placed h (fun o => holds o t) end ->
    Forall (fun k => exists h', h `prefix_of` h' /\ wfp h' k) kids -> wfp h (PRun t s kids).
Lemma pstep_wf W p p' o : pstep W p p' o -> forall h, wfp h p -> wfp h p' /\ Forall (fun k => exists h', wfp h' k) o.
Proof using.
  induction 1 as [t f w k kids|t fd k kids|t fd k kids|t pos file mode k kids fd t' Ha|t pos file mode k kids|t pos k kids p0 p1 t' Ha|t pos k kids p0 p1|
    t k kids pid Hpid|t k kids Hsc|t argv k kids|t argv k kids|t k l r|t k|t s kids|t argv kids He|t s l k k' r o Hk IH];
    intros h Hp; inversion Hp as [|? ? ? ? Hh Hw Hkids]; subst; cbn in Hw.
  1-3: split; [by constructor|done].
  - split; [|done]. constructor; [done|by apply Hw|done].
  - split; [|done]. constructor; [done|by apply Hw|done].
  - split; [|done]. constructor; [done|by apply Hw|done].
  - split; [|done]. constructor; [done|by apply Hw|done].
  - destruct Hw as [Hw (h' & H1 & H2 & H3)]. split; [|done]. constructor; [done|apply Hw; lia|]. apply Forall_app. split; [done|]. apply Forall_singleton.
    exists h'. split; [done|]. by constructor.
  - destruct Hw as [Hw _]. split; [|done]. constructor; [done|by apply Hw|done].
  - split; [|done]. constructor; [done|by apply Hw|done].
  - split; [|done]. constructor; [done|by apply Hw|done].
  - split; [|done]. constructor; [done|by apply Hw|]. apply Forall_app in Hkids as [Hl Hr]. apply Forall_cons_1 in Hr as [_ Hr]. by apply Forall_app.
  - split; [|done]. constructor; [done|by apply Hw|done].
  - split; [constructor|]. eapply Forall_impl; [exact Hkids|]. intros k (h' & _ & Hk). by exists h'.
  - split; [constructor|]. eapply Forall_impl; [exact Hkids|]. intros k (h' & _ & Hk). by exists h'.
  - apply Forall_app in Hkids as [Hl Hr]. apply Forall_cons_1 in Hr as [(h' & Hpre & Hk') Hr]. destruct (IH h' Hk') as [H1 H2]. split; [|done].
    constructor; [done|done|]. apply Forall_app. split; [done|]. constructor; [by exists h'|done].
Qed.

(** A number for a place: places to the left have smaller ones. *)
Fixpoint val (n : nat) (h : list bool) : nat :=
  match n, h with S n, b :: h => ((if b then 2 ^ n else 0) + val n h)%nat | _, _ => O end.
Lemma val_lt n h : (val n h < 2 ^ n)%nat.
Proof using. revert h. induction n as [|n IH]; intros [|b h]; cbn; try lia. - specialize (IH []). lia. - specialize (IH h). destruct b; lia. Qed.
Lemma val_left id : forall n h h', id ++ [false] `prefix_of` h' -> id ++ [true] `prefix_of` h -> (length h <= n)%nat -> (val n h' < val n h)%nat.
Proof using.
  induction id as [|b id IH]; intros n h h' [k' ->] [k ->] Hn; (destruct n as [|n]; [cbn in Hn; lia|]); cbn [app val].
  - pose proof (val_lt n k'). lia.
  - assert (val n ((id ++ [false]) ++ k') < val n ((id ++ [true]) ++ k))%nat; [|lia]. apply IH; [by exists k'|by exists k|cbn in Hn; lia].
Qed.

Fixpoint psize (p : psys) : nat := match p with PDone => 0 | PRun _ _ kids => S (sum_list_with psize kids) end.
Lemma kid_size k kids : k ∈ kids -> (psize k <= sum_list_with psize kids)%nat.
Proof using. induction 1 as [k kids|k x kids _ IH]; cbn; lia. Qed.

(** Processes of which none can take a step. *)
Section stuck.
Context (W : list bool -> Prop) {W_dec : forall id, Decision (W id)}.
Definition stuck (p : psys) : Prop := forall p' o, ~ pstep W p p' o.
Lemma stuck_kid t s k kids : stuck (PRun t s kids) -> k ∈ kids -> stuck k.
Proof using. intros Hs (l & r & ->)%list_elem_of_split p' o Hk. eapply Hs. by apply ps_kid. Qed.
Lemma stuck_shape t s kids : stuck (PRun t s kids) ->
  (exists argv id, s = Prog argv /\ t !! 0%nat = Some (Some (PipeR id)) /\ W id) \/
  (exists k kid r, s = Code (CWait k) /\ kids = kid :: r /\ kid <> PDone).
Proof using W_dec.
  intros Hs. destruct s as [a|argv].
  - right. destruct a; try (exfalso; eapply Hs; first [by apply (ps_pipe_fail _ _ _ _ _ 0%nat 0%nat) | by apply (ps_fork _ _ _ _ 1) | by econstructor]).
    destruct kids as [|kid r]; [exfalso; eapply Hs; by apply ps_wait_none|]. destruct kid as [|t' s' kids']; [exfalso; eapply Hs; by apply (ps_wait _ _ _ [])|].
    by eexists _, _, _.
  - left. exists argv. assert (forall id, t !! 0%nat = Some (Some (PipeR id)) -> ~ W id -> False) as Hno.
    { intros id H0 HW. eapply Hs. apply ps_end. intros _ id' Hid'. by replace id' with id by congruence. }
    assert ((forall id, t !! 0%nat <> Some (Some (PipeR id))) -> False) as Hpipe by (intros H0; eapply Hs; apply ps_end; intros _ id Hid; by destruct (H0 id)).
    destruct (t !! 0%nat) as [[[n|f md|id|id]|]|] eqn:E; try (by destruct Hpipe; intros id').
    exists id. split; [done|]. split; [done|]. destruct (decide (W id)) as [HW|HW]; [done|by destruct (Hno id eq_refl)].
Qed.
Lemma blocked n : forall p h, (psize p < n)%nat -> wfp h p -> p <> PDone -> stuck p ->
  exists h' id, h `prefix_of` h' /\ (length h' <= N)%nat /\ id ++ [true] `prefix_of` h' /\ W id.
Proof using W_dec.
  induction n as [|n IH]; intros p h Hn Hp Hd Hs; [lia|]. destruct p as [|t s kids]; [done|]. inversion Hp as [|? ? ? ? Hh Hw Hkids]; subst.
  destruct (stuck_shape t s kids Hs) as [(argv & id & -> & H0 & HW)|(k & kid & r & -> & -> & Hkid)].
  - exists h, id. split; [done|]. split; [done|]. split; [|done]. apply (proj1 Hw). unfold holds. by eapply list_elem_of_lookup_2.
  - apply Forall_cons_1 in Hkids as [(h1 & Hpre & Hk) _]. destruct (IH kid h1) as (h' & id & H1 & H2); [cbn in Hn; lia|done|done|by eapply stuck_kid; [|left]|].
    exists h', id. split; [by etransitivity|done].
Qed.
Lemma owner n : forall p h t, (psize p < n)%nat -> wfp h p -> stuck p -> t ∈ tabs p ->
  exists h1 p1, wfp h1 p1 /\ p1 <> PDone /\ stuck p1 /\ placed h1 (fun o => holds o t).
Proof using W_dec.
  induction n as [|n IH]; intros p h t Hn Hp Hs Ht; [lia|]. destruct p as [|t0 s kids]; [by apply elem_of_nil in Ht|]. inversion Hp as [|? ? ? ? Hh Hw Hkids]; subst.
  cbn in Ht. apply elem_of_cons in Ht as [->|Ht].
  - exists h, (PRun t0 s kids). split; [done|]. split; [done|]. split; [done|].
    destruct (stuck_shape t0 s kids Hs) as [(argv & id & -> & _)|(k & kid & r & -> & _)]; [done|apply Hw].
  - apply list_elem_of_In, in_flat_map in Ht as (k & Hk%list_elem_of_In & Ht%list_elem_of_In). pose proof (kid_size k kids Hk) as Hsz.
    rewrite Forall_forall in Hkids. destruct (Hkids k Hk) as (h1 & _ & Hk1). cbn in Hn. apply (IH k h1 t); [lia|done|by eapply stuck_kid|done].
Qed.
End stuck.

#[local] Instance has_writer_dec ps id : Decision (has_writer ps id).
Proof using. unfold has_writer. apply _. Defined.
(** Someone to the left of a blocked program is blocked too, so that nobody is. *)
Lemma none_blocked ps : Forall (fun p => exists h, wfp h p) ps -> Forall (stuck (has_writer ps)) ps ->
  forall v h id, (val N h < v)%nat -> (length h <= N)%nat -> id ++ [true] `prefix_of` h -> has_writer ps id -> False.
Proof using.
  intros Hwf Hst. rewrite Forall_forall in Hwf, Hst. induction v as [|v IH]; intros h id Hv Hl Hid HW; [lia|].
  unfold has_writer in HW. apply Exists_exists in HW as (t & Ht%list_elem_of_In%in_flat_map & Hin). destruct Ht as (p & Hp%list_elem_of_In & Ht%list_elem_of_In).
  destruct (Hwf p Hp) as [h0 Hp0]. destruct (owner (has_writer ps) (S (psize p)) p h0 t) as (h1 & p1 & Hw1 & Hd1 & Hs1 & Hpl); [lia|done|by apply Hst|done|].
  destruct (blocked (has_writer ps) (S (psize p1)) p1 h1) as (h2 & id2 & H1 & H2 & H3 & H4); [lia|done|done|done|].
  apply (IH h2 id2); [|done|done|done]. assert (val N h2 < val N h)%nat; [|lia]. apply (val_left id); [|done|done]. etransitivity; [|exact H1]. by apply Hpl.
Qed.
Lemma all_done ps : Forall (fun p => exists h, wfp h p) ps -> Forall (stuck (has_writer ps)) ps -> Forall (fun p => p = PDone) ps.
Proof using.
  intros Hwf Hst. apply Forall_forall. intros p Hp. destruct p as [|t s kids]; [done|exfalso]. rewrite Forall_forall in Hwf. destruct (Hwf _ Hp) as [h Hw].
  destruct (blocked (has_writer ps) (S (psize (PRun t s kids))) (PRun t s kids) h) as (h' & id & _ & H2 & H3 & H4); [lia|done|done|by eapply Forall_forall in Hst|].
  apply (none_blocked ps ltac:(by apply Forall_forall) Hst (S (val N h')) h' id); [lia|done|done|done].
Qed.
Definition jwf (j : psys * list psys) : Prop := Forall (fun p => exists h, wfp h p) (j.1 :: j.2).
Lemma jstep_wf j j' : jstep j j' -> jwf j -> jwf j'.
Proof using.
  intros Hs Hj. unfold jwf in *. destruct Hs as [p p' o os Hp|p l k k' r o Hp]; cbn [fst snd] in *; apply Forall_cons_1 in Hj as [Hm Ho].
  - destruct Hm as [h Hm]. destruct (pstep_wf _ _ _ _ Hp h Hm) as [H1 H2]. constructor; [by exists h|by apply Forall_app].
  - constructor; [done|]. apply Forall_app in Ho as [Hl Hr]. apply Forall_cons_1 in Hr as [[h Hk] Hr]. destruct (pstep_wf _ _ _ _ Hp h Hk) as [H1 H2].
    apply Forall_app. split; [done|]. constructor; [by exists h|by apply Forall_app].
Qed.
Lemma jstep_progress j : jwf j -> (forall j', ~ jstep j j') -> Forall (fun p => p = PDone) (j.1 :: j.2).
Proof using.
  destruct j as [p os]. intros Hj Hn. apply all_done; [done|]. constructor.
  - intros p' o Hp. eapply Hn. by apply js_main.
  - apply Forall_forall. intros k (l & r & E)%list_elem_of_split k' o Hk. cbn in *. subst os. eapply Hn. by apply js_orphan.
Qed.
End places.

(** *** No process is left behind *)

Fixpoint foreground (c : wcmd) : Prop :=
  match c with
  | WEXEC _ => True
  | WREDIR c _ _ _ => foreground c
  | WPIPE l r | WLIST l r => foreground l /\ foreground r
  | WBACK _ => False
  end.
(** With [n] children, waits for all of them before it ends. *)
Fixpoint waits_all (n : nat) (a : call) : Prop :=
  match a with
  | CExit _ => n = 0%nat
  | CPrint _ _ k | CClose _ k | CDup _ k => waits_all n k
  | CExec _ k => n = 0%nat /\ waits_all n k
  | COpen _ _ _ k => forall r, waits_all n (k r)
  | CPipe _ k => forall r p q, waits_all n (k r p q)
  | CFork k => waits_all 0 (k 0) /\ forall pid, 0 < pid -> waits_all (S n) (k pid)
  | CWait k => waits_all (n - 1) k
  end.
Lemma fork1_waits n k : waits_all 0 (k 0) -> (forall pid, 0 < pid -> waits_all (S n) (k pid)) -> waits_all n (fork1 k).
Proof using. intros H0 H1. split; [done|]. intros pid Hpid. rewrite (proj2 (Z.eqb_neq _ _)) by lia. by apply H1. Qed.
Lemma runcmd_waits c : foreground c -> forall pos, waits_all 0 (runcmd pos c).
Proof using.
  induction c as [argv|c IH file mode fd|l IHl r IHr|l IHl r IHr|c IH]; intros Hf pos; cbn [foreground runcmd] in *; [|..|done].
  - by destruct argv.
  - intros z. destruct (z <? 0); [done|by apply IH].
  - destruct Hf as [Hl Hr]. intros z p q. destruct (z <? 0); [done|]. apply fork1_waits; [by apply IHl|]. intros pid Hpid. rewrite (proj2 (Z.eqb_neq _ _)) by lia.
    apply fork1_waits; [by apply IHr|]. intros pid' Hpid'. rewrite (proj2 (Z.eqb_neq _ _)) by lia. done.
  - destruct Hf as [Hl Hr]. apply fork1_waits; [by apply IHl|]. intros pid Hpid. rewrite (proj2 (Z.eqb_neq _ _)) by lia. by apply IHr.
Qed.
Inductive tidy : psys -> Prop :=
| td_done : tidy PDone
| td_run t s kids : match s with Code a => waits_all (length kids) a | Prog _ => kids = [] end -> Forall tidy kids -> tidy (PRun t s kids).
Lemma tidy_step W p p' o : scarce = false -> pstep W p p' o -> tidy p -> tidy p' /\ o = [].
Proof using.
  intros Hsc. induction 1 as [t f w k kids|t fd k kids|t fd k kids|t pos file mode k kids fd t' Ha|t pos file mode k kids|t pos k kids p0 p1 t' Ha|t pos k kids p0 p1|
    t k kids pid Hpid|t k kids Hs|t argv k kids|t argv k kids|t k l r|t k|t s kids|t argv kids He|t s l k k' r o Hk IH]; inversion 1 as [|? ? ? Hw Ht]; subst; try cbn in Hw.
  1-3: split; [by constructor|done].
  1-4: split; [constructor; [apply Hw|done]|done].
  - destruct Hw as [H0 H1]. split; [|done]. constructor; [rewrite length_app; cbn; rewrite Nat.add_1_r; by apply H1|].
    apply Forall_app. split; [done|]. apply Forall_singleton. by constructor.
  - congruence.
  - destruct Hw as [Hn Hw]. split; [|done]. constructor; [by apply length_zero_iff_nil in Hn|done].
  - destruct Hw as [Hn Hw]. split; [|done]. by constructor.
  - split; [|done]. constructor.
    + rewrite length_app in *. cbn in Hw. by replace (length l + S (length r) - 1)%nat with (length l + length r)%nat in Hw by lia.
    + apply Forall_app in Ht as [Hl Hr]. apply Forall_cons_1 in Hr as [_ Hr]. by apply Forall_app.
  - split; [by constructor|done].
  - split; [constructor|]. by apply length_zero_iff_nil in Hw.
  - split; [constructor|done].
  - apply Forall_app in Ht as [Hl Hr]. apply Forall_cons_1 in Hr as [Hk' Hr]. destruct (IH Hk') as [H1 ->]. split; [|done].
    constructor; [destruct s; [by rewrite length_app in *|by destruct l]|]. apply Forall_app. split; [done|]. by constructor.
Qed.
Lemma jstep_tidy j j' : scarce = false -> jstep j j' -> tidy j.1 /\ j.2 = [] -> tidy j'.1 /\ j'.2 = [].
Proof using.
  intros Hsc Hs [Ht H0]. destruct Hs as [p p' o os Hp|p l k k' r o Hp]; cbn in *; [|by destruct l].
  destruct (tidy_step _ _ _ _ Hsc Hp Ht) as [H1 ->]. by subst.
Qed.
Lemma nsteps_inv (P : psys * list psys -> Prop) n j j' : (forall a b, jstep a b -> P a -> P b) -> nsteps jstep n j j' -> P j -> P j'.
Proof using. intros HP. induction 1 as [|n a b c Hab _ IH]; [done|]. intros Ha. apply IH. by eapply HP. Qed.
End system.

(** C31: the processes of a command come to an end, in any order of their steps, whatever
    calls fail, and even if programs read their input to its end before they exit: a
    reader of a pipe sees the end only when every process, the shell's included, has closed
    the write end or exited.  A run has a bounded number of steps, and it stops only when
    all processes have exited, so that there is no deadlock.  If [fork] does not fail, a
    command without [&] leaves no process behind: at no time does one lose its parent,
    so when the shell's [wait] returns all have exited.  The shell is started on
    descriptors that are no pipes; programs are taken not to be held up in their
    output. *)
Theorem runcmd_completes (reads : list (list Z) -> bool) (scarce : bool) (c : wcmd) (x : io) (n : nat) (j : psys * list psys) :
  redirs_ok c -> no_pipes x -> nsteps (jstep reads scarce) n (PRun (std x) (Code (runcmd [] c)) [], []) j ->
  (n <= cost c)%nat /\
  ((forall j', ~ jstep reads scarce j j') -> j.1 = PDone /\ Forall (fun p => p = PDone) j.2) /\
  (scarce = false -> foreground c -> j.2 = []).
Proof.
  intros Hr Hx Hn. split; [|split].
  - eapply jsteps_bnd; [exact Hn|]. exists (cost c + sum_list [])%nat, []. split; [|split; [done|cbn; lia]]. constructor; [apply runcmd_bnd|done].
  - intros Hs. assert (jwf (depth c) j) as Hj.
    { eapply nsteps_inv; [intros a b; apply jstep_wf|exact Hn|]. constructor; [|done]. exists []. constructor; [cbn; lia| |done].
      apply runcmd_wf; [done|done|by apply no_pipes_placed|done]. }
    by apply (jstep_progress _ _ _ _ Hj) in Hs as [? ?]%Forall_cons_1.
  - intros Hsc Hf. apply (nsteps_inv reads scarce (fun j => tidy j.1 /\ j.2 = []) n _ _ (fun a b => jstep_tidy reads scarce a b Hsc) Hn).
    split; [|done]. constructor; [by apply runcmd_waits|done].
Qed.

(** [a | b]: the second program waits for the end of its input. *)
Definition ex_pipe : wcmd := WPIPE (WEXEC [[97]]) (WEXEC [[98]]).
Definition ex_start : psys * list psys := (PRun (std ex_io) (Code (runcmd [] ex_pipe)) [], []).
Lemma run_main reads scarce p p' p'' o n : pstep reads scarce (has_writer [p]) p p' o -> o = [] -> nsteps (jstep reads scarce) n (p', []) p'' ->
  nsteps (jstep reads scarce) (S n) (p, []) p''.
Proof. intros Hp -> Hn. eapply nsteps_l; [apply (js_main _ _ p p' []), Hp|done]. Qed.
Lemma run_kid reads scarce t s l k k' r j n : pstep reads scarce (has_writer [PRun t s (l ++ k :: r)]) k k' [] ->
  nsteps (jstep reads scarce) n (PRun t s (l ++ k' :: r), []) j -> nsteps (jstep reads scarce) (S n) (PRun t s (l ++ k :: r), []) j.
Proof. intros Hp Hn. eapply run_main; [by apply ps_kid|done|done]. Qed.
Lemma runcmd_completes_witness :
  nsteps (jstep (fun _ => true) false) 20 ex_start (PDone, []) /\ (20 <= cost ex_pipe)%nat.
Proof.
  assert (nsteps (jstep (fun _ => true) false) 20 ex_start (PDone, [])) as H.
  { unfold ex_start, ex_pipe. cbn [runcmd].
    eapply run_main; [eapply ps_pipe; reflexivity|reflexivity|]. cbn [Z.ltb Z.compare].
    do 2 (eapply run_main; [eapply (ps_fork _ _ _ _ _ _ 1); reflexivity|reflexivity|]; cbn [Z.eqb app]).
    do 2 (eapply run_main; [eapply ps_close|reflexivity|]).
    eapply (run_kid _ _ _ _ []); [eapply ps_close|]. eapply (run_kid _ _ _ _ []); [eapply ps_dup|]. do 2 (eapply (run_kid _ _ _ _ []); [eapply ps_close|]).
    eapply (run_kid _ _ _ _ []); [eapply ps_exec|]. eapply (run_kid _ _ _ _ []); [eapply ps_end; intros _ id [=]|]. cbn [app].
    eapply (run_kid _ _ _ _ [PDone]); [eapply ps_close|]. eapply (run_kid _ _ _ _ [PDone]); [eapply ps_dup|]. do 2 (eapply (run_kid _ _ _ _ [PDone]); [eapply ps_close|]).
    eapply (run_kid _ _ _ _ [PDone]); [eapply ps_exec|]. eapply (run_kid _ _ _ _ [PDone]); [eapply ps_end|]; cbn [app].
    { intros _ id [= <-]. match goal with |- ~ ?P => apply (bool_decide_eq_false_1 P); vm_compute; reflexivity end. }
    eapply run_main; [eapply (ps_wait _ _ _ _ _ [])|reflexivity|]. eapply run_main; [eapply (ps_wait _ _ _ _ _ [])|reflexivity|].
    eapply run_main; [eapply ps_exit|reflexivity|]. apply nsteps_O. }
  split; [exact H|]. exact (proj1 (runcmd_completes (fun _ => true) false ex_pipe ex_io 20 (PDone, []) ltac:(done) ltac:(done) H)).
Defined.

(** ** getcmd and main *)

(** What the shell does with its input: the prompt, [chdir] to a path, or a child that
    runs [parsecmd] on the line and [runcmd] on the result. *)
Inductive shact := SPrompt | SCd (path : list Z) | SRun (line : list Z).
Definition NBUF100 : Z := 100.
(** The C string at an address. *)
Definition str_in (m : memory) (a : Z) : list Z := match strlen m a with Some n => ldn m a (Z.to_nat n) | None => [] end.

Definition getcmd (m : memory) (input : list Z) (buf nbuf : Z) : memory * list Z * Z :=
  let m := memset m buf 0 nbuf in
  let '(m, input) := gets m input buf nbuf in
  (m, input, if ld8 m buf =? 0 then -1 else 0).
(** The loop of [main]; [buf] is the address of its buffer. *)
Fixpoint main_loop (fuel : nat) (m : memory) (input : list Z) (buf : Z) : list shact :=
  match fuel with
  | O => []
  | S f =>
      let '(m, input, r) := getcmd m input buf NBUF100 in
      SPrompt ::
      if r <? 0 then []
      else if (ld8 m buf =? 99) && (ld8 m (buf + 1) =? 100) && (ld8 m (buf + 2) =? 32) then
        match strlen m buf with
        | Some n => let m := st8 m (buf + n - 1) 0 in SCd (str_in m (buf + 3)) :: main_loop f m input buf
        | None => []
        end
      else SRun (str_in m buf) :: main_loop f m input buf
  end.
(** The loop that makes sure that three descriptors are open. *)
Fixpoint open3 (fuel : nat) (t : fdt) : fdt :=
  match fuel with
  | O => t
  | S f =>
      match fd_alloc t (FFile [99; 111; 110; 115; 111; 108; 101] O_RDWR) with
      | Some (fd, t) => if (3 <=? fd)%nat then fd_close t fd else open3 f t
      | None => t
      end
  end.

(** Descriptors 0, 1 and 2 are then open, the console where they were not, and no others. *)
Theorem open3_std (a b c : option fobj) :
  let con := FFile [99; 111; 110; 115; 111; 108; 101] O_RDWR in
  open3 4 ([a; b; c] ++ replicate (Z.to_nat NOFILE - 3) None) = std (mkIo (default con a) (default con b) (default con c)).
Proof. by destruct a, b, c. Qed.

Definition act_of (l : list Z) : shact :=
  if decide (take 3 l = [99; 100; 32]) then SCd (drop 3 l) else SRun (l ++ [10]).
Definition in_line (c : Z) : Prop := cchar c /\ c <> 10 /\ c <> 13.

Lemma str_in_cstring m a s : cstring m a s -> str_in m a = s.
Proof.
  intros H. unfold str_in. rewrite (strlen_counts _ _ _ H), Nat2Z.id. destruct H as (H & _ & _).
  apply list_eq. intros i. destruct (decide (i < length s)%nat) as [Hi|Hi].
  - rewrite lookup_ldn by done. destruct (lookup_lt_is_Some_2 s i Hi) as [c Hc]. rewrite Hc. f_equal. by apply H.
  - rewrite !lookup_ge_None_2; [done|lia|]. rewrite ldn_length. lia.
Qed.
Lemma cstring_app m a s t : cstring m a (s ++ t) -> cstring m (a + Z.of_nat (length s)) t.
Proof.
  revert a. induction s as [|c s IH]; intros a H; cbn [app length] in *; [by rewrite Z.add_0_r|].
  apply cstring_cons in H as (_ & _ & H). apply IH in H. by replace (a + Z.of_nat (S (length s))) with (a + 1 + Z.of_nat (length s)) by lia.
Qed.
(** Cutting the last character off. *)
Lemma cstring_chop m a s c : cstring m a (s ++ [c]) -> cstring (st8 m (a + Z.of_nat (length s)) 0) a s.
Proof.
  intros (H & _ & Hs). apply Forall_app in Hs as [Hs _]. split; [|split; [|done]].
  - intros i x Hi. pose proof (lookup_lt_Some _ _ _ Hi). rewrite ld8_st8. case_decide; [lia|]. apply H. by rewrite lookup_app_l.
  - rewrite ld8_st8. by rewrite decide_True.
Qed.
Lemma line_of_line n l rest : Forall in_line l -> (length l < n)%nat -> line_of n (l ++ 10 :: rest) = l ++ [10].
Proof.
  intros H. revert n. induction H as [|c l [_ [H1 H2]] _ IH]; intros [|n] Hn; cbn [length app line_of] in *; try lia; [done|].
  rewrite (proj2 (Z.eqb_neq _ _) H1), (proj2 (Z.eqb_neq _ _) H2). cbn. f_equal. apply IH. lia.
Qed.
Lemma cchars_lines lines : Forall (Forall in_line) lines -> Forall cchar (concat ((fun l => l ++ [10]) <$> lines)).
Proof.
  induction 1 as [|l ls Hl _ IH]; [done|]. cbn. rewrite !Forall_app. split; [split|done].
  - eapply Forall_impl; [exact Hl|]. by intros c [? _].
  - by apply Forall_singleton.
Qed.
Lemma cstring_nth m a s i : cstring m a s -> (i <= length s)%nat -> ld8 m (a + Z.of_nat i) = nth i s 0.
Proof.
  intros (H & Hz & _) Hi. destruct (decide (i = length s)) as [->|]; [by rewrite nth_overflow|].
  destruct (lookup_lt_is_Some_2 s i) as [c Hc]; [lia|]. rewrite (H _ _ Hc). symmetry. by apply nth_lookup_Some.
Qed.
(** Comparing the first three characters. *)
Lemma cd_test m a l : cstring m a (l ++ [10]) ->
  (ld8 m a =? 99) && (ld8 m (a + 1) =? 100) && (ld8 m (a + 2) =? 32) = bool_decide (take 3 l = [99; 100; 32]).
Proof.
  intros H. pose proof (cstring_nth _ _ _ 0 H) as H0. pose proof (cstring_nth _ _ _ 1 H) as H1. pose proof (cstring_nth _ _ _ 2 H) as H2.
  change (Z.of_nat 0) with 0 in H0. change (Z.of_nat 1) with 1 in H1. change (Z.of_nat 2) with 2 in H2.
  rewrite length_app in *. cbn [length] in *. rewrite Z.add_0_r in H0. rewrite H0, H1 by lia. clear H0 H1.
  destruct l as [|x [|y l]]; cbn [app length] in *.
  - done.
  - cbn. rewrite bool_decide_eq_false_2 by done. by rewrite andb_false_r.
  - rewrite H2 by lia. destruct l as [|z l]; cbn.
    + rewrite bool_decide_eq_false_2 by done. by rewrite andb_false_r.
    + destruct (Z.eqb_spec x 99) as [->|], (Z.eqb_spec y 100) as [->|], (Z.eqb_spec z 32) as [->|]; cbn; symmetry;
        (by apply bool_decide_eq_true_2) || (apply bool_decide_eq_false_2; congruence).
Qed.

Lemma getcmd_line m l rest buf : Forall in_line l -> (length l < 99)%nat -> Forall cchar rest ->
  exists m', getcmd m (l ++ 10 :: rest) buf NBUF100 = (m', rest, 0) /\ cstring m' buf (l ++ [10]).
Proof.
  intros Hl Hn Hr. unfold getcmd. assert (Forall cchar (l ++ 10 :: rest)) as Hin.
  { apply Forall_app. split; [eapply Forall_impl; [exact Hl|]; by intros c [? _]|]. by constructor. }
  pose proof (gets_reads_line (memset m buf 0 NBUF100) (l ++ 10 :: rest) buf NBUF100 ltac:(done) Hin) as Hg.
  destruct (gets _ _ _ _) as [m' input']. rewrite line_of_line in Hg by (done || (change (Z.to_nat (NBUF100 - 1)) with 99%nat; lia)).
  destruct Hg as (Hs & He & _). exists m'. split; [|done]. rewrite <-app_assoc in He. apply app_inv_head in He. injection He as <-.
  assert (ld8 m' buf <> 0) as Hz.
  { destruct l as [|c l]; cbn [app] in Hs; apply cstring_cons in Hs as (-> & Hc & _); unfold cchar in Hc; lia. }
  by rewrite (proj2 (Z.eqb_neq _ _) Hz).
Qed.
Lemma main_loop_spec buf lines : forall fuel m, Forall (Forall in_line) lines -> Forall (fun l => (length l < 99)%nat) lines ->
  (length lines < fuel)%nat ->
  main_loop fuel m (concat ((fun l => l ++ [10]) <$> lines)) buf = concat ((fun l => [SPrompt; act_of l]) <$> lines) ++ [SPrompt].
Proof.
  induction lines as [|l ls IH]; intros fuel m Hl Hn Hf; (destruct fuel as [|fuel]; [cbn in Hf; lia|]).
  - cbn [concat fmap list_fmap app main_loop]. unfold getcmd, gets. cbn [gets_loop length]. rewrite Z.add_0_r, ld8_st8, decide_True by done. done.
  - apply Forall_cons_1 in Hl as [Hl Hls], Hn as [Hn Hns]. cbn [concat fmap list_fmap main_loop length] in *.
    rewrite <-(app_assoc l [10]). cbn [app].
    destruct (getcmd_line m l (concat ((fun l => l ++ [10]) <$> ls)) buf Hl Hn (cchars_lines _ Hls)) as (m' & -> & Hs).
    rewrite (cd_test _ _ _ Hs). cbn [Z.ltb Z.compare]. f_equal. unfold act_of. destruct (decide _) as [Hcd|Hcd].
    + rewrite bool_decide_eq_true_2 by done. rewrite (strlen_counts _ _ _ Hs), length_app. cbn [length].
      replace (buf + Z.of_nat (length l + 1) - 1) with (buf + Z.of_nat (length l)) by lia.
      pose proof (cstring_chop _ _ _ _ Hs) as Hc. f_equal; [|by apply IH; [..|lia]]. f_equal. apply str_in_cstring.
      assert (length (take 3 l) = 3%nat) as H3 by (by rewrite Hcd). rewrite <-(take_drop 3 l) in Hc at 2. apply cstring_app in Hc. by rewrite H3 in Hc.
    + rewrite bool_decide_eq_false_2 by done. f_equal; [by rewrite (str_in_cstring _ _ _ Hs)|]. by apply IH; [..|lia].
Qed.
(** the shell handles its input line by line, in order: for lines of fewer than 99
    characters it gives the prompt, then either changes directory to what follows [cd ]
    or runs the line, which it passes on with its newline; and it ends at the end of the
    input. *)
Theorem sh_handles_lines (m : memory) (buf : Z) (lines : list (list Z)) :
  Forall (Forall in_line) lines -> Forall (fun l => (length l < 99)%nat) lines ->
  let input := concat ((fun l => l ++ [10]) <$> lines) in
  main_loop (S (length input)) m input buf = concat ((fun l => [SPrompt; act_of l]) <$> lines) ++ [SPrompt].
Proof.
  intros Hl Hn input. apply main_loop_spec; [done|done|]. unfold input. clear. induction lines as [|l ls IH]; cbn; [lia|].
  rewrite !length_app in *. cbn [length]. lia.
Qed.
(** [ls], [cd d] *)
Lemma sh_handles_lines_witness :
  main_loop 9 ∅ [108; 115; 10; 99; 100; 32; 100; 10] 4096 = [SPrompt; SRun [108; 115; 10]; SPrompt; SCd [100]; SPrompt].
Proof.
  apply (sh_handles_lines ∅ 4096 [[108; 115]; [99; 100; 32; 100]]); repeat constructor; unfold in_line, cchar; try lia.
Defined.
