(* ===== verification/Tools.v ===== *)
(** * Small user programs: [user/cat.c], [user/wc.c], [user/echo.c]

    Programs that copy or count the bytes of their input.  The kernel decides how much a
    [read] returns and whether it fails, and how much a [write] takes: both are part of
    the state, and the theorems hold whatever they are.  A function returns [None], or
    the status with which the program exits early. *)

From stdpp Require Import base list strings.
From S2P Require Import Prelude Riscv.

(** ** System calls *)

(** [t_reads]: for each [read], how much less one it returns at most, or that it fails;
    all that was asked for once the list is used up.  [t_room]: how much more the
    output takes. *)
Record tst := mkTst { t_in : list Z; t_reads : list (option nat); t_out : list Z; t_room : nat }.
Definition BUF512 : nat := 512.
Definition t_read (n : nat) : M tst (option (list Z)) := fun s =>
  match t_reads s with
  | None :: r => Ok None (mkTst (t_in s) r (t_out s) (t_room s))
  | Some c :: r => let k := Nat.min n (S c) in Ok (Some (take k (t_in s))) (mkTst (drop k (t_in s)) r (t_out s) (t_room s))
  | [] => Ok (Some (take n (t_in s))) (mkTst (drop n (t_in s)) [] (t_out s) (t_room s))
  end.
Definition t_write (bs : list Z) : M tst nat := fun s =>
  let k := Nat.min (length bs) (t_room s) in
  Ok k (mkTst (t_in s) (t_reads s) (t_out s ++ take k bs) (t_room s - k)).

(** ** The programs *)

(** [cat(fd)]; messages are not part of the output. *)
Fixpoint cat (fuel : nat) : M tst (option Z) :=
  do r <- t_read BUF512;
  match r with
  | None => return (Some 1)
  | Some [] => return None
  | Some bs =>
      match fuel with
      | O => fun _ => Diverge
      | S f => do k <- t_write bs; if negb (k =? length bs)%nat then return (Some 1) else cat f
      end
  end.

(** [strchr(" \r\t\n\v", c)], which also finds nothing for a NUL. *)
Definition wc_space (c : Z) : bool := existsb (Z.eqb c) [32; 13; 9; 10; 11].
Record counts := mkCounts { wc_l : Z; wc_w : Z; wc_c : Z; inword : bool }.
(** The loop over the bytes of [buf]. *)
Fixpoint wc_bytes (buf : list Z) (k : counts) : counts :=
  match buf with
  | [] => k
  | x :: buf =>
      let c := wc_c k + 1 in
      let l := if x =? 10 then wc_l k + 1 else wc_l k in
      wc_bytes buf
        (if wc_space x then mkCounts l (wc_w k) c false
         else if negb (inword k) then mkCounts l (wc_w k + 1) c true
         else mkCounts l (wc_w k) c (inword k))
  end.
Fixpoint wc_loop (fuel : nat) (k : counts) : M tst (option counts) :=
  do r <- t_read BUF512;
  match r with
  | None => return None
  | Some [] => return (Some k)
  | Some bs => match fuel with O => fun _ => Diverge | S f => wc_loop f (wc_bytes bs k) end
  end.
(** [wc(fd, name)]: the numbers that it prints; [None] is the read error. *)
Definition wc (fuel : nat) : M tst (option (Z * Z * Z)) :=
  do r <- wc_loop fuel (mkCounts 0 0 0 false);
  return (match r with Some k => Some (wc_l k, wc_w k, wc_c k) | None => None end).

(** ** [main] of cat and wc *)

(** What [open] gives for a name: the contents, and how they will be read; [None] when it
    fails. *)
Section mains.
Context (open : list Z -> option (list Z * list (option nat))).
Definition t_open (name : list Z) : M tst bool := fun s =>
  match open name with Some (c, rs) => Ok true (mkTst c rs (t_out s) (t_room s)) | None => Ok false s end.

(** The loop over the files; the status with which it exits early. *)
Fixpoint cat_files (fuel : nat) (args : list (list Z)) : M tst (option Z) :=
  match args with
  | [] => return None
  | a :: rest =>
      do ok <- t_open a;
      if negb ok then return (Some 1)
      else do r <- cat fuel; match r with Some x => return (Some x) | None => cat_files fuel rest end
  end.
Definition cat_main (fuel : nat) (args : list (list Z)) : M tst Z :=
  do r <- (match args with [] => cat fuel | _ => cat_files fuel args end);
  return (default 0 r).

(** The lines that wc prints, and the status. *)
Fixpoint wc_files (fuel : nat) (args : list (list Z)) : M tst (list (Z * Z * Z * list Z) * Z) :=
  match args with
  | [] => return ([], 0)
  | a :: rest =>
      do ok <- t_open a;
      if negb ok then return ([], 1)
      else
        do r <- wc fuel;
        match r with
        | None => return ([], 1)
        | Some k => do '(ls, x) <- wc_files fuel rest; return ((k, a) :: ls, x)
        end
  end.
Definition wc_main (fuel : nat) (args : list (list Z)) : M tst (list (Z * Z * Z * list Z) * Z) :=
  match args with
  | [] => do r <- wc fuel; match r with None => return ([], 1) | Some k => return ([(k, [])], 0) end
  | _ => wc_files fuel args
  end.
End mains.

(** [main] of echo: the bytes it writes to descriptor 1. *)
Fixpoint echo (args : list (list Z)) : list Z :=
  match args with
  | [] => []
  | a :: rest => a ++ match rest with [] => [10] | _ => 32 :: echo rest end
  end.

(** ** What they do *)

(** What the reads of 512 bytes deliver: the bytes, and whether they end with an error. *)
Fixpoint delivered (reads : list (option nat)) (input : list Z) : list Z * bool :=
  match reads with
  | [] => (input, true)
  | None :: _ => ([], false)
  | Some c :: r =>
      match input with
      | [] => ([], true)
      | _ => let k := Nat.min BUF512 (S c) in let d := delivered r (drop k input) in (take k input ++ d.1, d.2)
      end
  end.
Lemma delivered_prefix reads input : (delivered reads input).1 `prefix_of` input.
Proof.
  revert input. induction reads as [|[c|] r IH]; intros input; cbn [delivered]; [done| |by exists input].
  destruct input as [|x input]; [done|]. cbn zeta. cbn [fst]. set (k := Nat.min BUF512 (S c)).
  destruct (IH (drop k (x :: input))) as [t Ht]. exists t. by rewrite <-app_assoc, <-Ht, take_drop.
Qed.
Lemma delivered_all reads input : Forall (fun r => r <> None) reads -> delivered reads input = (input, true).
Proof.
  intros H. revert input. induction H as [|[c|] r Hr _ IH]; intros input; cbn [delivered]; [done| |done].
  destruct input as [|x input]; [done|]. cbn zeta. rewrite IH. cbn [fst snd]. by rewrite take_drop.
Qed.

(** One read: an error, the end, or some bytes and the rest. *)
Lemma t_read_cases s :
  (exists s', t_read BUF512 s = Ok None s' /\ delivered (t_reads s) (t_in s) = ([], false) /\ t_out s' = t_out s /\ t_room s' = t_room s) \/
  (exists s', t_read BUF512 s = Ok (Some []) s' /\ delivered (t_reads s) (t_in s) = ([], true) /\ t_out s' = t_out s /\ t_room s' = t_room s) \/
  (exists x bs s', t_read BUF512 s = Ok (Some (x :: bs)) s' /\ t_out s' = t_out s /\ t_room s' = t_room s /\
    (length (t_in s') < length (t_in s))%nat /\
    delivered (t_reads s) (t_in s) = let d := delivered (t_reads s') (t_in s') in ((x :: bs) ++ d.1, d.2)).
Proof.
  destruct s as [input reads out room]. destruct reads as [|[c|] r].
  - destruct input as [|x input]; [right; left; by eexists|right; right]. exists x, (take 511 input). eexists. split; [done|]. cbn [t_out t_room t_reads t_in].
    split; [done|]. split; [done|]. split; [rewrite length_drop; cbn; lia|]. cbn [delivered fst snd]. f_equal. symmetry. exact (take_drop BUF512 (x :: input)).
  - destruct input as [|x input]; [right; left; eexists; split; [unfold t_read; cbn [t_reads t_in]; by rewrite take_nil|done]|right; right].
    exists x, (take (Nat.min 511 c) input). eexists. split; [done|]. cbn [t_out t_room t_reads t_in].
    split; [done|]. split; [done|]. split; [rewrite length_drop; cbn; lia|]. done.
  - left. by eexists.
Qed.

Lemma take_min {A} (l : list A) n : take (Nat.min (length l) n) l = take n l.
Proof. destruct (Nat.min_spec (length l) n) as [[H ->]|[H ->]]; [|done]. rewrite !take_ge by lia. done. Qed.

(** [cat] on any input, however the kernel splits the reads and wherever the output
    is full: it ends, has written the bytes delivered to it, in order, up to the room
    there was, and reports an error exactly when a read failed or the room was not
    enough. *)
Theorem cat_copies (fuel : nat) (s : tst) : (length (t_in s) <= fuel)%nat ->
  let d := delivered (t_reads s) (t_in s) in
  exists s', cat fuel s = Ok (if d.2 && (length d.1 <=? t_room s)%nat then None else Some 1) s' /\
    t_out s' = t_out s ++ take (t_room s) d.1 /\ t_room s' = (t_room s - length d.1)%nat /\ d.1 `prefix_of` t_in s.
Proof.
  intros Hf d. pose proof (delivered_prefix (t_reads s) (t_in s)) as Hp. fold d in Hp.
  assert (exists s', cat fuel s = Ok (if d.2 && (length d.1 <=? t_room s)%nat then None else Some 1) s' /\ t_out s' = t_out s ++ take (t_room s) d.1 /\ t_room s' = (t_room s - length d.1)%nat) as (s' & H1 & H2 & H3); [|by exists s'].
  clear Hp. unfold d. clear d. revert s Hf. induction fuel as [|f IH]; intros s Hf;
    destruct (t_read_cases s) as [(s' & Hr & -> & Ho & Hm)|[(s' & Hr & -> & Ho & Hm)|(x & bs & s' & Hr & Ho & Hm & Hl & Hd)]];
    cbn [cat]; rewrite (bind_Ok _ _ _ _ _ Hr); try (exists s'; cbn; rewrite take_nil, app_nil_r, Nat.sub_0_r; done).
  - exfalso. lia.
  - rewrite Hd. clear Hd. cbn zeta. set (w := x :: bs). fold w. unfold bind at 1. unfold t_write at 1. cbn [fst snd]. rewrite Hm, Ho, length_app.
    destruct (Nat.eqb_spec (Nat.min (length w) (t_room s)) (length w)) as [He|He]; cbn [negb].
    + edestruct (IH (mkTst (t_in s') (t_reads s') (t_out s ++ take (Nat.min (length w) (t_room s)) w) (t_room s - Nat.min (length w) (t_room s)))) as (s2 & H1 & H2 & H3);
        [cbn [t_in]; lia|]. cbn [t_in t_reads t_room t_out] in H1, H2, H3. exists s2. rewrite H1, H2, H3, He. split_and!; [| |lia].
      * destruct (delivered (t_reads s') (t_in s')).2; [cbn [andb]|done].
        assert (((length (delivered (t_reads s') (t_in s')).1 <=? t_room s - length w) = (length w + length (delivered (t_reads s') (t_in s')).1 <=? t_room s))%nat) as ->; [|done].
        apply eq_true_iff_eq. rewrite !Nat.leb_le. lia.
      * rewrite firstn_all, <-app_assoc. f_equal. rewrite take_app. rewrite (take_ge w) by lia. done.
    + eexists. split_and!.
      * rewrite (proj2 (Nat.leb_gt _ _)) by lia. by rewrite andb_false_r.
      * cbn [t_out]. rewrite take_min, take_app. replace (t_room s - length w)%nat with 0%nat by lia. by rewrite app_nil_r.
      * cbn [t_room]. lia.
Qed.
Lemma cat_copies_witness :
  exists s', cat 5 (mkTst [1; 2; 3; 4; 5] [Some 1%nat] [] 4) = Ok (Some 1) s' /\ t_out s' = [1; 2; 3; 4].
Proof.
  destruct (cat_copies 5 (mkTst [1; 2; 3; 4; 5] [Some 1%nat] [] 4) ltac:(cbn; lia)) as (s' & H1 & H2 & _). exists s'. exact (conj H1 H2).
Defined.

(** The words of a text: what is between white space and not empty. *)
Fixpoint pieces (l : list Z) : list (list Z) :=
  match l with
  | [] => [[]]
  | x :: r => if wc_space x then [] :: pieces r else match pieces r with p :: ps => (x :: p) :: ps | [] => [[x]] end
  end.
Definition words (l : list Z) : list (list Z) := filter (fun p => p <> []) (pieces l).
Definition starts_word (l : list Z) : bool := match l with x :: _ => negb (wc_space x) | [] => false end.

Lemma pieces_cons l : exists p ps, pieces l = p :: ps /\ (p = [] <-> starts_word l = false).
Proof.
  destruct l as [|x r]; cbn [pieces starts_word]; [by exists [], []|].
  destruct (wc_space x); cbn [negb]; [by exists [], (pieces r)|]. destruct (pieces r) as [|p ps]; [by exists [x], []|by exists (x :: p), ps].
Qed.
Lemma words_space x r : wc_space x = true -> words (x :: r) = words r.
Proof. intros H. unfold words. cbn [pieces]. rewrite H. by rewrite filter_cons_False by tauto. Qed.
Lemma words_char x r : wc_space x = false -> length (words (x :: r)) = (length (words r) + if starts_word r then 0 else 1)%nat.
Proof.
  intros H. unfold words. cbn [pieces]. rewrite H. destruct (pieces_cons r) as (p & ps & -> & Hp). rewrite filter_cons_True by done. cbn [length].
  destruct (starts_word r) eqn:E.
  - rewrite filter_cons_True by (intros H0; apply Hp in H0; congruence). cbn. lia.
  - rewrite (proj2 Hp eq_refl). rewrite filter_cons_False by tauto. lia.
Qed.
Lemma wc_bytes_spec buf : forall k,
  wc_l (wc_bytes buf k) = wc_l k + Z.of_nat (length (filter (fun x => x = 10) buf)) /\
  wc_w (wc_bytes buf k) = wc_w k + Z.of_nat (length (words buf)) - (if inword k && starts_word buf then 1 else 0) /\
  wc_c (wc_bytes buf k) = wc_c k + Z.of_nat (length buf).
Proof.
  induction buf as [|x r IH]; intros k.
  { change (words []) with (@nil (list Z)). cbn. rewrite andb_false_r. lia. }
  cbn [wc_bytes starts_word].
  assert ((if x =? 10 then wc_l k + 1 else wc_l k) + Z.of_nat (length (filter (fun x => x = 10) r)) = wc_l k + Z.of_nat (length (filter (fun x => x = 10) (x :: r)))) as Hl.
  { destruct (Z.eqb_spec x 10); [rewrite filter_cons_True by done|rewrite filter_cons_False by done]; cbn [length]; lia. }
  destruct (wc_space x) eqn:Hx; [|destruct (inword k) eqn:Hi]; cbn [negb]; match goal with |- context [wc_bytes r ?k'] => destruct (IH k') as (-> & -> & ->) end;
    cbn [wc_l wc_w wc_c inword andb length]; (split; [exact Hl|]); (split; [|lia]).
  - rewrite (words_space x r Hx), andb_false_r. lia.
  - rewrite (words_char x r Hx). destruct (starts_word r); lia.
  - rewrite (words_char x r Hx). destruct (starts_word r); lia.
Qed.
Lemma wc_bytes_app a b k : wc_bytes (a ++ b) k = wc_bytes b (wc_bytes a k).
Proof. revert k. induction a as [|x a IH]; intros k; [done|]. cbn [app wc_bytes]. apply IH. Qed.
Lemma wc_loop_spec fuel : forall s k, (length (t_in s) <= fuel)%nat ->
  let d := delivered (t_reads s) (t_in s) in
  exists s', wc_loop fuel k s = Ok (if d.2 then Some (wc_bytes d.1 k) else None) s'.
Proof.
  induction fuel as [|f IH]; intros s k Hf;
    destruct (t_read_cases s) as [(s' & Hr & -> & Ho & Hm)|[(s' & Hr & -> & Ho & Hm)|(x & bs & s' & Hr & Ho & Hm & Hl & ->)]];
    cbn [wc_loop]; rewrite (bind_Ok _ _ _ _ _ Hr); try (by exists s').
  - exfalso. lia.
  - destruct (IH s' (wc_bytes (x :: bs) k) ltac:(lia)) as [s2 H2]. exists s2. rewrite H2. cbn [fst snd]. by rewrite wc_bytes_app.
Qed.
(** [wc], however the kernel splits the reads, ends and gives the number of newlines,
    of words and of bytes of the file, the words being the pieces between white space
    that are not empty; it gives none exactly when a read fails. *)
Theorem wc_counts (fuel : nat) (s : tst) : (length (t_in s) <= fuel)%nat ->
  exists s', wc fuel s = Ok (if (delivered (t_reads s) (t_in s)).2
    then let text := (delivered (t_reads s) (t_in s)).1 in
      Some (Z.of_nat (length (filter (fun x => x = 10) text)), Z.of_nat (length (words text)), Z.of_nat (length text))
    else None) s' /\
  (Forall (fun r => r <> None) (t_reads s) -> delivered (t_reads s) (t_in s) = (t_in s, true)).
Proof.
  intros Hf. destruct (wc_loop_spec fuel s (mkCounts 0 0 0 false) Hf) as [s' Hs]. exists s'. split; [|apply delivered_all].
  unfold wc. rewrite (bind_Ok _ _ _ _ _ Hs). destruct (delivered (t_reads s) (t_in s)) as [text []]; [|done]. cbn [fst snd].
  destruct (wc_bytes_spec text (mkCounts 0 0 0 false)) as (-> & -> & ->). cbn [wc_l wc_w wc_c inword andb]. by rewrite Z.sub_0_r.
Qed.
(** ["ab c\n"], read one byte first *)
Lemma wc_counts_witness : exists s', wc 5 (mkTst [97; 98; 32; 99; 10] [Some 0%nat] [] 0) = Ok (Some (1, 2, 5)) s'.
Proof.
  destruct (wc_counts 5 (mkTst [97; 98; 32; 99; 10] [Some 0%nat] [] 0) ltac:(cbn; lia)) as (s' & H & _). exists s'. exact H.
Defined.

(** [echo] writes its arguments with a blank between any two and a newline at the end. *)
Theorem echo_joins (a : list Z) (args : list (list Z)) : echo (a :: args) = a ++ concat ((fun b => 32 :: b) <$> args) ++ [10].
Proof.
  revert a. induction args as [|b r IH]; intros a; [done|]. change (echo (a :: b :: r)) with (a ++ 32 :: echo (b :: r)).
  rewrite IH. cbn. by rewrite <-app_assoc.
Qed.

(** *** Several files *)

Section several.
Context (open : list Z -> option (list Z * list (option nat))).
(** The file can be read to its end. *)
Definition readable (fuel : nat) (name text : list Z) : Prop :=
  (length text <= fuel)%nat /\ exists rs, open name = Some (text, rs) /\ Forall (fun r => r <> None) rs.

Lemma cat_files_run fuel args texts : Forall2 (readable fuel) args texts -> forall s, (length (concat texts) <= t_room s)%nat ->
  exists s', (forall rest, cat_files open fuel (args ++ rest) s = cat_files open fuel rest s') /\ t_out s' = t_out s ++ concat texts.
Proof.
  induction 1 as [|a text args texts (Hf & rs & Ho & Hrs) _ IH]; intros s Hr; [exists s; by rewrite app_nil_r|].
  cbn [concat] in *. rewrite length_app in Hr.
  destruct (cat_copies fuel (mkTst text rs (t_out s) (t_room s)) Hf) as (s1 & E & Hout & Hroom & _).
  cbn [t_in t_reads t_out t_room] in *. rewrite (delivered_all _ _ Hrs) in *. cbn [fst snd] in *. rewrite (proj2 (Nat.leb_le _ _)) in E by lia.
  rewrite take_ge in Hout by lia. destruct (IH s1) as (s' & E' & Hout'); [lia|]. exists s'. split; [|by rewrite Hout', Hout, app_assoc].
  intros rest. rewrite <- E'. cbn [app cat_files]. unfold bind at 1, t_open. rewrite Ho. cbn [negb]. by rewrite (bind_Ok _ _ _ _ _ E).
Qed.
(** [cat] of several files, however they are read: the output is their contents one
    after the other, and the status 0; when a file cannot be opened the status is 1 and
    only the files before it are written. *)
Theorem cat_concatenates (fuel : nat) (args : list (list Z)) (texts : list (list Z)) (s : tst) :
  args <> [] -> Forall2 (readable fuel) args texts -> (length (concat texts) <= t_room s)%nat ->
  exists s', cat_main open fuel args s = Ok 0 s' /\ t_out s' = t_out s ++ concat texts /\
    forall bad rest, open bad = None -> cat_main open fuel (args ++ bad :: rest) s = Ok 1 s'.
Proof.
  intros Hne Ha Hr. destruct (cat_files_run fuel args texts Ha s Hr) as (s' & E & Hout). exists s'. destruct args as [|a args]; [done|].
  split; [|split; [done|]].
  - unfold cat_main. specialize (E []). rewrite app_nil_r in E. by rewrite (bind_Ok _ _ _ _ _ E).
  - intros bad rest Hb. unfold cat_main. cbn [app]. rewrite (bind_Ok _ _ _ (Some 1) s'); [done|]. etrans; [exact (E (bad :: rest))|]. cbn [cat_files]. unfold bind, t_open. by rewrite Hb.
Qed.

(** [wc] of several files: a line for each, with its numbers and its name. *)
Definition report (name text : list Z) : Z * Z * Z * list Z :=
  (Z.of_nat (length (filter (fun x => x = 10) text)), Z.of_nat (length (words text)), Z.of_nat (length text), name).
Theorem wc_reports (fuel : nat) (args : list (list Z)) (texts : list (list Z)) (s : tst) :
  args <> [] -> Forall2 (readable fuel) args texts -> exists s', wc_main open fuel args s = Ok (zip_with report args texts, 0) s'.
Proof.
  intros Hne Ha. cut (exists s', wc_files open fuel args s = Ok (zip_with report args texts, 0) s'); [by destruct args|]. clear Hne. revert s.
  induction Ha as [|a text args texts (Hf & rs & Ho & Hrs) _ IH]; intros s; [by exists s|].
  destruct (wc_counts fuel (mkTst text rs (t_out s) (t_room s)) Hf) as (s1 & E & _). cbn [t_in t_reads] in E. rewrite (delivered_all _ _ Hrs) in E. cbn [fst snd] in E.
  destruct (IH s1) as (s' & E'). exists s'. cbn [wc_files zip_with]. unfold bind at 1, t_open. rewrite Ho. cbn [negb]. rewrite (bind_Ok _ _ _ _ _ E).
  by rewrite (bind_Ok _ _ _ _ _ E').
Qed.
End several.

(** Two files, the first read in two pieces. *)
Definition ex_open (name : list Z) : option (list Z * list (option nat)) :=
  if decide (name = [97]) then Some ([1; 2; 3], [Some 1%nat]) else if decide (name = [98]) then Some ([4], []) else None.
Lemma ex_readable : Forall2 (readable ex_open 3) [[97]; [98]] [[1; 2; 3]; [4]].
Proof. repeat constructor; [eexists..]; (split; [reflexivity|by repeat constructor]). Qed.
Lemma cat_concatenates_witness : exists s', cat_main ex_open 3 [[97]; [98]] (mkTst [] [] [] 9) = Ok 0 s' /\ t_out s' = [1; 2; 3; 4].
Proof.
  destruct (cat_concatenates ex_open 3 [[97]; [98]] [[1; 2; 3]; [4]] (mkTst [] [] [] 9)) as (s' & E & Ho & _); [done|apply ex_readable|cbn; lia|]. by exists s'.
Defined.
Lemma wc_reports_witness : exists s', wc_main ex_open 3 [[97]; [98]] (mkTst [] [] [] 9) = Ok ([(0, 1, 3, [97]); (0, 1, 1, [98])], 0) s'.
Proof. apply (wc_reports ex_open 3 [[97]; [98]] [[1; 2; 3]; [4]]); [done|apply ex_readable]. Defined.
