(* ===== verification/Find.v ===== *)
(** * Searching a directory tree: [user/find.c]

    [find] walks a tree of directories and prints the paths of the files and devices with
    a given name.  The file system it sees is a tree of nodes; a path is resolved by the elements
    into which the kernel takes it apart.  [None] is a store outside an array, which the
    program does not check, or a recursion deeper than the stack; the number of open
    descriptors is counted, as each level of the recursion keeps one.  [fstat] on an open
    descriptor is taken to succeed. *)

From stdpp Require Import base list strings.
From S2P Require Import Prelude Riscv Mem Fs FsFile.

(** ** The file system *)

(** A directory lists its entries: the inode number (0 when unused), the [DIRSIZ] bytes
    of the name, and what the entry refers to. *)
Inductive node := NFile | NDevice | NDir (ents : list (Z * list Z * node)).
Definition DOT : list Z := [46].
Definition DOTDOT : list Z := [46; 46].

(** The first entry in use with the name, as [dirlookup] finds it. *)
Fixpoint entry_named (e : list Z) (ents : list (Z * list Z * node)) : option node :=
  match ents with
  | [] => None
  | (inum, name, c) :: r => if negb (inum =? 0) && bool_decide (cstr name = take (Z.to_nat DIRSIZ) e) then Some c else entry_named e r
  end.
Fixpoint walk_path (n : node) (els : list (list Z)) : option node :=
  match els with
  | [] => Some n
  | e :: els => match n with NDir ents => c ← entry_named e ents; walk_path c els | _ => None end
  end.
(** [open(path, O_RDONLY)] with the given root as current directory. *)
Definition open_path (root : node) (path : list Z) : option node := walk_path root (path_elems path).

(** ** The program *)

(** [for(p=path+strlen(path); p >= path && *p != '/'; p--); p++]: [n] is [p - path + 1]. *)
Fixpoint slash_scan (n : nat) (path : list Z) : nat :=
  match n with O => O | S i => if nth i path 0 =? SLASH then S i else slash_scan i path end.
Definition fmtname (path : list Z) : list Z :=
  let p := drop (slash_scan (S (length path)) path) path in
  if (Z.to_nat DIRSIZ <=? length p)%nat then p
  else p ++ replicate (Z.to_nat DIRSIZ - length p) 32.

(** [strcpy] into an array of [n] characters. *)
Definition strcpy_to (n : nat) (s : list Z) : option (list Z) := if (length s <? n)%nat then Some s else None.

(** A line of the output, or the message that a path cannot be opened. *)
Inductive fout := OLine (path : list Z) | OErr (path : list Z).

(** The loop over the directory [dir]; [rec] is the recursive call. *)
Fixpoint find_dir (rec : list Z -> option (list fout)) (dir : list Z) (ents : list (Z * list Z * node)) : option (list fout) :=
  match ents with
  | [] => Some []
  | (inum, name, _) :: r =>
      if inum =? 0 then find_dir rec dir r
      else if (length dir + 15 <? 512)%nat then
        o ← (if bool_decide (cstr name <> DOT) && bool_decide (cstr name <> DOTDOT) then rec (dir ++ SLASH :: cstr name) else Some []);
        o' ← find_dir rec dir r;
        Some (o ++ o')
      else None
  end.
(** [fname] is [None] when it is a null pointer. *)
Fixpoint find (depth : nat) (open : list Z -> option node) (nfd : Z) (dir : list Z) (fname : option (list Z)) : option (list fout) :=
  match depth with
  | O => None
  | S d =>
      if nfd >=? NOFILE then Some [OErr dir]
      else
        match open dir with
        | None => Some [OErr dir]
        | Some NFile | Some NDevice =>
            buf1 ← strcpy_to 15 (fmtname dir);
            name ← fname;
            buf2 ← strcpy_to 15 (fmtname name);
            Some (if decide (buf1 = buf2) then [OLine dir] else [])
        | Some (NDir ents) =>
            buff ← strcpy_to 512 dir;
            find_dir (fun path => find d open (nfd + 1) path fname) buff ents
        end
  end.

(** [main]: the status and the output; the descriptors 0, 1 and 2 are open. *)
Definition find_main (depth : nat) (open : list Z -> option node) (args : list (list Z)) : option (Z * list fout) :=
  match args with
  | [] => Some (1, [])
  | dir :: rest => o ← find depth open 3 dir (head rest); Some (0, o)
  end.

(** ** What it should do *)

Definition live (e : Z * list Z * node) : bool :=
  let '(inum, name, _) := e in negb (inum =? 0) && bool_decide (cstr name <> DOT) && bool_decide (cstr name <> DOTDOT).
(** The paths of the files and of the devices of a tree, in the order of the
    directories. *)
Fixpoint files (dir : list Z) (n : node) : list (list Z) :=
  match n with
  | NFile | NDevice => [dir]
  | NDir ents => flat_map (fun e => if live e then files (dir ++ SLASH :: cstr e.1.2) e.2 else []) ents
  end.
(** The last element of a path: what follows its last slash, after [cur]. *)
Fixpoint last_name (cur path : list Z) : list Z :=
  match path with [] => cur | c :: r => if c =? SLASH then last_name [] r else last_name (cur ++ [c]) r end.
(** A name without the blanks at its end; names that differ only there are the same to
    [find]. *)
Fixpoint unblank (name : list Z) : list Z :=
  match name with
  | [] => []
  | c :: r => match unblank r with [] => if c =? 32 then [] else [c] | r' => c :: r' end
  end.
Definition named (path fname : list Z) : Prop := unblank (last_name [] path) = unblank (last_name [] fname).
#[global] Instance named_dec path fname : Decision (named path fname).
Proof. unfold named. apply _. Defined.
Fixpoint height (n : node) : nat :=
  match n with
  | NFile | NDevice => 1
  | NDir ents => S (list_max (map (fun e => height e.2) ents))
  end.
(** How long the paths below a node are. *)
Fixpoint reach (n : node) : nat :=
  match n with
  | NFile | NDevice => 0
  | NDir ents => 15 + list_max (map (fun e => reach e.2) ents)
  end.
(** Names have [DIRSIZ] bytes, are not empty and have no slash; no two entries of a
    directory have the same. *)
Definition good_name (name : list Z) : Prop :=
  length name = Z.to_nat DIRSIZ /\ cstr name <> [] /\ Forall (fun c => c <> SLASH) (cstr name).
Inductive good_node : node -> Prop :=
| gn_file : good_node NFile
| gn_device : good_node NDevice
| gn_dir ents :
    (forall inum name c, (inum, name, c) ∈ ents -> inum <> 0 -> good_name name) ->
    NoDup ((fun e => cstr e.1.2) <$> filter (fun e : Z * list Z * node => e.1.1 <> 0) ents) ->
    (forall e, e ∈ ents -> live e = true -> good_node e.2) -> good_node (NDir ents).

(** ** Paths *)

Lemma elems_from_snoc cur path e : Forall (fun c => c <> SLASH) e -> e <> [] ->
  elems_from cur (path ++ SLASH :: e) = elems_from cur path ++ [e].
Proof.
  intros He Hne. revert cur. induction path as [|c r IH]; intros cur; cbn [app elems_from].
  - rewrite Z.eqb_refl. pose proof (elems_run [] e [] He (or_introl eq_refl) Hne) as H. rewrite app_nil_r in H. rewrite H. by destruct cur.
  - destruct (c =? SLASH); [|apply IH]. rewrite IH. by destruct cur.
Qed.
Lemma walk_path_app n a b : walk_path n (a ++ b) = (c ← walk_path n a; walk_path c b).
Proof. revert n. induction a as [|e a IH]; intros n; [done|]. cbn. destruct n; [done..|]. destruct (entry_named e ents); cbn; [apply IH|done]. Qed.
Lemma cstr_length name : (length (cstr name) <= length name)%nat.
Proof. induction name as [|c r IH]; cbn; [lia|]. destruct (c =? 0); cbn; lia. Qed.
Lemma entry_named_found ents inum name c :
  (inum, name, c) ∈ ents -> inum <> 0 -> length name = Z.to_nat DIRSIZ ->
  NoDup ((fun e => cstr e.1.2) <$> filter (fun e : Z * list Z * node => e.1.1 <> 0) ents) ->
  entry_named (cstr name) ents = Some c.
Proof.
  intros Hin Hi Hl. assert (take (Z.to_nat DIRSIZ) (cstr name) = cstr name) as Ht by (apply take_ge; pose proof (cstr_length name); lia).
  induction ents as [|[[i nm] n] r IH]; intros Hnd; [by apply elem_of_nil in Hin|]. cbn [entry_named]. rewrite Ht.
  apply elem_of_cons in Hin as [[= <- <- <-]|Hin].
  - rewrite (proj2 (Z.eqb_neq _ _) Hi). by rewrite bool_decide_eq_true_2.
  - destruct (Z.eqb_spec i 0) as [->|Hi'].
    + apply IH; [done|]. by rewrite filter_cons_False in Hnd by tauto.
    + rewrite filter_cons_True in Hnd by done. cbn [fmap list_fmap] in Hnd. apply NoDup_cons in Hnd as [Hn Hnd]. cbn [negb andb].
      rewrite bool_decide_eq_false_2; [by apply IH|]. intros E. apply Hn. cbn [fst snd]. rewrite E.
      apply list_elem_of_fmap. exists (inum, name, c). split; [done|]. apply list_elem_of_filter. done.
Qed.
(** The path of an entry of a directory leads to what it refers to. *)
Lemma open_entry root dir ents e : open_path root dir = Some (NDir ents) -> good_node (NDir ents) -> e ∈ ents -> live e = true ->
  open_path root (dir ++ SLASH :: cstr e.1.2) = Some e.2.
Proof.
  intros Ho Hg He Hl. destruct e as [[inum name] c]. inversion Hg as [| |? Hn Hd _]; subst. unfold live in Hl.
  apply andb_prop in Hl as [Hl _]. apply andb_prop in Hl as [Hl _]. apply negb_true_iff, Z.eqb_neq in Hl.
  destruct (Hn _ _ _ He Hl) as (Hlen & Hne & Hs). unfold open_path in *. unfold path_elems in *. cbn [fst snd].
  rewrite elems_from_snoc, walk_path_app, Ho by done. cbn. by rewrite (entry_named_found ents inum name c).
Qed.

(** ** Names *)

Definition pad (name : list Z) : list Z := name ++ replicate (Z.to_nat DIRSIZ - length name) 32.
Lemma nth_no_slash l i : Forall (fun c => c <> SLASH) l -> nth i l 0 <> SLASH.
Proof.
  intros H. destruct (decide (i < length l)%nat) as [Hk|Hk]; [|by rewrite nth_overflow by lia].
  destruct (lookup_lt_is_Some_2 l i Hk) as [c Hc]. rewrite (nth_lookup_Some _ _ _ _ Hc). exact (Forall_lookup_1 _ _ _ _ H Hc).
Qed.
Lemma slash_scan_none n path : (forall i, (i < n)%nat -> nth i path 0 <> SLASH) -> slash_scan n path = 0%nat.
Proof. induction n as [|n IH]; intros H; cbn; [done|]. rewrite (proj2 (Z.eqb_neq _ _)) by (apply H; lia). apply IH. intros i Hi. apply H. lia. Qed.
Lemma slash_scan_last n d name : Forall (fun c => c <> SLASH) name -> (length d < n)%nat -> slash_scan n (d ++ SLASH :: name) = S (length d).
Proof.
  intros Hn. induction n as [|n IH]; intros Hl; [lia|]. cbn [slash_scan]. destruct (decide (n = length d)) as [->|Hne].
  - rewrite app_nth2, Nat.sub_diag by lia. cbn. done.
  - rewrite app_nth2 by lia. destruct (n - length d)%nat as [|k] eqn:E; [lia|]. cbn [nth]. rewrite (proj2 (Z.eqb_neq _ _)); [apply IH; lia|by apply nth_no_slash].
Qed.
Lemma fmtname_entry d name : Forall (fun c => c <> SLASH) name -> (length name <= Z.to_nat DIRSIZ)%nat -> fmtname (d ++ SLASH :: name) = pad name.
Proof.
  intros Hn Hl. unfold fmtname. rewrite slash_scan_last; [|done|rewrite length_app; cbn; lia].
  replace (drop (S (length d)) (d ++ SLASH :: name)) with name.
  2:{ rewrite (cons_middle SLASH d name), app_assoc, drop_app_length'; [done|]. rewrite length_app. cbn. lia. }
  unfold pad. destruct (Nat.leb_spec (Z.to_nat DIRSIZ) (length name)); [|done].
  by replace (Z.to_nat DIRSIZ - length name)%nat with 0%nat by lia; rewrite app_nil_r.
Qed.
Lemma last_name_plain cur name : Forall (fun c => c <> SLASH) name -> last_name cur name = cur ++ name.
Proof.
  intros H. revert cur. induction H as [|c r Hc _ IH]; intros cur; cbn; [by rewrite app_nil_r|].
  rewrite (proj2 (Z.eqb_neq _ _) Hc), IH. by rewrite <- app_assoc.
Qed.
Lemma last_name_entry cur d name : Forall (fun c => c <> SLASH) name -> last_name cur (d ++ SLASH :: name) = name.
Proof.
  intros H. revert cur. induction d as [|c d IH]; intros cur; cbn [app last_name]; [by rewrite Z.eqb_refl, last_name_plain|].
  destruct (c =? SLASH); apply IH.
Qed.
(** A path has no slash, or a last one. *)
Lemma path_split path : Forall (fun c => c <> SLASH) path \/ exists d name, path = d ++ SLASH :: name /\ Forall (fun c => c <> SLASH) name.
Proof.
  induction path as [|c path IH]; [by left|]. destruct IH as [IH|(d & name & -> & IH)]; [|right; by exists (c :: d), name].
  destruct (decide (c = SLASH)) as [->|Hc]; [right; by exists [], path|left; by constructor].
Qed.
(** [fmtname] is the last element of the path, padded. *)
Lemma fmtname_pads path : (length (last_name [] path) <= Z.to_nat DIRSIZ)%nat -> fmtname path = pad (last_name [] path).
Proof.
  destruct (path_split path) as [Hn|(d & name & -> & Hn)].
  - rewrite last_name_plain by done. cbn [app]. intros Hl. unfold fmtname. rewrite slash_scan_none by (intros i _; by apply nth_no_slash).
    rewrite drop_0. cbn zeta. unfold pad. destruct (Nat.leb_spec (Z.to_nat DIRSIZ) (length path)); [|done].
    by replace (Z.to_nat DIRSIZ - length path)%nat with 0%nat by lia; rewrite app_nil_r.
  - rewrite last_name_entry by done. intros Hl. by apply fmtname_entry.
Qed.

Lemma unblank_blanks name n : unblank (name ++ replicate n 32) = unblank name.
Proof.
  induction name as [|c r IH]; cbn; [|by rewrite IH]. induction n as [|n IH]; [done|]. cbn. by rewrite IH.
Qed.
Lemma unblank_restores name : name = unblank name ++ replicate (length name - length (unblank name)) 32 /\ (length (unblank name) <= length name)%nat.
Proof.
  induction name as [|c r [IH Hl]]; [done|]. cbn [unblank length]. destruct (unblank r) as [|c' r'] eqn:E.
  - destruct (Z.eqb_spec c 32) as [->|]; cbn [length app]; [|split; [|lia]].
    + split; [|lia]. rewrite Nat.sub_0_r in *. cbn [replicate app] in *. by f_equal.
    + f_equal. rewrite IH at 1. cbn [length app]. done.
  - cbn [length app] in *. split; [|lia]. f_equal. exact IH.
Qed.
(** Padding to 14 characters forgets exactly the blanks at the end. *)
Lemma pad_unblank a b : (length a <= Z.to_nat DIRSIZ)%nat -> (length b <= Z.to_nat DIRSIZ)%nat -> pad a = pad b <-> unblank a = unblank b.
Proof.
  assert (forall x, (length x <= Z.to_nat DIRSIZ)%nat -> pad x = unblank x ++ replicate (Z.to_nat DIRSIZ - length (unblank x)) 32) as H.
  { intros x Hx. destruct (unblank_restores x) as [E Hl]. unfold pad. rewrite E at 1. rewrite <- app_assoc, <- replicate_add. do 2 f_equal. lia. }
  intros Ha Hb. split; [|intros E; by rewrite !H, E].
  intros E. apply (f_equal unblank) in E. unfold pad in E. by rewrite !unblank_blanks in E.
Qed.
(** The comparison of [find]: the arrays hold both names and compare equal if the names do. *)
Lemma compare_names path fname : (length (last_name [] path) <= Z.to_nat DIRSIZ)%nat -> (length (last_name [] fname) <= Z.to_nat DIRSIZ)%nat ->
  strcpy_to 15 (fmtname path) = Some (fmtname path) /\ strcpy_to 15 (fmtname fname) = Some (fmtname fname) /\
  (fmtname path = fmtname fname <-> named path fname).
Proof.
  intros Hp Hf. rewrite !fmtname_pads by done. unfold strcpy_to.
  assert (forall x, (length x <= Z.to_nat DIRSIZ)%nat -> (length (pad x) <? 15)%nat = true) as H.
  { intros x Hx. apply Nat.ltb_lt. unfold pad. rewrite length_app, length_replicate. unfold DIRSIZ in *. lia. }
  rewrite !H by done. split; [done|]. split; [done|]. by apply pad_unblank.
Qed.

(** ** The theorem *)

Lemma filter_flat_map {A B} (P : B -> Prop) `{forall x, Decision (P x)} (f : A -> list B) (l : list A) :
  filter P (flat_map f l) = flat_map (fun x => filter P (f x)) l.
Proof. induction l as [|x l IH]; [done|]. cbn [flat_map]. by rewrite filter_app, IH. Qed.
Lemma fmap_flat_map {A B C} (g : B -> C) (f : A -> list B) (l : list A) : g <$> flat_map f l = flat_map (fun x => g <$> f x) l.
Proof. induction l as [|x l IH]; [done|]. cbn [flat_map]. by rewrite fmap_app, IH. Qed.
Lemma list_max_elem {A} (h : A -> nat) (l : list A) x : x ∈ l -> (h x <= list_max (map h l))%nat.
Proof. unfold list_max. induction l as [|y l IH]; [by intros ?%elem_of_nil|]. cbn [map fold_right]. intros [->|H]%elem_of_cons; [lia|]. apply IH in H. lia. Qed.

Lemma find_dir_spec rec dir ents (g : Z * list Z * node -> list fout) : (length dir + 15 < 512)%nat ->
  (forall e, e ∈ ents -> live e = true -> rec (dir ++ SLASH :: cstr e.1.2) = Some (g e)) ->
  find_dir rec dir ents = Some (flat_map (fun e => if live e then g e else []) ents).
Proof.
  intros Hd. induction ents as [|[[inum name] c] r IH]; intros H; [done|]. cbn [find_dir flat_map].
  pose proof (H (inum, name, c) ltac:(by left)) as H0. rewrite IH by (intros e He; apply H; by right). cbn [fst snd] in H0.
  assert (live (inum, name, c) = negb (inum =? 0) && bool_decide (cstr name <> DOT) && bool_decide (cstr name <> DOTDOT)) as Hlv by done. rewrite Hlv in *.
  destruct (inum =? 0); cbn [negb andb] in *; [done|]. rewrite (proj2 (Nat.ltb_lt _ _)) by done.
  destruct (bool_decide (cstr name <> DOT) && bool_decide (cstr name <> DOTDOT)); [|done]. by rewrite H0.
Qed.

(** C32: [find] prints exactly the paths of the files and devices below [dir] whose last
    element is that of the name asked for, up to blanks at their ends, in the order of the
    directories, when the tree is not deeper than the stack and the descriptor table
    allow, paths fit in the 512 characters of [buff], and the last elements of the two
    arguments have at most 14 characters. *)
Theorem find_prints_matches (depth : nat) (root : node) (nfd : Z) (dir fname : list Z) (n : node) :
  open_path root dir = Some n -> good_node n ->
  (height n <= depth)%nat -> nfd + Z.of_nat (height n) <= NOFILE -> (length dir + reach n < 512)%nat ->
  (length (last_name [] dir) <= 14)%nat -> (length (last_name [] fname) <= 14)%nat ->
  find depth (open_path root) nfd dir (Some fname) = Some (OLine <$> filter (fun p => named p fname) (files dir n)).
Proof.
  intros Ho Hg. revert nfd dir n Ho Hg. induction depth as [|d IH]; intros nfd dir n Ho Hg Hd Hf Hr Hdir Hname; [destruct n; cbn in Hd; lia|].
  cbn [find]. assert (1 <= height n)%nat by (destruct n; cbn; lia). rewrite Z.geb_leb, (proj2 (Z.leb_gt _ _)) by lia. rewrite Ho.
  destruct (compare_names dir fname Hdir Hname) as (C1 & C2 & C3).
  destruct n as [| |ents].
  1, 2: cbn [mbind option_bind]; rewrite C1; cbn [mbind option_bind]; rewrite C2; cbn [mbind option_bind files]; case_decide as E;
    [by rewrite filter_cons_True by tauto|by rewrite filter_cons_False by tauto].
  cbn [reach height] in *. unfold strcpy_to. rewrite (proj2 (Nat.ltb_lt _ _)) by lia. cbn [mbind option_bind].
  rewrite (find_dir_spec _ _ _ (fun e => OLine <$> filter (fun p => named p fname) (files (dir ++ SLASH :: cstr e.1.2) e.2))); [|lia|].
  - cbn [files]. rewrite filter_flat_map, fmap_flat_map. f_equal. apply flat_map_ext. intros e. by destruct (live e).
  - intros e He Hl. inversion Hg as [| |? Hn _ Hc]; subst. destruct e as [[inum name] c]. cbn [fst snd].
    assert (good_name name) as (Hlen & Hne & Hs).
    { apply (Hn inum name c He). unfold live in Hl. apply andb_prop in Hl as [Hl _]. apply andb_prop in Hl as [Hl _]. by apply negb_true_iff, Z.eqb_neq in Hl. }
    pose proof (list_max_elem (fun e : Z * list Z * node => height e.2) ents _ He) as Hh.
    pose proof (list_max_elem (fun e : Z * list Z * node => reach e.2) ents _ He) as Hr'. cbn [snd] in Hh, Hr'.
    pose proof (cstr_length name) as Hcl. unfold DIRSIZ in Hlen. change (Z.to_nat 14) with 14%nat in Hlen. apply IH.
    + exact (open_entry root dir ents (inum, name, c) Ho Hg He Hl).
    + exact (Hc _ He Hl).
    + lia.
    + lia.
    + rewrite length_app. cbn [length]. lia.
    + rewrite last_name_entry by done. lia.
    + done.
Qed.
(** A directory [d] with the files [a] and [b], another [a] in a subdirectory [s]. *)
Definition ex_name (c : Z) : list Z := c :: replicate 13 0.
Definition ex_tree : node :=
  NDir [(1, 46 :: replicate 13 0, NDir []); (2, ex_name 97, NFile); (0, ex_name 98, NFile); (3, ex_name 115, NDir [(4, ex_name 97, NFile); (5, ex_name 98, NDevice)])].
Lemma find_prints_matches_witness :
  find 4 (open_path (NDir [(6, ex_name 100, ex_tree)])) 3 [100] (Some [97]) = Some [OLine [100; 47; 97]; OLine [100; 47; 115; 47; 97]].
Proof.
  assert (forall c, c = 97 \/ c = 98 \/ c = 115 -> good_name (ex_name c)) as Hn.
  { intros c Hc. unfold good_name. destruct Hc as [->|[->| ->]]; (split; [reflexivity|split; [intros [=]|repeat constructor; intros [=]]]). }
  assert (good_node ex_tree) as Hg.
  { unfold ex_tree. constructor.
    - intros inum name c Hin Hi. rewrite !elem_of_cons, elem_of_nil in Hin. destruct Hin as [E|[E|[E|[E|[]]]]]; injection E as -> -> ->; [|apply Hn; tauto|done|apply Hn; tauto].
      split; [reflexivity|split; [intros [=]|repeat constructor; intros [=]]].
    - apply (bool_decide_unpack _). vm_compute. exact I.
    - intros e Hin Hl. rewrite !elem_of_cons, elem_of_nil in Hin. destruct Hin as [->|[->|[->|[->|[]]]]]; [discriminate Hl|constructor|discriminate Hl|].
      constructor.
      + intros inum name c Hin Hi. rewrite !elem_of_cons, elem_of_nil in Hin. destruct Hin as [E|[E|[]]]; injection E as -> -> ->; apply Hn; tauto.
      + apply (bool_decide_unpack _). vm_compute. exact I.
      + intros e Hin Hl'. rewrite !elem_of_cons, elem_of_nil in Hin. destruct Hin as [->|[->|[]]]; constructor. }
  rewrite (find_prints_matches 4 (NDir [(6, ex_name 100, ex_tree)]) 3 [100] [97] ex_tree eq_refl Hg); [vm_compute; reflexivity|..];
    first [apply Nat.leb_le; reflexivity|apply Z.leb_le; reflexivity|apply Nat.ltb_lt; reflexivity].
Defined.
(** The name asked for is copied without a check of its length. *)
Theorem find_long_name (depth : nat) (root : node) (nfd : Z) (dir fname : list Z) :
  open_path root dir = Some NFile -> nfd < NOFILE -> Forall (fun c => c <> SLASH) fname -> (14 < length fname)%nat ->
  find (S depth) (open_path root) nfd dir (Some fname) = None.
Proof.
  intros Ho Hf Hs Hl. cbn [find]. rewrite Z.geb_leb, (proj2 (Z.leb_gt _ _)), Ho by lia. destruct (strcpy_to 15 (fmtname dir)); [|done]. cbn [mbind option_bind].
  assert (fmtname fname = fname) as ->.
  { unfold fmtname. rewrite slash_scan_none; [rewrite drop_0; cbn zeta; by rewrite (proj2 (Nat.leb_le _ _)) by (unfold DIRSIZ; lia)|].
    intros i _. by apply nth_no_slash. }
  unfold strcpy_to. by rewrite (proj2 (Nat.ltb_ge _ _)) by lia.
Qed.
(** With one argument the check of [main] passes, and a null pointer is taken for a name
    when there is a file to compare it with. *)
Theorem find_no_name (depth : nat) (root : node) (dir : list Z) :
  open_path root dir = Some NFile -> find_main (S depth) (open_path root) [dir] = None.
Proof. intros Ho. cbn [find_main find head]. cbn. rewrite Ho. by destruct (strcpy_to 15 (fmtname dir)). Qed.
