(* ===== verification/Usys.v ===== *)
(** * System calls as user programs see them: [user/user.h], [user/ulib.c]

    User programs are written against a class of system calls; what the calls do is up to
    the instance.  One instance remembers the calls and takes the answers from an
    arbitrary function of the calls so far: a theorem about it holds whatever the kernel
    and the other processes do. *)

From stdpp Require Import base list strings.
From S2P Require Import Prelude Riscv Mem Fs Printf Ulib Uprintf.

(** [u_read]: [None] is -1, the empty list is the end of the file. *)
Class Sys (W : Type) := {
  u_fork : M W Z;
  u_wait : M W Z;
  u_kill : Z -> M W Z;
  u_sleep : Z -> M W Z;
  u_exec : list Z -> list (list Z) -> M W Z;
  u_open : list Z -> Z -> M W Z;
  u_close : Z -> M W Z;
  u_read : Z -> nat -> M W (option (list Z));
  u_write : Z -> list Z -> M W Z;
  u_fstat : Z -> M W (option stat);
  u_dup : Z -> M W Z;
  u_mknod : list Z -> Z -> Z -> M W Z;
  u_unlink : list Z -> M W Z;
  u_link : list Z -> list Z -> M W Z;
  u_mkdir : list Z -> M W Z
}.

(** A format that ends a line. *)
Definition line (s : string) : list Z := chars s ++ [10].

Section lib.
Context {W : Type} `{Sys W}.

(** [fprintf]: each character is one [write], whose result is ignored. *)
Fixpoint emit (o : writes) : M W unit :=
  match o with [] => return tt | (fd, c) :: r => u_write fd [c] ;;; emit r end.
Definition say (fd : Z) (fmt : list Z) (ap : list varg) : M W unit :=
  match fprintf fd fmt ap [] with Ok _ o => emit o | _ => undefined end.

(** [stat(n, st)]: open, [fstat], close. *)
Definition ustat (n : list Z) : M W (option stat) :=
  do fd <- u_open n O_RDONLY;
  if fd <? 0 then return None
  else do r <- u_fstat fd; u_close fd ;;; return r.

(** [start()]: the status of a program whose [main] returns. *)
Definition ustart (main : M W Z) : M W Z := main ;;; return 0.
End lib.

(** [atoi] of an argument. *)
Fixpoint atoi_str (s : list Z) (n : Z) : option Z :=
  match s with
  | c :: r =>
      if (48 <=? c) && (c <=? 57) then
        if int_ok (n * 10) && int_ok (n * 10 + c) then atoi_str r (n * 10 + c - 48) else None
      else Some n
  | [] => Some n
  end.
Lemma atoi_loop_str m : forall s fuel a n, cstring m a s -> (length s < fuel)%nat -> atoi_loop fuel m a n = atoi_str s n.
Proof.
  induction s as [|c s IH]; intros [|fuel] a n Hs Hf; cbn [length] in *; try lia; cbn [atoi_loop atoi_str].
  - apply cstring_nil in Hs. by rewrite Hs.
  - apply cstring_cons in Hs as (-> & _ & Hs). repeat case_match; try done. apply IH; [done|lia].
Qed.
(** It is the [atoi] of the library on the string in memory. *)
Lemma atoi_str_ok m a s : cstring m a s -> atoi m a = atoi_str s 0.
Proof. intros Hs. apply atoi_loop_str; [done|]. pose proof (cstring_turns _ _ _ Hs). lia. Qed.

(** ** An arbitrary kernel *)

Inductive ucall :=
  CFork | CWait | CKill (pid : Z) | CSleep (n : Z) | CExec (path : list Z) (argv : list (list Z)) |
  COpen (path : list Z) (mode : Z) | CClose (fd : Z) | CRead (fd : Z) (n : nat) | CWrite (fd : Z) (bs : list Z) |
  CFstat (fd : Z) | CDup (fd : Z) | CMknod (path : list Z) (major minor : Z) | CUnlink (path : list Z) |
  CLink (old new : list Z) | CMkdir (path : list Z).
(** A call and the number it returned. *)
Notation event := (ucall * Z)%type.

(** The answers, from the calls made before. *)
Record oracle := mkOracle {
  o_int : list event -> ucall -> Z;
  o_read : list event -> Z -> nat -> option (list Z);
  o_stat : list event -> Z -> option stat
}.
Definition ask (K : oracle) (c : ucall) : M (list event) Z := fun h => let r := o_int K h c in Ok r (h ++ [(c, r)]).
Definition count {A} (r : option (list A)) : Z := match r with Some bs => Z.of_nat (length bs) | None => -1 end.

(** The calls with the answers of [K], remembered in order. *)
#[export] Instance hist_sys (K : oracle) : Sys (list event) := {
  u_fork := ask K CFork;
  u_wait := ask K CWait;
  u_kill pid := ask K (CKill pid);
  u_sleep n := ask K (CSleep n);
  u_exec path argv := ask K (CExec path argv);
  u_open path mode := ask K (COpen path mode);
  u_close fd := ask K (CClose fd);
  u_read fd n := fun h => let r := o_read K h fd n in Ok r (h ++ [(CRead fd n, count r)]);
  u_write fd bs := ask K (CWrite fd bs);
  u_fstat fd := fun h => let r := o_stat K h fd in Ok r (h ++ [(CFstat fd, match r with Some _ => 0 | None => -1 end)]);
  u_dup fd := ask K (CDup fd);
  u_mknod path major minor := ask K (CMknod path major minor);
  u_unlink path := ask K (CUnlink path);
  u_link old new := ask K (CLink old new);
  u_mkdir path := ask K (CMkdir path)
}.

Section hist.
Context (K : oracle).
#[local] Existing Instance hist_sys.

(** A message: one [write] for each character, nothing else. *)
Definition says (fd : Z) (bs : list Z) (h h' : list event) : Prop :=
  exists rs, length rs = length bs /\ h' = h ++ zip_with (fun c r => (CWrite fd [c], r)) bs rs.
Lemma emit_says fd bs : forall h, exists h', emit (W:=list event) (H:=hist_sys K) ((fun c => (fd, c)) <$> bs) h = Ok tt h' /\ says fd bs h h'.
Proof.
  induction bs as [|c bs IH]; intros h; cbn [fmap list_fmap emit].
  - exists h. split; [done|]. exists []. by rewrite app_nil_r.
  - destruct (IH (h ++ [(CWrite fd [c], o_int K h (CWrite fd [c]))])) as (h' & E & rs & Hl & ->).
    eexists. split; [exact E|]. exists (o_int K h (CWrite fd [c]) :: rs). cbn. split; [lia|]. by rewrite <- app_assoc.
Qed.
Lemma say_says fd fmt ap out h : Forall fchar fmt -> Forall vbyte ap -> urender (lex fmt) ap = Some out ->
  exists h', say (H:=hist_sys K) fd fmt ap h = Ok tt h' /\ says fd out h h'.
Proof. intros Hf Ha Ho. unfold say, fprintf. rewrite vprintf_renders, Ho by done. rewrite app_nil_l. apply emit_says. Qed.
End hist.

(** The last call of a history that is not output. *)
Definition is_write (e : event) : Prop := exists fd bs, e.1 = CWrite fd bs.
Definition last_call (e : event) (h : list event) : Prop := exists h0 es, h = h0 ++ e :: es /\ Forall is_write es.
Lemma last_call_snoc e h : last_call e (h ++ [e]).
Proof. by exists h, []. Qed.
Lemma last_call_says e fd bs h h' : says fd bs h h' -> last_call e h -> last_call e h'.
Proof.
  intros (rs & _ & ->) (h0 & es & -> & Hes). exists h0. eexists. split; [by rewrite <- app_assoc|]. apply Forall_app_2; [done|].
  clear Hes. revert rs. induction bs as [|c bs IH]; intros [|r rs]; constructor; [by exists fd, [c]|apply IH].
Qed.

(** ** Watching a history *)

(** The state in which an observer is after the calls; [None] when it saw one that it
    does not allow. *)
Fixpoint watch {S} (f : S -> event -> option S) (s : S) (h : list event) : option S :=
  match h with [] => Some s | e :: h => s' ← f s e; watch f s' h end.
Lemma watch_app {S} (f : S -> event -> option S) s h h' : watch f s (h ++ h') = (s' ← watch f s h; watch f s' h').
Proof. revert s. induction h as [|e h IH]; intros s; [done|]. cbn. destruct (f s e); cbn; [apply IH|done]. Qed.
Lemma watch_snoc {S} (f : S -> event -> option S) s h s' e : watch f s h = Some s' -> watch f s (h ++ [e]) = f s' e.
Proof. intros E. rewrite watch_app, E. cbn. by destruct (f s' e). Qed.
Lemma watch_says {S} (f : S -> event -> option S) s s' fd bs h h' :
  (forall s c r, f s (CWrite fd [c], r) = Some s) -> says fd bs h h' -> watch f s h = Some s' -> watch f s h' = Some s'.
Proof.
  intros Hf (rs & _ & ->) E. rewrite watch_app, E. cbn. clear E. revert rs.
  induction bs as [|c bs IH]; intros [|r rs]; try done. cbn. rewrite Hf. cbn. apply IH.
Qed.

Section wp.
Context (K : oracle).
Implicit Types Q : Z -> list event -> Prop.
Lemma wp_ask c Q h : Q (o_int K h c) (h ++ [(c, o_int K h c)]) -> wp (ask K c) Q h.
Proof. done. Qed.
Lemma wp_say fd fmt ap out (Q : unit -> list event -> Prop) h :
  Forall fchar fmt -> Forall vbyte ap -> urender (lex fmt) ap = Some out ->
  (forall h', says fd out h h' -> Q tt h') -> wp (say (H:=hist_sys K) fd fmt ap) Q h.
Proof. intros Hf Ha Ho HQ. destruct (say_says K fd fmt ap out h Hf Ha Ho) as (h' & E & Hs). by eapply wp_run; [exact E|apply HQ]. Qed.
End wp.

(** A format that is written out. *)
Lemma format_ok fmt : forallb (fun c => (0 <? c) && (c <? 256)) fmt = true -> Forall fchar fmt.
Proof. intros E%Is_true_true%forallb_True. eapply Forall_impl; [exact E|]. cbn. intros c Hc. apply Is_true_true in Hc. unfold fchar, is_byte. lia. Qed.
Ltac format := apply format_ok; reflexivity.
