(* ===== verification/UserCmds.v ===== *)
(** * Commands: [user/rm.c], [mkdir.c], [ln.c], [kill.c], [sleep.c], [zombie.c], [xargs.c], [ls.c], [init.c]

    Programs that are sequences of system calls.  [args] is [argv] without [argv[0]]; the
    result of a program is the status with which it exits.  The theorems are about the
    calls that a program makes, whatever the kernel answers. *)

From stdpp Require Import base list strings.
From S2P Require Import Prelude Riscv Mem Fs FsFile Printf Ulib Uprintf Find Usys.

(** ** The programs *)

Definition CONSOLE_MAJOR : Z := 1.
(** What [init] does next: start a shell, or wait for the one with this [pid]. *)
Inductive istate := IStart | IWait (pid : Z).

Section cmds.
Context {W : Type} `{Sys W}.

(** The loop of rm and mkdir: up to the first failure. *)
Fixpoint until_fails (call : list Z -> M W Z) (msg : list Z) (args : list (list Z)) : M W unit :=
  match args with
  | [] => return tt
  | a :: rest => do r <- call a; if r <? 0 then say 2 msg [VStr (Some a)] else until_fails call msg rest
  end.
Definition rm_main (args : list (list Z)) : M W Z :=
  match args with
  | [] => say 2 (line "Usage: rm files...") [] ;;; return 1
  | _ => until_fails u_unlink (line "rm: %s failed to delete") args ;;; return 0
  end.
Definition mkdir_main (args : list (list Z)) : M W Z :=
  match args with
  | [] => say 2 (line "Usage: mkdir files...") [] ;;; return 1
  | _ => until_fails u_mkdir (line "mkdir: %s failed to create") args ;;; return 0
  end.

Definition ln_main (args : list (list Z)) : M W Z :=
  match args with
  | [old; new] =>
      do r <- u_link old new;
      (if r <? 0 then say 2 (line "link %s %s: failed") [VStr (Some old); VStr (Some new)] else return tt) ;;;
      return 0
  | _ => say 2 (line "Usage: ln old new") [] ;;; return 1
  end.

(** An overflow in [atoi] is undefined. *)
Fixpoint kill_all (args : list (list Z)) : M W unit :=
  match args with
  | [] => return tt
  | a :: rest => match atoi_str a 0 with Some pid => u_kill pid ;;; kill_all rest | None => undefined end
  end.
Definition kill_main (args : list (list Z)) : M W Z :=
  match args with
  | [] => say 2 (line "usage: kill pid...") [] ;;; return 1
  | _ => kill_all args ;;; return 0
  end.

(** [ticks] is a [uint]; the call takes an [int]. *)
Definition sleep_main (args : list (list Z)) : M W Z :=
  match args with
  | [a] =>
      match atoi_str a 0 with
      | Some n => let ticks := u32 n in u_sleep (s32 ticks) ;;; return 0
      | None => undefined
      end
  | _ => say 2 (line "Usage: sleep TICKS") [] ;;; return 1
  end.

Definition zombie_main : M W Z :=
  do pid <- u_fork;
  (if pid >? 0 then u_sleep 5 ;;; return tt else return tt) ;;;
  return 0.

Definition xargs_main (args : list (list Z)) : M W Z := return 0.

(** *** ls *)

(** The same text as in [find.c]. *)
Definition ls_fmtname (path : list Z) : list Z := fmtname path.
Definition ls_line (path : list Z) (st : stat) : M W unit :=
  say 1 (line "%s %d %d %d") [VStr (Some (ls_fmtname path)); VNum (st_type st); VNum (st_ino st); VNum (s32 (st_size st))].
(** The entries of the directory open as [fd]; [path] ends before the slash. *)
Fixpoint ls_dir (fuel : nat) (fd : Z) (path : list Z) : M W unit :=
  do r <- u_read fd (Z.to_nat sizeof_dirent);
  match r with
  | Some de =>
      if negb (length de =? Z.to_nat sizeof_dirent)%nat then return tt
      else
        match fuel with
        | O => fun _ => Diverge
        | S f =>
            (if de_inum de =? 0 then return tt
             else
               let buf := path ++ SLASH :: cstr (take (Z.to_nat DIRSIZ) (drop 2 de)) in
               do st <- ustat buf;
               match st with
               | None => say 1 (line "ls: cannot stat %s") [VStr (Some buf)]
               | Some st => ls_line buf st
               end) ;;;
            ls_dir f fd path
        end
  | None => return tt
  end.
Definition ls (fuel : nat) (path : list Z) : M W unit :=
  do fd <- u_open path O_RDONLY;
  if fd <? 0 then say 2 (line "ls: cannot open %s") [VStr (Some path)]
  else
    do st <- u_fstat fd;
    match st with
    | None => say 2 (line "ls: cannot stat %s") [VStr (Some path)] ;;; u_close fd ;;; return tt
    | Some st =>
        (if (st_type st =? T_DEVICE) || (st_type st =? T_FILE) then ls_line path st
         else if st_type st =? T_DIR then
           if (512 <? length path + 1 + Z.to_nat DIRSIZ + 1)%nat then say 1 (line "ls: path too long") []
           else ls_dir fuel fd path
         else return tt) ;;;
        u_close fd ;;; return tt
    end.
Fixpoint ls_all (fuel : nat) (args : list (list Z)) : M W unit :=
  match args with [] => return tt | a :: rest => ls fuel a ;;; ls_all fuel rest end.
Definition ls_main (fuel : nat) (args : list (list Z)) : M W Z :=
  match args with
  | [] => ls fuel (chars ".") ;;; return 0
  | _ => ls_all fuel args ;;; return 0
  end.

(** *** init *)

Definition init_boot : M W unit :=
  do fd <- u_open (chars "console") O_RDWR;
  (if fd <? 0 then u_mknod (chars "console") CONSOLE_MAJOR 0 ;;; u_open (chars "console") O_RDWR ;;; return tt else return tt) ;;;
  u_dup 0 ;;; u_dup 0 ;;; return tt.
(** One turn of the outer loop up to the [wait], or one turn of the inner loop; [inr] is
    the status of an exit.  [exec] returns only when it fails. *)
Definition init_step (st : istate) : M W (istate + Z) :=
  match st with
  | IStart =>
      say 1 (line "init: starting sh") [] ;;;
      do pid <- u_fork;
      if pid <? 0 then say 1 (line "init: fork failed") [] ;;; return (inr 1)
      else if pid =? 0 then
        u_exec (chars "sh") [chars "sh"] ;;;
        say 1 (line "init: exec sh failed") [] ;;;
        return (inr 1)
      else return (inl (IWait pid))
  | IWait pid =>
      do wpid <- u_wait;
      if wpid =? pid then return (inl IStart)
      else if wpid <? 0 then say 1 (line "init: wait returned an error") [] ;;; return (inr 1)
      else return (inl (IWait pid))
  end.
(** The first [n] turns. *)
Fixpoint init_loop (n : nat) (st : istate) : M W (istate + Z) :=
  match n with
  | O => return (inl st)
  | S n => do r <- init_step st; match r with inl st' => init_loop n st' | inr x => return (inr x) end
  end.
Definition init_main (n : nat) : M W (istate + Z) := init_boot ;;; init_loop n IStart.
End cmds.

(** ** The calls they make *)

(** What rm and mkdir do with their arguments: the call for each in order up to the
    first that fails, and then a message. *)
Definition in_turn (c : list Z -> ucall) (text : list Z -> list Z) (args : list (list Z)) (h h' : list event) : Prop :=
  exists rs, Forall (fun r => 0 <= r) rs /\
    let h1 := h ++ zip_with (fun a r => (c a, r)) args rs in
    (length rs = length args /\ h' = h1 \/
     exists a r, args !! length rs = Some a /\ r < 0 /\ says 2 (text a) (h1 ++ [(c a, r)]) h').

(** Who the shell of [init] is: at most one at a time, and [wait] only with one. *)
Definition shell_watch (sh : option Z) (e : event) : option (option Z) :=
  match e with
  | (CFork, pid) => match sh with None => Some (if pid >? 0 then Some pid else None) | Some _ => None end
  | (CWait, w) => match sh with Some pid => Some (if w =? pid then None else Some pid) | None => None end
  | _ => Some sh
  end.
Definition shell_of (st : istate) : option Z := match st with IStart => None | IWait pid => Some pid end.
(** The descriptors opened and not closed, the last first; only the last may be closed. *)
Definition fd_watch (fds : list Z) (e : event) : option (list Z) :=
  match e with
  | (COpen _ _, fd) => Some (if fd <? 0 then fds else fd :: fds)
  | (CClose fd, _) => match fds with x :: fds => if x =? fd then Some fds else None | [] => None end
  | _ => Some fds
  end.

Section calls.
Context (K : oracle).
#[local] Existing Instance hist_sys.

Lemma until_fails_run (c : list Z -> ucall) msg text args : forall h, Forall (Forall is_byte) args ->
  Forall fchar msg -> (forall a, urender (lex msg) [VStr (Some a)] = Some (text a)) ->
  exists h', until_fails (H:=hist_sys K) (fun a => ask K (c a)) msg args h = Ok tt h' /\ in_turn c text args h h'.
Proof.
  intros h Ha Hf Ht. revert h. induction Ha as [|a args Hb _ IH]; intros h; cbn [until_fails].
  - exists h. split; [done|]. exists []. split; [done|]. left. by rewrite app_nil_r.
  - unfold bind, ask. set (r := o_int K h (c a)). destruct (Z.ltb_spec r 0).
    + destruct (say_says K 2 msg [VStr (Some a)] (text a) (h ++ [(c a, r)]) Hf ltac:(by constructor) (Ht a)) as (h' & E & Hs).
      exists h'. split; [done|]. exists []. split; [done|]. right. exists a, r. by rewrite app_nil_r.
    + destruct (IH (h ++ [(c a, r)])) as (h' & E & rs & Hrs & Hc). exists h'. split; [exact E|]. exists (r :: rs). split; [by constructor|].
      cbn [zip_with length lookup]. cbn zeta in Hc. rewrite <- app_assoc in Hc. destruct Hc as [[Hl Hc]|(a' & r' & ?)]; [left; by split; [lia|]|right; by exists a', r'].
Qed.
Lemma rm_text a : urender (lex (line "rm: %s failed to delete")) [VStr (Some a)] = Some (chars "rm: " ++ c_string a ++ line " failed to delete").
Proof. done. Qed.
Lemma mkdir_text a : urender (lex (line "mkdir: %s failed to create")) [VStr (Some a)] = Some (chars "mkdir: " ++ c_string a ++ line " failed to create").
Proof. done. Qed.
(** [rm] removes its arguments in order; when one cannot be removed it says so, leaves
    the rest alone and still exits with 0. *)
Theorem rm_deletes (a : list Z) (args : list (list Z)) (h : list event) : Forall (Forall is_byte) (a :: args) ->
  exists h', rm_main (H:=hist_sys K) (a :: args) h = Ok 0 h' /\
    in_turn CUnlink (fun a => chars "rm: " ++ c_string a ++ line " failed to delete") (a :: args) h h'.
Proof.
  intros Ha. destruct (until_fails_run CUnlink (line "rm: %s failed to delete") _ _ h Ha ltac:(format) rm_text) as (h' & E & Ht).
  exists h'. split; [|done]. unfold rm_main. by erewrite bind_Ok by exact E.
Qed.
(** [mkdir] likewise. *)
Theorem mkdir_creates (a : list Z) (args : list (list Z)) (h : list event) : Forall (Forall is_byte) (a :: args) ->
  exists h', mkdir_main (H:=hist_sys K) (a :: args) h = Ok 0 h' /\
    in_turn CMkdir (fun a => chars "mkdir: " ++ c_string a ++ line " failed to create") (a :: args) h h'.
Proof.
  intros Ha. destruct (until_fails_run CMkdir (line "mkdir: %s failed to create") _ _ h Ha ltac:(format) mkdir_text) as (h' & E & Ht).
  exists h'. split; [|done]. unfold mkdir_main. by erewrite bind_Ok by exact E.
Qed.

(** [kill] sends to the process of each argument, in order, whatever the answers are. *)
Theorem kill_sends (args : list (list Z)) (pids : list Z) (h : list event) : args <> [] ->
  mapM (fun a => atoi_str a 0) args = Some pids ->
  exists rs, length rs = length pids /\
    kill_main (H:=hist_sys K) args h = Ok 0 (h ++ zip_with (fun pid r => (CKill pid, r)) pids rs).
Proof.
  intros Hne Hp. cut (exists rs, length rs = length pids /\ kill_all (H:=hist_sys K) args h = Ok tt (h ++ zip_with (fun pid r => (CKill pid, r)) pids rs)).
  { intros (rs & Hl & E). exists rs. split; [done|]. unfold kill_main. destruct args; [done|]. by erewrite bind_Ok by exact E. }
  clear Hne. revert pids h Hp. induction args as [|a args IH]; intros pids h Hp; cbn in Hp.
  - injection Hp as <-. exists []. split; [done|]. by rewrite app_nil_r.
  - cbn [kill_all]. destruct (atoi_str a 0) as [pid|]; [|done]. cbn in Hp. destruct (mapM _ args) as [ps|] eqn:E; [|done]. injection Hp as <-.
    destruct (IH ps (h ++ [(CKill pid, o_int K h (CKill pid))]) eq_refl) as (rs & Hl & E'). exists (o_int K h (CKill pid) :: rs). split; [cbn; lia|].
    cbn [zip_with]. rewrite <- app_assoc in E'. exact E'.
Qed.

(** *** init *)

(** A message does not change who the shell is, nor what the last call was. *)
Lemma wp_init_say msg out (Q : unit -> list event -> Prop) sh h : Forall fchar msg -> urender (lex msg) [] = Some out ->
  watch shell_watch None h = Some sh ->
  (forall h', watch shell_watch None h' = Some sh -> (forall e, last_call e h -> last_call e h') -> Q tt h') -> wp (say (H:=hist_sys K) 1 msg []) Q h.
Proof.
  intros Hf Ho E HQ. eapply wp_say; [done|done|exact Ho|]. intros h' Hs. apply HQ; [by eapply watch_says|]. intros e. by eapply last_call_says.
Qed.
(** Why [init] may end: no process, no child, or it is the child and there is no shell. *)
Definition gives_up (e : event) : Prop :=
  match e with (CFork, r) | (CWait, r) => r < 0 | (CExec p argv, _) => p = chars "sh" /\ argv = [chars "sh"] | _ => False end.
Definition init_post (r : istate + Z) (h : list event) : Prop :=
  match r with
  | inl st => watch shell_watch None h = Some (shell_of st) /\ match st with IWait pid => 0 < pid | IStart => True end
  | inr x => x = 1 /\ (exists sh, watch shell_watch None h = Some sh) /\ exists e, last_call e h /\ gives_up e
  end.

Lemma init_gives_up msg out sh h e : Forall fchar msg -> urender (lex msg) [] = Some out -> gives_up e ->
  watch shell_watch None (h ++ [e]) = Some sh ->
  wp (say (H:=hist_sys K) 1 msg [] ;;; return (inr 1)) init_post (h ++ [e]).
Proof.
  intros Hf Ho He Hw. apply wp_bind. eapply wp_init_say; [done|exact Ho|exact Hw|]. intros h' Hw' Hl. apply wp_ret.
  split; [done|]. split; [by exists sh|]. exists e. split; [|done]. apply Hl, last_call_snoc.
Qed.
Lemma init_step_run st h : init_post (inl st) h -> wp (init_step (H:=hist_sys K) st) init_post h.
Proof.
  intros [Hw Hst]. destruct st as [|pid]; cbn [init_step shell_of] in *.
  - apply wp_bind. eapply wp_init_say; [format|reflexivity|exact Hw|]. intros h1 Hw1 _. clear h Hw. rename h1 into h, Hw1 into Hw.
    apply wp_bind, wp_ask. set (pid := o_int K h CFork). pose proof (watch_snoc _ _ _ _ (CFork, pid) Hw) as Hf. cbn [shell_watch] in Hf.
    destruct (Z.ltb_spec pid 0); [|destruct (Z.eqb_spec pid 0) as [E|]].
    + eapply init_gives_up; [format|reflexivity|done|exact Hf].
    + apply wp_bind, wp_ask. eapply init_gives_up; [format|reflexivity|done|]. erewrite watch_snoc by exact Hf. done.
    + apply wp_ret. destruct (Z.gtb_spec pid 0); [done|lia].
  - apply wp_bind, wp_ask. set (w := o_int K h CWait). pose proof (watch_snoc _ _ _ _ (CWait, w) Hw) as Hf. cbn [shell_watch] in Hf.
    destruct (Z.eqb_spec w pid); [by apply wp_ret|]. destruct (Z.ltb_spec w 0); [|by apply wp_ret].
    eapply init_gives_up; [format|reflexivity|done|exact Hf].
Qed.
Lemma init_loop_run n : forall st h, init_post (inl st) h -> wp (init_loop (H:=hist_sys K) n st) init_post h.
Proof.
  induction n as [|n IH]; intros st h Hs; cbn [init_loop]; [by apply wp_ret|]. apply wp_bind.
  eapply wp_mono; [|by apply init_step_run]. intros [st'|x] h' Hp; [by apply IH|by apply wp_ret].
Qed.
Lemma wp_init_ask c (Q : Z -> list event -> Prop) h :
  (forall sh r, shell_watch sh (c, r) = Some sh) -> watch shell_watch None h = Some None ->
  (forall r h', watch shell_watch None h' = Some None -> Q r h') -> wp (ask K c) Q h.
Proof. intros Hc Hw HQ. apply wp_ask, HQ. erewrite watch_snoc by exact Hw. apply Hc. Qed.
Lemma init_boot_run : wp (init_boot (H:=hist_sys K)) (fun _ h => watch shell_watch None h = Some None) [].
Proof.
  assert (forall h, watch shell_watch None h = Some None ->
    wp (ask K (CDup 0) ;;; ask K (CDup 0) ;;; return tt) (fun _ h => watch shell_watch None h = Some None) h) as HD.
  { intros h Hw. do 2 (apply wp_bind, wp_init_ask; [done|done|]; intros _ h1 Hw1; clear h Hw; rename h1 into h, Hw1 into Hw). by apply wp_ret. }
  apply wp_bind, wp_init_ask; [done|done|]. intros r h Hw. apply wp_bind.
  destruct (r <? 0); [|by apply wp_ret, HD].
  do 2 (apply wp_bind, wp_init_ask; [done|done|]; intros _ h1 Hw1; clear h Hw; rename h1 into h, Hw1 into Hw). by apply wp_ret, HD.
Qed.
(** [init], for any number of turns and whatever the kernel answers: it forks only when
    the last shell was reaped and waits only for a shell, so there is one shell at a
    time and an orphan that is reaped starts no other; it ends only when [fork] or [wait]
    failed, or in the child when [exec] returned, and then with status 1. *)
Theorem init_one_shell (n : nat) : exists r h, init_main (H:=hist_sys K) n [] = Ok r h /\ init_post r h.
Proof.
  apply wp_Ok. apply wp_bind. eapply wp_mono; [|exact init_boot_run]. intros [] h Hw. by apply init_loop_run.
Qed.
End calls.

(** *** ls *)

(** The reads that gave a directory entry. *)
Definition is_entry (e : event) : bool := match e with (CRead _ n, r) => (n =? 16)%nat && (r =? 16) | _ => false end.
Definition entries_read (h : list event) : nat := length (filter is_entry h).

Section ls.
Context (K : oracle) (N : nat).
(** Directories end: after [N] entries there are no more.  What is read is bytes. *)
Context (Hend : forall h fd, (N <= entries_read h)%nat -> count (o_read K h fd (Z.to_nat sizeof_dirent)) <> sizeof_dirent).
Context (Hbytes : forall h fd n bs, o_read K h fd n = Some bs -> Forall is_byte bs).
#[local] Existing Instance hist_sys.

(** The descriptors [fds] are open, and [k] entries were read or more. *)
Definition ls_inv (fds : list Z) (k : nat) (h : list event) : Prop := watch fd_watch [] h = Some fds /\ (k <= entries_read h)%nat.
Lemma entries_read_app h h' : entries_read (h ++ h') = (entries_read h + entries_read h')%nat.
Proof. unfold entries_read. by rewrite filter_app, length_app. Qed.
Lemma ls_inv_snoc fds fds' k h e : ls_inv fds k h -> fd_watch fds e = Some fds' -> ls_inv fds' k (h ++ [e]).
Proof. intros [Hw Hk] He. split; [by erewrite watch_snoc by exact Hw|]. rewrite entries_read_app. lia. Qed.
Lemma wp_ls_say fd msg ap out (Q : unit -> list event -> Prop) fds k h : Forall fchar msg -> Forall vbyte ap -> urender (lex msg) ap = Some out ->
  ls_inv fds k h -> (forall h', ls_inv fds k h' -> Q tt h') -> wp (say (H:=hist_sys K) fd msg ap) Q h.
Proof.
  intros Hf Ha Ho [Hw Hk] HQ. eapply wp_say; [done|done|exact Ho|]. intros h' Hs. apply HQ. split; [by eapply watch_says|].
  destruct Hs as (rs & _ & ->). rewrite entries_read_app. lia.
Qed.
Lemma fmtname_bytes path : Forall is_byte path -> Forall is_byte (fmtname path).
Proof.
  intros H. unfold fmtname. cbn zeta. case_match; [by apply Forall_drop|]. apply Forall_app_2; [by apply Forall_drop|]. apply Forall_replicate. unfold is_byte. lia.
Qed.
Lemma wp_ls_line path st (Q : unit -> list event -> Prop) fds k h : Forall is_byte path -> ls_inv fds k h ->
  (forall h', ls_inv fds k h' -> Q tt h') -> wp (ls_line (H:=hist_sys K) path st) Q h.
Proof. intros Hp Hi HQ. eapply wp_ls_say; [format| |reflexivity|exact Hi|exact HQ]. repeat constructor. by apply fmtname_bytes. Qed.

Lemma wp_ls_fstat fd (Q : option stat -> list event -> Prop) fds k h : ls_inv fds k h ->
  (forall r h', ls_inv fds k h' -> Q r h') -> wp (u_fstat (Sys:=hist_sys K) fd) Q h.
Proof. intros Hi HQ. apply HQ. by eapply ls_inv_snoc. Qed.
(** [stat] leaves the descriptors as they were. *)
Lemma wp_ustat path (Q : option stat -> list event -> Prop) fds k h : ls_inv fds k h ->
  (forall r h', ls_inv fds k h' -> Q r h') -> wp (ustat (H:=hist_sys K) path) Q h.
Proof.
  intros Hi HQ. apply wp_bind, wp_ask. set (fd := o_int K h _). pose proof (ls_inv_snoc fds _ k h (COpen path O_RDONLY, fd) Hi eq_refl) as H1.
  destruct (fd <? 0); [by apply wp_ret, HQ|]. apply wp_bind. eapply wp_ls_fstat; [exact H1|]. intros r h1 H2.
  apply wp_bind, wp_ask, wp_ret, HQ. eapply ls_inv_snoc; [exact H2|]. cbn. by rewrite Z.eqb_refl.
Qed.
Lemma cstr_is_bytes l : Forall is_byte l -> Forall is_byte (cstr l).
Proof. induction 1 as [|c l Hc _ IH]; cbn; [done|]. case_match; by constructor. Qed.

Lemma wp_read fd n (Q : option (list Z) -> list event -> Prop) h :
  Q (o_read K h fd n) (h ++ [(CRead fd n, count (o_read K h fd n))]) -> wp (u_read (Sys:=hist_sys K) fd n) Q h.
Proof. done. Qed.
Lemma ls_dir_run fuel fd path fds : Forall is_byte path -> forall k h, (N <= k + fuel)%nat -> ls_inv fds k h ->
  wp (ls_dir (H:=hist_sys K) fuel fd path) (fun _ h' => ls_inv fds k h') h.
Proof.
  intros Hp. induction fuel as [|f IH]; intros k h HN Hi; cbn [ls_dir]; apply wp_bind, wp_read; destruct Hi as [Hw Hk];
    pose proof (Hend h fd) as He; destruct (o_read K h fd (Z.to_nat sizeof_dirent)) as [de|] eqn:E; try (by apply wp_ret; eapply ls_inv_snoc);
    (destruct (Nat.eqb_spec (length de) (Z.to_nat sizeof_dirent)) as [El|]; cbn [negb]; [|by apply wp_ret; eapply ls_inv_snoc]).
  - exfalso. apply He; [lia|]. cbn. rewrite El. done.
  - set (h1 := h ++ _). assert (ls_inv fds (S k) h1) as Hi1.
    { split; [unfold h1; by erewrite watch_snoc by exact Hw|]. unfold h1. rewrite entries_read_app. cbn [count]. rewrite El. change (entries_read _) with 1%nat at 2. lia. }
    assert (forall h2, ls_inv fds (S k) h2 -> wp (ls_dir (H:=hist_sys K) f fd path) (fun _ h' => ls_inv fds k h') h2) as HK.
    { intros h2 H2. eapply wp_mono; [|apply (IH (S k)); [lia|exact H2]]. intros _ h3 [? ?]. split; [done|lia]. }
    apply wp_bind. destruct (de_inum de =? 0); [by apply wp_ret, HK|]. cbn zeta.
    assert (Forall is_byte (path ++ SLASH :: cstr (take (Z.to_nat DIRSIZ) (drop 2 de)))) as Hb.
    { apply Forall_app_2; [done|]. constructor; [done|]. apply cstr_is_bytes, Forall_take, Forall_drop. by eapply Hbytes. }
    apply wp_bind. eapply wp_ustat; [exact Hi1|]. intros [st|] h2 H2; [by eapply wp_ls_line|].
    eapply wp_ls_say; [format|by repeat constructor|reflexivity|exact H2|exact HK].
Qed.
Lemma ls_run fuel path fds k h : Forall is_byte path -> (N <= k + fuel)%nat -> ls_inv fds k h ->
  wp (ls (H:=hist_sys K) fuel path) (fun _ h' => ls_inv fds k h') h.
Proof.
  intros Hp HN Hi. apply wp_bind, wp_ask. set (fd := o_int K h _). pose proof (ls_inv_snoc fds _ k h (COpen path O_RDONLY, fd) Hi eq_refl) as H1.
  destruct (fd <? 0). { eapply wp_ls_say; [format|by repeat constructor|reflexivity|exact H1|done]. }
  assert (forall h2, ls_inv (fd :: fds) k h2 -> wp (ask K (CClose fd) ;;; return tt) (fun _ h' => ls_inv fds k h') h2) as HC.
  { intros h2 H2. apply wp_bind, wp_ask, wp_ret. eapply ls_inv_snoc; [exact H2|]. cbn. by rewrite Z.eqb_refl. }
  apply wp_bind. eapply wp_ls_fstat; [exact H1|]. clear H1. intros [st|] h1 H1.
  - apply wp_bind. case_match; [by eapply wp_ls_line|]. case_match; [|by apply wp_ret, HC].
    case_match; [eapply wp_ls_say; [format|by repeat constructor|reflexivity|exact H1|exact HC]|].
    eapply wp_mono; [|by eapply ls_dir_run]. intros [] h2. apply HC.
  - apply wp_bind. eapply wp_ls_say; [format|by repeat constructor|reflexivity|exact H1|exact HC].
Qed.
Lemma ls_all_run fuel fds args : Forall (Forall is_byte) args -> (N <= fuel)%nat -> forall h, ls_inv fds 0 h ->
  wp (ls_all (H:=hist_sys K) fuel args) (fun _ h' => ls_inv fds 0 h') h.
Proof.
  intros Ha HN. induction Ha as [|a args Hp _ IH]; intros h Hi; cbn [ls_all]; [by apply wp_ret|].
  apply wp_bind. eapply wp_mono; [|apply ls_run; [done|lia|exact Hi]]. intros [] h1 H1. by apply IH.
Qed.
(** [ls], on any arguments and whatever the kernel answers: when the directories end, it
    ends, with status 0; each descriptor that it opened, by itself or in [stat], is closed
    once, the last one first, and no other is closed. *)
Theorem ls_closes (fuel : nat) (args : list (list Z)) (fds : list Z) (h : list event) :
  Forall (Forall is_byte) args -> (N <= fuel)%nat -> watch fd_watch [] h = Some fds ->
  exists h', ls_main (H:=hist_sys K) fuel args h = Ok 0 h' /\ watch fd_watch [] h' = Some fds.
Proof.
  intros Ha HN Hw. assert (ls_inv fds 0 h) as Hi by (split; [done|lia]).
  destruct (wp_Ok (ls_main (H:=hist_sys K) fuel args) (fun r h' => r = 0 /\ ls_inv fds 0 h') h) as (r & h' & E & -> & [? _]); [|by exists h'].
  destruct args as [|a args]; apply wp_bind; (eapply (wp_mono _ (fun _ h1 => ls_inv fds 0 h1)); [intros [] h1 H1; by apply wp_ret|]).
  - apply ls_run; [|lia|done]. repeat constructor; unfold is_byte; lia.
  - by apply ls_all_run.
Qed.
End ls.

(** A kernel with one directory, open as 3, of two entries, one of them unused; the file
    in it is open as 4. *)
Definition ex_entry (inum : Z) (name : string) : list Z := [inum; 0] ++ take 14 (chars name ++ replicate 14 0).
Definition ex_kernel : oracle := mkOracle
  (fun h c => match c with COpen p _ => if (length p =? 1)%nat then 3 else 4 | CWrite _ bs => 1 | _ => 0 end)
  (fun h fd n => if fd =? 3 then match entries_read h with 0%nat => Some (ex_entry 0 "old") | 1%nat => Some (ex_entry 7 "README") | _ => None end else None)
  (fun h fd => if fd =? 3 then Some (mkStat 1 1 1 1 32) else Some (mkStat 1 7 2 1 2305)).
Definition written (fd : Z) (h : list event) : list Z := flat_map (fun e => match e.1 with CWrite d bs => if d =? fd then bs else [] | _ => [] end) h.
Example ls_example : exists h, ls_main (H:=hist_sys ex_kernel) 2 [] [] = Ok 0 h /\ written 1 h = line "README         2 7 2305".
Proof. eexists. split; vm_compute; reflexivity. Qed.
Lemma ls_closes_witness : exists h', ls_main (H:=hist_sys ex_kernel) 2 [] [] = Ok 0 h' /\ watch fd_watch [] h' = Some [].
Proof.
  apply (ls_closes ex_kernel 2).
  - intros h fd Hh. cbn. destruct (fd =? 3); [|done]. destruct (entries_read h) as [|[|k]]; [lia|lia|done].
  - intros h fd n bs. cbn. destruct (fd =? 3); [|done]. destruct (entries_read h) as [|[|k]]; intros [= <-]; repeat constructor; cbn; lia.
  - constructor.
  - lia.
  - reflexivity.
Defined.

(** ** Random numbers: [do_rand] of [user/grind.c] *)
