(* ===== verification/Rand.v ===== *)
(** * Random numbers: [do_rand] and [rand] of [user/grind.c]

    The generator of Park and Miller, computed without overflow by Schrage's method. *)

From stdpp Require Import base list.
From S2P Require Import Prelude Riscv Printf.

Definition RAND_M : Z := 0x7fffffff.
(** The new state, which is also the result.  C division rounds to zero; [x] is positive. *)
Definition do_rand (ctx : Z) : Z :=
  let x := ctx mod 0x7ffffffe + 1 in
  let hi := Z.quot x 127773 in
  let lo := Z.rem x 127773 in
  let x := s64 (16807 * lo - 2836 * hi) in
  let x := if x <? 0 then s64 (x + 0x7fffffff) else x in
  u64 (x - 1).
(** [rand()] on [rand_next]: the result is an [int]. *)
Definition rand (rand_next : Z) : Z * Z := let x := do_rand rand_next in (s32 x, x).

Lemma s64_small x : - 2 ^ 63 <= x < 2 ^ 63 -> s64 x = x.
Proof. intros Hx. unfold s64. rewrite Z.mod_small; lia. Qed.
(** 1407677000 undoes the multiplication. *)
Lemma rand_undo x : 0 < x < RAND_M -> (1407677000 * ((16807 * x) mod RAND_M)) mod RAND_M = x.
Proof.
  unfold RAND_M. intros Hx. rewrite Z.mul_mod_idemp_r, Z.mul_assoc, <- Z.mul_mod_idemp_l by lia.
  change ((1407677000 * 16807) mod 0x7fffffff) with 1. rewrite Z.mul_1_l. apply Z.mod_small. lia.
Qed.
Lemma rand_nonzero x : 0 < x < RAND_M -> (16807 * x) mod RAND_M <> 0.
Proof. intros Hx E. pose proof (rand_undo x Hx) as U. rewrite E in U. change (0 = x) in U. lia. Qed.
(** Schrage's formula. *)
Lemma schrage x : 0 < x < RAND_M ->
  let y := 16807 * (x mod 127773) - 2836 * (x / 127773) in - RAND_M < y < RAND_M /\ (if y <? 0 then y + RAND_M else y) = (16807 * x) mod RAND_M.
Proof.
  intros Hx. cbn zeta. set (y := _ - _). unfold RAND_M in *. pose proof (Z.div_mod x 127773 ltac:(lia)) as E. pose proof (Z.mod_pos_bound x 127773 ltac:(lia)) as Hm.
  assert (0 <= x / 127773 <= 16807) as Hd by (split; [apply Z.div_pos; lia|]; apply Z.lt_succ_r, Z.div_lt_upper_bound; lia).
  assert (- 0x7fffffff < y < 0x7fffffff) as Hy by (unfold y; lia). split; [done|].
  destruct (Z.ltb_spec y 0).
  - apply (Z.mod_unique_pos _ _ (x / 127773 - 1)); [lia|unfold y; lia].
  - apply (Z.mod_unique_pos _ _ (x / 127773)); [lia|unfold y; lia].
Qed.
Lemma do_rand_eq ctx : do_rand ctx = (16807 * (ctx mod (RAND_M - 1) + 1)) mod RAND_M - 1 /\ 0 <= do_rand ctx <= 0x7ffffffd.
Proof.
  set (x := ctx mod (RAND_M - 1) + 1). assert (0 < x < RAND_M) as Hx.
  { unfold x. pose proof (Z.mod_pos_bound ctx (RAND_M - 1) ltac:(done)). lia. }
  destruct (schrage x Hx) as [Hy Es]. pose proof (rand_nonzero x Hx) as Hn. pose proof (Z.mod_pos_bound (16807 * x) RAND_M ltac:(done)) as Hb.
  cut (do_rand ctx = (16807 * x) mod RAND_M - 1); [intros ->; split; [done|]; unfold RAND_M in *; lia|].
  unfold do_rand. change 0x7ffffffe with (RAND_M - 1). fold x. rewrite Z.quot_div_nonneg, Z.rem_mod_nonneg by lia. cbn zeta. change 0x7fffffff with RAND_M.
  rewrite <- Es in Hb, Hn |- *. unfold RAND_M in *. rewrite (s64_small (16807 * _ - _)) by lia.
  destruct (_ <? 0); [rewrite s64_small by lia|]; unfold u64; rewrite Z.mod_small; lia.
Qed.
(** [do_rand], on any state, multiplies the state brought into the range by 7^5 modulo
    2^31 - 1; no step overflows, the result is in the range the comments give, and as an
    [int] it is the same.  On that range it is one to one: no state is lost. *)
Theorem do_rand_multiplies (ctx : Z) :
  do_rand ctx = (16807 * (ctx mod (RAND_M - 1) + 1)) mod RAND_M - 1 /\ 0 <= do_rand ctx <= 0x7ffffffd /\ (rand ctx).1 = do_rand ctx /\
  (0 <= ctx < RAND_M - 1 -> forall b, 0 <= b < RAND_M - 1 -> do_rand b = do_rand ctx -> b = ctx).
Proof.
  destruct (do_rand_eq ctx) as [E Hb]. split; [done|]. split; [done|]. split; [apply s32_small; lia|]. intros Hc b Hb' Eb.
  destruct (do_rand_eq b) as [E' _]. rewrite E, E', !(Z.mod_small _ (RAND_M - 1)) in Eb by done.
  assert (0 < ctx + 1 < RAND_M /\ 0 < b + 1 < RAND_M) as [Hx Hy] by lia. pose proof (rand_undo _ Hx) as Ux. pose proof (rand_undo _ Hy) as Uy.
  replace ((16807 * (b + 1)) mod RAND_M) with ((16807 * (ctx + 1)) mod RAND_M) in Uy by lia. lia.
Qed.
