(* ===== verification/Primes.v ===== *)
(** * The prime sieve: [user/primes.c]

    A chain of processes connected by pipes: main sends the numbers, each stage
    prints the first number it reads, starts the next stage and passes on the
    numbers that the first one does not divide.  The model has one cell per pipe, with
    the descriptors that processes have for it and the stage that reads from it; a step
    is one system call of one process.  All transfers are of [sizeof(int)] bytes and
    a pipe holds a whole number of them, so a pipe is a queue of numbers.  The kernel has
    [nfile] files and [nproc] processes for the program: [pipe] and [fork] fail when
    there are none left.  The code does not look at the result of [pipe] and goes on with an
    uninitialised [out_pipe]; the model stops there ([broken]), as it does when [fork] fails.
    No process is killed. *)

From Stdlib Require Import Znumtheory.
From stdpp Require Import base list strings.
From S2P Require Import Prelude Riscv Pipe.

Definition TOT_NUMS : Z := 280.
(** The numbers that a pipe holds. *)
Definition pipe_ints : nat := Z.to_nat (PIPESIZE / 4).

(** Where the process that reads from a pipe is: not yet forked; in front of
    [close(out_pipe[1])] and [close(in_pipe)] of the child; in [primes] in front of the first [read], with an error
    of it, in front of [close] at the end of the input; with the number read, after the print, after [pipe],
    after [fork]; in the loop, with a number to send; in front of the two
    calls of [close] after the loop; in [wait]; in front of [exit]; after it. *)
Inductive stage :=
| Unborn | Close1 | Close2 | Start | Bad | Quit
| Got (p : Z) | Printed (p : Z) | Piped (p : Z) | Forked (p : Z) | Run (p : Z) | Send (p x : Z)
| Eof | Eof2 | Wait | Exit | Done.
(** A pipe and the process that reads from it.  [wl] and [rl] tell whether the process on the
    left of it has a descriptor for the write and for the read end, [wo] and [ro]
    whether the process itself has, and [hp] whether it still has the read end of the pipe before. *)
Record cell := mkCell { inq : list Z; wl : bool; wo : bool; rl : bool; ro : bool; hp : bool; st : stage }.
(** [main]: in front of [pipe], [fork] and [close], about to send [i], in [wait], after [exit]. *)
Inductive generator := GPipe | GFork | GClose | Gen (i : Z) | GWait | GDone.
Record net := mkNet { gen : generator; cells : list cell; printed : list Z; broken : bool }.

Definition set_st (x : stage) (c : cell) : cell := mkCell (inq c) (wl c) (wo c) (rl c) (ro c) (hp c) x.
Definition set_inq q (c : cell) : cell := mkCell q (wl c) (wo c) (rl c) (ro c) (hp c) (st c).
Definition close_wl (c : cell) : cell := mkCell (inq c) false (wo c) (rl c) (ro c) (hp c) (st c).
Definition close_wo (c : cell) : cell := mkCell (inq c) (wl c) false (rl c) (ro c) (hp c) (st c).
Definition close_rl (c : cell) : cell := mkCell (inq c) (wl c) (wo c) false (ro c) (hp c) (st c).
Definition close_ro (c : cell) : cell := mkCell (inq c) (wl c) (wo c) (rl c) false (hp c) (st c).
Definition close_hp (c : cell) : cell := mkCell (inq c) (wl c) (wo c) (rl c) (ro c) false (st c).
Definition put (x : Z) (c : cell) : cell := set_inq (inq c ++ [x]) c.
Definition has_room (c : cell) : bool := (length (inq c) <? pipe_ints)%nat.
(** A new pipe; the child of [fork] has copies of the descriptors. *)
Definition new_pipe : cell := mkCell [] true false true false false Unborn.
Definition born (prev : bool) (c : cell) : cell := mkCell (inq c) (wl c) (wl c) (rl c) (rl c) prev Close1.
(** Somebody has the read end: the processes on both sides of the pipe, or the next one. *)
Definition has_reader (c : cell) (rest : list cell) : bool :=
  rl c || ro c || match rest with d :: _ => hp d | [] => false end.

(** [read(in_pipe, ...)] *)
Inductive rres := RGot (x : Z) (q : list Z) | REof | RErr | RBlock.
Definition read_in (c : cell) : rres :=
  if negb (ro c) then RErr
  else match inq c with x :: q => RGot x q | [] => if wl c || wo c then RBlock else REof end.

(** What a step of a process does: the cells after it and what it prints, nothing because it is blocked or
    has exited, or the failure of [pipe] or [fork]. *)
Inductive effect := Moved (cs : list cell) (out : list Z) | Blocked | Broken.
(** A step of the first stage of a chain; [files] and [slot] tell whether [pipe] finds two
    files and [fork] a process. *)
Definition primes (files slot : bool) (c : cell) (rest : list cell) : effect :=
  let to x c := Moved (set_st x c :: rest) [] in
  match st c, rest with
  | Close1, _ => to (if hp c then Close2 else Start) (close_wo c)
  | Close2, _ => to Start (close_hp c)
  | Start, _ =>
      match read_in c with
      | RGot x q => to (Got x) (set_inq q c)
      | REof => to Quit c
      | RErr => to Bad c
      | RBlock => Blocked
      end
  | Bad, _ => to Quit c
  | Quit, _ => to Exit (close_ro c)
  | Got p, _ => Moved (set_st (Printed p) c :: rest) [p]
  | Printed p, _ => if files then Moved (set_st (Piped p) c :: rest ++ [new_pipe]) [] else Broken
  | Piped p, d :: r => if slot then Moved (set_st (Forked p) c :: born true d :: r) [] else Broken
  | Forked p, d :: r => Moved (set_st (Run p) c :: close_rl d :: r) []
  | Run p, _ =>
      match read_in c with
      | RGot x q => to (if negb (x mod p =? 0) then Send p x else Run p) (set_inq q c)
      | REof | RErr => to Eof c
      | RBlock => Blocked
      end
  | Send p x, d :: r =>
      if negb (has_reader d r) then to (Run p) c
      else if has_room d then Moved (set_st (Run p) c :: put x d :: r) [] else Blocked
  | Eof, d :: r => Moved (set_st Eof2 c :: close_wl d :: r) []
  | Eof2, _ => to Wait (close_ro c)
  | Wait, d :: _ => match st d with Done => to Exit c | _ => Blocked end
  | Exit, _ => to Done (close_ro c)
  | _, _ => Blocked
  end.
Fixpoint stage_step (files slot : bool) (k : nat) (cs : list cell) {struct cs} : effect :=
  match cs, k with
  | [], _ => Blocked
  | c :: rest, O => primes files slot c rest
  | c :: rest, S k => match stage_step files slot k rest with Moved r o => Moved (c :: r) o | e => e end
  end.
(** A step of [main]. *)
Definition main (files slot : bool) (g : generator) (cs : list cell) : option (option (generator * list cell)) :=
  match g, cs with
  | GPipe, _ => Some (if files then Some (GFork, [new_pipe]) else None)
  | GFork, c :: r => Some (if slot then Some (GClose, born false c :: r) else None)
  | GClose, c :: r => Some (Some (Gen 2, close_rl c :: r))
  | Gen i, c :: r =>
      if i <=? TOT_NUMS then
        if negb (has_reader c r) then Some (Some (Gen (i + 1), cs))
        else if has_room c then Some (Some (Gen (i + 1), put i c :: r)) else None
      else Some (Some (GWait, close_wl c :: r))
  | GWait, c :: _ => match st c with Done => Some (Some (GDone, cs)) | _ => None end
  | _, _ => None
  end.

(** The files of the pipes, and the processes forked. *)
Fixpoint files_used (cs : list cell) : nat :=
  match cs with
  | [] => 0
  | c :: rest => (if wl c || wo c then 1 else 0) + (if has_reader c rest then 1 else 0) + files_used rest
  end.
Fixpoint procs_used (cs : list cell) : nat :=
  match cs with [] => 0 | c :: rest => match st c with Unborn => 0 | _ => 1 end + procs_used rest end.

Section limits.
Context (nfile nproc : nat).
(** A step of process [a]: 0 is [main], [k + 1] stage [k]. *)
Definition step (a : nat) (s : net) : option net :=
  let files := (files_used (cells s) + 2 <=? nfile)%nat in
  let slot := (procs_used (cells s) + 1 <=? nproc)%nat in
  if broken s then None
  else
    match a with
    | O => r ← main files slot (gen s) (cells s);
           Some (match r with Some (g, cs) => mkNet g cs (printed s) false | None => mkNet (gen s) (cells s) (printed s) true end)
    | S k => match stage_step files slot k (cells s) with
             | Moved cs o => Some (mkNet (gen s) cs (printed s ++ o) false)
             | Broken => Some (mkNet (gen s) (cells s) (printed s) true)
             | Blocked => None
             end
    end.
(** A run: the processes in the order in which they take steps. *)
Fixpoint run (acts : list nat) (s : net) : option net :=
  match acts with [] => Some s | a :: r => s' ← step a s; run r s' end.
End limits.
Definition init : net := mkNet GPipe [] [] false.

(** ** What the chain computes *)

Definition keep (p : Z) (l : list Z) : list Z := filter (fun x => x mod p <> 0) l.
Fixpoint sieve_n (n : nat) (l : list Z) : list Z :=
  match n, l with S n, x :: r => x :: sieve_n n (keep x r) | _, _ => [] end.
Definition sieve (l : list Z) : list Z := sieve_n (length l) l.

Lemma keep_length p l : (length (keep p l) <= length l)%nat.
Proof. apply length_filter. Qed.
Lemma sieve_enough n l : (length l <= n)%nat -> sieve_n n l = sieve l.
Proof.
  unfold sieve. assert (forall m n l, (length l <= n)%nat -> (length l <= m)%nat -> sieve_n n l = sieve_n m l) as H; [|intros; by apply H].
  intros m. induction m as [|m IH]; intros n' [|x r] Hn Hm; cbn in *; [by destruct n'|lia|by destruct n'|].
  destruct n' as [|n']; [lia|]. cbn. f_equal. pose proof (keep_length x r). apply IH; lia.
Qed.
Lemma sieve_cons x r : sieve (x :: r) = x :: sieve (keep x r).
Proof. unfold sieve at 1. cbn. f_equal. apply sieve_enough, keep_length. Qed.

(** The steps the chain may still take; [run_cost] is for the loop of one stage. *)
Definition run_cost (l : list Z) : nat := 2 * length l + 5.
Fixpoint cost_n (n : nat) (l : list Z) : nat :=
  match n, l with S n, x :: r => 7 + run_cost r + cost_n n (keep x r) | _, _ => 3 end%nat.
Definition cost (l : list Z) : nat := cost_n (length l) l.
Lemma cost_enough n l : (length l <= n)%nat -> cost_n n l = cost l.
Proof.
  unfold cost. assert (forall m n l, (length l <= n)%nat -> (length l <= m)%nat -> cost_n n l = cost_n m l) as H; [|intros; by apply H].
  intros m. induction m as [|m IH]; intros n' [|x r] Hn Hm; cbn in *; [by destruct n'|lia|by destruct n'|].
  destruct n' as [|n']; [lia|]. cbn. do 8 f_equal. pose proof (keep_length x r). apply IH; lia.
Qed.
Lemma cost_cons x r : cost (x :: r) = (7 + run_cost r + cost (keep x r))%nat.
Proof. unfold cost at 1. cbn [length cost_n]. rewrite cost_enough by apply keep_length. done. Qed.
Lemma run_cost_cons x l : run_cost (x :: l) = (2 + run_cost l)%nat.
Proof. unfold run_cost. cbn. lia. Qed.
Lemma keep_cons p x l : keep p (x :: l) = if negb (x mod p =? 0) then x :: keep p l else keep p l.
Proof.
  unfold keep. rewrite filter_cons. by destruct (decide _), (Z.eqb_spec (x mod p) 0).
Qed.
Lemma run_cost_pos l : (5 <= run_cost l)%nat.
Proof. unfold run_cost. lia. Qed.
Lemma cost_nil : cost [] = 3%nat.
Proof. done. Qed.
#[local] Opaque sieve cost run_cost keep.

(** ** The invariant of the chain *)

(** The descriptors that a process has. *)
Definition fds_ok (c : cell) : Prop :=
  match st c with
  | Close1 => ro c = true
  | Unborn | Wait | Exit | Done => wo c = false
  | _ => wo c = false /\ ro c = true
  end.
(** [F] is what the pipe of the first stage still gets.  Every stage but the last is
    past its fork, and a pipe that its writer has closed gets nothing more. *)
Fixpoint chain (F : list Z) (cs : list cell) : Prop :=
  match cs with
  | [] => False
  | c :: rest =>
    let T := inq c ++ F in
    (wl c = false -> F = []) /\ fds_ok c /\
    match st c with
    | Unborn | Bad => False
    | Close1 | Close2 | Start | Got _ | Printed _ => rest = []
    | Quit => T = [] /\ rest = []
    | Piped _ => rest = [new_pipe]
    | Forked p | Run p => chain (keep p T) rest
    | Send p x => chain (x :: keep p T) rest
    | Eof => T = [] /\ chain [] rest
    | Eof2 | Wait => T = [] /\ chain [] rest /\ (wl <$> head rest) = Some false
    | Exit | Done => T = [] /\ (rest = [] \/ chain [] rest /\ (wl <$> head rest) = Some false /\ (st <$> head rest) = Some Done)
    end
  end.
(** What the chain will print. *)
Fixpoint rest_out (F : list Z) (cs : list cell) : list Z :=
  match cs with
  | [] => []
  | c :: rest =>
    let T := inq c ++ F in
    match st c with
    | Close1 | Close2 | Start => sieve T
    | Got p => p :: sieve (keep p T)
    | Printed p | Piped p => sieve (keep p T)
    | Forked p | Run p => rest_out (keep p T) rest
    | Send p x => rest_out (x :: keep p T) rest
    | Eof | Eof2 | Wait | Exit | Done => rest_out [] rest
    | Unborn | Bad | Quit => []
    end
  end.
(** How many stages have printed. *)
Fixpoint has_printed (cs : list cell) : nat :=
  match cs with
  | [] => 0
  | c :: rest =>
      match st c, rest with
      | Unborn, _ | Close1, _ | Close2, _ | Start, _ | Bad, _ | Quit, _ | Got _, _ | Exit, [] | Done, [] => 0
      | _, _ => S (has_printed rest)
      end
  end.
(** The steps the chain may still take. *)
Fixpoint budget (F : list Z) (cs : list cell) : nat :=
  match cs with
  | [] => 0
  | c :: rest =>
    let T := inq c ++ F in
    match st c with
    | Unborn => 0
    | Close1 => 2 + cost T
    | Close2 => 1 + cost T
    | Start => cost T
    | Bad => 3
    | Quit => 2
    | Got p => 6 + run_cost T + cost (keep p T)
    | Printed p => 5 + run_cost T + cost (keep p T)
    | Piped p => 4 + run_cost T + cost (keep p T)
    | Forked p => 1 + run_cost T + budget (keep p T) rest
    | Run p => run_cost T + budget (keep p T) rest
    | Send p x => 1 + run_cost T + budget (x :: keep p T) rest
    | Eof => 4 + budget [] rest
    | Eof2 => 3 + budget [] rest
    | Wait => 2 + budget [] rest
    | Exit => 1 + budget [] rest
    | Done => budget [] rest
    end
  end%nat.

(** What a step of a stage does to these. *)
Definition advances (F : list Z) (cs : list cell) (cs' : list cell) (o : list Z) : Prop :=
  chain F cs' /\ rest_out F cs = o ++ rest_out F cs' /\ (budget F cs' < budget F cs)%nat /\
  has_printed cs' = (has_printed cs + length o)%nat.
(** Two chains that only differ in the first pipe and in who has it open. *)
Definition alike (F : list Z) (cs : list cell) (F' : list Z) (cs' : list cell) : Prop :=
  chain F' cs' /\ rest_out F' cs' = rest_out F cs /\ budget F' cs' = budget F cs /\ has_printed cs' = has_printed cs.

Lemma put_moves x F d r : chain (x :: F) (d :: r) -> alike (x :: F) (d :: r) F (put x d :: r).
Proof.
  destruct d as [q w1 w2 r1 r2 h t]. unfold alike. cbn. rewrite <-!app_assoc. cbn. intros (Hw & Hf & H).
  repeat split; [intros ->; by specialize (Hw eq_refl)|exact Hf|exact H].
Qed.
Lemma close_wl_moves d r : chain [] (d :: r) -> alike [] (d :: r) [] (close_wl d :: r).
Proof. destruct d; unfold alike; cbn; intros (_ & Hf & H). by repeat split. Qed.
Lemma close_rl_moves F d r : chain F (d :: r) -> alike F (d :: r) F (close_rl d :: r).
Proof. by destruct d. Qed.
(** A step changes neither whether the first pipe has a writer nor that its reader has exited. *)
Lemma stage_step_head files slot k cs cs' o :
  stage_step files slot k cs = Moved cs' o ->
  (wl <$> head cs') = (wl <$> head cs) /\ ((st <$> head cs) = Some Done -> (st <$> head cs') = Some Done).
Proof.
  destruct cs as [|c rest]; [done|]. destruct k as [|k]; cbn.
  - destruct c as [q w1 w2 r1 r2 h t]; unfold primes; cbn. intros H. split; [|by intros [= ->]; destruct rest].
    repeat case_match; simplify_eq; done.
  - destruct (stage_step files slot k rest) as [r o'| |]; [|done..]. by intros [= <- <-].
Qed.
Lemma chain_cons_inv F cs : chain F cs -> exists d r, cs = d :: r.
Proof. destruct cs; [done|eauto]. Qed.
(** A pipe that still gets something has a reader. *)
Lemma chain_reader x F d r : chain (x :: F) (d :: r) -> has_reader d r = true.
Proof.
  destruct d as [q w1 w2 r1 r2 h t]. unfold has_reader. cbn. intros (_ & Hf & H). unfold fds_ok in Hf. cbn in Hf.
  assert (r2 = true) as ->; [|by rewrite orb_true_r]. destruct t; try exact Hf; try exact (proj2 Hf); try (by destruct H); destruct H as [H _]; by destruct q.
Qed.

Lemma primes_advances files slot F c rest cs' o :
  chain F (c :: rest) -> primes files slot c rest = Moved cs' o -> advances F (c :: rest) cs' o.
Proof.
  intros H E. destruct c as [q w1 w2 r1 r2 h t]. unfold primes, advances in *. cbn -[has_room has_reader put close_wl close_rl born new_pipe read_in] in *.
  destruct H as (Hw & Hf & H). unfold fds_ok, read_in in *. cbn in Hf. destruct t as [| | | | | |p|p|p|p|p|p x| | | | |]; try done; cbn -[has_room has_reader put close_wl close_rl born new_pipe] in E.
  - subst. destruct h; simplify_eq/=; repeat split; auto; lia.
  - destruct Hf as [Hf1 Hf2]. subst. simplify_eq/=; repeat split; auto; lia.
  - destruct Hf as [-> ->]. subst. cbn in E. rewrite orb_false_r in E. destruct q as [|x q]; [destruct w1; [done|]|]; simplify_eq/=.
    + rewrite (Hw eq_refl), cost_nil. repeat split; auto.
    + rewrite sieve_cons, cost_cons. repeat split; auto; lia.
  - destruct Hf as [Hf1 Hf2], H. subst. simplify_eq/=. repeat split; auto; lia.
  - destruct Hf as [Hf1 Hf2]. subst. simplify_eq/=. repeat split; auto; lia.
  - destruct Hf as [Hf1 Hf2]. subst. destruct files; [|done]. simplify_eq/=. repeat split; auto; lia.
  - destruct Hf as [Hf1 Hf2]. subst. destruct slot; [|done]. simplify_eq/=. repeat split; auto; lia.
  - destruct rest as [|d r]; [done|]. injection E as <- <-. destruct Hf as [Hf1 Hf2]. destruct (close_rl_moves _ _ _ H) as (H1 & H2 & H3 & H4).
    generalize dependent (close_rl d :: r). intros r'. cbn. intros H1 -> -> ->. repeat split; auto; lia.
  - destruct Hf as [-> ->]. cbn in E. rewrite orb_false_r in E. destruct q as [|x q]; [destruct w1; [done|]|]; simplify_eq/=.
    + rewrite (Hw eq_refl) in *. cbn in *. pose proof (run_cost_pos []). repeat split; auto; lia.
    + rewrite keep_cons in H. cbn. rewrite keep_cons, run_cost_cons.
      destruct (negb (x mod p =? 0)); cbn; repeat split; auto; lia.
  - destruct rest as [|d r]; [done|]. rewrite (chain_reader _ _ _ _ H) in E. cbn [negb] in E. destruct (has_room d); [|done]. injection E as <- <-. destruct Hf as [Hf1 Hf2].
    destruct (put_moves _ _ _ _ H) as (H1 & H2 & H3 & H4). generalize dependent (put x d :: r). intros r'.
    cbn. intros H1 -> -> ->. repeat split; auto; lia.
  - destruct rest as [|d r]; [done|]. injection E as <- <-. destruct H as [HT H], Hf as [Hf1 Hf2].
    destruct (close_wl_moves _ _ H) as (H1 & H2 & H3 & H4).
    assert ((wl <$> head (close_wl d :: r)) = Some false) as H5 by done. generalize dependent (close_wl d :: r). intros r'.
    cbn. intros H1 -> -> -> H5. repeat split; auto; lia.
  - destruct Hf as [Hf1 Hf2], H as (HT & H & Hd). simplify_eq/=. repeat split; auto; lia.
  - destruct rest as [|d r]; [done|]. destruct H as (HT & H & Hd). destruct (st d) eqn:Hs; try done.
    injection E as <- <-. assert ((st <$> head (d :: r)) = Some Done) as H5 by (cbn; by rewrite Hs).
    assert (exists e t, d :: r = e :: t) as Hne by eauto. generalize dependent (d :: r). intros r' H Hd H5 (e & t & ->).
    split_and!; [|done|cbn; lia|cbn; lia]. split; [exact Hw|]. split; [done|]. split; [done|]. right. auto.
  - destruct H as [HT H]. simplify_eq/=. split; [|split; [done|split; [lia|destruct rest; lia]]]. split; [exact Hw|]. split; [done|]. by split.
Qed.
Lemma stage_step_advances files slot k cs : forall F cs' o,
  chain F cs -> stage_step files slot k cs = Moved cs' o -> advances F cs cs' o.
Proof.
  revert k. induction cs as [|c rest IH]; intros k F cs' o H E; [done|]. destruct k as [|k]; [by eapply primes_advances|].
  cbn in E. destruct (stage_step files slot k rest) as [r o'| |] eqn:Hs; [|done..]. injection E as <- <-.
  destruct (stage_step_head _ _ _ _ _ _ Hs) as [Hh Hd].
  assert (forall G, chain G rest -> advances G rest r o') as IH' by eauto. clear IH.
  unfold advances in *. cbn in H |- *. destruct H as (Hw & Hf & H).
  assert (forall G, chain G rest -> forall n, chain G r /\ rest_out G rest = o' ++ rest_out G r /\ (n + budget G r < n + budget G rest)%nat /\ has_printed r = (has_printed rest + length o')%nat) as IH2.
  { intros G HG n. destruct (IH' G HG) as (? & ? & ? & ?). repeat split; auto; lia. }
  destruct (st c) as [| | | | | |p|p|p|p|p|p x| | | | |]; subst; try done.
  - by destruct H as [_ ->].
  - destruct k; done.
  - destruct (IH2 _ H (1 + run_cost (inq c ++ F))%nat) as (? & ? & ? & ->). repeat split; auto.
  - destruct (IH2 _ H (run_cost (inq c ++ F))) as (? & ? & ? & ->). repeat split; auto.
  - destruct (IH2 _ H (1 + run_cost (inq c ++ F))%nat) as (? & ? & ? & ->). repeat split; auto.
  - destruct H as [HT H]. destruct (IH2 _ H 4%nat) as (? & ? & ? & ->). repeat split; auto.
  - destruct H as (HT & H & Ho). destruct (IH2 _ H 3%nat) as (? & ? & ? & ->). rewrite Hh. repeat split; auto.
  - destruct H as (HT & H & Ho). destruct (IH2 _ H 2%nat) as (? & ? & ? & ->). rewrite Hh. repeat split; auto.
  - destruct H as (HT & [->|(H & Ho & Hx)]); [done|]. destruct (IH2 _ H 1%nat) as (H1 & ? & ? & Hp). rewrite Hh.
    destruct (chain_cons_inv _ _ H) as (d & t & ->), (chain_cons_inv _ _ H1) as (d' & t' & ->). rewrite Hp.
    repeat split; auto.
  - destruct H as (HT & [->|(H & Ho & Hx)]); [done|]. destruct (IH2 _ H 0%nat) as (H1 & ? & ? & Hp). rewrite Hh.
    destruct (chain_cons_inv _ _ H) as (d & t & ->), (chain_cons_inv _ _ H1) as (d' & t' & ->). rewrite Hp.
    repeat split; auto.
Qed.

(** A chain that cannot move has exited or waits for its first pipe. *)
Lemma chain_progress files slot cs : forall F, chain F cs ->
  (exists k, stage_step files slot k cs <> Blocked) \/ (st <$> head cs) = Some Done \/
  (exists c rest, cs = c :: rest /\ inq c = [] /\ wl c = true).
Proof.
  induction cs as [|c rest IH]; intros F H; [done|].
  assert (forall k, stage_step files slot k rest <> Blocked -> exists k', stage_step files slot k' (c :: rest) <> Blocked) as Hin.
  { intros k E. exists (S k). cbn. by destruct (stage_step files slot k rest). }
  assert (primes files slot c rest <> Blocked -> exists k', stage_step files slot k' (c :: rest) <> Blocked) as Hc by (by exists O).
  assert (inq c = [] -> wl c = true -> exists c0 r0, c :: rest = c0 :: r0 /\ inq c0 = [] /\ wl c0 = true) as Hs by eauto.
  destruct c as [q w1 w2 r1 r2 h t]. unfold primes, read_in in Hc. cbn in H, Hc, Hs |- *. destruct H as (Hw & Hf & H). unfold fds_ok in Hf. cbn in Hf.
  destruct t as [| | | | | |p|p|p|p|p|p x| | | | |]; try done; try (by left; apply Hc).
  - destruct Hf as [-> ->]. cbn in Hc. rewrite orb_false_r in Hc. destruct q; [destruct w1; [by right; right; apply Hs|]|]; left; by apply Hc.
  - left. apply Hc. by destruct files.
  - subst. left. apply Hc. by destruct slot.
  - destruct (chain_cons_inv _ _ H) as (d & r & ->). left. by apply Hc.
  - destruct Hf as [-> ->]. cbn in Hc. rewrite orb_false_r in Hc. destruct q; [destruct w1; [by right; right; apply Hs|]|]; left; by apply Hc.
  - destruct (IH _ H) as [[k Hk]|[Hd|(d & r & -> & Hq & _)]]; [by left; eapply Hin| |].
    + destruct rest as [|d r]; [done|]. cbn in Hd, H. injection Hd as Hd. rewrite Hd in H. destruct H as (_ & _ & HT & _).
      by destruct (app_cons_not_nil (inq d) (keep p (q ++ F)) x).
    + left. apply Hc. rewrite (chain_reader _ _ _ _ H). cbn. unfold has_room. by rewrite Hq.
  - destruct (chain_cons_inv _ _ (proj2 H)) as (d & r & ->). left. by apply Hc.
  - destruct H as (_ & H & Ho). destruct (IH _ H) as [[k Hk]|[Hd|(d & r & -> & _ & Hopen)]]; [by left; eapply Hin| |].
    + destruct rest as [|d r]; [done|]. injection Hd as Hd. left. apply Hc. by rewrite Hd.
    + cbn in Ho. congruence.
  - by right; left.
Qed.
Lemma chain_done cs : forall F, chain F cs -> (st <$> head cs) = Some Done ->
  Forall (fun c => st c = Done) cs /\ rest_out F cs = [].
Proof.
  induction cs as [|c rest IH]; intros F H Hd; [done|]. injection Hd as Hd. cbn in *. rewrite Hd in *.
  destruct H as (_ & _ & _ & [->|(H & _ & Hd')]); [by repeat constructor|]. destruct (IH _ H Hd') as [H1 H2]. auto.
Qed.
(** When [pipe] or [fork] is called, every stage has printed. *)
Lemma chain_broken files slot k cs : forall F, chain F cs -> stage_step files slot k cs = Broken ->
  (files = false /\ (length cs <= has_printed cs)%nat) \/ (slot = false /\ (procs_used cs <= has_printed cs)%nat).
Proof.
  revert k. induction cs as [|c rest IH]; intros k F H E; [done|]. destruct k as [|k]; cbn in E, H.
  - destruct H as (_ & _ & H). unfold primes in E. cbn [length has_printed procs_used].
    destruct (st c) as [| | | | | |p|p|p|p|p|p x| | | | |] eqn:Hst; repeat case_match; simplify_eq; try done.
    + left. split; [done|]. cbn. lia.
    + right. split; [done|]. cbn. lia.
  - assert (forall G, chain G rest -> (files = false /\ (S (length rest) <= S (has_printed rest))%nat) \/ (slot = false /\ (S (procs_used rest) <= S (has_printed rest))%nat)) as Hrec.
    { intros G HG. destruct (stage_step files slot k rest) eqn:Es; try done. destruct (IH k G HG Es) as [[-> ?]|[-> ?]]; [left|right]; (split; [done|lia]). }
    assert (procs_used (c :: rest) <= S (procs_used rest))%nat as Hpu by (cbn; destruct (st c); lia).
    assert (rest <> []) as Hne by (intros ->; done).
    assert (forall G, chain G rest -> (files = false /\ (length (c :: rest) <= S (has_printed rest))%nat) \/ (slot = false /\ (procs_used (c :: rest) <= S (has_printed rest))%nat)) as Hrec'.
    { intros G HG. destruct (Hrec G HG) as [[-> ?]|[-> ?]]; [left; by split|right]. split; [done|lia]. }
    destruct H as (_ & _ & H). cbn [has_printed]. destruct (st c) as [| | | | | |p|p|p|p|p|p x| | | | |]; subst; try done; try (by eapply Hrec').
    + by destruct H.
    + by destruct k.
    + by eapply Hrec', H.
    + by eapply Hrec', H.
    + by eapply Hrec', H.
    + destruct H as (_ & [?|[H _]]); [done|]. destruct rest; [done|]. by eapply Hrec'.
    + destruct H as (_ & [?|[H _]]); [done|]. destruct rest; [done|]. by eapply Hrec'.
Qed.
Lemma files_used_le cs : (files_used cs <= 2 * length cs)%nat.
Proof. induction cs as [|c rest IH]; cbn; [lia|]. destruct (wl c || wo c), (has_reader c rest); lia. Qed.

(** ** The whole program *)

(** The numbers still to be sent. *)
Definition ahead (g : generator) : list Z :=
  match g with GPipe | GFork | GClose => seqZ 2 (TOT_NUMS - 1) | Gen i => seqZ i (TOT_NUMS + 1 - i) | _ => [] end.
Definition gen_budget (g : generator) : nat :=
  match g with
  | GPipe => Z.to_nat TOT_NUMS + 6 + cost (seqZ 2 (TOT_NUMS - 1)) | GFork => Z.to_nat TOT_NUMS + 5 + cost (seqZ 2 (TOT_NUMS - 1))
  | GClose => Z.to_nat TOT_NUMS + 2 | Gen i => Z.to_nat (TOT_NUMS + 1 - i) + 2 | GWait => 1 | GDone => 0
  end%nat.
Record net_inv (nfile nproc : nat) (s : net) : Prop := {
  ni_gen : match gen s with Gen i => 2 <= i <= TOT_NUMS + 1 | GDone => (st <$> head (cells s)) = Some Done | _ => True end;
  ni_closed : match gen s with GWait | GDone => (wl <$> head (cells s)) = Some false | _ => True end;
  ni_chain : match gen s with GPipe => cells s = [] /\ printed s = [] | GFork => cells s = [new_pipe] /\ printed s = [] | g => chain (ahead g) (cells s) end;
  ni_out : match gen s with GPipe | GFork => True | g => printed s ++ rest_out (ahead g) (cells s) = sieve (seqZ 2 (TOT_NUMS - 1)) end;
  ni_count : length (printed s) = has_printed (cells s);
  ni_broken : broken s = true -> (nfile < 120)%nat \/ (nproc < 60)%nat }.
Definition net_budget (s : net) : nat :=
  gen_budget (gen s) + match gen s with GPipe | GFork => 0 | g => budget (ahead g) (cells s) end + if broken s then 0 else 1.

Section runs.
Context (nfile nproc : nat).
Notation inv := (net_inv nfile nproc).

Lemma net_inv_init : inv init.
Proof using. by split. Qed.
(** [alike] chains keep the invariant, for [main] at [g]. *)
Lemma alike_inv s g g' cs' : gen s = g -> alike (ahead g) (cells s) (ahead g') cs' -> match g with GPipe | GFork => False | _ => True end ->
  inv s -> chain (ahead g') cs' /\ printed s ++ rest_out (ahead g') cs' = sieve (seqZ 2 (TOT_NUMS - 1)) /\
  length (printed s) = has_printed cs' /\ budget (ahead g') cs' = budget (ahead g) (cells s).
Proof using. intros <- (K1 & K2 & K3 & K4) Hg [_ _ H3 H4 H5 _]. rewrite K2, K3, K4. split; [done|]. split; [|done]. by destruct (gen s). Qed.

Lemma printed_few s : inv s -> (has_printed (cells s) <= 59)%nat.
Proof using.
  intros [_ _ H3 H4 H5 _]. destruct (gen s) eqn:Eg; try (destruct H3 as [-> _]; cbn; lia).
  all: rewrite <- H5; change 59%nat with (length (sieve (seqZ 2 (TOT_NUMS - 1)))); rewrite <- H4, length_app; lia.
Qed.
Lemma main_inv s r files slot : inv s -> broken s = false -> main files slot (gen s) (cells s) = Some r ->
  files = (files_used (cells s) + 2 <=? nfile)%nat -> slot = (procs_used (cells s) + 1 <=? nproc)%nat ->
  let s' := match r with Some (g, cs) => mkNet g cs (printed s) false | None => mkNet (gen s) (cells s) (printed s) true end in
  inv s' /\ (net_budget s' < net_budget s)%nat.
Proof using.
  intros I Hbr E Hfi Hsl. pose proof I as [H1 H2 H3 H4 H5 _]. destruct s as [g0 cs0 out br]. cbn in Hbr. subst br. cbn [gen cells printed] in *.
  unfold net_budget; cbn [gen cells broken]. destruct g0 as [| | |i| |]; cbn [main] in E.
  - destruct H3 as [-> ->]. injection E as <-. destruct files; cbn zeta; [split; [by split|cbn; lia]|]. split; [|cbn; lia]. split; cbn; try done. intros _.
    symmetry in Hfi. apply Nat.leb_gt in Hfi. cbn in Hfi. lia.
  - destruct H3 as [-> ->]. injection E as <-. destruct slot; cbn zeta; [|split; [|cbn; lia]; split; cbn; try done; intros _; symmetry in Hsl; apply Nat.leb_gt in Hsl; cbn in Hsl; lia].
    split; [split; cbn [gen cells printed broken ahead]; try done|cbn [gen_budget budget ahead born st new_pipe inq app gen cells broken]; lia].
  - destruct (chain_cons_inv _ _ H3) as (c & r' & ->). injection E as <-. cbn zeta.
    destruct (alike_inv (mkNet GClose (c :: r') out false) GClose (Gen 2) (close_rl c :: r') eq_refl (close_rl_moves _ _ _ H3) Logic.I I) as (K1 & K2 & K3 & K4). cbn [printed cells] in *.
    split; [split; cbn [gen cells printed broken]; try done|]. cbn [gen cells broken]. rewrite K4. cbn [gen_budget]. unfold TOT_NUMS. lia.
  - destruct (chain_cons_inv _ _ H3) as (c & r' & ->). destruct (Z.leb_spec i TOT_NUMS).
    + assert (ahead (Gen i) = i :: ahead (Gen (i + 1))) as Hi by (cbn [ahead]; rewrite seqZ_cons by lia; do 2 f_equal; lia). pose proof H3 as H3'. rewrite Hi in H3'.
      rewrite (chain_reader _ _ _ _ H3') in E. cbn [negb] in E. destruct (has_room c); [|done]. injection E as <-. cbn zeta.
      destruct (alike_inv (mkNet (Gen i) (c :: r') out false) (Gen i) (Gen (i + 1)) (put i c :: r') eq_refl) as (K1 & K2 & K3 & K4); [rewrite Hi; by apply put_moves|done|done|]. cbn [printed cells] in *.
      split; [split; cbn [gen cells printed broken]; try done; lia|]. cbn [gen cells broken]. rewrite K4. cbn [gen_budget]. lia.
    + injection E as <-. cbn zeta. assert (ahead (Gen i) = []) as Hi by (cbn [ahead]; apply seqZ_nil; lia). pose proof H3 as H3'. rewrite Hi in H3'.
      destruct (alike_inv (mkNet (Gen i) (c :: r') out false) (Gen i) GWait (close_wl c :: r') eq_refl) as (K1 & K2 & K3 & K4); [rewrite Hi; by apply close_wl_moves|done|done|]. cbn [printed cells] in *.
      split; [split; cbn [gen cells printed broken]; done|]. cbn [gen cells broken]. rewrite K4. cbn [gen_budget]. lia.
  - destruct (chain_cons_inv _ _ H3) as (c & r' & ->). destruct (st c) eqn:Hs; try done. injection E as <-. cbn zeta.
    split; [split; cbn [gen cells printed head broken]; try done; cbn; by rewrite Hs|]. cbn [gen_budget ahead gen cells broken]. lia.
  - done.
Qed.
Lemma step_inv a s s' : inv s -> step nfile nproc a s = Some s' -> inv s' /\ (net_budget s' < net_budget s)%nat.
Proof using.
  intros H E. unfold step in E. cbn zeta in E. destruct (broken s) eqn:Hbr; [done|]. destruct a as [|k].
  - destruct (main _ _ (gen s) (cells s)) as [r|] eqn:Em; [|done]. injection E as <-. by eapply main_inv.
  - pose proof (printed_few s H) as Hfew. pose proof H as [H1 H2 H3 H4 H5 H6]. unfold net_budget. rewrite Hbr.
    set (fi := (files_used _ + 2 <=? nfile)%nat) in *. set (sl := (procs_used _ + 1 <=? nproc)%nat) in *.
    destruct (stage_step fi sl k (cells s)) as [cs o| |] eqn:Es; [|done|]; injection E as <-; cbn [gen cells printed broken].
    + assert (match gen s with GPipe | GFork => False | _ => True end) as Hg.
      { destruct (gen s); try done; destruct H3 as [Hc _]; rewrite Hc in Es; [done|]. destruct k as [|k]; [done|]. cbn in Es. by destruct k. }
      destruct (stage_step_head _ _ _ _ _ _ Es) as [Hh Hd].
      assert (chain (ahead (gen s)) (cells s)) as Hch by (by destruct (gen s)).
      destruct (stage_step_advances _ _ _ _ _ _ _ Hch Es) as (K1 & K2 & K3 & K4).
      split; [split; cbn [gen cells printed broken]|destruct (gen s); try done; lia].
      * destruct (gen s); auto.
      * destruct (gen s); by rewrite ?Hh.
      * by destruct (gen s).
      * destruct (gen s); try done; by rewrite <-app_assoc, <-K2.
      * by rewrite length_app, H5, K4.
      * done.
    + split; [|lia]. split; cbn [gen cells printed broken]; try done. intros _.
      assert (match gen s with GPipe | GFork => False | _ => True end) as Hg.
      { destruct (gen s); try done; destruct H3 as [Hc _]; rewrite Hc in Es; [done|]. destruct k as [|k]; [done|]. cbn in Es. by destruct k. }
      assert (chain (ahead (gen s)) (cells s)) as Hch by (by destruct (gen s)).
      pose proof (files_used_le (cells s)). destruct (chain_broken _ _ _ _ _ Hch Es) as [[Hx Hy]|[Hx Hy]]; apply Nat.leb_gt in Hx; [left|right]; lia.
Qed.
Lemma run_inv acts : forall s s', inv s -> run nfile nproc acts s = Some s' -> inv s' /\ (length acts + net_budget s' <= net_budget s)%nat.
Proof using.
  induction acts as [|a r IH]; intros s s' H E; cbn in E; [injection E as <-; auto|].
  destruct (step nfile nproc a s) as [t|] eqn:Et; [|done]. destruct (step_inv _ _ _ H Et) as [Ht Hb].
  destruct (IH _ _ Ht E) as [H' Hl]. split; [done|]. cbn. lia.
Qed.
Lemma net_progress s : inv s -> broken s = false -> (forall a, step nfile nproc a s = None) -> gen s = GDone.
Proof using.
  intros [H1 H2 H3 H4 H5 _] Hbr Hn. pose proof (Hn O) as H0. unfold step in H0. cbn zeta in H0. rewrite Hbr in H0.
  set (fi := (files_used _ + 2 <=? nfile)%nat) in *. set (sl := (procs_used _ + 1 <=? nproc)%nat) in *.
  assert (chain (ahead (gen s)) (cells s) -> gen s = GDone \/ (st <$> head (cells s)) = Some Done \/ exists c rest, cells s = c :: rest /\ inq c = [] /\ wl c = true) as Hch.
  { intros Hc. destruct (chain_progress fi sl _ _ Hc) as [[k Hk]|Hor]; [|by right]. specialize (Hn (S k)). unfold step in Hn. cbn zeta in Hn. rewrite Hbr in Hn.
    fold fi sl in Hn. by destruct (stage_step fi sl k (cells s)). }
  destruct (gen s) as [| | |i| |]; [done|destruct H3 as [Hc _]; by rewrite Hc in H0|..|done];
    destruct (chain_cons_inv _ _ H3) as (c & r & Hc); rewrite Hc in H0; cbn [main] in H0; [done| |].
  - destruct (Z.leb_spec i TOT_NUMS) as [Hi|]; [|done]. rewrite Hc in H3. assert (ahead (Gen i) = i :: ahead (Gen (i + 1))) as Ei by (cbn [ahead]; rewrite seqZ_cons by lia; do 2 f_equal; lia).
    pose proof H3 as H3'. rewrite Ei in H3'. rewrite (chain_reader _ _ _ _ H3') in H0. cbn [negb] in H0. destruct (has_room c) eqn:Hr; [done|]. rewrite Hc in Hch.
    destruct (Hch H3) as [?|[Hd|(c' & r' & [= <- <-] & Hq & _)]]; [done| |unfold has_room in Hr; by rewrite Hq in Hr].
    injection Hd as Hd. cbn [chain] in H3'. rewrite Hd in H3'. destruct H3' as (_ & _ & HT & _). by apply app_eq_nil in HT as [_ ?].
  - rewrite Hc in *. destruct (Hch H3) as [?|[Hd|(c' & r' & [= <- <-] & _ & Ho)]]; [done|injection Hd as Hd; by rewrite Hd in H0|cbn in H2; congruence].
Qed.
End runs.

(** ** The numbers it prints *)

Definition is_prime (x : Z) : bool := forallb (fun d => negb (x mod d =? 0)) (seqZ 2 (x - 2)).
Definition primes_to (n : Z) : list Z := filter (fun x => is_prime x) (seqZ 2 (n - 1)).
Lemma is_prime_prime x : 2 <= x -> is_prime x <-> prime x.
Proof.
  intros Hx. rewrite <-prime_alt. unfold is_prime, prime'. rewrite Is_true_true, forallb_forall. split.
  - intros H. split; [lia|]. intros n Hn [d ->]. specialize (H n). rewrite <-list_elem_of_In, elem_of_seqZ in H.
    rewrite Z.mod_mul in H by lia. by specialize (H ltac:(lia)).
  - intros [_ H] d Hd. apply list_elem_of_In, elem_of_seqZ in Hd. specialize (H d ltac:(lia)).
    destruct (Z.eqb_spec (x mod d) 0) as [E|]; [|done]. destruct H. by apply Z.mod_divide; [lia|].
Qed.
Lemma primes_to_spec n x : x ∈ primes_to n <-> prime x /\ x <= n.
Proof.
  unfold primes_to. rewrite list_elem_of_filter, elem_of_seqZ. split.
  - intros [Hp Hx]. rewrite <-is_prime_prime by lia. split; [done|lia].
  - intros [Hp Hx]. pose proof (prime_ge_2 _ Hp). rewrite is_prime_prime by lia. split; [done|lia].
Qed.
Lemma sieve_primes : sieve (seqZ 2 (TOT_NUMS - 1)) = primes_to TOT_NUMS.
Proof. vm_compute. reflexivity. Qed.

(** C29: [primes] on a kernel that has [nfile] files and [nproc] processes for it, however the
    scheduler interleaves its processes: it has printed, at any time, a beginning of the list of
    the primes up to 280 in order; every run ends within a fixed number of steps;
    [pipe] or [fork] fails only if there are fewer than 120 files or 60 processes; and
    if none fails, the program stops only when all its processes have exited and all
    the primes are printed. *)
Theorem primes_prints_primes nfile nproc acts s :
  run nfile nproc acts init = Some s ->
  printed s `prefix_of` primes_to TOT_NUMS /\
  (forall x, x ∈ primes_to TOT_NUMS <-> prime x /\ x <= TOT_NUMS) /\
  (length acts <= net_budget init)%nat /\
  (broken s = true -> (nfile < 120)%nat \/ (nproc < 60)%nat) /\
  (broken s = false -> (forall a, step nfile nproc a s = None) ->
     printed s = primes_to TOT_NUMS /\ gen s = GDone /\ Forall (fun c => st c = Done) (cells s)).
Proof.
  intros E. destruct (run_inv _ _ _ _ _ (net_inv_init nfile nproc) E) as [I Hb]. pose proof I as [H1 H2 H3 H4 H5 H6].
  split; [|split; [apply primes_to_spec|split; [lia|split; [done|]]]].
  - rewrite <- sieve_primes. destruct (gen s); try (destruct H3 as [_ ->]; apply prefix_nil); rewrite <- H4; by eexists.
  - intros Hbr Hn. pose proof (net_progress _ _ _ I Hbr Hn) as Hg. rewrite Hg in *. rewrite sieve_primes in H4.
    destruct (chain_done _ _ H3 H1) as [Hd Hr]. rewrite Hr, app_nil_r in H4. done.
Qed.

(** A run: the process that can move and comes first in [order] does. *)
Section scheduler.
Context (nfile nproc : nat) (order : nat -> list nat).
Definition enabled (s : net) : option nat := head (filter (fun a => is_Some (step nfile nproc a s)) (order (S (length (cells s))))).
Fixpoint greedy (fuel : nat) (s : net) : list nat * net :=
  match fuel, enabled s with
  | S f, Some a => match step nfile nproc a s with Some s' => let r := greedy f s' in (a :: r.1, r.2) | None => ([], s) end
  | _, _ => ([], s)
  end.
Lemma greedy_run fuel s : run nfile nproc (greedy fuel s).1 s = Some (greedy fuel s).2.
Proof using.
  revert s. induction fuel as [|f IH]; intros s; cbn; [done|]. destruct (enabled s) as [a|]; [|done]. destruct (step nfile nproc a s) as [s'|] eqn:E; [|done].
  cbn. rewrite E. cbn. apply IH.
Qed.
Lemma stage_step_none files slot k cs : (length cs <= k)%nat -> stage_step files slot k cs = Blocked.
Proof using.
  revert k. induction cs as [|c r IH]; intros k H; [done|]. destruct k as [|k]; cbn in *; [lia|]. rewrite IH by lia. done.
Qed.
Lemma enabled_none s : (forall a n, (a < n)%nat -> a ∈ order n) -> enabled s = None -> forall a, step nfile nproc a s = None.
Proof using.
  intros Ho H a. destruct (decide (a < S (length (cells s)))%nat) as [Ha|Ha].
  - destruct (step nfile nproc a s) as [t|] eqn:E; [|done]. unfold enabled in H.
    assert (a ∈ filter (fun a => is_Some (step nfile nproc a s)) (order (S (length (cells s))))) as Hin.
    { rewrite list_elem_of_filter. split; [by rewrite E|by apply Ho]. }
    destruct (filter _ _); [by apply elem_of_nil in Hin|done].
  - destruct a as [|k]; [lia|]. unfold step. cbn zeta. destruct (broken s); [done|]. rewrite stage_step_none by lia. done.
Qed.
End scheduler.
Lemma primes_prints_primes_witness :
  let r := greedy 120 60 (seq 0) 20000 init in
  run 120 60 r.1 init = Some r.2 /\ length (cells r.2) = 60%nat /\ printed r.2 = primes_to TOT_NUMS.
Proof.
  pose proof (greedy_run 120 60 (seq 0) 20000 init) as E.
  assert (enabled 120 60 (seq 0) (greedy 120 60 (seq 0) 20000 init).2 = None) as Hn by (vm_compute; reflexivity).
  assert (broken (greedy 120 60 (seq 0) 20000 init).2 = false) as Hb by (vm_compute; reflexivity).
  split; [exact E|]. split; [vm_compute; reflexivity|].
  refine (proj1 (proj2 (proj2 (proj2 (proj2 (primes_prints_primes _ _ _ _ E)))) Hb (enabled_none _ _ _ _ _ Hn))).
  intros a n Ha. apply elem_of_seq. lia.
Defined.

(** The kernel has [NFILE] = 100 files, one of which is the console.  When each number
    goes as far as it can before the next is sent, the stage that has printed the 49th prime,
    227, finds no files for its pipe. *)
Theorem primes_runs_out_of_files : exists acts s, run 99 61 acts init = Some s /\ broken s = true /\
  printed s = take 49 (primes_to TOT_NUMS) /\ primes_to TOT_NUMS !! 49%nat = Some 229.
Proof.
  exists (greedy 99 61 (fun n => rev (seq 0 n)) 20000 init).1, (greedy 99 61 (fun n => rev (seq 0 n)) 20000 init).2.
  split; [apply greedy_run|]. vm_compute. done.
Qed.
