(* ===== verification/Pingpong.v ===== *)
(** * Two processes and two pipes: [user/pingpong.c]

    Parent and child each run a fixed sequence of system calls on the ends of two pipes.
    The theorem holds for all interleavings; since there are few states, it is proved by
    computing all that can be reached.  [pipe] and [fork] are taken to succeed; a message
    is written and read as a whole, as it fits in the pipe. *)

From stdpp Require Import base list strings.
From S2P Require Import Prelude Riscv.

(** ** The code *)

(** The ends of [pipe_pc] and [pipe_cp]. *)
Inductive pend := PCr | PCw | CPr | CPw.
#[global] Instance pend_eq_dec : EqDecision pend.
Proof. solve_decision. Defined.
(** System calls: [close]; [read] of 5 bytes and the message that reports it; [write] of 5
    bytes, with a message only on failure. *)
Inductive pcall := PClose (e : pend) | PRead (e : pend) | PWrite (e : pend) (msg : list Z).
#[global] Instance pcall_eq_dec : EqDecision pcall.
Proof. solve_decision. Defined.
Definition ping : list Z := [112; 105; 110; 103; 0].
Definition pong : list Z := [112; 111; 110; 103; 0].
Definition child_calls : list pcall := [PClose PCw; PClose CPr; PRead PCr; PClose PCr; PWrite CPw pong; PClose CPw].
Definition parent_calls : list pcall := [PClose PCr; PClose CPw; PWrite PCw ping; PClose PCw; PRead CPr; PClose CPr].

(** What is printed: the message received, or the error of a [read] or [write]. *)
Inductive pmsg := Received (s : list Z) | ReadError | WriteError.
#[global] Instance pmsg_eq_dec : EqDecision pmsg.
Proof. solve_decision. Defined.
(** A process: the calls left and the ends it has open. *)
Record pproc := mkPproc { todo : list pcall; ends : list pend }.
#[global] Instance pproc_eq_dec : EqDecision pproc.
Proof. solve_decision. Defined.
(** Both processes, the contents of the two pipes, and what was printed, by the child
    ([true]) or the parent. *)
Record pps := mkPps { child : pproc; parent : pproc; in_pc : list Z; in_cp : list Z; shown : list (bool * pmsg) }.
#[global] Instance pps_eq_dec : EqDecision pps.
Proof. solve_decision. Defined.

Definition is_open (s : pps) (e : pend) : bool := bool_decide (e ∈ ends (child s)) || bool_decide (e ∈ ends (parent s)).
Definition contents (s : pps) (e : pend) : list Z := match e with PCr | PCw => in_pc s | _ => in_cp s end.
Definition other (e : pend) : pend := match e with PCr => PCw | PCw => PCr | CPr => CPw | CPw => CPr end.
(** The state with the process, the pipe of [e] and the output replaced. *)
Definition update (c : bool) (p : pproc) (e : pend) (q : list Z) (o : list (bool * pmsg)) (s : pps) : pps :=
  mkPps (if c then p else child s) (if c then parent s else p)
    (match e with PCr | PCw => q | _ => in_pc s end) (match e with PCr | PCw => in_cp s | _ => q end) (shown s ++ o).
(** A step of the child or the parent; [None] when it is blocked or has exited. *)
Definition pingpong (c : bool) (s : pps) : option pps :=
  let p := if c then child s else parent s in
  match todo p with
  | [] => None
  | PClose e :: r => Some (update c (mkPproc r (filter (fun x => x <> e) (ends p))) e (contents s e) [] s)
  | PRead e :: r =>
      let p := mkPproc r (ends p) in
      let q := contents s e in
      if (5 <=? length q)%nat then Some (update c p e (drop 5 q) [(c, Received (take 5 q))] s)
      else if is_open s (other e) then None
      else Some (update c p e q [(c, ReadError)] s)
  | PWrite e m :: r =>
      let p := mkPproc r (ends p) in
      if is_open s (other e) then Some (update c p e (contents s e ++ m) [] s)
      else Some (update c p e (contents s e) [(c, WriteError)] s)
  end.
(** After the fork. *)
Definition pp_start : pps :=
  mkPps (mkPproc child_calls [PCr; PCw; CPr; CPw]) (mkPproc parent_calls [PCr; PCw; CPr; CPw]) [] [] [].
Fixpoint pp_run (acts : list bool) (s : pps) : option pps :=
  match acts with [] => Some s | c :: r => s' ← pingpong c s; pp_run r s' end.

(** ** All states *)

(** The states reached in at most [n] more steps from those in [todo]. *)
Fixpoint explore (n : nat) (new seen : list pps) : list pps :=
  match n with
  | O => seen
  | S n =>
      let next := flat_map (fun s => flat_map (fun c => match pingpong c s with Some s' => [s'] | None => [] end) [true; false]) new in
      let fresh := remove_dups (filter (fun s => s ∉ seen) next) in
      explore n fresh (seen ++ fresh)
  end.
Definition all_states : list pps := explore 12 [pp_start] [pp_start].
(** What every state satisfies: the output is a beginning of the expected one, and only
    the complete output and two finished processes have no next step. *)
Definition expected : list (bool * pmsg) := [(true, Received ping); (false, Received pong)].
Definition state_ok (s : pps) : bool :=
  bool_decide (shown s = take (length (shown s)) expected) &&
  match pingpong true s, pingpong false s with
  | None, None => bool_decide (shown s = expected) && bool_decide (todo (child s) = []) && bool_decide (todo (parent s) = [])
  | _, _ => true
  end.
Definition closed (l : list pps) : bool :=
  forallb (fun s => state_ok s && forallb (fun c => match pingpong c s with Some s' => bool_decide (s' ∈ l) | None => true end) [true; false]) l.
Lemma all_closed : closed all_states = true /\ pp_start ∈ all_states.
Proof. split; [vm_compute; reflexivity|]. apply (bool_decide_unpack _). vm_compute. exact I. Qed.
Lemma run_in_states acts : forall s s', s ∈ all_states -> pp_run acts s = Some s' -> s' ∈ all_states.
Proof.
  induction acts as [|c r IH]; intros s s' Hs E; cbn in E; [by injection E as <-|].
  destruct (pingpong c s) as [t|] eqn:Ht; [|done]. apply (IH t); [|done]. destruct all_closed as [Hc _]. unfold closed in Hc.
  rewrite forallb_forall in Hc. specialize (Hc s (proj1 (list_elem_of_In _ _) Hs)). apply andb_prop in Hc as [_ Hc].
  rewrite forallb_forall in Hc. specialize (Hc c). rewrite Ht in Hc. eapply bool_decide_eq_true_1, Hc. destruct c; cbn; auto.
Qed.
Definition calls_left (s : pps) : nat := length (todo (child s)) + length (todo (parent s)).
Lemma step_calls c s s' : pingpong c s = Some s' -> S (calls_left s') = calls_left s.
Proof.
  unfold pingpong, calls_left, update. intros H. destruct c; cbn in H; repeat case_match; simplify_eq; cbn; lia.
Qed.
Lemma run_calls acts : forall s s', pp_run acts s = Some s' -> (length acts + calls_left s' = calls_left s)%nat.
Proof.
  induction acts as [|c r IH]; intros s s' E; cbn in E; [by injection E as <-|].
  destruct (pingpong c s) as [t|] eqn:Ht; [|done]. apply step_calls in Ht. apply IH in E. cbn. lia.
Qed.

(** however parent and child interleave, nothing but the two messages is printed, first
    [ping] by the child and then [pong] by the parent, no [read] or [write] fails, both make
    all their calls, and they stop only when both messages are printed. *)
Theorem pingpong_exchanges (acts : list bool) (s : pps) :
  pp_run acts pp_start = Some s ->
  shown s `prefix_of` expected /\ (length acts <= 12)%nat /\
  ((forall c, pingpong c s = None) -> shown s = expected /\ todo (child s) = [] /\ todo (parent s) = []).
Proof.
  intros E. destruct all_closed as [Hc H0]. pose proof (run_in_states _ _ _ H0 E) as Hs. apply run_calls in E. cbn in E.
  unfold closed in Hc. rewrite forallb_forall in Hc. specialize (Hc s (proj1 (list_elem_of_In _ _) Hs)). apply andb_prop in Hc as [Hc _].
  apply andb_prop in Hc as [H1 H2]. apply bool_decide_eq_true_1 in H1. split; [rewrite H1; by exists (drop (length (shown s)) expected); rewrite take_drop|].
  split; [lia|]. intros Hn. rewrite !Hn in H2. apply andb_prop in H2 as [H2 H4]. apply andb_prop in H2 as [H2 H3].
  by apply bool_decide_eq_true_1 in H2, H3, H4.
Qed.
Lemma pingpong_exchanges_witness : exists s,
  pp_run [true; true; false; false; false; false; true; true; true; true; false; false] pp_start = Some s /\ shown s = expected.
Proof.
  destruct (pp_run [true; true; false; false; false; false; true; true; true; true; false; false] pp_start) as [s|] eqn:E; [|vm_compute in E; discriminate E].
  exists s. split; [reflexivity|]. apply (proj2 (proj2 (pingpong_exchanges _ s E))).
  vm_compute in E. injection E as <-. intros []; vm_compute; reflexivity.
Defined.
