(* ===== verification/WlanCfg.v ===== *)
(** * A driver's configuration: [user/wlan_cfg.c]

    [wilc_wlan_cfg_init] copies four arrays into blocks from [malloc] and sets up the
    table of string parameters.  The state is the heap of the allocator, the memory of
    the process and what was printed; a block is used through its address. *)

From stdpp Require Import base list gmap strings.
From S2P Require Import Prelude Riscv Mem Printf Umalloc.

(** ** The code *)

Record wst := mkWst { w_heap : um; w_mem : memory; w_out : list Z }.
(** [struct wilc_cfg]; the fields are addresses. *)
Record wilc_cfg := mkCfg { cfg_b : Z; cfg_hw : Z; cfg_w : Z; cfg_s : Z; cfg_str_vals : Z }.

Definition WID_FIRMWARE_VERSION : Z := 1.
Definition WID_MAC_ADDR : Z := 2.
Definition WID_ASSOC_RES_INFO : Z := 3.
Definition WID_NIL : Z := 4.
Definition g_cfg_byte : list Z := [0x01; 0x02; 0x03].
Definition g_cfg_hword : list Z := le_bytes 2 0x1234 ++ le_bytes 2 0x5678.
Definition g_cfg_word : list Z := le_bytes 4 0xDEADBEEF ++ le_bytes 4 0xCAFEBABE.
Definition sizeof_cfg_s : Z := 16.
Definition g_cfg_str : list Z := replicate 64 0.
(** The offsets of [struct wilc_cfg_string_vals], three arrays of 128 characters. *)
Definition firmware_version (sv : Z) : Z := sv.
Definition mac_address (sv : Z) : Z := sv + 128.
Definition assoc_rsp (sv : Z) : Z := sv + 256.

Section code.
(** The address of the allocator's [base], and the start of the heap. *)
Context (B h0 : Z).
Definition w_malloc (n : Z) : M wst Z := fun s =>
  zoom w_heap (fun h s => mkWst h (w_mem s) (w_out s)) (malloc B (mfuel h0 (w_heap s)) n) s.
Definition w_store (a : Z) (bs : list Z) : M wst unit := modify (fun s => mkWst (w_heap s) (stn (w_mem s) a bs) (w_out s)).
Definition w_ptr (a p : Z) : M wst unit := modify (fun s => mkWst (w_heap s) (st64 (w_mem s) a p) (w_out s)).
Definition w_print (bs : list Z) : M wst unit := modify (fun s => mkWst (w_heap s) (w_mem s) (w_out s ++ bs)).
(** The C string at an address, of at most [n] characters. *)
Definition w_string (a : Z) (n : nat) : M wst (list Z) := gets (fun s => cstr (ldn (w_mem s) a n)).

(** [wl->cfg.s[i].id = id; wl->cfg.s[i].str = str] *)
Definition put_cfg_s (s i id str : Z) : M wst unit :=
  w_store (s + sizeof_cfg_s * i) (le_bytes 4 id) ;;; w_ptr (s + sizeof_cfg_s * i + 8) str.
Definition cleaning (labels : list string) : M wst (Z * option wilc_cfg) :=
  w_print (concat ((fun l => chars "Cleaning " ++ chars l) <$> labels)) ;;; return (-1, None).
Definition wilc_wlan_cfg_init : M wst (Z * option wilc_cfg) :=
  do b <- w_malloc 3;
  if b =? 0 then return (-1, None)
  else
    w_store b g_cfg_byte ;;;
    do hw <- w_malloc 4;
    if hw =? 0 then cleaning ["b"%string]
    else
      w_store hw g_cfg_hword ;;;
      do w <- w_malloc 8;
      if w =? 0 then cleaning ["hw"%string; "b"%string]
      else
        w_store w g_cfg_word ;;;
        do s <- w_malloc 64;
        if s =? 0 then cleaning ["w"%string; "hw"%string; "b"%string]
        else
          w_store s g_cfg_str ;;;
          (* [sizeof(str_vals)] is the size of the pointer *)
          do sv <- w_malloc 8;
          if sv =? 0 then cleaning ["s"%string; "w"%string; "hw"%string; "b"%string]
          else
            put_cfg_s s 0 WID_FIRMWARE_VERSION (firmware_version sv) ;;;
            put_cfg_s s 1 WID_MAC_ADDR (mac_address sv) ;;;
            put_cfg_s s 2 WID_ASSOC_RES_INFO (assoc_rsp sv) ;;;
            put_cfg_s s 3 WID_NIL 0 ;;;
            do before <- w_string (firmware_version sv) 128;
            w_print (chars "Before: " ++ before ++ [10]) ;;;
            do str0 <- gets (fun t => ld64 (w_mem t) (s + 8));
            w_store str0 (chars "1.2.3" ++ [0]) ;;;
            do after <- w_string (firmware_version sv) 128;
            w_print (chars "After: " ++ after ++ [10]) ;;;
            return (0, Some (mkCfg b hw w s sv)).
Definition wlan_main : M wst Z :=
  do '(r, _) <- wilc_wlan_cfg_init;
  if negb (r =? 0) then w_print (chars "Failed to initialize WILC configuration." ++ [10]) ;;; return 1
  else w_print (chars "WILC configuration initialized successfully." ++ [10]) ;;; return 0.
End code.

(** ** The blocks it gets *)

Lemma disj_intervals a n l b k : disj ((a, n) :: l) -> (b, k) ∈ l -> 1 <= n -> 1 <= k -> a + 16 * n <= b \/ b + 16 * k <= a.
Proof.
  intros [H _] Hin Hn Hk. destruct (decide (a + 16 * n <= b)); [by left|]. destruct (decide (b + 16 * k <= a)); [by right|]. exfalso.
  apply (H (Z.max a b)); [lia|]. apply covers_elem. exists b, k. split; [done|lia].
Qed.

Ltac member := first [apply elem_of_cons; left; reflexivity|apply elem_of_cons; right; member].

Section spec.
Context (B h0 lim : Z).
Definition w_ok (s : wst) (live : list (Z * Z)) : Prop := mok B h0 lim (w_heap s, live).

Lemma wp_w_malloc n s live (Q : Z -> wst -> Prop) : w_ok s live -> 0 <= n < 2 ^ 31 - 31 ->
  (forall s', w_out s' = w_out s -> w_ok s' live -> lim < ubrk (w_heap s') + 16 * Z.max (units n) 4096 -> Q 0 s') ->
  (forall r s', r <> 0 -> w_mem s' = w_mem s -> w_out s' = w_out s -> w_ok s' ((r - 16, units n) :: live) -> Q r s') ->
  wp (w_malloc B h0 n) Q s.
Proof using.
  intros Hok Hn H0 H1. destruct (malloc_run B h0 lim _ _ _ Hok Hn) as (r & h & Hr & Hcase).
  assert (w_malloc B h0 n s = Ok r (mkWst h (w_mem s) (w_out s))) as E
    by exact (zoom_Ok w_heap (fun h s => mkWst h (w_mem s) (w_out s)) _ s r h Hr).
  eapply wp_run; [exact E|]. destruct Hcase as [(G1 & G2 & G3)|(-> & G1 & G2 & G3)]; [|apply H0; cbn; [done|done|lia]]. apply H1; [done..|].
  destruct Hok as (Hl & HB & HB2 & Hh & Hl2 & _). unfold w_ok, mok. cbn [fst snd w_heap] in *. split_and!; try (done || lia || congruence). by right.
Qed.

(** What the program leaves: the four arrays, the table of strings, and the string. *)
Record init_done (s : wst) (c : wilc_cfg) : Prop := {
  id_blocks : w_ok s [(cfg_str_vals c - 16, 2); (cfg_s c - 16, 5); (cfg_w c - 16, 2); (cfg_hw c - 16, 2); (cfg_b c - 16, 2)];
  id_byte : ldn (w_mem s) (cfg_b c) 3 = g_cfg_byte;
  id_hword : ldn (w_mem s) (cfg_hw c) 4 = g_cfg_hword;
  id_word : ldn (w_mem s) (cfg_w c) 8 = g_cfg_word;
  id_table : forall i str, [firmware_version (cfg_str_vals c); mac_address (cfg_str_vals c); assoc_rsp (cfg_str_vals c); 0] !! i = Some str ->
    le_value (ldn (w_mem s) (cfg_s c + 16 * Z.of_nat i) 4) = Z.of_nat i + 1 /\ ld64 (w_mem s) (cfg_s c + 16 * Z.of_nat i + 8) = str;
  id_string : ldn (w_mem s) (cfg_str_vals c) 6 = chars "1.2.3" ++ [0] }.

(** A sequence of stores, and what the last of them to a place leaves there. *)
Definition stores (m : memory) (ws : list (Z * list Z)) : memory := fold_left (fun m w => stn m w.1 w.2) ws m.
Definition apart_from (a n : Z) (w : Z * list Z) : Prop := Forall is_byte w.2 /\ (a + n <= w.1 \/ w.1 + Z.of_nat (length w.2) <= a).
Lemma ldn_stores_other m a n ws : Forall (apart_from a (Z.of_nat n)) ws -> ldn (stores m ws) a n = ldn m a n.
Proof using.
  intros H. revert m. induction H as [|[x bs] ws [Hb Hx] _ IH]; intros m; [done|]. cbn [stores fold_left fst snd] in *. unfold stores in IH.
  rewrite IH. by apply ldn_stn_other.
Qed.
Lemma ldn_stores m ws1 a bs ws2 : Forall is_byte bs -> Forall (apart_from a (Z.of_nat (length bs))) ws2 ->
  ldn (stores m (ws1 ++ (a, bs) :: ws2)) a (length bs) = bs.
Proof using.
  intros Hb H. unfold stores. rewrite fold_left_app. cbn [fold_left fst snd]. fold (stores (stn (fold_left (fun m w => stn m w.1 w.2) ws1 m) a bs) ws2).
  rewrite ldn_stores_other by done. by apply ldn_stn_same.
Qed.

(** The stores of the program, in order. *)
Definition cfg_stores (c : wilc_cfg) : list (Z * list Z) :=
  let sv := cfg_str_vals c in
  [(cfg_b c, g_cfg_byte); (cfg_hw c, g_cfg_hword); (cfg_w c, g_cfg_word); (cfg_s c, g_cfg_str);
   (cfg_s c + 16 * 0, le_bytes 4 1); (cfg_s c + 16 * 0 + 8, le_bytes 8 (firmware_version sv));
   (cfg_s c + 16 * 1, le_bytes 4 2); (cfg_s c + 16 * 1 + 8, le_bytes 8 (mac_address sv));
   (cfg_s c + 16 * 2, le_bytes 4 3); (cfg_s c + 16 * 2 + 8, le_bytes 8 (assoc_rsp sv));
   (cfg_s c + 16 * 3, le_bytes 4 4); (cfg_s c + 16 * 3 + 8, le_bytes 8 0)].
Definition str_store (c : wilc_cfg) : Z * list Z := (cfg_str_vals c, chars "1.2.3" ++ [0]).

Definition apart2 (p n q k : Z) : Prop := p + n <= q \/ q + k <= p.
(** The blocks are in the heap and apart from each other. *)
Record layout5 (c : wilc_cfg) : Prop := {
  l5_sv : 0 < cfg_str_vals c < 2 ^ 31; l5_s : 0 < cfg_s c < 2 ^ 31;
  l5_sv_s : apart2 (cfg_str_vals c) 16 (cfg_s c) 64; l5_sv_w : apart2 (cfg_str_vals c) 16 (cfg_w c) 16;
  l5_sv_hw : apart2 (cfg_str_vals c) 16 (cfg_hw c) 16; l5_sv_b : apart2 (cfg_str_vals c) 16 (cfg_b c) 16;
  l5_s_w : apart2 (cfg_s c) 64 (cfg_w c) 16; l5_s_hw : apart2 (cfg_s c) 64 (cfg_hw c) 16; l5_s_b : apart2 (cfg_s c) 64 (cfg_b c) 16;
  l5_w_hw : apart2 (cfg_w c) 16 (cfg_hw c) 16; l5_w_b : apart2 (cfg_w c) 16 (cfg_b c) 16; l5_hw_b : apart2 (cfg_hw c) 16 (cfg_b c) 16 }.
Lemma layout5_of s c : w_ok s [(cfg_str_vals c - 16, 2); (cfg_s c - 16, 5); (cfg_w c - 16, 2); (cfg_hw c - 16, 2); (cfg_b c - 16, 2)] -> layout5 c.
Proof using.
  intros (_ & HB & Hh & _ & Hl & Hcase). cbn [fst snd] in Hcase. destruct Hcase as [(_ & _ & ?)|(fl & I)]; [done|].
  pose proof (mi_disj _ _ _ _ _ I) as D. pose proof (mi_range _ _ _ _ _ I) as (_ & _ & Hu & Hu2).
  assert (forall a n, (a, n) ∈ [(cfg_str_vals c - 16, 2); (cfg_s c - 16, 5); (cfg_w c - 16, 2); (cfg_hw c - 16, 2); (cfg_b c - 16, 2)] -> h0 <= a /\ a + 16 * n <= 2 ^ 31) as R.
  { intros a n Hin. destruct (mi_live _ _ _ _ _ I a n Hin) as (_ & ? & ? & _). lia. }
  pose proof (R (cfg_str_vals c - 16) 2 ltac:(set_solver)). pose proof (R (cfg_s c - 16) 5 ltac:(set_solver)). clear R.
  assert (forall a n l b k N K, disj ((a - 16, n) :: l) -> (b - 16, k) ∈ l -> 1 <= n -> 1 <= k -> N = 16 * n - 16 -> K = 16 * k - 16 -> apart2 a N b K) as P.
  { intros a n l b k N K Hd Hin Hn Hk -> ->. unfold apart2. destruct (disj_intervals _ _ _ _ _ Hd Hin Hn Hk); lia. }
  pose proof D as (_ & D1). pose proof D1 as (_ & D2). pose proof D2 as (_ & D3).
  split; first [lia|eapply (P _ _ _ _ _ _ _ D); [member|lia..]|eapply (P _ _ _ _ _ _ _ D1); [member|lia..]
    |eapply (P _ _ _ _ _ _ _ D2); [member|lia..]|eapply (P _ _ _ _ _ _ _ D3); [member|lia..]].
Qed.

#[local] Transparent ld64 st64.
Lemma str_bytes : Forall is_byte (chars "1.2.3" ++ [0]).
Proof using. change (chars "1.2.3" ++ [0]) with [49; 46; 50; 46; 51; 0]. repeat (constructor; [unfold is_byte; lia|]). constructor. Qed.
Lemma byte_bytes : Forall is_byte g_cfg_byte.
Proof using. unfold g_cfg_byte. repeat (constructor; [unfold is_byte; lia|]). constructor. Qed.
Lemma hword_bytes : Forall is_byte g_cfg_hword.
Proof using. apply Forall_app. split; apply le_bytes_are_bytes. Qed.
Lemma word_bytes : Forall is_byte g_cfg_word.
Proof using. apply Forall_app. split; apply le_bytes_are_bytes. Qed.
Lemma table_bytes : Forall is_byte g_cfg_str.
Proof using. unfold g_cfg_str. apply Forall_replicate. unfold is_byte. lia. Qed.
#[local] Hint Resolve str_bytes byte_bytes hword_bytes word_bytes table_bytes le_bytes_are_bytes : wlan.

(** The stores in a list are apart from a place: sizes are known, addresses by the layout. *)
Ltac apart_stores :=
  unfold str_store;
  repeat (apply Forall_cons; split; [split; [cbn [snd]; eauto with wlan|cbn [fst snd]; rewrite ?le_bytes_length; unfold apart2, firmware_version in *;
    try change (Z.of_nat (length g_cfg_byte)) with 3 in *; try change (Z.of_nat (length g_cfg_hword)) with 4 in *;
    try change (Z.of_nat (length g_cfg_word)) with 8 in *; try change (Z.of_nat (length g_cfg_str)) with 64 in *;
    try change (Z.of_nat (length (chars "1.2.3" ++ [0]))) with 6 in *; lia]|]); apply Forall_nil; done.

(** [m] after the stores [ws], of which the one to [a] is followed by stores elsewhere. *)
Lemma stored_at m ws1 a bs ws2 n : n = length bs -> Forall is_byte bs -> Forall (apart_from a (Z.of_nat (length bs))) ws2 ->
  ldn (stores m (ws1 ++ (a, bs) :: ws2)) a n = bs.
Proof using. intros ->. apply ldn_stores. Qed.

Lemma stores_arrays m c : layout5 c -> let m' := stores m (cfg_stores c ++ [str_store c]) in
  ldn m' (cfg_b c) 3 = g_cfg_byte /\ ldn m' (cfg_hw c) 4 = g_cfg_hword /\ ldn m' (cfg_w c) 8 = g_cfg_word /\
  ldn m' (cfg_str_vals c) 6 = chars "1.2.3" ++ [0].
Proof using.
  intros [L1 L2 A1 A2 A3 A4 A5 A6 A7 A8 A9 A10] m'. unfold m', cfg_stores, str_store. cbn [app]. split_and!.
  - apply (stored_at m []); [done|eauto with wlan|]. clear A1 A2 A3 A5 A6 A8. apart_stores.
  - apply (stored_at m [_]); [done|eauto with wlan|]. clear A1 A2 A4 A5 A7 A9 A10. apart_stores.
  - apply (stored_at m [_; _]); [done|eauto with wlan|]. clear A1 A3 A4 A6 A7 A8 A9 A10. apart_stores.
  - apply (stored_at m [_; _; _; _; _; _; _; _; _; _; _; _]); [done|eauto with wlan|]. apart_stores.
Qed.
Lemma stores_table m c : layout5 c -> let m' := stores m (cfg_stores c ++ [str_store c]) in
  forall i str, [firmware_version (cfg_str_vals c); mac_address (cfg_str_vals c); assoc_rsp (cfg_str_vals c); 0] !! i = Some str ->
    le_value (ldn m' (cfg_s c + 16 * Z.of_nat i) 4) = Z.of_nat i + 1 /\ ld64 m' (cfg_s c + 16 * Z.of_nat i + 8) = str.
Proof using.
  intros [L1 L2 A1 _ _ _ _ _ _ _ _ _] m'.
  assert (forall ws1 a n v ws2, cfg_stores c ++ [str_store c] = ws1 ++ (a, le_bytes n v) :: ws2 -> 0 <= v < 256 ^ Z.of_nat n ->
    Forall (apart_from a (Z.of_nat n)) ws2 -> le_value (ldn m' a n) = v) as G.
  { intros ws1 a n v ws2 E Hv Ha. unfold m'. rewrite E, (stored_at m ws1 a (le_bytes n v) ws2 n); rewrite ?le_bytes_length; auto with wlan.
    rewrite le_value_bytes. by apply Z.mod_small. }
  unfold ld64, mac_address, assoc_rsp, firmware_version. intros [|[|[|[|i]]]] str; cbn [lookup list_lookup]; intros [= <-]; (split; [|]).
  - apply (G [_; _; _; _] _ 4%nat 1 _ eq_refl); [lia|]. apart_stores.
  - apply (G [_; _; _; _; _] _ 8%nat (cfg_str_vals c) _ eq_refl); [lia|]. apart_stores.
  - apply (G [_; _; _; _; _; _] _ 4%nat 2 _ eq_refl); [lia|]. apart_stores.
  - apply (G [_; _; _; _; _; _; _] _ 8%nat (cfg_str_vals c + 128) _ eq_refl); [lia|]. apart_stores.
  - apply (G [_; _; _; _; _; _; _; _] _ 4%nat 3 _ eq_refl); [lia|]. apart_stores.
  - apply (G [_; _; _; _; _; _; _; _; _] _ 8%nat (cfg_str_vals c + 256) _ eq_refl); [lia|]. apart_stores.
  - apply (G [_; _; _; _; _; _; _; _; _; _] _ 4%nat 4 _ eq_refl); [lia|]. apart_stores.
  - apply (G [_; _; _; _; _; _; _; _; _; _; _] _ 8%nat 0 _ eq_refl); [lia|]. apart_stores.
Qed.

Lemma cstr_app_nul s r : Forall (fun c => c <> 0) s -> cstr (s ++ 0 :: r) = s.
Proof using. induction 1 as [|c s Hc _ IH]; [done|]. cbn. by rewrite (proj2 (Z.eqb_neq _ _) Hc), IH. Qed.

(** What the call leaves when [malloc] fails: -1, the kernel has not 64 kilobytes left for
    [sbrk], the blocks obtained before are still in use, and a message for each of them. *)
Definition init_failed (out : list Z) (r : Z) (s : wst) : Prop :=
  r = -1 /\ lim < ubrk (w_heap s) + 65536 /\
  exists live, w_ok s live /\ (length live < 5)%nat /\
    w_out s = out ++ concat ((fun l => chars "Cleaning " ++ chars l) <$> drop (4 - length live) ["s"; "w"; "hw"; "b"]%string).
(** What the call returns: a failure when [malloc] fails; else the configuration. *)
Definition init_result (out : list Z) (rc : Z * option wilc_cfg) (s : wst) : Prop :=
  match rc.2 with
  | None => init_failed out rc.1 s
  | Some c => rc.1 = 0 /\ init_done s c /\
      exists before, w_out s = out ++ (chars "Before: " ++ before ++ [10]) ++ (chars "After: " ++ chars "1.2.3" ++ [10])
  end.
Lemma wp_cleaning ls out live s : w_ok s live -> (length live < 5)%nat -> lim < ubrk (w_heap s) + 65536 -> w_out s = out ->
  ls = drop (4 - length live) ["s"; "w"; "hw"; "b"]%string -> wp (cleaning ls) (init_result out) s.
Proof using.
  intros Hok Hl Hlim Ho ->. unfold cleaning. apply wp_bind, wp_modify, wp_ret. split; [done|]. split; [done|]. exists live. split; [done|].
  split; [done|]. cbn [w_out]. by rewrite Ho.
Qed.

(** The last part: the five blocks are there and the arrays are stored. *)
Lemma init_finish m out c s : layout5 c -> w_ok s [(cfg_str_vals c - 16, 2); (cfg_s c - 16, 5); (cfg_w c - 16, 2); (cfg_hw c - 16, 2); (cfg_b c - 16, 2)] ->
  w_mem s = stores m (cfg_stores c) -> w_out s = out ->
  wp (do before <- w_string (firmware_version (cfg_str_vals c)) 128;
      w_print (chars "Before: " ++ before ++ [10]) ;;;
      do str0 <- gets (fun t => ld64 (w_mem t) (cfg_s c + 8));
      w_store str0 (chars "1.2.3" ++ [0]) ;;;
      do after <- w_string (firmware_version (cfg_str_vals c)) 128;
      w_print (chars "After: " ++ after ++ [10]) ;;;
      return (0, Some c)) (init_result out) s.
Proof using.
  intros L Hok Hm Ho. apply wp_bind, wp_gets. set (before := cstr _). apply wp_bind, wp_modify, wp_bind, wp_gets. cbn [w_mem].
  assert (ld64 (w_mem s) (cfg_s c + 8) = cfg_str_vals c) as ->.
  { destruct L as [L1 L2 A1 _ _ _ _ _ _ _ _ _]. rewrite Hm. unfold ld64, cfg_stores. replace (cfg_s c + 8) with (cfg_s c + 16 * 0 + 8) by lia.
    match goal with |- le_value ?l = _ => assert (l = le_bytes 8 (firmware_version (cfg_str_vals c))) as -> end.
    { apply (stored_at m [_; _; _; _; _]); [by rewrite le_bytes_length|eauto with wlan|]. rewrite le_bytes_length. apart_stores. }
    rewrite le_value_bytes. apply Z.mod_small. unfold firmware_version. lia. }
  apply wp_bind, wp_modify, wp_bind, wp_gets. cbn [w_mem w_heap w_out]. rewrite Hm.
  assert (stn (stores m (cfg_stores c)) (cfg_str_vals c) (chars "1.2.3" ++ [0]) = stores m (cfg_stores c ++ [str_store c])) as ->
    by (unfold stores; by rewrite fold_left_app).
  destruct (stores_arrays m c L) as (S1 & S2 & S3 & S4).
  assert (cstr (ldn (stores m (cfg_stores c ++ [str_store c])) (firmware_version (cfg_str_vals c)) 128) = chars "1.2.3") as ->.
  { unfold firmware_version. change 128%nat with (6 + 122)%nat. rewrite ldn_app, S4, <-app_assoc. apply cstr_app_nul.
    change (chars "1.2.3") with [49; 46; 50; 46; 51]. repeat (constructor; [lia|]). constructor. }
  apply wp_bind, wp_modify, wp_ret. split; [done|]. split; [split; [exact Hok|done|done|done|exact (stores_table m c L)|done]|].
  exists before. cbn [w_out]. by rewrite Ho, <-!app_assoc.
Qed.

Lemma wp_init m out s : w_ok s [] -> w_mem s = m -> w_out s = out -> wp (wilc_wlan_cfg_init B h0) (init_result out) s.
Proof using.
  intros Hok Hm Ho. unfold wilc_wlan_cfg_init.
  assert (forall n s live (k : Z -> M wst (Z * option wilc_cfg)) ls, w_ok s live -> 0 <= n < 1024 -> w_out s = out ->
    (forall s', w_ok s' live -> lim < ubrk (w_heap s') + 65536 -> w_out s' = out -> wp ls (init_result out) s') ->
    (forall r s', r <> 0 -> w_mem s' = w_mem s -> w_out s' = out -> w_ok s' ((r - 16, units n) :: live) -> wp (k r) (init_result out) s') ->
    wp (bind (w_malloc B h0 n) (fun r => if r =? 0 then ls else k r)) (init_result out) s) as Step.
  { intros n t live k ls Ht Hn Hto Hf Hk. apply wp_bind. apply (wp_w_malloc n t live); [done|lia| |].
    - intros t' E1 E2 E3. cbn [Z.eqb]. apply Hf; [done| |congruence]. unfold units, u32, sizeof_Header in E3.
      assert ((n + 16 - 1) / 16 < 1024) by (apply Z.div_lt_upper_bound; lia). assert (0 <= (n + 16 - 1) / 16) by (apply Z.div_pos; lia).
      rewrite Z.mod_small in E3 by lia. lia.
    - intros r t' Hr E1 E2 Ht'. rewrite (proj2 (Z.eqb_neq _ _) Hr). apply Hk; [done|done|congruence|done]. }
  apply (Step _ _ []); [done|lia|done|intros t ? ? ?; apply wp_ret; split; [done|]; split; [done|]; exists []; cbn; rewrite app_nil_r; by split_and!; [|lia|]|].
  intros b s1 _ M1 O1 K1. apply wp_bind, wp_modify.
  apply (Step _ _ [(b - 16, units 3)]); [exact K1|lia|exact O1|intros; eapply wp_cleaning; [done|cbn; lia|done..]|]. intros hw s2 _ M2 O2 K2. apply wp_bind, wp_modify.
  apply (Step _ _ [(hw - 16, units 4); (b - 16, units 3)]); [exact K2|lia|exact O2|intros; eapply wp_cleaning; [done|cbn; lia|done..]|]. intros w s3 _ M3 O3 K3. apply wp_bind, wp_modify.
  apply (Step _ _ [(w - 16, units 8); (hw - 16, units 4); (b - 16, units 3)]); [exact K3|lia|exact O3|intros; eapply wp_cleaning; [done|cbn; lia|done..]|]. intros t s4 _ M4 O4 K4. apply wp_bind, wp_modify.
  apply (Step _ _ [(t - 16, units 64); (w - 16, units 8); (hw - 16, units 4); (b - 16, units 3)]); [exact K4|lia|exact O4|intros; eapply wp_cleaning; [done|cbn; lia|done..]|].
  intros sv s5 _ M5 O5 K5. set (c := mkCfg b hw w t sv).
  unfold put_cfg_s. do 4 (apply wp_bind, wp_bind, wp_modify, wp_modify). cbn [w_mem w_heap w_out].
  apply (init_finish m out c); [apply (layout5_of s5 c), K5|exact K5| |].
  - cbn [w_mem]. cbn [w_mem] in M2, M3, M4, M5. rewrite M5, M4, M3, M2, M1, Hm. done.
  - exact O5.
Qed.
End spec.

(** C34: [wilc_wlan_cfg_init] in a new process: it ends.  Either one of the five calls of
    [malloc] fails, which happens only when the kernel has not 64 kilobytes left to grant:
    then it returns -1, having printed a message for each block obtained before and freed
    none of them.  Or it returns 0, with the arrays copied into blocks of their own, the
    table holding the four identifiers and the addresses of the strings, and the string
    stored and printed.  But the block for the strings has only 16 bytes, being asked for
    with the size of a pointer: the second and the third string of the table are outside
    it. *)
Theorem wlan_cfg_initialised (B h0 lim : Z) (H : Z -> header) (m : memory) (out : list Z) :
  0 < B -> B + 16 <= h0 -> h0 <= lim -> lim <= 2 ^ 31 ->
  exists r c s', wilc_wlan_cfg_init B h0 (mkWst (mkUm H 0 h0 lim) m out) = Ok (r, c) s' /\
    match c with
    | None => init_failed B h0 lim out r s'
    | Some c => r = 0 /\ init_done B h0 lim s' c /\
        (exists before, w_out s' = out ++ (chars "Before: " ++ before ++ [10]) ++ (chars "After: " ++ chars "1.2.3" ++ [10])) /\
        forall str, In str [ld64 (w_mem s') (cfg_s c + 16 + 8); ld64 (w_mem s') (cfg_s c + 32 + 8)] -> cfg_str_vals c + 16 < str
    end.
Proof.
  intros HB HB2 Hh Hl. assert (w_ok B h0 lim (mkWst (mkUm H 0 h0 lim) m out) []) as Hok.
  { unfold w_ok, mok. cbn. split_and!; try done. by left. }
  destruct (wp_Ok _ _ _ (wp_init B h0 lim m out _ Hok eq_refl eq_refl)) as ([r c] & s' & Hr & Hi). exists r, c, s'. split; [done|].
  destruct c as [c|]; [|done]. destruct Hi as (H0 & Hd & Hb). split; [done|]. split; [done|]. split; [done|]. cbn [snd] in *.
  destruct (id_table _ _ _ _ _ Hd 1 (mac_address (cfg_str_vals c)) eq_refl) as [_ T1].
  destruct (id_table _ _ _ _ _ Hd 2 (assoc_rsp (cfg_str_vals c)) eq_refl) as [_ T2].
  change (16 * Z.of_nat 1) with 16 in T1. change (16 * Z.of_nat 2) with 32 in T2. rewrite T1, T2. unfold mac_address, assoc_rsp. cbn. intros str [<-|[<-|[]]]; lia.
Qed.
Lemma wlan_cfg_initialised_witness : exists c s',
  wilc_wlan_cfg_init 1000 4096 (mkWst (mkUm (fun _ => mkHeader 0 0) 0 4096 200000) ∅ []) = Ok (0, Some c) s' /\
  init_done 1000 4096 200000 s' c /\ cfg_str_vals c = 69440 /\ ubrk (w_heap s') = 69632.
Proof.
  destruct (wlan_cfg_initialised 1000 4096 200000 (fun _ => mkHeader 0 0) ∅ [] ltac:(lia) ltac:(lia) ltac:(lia) ltac:(lia)) as (r & c & s' & Hr & Hc).
  assert (match wilc_wlan_cfg_init 1000 4096 (mkWst (mkUm (fun _ => mkHeader 0 0) 0 4096 200000) ∅ []) with
          | Ok (r, Some c) s => r = 0 /\ cfg_str_vals c = 69440 /\ ubrk (w_heap s) = 69632 | _ => False end) as E by (vm_compute; split; [|split]; reflexivity).
  rewrite Hr in E. destruct c as [c|]; [|destruct E]. destruct E as (-> & E1 & E2). destruct Hc as (_ & Hd & _).
  exists c, s'. split; [exact Hr|]. split; [exact Hd|]. split; [exact E1|exact E2].
Defined.
