(* ===== verification/Boot.v ===== *)
(** * Starting the kernel: [kernel/main.c]

    All harts enter [main]: hart 0 initialises the kernel, the others wait for [started]
    and then initialise themselves.  The functions called are modelled in the files of
    their components; here a call is an event that initialises some parts of the kernel and
    uses others, and the theorem is about the order of the events in every interleaving of
    the harts.  Memory is sequentially consistent, so the fences around [started] do
    nothing. *)

From stdpp Require Import base list strings sets.
From S2P Require Import Prelude Riscv.

(** ** The code *)

Inductive call :=
| Consoleinit | Printfinit | PrintBanner | Kinit | Kvminit | Kvminithart | Procinit | Trapinit | Trapinithart
| Plicinit | Plicinithart | Binit | Iinit | Fileinit | Virtio_disk_init | Userinit | PrintHart.
#[global] Instance call_eq_dec : EqDecision call.
Proof. solve_decision. Defined.

(** What hart 0 calls before it sets [started], and the others after they see it. *)
Definition calls0 : list call :=
  [Consoleinit; Printfinit; PrintBanner; Kinit; Kvminit; Kvminithart; Procinit; Trapinit; Trapinithart;
   Plicinit; Plicinithart; Binit; Iinit; Fileinit; Virtio_disk_init; Userinit].
Definition calls1 : list call := [PrintHart; Kvminithart; Trapinithart; Plicinithart].

Inductive mpc := Enter | Spin | Calls (l : list call) | Scheduler.
(** Where each hart is, the flag, and the calls made so far, with the hart. *)
Record bst := mkBst { pcs : list mpc; started : bool; calls : list (nat * call) }.

(** A step of hart [h]; [None] when it is out of [main], or finds [started] not set. *)
Definition main (h : nat) (s : bst) : option bst :=
  match pcs s !! h with
  | Some Enter => Some (mkBst (<[h := if (h =? 0)%nat then Calls calls0 else Spin]> (pcs s)) (started s) (calls s))
  | Some Spin => if started s then Some (mkBst (<[h := Calls calls1]> (pcs s)) (started s) (calls s)) else None
  | Some (Calls (c :: r)) => Some (mkBst (<[h := Calls r]> (pcs s)) (started s) (calls s ++ [(h, c)]))
  | Some (Calls []) => Some (mkBst (<[h := Scheduler]> (pcs s)) (if (h =? 0)%nat then true else started s) (calls s))
  | _ => None
  end.
Definition power_on (n : nat) : bst := mkBst (replicate n Enter) false [].
(** The harts in the order in which they take steps. *)
Fixpoint boots (hs : list nat) (s : bst) : option bst :=
  match hs with [] => Some s | h :: r => s' ← main h s; boots r s' end.

(** ** What has to come before what *)

(** The parts of the kernel that have to be initialised: [cons.lock], the UART with
    [uart_tx_lock], the console's entry of [devsw], [pr], the free list of pages, the
    kernel's page table, the process table with [wait_lock] and [pid_lock], [tickslock],
    the priorities of the interrupt sources, the buffer cache, the inode table, the file
    table, the disk, the first process; and for each hart its [satp], its [stvec] and its
    enabled interrupts. *)
Inductive resource :=
| RCons | RUart | RDevsw | RPr | RKmem | RKpgtbl | RProcs | RTicks | RPlic | RBcache | RInodes | RFiles | RDisk | RInit
| RSatp (h : nat) | RStvec (h : nat) | REnable (h : nat).
#[global] Instance resource_eq_dec : EqDecision resource.
Proof. solve_decision. Defined.
(** The hart whose business a part is. *)
Definition hart_of (r : resource) : nat := match r with RSatp h | RStvec h | REnable h => h | _ => 0%nat end.

(** What a function initialises when hart [h] calls it. *)
Definition inits (h : nat) (c : call) : list resource :=
  match c with
  | Consoleinit => [RCons; RUart; RDevsw]
  | Printfinit => [RPr]
  | Kinit => [RKmem]
  | Kvminit => [RKpgtbl]
  | Kvminithart => [RSatp h]
  | Procinit => [RProcs]
  | Trapinit => [RTicks]
  | Trapinithart => [RStvec h]
  | Plicinit => [RPlic]
  | Plicinithart => [REnable h]
  | Binit => [RBcache]
  | Iinit => [RInodes]
  | Fileinit => [RFiles]
  | Virtio_disk_init => [RDisk]
  | Userinit => [RInit]
  | PrintBanner | PrintHart => []
  end.
(** What it uses: [pr.lock] and the UART to print, [kalloc] for page tables and for the
    rings of the disk, the kernel's page table for [satp]; [allocproc] and [namei] in
    [userinit].  What [scheduler] uses is everything. *)
Definition uses (c : call) : list resource :=
  match c with
  | PrintBanner | PrintHart => [RPr; RUart]
  | Kvminit => [RKmem]
  | Kvminithart => [RKpgtbl]
  | Virtio_disk_init => [RKmem]
  | Userinit => [RProcs; RKmem; RInodes]
  | _ => []
  end.
Definition inited (l : list (nat * call)) : list resource := flat_map (fun x => inits x.1 x.2) l.
Definition in_order (l : list (nat * call)) : Prop :=
  forall pre h c post, l = pre ++ (h, c) :: post -> forall r, r ∈ uses c -> r ∈ inited pre.

Lemma in_order_snoc l h c : in_order l -> (forall r, r ∈ uses c -> r ∈ inited l) -> in_order (l ++ [(h, c)]).
Proof.
  intros Hl Hc pre h' c' post E. destruct post as [|x post _] using rev_ind.
  - apply app_inj_tail in E as [-> [= -> ->]]. exact Hc.
  - rewrite app_comm_cons, app_assoc in E. apply app_inj_tail in E as [-> _]. by eapply Hl.
Qed.
Lemma inited_elem l r : r ∈ inited l <-> exists h c, (h, c) ∈ l /\ r ∈ inits h c.
Proof.
  unfold inited. rewrite list_elem_of_In, in_flat_map. setoid_rewrite <-list_elem_of_In. split; [intros ([h c] & ? & ?); by exists h, c|].
  intros (h & c & ? & ?). by exists (h, c).
Qed.

(** What hart [h] has called when it is at [p]. *)
Definition calls_of (h : nat) : list call := if (h =? 0)%nat then calls0 else calls1.
Definition called (p : mpc) (h : nat) (l : list call) : Prop :=
  match p with Enter | Spin => l = [] | Calls r => l ++ r = calls_of h | Scheduler => l = calls_of h end.
Definition of_hart (h : nat) (l : list (nat * call)) : list call := snd <$> filter (fun x => x.1 = h) l.
Record boot_inv (n : nat) (s : bst) : Prop := {
  bi_length : length (pcs s) = n;
  bi_calls : forall h p, pcs s !! h = Some p -> called p h (of_hart h (calls s));
  bi_harts : forall h c, (h, c) ∈ calls s -> (h < n)%nat;
  bi_wait : forall h p, pcs s !! h = Some p -> h <> 0%nat -> p = Enter \/ p = Spin \/ started s = true;
  bi_spin : pcs s !! 0%nat <> Some Spin;
  bi_started : started s = true <-> pcs s !! 0%nat = Some Scheduler;
  bi_order : in_order (calls s);
  bi_once : NoDup (inited (calls s)) }.

Lemma of_hart_snoc h l h' c : of_hart h (l ++ [(h', c)]) = if decide (h' = h) then of_hart h l ++ [c] else of_hart h l.
Proof.
  unfold of_hart. rewrite filter_app, fmap_app. case_decide as E.
  - by rewrite filter_cons_True by done.
  - rewrite filter_cons_False by done. apply app_nil_r.
Qed.
Lemma of_hart_elem h l c : (h, c) ∈ l <-> c ∈ of_hart h l.
Proof.
  unfold of_hart. rewrite list_elem_of_fmap. split.
  - intros H. exists (h, c). split; [done|]. by apply list_elem_of_filter.
  - intros ([h' c'] & -> & [E H]%list_elem_of_filter). cbn in *. by subst.
Qed.
(** In the calls of hart 0 everything that they use comes before. *)
Definition before_ok (l r : list call) : bool :=
  match r with c :: _ => forallb (fun d => bool_decide (d ∈ flat_map (inits 0) l)) (uses c) | [] => true end.
Lemma calls0_ok l r : l ++ r = calls0 -> before_ok l r = true.
Proof.
  intros E. assert (forall k, (k <= 16)%nat -> before_ok (take k calls0) (drop k calls0) = true) as H.
  { intros k Hk. do 17 (destruct k as [|k]; [reflexivity|]). lia. }
  assert (length l <= 16)%nat as Hl by (change 16%nat with (length calls0); rewrite <-E, length_app; lia).
  specialize (H (length l) Hl). rewrite <-E in H. by rewrite take_app_length, drop_app_length in H.
Qed.
(** Hart 0 initialises what the others use, and each hart what is its business. *)
Lemma calls1_uses c r : c ∈ calls1 -> r ∈ uses c -> r ∈ flat_map (inits 0) calls0.
Proof.
  intros Hc Hr. assert (forallb (fun c => forallb (fun r => bool_decide (r ∈ flat_map (inits 0) calls0)) (uses c)) calls1 = true) as H by reflexivity.
  rewrite forallb_forall in H. specialize (H c (proj1 (list_elem_of_In _ _) Hc)). rewrite forallb_forall in H.
  specialize (H r (proj1 (list_elem_of_In _ _) Hr)). by apply bool_decide_eq_true_1 in H.
Qed.
Lemma calls_of_inits h r : hart_of r = h -> r ∈ flat_map (inits h) (calls_of h).
Proof.
  intros <-. unfold calls_of. destruct r as [| | | | | | | | | | | | | |h|h|h]; cbn [hart_of].
  15-17: destruct (Nat.eqb_spec h 0) as [->|].
  all: cbn; set_solver.
Qed.
Lemma calls_of_hart h c r : c ∈ calls_of h -> r ∈ inits h c -> hart_of r = h.
Proof.
  unfold calls_of. destruct (Nat.eqb_spec h 0) as [->|Hh].
  - intros _. destruct c; cbn; rewrite ?elem_of_cons, ?elem_of_nil; naive_solver.
  - unfold calls1. rewrite !elem_of_cons, elem_of_nil. intros [->|[->|[->|[->|[]]]]]; cbn; rewrite ?elem_of_cons, ?elem_of_nil; naive_solver.
Qed.
Lemma calls_of_once h : NoDup (flat_map (inits h) (calls_of h)).
Proof.
  unfold calls_of. destruct (Nat.eqb_spec h 0) as [->|Hh]; [apply (bool_decide_unpack _); vm_compute; exact I|].
  cbn. repeat (apply NoDup_cons; split; [rewrite ?elem_of_cons, ?elem_of_nil; naive_solver|]). constructor.
Qed.
Lemma hart_inited h l r : r ∈ flat_map (inits h) (of_hart h l) -> r ∈ inited l.
Proof.
  rewrite list_elem_of_In, in_flat_map. setoid_rewrite <-list_elem_of_In. intros (c & Hc & Hr). apply inited_elem. exists h, c. by rewrite of_hart_elem.
Qed.

Lemma bst_insert_eq n s h p q : length (pcs s) = n -> pcs s !! h = Some p -> <[h := q]> (pcs s) !! h = Some q.
Proof. intros <- H. apply list_lookup_insert_eq. by eapply lookup_lt_Some. Qed.
Lemma started_inited n s r : boot_inv n s -> started s = true -> hart_of r = 0%nat -> r ∈ inited (calls s).
Proof.
  intros I Hs Hr. apply (bi_started _ _ I) in Hs. pose proof (bi_calls _ _ I _ _ Hs) as H0. cbn in H0.
  apply (hart_inited 0). rewrite H0. by apply calls_of_inits.
Qed.
Lemma boot_call_ok n s h c r d : boot_inv n s -> pcs s !! h = Some (Calls (c :: r)) -> d ∈ uses c -> d ∈ inited (calls s).
Proof.
  intros I Hp Hd. pose proof (bi_calls _ _ I _ _ Hp) as Hc. unfold called, calls_of in Hc. destruct (Nat.eqb_spec h 0) as [->|Hh].
  - apply calls0_ok in Hc. cbn [before_ok] in Hc. rewrite forallb_forall in Hc. specialize (Hc d (proj1 (list_elem_of_In _ _) Hd)).
    apply bool_decide_eq_true_1 in Hc. by apply (hart_inited 0).
  - assert (d ∈ flat_map (inits 0) calls0) as H by (apply (calls1_uses c); [rewrite <-Hc; apply elem_of_app; right; by left|done]).
    destruct (bi_wait _ _ I _ _ Hp Hh) as [?|[?|Hs]]; [done..|]. apply (bi_started _ _ I) in Hs.
    pose proof (bi_calls _ _ I _ _ Hs) as H0. cbn in H0. apply (hart_inited 0). by rewrite H0.
Qed.
(** A call initialises what was not initialised. *)
Lemma boot_call_fresh n s h c r d : boot_inv n s -> pcs s !! h = Some (Calls (c :: r)) -> d ∈ inits h c -> d ∉ inited (calls s).
Proof.
  intros I Hp Hd (h' & c' & Hin & Hd')%inited_elem. pose proof (bi_calls _ _ I _ _ Hp) as Hc. cbn in Hc.
  assert (hart_of d = h) as Hh by (apply (calls_of_hart h c); [rewrite <-Hc; set_solver|done]).
  assert (c' ∈ calls_of h') as Hc'.
  { apply of_hart_elem in Hin as Hin'. destruct (lookup_lt_is_Some_2 (pcs s) h') as [p' Hp']; [rewrite (bi_length _ _ I); by eapply bi_harts|].
    pose proof (bi_calls _ _ I _ _ Hp') as Hc'. destruct p'; cbn in Hc'; [rewrite Hc' in Hin'; by apply elem_of_nil in Hin'..| |].
    - rewrite <-Hc'. apply elem_of_app. by left.
    - by rewrite <-Hc'. }
  assert (h' = h) as -> by (rewrite <-Hh; symmetry; by apply (calls_of_hart h' c')). apply of_hart_elem in Hin.
  pose proof (calls_of_once h) as Hnd. rewrite <-Hc, flat_map_app in Hnd. apply NoDup_app in Hnd as (_ & Hnd & _).
  apply (Hnd d); [|cbn; apply elem_of_app; by left]. rewrite list_elem_of_In, in_flat_map. exists c'. by rewrite <-!list_elem_of_In.
Qed.
Lemma inits_once h c : NoDup (inits h c).
Proof. destruct c; cbn; repeat (apply NoDup_cons; split; [rewrite ?elem_of_cons, ?elem_of_nil; naive_solver|]); constructor. Qed.
Lemma boot_step n h s s' : boot_inv n s -> main h s = Some s' -> boot_inv n s'.
Proof.
  intros I E. unfold main in E. destruct (pcs s !! h) as [p|] eqn:Hp; [|done]. pose proof I as [I1 I2 I3 I4 I5 I6 I7 I8].
  pose proof (I2 _ _ Hp) as Hcalled.
  assert (forall q, length (<[h := q]> (pcs s)) = n) as L by (intros q; by rewrite length_insert).
  assert (forall q h' p', <[h := q]> (pcs s) !! h' = Some p' -> (h' = h /\ p' = q) \/ (h' <> h /\ pcs s !! h' = Some p')) as LK.
  { intros q h' p' H. apply list_lookup_insert_Some in H as [(<- & <- & _)|[Hne H]]; [by left|right; auto]. }
  assert (forall q, (pcs s !! 0%nat = Some Scheduler -> h <> 0%nat) -> (h = 0%nat -> q <> Scheduler) ->
    (pcs s !! 0%nat = Some Scheduler <-> <[h := q]> (pcs s) !! 0%nat = Some Scheduler)) as ST.
  { intros q H1 H2. split; intros H; [rewrite list_lookup_insert_ne by auto; done|].
    destruct (LK _ _ _ H) as [[? ?]|[? ?]]; [subst; by destruct (H2 eq_refl)|done]. }
  destruct p as [| |[|c r]|]; [| |injection E as <-..|done].
  - injection E as <-. split; cbn [pcs started calls]; [apply L| |done| | | |done|done].
    + intros h' p' [[-> ->]|[_ H]]%LK; [|by apply I2]. cbn in Hcalled. rewrite Hcalled. unfold called, calls_of. by destruct (h =? 0)%nat.
    + intros h' p' [[-> ->]|[_ H]]%LK Hne; [|by apply (I4 h' p')]. rewrite (proj2 (Nat.eqb_neq _ _) Hne). auto.
    + intros [[<- H]|[_ H]]%LK; done.
    + rewrite I6. apply ST; [congruence|]. by destruct (h =? 0)%nat.
  - destruct (started s) eqn:Hst; [|done]. injection E as <-. assert (h <> 0%nat) as Hh by (intros ->; done).
    split; cbn [pcs started calls]; [apply L| |done|auto| | |done|done].
    + intros h' p' [[-> ->]|[_ H]]%LK; [|by apply I2]. cbn in Hcalled. rewrite Hcalled. unfold called, calls_of. by rewrite (proj2 (Nat.eqb_neq _ _) Hh).
    + intros [[? _]|[_ H]]%LK; done.
    + rewrite <-ST; [done|done|done].
  - split; cbn [pcs started calls]; [apply L| |done| | | |done|done].
    + intros h' p' [[-> ->]|[_ H]]%LK; [|by apply I2]. cbn in *. by rewrite app_nil_r in Hcalled.
    + intros h' p' [[-> ->]|[_ H]]%LK Hne; [rewrite (proj2 (Nat.eqb_neq _ _) Hne); destruct (I4 h _ Hp Hne) as [?|[?|?]]; auto; done|].
      destruct (I4 h' p' H Hne) as [?|[?|?]]; [auto..|]. right; right. by destruct (h =? 0)%nat.
    + intros [[? ?]|[_ H]]%LK; done.
    + destruct (Nat.eqb_spec h 0) as [->|Hh]; [split; [intros _; by eapply bst_insert_eq|done]|]. rewrite I6. by apply ST.
  - split; cbn [pcs started calls]; [apply L| | |auto| | | |].
    + intros h' p' [[-> ->]|[Hne H]]%LK; rewrite of_hart_snoc; [rewrite decide_True by done|rewrite decide_False by done; by apply I2].
      unfold called in *. by rewrite <-app_assoc.
    + intros h' c' [H|H]%elem_of_app; [by eapply I3|]. apply list_elem_of_singleton in H as [= -> ->]. rewrite <-I1. by eapply lookup_lt_Some.
    + intros h' p' [[-> ->]|[_ H]]%LK Hne; [|by apply (I4 h' p')]. destruct (I4 h _ Hp Hne) as [?|[?|?]]; [done|done|by auto].
    + intros [[? ?]|[_ H]]%LK; done.
    + rewrite I6. apply ST; [congruence|done].
    + apply in_order_snoc; [done|]. intros d Hd. by eapply boot_call_ok.
    + unfold inited. rewrite flat_map_app. cbn. rewrite app_nil_r. apply NoDup_app. split; [done|]. split; [|apply inits_once].
      intros d Hd Hd'. by eapply boot_call_fresh.
Qed.

(** ** The theorem *)

Definition pc_left (p : mpc) : nat :=
  match p with
  | Enter => 3 + length calls0 + length calls1
  | Spin => 2 + length calls1
  | Calls l => 1 + length l
  | Scheduler => 0
  end%nat.
Definition left_sum (l : list mpc) : nat := sum_list_with pc_left l.
Lemma left_insert l h p q : l !! h = Some p -> (left_sum (<[h := q]> l) + pc_left p = left_sum l + pc_left q)%nat.
Proof.
  unfold left_sum. revert h. induction l as [|x l IH]; intros [|h] H; [done|done|injection H as ->; cbn; lia|].
  specialize (IH h H). change (<[S h := q]> (x :: l)) with (x :: <[h := q]> l). cbn [sum_list_with]. lia.
Qed.
Lemma main_left h s s' : main h s = Some s' -> (left_sum (pcs s') < left_sum (pcs s))%nat.
Proof.
  unfold main. destruct (pcs s !! h) as [p|] eqn:Hp; [|done]. pose proof (fun q => left_insert _ _ _ q Hp) as H.
  destruct p as [| |[|c r]|]; [|destruct (started s); [|done]| | |done]; intros [= <-]; cbn [pcs].
  - destruct (h =? 0)%nat; [specialize (H (Calls calls0))|specialize (H Spin)]; cbn in *; lia.
  - specialize (H (Calls calls1)). cbn in *. lia.
  - specialize (H Scheduler). cbn in *. lia.
  - specialize (H (Calls r)). cbn in *. lia.
Qed.
Lemma boots_inv n hs : forall s s', boot_inv n s -> boots hs s = Some s' -> boot_inv n s' /\ (length hs + left_sum (pcs s') <= left_sum (pcs s))%nat.
Proof.
  induction hs as [|h r IH]; intros s s' I E; cbn in E; [injection E as <-; auto|].
  destruct (main h s) as [t|] eqn:Ht; [|done]. destruct (IH _ _ (boot_step _ _ _ _ I Ht) E) as [I' Hl]. apply main_left in Ht. cbn. split; [done|lia].
Qed.
Lemma power_on_inv n : (0 < n)%nat -> boot_inv n (power_on n).
Proof.
  intros Hn. split; cbn [power_on pcs started calls].
  - apply length_replicate.
  - intros h p [-> _]%lookup_replicate_1. done.
  - intros h c H. by apply elem_of_nil in H.
  - intros h p [-> _]%lookup_replicate_1. auto.
  - intros [H _]%lookup_replicate_1. done.
  - split; [done|]. intros [H _]%lookup_replicate_1. done.
  - intros pre h c post H. by destruct pre.
  - constructor.
Qed.

(** C33: starting the kernel on any number of harts, in any interleaving: a function is
    called only when every part of the kernel that it uses is initialised, and no part is
    initialised twice; a hart is in the scheduler only when all parts of the kernel that
    the harts share and all of its own are initialised; the harts take a bounded number of
    steps, and when none can take one all are in the scheduler. *)
Theorem main_starts (n : nat) (hs : list nat) (s : bst) :
  (0 < n)%nat -> boots hs (power_on n) = Some s ->
  in_order (calls s) /\ NoDup (inited (calls s)) /\
  (forall h, pcs s !! h = Some Scheduler -> forall r, hart_of r = 0%nat \/ hart_of r = h -> r ∈ inited (calls s)) /\
  (length hs <= left_sum (pcs (power_on n)))%nat /\
  ((forall h, main h s = None) -> pcs s = replicate n Scheduler).
Proof.
  intros Hn E. destruct (boots_inv n _ _ _ (power_on_inv n Hn) E) as [I Hl]. pose proof I as [I1 I2 I3 I4 I5 I6 I7 I8].
  split; [done|]. split; [done|]. split; [|split; [lia|]].
  - intros h Hh r [Hr|Hr].
    + apply (started_inited n); [done| |done]. destruct (decide (h = 0)%nat) as [->|Hne]; [by apply I6|].
      destruct (I4 _ _ Hh Hne) as [?|[?|Hs]]; done.
    + pose proof (I2 _ _ Hh) as Hc. cbn in Hc. apply (hart_inited h). rewrite Hc. by apply calls_of_inits.
  - intros Hnone. assert (forall h p, pcs s !! h = Some p -> p = Scheduler \/ (p = Spin /\ started s = false)) as Hp.
    { intros h p Hp. specialize (Hnone h). unfold main in Hnone. rewrite Hp in Hnone. destruct p as [| |[|c r]|]; try done; [|by left].
      destruct (started s); [done|by right]. }
    assert (pcs s !! 0%nat = Some Scheduler) as H0.
    { destruct (lookup_lt_is_Some_2 (pcs s) 0) as [p Hp0]; [lia|]. destruct (Hp _ _ Hp0) as [->|[-> _]]; [done|congruence]. }
    symmetry. apply replicate_as_elem_of. split; [done|]. intros p [h Hh]%list_elem_of_lookup. destruct (Hp _ _ Hh) as [->|[_ Hs]]; [done|].
    apply I6 in H0. congruence.
Qed.
Lemma main_starts_witness : exists s,
  boots ([1] ++ replicate 18 0 ++ replicate 6 1)%nat (power_on 2) = Some s /\ pcs s = [Scheduler; Scheduler] /\ RDisk ∈ inited (calls s).
Proof.
  destruct (boots ([1] ++ replicate 18 0 ++ replicate 6 1)%nat (power_on 2)) as [s|] eqn:E; [|vm_compute in E; discriminate E].
  destruct (main_starts 2 _ s ltac:(lia) E) as (_ & _ & H & _). exists s. split; [reflexivity|].
  assert (pcs s = [Scheduler; Scheduler]) as Hs by (vm_compute in E; injection E as <-; reflexivity).
  split; [exact Hs|]. apply (H 1%nat); [rewrite Hs; reflexivity|left; reflexivity].
Defined.
