(* ===== verification/Sched.v ===== *)
(** * Context switching: [scheduler], [sched], [yield], [sleep], [wakeup] of [kernel/proc.c]

    Several harts run the scheduler and processes, interleaved at every lock
    operation.  A process yields, exits, turns interrupts on or off, or calls
    [acquiresleep] and [releasesleep] (kernel/sleeplock.c) on a sleep lock, which call
    [sleep] and [wakeup].  A hart is either in the scheduler or in the code of a process; a
    process that does not run is saved where it called [swtch].  The theorem shows that
    the checks of [sched], [acquire], [release] and [pop_off] never fail, that a process
    runs on at most one hart and keeps its own interrupt state across [sched], and that
    no wakeup is lost. *)

From stdpp Require Import base gmap strings functions list.
From S2P Require Import Prelude Riscv Spinlock ProcData.

(** The locks: [p->lock], and the spin lock of the sleep lock. *)
Inductive lockid := LP (p : Z) | LK.
#[export] Instance lockid_eq_dec : EqDecision lockid.
Proof. solve_decision. Defined.

(** Where a process is in its code. *)
Inductive ppc :=
| PForkret                                  (* before [release] in [forkret] *)
| PRun                                      (* outside these functions *)
| PYieldAcq | PYieldSet | PYieldRel         (* [yield] *)
| PAslAcq | PAslTest | PAslTake | PAslRel   (* [acquiresleep] *)
| PSleepAcq | PSleepRelLk | PSleepSet | PSleepBack  (* [sleep] *)
| PRslAcq | PRslSet | PRslRel               (* [releasesleep] *)
| PWake (i : Z) | PWakeTest (i : Z) | PWakeRel (i : Z)  (* the loop of [wakeup] *)
| PExitAcq | PExitSet                       (* the end of [exit] *)
| PDead.                                    (* after [sched] in [exit] *)

#[export] Instance ppc_eq_dec : EqDecision ppc.
Proof. solve_decision. Defined.

(** What a hart executes: the start of the loop of [scheduler], its body at process [p],
    or process [p]. *)
Inductive hcode := ScLoop | ScAcquire (p : Z) | ScCheck (p : Z) | ScRelease (p : Z) | HP (p : Z) (c : ppc).

(** [sm_chan p] tells whether [p->chan] is the sleep lock; [sm_saved p] is where [p]
    continues, with the local variable [intena] of its [sched]; [sm_own] is the hart that
    holds a spin lock, [sm_cpu] the [struct cpu] and the interrupt bit of each hart, and
    [sm_locked] is the field [locked] of the sleep lock.  [sm_intr p] is no field of the
    code: it remembers whether [p] last had interrupts on outside the locks. *)
Record smach := mkSmach {
  sm_st : Z -> procstate; sm_chan : Z -> bool; sm_saved : Z -> ppc * bool;
  sm_own : lockid -> option Z; sm_cpu : Z -> cpu; sm_hs : Z -> hcode; sm_locked : bool; sm_intr : Z -> bool
}.
Definition w_st f (m : smach) := mkSmach f (sm_chan m) (sm_saved m) (sm_own m) (sm_cpu m) (sm_hs m) (sm_locked m) (sm_intr m).
Definition w_chan f (m : smach) := mkSmach (sm_st m) f (sm_saved m) (sm_own m) (sm_cpu m) (sm_hs m) (sm_locked m) (sm_intr m).
Definition w_saved f (m : smach) := mkSmach (sm_st m) (sm_chan m) f (sm_own m) (sm_cpu m) (sm_hs m) (sm_locked m) (sm_intr m).
Definition w_own o (m : smach) := mkSmach (sm_st m) (sm_chan m) (sm_saved m) o (sm_cpu m) (sm_hs m) (sm_locked m) (sm_intr m).
Definition w_cpu c (m : smach) := mkSmach (sm_st m) (sm_chan m) (sm_saved m) (sm_own m) c (sm_hs m) (sm_locked m) (sm_intr m).
Definition w_hs f (m : smach) := mkSmach (sm_st m) (sm_chan m) (sm_saved m) (sm_own m) (sm_cpu m) f (sm_locked m) (sm_intr m).
Definition w_locked b (m : smach) := mkSmach (sm_st m) (sm_chan m) (sm_saved m) (sm_own m) (sm_cpu m) (sm_hs m) b (sm_intr m).
Definition w_intr f (m : smach) := mkSmach (sm_st m) (sm_chan m) (sm_saved m) (sm_own m) (sm_cpu m) (sm_hs m) (sm_locked m) f.

(** An operation on the [struct cpu] of hart [h]. *)
Definition on_cpu (h : Z) (f : M cpu unit) : M smach unit :=
  zoom (fun m => sm_cpu m h) (fun c m => w_cpu (<[h := c]> (sm_cpu m)) m) f.

(** [acquire] and [release] on hart [h]; a hart that finds the lock taken spins. *)
Definition s_acquire (h : Z) (l : lockid) : M smach unit :=
  on_cpu h push_off ;;;
  do m <- get;
  match sm_own m l with
  | Some h' => if h' =? h then panic "acquire" else fun _ => Diverge
  | None => modify (w_own (<[l := Some h]> (sm_own m)))
  end.
Definition s_release (h : Z) (l : lockid) : M smach unit :=
  do m <- get;
  if bool_decide (sm_own m l = Some h)
  then modify (w_own (<[l := None]> (sm_own m))) ;;; on_cpu h pop_off
  else panic "release".
Definition goto (h : Z) (c : hcode) : M smach unit := modify (fun m => w_hs (<[h := c]> (sm_hs m)) m).
Definition set_pstate (p : Z) (x : procstate) : M smach unit := modify (fun m => w_st (<[p := x]> (sm_st m)) m).
Definition set_pchan (p : Z) (b : bool) : M smach unit := modify (fun m => w_chan (<[p := b]> (sm_chan m)) m).
(** [intr_on] and [intr_off]. *)
Definition set_intr (h : Z) (b : bool) : M smach unit :=
  on_cpu h (modify (fun c => if b then intr_on c else intr_off c)).
(** Process [p] runs on hart [h] outside the locks: its interrupt state is remembered. *)
Definition note (h p : Z) : M smach unit := modify (fun m => w_intr (<[p := intr_get (sm_cpu m h)]> (sm_intr m)) m).

(** [sched()] called by process [p] on hart [h]: the checks, the variable [intena], and
    [swtch] to the scheduler of the hart, which continues after its own [swtch]; [p]
    will continue at [c]. *)
Definition sched (h p : Z) (c : ppc) : M smach unit :=
  do m <- get;
  if negb (bool_decide (sm_own m (LP p) = Some h)) then panic "sched p->lock"
  else if negb (noff (sm_cpu m h) =? 1) then panic "sched locks"
  else if bool_decide (sm_st m p = RUNNING) then panic "sched running"
  else if intr_get (sm_cpu m h) then panic "sched interruptible"
  else
    modify (fun m => w_saved (<[p := (c, intena (sm_cpu m h))]> (sm_saved m)) m) ;;;
    goto h (ScRelease p).

(** [swtch] to process [p]: it continues in [forkret], or in [sched] after [swtch], where it
    restores [mycpu()->intena]. *)
Definition resume (h p : Z) : M smach unit :=
  do m <- get;
  let '(c, b) := sm_saved m p in
  (if bool_decide (c = PForkret) then return tt
   else on_cpu h (modify (fun x => {| noff := noff x; intena := b; sie := sie x |}))) ;;;
  goto h (HP p c).

(** What a process does next when it is free to choose. *)
Inductive choice := CYield | CAcquire | CRelease | CExit | CIntr (b : bool).

(** One step of hart [h] in the code of process [p]. *)
Definition proc_next (h p : Z) (c : ppc) (a : choice) : M smach unit :=
  let to c := goto h (HP p c) in
  match c with
  | PForkret => s_release h (LP p) ;;; note h p ;;; to PRun
  | PRun =>
      match a with
      | CYield => to PYieldAcq
      | CAcquire => to PAslAcq
      | CRelease => to PRslAcq
      | CExit => to PExitAcq
      | CIntr b => set_intr h b ;;; note h p ;;; to PRun
      end
  | PYieldAcq => s_acquire h (LP p) ;;; to PYieldSet
  | PYieldSet => set_pstate p RUNNABLE ;;; sched h p PYieldRel
  | PYieldRel => s_release h (LP p) ;;; to PRun
  | PAslAcq => s_acquire h LK ;;; to PAslTest
  | PAslTest => do m <- get; to (if sm_locked m then PSleepAcq else PAslTake)
  | PAslTake => modify (w_locked true) ;;; to PAslRel
  | PAslRel => s_release h LK ;;; to PRun
  | PSleepAcq => s_acquire h (LP p) ;;; to PSleepRelLk
  | PSleepRelLk => s_release h LK ;;; to PSleepSet
  | PSleepSet => set_pchan p true ;;; set_pstate p SLEEPING ;;; sched h p PSleepBack
  | PSleepBack => set_pchan p false ;;; s_release h (LP p) ;;; to PAslAcq
  | PRslAcq => s_acquire h LK ;;; to PRslSet
  | PRslSet => modify (w_locked false) ;;; to (PWake 0)
  | PWake i =>
      if i <? NPROC then
        if i =? p then to (PWake (i + 1)) else s_acquire h (LP i) ;;; to (PWakeTest i)
      else to PRslRel
  | PWakeTest i =>
      do m <- get;
      (if bool_decide (sm_st m i = SLEEPING) && sm_chan m i then set_pstate i RUNNABLE else return tt) ;;;
      to (PWakeRel i)
  | PWakeRel i => s_release h (LP i) ;;; to (PWake (i + 1))
  | PRslRel => s_release h LK ;;; to PRun
  | PExitAcq => s_acquire h (LP p) ;;; to PExitSet
  | PExitSet => set_pstate p ZOMBIE ;;; sched h p PDead
  | PDead => panic "zombie exit"
  end.

(** One step of hart [h]; [wfi], when no process could run, only waits. *)
Definition sch_next (h : Z) (a : choice) : M smach unit :=
  do m <- get;
  match sm_hs m h with
  | ScLoop => set_intr h true ;;; goto h (ScAcquire 0)
  | ScAcquire p => s_acquire h (LP p) ;;; goto h (ScCheck p)
  | ScCheck p =>
      if bool_decide (sm_st m p = RUNNABLE) then
        set_pstate p RUNNING ;;; resume h p
      else goto h (ScRelease p)
  | ScRelease p => s_release h (LP p) ;;; goto h (if p + 1 <? NPROC then ScAcquire (p + 1) else ScLoop)
  | HP p c => proc_next h p c a
  end.

Definition sch_step (m m' : smach) : Prop := exists h a, sch_next h a m = Ok tt m'.
(** All harts enter the scheduler; the processes of [runnable] can run. *)
Definition sch_init (runnable : Z -> bool) : smach :=
  mkSmach (fun p => if runnable p then RUNNABLE else UNUSED) (fun _ => false) (fun _ => (PForkret, false))
    (fun _ => None) (fun _ => mkCpu 0 false false) (fun _ => ScLoop) false (fun _ => false).

(** ** Locks *)

Definition holds (c : hcode) : list lockid :=
  match c with
  | ScLoop | ScAcquire _ => []
  | ScCheck p | ScRelease p => [LP p]
  | HP p c =>
      match c with
      | PForkret | PYieldSet | PYieldRel | PSleepSet | PSleepBack | PExitSet | PDead => [LP p]
      | PAslTest | PSleepAcq | PAslTake | PAslRel | PRslSet | PWake _ | PRslRel => [LK]
      | PSleepRelLk => [LP p; LK]
      | PWakeTest i | PWakeRel i => [LP i; LK]
      | PRun | PYieldAcq | PAslAcq | PRslAcq | PExitAcq => []
      end
  end.

Record lk_inv (own : lockid -> option Z) (cpus : Z -> cpu) (hs : Z -> hcode) : Prop := {
  lv_own : forall l h, own l = Some h <-> l ∈ holds (hs h);
  lv_noff : forall h, noff (cpus h) = Z.of_nat (length (holds (hs h)));
  lv_off : forall h, holds (hs h) <> [] -> sie (cpus h) = false
}.

(** The [struct cpu] after [push_off] and after [pop_off]. *)
Definition pushed1 (c : cpu) : cpu := {| noff := noff c + 1; intena := if noff c =? 0 then sie c else intena c; sie := false |}.
Definition popped1 (c : cpu) : cpu := {| noff := noff c - 1; intena := intena c; sie := (noff c - 1 =? 0) && intena c |}.
Lemma push_off_eq c : push_off c = Ok tt (pushed1 c).
Proof. unfold push_off, pushed1. cbn. by destruct (noff c =? 0). Qed.
Lemma pop_off_eq c : 1 <= noff c -> sie c = false -> pop_off c = Ok tt (popped1 c).
Proof.
  intros Hn Hs. unfold pop_off, popped1, intr_get. rewrite Hs. destruct (Z.ltb_spec (noff c) 1); [lia|]. cbn. destruct ((noff c - 1 =? 0) && intena c) eqn:E; [done|]. cbn. by rewrite ?Hs.
Qed.

Section locks.
Context (own : lockid -> option Z) (cpus : Z -> cpu) (hs : Z -> hcode) (V : lk_inv own cpus hs) (h : Z) (c : hcode).

Ltac harts h' := destruct (decide (h' = h)) as [->|Hh]; [rewrite ?fn_lookup_insert|rewrite ?fn_lookup_insert_ne by done].

(** The hart takes no lock; its nesting depth stays, and interrupts stay off if it holds one. *)
Lemma lk_keep cpus' : holds c = holds (hs h) -> (forall h', h' <> h -> cpus' h' = cpus h') -> noff (cpus' h) = noff (cpus h) ->
  (holds c <> [] -> sie (cpus' h) = sie (cpus h)) -> lk_inv own cpus' (<[h := c]> hs).
Proof using V.
  intros Hc Ho Hn Hs. destruct V as [V1 V2 V3]. split.
  - intros l h'. rewrite V1. harts h'; [by rewrite Hc|done].
  - intros h'. harts h'; [by rewrite Hn, V2, Hc|rewrite Ho by done; apply V2].
  - intros h'. harts h'; [intros Hne; rewrite Hs by done; apply V3; by rewrite <- Hc|rewrite Ho by done; apply V3].
Qed.
Lemma lk_acq l : own l = None -> holds c ≡ₚ l :: holds (hs h) -> lk_inv (<[l := Some h]> own) (<[h := pushed1 (cpus h)]> cpus) (<[h := c]> hs).
Proof using V.
  intros Hl Hc. destruct V as [V1 V2 V3]. split.
  - intros l' h'. destruct (decide (h' = h)) as [->|Hh].
    + rewrite fn_lookup_insert, Hc, elem_of_cons. destruct (decide (l' = l)) as [->|Hne].
      * rewrite fn_lookup_insert. tauto.
      * rewrite fn_lookup_insert_ne, V1 by done. tauto.
    + rewrite (fn_lookup_insert_ne hs) by done. rewrite <- V1. destruct (decide (l' = l)) as [->|Hne].
      * rewrite fn_lookup_insert, Hl. split; congruence.
      * by rewrite fn_lookup_insert_ne.
  - intros h'. harts h'; [|done]. cbn. rewrite V2, (Permutation_length Hc). cbn. lia.
  - intros h'. harts h'; [done|apply V3].
Qed.
Lemma lk_rel l : holds (hs h) ≡ₚ l :: holds c -> l ∉ holds c -> lk_inv (<[l := None]> own) (<[h := popped1 (cpus h)]> cpus) (<[h := c]> hs).
Proof using V.
  intros Hc Hl. destruct V as [V1 V2 V3]. assert (own l = Some h) as Ho by (apply V1; rewrite Hc; set_solver). split.
  - intros l' h'. destruct (decide (h' = h)) as [->|Hh].
    + rewrite fn_lookup_insert. destruct (decide (l' = l)) as [->|Hne].
      * rewrite fn_lookup_insert. split; [done|]. intros ?. done.
      * rewrite fn_lookup_insert_ne, V1, Hc, elem_of_cons by done. tauto.
    + rewrite (fn_lookup_insert_ne hs) by done. rewrite <- V1. destruct (decide (l' = l)) as [->|Hne].
      * rewrite fn_lookup_insert, Ho. split; congruence.
      * by rewrite fn_lookup_insert_ne.
  - intros h'. harts h'; [|done]. cbn. rewrite V2, (Permutation_length Hc). cbn. lia.
  - intros h'. harts h'; [|apply V3]. intros Hne. cbn. rewrite V2, (Permutation_length Hc). destruct (holds c); [done|]. cbn. rewrite (proj2 (Z.eqb_neq _ _)) by lia. done.
Qed.
(** A hart that holds a lock can release it. *)
Lemma lk_pop l : own l = Some h -> pop_off (cpus h) = Ok tt (popped1 (cpus h)).
Proof using V.
  intros Ho. destruct V as [V1 V2 V3]. apply V1 in Ho. assert (holds (hs h) <> []) as Hne by (intros E; rewrite E in Ho; by apply not_elem_of_nil in Ho).
  apply pop_off_eq; [|by apply V3]. rewrite V2. destruct (holds (hs h)); [done|]. cbn. lia.
Qed.
End locks.

(** ** Processes *)

Definition resumes (c : ppc) : Prop := c = PForkret \/ c = PYieldRel \/ c = PSleepBack.

Record pr_inv (m : smach) : Prop := {
  pv_run : forall h p c, sm_hs m h = HP p c -> sm_st m p = RUNNING;
  pv_one : forall h h' p c c', sm_hs m h = HP p c -> sm_hs m h' = HP p c' -> h = h';
  pv_on : forall p, sm_st m p = RUNNING -> exists h c, sm_hs m h = HP p c;
  pv_saved : forall p, sm_st m p = RUNNABLE -> resumes (sm_saved m p).1;
  pv_sleep : forall p, sm_st m p = SLEEPING -> (sm_saved m p).1 = PSleepBack /\ sm_chan m p = true
}.

(** The interrupt state of process [p] at [c]: the bit of the hart, or what [acquire] kept of it. *)
Definition intr_state (p : Z) (c : ppc) (x : cpu) : bool := match holds (HP p c) with [] => sie x | _ => intena x end.
Record in_inv (m : smach) : Prop := {
  nv_run : forall h p c, sm_hs m h = HP p c -> c <> PForkret -> intr_state p c (sm_cpu m h) = sm_intr m p;
  nv_saved : forall p, sm_st m p = RUNNABLE \/ sm_st m p = SLEEPING -> (sm_saved m p).1 <> PForkret -> (sm_saved m p).2 = sm_intr m p
}.

(** Process [p] is asleep, or has released the spin lock to sleep. *)
Definition asleep (m : smach) (p : Z) : Prop := sm_st m p = SLEEPING \/ exists h, sm_hs m h = HP p PSleepSet.
(** A [wakeup] at [c] has yet to look at process [p]. *)
Definition ahead (c : ppc) (p : Z) : Prop :=
  match c with PWake i | PWakeTest i => i <= p | PWakeRel i => i < p | _ => False end.

Record sch_inv (m : smach) : Prop := {
  si_lk : lk_inv (sm_own m) (sm_cpu m) (sm_hs m);
  si_pr : pr_inv m;
  si_in : in_inv m;
  si_dead : forall h p, sm_hs m h <> HP p PDead;
  si_test : forall h p c, sm_hs m h = HP p c -> c = PSleepAcq \/ c = PSleepRelLk -> sm_locked m = true;
  si_wake : forall p, 0 <= p < NPROC -> sm_locked m = false -> asleep m p -> exists h q c, sm_hs m h = HP q c /\ ahead c p
}.

Lemma hs_case (hs : Z -> hcode) h p c h' q d :
  (<[h := HP p c]> hs) h' = HP q d -> (h' = h /\ q = p /\ d = c) \/ (h' <> h /\ hs h' = HP q d).
Proof.
  destruct (decide (h' = h)) as [->|]; [rewrite fn_lookup_insert; intros [= -> ->]; by left|].
  rewrite fn_lookup_insert_ne by done. by right.
Qed.

(** A hart moves in the code of its process, nothing else changes in the table. *)
Section move.
Context (m : smach) (I : sch_inv m) (h p : Z) (c c' : ppc) (Hh : sm_hs m h = HP p c).

Lemma pr_move m' : sm_st m' = sm_st m -> sm_saved m' = sm_saved m -> (forall q, q <> p -> sm_chan m' q = sm_chan m q) ->
  sm_hs m' = <[h := HP p c']> (sm_hs m) -> pr_inv m'.
Proof using I Hh.
  intros Es Ev Ec Eh. destruct (si_pr _ I) as [P1 P2 P3 P4 P5]. split; rewrite ?Es, ?Ev, ?Eh.
  - intros h' q d [(-> & -> & ->)|[_ Hq]]%hs_case; eauto.
  - intros h1 h2 q d d' [(-> & -> & ->)|[N1 H1]]%hs_case [(-> & E2 & ->)|[N2 H2]]%hs_case; subst; eauto; try done.
  - intros q Hq. destruct (P3 q Hq) as (h1 & d & H1). destruct (decide (h1 = h)) as [->|Hne].
    + exists h, c'. rewrite Hh in H1. injection H1 as -> ->. by rewrite fn_lookup_insert.
    + exists h1, d. by rewrite fn_lookup_insert_ne.
  - exact P4.
  - intros q Hq. destruct (P5 q Hq) as [H1 H2]. split; [done|]. rewrite Ec; [done|].
    intros ->. rewrite (P1 _ _ _ Hh) in Hq. done.
Qed.

Lemma in_move m' : sm_st m' = sm_st m -> sm_saved m' = sm_saved m -> sm_hs m' = <[h := HP p c']> (sm_hs m) ->
  (forall h', h' <> h -> sm_cpu m' h' = sm_cpu m h') -> (forall q, q <> p -> sm_intr m' q = sm_intr m q) ->
  (c' <> PForkret -> intr_state p c' (sm_cpu m' h) = sm_intr m' p) -> in_inv m'.
Proof using I Hh.
  intros Es Ev Eh Ec Ei Hc. destruct (si_pr _ I) as [P1 P2 _ _ _], (si_in _ I) as [N1 N2]. split.
  - intros h' q d. rewrite Eh. intros [(-> & -> & ->)|[Hne Hq]]%hs_case; [done|]. rewrite Ec, Ei; [by apply N1|by intros ->; eauto|done].
  - intros q. rewrite Es, Ev. intros Hq. rewrite Ei; [by apply N2|]. intros ->. rewrite (P1 _ _ _ Hh) in Hq. by destruct Hq.
Qed.

(** The part about the sleep lock, when the step is not one of [wakeup]. *)
Lemma test_move : (c' = PSleepAcq \/ c' = PSleepRelLk -> sm_locked m = true) ->
  forall h' q d, (<[h := HP p c']> (sm_hs m)) h' = HP q d -> d = PSleepAcq \/ d = PSleepRelLk -> sm_locked m = true.
Proof using I. intros Hc h' q d [(-> & -> & ->)|[_ Hq]]%hs_case Hd; [by apply Hc|]. by eapply (si_test _ I). Qed.

Lemma asleep_move m' q : sm_st m' = sm_st m -> sm_hs m' = <[h := HP p c']> (sm_hs m) -> c' <> PSleepSet -> asleep m' q -> asleep m q.
Proof using.
  intros Es Eh Hc [Hs|[h' Hs]]; [left; by rewrite <- Es|]. rewrite Eh in Hs. apply hs_case in Hs as [(-> & -> & <-)|[_ Hs]]; [done|].
  right. by exists h'.
Qed.
Lemma wake_move m' : sm_st m' = sm_st m -> sm_hs m' = <[h := HP p c']> (sm_hs m) -> sm_locked m' = sm_locked m ->
  (c' <> PSleepSet \/ sm_locked m = true) ->
  (forall q, 0 <= q < NPROC -> ahead c q -> asleep m q -> ahead c' q) ->
  forall q, 0 <= q < NPROC -> sm_locked m' = false -> asleep m' q -> exists h' r d, sm_hs m' h' = HP r d /\ ahead d q.
Proof using I Hh.
  intros Es Eh Ee Hc Ha q Hq Hev Has. rewrite Ee in Hev. destruct Hc as [Hc|]; [|congruence].
  pose proof (asleep_move m' q Es Eh Hc Has) as Has0. destruct (si_wake _ I q Hq Hev Has0) as (h1 & r & d & H1 & H2). rewrite Eh.
  destruct (decide (h1 = h)) as [->|Hne].
  - rewrite Hh in H1. injection H1 as <- <-. exists h, p, c'. rewrite fn_lookup_insert. split; [done|]. by apply Ha.
  - exists h1, r, d. by rewrite fn_lookup_insert_ne.
Qed.

(** Such a move, of the fields that it does not concern. *)
Record moved (m' : smach) : Prop := {
  mo_st : sm_st m' = sm_st m; mo_saved : sm_saved m' = sm_saved m; mo_locked : sm_locked m' = sm_locked m;
  mo_chan : forall q, q <> p -> sm_chan m' q = sm_chan m q; mo_intr : forall q, q <> p -> sm_intr m' q = sm_intr m q;
  mo_cpu : forall h', h' <> h -> sm_cpu m' h' = sm_cpu m h'; mo_hs : sm_hs m' = <[h := HP p c']> (sm_hs m)
}.

Lemma inv_move m' : moved m' -> lk_inv (sm_own m') (sm_cpu m') (<[h := HP p c']> (sm_hs m)) ->
  (c' <> PForkret -> intr_state p c' (sm_cpu m' h) = sm_intr m' p) ->
  c' <> PDead -> (c' = PSleepAcq \/ c' = PSleepRelLk \/ c' = PSleepSet -> sm_locked m = true) ->
  (forall q, 0 <= q < NPROC -> ahead c q -> asleep m q -> ahead c' q) -> sch_inv m'.
Proof using I Hh.
  intros [Es Ev Ee Ec Ei Ecpu Eh] L Hi Hd Ht Ha. split; [by rewrite Eh|by eapply pr_move|by apply in_move| | |].
  - intros h' q. rewrite Eh. intros [(-> & -> & <-)|[_ Hq]]%hs_case; [done|]. by eapply (si_dead _ I).
  - rewrite Eh, Ee. apply test_move. intros H. apply Ht. tauto.
  - apply wake_move; [done|done|done| |done]. destruct (decide (c' = PSleepSet)); [right; apply Ht; tauto|by left].
Qed.
End move.

(** The outcome of a step: the invariant, or the hart spins. *)
Definition safe (r : outcome smach unit) : Prop :=
  match r with Ok _ m' => sch_inv m' | Diverge => True | _ => False end.

Lemma other_cpu (f : Z -> cpu) h x h' : h' <> h -> (<[h := x]> f) h' = f h'.
Proof. intros. by rewrite fn_lookup_insert_ne. Qed.

(** A lock operation of process [p] on hart [h], and the move to [c']. *)
Section lock_moves.
Context (m : smach) (I : sch_inv m) (h p : Z) (c c' : ppc) (Hh : sm_hs m h = HP p c).
Context (Hd : c' <> PDead) (Ht : c' = PSleepAcq \/ c' = PSleepRelLk \/ c' = PSleepSet -> sm_locked m = true).
Context (Ha : forall q, 0 <= q < NPROC -> ahead c q -> asleep m q -> ahead c' q).

Lemma safe_acquire l : holds (HP p c') ≡ₚ l :: holds (HP p c) -> l ∉ holds (HP p c) -> c <> PForkret -> safe ((s_acquire h l ;;; goto h (HP p c')) m).
Proof using I Hh Hd Ht Ha.
  intros Hp Hl Hf. unfold s_acquire, on_cpu, zoom, bind, goto. cbn -[push_off]. rewrite push_off_eq. cbn -[holds].
  destruct (sm_own m l) as [h'|] eqn:Ho.
  - destruct (Z.eqb_spec h' h) as [->|]; [|done]. apply (lv_own _ _ _ (si_lk _ I)) in Ho. rewrite Hh in Ho. done.
  - cbn -[holds]. eapply (inv_move m I h p c c' Hh); [split; try done; intros; by apply other_cpu|apply lk_acq; [apply I|done|by rewrite Hh]| |done|done|done].
    intros _. cbn -[holds]. rewrite fn_lookup_insert. pose proof (nv_run _ (si_in _ I) _ _ _ Hh Hf) as N. unfold intr_state in *.
    assert (holds (HP p c') <> []) as Hne by (intros E; rewrite E in Hp; by apply Permutation_nil_cons in Hp). destruct (holds (HP p c')); [done|]. cbn -[holds].
    rewrite (lv_noff _ _ _ (si_lk _ I)), Hh. by destruct (holds (HP p c)).
Qed.
Lemma safe_release l m1 : (forall q, q <> p -> sm_chan m1 q = sm_chan m q) -> w_chan (sm_chan m1) m = m1 ->
  holds (HP p c) ≡ₚ l :: holds (HP p c') -> l ∉ holds (HP p c') -> c <> PForkret ->
  safe ((s_release h l ;;; goto h (HP p c')) m1).
Proof using I Hh Hd Ht Ha.
  intros Hc E Hp Hl Hf. rewrite <- E. clear E. unfold s_release, on_cpu, zoom, bind, goto. cbn -[pop_off holds].
  assert (sm_own m l = Some h) as Ho by (apply (lv_own _ _ _ (si_lk _ I)); rewrite Hh, Hp; set_solver).
  rewrite bool_decide_true by done. cbn -[pop_off holds]. rewrite (lk_pop _ _ _ (si_lk _ I) h l Ho). cbn -[holds].
  eapply (inv_move m I h p c c' Hh); [split; try done; intros; by apply other_cpu|apply lk_rel; [apply I|by rewrite Hh|done]| |done|done|done].
  intros _. cbn -[holds]. rewrite fn_lookup_insert. pose proof (nv_run _ (si_in _ I) _ _ _ Hh Hf) as N. unfold intr_state in *.
  pose proof (lv_noff _ _ _ (si_lk _ I) h) as En. rewrite Hh in En. rewrite (Permutation_length Hp) in En. cbn -[holds] in En.
  assert (holds (HP p c) <> []) as Hne by (intros E; rewrite E in Hp; by apply Permutation_nil_cons in Hp). destruct (holds (HP p c)); [done|].
  destruct (holds (HP p c')); cbn -[holds]; [|done]. rewrite En. done.
Qed.
Lemma safe_goto : holds (HP p c') = holds (HP p c) -> c <> PForkret -> safe (goto h (HP p c') m).
Proof using I Hh Hd Ht Ha.
  intros Hp Hf. cbn -[holds]. eapply (inv_move m I h p c c' Hh); [by split|apply (lk_keep _ _ _ (si_lk _ I)); [by rewrite Hh|done|done|done]| |done|done|done].
  intros _. cbn -[holds]. unfold intr_state. rewrite Hp. by apply (nv_run _ (si_in _ I)).
Qed.
End lock_moves.

(** [forkret] releases the lock that the scheduler took. *)
Lemma safe_forkret m h p : sch_inv m -> sm_hs m h = HP p PForkret -> safe ((s_release h (LP p) ;;; note h p ;;; goto h (HP p PRun)) m).
Proof.
  intros I Hh. unfold s_release, on_cpu, zoom, bind, note, goto. cbn -[pop_off holds].
  assert (sm_own m (LP p) = Some h) as Ho by (apply (lv_own _ _ _ (si_lk _ I)); rewrite Hh; set_solver).
  rewrite bool_decide_true by done. cbn -[pop_off holds]. rewrite (lk_pop _ _ _ (si_lk _ I) h _ Ho). cbn -[holds].
  eapply (inv_move m I h p PForkret PRun Hh); [split; try done; cbn; intros; [by rewrite fn_lookup_insert_ne|by apply other_cpu]|apply lk_rel; [apply I|by rewrite Hh|apply not_elem_of_nil]| |done|intros [|[|]]; done|done].
  intros _. cbn. by rewrite !fn_lookup_insert.
Qed.
(** A process outside the locks turns interrupts on or off. *)
Lemma safe_intr m h p b : sch_inv m -> sm_hs m h = HP p PRun -> safe ((set_intr h b ;;; note h p ;;; goto h (HP p PRun)) m).
Proof.
  intros I Hh. unfold set_intr, on_cpu, zoom, bind, note, goto. cbn -[holds].
  eapply (inv_move m I h p PRun PRun Hh); [split; try done; cbn; intros; [by rewrite fn_lookup_insert_ne|by apply other_cpu]| | |done|intros [|[|]]; done|done].
  - apply (lk_keep _ _ _ (si_lk _ I)); [by rewrite Hh|intros; by apply other_cpu|cbn; rewrite fn_lookup_insert; by destruct b|done].
  - intros _. cbn. by rewrite !fn_lookup_insert.
Qed.

(** A hart in the scheduler. *)
Section scheduler_moves.
Context (m : smach) (I : sch_inv m) (h : Z) (c c' : hcode) (Hh : sm_hs m h = c).
Context (Hc : forall p d, c <> HP p d) (Hc' : forall p d, c' <> HP p d).

Lemma hs_sched h' q d : (<[h := c']> (sm_hs m)) h' = HP q d <-> sm_hs m h' = HP q d.
Proof using Hh Hc Hc'.
  destruct (decide (h' = h)) as [->|]; [|by rewrite fn_lookup_insert_ne]. rewrite fn_lookup_insert, Hh. split; intros E; [by apply Hc' in E|by apply Hc in E].
Qed.
Lemma inv_sched m' : sm_st m' = sm_st m -> sm_saved m' = sm_saved m -> sm_chan m' = sm_chan m -> sm_locked m' = sm_locked m -> sm_intr m' = sm_intr m ->
  (forall h', h' <> h -> sm_cpu m' h' = sm_cpu m h') ->
  sm_hs m' = <[h := c']> (sm_hs m) -> lk_inv (sm_own m') (sm_cpu m') (<[h := c']> (sm_hs m)) -> sch_inv m'.
Proof using I Hh Hc Hc'.
  intros Es Ev Ec Ee Ei Ecpu Eh L. destruct (si_pr _ I) as [P1 P2 P3 P4 P5].
  assert (forall h' q d, sm_hs m' h' = HP q d <-> sm_hs m h' = HP q d) as HE by (intros; rewrite Eh; apply hs_sched).
  split; [by rewrite Eh| | | | |].
  - split; rewrite ?Es, ?Ev, ?Ec; [|intros h1 h2 p d d'; rewrite !HE; apply P2| |done|done].
    + intros h' p d. rewrite HE. apply P1.
    + intros p Hp. destruct (P3 p Hp) as (h' & d & H'). exists h', d. by rewrite HE.
  - destruct (si_in _ I) as [N1 N2]. split; rewrite ?Es, ?Ev, ?Ei; [|done]. intros h' p d. rewrite HE. intros H'. rewrite Ecpu; [by apply N1|].
    intros ->. rewrite Hh in H'. by apply Hc in H'.
  - intros h' p. rewrite HE. apply I.
  - intros h' p d. rewrite HE, Ee. apply I.
  - intros p Hp. rewrite Ee. intros Hev Has. destruct (si_wake _ I p Hp Hev) as (h' & q & d & H1 & H2).
    + destruct Has as [Has|[h' Has]]; [left; by rewrite <- Es|right; exists h'; by apply HE].
    + exists h', q, d. by rewrite HE.
Qed.
End scheduler_moves.

(** [swtch] from the scheduler to the process. *)
Lemma inv_switch_in m h p m' : sch_inv m -> sm_hs m h = ScCheck p -> sm_st m p = RUNNABLE -> let c := (sm_saved m p).1 in
  sm_st m' = <[p := RUNNING]> (sm_st m) -> sm_saved m' = sm_saved m -> sm_chan m' = sm_chan m -> sm_own m' = sm_own m -> sm_locked m' = sm_locked m -> sm_intr m' = sm_intr m ->
  sm_hs m' = <[h := HP p c]> (sm_hs m) -> (forall h', h' <> h -> sm_cpu m' h' = sm_cpu m h') ->
  noff (sm_cpu m' h) = noff (sm_cpu m h) -> sie (sm_cpu m' h) = sie (sm_cpu m h) -> (c <> PForkret -> intena (sm_cpu m' h) = (sm_saved m p).2) -> sch_inv m'.
Proof.
  intros I Hh Hp c Es Ev Ec Eo El Ei Eh Ecpu En Esi Ein. destruct (si_pr _ I) as [P1 P2 P3 P4 P5]. pose proof (P4 p Hp) as Hres. fold c in Hres.
  assert (forall h' q d, sm_hs m h' = HP q d -> q <> p) as Hnp by (intros h' q d H' ->; rewrite (P1 _ _ _ H') in Hp; done).
  assert (holds (HP p c) = [LP p]) as Hhold by (by destruct Hres as [->|[->| ->]]).
  split; rewrite ?Es, ?Ev, ?Ec, ?Eo, ?El, ?Ei, ?Eh.
  - apply (lk_keep _ _ _ (si_lk _ I)); [by rewrite Hh|done|done|done].
  - split; rewrite ?Es, ?Ev, ?Ec, ?Eh.
    + intros h' q d [(-> & -> & ->)|[_ H']]%hs_case; [by rewrite fn_lookup_insert|]. rewrite fn_lookup_insert_ne by (by apply not_eq_sym; eapply Hnp). eauto.
    + intros h1 h2 q d d' [(-> & -> & ->)|[N1 H1]]%hs_case [(-> & E2 & ->)|[N2 H2]]%hs_case; subst; eauto; exfalso; by eapply Hnp.
    + intros q. destruct (decide (q = p)) as [->|Hq].
      * intros _. exists h, c. by rewrite fn_lookup_insert.
      * rewrite fn_lookup_insert_ne by done. intros Hr. destruct (P3 q Hr) as (h' & d & H'). exists h', d.
        rewrite fn_lookup_insert_ne; [done|]. intros ->. congruence.
    + intros q. destruct (decide (q = p)) as [->|Hq]; [by rewrite fn_lookup_insert|]. rewrite fn_lookup_insert_ne by done. apply P4.
    + intros q. destruct (decide (q = p)) as [->|Hq]; [by rewrite fn_lookup_insert|]. rewrite fn_lookup_insert_ne by done. apply P5.
  - destruct (si_in _ I) as [N1 N2]. split; rewrite ?Es, ?Ev, ?Ei, ?Eh.
    + intros h' q d [(-> & -> & ->)|[Hne H']]%hs_case Hd; [|rewrite Ecpu by done; by apply N1]. unfold intr_state. rewrite Hhold, Ein by done. apply N2; [by left|done].
    + intros q. destruct (decide (q = p)) as [->|Hq]; [rewrite fn_lookup_insert; by intros [|]|]. rewrite fn_lookup_insert_ne by done. apply N2.
  - intros h' q [(-> & -> & E)|[_ H']]%hs_case; [|by eapply (si_dead _ I)]. destruct Hres as [Hres|[Hres|Hres]]; congruence.
  - intros h' q d [(-> & -> & ->)|[_ H']]%hs_case Hd; [|by eapply (si_test _ I)]. exfalso. destruct Hres as [Hres|[Hres|Hres]], Hd; congruence.
  - intros q Hq Hev Has. destruct (si_wake _ I q Hq Hev) as (h' & r & d & H1 & H2).
    + destruct Has as [Has|[h' Has]]; rewrite ?Es, ?Eh in Has.
      * left. destruct (decide (q = p)) as [->|]; [by rewrite fn_lookup_insert in Has|by rewrite fn_lookup_insert_ne in Has].
      * right. apply hs_case in Has as [(-> & -> & E)|[_ Has]]; [exfalso; destruct Hres as [Hres|[Hres|Hres]]; congruence|by exists h'].
    + exists h', r, d. rewrite fn_lookup_insert_ne; [done|]. intros ->. congruence.
Qed.
Lemma safe_switch_in m h p : sch_inv m -> sm_hs m h = ScCheck p -> sm_st m p = RUNNABLE -> safe ((set_pstate p RUNNING ;;; resume h p) m).
Proof.
  intros I Hh Hp. unfold set_pstate. rewrite bind_modify. unfold resume, bind at 1. cbn -[on_cpu]. destruct (sm_saved m p) as [c b] eqn:E.
  case_bool_decide as Hc; unfold on_cpu, zoom, bind, goto; cbn; apply (inv_switch_in m h p); cbn; rewrite ?E; cbn; try done.
  - intros h' Hne. by apply other_cpu.
  - by rewrite fn_lookup_insert.
  - by rewrite fn_lookup_insert.
  - by rewrite fn_lookup_insert.
Qed.

(** [sched]: the process goes to state [x] and is saved at [c']. *)
Lemma safe_sched m h p c c' x f : sch_inv m -> sm_hs m h = HP p c -> holds (HP p c) = [LP p] -> c <> PForkret -> x <> RUNNING ->
  (x = RUNNABLE -> resumes c') -> (x = SLEEPING -> c' = PSleepBack /\ f p = true /\ c = PSleepSet) -> (forall q, q <> p -> f q = sm_chan m q) -> (forall q, ~ ahead c q) ->
  safe (sched h p c' (w_st (<[p := x]> (sm_st m)) (w_chan f m))).
Proof.
  intros I Hh Hl Hnf Hx Hr Hs Hf Ha. destruct (si_lk _ I) as [V1 V2 V3]. destruct (si_pr _ I) as [P1 P2 P3 P4 P5]. unfold sched, bind. cbn -[holds].
  rewrite bool_decide_true by (apply V1; rewrite Hh, Hl; set_solver). cbn -[holds]. rewrite V2, Hh, Hl. cbn -[holds].
  rewrite fn_lookup_insert, bool_decide_false by done. cbn -[holds]. unfold intr_get. rewrite V3 by (by rewrite Hh, Hl). cbn -[holds].
  assert (forall h' q d, (<[h := ScRelease p]> (sm_hs m)) h' = HP q d -> sm_hs m h' = HP q d /\ q <> p) as HE.
  { intros h' q d. destruct (decide (h' = h)) as [->|Hne]; [by rewrite fn_lookup_insert|]. rewrite fn_lookup_insert_ne by done.
    intros H'. split; [done|]. intros ->. apply Hne. by eapply P2. }
  split; cbn -[holds].
  - apply (lk_keep _ _ _ (si_lk _ I)); [by rewrite Hh, Hl|done|done|done].
  - split; cbn -[holds].
    + intros h' q d [H' Hq]%HE. rewrite fn_lookup_insert_ne by done. eauto.
    + intros h1 h2 q d d' [H1 _]%HE [H2 _]%HE. eauto.
    + intros q. destruct (decide (q = p)) as [->|Hq]; [by rewrite fn_lookup_insert|]. rewrite fn_lookup_insert_ne by done.
      intros Hq'. destruct (P3 q Hq') as (h' & d & H'). exists h', d. rewrite fn_lookup_insert_ne; [done|]. intros ->. congruence.
    + intros q. destruct (decide (q = p)) as [->|Hq]; rewrite ?fn_lookup_insert, ?fn_lookup_insert_ne by done; [done|apply P4].
    + intros q. destruct (decide (q = p)) as [->|Hq]; rewrite ?fn_lookup_insert, ?fn_lookup_insert_ne by done.
      * intros E. by destruct (Hs E) as (-> & -> & _).
      * rewrite Hf by done. apply P5.
  - destruct (si_in _ I) as [N1 N2]. split; cbn -[holds].
    + intros h' q d [H' _]%HE. by apply N1.
    + intros q. destruct (decide (q = p)) as [->|Hq]; rewrite ?fn_lookup_insert, ?fn_lookup_insert_ne by done; [|apply N2].
      intros _ _. cbn -[holds]. pose proof (N1 _ _ _ Hh Hnf) as N. unfold intr_state in N. by rewrite Hl in N.
  - intros h' q [H' _]%HE. by eapply (si_dead _ I).
  - intros h' q d [H' _]%HE. by eapply (si_test _ I).
  - intros q Hq Hev Has. destruct (si_wake _ I q Hq Hev) as (h' & r & d & H1 & H2).
    + destruct Has as [Has|[h' [Has _]%HE]]; cbn in Has; [|right; by exists h'].
      destruct (decide (q = p)) as [->|]; [|left; by rewrite fn_lookup_insert_ne in Has].
      rewrite fn_lookup_insert in Has. destruct (Hs Has) as (_ & _ & ->). right. by exists h.
    + exists h', r, d. rewrite fn_lookup_insert_ne; [done|]. intros ->. rewrite Hh in H1. injection H1 as <- <-. by apply Ha in H2.
Qed.

Lemma lock_unique m l h h' : sch_inv m -> l ∈ holds (sm_hs m h) -> l ∈ holds (sm_hs m h') -> h = h'.
Proof. intros I H1 H2. apply (lv_own _ _ _ (si_lk _ I)) in H1, H2. congruence. Qed.

(** [wakeup] makes a sleeping process runnable. *)
Lemma inv_wake m i : sch_inv m -> sm_st m i = SLEEPING -> sch_inv (w_st (<[i := RUNNABLE]> (sm_st m)) m).
Proof.
  intros I Hi. destruct (si_pr _ I) as [P1 P2 P3 P4 P5]. destruct (P5 i Hi) as [Hsv _].
  split; cbn; [apply I| | |apply I|apply I|].
  - split; cbn; [|done| | |].
    + intros h p c Hh. destruct (decide (p = i)) as [->|]; [rewrite (P1 _ _ _ Hh) in Hi; done|]. rewrite fn_lookup_insert_ne by done. eauto.
    + intros p. destruct (decide (p = i)) as [->|]; [by rewrite fn_lookup_insert|]. rewrite fn_lookup_insert_ne by done. apply P3.
    + intros p. destruct (decide (p = i)) as [->|]; [intros _; rewrite Hsv; right; by right|]. rewrite fn_lookup_insert_ne by done. apply P4.
    + intros p. destruct (decide (p = i)) as [->|]; [by rewrite fn_lookup_insert|]. rewrite fn_lookup_insert_ne by done. apply P5.
  - destruct (si_in _ I) as [N1 N2]. split; cbn; [done|]. intros p. destruct (decide (p = i)) as [->|]; [intros _; apply N2; by right|]. rewrite fn_lookup_insert_ne by done. apply N2.
  - intros p Hp Hev Has. apply (si_wake _ I p Hp Hev). destruct Has as [Has|Has]; [|by right]. cbn in Has. left.
    destruct (decide (p = i)) as [->|]; [by rewrite fn_lookup_insert in Has|by rewrite fn_lookup_insert_ne in Has].
Qed.

(** A process that [wakeup] has just looked at is not asleep. *)
Lemma not_asleep_after m h p i q : sch_inv m -> sm_hs m h = HP p (PWakeTest i) -> sm_st m i <> SLEEPING ->
  ahead (PWakeTest i) q -> asleep m q -> ahead (PWakeRel i) q.
Proof.
  intros I Hh Hi Ha Has. cbn in *. destruct (decide (q = i)) as [->|]; [|lia]. exfalso. destruct Has as [|[h' Hs]]; [done|].
  assert (h' = h) as -> by (eapply (lock_unique m (LP i)); [done|rewrite Hs; set_solver|rewrite Hh; set_solver]). congruence.
Qed.

Lemma safe_wake_test m h p i : sch_inv m -> sm_hs m h = HP p (PWakeTest i) ->
  safe (((if bool_decide (sm_st m i = SLEEPING) && sm_chan m i then set_pstate i RUNNABLE else return tt) ;;; goto h (HP p (PWakeRel i))) m).
Proof.
  intros I Hh. destruct (bool_decide_reflect (sm_st m i = SLEEPING)) as [Hi|Hi]; cbn [andb].
  - rewrite (proj2 (pv_sleep _ (si_pr _ I) i Hi)). unfold set_pstate. rewrite bind_modify.
    apply (safe_goto _ (inv_wake m i I Hi) h p (PWakeTest i)); [done|done|intros [|[|]]; done| |done|done].
    intros q _ Ha Has. eapply (not_asleep_after (w_st (<[i := RUNNABLE]> (sm_st m)) m) h p); [by apply inv_wake|done| |done|done].
    cbn. by rewrite fn_lookup_insert.
  - rewrite bind_ret. apply (safe_goto _ I h p (PWakeTest i)); [done|done|intros [|[|]]; done| |done|done].
    intros q _ Ha Has. by eapply (not_asleep_after m h p).
Qed.

(** [releasesleep] frees the sleep lock and starts [wakeup]; [acquiresleep] takes it. *)
Lemma safe_set_locked m h p c c' b : sch_inv m -> sm_hs m h = HP p c -> holds (HP p c) = [LK] -> holds (HP p c') = [LK] -> c' <> PSleepAcq ->
  (b = false -> c' = PWake 0) -> safe ((modify (w_locked b) ;;; goto h (HP p c')) m).
Proof.
  intros I Hh Hl Hl' Hns Hb. cbn -[holds]. assert (forall h' q d, sm_hs m h' = HP q d -> h' <> h -> d <> PSleepAcq /\ d <> PSleepRelLk) as Hno.
  { intros h' q d H' Hne. split; intros ->; apply Hne; eapply (lock_unique m LK); try done; rewrite ?H', ?Hh, ?Hl; set_solver. }
  split; cbn -[holds].
  - apply (lk_keep _ _ _ (si_lk _ I)); [by rewrite Hh, Hl, Hl'|done|done|done].
  - by eapply (pr_move m I h p c c').
  - eapply (in_move m I h p c c' Hh); try done. intros _. cbn -[holds]. unfold intr_state. rewrite Hl'.
    assert (c <> PForkret) as Hf by (intros ->; done). pose proof (nv_run _ (si_in _ I) _ _ _ Hh Hf) as N. unfold intr_state in N. by rewrite Hl in N.
  - intros h' q [(-> & -> & <-)|[_ H']]%hs_case; [done|by eapply (si_dead _ I)].
  - intros h' q d [(-> & -> & ->)|[Hne H']]%hs_case [-> | ->]; [done|done| |]; destruct (Hno _ _ _ H' Hne); done.
  - intros q Hq -> _. exists h, p, c'. rewrite fn_lookup_insert. split; [done|]. rewrite Hb by done. cbn. lia.
Qed.

Lemma chan_id m : w_chan (sm_chan m) m = m.
Proof. by destruct m. Qed.

(** The side conditions of the moves that do not concern [sleep] and [wakeup]. *)
Ltac plain := solve [done | intros [|[|]]; done | intros ? _ [] | by apply not_elem_of_nil | set_solver].

Lemma proc_next_safe m h p c a : sch_inv m -> sm_hs m h = HP p c -> safe (proc_next h p c a m).
Proof.
  intros I Hh. destruct c; unfold proc_next.
  - by apply safe_forkret.
  - destruct a as [| | | |b]; [apply (safe_goto m I h p PRun _ Hh); plain..|by apply safe_intr].
  - apply (safe_acquire m I h p PYieldAcq PYieldSet Hh); plain.
  - unfold set_pstate. rewrite bind_modify, <- (chan_id m). apply (safe_sched m h p PYieldSet PYieldRel RUNNABLE _ I Hh); try plain.
    intros _. right. by left.
  - apply (safe_release m I h p PYieldRel PRun Hh); try apply chan_id; plain.
  - apply (safe_acquire m I h p PAslAcq PAslTest Hh); plain.
  - unfold bind. cbn [get]. destruct (sm_locked m) eqn:Hev; apply (safe_goto m I h p PAslTest _ Hh); plain.
  - apply (safe_set_locked m h p PAslTake PAslRel true I Hh); plain.
  - apply (safe_release m I h p PAslRel PRun Hh); try apply chan_id; plain.
  - apply (safe_acquire m I h p PSleepAcq PSleepRelLk Hh); try plain. intros _. apply (si_test _ I _ _ _ Hh). by left.
  - apply (safe_release m I h p PSleepRelLk PSleepSet Hh); try apply chan_id; try plain; [|apply Permutation_swap].
    intros _. apply (si_test _ I _ _ _ Hh). by right.
  - unfold set_pchan, set_pstate. rewrite !bind_modify. apply (safe_sched m h p PSleepSet PSleepBack SLEEPING _ I Hh); try plain.
    + intros _. by rewrite fn_lookup_insert.
    + intros q Hq. by rewrite fn_lookup_insert_ne.
  - unfold set_pchan. rewrite bind_modify. apply (safe_release m I h p PSleepBack PAslAcq Hh); try apply chan_id; try plain.
    intros q Hq. cbn. by rewrite fn_lookup_insert_ne.
  - apply (safe_acquire m I h p PRslAcq PRslSet Hh); plain.
  - apply (safe_set_locked m h p PRslSet (PWake 0) false I Hh); plain.
  - apply (safe_release m I h p PRslRel PRun Hh); try apply chan_id; plain.
  - destruct (Z.ltb_spec i NPROC) as [Hi|Hi]; [destruct (Z.eqb_spec i p) as [->|Hne]|].
    + apply (safe_goto m I h p (PWake p) _ Hh); try plain. intros q _ Hq Has. cbn in *. destruct (decide (q = p)) as [->|]; [|lia].
      exfalso. destruct Has as [Has|[h' Has]]; [rewrite (pv_run _ (si_pr _ I) _ _ _ Hh) in Has; done|].
      pose proof (pv_one _ (si_pr _ I) _ _ _ _ _ Has Hh) as ->. congruence.
    + apply (safe_acquire m I h p (PWake i) (PWakeTest i) Hh); plain.
    + apply (safe_goto m I h p (PWake i) _ Hh); try plain. intros q Hq Ha. cbn in Ha. lia.
  - unfold bind at 1. cbn [get]. by apply safe_wake_test.
  - apply (safe_release m I h p (PWakeRel i) (PWake (i + 1)) Hh); try apply chan_id; try plain. intros q _ Hq _. cbn in *. lia.
  - apply (safe_acquire m I h p PExitAcq PExitSet Hh); plain.
  - unfold set_pstate. rewrite bind_modify, <- (chan_id m). apply (safe_sched m h p PExitSet PDead ZOMBIE _ I Hh); plain.
  - by apply (si_dead _ I) in Hh.
Qed.

Lemma sch_next_safe m h a : sch_inv m -> safe (sch_next h a m).
Proof.
  intros I. unfold sch_next. unfold bind at 1. cbn [get]. destruct (sm_hs m h) as [|p|p|p|p c] eqn:Hh.
  - unfold set_intr, on_cpu, zoom, bind, goto. cbn. eapply (inv_sched m I h _ (ScAcquire 0)); [exact Hh|done|done|done..|intros; by apply other_cpu|done|]. cbn.
    apply (lk_keep _ _ _ (si_lk _ I)); [by rewrite Hh|intros; by apply other_cpu|cbn; by rewrite fn_lookup_insert|done].
  - unfold s_acquire, on_cpu, zoom, bind, goto. cbn -[push_off]. rewrite push_off_eq. cbn. destruct (sm_own m (LP p)) as [h'|] eqn:Ho.
    + destruct (Z.eqb_spec h' h) as [->|]; [|done]. apply (lv_own _ _ _ (si_lk _ I)) in Ho. rewrite Hh in Ho. by apply not_elem_of_nil in Ho.
    + cbn. eapply (inv_sched m I h _ (ScCheck p)); [exact Hh|done|done|done..|intros; by apply other_cpu|done|]. cbn. apply lk_acq; [apply I|done|by rewrite Hh].
  - destruct (bool_decide_reflect (sm_st m p = RUNNABLE)) as [Hp|Hp].
    + by apply safe_switch_in.
    + cbn. eapply (inv_sched m I h _ (ScRelease p)); [exact Hh|done|done|done..|]. cbn. apply (lk_keep _ _ _ (si_lk _ I)); [by rewrite Hh|done|done|done].
  - assert (sm_own m (LP p) = Some h) as Ho by (apply (lv_own _ _ _ (si_lk _ I)); rewrite Hh; set_solver).
    unfold s_release, on_cpu, zoom, bind, goto. cbn -[pop_off]. rewrite bool_decide_true by done. cbn -[pop_off].
    rewrite (lk_pop _ _ _ (si_lk _ I) h _ Ho). cbn. set (c := if p + 1 <? NPROC then _ else _).
    eapply (inv_sched m I h _ c); [exact Hh|done|unfold c; by destruct (p + 1 <? NPROC)|done..|intros; by apply other_cpu|done|]. cbn.
    apply lk_rel; [apply I|rewrite Hh; unfold c; by destruct (p + 1 <? NPROC)|unfold c; destruct (p + 1 <? NPROC); apply not_elem_of_nil].
  - by apply proc_next_safe.
Qed.

Lemma sch_init_inv runnable : sch_inv (sch_init runnable).
Proof.
  split; cbn; [|split; cbn|split; cbn|done|done|].
  - split; cbn; [|done|done]. intros l h. split; [done|by intros ?%not_elem_of_nil].
  - done.
  - done.
  - intros p. by destruct (runnable p).
  - intros p _. by left.
  - intros p. by destruct (runnable p).
  - done.
  - done.
  - intros p _ _ [Hs|[h Hs]]; cbn in Hs; [by destruct (runnable p)|done].
Qed.

(** C2: harts run the scheduler and processes that yield, exit, turn interrupts on or off and
    call [acquiresleep] and [releasesleep] on a sleep lock, interleaved at every lock
    operation in any order.  In every reachable state: no further step panics, so the
    caller of [sched] holds its lock and no other, has changed its state and has
    interrupts off, and nobody releases a lock it does not hold, takes one twice or
    unbalances [push_off]; a process is RUNNING exactly when a hart executes it, and on one
    hart only; a process that is outside the locks has interrupts on or off as when it last
    was there, whatever hart it came back on; and no wakeup is lost: if a process sleeps
    while the sleep lock is free, some hart is inside a [wakeup] that has not come to that
    process yet. *)
Theorem sched_safe (runnable : Z -> bool) (m : smach) : star sch_step (sch_init runnable) m ->
  (forall h a, match sch_next h a m with Ok _ _ | Diverge => True | _ => False end) /\
  (forall p, sm_st m p = RUNNING <-> exists h c, sm_hs m h = HP p c) /\
  (forall p h h' c c', sm_hs m h = HP p c -> sm_hs m h' = HP p c' -> h = h') /\
  (forall p h, sm_hs m h = HP p PRun -> intr_get (sm_cpu m h) = sm_intr m p) /\
  (forall p, 0 <= p < NPROC -> sm_st m p = SLEEPING -> sm_locked m = false -> exists h q c, sm_hs m h = HP q c /\ ahead c p).
Proof.
  intros Hs. assert (sch_inv m) as I.
  { eapply star_invariant; [|exact Hs|apply sch_init_inv]. intros m1 m2 I1 (h & a & H). pose proof (sch_next_safe m1 h a I1) as Hn.
    by rewrite H in Hn. }
  split; [|split; [|split; [|split]]].
  - intros h a. pose proof (sch_next_safe m h a I) as Hn. unfold safe in Hn. by destruct (sch_next h a m).
  - intros p. split; [apply I|]. intros (h & c & H). by eapply (pv_run _ (si_pr _ I)).
  - intros p h h' c c'. apply I.
  - intros p h Hh. by apply (nv_run _ (si_in _ I) h p PRun).
  - intros p Hp Hsl Hev. apply (si_wake _ I p Hp Hev). by left.
Qed.

(** One hart: process 0 takes the sleep lock, process 1 goes to sleep on it, process 0 releases it. *)
Definition sleep_then_wake : list choice :=
  replicate 4 CYield ++ [CAcquire] ++ replicate 11 CYield ++ [CAcquire] ++ replicate 196 CYield ++ [CRelease] ++ replicate 2 CYield.
Fixpoint sch_run (l : list choice) : M smach unit :=
  match l with [] => return tt | a :: l => sch_next 0 a ;;; sch_run l end.
Lemma sch_run_star l m m' : sch_run l m = Ok tt m' -> star sch_step m m'.
Proof.
  revert m. induction l as [|a l IH]; intros m H; cbn in H.
  - injection H as <-. apply star_refl.
  - apply bind_inv in H as ([] & m1 & H1 & H2). eapply star_next; [by exists 0, a|by apply IH].
Qed.

Lemma sched_safe_witness : exists m, star sch_step (sch_init (fun p => p <? 2)) m /\ sm_st m 1 = SLEEPING /\ sm_locked m = false /\
  exists h q c, sm_hs m h = HP q c /\ ahead c 1.
Proof.
  assert (match sch_run sleep_then_wake (sch_init (fun p => p <? 2)) with Ok _ m => sm_st m 1 = SLEEPING /\ sm_locked m = false | _ => False end) as H
    by (vm_compute; split; reflexivity).
  destruct (sch_run sleep_then_wake (sch_init (fun p => p <? 2))) as [[] m| | |] eqn:Hr; [|destruct H..].
  destruct H as [H1 H2]. apply sch_run_star in Hr. exists m. split; [exact Hr|]. split; [exact H1|]. split; [exact H2|].
  destruct (sched_safe _ m Hr) as (_ & _ & _ & _ & Hw). apply Hw; [vm_compute; split; [intros [=]|reflexivity]|exact H1|exact H2].
Defined.
